(* ===== verification/_CoqProject ===== *)
-Q . S2P
Prelude.v
Buffers.v
KcpSegment.v
KcpCrypt.v
KcpPacket.v
KcpReceiving.v
KcpRoundTrip.v
KcpSending.v
KcpConnection.v
KcpProtocol.v
KcpServer.v
Netip.v
Mac.v
RuleItems.v
RuleMatch.v
RuleSem.v
RuleBuild.v
FakeIP.v
FakeIPServer.v
Outbounds.v
TlsFragment.v
Sniff.v
Srs.v
SrsRoundTrip.v
SrsExample.v
Bond.v
Heap.v
UploadQueue.v
XrayBuf.v
XrayPipe.v
GoText.v
GoHttp.v
Xhttp.v
XhttpRoundTrip.v
XhttpServer.v
XhttpUpload.v
XhttpExample.v
Failover.v
Kmutex.v
FailoverServer.v
SudokuGrid.v
SudokuLayout.v
SudokuCustom.v
SudokuTable.v
SudokuRand.v
SudokuConn.v
SudokuStream.v
SudokuPacked.v
SudokuPackedStream.v
SudokuPackedExact.v
SudokuExample.v
GoIo.v
GoIoExample.v
SudokuRecord.v
SudokuRecordExact.v
SudokuKip.v
SudokuReplay.v
SudokuHandshake.v
SudokuHandshakeExact.v
SudokuSession.v
SudokuSessionExample.v
SudokuMux.v
SudokuMuxExact.v
SudokuMuxClient.v
SudokuMuxExample.v
SimpleObfs.v
SimpleObfsExact.v
SimpleObfsHttp.v
SimpleObfsExample.v
PluginArgs.v
Geosite.v
LinkedList.v
LinkedListSpec.v
FairQueue.v
FairQueueRuns.v
ConnLimiter.v
Protobuf.v
Livekit.v
CallFrames.v
CallFramesExact.v
