(* ===== verification/Prelude.v ===== *)
(** * A verification development of sing-box-extended

    sing-box-extended is a proxy platform in Go: inbounds accept connections,
    the router matches them against rules (sniffing their protocol, looking
    up names, undoing fake addresses), outbounds carry them over transports.
    The files below model the parts of it that decide things (codecs, state
    machines, matching, allocation, start order) as executable definitions,
    translated from the source, and prove what they promise.  The parts that
    move bytes between sockets, call third-party protocol libraries or talk to
    the platform are not modelled.

    ** Conventions

    Go integers are [Z], with the wrap-around of their width written out
    ([u8], [u16], [u32], [u64]) where the code relies on it or could overflow.
    Bytes are [Z] in a [list Z] ([is_bytes]); slices are bounds-checked
    ([go_index], [go_slice], [go_from], [go_be]).  A function that may fail
    returns [res]: a value, an error message, or [Panic] where the run-time
    would raise.  State is passed explicitly: every method takes the record of
    its receiver and returns the changed one.  Goroutines, timers and the
    network appear as step relations closed with [rtc].  Code that is not in
    the repository is a type class of operations, with a second class for the
    documented laws a theorem needs; the witnesses instantiate both.  Loops
    that are not structural take fuel; running out of it is [Panic], and the
    theorems show that the fuel given is enough.

    ** The parts

    - [Prelude]: results, machine integers, big-endian numbers, slices, and
      the tactics that step through bounds-checked code ([go_step],
      [go_case], [go_lies]).
    - [Buffers]: the pooled buffer of the sing library, as an interface with
      its laws, and an implementation of it.
    - mKCP, a reliable transport over datagrams (src/transport/v2raykcp):
      [KcpSegment] (segment.go), [KcpCrypt] (crypt.go), [KcpPacket]
      (config.go, header.go and the packet reader and writer of dialer.go),
      [KcpReceiving] (receiving.go), [KcpRoundTrip] (RoundTripInfo of
      connection.go), [KcpSending] (sending.go), [KcpConnection]
      (connection.go, updater.go), [KcpServer] (listener.go).
      [KcpProtocol] joins a sender and a receiver by a network that loses,
      duplicates and reorders.
    - Rules (src/route/rule): [Netip] (addresses and prefixes of net/netip),
      [Mac] (hardware addresses, adapter/network.go), [RuleItems] (the
      conditions, one definition per rule_item_*.go), [RuleMatch]
      (rule_abstract.go, match_state.go, rule_set.go's items, the matches of
      rule_dns.go), [RuleSem] (what a rule means, and that matching computes
      it), [RuleBuild] (rule_headless.go: rules from options).
    - Fake addresses: [FakeIP] (src/dns/transport/fakeip: store.go,
      memory.go) and [FakeIPServer] (fakeip.go, the persisted metadata of
      adapter/fakeip_metadata.go, the buckets of
      experimental/cachefile/fakeip.go, the answers of dns/client.go and the
      way back in route/route.go).
    - [Outbounds] (src/adapter/outbound/manager.go): the manager of outbounds
      and its start order.
    - [TlsFragment] (src/common/tlsfragment: index.go, conn.go): cutting a
      ClientHello through its server name.
    - [Sniff] (src/common/sniff): the protocol sniffers and the loops that try
      them.
    - Rule-set files: [Srs] (src/common/srs, the version choice of
      cmd/sing-box/cmd_rule_set_compile.go), [SrsRoundTrip] (its theorems),
      [SrsExample] (implementations of the libraries it calls).
    - [Bond] (src/protocol/bond): connections bonded of several members.
    - Go's libraries, as far as the parts below use them: [Heap]
      (container/heap), [GoText] (strings, strconv, encoding/base64),
      [GoHttp] (headers and cookies of net/http).
    - The XHTTP transport (src/transport/v2rayxhttp,
      src/option/v2ray_transport.go): [UploadQueue] (upload_queue.go),
      [Xhttp] (options, xpadding.go, utils.go, dialer.go's requests and
      server.go's handler), [XhttpRoundTrip] (a request read back),
      [XhttpServer] (any request, and the life of sessions), [XhttpUpload]
      (writer.go and the upload loop of client.go, and an upload end to end),
      [XhttpExample] (an upload, for the witnesses).  [XrayBuf] and [XrayPipe]
      (src/common/xray: buf, pipe, signal) are the buffers and the pipe it
      uses.
    - Failover connections (src/protocol/failover): [Failover] (conn.go) and
      [FailoverServer] (protocol.go, inbound.go, strategy.go); [Kmutex]
      (src/common/kmutex) is the mutex per key that it and XHTTP use.
    - The Sudoku obfuscation (src/transport/sudoku/obfs/sudoku): [SudokuGrid]
      (grid.go, the search of table.go), [SudokuLayout] (layout.go),
      [SudokuCustom] (layouts of patterns are well formed), [SudokuTable]
      (table.go, table_set.go, ascii_mode.go), [SudokuRand] (rand.go,
      padding_prob.go, pending.go), [SudokuConn] (conn.go, encode.go),
      [SudokuStream] (its theorems), [SudokuPacked] (packed.go),
      [SudokuPackedStream] (writing it), [SudokuPackedExact] (reading it),
      [SudokuExample] (library functions for the witnesses, and runs).
    - [GoIo] is io.Reader, io.Writer and io.ReadFull ([GoIoExample]: readers and
      writers for the witnesses).  The Sudoku sessions
      (src/transport/sudoku): [SudokuRecord] (crypto/record_conn.go) and
      [SudokuRecordExact] (its theorems), [SudokuKip] (kip.go,
      write_chunks.go), [SudokuReplay] (replay.go), [SudokuHandshake]
      (handshake.go, handshake_kip.go, session_keys.go) and
      [SudokuHandshakeExact], [SudokuSession] (all of it over the obfuscated
      connections), [SudokuSessionExample] (library functions for the
      witnesses).  Streams over one session (multiplex/session.go): [SudokuMux],
      [SudokuMuxExact] (runs of a server), [SudokuMuxClient] (runs of a client,
      and both), [SudokuMuxExample] (runs).
    - Simple obfuscation (src/transport/simple-obfs): [SimpleObfs] (tls.go,
      tls_server.go), [SimpleObfsExact] (its theorems), [SimpleObfsHttp] (the
      answers of http.go and http_server.go), [SimpleObfsExample] (runs).
    - [PluginArgs] (src/transport/sip003/args.go): options of a plugin.
    - Geosite files (src/common/geosite): [Geosite].
    - Linked lists (src/common/list): [LinkedList] (the operations over a heap)
      and [LinkedListSpec] (the sequences they stand for).
    - Limiters (src/protocol/limiter): [FairQueue] (bandwidth/limiter.go) and
      [FairQueueRuns] (the calls that wait in it), [ConnLimiter]
      (connection/lock.go and strategy.go).  The flows of [FairQueue] are the
      sequences that [LinkedListSpec] shows the lists to implement.
    - Calls (src/transport/call): [Protobuf] (livekit/wire.go) and [Livekit]
      (livekit/messages.go), the messages of LiveKit; [CallFrames]
      (tunnel/protocol.go, tunnel/dctunnel.go, the payloads of
      tunnel/obfuscator.go) and [CallFramesExact] (its theorems), the frames
      that are carried over a data channel.

    The parts meet where the code does: [KcpPacket] carries [KcpSegment]
    segments sealed by an AEAD that [KcpCrypt] implements; [KcpConnection]
    composes [KcpSending], [KcpReceiving] and [KcpRoundTrip]; [KcpServer]
    dispatches to connections; [RuleBuild] produces what [RuleMatch]
    evaluates; [FakeIPServer] answers with what [FakeIP] allocates.

    ** What the theorems show

    - mKCP: datagrams are parsed safely and read back what was written; the
      receiver delivers every payload once and in order; the sending window
      holds exactly what is neither acknowledged nor passed; end to end, what
      is read is a prefix of what was written over any network; timeouts (of
      ends that follow the protocol) and windows stay in their bounds; a connection follows its state graph and
      terminates after [Close]; sessions do not interfere.
    - Rules: matching computes the declarative meaning of a rule, with its
      groups, rule sets and inversion (logical rules in a rule set that is
      referred to with a flag are left out, and an example shows why); the match before a DNS answer never
      rules out what the answer would match (except where the deferral is
      lost); rules built from options are well sorted.
    - Fake addresses: the two directions of the mapping agree, also when writes
      and resets of the storage fail, and the memory and the cache file are
      such storages; after a reset that worked, creation gives
      a usable address and is idempotent; an address keeps its name for as
      many creations as the range has; answers route back to the name;
      restarts keep the names.
    - Outbounds: started once and after their dependencies, or an error;
      the tables of the manager stay consistent.
    - TLS fragments: the name is found where it is, and the fragments make up
      the hello again.
    - Sniffers: the result of the BitTorrent, DNS, SSH and RDP sniffers does not
      depend on how the stream is cut, when nothing was cached before or
      BitTorrent is not tried, and the stream does not begin as both SSH and
      DNS do; nor (for packets) on the order of the sniffers.
    - Rule-set files: reading ends and never raises on any bytes; a rule set
      written and read back builds the same rules; the compile command picks
      the lowest version.
    - Bonds: members that arrive in any order are put together once and in
      order; what is written to a bond is read from it.
    - XHTTP: the server takes out of a request what the client put in, for
      every placement (names that differ, a padding key that can stand in a
      query, padding that can be generated); it answers any request once its
      push has returned; the queue hands out packets in order; no wake-up of the pipe is lost; no session leaks; and end to end,
      the server reads a first part of what the client wrote, and all of it
      once the requests have arrived.
    - Failover: messages that are read whole, with a slice that holds them, are
      read once and in order over carriers that fail, and a session is either
      restored without a gap or broken; requests of
      a session find their connection.  The keyed mutex excludes, and wakes
      the threads that wait in turn.
    - Sudoku obfuscation: the search finds all solved grids, and each has four
      hints of its own; the tables of any configuration decode the hints of a
      byte in any order; what is written through the plain and through the
      packed connection is what is read, for any randomness, padding, cutting
      of the stream and sizes of the reads.
    - Sudoku sessions: no record is accepted twice; a hello is refused when it
      comes again, for as long as its nonce is kept; the client and the server
      end the handshake with the same keys, and then each reads what the other
      wrote, through records and obfuscation, however the network cuts the
      stream.
    - Streams over a Sudoku session: in any interleaving, a stream of the
      server gives what was written to one stream of the client, in order, and
      all of it when that was closed; it holds no more than its limit.
    - Simple obfuscation, plugin options, geosite files: what is written is what
      is read, and no geosite file makes its reader panic.
    - Linked lists implement sequences, results and values included, also when an
      operation is given elements of another list.
    - Limiters: the fair queue loses no request and serves none twice, each flow
      in order, and between resets the flow that has used the least; a
      connection limiter lets as many ids through as it says and frees them.
    - Calls: messages of LiveKit are read back also among unknown fields, and
      the bytes on which the decoders panic are those with a long run of high
      bits; the frames of a data channel come out once and unchanged, in any
      order of its chunks.

    Some theorems state behaviour that differs from what the code means to do
    (an update with a stale clock, a lost deferral, network conditions that
    are dropped, a default outbound that is closed, small fake ranges, a
    reset that fails, a padding key that is not escaped); they document it as
    it is.

    ** Fuel and bounds

    The parsers take the length of their input as fuel: every iteration
    consumes at least one byte.  [extensions_loop] of [TlsFragment] is bounded
    for packets below 64 KiB; above that the code itself may not end.  The
    start order of [Outbounds] takes one round per outbound, since every round
    starts one or stops.  Theorems on 32-bit sequence numbers hold below the
    wrap-around and say so.

    ** Not modelled

    Sockets, dialers, listeners, TLS, QUIC and HTTP stacks, VPN devices and
    platform bindings are I/O around third-party code.  The daemon, the
    control APIs and the management services are servers over databases and
    generated gRPC code.  Options and their JSON are records of the models
    that read them.  Log output has no effect on the results.  Locks are taken
    as held: each operation under a lock is one step, and the order of steps
    is arbitrary where goroutines compete. *)

From Stdlib Require Export ZArith Lia Ascii.
From stdpp Require Export base list gmap strings.

#[global] Open Scope Z_scope.

(** ** Results of Go code

    A Go function that may fail returns [Ret] of its value, [Err] of its error
    message, or [Panic] when the run-time would raise (an index out of range,
    a division by zero, an explicit [panic]). *)
Inductive res (A : Type) : Type :=
| Ret (a : A)
| Err (e : string)
| Panic.
Arguments Ret {A} _.
Arguments Err {A} _.
Arguments Panic {A}.

#[global] Instance res_ret : MRet res := @Ret.

#[global] Instance res_bind : MBind res := fun A B (f : A -> res B) r =>
  match r with
  | Ret a => f a
  | Err e => Err e
  | Panic => Panic
  end.

(** [safe r]: the computation does not raise. *)
Definition safe {A} (r : res A) : Prop := r ≠ Panic.

Lemma safe_Ret {A} (a : A) : safe (Ret a).
Proof. done. Qed.

Lemma safe_Err {A} e : safe (@Err A e).
Proof. done. Qed.

Lemma safe_bind {A B} (f : A -> res B) (r : res A) :
  safe r -> (forall a, r = Ret a -> safe (f a)) -> safe (r ≫= f).
Proof. destruct r as [a| |]; cbn; [eauto|done|by intros []]. Qed.

Lemma Ret_inj {A} (a b : A) : Ret a = Ret b -> a = b.
Proof. by intros [=]. Qed.

Create HintDb go.
#[export] Hint Resolve safe_Ret safe_Err : go.

(** ** Machine integers

    A w-bit unsigned integer is a [Z]; the wrap-around of Go's unsigned
    arithmetic is written out. *)
Definition u8 (x : Z) : Z := x mod 2 ^ 8.
Definition u16 (x : Z) : Z := x mod 2 ^ 16.
Definition u32 (x : Z) : Z := x mod 2 ^ 32.
Definition u64 (x : Z) : Z := x mod 2 ^ 64.
Definition i64 (x : Z) : Z := (x + 2 ^ 63) mod 2 ^ 64 - 2 ^ 63.

Definition is_u8 (x : Z) : Prop := 0 <= x < 2 ^ 8.
Definition is_u16 (x : Z) : Prop := 0 <= x < 2 ^ 16.
Definition is_u32 (x : Z) : Prop := 0 <= x < 2 ^ 32.
Definition is_u64 (x : Z) : Prop := 0 <= x < 2 ^ 64.

Declare Scope go_scope.
Delimit Scope go_scope with go.
Notation "x ⊞ y" := (u32 (x + y)) (at level 50, left associativity) : go_scope.
Notation "x ⊟ y" := (u32 (x - y)) (at level 50, left associativity) : go_scope.
#[global] Open Scope go_scope.

Lemma u32_range x : is_u32 (u32 x).
Proof. unfold is_u32, u32. apply Z.mod_pos_bound. lia. Qed.

Lemma u16_range x : is_u16 (u16 x).
Proof. unfold is_u16, u16. apply Z.mod_pos_bound. lia. Qed.

Lemma u8_range x : is_u8 (u8 x).
Proof. unfold is_u8, u8. apply Z.mod_pos_bound. lia. Qed.

Lemma u32_id x : is_u32 x -> u32 x = x.
Proof. unfold is_u32, u32. apply Z.mod_small. Qed.

Lemma u16_id x : is_u16 x -> u16 x = x.
Proof. unfold is_u16, u16. apply Z.mod_small. Qed.

Lemma u8_id x : is_u8 x -> u8 x = x.
Proof. unfold is_u8, u8. apply Z.mod_small. Qed.

(** Modular subtraction of numbers that are in order is plain subtraction. *)
Lemma u32_sub_le a b : is_u32 a -> is_u32 b -> b <= a -> a ⊟ b = a - b.
Proof. intros. apply u32_id. unfold is_u32 in *. lia. Qed.

(** Modular subtraction of numbers out of order wraps once. *)
Lemma u32_sub_gt a b : is_u32 a -> is_u32 b -> a < b -> a ⊟ b = a - b + 2 ^ 32.
Proof.
  unfold is_u32, u32. intros.
  rewrite <- (Z.mod_add _ 1) by lia. rewrite Z.mod_small; lia.
Qed.

#[export] Hint Resolve u32_range u16_range u8_range : go.

(** ** Bytes: big-endian encodings *)

Definition is_bytes (bs : list Z) : Prop := Forall is_u8 bs.

(** The length of a slice as Go's [int]. *)
Definition zlen {A} (l : list A) : Z := Z.of_nat (length l).

(** The [n] bytes [binary.BigEndian.PutUint]{16,32,64} writes. *)
Fixpoint put_be (n : nat) (v : Z) : list Z :=
  match n with
  | O => []
  | S n' => (v / 256 ^ Z.of_nat n') mod 256 :: put_be n' v
  end.

Definition get_be (bs : list Z) : Z := foldl (fun acc b => acc * 256 + b) 0 bs.

Lemma length_put_be n v : length (put_be n v) = n.
Proof. induction n; simpl; auto. Qed.

Lemma get_be_acc bs acc :
  foldl (fun acc b => acc * 256 + b) acc bs = acc * 256 ^ zlen bs + get_be bs.
Proof.
  unfold get_be, zlen. revert acc.
  induction bs as [|b bs IH]; intros acc; simpl foldl.
  - simpl. lia.
  - rewrite IH, (IH (0 * 256 + b)). simpl length.
    rewrite Nat2Z.inj_succ, Z.pow_succ_r by lia. lia.
Qed.

Lemma get_be_cons b bs : get_be (b :: bs) = b * 256 ^ zlen bs + get_be bs.
Proof. unfold get_be at 1. simpl. rewrite get_be_acc. lia. Qed.

Lemma get_put_be n v : get_be (put_be n v) = v mod 256 ^ Z.of_nat n.
Proof.
  induction n as [|n IH]; simpl put_be.
  - simpl. rewrite Z.mod_1_r. done.
  - rewrite get_be_cons, IH. unfold zlen. rewrite length_put_be.
    rewrite Nat2Z.inj_succ, Z.pow_succ_r by lia.
    rewrite (Z.mul_comm 256), Z.rem_mul_r by lia. lia.
Qed.

Lemma put_be_bytes n v : is_bytes (put_be n v).
Proof.
  induction n; simpl; constructor; auto.
  unfold is_u8. apply Z.mod_pos_bound. lia.
Qed.

Lemma get_be_range bs : is_bytes bs -> 0 <= get_be bs < 256 ^ zlen bs.
Proof.
  induction 1 as [|b bs Hb _ IH].
  - unfold get_be, zlen. simpl. lia.
  - rewrite get_be_cons. unfold zlen in *. simpl length.
    rewrite Nat2Z.inj_succ, Z.pow_succ_r by lia. unfold is_u8 in Hb. nia.
Qed.

(** ** Slices: the bounds-checked primitives of Go *)

(** [bs[i]] *)
Definition go_index {A} (bs : list A) (i : Z) : res A :=
  if (0 <=? i) then
    match bs !! Z.to_nat i with Some b => Ret b | None => Panic end
  else Panic.

(** [bs[lo:hi]], of a slice whose capacity is its length. *)
Definition go_slice {A} (bs : list A) (lo hi : Z) : res (list A) :=
  if (0 <=? lo) && (lo <=? hi) && (hi <=? zlen bs)
  then Ret (take (Z.to_nat (hi - lo)) (drop (Z.to_nat lo) bs))
  else Panic.

(** [bs[lo:]] *)
Definition go_from {A} (bs : list A) (lo : Z) : res (list A) := go_slice bs lo (zlen bs).

(** [binary.BigEndian.Uint]{16,32,64}: reads the first [n] bytes, and raises
    on a shorter slice. *)
Definition go_be (n : nat) (bs : list Z) : res Z :=
  if (length bs <? n)%nat then Panic else Ret (get_be (take n bs)).

(** Unsigned division, which raises on a zero divisor. *)
Definition go_div (a b : Z) : res Z := if b =? 0 then Panic else Ret (a / b).

Lemma zlen_nonneg {A} (l : list A) : 0 <= zlen l.
Proof. unfold zlen. lia. Qed.

Lemma zlen_nil {A} : zlen (@nil A) = 0.
Proof. done. Qed.

Lemma zlen_cons {A} (x : A) l : zlen (x :: l) = 1 + zlen l.
Proof. unfold zlen. simpl. lia. Qed.

Lemma zlen_app {A} (l k : list A) : zlen (l ++ k) = zlen l + zlen k.
Proof. unfold zlen. rewrite length_app. lia. Qed.

Lemma zlen_put_be n v : zlen (put_be n v) = Z.of_nat n.
Proof. unfold zlen. by rewrite length_put_be. Qed.

Lemma go_from_ok {A} (bs : list A) n :
  0 <= n <= zlen bs -> go_from bs n = Ret (drop (Z.to_nat n) bs).
Proof.
  intros H. unfold go_from, go_slice.
  rewrite !(proj2 (Z.leb_le _ _)) by lia. simpl. f_equal.
  apply take_ge. rewrite length_drop. unfold zlen. lia.
Qed.

Lemma go_slice_ok {A} (bs : list A) lo hi :
  0 <= lo <= hi -> hi <= zlen bs ->
  go_slice bs lo hi = Ret (take (Z.to_nat (hi - lo)) (drop (Z.to_nat lo) bs)).
Proof. intros. unfold go_slice. by rewrite !(proj2 (Z.leb_le _ _)) by lia. Qed.

Lemma go_be_ok n bs : Z.of_nat n <= zlen bs -> go_be n bs = Ret (get_be (take n bs)).
Proof.
  unfold go_be, zlen. intros. destruct (Nat.ltb_spec (length bs) n); [lia|done].
Qed.

Lemma go_index_ok {A} (bs : list A) i :
  0 <= i < zlen bs -> exists b, go_index bs i = Ret b /\ bs !! Z.to_nat i = Some b.
Proof.
  unfold go_index, zlen. intros H. rewrite (proj2 (Z.leb_le _ _)) by lia.
  destruct (lookup_lt_is_Some_2 bs (Z.to_nat i)) as [b Hb]; [lia|].
  rewrite Hb. eauto.
Qed.

Lemma go_be_app n v r :
  0 <= v < 256 ^ Z.of_nat n -> go_be n (put_be n v ++ r) = Ret v.
Proof.
  intros H. rewrite go_be_ok by (rewrite zlen_app, zlen_put_be; pose proof (zlen_nonneg r); lia).
  rewrite take_app_length' by (symmetry; apply length_put_be).
  by rewrite get_put_be, Z.mod_small.
Qed.

Lemma go_from_app {A} (l r : list A) n : n = zlen l -> go_from (l ++ r) n = Ret r.
Proof.
  intros ->. rewrite go_from_ok by (rewrite zlen_app; pose proof (zlen_nonneg l); pose proof (zlen_nonneg r); lia).
  unfold zlen. by rewrite Nat2Z.id, drop_app_length.
Qed.

(** ** Stepping through bounds-checked code

    Each primitive succeeds when the slice is long enough; [go_step] advances
    a goal past one of them, leaving the facts about its result. *)

Lemma go_from_inv {A} (bs : list A) n :
  0 <= n <= zlen bs ->
  exists r, go_from bs n = Ret r /\ zlen r = zlen bs - n /\ (forall P, Forall P bs -> Forall P r).
Proof.
  intros H. exists (drop (Z.to_nat n) bs). rewrite go_from_ok by done.
  repeat split; [|intros; by apply Forall_drop].
  unfold zlen in *. rewrite length_drop. lia.
Qed.

Lemma go_slice_inv {A} (bs : list A) lo hi :
  0 <= lo <= hi -> hi <= zlen bs ->
  exists r, go_slice bs lo hi = Ret r /\ zlen r = hi - lo /\ (forall P, Forall P bs -> Forall P r).
Proof.
  intros. eexists. rewrite go_slice_ok by done.
  repeat split; [|intros; by apply Forall_take, Forall_drop].
  unfold zlen in *. rewrite length_take, length_drop. lia.
Qed.

Lemma go_be_inv n bs :
  Z.of_nat n <= zlen bs ->
  exists v, go_be n bs = Ret v /\ (is_bytes bs -> 0 <= v < 256 ^ Z.of_nat n).
Proof.
  intros H. exists (get_be (take n bs)). rewrite go_be_ok by done.
  split; [done|]. intros Hb.
  replace (Z.of_nat n) with (zlen (take n bs)).
  - by apply get_be_range, Forall_take.
  - unfold zlen in *. rewrite length_take. lia.
Qed.

Lemma go_index_inv {A} (bs : list A) i :
  0 <= i < zlen bs ->
  exists b, go_index bs i = Ret b /\ (forall P, Forall P bs -> P b).
Proof.
  intros H. destruct (go_index_ok bs i H) as (b & E & Hb). exists b.
  split; [done|]. intros P HP. by eapply Forall_lookup_1.
Qed.

Ltac go_step_on m :=
  lazymatch m with
  | go_from ?bs ?n =>
    let r := fresh "r" in let E := fresh "E" in let L := fresh "L" in let F := fresh "F" in
    destruct (go_from_inv bs n) as (r & E & L & F); [lia|]; rewrite E; clear E
  | go_slice ?bs ?lo ?hi =>
    let r := fresh "r" in let E := fresh "E" in let L := fresh "L" in let F := fresh "F" in
    destruct (go_slice_inv bs lo hi) as (r & E & L & F); [lia|lia|]; rewrite E; clear E
  | go_be ?n ?bs =>
    let v := fresh "v" in let E := fresh "E" in let V := fresh "V" in
    destruct (go_be_inv n bs) as (v & E & V); [lia|]; rewrite E; clear E
  | go_index ?bs ?i =>
    let b := fresh "b" in let E := fresh "E" in let V := fresh "V" in
    destruct (go_index_inv bs i) as (b & E & V); [lia|]; rewrite E; clear E
  end; cbn [mbind res_bind].

Ltac go_step :=
  match goal with |- context [@mbind res _ _ _ _ ?m] => go_step_on m end.

(** Where a slice lies in the buffer it was cut from. *)
Definition lies {A} (full : list A) (k : Z) (r : list A) : Prop :=
  exists pre post, full = pre ++ r ++ post /\ zlen pre = k.

Lemma lies_refl {A} (l : list A) : lies l 0 l.
Proof. exists [], []. by rewrite app_nil_r. Qed.

Lemma go_slice_lies {A} (full l r : list A) k lo hi :
  lies full k l -> go_slice l lo hi = Ret r -> lies full (k + lo) r.
Proof.
  intros (pre & post & -> & Hk). unfold go_slice.
  destruct (_ && _) eqn:E; [|done]. rewrite !andb_true_iff, !Z.leb_le in E.
  intros <-%Ret_inj. set (a := Z.to_nat lo). set (b := Z.to_nat (hi - lo)).
  exists (pre ++ take a l), (drop b (drop a l) ++ post). split.
  - rewrite <-!app_assoc. f_equal. rewrite (app_assoc (take b _)), take_drop.
    by rewrite app_assoc, take_drop.
  - rewrite zlen_app, Hk. unfold zlen in *. rewrite length_take. lia.
Qed.

Lemma go_from_lies {A} (full l r : list A) k n :
  lies full k l -> go_from l n = Ret r -> lies full (k + n) r.
Proof. apply go_slice_lies. Qed.

Lemma lies_slice {A} (full r : list A) k : lies full k r -> go_slice full k (k + zlen r) = Ret r.
Proof.
  intros (pre & post & -> & <-). pose proof (zlen_nonneg pre). pose proof (zlen_nonneg r).
  pose proof (zlen_nonneg post).
  rewrite go_slice_ok by (rewrite ?zlen_app; lia). f_equal.
  replace (zlen pre + zlen r - zlen pre) with (zlen r) by lia. unfold zlen.
  by rewrite !Nat2Z.id, drop_app_length, take_app_length.
Qed.

Lemma lies_trans {A} (a b c : list A) i j : lies a i b -> lies b j c -> lies a (i + j) c.
Proof.
  intros (p & q & -> & <-) (p' & q' & -> & <-). exists (p ++ p'), (q' ++ q).
  by rewrite <-!app_assoc, zlen_app.
Qed.

(** Like [go_step] for a slice, also remembering where it lies. *)
Ltac go_lies :=
  match goal with
  | |- context [@mbind res _ _ _ _ (go_from ?bs ?n)] =>
    let r := fresh "r" in let E := fresh "E" in let L := fresh "L" in let F := fresh "F" in
    destruct (go_from_inv bs n) as (r & E & L & F); [lia|]; rewrite E;
    match goal with H : lies ?full ?k bs |- _ => apply (go_from_lies full bs r k n H) in E end
  | |- context [@mbind res _ _ _ _ (go_slice ?bs ?lo ?hi)] =>
    let r := fresh "r" in let E := fresh "E" in let L := fresh "L" in let F := fresh "F" in
    destruct (go_slice_inv bs lo hi) as (r & E & L & F); [lia|lia|]; rewrite E;
    match goal with H : lies ?full ?k bs |- _ => apply (go_slice_lies full bs r k lo hi H) in E end
  end; cbn [mbind res_bind].

(** Case analysis on the boolean guards of the code, as arithmetic facts. *)
Ltac go_case :=
  match goal with
  | |- context [?a <? ?b] => destruct (Z.ltb_spec a b)
  | |- context [?a <=? ?b] => destruct (Z.leb_spec a b)
  | |- context [?a =? ?b] => destruct (Z.eqb_spec a b)
  end.

Lemma go_slice_app {A} (l r : list A) : go_slice (l ++ r) 0 (zlen l) = Ret l.
Proof.
  pose proof (zlen_nonneg l). pose proof (zlen_nonneg r).
  rewrite go_slice_ok by (rewrite ?zlen_app; lia).
  unfold zlen. by rewrite Z.sub_0_r, drop_0, Nat2Z.id, take_app_length.
Qed.

Lemma go_slice_mid {A} (a b c : list A) lo hi : lo = zlen a -> hi = lo + zlen b -> go_slice (a ++ b ++ c) lo hi = Ret b.
Proof.
  intros -> ->. pose proof (zlen_nonneg a). pose proof (zlen_nonneg b). pose proof (zlen_nonneg c).
  rewrite go_slice_ok by (rewrite ?zlen_app; lia). rewrite drop_app_length' by (unfold zlen; lia). f_equal. apply take_app_length'. unfold zlen. lia.
Qed.

Lemma go_from_1 {A} (x : A) r : go_from (x :: r) 1 = Ret r.
Proof. by apply (go_from_app [x]). Qed.

Lemma go_from_2 {A} (x y : A) r : go_from (x :: y :: r) 2 = Ret r.
Proof. by apply (go_from_app [x; y]). Qed.

(** Reading back what was written: one field of an encoded record. *)
Ltac rt_step_on m :=
  lazymatch m with
  | go_be ?n (put_be ?n ?v ++ ?r) =>
    rewrite (go_be_app n v r) by (unfold is_u8, is_u16, is_u32, is_u64 in *; lia)
  | go_from (put_be ?n ?v ++ ?r) ?k =>
    rewrite (go_from_app (put_be n v) r k) by (rewrite zlen_put_be; lia)
  | go_from (?x :: ?r) 1 => rewrite (go_from_1 x r)
  | go_from (?x :: ?y :: ?r) 2 => rewrite (go_from_2 x y r)
  | go_index (?x :: ?r) 0 => change (go_index (x :: r) 0) with (Ret x)
  | go_index (?x :: ?y :: ?r) 1 => change (go_index (x :: y :: r) 1) with (Ret y)
  end; cbn [mbind res_bind].

Ltac rt_step :=
  match goal with |- context [@mbind res _ _ _ _ ?m] => rt_step_on m end.

(** Lengths of encoded records. *)
Create Rewrite HintDb zlen.
#[export] Hint Rewrite @zlen_app @zlen_cons @zlen_nil zlen_put_be : zlen.
Ltac zlen_norm := autorewrite with zlen.

(** ** Bit operations *)

Lemma u8_lxor a b : is_u8 a -> is_u8 b -> is_u8 (Z.lxor a b).
Proof.
  unfold is_u8. intros Ha Hb. assert (0 <= Z.lxor a b) by (apply Z.lxor_nonneg; lia).
  split; [done|]. destruct (Z.eq_dec (Z.lxor a b) 0) as [->|]; [done|].
  apply Z.log2_lt_pow2; [lia|].
  apply Z.le_lt_trans with (Z.max (Z.log2 a) (Z.log2 b)); [apply Z.log2_lxor; lia|].
  apply Z.max_lub_lt.
  - destruct (Z.eq_dec a 0) as [->|]; [done|]. apply Z.log2_lt_pow2; lia.
  - destruct (Z.eq_dec b 0) as [->|]; [done|]. apply Z.log2_lt_pow2; lia.
Qed.

(** ** Modular arithmetic on 32-bit sequence numbers *)

Lemma u32_add_l a b : u32 (u32 a + b) = u32 (a + b).
Proof. unfold u32. apply Z.add_mod_idemp_l. lia. Qed.

Lemma u32_sub_u32 a b : u32 a ⊟ u32 b = u32 (a - b).
Proof. unfold u32. by rewrite <- Zminus_mod. Qed.

(** Numbers less than [2^32] apart with the same low 32 bits are equal. *)
Lemma u32_inj_near a b : u32 a = u32 b -> - 2 ^ 32 < a - b < 2 ^ 32 -> a = b.
Proof.
  unfold u32. intros H Hd.
  assert ((a - b) mod 2 ^ 32 = 0) as Hm by (by rewrite Zminus_mod, H, Z.sub_diag).
  apply Z.mod_divide in Hm as [q Hq]; [|lia]. nia.
Qed.

(** ** Boolean quantifiers over lists *)

Lemma forallb_Forall_ext {A} (p q : A -> bool) l :
  Forall (fun x => p x = q x) l -> forallb p l = forallb q l.
Proof. induction 1 as [|x l Hx _ IH]; cbn; [done|]. by rewrite Hx, IH. Qed.

Lemma existsb_Forall_ext {A} (p q : A -> bool) l :
  Forall (fun x => p x = q x) l -> existsb p l = existsb q l.
Proof. induction 1 as [|x l Hx _ IH]; cbn; [done|]. by rewrite Hx, IH. Qed.

Lemma forallb_ext {A} (p q : A -> bool) l : (forall x, p x = q x) -> forallb p l = forallb q l.
Proof. intros H. by apply forallb_Forall_ext, Forall_true. Qed.

Lemma existsb_ext {A} (p q : A -> bool) l : (forall x, p x = q x) -> existsb p l = existsb q l.
Proof. intros H. by apply existsb_Forall_ext, Forall_true. Qed.

Lemma existsb_none {A} (p : A -> bool) l : Forall (fun x => p x = false) l -> existsb p l = false.
Proof. induction 1 as [|x l Hx _ IH]; cbn; [done|]. by rewrite Hx, IH. Qed.

(** ** Go strings and their bytes *)

Definition bytes_of (s : string) : list Z :=
  map (fun c => Z.of_nat (Ascii.nat_of_ascii c)) (String.list_ascii_of_string s).

Definition string_of (bs : list Z) : string :=
  String.string_of_list_ascii (map (fun b => Ascii.ascii_of_nat (Z.to_nat b)) bs).

Lemma length_bytes_of s : length (bytes_of s) = String.length s.
Proof. unfold bytes_of. rewrite length_map. induction s as [|c s IH]; [done|]. cbn. by rewrite IH. Qed.

Lemma string_of_bytes_of s : string_of (bytes_of s) = s.
Proof.
  unfold string_of, bytes_of. rewrite map_map.
  rewrite (map_ext _ (fun c => c)), map_id; [apply String.string_of_list_ascii_of_string|].
  intros c. by rewrite Nat2Z.id, Ascii.ascii_nat_embedding.
Qed.

Lemma bytes_of_bytes s : is_bytes (bytes_of s).
Proof.
  unfold bytes_of. apply Forall_map, Forall_true. intros c. unfold is_u8.
  pose proof (Ascii.nat_ascii_bounded c). cbn. lia.
Qed.

Lemma bytes_of_string_of bs : is_bytes bs -> bytes_of (string_of bs) = bs.
Proof.
  unfold string_of, bytes_of. rewrite String.list_ascii_of_string_of_list_ascii, map_map.
  induction 1 as [|b bs Hb _ IH]; [done|]. cbn [map]. rewrite IH. f_equal. unfold is_u8 in Hb.
  rewrite Ascii.nat_ascii_embedding; lia.
Qed.

(** Numbers with disjoint bits. *)
Lemma lor_shiftl x b s : 0 <= s -> 0 <= x < 2 ^ s -> Z.lor x (Z.shiftl b s) = x + b * 2 ^ s.
Proof.
  intros Hs Hx. rewrite <- Z.shiftl_mul_pow2 by done.
  assert (Hl : Z.land x (Z.shiftl b s) = 0).
  { apply Z.bits_inj'. intros i Hi. rewrite Z.land_spec, Z.bits_0, Z.shiftl_spec by done.
    destruct (Z.lt_ge_cases i s).
    - rewrite (Z.testbit_neg_r b) by lia. apply andb_false_r.
    - rewrite <- (Z.mod_small x (2 ^ s)) by done. by rewrite Z.mod_pow2_bits_high by lia. }
  by rewrite Z.add_nocarry_lxor, Z.lxor_lor.
Qed.

(** Membership in a list that is built from others. *)
Ltac in_list := rewrite ?elem_of_app, ?elem_of_cons in *; first [tauto|auto 8].

Lemma concat_singletons {A} (l : list A) : concat (map (fun x => [x]) l) = l.
Proof. induction l as [|x l IH]; [done|]. cbn. by f_equal. Qed.

(** A filter that keeps everything. *)
Lemma filter_keeps {A} (P : A -> Prop) `{!forall x, Decision (P x)} (l : list A) : Forall P l -> base.filter P l = l.
Proof. induction 1 as [|x l Hx _ IH]; [done|]. by rewrite filter_cons_True, IH. Qed.

Lemma filter_true {A} (P : A -> Prop) `{!forall x, Decision (P x)} (l : list A) : (forall x, x ∈ l -> P x) -> base.filter P l = l.
Proof. intros Hl. by apply filter_keeps, Forall_forall. Qed.
