(* ===== verification/Buffers.v ===== *)
(** * The buffer library

    sing-box's transports use the [buf] package of the separate module
    github.com/sagernet/sing.  Its code is not part of this repository, so it
    is a parameter: [BufferLib] holds the operations the modelled code calls
    and [BufferLaws] what it relies on. *)

From S2P Require Import Prelude.

Class BufferLib := {
  (** the bytes held by a [buf.New()] buffer with the given contents after
      [Write] (or [Extend] and a copy) of the given data *)
  buf_append : list Z -> list Z -> list Z;
  (** [Buffer.Read] of a buffer into a slice of the given length: the bytes
      copied out and the bytes that remain in the buffer *)
  buf_read : list Z -> nat -> list Z * list Z;
  (** the bytes a [buf.New()] buffer holds after [Buffer.ReadFrom] of a
      reader with the given contents *)
  buf_read_from : list Z -> list Z
}.

(** A buffer made by [buf.New()] holds at least [buf_capacity] bytes, reading
    a buffer moves a prefix of it, as long as the slice and the contents
    allow, and [ReadFrom] takes all of a reader that fits. *)
Class BufferLaws (B : BufferLib) := {
  buf_capacity : nat;
  buf_append_fits c d :
    (length c + length d <= buf_capacity)%nat -> buf_append c d = c ++ d;
  buf_read_app b n : fst (buf_read b n) ++ snd (buf_read b n) = b;
  buf_read_len b n : length (fst (buf_read b n)) = Nat.min n (length b);
  buf_read_from_fits d : (length d <= buf_capacity)%nat -> buf_read_from d = d
}.
Arguments buf_capacity {B _}.

(** The contents of a fresh buffer after one [Write]. *)
Definition buf_write_new {B : BufferLib} (d : list Z) : list Z := buf_append [] d.

Lemma buf_write_fits {B : BufferLib} {BL : BufferLaws B} d :
  (length d <= buf_capacity)%nat -> buf_write_new d = d.
Proof. intros. unfold buf_write_new. by rewrite buf_append_fits. Qed.

(** A buffer of a fixed size with bounds-limited copies satisfies the laws. *)
#[export] Instance plain_buffers : BufferLib := {|
  buf_append c d := take (Z.to_nat 32768) (c ++ d);
  buf_read b n := (take n b, drop n b);
  buf_read_from d := take (Z.to_nat 32768) d
|}.

#[export] Instance plain_buffers_laws : BufferLaws plain_buffers.
Proof.
  refine {| buf_capacity := Z.to_nat 32768 |}.
  - intros c d Hd. cbn [buf_append plain_buffers]. apply take_ge. by rewrite length_app.
  - intros b n. simpl. apply take_drop.
  - intros b n. simpl. apply length_take.
  - intros d Hd. cbn [buf_read_from plain_buffers]. by apply take_ge.
Defined.
