(* ===== verification/KcpSegment.v ===== *)
(** * KCP segments (src/transport/v2raykcp/segment.go)

    The wire format of the mKCP transport: data, acknowledgement and command
    segments, their serialisation and their parser. *)

From S2P Require Import Prelude Buffers.

(** ** Data *)

(** [Command]: a byte; the four named ones. *)
Definition CommandACK : Z := 0.
Definition CommandData : Z := 1.
Definition CommandTerminate : Z := 2.
Definition CommandPing : Z := 3.

Definition SegmentOptionClose : Z := 1.

Definition DataSegmentOverhead : Z := 18.

Record DataSegment := mkDataSegment {
  ds_Conv : Z;
  ds_Option : Z;
  ds_Timestamp : Z;
  ds_Number : Z;
  ds_SendingNext : Z;
  ds_payload : option (list Z);
  ds_timeout : Z;
  ds_transmit : Z
}.

Definition NewDataSegment : DataSegment := mkDataSegment 0 0 0 0 0 None 0 0.

Record AckSegment := mkAckSegment {
  as_Conv : Z;
  as_Option : Z;
  as_ReceivingWindow : Z;
  as_ReceivingNext : Z;
  as_Timestamp : Z;
  as_NumberList : list Z
}.

Definition ackNumberLimit : Z := 128.

Definition NewAckSegment : AckSegment := mkAckSegment 0 0 0 0 0 [].

Record CmdOnlySegment := mkCmdOnlySegment {
  cs_Conv : Z;
  cs_Cmd : Z;
  cs_Option : Z;
  cs_SendingNext : Z;
  cs_ReceivingNext : Z;
  cs_PeerRTO : Z
}.

Definition NewCmdOnlySegment : CmdOnlySegment := mkCmdOnlySegment 0 0 0 0 0 0.

(** The [Segment] interface: one of the three kinds. *)
Inductive Segment :=
| SegData (s : DataSegment)
| SegAck (s : AckSegment)
| SegCmd (s : CmdOnlySegment).

Definition Conversation (s : Segment) : Z :=
  match s with SegData s => ds_Conv s | SegAck s => as_Conv s | SegCmd s => cs_Conv s end.

Definition SegCommand (s : Segment) : Z :=
  match s with SegData _ => CommandData | SegAck _ => CommandACK | SegCmd s => cs_Cmd s end.

(** ** Acknowledgement segments *)

Definition PutTimestamp (timestamp : Z) (s : AckSegment) : AckSegment :=
  if timestamp ⊟ as_Timestamp s <? 0x7FFFFFFF
  then mkAckSegment (as_Conv s) (as_Option s) (as_ReceivingWindow s) (as_ReceivingNext s)
         timestamp (as_NumberList s)
  else s.

Definition PutNumber (number : Z) (s : AckSegment) : AckSegment :=
  mkAckSegment (as_Conv s) (as_Option s) (as_ReceivingWindow s) (as_ReceivingNext s)
    (as_Timestamp s) (as_NumberList s ++ [number]).

Definition AckIsFull (s : AckSegment) : bool := zlen (as_NumberList s) =? ackNumberLimit.

Definition AckIsEmpty (s : AckSegment) : bool := zlen (as_NumberList s) =? 0.

(** ** Parsing

    A [parse] method answers [None] for Go's [(false, nil)], and otherwise the
    filled segment and the rest of the input. *)

Section parse.
Context {B : BufferLib}.

Definition DataSegment_parse (s : DataSegment) (conv cmd opt : Z) (data : list Z)
    : res (option (DataSegment * list Z)) :=
  if zlen data <? 15 then Ret None else
  Timestamp ← go_be 4 data;
  data ← go_from data 4;
  Number ← go_be 4 data;
  data ← go_from data 4;
  SendingNext ← go_be 4 data;
  data ← go_from data 4;
  dataLen ← go_be 2 data;
  data ← go_from data 2;
  if zlen data <? dataLen then Ret None else
  body ← go_slice data 0 dataLen;
  data ← go_from data dataLen;
  Ret (Some (mkDataSegment conv opt Timestamp Number SendingNext
               (Some (buf_write_new body)) (ds_timeout s) (ds_transmit s), data)).

(** The loop of [AckSegment.parse] over the [count] numbers. *)
Fixpoint ack_parse_numbers (count : nat) (s : AckSegment) (buf : list Z)
    : res (AckSegment * list Z) :=
  match count with
  | O => Ret (s, buf)
  | S count' =>
    n ← go_be 4 buf;
    buf ← go_from buf 4;
    ack_parse_numbers count' (PutNumber n s) buf
  end.

Definition AckSegment_parse (s : AckSegment) (conv cmd opt : Z) (buf : list Z)
    : res (option (AckSegment * list Z)) :=
  if zlen buf <? 13 then Ret None else
  ReceivingWindow ← go_be 4 buf;
  buf ← go_from buf 4;
  ReceivingNext ← go_be 4 buf;
  buf ← go_from buf 4;
  Timestamp ← go_be 4 buf;
  buf ← go_from buf 4;
  count ← go_index buf 0;
  buf ← go_from buf 1;
  if zlen buf <? count * 4 then Ret None else
  p ← ack_parse_numbers (Z.to_nat count)
        (mkAckSegment conv opt ReceivingWindow ReceivingNext Timestamp (as_NumberList s)) buf;
  Ret (Some p).

Definition CmdOnlySegment_parse (s : CmdOnlySegment) (conv cmd opt : Z) (buf : list Z)
    : res (option (CmdOnlySegment * list Z)) :=
  if zlen buf <? 12 then Ret None else
  SendingNext ← go_be 4 buf;
  buf ← go_from buf 4;
  ReceivingNext ← go_be 4 buf;
  buf ← go_from buf 4;
  PeerRTO ← go_be 4 buf;
  buf ← go_from buf 4;
  Ret (Some (mkCmdOnlySegment conv cmd opt SendingNext ReceivingNext PeerRTO, buf)).

Definition seg_result {A} (mk : A -> Segment) (r : option (A * list Z))
    : option (Segment * list Z) :=
  match r with Some (s, extra) => Some (mk s, extra) | None => None end.

(** [None] is Go's [(nil, nil)]. *)
Definition ReadSegment (buf : list Z) : res (option (Segment * list Z)) :=
  if zlen buf <? 4 then Ret None else
  conv ← go_be 2 buf;
  buf ← go_from buf 2;
  cmd ← go_index buf 0;
  opt ← go_index buf 1;
  buf ← go_from buf 2;
  if cmd =? CommandData then
    r ← DataSegment_parse NewDataSegment conv cmd opt buf; Ret (seg_result SegData r)
  else if cmd =? CommandACK then
    r ← AckSegment_parse NewAckSegment conv cmd opt buf; Ret (seg_result SegAck r)
  else
    r ← CmdOnlySegment_parse NewCmdOnlySegment conv cmd opt buf; Ret (seg_result SegCmd r).

End parse.

(** ** Serialisation

    [Serialize] fills a buffer of [ByteSize] bytes; the model gives its
    contents.  A data segment with no payload buffer raises, as the code
    calls [Len] on the nil buffer. *)

Definition DataSegment_Serialize (s : DataSegment) : res (list Z) :=
  match ds_payload s with
  | None => Panic
  | Some payload =>
    Ret (put_be 2 (ds_Conv s) ++ [CommandData; ds_Option s] ++
         put_be 4 (ds_Timestamp s) ++ put_be 4 (ds_Number s) ++
         put_be 4 (ds_SendingNext s) ++ put_be 2 (u16 (zlen payload)) ++ payload)
  end.

Definition DataSegment_ByteSize (s : DataSegment) : res Z :=
  match ds_payload s with
  | None => Panic
  | Some payload => Ret (2 + 1 + 1 + 4 + 4 + 4 + 2 + zlen payload)
  end.

Definition AckSegment_Serialize (s : AckSegment) : list Z :=
  put_be 2 (as_Conv s) ++ [CommandACK; as_Option s] ++
  put_be 4 (as_ReceivingWindow s) ++ put_be 4 (as_ReceivingNext s) ++
  put_be 4 (as_Timestamp s) ++ [u8 (zlen (as_NumberList s))] ++
  concat (map (put_be 4) (as_NumberList s)).

Definition AckSegment_ByteSize (s : AckSegment) : Z :=
  2 + 1 + 1 + 4 + 4 + 4 + 1 + zlen (as_NumberList s) * 4.

Definition CmdOnlySegment_Serialize (s : CmdOnlySegment) : list Z :=
  put_be 2 (cs_Conv s) ++ [cs_Cmd s; cs_Option s] ++
  put_be 4 (cs_SendingNext s) ++ put_be 4 (cs_ReceivingNext s) ++ put_be 4 (cs_PeerRTO s).

Definition CmdOnlySegment_ByteSize : Z := 2 + 1 + 1 + 4 + 4 + 4.

Definition Serialize (s : Segment) : res (list Z) :=
  match s with
  | SegData s => DataSegment_Serialize s
  | SegAck s => Ret (AckSegment_Serialize s)
  | SegCmd s => Ret (CmdOnlySegment_Serialize s)
  end.

Definition ByteSize (s : Segment) : res Z :=
  match s with
  | SegData s => DataSegment_ByteSize s
  | SegAck s => Ret (AckSegment_ByteSize s)
  | SegCmd _ => Ret CmdOnlySegment_ByteSize
  end.

(** ** The parser never raises *)

Section parse_safe.
Context {B : BufferLib}.

Lemma DataSegment_parse_safe s conv cmd opt data :
  is_bytes data -> safe (DataSegment_parse s conv cmd opt data).
Proof.
  intros Hb. unfold DataSegment_parse. go_case; [done|].
  do 8 go_step. go_case; [done|].
  assert (0 <= v2 < 256 ^ 2) by (apply V2; unfold is_bytes; auto).
  do 2 go_step. done.
Qed.

Lemma ack_parse_numbers_safe n s buf :
  Z.of_nat n * 4 <= zlen buf -> safe (ack_parse_numbers n s buf).
Proof.
  revert s buf. induction n as [|n IH]; intros s buf H; [done|].
  cbn [ack_parse_numbers]. do 2 go_step. apply IH. lia.
Qed.

Lemma AckSegment_parse_safe s conv cmd opt buf :
  is_bytes buf -> safe (AckSegment_parse s conv cmd opt buf).
Proof.
  intros Hb. unfold AckSegment_parse. go_case; [done|].
  do 8 go_step. go_case; [done|].
  apply safe_bind; [|auto with go]. apply ack_parse_numbers_safe.
  assert (is_u8 b) by (apply V2; unfold is_bytes in *; auto 10). unfold is_u8 in *. lia.
Qed.

Lemma CmdOnlySegment_parse_safe s conv cmd opt buf :
  safe (CmdOnlySegment_parse s conv cmd opt buf).
Proof. unfold CmdOnlySegment_parse. go_case; [done|]. by do 6 go_step. Qed.

(** [ReadSegment] never raises, whatever datagram arrives: every slice and
    index expression of the parser is in bounds on every input. *)
Lemma ReadSegment_safe buf : is_bytes buf -> safe (ReadSegment buf).
Proof.
  intros Hb. unfold ReadSegment. go_case; [done|]. do 5 go_step.
  assert (is_bytes r0) by (unfold is_bytes; auto).
  repeat go_case; (apply safe_bind; [|auto with go]);
    auto using DataSegment_parse_safe, AckSegment_parse_safe, CmdOnlySegment_parse_safe.
Qed.

End parse_safe.

(** ** What is written is what is read *)

Section roundtrip.
Context {B : BufferLib} {BL : BufferLaws B}.

(** A segment the transport may send: its fields have their machine width; a
    data segment carries a payload that fits the 16-bit length field and a
    buffer; an acknowledgement lists at most 255 numbers; a command segment
    does not use the two commands that select the other formats. *)
Definition wf_segment (s : Segment) : Prop :=
  match s with
  | SegData s =>
    is_u16 (ds_Conv s) /\ is_u8 (ds_Option s) /\ is_u32 (ds_Timestamp s) /\
    is_u32 (ds_Number s) /\ is_u32 (ds_SendingNext s) /\
    exists p, ds_payload s = Some p /\ 1 <= zlen p < 2 ^ 16 /\ (length p <= buf_capacity)%nat
  | SegAck s =>
    is_u16 (as_Conv s) /\ is_u8 (as_Option s) /\ is_u32 (as_ReceivingWindow s) /\
    is_u32 (as_ReceivingNext s) /\ is_u32 (as_Timestamp s) /\
    zlen (as_NumberList s) < 2 ^ 8 /\ Forall is_u32 (as_NumberList s)
  | SegCmd s =>
    is_u16 (cs_Conv s) /\ is_u8 (cs_Cmd s) /\ is_u8 (cs_Option s) /\
    is_u32 (cs_SendingNext s) /\ is_u32 (cs_ReceivingNext s) /\ is_u32 (cs_PeerRTO s) /\
    cs_Cmd s <> CommandACK /\ cs_Cmd s <> CommandData
  end.

(** The receiver's copy: the retransmission state of a data segment stays
    with the sender. *)
Definition received (s : Segment) : Segment :=
  match s with
  | SegData s => SegData (mkDataSegment (ds_Conv s) (ds_Option s) (ds_Timestamp s)
                   (ds_Number s) (ds_SendingNext s) (ds_payload s) 0 0)
  | s => s
  end.

Lemma ack_parse_numbers_app l s r :
  Forall is_u32 l ->
  ack_parse_numbers (length l) s (concat (map (put_be 4) l) ++ r) =
  Ret (mkAckSegment (as_Conv s) (as_Option s) (as_ReceivingWindow s) (as_ReceivingNext s)
         (as_Timestamp s) (as_NumberList s ++ l), r).
Proof.
  intros H. revert s. induction H as [|n l Hn _ IH]; intros s.
  - cbn. rewrite app_nil_r. by destruct s.
  - cbn [length ack_parse_numbers map concat]. rewrite <- app_assoc. do 2 rt_step.
    rewrite IH. cbn. by rewrite <- app_assoc.
Qed.

Lemma zlen_concat_put_be l : zlen (concat (map (put_be 4) l)) = zlen l * 4.
Proof. induction l; [done|]. cbn [map concat]. zlen_norm. rewrite IHl. lia. Qed.

Lemma data_roundtrip s bytes rest :
  wf_segment (SegData s) -> DataSegment_Serialize s = Ret bytes ->
  ReadSegment (bytes ++ rest) = Ret (Some (received (SegData s), rest)).
Proof.
  intros (? & ? & ? & ? & ? & p & Hp & Hl & Hc). unfold DataSegment_Serialize.
  rewrite Hp. intros <-%Ret_inj. rewrite <- !app_assoc. cbn [app].
  pose proof (zlen_nonneg rest).
  unfold ReadSegment. zlen_norm. go_case; [lia|]. do 5 rt_step.
  unfold DataSegment_parse. rewrite Z.eqb_refl. zlen_norm. go_case; [lia|].
  do 6 rt_step. rewrite u16_id by (unfold is_u16; lia). do 2 rt_step.
  zlen_norm. go_case; [lia|].
  rewrite go_slice_app. cbn [mbind res_bind]. rewrite go_from_app by done. cbn.
  rewrite buf_write_fits by done. by rewrite Hp.
Qed.

Lemma ack_roundtrip s rest :
  wf_segment (SegAck s) ->
  ReadSegment (AckSegment_Serialize s ++ rest) = Ret (Some (SegAck s, rest)).
Proof.
  intros (? & ? & ? & ? & ? & Hl & Hn). unfold AckSegment_Serialize.
  rewrite <- !app_assoc. cbn [app].
  pose proof (zlen_nonneg rest). pose proof (zlen_nonneg (as_NumberList s)).
  unfold ReadSegment. zlen_norm. rewrite zlen_concat_put_be. go_case; [lia|].
  do 5 rt_step. cbn [CommandACK CommandData Z.eqb].
  unfold AckSegment_parse. zlen_norm. rewrite zlen_concat_put_be. go_case; [lia|].
  do 8 rt_step. rewrite u8_id by (unfold is_u8; lia).
  zlen_norm. rewrite zlen_concat_put_be. go_case; [lia|].
  unfold zlen. rewrite Nat2Z.id, ack_parse_numbers_app by done. by destruct s.
Qed.

Lemma cmd_roundtrip s rest :
  wf_segment (SegCmd s) ->
  ReadSegment (CmdOnlySegment_Serialize s ++ rest) = Ret (Some (SegCmd s, rest)).
Proof.
  intros (? & ? & ? & ? & ? & ? & Hna & Hnd). unfold CmdOnlySegment_Serialize.
  rewrite <- !app_assoc. cbn [app]. pose proof (zlen_nonneg rest).
  unfold ReadSegment. zlen_norm. go_case; [lia|]. do 5 rt_step.
  rewrite (proj2 (Z.eqb_neq _ _) Hna), (proj2 (Z.eqb_neq _ _) Hnd).
  unfold CmdOnlySegment_parse. zlen_norm. go_case; [lia|]. do 6 rt_step. by destruct s.
Qed.

(** Every segment the transport sends is read back by [ReadSegment] as it
    was written, with the rest of the datagram left for the next segment. *)
Lemma segment_roundtrip s bytes rest :
  wf_segment s -> Serialize s = Ret bytes ->
  ReadSegment (bytes ++ rest) = Ret (Some (received s, rest)).
Proof.
  destruct s; cbn [Serialize]; intros Hwf Hs.
  - by apply data_roundtrip.
  - injection Hs as <-. by apply ack_roundtrip.
  - injection Hs as <-. by apply cmd_roundtrip.
Qed.

End roundtrip.

(** ** What a successful parse leaves *)

Section parse_rest.
Context {B : BufferLib}.

Lemma ack_parse_numbers_rest n s buf s' extra :
  Z.of_nat n * 4 <= zlen buf -> ack_parse_numbers n s buf = Ret (s', extra) ->
  zlen extra <= zlen buf /\ (is_bytes buf -> is_bytes extra).
Proof.
  revert s buf. induction n as [|n IH]; intros s buf H; cbn [ack_parse_numbers].
  - intros [= _ <-]. split; [lia|done].
  - do 2 go_step. intros Hr. apply IH in Hr as [? Hb]; [|lia].
    split; [lia|]. unfold is_bytes in *. auto 10.
Qed.

Lemma AckSegment_parse_rest s conv cmd opt buf s' extra :
  is_bytes buf -> AckSegment_parse s conv cmd opt buf = Ret (Some (s', extra)) ->
  zlen extra <= zlen buf /\ is_bytes extra.
Proof.
  intros Hb. unfold AckSegment_parse. go_case; [done|]. do 8 go_step. go_case; [done|].
  destruct (ack_parse_numbers _ _ _) as [[q x]| |] eqn:E; cbn; [|done..].
  intros [= -> ->]. assert (is_bytes r2) by (unfold is_bytes in *; auto 10).
  assert (is_u8 b) by (apply V2; unfold is_bytes in *; auto 10).
  apply ack_parse_numbers_rest in E as [? ?]; [|unfold is_u8 in *; lia].
  split; [lia|auto].
Qed.

Lemma DataSegment_parse_rest s conv cmd opt data s' extra :
  is_bytes data -> DataSegment_parse s conv cmd opt data = Ret (Some (s', extra)) ->
  zlen extra <= zlen data /\ is_bytes extra.
Proof.
  intros Hb. unfold DataSegment_parse. go_case; [done|]. do 8 go_step. go_case; [done|].
  assert (0 <= v2 < 256 ^ 2) by (apply V2; unfold is_bytes in *; auto 10).
  do 2 go_step. intros [= _ <-]. split; [lia|]. unfold is_bytes in *. auto 10.
Qed.

Lemma CmdOnlySegment_parse_rest s conv cmd opt buf s' extra :
  is_bytes buf -> CmdOnlySegment_parse s conv cmd opt buf = Ret (Some (s', extra)) ->
  zlen extra <= zlen buf /\ is_bytes extra.
Proof.
  intros Hb. unfold CmdOnlySegment_parse. go_case; [done|]. do 6 go_step.
  intros [= _ <-]. split; [lia|]. unfold is_bytes in *. auto 10.
Qed.

(** A segment takes at least its four-byte header. *)
Lemma ReadSegment_rest buf s extra :
  is_bytes buf -> ReadSegment buf = Ret (Some (s, extra)) ->
  zlen extra + 4 <= zlen buf /\ is_bytes extra.
Proof.
  intros Hb. unfold ReadSegment. go_case; [done|]. do 5 go_step.
  assert (Hr : is_bytes r0) by (unfold is_bytes in *; auto 10).
  assert (zlen r0 = zlen buf - 4) by lia.
  repeat go_case.
  - destruct (DataSegment_parse _ _ _ _ _) as [[[q x]|]| |] eqn:E; cbn; [|done..].
    intros [= _ ->]. apply DataSegment_parse_rest in E as [? ?]; [|done]. split; [lia|done].
  - destruct (AckSegment_parse _ _ _ _ _) as [[[q x]|]| |] eqn:E; cbn; [|done..].
    intros [= _ ->]. apply AckSegment_parse_rest in E as [? ?]; [|done]. split; [lia|done].
  - destruct (CmdOnlySegment_parse _ _ _ _ _) as [[[q x]|]| |] eqn:E; cbn; [|done..].
    intros [= _ ->]. apply CmdOnlySegment_parse_rest in E as [? ?]; [|done]. split; [lia|done].
Qed.

End parse_rest.
