(* ===== verification/KcpCrypt.v ===== *)
(** * Packet authentication (src/transport/v2raykcp/crypt.go)

    The AEAD interface the transport seals its datagrams with, and the keyless
    [SimpleAuthenticator] that implements it. *)

From S2P Require Import Prelude.

(** ** The interface: Go's [cipher.AEAD] *)

Record AEAD := {
  NonceSize : Z;
  Overhead : Z;
  (** [Seal(nil, nonce, plain, nil)] *)
  Seal : list Z -> list Z -> res (list Z);
  (** [Open(nil, nonce, cipherText, nil)] *)
  Open : list Z -> list Z -> res (list Z)
}.

(** What the packet code needs of an AEAD: a sealed message of at most
    [limit] bytes opens to itself and is [Overhead] bytes longer, and opening
    never raises on a message longer than the overhead. *)
Class AEADLaws (a : AEAD) (limit : Z) := {
  aead_sizes : 0 <= NonceSize a /\ 0 <= Overhead a;
  aead_open_seal nonce plain :
    zlen nonce = NonceSize a -> is_bytes plain -> zlen plain <= limit ->
    exists c, Seal a nonce plain = Ret c /\ zlen c = zlen plain + Overhead a /\
              Open a nonce c = Ret plain;
  aead_open_safe nonce c :
    zlen nonce = NonceSize a -> is_bytes c -> Overhead a < zlen c ->
    safe (Open a nonce c) /\ (forall p, Open a nonce c = Ret p -> is_bytes p)
}.

(** ** FNV-1a, Go's [hash/fnv] *)

Definition fnv_step (h b : Z) : Z := u32 (Z.lxor h b * 16777619).

Definition fnv32a (bs : list Z) : Z := foldl fnv_step 2166136261 bs.

(** ** Chained exclusive or *)

(** [b[i] ^= b[i-4]] *)
Definition xor_at (i : nat) (b : list Z) : list Z :=
  <[i := Z.lxor (b !!! i) (b !!! (i - 4)%nat)]> b.

(** [for i := 4; i < len(b); i++] *)
Fixpoint xorfwd_loop (n i : nat) (b : list Z) : list Z :=
  match n with
  | O => b
  | S n' => xorfwd_loop n' (S i) (xor_at i b)
  end.

Definition xorfwd (b : list Z) : list Z := xorfwd_loop (length b - 4) 4 b.

(** [for i := len(b) - 1; i >= 4; i--], [n] iterations to go. *)
Fixpoint xorbkd_loop (n : nat) (b : list Z) : list Z :=
  match n with
  | O => b
  | S n' => xorbkd_loop n' (xor_at (n' + 4) b)
  end.

Definition xorbkd (b : list Z) : list Z := xorbkd_loop (length b - 4) b.

(** ** SimpleAuthenticator *)

(** The zero bytes appended to reach a multiple of four. *)
Definition pad4 (dst : list Z) : list Z :=
  let xtra := 4 - zlen dst mod 4 in
  if xtra =? 4 then dst else dst ++ replicate (Z.to_nat xtra) 0.

(** [dst] is nil at every call: the hash goes to the first four bytes, the
    length to the next two. *)
Definition SimpleAuthenticator_Seal (nonce plain : list Z) : res (list Z) :=
  let dst := put_be 2 (u16 (zlen plain)) ++ plain in
  let dst := put_be 4 (fnv32a dst) ++ dst in
  let dstLen := length dst in
  Ret (take dstLen (xorfwd (pad4 dst))).

(** [full] is the storage of [dst], with the padding. *)
Definition SimpleAuthenticator_Open (nonce cipherText : list Z) : res (list Z) :=
  let dstLen := length cipherText in
  let full := xorbkd (pad4 cipherText) in
  let dst := take dstLen full in
  body ← go_from dst 4;
  sum ← go_be 4 full;
  if negb (sum =? fnv32a body) then Err "invalid auth" else
  lenBytes ← go_slice full 4 6;
  len ← go_be 2 lenBytes;
  if negb (zlen dst - 6 =? len) then Err "invalid auth" else
  go_from dst 6.

Definition SimpleAuthenticator : AEAD := {|
  NonceSize := 0;
  Overhead := 6;
  Seal := SimpleAuthenticator_Seal;
  Open := SimpleAuthenticator_Open
|}.

(** ** The two loops are inverse to each other *)

Lemma length_xor_at i b : length (xor_at i b) = length b.
Proof. apply length_insert. Qed.

Lemma xor_at_ne i j b : i <> j -> xor_at i b !! j = b !! j.
Proof. intros. unfold xor_at. by rewrite list_lookup_insert_ne. Qed.

Lemma xor_at_eq i b x y :
  b !! i = Some x -> b !! (i - 4)%nat = Some y -> xor_at i b !! i = Some (Z.lxor x y).
Proof.
  intros Hx Hy. unfold xor_at.
  rewrite list_lookup_insert_eq by (by eapply lookup_lt_Some).
  by rewrite (list_lookup_total_correct _ _ _ Hx), (list_lookup_total_correct _ _ _ Hy).
Qed.

Lemma length_xorbkd b : length (xorbkd b) = length b.
Proof.
  unfold xorbkd. generalize (length b - 4)%nat as n. intros n. revert b.
  induction n as [|n IH]; intros b; simpl; [done|]. by rewrite IH, length_xor_at.
Qed.

Lemma length_xorfwd_loop n i b : length (xorfwd_loop n i b) = length b.
Proof.
  revert i b. induction n as [|n IH]; intros i b; simpl; [done|].
  by rewrite IH, length_xor_at.
Qed.

Lemma length_xorfwd b : length (xorfwd b) = length b.
Proof. apply length_xorfwd_loop. Qed.

(** The exclusive or of two cells that may be out of range. *)
Definition oxor (x y : option Z) : option Z :=
  match x, y with Some x, Some y => Some (Z.lxor x y) | _, _ => None end.

Lemma xor_at_self i b : xor_at i b !! i = oxor (b !! i) (b !! (i - 4)%nat).
Proof.
  destruct (b !! i) as [x|] eqn:Hx.
  - destruct (lookup_lt_is_Some_2 b (i - 4)) as [y Hy].
    { apply lookup_lt_Some in Hx. lia. }
    rewrite Hy. by apply xor_at_eq.
  - cbn. apply lookup_ge_None. rewrite length_xor_at. by apply lookup_ge_None.
Qed.

Lemma xorbkd_loop_lookup n b j :
  xorbkd_loop n b !! j =
  if decide (4 <= j < n + 4)%nat then oxor (b !! j) (b !! (j - 4)%nat) else b !! j.
Proof.
  revert b. induction n as [|n IH]; intros b; cbn [xorbkd_loop].
  - by rewrite decide_False by lia.
  - rewrite IH. destruct (decide (j = n + 4)%nat) as [->|Hne].
    + rewrite decide_False, decide_True by lia. apply xor_at_self.
    + rewrite xor_at_ne by lia. destruct (decide (4 <= j < n + 4)%nat).
      * rewrite decide_True by lia. by rewrite xor_at_ne by lia.
      * by rewrite decide_False by lia.
Qed.

Lemma xorbkd_lookup b j :
  xorbkd b !! j =
  if decide (4 <= j < length b)%nat then oxor (b !! j) (b !! (j - 4)%nat) else b !! j.
Proof.
  unfold xorbkd. rewrite xorbkd_loop_lookup.
  destruct (decide (4 <= j < length b)%nat).
  - by rewrite decide_True by lia.
  - by rewrite decide_False by lia.
Qed.

Lemma xorfwd_loop_lookup n i b j :
  (4 <= i)%nat ->
  xorfwd_loop n i b !! j =
  if decide (i <= j < i + n)%nat
  then oxor (b !! j) (xorfwd_loop n i b !! (j - 4)%nat) else b !! j.
Proof.
  revert i b j. induction n as [|n IH]; intros i b j Hi; cbn [xorfwd_loop].
  - by rewrite decide_False by lia.
  - rewrite IH by lia. destruct (decide (j = i)) as [->|Hne].
    + rewrite decide_False, decide_True by lia.
      rewrite IH, decide_False by lia. by rewrite (xor_at_ne i (i - 4)), xor_at_self by lia.
    + rewrite xor_at_ne by lia. destruct (decide (S i <= j < S i + n)%nat).
      * by rewrite decide_True by lia.
      * by rewrite decide_False by lia.
Qed.

Lemma xorfwd_lookup b j :
  xorfwd b !! j =
  if decide (4 <= j < length b)%nat
  then oxor (b !! j) (xorfwd b !! (j - 4)%nat) else b !! j.
Proof.
  unfold xorfwd at 1. rewrite xorfwd_loop_lookup by lia. fold (xorfwd b).
  destruct (decide (4 <= j < length b)%nat).
  - by rewrite decide_True by lia.
  - by rewrite decide_False by lia.
Qed.

Lemma xorbkd_xorfwd b : xorbkd (xorfwd b) = b.
Proof.
  apply list_eq. intros j. rewrite xorbkd_lookup, length_xorfwd.
  destruct (decide (4 <= j < length b)%nat) as [H|H].
  - rewrite (xorfwd_lookup b j), decide_True by lia.
    destruct (b !! j) as [x|] eqn:Hx; [|done].
    destruct (lookup_lt_is_Some_2 (xorfwd b) (j - 4)) as [y Hy].
    { rewrite length_xorfwd. lia. }
    rewrite Hy. cbn. by rewrite Z.lxor_assoc, Z.lxor_nilpotent, Z.lxor_0_r.
  - by rewrite xorfwd_lookup, decide_False by lia.
Qed.

(** The first [k] bytes of the unchained data depend on the first [k] bytes
    only. *)
Lemma take_xorbkd k f z :
  (k <= length f)%nat -> take k (xorbkd (take k f ++ z)) = take k (xorbkd f).
Proof.
  intros Hk. apply list_eq. intros j. destruct (decide (j < k)%nat) as [Hj|Hj].
  - rewrite !lookup_take_lt by lia. rewrite !xorbkd_lookup, length_app, length_take.
    rewrite !lookup_app_l by (rewrite length_take; lia). rewrite !lookup_take_lt by lia.
    destruct (decide (4 <= j < length f)%nat).
    + by rewrite decide_True by lia.
    + by rewrite decide_False by lia.
  - by rewrite !lookup_take_ge by lia.
Qed.

Lemma pad4_app c : exists z, pad4 c = c ++ z.
Proof.
  unfold pad4. destruct (_ =? _); [exists []; by rewrite app_nil_r|eauto].
Qed.

Lemma pad4_length c : (length c <= length (pad4 c))%nat.
Proof. destruct (pad4_app c) as [z ->]. rewrite length_app. lia. Qed.

Lemma unchain_chain d :
  take (length d) (xorbkd (pad4 (take (length d) (xorfwd (pad4 d))))) = d.
Proof.
  destruct (pad4_app (take (length d) (xorfwd (pad4 d)))) as [z ->].
  pose proof (pad4_length d).
  rewrite take_xorbkd by (rewrite length_xorfwd; lia).
  rewrite xorbkd_xorfwd. destruct (pad4_app d) as [z' ->].
  apply take_app_length.
Qed.

(** ** SimpleAuthenticator keeps the interface's laws *)

Lemma fnv_range bs : is_u32 (fnv32a bs).
Proof.
  unfold fnv32a. assert (H : is_u32 2166136261) by (unfold is_u32; lia). revert H.
  generalize 2166136261. induction bs as [|b bs IH]; intros h H; cbn [foldl]; [done|].
  apply IH, u32_range.
Qed.

Lemma xor_at_bytes i b : is_bytes b -> is_bytes (xor_at i b).
Proof.
  intros Hb. destruct (decide (i < length b)%nat) as [Hi|Hi].
  - apply Forall_insert; [done|].
    apply u8_lxor; apply (Forall_lookup_total_1 is_u8 b); [done|lia|done|lia].
  - unfold xor_at. by rewrite list_insert_ge by lia.
Qed.

Lemma xorbkd_bytes b : is_bytes b -> is_bytes (xorbkd b).
Proof.
  unfold xorbkd. generalize (length b - 4)%nat as n. intros n. revert b.
  induction n as [|n IH]; intros b Hb; simpl; [done|]. by apply IH, xor_at_bytes.
Qed.

Lemma pad4_bytes c : is_bytes c -> is_bytes (pad4 c).
Proof.
  intros Hc. unfold pad4. destruct (_ =? _); [done|].
  apply Forall_app. split; [done|]. by apply Forall_replicate.
Qed.

(** A datagram sealed by [SimpleAuthenticator] opens to the plain text it
    was made from, six bytes shorter, for every payload whose length fits the
    16-bit length field. *)
Lemma SimpleAuthenticator_roundtrip nonce plain :
  zlen plain < 2 ^ 16 ->
  exists c, SimpleAuthenticator_Seal nonce plain = Ret c /\ zlen c = zlen plain + 6 /\
            SimpleAuthenticator_Open nonce c = Ret plain.
Proof.
  intros Hp. pose proof (zlen_nonneg plain).
  set (body := put_be 2 (u16 (zlen plain)) ++ plain).
  set (d := put_be 4 (fnv32a body) ++ body).
  set (c := take (length d) (xorfwd (pad4 d))).
  assert (Hd : zlen d = zlen plain + 6) by (unfold d, body; zlen_norm; lia).
  assert (Hc : length c = length d).
  { unfold c. rewrite length_take, length_xorfwd. pose proof (pad4_length d). lia. }
  exists c. split; [done|]. split; [unfold zlen in *; lia|].
  unfold SimpleAuthenticator_Open. rewrite Hc.
  set (full := xorbkd (pad4 c)). cbv zeta.
  assert (Hfull : full = d ++ drop (length d) full).
  { rewrite <- (unchain_chain d) at 1. apply symmetry, take_drop. }
  rewrite Hfull, take_app_length. set (z := drop (length d) full).
  assert (Hr : is_u16 (zlen plain)) by (unfold is_u16; lia).
  unfold d. rt_step. rewrite <- app_assoc. pose proof (fnv_range body). rt_step.
  rewrite Z.eqb_refl. cbn [negb].
  rewrite go_slice_ok by (unfold body; zlen_norm; pose proof (zlen_nonneg z); lia).
  rewrite drop_app_length' by by rewrite length_put_be. cbn [mbind res_bind].
  assert (body ++ z = put_be 2 (zlen plain) ++ plain ++ z) as ->.
  { unfold body. by rewrite u16_id, app_assoc. }
  rewrite take_app_length' by by rewrite length_put_be.
  rewrite <- (app_nil_r (put_be 2 (zlen plain))) at 1. rt_step.
  fold d. rewrite Hd, (proj2 (Z.eqb_eq _ _)) by lia. cbn [negb].
  unfold d, body. rewrite app_assoc. apply go_from_app. by zlen_norm.
Qed.

Lemma SimpleAuthenticator_Open_safe nonce c :
  is_bytes c -> 6 < zlen c ->
  safe (SimpleAuthenticator_Open nonce c) /\
  (forall p, SimpleAuthenticator_Open nonce c = Ret p -> is_bytes p).
Proof.
  intros Hb Hc. unfold SimpleAuthenticator_Open.
  set (full := xorbkd (pad4 c)). cbv zeta. set (dst := take (length c) full).
  assert (Hf : zlen c <= zlen full).
  { unfold full, zlen. rewrite length_xorbkd. pose proof (pad4_length c). lia. }
  assert (Hd : zlen dst = zlen c).
  { unfold dst, zlen in *. rewrite length_take. lia. }
  assert (Hdb : is_bytes dst) by (by apply Forall_take, xorbkd_bytes, pad4_bytes).
  do 2 go_step. destruct (negb _); [done|]. do 2 go_step. destruct (negb _); [done|].
  destruct (go_from_inv dst 6) as (q & -> & _ & Hq); [lia|].
  split; [done|]. intros p [= <-]. by apply Hq.
Qed.

#[export] Instance SimpleAuthenticator_laws : AEADLaws SimpleAuthenticator 65535.
Proof.
  split; cbn [SimpleAuthenticator NonceSize Overhead Seal Open].
  - lia.
  - intros nonce plain _ _ Hp. apply SimpleAuthenticator_roundtrip. lia.
  - intros nonce c _ Hb Hc. by apply SimpleAuthenticator_Open_safe.
Qed.
