(* ===== verification/KcpPacket.v ===== *)
(** * Datagrams of the mKCP transport

    The transport's settings (config.go, option/v2ray_transport.go), the
    obfuscation headers (header.go), and the packet writer and reader that put
    one segment into a datagram and take the segments out of one (dialer.go). *)

From S2P Require Import Prelude Buffers KcpSegment KcpCrypt.

(** ** Settings *)

Record V2RayKCPOptions := {
  opt_MTU : Z;
  opt_TTI : Z;
  opt_UplinkCapacity : Z;
  opt_DownlinkCapacity : Z;
  opt_Congestion : bool;
  opt_ReadBufferSize : Z;
  opt_WriteBufferSize : Z;
  opt_HeaderType : string;
  opt_Seed : string
}.

Definition opt_GetMTU (k : V2RayKCPOptions) : Z :=
  if opt_MTU k =? 0 then 1350 else opt_MTU k.
Definition opt_GetTTI (k : V2RayKCPOptions) : Z :=
  if opt_TTI k =? 0 then 50 else opt_TTI k.
Definition opt_GetUplinkCapacity (k : V2RayKCPOptions) : Z :=
  if opt_UplinkCapacity k =? 0 then 12 else opt_UplinkCapacity k.
Definition opt_GetDownlinkCapacity (k : V2RayKCPOptions) : Z :=
  if opt_DownlinkCapacity k =? 0 then 100 else opt_DownlinkCapacity k.
Definition opt_GetReadBufferSize (k : V2RayKCPOptions) : Z :=
  if opt_ReadBufferSize k =? 0 then 1 else opt_ReadBufferSize k.
Definition opt_GetWriteBufferSize (k : V2RayKCPOptions) : Z :=
  if opt_WriteBufferSize k =? 0 then 1 else opt_WriteBufferSize k.
Definition opt_GetHeaderType (k : V2RayKCPOptions) : string :=
  if decide (opt_HeaderType k = EmptyString) then "none"%string else opt_HeaderType k.

Record Config := {
  MTU : Z;
  TTI : Z;
  UplinkCapacity : Z;
  DownlinkCapacity : Z;
  Congestion : bool;
  ReadBufferSize : Z;
  WriteBufferSize : Z;
  HeaderType : string;
  Seed : string
}.

Definition NewConfig (options : V2RayKCPOptions) : Config := {|
  MTU := opt_GetMTU options;
  TTI := opt_GetTTI options;
  UplinkCapacity := opt_GetUplinkCapacity options;
  DownlinkCapacity := opt_GetDownlinkCapacity options;
  Congestion := opt_Congestion options;
  ReadBufferSize := opt_GetReadBufferSize options;
  WriteBufferSize := opt_GetWriteBufferSize options;
  HeaderType := opt_GetHeaderType options;
  Seed := opt_Seed options
|}.

(** A setting of a possibly nil [*Config], with its default for nil and 0. *)
Definition config_value (f : Config -> Z) (default : Z) (c : option Config) : Z :=
  match c with
  | None => default
  | Some c => if f c =? 0 then default else f c
  end.

Definition GetMTUValue : option Config -> Z := config_value MTU 1350.
Definition GetTTIValue : option Config -> Z := config_value TTI 50.
Definition GetUplinkCapacityValue : option Config -> Z := config_value UplinkCapacity 12.
Definition GetDownlinkCapacityValue : option Config -> Z := config_value DownlinkCapacity 100.

Definition GetWriteBufferSize (c : option Config) : Z :=
  match c with
  | None => 2 * 1024 * 1024
  | Some c =>
    if WriteBufferSize c =? 0 then 2 * 1024 * 1024
    else u32 (u32 (WriteBufferSize c * 1024) * 1024)
  end.

Definition GetReadBufferSize (c : option Config) : Z :=
  match c with
  | None => 2 * 1024 * 1024
  | Some c =>
    if ReadBufferSize c =? 0 then 2 * 1024 * 1024
    else u32 (u32 (ReadBufferSize c * 1024) * 1024)
  end.

Definition GetHeaderType (c : Config) : string :=
  if decide (HeaderType c = EmptyString) then "none"%string else HeaderType c.

(** [size < 8] is raised to 8. *)
Definition at_least_8 (size : Z) : Z := if size <? 8 then 8 else size.

Definition GetSendingInFlightSize (c : option Config) : res Z :=
  per ← go_div (u32 (u32 (GetUplinkCapacityValue c * 1024) * 1024)) (GetMTUValue c);
  ticks ← go_div 1000 (GetTTIValue c);
  size ← go_div per ticks;
  Ret (at_least_8 size).

Definition GetReceivingInFlightSize (c : option Config) : res Z :=
  per ← go_div (u32 (u32 (GetDownlinkCapacityValue c * 1024) * 1024)) (GetMTUValue c);
  ticks ← go_div 1000 (GetTTIValue c);
  size ← go_div per ticks;
  Ret (at_least_8 size).

Definition GetSendingBufferSize (c : option Config) : res Z :=
  go_div (GetWriteBufferSize c) (GetMTUValue c).

Definition GetReceivingBufferSize (c : option Config) : res Z :=
  go_div (GetReadBufferSize c) (GetMTUValue c).

(** [GetSecurity]: the AES-GCM instance made from the seed is Go's [crypto]
    library, a parameter. *)
Definition GetSecurity (NewAEADAESGCMBasedOnSeed : string -> AEAD) (c : Config) : AEAD :=
  if decide (Seed c = EmptyString) then SimpleAuthenticator
  else NewAEADAESGCMBasedOnSeed (Seed c).

(** ** Obfuscation headers *)

Inductive PacketHeader :=
| srtpHeader (header number : Z)
| utpHeader (header extension connectionID : Z)
| wechatVideoHeader (sn : Z)
| dtlsHeader (epoch length sequence : Z)
| wireguardHeader.

(** [random] is what [randomUint16] or [randomUint32] draws. *)
Definition NewPacketHeader (headerType : string) (random : Z) : option PacketHeader :=
  if decide (headerType = "srtp"%string) then Some (srtpHeader 0xB5E8 (u16 random))
  else if decide (headerType = "utp"%string) then Some (utpHeader 1 0 (u16 random))
  else if decide (headerType = "wechat-video"%string) then Some (wechatVideoHeader (u32 random))
  else if decide (headerType = "dtls"%string) then Some (dtlsHeader (u16 random) 17 0)
  else if decide (headerType = "wireguard"%string) then Some wireguardHeader
  else None.

Definition HeaderSize (headerType : string) : Z :=
  if decide (headerType = "srtp"%string) then 4
  else if decide (headerType = "utp"%string) then 4
  else if decide (headerType = "wireguard"%string) then 4
  else if decide (headerType = "wechat-video"%string) then 13
  else if decide (headerType = "dtls"%string) then 13
  else 0.

Definition header_Size (h : PacketHeader) : Z :=
  match h with
  | srtpHeader _ _ => 4
  | utpHeader _ _ _ => 4
  | wechatVideoHeader _ => 13
  | dtlsHeader _ _ _ => 13
  | wireguardHeader => 4
  end.

(** The bytes written and the header's next state. *)
Definition header_Serialize (h : PacketHeader) : list Z * PacketHeader :=
  match h with
  | srtpHeader header number =>
    let number := u16 (number + 1) in
    (put_be 2 header ++ put_be 2 number, srtpHeader header number)
  | utpHeader header extension connectionID =>
    (put_be 2 connectionID ++ [header; extension], h)
  | wechatVideoHeader sn =>
    let sn := u32 (sn + 1) in
    ([0xa1; 0x08] ++ put_be 4 sn ++ [0x00; 0x10; 0x11; 0x18; 0x30; 0x22; 0x30],
     wechatVideoHeader sn)
  | dtlsHeader epoch length sequence =>
    let next := u16 (length + 17) in
    ([23; 254; 253; u8 (Z.shiftr epoch 8); u8 epoch; 0; 0;
      u8 (Z.shiftr sequence 24); u8 (Z.shiftr sequence 16); u8 (Z.shiftr sequence 8);
      u8 sequence; u8 (Z.shiftr length 8); u8 length],
     dtlsHeader epoch (if 100 <? next then u16 (next - 50) else next) (sequence ⊞ 1))
  | wireguardHeader => ([0x04; 0x00; 0x00; 0x00], h)
  end.

(** ** Writing a datagram *)

Section packets.
Context {B : BufferLib}.

Definition writer_Overhead (header : option PacketHeader) (security : option AEAD) : Z :=
  match header with None => 0 | Some h => header_Size h end +
  match security with None => 0 | Some a => Overhead a end.

(** [kcpPacketWriter.Write]: the datagram handed to the connection and the
    header's next state; [nonce] is what [rand.Read] fills. *)
Definition kcpPacketWriter_Write (header : option PacketHeader) (security : option AEAD)
    (nonce b : list Z) : res (list Z * option PacketHeader) :=
  let '(packet, header) :=
    match header with
    | None => ([], None)
    | Some h => let '(bs, h) := header_Serialize h in (buf_append [] bs, Some h)
    end in
  match security with
  | None => Ret (buf_append packet b, header)
  | Some a =>
    let packet := buf_append packet nonce in
    encrypted ← Seal a nonce b;
    Ret (buf_append packet encrypted, header)
  end.

(** ** Reading a datagram *)

(** [None] where [kcpPacketReader.Read] returns nil early. *)
Definition reader_header (headerSize : Z) (b : list Z) : res (option (list Z)) :=
  if 0 <? headerSize then
    if zlen b <=? headerSize then Ret None
    else b ← go_from b headerSize; Ret (Some b)
  else Ret (Some b).

Definition reader_security (security : option AEAD) (b : list Z) : res (option (list Z)) :=
  match security with
  | None => Ret (Some b)
  | Some a =>
    if zlen b <=? NonceSize a + Overhead a then Ret None else
    nonce ← go_slice b 0 (NonceSize a);
    body ← go_from b (NonceSize a);
    match Open a nonce body with
    | Ret out => Ret (Some out)
    | Err _ => Ret None
    | Panic => Panic
    end
  end.

(** The loop over the segments; running out of fuel is a [Panic] so that the
    safety theorem also says the loop ends. *)
Fixpoint reader_segments (fuel : nat) (b : list Z) : res (list Segment) :=
  match fuel with
  | O => Panic
  | S fuel =>
    if 0 <? zlen b then
      r ← ReadSegment b;
      match r with
      | None => Ret []
      | Some (seg, extra) => rest ← reader_segments fuel extra; Ret (seg :: rest)
      end
    else Ret []
  end.

Definition kcpPacketReader_Read (security : option AEAD) (headerSize : Z) (b : list Z)
    : res (list Segment) :=
  h ← reader_header headerSize b;
  match h with
  | None => Ret []
  | Some b =>
    o ← reader_security security b;
    match o with
    | None => Ret []
    | Some b => reader_segments (S (length b)) b
    end
  end.

End packets.

(** ** Window sizes *)

Definition wf_config (c : option Config) : Prop :=
  match c with
  | None => True
  | Some c => is_u32 (MTU c) /\ is_u32 (TTI c) /\ is_u32 (UplinkCapacity c) /\
              is_u32 (DownlinkCapacity c)
  end.

Lemma config_value_pos f d c :
  0 < d -> (forall c', c = Some c' -> 0 <= f c') -> 0 < config_value f d c.
Proof.
  intros Hd Hf. destruct c as [c|]; cbn; [|done].
  specialize (Hf c eq_refl). go_case; lia.
Qed.

Lemma go_div_ok a b : b <> 0 -> go_div a b = Ret (a / b).
Proof. intros. unfold go_div. by rewrite (proj2 (Z.eqb_neq _ _)). Qed.

Lemma at_least_8_range s : 0 <= s < 2 ^ 32 -> 8 <= at_least_8 s < 2 ^ 32.
Proof. unfold at_least_8. intros. go_case; lia. Qed.

(** The common body of the two in-flight sizes. *)
Lemma in_flight_common cap c :
  wf_config c ->
  let size := per ← go_div (u32 (u32 (cap * 1024) * 1024)) (GetMTUValue c);
              ticks ← go_div 1000 (GetTTIValue c);
              s ← go_div per ticks; Ret (at_least_8 s) in
  (GetTTIValue c <= 1000 -> exists s, size = Ret s /\ 8 <= s < 2 ^ 32) /\
  (1000 < GetTTIValue c -> size = Panic).
Proof.
  intros Hwf. cbv zeta.
  assert (0 < GetMTUValue c).
  { apply config_value_pos; [lia|]. intros c' ->. destruct Hwf as (H & _). unfold is_u32 in H. lia. }
  assert (0 < GetTTIValue c).
  { apply config_value_pos; [lia|]. intros c' ->. destruct Hwf as (_ & H' & _). unfold is_u32 in H'. lia. }
  rewrite (go_div_ok _ (GetMTUValue c)), (go_div_ok _ (GetTTIValue c)) by lia.
  cbn [mbind res_bind]. split; intros Ht.
  - assert (0 < 1000 / GetTTIValue c) by (apply Z.div_str_pos; lia).
    rewrite go_div_ok by lia. cbn [mbind res_bind]. eexists. split; [done|].
    apply at_least_8_range.
    pose proof (u32_range (u32 (cap * 1024) * 1024)) as Hr. unfold is_u32 in Hr.
    split; [apply Z.div_pos; [apply Z.div_pos|]; lia|].
    apply Z.div_lt_upper_bound; [lia|]. apply Z.div_lt_upper_bound; [lia|]. nia.
  - by rewrite (Z.div_small 1000) by lia.
Qed.

(** With a transmission interval of at most one second the sending and
    receiving windows hold between 8 and [2^32 - 1] segments; with a longer
    interval both computations divide by zero and raise, so that no connection
    can be made. *)
Theorem in_flight_sizes c :
  wf_config c ->
  (GetTTIValue c <= 1000 ->
   exists s r, GetSendingInFlightSize c = Ret s /\ GetReceivingInFlightSize c = Ret r /\
               8 <= s < 2 ^ 32 /\ 8 <= r < 2 ^ 32) /\
  (1000 < GetTTIValue c ->
   GetSendingInFlightSize c = Panic /\ GetReceivingInFlightSize c = Panic).
Proof.
  intros Hwf.
  destruct (in_flight_common (GetUplinkCapacityValue c) c Hwf) as [Hs Hs'].
  destruct (in_flight_common (GetDownlinkCapacityValue c) c Hwf) as [Hr Hr'].
  split; intros Ht; [|split; auto].
  destruct (Hs Ht) as (s & ? & ?). destruct (Hr Ht) as (r & ? & ?). exists s, r. auto.
Qed.

Definition slow_options : V2RayKCPOptions := {|
  opt_MTU := 0; opt_TTI := 2000; opt_UplinkCapacity := 0; opt_DownlinkCapacity := 0;
  opt_Congestion := false; opt_ReadBufferSize := 0; opt_WriteBufferSize := 0;
  opt_HeaderType := ""; opt_Seed := "" |}.

Lemma in_flight_sizes_witness :
  GetSendingInFlightSize (Some (NewConfig slow_options)) = Panic /\
  GetSendingInFlightSize None = Ret 466.
Proof.
  split.
  - apply (in_flight_sizes (Some (NewConfig slow_options))); [|reflexivity].
    repeat split; done.
  - reflexivity.
Defined.

(** ** Headers *)

(** The header state that belongs to a header type. *)
Definition header_matches (headerType : string) (h : option PacketHeader) : Prop :=
  HeaderSize headerType = match h with None => 0 | Some h => header_Size h end.

Lemma NewPacketHeader_matches t r : header_matches t (NewPacketHeader t r).
Proof. unfold header_matches, HeaderSize, NewPacketHeader. repeat case_decide; by subst. Qed.

Lemma header_Serialize_size h : zlen (fst (header_Serialize h)) = header_Size h.
Proof. by destruct h. Qed.

Lemma header_Serialize_matches t h :
  header_matches t (Some h) -> header_matches t (Some (snd (header_Serialize h))).
Proof. unfold header_matches. intros ->. by destruct h. Qed.

(** ** Datagrams round-trip *)

Section packet_theorems.
Context {B : BufferLib}.

Lemma reader_segments_safe fuel b :
  is_bytes b -> (length b < fuel)%nat -> safe (reader_segments fuel b).
Proof.
  revert b. induction fuel as [|fuel IH]; intros b Hb Hl; [lia|].
  cbn [reader_segments]. go_case; [|done].
  apply safe_bind; [by apply ReadSegment_safe|]. intros [[seg extra]|] E; [|done].
  apply ReadSegment_rest in E as [? ?]; [|done].
  apply safe_bind; [|auto with go]. apply IH; [done|]. unfold zlen in *. lia.
Qed.

(** C15: whatever datagram arrives, [kcpPacketReader.Read] neither raises nor
    loops: the header and security checks leave every slice expression and
    every segment parse in bounds, and the segment loop consumes its input. *)
Theorem kcpPacketReader_safe (a : AEAD) limit {AL : AEADLaws a limit} headerSize b :
  is_bytes b -> safe (kcpPacketReader_Read (Some a) headerSize b).
Proof.
  intros Hb. destruct (aead_sizes (limit := limit)) as [Hn Ho].
  unfold kcpPacketReader_Read. apply safe_bind.
  { unfold reader_header. repeat go_case; [done| |done]. by go_step. }
  intros [b'|] E; [|done].
  assert (Hb' : is_bytes b').
  { revert E. unfold reader_header. repeat go_case; [done| |by intros [= <-]].
    go_step. intros [= <-]. by apply F. }
  clear E. unfold reader_security. go_case; [done|]. do 2 go_step.
  destruct (aead_open_safe (limit := limit) r r0) as [Hs Hp]; [lia|by apply F0|lia|].
  destruct (Open a r r0) as [out| |]; [|done..]. cbn [mbind res_bind].
  apply reader_segments_safe; [by apply Hp|lia].
Qed.

Context {BL : BufferLaws B}.

Lemma reader_segments_single s bytes fuel :
  wf_segment s -> Serialize s = Ret bytes -> 0 < zlen bytes -> (1 < fuel)%nat ->
  reader_segments fuel bytes = Ret [received s].
Proof.
  intros Hwf Hs Hl Hf. destruct fuel as [|[|fuel]]; [lia..|]. cbn [reader_segments].
  rewrite (proj2 (Z.ltb_lt _ _)) by done.
  rewrite <- (app_nil_r bytes), (segment_roundtrip s bytes []) by done. done.
Qed.

Lemma Serialize_nonempty s bytes : Serialize s = Ret bytes -> 0 < zlen bytes.
Proof.
  destruct s as [s|s|s]; cbn [Serialize].
  - unfold DataSegment_Serialize. destruct (ds_payload s); [|done]. intros <-%Ret_inj.
    zlen_norm. pose proof (zlen_nonneg l). lia.
  - intros <-%Ret_inj. unfold AckSegment_Serialize. zlen_norm.
    rewrite zlen_concat_put_be. pose proof (zlen_nonneg (as_NumberList s)). lia.
  - intros <-%Ret_inj. unfold CmdOnlySegment_Serialize. zlen_norm. lia.
Qed.

(** A segment written into a datagram by [kcpPacketWriter.Write] is what
    [kcpPacketReader.Read] takes out of it, for every header type in whatever
    state the header is, and for every AEAD that keeps its laws, as long as
    the sealed segment fits one buffer. *)
Theorem packet_roundtrip (a : AEAD) limit {AL : AEADLaws a limit} t h nonce s bytes :
  header_matches t h -> zlen nonce = NonceSize a ->
  wf_segment s -> Serialize s = Ret bytes -> is_bytes bytes -> zlen bytes <= limit ->
  HeaderSize t + NonceSize a + zlen bytes + Overhead a <= Z.of_nat buf_capacity ->
  exists datagram h',
    kcpPacketWriter_Write h (Some a) nonce bytes = Ret (datagram, h') /\
    header_matches t h' /\
    kcpPacketReader_Read (Some a) (HeaderSize t) datagram = Ret [received s].
Proof.
  intros Hh Hn Hwf Hs Hb Hlim Hcap. destruct (aead_sizes (limit := limit)) as [Hn0 Ho0].
  pose proof (Serialize_nonempty _ _ Hs) as Hpos.
  destruct (aead_open_seal (limit := limit) nonce bytes Hn Hb Hlim) as (c & Hc & Hlc & Hopen).
  assert (exists hb h', zlen hb = HeaderSize t /\ header_matches t h' /\
    kcpPacketWriter_Write h (Some a) nonce bytes = Ret (hb ++ nonce ++ c, h'))
    as (hb & h' & Hhb & Hh' & Hw).
  { unfold kcpPacketWriter_Write. rewrite Hc. cbn [mbind res_bind].
    pose proof (zlen_nonneg bytes). destruct h as [h|].
    - pose proof (header_Serialize_size h) as Hsz. pose proof (header_Serialize_matches _ _ Hh).
      destruct (header_Serialize h) as [hb h'] eqn:E. exists hb, (Some h').
      cbn [fst snd] in *. unfold header_matches in *. unfold zlen in *.
      repeat split; [lia|done|].
      rewrite (buf_append_fits [] hb), (buf_append_fits hb nonce) by (cbn [length]; lia).
      by rewrite (buf_append_fits (hb ++ nonce) c), <- app_assoc by (rewrite length_app; lia).
    - exists [], None. unfold header_matches in *. unfold zlen in *. cbn in *.
      repeat split; [lia|lia|].
      rewrite (buf_append_fits [] nonce) by (cbn [length]; lia). cbn [app].
      by rewrite (buf_append_fits nonce c) by lia. }
  exists (hb ++ nonce ++ c), h'. split; [done|]. split; [done|].
  unfold kcpPacketReader_Read.
  assert (reader_header (HeaderSize t) (hb ++ nonce ++ c) = Ret (Some (nonce ++ c))) as ->.
  { unfold reader_header. zlen_norm. pose proof (zlen_nonneg hb).
    destruct (Z.ltb_spec 0 (HeaderSize t)).
    - go_case; [lia|]. by rewrite go_from_app.
    - replace hb with (@nil Z); [done|]. symmetry. apply length_zero_iff_nil. unfold zlen in *. lia. }
  cbn [mbind res_bind]. unfold reader_security. zlen_norm. go_case; [lia|].
  rewrite <- Hn, go_slice_app. cbn [mbind res_bind].
  rewrite go_from_app by done. cbn [mbind res_bind]. rewrite Hopen. cbn [mbind res_bind].
  apply reader_segments_single; [done..|]. unfold zlen in Hpos. lia.
Qed.

End packet_theorems.

Definition sample_segment : Segment :=
  SegData (mkDataSegment 7 0 1000 3 2 (Some [104; 105]) 1100 1).

Lemma packet_roundtrip_witness :
  exists datagram h',
    kcpPacketWriter_Write (B := plain_buffers) (NewPacketHeader "dtls" 513)
      (Some SimpleAuthenticator) []
      [0; 7; 1; 0; 0; 0; 3; 232; 0; 0; 0; 3; 0; 0; 0; 2; 0; 2; 104; 105] = Ret (datagram, h') /\
    header_matches "dtls" h' /\
    kcpPacketReader_Read (B := plain_buffers) (Some SimpleAuthenticator) (HeaderSize "dtls")
      datagram = Ret [received sample_segment].
Proof.
  apply (packet_roundtrip SimpleAuthenticator 65535 "dtls").
  - apply NewPacketHeader_matches.
  - reflexivity.
  - unfold sample_segment, wf_segment, is_u16, is_u8, is_u32. cbn. repeat split; try lia.
    exists [104; 105]. repeat split; [done..|]. cbn [length buf_capacity plain_buffers_laws]. lia.
  - reflexivity.
  - repeat constructor; done.
  - done.
  - change (13 + 0 + 20 + 6 <= Z.of_nat (Z.to_nat 32768)). lia.
Defined.

Lemma kcpPacketReader_safe_witness :
  safe (kcpPacketReader_Read (B := plain_buffers) (Some SimpleAuthenticator) 4
          [4; 0; 0; 0; 1; 2; 3; 4; 5; 6; 7]).
Proof. apply (kcpPacketReader_safe SimpleAuthenticator 65535). repeat constructor; done. Defined.
