(* ===== verification/KcpReceiving.v ===== *)
(** * The receiving half of an mKCP connection
    (src/transport/v2raykcp/receiving.go, multi_buffer.go)

    Out-of-order segments wait in a window keyed by their 32-bit number; reads
    take the run that starts at the next expected number; received numbers are
    kept in a list of acknowledgements that is flushed in batches. *)

From S2P Require Import Prelude Buffers KcpSegment.

(** ** MultiBuffer *)

Definition MultiBuffer := list (list Z).

Definition mb_IsEmpty (mb : MultiBuffer) : bool := forallb (fun b => zlen b =? 0) mb.

Section buffers.
Context {B : BufferLib}.

(** [SplitBytes(mb, b)] for a slice [b] of length [n]: what is left of the
    buffers and the bytes copied into [b]. *)
Fixpoint SplitBytes (mb : MultiBuffer) (n : nat) : MultiBuffer * list Z :=
  match mb with
  | [] => ([], [])
  | p :: mb' =>
    let '(copied, rest) := buf_read p n in
    if zlen rest =? 0 then
      let '(mb'', more) := SplitBytes mb' (n - length copied) in (mb'', copied ++ more)
    else (rest :: mb', copied)
  end.

End buffers.

(** ** ReceivingWindow *)

Record ReceivingWindow := { rw_cache : gmap Z DataSegment }.

Definition NewReceivingWindow : ReceivingWindow := {| rw_cache := ∅ |}.

(** The window after [Set] and whether the number was new. *)
Definition rw_Set (id : Z) (value : DataSegment) (w : ReceivingWindow) : ReceivingWindow * bool :=
  match rw_cache w !! id with
  | Some _ => (w, false)
  | None => ({| rw_cache := <[id := value]> (rw_cache w) |}, true)
  end.

Definition rw_Has (id : Z) (w : ReceivingWindow) : bool :=
  match rw_cache w !! id with Some _ => true | None => false end.

Definition rw_Remove (id : Z) (w : ReceivingWindow) : ReceivingWindow * option DataSegment :=
  match rw_cache w !! id with
  | None => (w, None)
  | Some v => ({| rw_cache := delete id (rw_cache w) |}, Some v)
  end.

(** ** AckList *)

Record AckList := mkAckList {
  al_timestamps : list Z;
  al_numbers : list Z;
  al_nextFlush : list Z;
  al_flushCandidates : list Z;
  al_dirty : bool
}.

Definition NewAckList : AckList := mkAckList [] [] [] [] false.

(** The capacity [make] gives [flushCandidates]; it never grows, because
    [Flush] appends below it only. *)
Definition flushCandidatesCap : Z := 128.

Definition al_Add (number timestamp : Z) (l : AckList) : AckList :=
  mkAckList (al_timestamps l ++ [timestamp]) (al_numbers l ++ [number])
    (al_nextFlush l ++ [0]) (al_flushCandidates l) true.

(** The loop of [Clear]: [n] iterations from index [i], [count] kept so far;
    the three slices are compacted in place. *)
Fixpoint al_clear_loop (una : Z) (n i count : nat) (numbers timestamps nextFlush : list Z)
    : nat * (list Z * list Z * list Z) :=
  match n with
  | O => (count, (numbers, timestamps, nextFlush))
  | S n' =>
    if numbers !!! i <? una then
      al_clear_loop una n' (S i) count numbers timestamps nextFlush
    else if decide (i = count) then
      al_clear_loop una n' (S i) (S count) numbers timestamps nextFlush
    else
      al_clear_loop una n' (S i) (S count)
        (<[count := numbers !!! i]> numbers)
        (<[count := timestamps !!! i]> timestamps)
        (<[count := nextFlush !!! i]> nextFlush)
  end.

Definition al_Clear (una : Z) (l : AckList) : AckList :=
  let '(count, (numbers, timestamps, nextFlush)) :=
    al_clear_loop una (length (al_numbers l)) 0 0
      (al_numbers l) (al_timestamps l) (al_nextFlush l) in
  if (count <? length numbers)%nat then
    mkAckList (take count timestamps) (take count numbers) (take count nextFlush)
      (al_flushCandidates l) true
  else mkAckList timestamps numbers nextFlush (al_flushCandidates l) (al_dirty l).

(** What the loop of [Flush] carries from one acknowledgement to the next. *)
Record FlushState := mkFlushState {
  fl_seg : AckSegment;
  fl_candidates : list Z;
  fl_dirty : bool;
  fl_written : list AckSegment
}.

Definition flush_timeout (rto : Z) : Z := if rto / 2 <? 20 then 20 else rto / 2.

(** An acknowledgement that is not due is remembered as a candidate. *)
Definition flush_skip (number : Z) (st : FlushState) : FlushState :=
  if zlen (fl_candidates st) <? flushCandidatesCap
  then mkFlushState (fl_seg st) (fl_candidates st ++ [number]) (fl_dirty st) (fl_written st)
  else st.

(** One that is due joins the open segment, which is written when it is full. *)
Definition flush_put (number timestamp : Z) (st : FlushState) : FlushState :=
  let seg := PutTimestamp timestamp (PutNumber number (fl_seg st)) in
  if AckIsFull seg
  then mkFlushState NewAckSegment (fl_candidates st) false (fl_written st ++ [seg])
  else mkFlushState seg (fl_candidates st) (fl_dirty st) (fl_written st).

(** One pass over the three slices; the new [nextFlush] and the carried
    state. *)
Fixpoint al_flush_loop (current rto : Z) (numbers timestamps nextFlush : list Z)
    (st : FlushState) : list Z * FlushState :=
  match numbers, timestamps, nextFlush with
  | number :: numbers, timestamp :: timestamps, due :: nextFlush =>
    if current <? due then
      let '(nf, st) := al_flush_loop current rto numbers timestamps nextFlush
                         (flush_skip number st) in
      (due :: nf, st)
    else
      let '(nf, st) := al_flush_loop current rto numbers timestamps nextFlush
                         (flush_put number timestamp st) in
      (current ⊞ flush_timeout rto :: nf, st)
  | _, _, _ => ([], st)
  end.

(** [for _, number := range l.flushCandidates]: stops when the segment is full. *)
Fixpoint put_candidates (candidates : list Z) (seg : AckSegment) : AckSegment :=
  match candidates with
  | [] => seg
  | number :: candidates =>
    if AckIsFull seg then seg else put_candidates candidates (PutNumber number seg)
  end.

(** The list after [Flush] and the segments handed to the writer, in order. *)
Definition al_Flush (current rto : Z) (l : AckList) : AckList * list AckSegment :=
  let '(nf, st) :=
    al_flush_loop current rto (al_numbers l) (al_timestamps l) (al_nextFlush l)
      (mkFlushState NewAckSegment [] (al_dirty l) []) in
  if fl_dirty st || negb (AckIsEmpty (fl_seg st)) then
    (mkAckList (al_timestamps l) (al_numbers l) nf (fl_candidates st) false,
     fl_written st ++ [put_candidates (fl_candidates st) (fl_seg st)])
  else
    (mkAckList (al_timestamps l) (al_numbers l) nf (fl_candidates st) (fl_dirty st),
     fl_written st).

(** ** ReceivingWorker *)

Record ReceivingWorker := mkReceivingWorker {
  rk_leftOver : option MultiBuffer;
  rk_window : ReceivingWindow;
  rk_acklist : AckList;
  rk_nextNumber : Z;
  rk_windowSize : Z
}.

(** [windowSize] is the configuration's receiving in-flight size. *)
Definition NewReceivingWorker (windowSize : Z) : ReceivingWorker :=
  mkReceivingWorker None NewReceivingWindow NewAckList 0 windowSize.

Definition rk_ProcessSendingNext (number : Z) (w : ReceivingWorker) : ReceivingWorker :=
  mkReceivingWorker (rk_leftOver w) (rk_window w) (al_Clear number (rk_acklist w))
    (rk_nextNumber w) (rk_windowSize w).

Definition rk_ProcessSegment (seg : DataSegment) (w : ReceivingWorker) : ReceivingWorker :=
  let number := ds_Number seg in
  let idx := number ⊟ rk_nextNumber w in
  if rk_windowSize w <=? idx then w else
  let acklist := al_Add number (ds_Timestamp seg) (al_Clear (ds_SendingNext seg) (rk_acklist w)) in
  let '(window, _) := rw_Set (ds_Number seg) seg (rk_window w) in
  mkReceivingWorker (rk_leftOver w) window acklist (rk_nextNumber w) (rk_windowSize w).

(** The buffer [Detach] hands over; a parsed segment always has one. *)
Definition ds_Detach (seg : DataSegment) : list Z := default [] (ds_payload seg).

(** The loop of [ReadMultiBuffer]: every round removes one entry, so one more
    than the number of entries is enough fuel. *)
Fixpoint rk_read_loop (fuel : nat) (window : ReceivingWindow) (nextNumber : Z) (mb : MultiBuffer)
    : ReceivingWindow * Z * MultiBuffer :=
  match fuel with
  | O => (window, nextNumber, mb)
  | S fuel =>
    match rw_Remove nextNumber window with
    | (window, None) => (window, nextNumber, mb)
    | (window, Some seg) => rk_read_loop fuel window (nextNumber ⊞ 1) (mb ++ [ds_Detach seg])
    end
  end.

Definition rk_ReadMultiBuffer (w : ReceivingWorker) : ReceivingWorker * MultiBuffer :=
  match rk_leftOver w with
  | Some mb =>
    (mkReceivingWorker None (rk_window w) (rk_acklist w) (rk_nextNumber w) (rk_windowSize w), mb)
  | None =>
    let '(window, nextNumber, mb) :=
      rk_read_loop (S (size (rw_cache (rk_window w)))) (rk_window w) (rk_nextNumber w) [] in
    (mkReceivingWorker None window (rk_acklist w) nextNumber (rk_windowSize w), mb)
  end.

Section worker.
Context {B : BufferLib}.

(** [Read(b)] with [len(b) = n]: the worker and the bytes copied. *)
Definition rk_Read (n : nat) (w : ReceivingWorker) : ReceivingWorker * list Z :=
  let '(w, mb) := rk_ReadMultiBuffer w in
  if mb_IsEmpty mb then (w, []) else
  let '(mb, out) := SplitBytes mb n in
  (mkReceivingWorker (if mb_IsEmpty mb then None else Some mb) (rk_window w) (rk_acklist w)
     (rk_nextNumber w) (rk_windowSize w), out).

End worker.

Definition rk_IsDataAvailable (w : ReceivingWorker) : bool :=
  rw_Has (rk_nextNumber w) (rk_window w).

(** [Write] fills in what the connection knows; [closing] says whether its
    state is ready-to-close. *)
Definition rk_Write (conversation : Z) (closing : bool) (w : ReceivingWorker) (seg : AckSegment)
    : AckSegment :=
  mkAckSegment conversation (if closing then SegmentOptionClose else 0)
    (rk_nextNumber w ⊞ rk_windowSize w) (rk_nextNumber w) (as_Timestamp seg) (as_NumberList seg).

Definition rk_Flush (conversation : Z) (closing : bool) (current rto : Z) (w : ReceivingWorker)
    : ReceivingWorker * list AckSegment :=
  let '(acklist, segs) := al_Flush current rto (rk_acklist w) in
  (mkReceivingWorker (rk_leftOver w) (rk_window w) acklist (rk_nextNumber w) (rk_windowSize w),
   map (rk_Write conversation closing w) segs).

Definition rk_UpdateNecessary (w : ReceivingWorker) : bool := 0 <? zlen (al_numbers (rk_acklist w)).

Definition rk_Release (w : ReceivingWorker) : ReceivingWorker :=
  mkReceivingWorker None (rk_window w) (rk_acklist w) (rk_nextNumber w) (rk_windowSize w).

(** ** [Clear] keeps the numbers from [una] on *)

(** The three slices of the list as one list of entries. *)
Definition entries (numbers timestamps nextFlush : list Z) : list (Z * (Z * Z)) :=
  zip numbers (zip timestamps nextFlush).

Definition al_entries (l : AckList) : list (Z * (Z * Z)) :=
  entries (al_numbers l) (al_timestamps l) (al_nextFlush l).

(** The slices have one length. *)
Definition al_wf (l : AckList) : Prop :=
  length (al_timestamps l) = length (al_numbers l) /\
  length (al_nextFlush l) = length (al_numbers l).

Definition kept (una : Z) (e : Z * (Z * Z)) : Prop := una <= fst e.

#[export] Instance kept_dec una e : Decision (kept una e).
Proof. unfold kept. apply _. Defined.

Lemma entries_lookup numbers timestamps nextFlush (i : nat) :
  (i < length numbers)%nat -> length timestamps = length numbers ->
  length nextFlush = length numbers ->
  entries numbers timestamps nextFlush !! i =
  Some (numbers !!! i, (timestamps !!! i, nextFlush !!! i)).
Proof.
  intros Hi Ht Hf. unfold entries.
  apply lookup_zip_with_Some. eexists _, _. split; [done|].
  split; [apply list_lookup_lookup_total_lt; lia|].
  apply lookup_zip_with_Some. eexists _, _. split; [done|].
  split; apply list_lookup_lookup_total_lt; lia.
Qed.

Lemma entries_insert numbers timestamps nextFlush i x y z :
  entries (<[i := x]> numbers) (<[i := y]> timestamps) (<[i := z]> nextFlush) =
  <[i := (x, (y, z))]> (entries numbers timestamps nextFlush).
Proof. unfold entries. by rewrite !insert_zip_with. Qed.

Lemma entries_length numbers timestamps nextFlush :
  length timestamps = length numbers -> length nextFlush = length numbers ->
  length (entries numbers timestamps nextFlush) = length numbers.
Proof. intros. unfold entries. rewrite !length_zip_with. lia. Qed.

Lemma entries_take k numbers timestamps nextFlush :
  entries (take k numbers) (take k timestamps) (take k nextFlush) =
  take k (entries numbers timestamps nextFlush).
Proof. unfold entries. by rewrite !zip_with_take. Qed.

Lemma clear_loop_spec una n i count numbers timestamps nextFlush :
  length timestamps = length numbers -> length nextFlush = length numbers ->
  (count <= i)%nat -> (i + n = length numbers)%nat ->
  let E := entries numbers timestamps nextFlush in
  let '(count', (numbers', timestamps', nextFlush')) :=
    al_clear_loop una n i count numbers timestamps nextFlush in
  length numbers' = length numbers /\ length timestamps' = length numbers /\
  length nextFlush' = length numbers /\
  (count' <= length numbers)%nat /\
  take count' (entries numbers' timestamps' nextFlush') =
  take count E ++ filter (kept una) (drop i E).
Proof.
  revert i count numbers timestamps nextFlush.
  induction n as [|n IH]; intros i count numbers timestamps nextFlush Ht Hf Hc Hn E.
  - cbn. rewrite (drop_ge E) by (unfold E; rewrite entries_length; lia).
    rewrite app_nil_r. repeat split; lia || done.
  - cbn [al_clear_loop].
    assert (Hi : E !! i = Some (numbers !!! i, (timestamps !!! i, nextFlush !!! i)))
      by (apply entries_lookup; lia).
    rewrite (drop_S E _ _ Hi). destruct (Z.ltb_spec (numbers !!! i) una).
    + rewrite filter_cons_False by (unfold kept; cbn; lia). apply IH; lia.
    + rewrite filter_cons_True by done.
      destruct (decide (i = count)) as [<-|Hne].
      * specialize (IH (S i) (S i) numbers timestamps nextFlush Ht Hf ltac:(lia) ltac:(lia)).
        cbv zeta in IH. destruct (al_clear_loop _ _ _ _ _ _ _) as [c [[? ?] ?]].
        destruct IH as (? & ? & ? & ? & IH). repeat split; [done..|].
        rewrite IH. fold E. by rewrite (take_S_r E _ _ Hi), <- app_assoc.
      * specialize (IH (S i) (S count) (<[count := numbers !!! i]> numbers)
          (<[count := timestamps !!! i]> timestamps) (<[count := nextFlush !!! i]> nextFlush)).
        rewrite !length_insert in IH. specialize (IH Ht Hf ltac:(lia) ltac:(lia)).
        cbv zeta in IH. destruct (al_clear_loop _ _ _ _ _ _ _) as [c [[? ?] ?]].
        destruct IH as (? & ? & ? & ? & IH). repeat split; [done..|].
        rewrite IH, entries_insert. fold E.
        rewrite drop_insert_lt by lia.
        rewrite (take_S_r _ _ (numbers !!! i, (timestamps !!! i, nextFlush !!! i))).
        -- by rewrite take_insert_ge, <- app_assoc by lia.
        -- apply list_lookup_insert_eq. unfold E. rewrite entries_length; lia.
Qed.

(** [Clear(una)] leaves exactly the entries whose number is not below [una],
    in their order, with their timestamps and flush times. *)
Lemma al_Clear_entries una l :
  al_wf l ->
  al_wf (al_Clear una l) /\ al_entries (al_Clear una l) = filter (kept una) (al_entries l).
Proof.
  intros [Ht Hf]. pose proof (clear_loop_spec una (length (al_numbers l)) 0 0
    (al_numbers l) (al_timestamps l) (al_nextFlush l) Ht Hf ltac:(lia) ltac:(lia)) as H.
  cbv zeta in H. unfold al_Clear.
  destruct (al_clear_loop _ _ _ _ _ _ _) as [c [[ns ts] fs]].
  destruct H as (Hn' & Ht' & Hf' & Hc & He). rewrite take_0, drop_0 in He. cbn [app] in He.
  unfold al_wf, al_entries. destruct (Nat.ltb_spec c (length ns));
    cbn [al_numbers al_timestamps al_nextFlush].
  - rewrite !length_take, entries_take, He. split; [lia|done].
  - split; [lia|]. rewrite take_ge in He; [done|]. rewrite entries_length; lia.
Qed.

(** ** [Flush] sends every acknowledgement that is due *)

Definition is_due (current : Z) (e : Z * (Z * Z)) : Prop := snd (snd e) <= current.

#[export] Instance is_due_dec current e : Decision (is_due current e).
Proof. unfold is_due. apply _. Defined.

(** All numbers carried by a list of segments. *)
Definition sent_numbers (segs : list AckSegment) : list Z := concat (map as_NumberList segs).

Lemma sent_numbers_app a b : sent_numbers (a ++ b) = sent_numbers a ++ sent_numbers b.
Proof. unfold sent_numbers. by rewrite map_app, concat_app. Qed.

Lemma PutTimestamp_numbers t s : as_NumberList (PutTimestamp t s) = as_NumberList s.
Proof. unfold PutTimestamp. by destruct (_ <? _). Qed.

Lemma AckIsFull_spec s : AckIsFull s = true <-> zlen (as_NumberList s) = 128.
Proof. unfold AckIsFull, ackNumberLimit. apply Z.eqb_eq. Qed.

Lemma put_candidates_numbers cs s :
  zlen (as_NumberList s) <= 128 ->
  as_NumberList (put_candidates cs s) =
  as_NumberList s ++ take (Z.to_nat (128 - zlen (as_NumberList s))) cs.
Proof.
  revert s. induction cs as [|c cs IH]; intros s Hs; cbn [put_candidates].
  - by rewrite take_nil, app_nil_r.
  - destruct (AckIsFull s) eqn:E.
    + apply AckIsFull_spec in E. by rewrite E, app_nil_r.
    + assert (zlen (as_NumberList s) <> 128) by (rewrite <- AckIsFull_spec; congruence).
      rewrite IH by (cbn; rewrite zlen_app, zlen_cons, zlen_nil; lia).
      cbn [PutNumber as_NumberList]. rewrite zlen_app, zlen_cons, zlen_nil, <- app_assoc.
      replace (Z.to_nat (128 - zlen (as_NumberList s)))
        with (S (Z.to_nat (128 - (zlen (as_NumberList s) + (1 + 0))))) by lia. done.
Qed.

(** What the loop keeps: the open segment has room, the written ones are full. *)
Definition flush_ok (st : FlushState) : Prop :=
  zlen (as_NumberList (fl_seg st)) < 128 /\ zlen (fl_candidates st) <= 128 /\
  Forall (fun s => zlen (as_NumberList s) = 128) (fl_written st).

Definition flush_numbers (st : FlushState) : list Z :=
  sent_numbers (fl_written st) ++ as_NumberList (fl_seg st).

(** The next flush time of an entry. *)
Definition reflush (current rto : Z) (e : Z * (Z * Z)) : Z :=
  if decide (is_due current e) then current ⊞ flush_timeout rto else snd (snd e).

Lemma flush_skip_spec n st :
  flush_ok st ->
  flush_ok (flush_skip n st) /\ flush_numbers (flush_skip n st) = flush_numbers st /\
  forall l, take 128 (fl_candidates (flush_skip n st) ++ l) =
            take 128 (fl_candidates st ++ n :: l).
Proof.
  intros (? & ? & ?). unfold flush_skip, flushCandidatesCap, flush_ok, flush_numbers.
  destruct (Z.ltb_spec (zlen (fl_candidates st)) 128); cbn.
  - rewrite zlen_app, zlen_cons, zlen_nil.
    repeat split; [lia..|done|]. intros l. by rewrite <- app_assoc.
  - repeat split; [done..|]. intros l. unfold zlen in *. by rewrite !take_app_le by lia.
Qed.

Lemma flush_put_spec n t st :
  flush_ok st ->
  flush_ok (flush_put n t st) /\ flush_numbers (flush_put n t st) = flush_numbers st ++ [n] /\
  fl_candidates (flush_put n t st) = fl_candidates st.
Proof.
  intros (? & ? & ?). unfold flush_put.
  set (seg := PutTimestamp t (PutNumber n (fl_seg st))). cbv zeta.
  assert (Hseg : as_NumberList seg = as_NumberList (fl_seg st) ++ [n])
    by (unfold seg; by rewrite PutTimestamp_numbers).
  assert (Hlen : zlen (as_NumberList seg) = zlen (as_NumberList (fl_seg st)) + 1)
    by (rewrite Hseg; by zlen_norm).
  pose proof (AckIsFull_spec seg) as Hfull. unfold flush_ok, flush_numbers.
  destruct (AckIsFull seg); cbn [fl_seg fl_candidates fl_written].
  - rewrite sent_numbers_app. unfold sent_numbers at 2. cbn. rewrite Hseg, !app_nil_r, app_assoc.
    repeat split; [done|]. apply Forall_app. split; [done|].
    constructor; [|done]. by apply Hfull.
  - rewrite Hlen, Hseg, app_assoc.
    assert (zlen (as_NumberList seg) <> 128) by (rewrite <- Hfull; done).
    repeat split; [lia|done..].
Qed.

Lemma flush_loop_spec current rto ns ts fs st :
  length ts = length ns -> length fs = length ns -> flush_ok st ->
  let E := entries ns ts fs in
  let '(nf, st') := al_flush_loop current rto ns ts fs st in
  flush_ok st' /\ nf = map (reflush current rto) E /\
  flush_numbers st' = flush_numbers st ++ map fst (filter (is_due current) E) /\
  fl_candidates st' =
    take 128 (fl_candidates st ++ map fst (filter (fun e => ~ is_due current e) E)).
Proof.
  revert ts fs st. induction ns as [|n ns IH]; intros [|t ts] [|f fs] st Ht Hf Hok;
    try discriminate; cbn [length] in *.
  - cbn. rewrite !app_nil_r. pose proof Hok as (_ & ? & _). repeat (split; [done|]).
    rewrite take_ge; [done|]. unfold zlen in *. lia.
  - cbn [al_flush_loop entries zip zip_with]. injection Ht as Ht. injection Hf as Hf.
    fold (entries ns ts fs). destruct (Z.ltb_spec current f) as [Hd|Hd].
    + destruct (flush_skip_spec n st Hok) as (Hok1 & Hn1 & Hc1).
      specialize (IH ts fs _ Ht Hf Hok1). cbv zeta in IH.
      destruct (al_flush_loop _ _ _ _ _ _) as [nf st']. destruct IH as (? & -> & IHn & IHc).
      rewrite filter_cons_False by (unfold is_due; cbn; lia).
      rewrite filter_cons_True by (unfold is_due; cbn; lia). cbn [map fst].
      split; [done|]. rewrite IHn, Hn1, IHc, Hc1. split; [|done].
      unfold reflush at 2. by rewrite decide_False by (unfold is_due; cbn; lia).
    + destruct (flush_put_spec n t st Hok) as (Hok1 & Hn1 & Hc1).
      specialize (IH ts fs _ Ht Hf Hok1). cbv zeta in IH.
      destruct (al_flush_loop _ _ _ _ _ _) as [nf st']. destruct IH as (? & -> & IHn & IHc).
      rewrite filter_cons_True by (unfold is_due; cbn; lia).
      rewrite filter_cons_False by (unfold is_due; cbn; lia). cbn [map fst].
      split; [done|]. rewrite IHn, Hn1, IHc, Hc1, <- app_assoc. split; [|done].
      unfold reflush at 2. by rewrite decide_True by (unfold is_due; cbn; lia).
Qed.

Lemma al_Flush_spec current rto l :
  al_wf l ->
  let E := al_entries l in
  let '(l', segs) := al_Flush current rto l in
  al_wf l' /\ al_numbers l' = al_numbers l /\ al_timestamps l' = al_timestamps l /\
  al_nextFlush l' = map (reflush current rto) E /\ al_dirty l' = false /\
  Forall (fun s => zlen (as_NumberList s) <= 128) segs /\
  exists k, sent_numbers segs =
    map fst (filter (is_due current) E) ++
    take k (map fst (filter (fun e => ~ is_due current e) E)).
Proof.
  intros [Ht Hf]. cbv zeta. unfold al_Flush, al_entries, al_wf.
  pose proof (flush_loop_spec current rto (al_numbers l) (al_timestamps l) (al_nextFlush l)
    (mkFlushState NewAckSegment [] (al_dirty l) []) Ht Hf) as H. cbv zeta in H.
  destruct (al_flush_loop _ _ _ _ _ _) as [nf st].
  destruct H as ((Hlt & Hle & Hw) & Hnf & Hn & Hc); [by repeat split|].
  assert (length nf = length (al_numbers l)) by (rewrite Hnf, length_map, entries_length; lia).
  assert (Hw' : Forall (fun s => zlen (as_NumberList s) <= 128) (fl_written st))
    by (eapply Forall_impl; [exact Hw|]; cbn; lia).
  unfold flush_numbers in Hn. cbn in Hn, Hc.
  destruct (fl_dirty st || negb (AckIsEmpty (fl_seg st))) eqn:Hd;
    cbn [al_timestamps al_numbers al_nextFlush al_dirty].
  - do 5 (split; [done|]). rewrite sent_numbers_app. unfold sent_numbers at 2. cbn.
    rewrite app_nil_r, put_candidates_numbers, app_assoc, Hn, Hc by lia. split.
    + apply Forall_app. split; [done|]. constructor; [|done].
      rewrite put_candidates_numbers by lia. rewrite zlen_app. unfold zlen at 2.
      rewrite length_take. lia.
    + rewrite take_take. eauto.
  - apply orb_false_iff in Hd as [Hd He]. apply negb_false_iff, Z.eqb_eq in He.
    do 6 (split; [done|]). exists 0%nat. rewrite take_0, app_nil_r.
    rewrite <- Hn. unfold zlen in He.
    destruct (as_NumberList (fl_seg st)); [by rewrite app_nil_r|cbn in He; lia].
Qed.

(** One [Flush] of the acknowledgement list sends every number that is due,
    in order and once, possibly followed by some that are not yet due; no
    segment lists more than 128 numbers; the list itself is kept, each number
    sent gets its next flush time, and nothing is left marked dirty. *)
Theorem al_Flush_sends_due current rto l :
  al_wf l ->
  let E := al_entries l in
  let '(l', segs) := al_Flush current rto l in
  al_wf l' /\ al_numbers l' = al_numbers l /\ al_timestamps l' = al_timestamps l /\
  al_nextFlush l' = map (reflush current rto) E /\ al_dirty l' = false /\
  Forall (fun s => zlen (as_NumberList s) <= 128) segs /\
  exists k, sent_numbers segs =
    map fst (filter (is_due current) E) ++
    take k (map fst (filter (fun e => ~ is_due current e) E)).
Proof. apply al_Flush_spec. Qed.

Definition sample_acks : AckList := mkAckList [5; 6; 7] [1; 2; 3] [0; 90; 10] [] true.

Lemma al_Flush_sends_due_witness :
  al_wf sample_acks /\
  exists k, sent_numbers (snd (al_Flush 50 100 sample_acks)) = [1; 3] ++ take k [2].
Proof.
  split; [done|].
  destruct (al_Flush_sends_due 50 100 sample_acks (conj eq_refl eq_refl))
    as (_ & _ & _ & _ & _ & _ & Hk). exact Hk.
Defined.

(** ** In-order, exactly-once delivery *)

Section delivery.
Context {B : BufferLib} {BL : BufferLaws B}.

Lemma mb_IsEmpty_concat mb : mb_IsEmpty mb = true -> concat mb = [].
Proof.
  induction mb as [|b mb IH]; cbn; [done|]. intros [Hb Hm]%andb_true_iff.
  apply Z.eqb_eq in Hb. destruct b; [|rewrite zlen_cons in Hb; pose proof (zlen_nonneg b); lia].
  by apply IH.
Qed.

(** [SplitBytes] cuts the bytes of the buffers in two. *)
Lemma SplitBytes_concat mb n :
  snd (SplitBytes mb n) ++ concat (fst (SplitBytes mb n)) = concat mb.
Proof.
  revert n. induction mb as [|p mb IH]; intros n; cbn [SplitBytes]; [done|].
  pose proof (buf_read_app p n) as Hr. destruct (buf_read p n) as [copied rest]. cbn in Hr.
  destruct (Z.eqb_spec (zlen rest) 0) as [Hz|Hz].
  - specialize (IH (n - length copied)%nat). destruct (SplitBytes mb _) as [mb'' more].
    cbn in *. destruct rest; [|rewrite zlen_cons in Hz; pose proof (zlen_nonneg rest); lia].
    rewrite app_nil_r in Hr. by rewrite <- app_assoc, IH, Hr.
  - cbn. by rewrite app_assoc, Hr.
Qed.

(** It fills the slice as far as there are bytes. *)
Lemma SplitBytes_length mb n :
  length (snd (SplitBytes mb n)) = Nat.min n (length (concat mb)).
Proof.
  revert n. induction mb as [|p mb IH]; intros n; cbn [SplitBytes]; [cbn; lia|].
  pose proof (buf_read_app p n) as Hr. pose proof (buf_read_len p n) as Hl.
  destruct (buf_read p n) as [copied rest]. cbn [fst snd] in *. cbn [concat].
  assert (length p = length copied + length rest)%nat by (rewrite <- Hr, length_app; done).
  rewrite length_app. destruct (Z.eqb_spec (zlen rest) 0) as [Hz|Hz].
  - specialize (IH (n - length copied)%nat). destruct (SplitBytes mb _) as [mb'' more].
    cbn [snd] in *. rewrite length_app, IH. unfold zlen in Hz. lia.
  - cbn [snd]. unfold zlen in Hz. lia.
Qed.

End delivery.

(** The sender's stream is cut into payloads [f 0], [f 1], ...; segment [i]
    carries [f i] under the 32-bit number [u32 i].  A configuration is the
    worker, the absolute index [N] of the next segment it waits for, and the
    bytes handed to the reader so far. *)
Section reliability.
Context {B : BufferLib} {BL : BufferLaws B}.
Context (f : Z -> list Z) (ws : Z).

Definition stream (N : Z) : list Z := concat (map f (seqZ 0 N)).

Definition rconf : Type := ReceivingWorker * Z * list Z.

(** A data segment may arrive late, early, twice or never; it must not be
    so old or so new that its number is taken for another one's. *)
Inductive rstep : rconf -> rconf -> Prop :=
| rstep_segment w N log seg i :
    ds_Number seg = u32 i -> ds_payload seg = Some (f i) ->
    N - (2 ^ 32 - ws) <= i < N + 2 ^ 32 ->
    rstep (w, N, log) (rk_ProcessSegment seg w, N, log)
| rstep_read w N log n w' out :
    rk_Read n w = (w', out) ->
    rstep (w, N, log) (w', N + (rk_nextNumber w' ⊟ rk_nextNumber w), log ++ out)
| rstep_sending_next w N log number :
    rstep (w, N, log) (rk_ProcessSendingNext number w, N, log)
| rstep_flush w N log conv closing current rto :
    rstep (w, N, log) (fst (rk_Flush conv closing current rto w), N, log).

(** The window holds segments of the indices from [N] up to [M]. *)
Definition cache_ok (N M : Z) (cache : gmap Z DataSegment) : Prop :=
  forall k seg, cache !! k = Some seg ->
  exists i, N <= i < M /\ k = u32 i /\ ds_payload seg = Some (f i).

Definition rinv (c : rconf) : Prop :=
  let '(w, N, log) := c in
  0 <= N /\ rk_windowSize w = ws /\ rk_nextNumber w = u32 N /\
  cache_ok N (N + ws) (rw_cache (rk_window w)) /\
  log ++ concat (default [] (rk_leftOver w)) = stream N.

Lemma stream_app N k : 0 <= N -> 0 <= k -> stream (N + k) = stream N ++ concat (map f (seqZ N k)).
Proof.
  intros. unfold stream. rewrite seqZ_app, map_app, concat_app by lia. done.
Qed.

Lemma cache_ok_delete N M cache :
  M - N < 2 ^ 32 -> cache_ok N M cache -> cache_ok (N + 1) M (delete (u32 N) cache).
Proof.
  intros Hm Hc k seg Hk. apply lookup_delete_Some in Hk as [Hne Hk].
  destruct (Hc k seg Hk) as (i & Hi & -> & Hp). exists i. split; [|done].
  assert (i <> N) by (by intros ->). lia.
Qed.

(** The read loop takes the maximal run that starts at index [N]. *)
Lemma read_loop_spec fuel w N M mb :
  M - N < 2 ^ 32 -> cache_ok N M (rw_cache w) -> (size (rw_cache w) < fuel)%nat -> N <= M ->
  exists k w', 0 <= k /\ N + k <= M /\
    rk_read_loop fuel w (u32 N) mb = (w', u32 (N + k), mb ++ map f (seqZ N k)) /\
    cache_ok (N + k) M (rw_cache w') /\ rw_cache w !! u32 (N + k) = None.
Proof.
  revert w N mb. induction fuel as [|fuel IH]; intros w N mb Hm Hc Hf HN; [lia|].
  cbn [rk_read_loop]. unfold rw_Remove. destruct (rw_cache w !! u32 N) as [seg|] eqn:E.
  - destruct (Hc _ _ E) as (i & Hi & Hu & Hp). apply u32_inj_near in Hu; [|lia]. subst i.
    rewrite u32_add_l.
    destruct (IH {| rw_cache := delete (u32 N) (rw_cache w) |} (N + 1) (mb ++ [ds_Detach seg]))
      as (k & w' & Hk & HkM & Hl & Hc' & Hn).
    + lia.
    + by apply cache_ok_delete.
    + cbn. rewrite map_size_delete, E. assert (size (rw_cache w) <> 0)%nat; [|cbn; lia].
      intros H0%map_size_empty_inv. by rewrite H0 in E.
    + lia.
    + exists (k + 1), w'. replace (N + (k + 1)) with (N + 1 + k) by lia.
      split; [lia|]. split; [lia|]. split; [|split; [done|]]; last first.
      { cbn in Hn. rewrite lookup_delete_ne in Hn; [done|].
        intros Heq. apply u32_inj_near in Heq; lia. }
      rewrite Hl. f_equal.
      rewrite <- app_assoc. f_equal. rewrite (seqZ_cons N) by lia. cbn.
      unfold ds_Detach. rewrite Hp. cbn. do 3 f_equal; lia.
  - exists 0, w. rewrite Z.add_0_r. cbn. rewrite app_nil_r. repeat split; [lia..|done|done].
Qed.

Lemma rinv_segment w N log seg i :
  0 < ws < 2 ^ 32 -> ds_Number seg = u32 i -> ds_payload seg = Some (f i) ->
  N - (2 ^ 32 - ws) <= i < N + 2 ^ 32 ->
  rinv (w, N, log) -> rinv (rk_ProcessSegment seg w, N, log).
Proof.
  intros Hws Hn Hp Hi (H0 & Hw & Hx & Hc & Hl). unfold rk_ProcessSegment.
  rewrite Hw, Hx, Hn, u32_sub_u32. go_case; [by repeat split|].
  assert (N <= i < N + ws) as Hi'.
  { unfold u32 in *. destruct (Z.lt_ge_cases i N).
    - rewrite <- (Z.mod_add _ 1), Z.mod_small in H by lia. lia.
    - rewrite Z.mod_small in H by lia. lia. }
  unfold rw_Set. destruct (rw_cache (rk_window w) !! u32 i) eqn:E; [by repeat split|].
  repeat split; [done..| |done]. cbn. intros k s Hk.
  apply lookup_insert_Some in Hk as [[<- <-]|[_ Hk]]; [by exists i|by apply Hc].
Qed.

Lemma rinv_read w N log n w' out :
  0 < ws < 2 ^ 32 -> rk_Read n w = (w', out) -> rinv (w, N, log) ->
  rinv (w', N + (rk_nextNumber w' ⊟ rk_nextNumber w), log ++ out).
Proof.
  intros Hws Hr (H0 & Hw & Hx & Hc & Hl).
  assert (exists k w1 mb, 0 <= k /\ k <= ws /\ rk_ReadMultiBuffer w = (w1, mb) /\
    rk_windowSize w1 = ws /\ rk_nextNumber w1 = u32 (N + k) /\ rk_leftOver w1 = None /\
    cache_ok (N + k) (N + k + ws) (rw_cache (rk_window w1)) /\
    log ++ concat mb = stream (N + k))
    as (k & w1 & mb & Hk & Hkw & Hrm & Hw1 & Hx1 & Hlo & Hc1 & Hl1).
  { unfold rk_ReadMultiBuffer. destruct (rk_leftOver w) as [mb|] eqn:Elo.
    - exists 0. rewrite Z.add_0_r. eexists _, mb.
      split_and!; [lia|lia|done|exact Hw|exact Hx|done|exact Hc|exact Hl].
    - rewrite Hx. destruct (read_loop_spec (S (size (rw_cache (rk_window w)))) (rk_window w)
        N (N + ws) []) as (k & w2 & Hk & HkM & -> & Hc2 & _); [lia|done|lia|lia|].
      exists k. eexists _, _. split; [done|]. split; [lia|]. split; [done|].
      cbn. split_and!; [done|done|done| |].
      + intros key s Hs. destruct (Hc2 _ _ Hs) as (i & Hi & ? & ?). exists i.
        split_and!; [lia|lia|done|done].
      + rewrite stream_app by lia. cbn in Hl. by rewrite app_nil_r in Hl; rewrite Hl. }
  unfold rk_Read in Hr. rewrite Hrm in Hr.
  assert (rk_nextNumber w' = rk_nextNumber w1 /\ rk_windowSize w' = ws /\
    rk_window w' = rk_window w1 /\ out ++ concat (default [] (rk_leftOver w')) = concat mb)
    as (Hx' & Hw' & Hwin & Hout).
  { destruct (mb_IsEmpty mb) eqn:Eb.
    - injection Hr as <- <-. rewrite Hlo, (mb_IsEmpty_concat mb) by done. by split_and!.
    - pose proof (SplitBytes_concat mb n) as Hs. destruct (SplitBytes mb n) as [mb' o].
      injection Hr as <- <-. cbn in *. repeat split; [done|].
      destruct (mb_IsEmpty mb') eqn:Eb'; [|exact Hs].
      rewrite mb_IsEmpty_concat in Hs by done. exact Hs. }
  rewrite Hx', Hx1, Hx, u32_sub_u32. replace (N + k - N) with k by lia.
  rewrite (u32_id k) by (unfold is_u32; lia).
  split; [lia|]. split; [done|]. split; [by rewrite Hx'|].
  rewrite Hwin. split; [done|]. by rewrite <- app_assoc, Hout.
Qed.

Lemma rstep_rinv c c' : 0 < ws < 2 ^ 32 -> rstep c c' -> rinv c -> rinv c'.
Proof.
  intros Hws Hs. destruct Hs.
  - by eapply rinv_segment.
  - by eapply rinv_read.
  - done.
  - unfold rk_Flush. by destruct (al_Flush _ _ _).
Qed.

Lemma reachable_rinv c :
  0 < ws < 2 ^ 32 -> rtc rstep (NewReceivingWorker ws, 0, []) c -> rinv c.
Proof.
  intros Hws. apply (rtc_ind_r (fun c => rinv c)).
  - cbn [rinv]. split_and!; [lia|done|done| |done]. intros k seg. cbn. by rewrite lookup_empty.
  - intros x y _ Hxy Hx. by eapply rstep_rinv.
Qed.

(** C14: whatever the network does with the data segments (loss, duplication,
    reordering within half of the number space) and however reads, flushes
    and window updates are interleaved, the bytes handed to the reader,
    followed by the bytes kept for its next read, are exactly the payloads
    below the next expected index, each once and in order. *)
Theorem in_order_delivery c :
  0 < ws < 2 ^ 32 ->
  rtc rstep (NewReceivingWorker ws, 0, []) c ->
  let '(w, N, log) := c in
  0 <= N /\ rk_nextNumber w = u32 N /\
  log ++ concat (default [] (rk_leftOver w)) = stream N.
Proof.
  intros Hws H%reachable_rinv; [|done].
  destruct c as [[w N] log]. destruct H as (? & ? & ? & ? & ?). done.
Qed.


(** A read that starts with no bytes kept back hands over every segment
    that is waiting without a gap: if the next [k] segments have arrived, at
    least those [k] payloads are returned. *)
Theorem read_takes_run w N log k :
  0 < ws < 2 ^ 32 -> rtc rstep (NewReceivingWorker ws, 0, []) (w, N, log) ->
  rk_leftOver w = None -> 0 <= k ->
  (forall i, N <= i < N + k -> is_Some (rw_cache (rk_window w) !! u32 i)) ->
  exists k' w', k <= k' /\
    rk_ReadMultiBuffer w = (w', map f (seqZ N k')) /\ rk_nextNumber w' = u32 (N + k').
Proof.
  intros Hws (H0 & Hw & Hx & Hc & Hl)%reachable_rinv Hlo Hk Hall; [|done].
  unfold rk_ReadMultiBuffer. rewrite Hlo, Hx.
  destruct (read_loop_spec (S (size (rw_cache (rk_window w)))) (rk_window w)
    N (N + ws) []) as (k' & w2 & Hk' & HkM & Hl2 & Hc2 & Hn); [lia|done|lia|lia|].
  rewrite Hl2. exists k'. eexists. split; [|done].
  destruct (Z.le_gt_cases k k') as [|Hlt]; [done|]. exfalso.
  destruct (Hall (N + k')) as [seg Hseg]; [lia|]. congruence.
Qed.

End reliability.

(** Two segments arriving in the wrong order, one of them twice. *)
Definition sample_stream (i : Z) : list Z := if i =? 0 then [1; 2] else [3].

Definition sample_seg (i : Z) : DataSegment :=
  mkDataSegment 7 0 0 i 0 (Some (sample_stream i)) 0 0.

Definition sample_worker : ReceivingWorker :=
  rk_ProcessSegment (sample_seg 0)
    (rk_ProcessSegment (sample_seg 1) (rk_ProcessSegment (sample_seg 1) (NewReceivingWorker 8))).

Lemma sample_reachable :
  rtc (rstep (B := plain_buffers) sample_stream 8) (NewReceivingWorker 8, 0, [])
    (sample_worker, 0, []).
Proof.
  eapply rtc_l; [apply (rstep_segment _ _ _ _ _ (sample_seg 1) 1); [done|done|lia]|].
  eapply rtc_l; [apply (rstep_segment _ _ _ _ _ (sample_seg 1) 1); [done|done|lia]|].
  eapply rtc_l; [apply (rstep_segment _ _ _ _ _ (sample_seg 0) 0); [done|done|lia]|].
  apply rtc_refl.
Defined.

Lemma in_order_delivery_witness :
  exists w, rk_Read (B := plain_buffers) 5 sample_worker = (w, [1; 2; 3]) /\
    [1; 2; 3] ++ concat (default [] (rk_leftOver w)) = stream sample_stream 2.
Proof.
  destruct (rk_Read (B := plain_buffers) 5 sample_worker) as [w out] eqn:E.
  pose proof (in_order_delivery (B := plain_buffers) sample_stream 8
    (w, 0 + (rk_nextNumber w ⊟ rk_nextNumber sample_worker), [] ++ out) ltac:(lia)) as H.
  vm_compute in E. injection E as <- <-. eexists. split; [done|].
  apply H. eapply rtc_r; [apply sample_reachable|]. by apply (rstep_read _ _ _ _ _ 5).
Defined.

Lemma read_takes_run_witness :
  exists k' w', 2 <= k' /\
    rk_ReadMultiBuffer sample_worker = (w', map sample_stream (seqZ 0 k')) /\
    rk_nextNumber w' = u32 (0 + k').
Proof.
  apply (read_takes_run (B := plain_buffers) sample_stream 8 sample_worker 0 [] 2).
  - lia.
  - apply sample_reachable.
  - reflexivity.
  - lia.
  - intros i Hi. assert (i = 0 \/ i = 1) as [-> | ->] by lia; by eexists.
Defined.
