(* ===== verification/KcpRoundTrip.v ===== *)
(** * Round-trip time estimation (RoundTripInfo of
    src/transport/v2raykcp/connection.go) *)

From stdpp Require Import functions.
From S2P Require Import Prelude.

Record RoundTripInfo := mkRoundTripInfo {
  rt_variation : Z;
  rt_srtt : Z;
  rt_rto : Z;
  rt_minRtt : Z;
  rt_updatedTimestamp : Z
}.

Definition rt_UpdatePeerRTO (rto current : Z) (info : RoundTripInfo) : RoundTripInfo :=
  if current ⊟ rt_updatedTimestamp info <? 3000 then info
  else mkRoundTripInfo (rt_variation info) (rt_srtt info) rto (rt_minRtt info) current.

Definition rt_Update (rtt current : Z) (info : RoundTripInfo) : RoundTripInfo :=
  if 0x7FFFFFFF <? rtt then info else
  let '(srtt, variation) :=
    if rt_srtt info =? 0 then (rtt, rtt / 2)
    else
      let delta := if rtt <? rt_srtt info then rt_srtt info ⊟ rtt else rtt ⊟ rt_srtt info in
      let variation := u32 (u32 (3 * rt_variation info) + delta) / 4 in
      let srtt := u32 (u32 (7 * rt_srtt info) + rtt) / 8 in
      (if srtt <? rt_minRtt info then rt_minRtt info else srtt, variation) in
  let rto :=
    if rt_minRtt info <? u32 (4 * variation) then srtt ⊞ u32 (4 * variation)
    else srtt ⊞ variation in
  let rto := if 10000 <? rto then 10000 else rto in
  mkRoundTripInfo variation srtt (u32 (rto * 5) / 4) (rt_minRtt info) current.

Definition rt_Timeout (info : RoundTripInfo) : Z :=
  if rt_rto info =? 0 then 100 else rt_rto info.

Definition rt_SmoothedTime (info : RoundTripInfo) : Z := rt_srtt info.

(** ** Bounds

    Samples of at least ten seconds are discarded by the caller; the minimum
    is the transmission interval of the configuration, taken to be at most
    ten seconds. *)

Definition rt_bounded (info : RoundTripInfo) : Prop :=
  0 <= rt_variation info <= 10000 /\ 0 <= rt_srtt info <= 10000 /\
  0 < rt_minRtt info <= 10000.

(** [Update] with integers that have no bound. *)
Definition rt_Update_exact (rtt current : Z) (info : RoundTripInfo) : RoundTripInfo :=
  if 0x7FFFFFFF <? rtt then info else
  let '(srtt, variation) :=
    if rt_srtt info =? 0 then (rtt, rtt / 2)
    else (Z.max (rt_minRtt info) ((7 * rt_srtt info + rtt) / 8),
          (3 * rt_variation info + Z.abs (rtt - rt_srtt info)) / 4) in
  let rto := srtt + (if rt_minRtt info <? 4 * variation then 4 * variation else variation) in
  mkRoundTripInfo variation srtt (Z.min 10000 rto * 5 / 4) (rt_minRtt info) current.

Lemma rt_Update_eq rtt current info :
  0 <= rtt < 10000 -> rt_bounded info -> rt_Update rtt current info = rt_Update_exact rtt current info.
Proof.
  intros Hr (Hv & Hs & Hm). unfold rt_Update, rt_Update_exact.
  rewrite (proj2 (Z.ltb_ge _ _)) by lia.
  set (p := if rt_srtt info =? 0 then _ else _).
  set (q := if rt_srtt info =? 0 then _ else (Z.max _ _, _)).
  assert (Hp : p = q /\ 0 <= fst q <= 10000 /\ 0 <= snd q <= 10000).
  { unfold p, q. destruct (rt_srtt info =? 0); cbn [fst snd].
    - split; [done|]. split; [lia|]. split; [apply Z.div_pos; lia|apply Z.div_le_upper_bound; lia].
    - assert (Hd : (if rtt <? rt_srtt info then rt_srtt info ⊟ rtt else rtt ⊟ rt_srtt info)
        = Z.abs (rtt - rt_srtt info)).
      { destruct (Z.ltb_spec rtt (rt_srtt info)); rewrite u32_sub_le by (unfold is_u32; lia); lia. }
      rewrite Hd, (u32_id (3 * _)), (u32_id (7 * _)) by (unfold is_u32; lia).
      rewrite !u32_id by (unfold is_u32; lia).
      assert (0 <= (7 * rt_srtt info + rtt) / 8 <= 10000)
        by (split; [apply Z.div_pos; lia|apply Z.div_le_upper_bound; lia]).
      split.
      + f_equal. destruct (Z.ltb_spec ((7 * rt_srtt info + rtt) / 8) (rt_minRtt info)); lia.
      + split; [lia|]. split; [apply Z.div_pos; lia|apply Z.div_le_upper_bound; lia]. }
  clearbody p q. destruct Hp as (-> & Hp). destruct q as [srtt variation]. cbn [fst snd] in Hp.
  rewrite (u32_id (4 * variation)) by (unfold is_u32; lia).
  assert (Hrto : (if rt_minRtt info <? 4 * variation then srtt ⊞ 4 * variation else srtt ⊞ variation)
    = srtt + (if rt_minRtt info <? 4 * variation then 4 * variation else variation)).
  { destruct (_ <? _); by rewrite u32_id by (unfold is_u32; lia). }
  rewrite Hrto. set (rto := srtt + _). assert (0 <= rto) by (unfold rto; destruct (_ <? _); lia).
  replace (if 10000 <? rto then 10000 else rto) with (Z.min 10000 rto)
    by (destruct (Z.ltb_spec 10000 rto); lia).
  by rewrite u32_id by (unfold is_u32; lia).
Qed.

Lemma rt_Update_bounded rtt current info :
  0 <= rtt < 10000 -> rt_bounded info ->
  rt_bounded (rt_Update rtt current info) /\ 0 <= rt_rto (rt_Update rtt current info) <= 12500.
Proof.
  intros Hr Hb. rewrite rt_Update_eq by done. destruct Hb as (Hv & Hs & Hm). unfold rt_Update_exact.
  rewrite (proj2 (Z.ltb_ge _ _)) by lia.
  assert (0 <= (7 * rt_srtt info + rtt) / 8 <= 10000)
    by (split; [apply Z.div_pos; lia|apply Z.div_le_upper_bound; lia]).
  assert (0 <= (3 * rt_variation info + Z.abs (rtt - rt_srtt info)) / 4 <= 10000)
    by (split; [apply Z.div_pos; lia|apply Z.div_le_upper_bound; lia]).
  assert (0 <= rtt / 2 <= 10000) by (split; [apply Z.div_pos; lia|apply Z.div_le_upper_bound; lia]).
  unfold rt_bounded.
  destruct (rt_srtt info =? 0); cbn [rt_variation rt_srtt rt_minRtt rt_rto]; destruct (_ <? _);
    (split; [lia|split; [apply Z.div_pos; lia|apply Z.div_le_upper_bound; lia]]).
Qed.

(** ** The two ends of a connection

    The estimators of the two ends, and the timeouts each has written into its
    command segments.  A segment may be lost, delayed, doubled or overtaken:
    what arrives is any timeout the other end has written. *)

Abbreviation rt_ends := (bool -> RoundTripInfo * list Z).

(** [NewConnection]. *)
Definition rt_new (tti : Z) : RoundTripInfo := mkRoundTripInfo 0 0 100 tti 0.

Inductive rt_step : rt_ends -> rt_ends -> Prop :=
| rt_sample e rtt current s :
    (** an acknowledgement, [ProcessSegment] of the sending worker *)
    0 <= rtt < 10000 -> rt_step s (<[e := (rt_Update rtt current (s e).1, (s e).2)]> s)
| rt_ping e s :
    (** [Ping] *)
    rt_step s (<[e := ((s e).1, rt_Timeout (s e).1 :: (s e).2)]> s)
| rt_command e rto current s :
    (** a command segment, [Input] *)
    rto ∈ (s (negb e)).2 -> rt_step s (<[e := (rt_UpdatePeerRTO rto current (s e).1, (s e).2)]> s).

Definition rt_inv (s : rt_ends) : Prop :=
  forall e, rt_bounded (s e).1 /\ 0 <= rt_rto (s e).1 <= 12500 /\ Forall (fun t => 0 < t <= 12500) (s e).2.

Lemma rt_Timeout_range info : 0 <= rt_rto info <= 12500 -> 0 < rt_Timeout info <= 12500.
Proof. unfold rt_Timeout. go_case; lia. Qed.

Lemma rt_UpdatePeerRTO_keeps rto current info :
  rt_bounded info -> 0 <= rt_rto info <= 12500 -> 0 < rto <= 12500 ->
  rt_bounded (rt_UpdatePeerRTO rto current info) /\ 0 <= rt_rto (rt_UpdatePeerRTO rto current info) <= 12500.
Proof. intros Hb Hr Hp. unfold rt_UpdatePeerRTO. destruct (_ <? _); [done|]. split; [done|]. cbn. lia. Qed.

Lemma rt_step_inv s s' : rt_step s s' -> rt_inv s -> rt_inv s'.
Proof.
  assert (Hset : forall s e x, rt_inv s ->
    rt_bounded x.1 /\ 0 <= rt_rto x.1 <= 12500 /\ Forall (fun t => 0 < t <= 12500) x.2 -> rt_inv (<[e := x]> s)).
  { intros t e x Ht Hx e'. destruct (decide (e = e')) as [<-|Hne].
    - by rewrite fn_lookup_insert.
    - rewrite fn_lookup_insert_ne by done. apply Ht. }
  intros Hs Hi. destruct Hs as [e rtt current s Hr|e s|e rto current s Hin];
    (apply Hset; [done|]; destruct (Hi e) as (Hb & Hr' & Hl); cbn [fst snd]).
  - destruct (rt_Update_bounded rtt current (s e).1) as [H1 H2]; [done..|]. done.
  - split; [done|]. split; [done|]. constructor; [by apply rt_Timeout_range|done].
  - destruct (Hi (negb e)) as (_ & _ & Hl'). rewrite Forall_forall in Hl'.
    destruct (rt_UpdatePeerRTO_keeps rto current (s e).1 Hb Hr' (Hl' _ Hin)). done.
Qed.

(** C20: Two ends that estimate the round trip from the samples the sender
    accepts (below ten seconds), and tell each other their timeouts in command
    segments that may be lost, delayed, doubled or reordered, keep their
    retransmission timeouts positive and at most 12.5 seconds, for transmission
    intervals of at most ten seconds; and no sample makes the 32-bit arithmetic
    of [Update] overflow: it computes what integers without a bound give. *)
Theorem rt_Update_timeout tti s :
  (forall e, 0 < tti e <= 10000) ->
  rtc rt_step (fun e => (rt_new (tti e), [])) s ->
  forall e, 0 < rt_Timeout (s e).1 <= 12500 /\
    forall rtt current, 0 <= rtt < 10000 ->
      rt_Update rtt current (s e).1 = rt_Update_exact rtt current (s e).1.
Proof.
  intros Ht Hs. assert (Hi : rt_inv s).
  { revert Hs. apply (rtc_ind_r (fun x => rt_inv x)); [|intros; eapply rt_step_inv; eauto].
    intros e. pose proof (Ht e). unfold rt_bounded. cbn. repeat split; [lia..|constructor]. }
  intros e. destruct (Hi e) as (Hb & Hr & _). split; [by apply rt_Timeout_range|].
  intros. by apply rt_Update_eq.
Qed.

(** A sample at one end, whose timeout is told to the other. *)
Lemma rt_Update_timeout_witness :
  let start : rt_ends := fun e => (rt_new 50, []) in
  let s := <[false := (rt_UpdatePeerRTO 300 4000 (rt_new 50), [])]>
    (<[true := (rt_Update 80 1000 (rt_new 50), [300])]>
       (<[true := (rt_Update 80 1000 (rt_new 50), [])]> start)) in
  (s false).1 = mkRoundTripInfo 0 0 300 50 4000 /\
  forall e, 0 < rt_Timeout (s e).1 <= 12500 /\
    forall rtt current, 0 <= rtt < 10000 ->
      rt_Update rtt current (s e).1 = rt_Update_exact rtt current (s e).1.
Proof.
  cbv zeta. split; [by vm_compute|]. apply (rt_Update_timeout (fun _ => 50)); [lia|].
  eapply rtc_l; [apply (rt_sample true 80 1000); lia|].
  eapply rtc_l; [apply (rt_ping true)|].
  eapply rtc_l; [apply (rt_command false 300 4000); by left|]. apply rtc_refl.
Defined.

(** A peer that writes another value decides the timeout. *)
Example peer_rto_unbounded :
  rt_Timeout (rt_UpdatePeerRTO 0xFFFFFFFF 4000 (rt_new 50)) = 0xFFFFFFFF.
Proof. done. Qed.
