(* ===== verification/KcpSending.v ===== *)
(** * The sending half of an mKCP connection
    (src/transport/v2raykcp/sending.go)

    Unacknowledged data segments wait in a queue ordered by number; a flush
    sends the ones whose timeout has passed, acknowledgements remove them. *)

From S2P Require Import Prelude KcpSegment KcpRoundTrip.

(** ** SendingWindow

    The linked list of the cache is a Coq list, front first. *)

Record SendingWindow := mkSendingWindow {
  sw_cache : list DataSegment;
  sw_totalInFlightSize : Z
}.

Definition NewSendingWindow : SendingWindow := mkSendingWindow [] 0.

Definition sw_Release (sw : SendingWindow) : SendingWindow :=
  mkSendingWindow [] (sw_totalInFlightSize sw).

Definition sw_Len (sw : SendingWindow) : Z := u32 (zlen (sw_cache sw)).

Definition sw_IsEmpty (sw : SendingWindow) : bool := zlen (sw_cache sw) =? 0.

Definition sw_Push (number : Z) (b : list Z) (sw : SendingWindow) : SendingWindow :=
  mkSendingWindow (sw_cache sw ++ [mkDataSegment 0 0 0 number 0 (Some b) 0 0])
    (sw_totalInFlightSize sw).

(** [FirstNumber] raises on an empty cache; its caller tests first. *)
Definition sw_FirstNumber (sw : SendingWindow) : res Z :=
  match sw_cache sw with [] => Panic | seg :: _ => Ret (ds_Number seg) end.

(** Removal from the front while the number is below [una]. *)
Fixpoint drop_below (una : Z) (cache : list DataSegment) : list DataSegment :=
  match cache with
  | [] => []
  | seg :: cache' => if una <=? ds_Number seg then cache else drop_below una cache'
  end.

Definition sw_Clear (una : Z) (sw : SendingWindow) : SendingWindow :=
  mkSendingWindow (drop_below una (sw_cache sw)) (sw_totalInFlightSize sw).

Definition with_timeout (t : Z) (s : DataSegment) : DataSegment :=
  mkDataSegment (ds_Conv s) (ds_Option s) (ds_Timestamp s) (ds_Number s) (ds_SendingNext s)
    (ds_payload s) t (ds_transmit s).

(** The visit of [HandleFastAck]: it ends at the acknowledged number. *)
Fixpoint fast_ack_visit (number rto : Z) (cache : list DataSegment) : list DataSegment :=
  match cache with
  | [] => []
  | seg :: cache' =>
    if (number =? ds_Number seg) || (0x7FFFFFFF <? number ⊟ ds_Number seg) then cache
    else
      (if (0 <? ds_transmit seg) && (rto / 3 <? ds_timeout seg)
       then with_timeout (ds_timeout seg ⊟ rto / 3) seg else seg)
      :: fast_ack_visit number rto cache'
  end.

Definition sw_HandleFastAck (number rto : Z) (sw : SendingWindow) : SendingWindow :=
  if sw_IsEmpty sw then sw
  else mkSendingWindow (fast_ack_visit number rto (sw_cache sw)) (sw_totalInFlightSize sw).

(** What the visit of [Flush] counts. *)
Record FlushCount := mkFlushCount { fc_total : Z; fc_lost : Z; fc_inFlight : Z }.

(** The segment as it is sent: [write] is what the segment writer fills in. *)
Definition flush_segment (write : DataSegment -> DataSegment) (current rto : Z)
    (seg : DataSegment) : DataSegment :=
  write (mkDataSegment (ds_Conv seg) (ds_Option seg) current (ds_Number seg) (ds_SendingNext seg)
           (ds_payload seg) (current ⊞ rto) (ds_transmit seg ⊞ 1)).

Definition flush_count (seg : DataSegment) (c : FlushCount) : FlushCount :=
  if ds_transmit seg =? 0
  then mkFlushCount (fc_total c ⊞ 1) (fc_lost c) (fc_inFlight c ⊞ 1)
  else mkFlushCount (fc_total c) (fc_lost c ⊞ 1) (fc_inFlight c ⊞ 1).

(** The cache after the visit, the counts, and the segments written. *)
Fixpoint flush_visit (write : DataSegment -> DataSegment) (current rto maxInFlightSize : Z)
    (cache : list DataSegment) (c : FlushCount)
    : list DataSegment * FlushCount * list DataSegment :=
  match cache with
  | [] => ([], c, [])
  | seg :: cache' =>
    if 0x7FFFFFFF <=? current ⊟ ds_timeout seg then
      let '(cache', c, out) := flush_visit write current rto maxInFlightSize cache' c in
      (seg :: cache', c, out)
    else
      let c := flush_count seg c in
      let seg := flush_segment write current rto seg in
      if fc_inFlight c <? maxInFlightSize then
        let '(cache', c, out) := flush_visit write current rto maxInFlightSize cache' c in
        (seg :: cache', c, seg :: out)
      else (seg :: cache', c, [seg])
  end.

(** The window, the loss rate to report if any, and the segments written. *)
Definition sw_Flush (write : DataSegment -> DataSegment) (current rto maxInFlightSize : Z)
    (sw : SendingWindow) : SendingWindow * option Z * list DataSegment :=
  if sw_IsEmpty sw then (sw, None, []) else
  let '(cache, c, out) :=
    flush_visit write current rto maxInFlightSize (sw_cache sw)
      (mkFlushCount (sw_totalInFlightSize sw) 0 0) in
  (mkSendingWindow cache (fc_total c),
   if (0 <? fc_inFlight c) && negb (fc_total c =? 0)
   then Some (u32 (fc_lost c * 100) / fc_total c) else None,
   out).

(** The scan of [Remove]: [None] when the number is not found. *)
Fixpoint remove_number (number : Z) (cache : list DataSegment) : option (list DataSegment) :=
  match cache with
  | [] => None
  | seg :: cache' =>
    if number <? ds_Number seg then None
    else if ds_Number seg =? number then Some cache'
    else
      match remove_number number cache' with
      | None => None
      | Some cache' => Some (seg :: cache')
      end
  end.

Definition sw_Remove (number : Z) (sw : SendingWindow) : SendingWindow * bool :=
  match remove_number number (sw_cache sw) with
  | None => (sw, false)
  | Some cache =>
    (mkSendingWindow cache
       (if 0 <? sw_totalInFlightSize sw then sw_totalInFlightSize sw ⊟ 1
        else sw_totalInFlightSize sw), true)
  end.

(** ** SendingWorker *)

Record SendingWorker := mkSendingWorker {
  sk_window : SendingWindow;
  sk_firstUnacknowledged : Z;
  sk_nextNumber : Z;
  sk_remoteNextNumber : Z;
  sk_controlWindow : Z;
  sk_fastResend : Z;
  sk_windowSize : Z;
  sk_firstUnacknowledgedUpdated : bool;
  sk_closed : bool
}.

(** What the worker reads of its connection: the conversation, the
    congestion switch and the sending in-flight size of the configuration. *)
Record SendEnv := {
  se_conversation : Z;
  se_congestion : bool;
  se_inFlight : Z
}.

(** [controlWindow] and [windowSize] come from the configuration. *)
Definition NewSendingWorker (inFlightSize bufferSize : Z) : SendingWorker :=
  mkSendingWorker NewSendingWindow 0 0 32 inFlightSize 2 bufferSize false false.

Definition with_window (window : SendingWindow) (w : SendingWorker) : SendingWorker :=
  mkSendingWorker window (sk_firstUnacknowledged w) (sk_nextNumber w) (sk_remoteNextNumber w)
    (sk_controlWindow w) (sk_fastResend w) (sk_windowSize w)
    (sk_firstUnacknowledgedUpdated w) (sk_closed w).

Definition sk_Release (w : SendingWorker) : SendingWorker :=
  mkSendingWorker (sw_Release (sk_window w)) (sk_firstUnacknowledged w) (sk_nextNumber w)
    (sk_remoteNextNumber w) (sk_controlWindow w) (sk_fastResend w) (sk_windowSize w)
    (sk_firstUnacknowledgedUpdated w) true.

Definition sk_FindFirstUnacknowledged (w : SendingWorker) : SendingWorker :=
  let first :=
    match sw_cache (sk_window w) with
    | seg :: _ => ds_Number seg
    | [] => sk_nextNumber w
    end in
  mkSendingWorker (sk_window w) first (sk_nextNumber w) (sk_remoteNextNumber w)
    (sk_controlWindow w) (sk_fastResend w) (sk_windowSize w)
    (if negb (sk_firstUnacknowledged w =? first) then true else sk_firstUnacknowledgedUpdated w)
    (sk_closed w).

Definition sk_ProcessReceivingNext (nextNumber : Z) (w : SendingWorker) : SendingWorker :=
  sk_FindFirstUnacknowledged (with_window (sw_Clear nextNumber (sk_window w)) w).

Definition sk_processAck (number : Z) (w : SendingWorker) : SendingWorker * bool :=
  if (0x7FFFFFFF <? number ⊟ sk_firstUnacknowledged w) ||
     (number ⊟ sk_nextNumber w <? 0x7FFFFFFF)
  then (w, false)
  else
    let '(window, removed) := sw_Remove number (sk_window w) in
    let w := with_window window w in
    (if removed then sk_FindFirstUnacknowledged w else w, removed).

(** The loop over the acknowledged numbers, with the largest one seen and
    whether it was removed. *)
Fixpoint sk_process_acks (numbers : list Z) (maxack : Z) (maxackRemoved : bool) (w : SendingWorker)
    : SendingWorker * Z * bool :=
  match numbers with
  | [] => (w, maxack, maxackRemoved)
  | number :: numbers =>
    let '(w, removed) := sk_processAck number w in
    if maxack <? number then sk_process_acks numbers number removed w
    else sk_process_acks numbers maxack maxackRemoved w
  end.

Definition with_remote (n : Z) (w : SendingWorker) : SendingWorker :=
  mkSendingWorker (sk_window w) (sk_firstUnacknowledged w) (sk_nextNumber w) n
    (sk_controlWindow w) (sk_fastResend w) (sk_windowSize w)
    (sk_firstUnacknowledgedUpdated w) (sk_closed w).

(** [ProcessSegment] also feeds the round-trip estimator of the connection. *)
Definition sk_ProcessSegment (current : Z) (seg : AckSegment) (rto : Z)
    (wr : SendingWorker * RoundTripInfo) : SendingWorker * RoundTripInfo :=
  let '(w, roundTrip) := wr in
  if sk_closed w then (w, roundTrip) else
  let w := if sk_remoteNextNumber w <? as_ReceivingWindow seg
           then with_remote (as_ReceivingWindow seg) w else w in
  let w := sk_ProcessReceivingNext (as_ReceivingNext seg) w in
  if AckIsEmpty seg then (w, roundTrip) else
  let '(w, maxack, maxackRemoved) := sk_process_acks (as_NumberList seg) 0 false w in
  if maxackRemoved then
    (with_window (sw_HandleFastAck maxack rto (sk_window w)) w,
     if current ⊟ as_Timestamp seg <? 10000
     then rt_Update (current ⊟ as_Timestamp seg) current roundTrip else roundTrip)
  else (w, roundTrip).

(** The worker and whether the segment was queued. *)
Definition sk_Push (b : list Z) (w : SendingWorker) : SendingWorker * bool :=
  if sk_closed w then (w, false)
  else if sk_windowSize w <? sw_Len (sk_window w) then (w, false)
  else
    (mkSendingWorker (sw_Push (sk_nextNumber w) b (sk_window w)) (sk_firstUnacknowledged w)
       (sk_nextNumber w ⊞ 1) (sk_remoteNextNumber w) (sk_controlWindow w) (sk_fastResend w)
       (sk_windowSize w) (sk_firstUnacknowledgedUpdated w) (sk_closed w), true).

(** [closing]: the connection's state is ready-to-close. *)
Definition sk_Write (env : SendEnv) (closing : bool) (w : SendingWorker) (s : DataSegment)
    : DataSegment :=
  mkDataSegment (se_conversation env) (if closing then SegmentOptionClose else 0)
    (ds_Timestamp s) (ds_Number s) (sk_firstUnacknowledged w) (ds_payload s)
    (ds_timeout s) (ds_transmit s).

(** [timeout] is the connection's current retransmission timeout. *)
Definition sk_OnPacketLoss (env : SendEnv) (timeout lossRate : Z) (w : SendingWorker)
    : SendingWorker :=
  if negb (se_congestion env) || (timeout =? 0) then w else
  let cw :=
    if 15 <=? lossRate then u32 (3 * sk_controlWindow w) / 4
    else if lossRate <=? 5 then sk_controlWindow w ⊞ sk_controlWindow w / 4
    else sk_controlWindow w in
  let cw := if cw <? 16 then 16 else cw in
  let cw := if u32 (2 * se_inFlight env) <? cw then u32 (2 * se_inFlight env) else cw in
  mkSendingWorker (sk_window w) (sk_firstUnacknowledged w) (sk_nextNumber w)
    (sk_remoteNextNumber w) cw (sk_fastResend w) (sk_windowSize w)
    (sk_firstUnacknowledgedUpdated w) (sk_closed w).

Definition with_updated (b : bool) (w : SendingWorker) : SendingWorker :=
  mkSendingWorker (sk_window w) (sk_firstUnacknowledged w) (sk_nextNumber w)
    (sk_remoteNextNumber w) (sk_controlWindow w) (sk_fastResend w) (sk_windowSize w)
    b (sk_closed w).

(** The congestion window of a flush, in segments. *)
Definition sk_cwnd (env : SendEnv) (w : SendingWorker) : Z :=
  let cwnd := se_inFlight env in
  let room := sk_remoteNextNumber w ⊟ sk_firstUnacknowledged w in
  let cwnd := if room <? cwnd then room else cwnd in
  if se_congestion env && (sk_controlWindow w <? cwnd) then sk_controlWindow w else cwnd.

(** The worker, the segments written, and whether the connection is to send
    a ping. *)
Definition sk_Flush (env : SendEnv) (closing : bool) (current timeout : Z) (w : SendingWorker)
    : SendingWorker * list DataSegment * bool :=
  if sk_closed w then (w, [], false) else
  let cwnd := u32 (sk_cwnd env w * 20) in
  let '(w, out) :=
    if sw_IsEmpty (sk_window w) then (w, []) else
    let '(window, loss, out) :=
      sw_Flush (sk_Write env closing w) current timeout cwnd (sk_window w) in
    let w := with_window window w in
    let w := match loss with None => w | Some rate => sk_OnPacketLoss env timeout rate w end in
    (with_updated false w, out) in
  (with_updated false w, out, sk_firstUnacknowledgedUpdated w).

Definition sk_CloseWrite (w : SendingWorker) : SendingWorker :=
  with_window (sw_Clear 0xFFFFFFFF (sk_window w)) w.

Definition sk_IsEmpty (w : SendingWorker) : bool := sw_IsEmpty (sk_window w).

Definition sk_UpdateNecessary (w : SendingWorker) : bool := negb (sk_IsEmpty w).

(** ** Outstanding data: the contract of the window

    What the sender owes its peer, without timers: the next number and the
    numbered payloads not yet acknowledged, oldest first. *)

Record Outstanding := mkOutstanding { o_next : Z; o_pending : list (Z * list Z) }.

(** An acknowledgement with receiver position [una] and list [numbers]. *)
Definition o_ack (una : Z) (numbers : list Z) (o : Outstanding) : Outstanding :=
  mkOutstanding (o_next o)
    (base.filter (fun p => una <= fst p /\ fst p ∉ numbers) (o_pending o)).

Definition o_push (windowSize : Z) (b : list Z) (o : Outstanding) : Outstanding :=
  if windowSize <? zlen (o_pending o) then o
  else mkOutstanding (o_next o + 1) (o_pending o ++ [(o_next o, b)]).

(** The calls a connection makes on its sending worker while it is open. *)
Inductive send_op :=
| OpPush (b : list Z)
| OpAck (current : Z) (seg : AckSegment) (rto : Z)
| OpReceivingNext (n : Z)
| OpFlush (env : SendEnv) (closing : bool) (current timeout : Z)
| OpCloseWrite.

Definition send_run (op : send_op) (wr : SendingWorker * RoundTripInfo)
    : SendingWorker * RoundTripInfo :=
  match op with
  | OpPush b => (fst (sk_Push b (fst wr)), snd wr)
  | OpAck current seg rto => sk_ProcessSegment current seg rto wr
  | OpReceivingNext n => (sk_ProcessReceivingNext n (fst wr), snd wr)
  | OpFlush env closing current timeout =>
    (fst (fst (sk_Flush env closing current timeout (fst wr))), snd wr)
  | OpCloseWrite => (sk_CloseWrite (fst wr), snd wr)
  end.

Definition send_spec (windowSize : Z) (op : send_op) (o : Outstanding) : Outstanding :=
  match op with
  | OpPush b => o_push windowSize b o
  | OpAck _ seg _ => o_ack (as_ReceivingNext seg) (as_NumberList seg) o
  | OpReceivingNext n => o_ack n [] o
  | OpFlush _ _ _ _ => o
  | OpCloseWrite => mkOutstanding (o_next o) []
  end.

(** ** The cache as numbered payloads *)

Definition ds_entry (s : DataSegment) : Z * list Z :=
  (ds_Number s, default [] (ds_payload s)).

Definition entries (sw : SendingWindow) : list (Z * list Z) := ds_entry <$> sw_cache sw.

(** The numbers of a cache rise strictly, between two bounds. *)
Fixpoint rising (lo hi : Z) (l : list (Z * list Z)) : Prop :=
  match l with
  | [] => lo <= hi
  | p :: l => lo <= fst p /\ rising (fst p + 1) hi l
  end.

Lemma rising_le lo lo' hi l : lo' <= lo -> rising lo hi l -> rising lo' hi l.
Proof. destruct l; cbn; [lia|]. intros ? [??]. split; [lia|done]. Qed.

Lemma rising_hi lo hi l : rising lo hi l -> lo <= hi.
Proof. revert lo; induction l as [|p l IH]; cbn; [lia|]. intros lo [? H]. apply IH in H. lia. Qed.

Lemma rising_snoc lo hi l b : rising lo hi l -> rising lo (hi + 1) (l ++ [(hi, b)]).
Proof.
  revert lo; induction l as [|p l IH]; cbn; intros lo H; [lia|].
  destruct H as [? H]. split; [done|]. by apply IH.
Qed.

Lemma rising_elem lo hi l p : rising lo hi l -> p ∈ l -> lo <= fst p < hi.
Proof.
  revert lo; induction l as [|q l IH]; cbn; intros lo H Hp; [by apply elem_of_nil in Hp|].
  destruct H as [? H]. pose proof (rising_hi _ _ _ H).
  apply elem_of_cons in Hp as [->|Hp]; [lia|]. apply (IH _ H) in Hp. lia.
Qed.

Lemma rising_length lo hi l : rising lo hi l -> zlen l <= hi - lo.
Proof.
  revert lo; induction l as [|p l IH]; cbn [rising]; intros lo H; [unfold zlen; cbn; lia|].
  destruct H as [? H]. apply IH in H. unfold zlen in *. cbn [length]. lia.
Qed.

Lemma rising_filter P `{!∀ x, Decision (P x)} lo hi l :
  rising lo hi l -> rising lo hi (base.filter P l).
Proof.
  revert lo; induction l as [|p l IH]; intros lo Hl; [done|].
  destruct Hl as [? Hl]. apply IH in Hl. rewrite filter_cons. destruct (decide (P p)).
  - by split.
  - eapply rising_le; [|done]. lia.
Qed.

Lemma drop_below_entries una lo hi cache :
  rising lo hi (ds_entry <$> cache) ->
  ds_entry <$> drop_below una cache =
  base.filter (fun p => una <= fst p /\ fst p ∉ []) (ds_entry <$> cache).
Proof.
  revert lo; induction cache as [|s cache IH]; intros lo H; [done|].
  cbn [drop_below]. destruct (Z.leb_spec una (ds_Number s)) as [Hle|Hlt].
  - symmetry. apply filter_true. intros p Hp. split; [|by apply not_elem_of_nil].
    cbn [fmap list_fmap] in H, Hp. destruct H as [_ H]. apply elem_of_cons in Hp as [->|Hp].
    + done.
    + pose proof (rising_elem _ _ _ _ H Hp). cbn in *. lia.
  - destruct H as [_ H]. rewrite (IH _ H). cbn [fmap list_fmap].
    rewrite filter_cons_False; [done|]. cbn. lia.
Qed.

Lemma remove_number_entries number lo hi cache :
  rising lo hi (ds_entry <$> cache) ->
  ds_entry <$> default cache (remove_number number cache) =
  base.filter (fun p => fst p <> number) (ds_entry <$> cache).
Proof.
  revert lo; induction cache as [|s cache IH]; intros lo H; [done|].
  cbn [remove_number]. destruct H as [_ H].
  assert (Hgt : forall p, p ∈ (ds_entry <$> cache) -> ds_Number s < fst p).
  { intros p Hp. pose proof (rising_elem _ _ _ _ H Hp). cbn in *. lia. }
  destruct (Z.ltb_spec number (ds_Number s)); [|destruct (Z.eqb_spec (ds_Number s) number)].
  - symmetry. apply filter_true. intros p Hp. cbn [default fmap list_fmap] in Hp.
    apply elem_of_cons in Hp as [->|Hp]; [cbn; lia|]. apply Hgt in Hp. lia.
  - cbn [default fmap list_fmap]. rewrite filter_cons_False by (cbn; lia).
    symmetry. apply filter_true. intros p Hp%Hgt. lia.
  - specialize (IH _ H). cbn [fmap list_fmap]. rewrite filter_cons_True by (cbn; lia).
    rewrite <- IH. by destruct (remove_number number cache).
Qed.

(** ** Refinement

    The worker represents an outstanding state: same numbers, same payloads,
    in order, with the first unacknowledged number below all of them. *)

Record represents (windowSize : Z) (o : Outstanding) (w : SendingWorker) : Prop := {
  rep_entries : entries (sk_window w) = o_pending o;
  rep_next : sk_nextNumber w = o_next o;
  rep_rising : rising (sk_firstUnacknowledged w) (o_next o) (o_pending o);
  rep_first : 0 <= sk_firstUnacknowledged w;
  rep_bound : o_next o <= 2 ^ 31;
  rep_size : sk_windowSize w = windowSize;
  rep_open : sk_closed w = false
}.

Lemma rep_new inFlight bufferSize :
  represents bufferSize (mkOutstanding 0 []) (NewSendingWorker inFlight bufferSize).
Proof. by constructor. Qed.

(** Any change of the cache that keeps its entries keeps the relation. *)
Lemma rep_with_window size o w sw :
  entries sw = entries (sk_window w) -> represents size o w -> represents size o (with_window sw w).
Proof. intros He []. constructor; cbn; congruence. Qed.

Lemma rep_with_updated size o w b : represents size o w -> represents size o (with_updated b w).
Proof. intros []. by constructor. Qed.

Lemma rep_with_remote size o w n : represents size o w -> represents size o (with_remote n w).
Proof. intros []. by constructor. Qed.

Lemma rep_loss size o w env timeout rate :
  represents size o w -> represents size o (sk_OnPacketLoss env timeout rate w).
Proof. intros []. unfold sk_OnPacketLoss. destruct (_ || _); by constructor. Qed.

(** Searching the first unacknowledged number makes it exact. *)
Lemma rep_find size o w :
  represents size o w -> represents size o (sk_FindFirstUnacknowledged w) /\
  sk_firstUnacknowledged (sk_FindFirstUnacknowledged w) =
    match o_pending o with [] => o_next o | p :: _ => fst p end.
Proof.
  intros [He Hn Hr ????]. unfold entries in He. pose proof (rising_hi _ _ _ Hr).
  destruct (sw_cache (sk_window w)) as [|s cache] eqn:E; cbn in He.
  - unfold sk_FindFirstUnacknowledged. rewrite E, <- He in *. cbn. split; [|done].
    constructor; unfold entries; cbn; try done; rewrite ?E, <- ?He; cbn; try done; lia.
  - unfold sk_FindFirstUnacknowledged. rewrite E, <- He in *. cbn in *.
    split; [|done]. constructor; unfold entries; cbn; try done; rewrite ?E, <- ?He; cbn;
      try done; [split; [lia|tauto]|lia].
Qed.

(** Shrinking the pending list. *)
Lemma rep_shrink size o w sw P `{!∀ x, Decision (P x)} :
  entries sw = base.filter P (o_pending o) -> represents size o w ->
  represents size (mkOutstanding (o_next o) (base.filter P (o_pending o))) (with_window sw w).
Proof. intros He []. constructor; cbn; try done. by apply rising_filter. Qed.

Lemma rep_ReceivingNext size o w n :
  represents size o w -> represents size (o_ack n [] o) (sk_ProcessReceivingNext n w).
Proof.
  intros Hr. apply rep_find, rep_shrink; [|done]. unfold entries. cbn.
  destruct Hr as [He ? Hri]. unfold entries in He. rewrite <- He in *.
  by eapply drop_below_entries.
Qed.

Lemma rep_processAck size o w number :
  is_u32 number -> represents size o w ->
  represents size (mkOutstanding (o_next o) (base.filter (fun p => fst p <> number) (o_pending o)))
    (fst (sk_processAck number w)).
Proof.
  intros Hu Hr. unfold sk_processAck. destruct (_ || _) eqn:E.
  - rewrite filter_true; [by destruct o|]. intros p Hp Heq. subst number.
    destruct Hr as [? Hn Hri Hf Hb ??]. pose proof (rising_elem _ _ _ _ Hri Hp).
    apply orb_true_iff in E as [E|E]; apply Z.ltb_lt in E.
    + rewrite u32_sub_le in E by (unfold is_u32; lia). lia.
    + rewrite Hn, u32_sub_gt in E by (unfold is_u32; lia). lia.
  - assert (Hs := Hr). destruct Hs as [He ? Hri ????].
    unfold entries in He. rewrite <- He in Hri.
    pose proof (remove_number_entries number _ _ _ Hri) as Hrm. rewrite He in Hrm.
    unfold sw_Remove. destruct (remove_number number _) as [cache|]; cbn [default fst] in *.
    + by apply rep_find, rep_shrink.
    + by apply rep_shrink; [|done]; rewrite <- He in *.
Qed.

Lemma rep_process_acks size numbers maxack removed o w :
  Forall is_u32 numbers -> represents size o w ->
  represents size (mkOutstanding (o_next o) (base.filter (fun p => fst p ∉ numbers) (o_pending o)))
    (fst (fst (sk_process_acks numbers maxack removed w))).
Proof.
  intros Hu. revert maxack removed o w.
  induction Hu as [|number numbers Hu Hus IH]; intros maxack removed o w Hr; cbn [sk_process_acks].
  - rewrite filter_true; [by destruct o|]. intros. apply not_elem_of_nil.
  - pose proof (rep_processAck _ _ _ number Hu Hr) as Hr'.
    destruct (sk_processAck number w) as [w' rem]. cbn [fst] in Hr'.
    assert (Hf : base.filter (fun p : Z * list Z => fst p ∉ number :: numbers) (o_pending o) =
      base.filter (fun p => fst p ∉ numbers) (base.filter (fun p => fst p <> number) (o_pending o))).
    { rewrite list_filter_filter. apply list_filter_iff. intros p. rewrite not_elem_of_cons. tauto. }
    rewrite Hf. destruct (maxack <? number); by apply (IH _ _ _ _ Hr').
Qed.

Lemma fast_ack_entries number rto cache :
  ds_entry <$> fast_ack_visit number rto cache = ds_entry <$> cache.
Proof.
  induction cache as [|s cache IH]; [done|]. cbn [fast_ack_visit]. destruct (_ || _); [done|].
  cbn [fmap list_fmap]. f_equal; [by destruct (_ && _)|done].
Qed.

Lemma rep_ProcessSegment size o current seg rto wr :
  Forall is_u32 (as_NumberList seg) -> represents size o (fst wr) ->
  represents size (o_ack (as_ReceivingNext seg) (as_NumberList seg) o)
    (fst (sk_ProcessSegment current seg rto wr)).
Proof.
  destruct wr as [w info]. cbn [fst]. intros Hu Hr. unfold sk_ProcessSegment.
  rewrite (rep_open _ _ _ Hr). set (w1 := if _ <? _ then _ else _).
  assert (Hr1 : represents size o w1).
  { unfold w1. destruct (_ <? _); [by apply rep_with_remote|done]. }
  apply (rep_ReceivingNext _ _ _ (as_ReceivingNext seg)) in Hr1.
  unfold AckIsEmpty. destruct (Z.eqb_spec (zlen (as_NumberList seg)) 0) as [E|_].
  - destruct (as_NumberList seg); [done|]. unfold zlen in E. cbn in E. lia.
  - apply (rep_process_acks _ (as_NumberList seg) 0 false _ _ Hu) in Hr1.
    destruct (sk_process_acks _ _ _ _) as [[w2 maxack] removed]. cbn [fst] in Hr1.
    assert (Ho : o_ack (as_ReceivingNext seg) (as_NumberList seg) o =
      mkOutstanding (o_next (o_ack (as_ReceivingNext seg) [] o))
        (base.filter (fun p => fst p ∉ as_NumberList seg)
           (o_pending (o_ack (as_ReceivingNext seg) [] o)))).
    { unfold o_ack. cbn. f_equal. rewrite list_filter_filter. apply list_filter_iff.
      intros p. pose proof (not_elem_of_nil p.1). tauto. }
    rewrite Ho. destruct removed; cbn [fst]; [|done].
    apply rep_with_window; [|done]. unfold sw_HandleFastAck, entries.
    destruct (sw_IsEmpty _); [done|]. apply fast_ack_entries.
Qed.

(** ** Flushing *)

Definition due (current : Z) (s : DataSegment) : Prop :=
  current ⊟ ds_timeout s < 0x7FFFFFFF.

#[export] Instance due_dec current s : Decision (due current s).
Proof. unfold due. apply _. Defined.

(** A cached segment after a flush that wrote [out]. *)
Definition flushed (write : DataSegment -> DataSegment) (current rto : Z)
    (out : list DataSegment) (s s' : DataSegment) : Prop :=
  s' = s \/ (due current s /\ s' = flush_segment write current rto s /\ s' ∈ out).

Lemma flushed_refl write current rto out cache :
  Forall2 (flushed write current rto out) cache cache.
Proof. induction cache; constructor; [by left|done]. Qed.

Lemma flushed_out write current rto s out cache cache' :
  Forall2 (flushed write current rto out) cache cache' ->
  Forall2 (flushed write current rto (s :: out)) cache cache'.
Proof.
  induction 1 as [|x y ? ? [->|(? & ? & ?)] _ IH]; constructor; [by left|done| |done].
  right. split_and!; [done..|by right].
Qed.

Lemma flush_visit_spec write current rto m cache c :
  0 <= fc_inFlight c -> fc_inFlight c + zlen cache < 2 ^ 32 ->
  let r := flush_visit write current rto m cache c in
  snd r = flush_segment write current rto <$>
            take (Z.to_nat (Z.max 1 (m - fc_inFlight c))) (base.filter (due current) cache) /\
  Forall2 (flushed write current rto (snd r)) cache (fst (fst r)).
Proof.
  cbv zeta. revert c; induction cache as [|s cache IH]; intros c Hk Hl.
  { cbn. by rewrite take_nil. }
  unfold zlen in Hl, IH. cbn [length] in Hl. cbn [flush_visit].
  destruct (Z.leb_spec 0x7FFFFFFF (current ⊟ ds_timeout s)) as [Hd|Hd].
  - rewrite filter_cons_False by (unfold due; lia).
    specialize (IH c Hk ltac:(lia)). destruct (flush_visit _ _ _ _ _ _) as [[cache1 c1] out1].
    destruct IH as [IH1 IH2]. split; [done|]. constructor; [by left|done].
  - rewrite filter_cons_True by done. set (c' := flush_count s c).
    assert (Hc' : fc_inFlight c' = fc_inFlight c + 1).
    { unfold c', flush_count. destruct (_ =? 0); cbn; apply u32_id; unfold is_u32; lia. }
    destruct (Z.ltb_spec (fc_inFlight c') m) as [Hm|Hm].
    + specialize (IH c' ltac:(lia) ltac:(lia)).
      destruct (flush_visit _ _ _ _ _ _) as [[cache1 c1] out1]. cbn [fst snd] in *.
      destruct IH as [-> IH2]. split.
      * replace (Z.to_nat (Z.max 1 (m - fc_inFlight c)))
          with (S (Z.to_nat (Z.max 1 (m - fc_inFlight c')))) by lia. done.
      * constructor; [|by apply flushed_out]. right. split_and!; [done..|by left].
    + cbn [fst snd]. replace (Z.to_nat (Z.max 1 (m - fc_inFlight c))) with 1%nat by lia.
      split; [by rewrite firstn_cons, firstn_O|].
      constructor; [|apply flushed_refl]. right. split_and!; [done..|by left].
Qed.

Lemma flushed_entries env closing w current rto out cache cache' :
  Forall2 (flushed (sk_Write env closing w) current rto out) cache cache' ->
  ds_entry <$> cache' = ds_entry <$> cache.
Proof.
  induction 1 as [|s s' cache cache' Hs _ IH]; [done|]. cbn. rewrite IH. f_equal.
  by destruct Hs as [->|(_ & -> & _)].
Qed.

(** The worker after a flush, its cache aside, is the one before. *)
Lemma sk_Flush_spec env closing current timeout w :
  sk_closed w = false -> zlen (sw_cache (sk_window w)) < 2 ^ 32 ->
  let '(w', out, ping) := sk_Flush env closing current timeout w in
  out = flush_segment (sk_Write env closing w) current timeout <$>
          take (Z.to_nat (Z.max 1 (u32 (sk_cwnd env w * 20))))
            (base.filter (due current) (sw_cache (sk_window w))) /\
  Forall2 (flushed (sk_Write env closing w) current timeout out)
    (sw_cache (sk_window w)) (sw_cache (sk_window w')) /\
  ping = sk_firstUnacknowledgedUpdated w && sw_IsEmpty (sk_window w).
Proof.
  intros Ho Hl. unfold sk_Flush. rewrite Ho.
  destruct (sw_IsEmpty (sk_window w)) eqn:E.
  - unfold sw_IsEmpty, zlen in E. destruct (sw_cache (sk_window w)) eqn:Ec; [|done].
    rewrite andb_true_r, filter_nil, take_nil. cbn. by rewrite Ec.
  - unfold sw_Flush. rewrite E.
    pose proof (flush_visit_spec (sk_Write env closing w) current timeout (u32 (sk_cwnd env w * 20))
      (sw_cache (sk_window w)) (mkFlushCount (sw_totalInFlightSize (sk_window w)) 0 0)
      ltac:(cbn; lia) ltac:(cbn; lia)) as H.
    destruct (flush_visit _ _ _ _ _ _) as [[cache c] out]. cbn [fst snd fc_inFlight] in H.
    rewrite Z.sub_0_r in H. destruct H as [H1 H2]. rewrite andb_false_r. split; [done|].
    split; [|by destruct (_ && _)].
    destruct (_ && _); [|done]. unfold sk_OnPacketLoss. by destruct (_ || _).
Qed.

Lemma rep_cache_len size o w :
  represents size o w -> zlen (sw_cache (sk_window w)) = zlen (o_pending o) /\
  zlen (o_pending o) <= 2 ^ 31.
Proof.
  intros [He _ Hr ? ? _ _]. apply rising_length in Hr. unfold entries in He.
  rewrite <- He in *. unfold zlen in *. rewrite length_fmap in *. split; [done|lia].
Qed.

Lemma rep_Flush size o w env closing current timeout :
  represents size o w -> represents size o (fst (fst (sk_Flush env closing current timeout w))).
Proof.
  intros Hr. pose proof (rep_cache_len _ _ _ Hr) as [Hl1 Hl2].
  pose proof (sk_Flush_spec env closing current timeout w (rep_open _ _ _ Hr) ltac:(lia)) as H.
  revert H. unfold sk_Flush. rewrite (rep_open _ _ _ Hr).
  destruct (sw_IsEmpty (sk_window w)); [by intros; apply rep_with_updated|].
  destruct (sw_Flush _ _ _ _ _) as [[window loss] out] eqn:E. intros (_ & H & _).
  apply flushed_entries in H. cbn [fst] in *. apply rep_with_updated, rep_with_updated.
  assert (Hw : sw_cache window = sw_cache (sk_window (match loss with
     | Some rate => sk_OnPacketLoss env timeout rate (with_window window w)
     | None => with_window window w end))).
  { destruct loss; [|done]. unfold sk_OnPacketLoss. by destruct (_ || _). }
  assert (represents size o (with_window window w)).
  { apply rep_with_window; [|done]. unfold entries. rewrite Hw. apply H. }
  destruct loss; [by apply rep_loss|done].
Qed.

Lemma rep_Push size o w b :
  o_next o < 2 ^ 31 -> represents size o w ->
  represents size (o_push size b o) (fst (sk_Push b w)).
Proof.
  intros Hn Hr. pose proof (rep_cache_len _ _ _ Hr) as [Hl1 Hl2].
  pose proof (rising_hi _ _ _ (rep_rising _ _ _ Hr)).
  destruct Hr as [He ? ? ? ? ? Ho]. unfold sk_Push, o_push, sw_Len. rewrite Ho.
  rewrite u32_id by (unfold is_u32, zlen in *; lia). rewrite Hl1.
  replace (sk_windowSize w) with size by done. go_case; [by constructor|].
  constructor; cbn; try done.
  - unfold entries in *. cbn. rewrite fmap_app, He. by replace (o_next o) with (sk_nextNumber w).
  - replace (sk_nextNumber w) with (o_next o) by done. apply u32_id. unfold is_u32. lia.
  - by apply rising_snoc.
  - lia.
Qed.

Lemma rep_CloseWrite size o w :
  represents size o w -> represents size (mkOutstanding (o_next o) []) (sk_CloseWrite w).
Proof.
  intros Hr. assert (Hs := Hr). destruct Hs as [He Hn Hri Hf Hb ??].
  replace [] with (base.filter (fun p : Z * list Z => 0xFFFFFFFF <= fst p /\ fst p ∉ [])
    (o_pending o)).
  - apply rep_shrink; [|done]. unfold entries in *. cbn. rewrite <- He in Hri.
    erewrite drop_below_entries by done. by rewrite He.
  - pose proof (fun p => rising_elem _ _ _ p Hri) as Hel. clear He Hri. revert Hel.
    induction (o_pending o) as [|p l IH]; intros Hel; [done|].
    rewrite filter_cons_False; [apply IH; intros; apply Hel; by right|].
    pose proof (Hel p ltac:(left)). lia.
Qed.

(** ** Properties *)

Definition op_wf (op : send_op) : Prop :=
  match op with OpAck _ seg _ => Forall is_u32 (as_NumberList seg) | _ => True end.

(** The number of pushes of a sequence. *)
Fixpoint pushes (ops : list send_op) : Z :=
  match ops with
  | [] => 0
  | OpPush _ :: ops => 1 + pushes ops
  | _ :: ops => pushes ops
  end.

Lemma pushes_nonneg ops : 0 <= pushes ops.
Proof. induction ops as [|[] ops IH]; cbn; lia. Qed.

Lemma o_push_next size b o : o_next o <= o_next (o_push size b o) <= o_next o + 1.
Proof. unfold o_push. go_case; cbn; lia. Qed.

Lemma send_run_represents size ops o wr :
  Forall op_wf ops -> o_next o + pushes ops <= 2 ^ 31 ->
  represents size o (fst wr) ->
  represents size (foldl (fun o op => send_spec size op o) o ops)
    (fst (foldl (fun wr op => send_run op wr) wr ops)).
Proof.
  intros Hw. revert o wr. induction Hw as [|op ops Hop _ IH]; intros o wr Hn Hr; [done|].
  pose proof (pushes_nonneg ops). cbn [foldl]. apply IH.
  - destruct op; cbn in *; try lia. pose proof (o_push_next size b o). lia.
  - destruct op; cbn in *.
    + apply rep_Push; [lia|done].
    + by apply rep_ProcessSegment.
    + by apply rep_ReceivingNext.
    + by apply rep_Flush.
    + by apply rep_CloseWrite.
Qed.

(** C13: the sending window is exact.  After any sequence of pushes,
    acknowledgements (whatever numbers and receiver position the peer put in
    them), flushes and write closings on a fresh worker that queues fewer
    than 2^31 segments, the cache holds, in order, exactly the payloads that
    were accepted and neither acknowledged by number nor passed by the
    receiver, under the numbers they were given: nothing unacknowledged is
    dropped or renumbered, nothing acknowledged is kept. *)
Theorem sending_window_exact inFlight size info ops :
  Forall op_wf ops -> pushes ops <= 2 ^ 31 ->
  let w := fst (foldl (fun wr op => send_run op wr) (NewSendingWorker inFlight size, info) ops) in
  let o := foldl (fun o op => send_spec size op o) (mkOutstanding 0 []) ops in
  entries (sk_window w) = o_pending o /\ sk_nextNumber w = o_next o /\
  Forall (fun p => sk_firstUnacknowledged w <= fst p < o_next o) (o_pending o).
Proof.
  intros Hw Hn. cbv zeta.
  pose proof (send_run_represents size ops (mkOutstanding 0 []) (NewSendingWorker inFlight size, info)
    Hw Hn (rep_new inFlight size)) as [He Hx Hr _ _ _ _].
  split_and!; [done..|]. apply Forall_forall. intros p. by apply rising_elem.
Qed.

Definition witness_env : SendEnv :=
  {| se_conversation := 9; se_congestion := true; se_inFlight := 16 |}.

Definition witness_ops : list send_op :=
  [OpPush [1]; OpPush [2]; OpPush [3];
   OpFlush witness_env false 100 50;
   OpAck 160 (mkAckSegment 9 0 64 1 100 [1; 7; 4294967295]) 50; OpPush [4]].

Lemma sending_window_exact_witness :
  let w := fst (foldl (fun wr op => send_run op wr)
                  (NewSendingWorker 16 64, mkRoundTripInfo 0 0 100 50 0) witness_ops) in
  entries (sk_window w) = [(2, [3]); (3, [4])] /\ sk_nextNumber w = 4.
Proof.
  pose proof (sending_window_exact 16 64 (mkRoundTripInfo 0 0 100 50 0) witness_ops) as H.
  cbv zeta in H. destruct H as (H1 & H2 & _).
  - repeat constructor; unfold is_u32; lia.
  - vm_compute. congruence.
  - split; [rewrite H1|rewrite H2]; vm_compute; reflexivity.
Defined.

(** A segment sent a moment ago is not due again before its timeout. *)
Lemma flush_segment_not_due env closing w current rto s :
  is_u32 current -> 0 < rto <= 2 ^ 31 ->
  ~ due current (flush_segment (sk_Write env closing w) current rto s).
Proof.
  intros Hc Hr. unfold due, flush_segment. cbn [sk_Write ds_timeout].
  unfold u32. rewrite Zminus_mod_idemp_r.
  replace (current - (current + rto)) with (- rto) by lia.
  rewrite Z.mod_opp_l_nz, Z.mod_small; rewrite ?Z.mod_small; lia.
Qed.

(** What a flush sends.  It sends the oldest cached segments whose
    timeout has passed, in order, as many as twenty times the congestion
    window (one at least), stamped with the current time, the conversation
    and the first unacknowledged number; it forgets none, leaves the ones it
    did not send as they were, and the ones it sent are not due again at
    once. *)
Theorem flush_sends_due env closing current timeout w :
  sk_closed w = false -> zlen (sw_cache (sk_window w)) < 2 ^ 32 ->
  is_u32 current -> 0 < timeout <= 2 ^ 31 ->
  let '(w', out, ping) := sk_Flush env closing current timeout w in
  let room := Z.to_nat (Z.max 1 (u32 (sk_cwnd env w * 20))) in
  let chosen := take room (base.filter (due current) (sw_cache (sk_window w))) in
  out = flush_segment (sk_Write env closing w) current timeout <$> chosen /\
  entries (sk_window w') = entries (sk_window w) /\
  Forall2 (flushed (sk_Write env closing w) current timeout out)
    (sw_cache (sk_window w)) (sw_cache (sk_window w')) /\
  Forall (fun s => ~ due current s) out.
Proof.
  intros Ho Hl Hc Ht. pose proof (sk_Flush_spec env closing current timeout w Ho Hl) as H.
  destruct (sk_Flush _ _ _ _ _) as [[w' out] ping]. destruct H as (H1 & H2 & _).
  split_and!; [done| |done|].
  - by eapply flushed_entries.
  - rewrite H1. apply Forall_fmap, Forall_true. intros s. by apply flush_segment_not_due.
Qed.

Definition witness_worker : SendingWorker :=
  fst (sk_Push [2] (fst (sk_Push [1] (NewSendingWorker 16 64)))).

Lemma flush_sends_due_witness :
  let '(w', out, ping) := sk_Flush witness_env false 100 50 witness_worker in
  ds_entry <$> out = [(0, [1]); (1, [2])] /\
  entries (sk_window w') = [(0, [1]); (1, [2])].
Proof.
  pose proof (flush_sends_due witness_env false 100 50 witness_worker
    ltac:(reflexivity) ltac:(vm_compute; reflexivity) ltac:(unfold is_u32; lia) ltac:(lia)) as H.
  destruct (sk_Flush _ _ _ _ _) as [[w' out] ping]. cbv zeta in H.
  destruct H as (-> & -> & _). split; vm_compute; reflexivity.
Defined.

(** ** The control window *)

Definition cw_ok (inFlight cw : Z) : Prop := Z.min 16 inFlight <= cw <= 2 * inFlight.

Lemma cw_ok_loss env timeout rate w :
  1 <= se_inFlight env < 2 ^ 28 -> cw_ok (se_inFlight env) (sk_controlWindow w) ->
  cw_ok (se_inFlight env) (sk_controlWindow (sk_OnPacketLoss env timeout rate w)).
Proof.
  intros Hi Hc. unfold sk_OnPacketLoss. destruct (_ || _); [done|]. cbn [sk_controlWindow].
  unfold cw_ok in *. rewrite (u32_id (2 * _)) by (unfold is_u32; lia).
  go_case; [|go_case]; repeat go_case; lia.
Qed.

Lemma processAck_cw number w :
  sk_controlWindow (fst (sk_processAck number w)) = sk_controlWindow w.
Proof.
  unfold sk_processAck. destruct (_ || _); [done|].
  destruct (sw_Remove _ _) as [? []]; done.
Qed.

Lemma process_acks_cw numbers maxack removed w :
  sk_controlWindow (fst (fst (sk_process_acks numbers maxack removed w))) = sk_controlWindow w.
Proof.
  revert maxack removed w. induction numbers as [|n numbers IH]; intros; [done|].
  cbn [sk_process_acks]. rewrite <- (processAck_cw n w).
  destruct (sk_processAck n w) as [w' r]. destruct (_ <? _); apply IH.
Qed.

Lemma send_run_cw env op wr :
  1 <= se_inFlight env < 2 ^ 28 ->
  match op with OpFlush env' _ _ _ => env' = env | _ => True end ->
  cw_ok (se_inFlight env) (sk_controlWindow (fst wr)) ->
  cw_ok (se_inFlight env) (sk_controlWindow (fst (send_run op wr))).
Proof.
  intros Hi Hop Hc. destruct wr as [w info], op as [b|current seg rto|n|env' closing current rto|];
    cbn [send_run fst] in *; [..|done].
  - unfold sk_Push. destruct (sk_closed w); [done|]. by destruct (_ <? _).
  - unfold sk_ProcessSegment. destruct (sk_closed w); [done|].
    set (w1 := sk_ProcessReceivingNext _ _).
    assert (sk_controlWindow w1 = sk_controlWindow w) as Hw1 by (cbn; by destruct (_ <? _)).
    destruct (AckIsEmpty seg); [cbn [fst]; by rewrite Hw1|].
    pose proof (process_acks_cw (as_NumberList seg) 0 false w1) as Hp.
    destruct (sk_process_acks _ _ _ _) as [[w2 m] r]. cbn [fst] in Hp.
    destruct r; cbn; by rewrite Hp, Hw1.
  - done.
  - subst env'. unfold sk_Flush. destruct (sk_closed w); [done|].
    destruct (sw_IsEmpty _); [done|]. destruct (sw_Flush _ _ _ _ _) as [[window loss] out].
    cbn. destruct loss; [|done]. by apply cw_ok_loss.
Qed.

(** With the congestion controller on, the control window never leaves
    the range between sixteen segments (or the in-flight size where that is
    less) and twice the in-flight size, over any sequence of operations. *)
Theorem control_window_bounds env size info ops :
  1 <= se_inFlight env < 2 ^ 28 ->
  Forall (fun op => match op with OpFlush env' _ _ _ => env' = env | _ => True end) ops ->
  let w := fst (foldl (fun wr op => send_run op wr)
                  (NewSendingWorker (se_inFlight env) size, info) ops) in
  cw_ok (se_inFlight env) (sk_controlWindow w).
Proof.
  intros Hi Ho. cbv zeta.
  assert (cw_ok (se_inFlight env)
    (sk_controlWindow (fst (NewSendingWorker (se_inFlight env) size, info))))
    as Hc by (unfold cw_ok; cbn; lia).
  revert Hc. generalize (NewSendingWorker (se_inFlight env) size, info).
  induction Ho as [|op ops Hop _ IH]; intros wr Hc; [done|]. cbn [foldl]. apply IH.
  by apply send_run_cw.
Qed.

Lemma control_window_bounds_witness :
  let w := fst (foldl (fun wr op => send_run op wr)
                  (NewSendingWorker (se_inFlight witness_env) 64, mkRoundTripInfo 0 0 100 50 0)
                  witness_ops) in
  cw_ok 16 (sk_controlWindow w) /\ sk_controlWindow w = 20.
Proof.
  split; [|vm_compute; reflexivity].
  apply (control_window_bounds witness_env 64 (mkRoundTripInfo 0 0 100 50 0) witness_ops).
  - cbn. lia.
  - repeat constructor.
Defined.
