(* ===== verification/KcpConnection.v ===== *)
(** * An mKCP connection (src/transport/v2raykcp/connection.go, updater.go)

    The life cycle of a connection and the operations that drive its two
    workers: segments from the network, reads, writes and closing by the
    application, and the periodic update task of its two updaters. *)

From S2P Require Import Prelude Buffers KcpSegment KcpPacket KcpReceiving KcpRoundTrip KcpSending.

(** ** Data *)

Inductive State :=
| StateActive
| StateReadyToClose
| StatePeerClosed
| StateTerminating
| StatePeerTerminating
| StateTerminated.

#[export] Instance State_eq_dec : EqDecision State.
Proof. solve_decision. Defined.

Definition Is (s : State) (states : list State) : bool := bool_decide (s ∈ states).

(** Where the goroutine of an updater is: not running (the notifier is
    empty), started, or in its loop with a ticker of the given period. *)
Inductive Run := Parked | Started | Ticking (period : Z).

Record Updater := mkUpdater { u_interval : Z; u_run : Run }.

Definition NewUpdater (interval : Z) : Updater := mkUpdater interval Parked.

Definition u_WakeUp (u : Updater) : Updater :=
  match u_run u with Parked => mkUpdater (u_interval u) Started | _ => u end.

Definition u_SetInterval (d : Z) (u : Updater) : Updater := mkUpdater d (u_run u).

(** The state of a connection and the times the update task looks at. *)
Record Lifecycle := mkLifecycle {
  l_state : State;
  l_stateBeginTime : Z;
  l_lastIncomingTime : Z;
  l_lastPingTime : Z
}.

(** The one-slot channels that wake readers and writers, and the updaters. *)
Record Signals := mkSignals {
  g_dataInput : bool;
  g_dataOutput : bool;
  g_dataUpdater : Updater;
  g_pingUpdater : Updater
}.

(** [c_output] is what was handed to the segment writer, in order (its errors
    are ignored by the code); [c_terminates] counts the [Terminate]
    goroutines started and [c_closes] the calls of the closer; [c_reads]
    counts the readings of the clock. *)
Record Connection := mkConnection {
  c_meta : Z;
  c_env : SendEnv;
  c_mss : Z;
  c_rd : option Z;
  c_wd : option Z;
  c_life : Lifecycle;
  c_signals : Signals;
  c_roundTrip : RoundTripInfo;
  c_receivingWorker : ReceivingWorker;
  c_sendingWorker : SendingWorker;
  c_output : list Segment;
  c_terminates : nat;
  c_closes : nat;
  c_reads : nat
}.

Definition with_life (l : Lifecycle) (c : Connection) : Connection :=
  mkConnection (c_meta c) (c_env c) (c_mss c) (c_rd c) (c_wd c) l (c_signals c) (c_roundTrip c)
    (c_receivingWorker c) (c_sendingWorker c) (c_output c) (c_terminates c) (c_closes c) (c_reads c).

Definition with_signals (g : Signals) (c : Connection) : Connection :=
  mkConnection (c_meta c) (c_env c) (c_mss c) (c_rd c) (c_wd c) (c_life c) g (c_roundTrip c)
    (c_receivingWorker c) (c_sendingWorker c) (c_output c) (c_terminates c) (c_closes c) (c_reads c).

(** The workers, the round-trip estimator they share, and the output. *)
Definition with_workers (rt : RoundTripInfo) (r : ReceivingWorker) (s : SendingWorker)
    (out : list Segment) (c : Connection) : Connection :=
  mkConnection (c_meta c) (c_env c) (c_mss c) (c_rd c) (c_wd c) (c_life c) (c_signals c) rt r s
    (c_output c ++ out) (c_terminates c) (c_closes c) (c_reads c).

Definition with_receiving (r : ReceivingWorker) (c : Connection) : Connection :=
  with_workers (c_roundTrip c) r (c_sendingWorker c) [] c.

Definition with_sending (s : SendingWorker) (c : Connection) : Connection :=
  with_workers (c_roundTrip c) (c_receivingWorker c) s [] c.

(** [NewConnection]: [overhead] is the packet writer's. *)
Definition NewConnection (conversation overhead : Z) (config : Config) : res Connection :=
  windowSize ← GetReceivingInFlightSize (Some config);
  inFlight ← GetSendingInFlightSize (Some config);
  bufferSize ← GetSendingBufferSize (Some config);
  Ret (mkConnection conversation
         {| se_conversation := conversation; se_congestion := Congestion config;
            se_inFlight := inFlight |}
         ((GetMTUValue (Some config) ⊟ u32 overhead) ⊟ DataSegmentOverhead)
         None None
         (mkLifecycle StateActive 0 0 0)
         (mkSignals false false (NewUpdater (GetTTIValue (Some config)))
            (u_WakeUp (NewUpdater 5000)))
         (mkRoundTripInfo 0 0 100 (GetTTIValue (Some config)) 0)
         (NewReceivingWorker windowSize)
         (NewSendingWorker inFlight bufferSize)
         [] 0 0 0).

(** ** Signals *)

Definition signal_input (c : Connection) : Connection :=
  let g := c_signals c in
  with_signals (mkSignals true (g_dataOutput g) (g_dataUpdater g) (g_pingUpdater g)) c.

Definition signal_output (c : Connection) : Connection :=
  let g := c_signals c in
  with_signals (mkSignals (g_dataInput g) true (g_dataUpdater g) (g_pingUpdater g)) c.

Definition wake_data (c : Connection) : Connection :=
  let g := c_signals c in
  with_signals (mkSignals (g_dataInput g) (g_dataOutput g) (u_WakeUp (g_dataUpdater g))
                  (g_pingUpdater g)) c.

Definition wake_ping (c : Connection) : Connection :=
  let g := c_signals c in
  with_signals (mkSignals (g_dataInput g) (g_dataOutput g) (g_dataUpdater g)
                  (u_WakeUp (g_pingUpdater g))) c.

Definition ping_interval (d : Z) (c : Connection) : Connection :=
  let g := c_signals c in
  with_signals (mkSignals (g_dataInput g) (g_dataOutput g) (g_dataUpdater g)
                  (u_SetInterval d (g_pingUpdater g))) c.

Definition c_state (c : Connection) : State := l_state (c_life c).

Section connection.
Context {B : BufferLib}.

(** The [n]-th reading of [nowMillisec() - since]. *)
Variable clock : nat -> Z.

Definition Elapsed (c : Connection) : Z * Connection :=
  (u32 (clock (c_reads c)),
   mkConnection (c_meta c) (c_env c) (c_mss c) (c_rd c) (c_wd c) (c_life c) (c_signals c)
     (c_roundTrip c) (c_receivingWorker c) (c_sendingWorker c) (c_output c)
     (c_terminates c) (c_closes c) (S (c_reads c))).

(** ** State changes *)

Definition close_write (c : Connection) : Connection :=
  with_sending (sk_CloseWrite (c_sendingWorker c)) c.

(** [go c.Terminate()]. *)
Definition go_Terminate (c : Connection) : Connection :=
  mkConnection (c_meta c) (c_env c) (c_mss c) (c_rd c) (c_wd c) (c_life c) (c_signals c)
    (c_roundTrip c) (c_receivingWorker c) (c_sendingWorker c) (c_output c)
    (S (c_terminates c)) (c_closes c) (c_reads c).

(** [CloseRead] of the receiving worker does nothing. *)
Definition SetState (state : State) (c : Connection) : Connection :=
  let '(current, c) := Elapsed c in
  let l := c_life c in
  let c := with_life (mkLifecycle state current (l_lastIncomingTime l) (l_lastPingTime l)) c in
  match state with
  | StateActive => c
  | StateReadyToClose => c
  | StatePeerClosed => close_write c
  | StateTerminating => ping_interval 1000 (close_write c)
  | StatePeerTerminating => ping_interval 1000 (close_write c)
  | StateTerminated =>
    go_Terminate (wake_ping (wake_data (ping_interval 1000 (close_write c))))
  end.

(** What a [Terminate] goroutine does after its eight seconds. *)
Definition Terminate (c : Connection) : Connection :=
  mkConnection (c_meta c) (c_env c) (c_mss c) (c_rd c) (c_wd c) (c_life c) (c_signals c)
    (c_roundTrip c) (rk_Release (c_receivingWorker c)) (sk_Release (c_sendingWorker c))
    (c_output c) (c_terminates c) (S (c_closes c)) (c_reads c).

Definition OnPeerClosed (c : Connection) : Connection :=
  match c_state c with
  | StateReadyToClose => SetState StateTerminating c
  | StateActive => SetState StatePeerClosed c
  | _ => c
  end.

Definition HandleOption (opt : Z) (c : Connection) : Connection :=
  if Z.land opt SegmentOptionClose =? SegmentOptionClose then OnPeerClosed c else c.

(** ** Input *)

Definition on_data (seg : DataSegment) (c : Connection) : Connection :=
  let c := HandleOption (ds_Option seg) c in
  let c := with_receiving (rk_ProcessSegment seg (c_receivingWorker c)) c in
  let c := if rk_IsDataAvailable (c_receivingWorker c) then signal_input c else c in
  wake_data c.

Definition on_ack (current : Z) (seg : AckSegment) (c : Connection) : Connection :=
  let c := HandleOption (as_Option seg) c in
  let '(s, rt) := sk_ProcessSegment current seg (rt_Timeout (c_roundTrip c))
                    (c_sendingWorker c, c_roundTrip c) in
  wake_data (signal_output (with_workers rt (c_receivingWorker c) s [] c)).

(** The state change a terminate command asks for. *)
Definition on_terminate (c : Connection) : Connection :=
  match c_state c with
  | StateActive | StatePeerClosed => SetState StatePeerTerminating c
  | StateReadyToClose => SetState StateTerminating c
  | StateTerminating => SetState StateTerminated c
  | _ => c
  end.

Definition on_command (current : Z) (seg : CmdOnlySegment) (c : Connection) : Connection :=
  let c := HandleOption (cs_Option seg) c in
  let c := if cs_Cmd seg =? CommandTerminate then on_terminate c else c in
  let c := if (cs_Option seg =? SegmentOptionClose) || (cs_Cmd seg =? CommandTerminate)
           then signal_output (signal_input c) else c in
  with_workers
    (rt_UpdatePeerRTO (cs_PeerRTO seg) current (c_roundTrip c))
    (rk_ProcessSendingNext (cs_SendingNext seg) (c_receivingWorker c))
    (sk_ProcessReceivingNext (cs_ReceivingNext seg) (c_sendingWorker c)) [] c.

(** The loop over the segments of a datagram ends at a foreign one. *)
Fixpoint input_loop (current : Z) (segments : list Segment) (c : Connection) : Connection :=
  match segments with
  | [] => c
  | s :: segments =>
    if negb (Conversation s =? c_meta c) then c else
    input_loop current segments
      (match s with
       | SegData seg => on_data seg c
       | SegAck seg => on_ack current seg c
       | SegCmd seg => on_command current seg c
       end)
  end.

Definition Input (segments : list Segment) (c : Connection) : Connection :=
  let '(current, c) := Elapsed c in
  let l := c_life c in
  let c := with_life (mkLifecycle (l_state l) (l_stateBeginTime l) current (l_lastPingTime l)) c in
  input_loop current segments c.

(** ** Reading and writing *)

Inductive wait_result := WaitOk | WaitTimeout.

(** [waitForDataInput] and [waitForDataOutput] on a channel that holds a
    signal or not: [now] is the time of the call, [arrives] says whether a
    signal comes while it waits, [after] is the time its timer fires.  The
    channel is empty when it returns. *)
Definition wait_for (signalled : bool) (deadline : option Z) (now : Z) (arrives : bool) (after : Z)
    : wait_result :=
  if signalled then WaitOk else
  match deadline with
  | None => WaitOk
  | Some d =>
    if d - now <? 0 then WaitTimeout
    else if arrives then WaitOk
    else if d <? after then WaitTimeout else WaitOk
  end.

Definition waitForDataInput (now : Z) (arrives : bool) (after : Z) (c : Connection)
    : wait_result * Connection :=
  let g := c_signals c in
  (wait_for (g_dataInput g) (c_rd c) now arrives after,
   with_signals (mkSignals false (g_dataOutput g) (g_dataUpdater g) (g_pingUpdater g)) c).

Definition waitForDataOutput (now : Z) (arrives : bool) (after : Z) (c : Connection)
    : wait_result * Connection :=
  let g := c_signals c in
  (wait_for (g_dataOutput g) (c_wd c) now arrives after,
   with_signals (mkSignals (g_dataInput g) false (g_dataUpdater g) (g_pingUpdater g)) c).

(** One round of the loop of [Read] for a slice of length [n]: it returns, or
    waits for input and goes round again. *)
Inductive ReadOutcome := ReadEOF | ReadBytes (b : list Z) | ReadWait.

Definition Read (n : nat) (c : Connection) : ReadOutcome * Connection :=
  if Is (c_state c) [StateReadyToClose; StateTerminating; StateTerminated] then (ReadEOF, c) else
  let '(r, out) := rk_Read n (c_receivingWorker c) in
  let c := with_receiving r c in
  if 0 <? zlen out then (ReadBytes out, wake_data c)
  else if decide (c_state c = StatePeerTerminating) then (ReadEOF, c)
  else (ReadWait, c).

(** [Write] returns, or is blocked with a chunk the window does not take and
    the bytes not yet read; it goes on with these after [waitForDataOutput]. *)
Inductive WriteOutcome :=
| WriteDone (n : Z)
| WriteClosed (n : Z)
| WriteBlocked (n : Z) (chunk rest : list Z).

(** Every second round consumes a byte or ends the loop. *)
Fixpoint write_loop (fuel : nat) (totalWritten : Z) (chunk : option (list Z)) (rest : list Z)
    (c : Connection) : res (WriteOutcome * Connection) :=
  match fuel with
  | O => Panic
  | S fuel =>
    match chunk with
    | None =>
      if zlen rest =? 0 then Ret (WriteDone totalWritten, wake_data c) else
      let buffer := buf_read_from (take (Z.to_nat (c_mss c)) rest) in
      if zlen buffer =? 0 then Ret (WriteDone totalWritten, wake_data c)
      else write_loop fuel totalWritten (Some buffer) (drop (length buffer) rest) c
    | Some buffer =>
      let '(s, pushed) := sk_Push buffer (c_sendingWorker c) in
      if pushed then write_loop fuel (totalWritten + zlen buffer) None rest (with_sending s c)
      else if decide (c_state c <> StateActive) then Ret (WriteClosed totalWritten, c)
      else Ret (WriteBlocked totalWritten buffer rest, wake_data c)
    end
  end.

Definition write_fuel (b : list Z) : nat := 2 * length b + 2.

Definition Write (b : list Z) (c : Connection) : res (WriteOutcome * Connection) :=
  if decide (c_state c <> StateActive) then Ret (WriteClosed 0, c)
  else write_loop (write_fuel b) 0 None b c.

(** ** Closing and the update task *)

Inductive CloseError := ErrClosedConnection.

Definition Close (c : Connection) : option CloseError * Connection :=
  let c := signal_output (signal_input c) in
  match c_state c with
  | StateReadyToClose | StateTerminating | StateTerminated => (Some ErrClosedConnection, c)
  | StateActive => (None, SetState StateReadyToClose c)
  | StatePeerClosed => (None, SetState StateTerminating c)
  | StatePeerTerminating => (None, SetState StateTerminated c)
  end.

Definition closing (c : Connection) : bool := bool_decide (c_state c = StateReadyToClose).

Definition Ping (current cmd : Z) (c : Connection) : Connection :=
  let seg := mkCmdOnlySegment (c_meta c) cmd (if closing c then SegmentOptionClose else 0)
               (sk_firstUnacknowledged (c_sendingWorker c))
               (rk_nextNumber (c_receivingWorker c))
               (rt_Timeout (c_roundTrip c)) in
  let c := with_workers (c_roundTrip c) (c_receivingWorker c) (c_sendingWorker c) [SegCmd seg] c in
  let l := c_life c in
  with_life (mkLifecycle (l_state l) (l_stateBeginTime l) (l_lastIncomingTime l) current) c.

Definition flush_receiving (current : Z) (c : Connection) : Connection :=
  let '(r, segs) := rk_Flush (c_meta c) (closing c) current (rt_Timeout (c_roundTrip c))
                      (c_receivingWorker c) in
  with_workers (c_roundTrip c) r (c_sendingWorker c) (SegAck <$> segs) c.

Definition flush_sending (current : Z) (c : Connection) : Connection :=
  let '(s, segs, ping) := sk_Flush (c_env c) (closing c) current (rt_Timeout (c_roundTrip c))
                            (c_sendingWorker c) in
  let c := with_workers (c_roundTrip c) (c_receivingWorker c) s (SegData <$> segs) c in
  if ping : bool then Ping current CommandPing c else c.

(** How long a state has lasted, as the task computes it. *)
Definition since_state (current : Z) (c : Connection) : Z :=
  current ⊟ l_stateBeginTime (c_life c).

(** The flushes at the end of the task. *)
Definition update_send (current : Z) (c : Connection) : Connection :=
  let c := flush_sending current (flush_receiving current c) in
  let c := if 3000 <=? current ⊟ l_lastPingTime (c_life c) then Ping current CommandPing c else c in
  signal_output c.

(** The part of the task that runs while the connection is not terminating. *)
Definition update_flush (current : Z) (c : Connection) : Connection :=
  let c := if decide (c_state c = StatePeerTerminating) then
             if 4000 <? since_state current c then SetState StateTerminating c else c
           else c in
  let c := if decide (c_state c = StateReadyToClose) then
             if 15000 <? since_state current c then SetState StateTerminating c else c
           else c in
  update_send current c.

(** The task once it has read the clock. *)
Definition updateTask_at (current : Z) (c : Connection) : Connection :=
  if decide (c_state c = StateTerminated) then c else
  let c := if decide (c_state c = StateActive) then
             if 30000 <=? current ⊟ l_lastIncomingTime (c_life c) then snd (Close c) else c
           else c in
  let c := if decide (c_state c = StateReadyToClose) then
             if sk_IsEmpty (c_sendingWorker c) then SetState StateTerminating c else c
           else c in
  if decide (c_state c = StateTerminating) then
    if 8000 <? since_state current c then SetState StateTerminated c
    else Ping current CommandTerminate c
  else update_flush current c.

Definition updateTask (c : Connection) : Connection :=
  let '(current, c) := Elapsed c in updateTask_at current c.

(** ** The updaters' goroutines *)

Definition isTerminating (c : Connection) : bool :=
  Is (c_state c) [StateTerminating; StateTerminated].

Definition isTerminated (c : Connection) : bool := bool_decide (c_state c = StateTerminated).

Definition data_shouldContinue (c : Connection) : bool :=
  negb (isTerminating c) &&
  (sk_UpdateNecessary (c_sendingWorker c) || rk_UpdateNecessary (c_receivingWorker c)).

Definition ping_shouldContinue (c : Connection) : bool := negb (isTerminated c).

Definition set_data_run (r : Run) (c : Connection) : Connection :=
  let g := c_signals c in
  with_signals (mkSignals (g_dataInput g) (g_dataOutput g)
                  (mkUpdater (u_interval (g_dataUpdater g)) r) (g_pingUpdater g)) c.

Definition set_ping_run (r : Run) (c : Connection) : Connection :=
  let g := c_signals c in
  with_signals (mkSignals (g_dataInput g) (g_dataOutput g) (g_dataUpdater g)
                  (mkUpdater (u_interval (g_pingUpdater g)) r)) c.

(** One step of [run]: from the start to the ticker, or one round of the loop. *)
Definition data_run (c : Connection) : Connection :=
  match u_run (g_dataUpdater (c_signals c)) with
  | Parked => c
  | Started =>
    if isTerminating c then set_data_run Parked c
    else set_data_run (Ticking (u_interval (g_dataUpdater (c_signals c)))) c
  | Ticking _ => if data_shouldContinue c then updateTask c else set_data_run Parked c
  end.

Definition ping_run (c : Connection) : Connection :=
  match u_run (g_pingUpdater (c_signals c)) with
  | Parked => c
  | Started =>
    if isTerminated c then set_ping_run Parked c
    else set_ping_run (Ticking (u_interval (g_pingUpdater (c_signals c)))) c
  | Ticking _ => if ping_shouldContinue c then updateTask c else set_ping_run Parked c
  end.

End connection.

(** ** Life cycle *)

(** The transitions between states. *)
Inductive edge : State -> State -> Prop :=
| edge_close : edge StateActive StateReadyToClose
| edge_peer_close : edge StateActive StatePeerClosed
| edge_peer_terminate : edge StateActive StatePeerTerminating
| edge_both_closed : edge StateReadyToClose StateTerminating
| edge_close_after_peer : edge StatePeerClosed StateTerminating
| edge_terminate_after_close : edge StatePeerClosed StatePeerTerminating
| edge_peer_timeout : edge StatePeerTerminating StateTerminating
| edge_close_after_terminate : edge StatePeerTerminating StateTerminated
| edge_done : edge StateTerminating StateTerminated.

Create HintDb kcp.
#[export] Hint Constructors edge : kcp.

Definition rank (s : State) : Z :=
  match s with
  | StateActive => 0
  | StatePeerClosed => 1
  | StateReadyToClose | StatePeerTerminating => 2
  | StateTerminating => 3
  | StateTerminated => 4
  end.

Lemma edge_rank s s' : edge s s' -> rank s < rank s'.
Proof. destruct 1; cbn; lia. Qed.

Lemma edges_rank s s' : rtc edge s s' -> s = s' \/ rank s < rank s'.
Proof.
  induction 1 as [|s s1 s' He _ [->|IH]]; [by left|right; by apply edge_rank|].
  right. apply edge_rank in He. lia.
Qed.

Lemma edges_antisym s s' : rtc edge s s' -> rtc edge s' s -> s = s'.
Proof. intros [|?]%edges_rank [|?]%edges_rank; [done..|lia]. Qed.

Section lifecycle.
Context {B : BufferLib}.
Variable clock : nat -> Z.

(** Everything that happens to a connection.  A blocked write goes on with
    its chunk; a [Terminate] goroutine runs once for each start. *)
Inductive cstep : Connection -> Connection -> Prop :=
| cstep_input segs c : cstep c (Input clock segs c)
| cstep_read n c : cstep c (snd (Read n c))
| cstep_wait_input now arrives after c : cstep c (snd (waitForDataInput now arrives after c))
| cstep_wait_output now arrives after c : cstep c (snd (waitForDataOutput now arrives after c))
| cstep_write b c o c' : Write b c = Ret (o, c') -> cstep c c'
| cstep_write_on fuel total chunk rest c o c' :
    write_loop fuel total (Some chunk) rest c = Ret (o, c') -> cstep c c'
| cstep_close c : cstep c (snd (Close clock c))
| cstep_update c : cstep c (updateTask clock c)
| cstep_data_run c : cstep c (data_run clock c)
| cstep_ping_run c : cstep c (ping_run clock c)
| cstep_terminate c : (c_closes c < c_terminates c)%nat -> cstep c (Terminate c).

(** The [Terminate] goroutine is started when the connection terminates and
    at no other time, and has run at most as often. *)
Definition term_inv (c : Connection) : Prop :=
  c_terminates c = (if decide (c_state c = StateTerminated) then 1%nat else 0%nat) /\
  (c_closes c <= c_terminates c)%nat.

(** The state was entered at a past reading of the clock. *)
Definition begin_inv (c : Connection) : Prop :=
  0 <= l_stateBeginTime (c_life c) <= u32 (clock (c_reads c)).

(** What one operation may do to the life cycle. *)
Record evolves (c c' : Connection) : Prop := {
  ev_state : rtc edge (c_state c) (c_state c');
  ev_begin : c_state c' = c_state c -> l_stateBeginTime (c_life c') = l_stateBeginTime (c_life c);
  ev_term : term_inv c -> term_inv c';
  ev_reads : (c_reads c <= c_reads c')%nat;
  ev_time : (forall n m, (n <= m)%nat -> u32 (clock n) <= u32 (clock m)) ->
            begin_inv c -> begin_inv c';
  ev_meta : c_meta c' = c_meta c
}.

#[export] Instance evolves_preorder : PreOrder evolves.
Proof.
  split.
  - intros c. by constructor.
  - intros c1 c2 c3 [Hs Hb ???] [Hs' Hb' ???].
    constructor; [by etrans| |tauto|lia|tauto|congruence].
    intros He. assert (c_state c2 = c_state c1) as H12.
    { apply edges_antisym; [by rewrite <- He|done]. }
    rewrite Hb' by congruence. by apply Hb.
Qed.

(** An operation that leaves the state alone. *)
Definition quiet (c c' : Connection) : Prop :=
  c_state c' = c_state c /\ l_stateBeginTime (c_life c') = l_stateBeginTime (c_life c) /\
  c_terminates c' = c_terminates c /\ c_closes c' = c_closes c /\ (c_reads c <= c_reads c')%nat /\
  c_meta c' = c_meta c.

Lemma evolves_quiet c c' : quiet c c' -> evolves c c'.
Proof.
  intros (Hs & Hb & Ht & Hc & Hr & Hm). constructor; [by rewrite Hs|done| |done| |done].
  - unfold term_inv. by rewrite Hs, Ht, Hc.
  - intros Hmono Hi. unfold begin_inv in *. rewrite Hb. pose proof (Hmono _ _ Hr). lia.
Qed.

Lemma evolves_Elapsed c : evolves c (snd (Elapsed clock c)).
Proof. apply evolves_quiet. unfold quiet. cbn. split_and!; done || lia. Qed.

Lemma evolves_SetState s c : edge (c_state c) s -> evolves c (SetState clock s c).
Proof.
  intros He. assert (Hr := edge_rank _ _ He).
  assert (Hst : c_state (SetState clock s c) = s) by (by destruct s).
  assert (Hrd : c_reads (SetState clock s c) = S (c_reads c)) by (by destruct s).
  assert (Hbg : l_stateBeginTime (c_life (SetState clock s c)) = u32 (clock (c_reads c)))
    by (by destruct s).
  constructor.
  - rewrite Hst. by apply rtc_once.
  - rewrite Hst. intros ->. lia.
  - intros [Ht Hc]. rewrite decide_False in Ht by (intros E; rewrite E in Hr; destruct s; cbn in Hr; lia).
    unfold term_inv. rewrite Hst. destruct (decide (s = StateTerminated)) as [->|].
    + cbn. lia.
    + destruct s; cbn; done || lia.
  - lia.
  - intros Hm _. unfold begin_inv. rewrite Hbg, Hrd. split; [apply u32_range|apply Hm; lia].
  - by destruct s.
Qed.

Ltac quiet_step := apply evolves_quiet; unfold quiet; split_and!; first [reflexivity|cbn; lia].

Lemma evolves_OnPeerClosed c : evolves c (OnPeerClosed clock c).
Proof.
  unfold OnPeerClosed. destruct (c_state c) eqn:E; try reflexivity;
    apply evolves_SetState; rewrite E; auto with kcp.
Qed.

Lemma evolves_HandleOption opt c : evolves c (HandleOption clock opt c).
Proof. unfold HandleOption. destruct (_ =? _); [apply evolves_OnPeerClosed|reflexivity]. Qed.

Lemma evolves_on_terminate c : evolves c (on_terminate clock c).
Proof.
  unfold on_terminate. destruct (c_state c) eqn:E; try reflexivity;
    apply evolves_SetState; rewrite E; auto with kcp.
Qed.

Lemma evolves_input_loop current segs c : evolves c (input_loop clock current segs c).
Proof.
  revert c; induction segs as [|s segs IH]; intros c; cbn [input_loop]; [reflexivity|].
  destruct (negb _); [reflexivity|]. etrans; [|apply IH]. destruct s as [seg|seg|seg].
  - unfold on_data. etrans; [apply (evolves_HandleOption (ds_Option seg))|].
    destruct (rk_IsDataAvailable _); quiet_step.
  - unfold on_ack. etrans; [apply (evolves_HandleOption (as_Option seg))|].
    destruct (sk_ProcessSegment _ _ _ _). quiet_step.
  - unfold on_command. etrans; [apply (evolves_HandleOption (cs_Option seg))|].
    set (c1 := HandleOption _ _ _).
    transitivity (if cs_Cmd seg =? CommandTerminate then on_terminate clock c1 else c1).
    + destruct (_ =? _); [apply evolves_on_terminate|reflexivity].
    + destruct (_ || _); quiet_step.
Qed.

Lemma evolves_write_loop fuel total chunk rest c o c' :
  write_loop fuel total chunk rest c = Ret (o, c') -> evolves c c'.
Proof.
  revert total chunk rest c; induction fuel as [|fuel IH]; intros total chunk rest c; [done|].
  cbn [write_loop]. destruct chunk as [chunk|].
  - destruct (sk_Push chunk (c_sendingWorker c)) as [s pushed]. destruct pushed.
    + intros H%IH. etrans; [|exact H]. quiet_step.
    + destruct (decide _); intros [= <- <-]; [reflexivity|quiet_step].
  - destruct (_ =? 0); [intros [= <- <-]; quiet_step|].
    destruct (_ =? 0); [intros [= <- <-]; quiet_step|]. apply IH.
Qed.

Lemma evolves_Close c : evolves c (snd (Close clock c)).
Proof.
  unfold Close. transitivity (signal_output (signal_input c)); [quiet_step|].
  set (c1 := signal_output (signal_input c)).
  destruct (c_state c1) eqn:E; cbn [snd]; try reflexivity;
    apply evolves_SetState; rewrite E; auto with kcp.
Qed.

Lemma evolves_Ping current cmd c : evolves c (Ping current cmd c).
Proof. quiet_step. Qed.

(** The conditional changes of the update task. *)
Lemma evolves_when s s' (b : bool) c :
  edge s s' ->
  evolves c (if decide (c_state c = s) then if b then SetState clock s' c else c else c).
Proof.
  intros He. destruct (decide (c_state c = s)) as [E|]; [|reflexivity].
  destruct b; [|reflexivity]. apply evolves_SetState. by rewrite E.
Qed.

Lemma evolves_update_send current c : evolves c (update_send current c).
Proof.
  unfold update_send. cbv zeta. set (c3 := flush_receiving current c). transitivity c3.
  { unfold c3, flush_receiving. destruct (rk_Flush _ _ _ _ _). quiet_step. }
  set (c4 := flush_sending current c3). transitivity c4.
  { unfold c4, flush_sending. destruct (sk_Flush _ _ _ _ _) as [[? ?] []]; quiet_step. }
  destruct (_ <=? _); quiet_step.
Qed.

Lemma evolves_update_flush current c : evolves c (update_flush clock current c).
Proof.
  unfold update_flush. cbv zeta. etrans; [|apply evolves_update_send].
  etrans; [|by apply evolves_when; constructor]. by apply evolves_when; constructor.
Qed.

Lemma evolves_updateTask_at current c : evolves c (updateTask_at clock current c).
Proof.
  unfold updateTask_at. cbv zeta. destruct (decide _); [reflexivity|].
  set (c1 := if decide (c_state c = StateActive) then _ else c). transitivity c1.
  { unfold c1. destruct (decide _); [|reflexivity].
    destruct (_ <=? _); [apply evolves_Close|reflexivity]. }
  set (c2 := if decide (c_state c1 = StateReadyToClose) then _ else c1).
  transitivity c2; [by apply evolves_when; constructor|].
  destruct (decide (c_state c2 = StateTerminating)) as [E|]; [|apply evolves_update_flush].
  destruct (_ <? _); [|apply evolves_Ping]. apply evolves_SetState. rewrite E. constructor.
Qed.

Lemma evolves_updateTask c : evolves c (updateTask clock c).
Proof. etrans; [apply evolves_Elapsed|]. apply evolves_updateTask_at. Qed.

Lemma evolves_Input segs c : evolves c (Input clock segs c).
Proof.
  unfold Input. etrans; [apply evolves_Elapsed|]. cbn [Elapsed snd].
  etrans; [|apply evolves_input_loop]. quiet_step.
Qed.

Lemma cstep_evolves c c' : cstep c c' -> evolves c c'.
Proof.
  destruct 1 as [segs c|n c|now arrives after c|now arrives after c|b c o c' Hw|fuel total chunk rest c o c' Hw|c|c|c|c|c Hlt].
  - apply evolves_Input.
  - unfold Read. destruct (Is _ _); [reflexivity|]. destruct (rk_Read _ _).
    destruct (_ <? _); [quiet_step|]. destruct (decide _); quiet_step.
  - quiet_step.
  - quiet_step.
  - revert Hw. unfold Write. destruct (decide _); [intros [= <- <-]; reflexivity|].
    apply evolves_write_loop.
  - by eapply evolves_write_loop.
  - apply evolves_Close.
  - apply evolves_updateTask.
  - unfold data_run. destruct (u_run _); [reflexivity| |];
      destruct (_ c); try quiet_step. apply evolves_updateTask.
  - unfold ping_run. destruct (u_run _); [reflexivity| |];
      destruct (_ c); try quiet_step. apply evolves_updateTask.
  - constructor; cbn; [done|done| |lia|done|done]. intros [Ht Hc]. split; cbn; [done|lia].
Qed.

Lemma csteps_evolve c c' : rtc cstep c c' -> evolves c c'.
Proof.
  induction 1 as [|c1 c2 c3 H1 _ IH]; [reflexivity|]. etrans; [by apply cstep_evolves|done].
Qed.

Lemma NewConnection_life conversation overhead config c :
  NewConnection conversation overhead config = Ret c ->
  c_life c = mkLifecycle StateActive 0 0 0 /\ c_terminates c = 0%nat /\ c_closes c = 0%nat /\
  c_reads c = 0%nat.
Proof.
  unfold NewConnection. destruct (GetReceivingInFlightSize _); [|done..].
  destruct (GetSendingInFlightSize _); [|done..]. destruct (GetSendingBufferSize _); [|done..].
  by intros <-%Ret_inj.
Qed.

Lemma evolves_rank c c' : evolves c c' -> rank (c_state c) <= rank (c_state c').
Proof. intros He. destruct (edges_rank _ _ (ev_state _ _ He)) as [->|]; lia. Qed.

(** The life cycle of a connection.  From its creation, whatever arrives
    from the network, whatever the application calls and however the updaters
    run, the state only moves along the transition graph (so it never returns
    to a state it left and [StateTerminated] is final), and the goroutine
    that closes the socket and releases the workers is started exactly when
    the connection terminates, at most once, and closes at most once. *)
Theorem connection_lifecycle conversation overhead config c0 c c' :
  NewConnection conversation overhead config = Ret c0 ->
  rtc cstep c0 c -> rtc cstep c c' ->
  rtc edge (c_state c) (c_state c') /\
  (c_state c = StateTerminated -> c_state c' = StateTerminated) /\
  c_terminates c' = (if decide (c_state c' = StateTerminated) then 1%nat else 0%nat) /\
  (c_closes c' <= c_terminates c')%nat.
Proof.
  intros H0 Hc Hc'. pose proof (ev_state _ _ (csteps_evolve _ _ Hc')) as He.
  assert (term_inv c') as [Ht Hcl].
  { apply (ev_term c0); [apply csteps_evolve; by etrans|].
    apply NewConnection_life in H0 as (Hl & Ht & Hcl & _).
    unfold term_inv, c_state. rewrite Hl, Ht, Hcl. split; [done|lia]. }
  split_and!; [done| |done..]. intros E. rewrite E in He.
  apply edges_rank in He as [|He]; [done|]. destruct (c_state c'); cbn in He; lia.
Qed.

(** ** Time limits *)

Hypothesis clock_mono : forall n m, (n <= m)%nat -> clock n <= clock m.
Hypothesis clock_young : forall n, 0 <= clock n < 2 ^ 32.

Lemma u32_clock n : u32 (clock n) = clock n.
Proof. apply u32_id, clock_young. Qed.

Lemma begin_evolves c c' : begin_inv c -> evolves c c' -> begin_inv c'.
Proof.
  intros Hb He. eapply (ev_time _ _ He); [|done].
  intros n m Hnm. rewrite !u32_clock. by apply clock_mono.
Qed.

Lemma reachable_begin conversation overhead config c0 c :
  NewConnection conversation overhead config = Ret c0 -> rtc cstep c0 c -> begin_inv c.
Proof.
  intros (Hl & _ & _ & Hr)%NewConnection_life H%csteps_evolve. eapply begin_evolves; [|exact H].
  unfold begin_inv. rewrite Hl, u32_clock. pose proof (clock_young (c_reads c0)). cbn. lia.
Qed.

Lemma update_flush_closing current c :
  c_state c = StateReadyToClose -> 15000 < since_state current c ->
  3 <= rank (c_state (update_flush clock current c)).
Proof.
  intros Hs Ht. unfold update_flush. cbv zeta.
  rewrite (decide_False (P := c_state c = StatePeerTerminating)) by (by rewrite Hs).
  rewrite decide_True, (proj2 (Z.ltb_lt _ _)) by done.
  exact (evolves_rank _ _ (evolves_update_send current (SetState clock StateTerminating c))).
Qed.

(** A connection that was closed more than fifteen seconds ago is
    terminating after the task. *)
Lemma update_closing current c :
  c_state c = StateReadyToClose -> 15000 < since_state current c ->
  3 <= rank (c_state (updateTask_at clock current c)).
Proof.
  intros Hs Ht. unfold updateTask_at. cbv zeta.
  rewrite (decide_False (P := c_state c = StateTerminated)) by (by rewrite Hs).
  rewrite (decide_False (P := c_state c = StateActive)) by (by rewrite Hs).
  rewrite (decide_True (P := c_state c = StateReadyToClose)) by done.
  destruct (sk_IsEmpty _).
  - rewrite decide_True by done. destruct (_ <? _); cbn; lia.
  - rewrite decide_False by (by rewrite Hs). by apply update_flush_closing.
Qed.

Lemma update_terminating current c :
  c_state c = StateTerminating -> 8000 < since_state current c ->
  c_state (updateTask_at clock current c) = StateTerminated.
Proof.
  intros Hs Ht. unfold updateTask_at. cbv zeta.
  rewrite (decide_False (P := c_state c = StateTerminated)) by (by rewrite Hs).
  rewrite (decide_False (P := c_state c = StateActive)) by (by rewrite Hs).
  rewrite (decide_False (P := c_state c = StateReadyToClose)) by (by rewrite Hs).
  by rewrite decide_True, (proj2 (Z.ltb_lt _ _)) by done.
Qed.

Lemma since_clock c :
  begin_inv c ->
  since_state (u32 (clock (c_reads c))) c = clock (c_reads c) - l_stateBeginTime (c_life c).
Proof.
  unfold begin_inv, since_state. rewrite u32_clock. intros Hb.
  pose proof (clock_young (c_reads c)). apply u32_sub_le; unfold is_u32; lia.
Qed.

(** After [Close] the connection is on its way out, since the call at the
    latest. *)
Lemma Close_begin c :
  begin_inv c ->
  let c1 := snd (Close clock c) in
  (c_state c1 = StateReadyToClose \/ 3 <= rank (c_state c1)) /\
  l_stateBeginTime (c_life c1) <= clock (c_reads c).
Proof.
  intros [_ Hb]. rewrite u32_clock in Hb. cbv zeta. unfold Close.
  set (c' := signal_output (signal_input c)).
  assert (l_stateBeginTime (c_life c') <= clock (c_reads c)) by done.
  assert (u32 (clock (c_reads c')) <= clock (c_reads c)) by (rewrite u32_clock; done).
  destruct (c_state c') eqn:E; cbn [snd];
    (split; [first [by left|right; first [rewrite E|idtac]; cbn; lia]|done]).
Qed.

(** The task on a connection that was terminating when some earlier update
    ended, more than eight seconds ago. *)
Lemma update_after_terminating c3 c4 :
  begin_inv c3 -> 3 <= rank (c_state c3) -> rtc cstep c3 c4 ->
  clock (c_reads c3) + 8000 < clock (c_reads c4) ->
  c_state (updateTask clock c4) = StateTerminated.
Proof.
  intros Hb Hr Hs%csteps_evolve Ht.
  pose proof (evolves_rank _ _ Hs). pose proof (evolves_rank _ _ (evolves_updateTask c4)).
  destruct (decide (c_state c4 = StateTerminating)) as [E|].
  - assert (c_state c4 = c_state c3) as E3 by (destruct (c_state c3); cbn in *; rewrite ?E in *; cbn in *; done || lia).
    assert (Hb4 := begin_evolves _ _ Hb Hs).
    apply update_terminating; [done|]. change (8000 < since_state (u32 (clock (c_reads c4))) c4).
    rewrite since_clock by done. rewrite (ev_begin _ _ Hs E3). destruct Hb as [_ Hb]. rewrite u32_clock in Hb. lia.
  - generalize dependent (c_state (updateTask clock c4)). generalize dependent (c_state c4).
    intros s4 ? ? s5 ?. destruct s4, s5; cbn [rank] in *; done || lia.
Qed.

(** Closing ends.  On a connection younger than the 2^32 milliseconds its
    clock can count, after [Close] in any state: an update more than fifteen
    seconds after the call, then an update more than eight seconds after
    that one, leave the connection terminated, whatever the peer sends and
    the application does in between. *)
Theorem close_terminates conversation overhead config c0 c c2 c4 :
  NewConnection conversation overhead config = Ret c0 -> rtc cstep c0 c ->
  rtc cstep (snd (Close clock c)) c2 -> clock (c_reads c) + 15000 < clock (c_reads c2) ->
  let c3 := updateTask clock c2 in
  rtc cstep c3 c4 -> clock (c_reads c3) + 8000 < clock (c_reads c4) ->
  c_state (updateTask clock c4) = StateTerminated.
Proof.
  intros H0 Hc H2 Ht2 c3 H4 Ht4.
  pose proof (reachable_begin _ _ _ _ _ H0 Hc) as Hb.
  pose proof (begin_evolves _ _ Hb (evolves_Close c)) as Hb1.
  destruct (Close_begin c Hb) as [Hs1 Ht1]. apply csteps_evolve in H2.
  pose proof (begin_evolves _ _ Hb1 H2) as Hb2.
  pose proof (begin_evolves _ _ Hb2 (evolves_updateTask c2)) as Hb3. fold c3 in Hb3.
  eapply update_after_terminating; [exact Hb3| |exact H4|exact Ht4].
  pose proof (evolves_rank _ _ H2) as Hr2.
  pose proof (evolves_rank _ _ (evolves_updateTask c2)) as Hr3. fold c3 in Hr3.
  destruct Hs1 as [Hs1|Hs1]; [|lia].
  destruct (decide (c_state c2 = StateReadyToClose)) as [E|E].
  - apply update_closing; [done|].
    change (15000 < since_state (u32 (clock (c_reads c2))) c2).
    rewrite since_clock by done. rewrite (ev_begin _ _ H2) by congruence. lia.
  - destruct (edges_rank _ _ (ev_state _ _ H2)) as [?|Hlt]; [congruence|].
    rewrite Hs1 in Hlt. destruct (c_state c2); cbn in *; lia.
Qed.

End lifecycle.

(** A stale clock reading closes a live connection.  The task reads the
    clock first and compares it with the time of the last datagram later; a
    datagram that arrives in between is newer than the reading, the unsigned
    difference wraps around, and the task takes the connection for one that
    has been silent for thirty seconds. *)
Theorem stale_update_closes clock current c :
  c_state c = StateActive -> 0 <= current < l_lastIncomingTime (c_life c) ->
  l_lastIncomingTime (c_life c) < 2 ^ 31 ->
  2 <= rank (c_state (updateTask_at clock current c)).
Proof.
  intros Hs Ht Hl. unfold updateTask_at. cbv zeta.
  rewrite (decide_False (P := c_state c = StateTerminated)) by (by rewrite Hs).
  rewrite (decide_True (P := c_state c = StateActive)) by done.
  rewrite (proj2 (Z.leb_le 30000 _)) by (rewrite u32_sub_gt by (unfold is_u32; lia); lia).
  set (c1 := snd (Close clock c)).
  assert (rank (c_state c1) = 2) as Hr1.
  { unfold c1, Close. set (c' := signal_output _).
    replace (c_state c') with StateActive by (symmetry; exact Hs). done. }
  set (c2 := if decide (c_state c1 = StateReadyToClose) then _ else c1).
  assert (2 <= rank (c_state c2)) as Hr2.
  { rewrite <- Hr1. apply (evolves_rank clock).
    by apply (evolves_when clock StateReadyToClose StateTerminating); constructor. }
  etrans; [exact Hr2|]. destruct (decide (c_state c2 = StateTerminating)) as [E|].
  - rewrite E. destruct (_ <? _); [cbn; lia|]. rewrite <- E at 1. done.
  - apply (evolves_rank clock), evolves_update_flush.
Qed.

(** ** Writing *)

Section writing.
Context {B : BufferLib} {BL : BufferLaws B}.

(** What a write has put into the window and what it accounts for. *)
Definition write_result (mss : Z) (total : Z) (b : list Z) (old new : list (Z * list Z))
    (o : WriteOutcome) : Prop :=
  exists chunks : list (Z * list Z), new = old ++ chunks /\
  Forall (fun p => 1 <= zlen (snd p) <= mss) chunks /\
  match o with
  | WriteDone n => concat (snd <$> chunks) = b /\ n = total + zlen b
  | WriteBlocked n chunk rest =>
    concat (snd <$> chunks) ++ chunk ++ rest = b /\ n = total + zlen (concat (snd <$> chunks))
  | WriteClosed _ => False
  end.

Lemma Push_entries b w w' :
  sk_Push b w = (w', true) ->
  entries (sk_window w') = entries (sk_window w) ++ [(sk_nextNumber w, b)].
Proof.
  unfold sk_Push. destruct (sk_closed w); [done|]. destruct (_ <? _); [done|].
  intros [= <-]. unfold entries. cbn. by rewrite fmap_app.
Qed.

Lemma write_result_app mss total n p b old new o :
  1 <= zlen p <= mss ->
  write_result mss (total + zlen p) b (old ++ [(n, p)]) new o ->
  write_result mss total (p ++ b) old new o.
Proof.
  intros Hp (chunks & -> & Hf & Ho). exists ((n, p) :: chunks). split_and!.
  - by rewrite <- app_assoc.
  - by constructor.
  - destruct o; cbn [fmap list_fmap concat snd]; [|done|];
      destruct Ho as [<- ->]; zlen_norm; (split; [by rewrite <- ?app_assoc|lia]).
Qed.

Lemma take_drop_taken {A} k (l : list A) : take k l ++ drop (length (take k l)) l = l.
Proof.
  rewrite length_take. destruct (Nat.le_ge_cases k (length l)).
  - rewrite Nat.min_l by done. apply take_drop.
  - rewrite Nat.min_r, take_ge, drop_all by done. apply app_nil_r.
Qed.

Lemma write_loop_spec fuel total chunk rest c :
  c_state c = StateActive -> 1 <= c_mss c <= Z.of_nat buf_capacity ->
  (2 * length rest + (match chunk with Some _ => 2 | None => 1 end) <= fuel)%nat ->
  match chunk with Some p => 1 <= zlen p <= c_mss c | None => True end ->
  exists o c', write_loop fuel total chunk rest c = Ret (o, c') /\
  write_result (c_mss c) total (default [] chunk ++ rest)
    (entries (sk_window (c_sendingWorker c))) (entries (sk_window (c_sendingWorker c'))) o.
Proof.
  revert total chunk rest c.
  induction fuel as [|fuel IH]; intros total chunk rest c Hs Hm Hf Hc; [destruct chunk; lia|].
  cbn [write_loop]. destruct chunk as [p|]; cbn [default].
  - destruct (sk_Push p (c_sendingWorker c)) as [s pushed] eqn:E. destruct pushed.
    + destruct (IH (total + zlen p) None rest (with_sending s c)) as (o & c' & Hw & Hr);
        [done|done|lia|done|]. exists o, c'. split; [done|].
      cbn [default app] in Hr. change (c_sendingWorker (with_sending s c)) with s in Hr.
      rewrite (Push_entries _ _ _ E) in Hr. by eapply write_result_app.
    + rewrite decide_False by (rewrite Hs; tauto). eexists _, _. split; [done|].
      exists []. cbn. rewrite app_nil_r. split_and!; [done|constructor|done|unfold zlen; cbn; lia].
  - destruct (Z.eqb_spec (zlen rest) 0) as [E0|E0].
    { destruct rest; [|unfold zlen in E0; cbn in E0; lia]. eexists _, _. split; [done|].
      exists []. cbn. rewrite app_nil_r. split_and!; [done|constructor|done|unfold zlen; cbn; lia]. }
    assert (length (take (Z.to_nat (c_mss c)) rest) <= buf_capacity)%nat by (rewrite length_take; lia).
    rewrite buf_read_from_fits by done.
    assert (1 <= zlen (take (Z.to_nat (c_mss c)) rest) <= c_mss c)
      by (unfold zlen in *; rewrite length_take; lia).
    rewrite (proj2 (Z.eqb_neq _ 0)) by lia.
    destruct (IH total (Some (take (Z.to_nat (c_mss c)) rest))
      (drop (length (take (Z.to_nat (c_mss c)) rest)) rest) c) as (o & c' & Hw & Hr);
      [done|done| |done|].
    { rewrite length_drop. unfold zlen in *. lia. }
    exists o, c'. split; [done|]. cbn in Hr. by rewrite take_drop_taken in Hr.
Qed.

(** A write returns, and what it queued is what it accepted.  On an
    active connection with a segment size that fits a buffer, [Write] ends
    (done, or blocked on a full window), the chunks it appended to the
    window are nonempty, fit into a segment and concatenate to the bytes it
    accounts for, and the chunk and the rest a blocked write goes on with
    are the remaining bytes. *)
Theorem Write_queues b c :
  c_state c = StateActive -> 1 <= c_mss c <= Z.of_nat buf_capacity ->
  exists o c', Write b c = Ret (o, c') /\
  write_result (c_mss c) 0 b
    (entries (sk_window (c_sendingWorker c))) (entries (sk_window (c_sendingWorker c'))) o.
Proof.
  intros Hs Hm. unfold Write. rewrite decide_False by (rewrite Hs; tauto).
  apply (write_loop_spec _ 0 None b c); [done|done| |done]. unfold write_fuel. lia.
Qed.

End writing.

(** ** Witnesses *)

Definition example_clock (n : nat) : Z := Z.min (10000 * Z.of_nat n) 4000000000.

Definition example_config : Config :=
  NewConfig {| opt_MTU := 0; opt_TTI := 0; opt_UplinkCapacity := 0; opt_DownlinkCapacity := 0;
               opt_Congestion := true; opt_ReadBufferSize := 0; opt_WriteBufferSize := 0;
               opt_HeaderType := "srtp"%string; opt_Seed := ""%string |}.

Definition example_conn (c : Connection) : Prop := NewConnection 7 10 example_config = Ret c.

Lemma connection_lifecycle_witness :
  exists c0, example_conn c0 /\
  let c := snd (Close example_clock c0) in
  let c' := updateTask example_clock c in
  rtc edge StateReadyToClose StateTerminated /\ c_terminates c' = 1%nat.
Proof.
  destruct (NewConnection 7 10 example_config) as [c0| |] eqn:E; [|done..]. exists c0. split; [done|].
  pose proof (connection_lifecycle example_clock 7 10 example_config c0
    (snd (Close example_clock c0)) (updateTask example_clock (snd (Close example_clock c0))) E
    ltac:(apply rtc_once; constructor) ltac:(apply rtc_once; constructor)) as (H1 & _ & H3 & _).
  revert H1 H3. vm_compute in E. injection E as <-. vm_compute. done.
Defined.

Lemma close_terminates_witness :
  exists c0, example_conn c0 /\
  let c2 := Input example_clock [] (snd (Close example_clock c0)) in
  let c4 := Input example_clock [] (updateTask example_clock c2) in
  c_state (updateTask example_clock c4) = StateTerminated.
Proof.
  destruct (NewConnection 7 10 example_config) as [c0| |] eqn:E; [|done..]. exists c0. split; [done|].
  cbv zeta. apply (close_terminates example_clock) with (conversation := 7) (overhead := 10)
    (config := example_config) (c0 := c0) (c := c0)
    (c2 := Input example_clock [] (snd (Close example_clock c0))).
  - intros. unfold example_clock. lia.
  - intros. unfold example_clock. lia.
  - exact E.
  - reflexivity.
  - apply rtc_once. constructor.
  - vm_compute in E. injection E as <-. vm_compute. done.
  - apply rtc_once. constructor.
  - vm_compute in E. injection E as <-. vm_compute. done.
Defined.

Lemma stale_update_closes_witness :
  exists c0, example_conn c0 /\
  2 <= rank (c_state (updateTask_at example_clock 9999 (Input example_clock [] (Input example_clock [] c0)))).
Proof.
  destruct (NewConnection 7 10 example_config) as [c0| |] eqn:E; [|done..]. exists c0. split; [done|].
  apply stale_update_closes; vm_compute in E; injection E as <-; vm_compute; done.
Defined.

Lemma Write_queues_witness :
  exists c0 o c', example_conn c0 /\ Write [1; 2; 3] c0 = Ret (o, c') /\
  write_result (c_mss c0) 0 [1; 2; 3] [] (entries (sk_window (c_sendingWorker c'))) o.
Proof.
  destruct (NewConnection 7 10 example_config) as [c0| |] eqn:E; [|done..]. exists c0.
  destruct (Write_queues [1; 2; 3] c0) as (o & c' & H1 & H2).
  - vm_compute in E. injection E as <-. done.
  - vm_compute in E. injection E as <-. cbn [c_mss buf_capacity plain_buffers_laws]. lia.
  - exists o, c'. split; [done|]. split; [done|]. vm_compute in E. by injection E as <-.
Defined.
