(* ===== verification/KcpProtocol.v ===== *)
(** * mKCP end to end

    The sending worker of one side and the receiving worker of the other,
    joined by a network that loses, duplicates, delays and reorders what is
    put into it.  The theorem is the contract of the transport: what is read
    is what was written, in order, and what is written is not lost.  The
    connection is open: [CloseWrite] and [Release] drop what is cached, and
    come with its end. *)

From S2P Require Import Prelude Buffers KcpSegment KcpReceiving KcpRoundTrip KcpSending.

(** ** Facts about the receiving worker *)

(** Segment [i] has arrived: it was read, or it waits in the window. *)
Definition got (r : ReceivingWorker) (i : Z) : Prop :=
  i < rk_nextNumber r \/ is_Some (rw_cache (rk_window r) !! i).

Lemma al_numbers_entries l : al_wf l -> al_numbers l = (al_entries l).*1.
Proof.
  intros [Ht Hf]. unfold al_entries, KcpReceiving.entries.
  rewrite fst_zip; [done|]. rewrite length_zip_with. lia.
Qed.

Lemma Clear_numbers una l n :
  al_wf l -> n ∈ al_numbers (al_Clear una l) -> n ∈ al_numbers l.
Proof.
  intros Hw. destruct (al_Clear_entries una l Hw) as [Hw' He].
  rewrite (al_numbers_entries _ Hw'), (al_numbers_entries _ Hw), He, !list_elem_of_fmap.
  intros (e & -> & [_ Hin]%list_elem_of_filter). by exists e.
Qed.

Lemma Add_wf number timestamp l : al_wf l -> al_wf (al_Add number timestamp l).
Proof. intros [Ht Hf]. unfold al_wf. cbn. rewrite !length_app. cbn. lia. Qed.

(** A flush sends numbers of the list only. *)
Lemma Flush_numbers current rto l seg n :
  al_wf l -> seg ∈ snd (al_Flush current rto l) -> n ∈ as_NumberList seg -> n ∈ al_numbers l.
Proof.
  intros Hw Hs Hn. pose proof (al_Flush_spec current rto l Hw) as H. cbv zeta in H.
  destruct (al_Flush current rto l) as [l' segs]. destruct H as (_ & _ & _ & _ & _ & _ & k & Hk).
  assert (n ∈ sent_numbers segs) as Hin.
  { unfold sent_numbers. apply list_elem_of_In, in_concat. exists (as_NumberList seg).
    split; [apply in_map|]; by apply list_elem_of_In. }
  rewrite Hk in Hin. rewrite (al_numbers_entries _ Hw), list_elem_of_fmap.
  apply elem_of_app in Hin as [Hin|Hin]; [|apply elem_of_take in Hin as (j & Hin%list_elem_of_lookup_2 & _)];
    apply list_elem_of_fmap in Hin as (e & -> & [_ He]%list_elem_of_filter); by exists e.
Qed.

(** The numbers of the window lie below [K]. *)
Definition below (K : Z) (r : ReceivingWorker) : Prop :=
  0 <= rk_nextNumber r <= K /\
  forall k, is_Some (rw_cache (rk_window r) !! k) -> 0 <= k < K.

Lemma read_loop_got fuel K w n mb w' n' mb' :
  K <= 2 ^ 31 -> 0 <= n <= K -> (forall k, is_Some (rw_cache w !! k) -> 0 <= k < K) ->
  rk_read_loop fuel w n mb = (w', n', mb') ->
  n <= n' <= K /\
  (forall k, is_Some (rw_cache w' !! k) -> is_Some (rw_cache w !! k)) /\
  (forall k, is_Some (rw_cache w !! k) -> k < n' \/ is_Some (rw_cache w' !! k)).
Proof.
  intros HK. revert w n mb. induction fuel as [|fuel IH]; intros w n mb Hn Hk.
  { intros [= <- <- <-]. split; [lia|]. split; [done|]. by right. }
  cbn [rk_read_loop]. unfold rw_Remove. destruct (rw_cache w !! n) as [seg|] eqn:E.
  2: { intros [= <- <- <-]. split; [lia|]. split; [done|]. by right. }
  assert (n < K) by (destruct (Hk n); [by rewrite E|lia]).
  rewrite u32_id by (unfold is_u32; lia). intros Hl.
  assert (Hd : forall k, is_Some (delete n (rw_cache w) !! k) -> is_Some (rw_cache w !! k)).
  { intros k [x Hx]. apply lookup_delete_Some in Hx as [_ Hx]. by exists x. }
  apply IH in Hl as (H1 & H2 & H3); [|lia|intros k Hd'; apply Hk, Hd, Hd'].
  split; [lia|]. split; [intros k Hk'; apply Hd, H2, Hk'|].
  intros k Hk'. destruct (decide (k = n)) as [->|Hne]; [left; lia|].
  apply H3. cbn. by rewrite lookup_delete_ne by done.
Qed.

Section receiver.
Context {B : BufferLib}.

(** A read keeps what has arrived, and the acknowledgements. *)
Lemma Read_got K n r r' out :
  K <= 2 ^ 31 -> below K r -> rk_Read n r = (r', out) ->
  below K r' /\ rk_nextNumber r <= rk_nextNumber r' /\ rk_acklist r' = rk_acklist r /\
  (forall i, got r i -> got r' i).
Proof.
  intros HK [Hn Hk]. unfold rk_Read.
  assert (Hm : below K (fst (rk_ReadMultiBuffer r)) /\
    rk_nextNumber r <= rk_nextNumber (fst (rk_ReadMultiBuffer r)) /\
    rk_acklist (fst (rk_ReadMultiBuffer r)) = rk_acklist r /\
    (forall i, got r i -> got (fst (rk_ReadMultiBuffer r)) i)).
  { unfold rk_ReadMultiBuffer. destruct (rk_leftOver r).
    { cbn. split_and!; [by split|lia|done|]. intros i Hi. exact Hi. }
    destruct (rk_read_loop _ _ _ _) as [[w' n'] mb'] eqn:E.
    destruct (read_loop_got _ K _ _ _ _ _ _ HK Hn Hk E) as (H1 & H2 & H3). cbn.
    split_and!; [split; cbn; [lia|intros; by apply Hk, H2]|lia|done|].
    intros i [Hi|Hi]; [left; cbn; lia|]. destruct (H3 i Hi); [by left|by right]. }
  destruct (rk_ReadMultiBuffer r) as [r1 mb]. cbn [fst] in Hm.
  destruct (mb_IsEmpty mb); [intros [= <- <-]; exact Hm|].
  destruct (SplitBytes mb n) as [mb' o]. intros [= <- <-]. exact Hm.
Qed.

End receiver.

(** A data segment adds to what has arrived. *)
Lemma Segment_got K seg r :
  below K r -> al_wf (rk_acklist r) -> 0 <= ds_Number seg < K -> K <= 2 ^ 31 ->
  0 < rk_windowSize r <= 2 ^ 31 ->
  let r' := rk_ProcessSegment seg r in
  below K r' /\ rk_nextNumber r' = rk_nextNumber r /\ (forall i, got r i -> got r' i) /\
  al_wf (rk_acklist r') /\
  (forall n, n ∈ al_numbers (rk_acklist r') ->
     n ∈ al_numbers (rk_acklist r) \/ (n = ds_Number seg /\ got r' n)).
Proof.
  intros [Hn Hk] Hw Hs HK Hws. cbv zeta. unfold rk_ProcessSegment.
  destruct (_ <=? _).
  { split_and!; [by split|done|done|done|]. by left. }
  unfold rw_Set. destruct (al_Clear_entries (ds_SendingNext seg) _ Hw) as [Hw' _].
  assert (Hnum : forall n, n ∈ al_numbers (al_Add (ds_Number seg) (ds_Timestamp seg)
      (al_Clear (ds_SendingNext seg) (rk_acklist r))) ->
      n ∈ al_numbers (rk_acklist r) \/ n = ds_Number seg).
  { intros n. cbn. rewrite elem_of_app, list_elem_of_singleton.
    intros [?|?]; [left; by eapply Clear_numbers|by right]. }
  destruct (rw_cache (rk_window r) !! ds_Number seg) as [old|] eqn:E; cbn.
  - split_and!; [by split|done|done|by apply Add_wf|].
    intros n [?| ->]%Hnum; [by left|right]. split; [done|]. right. cbn. by rewrite E.
  - split_and!; [|done| |by apply Add_wf|].
    + split; [done|]. cbn. intros k Hx. destruct (decide (k = ds_Number seg)) as [->|Hne]; [done|].
      rewrite lookup_insert_ne in Hx by done. by apply Hk.
    + intros i [Hi|Hi]; [by left|right]. cbn. destruct (decide (i = ds_Number seg)) as [->|Hne].
      * rewrite lookup_insert_eq. by eexists.
      * by rewrite lookup_insert_ne by done.
    + intros n [?| ->]%Hnum; [by left|right]. split; [done|]. right. cbn.
      rewrite lookup_insert_eq. by eexists.
Qed.

(** ** Facts about the sending worker

    A property of cached segments that timers and headers do not affect is
    kept by every operation. *)

Section cached.
Variable P : DataSegment -> Prop.
Hypothesis P_timeout : forall t s, P s -> P (with_timeout t s).

Definition cached (w : SendingWorker) : Prop := Forall P (sw_cache (sk_window w)).

Lemma drop_below_all una cache : Forall P cache -> Forall P (drop_below una cache).
Proof.
  induction 1 as [|s cache Hs Hc IH]; [constructor|]. cbn. destruct (_ <=? _); [by constructor|done].
Qed.

Lemma remove_number_all n cache cache' :
  Forall P cache -> remove_number n cache = Some cache' -> Forall P cache'.
Proof.
  intros Hc. revert cache'. induction Hc as [|s cache Hs Hc IH]; intros cache'; [done|].
  cbn. destruct (_ <? _); [done|]. destruct (_ =? _); [by intros [= <-]|].
  destruct (remove_number n cache); [|done]. intros [= <-]. constructor; [done|]. by apply IH.
Qed.

Lemma fast_ack_all n rto cache : Forall P cache -> Forall P (fast_ack_visit n rto cache).
Proof.
  induction 1 as [|s cache Hs Hc IH]; [constructor|]. cbn [fast_ack_visit].
  destruct (_ || _); [by constructor|]. constructor; [|done]. destruct (_ && _); auto.
Qed.

Lemma processAck_all n w : cached w -> cached (fst (sk_processAck n w)).
Proof.
  intros Hc. unfold sk_processAck. destruct (_ || _); [done|]. unfold sw_Remove.
  destruct (remove_number n _) eqn:E; [|done]. exact (remove_number_all _ _ _ Hc E).
Qed.

Lemma process_acks_all ns maxack removed w :
  cached w -> cached (fst (fst (sk_process_acks ns maxack removed w))).
Proof.
  revert maxack removed w. induction ns as [|n ns IH]; intros maxack removed w Hc; [done|].
  cbn [sk_process_acks]. apply (processAck_all n) in Hc.
  destruct (sk_processAck n w) as [w' rem]. destruct (_ <? _); by apply IH.
Qed.

Lemma ReceivingNext_all n w : cached w -> cached (sk_ProcessReceivingNext n w).
Proof. apply drop_below_all. Qed.

Lemma ProcessSegment_all current seg rto wr :
  cached (fst wr) -> cached (fst (sk_ProcessSegment current seg rto wr)).
Proof.
  destruct wr as [w info]. cbn [fst]. intros Hc. unfold sk_ProcessSegment.
  destruct (sk_closed w); [done|]. set (w1 := if _ <? _ then _ else _).
  assert (cached w1) as Hc1 by (unfold w1; by destruct (_ <? _)).
  apply (ReceivingNext_all (as_ReceivingNext seg)) in Hc1.
  destruct (AckIsEmpty seg); [done|].
  apply (process_acks_all (as_NumberList seg) 0 false) in Hc1.
  destruct (sk_process_acks _ _ _ _) as [[w2 m] rem]. cbn [fst] in Hc1.
  destruct rem; [|done]. cbn. unfold cached, sw_HandleFastAck. cbn.
  destruct (sw_IsEmpty _); [done|]. by apply fast_ack_all.
Qed.

Lemma flushed_all write current rto out cache cache' :
  (forall s, P s -> P (flush_segment write current rto s)) ->
  Forall P cache -> Forall2 (flushed write current rto out) cache cache' -> Forall P cache'.
Proof.
  intros Hw Hc Hf. induction Hf as [|s s' cache cache' Hs Hf IH]; [constructor|].
  inversion Hc as [|? ? H1 H2]; subst.
  constructor; [|by apply IH]. destruct Hs as [->|(_ & -> & _)]; auto.
Qed.

End cached.

(** ** The link *)

Section link.
Context {B : BufferLib} {BL : BufferLaws B}.

(** Segment [i] carries [f i]; the two windows have sizes [ws] and [size]. *)
Context (f : Z -> list Z) (ws size inFlight : Z).

(** The two workers, everything put into the network so far (data segments,
    acknowledgements, and the receiver positions carried by commands), and
    the bytes read. *)
Record link := mkLink {
  k_sender : SendingWorker * RoundTripInfo;
  k_receiver : ReceivingWorker;
  k_data : list DataSegment;
  k_acks : list AckSegment;
  k_nexts : list Z;
  k_log : list Z
}.

Definition link0 (info : RoundTripInfo) : link :=
  mkLink (NewSendingWorker inFlight size, info) (NewReceivingWorker ws) [] [] [] [].

(** The network delivers any segment ever sent, any number of times.  At most
    2^31 segments are written. *)
Inductive lstep : link -> link -> Prop :=
| lstep_write s r data acks nexts log :
    sk_nextNumber (fst s) < 2 ^ 31 ->
    lstep (mkLink s r data acks nexts log)
      (mkLink (send_run (OpPush (f (sk_nextNumber (fst s)))) s) r data acks nexts log)
| lstep_flush s r data acks nexts log env closing current timeout w out ping :
    sk_Flush env closing current timeout (fst s) = (w, out, ping) ->
    lstep (mkLink s r data acks nexts log) (mkLink (w, snd s) r (data ++ out) acks nexts log)
| lstep_data s r data acks nexts log seg :
    seg ∈ data ->
    lstep (mkLink s r data acks nexts log) (mkLink s (rk_ProcessSegment seg r) data acks nexts log)
| lstep_read s r data acks nexts log n r' out :
    rk_Read n r = (r', out) ->
    lstep (mkLink s r data acks nexts log) (mkLink s r' data acks nexts (log ++ out))
| lstep_ack_flush s r data acks nexts log conv closing current rto r' segs :
    rk_Flush conv closing current rto r = (r', segs) ->
    lstep (mkLink s r data acks nexts log) (mkLink s r' data (acks ++ segs) nexts log)
| lstep_ping s r data acks nexts log :
    lstep (mkLink s r data acks nexts log)
      (mkLink s r data acks (nexts ++ [rk_nextNumber r]) log)
| lstep_ack s r data acks nexts log current seg rto :
    seg ∈ acks ->
    lstep (mkLink s r data acks nexts log)
      (mkLink (sk_ProcessSegment current seg rto s) r data acks nexts log)
| lstep_next s r data acks nexts log n :
    n ∈ nexts ->
    lstep (mkLink s r data acks nexts log)
      (mkLink (sk_ProcessReceivingNext n (fst s), snd s) r data acks nexts log)
| lstep_sending_next s r data acks nexts log n :
    lstep (mkLink s r data acks nexts log)
      (mkLink s (rk_ProcessSendingNext n r) data acks nexts log).

(** The segment carries the payload its number says. *)
Definition honest (s : DataSegment) : Prop := ds_payload s = Some (f (ds_Number s)).

Definition outstanding (w : SendingWorker) : Outstanding :=
  mkOutstanding (sk_nextNumber w) (entries (sk_window w)).

Lemma rep_outstanding o w : represents size o w -> o = outstanding w.
Proof. intros []. unfold outstanding. destruct o. cbn in *. congruence. Qed.

(** Segment [i] waits for its acknowledgement. *)
Definition waiting (w : SendingWorker) (i : Z) : Prop := i ∈ (entries (sk_window w)).*1.

Definition sender_inv (w : SendingWorker) : Prop :=
  represents size (outstanding w) w /\ cached honest w.

Definition receiver_inv (K : Z) (r : ReceivingWorker) (log : list Z) : Prop :=
  below K r /\ rinv f ws (r, rk_nextNumber r, log) /\ al_wf (rk_acklist r) /\
  forall n, n ∈ al_numbers (rk_acklist r) -> is_u32 n /\ got r n.

Definition ack_inv (r : ReceivingWorker) (a : AckSegment) : Prop :=
  as_ReceivingNext a <= rk_nextNumber r /\
  Forall (fun n => is_u32 n /\ got r n) (as_NumberList a).

Record linv (l : link) : Prop := {
  li_sender : sender_inv (fst (k_sender l));
  li_data : Forall (fun s => honest s /\ 0 <= ds_Number s < sk_nextNumber (fst (k_sender l)))
              (k_data l);
  li_receiver : receiver_inv (sk_nextNumber (fst (k_sender l))) (k_receiver l) (k_log l);
  li_acks : Forall (ack_inv (k_receiver l)) (k_acks l);
  li_nexts : Forall (fun n => n <= rk_nextNumber (k_receiver l)) (k_nexts l);
  li_all : forall i, 0 <= i < sk_nextNumber (fst (k_sender l)) ->
             got (k_receiver l) i \/ waiting (fst (k_sender l)) i
}.

Hypothesis ws_range : 0 < ws <= 2 ^ 31.

Lemma linv0 info : linv (link0 info).
Proof.
  constructor; cbn; [| |..].
  - split; [apply (rep_new inFlight size)|constructor].
  - constructor.
  - assert (Hn : forall k, ~ is_Some ((∅ : gmap Z DataSegment) !! k))
      by (intros k; rewrite lookup_empty; by intros []).
    split; [|split; [|split]].
    + split; [cbn; lia|]. cbn. intros k Hk. by destruct (Hn k).
    + apply (reachable_rinv f ws); [lia|reflexivity].
    + done.
    + cbn. intros n Hx. by apply elem_of_nil in Hx.
  - constructor.
  - constructor.
  - lia.
Qed.

(** A step of the sender that acknowledges only what has arrived. *)
Lemma linv_sender s s' r data acks nexts log :
  linv (mkLink s r data acks nexts log) -> sender_inv (fst s') ->
  sk_nextNumber (fst s') = sk_nextNumber (fst s) ->
  (forall i, waiting (fst s) i -> got r i \/ waiting (fst s') i) ->
  linv (mkLink s' r data acks nexts log).
Proof.
  intros [? ? ? ? ? Hall] Hs Hn Hw. cbn in *. constructor; cbn; rewrite ?Hn; try done.
  intros i Hi. destruct (Hall i Hi) as [|H]; [by left|]. by apply Hw.
Qed.

(** A step of the receiver that forgets nothing. *)
Lemma linv_receiver s r r' data acks nexts log log' :
  linv (mkLink s r data acks nexts log) ->
  receiver_inv (sk_nextNumber (fst s)) r' log' -> rk_nextNumber r <= rk_nextNumber r' ->
  (forall i, got r i -> got r' i) ->
  linv (mkLink s r' data acks nexts log').
Proof.
  intros [? ? ? Ha Hx Hall] Hr Hn Hg. cbn in *. constructor; cbn; [done|done|done| | |].
  - eapply Forall_impl; [exact Ha|]. intros a [H1 H2]. split; [lia|].
    eapply Forall_impl; [exact H2|]. intros n [? ?]. auto.
  - eapply Forall_impl; [exact Hx|]. cbn. lia.
  - intros i Hi. destruct (Hall i Hi); auto.
Qed.

(** What an acknowledgement removes from the window is what it names. *)
Lemma waiting_ack una ns o w w' i :
  o = outstanding w -> represents size (o_ack una ns o) w' -> waiting w i ->
  i < una \/ i ∈ ns \/ waiting w' i.
Proof.
  intros -> Hr Hi. apply rep_entries in Hr. unfold waiting in *. rewrite Hr.
  apply list_elem_of_fmap in Hi as (p & -> & Hp).
  destruct (decide (una <= fst p)); [|left; lia]. right.
  destruct (decide (fst p ∈ ns)); [by left|right]. apply list_elem_of_fmap. exists p.
  split; [done|]. by apply list_elem_of_filter.
Qed.

Lemma linv_bound l : linv l -> sk_nextNumber (fst (k_sender l)) <= 2 ^ 31.
Proof. intros [[Hr _] _ _ _ _ _]. by apply rep_bound in Hr. Qed.

Lemma linv_ack current seg rto s r data acks nexts log :
  linv (mkLink s r data acks nexts log) -> seg ∈ acks ->
  linv (mkLink (sk_ProcessSegment current seg rto s) r data acks nexts log).
Proof.
  intros Hl Hin. assert (Hl' := Hl). destruct Hl as [[Hr Hc] _ _ Ha _ _]. cbn in *.
  destruct (proj1 (Forall_forall _ _) Ha _ Hin) as [Hn Hns].
  assert (Hu : Forall is_u32 (as_NumberList seg))
    by (eapply Forall_impl; [exact Hns|]; by intros ? [? _]).
  pose proof (rep_ProcessSegment size _ current seg rto s Hu Hr) as Hr'.
  eapply linv_sender; [done| | |].
  - split; [by rewrite (rep_outstanding _ _ Hr') in Hr'|]. apply ProcessSegment_all; [|done].
    intros t x Hx. exact Hx.
  - by rewrite (rep_next _ _ _ Hr').
  - intros i Hi. eapply waiting_ack in Hr'; [|done|exact Hi].
    destruct Hr' as [?|[Hi'|?]]; [left; left; lia| |by right].
    left. by apply (proj1 (Forall_forall _ _) Hns).
Qed.

Lemma linv_next n s r data acks nexts log :
  linv (mkLink s r data acks nexts log) -> n ∈ nexts ->
  linv (mkLink (sk_ProcessReceivingNext n (fst s), snd s) r data acks nexts log).
Proof.
  intros Hl Hin. assert (Hl' := Hl). destruct Hl as [[Hr Hc] _ _ _ Hx _]. cbn in *.
  pose proof (proj1 (Forall_forall _ _) Hx _ Hin) as Hn. cbn in Hn.
  pose proof (rep_ReceivingNext size _ _ n Hr) as Hr'. eapply linv_sender; [done| |done|].
  - split; [by rewrite (rep_outstanding _ _ Hr') in Hr'|]. by apply ReceivingNext_all.
  - intros i Hi. eapply waiting_ack in Hr'; [|done|exact Hi].
    destruct Hr' as [?|[Hi'|?]]; [left; left; lia| |by right].
    by apply elem_of_nil in Hi'.
Qed.

Lemma linv_write s r data acks nexts log :
  sk_nextNumber (fst s) < 2 ^ 31 -> linv (mkLink s r data acks nexts log) ->
  linv (mkLink (send_run (OpPush (f (sk_nextNumber (fst s)))) s) r data acks nexts log).
Proof.
  intros Hb Hl. assert (Hl' := Hl). destruct Hl as [[Hr Hc] Hd Hrc Ha Hx Hall].
  destruct s as [w info]. cbn in *.
  pose proof (rep_Push size (outstanding w) _ (f (sk_nextNumber w)) Hb Hr) as Hr'.
  destruct (sk_Push (f (sk_nextNumber w)) w) as [w' pushed] eqn:E. cbn [fst] in *.
  pose proof (rep_outstanding _ _ Hr') as Ho. rewrite Ho in Hr'.
  assert (Hw : w' = w \/ (sk_nextNumber w' = sk_nextNumber w + 1 /\
    sw_cache (sk_window w') = sw_cache (sk_window w) ++
      [mkDataSegment 0 0 0 (sk_nextNumber w) 0 (Some (f (sk_nextNumber w))) 0 0])).
  { revert E. unfold sk_Push. destruct (sk_closed w); [intros [= <- _]; by left|].
    destruct (_ <? _); [intros [= <- _]; by left|]. intros [= <- _]. right. split; [|done].
    destruct Hr as [_ _ Hri Hf _ _ _]. apply rising_hi in Hri. cbn in *.
    apply u32_id. unfold is_u32. lia. }
  destruct Hw as [->|[Hn Hca]]; [by constructor|].
  constructor; cbn.
  - split; [done|]. unfold cached. rewrite Hca. apply Forall_app. split; [done|].
    by repeat constructor.
  - rewrite Hn. eapply Forall_impl; [exact Hd|]. cbn. intros ? [? ?]. split; [done|lia].
  - rewrite Hn. destruct Hrc as [[H1 H2] H3]. split; [|done]. split; [lia|].
    intros k Hk. specialize (H2 k Hk). lia.
  - done.
  - done.
  - rewrite Hn. intros i Hi. unfold waiting, entries. rewrite Hca, fmap_app, fmap_app.
    destruct (decide (i = sk_nextNumber w)) as [->|].
    + right. apply elem_of_app. right. cbn. by left.
    + destruct (Hall i ltac:(lia)) as [|Hi']; [by left|right]. apply elem_of_app. by left.
Qed.

Lemma linv_flush env closing current timeout w out ping s r data acks nexts log :
  sk_Flush env closing current timeout (fst s) = (w, out, ping) ->
  linv (mkLink s r data acks nexts log) -> linv (mkLink (w, snd s) r (data ++ out) acks nexts log).
Proof.
  intros E Hl. assert (Hl' := Hl). destruct Hl as [[Hr Hc] Hd Hrc Ha Hx Hall]. cbn in *.
  pose proof (rep_Flush size _ _ env closing current timeout Hr) as Hr'. rewrite E in Hr'.
  cbn [fst] in Hr'. pose proof (rep_outstanding _ _ Hr') as Ho.
  pose proof (rep_cache_len _ _ _ Hr) as [Hlen1 Hlen2].
  pose proof (sk_Flush_spec env closing current timeout (fst s) (rep_open _ _ _ Hr)
    ltac:(lia)) as Hs. rewrite E in Hs. destruct Hs as (Hout & Hf & _).
  assert (Hcw : cached honest w) by (eapply flushed_all; [|exact Hc|exact Hf]; done).
  assert (Hn : sk_nextNumber w = sk_nextNumber (fst s))
    by (rewrite (rep_next _ _ _ Hr'); done).
  eapply (linv_sender s (w, snd s)) in Hl'.
  - destruct Hl'. constructor; cbn in *; try done. apply Forall_app. split; [done|].
    rewrite Hout, Hn. apply Forall_fmap, Forall_forall. intros x Hin.
    assert (x ∈ sw_cache (sk_window (fst s))) as Hxin.
    { apply elem_of_take in Hin as (j & Hin%list_elem_of_lookup_2 & _).
      by apply list_elem_of_filter in Hin as [_ ?]. }
    split; [exact (proj1 (Forall_forall _ _) Hc x Hxin)|].
    pose proof (rising_elem _ _ _ (ds_entry x) (rep_rising _ _ _ Hr)
      ltac:(apply list_elem_of_fmap; by exists x)) as Hxr.
    pose proof (rep_first _ _ _ Hr). cbn in *. lia.
  - split; [rewrite Ho in Hr'; exact Hr'|exact Hcw].
  - exact Hn.
  - intros i Hi. right. unfold waiting in *. cbn. by rewrite (rep_entries _ _ _ Hr').
Qed.

Lemma linv_data seg s r data acks nexts log :
  linv (mkLink s r data acks nexts log) -> seg ∈ data ->
  linv (mkLink s (rk_ProcessSegment seg r) data acks nexts log).
Proof.
  intros Hl Hin. pose proof (linv_bound _ Hl) as HK. assert (Hl' := Hl).
  destruct Hl as [_ Hd (Hb & Hi & Hw & Hal) _ _ _]. cbn in *.
  destruct (proj1 (Forall_forall _ _) Hd _ Hin) as [Hh Hn].
  assert (rk_windowSize r = ws) as Hws by apply Hi.
  destruct (Segment_got _ seg r Hb Hw Hn HK ltac:(lia)) as (Hb' & Hx & Hg & Hw' & Hnum).
  eapply linv_receiver; [done| |lia|done]. split_and!; [done| |done|].
  - rewrite Hx. destruct Hb as [Hb _].
    apply (rinv_segment f ws _ _ _ _ (ds_Number seg)); [lia| |done|lia|done].
    symmetry. apply u32_id. unfold is_u32. lia.
  - intros n [Hin'|[-> Hgn]]%Hnum.
    + destruct (Hal n Hin') as [? ?]. auto.
    + split; [unfold is_u32; lia|done].
Qed.

Lemma linv_read n r' out s r data acks nexts log :
  rk_Read n r = (r', out) -> linv (mkLink s r data acks nexts log) ->
  linv (mkLink s r' data acks nexts (log ++ out)).
Proof.
  intros E Hl. pose proof (linv_bound _ Hl) as HK. assert (Hl' := Hl).
  destruct Hl as [_ _ (Hb & Hi & Hw & Hal) _ _ _]. cbn in *.
  destruct (Read_got _ _ _ _ _ HK Hb E) as (Hb' & Hx & Hac & Hg).
  eapply linv_receiver; [done| |lia|done]. split_and!; [done| |by rewrite Hac|].
  - replace (rk_nextNumber r')
      with (rk_nextNumber r + (rk_nextNumber r' ⊟ rk_nextNumber r)).
    + apply (rinv_read f ws _ _ _ n); [lia|done|done].
    + destruct Hb as [Hb _], Hb' as [Hb' _]. rewrite u32_sub_le by (unfold is_u32; lia). lia.
  - rewrite Hac. intros m Hm. destruct (Hal m Hm). auto.
Qed.

Lemma linv_sending_next n s r data acks nexts log :
  linv (mkLink s r data acks nexts log) ->
  linv (mkLink s (rk_ProcessSendingNext n r) data acks nexts log).
Proof.
  intros Hl. assert (Hl' := Hl). destruct Hl as [_ _ (Hb & Hi & Hw & Hal) _ _ _]. cbn in *.
  eapply linv_receiver; [done| |done|done].
  split_and!; [done|done|exact (proj1 (al_Clear_entries n _ Hw))|].
  intros m Hm. exact (Hal m (Clear_numbers n _ m Hw Hm)).
Qed.

Lemma linv_ack_flush conv closing current rto r' segs s r data acks nexts log :
  rk_Flush conv closing current rto r = (r', segs) ->
  linv (mkLink s r data acks nexts log) -> linv (mkLink s r' data (acks ++ segs) nexts log).
Proof.
  intros E Hl. assert (Hl' := Hl). destruct Hl as [_ _ (Hb & Hi & Hw & Hal) _ _ _]. cbn in *.
  pose proof (al_Flush_spec current rto _ Hw) as Hf. cbv zeta in Hf.
  pose proof (fun seg n => Flush_numbers current rto _ seg n Hw) as Hn.
  unfold rk_Flush in E. destruct (al_Flush _ _ _) as [al' out]. injection E as <- <-.
  destruct Hf as (Hw' & Hnum & _). cbn [snd] in Hn.
  eapply (linv_receiver _ _ (mkReceivingWorker (rk_leftOver r) (rk_window r) al'
    (rk_nextNumber r) (rk_windowSize r)) _ _ _ _ log) in Hl'.
  - destruct Hl'. constructor; cbn in *; try done. apply Forall_app. split; [done|].
    apply Forall_fmap, Forall_forall. intros a Ha. split; [cbn; lia|]. cbn.
    apply Forall_forall. intros n Hin. by apply Hal, (Hn a).
  - split_and!; [done|done|done|]. cbn. by rewrite Hnum.
  - cbn. lia.
  - done.
Qed.

Lemma lstep_linv l l' : lstep l l' -> linv l -> linv l'.
Proof.
  destruct 1; intros Hl.
  - by apply linv_write.
  - by eapply linv_flush.
  - by apply linv_data.
  - by eapply linv_read.
  - by eapply linv_ack_flush.
  - destruct Hl. constructor; cbn in *; try done. apply Forall_app. split; [done|].
    by repeat constructor.
  - by apply linv_ack.
  - by apply linv_next.
  - by apply linv_sending_next.
Qed.

Lemma reachable_linv info l : rtc lstep (link0 info) l -> linv l.
Proof.
  apply (rtc_ind_r (fun l => linv l)); [apply linv0|]. intros x y _ Hs Hx. by eapply lstep_linv.
Qed.

(** All that has arrived is handed over by one read. *)
Lemma read_everything r log K :
  receiver_inv K r log -> K <= 2 ^ 31 -> rk_leftOver r = None ->
  (forall i, 0 <= i < K -> got r i) ->
  log ++ concat (snd (rk_ReadMultiBuffer r)) = stream f K.
Proof.
  intros ((Hb & Hk) & (H0 & Hw & Hx & Hc & Hl) & _) HK Hlo Hall.
  unfold rk_ReadMultiBuffer. rewrite Hlo.
  assert (Hu : u32 (rk_nextNumber r) = rk_nextNumber r) by done.
  assert (Hc' : cache_ok f (rk_nextNumber r) K (rw_cache (rk_window r))).
  { intros k seg Hs. destruct (Hc k seg Hs) as (i & Hi & -> & Hp). exists i.
    pose proof (Hk (u32 i) ltac:(by eexists)) as Hki.
    rewrite u32_id in Hki by (unfold is_u32; lia). split_and!; [lia|lia|done|done]. }
  destruct (read_loop_spec f (S (base.size (rw_cache (rk_window r)))) (rk_window r)
    (rk_nextNumber r) K []) as (k & w' & Hk0 & HkM & E & _ & Hnone); [lia|done|lia|lia|].
  rewrite Hu in E. rewrite E. cbn [snd app].
  assert (rk_nextNumber r + k = K) as <-.
  { destruct (decide (rk_nextNumber r + k = K)); [done|].
    destruct (Hall (rk_nextNumber r + k)) as [?|Hs]; [lia|lia|].
    rewrite u32_id in Hnone by (unfold is_u32; lia). rewrite Hnone in Hs. by destruct Hs. }
  rewrite stream_app by lia. rewrite Hlo in Hl. cbn in Hl. rewrite app_nil_r in Hl. by rewrite Hl.
Qed.

(** C1: reliable delivery.  Until the connection is closed, over a network that loses, duplicates, delays and
    reorders segments and acknowledgements, with any interleaving of writes
    (up to 2^31 segments), flushes, reads, pings and arrivals: the bytes
    read, followed by the bytes kept for the next read, are the first
    payloads written, whole and in order; every payload written has arrived
    or is still cached for retransmission; and once nothing is cached, one
    read of the window completes the stream. *)
Theorem reliable_delivery info l :
  rtc lstep (link0 info) l ->
  let w := fst (k_sender l) in let r := k_receiver l in
  rk_nextNumber r <= sk_nextNumber w /\
  k_log l ++ concat (default [] (rk_leftOver r)) = stream f (rk_nextNumber r) /\
  (forall i, 0 <= i < sk_nextNumber w -> got r i \/ waiting w i) /\
  (sw_IsEmpty (sk_window w) = true -> rk_leftOver r = None ->
   k_log l ++ concat (snd (rk_ReadMultiBuffer r)) = stream f (sk_nextNumber w)).
Proof.
  intros Hl%reachable_linv. pose proof (linv_bound _ Hl) as HK. cbv zeta.
  destruct Hl as [_ _ Hr _ _ Hall]. split_and!.
  - apply Hr.
  - destruct Hr as (_ & (_ & _ & _ & _ & Hs) & _). exact Hs.
  - done.
  - intros He Hlo. apply (read_everything _ _ _ Hr HK Hlo). intros i Hi.
    destruct (Hall i Hi) as [|Hw]; [done|]. unfold waiting, entries in Hw.
    unfold sw_IsEmpty, zlen in He. destruct (sw_cache _); [by apply elem_of_nil in Hw|done].
Qed.

End link.

(** ** A run over a bad network

    Two payloads are written and sent, the second arrives first and twice,
    the first one is retransmitted; the acknowledgement empties the window. *)

Section run.

Definition run_f (i : Z) : list Z := [i; i + 1].

Definition run_env : SendEnv :=
  {| se_conversation := 9; se_congestion := false; se_inFlight := 8 |}.

Definition run_flush (current : Z) (l : link) : link :=
  let r := sk_Flush run_env false current 100 (fst (k_sender l)) in
  mkLink (fst (fst r), snd (k_sender l)) (k_receiver l) (k_data l ++ snd (fst r)) (k_acks l)
    (k_nexts l) (k_log l).

Definition run_write (l : link) : link :=
  mkLink (send_run (OpPush (run_f (sk_nextNumber (fst (k_sender l))))) (k_sender l)) (k_receiver l)
    (k_data l) (k_acks l) (k_nexts l) (k_log l).

Definition run_data (k : nat) (l : link) : link :=
  mkLink (k_sender l) (rk_ProcessSegment (nth k (k_data l) NewDataSegment) (k_receiver l))
    (k_data l) (k_acks l) (k_nexts l) (k_log l).

Definition run_ack_flush (l : link) : link :=
  let r := rk_Flush 9 false 500 100 (k_receiver l) in
  mkLink (k_sender l) (fst r) (k_data l) (k_acks l ++ snd r) (k_nexts l) (k_log l).

Definition run_ack (l : link) : link :=
  mkLink (sk_ProcessSegment 600 (nth 0 (k_acks l) NewAckSegment) 100 (k_sender l)) (k_receiver l)
    (k_data l) (k_acks l) (k_nexts l) (k_log l).

Lemma run_flush_step ct l : lstep run_f l (run_flush ct l).
Proof.
  destruct l as [s r d a n g]. unfold run_flush. cbn.
  destruct (sk_Flush _ _ _ _ _) as [[w out] ping] eqn:E. by eapply lstep_flush.
Qed.

Lemma run_data_step k l : (k < length (k_data l))%nat -> lstep run_f l (run_data k l).
Proof.
  destruct l as [s r d a n g]. unfold run_data. cbn. intros Hk. apply lstep_data.
  by apply list_elem_of_In, nth_In.
Qed.

Definition run0 : link := link0 16 64 8 (mkRoundTripInfo 0 0 100 50 0).
Definition run3 : link := run_flush 100 (run_write (run_write run0)).
Definition run7 : link := run_data 2 (run_flush 400 (run_data 1 (run_data 1 run3))).
Definition run9 : link := run_ack (run_ack_flush run7).

Lemma run9_reachable : rtc (lstep run_f) run0 run9.
Proof.
  apply (rtc_l _ _ (run_write run0)); [by apply lstep_write|].
  apply (rtc_l _ _ (run_write (run_write run0))); [by apply lstep_write|].
  apply (rtc_l _ _ run3); [apply run_flush_step|].
  apply (rtc_l _ _ (run_data 1 run3)); [apply run_data_step; vm_compute; lia|].
  apply (rtc_l _ _ (run_data 1 (run_data 1 run3))); [apply run_data_step; vm_compute; lia|].
  apply (rtc_l _ _ (run_flush 400 (run_data 1 (run_data 1 run3)))); [apply run_flush_step|].
  apply (rtc_l _ _ run7); [apply run_data_step; vm_compute; lia|].
  apply (rtc_l _ _ (run_ack_flush run7)).
  - unfold run_ack_flush. destruct run7 as [s r d a n g]. cbn.
    destruct (rk_Flush _ _ _ _ _) as [r' segs] eqn:E. by eapply lstep_ack_flush.
  - apply rtc_once. unfold run9, run_ack. remember (run_ack_flush run7) as l eqn:E.
    assert (Hl : (0 < length (k_acks l))%nat) by (rewrite E; vm_compute; lia). clear E.
    destruct l as [s r d a n g]. cbn. apply lstep_ack. by apply list_elem_of_In, nth_In.
Qed.

Lemma reliable_delivery_witness :
  sw_IsEmpty (sk_window (fst (k_sender run9))) = true /\
  concat (snd (rk_ReadMultiBuffer (k_receiver run9))) = [0; 1; 1; 2].
Proof.
  destruct (reliable_delivery run_f 16 64 8 ltac:(lia) (mkRoundTripInfo 0 0 100 50 0) run9
    run9_reachable) as (_ & _ & _ & H).
  assert (He : sw_IsEmpty (sk_window (fst (k_sender run9))) = true) by (vm_compute; reflexivity).
  assert (Hlo : rk_leftOver (k_receiver run9) = None) by (vm_compute; reflexivity).
  assert (Hlog : k_log run9 = []) by (vm_compute; reflexivity).
  split; [exact He|]. specialize (H He Hlo). rewrite Hlog, app_nil_l in H.
  rewrite H. vm_compute. reflexivity.
Defined.

End run.
