(* ===== verification/KcpServer.v ===== *)
(** * The mKCP server's sessions (src/transport/v2raykcp/listener.go)

    Datagrams of one socket are dispatched to connections by the sender's
    address and the conversation of their first segment. *)

From S2P Require Import Prelude Buffers KcpSegment KcpCrypt KcpPacket KcpSending KcpConnection.

(** [ConnectionID]: remote address, port, conversation. *)
Definition ConnectionID : Type := string * Z * Z.

(** The server's settings, its sessions, and the connections it has handed to
    its handler, oldest first. *)
Record Server := mkServer {
  sv_config : Config;
  sv_tls : bool;
  sv_security : option AEAD;
  sv_headerSize : Z;
  sv_sessions : gmap ConnectionID Connection;
  sv_accepted : list ConnectionID
}.

Definition with_sessions (m : gmap ConnectionID Connection) (s : Server) : Server :=
  mkServer (sv_config s) (sv_tls s) (sv_security s) (sv_headerSize s) m (sv_accepted s).

Definition accept (id : ConnectionID) (s : Server) : Server :=
  mkServer (sv_config s) (sv_tls s) (sv_security s) (sv_headerSize s) (sv_sessions s)
    (sv_accepted s ++ [id]).

(** [NewServer]; the AES-GCM constructor is a parameter of [GetSecurity]. *)
Definition NewServer (NewAEADAESGCMBasedOnSeed : string -> AEAD) (options : V2RayKCPOptions)
    (tls : bool) : Server :=
  let config := NewConfig options in
  mkServer config tls (Some (GetSecurity NewAEADAESGCMBasedOnSeed config))
    (HeaderSize (GetHeaderType config)) ∅ [].

Section server.
Context {B : BufferLib}.

(** The body of [handlePacket] for a UDP sender, up to the TLS handshake where
    one is configured: [clock] is the connection's clock and [random] what
    the packet header draws. *)
Definition handlePacket (clock : nat -> Z) (random : Z) (data : list Z)
    (remoteAddr : option (string * Z)) (s : Server) : res Server :=
  segments ← kcpPacketReader_Read (sv_security s) (sv_headerSize s) data;
  match segments, remoteAddr with
  | [], _ => Ret s
  | _, None => Ret s
  | firstSeg :: _, Some (remote, port) =>
    let conv := Conversation firstSeg in
    let connID : ConnectionID := (remote, u16 port, conv) in
    match sv_sessions s !! connID with
    | Some conn => Ret (with_sessions (<[connID := Input clock segments conn]> (sv_sessions s)) s)
    | None =>
      if SegCommand firstSeg =? CommandTerminate then Ret s else
      let header := NewPacketHeader (GetHeaderType (sv_config s)) random in
      kcpConn ← NewConnection conv (writer_Overhead header (sv_security s)) (sv_config s);
      let stored := with_sessions (<[connID := kcpConn]> (sv_sessions s)) s in
      if sv_tls s then Ret stored
      else Ret (accept connID
                  (with_sessions (<[connID := Input clock segments kcpConn]> (sv_sessions s)) s))
    end
  end.

(** The rest of [handlePacket] when the handshake of the session has ended. *)
Definition handshake_done (clock : nat -> Z) (ok : bool) (segments : list Segment)
    (connID : ConnectionID) (s : Server) : Server :=
  match sv_sessions s !! connID with
  | None => s
  | Some kcpConn =>
    if ok then
      accept connID (with_sessions (<[connID := Input clock segments kcpConn]> (sv_sessions s)) s)
    else with_sessions (delete connID (sv_sessions s)) s
  end.

(** [Close]: every session is closed. *)
Definition Server_Close (clock : nat -> Z) (s : Server) : Server :=
  with_sessions ((fun c => snd (Close clock c)) <$> sv_sessions s) s.

(** [serverPacketWriter.Close], the closer of a session's connection. *)
Definition serverPacketWriter_Close (connID : ConnectionID) (s : Server) : Server :=
  with_sessions (delete connID (sv_sessions s)) s.

(** ** Dispatch *)

(** A session's connection has the conversation of its identifier. *)
Definition sessions_inv (s : Server) : Prop :=
  map_Forall (fun (id : ConnectionID) c => c_meta c = snd id) (sv_sessions s).

Lemma NewConnection_meta conversation overhead config c :
  NewConnection conversation overhead config = Ret c ->
  c_meta c = conversation /\ c_state c = StateActive.
Proof.
  unfold NewConnection. destruct (GetReceivingInFlightSize _); [|done..].
  destruct (GetSendingInFlightSize _); [|done..]. destruct (GetSendingBufferSize _); [|done..].
  by intros <-%Ret_inj.
Qed.

(** Dispatch.  A datagram changes the session of its sender and of the
    conversation of its first segment, or none; it opens one only with a
    segment that is not a terminate command; every session keeps the
    conversation it was opened for; and what it does to a session is what
    [Input] does, on the connection of that session or on a new one. *)
Theorem handlePacket_dispatch clock random data remoteAddr s s' :
  sessions_inv s -> handlePacket clock random data remoteAddr s = Ret s' ->
  sessions_inv s' /\
  (sv_sessions s' = sv_sessions s \/
   exists remote port seg segs c,
     remoteAddr = Some (remote, port) /\
     kcpPacketReader_Read (sv_security s) (sv_headerSize s) data = Ret (seg :: segs) /\
     let id : ConnectionID := (remote, u16 port, Conversation seg) in
     sv_sessions s' = <[id := c]> (sv_sessions s) /\
     match sv_sessions s !! id with
     | Some old => c = Input clock (seg :: segs) old
     | None => SegCommand seg <> CommandTerminate /\
               exists c0 overhead, NewConnection (Conversation seg) overhead (sv_config s) = Ret c0 /\
               c = if sv_tls s then c0 else Input clock (seg :: segs) c0
     end).
Proof.
  intros Hi. unfold handlePacket.
  destruct (kcpPacketReader_Read _ _ _) as [segments| |] eqn:Er; [|done..].
  change (mbind ?k (Ret segments)) with (k segments). cbv beta.
  destruct segments as [|seg segs]; [intros <-%Ret_inj; by split; [|left]|].
  destruct remoteAddr as [[remote port]|]; [|intros <-%Ret_inj; by split; [|left]].
  set (id := (remote, u16 port, Conversation seg) : ConnectionID). cbv zeta.
  destruct (sv_sessions s !! id) as [old|] eqn:El.
  - intros <-%Ret_inj. split.
    + apply map_Forall_insert_2; [|done].
      rewrite (ev_meta _ _ _ (evolves_Input clock (seg :: segs) old)). by apply (Hi id).
    + right. eexists remote, port, seg, segs, _. split_and!; [done..|]. fold id. by rewrite El.
  - destruct (Z.eqb_spec (SegCommand seg) CommandTerminate); [intros <-%Ret_inj; by split; [|left]|].
    destruct (NewConnection _ _ _) as [c0| |] eqn:En; [|done..].
    change (mbind ?k (Ret c0)) with (k c0). cbv beta zeta.
    destruct (NewConnection_meta _ _ _ _ En) as [Hm _].
    intros H. assert (sv_sessions s' =
        <[id := if sv_tls s then c0 else Input clock (seg :: segs) c0]> (sv_sessions s)) as Hs'
      by (destruct (sv_tls s); by apply Ret_inj in H as <-).
    split.
    + unfold sessions_inv. rewrite Hs'. apply map_Forall_insert_2; [|done].
      destruct (sv_tls s); [done|]. by rewrite (ev_meta _ _ _ (evolves_Input clock (seg :: segs) c0)).
    + right. eexists remote, port, seg, segs, _. split_and!; [done|done|exact Hs'|]. fold id.
      rewrite El. split; [done|]. by eexists c0, _.
Qed.

End server.

(** A ping segment from an unknown sender opens a session. *)
Definition example_server : Server :=
  mkServer example_config false None 0 ∅ [].

Definition example_ping : list Z :=
  CmdOnlySegment_Serialize (mkCmdOnlySegment 7 CommandPing 0 0 0 100).

Lemma handlePacket_dispatch_witness :
  exists s', handlePacket example_clock 0 example_ping (Some ("10.0.0.1"%string, 4000)) example_server
             = Ret s' /\ sessions_inv s' /\ sv_accepted s' = [("10.0.0.1"%string, 4000, 7)].
Proof.
  destruct (handlePacket example_clock 0 example_ping (Some ("10.0.0.1"%string, 4000)) example_server)
    as [s'| |] eqn:E; [|vm_compute in E; done..].
  exists s'. split; [done|]. split.
  - apply (handlePacket_dispatch example_clock 0 example_ping
      (Some ("10.0.0.1"%string, 4000)) example_server s'); [|exact E].
    unfold sessions_inv, example_server. apply map_Forall_empty.
  - vm_compute in E. injection E as <-. reflexivity.
Defined.
