(* ===== verification/Netip.v ===== *)
(** * IP addresses and prefixes

    What the sources use of Go's standard package net/netip: an address is
    the zero value, an IPv4 or an IPv6 number; a prefix is an address and a
    length. *)

From S2P Require Import Prelude.

Inductive Addr :=
| AddrNone
| Addr4 (n : Z)
| Addr6 (n : Z) (zone : string).

#[export] Instance Addr_eq_dec : EqDecision Addr.
Proof. solve_decision. Defined.

#[export] Instance Addr_countable : Countable Addr.
Proof.
  apply (inj_countable'
    (fun a => match a with AddrNone => (0, 0, EmptyString) | Addr4 n => (4, n, EmptyString)
              | Addr6 n z => (6, n, z) end)
    (fun t : Z * Z * string => let '(k, n, z) := t in
       if decide (k = 0) then AddrNone else if decide (k = 4) then Addr4 n else Addr6 n z)).
  by intros [|n|n z].
Defined.

Definition IsValid (a : Addr) : bool := match a with AddrNone => false | _ => true end.
Definition Is4 (a : Addr) : bool := match a with Addr4 _ => true | _ => false end.
Definition Is6 (a : Addr) : bool := match a with Addr6 _ _ => true | _ => false end.

Definition Is4In6 (a : Addr) : bool :=
  match a with Addr6 n _ => Z.shiftr n 32 =? 0xFFFF | _ => false end.

(** [Unmap] removes the IPv4-mapped prefix. *)
Definition Unmap (a : Addr) : Addr :=
  match a with
  | Addr6 n _ => if Z.shiftr n 32 =? 0xFFFF then Addr4 (u32 n) else a
  | _ => a
  end.

Definition hasZone (a : Addr) : bool :=
  match a with Addr6 _ z => negb (bool_decide (z = EmptyString)) | _ => false end.

Definition BitLen (a : Addr) : Z :=
  match a with AddrNone => 0 | Addr4 _ => 32 | Addr6 _ _ => 128 end.

Definition addr_num (a : Addr) : Z :=
  match a with AddrNone => 0 | Addr4 n => n | Addr6 n _ => n end.

(** [Next]: the zero address after the last one. *)
Definition Next (a : Addr) : Addr :=
  match a with
  | AddrNone => AddrNone
  | Addr4 n => if n =? 2 ^ 32 - 1 then AddrNone else Addr4 (n + 1)
  | Addr6 n z => if n =? 2 ^ 128 - 1 then AddrNone else Addr6 (n + 1) z
  end.

(** An address as the package makes it. *)
Definition wf_addr (a : Addr) : Prop :=
  match a with
  | AddrNone => True
  | Addr4 n => 0 <= n < 2 ^ 32
  | Addr6 n _ => 0 <= n < 2 ^ 128
  end.

(** ** Prefixes; a length of -1 is the zero prefix *)

Record Prefix := mkPrefix { p_addr : Addr; p_bits : Z }.

#[export] Instance Prefix_eq_dec : EqDecision Prefix.
Proof. solve_decision. Defined.

Definition NoPrefix : Prefix := mkPrefix AddrNone (-1).

Definition prefix_IsValid (p : Prefix) : bool := 0 <=? p_bits p.

(** Clear the bits after the first [bits] ones of a [len]-bit number. *)
Definition mask_num (len bits n : Z) : Z := Z.shiftl (Z.shiftr n (len - bits)) (len - bits).

Definition addr_mask (bits : Z) (a : Addr) : Addr :=
  match a with
  | AddrNone => AddrNone
  | Addr4 n => Addr4 (mask_num 32 bits n)
  | Addr6 n _ => Addr6 (mask_num 128 bits n) EmptyString
  end.

(** [Masked]: the prefix with its host bits cleared. *)
Definition Masked (p : Prefix) : Prefix := mkPrefix (addr_mask (p_bits p) (p_addr p)) (p_bits p).

Definition prefix_Contains (p : Prefix) (ip : Addr) : bool :=
  if negb (prefix_IsValid p) || hasZone ip then false
  else if (BitLen (p_addr p) =? 0) || (BitLen ip =? 0) || negb (BitLen (p_addr p) =? BitLen ip)
  then false
  else Z.shiftr (Z.lxor (addr_num ip) (addr_num (p_addr p))) (BitLen ip - p_bits p) =? 0.

Definition prefix_Overlaps (p o : Prefix) : bool :=
  if negb (prefix_IsValid p) || negb (prefix_IsValid o) then false
  else if bool_decide (p = o) then true
  else if negb (Bool.eqb (Is4 (p_addr p)) (Is4 (p_addr o))) then false
  else
    let minBits := if p_bits p <? p_bits o then p_bits p else p_bits o in
    if minBits =? 0 then true
    else bool_decide (addr_mask minBits (p_addr p) = addr_mask minBits (p_addr o)).

Definition withoutZone (a : Addr) : Addr :=
  match a with Addr6 n _ => Addr6 n EmptyString | _ => a end.

Definition PrefixFrom (ip : Addr) (bits : Z) : Prefix :=
  mkPrefix (withoutZone ip)
    (if IsValid ip && (0 <=? bits) && (bits <=? BitLen ip) then bits else -1).

(** [AsSlice]: the bytes of an address, without its zone. *)
Definition AsSlice (a : Addr) : list Z :=
  match a with AddrNone => [] | Addr4 n => put_be 4 n | Addr6 n _ => put_be 16 n end.

(** [AddrFromSlice]; the zero address for other lengths. *)
Definition AddrFromSlice (b : list Z) : Addr :=
  if zlen b =? 4 then Addr4 (get_be b)
  else if zlen b =? 16 then Addr6 (get_be b) EmptyString
  else AddrNone.

Lemma AddrFromSlice_AsSlice a : wf_addr a -> hasZone a = false -> AddrFromSlice (AsSlice a) = a.
Proof.
  unfold AddrFromSlice. destruct a as [|n|n z]; cbn [AsSlice wf_addr]; intros Hw Hz; [done|..];
    rewrite zlen_put_be; cbn [Z.eqb Pos.eqb Z.of_nat Pos.of_succ_nat Pos.succ]; rewrite get_put_be, Z.mod_small by done.
  - done.
  - by apply negb_false_iff, bool_decide_eq_true in Hz as ->.
Qed.

Definition wf_prefix (p : Prefix) : Prop :=
  wf_addr (p_addr p) /\ hasZone (p_addr p) = false /\
  0 < BitLen (p_addr p) /\ 0 <= p_bits p <= BitLen (p_addr p).

(** Two numbers agree after a right shift when their quotients do. *)
Lemma shiftr_lxor_0 n m k :
  0 <= k -> (Z.shiftr (Z.lxor n m) k =? 0) = true <-> n / 2 ^ k = m / 2 ^ k.
Proof.
  intros Hk. rewrite Z.eqb_eq, Z.shiftr_lxor, !Z.shiftr_div_pow2 by done.
  apply Z.lxor_eq_0_iff.
Qed.

(** Containment compares the network parts. *)
Lemma prefix_Contains_iff p ip :
  wf_prefix p ->
  prefix_Contains p ip = true <->
  hasZone ip = false /\ BitLen ip = BitLen (p_addr p) /\
  addr_num ip / 2 ^ (BitLen ip - p_bits p) = addr_num (p_addr p) / 2 ^ (BitLen ip - p_bits p).
Proof.
  intros (Hw & Hz & Hl & Hb). unfold prefix_Contains, prefix_IsValid.
  rewrite (proj2 (Z.leb_le 0 _)) by lia. cbn [negb orb].
  destruct (hasZone ip); [split; [done|by intros [? _]]|].
  rewrite (proj2 (Z.eqb_neq (BitLen (p_addr p)) 0)) by lia. cbn [orb].
  destruct (Z.eqb_spec (BitLen (p_addr p)) (BitLen ip)) as [E|E]; cbn [negb].
  - rewrite (proj2 (Z.eqb_neq (BitLen ip) 0)) by lia. cbn [orb].
    rewrite shiftr_lxor_0 by lia. split; [done|by intros (_ & _ & ?)].
  - rewrite orb_true_r. split; [done|]. intros (_ & ? & _). congruence.
Qed.
