(* ===== verification/Mac.v ===== *)
(** * Hardware addresses (src/adapter/network.go)

    What the sources use of Go's net.ParseMAC, net.HardwareAddr.String and
    hex.DecodeString, and the normalisation of BSSIDs built from them. *)

From S2P Require Import Prelude.

Abbreviation chars := (list Ascii.ascii).

Definition hex_val (c : Ascii.ascii) : option Z :=
  let n := Z.of_nat (Ascii.nat_of_ascii c) in
  if (48 <=? n) && (n <=? 57) then Some (n - 48)
  else if (97 <=? n) && (n <=? 102) then Some (n - 87)
  else if (65 <=? n) && (n <=? 70) then Some (n - 55)
  else None.

(** A digit of ["0123456789abcdef"]. *)
Definition hex_digit (d : Z) : Ascii.ascii :=
  Ascii.ascii_of_nat (Z.to_nat (if d <? 10 then 48 + d else 87 + d)).

(** Two hexadecimal digits. *)
Definition octet (a b : Ascii.ascii) : option Z :=
  x ← hex_val a; y ← hex_val b; Some (16 * x + y).

(** Octets of two digits with a separator between them. *)
Fixpoint parse_octets (sep : Ascii.ascii) (s : chars) : option (list Z) :=
  match s with
  | a :: b :: s =>
    o ← octet a b;
    match s with
    | [] => Some [o]
    | c :: s => if decide (c = sep) then l ← parse_octets sep s; Some (o :: l) else None
    end
  | _ => None
  end.

(** Pairs of octets with a dot between the pairs. *)
Fixpoint parse_pairs (s : chars) : option (list Z) :=
  match s with
  | a :: b :: a' :: b' :: s =>
    o ← octet a b; o' ← octet a' b';
    match s with
    | [] => Some [o; o']
    | c :: s => if decide (c = "."%char) then l ← parse_pairs s; Some (o :: o' :: l) else None
    end
  | _ => None
  end.

Definition mac_length (n : Z) : bool := (n =? 6) || (n =? 8) || (n =? 20).

(** [net.ParseMAC]; [None] on an error. *)
Definition ParseMAC (s : chars) : option (list Z) :=
  let len := Z.of_nat (length s) in
  if len <? 14 then None
  else if bool_decide (s !! 2%nat = Some ":"%char) || bool_decide (s !! 2%nat = Some "-"%char) then
    if negb ((len + 1) mod 3 =? 0) || negb (mac_length ((len + 1) / 3)) then None
    else sep ← s !! 2%nat; parse_octets sep s
  else if bool_decide (s !! 4%nat = Some "."%char) then
    if negb ((len + 1) mod 5 =? 0) || negb (mac_length (2 * (len + 1) / 5)) then None
    else parse_pairs s
  else None.

Definition octet_digits (b : Z) : chars := [hex_digit (Z.shiftr b 4); hex_digit (Z.land b 15)].

(** [HardwareAddr.String]. *)
Fixpoint mac_String (a : list Z) : chars :=
  match a with
  | [] => []
  | [b] => octet_digits b
  | b :: a => octet_digits b ++ ":"%char :: mac_String a
  end.

(** [hex.DecodeString]. *)
Fixpoint DecodeString (s : chars) : option (list Z) :=
  match s with
  | [] => Some []
  | a :: b :: s => o ← octet a b; l ← DecodeString s; Some (o :: l)
  | _ => None
  end.

Definition is_byte (b : Z) : Prop := 0 <= b < 256.

(** ** Lemmas *)

Lemma hex_val_range c x : hex_val c = Some x -> 0 <= x < 16.
Proof.
  unfold hex_val. set (n := Z.of_nat _). clearbody n.
  repeat case_match; intros [= <-]; rewrite andb_true_iff, !Z.leb_le in *; lia.
Qed.

Lemma octet_byte a b o : octet a b = Some o -> is_byte o.
Proof.
  unfold octet, is_byte. destruct (hex_val a) as [x|] eqn:Ea; [|done].
  destruct (hex_val b) as [y|] eqn:Eb; [|done]. intros [= <-].
  apply hex_val_range in Ea, Eb. lia.
Qed.

(** A way to write hexadecimal digits, in upper or lower case or mixed. *)
Definition writes_hex (digit : Z -> Ascii.ascii) : Prop :=
  forall d, 0 <= d < 16 -> hex_val (digit d) = Some d.

(** Sixteen cases decide it. *)
Lemma writes_hex_check digit :
  forallb (fun d => bool_decide (hex_val (digit d) = Some d)) (map Z.of_nat (seq 0 16)) = true ->
  writes_hex digit.
Proof.
  intros F d Hd. rewrite forallb_forall in F. eapply bool_decide_eq_true_1, F.
  apply in_map_iff. exists (Z.to_nat d). split; [lia|]. apply in_seq. lia.
Qed.

Lemma hex_digit_writes : writes_hex hex_digit.
Proof. by apply writes_hex_check. Qed.

Lemma byte_parts b : is_byte b -> 0 <= b / 16 < 16 /\ 0 <= b mod 16 < 16 /\ 16 * (b / 16) + b mod 16 = b.
Proof.
  intros Hb. unfold is_byte in Hb. pose proof (Z.mod_pos_bound b 16 ltac:(lia)).
  pose proof (Z.div_mod b 16 ltac:(lia)).
  pose proof (Z.div_lt_upper_bound b 16 16 ltac:(lia) ltac:(lia)).
  pose proof (Z.div_pos b 16 ltac:(lia) ltac:(lia)). lia.
Qed.

Lemma octet_written digit b :
  writes_hex digit -> is_byte b -> octet (digit (b / 16)) (digit (b mod 16)) = Some b.
Proof.
  intros Hw (H1 & H2 & H3)%byte_parts. unfold octet. rewrite !Hw by lia. cbn. by rewrite H3.
Qed.

Lemma octet_digits_eq b : octet_digits b = [hex_digit (b / 16); hex_digit (b mod 16)].
Proof.
  unfold octet_digits. rewrite Z.shiftr_div_pow2 by lia. change 15 with (Z.ones 4).
  by rewrite Z.land_ones by lia.
Qed.

(** An address written with a separator after every [k] octets, as access
    points and operating systems print them. *)
Definition write_octet (digit : Z -> Ascii.ascii) (b : Z) : chars :=
  [digit (b / 16); digit (b mod 16)].

Fixpoint write_octets (digit : Z -> Ascii.ascii) (sep : Ascii.ascii) (a : list Z) : chars :=
  match a with
  | [] => []
  | [b] => write_octet digit b
  | b :: a => write_octet digit b ++ sep :: write_octets digit sep a
  end.

Fixpoint write_pairs (digit : Z -> Ascii.ascii) (a : list Z) : chars :=
  match a with
  | [b; b'] => write_octet digit b ++ write_octet digit b'
  | b :: b' :: a => write_octet digit b ++ write_octet digit b' ++ "."%char :: write_pairs digit a
  | _ => []
  end.

Lemma mac_String_written a : mac_String a = write_octets hex_digit ":" a.
Proof.
  induction a as [|b [|b' a] IH]; [done|apply octet_digits_eq|].
  change (octet_digits b ++ ":"%char :: mac_String (b' :: a) =
    write_octet hex_digit b ++ ":"%char :: write_octets hex_digit ":" (b' :: a)).
  by rewrite octet_digits_eq, IH.
Qed.

(** No digit is a separator. *)
Lemma digit_not_sep digit d c :
  writes_hex digit -> 0 <= d < 16 -> hex_val c = None -> digit d <> c.
Proof. intros Hw Hd Hc E. rewrite <-E, Hw in Hc; done. Qed.

Section writings.
Variables (digit : Z -> Ascii.ascii) (b1 b2 b3 b4 b5 b6 : Z).
Hypothesis Hdigit : writes_hex digit.
Hypothesis Hbytes : Forall is_byte [b1; b2; b3; b4; b5; b6].

Lemma ParseMAC_octets sep :
  sep = ":"%char \/ sep = "-"%char ->
  ParseMAC (write_octets digit sep [b1; b2; b3; b4; b5; b6]) = Some [b1; b2; b3; b4; b5; b6].
Proof.
  intros Hs. rewrite !Forall_cons in Hbytes. destruct_and! Hbytes.
  unfold ParseMAC. cbn.
  destruct Hs as [-> | ->]; cbn; by rewrite !octet_written.
Qed.

Lemma ParseMAC_pairs :
  ParseMAC (write_pairs digit [b1; b2; b3; b4; b5; b6]) = Some [b1; b2; b3; b4; b5; b6].
Proof.
  rewrite !Forall_cons in Hbytes. destruct_and! Hbytes.
  assert (Hb2 : 0 <= b2 / 16 < 16) by (by apply byte_parts).
  unfold ParseMAC. cbn.
  rewrite !bool_decide_eq_false_2 by (intros [=E]; revert E; by apply digit_not_sep).
  cbn. by rewrite !octet_written.
Qed.

Lemma DecodeString_written :
  DecodeString (concat (map (write_octet digit) [b1; b2; b3; b4; b5; b6])) =
  Some [b1; b2; b3; b4; b5; b6].
Proof.
  rewrite !Forall_cons in Hbytes. destruct_and! Hbytes. cbn. by rewrite !octet_written.
Qed.

End writings.

(** ** BSSIDs *)

(** [strings.TrimSpace], by Unicode's tables. *)
Class TrimLib := { TrimSpace : chars -> chars }.

(** Trimming is idempotent and leaves text alone that begins and ends with
    hexadecimal digits. *)
Class TrimLaws (T : TrimLib) : Prop := {
  trim_trim s : TrimSpace (TrimSpace s) = TrimSpace s;
  trim_hex a s b :
    hex_val a <> None -> hex_val b <> None -> TrimSpace (a :: s ++ [b]) = a :: s ++ [b]
}.

Section bssid.
Context {T : TrimLib}.

Definition NormalizeWIFIBSSID (bssid : chars) : chars :=
  let bssid := TrimSpace bssid in
  match bssid with
  | [] => []
  | _ =>
    let by_hex :=
      if (length bssid =? 12)%nat then
        match DecodeString bssid with Some decoded => mac_String decoded | None => bssid end
      else bssid in
    match ParseMAC bssid with
    | Some parsed => if (length parsed =? 6)%nat then mac_String parsed else by_hex
    | None => by_hex
    end
  end.

Context {TL : TrimLaws T}.

Lemma DecodeString_bytes s l :
  DecodeString s = Some l -> Forall is_byte l /\ length s = (2 * length l)%nat.
Proof.
  revert l. induction s as [s IH] using (induction_ltof1 _ (@length _)). intros l.
  destruct s as [|a [|b s]]; cbn [DecodeString]; [by intros [= <-]|done|].
  destruct (octet a b) as [o|] eqn:Eo; [|done]. destruct (DecodeString s) as [l'|] eqn:El; [|done].
  intros [= <-]. apply IH in El as [Hl Hn]; [|unfold ltof; cbn; lia].
  split; [constructor; [by eapply octet_byte|done]|cbn; lia].
Qed.

Lemma parse_octets_bytes sep s l : parse_octets sep s = Some l -> Forall is_byte l.
Proof.
  revert l. induction s as [s IH] using (induction_ltof1 _ (@length _)). intros l.
  destruct s as [|a [|b [|c s]]]; cbn [parse_octets]; [done|done|..];
    destruct (octet a b) as [o|] eqn:Eo; try done; apply octet_byte in Eo.
  - intros [= <-]. by apply Forall_singleton.
  - cbn. destruct (decide _); [|done]. destruct (parse_octets sep s) as [l'|] eqn:El; [|done].
    intros [= <-]. constructor; [done|]. apply IH in El; [done|]. unfold ltof. cbn. lia.
Qed.

Lemma parse_pairs_bytes s l : parse_pairs s = Some l -> Forall is_byte l.
Proof.
  revert l. induction s as [s IH] using (induction_ltof1 _ (@length _)). intros l.
  destruct s as [|a [|b [|a' [|b' [|c s]]]]]; cbn [parse_pairs]; [done|done|done|done|..];
    destruct (octet a b) as [o|] eqn:Eo; try done; destruct (octet a' b') as [o'|] eqn:Eo'; try done;
    apply octet_byte in Eo, Eo'.
  - intros [= <-]. by rewrite Forall_cons, Forall_singleton.
  - cbn. destruct (decide _); [|done]. destruct (parse_pairs s) as [l'|] eqn:El; [|done].
    intros [= <-]. constructor; [done|]. constructor; [done|].
    apply IH in El; [done|]. unfold ltof. cbn. lia.
Qed.

Lemma ParseMAC_bytes s l : ParseMAC s = Some l -> Forall is_byte l.
Proof.
  unfold ParseMAC. repeat case_match; try done.
  - destruct (s !! 2%nat) as [sep|]; [|done]. apply parse_octets_bytes.
  - apply parse_pairs_bytes.
Qed.

(** The canonical form of six octets is its own normal form. *)
Lemma Normalize_canonical a :
  Forall is_byte a -> length a = 6%nat -> NormalizeWIFIBSSID (mac_String a) = mac_String a.
Proof.
  destruct a as [|b1 [|b2 [|b3 [|b4 [|b5 [|b6 [|]]]]]]]; try done. intros Hb _.
  assert (Ht : TrimSpace (mac_String [b1; b2; b3; b4; b5; b6]) = mac_String [b1; b2; b3; b4; b5; b6]).
  { pose proof Hb as Hb'. rewrite !Forall_cons in Hb'. destruct_and! Hb'. rewrite mac_String_written.
    apply (trim_hex _ (_ :: _ :: _ :: _ :: _ :: _ :: _ :: _ :: _ :: _ :: _ :: _ :: _ :: _ :: [_]));
      by rewrite hex_digit_writes by (by apply byte_parts). }
  assert (Hp : ParseMAC (mac_String [b1; b2; b3; b4; b5; b6]) = Some [b1; b2; b3; b4; b5; b6]).
  { rewrite mac_String_written. apply ParseMAC_octets; [apply hex_digit_writes|done|by left]. }
  unfold NormalizeWIFIBSSID. by rewrite Ht, Hp.
Qed.

(** The result is a canonical address or the trimmed text. *)
Lemma Normalize_cases s :
  (exists a, Forall is_byte a /\ length a = 6%nat /\ NormalizeWIFIBSSID s = mac_String a) \/
  NormalizeWIFIBSSID s = TrimSpace s.
Proof.
  unfold NormalizeWIFIBSSID. destruct (TrimSpace s) as [|c t] eqn:Et; [by right|].
  set (t' := c :: t). set (by_hex := if (length t' =? 12)%nat then _ else t').
  assert (Hh : (exists a, Forall is_byte a /\ length a = 6%nat /\ by_hex = mac_String a) \/
    by_hex = t').
  { subst by_hex. destruct (Nat.eqb_spec (length t') 12) as [El|]; [|by right].
    destruct (DecodeString t') as [a|] eqn:Ed; [|by right]. left. exists a.
    apply DecodeString_bytes in Ed as [Ha Hl]. split; [done|]. split; [lia|done]. }
  destruct (ParseMAC t') as [a|] eqn:Ep; [|done].
  destruct (Nat.eqb_spec (length a) 6) as [El|]; [|done].
  left. exists a. split; [by eapply ParseMAC_bytes|done].
Qed.

Lemma Normalize_idempotent s : NormalizeWIFIBSSID (NormalizeWIFIBSSID s) = NormalizeWIFIBSSID s.
Proof.
  destruct (Normalize_cases s) as [(a & Ha & Hl & ->)|E]; [by apply Normalize_canonical|].
  rewrite E at 1. unfold NormalizeWIFIBSSID. by rewrite trim_trim.
Qed.

(** The ways to write six octets. *)
Definition writings (digit : Z -> Ascii.ascii) (a : list Z) : list chars :=
  [write_octets digit ":" a; write_octets digit "-" a; write_pairs digit a;
   concat (map (write_octet digit) a)].

(** BSSIDs compare by address.  Whatever notation (colons, dashes, dotted
    pairs or bare digits, in either case, with spaces around) a BSSID is
    written in, its normal form is the canonical one of its six octets, and
    normalising twice changes nothing. *)
Theorem NormalizeWIFIBSSID_canonical digit a s :
  writes_hex digit -> Forall is_byte a -> length a = 6%nat -> TrimSpace s ∈ writings digit a ->
  NormalizeWIFIBSSID s = mac_String a /\
  NormalizeWIFIBSSID (NormalizeWIFIBSSID s) = NormalizeWIFIBSSID s.
Proof.
  intros Hd Hb Hl Hs. split; [|apply Normalize_idempotent].
  destruct a as [|b1 [|b2 [|b3 [|b4 [|b5 [|b6 [|]]]]]]]; try done. clear Hl.
  unfold NormalizeWIFIBSSID, writings in *. rewrite !elem_of_cons in Hs.
  destruct Hs as [-> |[-> |[-> |[-> |[]%not_elem_of_nil]]]].
  - rewrite ParseMAC_octets by auto. done.
  - rewrite ParseMAC_octets by auto. done.
  - rewrite ParseMAC_pairs by auto. done.
  - rewrite DecodeString_written by auto. done.
Qed.

End bssid.

(** ** Witness *)

(** Trimming of ASCII spaces. *)
Fixpoint trim_left (s : chars) : chars :=
  match s with
  | c :: s' => if decide (c = " "%char) then trim_left s' else s
  | [] => []
  end.

Definition ascii_trim : TrimLib := {| TrimSpace s := reverse (trim_left (reverse (trim_left s))) |}.

Definition upper_digit (d : Z) : Ascii.ascii :=
  Ascii.ascii_of_nat (Z.to_nat (if d <? 10 then 48 + d else 55 + d)).

Lemma ascii_trim_laws : TrimLaws ascii_trim.
Proof.
  assert (Hl : forall s, trim_left (trim_left s) = trim_left s).
  { induction s as [|c s IH]; [done|]. cbn. destruct (decide _) as [|E]; [done|].
    cbn. by rewrite decide_False. }
  assert (Hh : forall a s, hex_val a <> None -> trim_left (a :: s) = a :: s).
  { intros a s Ha. cbn. rewrite decide_False; [done|]. by intros ->. }
  assert (Hk : forall s, trim_left s = s -> trim_left (reverse (trim_left (reverse s))) =
    reverse (trim_left (reverse s))).
  { intros s Hs. destruct (reverse (trim_left (reverse s))) as [|c t] eqn:E; [done|].
    assert (Hs' : exists u, s = (c :: t) ++ u).
    { assert (Hsuf : forall l, exists u, l = u ++ trim_left l).
      { induction l as [|x l [u IH]]; [by exists []|]. cbn. destruct (decide _).
        - exists (x :: u). cbn. by rewrite <-IH.
        - by exists []. }
      destruct (Hsuf (reverse s)) as [u Hu]. exists (reverse u).
      rewrite <-E, <-reverse_app, <-Hu. by rewrite reverse_involutive. }
    destruct Hs' as [u ->]. cbn in Hs |- *. destruct (decide _) as [->|]; [|done].
    exfalso. assert (Hle : forall l, (length (trim_left l) <= length l)%nat).
    { induction l as [|x l IH]; [done|]. cbn. destruct (decide _); cbn; lia. }
    pose proof (Hle (t ++ u)) as Hn. rewrite Hs in Hn. cbn in Hn. lia. }
  split.
  - intros s. cbn [TrimSpace ascii_trim]. rewrite (Hk (trim_left s)) by apply Hl. by rewrite reverse_involutive, Hl.
  - intros a s b Ha Hb. cbn [TrimSpace ascii_trim]. rewrite Hh by done.
    rewrite app_comm_cons, reverse_snoc, Hh by done.
    by rewrite reverse_cons, reverse_involutive.
Qed.

Lemma NormalizeWIFIBSSID_canonical_witness :
  NormalizeWIFIBSSID (T := ascii_trim) (String.list_ascii_of_string " 00-1A-2B-3C-4D-5E ") =
    String.list_ascii_of_string "00:1a:2b:3c:4d:5e" /\
  NormalizeWIFIBSSID (T := ascii_trim)
    (NormalizeWIFIBSSID (T := ascii_trim) (String.list_ascii_of_string " 00-1A-2B-3C-4D-5E ")) =
  NormalizeWIFIBSSID (T := ascii_trim) (String.list_ascii_of_string " 00-1A-2B-3C-4D-5E ").
Proof.
  apply (@NormalizeWIFIBSSID_canonical ascii_trim ascii_trim_laws upper_digit
    [0; 0x1a; 0x2b; 0x3c; 0x4d; 0x5e]).
  - by apply writes_hex_check.
  - unfold is_byte. repeat (constructor; [lia|]). constructor.
  - reflexivity.
  - apply elem_of_cons. right. apply elem_of_cons. left. reflexivity.
Defined.
