(* ===== verification/RuleItems.v ===== *)
(** * Route and DNS rule items (src/route/rule/rule_item_*.go,
    src/adapter/inbound.go)

    The metadata a rule looks at and the conditions it is made of.  Compiled
    regular expressions, IP sets, domain matchers and the routes an outbound
    or DNS server prefers are values of other packages, used through one
    test each: they appear as the predicate they compute. *)

From S2P Require Import Prelude Netip Mac.

(** ** What the items use of other code *)

Class RuleLib := {
  (** [strings.ToLower] and [strings.EqualFold], by Unicode's tables *)
  ToLower : string -> string;
  EqualFold : string -> string -> bool;
  (** of github.com/sagernet/sing and github.com/miekg/dns *)
  IsPublicAddr : Addr -> bool;
  AddrFromIP : list Z -> Addr;
  CanonicalName : string -> string
}.

(** ** The context of a connection or query *)

(** [M.Socksaddr]. *)
Record Socksaddr := mkSocksaddr { s_Addr : Addr; s_Port : Z; s_Fqdn : string }.

Definition IsIP (s : Socksaddr) : bool := IsValid (s_Addr s).
Definition IsIPv6 (s : Socksaddr) : bool := Is6 (s_Addr s).

(** [ConnectionOwner]. *)
Record ConnectionOwner := mkOwner {
  o_UserId : Z;
  o_UserName : string;
  o_ProcessPath : string;
  o_AndroidPackageNames : list string
}.

(** The answers [DNSResponseAddresses] looks at; an HTTPS record carries
    address hints, [true] for IPv4 ones. *)
Inductive RR :=
| RR_A (ip : list Z)
| RR_AAAA (ip : list Z)
| RR_HTTPS (hints : list (bool * list (list Z)))
| RR_other (data : list Z).

Record Msg := mkMsg { Rcode : Z; Answer : list RR; Ns : list RR; Extra : list RR }.

Record InboundContext := mkContext {
  Inbound : string;
  IPVersion : Z;
  Network : string;
  Source : Socksaddr;
  Destination : Socksaddr;
  User : string;
  Outbound : string;
  Protocol : string;
  Domain : string;
  Client : string;
  DestinationAddresses : list Addr;
  DNSResponse : option Msg;
  NamedDNSResponses : gmap string Msg;
  DestinationAddressMatchFromResponse : bool;
  ProcessInfo : option ConnectionOwner;
  SourceMACAddress : option (list Z);
  SourceHostname : string;
  QueryType : Z;
  QueryClientSubnet : Prefix;
  QueryDNSSEC : bool;
  IPCIDRMatchSource : bool;
  IPCIDRAcceptEmpty : bool;
  DeferredIPCIDRMatchGroups : Z;
  IgnoreDestinationIPCIDRMatch : bool
}.

(** The context with other rule flags, as [ResetRuleCache],
    [ResetRuleMatchCache] and the rule sets set them. *)
Definition with_rule_cache (matchSource acceptEmpty : bool) (deferred : Z) (c : InboundContext)
    : InboundContext :=
  mkContext (Inbound c) (IPVersion c) (Network c) (Source c) (Destination c) (User c) (Outbound c)
    (Protocol c) (Domain c) (Client c) (DestinationAddresses c) (DNSResponse c)
    (NamedDNSResponses c) (DestinationAddressMatchFromResponse c) (ProcessInfo c)
    (SourceMACAddress c) (SourceHostname c) (QueryType c) (QueryClientSubnet c) (QueryDNSSEC c)
    matchSource acceptEmpty deferred (IgnoreDestinationIPCIDRMatch c).

Definition ResetRuleMatchCache (c : InboundContext) : InboundContext :=
  with_rule_cache (IPCIDRMatchSource c) (IPCIDRAcceptEmpty c) 0 c.

Definition ResetRuleCache (c : InboundContext) : InboundContext := with_rule_cache false false 0 c.

Definition with_deferred (d : Z) (c : InboundContext) : InboundContext :=
  with_rule_cache (IPCIDRMatchSource c) (IPCIDRAcceptEmpty c) d c.

(** The context with a DNS response to match addresses from. *)
Definition with_response (r : option Msg) (c : InboundContext) : InboundContext :=
  mkContext (Inbound c) (IPVersion c) (Network c) (Source c) (Destination c) (User c) (Outbound c)
    (Protocol c) (Domain c) (Client c) (DestinationAddresses c) r
    (NamedDNSResponses c) true (ProcessInfo c)
    (SourceMACAddress c) (SourceHostname c) (QueryType c) (QueryClientSubnet c) (QueryDNSSEC c)
    (IPCIDRMatchSource c) (IPCIDRAcceptEmpty c) (DeferredIPCIDRMatchGroups c)
    (IgnoreDestinationIPCIDRMatch c).

Definition with_ignore (b : bool) (c : InboundContext) : InboundContext :=
  mkContext (Inbound c) (IPVersion c) (Network c) (Source c) (Destination c) (User c) (Outbound c)
    (Protocol c) (Domain c) (Client c) (DestinationAddresses c) (DNSResponse c)
    (NamedDNSResponses c) (DestinationAddressMatchFromResponse c) (ProcessInfo c)
    (SourceMACAddress c) (SourceHostname c) (QueryType c) (QueryClientSubnet c) (QueryDNSSEC c)
    (IPCIDRMatchSource c) (IPCIDRAcceptEmpty c) (DeferredIPCIDRMatchGroups c) b.

(** What the items read of the network manager and the Clash API server. *)
Record NetworkInterface := mkInterface {
  i_Name : string;
  i_Type : Z;
  i_Addresses : list Prefix;
  i_Expensive : bool;
  i_Constrained : bool
}.

Record Environment := mkEnvironment {
  DefaultNetworkInterface : option NetworkInterface;
  NetworkInterfaces : list NetworkInterface;
  MyInterfaces : list string;
  FinderInterfaces : list (string * list Prefix);
  DefaultInterface : option (list Prefix);
  WIFI_SSID : string;
  WIFI_BSSID : string;
  ClashMode : option string;
  IsAndroid : bool
}.

Section items.
Context {L : RuleLib}.

Definition valid_addr (a : Addr) : list Addr := if IsValid a then [a] else [].

Definition record_addresses (r : RR) : list Addr :=
  match r with
  | RR_A ip => valid_addr (AddrFromIP ip)
  | RR_AAAA ip => valid_addr (AddrFromIP ip)
  | RR_HTTPS hints =>
    concat (map (fun h : bool * list (list Z) =>
      let '(v4, ips) := h in
      concat (map (fun ip => valid_addr (if v4 then Unmap (AddrFromIP ip) else AddrFromIP ip)) ips))
      hints)
  | RR_other _ => []
  end.

Definition DNSResponseAddresses (response : option Msg) : list Addr :=
  match response with
  | None => []
  | Some m => if Rcode m =? 0 then concat (map record_addresses (Answer m)) else []
  end.

Definition DNSResponseAddressesForMatch (c : InboundContext) : list Addr :=
  DNSResponseAddresses (DNSResponse c).

(** ** Strings *)

Fixpoint has_prefix (p s : string) : bool :=
  match p, s with
  | EmptyString, _ => true
  | String a p, String b s => bool_decide (a = b) && has_prefix p s
  | _, _ => false
  end.

(** [strings.Contains]. *)
Fixpoint str_contains (s sub : string) : bool :=
  has_prefix sub s ||
  match s with EmptyString => false | String _ s' => str_contains s' sub end.

(** [filepath.Base] with [/] as the separator. *)
Fixpoint strip_trailing_slash (s : list Ascii.ascii) : list Ascii.ascii :=
  match s with
  | "/"%char :: s' => strip_trailing_slash s'
  | _ => s
  end.

Fixpoint until_slash (s : list Ascii.ascii) : list Ascii.ascii :=
  match s with
  | [] => []
  | c :: s' => if decide (c = "/"%char) then [] else c :: until_slash s'
  end.

Definition Base (path : string) : string :=
  if decide (path = EmptyString) then "."%string else
  match strip_trailing_slash (reverse (String.list_ascii_of_string path)) with
  | [] => "/"%string
  | s => String.string_of_list_ascii (reverse (until_slash s))
  end.

(** A [map] from keys to [true] made from a list: membership. *)
Definition in_map {A} `{EqDecision A} (x : A) (l : list A) : bool := bool_decide (x ∈ l).

(** ** Items *)

Inductive RuleItem :=
| InboundItem (inbounds : list string)
| IPVersionItem (isIPv6 : bool)
| NetworkItem (networks : list string)
| AuthUserItem (users : list string)
| ProtocolItem (protocols : list string)
| ClientItem (clients : list string)
| DomainItem (matcher : string -> bool)
| DomainKeywordItem (keywords : list string)
| DomainRegexItem (matchers : list (string -> bool))
| AdGuardDomainItem (matcher : string -> bool)
| IPCIDRItem (isSource : bool) (ipSet : Addr -> bool)
| IPIsPrivateItem (isSource : bool)
| IPAcceptAnyItem
| PortItem (isSource : bool) (ports : list Z)
| PortRangeItem (isSource : bool) (portRangeList : list (Z * Z))
| ProcessItem (processes : list string)
| ProcessPathItem (processes : list string)
| ProcessPathRegexItem (matchers : list (string -> bool))
| PackageNameItem (packageNames : list string)
| PackageNameRegexItem (matchers : list (string -> bool))
| UserItem (users : list string)
| UserIdItem (userIds : list Z)
| OutboundItem (outbounds : list string) (matchAny : bool)
| ClashModeItem (mode : string)
| NetworkTypeItem (networkType : list Z)
| NetworkIsExpensiveItem
| NetworkIsConstrainedItem
| WIFISSIDItem (ssids : list string)
| WIFIBSSIDItem (bssids : list string)
| InterfaceAddressItem (interfaceAddresses : list (string * list Prefix))
| NetworkInterfaceAddressItem (interfaceAddresses : list (Z * list Prefix))
| DefaultInterfaceAddressItem (interfaceAddresses : list Prefix)
| SourceMACAddressItem (addresses : list string)
| SourceHostnameItem (hostnames : list string)
| PreferredByItem (outbounds : list ((string -> bool) * (Addr -> bool)))
| PreferredByDNSItem (transports : list (string -> bool))
| QueryTypeItem (typeList : list Z)
| QueryClientSubnetItem (prefixes : list Prefix)
| QueryDNSSECItem
| DNSResponseRCodeItem (rcode : Z)
| DNSResponseRecordItem (selector : Msg -> list RR) (records : list (RR -> bool)).

(** *** Constructors that compute something *)

Definition NewOutboundRule (outbounds : list string) : RuleItem :=
  OutboundItem (base.filter (fun o => o <> "any"%string) outbounds)
    (bool_decide ("any"%string ∈ outbounds)).

Definition NewSourceMACAddressItem (addressList : list string) : RuleItem :=
  SourceMACAddressItem
    (map (fun address => match ParseMAC (String.list_ascii_of_string address) with
                         | Some parsed => String.string_of_list_ascii (mac_String parsed)
                         | None => address
                         end) addressList).

(** [domain.NewMatcher] and the compilation of a regular expression are
    parameters; an empty domain is an error. *)
Definition NewDomainItem (NewMatcher : list string -> list string -> string -> bool)
    (domains domainSuffixes : list string) : res RuleItem :=
  if bool_decide (EmptyString ∈ domains) then Err "domain: empty item is not allowed"
  else if bool_decide (EmptyString ∈ domainSuffixes) then Err "domain_suffix: empty item is not allowed"
  else Ret (DomainItem (NewMatcher domains domainSuffixes)).

(** [strconv.ParseUint(s, 10, 16)]. *)
Fixpoint parse_digits (s : list Ascii.ascii) (acc : Z) : option Z :=
  match s with
  | [] => Some acc
  | c :: s =>
    let d := Z.of_nat (Ascii.nat_of_ascii c) - 48 in
    if (0 <=? d) && (d <=? 9) then
      let acc := acc * 10 + d in
      if 65535 <? acc then None else parse_digits s acc
    else None
  end.

Definition ParseUint16 (s : list Ascii.ascii) : option Z :=
  match s with [] => None | _ => parse_digits s 0 end.

(** The text before and after the first colon. *)
Fixpoint split_colon (s : list Ascii.ascii) : option (list Ascii.ascii * list Ascii.ascii) :=
  match s with
  | [] => None
  | c :: s =>
    if decide (c = ":"%char) then Some ([], s)
    else match split_colon s with None => None | Some (a, b) => Some (c :: a, b) end
  end.

Definition parse_range (portRange : string) : res (Z * Z) :=
  match split_colon (String.list_ascii_of_string portRange) with
  | None => Err "bad port range"
  | Some (a, b) =>
    match (match a with [] => Some 0 | _ => ParseUint16 a end),
          (match b with [] => Some 0xFFFF | _ => ParseUint16 b end) with
    | Some s, Some e => Ret (s, e)
    | _, _ => Err "bad port range"
    end
  end.

Fixpoint parse_ranges (rangeList : list string) : res (list (Z * Z)) :=
  match rangeList with
  | [] => Ret []
  | r :: rangeList => x ← parse_range r; l ← parse_ranges rangeList; Ret (x :: l)
  end.

Definition NewPortRangeItem (isSource : bool) (rangeList : list string) : res RuleItem :=
  l ← parse_ranges rangeList; Ret (PortRangeItem isSource l).

(** *** Matching *)

(** The domain a domain item looks at. *)
Definition domainHost (c : InboundContext) : string :=
  if decide (Domain c <> EmptyString) then Domain c else s_Fqdn (Destination c).

Definition with_host (c : InboundContext) (p : string -> bool) : bool :=
  if decide (domainHost c = EmptyString) then false else p (domainHost c).

Definition IPCIDRItem_Match (isSource : bool) (ipSet : Addr -> bool) (c : InboundContext) : bool :=
  if isSource || IPCIDRMatchSource c then ipSet (s_Addr (Source c))
  else if DestinationAddressMatchFromResponse c then
    match DNSResponseAddressesForMatch c with
    | [] => IPCIDRAcceptEmpty c
    | addresses => existsb ipSet addresses
    end
  else if IsIP (Destination c) then ipSet (s_Addr (Destination c))
  else match DestinationAddresses c with
       | [] => IPCIDRAcceptEmpty c
       | addresses => existsb ipSet addresses
       end.

Definition IPIsPrivateItem_Match (isSource : bool) (c : InboundContext) : bool :=
  if isSource then negb (IsPublicAddr (s_Addr (Source c)))
  else if DestinationAddressMatchFromResponse c then
    existsb (fun a => negb (IsPublicAddr a)) (DNSResponseAddressesForMatch c)
  else if IsValid (s_Addr (Destination c)) then negb (IsPublicAddr (s_Addr (Destination c)))
  else existsb (fun a => negb (IsPublicAddr a)) (DestinationAddresses c).

Definition IPVersionItem_Match (isIPv6 : bool) (c : InboundContext) : bool :=
  (negb (IPVersion c =? 0) && Bool.eqb (IPVersion c =? 6) isIPv6) ||
  (IsIP (Destination c) && Bool.eqb (IsIPv6 (Destination c)) isIPv6).

Definition item_port (isSource : bool) (c : InboundContext) : Z :=
  if isSource then s_Port (Source c) else s_Port (Destination c).

Definition PortRangeItem_Match (isSource : bool) (portRangeList : list (Z * Z))
    (c : InboundContext) : bool :=
  existsb (fun r => (fst r <=? item_port isSource c) && (item_port isSource c <=? snd r))
    portRangeList.

Definition ProcessPathItem_Match (env : Environment) (processes : list string)
    (c : InboundContext) : bool :=
  match ProcessInfo c with
  | None => false
  | Some p =>
    (negb (bool_decide (o_ProcessPath p = EmptyString)) && in_map (o_ProcessPath p) processes) ||
    (IsAndroid env && existsb (fun n => in_map n processes) (o_AndroidPackageNames p))
  end.

(** [InterfaceAddressItem.Match]: every named interface exists and has an
    address in one of its prefixes. *)
Definition InterfaceAddressItem_Match (env : Environment)
    (interfaceAddresses : list (string * list Prefix)) : bool :=
  forallb (fun e : string * list Prefix =>
    let '(ifName, addresses) := e in
    match List.find (fun i : string * list Prefix => bool_decide (fst i = ifName))
            (FinderInterfaces env) with
    | None => false
    | Some iface =>
      negb (bool_decide (fst iface = EmptyString)) &&
      negb (forallb (fun address => forallb (fun it => negb (prefix_Overlaps address it)) (snd iface))
              addresses)
    end) interfaceAddresses.

Definition NetworkInterfaceAddressItem_Match (env : Environment)
    (interfaceAddresses : list (Z * list Prefix)) : bool :=
  forallb (fun e : Z * list Prefix =>
    let '(ifType, addresses) := e in
    existsb (fun n =>
      negb (in_map (i_Name n) (MyInterfaces env)) && (i_Type n =? ifType) &&
      existsb (fun it => existsb (fun prefix => prefix_Overlaps prefix it) addresses) (i_Addresses n))
      (NetworkInterfaces env)) interfaceAddresses.

Definition DefaultInterfaceAddressItem_Match (env : Environment)
    (interfaceAddresses : list Prefix) : bool :=
  match DefaultInterface env with
  | None => false
  | Some addresses =>
    forallb (fun address => negb (forallb (fun it => negb (prefix_Overlaps address it)) addresses))
      interfaceAddresses
  end.

Definition PreferredByItem_Match (outbounds : list ((string -> bool) * (Addr -> bool)))
    (c : InboundContext) : bool :=
  (negb (bool_decide (domainHost c = EmptyString)) &&
   existsb (fun o : (string -> bool) * (Addr -> bool) => fst o (domainHost c)) outbounds) ||
  (IsIP (Destination c) &&
   existsb (fun o : (string -> bool) * (Addr -> bool) => snd o (s_Addr (Destination c))) outbounds) ||
  existsb (fun a => existsb (fun o : (string -> bool) * (Addr -> bool) => snd o a) outbounds)
    (DestinationAddresses c).

Definition QueryClientSubnetItem_Match (prefixes : list Prefix) (c : InboundContext) : bool :=
  let clientSubnet := QueryClientSubnet c in
  if negb (prefix_IsValid clientSubnet) then false
  else existsb (fun prefix => (p_bits prefix <=? p_bits clientSubnet) &&
                              prefix_Contains prefix (p_addr clientSubnet)) prefixes.

(** A test of the default network interface. *)
Definition with_interface (env : Environment) (p : NetworkInterface -> bool) : bool :=
  match DefaultNetworkInterface env with None => false | Some i => p i end.

Definition with_process (c : InboundContext) (p : ConnectionOwner -> bool) : bool :=
  match ProcessInfo c with None => false | Some o => p o end.

Definition nonempty (s : string) : bool := negb (bool_decide (s = EmptyString)).

(** The remaining items, one definition each. *)
Definition InboundItem_Match (inbounds : list string) (c : InboundContext) : bool :=
  in_map (Inbound c) inbounds.

Definition NetworkItem_Match (networks : list string) (c : InboundContext) : bool :=
  in_map (Network c) networks.

Definition AuthUserItem_Match (users : list string) (c : InboundContext) : bool :=
  in_map (User c) users.

Definition ProtocolItem_Match (protocols : list string) (c : InboundContext) : bool :=
  in_map (Protocol c) protocols.

Definition ClientItem_Match (clients : list string) (c : InboundContext) : bool :=
  in_map (Client c) clients.

Definition DomainItem_Match (matcher : string -> bool) (c : InboundContext) : bool :=
  with_host c (fun domainHost => matcher (ToLower domainHost)).

Definition DomainKeywordItem_Match (keywords : list string) (c : InboundContext) : bool :=
  with_host c (fun domainHost => existsb (str_contains (ToLower domainHost)) keywords).

Definition DomainRegexItem_Match (matchers : list (string -> bool)) (c : InboundContext) : bool :=
  with_host c (fun domainHost => existsb (fun m => m (ToLower domainHost)) matchers).

Definition AdGuardDomainItem_Match (matcher : string -> bool) (c : InboundContext) : bool :=
  with_host c (fun domainHost => matcher (ToLower domainHost)).

Definition IPAcceptAnyItem_Match (c : InboundContext) : bool :=
  if DestinationAddressMatchFromResponse c then negb (bool_decide (DNSResponseAddressesForMatch c = []))
  else negb (bool_decide (DestinationAddresses c = [])).

Definition PortItem_Match (isSource : bool) (ports : list Z) (c : InboundContext) : bool :=
  in_map (item_port isSource c) ports.

Definition ProcessItem_Match (processes : list string) (c : InboundContext) : bool :=
  with_process c (fun p => nonempty (o_ProcessPath p) && in_map (Base (o_ProcessPath p)) processes).

Definition ProcessPathRegexItem_Match (matchers : list (string -> bool)) (c : InboundContext)
    : bool :=
  with_process c (fun p =>
    nonempty (o_ProcessPath p) && existsb (fun m => m (o_ProcessPath p)) matchers).

Definition PackageNameItem_Match (packageNames : list string) (c : InboundContext) : bool :=
  with_process c (fun p => existsb (fun n => in_map n packageNames) (o_AndroidPackageNames p)).

Definition PackageNameRegexItem_Match (matchers : list (string -> bool)) (c : InboundContext)
    : bool :=
  with_process c (fun p => existsb (fun m => existsb m (o_AndroidPackageNames p)) matchers).

Definition UserItem_Match (users : list string) (c : InboundContext) : bool :=
  with_process c (fun p => nonempty (o_UserName p) && in_map (o_UserName p) users).

Definition UserIdItem_Match (userIds : list Z) (c : InboundContext) : bool :=
  with_process c (fun p => negb (o_UserId p =? -1) && in_map (o_UserId p) userIds).

Definition OutboundItem_Match (outbounds : list string) (matchAny : bool) (c : InboundContext)
    : bool :=
  if matchAny then nonempty (Outbound c) else in_map (Outbound c) outbounds.

Definition ClashModeItem_Match (env : Environment) (mode : string) : bool :=
  match ClashMode env with None => false | Some m => EqualFold m mode end.

Definition NetworkTypeItem_Match (env : Environment) (networkType : list Z) : bool :=
  with_interface env (fun i => in_map (i_Type i) networkType).

Definition NetworkIsExpensiveItem_Match (env : Environment) : bool :=
  with_interface env i_Expensive.

Definition NetworkIsConstrainedItem_Match (env : Environment) : bool :=
  with_interface env i_Constrained.

Definition WIFISSIDItem_Match (env : Environment) (ssids : list string) : bool :=
  in_map (WIFI_SSID env) ssids.

Definition WIFIBSSIDItem_Match (env : Environment) (bssids : list string) : bool :=
  in_map (WIFI_BSSID env) bssids.

Definition SourceMACAddressItem_Match (addresses : list string) (c : InboundContext) : bool :=
  match SourceMACAddress c with
  | None => false
  | Some a => in_map (String.string_of_list_ascii (mac_String a)) addresses
  end.

Definition SourceHostnameItem_Match (hostnames : list string) (c : InboundContext) : bool :=
  nonempty (SourceHostname c) && in_map (SourceHostname c) hostnames.

Definition PreferredByDNSItem_Match (transports : list (string -> bool)) (c : InboundContext)
    : bool :=
  with_host c (fun domainHost => existsb (fun t => t (CanonicalName domainHost)) transports).

Definition QueryTypeItem_Match (typeList : list Z) (c : InboundContext) : bool :=
  negb (QueryType c =? 0) && in_map (QueryType c) typeList.

Definition QueryDNSSECItem_Match (c : InboundContext) : bool := QueryDNSSEC c.

Definition DNSResponseRCodeItem_Match (rcode : Z) (c : InboundContext) : bool :=
  match DNSResponse c with None => false | Some m => Rcode m =? rcode end.

Definition DNSResponseRecordItem_Match (selector : Msg -> list RR) (records : list (RR -> bool))
    (c : InboundContext) : bool :=
  match DNSResponse c with
  | None => false
  | Some m => existsb (fun expected => existsb expected (selector m)) records
  end.

(** [RuleItem.Match]: the method of the item's type. *)
Definition item_Match (env : Environment) (item : RuleItem) (c : InboundContext) : bool :=
  match item with
  | InboundItem inbounds => InboundItem_Match inbounds c
  | IPVersionItem isIPv6 => IPVersionItem_Match isIPv6 c
  | NetworkItem networks => NetworkItem_Match networks c
  | AuthUserItem users => AuthUserItem_Match users c
  | ProtocolItem protocols => ProtocolItem_Match protocols c
  | ClientItem clients => ClientItem_Match clients c
  | DomainItem matcher => DomainItem_Match matcher c
  | DomainKeywordItem keywords => DomainKeywordItem_Match keywords c
  | DomainRegexItem matchers => DomainRegexItem_Match matchers c
  | AdGuardDomainItem matcher => AdGuardDomainItem_Match matcher c
  | IPCIDRItem isSource ipSet => IPCIDRItem_Match isSource ipSet c
  | IPIsPrivateItem isSource => IPIsPrivateItem_Match isSource c
  | IPAcceptAnyItem => IPAcceptAnyItem_Match c
  | PortItem isSource ports => PortItem_Match isSource ports c
  | PortRangeItem isSource portRangeList => PortRangeItem_Match isSource portRangeList c
  | ProcessItem processes => ProcessItem_Match processes c
  | ProcessPathItem processes => ProcessPathItem_Match env processes c
  | ProcessPathRegexItem matchers => ProcessPathRegexItem_Match matchers c
  | PackageNameItem packageNames => PackageNameItem_Match packageNames c
  | PackageNameRegexItem matchers => PackageNameRegexItem_Match matchers c
  | UserItem users => UserItem_Match users c
  | UserIdItem userIds => UserIdItem_Match userIds c
  | OutboundItem outbounds matchAny => OutboundItem_Match outbounds matchAny c
  | ClashModeItem mode => ClashModeItem_Match env mode
  | NetworkTypeItem networkType => NetworkTypeItem_Match env networkType
  | NetworkIsExpensiveItem => NetworkIsExpensiveItem_Match env
  | NetworkIsConstrainedItem => NetworkIsConstrainedItem_Match env
  | WIFISSIDItem ssids => WIFISSIDItem_Match env ssids
  | WIFIBSSIDItem bssids => WIFIBSSIDItem_Match env bssids
  | InterfaceAddressItem interfaceAddresses => InterfaceAddressItem_Match env interfaceAddresses
  | NetworkInterfaceAddressItem interfaceAddresses => NetworkInterfaceAddressItem_Match env interfaceAddresses
  | DefaultInterfaceAddressItem interfaceAddresses => DefaultInterfaceAddressItem_Match env interfaceAddresses
  | SourceMACAddressItem addresses => SourceMACAddressItem_Match addresses c
  | SourceHostnameItem hostnames => SourceHostnameItem_Match hostnames c
  | PreferredByItem outbounds => PreferredByItem_Match outbounds c
  | PreferredByDNSItem transports => PreferredByDNSItem_Match transports c
  | QueryTypeItem typeList => QueryTypeItem_Match typeList c
  | QueryClientSubnetItem prefixes => QueryClientSubnetItem_Match prefixes c
  | QueryDNSSECItem => QueryDNSSECItem_Match c
  | DNSResponseRCodeItem rcode => DNSResponseRCodeItem_Match rcode c
  | DNSResponseRecordItem selector records => DNSResponseRecordItem_Match selector records c
  end.

End items.
