(* ===== verification/RuleMatch.v ===== *)
(** * Rule matching (src/route/rule/match_state.go, rule_abstract.go,
    rule_item_rule_set.go, rule_set.go, rule_dns.go)

    A default rule groups its items (source address, source port, destination
    address, destination port, others); a logical rule combines rules; a rule
    set is a list of rules, and a set of one default rule merges its groups
    with the rule that refers to it.  Before a DNS query is answered the
    destination addresses are unknown: the items on them are skipped and the
    groups that wait for them are recorded as deferred. *)

From S2P Require Import Prelude Netip RuleItems.

(** ** Match state *)

Definition ruleMatchSourceAddress : Z := 1.
Definition ruleMatchSourcePort : Z := 2.
Definition ruleMatchDestinationAddress : Z := 4.
Definition ruleMatchDestinationPort : Z := 8.

Record ruleGroupMatch := mkGroups { required : Z; satisfied : Z }.

Definition done (g : ruleGroupMatch) : bool := Z.ldiff (required g) (satisfied g) =? 0.

Definition mergeWith (g other : ruleGroupMatch) : ruleGroupMatch :=
  mkGroups (Z.lor (required g) (required other)) (Z.lor (satisfied g) (satisfied other)).

Definition has (s target : Z) : bool := negb (Z.land s target =? 0).

(** [groups.required |= bit; if matched { groups.satisfied |= bit }]. *)
Definition require (bit : Z) (matched : bool) (g : ruleGroupMatch) : ruleGroupMatch :=
  mkGroups (Z.lor (required g) bit) (if matched then Z.lor (satisfied g) bit else satisfied g).

(** ** Rules *)

Record RuleBody := mkBody {
  items : list RuleItem;
  sourceAddressItems : list RuleItem;
  sourcePortItems : list RuleItem;
  destinationAddressItems : list RuleItem;
  destinationIPCIDRItems : list RuleItem;
  destinationPortItems : list RuleItem
}.

(** A rule-set item of rules [R]: the rule sets it refers to. *)
Record RuleSetItem (R : Type) := mkRuleSetItem {
  setList : list (list R);
  ipCidrMatchSource : bool;
  ipCidrAcceptEmpty : bool
}.
Arguments mkRuleSetItem {R}.
Arguments setList {R}.
Arguments ipCidrMatchSource {R}.
Arguments ipCidrAcceptEmpty {R}.

Inductive LogicalMode := LogicalTypeAnd | LogicalTypeOr.

(** [matchResponse] is the tag of the response a DNS rule with
    [match_response] looks at (empty for the current one), [None] for every
    other rule. *)
Inductive Rule :=
| DefaultRule (body : RuleBody) (ruleSetItem : option (RuleSetItem Rule)) (invert : bool)
    (matchResponse : option string)
| LogicalRule (mode : LogicalMode) (rules : list Rule) (invert : bool).

Definition no_items {R} (b : RuleBody) (rs : option (RuleSetItem R)) : bool :=
  match items b, sourceAddressItems b, sourcePortItems b, destinationAddressItems b,
        destinationIPCIDRItems b, destinationPortItems b, rs with
  | [], [], [], [], [], [], None => true
  | _, _, _, _, _, _, _ => false
  end.

Definition nonnil {A} (l : list A) : bool := match l with [] => false | _ => true end.

Section matching.
Context {L : RuleLib}.
Variable env : Environment.

Definition matchAnyItem (l : list RuleItem) (c : InboundContext) : bool :=
  existsb (fun it => item_Match env it c) l.

Definition destinationIPCIDRMatchesSource (b : RuleBody) (c : InboundContext) : bool :=
  IPCIDRMatchSource c && nonnil (destinationIPCIDRItems b).

Definition destinationIPCIDRMatchesDestination (b : RuleBody) (c : InboundContext) : bool :=
  negb (IgnoreDestinationIPCIDRMatch c) && negb (IPCIDRMatchSource c) &&
  nonnil (destinationIPCIDRItems b).

(** Whether the destination address group of a body waits for addresses. *)
Definition defers (b : RuleBody) (c : InboundContext) : bool :=
  IgnoreDestinationIPCIDRMatch c && negb (IPCIDRMatchSource c) &&
  nonnil (destinationIPCIDRItems b) && negb (nonnil (destinationAddressItems b)).

(** The groups and the deferred groups after the call. *)
Definition evaluateGroups (b : RuleBody) (c : InboundContext) : ruleGroupMatch * Z :=
  let g := mkGroups 0 0 in
  let g := if nonnil (sourceAddressItems b)
           then require ruleMatchSourceAddress (matchAnyItem (sourceAddressItems b) c) g else g in
  let g := if destinationIPCIDRMatchesSource b c
           then require ruleMatchSourceAddress
                  (negb (has (satisfied g) ruleMatchSourceAddress) &&
                   matchAnyItem (destinationIPCIDRItems b) c) g else g in
  let g := if nonnil (sourcePortItems b)
           then require ruleMatchSourcePort (matchAnyItem (sourcePortItems b) c) g else g in
  let g := if nonnil (destinationAddressItems b)
           then require ruleMatchDestinationAddress (matchAnyItem (destinationAddressItems b) c) g
           else g in
  let g := if destinationIPCIDRMatchesDestination b c
           then require ruleMatchDestinationAddress
                  (negb (has (satisfied g) ruleMatchDestinationAddress) &&
                   matchAnyItem (destinationIPCIDRItems b) c) g else g in
  let g := if nonnil (destinationPortItems b)
           then require ruleMatchDestinationPort (matchAnyItem (destinationPortItems b) c) g else g in
  (g, if defers b c then Z.lor (DeferredIPCIDRMatchGroups c) ruleMatchDestinationAddress
      else DeferredIPCIDRMatchGroups c).

Definition all_items (b : RuleBody) (c : InboundContext) : bool :=
  forallb (fun it => item_Match env it c) (items b).

(** The groups, the deferred groups after the call, and whether the items
    matched. *)
Definition evaluateForMerge (b : RuleBody) (c : InboundContext) : ruleGroupMatch * Z * bool :=
  let '(g, d) := evaluateGroups b c in
  if all_items b (with_deferred d c) then (g, d, true) else (mkGroups 0 0, d, false).

Definition mergeableRuleIn (rules : list Rule) : option RuleBody :=
  match rules with
  | [DefaultRule b None false None] => Some b
  | _ => None
  end.

Definition nestedMetadata {R} (r : RuleSetItem R) (c : InboundContext) : InboundContext :=
  with_rule_cache (ipCidrMatchSource r) (ipCidrAcceptEmpty r) 0 c.

(** The functions below call [Match] on nested rules; each returns whether it
    matched and the deferred groups after the call, the only field of the
    context they write. *)
Section nested.
Variable rec : Rule -> InboundContext -> bool * Z.

Fixpoint any_headless (c : InboundContext) (matched : bool) (deferred : Z) (rules : list Rule)
    : bool * Z :=
  match rules with
  | [] => (matched, if matched then Z.lor (DeferredIPCIDRMatchGroups c) deferred
                    else DeferredIPCIDRMatchGroups c)
  | rule :: rules =>
    let '(m, d) := rec rule (ResetRuleMatchCache c) in
    if m then
      if d =? 0 then (true, DeferredIPCIDRMatchGroups c)
      else any_headless c true (Z.lor deferred d) rules
    else any_headless c matched deferred rules
  end.

Definition matchAnyHeadlessRule (rules : list Rule) (c : InboundContext) : bool * Z :=
  any_headless c false 0 rules.

(** The loop over the rule sets, with the rules of each. *)
Fixpoint outer_groups (source accept : bool) (c : InboundContext) (outer : ruleGroupMatch)
    (matched : bool) (deferred : Z) (sets : list (list Rule)) : bool * Z :=
  match sets with
  | [] => (matched, if matched then Z.lor (DeferredIPCIDRMatchGroups c) deferred
                    else DeferredIPCIDRMatchGroups c)
  | rules :: sets =>
    let nested := with_rule_cache source accept 0 c in
    match mergeableRuleIn rules with
    | Some branch =>
      let '(branchGroups, nd, branchMatched) := evaluateForMerge branch nested in
      let merged := mergeWith outer branchGroups in
      if branchMatched && done merged then
        let bd := Z.ldiff nd (satisfied merged) in
        if bd =? 0
        then (true, Z.ldiff (DeferredIPCIDRMatchGroups c) (satisfied merged))
        else outer_groups source accept c outer true (Z.lor deferred bd) sets
      else outer_groups source accept c outer matched deferred sets
    | None =>
      let '(m, d) := if done outer then matchAnyHeadlessRule rules nested else (false, 0) in
      if m then
        if d =? 0 then (true, DeferredIPCIDRMatchGroups c)
        else outer_groups source accept c outer true (Z.lor deferred d) sets
      else outer_groups source accept c outer matched deferred sets
    end
  end.

Definition matchWithOuterGroups (r : RuleSetItem Rule) (c : InboundContext) (outer : ruleGroupMatch)
    : bool * Z :=
  outer_groups (ipCidrMatchSource r) (ipCidrAcceptEmpty r) c outer false 0 (setList r).

Definition matchInner (b : RuleBody) (rs : option (RuleSetItem Rule)) (c : InboundContext)
    : bool * Z :=
  let '(g, d) := evaluateGroups b c in
  let c := with_deferred d c in
  if all_items b c then
    let '(m, d) := match rs with
                   | Some r => matchWithOuterGroups r c g
                   | None => (done g, d)
                   end in
    (m, if m then Z.ldiff d (satisfied g) else d)
  else (false, d).

Definition abstractDefaultRule_Match (b : RuleBody) (rs : option (RuleSetItem Rule)) (invert : bool)
    (c : InboundContext) : bool * Z :=
  if no_items b rs then (true, DeferredIPCIDRMatchGroups c) else
  let '(m, d) := matchInner b rs c in
  if invert then if m then (negb (d =? 0), d) else (true, 0)
  else (m, d).

(** [DefaultDNSRule.matchForMatch]: a rule on a response matches a copy of the
    context. *)
Definition matchForMatch (b : RuleBody) (rs : option (RuleSetItem Rule)) (invert : bool)
    (matchResponse : option string) (c : InboundContext) : bool * Z :=
  match matchResponse with
  | None => abstractDefaultRule_Match b rs invert c
  | Some tag =>
    match (if decide (tag = EmptyString) then DNSResponse c else NamedDNSResponses c !! tag) with
    | None => (invert, DeferredIPCIDRMatchGroups c)
    | Some response =>
      (fst (abstractDefaultRule_Match b rs invert (with_response (Some response) c)),
       DeferredIPCIDRMatchGroups c)
    end
  end.

(** The loops of a logical rule: matched, deferred groups. *)
Fixpoint logical_and (c : InboundContext) (deferred : Z) (rules : list Rule) : bool * Z :=
  match rules with
  | [] => (true, deferred)
  | rule :: rules =>
    let '(m, d) := rec rule (ResetRuleCache c) in
    if m then logical_and c (Z.lor deferred d) rules else (false, 0)
  end.

Fixpoint logical_or (c : InboundContext) (matched : bool) (deferred : Z) (rules : list Rule)
    : bool * Z :=
  match rules with
  | [] => (matched, deferred)
  | rule :: rules =>
    let '(m, d) := rec rule (ResetRuleCache c) in
    if m then
      if d =? 0 then (true, 0) else logical_or c true (Z.lor deferred d) rules
    else logical_or c matched deferred rules
  end.

Definition abstractLogicalRule_Match (mode : LogicalMode) (rules : list Rule) (invert : bool)
    (c : InboundContext) : bool * Z :=
  let '(matched, deferred) := match mode with
                              | LogicalTypeAnd => logical_and c 0 rules
                              | LogicalTypeOr => logical_or c false 0 rules
                              end in
  let d := if matched then Z.lor (DeferredIPCIDRMatchGroups c) deferred
           else DeferredIPCIDRMatchGroups c in
  if invert then (if matched then negb (deferred =? 0) else true, d) else (matched, d).

End nested.

Fixpoint Match (r : Rule) (c : InboundContext) {struct r} : bool * Z :=
  match r with
  | DefaultRule b rs invert matchResponse => matchForMatch Match b rs invert matchResponse c
  | LogicalRule mode rules invert => abstractLogicalRule_Match Match mode rules invert c
  end.

(** *** DNS rules *)

(** [LegacyPreMatch]: a match before the query is answered. *)
Definition LegacyPreMatch (r : Rule) (c : InboundContext) : bool * Z :=
  match r with
  | DefaultRule _ _ _ (Some _) => (false, DeferredIPCIDRMatchGroups c)
  | _ => Match r (with_ignore true c)
  end.

(** [MatchAddressLimit]: a match against the answer. *)
Definition MatchAddressLimit (r : Rule) (response : option Msg) (c : InboundContext) : bool :=
  let c := with_response response (ResetRuleCache c) in
  fst (match r with
       | DefaultRule b rs invert _ => abstractDefaultRule_Match Match b rs invert c
       | LogicalRule mode rules invert => abstractLogicalRule_Match Match mode rules invert c
       end).

End matching.
