(* ===== verification/RuleSem.v ===== *)
(** * What a rule means

    A declarative meaning of rules, and the theorems that relate the matcher
    of RuleMatch.v to it: exactly, when the destination addresses are known,
    and as a safe approximation before they are. *)

From S2P Require Import Prelude Netip RuleItems RuleMatch.

(** ** Groups as four booleans *)

Record groups4 := G4 { g_sa : bool; g_sp : bool; g_da : bool; g_dp : bool }.

Definition encode (g : groups4) : Z :=
  Z.lor (Z.lor (if g_sa g then ruleMatchSourceAddress else 0)
               (if g_sp g then ruleMatchSourcePort else 0))
        (Z.lor (if g_da g then ruleMatchDestinationAddress else 0)
               (if g_dp g then ruleMatchDestinationPort else 0)).

Definition g4_or (a b : groups4) : groups4 :=
  G4 (g_sa a || g_sa b) (g_sp a || g_sp b) (g_da a || g_da b) (g_dp a || g_dp b).

(** Every required group is satisfied. *)
Definition group_ok (r s : groups4) : bool :=
  implb (g_sa r) (g_sa s) && implb (g_sp r) (g_sp s) &&
  implb (g_da r) (g_da s) && implb (g_dp r) (g_dp s).

Lemma encode_done r s : done (mkGroups (encode r) (encode s)) = group_ok r s.
Proof. destruct r as [[] [] [] []], s as [[] [] [] []]; reflexivity. Qed.

Lemma encode_or a b : Z.lor (encode a) (encode b) = encode (g4_or a b).
Proof. destruct a as [[] [] [] []], b as [[] [] [] []]; reflexivity. Qed.

Lemma encode_merge r s r' s' :
  mergeWith (mkGroups (encode r) (encode s)) (mkGroups (encode r') (encode s')) =
  mkGroups (encode (g4_or r r')) (encode (g4_or s s')).
Proof. unfold mergeWith. cbn [required satisfied]. by rewrite !encode_or. Qed.

(** A deferred group is the destination address group. *)
Definition deferred_bit (b : bool) : Z := if b then ruleMatchDestinationAddress else 0.

Lemma encode_ldiff b s : Z.ldiff (deferred_bit b) (encode s) = deferred_bit (b && negb (g_da s)).
Proof. destruct b, s as [[] [] [] []]; reflexivity. Qed.

Lemma deferred_or a b : Z.lor (deferred_bit a) (deferred_bit b) = deferred_bit (a || b).
Proof. by destruct a, b. Qed.

Lemma deferred_zero b : (deferred_bit b =? 0) = negb b.
Proof. by destruct b. Qed.

Section meaning.
Context {L : RuleLib}.
Variable env : Environment.

Local Notation any := (matchAnyItem env).

(** ** The groups of a body *)

Definition body_required (b : RuleBody) (c : InboundContext) : groups4 :=
  G4 (nonnil (sourceAddressItems b) || destinationIPCIDRMatchesSource b c)
     (nonnil (sourcePortItems b))
     (nonnil (destinationAddressItems b) || destinationIPCIDRMatchesDestination b c)
     (nonnil (destinationPortItems b)).

Definition body_satisfied (b : RuleBody) (c : InboundContext) : groups4 :=
  G4 (any (sourceAddressItems b) c ||
      (destinationIPCIDRMatchesSource b c && any (destinationIPCIDRItems b) c))
     (any (sourcePortItems b) c)
     (any (destinationAddressItems b) c ||
      (destinationIPCIDRMatchesDestination b c && any (destinationIPCIDRItems b) c))
     (any (destinationPortItems b) c).

(** An empty list neither requires nor satisfies. *)
Lemma any_nonnil l c : any l c = nonnil l && any l c.
Proof. by destruct l. Qed.

(** The successive updates of the two masks compute the four groups. *)
Lemma evaluateGroups_spec b c :
  evaluateGroups env b c =
  (mkGroups (encode (body_required b c)) (encode (body_satisfied b c)),
   if defers b c then Z.lor (DeferredIPCIDRMatchGroups c) ruleMatchDestinationAddress
   else DeferredIPCIDRMatchGroups c).
Proof.
  unfold evaluateGroups, body_required, body_satisfied. f_equal.
  rewrite (any_nonnil (sourceAddressItems b)), (any_nonnil (sourcePortItems b)),
    (any_nonnil (destinationAddressItems b)), (any_nonnil (destinationPortItems b)).
  generalize (any (sourceAddressItems b) c) (any (sourcePortItems b) c)
    (any (destinationAddressItems b) c) (any (destinationPortItems b) c)
    (any (destinationIPCIDRItems b) c).
  destruct (nonnil (sourceAddressItems b)), (destinationIPCIDRMatchesSource b c),
    (nonnil (sourcePortItems b)), (nonnil (destinationAddressItems b)),
    (destinationIPCIDRMatchesDestination b c), (nonnil (destinationPortItems b));
    intros [] [] [] [] []; reflexivity.
Qed.

(** Items do not look at the deferred groups. *)
Lemma item_with_deferred d it c : item_Match env it (with_deferred d c) = item_Match env it c.
Proof. by destruct it. Qed.

Lemma all_items_with_deferred d b c : all_items env b (with_deferred d c) = all_items env b c.
Proof. unfold all_items. apply forallb_ext. intros it. apply item_with_deferred. Qed.

(** ** The meaning of a rule *)

Section nested_meaning.
Variable rec : Rule -> InboundContext -> bool.

(** One rule set of a rule-set item, seen from the rule [b] that refers to it:
    a set of one plain rule shares the groups of [b], any other set is one
    more condition. *)
Definition set_holds (b : RuleBody) (c n : InboundContext) (rules : list Rule) : bool :=
  match mergeableRuleIn rules with
  | Some branch =>
    all_items env branch n &&
    group_ok (g4_or (body_required b c) (body_required branch n))
             (g4_or (body_satisfied b c) (body_satisfied branch n))
  | None => group_ok (body_required b c) (body_satisfied b c) && existsb (fun r => rec r n) rules
  end.

Definition default_holds (b : RuleBody) (rs : option (RuleSetItem Rule)) (invert : bool)
    (c : InboundContext) : bool :=
  if no_items b rs then true
  else xorb invert
         (all_items env b c &&
          match rs with
          | None => group_ok (body_required b c) (body_satisfied b c)
          | Some r => existsb (set_holds b c (nestedMetadata r c)) (setList r)
          end).

End nested_meaning.

(** What a rule means by the documentation: the flags with which a rule set is
    referred to ([rule_set_ip_cidr_match_source]) apply to all that is in it,
    logical rules included. *)
Fixpoint means (r : Rule) (c : InboundContext) {struct r} : bool :=
  match r with
  | DefaultRule b rs invert None => default_holds means b rs invert c
  | DefaultRule b rs invert (Some tag) =>
    match (if decide (tag = EmptyString) then DNSResponse c else NamedDNSResponses c !! tag) with
    | None => invert
    | Some response => default_holds means b rs invert (with_response (Some response) c)
    end
  | LogicalRule LogicalTypeAnd rules invert => xorb invert (forallb (fun r => means r c) rules)
  | LogicalRule LogicalTypeOr rules invert => xorb invert (existsb (fun r => means r c) rules)
  end.

(** What the code makes of it: the rules of a logical rule do not see the
    flags. *)
Fixpoint holds (r : Rule) (c : InboundContext) {struct r} : bool :=
  match r with
  | DefaultRule b rs invert None => default_holds holds b rs invert c
  | DefaultRule b rs invert (Some tag) =>
    match (if decide (tag = EmptyString) then DNSResponse c else NamedDNSResponses c !! tag) with
    | None => invert
    | Some response => default_holds holds b rs invert (with_response (Some response) c)
    end
  | LogicalRule LogicalTypeAnd rules invert =>
    xorb invert (forallb (fun r => holds r (ResetRuleCache c)) rules)
  | LogicalRule LogicalTypeOr rules invert =>
    xorb invert (existsb (fun r => holds r (ResetRuleCache c)) rules)
  end.

End meaning.

(** No logical rule is in a rule set that is referred to with a flag; [flags]
    is whether the rule itself is. *)
Fixpoint flags_plain (flags : bool) (r : Rule) {struct r} : bool :=
  match r with
  | DefaultRule _ rs _ _ =>
    match rs with
    | None => true
    | Some (mkRuleSetItem sets s a) => forallb (forallb (flags_plain (s || a))) sets
    end
  | LogicalRule _ rules _ => negb flags && forallb (flags_plain false) rules
  end.

(** ** Induction on rules *)

Section rule_induction.
Variable P : Rule -> Prop.

Definition sets_all (rs : option (RuleSetItem Rule)) : Prop :=
  match rs with None => True | Some r => Forall (Forall P) (setList r) end.

Hypothesis HD : forall b rs invert mr, sets_all rs -> P (DefaultRule b rs invert mr).
Hypothesis HL : forall mode rules invert, Forall P rules -> P (LogicalRule mode rules invert).

Fixpoint Rule_nested_ind (r : Rule) : P r :=
  let fix all (l : list Rule) : Forall P l :=
    match l with
    | [] => Forall_nil_2 P
    | x :: l => Forall_cons_2 P x l (Rule_nested_ind x) (all l)
    end in
  let fix all2 (l : list (list Rule)) : Forall (Forall P) l :=
    match l with
    | [] => Forall_nil_2 (Forall P)
    | x :: l => Forall_cons_2 (Forall P) x l (all x) (all2 l)
    end in
  match r with
  | DefaultRule b rs invert mr =>
    HD b rs invert mr
      (match rs return sets_all rs with
       | None => I
       | Some (mkRuleSetItem sets _ _) => all2 sets
       end)
  | LogicalRule mode rules invert => HL mode rules invert (all rules)
  end.

End rule_induction.

(** ** Known destination addresses: the matcher computes the meaning *)

Section exact.
Context {L : RuleLib}.
Variable env : Environment.

(** The context of a match that skips nothing and has deferred nothing. *)
Definition settled (c : InboundContext) : Prop :=
  IgnoreDestinationIPCIDRMatch c = false /\ DeferredIPCIDRMatchGroups c = 0.

Definition exact_on (r : Rule) : Prop :=
  forall c, settled c -> Match env r c = (holds env r c, 0).

Lemma settled_defers b c : settled c -> defers b c = false.
Proof. intros [Hi _]. unfold defers. by rewrite Hi. Qed.

Lemma settled_nested s a c : settled c -> settled (with_rule_cache s a 0 c).
Proof. by intros [Hi _]. Qed.

Lemma evaluateGroups_settled b c :
  settled c ->
  evaluateGroups env b c =
  (mkGroups (encode (body_required b c)) (encode (body_satisfied env b c)), 0).
Proof.
  intros Hc. rewrite evaluateGroups_spec, (settled_defers b c Hc). by destruct Hc as [_ ->].
Qed.

Lemma any_headless_exact rules c :
  Forall exact_on rules -> settled c -> ResetRuleMatchCache c = c ->
  matchAnyHeadlessRule (Match env) rules c = (existsb (fun r => holds env r c) rules, 0).
Proof.
  intros Hr Hc Hn. unfold matchAnyHeadlessRule. induction Hr as [|r rules Hr _ IH]; cbn.
  - by destruct Hc as [_ ->].
  - rewrite Hn, (Hr c Hc). destruct (holds env r c); [|exact IH]. by destruct Hc as [_ ->].
Qed.

Lemma outer_groups_exact s a b c c' sets :
  Forall (Forall exact_on) sets -> settled c -> settled c' ->
  with_rule_cache s a 0 c' = with_rule_cache s a 0 c ->
  outer_groups env (Match env) s a c'
    (mkGroups (encode (body_required b c)) (encode (body_satisfied env b c))) false 0 sets =
  (existsb (set_holds env (holds env) b c (with_rule_cache s a 0 c)) sets, 0).
Proof.
  intros Hs Hc Hc' He. set (n := with_rule_cache s a 0 c) in *.
  assert (Hn : settled n) by (by apply settled_nested).
  induction Hs as [|rules sets Hr _ IH]; cbn [outer_groups existsb]; [by destruct Hc' as [_ ->]|].
  rewrite He. fold n. unfold set_holds at 1.
  destruct (mergeableRuleIn rules) as [branch|] eqn:E.
  - unfold evaluateForMerge. rewrite (evaluateGroups_settled _ _ Hn), all_items_with_deferred.
    destruct (all_items env branch n); cbn [andb]; [|exact IH].
    rewrite encode_merge, encode_done. destruct (group_ok _ _); cbn [andb orb]; [|exact IH].
    cbn [satisfied]. rewrite Z.ldiff_0_l. destruct Hc' as [_ ->]. by rewrite Z.ldiff_0_l.
  - rewrite encode_done. destruct (group_ok _ _); cbn [andb orb]; [|exact IH].
    rewrite any_headless_exact by done. destruct (existsb _ rules); cbn; [|exact IH].
    by destruct Hc' as [_ ->].
Qed.

Lemma default_exact b rs invert c :
  sets_all exact_on rs -> settled c ->
  abstractDefaultRule_Match env (Match env) b rs invert c =
  (default_holds env (holds env) b rs invert c, 0).
Proof.
  intros Hs Hc. unfold abstractDefaultRule_Match, default_holds.
  destruct (no_items b rs); [by destruct Hc as [_ ->]|].
  unfold matchInner. rewrite (evaluateGroups_settled _ _ Hc), all_items_with_deferred.
  destruct (all_items env b c); cbn [andb]; [|by destruct invert].
  destruct rs as [[sets s a]|]; cbn [sets_all setList] in *.
  - unfold matchWithOuterGroups. cbn [ipCidrMatchSource ipCidrAcceptEmpty setList].
    rewrite (outer_groups_exact s a b c (with_deferred 0 c) sets Hs Hc);
      [|by destruct Hc|done].
    change (nestedMetadata _ c) with (with_rule_cache s a 0 c).
    destruct (existsb _ sets), invert; cbn; by rewrite ?Z.ldiff_0_l.
  - rewrite encode_done. destruct (group_ok _ _), invert; cbn; by rewrite ?Z.ldiff_0_l.
Qed.

Lemma logical_and_exact rules c :
  Forall exact_on rules -> settled c ->
  logical_and (Match env) c 0 rules = (forallb (fun r => holds env r (ResetRuleCache c)) rules, 0).
Proof.
  intros Hr Hc. induction Hr as [|r rules Hr _ IH]; cbn; [done|].
  rewrite (Hr (ResetRuleCache c)) by (by apply settled_nested).
  destruct (holds env r _); cbn; done.
Qed.

Lemma logical_or_exact rules c :
  Forall exact_on rules -> settled c ->
  logical_or (Match env) c false 0 rules =
  (existsb (fun r => holds env r (ResetRuleCache c)) rules, 0).
Proof.
  intros Hr Hc. induction Hr as [|r rules Hr _ IH]; cbn; [done|].
  rewrite (Hr (ResetRuleCache c)) by (by apply settled_nested).
  destruct (holds env r _); cbn; done.
Qed.

Lemma Match_exact r : exact_on r.
Proof.
  induction r as [b rs invert mr Hs|mode rules invert Hr] using Rule_nested_ind; intros c Hc.
  - destruct mr as [tag|]; cbn [Match matchForMatch holds]; [|by apply default_exact].
    destruct (if decide (tag = EmptyString) then _ else _) as [response|];
      [|by destruct Hc as [_ ->]].
    rewrite default_exact by (done || by destruct Hc). by destruct Hc as [_ ->].
  - cbn [Match holds]. unfold abstractLogicalRule_Match.
    destruct mode; [rewrite logical_and_exact by done|rewrite logical_or_exact by done];
      destruct Hc as [_ ->]; [destruct (forallb _ _)|destruct (existsb _ _)]; by destruct invert.
Qed.

Lemma reset_plain c :
  settled c -> IPCIDRMatchSource c || IPCIDRAcceptEmpty c = false -> ResetRuleCache c = c.
Proof. destruct c. unfold settled. cbn. by intros [_ ->] [-> ->]%orb_false_iff. Qed.

Lemma default_holds_ext (f g : Rule -> InboundContext -> bool) b rs invert c :
  (forall r, rs = Some r -> Forall (Forall (fun x => f x (nestedMetadata r c) = g x (nestedMetadata r c))) (setList r)) ->
  default_holds env f b rs invert c = default_holds env g b rs invert c.
Proof.
  intros Hs. unfold default_holds. destruct (no_items b rs); [done|]. f_equal. f_equal.
  destruct rs as [r|]; [|done]. apply existsb_Forall_ext. eapply Forall_impl; [exact (Hs r eq_refl)|].
  intros rules Hr. unfold set_holds. destruct (mergeableRuleIn rules); [done|]. f_equal. by apply existsb_Forall_ext.
Qed.

(** Where no logical rule is in a rule set with flags, the code computes what
    the documentation says. *)
Lemma holds_means r :
  forall c, settled c -> flags_plain (IPCIDRMatchSource c || IPCIDRAcceptEmpty c) r = true ->
  holds env r c = means env r c.
Proof.
  induction r as [b rs invert mr Hs|mode rules invert Hr] using Rule_nested_ind; intros c Hc Hp.
  - assert (Hd : forall n, settled n ->
      default_holds env (holds env) b rs invert n = default_holds env (means env) b rs invert n).
    { intros n Hn. apply default_holds_ext. intros r ->. destruct r as [sets s a].
      cbn [sets_all setList flags_plain] in *. rewrite forallb_forall in Hp.
      apply Forall_forall. intros rules Hin. apply Forall_forall. intros x Hx.
      rewrite Forall_forall in Hs. specialize (Hs rules Hin). rewrite Forall_forall in Hs.
      apply (Hs x Hx); [by apply settled_nested|]. specialize (Hp rules ltac:(by apply list_elem_of_In)).
      rewrite forallb_forall in Hp. apply Hp. by apply list_elem_of_In. }
    cbn [holds means]. destruct mr as [tag|]; [|by apply Hd].
    destruct (if decide (tag = EmptyString) then _ else _); [|done]. apply Hd. by destruct Hc.
  - cbn [flags_plain] in Hp. apply andb_true_iff in Hp as [Hf Hp]. apply negb_true_iff in Hf.
    assert (He : Forall (fun r => holds env r (ResetRuleCache c) = means env r c) rules).
    { rewrite reset_plain by done. rewrite forallb_forall in Hp. rewrite Forall_forall in Hr |- *. intros r Hin.
      apply Hr; [done..|]. rewrite Hf. apply Hp. by apply list_elem_of_In. }
    cbn [holds means]. destruct mode; f_equal; [by apply forallb_Forall_ext|by apply existsb_Forall_ext].
Qed.

(** C3: the meaning of rules.  With the destination addresses at hand, the
    matcher (its bit masks, its loops with early exits, its shared and copied
    contexts) returns what the rule says by the documentation: all plain
    items, and in every group that has items one of them, where the groups of
    a rule set of one plain rule are joined with those of the rule that refers
    to it and every other rule set is one more condition, with the flags of
    the reference applied to all of the rule set; nothing is left deferred.
    Left out are logical rules inside a rule set that is referred to with
    [rule_set_ip_cidr_match_source] or [rule_set_ip_cidr_accept_empty]: they
    do not see the flag ([logical_in_flagged_set]). *)
Theorem Match_meaning r c :
  IgnoreDestinationIPCIDRMatch c = false -> DeferredIPCIDRMatchGroups c = 0 ->
  flags_plain (IPCIDRMatchSource c || IPCIDRAcceptEmpty c) r = true ->
  Match env r c = (means env r c, 0).
Proof. intros Hi Hd Hp. rewrite <- holds_means by done. by apply Match_exact. Qed.

End exact.

(** ** Unknown destination addresses: a safe approximation *)

(** Items that do not depend on the destination addresses. *)
Definition item_free (it : RuleItem) : bool :=
  match it with
  | IPCIDRItem isSource _ => isSource
  | IPIsPrivateItem isSource => isSource
  | IPAcceptAnyItem | PreferredByItem _ | DNSResponseRCodeItem _ | DNSResponseRecordItem _ _ => false
  | _ => true
  end.

Definition is_cidr (it : RuleItem) : bool :=
  match it with IPCIDRItem _ _ => true | _ => false end.

Definition body_free (b : RuleBody) : bool :=
  forallb item_free (items b) && forallb item_free (sourceAddressItems b) &&
  forallb item_free (sourcePortItems b) && forallb item_free (destinationAddressItems b) &&
  forallb item_free (destinationPortItems b).

(** A body tests destination addresses; [ms] is whether its CIDR items match
    the source instead. *)
Definition body_ip (ms : bool) (b : RuleBody) : bool :=
  negb ms && nonnil (destinationIPCIDRItems b).

Definition body_domain (b : RuleBody) : bool := nonnil (destinationAddressItems b).

(** A rule tests destination addresses somewhere. *)
Fixpoint rule_ip (ms : bool) (r : Rule) {struct r} : bool :=
  match r with
  | DefaultRule b rs _ _ =>
    body_ip ms b ||
    match rs with
    | None => false
    | Some (mkRuleSetItem sets s _) => existsb (existsb (rule_ip s)) sets
    end
  | LogicalRule _ rules _ => existsb (rule_ip false) rules
  end.

(** No destination address group mixes names and addresses: neither in a
    body, nor in the merge of a body with a rule set, nor in a body that
    refers to a rule set on addresses. *)
Definition set_unmixed (ms s : bool) (b : RuleBody) (rules : list Rule) : bool :=
  match mergeableRuleIn rules with
  | Some branch =>
    negb ((body_domain b || body_domain branch) && (body_ip ms b || body_ip s branch))
  | None => negb (body_domain b && existsb (rule_ip s) rules)
  end.

Fixpoint unmixed (ms : bool) (r : Rule) {struct r} : bool :=
  match r with
  | DefaultRule b rs _ mr =>
    match mr with None => true | Some _ => false end &&
    body_free b && implb ms (forallb is_cidr (destinationIPCIDRItems b)) &&
    negb (body_domain b && body_ip ms b) &&
    match rs with
    | None => true
    | Some (mkRuleSetItem sets s _) =>
      forallb (fun rules => forallb (unmixed s) rules && set_unmixed ms s b rules) sets
    end
  | LogicalRule _ rules _ => forallb (unmixed false) rules
  end.

(** The context once the addresses are known. *)
Definition answered (addresses : list Addr) (response : option Msg) (from : bool)
    (c : InboundContext) : InboundContext :=
  mkContext (Inbound c) (IPVersion c) (Network c) (Source c) (Destination c) (User c) (Outbound c)
    (Protocol c) (Domain c) (Client c) addresses response
    (NamedDNSResponses c) from (ProcessInfo c)
    (SourceMACAddress c) (SourceHostname c) (QueryType c) (QueryClientSubnet c) (QueryDNSSEC c)
    (IPCIDRMatchSource c) (IPCIDRAcceptEmpty c) (DeferredIPCIDRMatchGroups c) false.

Section prematch.
Context {L : RuleLib}.
Variable env : Environment.
Variable addresses : list Addr.
Variable response : option Msg.
Variable from : bool.

Local Notation ans := (answered addresses response from).

Definition pending (c : InboundContext) : Prop :=
  IgnoreDestinationIPCIDRMatch c = true /\ DeferredIPCIDRMatchGroups c = 0.

(** A verdict before the addresses are known, against the truth: "no" is
    final, and so is "yes" unless something is deferred. *)
Definition verdict (m d t : bool) : Prop :=
  (m = false -> t = false) /\ (m = true -> d = false -> t = true).

Lemma item_free_answered it c : item_free it = true -> item_Match env it (ans c) = item_Match env it c.
Proof.
  destruct it; try done; cbn; intros ->; try done.
Qed.

Lemma any_answered l c :
  forallb item_free l = true -> matchAnyItem env l (ans c) = matchAnyItem env l c.
Proof.
  intros Hl. apply existsb_Forall_ext, Forall_forall. intros it Hit.
  apply item_free_answered. rewrite forallb_forall in Hl. apply Hl. by apply list_elem_of_In.
Qed.

Lemma all_items_answered b c :
  forallb item_free (items b) = true -> all_items env b (ans c) = all_items env b c.
Proof.
  intros Hl. apply forallb_Forall_ext, Forall_forall. intros it Hit.
  apply item_free_answered. rewrite forallb_forall in Hl. apply Hl. by apply list_elem_of_In.
Qed.

(** With the source flag set, CIDR items look at the source. *)
Lemma cidr_answered l c :
  IPCIDRMatchSource c = true -> forallb is_cidr l = true ->
  matchAnyItem env l (ans c) = matchAnyItem env l c.
Proof.
  intros Hm Hl. apply existsb_Forall_ext, Forall_forall. intros it Hit.
  rewrite forallb_forall in Hl. specialize (Hl it ltac:(by apply list_elem_of_In)).
  destruct it; try done. cbn. unfold IPCIDRItem_Match. cbn. by rewrite Hm, orb_true_r.
Qed.

Definition add_da (o : bool) (g : groups4) : groups4 := G4 (g_sa g) (g_sp g) (g_da g || o) (g_dp g).

(** The answer adds the address tests to the destination address group. *)
Lemma body_answered b c :
  pending c -> body_free b = true ->
  implb (IPCIDRMatchSource c) (forallb is_cidr (destinationIPCIDRItems b)) = true ->
  exists x,
    body_required b (ans c) = add_da (body_ip (IPCIDRMatchSource c) b) (body_required b c) /\
    body_satisfied env b (ans c) =
      add_da (body_ip (IPCIDRMatchSource c) b && x) (body_satisfied env b c) /\
    g_da (body_required b c) = body_domain b /\
    (g_da (body_satisfied env b c) = true -> body_domain b = true) /\
    defers b c = body_ip (IPCIDRMatchSource c) b && negb (body_domain b) /\
    all_items env b (ans c) = all_items env b c.
Proof.
  intros [Hi _] Hf Hc. unfold body_free in Hf.
  apply andb_true_iff in Hf as [Hf H5]. apply andb_true_iff in Hf as [Hf H4].
  apply andb_true_iff in Hf as [Hf H3]. apply andb_true_iff in Hf as [H1 H2].
  exists (matchAnyItem env (destinationIPCIDRItems b) (ans c)).
  unfold body_required, body_satisfied, body_ip, body_domain, defers,
    destinationIPCIDRMatchesSource, destinationIPCIDRMatchesDestination.
  rewrite (any_answered _ _ H2), (any_answered _ _ H3), (any_answered _ _ H4), (any_answered _ _ H5).
  rewrite (all_items_answered _ _ H1).
  cbn [answered IPCIDRMatchSource IgnoreDestinationIPCIDRMatch].
  rewrite Hi, (any_nonnil env (destinationAddressItems b) c).
  destruct (IPCIDRMatchSource c) eqn:Em; cbn [negb andb orb implb] in *.
  - rewrite (cidr_answered _ _ Em Hc). unfold add_da. cbn. rewrite !orb_false_r.
    split_and!; try done. by intros [? _]%andb_true_iff.
  - unfold add_da. cbn. rewrite ?orb_false_r.
    split_and!; try done. by intros [? _]%andb_true_iff.
Qed.

(** *** Loops over rules *)

Definition sound_on (r : Rule) : Prop :=
  forall c, pending c -> unmixed (IPCIDRMatchSource c) r = true ->
  exists m d, Match env r c = (m, deferred_bit d) /\ verdict m d (holds env r (ans c)) /\
  (rule_ip (IPCIDRMatchSource c) r = false -> d = false).

(** A loop that collects matches: nothing matched so far, or all of it is
    deferred. *)
Definition collects (matched dd : bool) : Prop := matched = true -> dd = true.

Lemma any_headless_sound rules n matched dd :
  Forall sound_on rules -> pending n -> ResetRuleMatchCache n = n ->
  forallb (unmixed (IPCIDRMatchSource n)) rules = true -> collects matched dd ->
  exists M D, any_headless (Match env) n matched (deferred_bit dd) rules = (M, deferred_bit D) /\
  (M = false -> matched = false /\ existsb (fun r => holds env r (ans n)) rules = false) /\
  (M = true -> D = false -> existsb (fun r => holds env r (ans n)) rules = true) /\
  (existsb (rule_ip (IPCIDRMatchSource n)) rules = false -> dd = false -> D = false).
Proof.
  intros Hr Hn Hreset. revert matched dd.
  induction Hr as [|r rules Hr _ IH]; intros matched dd Hu Hm; cbn [any_headless forallb existsb] in *.
  - destruct Hn as [_ ->]. exists matched, (matched && dd). split; [by destruct matched|].
    split; [done|]. split; [|by intros _ ->; rewrite andb_false_r].
    intros ->. by rewrite (Hm eq_refl).
  - apply andb_true_iff in Hu as [Hu1 Hu2]. rewrite Hreset.
    destruct (Hr n Hn Hu1) as (m & d & -> & [Hv1 Hv2] & Hip). destruct m.
    + rewrite deferred_zero. destruct d; cbn [negb].
      * rewrite deferred_or. destruct (IH true (dd || true) Hu2) as (M & D & -> & H1 & H2 & H3);
          [by rewrite orb_true_r|]. exists M, D. split; [done|]. split_and!.
        -- intros HM. by destruct (H1 HM).
        -- intros HM HD. by rewrite (H2 HM HD), orb_true_r.
        -- intros [Hx _]%orb_false_iff. by specialize (Hip Hx).
      * destruct Hn as [_ ->]. exists true, false. split_and!; [done|done| |done].
        intros _ _. by rewrite (Hv2 eq_refl eq_refl).
    + destruct (IH matched dd Hu2 Hm) as (M & D & -> & H1 & H2 & H3). exists M, D.
      rewrite (Hv1 eq_refl). cbn [orb]. split_and!; [done..|].
      intros [_ Hx]%orb_false_iff. by apply H3.
Qed.

Lemma logical_and_sound rules c dd :
  Forall sound_on rules -> pending c -> forallb (unmixed false) rules = true ->
  exists M D, logical_and (Match env) c (deferred_bit dd) rules = (M, deferred_bit D) /\
  (M = false -> D = false /\ forallb (fun r => holds env r (ans (ResetRuleCache c))) rules = false) /\
  (M = true -> D = false ->
     dd = false /\ forallb (fun r => holds env r (ans (ResetRuleCache c))) rules = true) /\
  (existsb (rule_ip false) rules = false -> dd = false -> D = false).
Proof.
  intros Hr Hc. assert (Hp : pending (ResetRuleCache c)) by (by destruct Hc).
  revert dd. induction Hr as [|r rules Hr _ IH]; intros dd Hu; cbn [logical_and forallb existsb] in *.
  - by exists true, dd.
  - apply andb_true_iff in Hu as [Hu1 Hu2].
    destruct (Hr _ Hp Hu1) as (m & d & -> & [Hv1 Hv2] & Hip). destruct m.
    + rewrite deferred_or. destruct (IH (dd || d) Hu2) as (M & D & -> & H1 & H2 & H3).
      exists M, D. split_and!; [done| | |].
      * intros HM. destruct (H1 HM) as [? ->]. by rewrite andb_false_r.
      * intros HM HD. destruct (H2 HM HD) as [[-> ->]%orb_false_iff ->].
        by rewrite (Hv2 eq_refl eq_refl).
      * intros [Hx1 Hx2]%orb_false_iff ->. apply H3; [done|]. by rewrite (Hip Hx1).
    + exists false, false. rewrite (Hv1 eq_refl). by split_and!.
Qed.

Lemma logical_or_sound rules c matched dd :
  Forall sound_on rules -> pending c -> forallb (unmixed false) rules = true ->
  collects matched dd ->
  exists M D, logical_or (Match env) c matched (deferred_bit dd) rules = (M, deferred_bit D) /\
  (M = false -> D = dd /\ matched = false /\
     existsb (fun r => holds env r (ans (ResetRuleCache c))) rules = false) /\
  (M = true -> D = false -> existsb (fun r => holds env r (ans (ResetRuleCache c))) rules = true) /\
  (existsb (rule_ip false) rules = false -> dd = false -> D = false).
Proof.
  intros Hr Hc. assert (Hp : pending (ResetRuleCache c)) by (by destruct Hc).
  revert matched dd.
  induction Hr as [|r rules Hr _ IH]; intros matched dd Hu Hm; cbn [logical_or forallb existsb] in *.
  - exists matched, dd. split_and!; [done|done| |done]. intros HM. by rewrite (Hm HM).
  - apply andb_true_iff in Hu as [Hu1 Hu2].
    destruct (Hr _ Hp Hu1) as (m & d & -> & [Hv1 Hv2] & Hip). destruct m.
    + rewrite deferred_zero. destruct d; cbn [negb].
      * rewrite deferred_or. destruct (IH true (dd || true) Hu2) as (M & D & -> & H1 & H2 & H3);
          [by intros _; rewrite orb_true_r|]. exists M, D. split_and!; [done| | |].
        -- intros HM. by destruct (H1 HM) as (_ & ? & _).
        -- intros HM HD. by rewrite (H2 HM HD), orb_true_r.
        -- intros [Hx _]%orb_false_iff. by specialize (Hip Hx).
      * exists true, false. split_and!; [done|done| |done].
        intros _ _. by rewrite (Hv2 eq_refl eq_refl).
    + destruct (IH matched dd Hu2 Hm) as (M & D & -> & H1 & H2 & H3). exists M, D.
      rewrite (Hv1 eq_refl). cbn [orb]. split_and!; [done..|].
      intros [_ Hx]%orb_false_iff. by apply H3.
Qed.

(** *** Rule sets *)

Lemma mergeable_inv rules branch :
  mergeableRuleIn rules = Some branch -> rules = [DefaultRule branch None false None].
Proof.
  destruct rules as [|[b [|] [] [|]|] [|]]; cbn; try done. by intros [= ->].
Qed.

(** One rule set before the answer: whether it matched and whether that is
    deferred. *)
Definition set_pre (b : RuleBody) (c n : InboundContext) (rules : list Rule) (m d : bool) : Prop :=
  match mergeableRuleIn rules with
  | Some branch =>
    m = all_items env branch n &&
        group_ok (g4_or (body_required b c) (body_required branch n))
                 (g4_or (body_satisfied env b c) (body_satisfied env branch n)) /\
    d = defers branch n &&
        negb (g_da (body_satisfied env b c) || g_da (body_satisfied env branch n))
  | None =>
    (group_ok (body_required b c) (body_satisfied env b c) = false /\ m = false /\ d = false) \/
    (group_ok (body_required b c) (body_satisfied env b c) = true /\
     matchAnyHeadlessRule (Match env) rules n = (m, deferred_bit d))
  end.

(** The verdict of one rule set, given that the body [b] itself is judged by
    names or by addresses only. *)
Lemma set_sound s b c n rules :
  pending c -> pending n -> ResetRuleMatchCache n = n -> IPCIDRMatchSource n = s ->
  body_free b = true ->
  implb (IPCIDRMatchSource c) (forallb is_cidr (destinationIPCIDRItems b)) = true ->
  negb (body_domain b && body_ip (IPCIDRMatchSource c) b) = true ->
  Forall sound_on rules -> forallb (unmixed s) rules = true ->
  set_unmixed (IPCIDRMatchSource c) s b rules = true ->
  exists m d, set_pre b c n rules m d /\
  (m = false -> set_holds env (holds env) b (ans c) (ans n) rules = false) /\
  (m = true -> d = false -> body_ip (IPCIDRMatchSource c) b = false ->
   set_holds env (holds env) b (ans c) (ans n) rules = true) /\
  (g_da (body_satisfied env b c) = true -> d = false) /\
  (existsb (rule_ip s) rules = false -> d = false) /\
  (body_ip (IPCIDRMatchSource c) b = true ->
   match mergeableRuleIn rules with
   | Some branch => g_da (body_satisfied env branch n) = false
   | None => True
   end).
Proof.
  intros Hc Hn Hreset <- Hbf Hbc Hbu Hrs Hu Hsu. unfold set_pre, set_holds, set_unmixed in *.
  destruct (body_answered b c Hc Hbf Hbc) as (x & -> & -> & Hrq & Hst & Hdf & _).
  destruct (mergeableRuleIn rules) as [branch|] eqn:E.
  - apply mergeable_inv in E. subst rules. cbn [forallb unmixed] in Hu.
    rewrite !andb_true_r in Hu. cbn [andb] in Hu. apply andb_true_iff in Hu as [Hu Hu3].
    apply andb_true_iff in Hu as [Hu1 Hu2].
    destruct (body_answered branch n Hn Hu1 Hu2) as (y & -> & -> & Hrq' & Hst' & -> & ->).
    eexists _, _. split; [done|]. cbn [existsb rule_ip].
    destruct (body_required b c) as [r1 r2 r3 r4], (body_satisfied env b c) as [s1 s2 s3 s4],
      (body_required branch n) as [q1 q2 q3 q4], (body_satisfied env branch n) as [t1 t2 t3 t4].
    unfold add_da, group_ok, g4_or. cbn in *. subst r3 q3.
    destruct (body_ip (IPCIDRMatchSource c) b), (body_ip (IPCIDRMatchSource n) branch),
      (body_domain b), (body_domain branch), s3, t3; try done; cbn;
      try (specialize (Hst eq_refl)); try (specialize (Hst' eq_refl)); try done;
      rewrite ?orb_false_r, ?andb_false_r, ?andb_true_r;
      (split_and!; [try done| |try done|try done|try done]);
      try (by intros ->); try (by intros -> ->); try done.
    all: destruct (all_items env branch n), (implb (r1 || q1) _), (implb (r2 || q2) _),
      (implb (r4 || q4) _); cbn; rewrite ?andb_false_r; done.
  - assert (Hok : group_ok (body_required b c) (body_satisfied env b c) = false ->
      group_ok (add_da (body_ip (IPCIDRMatchSource c) b) (body_required b c))
        (add_da (body_ip (IPCIDRMatchSource c) b && x) (body_satisfied env b c)) = false).
    { destruct (body_required b c) as [r1 r2 r3 r4], (body_satisfied env b c) as [s1 s2 s3 s4].
      unfold add_da, group_ok. cbn in *. subst r3.
      destruct (body_ip _ b), (body_domain b); try done; cbn; rewrite ?orb_false_r; try done.
      destruct (implb r1 _), (implb r2 _), (implb r4 _); cbn; rewrite ?andb_false_r; done. }
    destruct (group_ok (body_required b c) _) eqn:Eg.
    + destruct (any_headless_sound rules n false false Hrs Hn Hreset Hu)
        as (M & D & HM & H1 & H2 & H3); [done|]. exists M, D.
      split_and!; [by right| | | | |done].
      * intros Em. destruct (H1 Em) as [_ ->]. apply andb_false_r.
      * intros Em Ed Hip. rewrite Hip. unfold add_da. cbn [andb]. rewrite !orb_false_r.
        rewrite (H2 Em Ed), andb_true_r.
        by destruct (body_required b c), (body_satisfied env b c).
      * intros Hda. apply H3; [|done]. rewrite (Hst Hda) in Hsu. by apply negb_true_iff in Hsu.
      * intros Hip. by apply H3.
    + exists false, false. rewrite (Hok eq_refl). split_and!; try done. by left.
Qed.

(** One round of the loop over the rule sets. *)
Lemma outer_groups_step s a b c c' n rules sets matched deferred ip m d :
  pending n -> with_rule_cache s a 0 c' = n -> DeferredIPCIDRMatchGroups c' = deferred_bit ip ->
  set_pre b c n rules m d ->
  (ip = true -> g_da (body_satisfied env b c) = false) ->
  (ip = true -> match mergeableRuleIn rules with
                | Some branch => g_da (body_satisfied env branch n) = false
                | None => True
                end) ->
  let g := mkGroups (encode (body_required b c)) (encode (body_satisfied env b c)) in
  outer_groups env (Match env) s a c' g matched deferred (rules :: sets) =
  if m then
    if d then outer_groups env (Match env) s a c' g true (Z.lor deferred (deferred_bit true)) sets
    else (true, deferred_bit ip)
  else outer_groups env (Match env) s a c' g matched deferred sets.
Proof.
  intros [_ Hn] He Hd Hpre Hs1 Hs2 g. cbn [outer_groups]. rewrite He. unfold set_pre in Hpre.
  destruct (mergeableRuleIn rules) as [branch|].
  - destruct Hpre as [-> ->]. unfold evaluateForMerge.
    rewrite evaluateGroups_spec, all_items_with_deferred, Hn.
    change (if defers branch n then _ else 0) with (deferred_bit (defers branch n)).
    destruct (all_items env branch n); cbn [andb]; [|done].
    unfold g. rewrite encode_merge, encode_done. destruct (group_ok _ _); cbn [andb]; [|done].
    cbn [satisfied]. rewrite encode_ldiff, deferred_zero, Hd, encode_ldiff. cbn [g4_or g_da].
    destruct (defers branch n && _); cbn [negb]; [done|].
    destruct ip; [by rewrite (Hs1 eq_refl), (Hs2 eq_refl)|done].
  - unfold g. rewrite encode_done. destruct Hpre as [(-> & -> & ->)|(-> & ->)]; [done|].
    destruct m; [|done]. rewrite deferred_zero, Hd. by destruct d.
Qed.

(** The loop over the rule sets.  [c'] is the context [c] with the deferred
    group of the body recorded. *)
Lemma outer_groups_sound s a b c c' sets matched dd :
  pending c -> IPCIDRMatchSource c' = IPCIDRMatchSource c ->
  DeferredIPCIDRMatchGroups c' = deferred_bit (body_ip (IPCIDRMatchSource c) b) ->
  with_rule_cache s a 0 c' = with_rule_cache s a 0 c ->
  body_free b = true ->
  implb (IPCIDRMatchSource c) (forallb is_cidr (destinationIPCIDRItems b)) = true ->
  negb (body_domain b && body_ip (IPCIDRMatchSource c) b) = true ->
  Forall (Forall sound_on) sets ->
  forallb (fun rules => forallb (unmixed s) rules &&
                        set_unmixed (IPCIDRMatchSource c) s b rules) sets = true ->
  collects matched dd -> (g_da (body_satisfied env b c) = true -> dd = false) ->
  let n := with_rule_cache s a 0 c in
  exists M D,
    outer_groups env (Match env) s a c'
      (mkGroups (encode (body_required b c)) (encode (body_satisfied env b c)))
      matched (deferred_bit dd) sets = (M, deferred_bit D) /\
    (M = false -> matched = false /\
       existsb (set_holds env (holds env) b (ans c) (ans n)) sets = false) /\
    (M = true -> D && negb (g_da (body_satisfied env b c)) = false ->
       existsb (set_holds env (holds env) b (ans c) (ans n)) sets = true) /\
    (body_ip (IPCIDRMatchSource c) b = false -> existsb (existsb (rule_ip s)) sets = false ->
       dd = false -> D = false).
Proof.
  intros Hc Hms Hd He Hbf Hbc Hbu Hs Hu Hm Hda n.
  assert (Hn : pending n) by (by destruct Hc).
  assert (Hdom : g_da (body_satisfied env b c) = true -> body_ip (IPCIDRMatchSource c) b = false).
  { destruct (body_answered b c Hc Hbf Hbc) as (x & _ & _ & _ & Hst & _).
    intros H. rewrite (Hst H) in Hbu. by apply negb_true_iff in Hbu. }
  revert matched dd Hm Hda Hu.
  induction Hs as [|rules sets Hr _ IH]; intros matched dd Hm Hda Hu;
    cbn [existsb forallb] in *.
  - cbn [outer_groups]. rewrite Hd. exists matched, (body_ip (IPCIDRMatchSource c) b || (matched && dd)).
    split_and!; [|done| |by intros -> _ ->; rewrite andb_false_r].
    + destruct matched; cbn [andb]; [by rewrite deferred_or|by rewrite orb_false_r].
    + intros ->. rewrite (Hm eq_refl), orb_true_r in *. cbn [andb].
      destruct (g_da _); [by specialize (Hda eq_refl)|done].
  - apply andb_true_iff in Hu as [[Hu1 Hu2]%andb_true_iff Hu3].
    destruct (set_sound s b c n rules Hc Hn eq_refl eq_refl Hbf Hbc Hbu Hr Hu1 Hu2)
      as (m & d & Hpre & H1 & H2 & H3 & H4 & H5).
    rewrite (outer_groups_step s a b c c' n rules sets matched _ _ m d Hn He Hd Hpre);
      [|destruct (g_da _); [by rewrite Hdom|done]|done].
    destruct m; [destruct d|].
    + rewrite deferred_or. destruct (IH true (dd || true)) as (M & D & -> & G1 & G2 & G3);
        [by intros _; rewrite orb_true_r| |done|].
      { intros Hx. by specialize (H3 Hx). }
      exists M, D. split_and!; [done| | |].
      * intros HM. by destruct (G1 HM).
      * intros HM HD. by rewrite (G2 HM HD), orb_true_r.
      * intros _ [Hx _]%orb_false_iff. by specialize (H4 Hx).
    + eexists true, _. split; [done|]. split_and!; [done| |by intros ->].
      intros _ HD. rewrite H2; [done..|]. destruct (body_ip _ b); [|done].
      destruct (g_da _); [by apply Hdom|done].
    + destruct (IH matched dd Hm Hda Hu3) as (M & D & -> & G1 & G2 & G3). exists M, D.
      rewrite (H1 eq_refl). cbn [orb]. split_and!; [done..|].
      intros Hx [_ Hy]%orb_false_iff. by apply G3.
Qed.

(** *** Rules *)

(** A match that is safe stays safe when its result is inverted. *)
Lemma invert_sound (invert m d t : bool) :
  verdict m d t ->
  exists m' d', (if invert then if m then (negb (deferred_bit d =? 0), deferred_bit d) else (true, 0)
                 else (m, deferred_bit d)) = (m', deferred_bit d') /\
  verdict m' d' (xorb invert t) /\ (d = false -> d' = false).
Proof.
  intros [H1 H2]. destruct invert; [|exists m, d; split; [done|]; by destruct t].
  rewrite deferred_zero, negb_involutive. destruct m.
  - exists d, d. split; [done|]. split; [|done]. split; [|by intros ->].
    intros ->. by rewrite (H2 eq_refl eq_refl).
  - exists true, false. split; [done|]. split; [|done]. by rewrite (H1 eq_refl).
Qed.

Lemma inner_sound b rs c :
  sets_all sound_on rs -> pending c ->
  unmixed (IPCIDRMatchSource c) (DefaultRule b rs false None) = true ->
  exists m d, matchInner env (Match env) b rs c = (m, deferred_bit d) /\
  verdict m d
    (all_items env b (ans c) &&
     match rs with
     | None => group_ok (body_required b (ans c)) (body_satisfied env b (ans c))
     | Some r => existsb (set_holds env (holds env) b (ans c) (nestedMetadata r (ans c))) (setList r)
     end) /\
  (rule_ip (IPCIDRMatchSource c) (DefaultRule b rs false None) = false -> d = false).
Proof.
  intros Hs Hc Hu. cbn [unmixed rule_ip andb] in *.
  apply andb_true_iff in Hu as [Hu Hsets]. apply andb_true_iff in Hu as [Hu Hbu].
  apply andb_true_iff in Hu as [Hbf Hbc].
  destruct (body_answered b c Hc Hbf Hbc) as (x & Hrq & Hst & Hrd & Hsd & Hdf & ->).
  unfold matchInner. rewrite evaluateGroups_spec, all_items_with_deferred.
  assert (Hd0 : (if defers b c then Z.lor (DeferredIPCIDRMatchGroups c) ruleMatchDestinationAddress
                 else DeferredIPCIDRMatchGroups c) = deferred_bit (body_ip (IPCIDRMatchSource c) b)).
  { destruct Hc as [_ ->]. rewrite Hdf. by destruct (body_ip _ b), (body_domain b). }
  rewrite Hd0. destruct (all_items env b c); cbn [andb].
  2: { exists false, (body_ip (IPCIDRMatchSource c) b). split; [done|]. split; [done|].
       by intros [? _]%orb_false_iff. }
  destruct rs as [[sets sf a]|]; cbn [sets_all setList] in *.
  - unfold matchWithOuterGroups. cbn [ipCidrMatchSource ipCidrAcceptEmpty setList].
    destruct (outer_groups_sound sf a b c
      (with_deferred (deferred_bit (body_ip (IPCIDRMatchSource c) b)) c) sets false false
      Hc eq_refl eq_refl eq_refl Hbf Hbc Hbu Hs Hsets ltac:(done) ltac:(done))
      as (M & D & HM & H1 & H2 & H3). cbn [deferred_bit] in HM. rewrite HM. cbn [satisfied].
    exists M, (if M then D && negb (g_da (body_satisfied env b c)) else D).
    split; [destruct M; by rewrite ?encode_ldiff|]. split; [split|].
    + intros HMf. by destruct (H1 HMf) as [_ ?].
    + intros ->. by apply H2.
    + intros [Hx Hy]%orb_false_iff. rewrite (H3 Hx Hy eq_refl). by destruct M.
  - rewrite encode_done. cbn [satisfied]. rewrite Hrq, Hst.
    destruct (group_ok (body_required b c) _) eqn:Eg.
    + exists true, (body_ip (IPCIDRMatchSource c) b && negb (g_da (body_satisfied env b c))).
      split; [by rewrite encode_ldiff|]. split; [|by intros [-> _]%orb_false_iff].
      split; [done|]. intros _ Hd. assert (body_ip (IPCIDRMatchSource c) b = false) as ->.
      { destruct (body_ip _ b); [|done]. destruct (g_da (body_satisfied env b c)); [|done].
        rewrite (Hsd eq_refl) in Hbu. done. }
      unfold add_da. cbn [andb]. rewrite !orb_false_r.
      by destruct (body_required b c), (body_satisfied env b c).
    + exists false, (body_ip (IPCIDRMatchSource c) b). split; [done|].
      split; [|by intros [? _]%orb_false_iff]. split; [|done]. intros _.
      destruct (body_required b c) as [r1 r2 r3 r4], (body_satisfied env b c) as [s1 s2 s3 s4].
      unfold add_da, group_ok in *. cbn in *. subst r3.
      destruct (body_ip _ b), (body_domain b); try done; cbn in *; rewrite ?orb_false_r; try done.
      destruct (implb r1 _), (implb r2 _), (implb r4 _); cbn; rewrite ?andb_false_r; done.
Qed.

Lemma Match_sound r : sound_on r.
Proof.
  induction r as [b rs invert mr Hs|mode rules invert Hr] using Rule_nested_ind; intros c Hc Hu.
  - destruct mr as [tag|]; [done|]. cbn [Match matchForMatch holds].
    unfold abstractDefaultRule_Match, default_holds. destruct (no_items b rs) eqn:En.
    { exists true, false. split; [by destruct Hc as [_ ->]|]. done. }
    destruct (inner_sound b rs c Hs Hc Hu) as (m & d & -> & Hv & Hip).
    destruct (invert_sound invert m d _ Hv) as (m' & d' & -> & Hv' & Hd').
    exists m', d'. split; [done|]. split; [done|]. intros Hx. apply Hd', Hip, Hx.
  - cbn [Match holds unmixed rule_ip] in *. unfold abstractLogicalRule_Match.
    assert (exists M D, match mode with
        | LogicalTypeAnd => logical_and (Match env) c 0 rules
        | LogicalTypeOr => logical_or (Match env) c false 0 rules end = (M, deferred_bit D) /\
      (M = false -> D = false) /\
      verdict M D (match mode with
        | LogicalTypeAnd => forallb (fun r => holds env r (ans (ResetRuleCache c))) rules
        | LogicalTypeOr => existsb (fun r => holds env r (ans (ResetRuleCache c))) rules end) /\
      (existsb (rule_ip false) rules = false -> D = false)) as (M & D & -> & HMD & Hv & Hip).
    { destruct mode.
      - destruct (logical_and_sound rules c false Hr Hc Hu) as (M & D & HM & H1 & H2 & H3).
        exists M, D. split; [done|]. split; [by intros H; destruct (H1 H)|].
        split; [|by intros Hx; apply H3]. split; [by intros H; destruct (H1 H)|].
        intros Hm Hd. by destruct (H2 Hm Hd).
      - destruct (logical_or_sound rules c false false Hr Hc Hu) as (M & D & HM & H1 & H2 & H3);
          [done|]. exists M, D. split; [done|]. split; [by intros H; destruct (H1 H)|].
        split; [|by intros Hx; apply H3]. split; [by intros H; destruct (H1 H) as (_ & _ & ?)|done]. }
    destruct Hc as [_ Hc0]. rewrite Hc0.
    destruct (invert_sound invert M D _ Hv) as (m' & d' & Heq & Hv' & Hd').
    exists m', d'. split; [|split; [by destruct mode|by intros Hx; apply Hd', Hip]].
    rewrite <- Heq. destruct M; cbn; [by destruct invert|]. rewrite (HMD eq_refl). by destruct invert.
Qed.

Lemma LegacyPreMatch_sound r c :
  IgnoreDestinationIPCIDRMatch c = false -> DeferredIPCIDRMatchGroups c = 0 ->
  IPCIDRMatchSource c = false -> unmixed false r = true ->
  exists m d, LegacyPreMatch env r c = (m, deferred_bit d) /\
  verdict m d (holds env r (ans c)) /\ (rule_ip false r = false -> d = false).
Proof.
  intros Hi Hd Hm Hu. assert (Hp : pending (with_ignore true c)) by done.
  destruct (Match_sound r (with_ignore true c) Hp) as (m & d & HM & Hv & H3);
    [by cbn; rewrite Hm|]. cbn [with_ignore IPCIDRMatchSource] in H3. rewrite Hm in H3.
  exists m, d. split; [|done]. rewrite <- HM. by destruct r as [b rs invert [tag|]|].
Qed.

End prematch.

Section dns_rules.
Context {L : RuleLib}.
Variable env : Environment.

(** The match against an answer is the meaning of the rule in the context of
    that answer. *)
Lemma MatchAddressLimit_meaning r response c :
  IgnoreDestinationIPCIDRMatch c = false -> DeferredIPCIDRMatchGroups c = 0 ->
  IPCIDRMatchSource c = false -> IPCIDRAcceptEmpty c = false -> unmixed false r = true ->
  MatchAddressLimit env r response c =
  holds env r (answered (DestinationAddresses c) response true c).
Proof.
  intros Hi Hd Hm Ha Hu. unfold MatchAddressLimit.
  set (c' := with_response response (ResetRuleCache c)).
  assert (Hc' : settled c') by done.
  assert (Heq : answered (DestinationAddresses c) response true c = c').
  { unfold c', answered, with_response, ResetRuleCache, with_rule_cache. cbn.
    by rewrite Hi, Hd, Hm, Ha. }
  rewrite Heq. pose proof (Match_exact env r c' Hc') as HM.
  destruct r as [b rs invert [tag|]|]; [done| |]; cbn [Match matchForMatch] in HM; by rewrite HM.
Qed.

(** C11: matching before the answer is safe.  For a DNS rule whose
    destination address groups do not mix names and addresses, neither in one
    rule nor between a rule and a rule set it refers to ([unmixed], which also
    leaves out [match_response], response and [preferred_by] items, and other
    items than CIDR ones where the source is matched; [deferral_lost] shows a
    rule outside of it), the match
    before the query is answered agrees with the match against whatever
    answer comes back: "no match" is right for every answer, and so is
    "match" unless a group was deferred; a rule without tests on
    destination addresses defers nothing. *)
Theorem LegacyPreMatch_safe r response c :
  IgnoreDestinationIPCIDRMatch c = false -> DeferredIPCIDRMatchGroups c = 0 ->
  IPCIDRMatchSource c = false -> IPCIDRAcceptEmpty c = false -> unmixed false r = true ->
  let '(matched, deferred) := LegacyPreMatch env r c in
  (matched = false -> MatchAddressLimit env r response c = false) /\
  (matched = true -> deferred = 0 -> MatchAddressLimit env r response c = true) /\
  (rule_ip false r = false -> deferred = 0).
Proof.
  intros Hi Hd Hm Ha Hu. rewrite MatchAddressLimit_meaning by done.
  destruct (LegacyPreMatch_sound env (DestinationAddresses c) response true r c Hi Hd Hm Hu)
    as (m & d & -> & [H1 H2] & H3).
  split_and!; [exact H1| |by intros Hx; rewrite (H3 Hx)].
  intros -> Hd0. apply H2; [done|]. by destruct d.
Qed.

(** A rule on one IP set. *)
Definition ip_rule (set : Addr -> bool) : Rule :=
  DefaultRule (mkBody [] [] [] [] [IPCIDRItem false set] []) None false None.

Lemma ip_rule_meaning set c :
  IgnoreDestinationIPCIDRMatch c = false -> IPCIDRMatchSource c = false ->
  holds env (ip_rule set) c = matchAnyItem env [IPCIDRItem false set] c.
Proof.
  intros Hi Hm. cbn. unfold default_holds, body_required, body_satisfied,
    destinationIPCIDRMatchesSource, destinationIPCIDRMatchesDestination. cbn.
  rewrite Hi, Hm. unfold group_ok. cbn. by rewrite !andb_true_r.
Qed.

(** An inverted rule on a name and a rule set of two address rules. *)
Definition name_and_sets (name : string -> bool) (set1 set2 : Addr -> bool) : Rule :=
  DefaultRule (mkBody [] [] [] [DomainItem name] [] [])
    (Some (mkRuleSetItem [[ip_rule set1; ip_rule set2]] false false))
    true None.

(** A deferral is lost.  When a rule with names refers to a rule set
    that is one more condition (more than one rule) and waits for addresses,
    the name that matched clears the deferred group: the inverted rule is
    ruled out before the answer, although it matches every answer whose
    addresses are in neither set. *)
Theorem deferral_lost name set1 set2 response c :
  IgnoreDestinationIPCIDRMatch c = false -> DeferredIPCIDRMatchGroups c = 0 ->
  domainHost c <> EmptyString -> name (ToLower (domainHost c)) = true ->
  DNSResponseAddresses response <> [] ->
  Forall (fun a => set1 a = false /\ set2 a = false) (DNSResponseAddresses response) ->
  LegacyPreMatch env (name_and_sets name set1 set2) c = (false, 0) /\
  MatchAddressLimit env (name_and_sets name set1 set2) response c = true.
Proof.
  intros Hi Hd Hh Hn Hne Hf.
  assert (Hname : forall c', domainHost c' = domainHost c ->
    matchAnyItem env [DomainItem name] c' = true).
  { intros c' E. cbn. unfold DomainItem_Match, with_host. rewrite E, decide_False by done. by rewrite Hn. }
  assert (Hset : forall set, Forall (fun a => set a = false) (DNSResponseAddresses response) ->
    forall c', IPCIDRMatchSource c' = false -> DestinationAddressMatchFromResponse c' = true ->
    DNSResponse c' = response -> matchAnyItem env [IPCIDRItem false set] c' = false).
  { intros set Hs c' Hm Hr Hx. cbn. unfold IPCIDRItem_Match, DNSResponseAddressesForMatch.
    rewrite Hm, Hr, Hx. cbn [orb]. destruct (DNSResponseAddresses response) as [|a l]; [done|].
    by rewrite existsb_none. }
  split.
  - cbn [LegacyPreMatch Match matchForMatch name_and_sets].
    unfold abstractDefaultRule_Match. cbn [no_items items sourceAddressItems sourcePortItems
      destinationAddressItems destinationIPCIDRItems destinationPortItems].
    unfold matchInner. rewrite evaluateGroups_spec.
    assert (Hg : body_satisfied env (mkBody [] [] [] [DomainItem name] [] []) (with_ignore true c) =
      G4 false false true false).
    { unfold body_satisfied. cbn [sourceAddressItems sourcePortItems destinationAddressItems
        destinationIPCIDRItems destinationPortItems]. rewrite Hname by done.
      cbn. by rewrite !andb_false_r. }
    rewrite Hg. unfold defers, body_required, destinationIPCIDRMatchesSource,
      destinationIPCIDRMatchesDestination. cbn. rewrite !andb_false_r. cbn. by rewrite Hd.
  - unfold MatchAddressLimit, name_and_sets. cbn iota.
    set (c' := with_response response (ResetRuleCache c)).
    assert (Hc' : settled c') by done.
    rewrite default_exact; [|by repeat constructor; intros ? ?; apply Match_exact|done].
    cbn [fst]. unfold default_holds. cbn [no_items items sourceAddressItems sourcePortItems
      destinationAddressItems destinationIPCIDRItems destinationPortItems setList existsb].
    unfold set_holds. cbn [mergeableRuleIn ip_rule existsb].
    rewrite !ip_rule_meaning by done. rewrite !Hset; try done.
    + cbn [orb]. by rewrite !andb_false_r.
    + eapply Forall_impl; [exact Hf|]. by intros ? [_ ?].
    + eapply Forall_impl; [exact Hf|]. by intros ? [? _].
Qed.

(** A logical rule inside a rule set does not see the flags of the
    reference: whatever [rule_set_ip_cidr_match_source] and
    [rule_set_ip_cidr_accept_empty] say, it matches its CIDR items against
    the destination. *)
Theorem logical_ignores_match_source mode rules invert s s' a a' d c :
  Match env (LogicalRule mode rules invert) (with_rule_cache s a d c) =
  Match env (LogicalRule mode rules invert) (with_rule_cache s' a' d c).
Proof.
  cbn [Match]. unfold abstractLogicalRule_Match.
  assert (Hand : forall dd, logical_and (Match env) (with_rule_cache s a d c) dd rules =
                            logical_and (Match env) (with_rule_cache s' a' d c) dd rules).
  { induction rules as [|r rs IH]; intros dd; [done|]. cbn [logical_and].
    change (ResetRuleCache (with_rule_cache s a d c))
      with (ResetRuleCache (with_rule_cache s' a' d c)).
    destruct (Match env r _) as [[] ?]; [apply IH|done]. }
  assert (Hor : forall m dd, logical_or (Match env) (with_rule_cache s a d c) m dd rules =
                             logical_or (Match env) (with_rule_cache s' a' d c) m dd rules).
  { clear Hand. induction rules as [|r rs IH]; intros m dd; [done|]. cbn [logical_or].
    change (ResetRuleCache (with_rule_cache s a d c))
      with (ResetRuleCache (with_rule_cache s' a' d c)).
    destruct (Match env r _) as [[] ?]; [|apply IH]. destruct (_ =? 0); [done|apply IH]. }
  by rewrite Hand, Hor.
Qed.

End dns_rules.

(** ** Witnesses *)

Definition plain_lib : RuleLib := {|
  ToLower s := s;
  EqualFold a b := bool_decide (a = b);
  IsPublicAddr a := negb (prefix_Contains (mkPrefix (Addr4 (10 * 2 ^ 24)) 8) a);
  AddrFromIP ip := match ip with [a; b; c; d] => Addr4 (get_be ip) | _ => AddrNone end;
  CanonicalName s := s
|}.

Definition plain_env : Environment :=
  mkEnvironment None [] [] [] None EmptyString EmptyString None false.

Definition query : InboundContext :=
  mkContext "dns-in" 0 "udp" (mkSocksaddr (Addr4 1) 5353 EmptyString)
    (mkSocksaddr AddrNone 53 "example.org") EmptyString EmptyString EmptyString EmptyString
    EmptyString [] None ∅ false None None EmptyString 1 NoPrefix false false false 0 false.

Definition net10 (a : Addr) : bool := prefix_Contains (mkPrefix (Addr4 (10 * 2 ^ 24)) 8) a.

Definition org (s : string) : bool := str_contains s "org".

Definition answer : option Msg := Some (mkMsg 0 [RR_A [10; 0; 0; 1]] [] []).

Lemma Match_meaning_witness :
  Match (L := plain_lib) plain_env (name_and_sets org net10 net10) query =
  (means (L := plain_lib) plain_env (name_and_sets org net10 net10) query, 0).
Proof. apply Match_meaning; reflexivity. Defined.

(** A rule set of one logical rule on addresses, referred to with
    [rule_set_ip_cidr_match_source]: by the documentation it matches the
    source, in the code it does not. *)
Example logical_in_flagged_set :
  let source c := mkContext (Inbound c) (IPVersion c) (Network c) (mkSocksaddr (Addr4 (10 * 2 ^ 24 + 1)) 5353 EmptyString)
    (Destination c) (User c) (Outbound c) (Protocol c) (Domain c) (Client c) [Addr4 1] (DNSResponse c)
    (NamedDNSResponses c) (DestinationAddressMatchFromResponse c) (ProcessInfo c)
    (SourceMACAddress c) (SourceHostname c) (QueryType c) (QueryClientSubnet c) (QueryDNSSEC c)
    (IPCIDRMatchSource c) (IPCIDRAcceptEmpty c) (DeferredIPCIDRMatchGroups c) (IgnoreDestinationIPCIDRMatch c) in
  let rule := DefaultRule (mkBody [] [] [] [] [] [])
    (Some (mkRuleSetItem [[LogicalRule LogicalTypeAnd [ip_rule net10] false]] true false)) false None in
  means (L := plain_lib) plain_env rule (source query) = true /\
  Match (L := plain_lib) plain_env rule (source query) = (false, 0).
Proof. by split; vm_compute. Qed.

Lemma LegacyPreMatch_safe_witness :
  LegacyPreMatch (L := plain_lib) plain_env (ip_rule net10) query = (true, 4) /\
  let '(matched, deferred) := LegacyPreMatch (L := plain_lib) plain_env (ip_rule net10) query in
  (matched = false -> MatchAddressLimit (L := plain_lib) plain_env (ip_rule net10) answer query = false) /\
  (matched = true -> deferred = 0 ->
     MatchAddressLimit (L := plain_lib) plain_env (ip_rule net10) answer query = true) /\
  (rule_ip false (ip_rule net10) = false -> deferred = 0).
Proof.
  split; [vm_compute; reflexivity|].
  apply (LegacyPreMatch_safe (L := plain_lib) plain_env (ip_rule net10) answer query); reflexivity.
Defined.

Lemma deferral_lost_witness :
  LegacyPreMatch (L := plain_lib) plain_env (name_and_sets org net10 net10) query = (false, 0) /\
  MatchAddressLimit (L := plain_lib) plain_env (name_and_sets org net10 net10)
    (Some (mkMsg 0 [RR_A [11; 0; 0; 1]] [] [])) query = true.
Proof.
  apply (deferral_lost (L := plain_lib) plain_env org net10 net10
    (Some (mkMsg 0 [RR_A [11; 0; 0; 1]] [] [])) query); try reflexivity.
  - vm_compute. discriminate.
  - vm_compute. discriminate.
  - vm_compute. repeat constructor.
Defined.
