(* ===== verification/RuleBuild.v ===== *)
(** * Building headless rules from options (src/route/rule/rule_headless.go)

    Headless rules are the rules of rule sets.  Their constructors sort the
    conditions into the item lists of a rule. *)

From S2P Require Import Prelude Netip Mac RuleItems RuleMatch RuleSem.

(** The compilers of conditions that live in other packages. *)
Class BuildLib := {
  (** [domain.NewMatcher], [domain.NewAdGuardMatcher] *)
  NewMatcher : list string -> list string -> string -> bool;
  NewAdGuardMatcher : list string -> string -> bool;
  (** [regexp.Compile] *)
  Compile : string -> option (string -> bool);
  (** [netip.ParsePrefix] and [netip.ParseAddr] *)
  ParsePrefix : string -> option Prefix;
  ParseAddr : string -> option Addr;
  (** [netipx.IPSetBuilder]: [IPSet] of what was added *)
  IPSet : list (Prefix + Addr) -> option (Addr -> bool)
}.

(** [option.DefaultHeadlessRule]. *)
Record DefaultHeadlessOptions := mkHeadless {
  h_QueryType : list Z;
  h_Network : list string;
  h_Domain : list string;
  h_DomainSuffix : list string;
  h_DomainKeyword : list string;
  h_DomainRegex : list string;
  h_SourceIPCIDR : list string;
  h_IPCIDR : list string;
  h_SourcePort : list Z;
  h_SourcePortRange : list string;
  h_Port : list Z;
  h_PortRange : list string;
  h_ProcessName : list string;
  h_ProcessPath : list string;
  h_ProcessPathRegex : list string;
  h_PackageName : list string;
  h_PackageNameRegex : list string;
  h_NetworkType : list Z;
  h_NetworkIsExpensive : bool;
  h_NetworkIsConstrained : bool;
  h_WIFISSID : list string;
  h_WIFIBSSID : list string;
  h_NetworkInterfaceAddress : list (Z * list Prefix);
  h_DefaultInterfaceAddress : list Prefix;
  h_Invert : bool;
  h_DomainMatcher : option (string -> bool);
  h_SourceIPSet : option (Addr -> bool);
  h_IPSet : option (Addr -> bool);
  h_AdGuardDomain : list string;
  h_AdGuardDomainMatcher : option (string -> bool);
  (** a list or map field that is empty and yet not nil *)
  h_EmptyField : bool
}.

(** [option.HeadlessRule]; a type that is neither default nor logical is
    kept by its name. *)
Inductive HeadlessRule :=
| HeadlessDefault (options : DefaultHeadlessOptions)
| HeadlessLogical (mode : string) (rules : list HeadlessRule) (invert : bool)
| HeadlessOther (type : string).

(** ** Adding an item to one of the lists *)

Definition empty_body : RuleBody := mkBody [] [] [] [] [] [].

Definition add_item (it : RuleItem) (b : RuleBody) : RuleBody :=
  mkBody (items b ++ [it]) (sourceAddressItems b) (sourcePortItems b) (destinationAddressItems b)
    (destinationIPCIDRItems b) (destinationPortItems b).
Definition add_source_address (it : RuleItem) (b : RuleBody) : RuleBody :=
  mkBody (items b) (sourceAddressItems b ++ [it]) (sourcePortItems b) (destinationAddressItems b)
    (destinationIPCIDRItems b) (destinationPortItems b).
Definition add_source_port (it : RuleItem) (b : RuleBody) : RuleBody :=
  mkBody (items b) (sourceAddressItems b) (sourcePortItems b ++ [it]) (destinationAddressItems b)
    (destinationIPCIDRItems b) (destinationPortItems b).
Definition add_destination_address (it : RuleItem) (b : RuleBody) : RuleBody :=
  mkBody (items b) (sourceAddressItems b) (sourcePortItems b) (destinationAddressItems b ++ [it])
    (destinationIPCIDRItems b) (destinationPortItems b).
Definition add_ipcidr (it : RuleItem) (b : RuleBody) : RuleBody :=
  mkBody (items b) (sourceAddressItems b) (sourcePortItems b) (destinationAddressItems b)
    (destinationIPCIDRItems b ++ [it]) (destinationPortItems b).
Definition add_destination_port (it : RuleItem) (b : RuleBody) : RuleBody :=
  mkBody (items b) (sourceAddressItems b) (sourcePortItems b) (destinationAddressItems b)
    (destinationIPCIDRItems b) (destinationPortItems b ++ [it]).

Section build.
Context {BL : BuildLib} {T : TrimLib}.

(** The matchers of a list of regular expressions. *)
Fixpoint compile_all (expressions : list string) : res (list (string -> bool)) :=
  match expressions with
  | [] => Ret []
  | e :: expressions =>
    match Compile e with
    | None => Err "parse expression"
    | Some m => l ← compile_all expressions; Ret (m :: l)
    end
  end.

(** The loop of [NewIPCIDRItem]: what it adds to the builder. *)
Fixpoint parse_cidrs (prefixStrings : list string) : res (list (Prefix + Addr)) :=
  match prefixStrings with
  | [] => Ret []
  | prefixString :: prefixStrings =>
    match ParsePrefix prefixString with
    | Some prefix => l ← parse_cidrs prefixStrings; Ret (inl prefix :: l)
    | None =>
      match ParseAddr prefixString with
      | Some addr => l ← parse_cidrs prefixStrings; Ret (inr addr :: l)
      | None => Err "parse"
      end
    end
  end.

Definition NewIPCIDRItem (isSource : bool) (prefixStrings : list string) : res RuleItem :=
  builder ← parse_cidrs prefixStrings;
  match IPSet builder with
  | None => Err "IPSet"
  | Some ipSet => Ret (IPCIDRItem isSource ipSet)
  end.

Definition NewWIFIBSSIDItem (bssidList : list string) : RuleItem :=
  WIFIBSSIDItem (map (fun bssid =>
    String.string_of_list_ascii (NormalizeWIFIBSSID (String.list_ascii_of_string bssid))) bssidList).

(** [if cond { item, err := make(); append }]. *)
Definition add_if (cond : bool) (make : res RuleItem) (add : RuleItem -> RuleBody -> RuleBody)
    (b : RuleBody) : res RuleBody :=
  if cond then it ← make; Ret (add it b) else Ret b.

(** [if cond { ... } else if raw != nil { ... }]. *)
Definition add_or {A} (cond : bool) (make : res RuleItem) (raw : option A) (wrap : A -> RuleItem)
    (add : RuleItem -> RuleBody -> RuleBody) (b : RuleBody) : res RuleBody :=
  if cond then it ← make; Ret (add it b)
  else match raw with None => Ret b | Some x => Ret (add (wrap x) b) end.

Definition add_destinations (o : DefaultHeadlessOptions) (b : RuleBody) : res RuleBody :=
  b ← add_or (nonnil (h_Domain o) || nonnil (h_DomainSuffix o))
        (NewDomainItem NewMatcher (h_Domain o) (h_DomainSuffix o)) (h_DomainMatcher o) DomainItem
        add_destination_address b;
  b ← add_if (nonnil (h_DomainKeyword o)) (Ret (DomainKeywordItem (h_DomainKeyword o)))
        add_destination_address b;
  add_if (nonnil (h_DomainRegex o)) (l ← compile_all (h_DomainRegex o); Ret (DomainRegexItem l))
    add_destination_address b.

Definition add_addresses (o : DefaultHeadlessOptions) (b : RuleBody) : res RuleBody :=
  b ← add_or (nonnil (h_SourceIPCIDR o)) (NewIPCIDRItem true (h_SourceIPCIDR o)) (h_SourceIPSet o)
        (IPCIDRItem true) add_source_address b;
  add_or (nonnil (h_IPCIDR o)) (NewIPCIDRItem false (h_IPCIDR o)) (h_IPSet o)
    (IPCIDRItem false) add_ipcidr b.

Definition add_ports (o : DefaultHeadlessOptions) (b : RuleBody) : res RuleBody :=
  b ← add_if (nonnil (h_SourcePort o)) (Ret (PortItem true (h_SourcePort o))) add_source_port b;
  b ← add_if (nonnil (h_SourcePortRange o)) (NewPortRangeItem true (h_SourcePortRange o))
        add_source_port b;
  b ← add_if (nonnil (h_Port o)) (Ret (PortItem false (h_Port o))) add_destination_port b;
  add_if (nonnil (h_PortRange o)) (NewPortRangeItem false (h_PortRange o)) add_destination_port b.

Definition add_processes (o : DefaultHeadlessOptions) (b : RuleBody) : res RuleBody :=
  b ← add_if (nonnil (h_ProcessName o)) (Ret (ProcessItem (h_ProcessName o))) add_item b;
  b ← add_if (nonnil (h_ProcessPath o)) (Ret (ProcessPathItem (h_ProcessPath o))) add_item b;
  b ← add_if (nonnil (h_ProcessPathRegex o))
        (l ← compile_all (h_ProcessPathRegex o); Ret (ProcessPathRegexItem l)) add_item b;
  b ← add_if (nonnil (h_PackageName o)) (Ret (PackageNameItem (h_PackageName o))) add_item b;
  add_if (nonnil (h_PackageNameRegex o))
    (l ← compile_all (h_PackageNameRegex o); Ret (PackageNameRegexItem l)) add_item b.

(** The conditions on the network, which need a network manager. *)
Definition add_network (o : DefaultHeadlessOptions) (b : RuleBody) : res RuleBody :=
  b ← add_if (nonnil (h_NetworkType o)) (Ret (NetworkTypeItem (h_NetworkType o))) add_item b;
  b ← add_if (h_NetworkIsExpensive o) (Ret NetworkIsExpensiveItem) add_item b;
  b ← add_if (h_NetworkIsConstrained o) (Ret NetworkIsConstrainedItem) add_item b;
  b ← add_if (nonnil (h_WIFISSID o)) (Ret (WIFISSIDItem (h_WIFISSID o))) add_item b;
  b ← add_if (nonnil (h_WIFIBSSID o))
        (Ret (NewWIFIBSSIDItem (h_WIFIBSSID o))) add_item b;
  b ← add_if (nonnil (h_NetworkInterfaceAddress o))
        (Ret (NetworkInterfaceAddressItem (h_NetworkInterfaceAddress o))) add_item b;
  add_if (nonnil (h_DefaultInterfaceAddress o))
    (Ret (DefaultInterfaceAddressItem (h_DefaultInterfaceAddress o))) add_item b.

(** [networkManager]: whether the context has a network manager. *)
Definition add_conditions (networkManager : bool) (o : DefaultHeadlessOptions) (b : RuleBody)
    : res RuleBody :=
  b ← add_if (nonnil (h_QueryType o)) (Ret (QueryTypeItem (h_QueryType o))) add_item b;
  b ← add_if (nonnil (h_Network o)) (Ret (NetworkItem (h_Network o))) add_item b;
  b ← add_destinations o b;
  b ← add_addresses o b;
  b ← add_ports o b;
  b ← add_processes o b;
  b ← (if networkManager then add_network o b else Ret b);
  add_or (nonnil (h_AdGuardDomain o)) (Ret (AdGuardDomainItem (NewAdGuardMatcher (h_AdGuardDomain o))))
    (h_AdGuardDomainMatcher o) AdGuardDomainItem add_destination_address b.

Definition NewDefaultHeadlessRule (networkManager : bool) (o : DefaultHeadlessOptions) : res Rule :=
  b ← add_conditions networkManager o empty_body;
  Ret (DefaultRule b None (h_Invert o) None).

Definition parse_mode (mode : string) : res LogicalMode :=
  if decide (mode = "and"%string) then Ret LogicalTypeAnd
  else if decide (mode = "or"%string) then Ret LogicalTypeOr
  else Err "unknown logical mode".

Definition given {A} (x : option A) : bool := match x with None => false | Some _ => true end.

(** [IsValid] of default options: a deep comparison with the zero value but
    for [Invert]. *)
Definition IsValid (o : DefaultHeadlessOptions) : bool :=
  nonnil (h_QueryType o) || nonnil (h_Network o) || nonnil (h_Domain o) ||
  nonnil (h_DomainSuffix o) || nonnil (h_DomainKeyword o) || nonnil (h_DomainRegex o) ||
  nonnil (h_SourceIPCIDR o) || nonnil (h_IPCIDR o) || nonnil (h_SourcePort o) ||
  nonnil (h_SourcePortRange o) || nonnil (h_Port o) || nonnil (h_PortRange o) ||
  nonnil (h_ProcessName o) || nonnil (h_ProcessPath o) || nonnil (h_ProcessPathRegex o) ||
  nonnil (h_PackageName o) || nonnil (h_PackageNameRegex o) || nonnil (h_NetworkType o) ||
  h_NetworkIsExpensive o || h_NetworkIsConstrained o || nonnil (h_WIFISSID o) ||
  nonnil (h_WIFIBSSID o) || nonnil (h_NetworkInterfaceAddress o) ||
  nonnil (h_DefaultInterfaceAddress o) || given (h_DomainMatcher o) || given (h_SourceIPSet o) ||
  given (h_IPSet o) || nonnil (h_AdGuardDomain o) || given (h_AdGuardDomainMatcher o) ||
  h_EmptyField o.

(** [HeadlessRule.IsValid] raises on an unknown type; [common.All] stops at
    the first rule that is not valid. *)
Fixpoint headless_IsValid (r : HeadlessRule) : res bool :=
  match r with
  | HeadlessDefault o => Ret (IsValid o)
  | HeadlessLogical _ rules _ =>
    if nonnil rules then
      (fix all (l : list HeadlessRule) : res bool :=
         match l with
         | [] => Ret true
         | r :: l => ok ← headless_IsValid r; if ok : bool then all l else Ret false
         end) rules
    else Ret false
  | HeadlessOther _ => Panic
  end.

Fixpoint NewHeadlessRule (networkManager : bool) (r : HeadlessRule) : res Rule :=
  match r with
  | HeadlessDefault o =>
    if negb (IsValid o) then Err "missing conditions" else NewDefaultHeadlessRule networkManager o
  | HeadlessLogical mode rules invert =>
    ok ← headless_IsValid r;
    if negb ok then Err "missing conditions" else
    mode ← parse_mode mode;
    rules ← (fix build (l : list HeadlessRule) : res (list Rule) :=
               match l with
               | [] => Ret []
               | r :: l => x ← NewHeadlessRule networkManager r; y ← build l; Ret (x :: y)
               end) rules;
    Ret (LogicalRule mode rules invert)
  | HeadlessOther _ => Err "unknown rule type"
  end.

(** ** What the constructors guarantee *)

(** Every list but the one for addresses is independent of them, and that one
    holds CIDR items. *)
Definition body_sorted (b : RuleBody) : Prop :=
  body_free b = true /\ forallb is_cidr (destinationIPCIDRItems b) = true.

(** A headless rule refers to no rule set and no response. *)
Inductive headless : Rule -> Prop :=
| headless_default b invert : body_sorted b -> headless (DefaultRule b None invert None)
| headless_logical mode rules invert :
    Forall headless rules -> headless (LogicalRule mode rules invert).

Lemma forallb_snoc {A} (p : A -> bool) l x : forallb p (l ++ [x]) = forallb p l && p x.
Proof. rewrite forallb_app. cbn. by rewrite andb_true_r. Qed.

(** An [add] that keeps a body sorted, for items with property [P]. *)
Definition keeps (P : RuleItem -> Prop) (add : RuleItem -> RuleBody -> RuleBody) : Prop :=
  forall it b, P it -> body_sorted b -> body_sorted (add it b).

Definition free (it : RuleItem) : Prop := item_free it = true.

Definition cidr (it : RuleItem) : Prop := is_cidr it = true.

Ltac keeps_free :=
  intros it b Hi [Hf Hc]; split; [|done]; unfold body_free in *; cbn;
  rewrite forallb_snoc, Hi; by rewrite andb_true_r.

Lemma keeps_item : keeps free add_item.
Proof. keeps_free. Qed.

Lemma keeps_source_address : keeps free add_source_address.
Proof. keeps_free. Qed.

Lemma keeps_source_port : keeps free add_source_port.
Proof. keeps_free. Qed.

Lemma keeps_destination_address : keeps free add_destination_address.
Proof. keeps_free. Qed.

Lemma keeps_destination_port : keeps free add_destination_port.
Proof. keeps_free. Qed.

Lemma keeps_ipcidr : keeps cidr add_ipcidr.
Proof.
  intros it b Hi [Hf Hc]. split; [done|]. cbn. rewrite forallb_snoc, Hc. exact Hi.
Qed.

(** A constructor that returns items with property [P] only. *)
Definition makes (P : RuleItem -> Prop) (make : res RuleItem) : Prop :=
  forall it, make = Ret it -> P it.

(** A build step that keeps bodies sorted. *)
Definition sorts (f : RuleBody -> res RuleBody) : Prop :=
  forall b b', body_sorted b -> f b = Ret b' -> body_sorted b'.

Lemma sorts_add_if P cond make add : keeps P add -> makes P make -> sorts (add_if cond make add).
Proof.
  intros Hk Hm b b' Hb. unfold add_if. destruct cond; [|by intros <-%Ret_inj].
  destruct make as [it| |] eqn:E; [|done..]. intros <-%Ret_inj. apply Hk; [by apply Hm|done].
Qed.

Lemma sorts_add_or {A} P cond make (raw : option A) wrap add :
  keeps P add -> makes P make -> (forall x, P (wrap x)) -> sorts (add_or cond make raw wrap add).
Proof.
  intros Hk Hm Hw b b' Hb. unfold add_or. destruct cond.
  - destruct make as [it| |] eqn:E; [|done..]. intros <-%Ret_inj. apply Hk; [by apply Hm|done].
  - destruct raw as [x|]; intros <-%Ret_inj; [by apply Hk|done].
Qed.

Lemma sorts_bind f g : sorts f -> sorts g -> sorts (fun b => b ← f b; g b).
Proof.
  intros Hf Hg b b' Hb. destruct (f b) as [b1| |] eqn:E; [|done..].
  apply Hg. by eapply Hf.
Qed.

Lemma makes_ret P it : P it -> makes P (Ret it).
Proof. by intros Hi x <-%Ret_inj. Qed.

Lemma makes_compile P wrap l :
  (forall ms, P (wrap ms)) -> makes P (ms ← compile_all l; Ret (wrap ms)).
Proof. intros Hw it. destruct (compile_all l); [|done..]. by intros <-%Ret_inj. Qed.

Lemma makes_domain d s : makes free (NewDomainItem NewMatcher d s).
Proof.
  intros it. unfold NewDomainItem. destruct (bool_decide _); [done|].
  destruct (bool_decide _); [done|]. by intros <-%Ret_inj.
Qed.

Lemma NewIPCIDRItem_shape s l it : NewIPCIDRItem s l = Ret it -> exists set, it = IPCIDRItem s set.
Proof.
  unfold NewIPCIDRItem. destruct (parse_cidrs l) as [b| |]; [|done..].
  change (mbind ?k (Ret b)) with (k b). cbv beta. destruct (IPSet b) as [set|]; [|done].
  intros <-%Ret_inj. by exists set.
Qed.

Lemma makes_cidr_source l : makes free (NewIPCIDRItem true l).
Proof. by intros it [set ->]%NewIPCIDRItem_shape. Qed.

Lemma makes_cidr l : makes cidr (NewIPCIDRItem false l).
Proof. by intros it [set ->]%NewIPCIDRItem_shape. Qed.

Lemma makes_range s l : makes free (NewPortRangeItem s l).
Proof. intros it. unfold NewPortRangeItem. destruct (parse_ranges l); [|done..]. by intros <-%Ret_inj. Qed.

Create HintDb build.
#[local] Hint Resolve keeps_item keeps_source_address keeps_source_port keeps_destination_address
  keeps_destination_port keeps_ipcidr makes_ret makes_compile makes_domain makes_cidr_source
  makes_cidr makes_range : build.
#[local] Hint Extern 1 (free _) => reflexivity : build.
#[local] Hint Extern 1 (cidr _) => reflexivity : build.

Ltac sort_step :=
  first [ apply sorts_bind
        | eapply sorts_add_or; [solve [eauto with build]..]
        | eapply sorts_add_if; [solve [eauto with build]..] ].

Lemma sorts_destinations o : sorts (add_destinations o).
Proof. unfold add_destinations. repeat sort_step. Qed.

Lemma sorts_addresses o : sorts (add_addresses o).
Proof. unfold add_addresses. repeat sort_step. Qed.

Lemma sorts_ports o : sorts (add_ports o).
Proof. unfold add_ports. repeat sort_step. Qed.

Lemma sorts_processes o : sorts (add_processes o).
Proof. unfold add_processes. repeat sort_step. Qed.

Lemma sorts_network o : sorts (add_network o).
Proof. unfold add_network. repeat sort_step. Qed.

Lemma sorts_conditions nm o : sorts (add_conditions nm o).
Proof.
  unfold add_conditions. apply sorts_bind; [by repeat sort_step|].
  apply sorts_bind; [by repeat sort_step|].
  apply sorts_bind; [apply sorts_destinations|]. apply sorts_bind; [apply sorts_addresses|].
  apply sorts_bind; [apply sorts_ports|]. apply sorts_bind; [apply sorts_processes|].
  apply sorts_bind; [|by repeat sort_step].
  destruct nm; [apply sorts_network|]. by intros b b' Hb <-%Ret_inj.
Qed.

Lemma NewDefaultHeadlessRule_headless nm o r : NewDefaultHeadlessRule nm o = Ret r -> headless r.
Proof.
  unfold NewDefaultHeadlessRule. destruct (add_conditions nm o empty_body) as [b| |] eqn:E; [|done..].
  intros <-%Ret_inj. constructor. by eapply sorts_conditions in E.
Qed.

(** Induction on nested options. *)
Section options_induction.
Variable P : HeadlessRule -> Prop.
Hypothesis HD : forall o, P (HeadlessDefault o).
Hypothesis HL : forall mode rules invert, Forall P rules -> P (HeadlessLogical mode rules invert).
Hypothesis HO : forall t, P (HeadlessOther t).

Fixpoint HeadlessRule_nested_ind (r : HeadlessRule) : P r :=
  match r with
  | HeadlessDefault o => HD o
  | HeadlessLogical mode rules invert =>
    HL mode rules invert
      ((fix all (l : list HeadlessRule) : Forall P l :=
          match l with
          | [] => Forall_nil_2 P
          | x :: l => Forall_cons_2 P x l (HeadlessRule_nested_ind x) (all l)
          end) rules)
  | HeadlessOther t => HO t
  end.

End options_induction.

(** C21: the rules of a rule set are well sorted.  Whatever the options, a
    rule that [NewHeadlessRule] builds refers to no rule set and no DNS
    response, keeps every condition that depends on destination addresses
    in the list the matcher skips before they are known, and keeps nothing
    but CIDR conditions there. *)
Theorem NewHeadlessRule_headless nm options r :
  NewHeadlessRule nm options = Ret r -> headless r.
Proof.
  revert r. induction options as [o|mode rules invert IH|t] using HeadlessRule_nested_ind;
    intros r; cbn [NewHeadlessRule]; [| |done].
  - destruct (negb (IsValid o)); [done|]. apply NewDefaultHeadlessRule_headless.
  - destruct (headless_IsValid _) as [ok| |]; [|done..].
    change (mbind ?k (Ret ok)) with (k ok). cbv beta. destruct (negb ok); [done|].
    destruct (parse_mode mode) as [m| |]; [|done..].
    change (mbind ?k (Ret m)) with (k m). cbv beta.
    set (build := fix build (l : list HeadlessRule) : res (list Rule) := _).
    assert (Hb : forall l l', Forall (fun x => forall y, NewHeadlessRule nm x = Ret y -> headless y) l ->
      build l = Ret l' -> Forall headless l').
    { intros l l' Hl. revert l'. induction Hl as [|x l Hx _ IHl]; intros l'; cbn [build].
      - intros <-%Ret_inj. constructor.
      - destruct (NewHeadlessRule nm x) as [y| |] eqn:Ex; [|done..].
        change (mbind ?k (Ret y)) with (k y). cbv beta.
        destruct (build l) as [ys| |] eqn:El; [|done..]. intros <-%Ret_inj.
        constructor; [by apply Hx|by apply IHl]. }
    destruct (build rules) as [rs| |] eqn:Er; [|done..]. intros <-%Ret_inj.
    constructor. by eapply Hb.
Qed.

(** The options carry conditions on the network only. *)
Definition network_only (o : DefaultHeadlessOptions) : Prop :=
  h_QueryType o = [] /\ h_Network o = [] /\ h_Domain o = [] /\ h_DomainSuffix o = [] /\
  h_DomainKeyword o = [] /\ h_DomainRegex o = [] /\ h_SourceIPCIDR o = [] /\ h_IPCIDR o = [] /\
  h_SourcePort o = [] /\ h_SourcePortRange o = [] /\ h_Port o = [] /\ h_PortRange o = [] /\
  h_ProcessName o = [] /\ h_ProcessPath o = [] /\ h_ProcessPathRegex o = [] /\
  h_PackageName o = [] /\ h_PackageNameRegex o = [] /\ h_DomainMatcher o = None /\
  h_SourceIPSet o = None /\ h_IPSet o = None /\ h_AdGuardDomain o = [] /\
  h_AdGuardDomainMatcher o = None.

(** Without a network manager, the conditions on the network are
    dropped and not failed: a rule of such conditions alone is built and
    matches everything, inverted or not. *)
Theorem network_conditions_dropped {L : RuleLib} env o c :
  network_only o -> IsValid o = true ->
  exists r, NewHeadlessRule false (HeadlessDefault o) = Ret r /\ fst (Match env r c) = true.
Proof.
  intros Hn Hv. unfold network_only in Hn.
  exists (DefaultRule empty_body None (h_Invert o) None). cbn [NewHeadlessRule]. rewrite Hv.
  cbn [negb]. split; [|done]. unfold NewDefaultHeadlessRule, add_conditions, add_destinations,
    add_addresses, add_ports, add_processes, add_if, add_or.
  destruct Hn as (-> & -> & -> & -> & -> & -> & -> & -> & -> & -> & -> & -> & -> & -> & -> & -> &
    -> & -> & -> & -> & -> & ->). done.
Qed.

End build.

(** ** Witnesses *)

Definition plain_build : BuildLib := {|
  NewMatcher domains suffixes s := bool_decide (s ∈ domains);
  NewAdGuardMatcher lines s := false;
  Compile e := Some (fun s => bool_decide (e = s));
  ParsePrefix s := None;
  ParseAddr s := None;
  IPSet l := Some (fun a => bool_decide (inr a ∈ l))
|}.

Definition wifi_options (invert : bool) : DefaultHeadlessOptions :=
  mkHeadless [] [] [] [] [] [] [] [] [] [] [] [] [] [] [] [] [] [] true false ["home"%string] [] [] []
    invert None None None [] None false.

Lemma NewHeadlessRule_headless_witness :
  exists r, NewHeadlessRule (BL := plain_build) (T := ascii_trim) true
    (HeadlessLogical "or" [HeadlessDefault (wifi_options true)] false) = Ret r /\ headless r.
Proof.
  eexists. split; [reflexivity|].
  apply (NewHeadlessRule_headless (BL := plain_build) (T := ascii_trim) true
    (HeadlessLogical "or" [HeadlessDefault (wifi_options true)] false)). reflexivity.
Defined.

Lemma network_conditions_dropped_witness :
  exists r, NewHeadlessRule (BL := plain_build) (T := ascii_trim) false
    (HeadlessDefault (wifi_options true)) = Ret r /\
  fst (Match (L := plain_lib) plain_env r query) = true.
Proof.
  apply (network_conditions_dropped (BL := plain_build) (T := ascii_trim) (L := plain_lib) plain_env
    (wifi_options true) query); [|reflexivity].
  unfold network_only. repeat split.
Defined.
