(* ===== verification/FakeIP.v ===== *)
(** * Fake addresses (src/dns/transport/fakeip/store.go, memory.go,
    src/adapter/fakeip.go, fakeip_metadata.go)

    The FakeIP server answers a query with an address of a private range and
    remembers the name, so that a connection to the address can be turned back
    into a connection to the name.  The store hands the addresses of a range
    out in turn and keeps the mapping in a storage, which is an interface. *)

From S2P Require Import Prelude Netip.

(** ** Storages *)

Record FakeIPMetadata := mkMetadata {
  Inet4Range : Prefix;
  Inet6Range : Prefix;
  Inet4Current : Addr;
  Inet6Current : Addr
}.

(** [adapter.FakeIPStorage]; reading the metadata may remove it. *)
Class FakeIPStorage (St : Type) := {
  LoadMetadata : St -> option FakeIPMetadata * St;
  FakeIPSaveMetadata : FakeIPMetadata -> St -> St;
  FakeIPStore : Addr -> string -> St -> St;
  FakeIPLoad : St -> Addr -> option string;
  FakeIPLoadDomain : St -> string -> bool -> option Addr;
  FakeIPReset : St -> St
}.

(** The addresses a storage keeps apart: valid, without a zone, and not an
    IPv4 address in IPv6 form.  A cache file keeps the bytes of an address,
    which drop the zone. *)
Definition storable (a : Addr) : Prop :=
  IsValid a = true /\ wf_addr a /\ hasZone a = false /\ Is4In6 a = false.

(** The names a storage can keep: a key of the database has a byte and not
    more than [bbolt.MaxKeySize]. *)
Definition storable_name (d : string) : Prop := 0 < zlen (bytes_of d) <= 32768.

Section reads.
Context {St : Type} `{HS : FakeIPStorage St}.

(** The same names and addresses. *)
Definition same_reads (st st' : St) : Prop :=
  (forall a, FakeIPLoad st' a = FakeIPLoad st a) /\
  (forall d v6, FakeIPLoadDomain st' d v6 = FakeIPLoadDomain st d v6).

(** No names and no addresses. *)
Definition cleared (st : St) : Prop :=
  (forall a, FakeIPLoad st a = None) /\ (forall d v6, FakeIPLoadDomain st d v6 = None).

(** [a] has the name [d] in [st'], and forgot the name it had. *)
Definition stored (a : Addr) (d : string) (st st' : St) : Prop :=
  (forall a', storable a' ->
     FakeIPLoad st' a' = if decide (a' = a) then Some d else FakeIPLoad st a') /\
  (forall d' v6, FakeIPLoadDomain st' d' v6 =
     if decide (v6 = Is4 a) then FakeIPLoadDomain st d' v6
     else if decide (d' = d) then Some a
     else if decide (FakeIPLoad st a = Some d') then None
     else FakeIPLoadDomain st d' v6).

(** The two directions agree: a name has an address of a family exactly when
    the address has the name. *)
Definition agrees (st : St) : Prop :=
  (forall d v6 a, FakeIPLoadDomain st d v6 = Some a -> storable a) /\
  (forall d v6 a, storable a -> FakeIPLoadDomain st d v6 = Some a <->
     FakeIPLoad st a = Some d /\ Is4 a = negb v6).

End reads.

(** What the store relies on.  A [FakeIPStore] is done in both directions or,
    when it fails, in none; so is a [FakeIPReset]; the metadata is apart from
    the mapping. *)
Class StorageLaws (St : Type) `{FakeIPStorage St} : Prop := {
  store_reads a d st : storable a ->
    stored a d st (FakeIPStore a d st) \/ same_reads st (FakeIPStore a d st);
  reset_reads st : cleared (FakeIPReset st) \/ same_reads st (FakeIPReset st);
  save_reads m st : same_reads st (FakeIPSaveMetadata m st);
  metadata_reads st : same_reads st (snd (LoadMetadata st))
}.

(** A storage whose [FakeIPStore] does not fail. *)
Class StorageWrites (St : Type) `{FakeIPStorage St} : Prop := {
  store_stored a d st : storable a -> storable_name d -> stored a d st (FakeIPStore a d st)
}.

(** *** In memory *)

Record MemoryStorage := mkMemory {
  addressCache : gmap Addr string;
  domainCache4 : gmap string Addr;
  domainCache6 : gmap string Addr
}.

Definition NewMemoryStorage : MemoryStorage := mkMemory ∅ ∅ ∅.

Definition mem_FakeIPStore (address : Addr) (domain : string) (s : MemoryStorage) : MemoryStorage :=
  let s := match addressCache s !! address with
           | Some oldDomain =>
             if Is4 address
             then mkMemory (addressCache s) (delete oldDomain (domainCache4 s)) (domainCache6 s)
             else mkMemory (addressCache s) (domainCache4 s) (delete oldDomain (domainCache6 s))
           | None => s
           end in
  let s := mkMemory (<[address := domain]> (addressCache s)) (domainCache4 s) (domainCache6 s) in
  if Is4 address
  then mkMemory (addressCache s) (<[domain := address]> (domainCache4 s)) (domainCache6 s)
  else mkMemory (addressCache s) (domainCache4 s) (<[domain := address]> (domainCache6 s)).

Definition mem_FakeIPLoad (s : MemoryStorage) (address : Addr) : option string :=
  addressCache s !! address.

Definition mem_FakeIPLoadDomain (s : MemoryStorage) (domain : string) (isIPv6 : bool)
    : option Addr :=
  if negb isIPv6 then domainCache4 s !! domain else domainCache6 s !! domain.

Definition mem_FakeIPReset (s : MemoryStorage) : MemoryStorage := mkMemory ∅ ∅ ∅.

#[export] Instance memory_storage : FakeIPStorage MemoryStorage := {|
  LoadMetadata s := (None, s);
  FakeIPSaveMetadata _ s := s;
  FakeIPStore := mem_FakeIPStore;
  FakeIPLoad := mem_FakeIPLoad;
  FakeIPLoadDomain := mem_FakeIPLoadDomain;
  FakeIPReset := mem_FakeIPReset
|}.

Lemma mem_stored a d st : stored a d st (mem_FakeIPStore a d st).
Proof.
  split; cbn.
  - intros a' _. unfold mem_FakeIPLoad, mem_FakeIPStore.
    destruct (decide (a' = a)) as [->|Hn]; repeat case_match; cbn;
      by rewrite ?lookup_insert_eq, ?lookup_insert_ne by done.
  - intros d' v6. unfold mem_FakeIPLoadDomain, mem_FakeIPLoad, mem_FakeIPStore.
    destruct (Is4 a) eqn:E4, v6; cbn; destruct (addressCache st !! a) as [o|] eqn:Eo; cbn; try done;
      destruct (decide (d' = d)) as [->|Hn];
      rewrite ?lookup_insert_eq, ?lookup_insert_ne by done; try done;
      destruct (decide (Some o = Some d')) as [[= ->]|Ho];
      by rewrite ?lookup_delete_eq, ?lookup_delete_ne by congruence.
Qed.

Lemma mem_cleared st : cleared (mem_FakeIPReset st).
Proof. by split; [|intros d []]. Qed.

#[export] Instance memory_laws : StorageLaws MemoryStorage.
Proof.
  split; try done.
  - intros a d st _. left. apply mem_stored.
  - intros st. left. apply mem_cleared.
Qed.

#[export] Instance memory_writes : StorageWrites MemoryStorage.
Proof. split. intros a d st _ _. apply mem_stored. Qed.

(** ** The store *)

(** [As16] as a number: IPv4 addresses are mapped. *)
Definition As16 (a : Addr) : Z :=
  match a with
  | AddrNone => 0
  | Addr4 n => 0xFFFF * 2 ^ 32 + n
  | Addr6 n _ => n
  end.

(** [for i := bits; i < 128; i++ { raw[i/8] |= 1 << (7 - i%8) }], on the number
    of the sixteen bytes. *)
Fixpoint set_host_bits (count : nat) (i raw : Z) : Z :=
  match count with
  | O => raw
  | S count => set_host_bits count (i + 1) (Z.lor raw (2 ^ (127 - i)))
  end.

Definition broadcastAddress (prefix : Prefix) : Addr :=
  let addr := p_addr prefix in
  let bits := if Is4 addr then p_bits prefix + 96 else p_bits prefix in
  let raw := set_host_bits (Z.to_nat (128 - bits)) bits (As16 addr) in
  if Is4 addr then Addr4 (u32 raw) else Addr6 raw EmptyString.

Record Store (St : Type) := mkStore {
  inet4Range : Prefix;
  inet6Range : Prefix;
  inet4Last : Addr;
  inet6Last : Addr;
  storage : option St;
  inet4Current : Addr;
  inet6Current : Addr
}.
Arguments mkStore {St}.
Arguments inet4Range {St}.
Arguments inet6Range {St}.
Arguments inet4Last {St}.
Arguments inet6Last {St}.
Arguments storage {St}.
Arguments inet4Current {St}.
Arguments inet6Current {St}.

Section store.
Context {St : Type} `{FakeIPStorage St}.

Definition NewStore (range4 range6 : Prefix) : Store St :=
  mkStore range4 range6
    (if prefix_IsValid range4 then broadcastAddress range4 else AddrNone)
    (if prefix_IsValid range6 then broadcastAddress range6 else AddrNone)
    None AddrNone AddrNone.

(** [Start] with the storage it chooses, the cache file's or a new one in
    memory. *)
Definition Start (st : St) (s : Store St) : Store St :=
  let '(metadata, st) := LoadMetadata st in
  let reset :=
    mkStore (inet4Range s) (inet6Range s) (inet4Last s) (inet6Last s) (Some (FakeIPReset st))
      (if prefix_IsValid (inet4Range s) then Next (p_addr (inet4Range s)) else inet4Current s)
      (if prefix_IsValid (inet6Range s) then Next (p_addr (inet6Range s)) else inet6Current s) in
  match metadata with
  | Some m =>
    if bool_decide (Inet4Range m = inet4Range s) && bool_decide (Inet6Range m = inet6Range s)
    then mkStore (inet4Range s) (inet6Range s) (inet4Last s) (inet6Last s) (Some st)
           (Inet4Current m) (Inet6Current m)
    else reset
  | None => reset
  end.

Definition Contains (s : Store St) (address : Addr) : bool :=
  prefix_Contains (inet4Range s) address || prefix_Contains (inet6Range s) address.

Definition metadata_of (s : Store St) : FakeIPMetadata :=
  mkMetadata (inet4Range s) (inet6Range s) (inet4Current s) (inet6Current s).

Definition Close (s : Store St) : Store St :=
  match storage s with
  | None => s
  | Some st =>
    mkStore (inet4Range s) (inet6Range s) (inet4Last s) (inet6Last s)
      (Some (FakeIPSaveMetadata (metadata_of s) st)) (inet4Current s) (inet6Current s)
  end.

Definition next_address (range : Prefix) (last current : Addr) : Addr :=
  let nextAddress := Next current in
  if bool_decide (nextAddress = last) || negb (prefix_Contains range nextAddress)
  then Next (Next (p_addr range)) else nextAddress.

(** The part of [Create] after the address is chosen. *)
Definition create_store (s : Store St) (st : St) (current4 current6 address : Addr)
    (domain : string) : Store St :=
  let st := FakeIPStore address domain st in
  mkStore (inet4Range s) (inet6Range s) (inet4Last s) (inet6Last s)
    (Some (FakeIPSaveMetadata (mkMetadata (inet4Range s) (inet6Range s) current4 current6) st))
    current4 current6.

(** [Create] under the lock. *)
Definition create_locked (s : Store St) (st : St) (domain : string) (isIPv6 : bool)
    : res (Store St * Addr) :=
  match FakeIPLoadDomain st domain isIPv6 with
  | Some address => Ret (s, address)
  | None =>
    if negb isIPv6 then
      if negb (IsValid (inet4Current s)) then Err "missing IPv4 fakeip address range" else
      let nextAddress := next_address (inet4Range s) (inet4Last s) (inet4Current s) in
      Ret (create_store s st nextAddress (inet6Current s) nextAddress domain, nextAddress)
    else
      if negb (IsValid (inet6Current s)) then Err "missing IPv6 fakeip address range" else
      let nextAddress := next_address (inet6Range s) (inet6Last s) (inet6Current s) in
      Ret (create_store s st (inet4Current s) nextAddress nextAddress domain, nextAddress)
  end.

Definition Create (s : Store St) (domain : string) (isIPv6 : bool) : res (Store St * Addr) :=
  match storage s with
  | None => Panic
  | Some st =>
    match FakeIPLoadDomain st domain isIPv6 with
    | Some address => Ret (s, address)
    | None => create_locked s st domain isIPv6
    end
  end.

Definition Lookup (s : Store St) (address : Addr) : res (option string) :=
  match storage s with None => Panic | Some st => Ret (FakeIPLoad st address) end.

Definition Reset (s : Store St) : res (Store St) :=
  match storage s with
  | None => Panic
  | Some st =>
    Ret (mkStore (inet4Range s) (inet6Range s) (inet4Last s) (inet6Last s) (Some (FakeIPReset st))
           (inet4Current s) (inet6Current s))
  end.

End store.

(** ** Ranges as intervals *)

(** The bits of the host part, the first and the last number of a prefix. *)
Definition host_bits (p : Prefix) : Z := BitLen (p_addr p) - p_bits p.
Definition first_num (p : Prefix) : Z :=
  addr_num (p_addr p) - addr_num (p_addr p) mod 2 ^ host_bits p.
Definition last_num (p : Prefix) : Z := first_num p + 2 ^ host_bits p - 1.

Lemma lor_ones n k : 0 <= k -> Z.lor n (Z.ones k) = n - n mod 2 ^ k + 2 ^ k - 1.
Proof.
  intros Hk. pose proof (Z.add_lor_land n (Z.ones k)) as E.
  rewrite Z.land_ones in E by done. rewrite Z.ones_equiv in E at 2. lia.
Qed.

Lemma set_host_bits_spec count raw :
  set_host_bits count (128 - Z.of_nat count) raw = Z.lor raw (Z.ones (Z.of_nat count)).
Proof.
  revert raw. induction count as [|count IH]; intros raw; cbn [set_host_bits];
    [by rewrite Z.lor_0_r|].
  replace (128 - Z.of_nat (S count) + 1) with (128 - Z.of_nat count) by lia.
  rewrite IH. replace (127 - (128 - Z.of_nat (S count))) with (Z.of_nat count) by lia.
  rewrite <-Z.lor_assoc. f_equal. rewrite lor_ones by lia.
  rewrite Z.mod_same by (apply Z.pow_nonzero; lia).
  rewrite Z.ones_equiv. rewrite Nat2Z.inj_succ, Z.pow_succ_r by lia. lia.
Qed.

Lemma set_host_bits_from bits raw :
  bits <= 128 ->
  set_host_bits (Z.to_nat (128 - bits)) bits raw = Z.lor raw (Z.ones (128 - bits)).
Proof.
  intros Hb. pose proof (set_host_bits_spec (Z.to_nat (128 - bits)) raw) as E.
  rewrite !Z2Nat.id in E by lia. by replace (128 - (128 - bits)) with bits in E by lia.
Qed.

(** The low 32 bits of a mapped address with its host bits set. *)
Lemma mapped_host_bits n k :
  0 <= n < 2 ^ 32 -> 0 <= k <= 32 ->
  u32 (Z.lor (0xFFFF * 2 ^ 32 + n) (Z.ones k)) = Z.lor n (Z.ones k).
Proof.
  intros Hn Hk. unfold u32. rewrite <-!Z.land_ones by lia.
  rewrite Z.land_lor_distr_l. f_equal.
  - rewrite Z.land_ones, Z.add_comm, Z_mod_plus_full, Z.mod_small by lia. done.
  - rewrite Z.land_ones by lia. apply Z.mod_small. rewrite Z.ones_equiv.
    pose proof (Z.pow_le_mono_r 2 k 32 ltac:(lia) ltac:(lia)).
    pose proof (Z.pow_pos_nonneg 2 k ltac:(lia) ltac:(lia)). lia.
Qed.

Lemma broadcastAddress_spec p :
  wf_prefix p -> BitLen (broadcastAddress p) = BitLen (p_addr p) /\
  hasZone (broadcastAddress p) = false /\ addr_num (broadcastAddress p) = last_num p.
Proof.
  intros (Hw & Hz & Hl & Hb). unfold broadcastAddress, last_num, first_num, host_bits.
  destruct (p_addr p) as [|n|n z]; cbn [Is4 BitLen addr_num As16 wf_addr] in *; [lia|..];
    (split; [done|]); (split; [done|]); rewrite set_host_bits_from by lia.
  - replace (128 - (p_bits p + 96)) with (32 - p_bits p) by lia.
    rewrite mapped_host_bits by lia. apply lor_ones. lia.
  - apply lor_ones. lia.
Qed.

(** Containment is being between the first and the last number. *)
Lemma prefix_Contains_interval p a :
  wf_prefix p ->
  prefix_Contains p a = true <->
  hasZone a = false /\ BitLen a = BitLen (p_addr p) /\ first_num p <= addr_num a <= last_num p.
Proof.
  intros Hp. rewrite prefix_Contains_iff by done. destruct Hp as (_ & _ & Hl & Hb).
  unfold last_num, first_num, host_bits.
  split; intros (Hz & E & Hq); (split; [done|]); (split; [done|]); rewrite E in *;
    set (k := 2 ^ (BitLen (p_addr p) - p_bits p)) in *;
    assert (0 < k) by (apply Z.pow_pos_nonneg; lia);
    pose proof (Z.div_mod (addr_num a) k ltac:(lia)); pose proof (Z.mod_pos_bound (addr_num a) k ltac:(lia));
    pose proof (Z.div_mod (addr_num (p_addr p)) k ltac:(lia)).
  - rewrite Hq in *. lia.
  - symmetry. apply (Z.div_unique_pos _ _ _ (addr_num a - first_num p)); unfold first_num, host_bits;
      fold k; lia.
Qed.

Lemma addr_ext a b :
  BitLen a = BitLen b -> hasZone a = false -> hasZone b = false -> addr_num a = addr_num b -> a = b.
Proof.
  destruct a as [|n|n z], b as [|m|m w]; cbn; try done; [by intros _ _ _ ->|].
  intros _ Ha Hb ->. apply negb_false_iff, bool_decide_eq_true_1 in Ha as ->, Hb as ->. done.
Qed.

(** ** Handing out addresses *)

(** A range apart from the IPv4 addresses in IPv6 form, ::ffff:0:0/96. *)
Definition unmapped (p : Prefix) : Prop :=
  BitLen (p_addr p) = 32 \/ last_num p <= 0xFFFF * 2 ^ 32 \/ 2 ^ 48 <= addr_num (p_addr p).

(** A range with room: after the network address and the one after it, at
    least one address comes before the last. *)
Definition room (p : Prefix) : Prop :=
  wf_prefix p /\ addr_num (p_addr p) + 2 < last_num p /\ unmapped p.

(** The first address handed out and the number of addresses. *)
Definition pool_base (p : Prefix) : Z := addr_num (p_addr p) + 2.
Definition capacity (p : Prefix) : Z := last_num p - pool_base p.

(** An address of a range that starts at the number [lo]. *)
Definition pooled (p : Prefix) (lo : Z) (a : Addr) : Prop :=
  BitLen a = BitLen (p_addr p) /\ hasZone a = false /\ lo <= addr_num a < last_num p.

Lemma Next_num a :
  addr_num a + 1 < 2 ^ BitLen a -> hasZone a = false -> 0 < BitLen a ->
  addr_num (Next a) = addr_num a + 1 /\ BitLen (Next a) = BitLen a /\ hasZone (Next a) = false.
Proof.
  destruct a as [|n|n z]; cbn [addr_num BitLen Next]; intros Hn Hz Hl; [lia|..];
    rewrite (proj2 (Z.eqb_neq _ _)) by lia; done.
Qed.

Lemma last_num_lt p : wf_prefix p -> last_num p < 2 ^ BitLen (p_addr p).
Proof.
  intros (Hw & _ & Hl & Hb). unfold last_num, first_num, host_bits.
  set (n := addr_num (p_addr p)). set (l := BitLen (p_addr p)) in *.
  assert (Hn : 0 <= n < 2 ^ l).
  { subst n l. destruct (p_addr p); cbn [addr_num BitLen wf_addr] in *; [lia|done|done]. }
  assert (Hk : 0 < 2 ^ (l - p_bits p)) by (apply Z.pow_pos_nonneg; lia).
  assert (E : 2 ^ l = 2 ^ p_bits p * 2 ^ (l - p_bits p)) by (rewrite <-Z.pow_add_r by lia; f_equal; lia).
  pose proof (Z.div_mod n (2 ^ (l - p_bits p)) ltac:(lia)).
  assert (Hd : n / 2 ^ (l - p_bits p) < 2 ^ p_bits p) by (apply Z.div_lt_upper_bound; lia).
  nia.
Qed.

Lemma next_address_spec p current :
  room p -> pooled p (pool_base p - 1) current ->
  let a := next_address p (broadcastAddress p) current in
  pooled p (pool_base p) a /\ prefix_Contains p a = true /\
  addr_num a = pool_base p + (addr_num current + 1 - pool_base p) mod capacity p.
Proof.
  intros (Hp & Hr & _) (El & Ez & Hc). pose proof (last_num_lt p Hp) as Hlt.
  destruct (broadcastAddress_spec p Hp) as (Bl & Bz & Bn). pose proof Hp as (_ & Hz & Hl & _).
  assert (Hf : first_num p <= addr_num (p_addr p)).
  { unfold first_num, host_bits. pose proof (Z.mod_pos_bound (addr_num (p_addr p))
      (2 ^ (BitLen (p_addr p) - p_bits p)) ltac:(apply Z.pow_pos_nonneg; destruct Hp as (_ & _ & _ & ?); lia)).
    lia. }
  unfold capacity, pool_base in *.
  destruct (Next_num current) as (N1 & N2 & N3); [rewrite El; lia|done|lia|].
  cbv zeta. unfold next_address.
  destruct (decide (addr_num current + 1 = last_num p)) as [E|E].
  - rewrite bool_decide_eq_true_2; [|apply addr_ext; congruence]. cbn [orb].
    destruct (Next_num (p_addr p)) as (M1 & M2 & M3); [lia|done|lia|].
    destruct (Next_num (Next (p_addr p))) as (K1 & K2 & K3); [rewrite M2; lia|done|lia|].
    rewrite E, Z.mod_same by lia. unfold pooled. rewrite prefix_Contains_interval by done.
    rewrite K2, M2, K1, M1, K3. repeat split; lia.
  - rewrite bool_decide_eq_false_2 by (intros F; rewrite F in N1; lia). cbn [orb].
    assert (Hcont : prefix_Contains p (Next current) = true).
    { apply prefix_Contains_interval; [done|]. rewrite N1, N2, N3. repeat split; [done|lia|lia]. }
    rewrite Hcont. cbn [negb]. unfold pooled. rewrite N1, N2, N3, Z.mod_small by lia.
    repeat split; try done; lia.
Qed.

(** ** The invariant of a store *)

Section invariant.
Context {St : Type} `{HS : FakeIPStorage St} {SL : StorageLaws St}.

(** The range, the last address and the current address of a family. *)
Definition range_of (s : Store St) (v6 : bool) : Prefix := if v6 then inet6Range s else inet4Range s.
Definition last_of (s : Store St) (v6 : bool) : Addr := if v6 then inet6Last s else inet4Last s.
Definition current_of (s : Store St) (v6 : bool) : Addr :=
  if v6 then inet6Current s else inet4Current s.

(** A range as the settings give it: absent, or of its family and roomy. *)
Definition range_ok (v6 : bool) (p : Prefix) : Prop :=
  prefix_IsValid p = false \/ (room p /\ Is4 (p_addr p) = negb v6).

Definition family_ok (s : Store St) (v6 : bool) : Prop :=
  if prefix_IsValid (range_of s v6) then
    room (range_of s v6) /\ Is4 (p_addr (range_of s v6)) = negb v6 /\
    last_of s v6 = broadcastAddress (range_of s v6) /\
    pooled (range_of s v6) (pool_base (range_of s v6) - 1) (current_of s v6)
  else current_of s v6 = AddrNone.

(** An address the store may hand out. *)
Definition handed (s : Store St) (a : Addr) : Prop :=
  exists v6, prefix_IsValid (range_of s v6) = true /\ room (range_of s v6) /\
    Is4 a = negb v6 /\ pooled (range_of s v6) (pool_base (range_of s v6)) a.

(** The mapping of a storage: the two directions agree, and every mapped
    address is of the ranges or has the name it had in [old]. *)
Definition mapping_ok (old : Addr -> option string) (s : Store St) (st : St) : Prop :=
  agrees st /\ (forall a d, storable a -> FakeIPLoad st a = Some d -> handed s a \/ old a = Some d).

Definition store_ok (old : Addr -> option string) (s : Store St) : Prop :=
  (forall v6, family_ok s v6) /\ exists st, storage s = Some st /\ mapping_ok old s st.

(** Nothing was mapped before. *)
Definition nothing (a : Addr) : option string := None.

Lemma pooled_storable p a : room p -> pooled p (pool_base p) a -> storable a.
Proof.
  intros (Hp & _ & Hu) (El & Ez & Hn). pose proof (last_num_lt _ Hp) as Hlt.
  pose proof Hp as (Hw & _ & Hl & _). unfold pool_base, unmapped in *. rewrite <-El in *.
  assert (H0 : 0 <= addr_num (p_addr p)) by (destruct (p_addr p); cbn in *; lia).
  assert (Hb : 0 <= addr_num a < 2 ^ BitLen a) by lia.
  split; [by destruct a|]. split; [by destruct a|]. split; [done|].
  destruct a as [|n|n z]; [done|done|]. cbn [BitLen addr_num Is4In6] in *.
  apply Z.eqb_neq. rewrite Z.shiftr_div_pow2 by lia.
  pose proof (Z.div_mod n (2 ^ 32) ltac:(lia)). pose proof (Z.mod_pos_bound n (2 ^ 32) ltac:(lia)).
  destruct Hu as [F|Hu]; [done|]. lia.
Qed.

Lemma handed_storable s a : handed s a -> storable a.
Proof. intros (v6 & _ & Hr & _ & Hp). by eapply pooled_storable. Qed.

Lemma pooled_Is4 p lo a : pooled p lo a -> wf_prefix p -> Is4 a = Is4 (p_addr p).
Proof.
  intros (El & _) (_ & _ & Hl & _). destruct a, (p_addr p); cbn in *; done || lia.
Qed.

Lemma handed_contains s a : handed s a -> Contains s a = true.
Proof.
  intros (v6 & _ & (Hp & Hr & _) & _ & (El & Ez & Hn)). unfold Contains.
  assert (E : prefix_Contains (range_of s v6) a = true).
  { apply prefix_Contains_interval; [done|]. split; [done|]. split; [done|].
    unfold pool_base in Hn. pose proof (Z.mod_pos_bound (addr_num (p_addr (range_of s v6)))
      (2 ^ host_bits (range_of s v6)) ltac:(apply Z.pow_pos_nonneg; destruct Hp as (_ & _ & _ & ?);
        unfold host_bits; lia)). unfold first_num. lia. }
  destruct v6; cbn in E; rewrite E; [apply orb_true_r|done].
Qed.

(** Storing a name under an address keeps the two directions in agreement,
    when the name has no address of the family. *)
Lemma agrees_stored st st' a d v6 :
  agrees st -> storable a -> Is4 a = negb v6 -> FakeIPLoadDomain st d v6 = None ->
  stored a d st st' -> agrees st'.
Proof.
  intros [Ho Hm] Ha E4 Hn [Hl Hd]. split.
  - intros d' v6' a'. rewrite Hd. repeat case_decide; try (by intros [= <-] || apply Ho).
  - intros d' v6' a' Ha'. rewrite Hl, Hd by done.
    destruct (decide (v6' = Is4 a)) as [E|E].
    + rewrite Hm by done. destruct (decide (a' = a)) as [->|]; [|done].
      split; intros [_ F]; exfalso; rewrite F in E; by destruct v6'.
    + assert (v6' = v6) as -> by (rewrite E4 in E; by destruct v6, v6').
      destruct (decide (d' = d)) as [->|Hdd].
      * split; [intros [= <-]; by rewrite decide_True|].
        destruct (decide (a' = a)) as [->|]; [done|]. rewrite <-Hm, Hn by done. by intros ?.
      * destruct (decide (FakeIPLoad st a = Some d')) as [Ed|Ed].
        -- split; [done|]. destruct (decide (a' = a)) as [->|Hne]; [by intros [[= ->] _]|].
           intros F%Hm; [|done]. assert (Hx : FakeIPLoadDomain st d' v6 = Some a) by (by apply Hm).
           congruence.
        -- rewrite Hm by done. destruct (decide (a' = a)) as [->|]; [|done].
           split; [by intros [? _]|by intros [[= ->] _]].
Qed.

Lemma agrees_same st st' : same_reads st st' -> agrees st -> agrees st'.
Proof.
  intros [Hl Hd] [Ho Hm]. split; [intros d v6 a; rewrite Hd; apply Ho|].
  intros d v6 a. rewrite Hd, Hl. apply Hm.
Qed.

Lemma agrees_cleared st : cleared st -> agrees st.
Proof. intros [Hl Hd]. split; intros d v6 a; rewrite Hd; [done|]. rewrite Hl. by split; [|intros [? _]]. Qed.

Lemma mapping_same old s s' st st' :
  (forall v6, range_of s' v6 = range_of s v6) -> same_reads st st' ->
  mapping_ok old s st -> mapping_ok old s' st'.
Proof.
  intros Hr Hsame [Hm Hh]. split; [by eapply agrees_same|].
  intros a d Ha. rewrite (proj1 Hsame). intros [(v6 & F)|F]%Hh; [|by right|done].
  left. exists v6. by rewrite Hr.
Qed.

Lemma mapping_cleared old s st : cleared st -> mapping_ok old s st.
Proof. intros Hc. split; [by apply agrees_cleared|]. intros a d _. by rewrite (proj1 Hc). Qed.

Lemma mapping_store old s st a d v6 :
  mapping_ok old s st -> handed s a -> Is4 a = negb v6 -> FakeIPLoadDomain st d v6 = None ->
  mapping_ok old s (FakeIPStore a d st).
Proof.
  intros Hok Ha E4 Hn. pose proof (handed_storable s a Ha) as Hs.
  destruct (store_reads a d st Hs) as [Hst|Hsame]; [|by apply (mapping_same old s s st)].
  destruct Hok as [Hm Hh]. split; [by eapply agrees_stored|].
  intros a' d' Ha'. rewrite (proj1 Hst) by done. destruct (decide (a' = a)) as [->|]; [by left|by apply Hh].
Qed.

(** What creating a new mapping does to a store. *)
Record created (s : Store St) (st : St) (d : string) (v6 : bool) (s' : Store St) (a : Addr) : Prop := {
  cr_address : a = next_address (range_of s v6) (last_of s v6) (current_of s v6);
  cr_range w : range_of s' w = range_of s w;
  cr_last w : last_of s' w = last_of s w;
  cr_current w : current_of s' w = if decide (w = v6) then a else current_of s w;
  cr_storage : exists m, storage s' = Some (FakeIPSaveMetadata m (FakeIPStore a d st))
}.

Lemma current_valid s v6 : family_ok s v6 -> prefix_IsValid (range_of s v6) = true ->
  IsValid (current_of s v6) = true.
Proof.
  unfold family_ok. intros Hf Hv. rewrite Hv in Hf. destruct Hf as ((Hp & _) & _ & _ & (El & _)).
  destruct Hp as (_ & _ & Hl & _). destruct (current_of s v6); [cbn in El; lia|done|done].
Qed.

Lemma create_locked_new s st d v6 :
  FakeIPLoadDomain st d v6 = None -> IsValid (current_of s v6) = true ->
  exists s' a, create_locked s st d v6 = Ret (s', a) /\ created s st d v6 s' a.
Proof.
  intros Hn Hv. unfold create_locked. rewrite Hn.
  destruct v6; cbn [negb current_of] in *; rewrite Hv; cbn [negb]; do 2 eexists; (split; [done|]);
    split; try done; try (by intros []); by eexists.
Qed.

(** Creating keeps the invariant and names the address. *)
Lemma created_ok old s st d v6 s' a :
  (forall w, family_ok s w) -> mapping_ok old s st -> prefix_IsValid (range_of s v6) = true ->
  FakeIPLoadDomain st d v6 = None -> created s st d v6 s' a ->
  store_ok old s' /\ handed s a /\ Is4 a = negb v6 /\
  addr_num a = pool_base (range_of s v6) +
    (addr_num (current_of s v6) + 1 - pool_base (range_of s v6)) mod capacity (range_of s v6).
Proof.
  intros Hf Hm Hv Hn [Ea Er El Ec [m Es]]. pose proof (Hf v6) as Hv6. unfold family_ok in Hv6.
  rewrite Hv in Hv6. destruct Hv6 as (Hr & H4 & Hl & Hc).
  destruct (next_address_spec _ _ Hr Hc) as (Hpool & _ & Hnum). rewrite <-Hl, <-Ea in *.
  assert (E4 : Is4 a = negb v6) by (rewrite (pooled_Is4 _ _ _ Hpool) by apply Hr; done).
  assert (Ha : handed s a) by (by exists v6).
  split; [|done]. split.
  - intros w. unfold family_ok. rewrite Er, El, Ec. destruct (decide (w = v6)) as [->|]; [|apply Hf].
    rewrite Hv. split; [done|]. split; [done|]. split; [done|].
    destruct Hpool as (P1 & P2 & P3). split; [done|]. split; [done|]. lia.
  - eexists. split; [exact Es|]. eapply (mapping_same old s); [exact Er|apply save_reads|].
    by apply mapping_store with v6.
Qed.

Lemma range_valid_current s v6 :
  family_ok s v6 -> IsValid (current_of s v6) = prefix_IsValid (range_of s v6).
Proof.
  intros Hf. destruct (prefix_IsValid (range_of s v6)) eqn:E; [by apply current_valid|].
  unfold family_ok in Hf. rewrite E in Hf. by rewrite Hf.
Qed.

(** [Create] under the lock: a known name, a new one, or no range. *)
Lemma create_locked_cases s st d v6 :
  (forall w, family_ok s w) ->
  (exists a, FakeIPLoadDomain st d v6 = Some a /\ create_locked s st d v6 = Ret (s, a)) \/
  (exists s' a, FakeIPLoadDomain st d v6 = None /\ prefix_IsValid (range_of s v6) = true /\
     create_locked s st d v6 = Ret (s', a) /\ created s st d v6 s' a) \/
  (prefix_IsValid (range_of s v6) = false /\ FakeIPLoadDomain st d v6 = None /\
   exists e, create_locked s st d v6 = Err e).
Proof.
  intros Hf. destruct (FakeIPLoadDomain st d v6) as [a|] eqn:E.
  - left. exists a. split; [done|]. unfold create_locked. by rewrite E.
  - right. destruct (prefix_IsValid (range_of s v6)) eqn:Ev.
    + left. destruct (create_locked_new s st d v6 E) as (s' & a & Hc & Hcr).
      { by rewrite range_valid_current. }
      by exists s', a.
    + right. split; [done|]. split; [done|]. pose proof (range_valid_current _ _ (Hf v6)) as Hx.
      rewrite Ev in Hx. unfold create_locked. rewrite E.
      destruct v6; cbn in Hx |- *; rewrite Hx; by eexists.
Qed.

Lemma Create_locked s st d v6 : storage s = Some st -> Create s d v6 = create_locked s st d v6.
Proof. intros Es. unfold Create. rewrite Es. unfold create_locked. by destruct (FakeIPLoadDomain st d v6). Qed.

Lemma create_locked_ok old s st d v6 s' a :
  store_ok old s -> storage s = Some st -> create_locked s st d v6 = Ret (s', a) -> store_ok old s'.
Proof.
  intros [Hf (st' & Es' & Hm)] Es. assert (st' = st) as -> by congruence.
  destruct (create_locked_cases s st d v6 Hf) as [(a' & _ & ->)|[(s1 & a' & Hn & Hv & -> & Hc)|(_ & _ & e & ->)]];
    [intros [= <- <-]; split; [done|by exists st]| |done].
  intros [= <- <-]. by eapply created_ok.
Qed.

(** ** Runs of a store *)

(** Any number of callers create addresses: each looks a name up and, when it
    is missing, comes back under the lock, in any later state; the storage may
    be reset and the metadata saved in between. *)
Inductive store_step : Store St -> Store St -> Prop :=
| step_create s d v6 s' a : Create s d v6 = Ret (s', a) -> store_step s s'
| step_locked s st d v6 s' a :
    storage s = Some st -> create_locked s st d v6 = Ret (s', a) -> store_step s s'
| step_reset s s' : Reset s = Ret s' -> store_step s s'
| step_close s : store_step s (Close s).

Lemma store_step_ok old s s' : store_ok old s -> store_step s s' -> store_ok old s'.
Proof.
  intros Hs Hstep. pose proof Hs as [Hf (st & Es & Hm)].
  destruct Hstep as [s d v6 s' a Hc|s st' d v6 s' a Es' Hc|s s' Hr|s].
  - rewrite (Create_locked _ _ _ _ Es) in Hc. by apply (create_locked_ok old s st d v6 s' a).
  - by apply (create_locked_ok old s st' d v6 s' a).
  - unfold Reset in Hr. rewrite Es in Hr. apply Ret_inj in Hr as <-. split; [exact Hf|].
    eexists. split; [done|]. destruct (reset_reads st) as [Hc|Hsame]; [by apply mapping_cleared|].
    by apply (mapping_same old s s st).
  - unfold Close. rewrite Es. split; [exact Hf|]. eexists. split; [done|].
    eapply (mapping_same old s); [done|apply save_reads|done].
Qed.

Lemma store_steps_ok old s s' : rtc store_step s s' -> store_ok old s -> store_ok old s'.
Proof. induction 1; eauto using store_step_ok. Qed.

(** A started store, when the storage has no metadata of the same ranges. *)
Definition no_metadata (st : St) (r4 r6 : Prefix) : Prop :=
  forall m, fst (LoadMetadata st) = Some m -> Inet4Range m <> r4 \/ Inet6Range m <> r6.

(** Metadata of the same ranges has addresses a store would have saved. *)
Definition metadata_ok (st : St) (r4 r6 : Prefix) : Prop :=
  forall m, fst (LoadMetadata st) = Some m -> Inet4Range m = r4 -> Inet6Range m = r6 ->
  (if prefix_IsValid r4 then pooled r4 (pool_base r4 - 1) (Inet4Current m)
   else Inet4Current m = AddrNone) /\
  (if prefix_IsValid r6 then pooled r6 (pool_base r6 - 1) (Inet6Current m)
   else Inet6Current m = AddrNone).

(** The reset of [Start] does its work. *)
Definition clears (st : St) : Prop := cleared (FakeIPReset (snd (LoadMetadata st))).

Lemma Start_reset st r4 r6 :
  no_metadata st r4 r6 ->
  Start st (NewStore r4 r6) = mkStore r4 r6
    (inet4Last (NewStore (St := St) r4 r6)) (inet6Last (NewStore (St := St) r4 r6))
    (Some (FakeIPReset (snd (LoadMetadata st))))
    (if prefix_IsValid r4 then Next (p_addr r4) else AddrNone)
    (if prefix_IsValid r6 then Next (p_addr r6) else AddrNone).
Proof.
  intros Hmeta. unfold no_metadata in Hmeta. unfold Start.
  destruct (LoadMetadata st) as [[m|] st'] eqn:El; cbn [fst snd] in *; [|done].
  cbn [inet4Range inet6Range NewStore]. destruct (Hmeta m eq_refl) as [?|?].
  - by rewrite (bool_decide_eq_false_2 (Inet4Range m = _)).
  - by rewrite (bool_decide_eq_false_2 (Inet6Range m = _)), andb_false_r.
Qed.

Lemma Start_go_on st r4 r6 m :
  fst (LoadMetadata st) = Some m -> Inet4Range m = r4 -> Inet6Range m = r6 ->
  Start st (NewStore r4 r6) = mkStore r4 r6
    (inet4Last (NewStore (St := St) r4 r6)) (inet6Last (NewStore (St := St) r4 r6))
    (Some (snd (LoadMetadata st))) (Inet4Current m) (Inet6Current m).
Proof.
  intros Em <- <-. unfold Start. destruct (LoadMetadata st) as [m' st']. cbn [fst snd] in *. subst m'.
  by rewrite !bool_decide_eq_true_2.
Qed.

Lemma range_ok_next v6 p : range_ok v6 p -> prefix_IsValid p = true -> room p /\
  Is4 (p_addr p) = negb v6 /\ pooled p (pool_base p - 1) (Next (p_addr p)).
Proof.
  intros [Hi|[(Hp & Hr & Hu) Hi]] Hv; [congruence|]. split; [done|]. split; [done|].
  pose proof (last_num_lt p Hp). pose proof Hp as (_ & Hz & Hl & _).
  destruct (Next_num (p_addr p)) as (N1 & N2 & N3); [lia|done|lia|].
  unfold pooled, pool_base. rewrite N1. split; [done|]. split; [done|]. lia.
Qed.

(** A store with ranges, their last addresses and current addresses in them. *)
Lemma family_start r4 r6 st current4 current6 :
  range_ok false r4 -> range_ok true r6 ->
  (if prefix_IsValid r4 then pooled r4 (pool_base r4 - 1) current4 else current4 = AddrNone) ->
  (if prefix_IsValid r6 then pooled r6 (pool_base r6 - 1) current6 else current6 = AddrNone) ->
  forall v6, family_ok (mkStore r4 r6 (inet4Last (NewStore (St := St) r4 r6))
    (inet6Last (NewStore (St := St) r4 r6)) st current4 current6) v6.
Proof.
  intros H4 H6 C4 C6 []; unfold family_ok, range_of, last_of, current_of; cbn.
  - destruct (prefix_IsValid r6) eqn:E; [|done]. by destruct (range_ok_next true r6) as (? & ? & _).
  - destruct (prefix_IsValid r4) eqn:E; [|done]. by destruct (range_ok_next false r4) as (? & ? & _).
Qed.

Lemma Start_families st r4 r6 v6 :
  range_ok false r4 -> range_ok true r6 -> metadata_ok st r4 r6 ->
  family_ok (Start st (NewStore r4 r6)) v6.
Proof.
  intros H4 H6 Hmeta.
  destruct (fst (LoadMetadata st)) as [m|] eqn:Em;
    [destruct (decide (Inet4Range m = r4 /\ Inet6Range m = r6)) as [[E4 E6]|Hne]|].
  - rewrite (Start_go_on st r4 r6 m) by done. by apply family_start; [..|apply (Hmeta m)|apply (Hmeta m)].
  - rewrite Start_reset by (intros m' Em'; assert (m' = m) as -> by congruence;
      destruct (decide (Inet4Range m = r4)); [right; tauto|by left]).
    apply family_start; [done..| |]; destruct (prefix_IsValid _) eqn:Ev; try done;
      by eapply range_ok_next.
  - rewrite Start_reset by (intros m'; congruence).
    apply family_start; [done..| |]; destruct (prefix_IsValid _) eqn:Ev; try done;
      by eapply range_ok_next.
Qed.

(** The storage of a started store: as it was, or reset. *)
Lemma Start_storage st r4 r6 : exists st1, storage (Start st (NewStore r4 r6)) = Some st1 /\
  (st1 = snd (LoadMetadata st) \/ st1 = FakeIPReset (snd (LoadMetadata st))).
Proof. unfold Start. destruct (LoadMetadata st) as [[m|] st1]; [case_match|]; eexists; eauto. Qed.

Lemma Start_ok st r4 r6 :
  range_ok false r4 -> range_ok true r6 -> metadata_ok st r4 r6 -> agrees st ->
  store_ok (FakeIPLoad st) (Start st (NewStore r4 r6)).
Proof.
  intros H4 H6 Hmeta Hag. split; [intros v6; by apply Start_families|].
  destruct (Start_storage st r4 r6) as (st1 & Es & Hst1). exists st1. split; [done|].
  assert (H0 : mapping_ok (FakeIPLoad st) (Start st (NewStore r4 r6)) (snd (LoadMetadata st))).
  { split; [by apply (agrees_same st), Hag; apply metadata_reads|].
    intros a d _. rewrite (proj1 (metadata_reads st)). by right. }
  destruct Hst1 as [-> | ->]; [done|].
  destruct (reset_reads (snd (LoadMetadata st))) as [Hc|Hsame]; [by apply mapping_cleared|].
  by eapply mapping_same.
Qed.

Lemma no_metadata_ok st r4 r6 : no_metadata st r4 r6 -> metadata_ok st r4 r6.
Proof. intros Hn m Em E4 E6. by destruct (Hn m Em). Qed.

Lemma Start_fresh st r4 r6 :
  range_ok false r4 -> range_ok true r6 -> no_metadata st r4 r6 -> clears st ->
  store_ok nothing (Start st (NewStore r4 r6)).
Proof.
  intros H4 H6 Hn Hc. split; [intros v6; by apply Start_families, no_metadata_ok|].
  rewrite Start_reset by done. eexists. split; [done|]. by apply mapping_cleared.
Qed.

(** The name of an address of a consistent store. *)
Lemma Lookup_storage s st a : storage s = Some st -> Lookup s a = Ret (FakeIPLoad st a).
Proof. intros Es. unfold Lookup. by rewrite Es. Qed.

(** C6: the mapping is one to one.  The ranges are absent or have room (at
    least four addresses from the configured one to the last, none an IPv4
    address in IPv6 form), metadata of the same ranges has current addresses
    in them, and the storage at the start has directions that agree.  Whatever the callers do then, in
    whatever order, and whichever writes and resets of the storage fail, the
    two directions agree: a name has an address of a family exactly when the
    address has the name.  A mapped address is in a range, after its first two
    addresses and before its last, or had the same name at the start; the
    second only when [Start] found metadata of the same ranges or its reset
    failed. *)
Theorem fakeip_consistent st r4 r6 s :
  range_ok false r4 -> range_ok true r6 -> metadata_ok st r4 r6 -> agrees st ->
  rtc store_step (Start st (NewStore r4 r6)) s ->
  exists st', storage s = Some st' /\ agrees st' /\
    (forall a d, storable a -> FakeIPLoad st' a = Some d ->
       (handed s a /\ Contains s a = true) \/ FakeIPLoad st a = Some d) /\
    (no_metadata st r4 r6 -> clears st ->
     forall a d, storable a -> FakeIPLoad st' a = Some d -> handed s a /\ Contains s a = true).
Proof.
  intros H4 H6 Hm Hag Hr.
  destruct (store_steps_ok _ _ _ Hr (Start_ok st r4 r6 H4 H6 Hm Hag)) as [_ (st' & Es & Hd & Hh)].
  exists st'. split; [done|]. split; [done|]. split.
  - intros a d Ha [Hx|Hx]%Hh; [|by right|done]. left. split; [done|by apply handed_contains].
  - intros Hn Hc a d Ha Hl.
    destruct (store_steps_ok _ _ _ Hr (Start_fresh st r4 r6 H4 H6 Hn Hc)) as [_ (st2 & Es2 & _ & Hh2)].
    assert (st2 = st') as -> by congruence. destruct (Hh2 a d Ha Hl) as [Hx|]; [|done].
    split; [done|by apply handed_contains].
Qed.

(** [Create] on a consistent store. *)
Lemma Create_spec {SW : StorageWrites St} s d v6 :
  store_ok nothing s -> prefix_IsValid (range_of s v6) = true -> storable_name d ->
  exists s' a, Create s d v6 = Ret (s', a) /\ store_ok nothing s' /\ Is4 a = negb v6 /\ handed s a /\
    (forall w, range_of s' w = range_of s w) /\ Lookup s' a = Ret (Some d) /\
    (forall a', storable a' -> a' <> a -> Lookup s' a' = Lookup s a').
Proof.
  intros Hs Hv Hne. pose proof Hs as [Hf (st & Es & Hm & Hh)]. rewrite (Create_locked s st d v6 Es).
  destruct (create_locked_cases s st d v6 Hf) as
    [(a & Ea & ->)|[(s' & a & Hn & _ & -> & Hc)|(Hx & _)]]; [| |congruence].
  - pose proof (proj1 Hm _ _ _ Ea) as Hsa. apply Hm in Ea as [Ea E4]; [|done].
    exists s, a. rewrite (Lookup_storage s st) by done. rewrite Ea.
    split; [done|]. split; [done|]. split; [done|]. split; [|done]. by destruct (Hh a d).
  - destruct (created_ok nothing s st d v6 s' a) as (Hok & Ha & E4 & _); try done.
    exists s', a. split; [done|]. split; [done|]. split; [done|]. split; [done|].
    destruct Hc as [_ Er _ _ [m Es']]. split; [exact Er|]. pose proof (handed_storable s a Ha) as Hsa.
    destruct (store_stored a d st Hsa Hne) as [Hl _].
    rewrite (Lookup_storage s' _ a Es'), (proj1 (save_reads _ _)), Hl, decide_True by done. split; [done|].
    intros a' Hs' Ha'. rewrite (Lookup_storage s' _ a' Es'), (Lookup_storage s st) by done.
    by rewrite (proj1 (save_reads _ _)), Hl, decide_False.
Qed.

(** [Create] gives a usable address.  On any store that runs, started with a
    reset that did its work and writes that do not fail, when the family has a
    range, [Create] succeeds with an address of the family and the ranges that
    looks up to the name, creating again returns the same address and changes
    nothing, and no other address changes its name.  Without a range it is an
    error. *)
Theorem Create_usable {SW : StorageWrites St} st r4 r6 s d v6 :
  range_ok false r4 -> range_ok true r6 -> no_metadata st r4 r6 -> clears st ->
  rtc store_step (Start st (NewStore r4 r6)) s -> storable_name d ->
  if prefix_IsValid (range_of s v6) then
    exists s' a, Create s d v6 = Ret (s', a) /\ Lookup s' a = Ret (Some d) /\
      Contains s' a = true /\ Is4 a = negb v6 /\ Create s' d v6 = Ret (s', a) /\
      (forall a', storable a' -> a' <> a -> Lookup s' a' = Lookup s a')
  else exists e, Create s d v6 = Err e.
Proof.
  intros H4 H6 Hm Hcl Hr Hne.
  pose proof (store_steps_ok _ _ _ Hr (Start_fresh st r4 r6 H4 H6 Hm Hcl)) as Hs.
  destruct (prefix_IsValid (range_of s v6)) eqn:Hv.
  - destruct (Create_spec s d v6 Hs Hv Hne) as (s' & a & Hc & Hs' & E4 & Ha & Er & Hl & Ho).
    exists s', a. split; [done|]. split; [done|]. split.
    { apply handed_contains. destruct Ha as (w & Hw). exists w. by rewrite Er. }
    split; [done|]. split; [|done]. pose proof Hs' as [_ (st' & Es' & Hd & _)].
    rewrite (Lookup_storage s' st') in Hl by done. apply Ret_inj in Hl.
    unfold Create. rewrite Es'.
    assert (Hx : FakeIPLoadDomain st' d v6 = Some a) by (apply Hd; [by eapply handed_storable|done]).
    by rewrite Hx.
  - destruct Hs as [Hf (st' & Es & Hd & Hh)]. rewrite (Create_locked s st' d v6 Es).
    destruct (create_locked_cases s st' d v6 Hf) as
      [(a & Ea & _)|[(s' & a & _ & Hx & _)|(_ & _ & e & ->)]]; [|congruence|by exists e].
    exfalso. pose proof (proj1 Hd _ _ _ Ea) as Hsa. apply Hd in Ea as [Ha E4]; [|done].
    destruct (Hh a d Hsa Ha) as [(w & Hw & _ & Ew & _)|]; [|done].
    rewrite Ew in E4. assert (w = v6) as -> by (by destruct w, v6). congruence.
Qed.

(** ** How long an address lasts *)

(** A new mapping leaves the names of the other addresses. *)
Lemma created_others s st d v6 s' x a :
  storage s = Some st -> created s st d v6 s' x -> storable x -> storable a -> a <> x ->
  Lookup s' a = Lookup s a.
Proof.
  intros Es [_ _ _ _ [m Es']] Hx Ha Hne. rewrite (Lookup_storage s' _ a Es'), (Lookup_storage s st) by done.
  rewrite (proj1 (save_reads _ _)). f_equal.
  destruct (store_reads x d st Hx) as [[Hl _]|[Hl _]]; [by rewrite Hl, decide_False|apply Hl].
Qed.

(** Whether a name has an address of a family. *)
Definition known (s : Store St) (d : string) (v6 : bool) : bool :=
  match storage s with
  | Some st => match FakeIPLoadDomain st d v6 with Some _ => true | None => false end
  | None => false
  end.

(** Calls of [Create], with the number of new addresses of a family. *)
Inductive allocations (v6 : bool) : Z -> Store St -> Store St -> Prop :=
| allocations_none s : allocations v6 0 s s
| allocations_create n s1 s2 d w s3 a :
    allocations v6 n s1 s2 -> Create s2 d w = Ret (s3, a) ->
    allocations v6 (if negb (known s2 d w) && Bool.eqb w v6 then n + 1 else n) s1 s3.

Lemma allocations_nonneg v6 n s1 s2 : allocations v6 n s1 s2 -> 0 <= n.
Proof. induction 1; [lia|]. case_match; lia. Qed.

(** [n] addresses after [a]: it still has its name, and the current address
    is [n] places further. *)
Definition kept (v6 : bool) (p : Prefix) (a : Addr) (d : string) (n : Z) (s : Store St) : Prop :=
  store_ok nothing s /\ range_of s v6 = p /\ Lookup s a = Ret (Some d) /\
  addr_num (current_of s v6) = pool_base p + (addr_num a - pool_base p + n) mod capacity p.

Lemma kept_create v6 p a d n s d' w s' a' :
  room p -> Is4 a = negb v6 -> pooled p (pool_base p) a -> prefix_IsValid p = true ->
  kept v6 p a d n s -> Create s d' w = Ret (s', a') -> 0 <= n ->
  let n' := if negb (known s d' w) && Bool.eqb w v6 then n + 1 else n in
  n' < capacity p -> kept v6 p a d n' s'.
Proof.
  intros Hr E4 Hp Hv (Hs & Ep & Hl & Hc) Hcr Hn. pose proof Hs as [Hf (st & Es & Hm)].
  rewrite (Create_locked s st d' w Es) in Hcr. unfold known. rewrite Es.
  destruct (create_locked_cases s st d' w Hf) as
    [(x & Ex & E)|[(s1 & x & Ex & Hw & E & Hcd)|(_ & _ & e & E)]]; rewrite E in Hcr; [| |done];
    injection Hcr as <- <-; rewrite Ex; cbn [negb andb]; [by intros|].
  destruct (created_ok nothing s st d' w s1 x) as (Hok & Hx & Ex4 & Hnum); try done.
  assert (Hother : a <> x -> Lookup s1 a = Ret (Some d)).
  { intros Hne. rewrite <-Hl. apply (created_others s st d' w s1 x a); try done;
      [by eapply handed_storable|by eapply pooled_storable]. }
  destruct Hcd as [_ Er _ Ec _].
  intros Hlt. unfold kept. rewrite Er, Ec.
  split; [done|]. split; [done|]. destruct (Bool.eqb_spec w v6) as [->|Hne]; cbn [negb andb] in Hlt |- *.
  - rewrite (decide_True (P := v6 = v6)) by done. rewrite Ep, Hc in Hnum.
    replace (pool_base p + (addr_num a - pool_base p + n) mod capacity p + 1 - pool_base p) with
      ((addr_num a - pool_base p + n) mod capacity p + 1) in Hnum by lia.
    rewrite Zplus_mod_idemp_l, <-Z.add_assoc in Hnum. split; [|done].
    apply Hother. intros ->.
    destruct Hp as (_ & _ & Hp). set (q := addr_num x - pool_base p) in *.
    assert (Hq : 0 <= q < capacity p) by (subst q; unfold capacity; lia).
    assert (Hmod : (q + (n + 1)) mod capacity p = q) by (subst q; lia).
    destruct (decide (q + (n + 1) < capacity p)).
    + rewrite Z.mod_small in Hmod by lia. lia.
    + rewrite <-(Z_mod_plus_full _ (-1)), Z.mod_small in Hmod by lia. lia.
  - rewrite (decide_False (P := v6 = w)) by congruence. split; [|done].
    apply Hother. intros ->. rewrite E4 in Ex4. by destruct w, v6.
Qed.

(** An address lasts.  After a name gets a new address, it keeps it for
    as long as fewer new addresses of the family are created than the range
    has, the network address, the one after it and the last one left out. *)
Theorem fakeip_lifetime {SW : StorageWrites St} st r4 r6 s d v6 s1 a n s2 :
  range_ok false r4 -> range_ok true r6 -> no_metadata st r4 r6 -> clears st ->
  rtc store_step (Start st (NewStore r4 r6)) s -> storable_name d ->
  known s d v6 = false -> Create s d v6 = Ret (s1, a) ->
  allocations v6 n s1 s2 -> n < capacity (range_of s v6) ->
  Lookup s2 a = Ret (Some d) /\ Create s2 d v6 = Ret (s2, a).
Proof.
  intros H4 H6 Hmeta Hcl Hrun Hne Hk Hc Hal Hlt.
  pose proof (store_steps_ok _ _ _ Hrun (Start_fresh st r4 r6 H4 H6 Hmeta Hcl)) as Hs.
  pose proof Hs as [Hf (st' & Es & Hm)]. rewrite (Create_locked s st' d v6 Es) in Hc.
  unfold known in Hk. rewrite Es in Hk.
  destruct (create_locked_cases s st' d v6 Hf) as
    [(x & Ex & E)|[(s0 & x & Ex & Hv & E & Hcd)|(_ & _ & e & E)]]; rewrite E in Hc;
    [by rewrite Ex in Hk| |done].
  injection Hc as <- <-. destruct (created_ok nothing s st' d v6 s0 x) as (Hok & Ha & E4 & Hnum); try done.
  pose proof (Hf v6) as Hfv. unfold family_ok in Hfv. rewrite Hv in Hfv. destruct Hfv as (Hr & _ & Hl & Hcur).
  assert (Hp : pooled (range_of s v6) (pool_base (range_of s v6)) x).
  { destruct Hcd as [-> _ _ _ _]. rewrite Hl. by apply next_address_spec. }
  destruct Hcd as [_ Er _ Ec [m Es0]]. pose proof (pooled_storable _ _ Hr Hp) as Hsx.
  assert (H0 : kept v6 (range_of s v6) x d 0 s0).
  { split; [done|]. split; [apply Er|].
    rewrite (Lookup_storage s0 _ x Es0), (proj1 (save_reads _ _)), (proj1 (store_stored x d st' Hsx Hne)) by done.
    rewrite !decide_True by done. split; [done|]. rewrite Ec, decide_True, Z.add_0_r by done.
    destruct Hp as (_ & _ & Hp). rewrite Z.mod_small by (unfold capacity; lia). lia. }
  assert (Hkept : kept v6 (range_of s v6) x d n s2).
  { clear Hk E. revert Hlt. induction Hal as [|n s1 s3 d' w s4 a' Hal IH Hc]; [done|]. intros Hlt.
    pose proof (allocations_nonneg _ _ _ _ Hal). apply (kept_create v6 _ x d n s3 d' w s4 a'); try done.
    apply IH; [done..|]. case_match; lia. }
  destruct Hkept as ([_ (st2 & Es2 & Hd2 & _)] & _ & Hl2 & _). split; [done|].
  rewrite (Lookup_storage s2 st2) in Hl2 by done. apply Ret_inj in Hl2.
  unfold Create. rewrite Es2. assert (Hx : FakeIPLoadDomain st2 d v6 = Some x) by (by apply Hd2).
  by rewrite Hx.
Qed.

End invariant.

(** ** Witnesses *)

(** 198.18.0.0/29, five addresses to hand out. *)
Definition demo_range : Prefix := mkPrefix (Addr4 (198 * 2 ^ 24 + 18 * 2 ^ 16)) 29.

Definition demo_start : Store MemoryStorage := Start NewMemoryStorage (NewStore demo_range NoPrefix).

Definition demo_create (s : Store MemoryStorage) (d : string) : Store MemoryStorage :=
  match Create s d false with Ret (s', _) => s' | _ => s end.

Definition demo_one : Store MemoryStorage := demo_create demo_start "a.example".

Definition demo_addr (n : Z) : Addr := Addr4 (198 * 2 ^ 24 + 18 * 2 ^ 16 + n).

Lemma demo_range_ok : range_ok false demo_range.
Proof.
  right. split; [|done]. split; [repeat split; vm_compute; congruence|]. split; [done|by left].
Qed.

Lemma demo_none_ok : range_ok true NoPrefix.
Proof. by left. Qed.

Lemma demo_no_metadata r4 r6 : no_metadata NewMemoryStorage r4 r6.
Proof. done. Qed.

Lemma demo_clears : clears NewMemoryStorage.
Proof. apply mem_cleared. Qed.

Lemma demo_name : storable_name "b.example".
Proof. done. Qed.

Lemma demo_run : rtc store_step demo_start demo_one.
Proof. apply rtc_once, (step_create _ "a.example" false _ (demo_addr 2)). vm_compute. reflexivity. Qed.

Lemma fakeip_consistent_witness :
  exists st', storage demo_one = Some st' /\ agrees st' /\
    (forall a d, storable a -> FakeIPLoad st' a = Some d ->
       (handed demo_one a /\ Contains demo_one a = true) \/ FakeIPLoad NewMemoryStorage a = Some d) /\
    (no_metadata NewMemoryStorage demo_range NoPrefix -> clears NewMemoryStorage ->
     forall a d, storable a -> FakeIPLoad st' a = Some d ->
       handed demo_one a /\ Contains demo_one a = true).
Proof.
  exact (fakeip_consistent NewMemoryStorage demo_range NoPrefix demo_one demo_range_ok demo_none_ok
    (no_metadata_ok _ _ _ (demo_no_metadata _ _)) (agrees_cleared _ (mem_cleared NewMemoryStorage)) demo_run).
Defined.

Lemma Create_usable_witness :
  exists s' a, Create demo_one "b.example" false = Ret (s', a) /\ Lookup s' a = Ret (Some "b.example"%string) /\
    Contains s' a = true /\ Is4 a = negb false /\ Create s' "b.example" false = Ret (s', a) /\
    (forall a', storable a' -> a' <> a -> Lookup s' a' = Lookup demo_one a').
Proof.
  exact (Create_usable NewMemoryStorage demo_range NoPrefix demo_one "b.example" false demo_range_ok
    demo_none_ok (demo_no_metadata _ _) demo_clears demo_run demo_name).
Defined.

Lemma fakeip_lifetime_witness :
  Lookup (demo_create (demo_create demo_one "b.example") "c.example") (demo_addr 2) =
    Ret (Some "a.example"%string) /\
  Create (demo_create (demo_create demo_one "b.example") "c.example") "a.example" false =
    Ret (demo_create (demo_create demo_one "b.example") "c.example", demo_addr 2).
Proof.
  apply (fakeip_lifetime NewMemoryStorage demo_range NoPrefix demo_start "a.example" false demo_one
    (demo_addr 2) 2); [apply demo_range_ok|apply demo_none_ok|apply demo_no_metadata|apply demo_clears|
    apply rtc_refl|done|reflexivity|vm_compute; reflexivity| |reflexivity].
  change 2 with (if negb (known (demo_create demo_one "b.example") "c.example" false) && Bool.eqb false false
    then 1 + 1 else 1).
  apply (allocations_create false 1 _ (demo_create demo_one "b.example") "c.example" false _ (demo_addr 4));
    [|vm_compute; reflexivity].
  change 1 with (if negb (known demo_one "b.example" false) && Bool.eqb false false then 0 + 1 else 0).
  apply (allocations_create false 0 _ demo_one "b.example" false _ (demo_addr 3));
    [apply allocations_none|vm_compute; reflexivity].
Defined.
