(* ===== verification/FakeIPServer.v ===== *)
(** * The FakeIP server (src/dns/transport/fakeip/fakeip.go,
    src/adapter/fakeip_metadata.go, src/experimental/cachefile/fakeip.go,
    src/dns/client.go, src/dns/client_log.go, src/route/route.go)

    The binary form of the metadata, which lets a store go on after a restart;
    the cache file, the storage that keeps it;
    the DNS transport over the store; and the way back in the router, which
    turns a connection to a fake address into one to the name. *)

From S2P Require Import Prelude Netip RuleItems FakeIP.

(** ** Binary forms of net/netip *)

Definition Addr_MarshalBinary (a : Addr) : list Z :=
  match a with
  | AddrNone => []
  | Addr4 n => put_be 4 n
  | Addr6 n zone => put_be 16 n ++ bytes_of zone
  end.

Definition Addr_UnmarshalBinary (b : list Z) : res Addr :=
  let n := zlen b in
  if n =? 0 then Ret AddrNone
  else if n =? 4 then Ret (Addr4 (get_be b))
  else if n =? 16 then Ret (Addr6 (get_be b) EmptyString)
  else if 16 <? n then Ret (Addr6 (get_be (take 16 b)) (string_of (drop 16 b)))
  else Err "unexpected slice size".

Definition Prefix_MarshalBinary (p : Prefix) : list Z :=
  Addr_MarshalBinary (withoutZone (p_addr p)) ++ [u8 (p_bits p)].

Definition Prefix_UnmarshalBinary (b : list Z) : res Prefix :=
  if zlen b <? 1 then Err "unexpected slice size" else
  head ← go_slice b 0 (zlen b - 1);
  addr ← Addr_UnmarshalBinary head;
  bits ← go_index b (zlen b - 1);
  Ret (PrefixFrom addr bits).

(** ** The metadata *)

(** [uint16(len(data))] and the data. *)
Definition put_element (data : list Z) : list Z := put_be 2 (u16 (zlen data)) ++ data.

Definition MarshalBinary (m : FakeIPMetadata) : list Z :=
  put_element (Prefix_MarshalBinary (Inet4Range m)) ++
  put_element (Prefix_MarshalBinary (Inet6Range m)) ++
  put_element (Addr_MarshalBinary (Inet4Current m)) ++
  put_element (Addr_MarshalBinary (Inet6Current m)).

(** One round of the loop: [common.Must] raises when the length is cut off. *)
Definition get_element {A} (unmarshal : list Z -> res A) (data : list Z) : res (A * list Z) :=
  if zlen data <? 2 then Panic else
  length ← go_be 2 data;
  data ← go_from data 2;
  if zlen data <? length then Err "unexpected EOF" else
  element ← go_slice data 0 length;
  x ← unmarshal element;
  rest ← go_from data length;
  Ret (x, rest).

Definition UnmarshalBinary (data : list Z) : res FakeIPMetadata :=
  r1 ← get_element Prefix_UnmarshalBinary data;
  r2 ← get_element Prefix_UnmarshalBinary (snd r1);
  r3 ← get_element Addr_UnmarshalBinary (snd r2);
  r4 ← get_element Addr_UnmarshalBinary (snd r3);
  Ret (mkMetadata (fst r1) (fst r2) (fst r3) (fst r4)).

(** ** The cache file *)

(** A bucket of the database, a map of byte strings; no entry has the empty
    key, and [Put] refuses it. *)
Abbreviation Bucket := (gmap string string).

Definition Get (key : string) (b : Bucket) : option string :=
  if decide (key = EmptyString) then None else b !! key.

Definition Put (key value : string) (b : Bucket) : option Bucket :=
  if (zlen (bytes_of key) =? 0) || (32768 <? zlen (bytes_of key)) then None
  else Some (<[key := value]> b).

Definition AsSlice (a : Addr) : list Z :=
  match a with
  | AddrNone => []
  | Addr4 n => put_be 4 n
  | Addr6 n _ => put_be 16 n
  end.

(** The FakeIP buckets of a cache file, each there or not. *)
Record CacheFile := mkCacheFile {
  bucketFakeIP : option Bucket;
  bucketFakeIPDomain4 : option Bucket;
  bucketFakeIPDomain6 : option Bucket
}.

Definition keyMetadata : string := "fakeip_metadata".

(** An error in [c.batch] undoes the transaction; damaged metadata is such an
    error, or a panic. *)
Definition cache_FakeIPMetadata (c : CacheFile) : option FakeIPMetadata * CacheFile :=
  match bucketFakeIP c with
  | None => (None, c)
  | Some bucket =>
    match Get keyMetadata bucket with
    | None | Some EmptyString => (None, c)
    | Some metadataBinary =>
      match UnmarshalBinary (bytes_of metadataBinary) with
      | Ret metadata =>
        (Some metadata, mkCacheFile (Some (delete keyMetadata bucket)) (bucketFakeIPDomain4 c)
                          (bucketFakeIPDomain6 c))
      | _ => (None, c)
      end
    end
  end.

Definition cache_FakeIPSaveMetadata (metadata : FakeIPMetadata) (c : CacheFile) : CacheFile :=
  default c (
    let bucket := default ∅ (bucketFakeIP c) in
    bucket ← Put keyMetadata (string_of (MarshalBinary metadata)) bucket;
    Some (mkCacheFile (Some bucket) (bucketFakeIPDomain4 c) (bucketFakeIPDomain6 c))).

Definition cache_FakeIPStore (address : Addr) (domain : string) (c : CacheFile) : CacheFile :=
  default c (
    let key := string_of (AsSlice address) in
    let bucket := default ∅ (bucketFakeIP c) in
    let oldDomain := Get key bucket in
    bucket ← Put key domain bucket;
    let names := default ∅ (if Is4 address then bucketFakeIPDomain4 c else bucketFakeIPDomain6 c) in
    let names := match oldDomain with Some oldDomain => delete oldDomain names | None => names end in
    names ← Put domain key names;
    Some (if Is4 address
          then mkCacheFile (Some bucket) (Some names) (bucketFakeIPDomain6 c)
          else mkCacheFile (Some bucket) (bucketFakeIPDomain4 c) (Some names))).

Definition cache_FakeIPLoad (c : CacheFile) (address : Addr) : option string :=
  let domain := match bucketFakeIP c with
                | None => EmptyString
                | Some bucket => default EmptyString (Get (string_of (AsSlice address)) bucket)
                end in
  if decide (domain = EmptyString) then None else Some domain.

(** [DeleteBucket] of a missing bucket is an error, which undoes the others. *)
Definition cache_FakeIPReset (c : CacheFile) : CacheFile :=
  default c (
    _ ← bucketFakeIP c;
    _ ← bucketFakeIPDomain4 c;
    _ ← bucketFakeIPDomain6 c;
    Some (mkCacheFile None None None)).

Section cachefile.
(** [M.AddrFromIP] of github.com/sagernet/sing. *)
Context (AddrFromIP : list Z -> Addr).

Definition cache_FakeIPLoadDomain (c : CacheFile) (domain : string) (isIPv6 : bool) : option Addr :=
  let bucket := if isIPv6 then bucketFakeIPDomain6 c else bucketFakeIPDomain4 c in
  let address := match bucket with
                 | None => AddrNone
                 | Some bucket => AddrFromIP (bytes_of (default EmptyString (Get domain bucket)))
                 end in
  if IsValid address then Some address else None.

Definition cache_storage : FakeIPStorage CacheFile := {|
  LoadMetadata := cache_FakeIPMetadata;
  FakeIPSaveMetadata := cache_FakeIPSaveMetadata;
  FakeIPStore := cache_FakeIPStore;
  FakeIPLoad := cache_FakeIPLoad;
  FakeIPLoadDomain := cache_FakeIPLoadDomain;
  FakeIPReset := cache_FakeIPReset
|}.

End cachefile.

(** ** The transport *)

Definition TypeA : Z := 1.
Definition TypeAAAA : Z := 28.
Definition RcodeSuccess : Z := 0.
Definition DefaultDNSTTL : Z := 600.

Record Question := mkQuestion { q_Name : string; q_Qtype : Z; q_Qclass : Z }.

(** An address record: name, type, time to live, address. *)
Record AddressRecord := mkRecord { rr_Name : string; rr_Rrtype : Z; rr_Ttl : Z; rr_Address : Addr }.

Record Response := mkResponse {
  r_Id : Z;
  r_Rcode : Z;
  r_Question : list Question;
  r_Answer : list AddressRecord
}.

Record Query := mkQuery { m_Id : Z; m_Question : list Question }.

Definition FixedResponseStatus (message : Query) (rcode : Z) : Response :=
  mkResponse (m_Id message) rcode (m_Question message) [].

Definition fixed_answer (question : Question) (timeToLive : Z) (address : Addr) : list AddressRecord :=
  if Is4 address && (q_Qtype question =? TypeA)
  then [mkRecord (q_Name question) TypeA timeToLive address]
  else if Is6 address && (q_Qtype question =? TypeAAAA)
  then [mkRecord (q_Name question) TypeAAAA timeToLive address]
  else [].

Definition FixedResponse (id : Z) (question : Question) (addresses : list Addr) (timeToLive : Z)
    : Response :=
  mkResponse id RcodeSuccess [question] (concat (map (fixed_answer question timeToLive) addresses)).

(** [dns.IsFqdn] of github.com/miekg/dns. *)
Class FqdnLib := { IsFqdn : string -> bool }.

(** All but the last byte of a string. *)
Definition drop_last (s : string) : string :=
  String.string_of_list_ascii (removelast (String.list_ascii_of_string s)).

Section transport.
Context {St : Type} `{HS : FakeIPStorage St} {FL : FqdnLib}.

(** [fqdn[:len(fqdn)-1]] raises on the empty name. *)
Definition FqdnToDomain (fqdn : string) : res string :=
  if IsFqdn fqdn then
    if decide (fqdn = EmptyString) then Panic else Ret (drop_last fqdn)
  else Ret fqdn.

Record Transport := mkTransport {
  store : Store St;
  inet4Enabled : bool;
  inet6Enabled : bool
}.

Definition NewTransport (range4 range6 : Prefix) : res Transport :=
  if negb (prefix_IsValid range4) && negb (prefix_IsValid range6)
  then Err "at least one of inet4_range or inet6_range must be set"
  else Ret (mkTransport (NewStore range4 range6) (prefix_IsValid range4) (prefix_IsValid range6)).

Definition Transport_Start (st : St) (t : Transport) : Transport :=
  mkTransport (Start st (store t)) (inet4Enabled t) (inet6Enabled t).

Definition Exchange (t : Transport) (message : Query) : res (Transport * Response) :=
  question ← go_index (m_Question message) 0;
  let qtype := q_Qtype question in
  if negb (qtype =? TypeA) && negb (qtype =? TypeAAAA)
  then Err "only IP queries are supported by fakeip" else
  if ((qtype =? TypeA) && negb (inet4Enabled t)) || ((qtype =? TypeAAAA) && negb (inet6Enabled t))
  then Ret (t, FixedResponseStatus message RcodeSuccess) else
  domain ← FqdnToDomain (q_Name question);
  r ← Create (store t) domain (qtype =? TypeAAAA);
  Ret (mkTransport (fst r) (inet4Enabled t) (inet6Enabled t),
       FixedResponse (m_Id message) question [snd r] DefaultDNSTTL).

(** ** The way back *)

(** The part of [Router.prepareMatchMetadata] that looks the destination up: the new destination, and the original one of a fake
    address.  [LookupReverseMapping] is the DNS router's. *)
Record Routed := mkRouted {
  rd_Destination : Socksaddr;
  rd_OriginDestination : option Socksaddr;
  rd_Domain : string;
  rd_FakeIP : bool
}.

Definition route_destination (fakeip : option Transport) (LookupReverseMapping : Addr -> option string)
    (destination : Socksaddr) (domain : string) : res Routed :=
  let fake := match fakeip with
              | Some t => if IsValid (s_Addr destination) && Contains (store t) (s_Addr destination)
                          then Some (store t) else None
              | None => None
              end in
  match fake with
  | Some s =>
    loaded ← Lookup s (s_Addr destination);
    match loaded with
    | None => Err "missing fakeip record, try enable `experimental.cache_file`"
    | Some d =>
      if decide (d = EmptyString) then Ret (mkRouted destination None domain false)
      else Ret (mkRouted (mkSocksaddr AddrNone (s_Port destination) d) (Some destination) domain true)
    end
  | None =>
    if decide (domain = EmptyString) then
      match LookupReverseMapping (s_Addr destination) with
      | Some d => Ret (mkRouted destination None d false)
      | None => Ret (mkRouted destination None domain false)
      end
    else Ret (mkRouted destination None domain false)
  end.

End transport.
Arguments Transport : clear implicits.

(** ** The metadata survives *)

Lemma Addr_roundtrip a : wf_addr a -> Addr_UnmarshalBinary (Addr_MarshalBinary a) = Ret a.
Proof.
  destruct a as [|n|n z]; cbn [wf_addr Addr_MarshalBinary]; intros Hw; [done|..];
    unfold Addr_UnmarshalBinary.
  - rewrite zlen_put_be. change (Z.of_nat 4) with 4. cbn [Z.eqb Pos.eqb]. rewrite get_put_be.
    by rewrite Z.mod_small.
  - rewrite zlen_app, zlen_put_be. change (Z.of_nat 16) with 16. pose proof (zlen_nonneg (bytes_of z)).
    rewrite (proj2 (Z.eqb_neq _ 0)), (proj2 (Z.eqb_neq _ 4)) by lia.
    assert (Hn : get_be (put_be 16 n) = n) by (rewrite get_put_be; by rewrite Z.mod_small).
    destruct (Z.eqb_spec (16 + zlen (bytes_of z)) 16) as [E|E].
    + assert (z = EmptyString) as ->.
      { unfold zlen in E. rewrite length_bytes_of in E. destruct z; [done|cbn in E; lia]. }
      cbn [bytes_of String.list_ascii_of_string map]. by rewrite app_nil_r, Hn.
    + rewrite (proj2 (Z.ltb_lt 16 _)) by lia.
      rewrite take_app_length', drop_app_length' by by rewrite length_put_be.
      by rewrite Hn, string_of_bytes_of.
Qed.

Lemma go_index_last {A} (l : list A) x : go_index (l ++ [x]) (zlen l) = Ret x.
Proof.
  unfold go_index. pose proof (zlen_nonneg l). rewrite (proj2 (Z.leb_le 0 _)) by lia.
  unfold zlen. by rewrite Nat2Z.id, list_lookup_middle.
Qed.

(** A range as the settings give it. *)
Definition prefix_set (p : Prefix) : Prop := p = NoPrefix \/ wf_prefix p.

Lemma Prefix_roundtrip p : prefix_set p -> Prefix_UnmarshalBinary (Prefix_MarshalBinary p) = Ret p.
Proof.
  intros [->|(Hw & Hz & Hl & Hb)]; [done|]. destruct p as [a bits]. cbn [p_addr p_bits] in *.
  assert (Ea : withoutZone a = a).
  { destruct a; [done|done|]. cbn in Hz. by apply negb_false_iff, bool_decide_eq_true_1 in Hz as ->. }
  unfold Prefix_UnmarshalBinary, Prefix_MarshalBinary. cbn [p_addr p_bits]. rewrite Ea.
  set (bs := Addr_MarshalBinary a). pose proof (zlen_nonneg bs).
  rewrite zlen_app, zlen_cons, zlen_nil. rewrite (proj2 (Z.ltb_ge _ 1)) by lia.
  replace (zlen bs + (1 + 0) - 1) with (zlen bs) by lia. rewrite go_slice_app. cbn [mbind res_bind].
  subst bs. rewrite Addr_roundtrip by done. cbn [mbind res_bind].
  rewrite go_index_last. cbn [mbind res_bind]. unfold PrefixFrom. rewrite Ea, u8_id.
  - assert (IsValid a = true) as -> by (by destruct a).
    by rewrite !(proj2 (Z.leb_le _ _)) by lia.
  - unfold is_u8. destruct a; cbn in *; lia.
Qed.

Lemma element_roundtrip {A} (unmarshal : list Z -> res A) data x rest :
  zlen data < 2 ^ 16 -> unmarshal data = Ret x ->
  get_element unmarshal (put_element data ++ rest) = Ret (x, rest).
Proof.
  intros Hn Hx. unfold get_element, put_element. pose proof (zlen_nonneg data).
  pose proof (zlen_nonneg rest). rewrite <-app_assoc, u16_id by (unfold is_u16; lia).
  rewrite zlen_app, zlen_put_be, (proj2 (Z.ltb_ge _ 2)) by (rewrite zlen_app; lia).
  rewrite go_be_app by (change (256 ^ Z.of_nat 2) with (2 ^ 16); lia). cbn [mbind res_bind].
  rewrite go_from_app by by rewrite zlen_put_be. cbn [mbind res_bind].
  rewrite zlen_app, (proj2 (Z.ltb_ge _ _)) by lia. rewrite go_slice_app. cbn [mbind res_bind].
  rewrite Hx. cbn [mbind res_bind]. by rewrite go_from_app.
Qed.

Lemma zlen_Prefix_MarshalBinary p : prefix_set p -> zlen (Prefix_MarshalBinary p) < 2 ^ 16.
Proof.
  intros _. unfold Prefix_MarshalBinary. rewrite zlen_app, zlen_cons, zlen_nil.
  destruct (p_addr p); cbn [withoutZone Addr_MarshalBinary]; rewrite ?app_nil_r, ?zlen_put_be; done.
Qed.

Lemma zlen_Addr_MarshalBinary a : hasZone a = false -> zlen (Addr_MarshalBinary a) < 2 ^ 16.
Proof.
  destruct a; cbn [Addr_MarshalBinary hasZone]; [done|by rewrite zlen_put_be|].
  intros ->%negb_false_iff%bool_decide_eq_true_1. rewrite app_nil_r. by rewrite zlen_put_be.
Qed.

(** The metadata survives.  The ranges and the current addresses that a
    store saves are read back as they were: addresses without a zone, ranges
    absent or proper. *)
Theorem metadata_roundtrip m :
  prefix_set (Inet4Range m) -> prefix_set (Inet6Range m) ->
  wf_addr (Inet4Current m) -> wf_addr (Inet6Current m) ->
  hasZone (Inet4Current m) = false -> hasZone (Inet6Current m) = false ->
  UnmarshalBinary (MarshalBinary m) = Ret m.
Proof.
  intros H1 H2 H3 H4 Z3 Z4. unfold UnmarshalBinary, MarshalBinary.
  rewrite (element_roundtrip _ _ (Inet4Range m)) by auto using zlen_Prefix_MarshalBinary, Prefix_roundtrip.
  cbn [mbind res_bind fst snd].
  rewrite (element_roundtrip _ _ (Inet6Range m)) by auto using zlen_Prefix_MarshalBinary, Prefix_roundtrip.
  cbn [mbind res_bind fst snd].
  rewrite (element_roundtrip _ _ (Inet4Current m)) by auto using zlen_Addr_MarshalBinary, Addr_roundtrip.
  cbn [mbind res_bind fst snd]. rewrite <-(app_nil_r (put_element (Addr_MarshalBinary (Inet6Current m)))).
  rewrite (element_roundtrip _ _ (Inet6Current m)) by auto using zlen_Addr_MarshalBinary, Addr_roundtrip.
  by destruct m.
Qed.

Lemma put_element_bytes data : is_bytes data -> is_bytes (put_element data).
Proof. intros Hd. apply Forall_app. split; [apply put_be_bytes|done]. Qed.

Lemma MarshalBinary_bytes m : is_bytes (MarshalBinary m).
Proof.
  assert (Ha : forall a, is_bytes (Addr_MarshalBinary a)).
  { intros [|n|n z]; [constructor|apply put_be_bytes|]. apply Forall_app.
    split; [apply put_be_bytes|apply bytes_of_bytes]. }
  assert (Hp : forall p, is_bytes (Prefix_MarshalBinary p)).
  { intros p. apply Forall_app. split; [apply Ha|]. apply Forall_singleton, u8_range. }
  unfold MarshalBinary, is_bytes. rewrite !(Forall_app _ (put_element _)).
  split_and!; apply put_element_bytes; auto.
Qed.

(** ** The cache file keeps the laws of a storage *)

Lemma storable_slice a : storable a -> 0 < zlen (AsSlice a) <= 16.
Proof. intros (Hv & _). destruct a; [done|..]; cbn [AsSlice]; rewrite zlen_put_be; lia. Qed.

Lemma AsSlice_bytes a : is_bytes (AsSlice a).
Proof. destruct a; [constructor|apply put_be_bytes..]. Qed.

Lemma AsSlice_inj a b : storable a -> storable b -> AsSlice a = AsSlice b -> a = b.
Proof.
  intros (Va & Wa & Za & _) (Vb & Wb & Zb & _) E.
  assert (EL : zlen (AsSlice a) = zlen (AsSlice b)) by (by rewrite E). apply (f_equal get_be) in E.
  destruct a as [|n|n z], b as [|m|m w]; cbn [AsSlice] in *; rewrite ?zlen_put_be in EL; try done;
    rewrite !get_put_be, !Z.mod_small in E by done; [by subst|].
  apply negb_false_iff, bool_decide_eq_true_1 in Za, Zb. by subst.
Qed.

Lemma bytes_string_of_slice a : bytes_of (string_of (AsSlice a)) = AsSlice a.
Proof. apply bytes_of_string_of, AsSlice_bytes. Qed.

Lemma slice_key a b :
  storable a -> storable b -> string_of (AsSlice a) = string_of (AsSlice b) -> a = b.
Proof.
  intros Ha Hb E%(f_equal bytes_of). rewrite !bytes_string_of_slice in E. by apply AsSlice_inj.
Qed.

Lemma slice_not_metadata a : string_of (AsSlice a) <> keyMetadata.
Proof.
  intros E%(f_equal bytes_of). rewrite bytes_string_of_slice in E. apply (f_equal zlen) in E.
  destruct a; cbn [AsSlice] in E; rewrite ?zlen_put_be in E; done.
Qed.

Lemma storable_key a : storable a -> storable_name (string_of (AsSlice a)).
Proof. intros Ha%storable_slice. unfold storable_name. rewrite bytes_string_of_slice. lia. Qed.

Lemma name_not_empty d : storable_name d -> d <> EmptyString.
Proof. by intros [H _] ->. Qed.

Lemma Get_name d b : storable_name d -> Get d b = b !! d.
Proof. intros Hd%name_not_empty. unfold Get. by rewrite decide_False. Qed.

Lemma Put_name d v b : storable_name d -> Put d v b = Some (<[d := v]> b).
Proof.
  intros Hd. unfold Put. by rewrite (proj2 (Z.eqb_neq _ 0)), (proj2 (Z.ltb_ge 32768 _)) by (unfold storable_name in Hd; lia).
Qed.

Lemma Put_refused d v b : ~ storable_name d -> Put d v b = None.
Proof.
  intros Hd. unfold Put, storable_name in *. pose proof (zlen_nonneg (bytes_of d)).
  destruct (Z.eqb_spec (zlen (bytes_of d)) 0), (Z.ltb_spec 32768 (zlen (bytes_of d))); try done. lia.
Qed.

Lemma Get_insert_ne k k' v b : k' <> k -> Get k' (<[k := v]> b) = Get k' b.
Proof. intros Hne. unfold Get. case_decide; [done|]. by rewrite lookup_insert_ne. Qed.

Lemma Get_delete k k' b : Get k' (delete k b) = if decide (k' = k) then None else Get k' b.
Proof.
  unfold Get. destruct (decide (k' = k)) as [->|]; case_decide; try done;
    by rewrite ?lookup_delete_eq, ?lookup_delete_ne.
Qed.

Section cachefile_laws.
Context (AddrFromIP : list Z -> Addr).

(** The bytes of an address give it back, and no bytes give none. *)
Context (AddrFromIP_slice : forall a, storable a -> AddrFromIP (AsSlice a) = a).
Context (AddrFromIP_none : IsValid (AddrFromIP []) = false).

#[local] Instance cache_here : FakeIPStorage CacheFile := cache_storage AddrFromIP.

Lemma cache_Load_get (c : CacheFile) a :
  cache_FakeIPLoad c a =
  match Get (string_of (AsSlice a)) (default ∅ (bucketFakeIP c)) with
  | Some d => if decide (d = EmptyString) then None else Some d
  | None => None
  end.
Proof. unfold cache_FakeIPLoad, Get. destruct (bucketFakeIP c); cbn; repeat case_match; done. Qed.

Lemma cache_LoadDomain_get (c : CacheFile) d v6 :
  cache_FakeIPLoadDomain AddrFromIP c d v6 =
  let address := AddrFromIP (bytes_of (default EmptyString (Get d (default ∅
    (if v6 then bucketFakeIPDomain6 c else bucketFakeIPDomain4 c))))) in
  if IsValid address then Some address else None.
Proof.
  unfold cache_FakeIPLoadDomain.
  destruct (if v6 then bucketFakeIPDomain6 c else bucketFakeIPDomain4 c); [done|].
  cbv zeta. cbn [from_option id]. assert (Get d ∅ = None) as -> by (unfold Get; case_decide; done).
  cbn [from_option id bytes_of String.list_ascii_of_string map]. by rewrite AddrFromIP_none.
Qed.

(** The buckets after a store that does not fail. *)
Lemma cache_Store_buckets c a d : storable a -> storable_name d ->
  let key := string_of (AsSlice a) in
  let c' := cache_FakeIPStore a d c in
  let names (c : CacheFile) (v6 : bool) :=
    default ∅ (if v6 then bucketFakeIPDomain6 c else bucketFakeIPDomain4 c) in
  default ∅ (bucketFakeIP c') = <[key := d]> (default ∅ (bucketFakeIP c)) /\
  (forall v6, v6 = Is4 a -> names c' v6 = names c v6) /\
  (forall v6, v6 <> Is4 a -> names c' v6 = <[d := key]>
     (match Get key (default ∅ (bucketFakeIP c)) with Some o => delete o (names c v6) | None => names c v6 end)).
Proof.
  intros Ha Hd. cbv zeta. unfold cache_FakeIPStore. rewrite (Put_name (string_of (AsSlice a))) by (by apply storable_key).
  cbn [mbind option_bind]. rewrite Put_name by done. cbn [mbind option_bind default].
  destruct (Is4 a); cbn; (split; [done|]); split; by intros [].
Qed.

Lemma cache_stored c a d : storable a -> storable_name d -> stored a d c (cache_FakeIPStore a d c).
Proof.
  intros Ha Hd. destruct (cache_Store_buckets c a d Ha Hd) as (Eb & Esame & Enew).
  pose proof (storable_key a Ha) as Hk.
  split; cbn [FakeIPLoad FakeIPLoadDomain cache_here cache_storage].
  - intros a' Ha'. rewrite !cache_Load_get, Eb. destruct (decide (a' = a)) as [->|Hne].
    + rewrite Get_name, lookup_insert_eq by done. by rewrite decide_False by (by apply name_not_empty).
    + rewrite Get_insert_ne; [done|]. intros E. by apply Hne, slice_key.
  - intros d' v6. rewrite !cache_LoadDomain_get. cbv zeta.
    destruct (decide (v6 = Is4 a)) as [E|E]; [by rewrite Esame|]. rewrite Enew by done.
    destruct (decide (d' = d)) as [->|Hne].
    { rewrite Get_name, lookup_insert_eq by done. cbn [from_option id]. rewrite bytes_string_of_slice.
      rewrite AddrFromIP_slice by done. by rewrite (proj1 Ha). }
    rewrite Get_insert_ne by done. rewrite cache_Load_get.
    destruct (Get (string_of (AsSlice a)) _) as [o|]; [|by rewrite decide_False].
    rewrite Get_delete. destruct (decide (d' = o)) as [->|Ho].
    + cbn [from_option id bytes_of String.list_ascii_of_string map]. rewrite AddrFromIP_none.
      destruct (decide (o = EmptyString)) as [->|]; [|by rewrite decide_True].
      rewrite decide_False by done. unfold Get. rewrite decide_True by done. cbn. by rewrite AddrFromIP_none.
    + destruct (decide (o = EmptyString)); rewrite decide_False by congruence; done.
Qed.

#[local] Instance cache_laws : StorageLaws CacheFile.
Proof.
  split; cbn [LoadMetadata FakeIPSaveMetadata FakeIPStore FakeIPReset cache_here cache_storage].
  - intros a d c Ha. destruct (decide (0 < zlen (bytes_of d) <= 32768)) as [Hd|Hd];
      [left; by apply cache_stored|right]. unfold cache_FakeIPStore.
    rewrite (Put_name (string_of (AsSlice a))) by (by apply storable_key). cbn [mbind option_bind]. by rewrite Put_refused.
  - intros c. unfold cache_FakeIPReset.
    destruct (bucketFakeIP c), (bucketFakeIPDomain4 c), (bucketFakeIPDomain6 c); try (by right).
    left. by split; [|intros d []].
  - intros m c. unfold cache_FakeIPSaveMetadata. rewrite Put_name by done. split; cbn; [|done].
    intros a. rewrite !cache_Load_get. cbn. by rewrite Get_insert_ne by apply slice_not_metadata.
  - intros c. unfold cache_FakeIPMetadata. destruct (bucketFakeIP c) as [b|] eqn:Eb; [|done].
    repeat case_match; try done. split; cbn; [|done]. intros a'. rewrite !cache_Load_get, Eb. cbn.
    by rewrite Get_delete, decide_False by apply slice_not_metadata.
Qed.

#[local] Instance cache_writes : StorageWrites CacheFile.
Proof. split. intros a d c. apply cache_stored. Qed.

(** The metadata a store saves is loaded. *)
Lemma cache_metadata_kept m c :
  prefix_set (Inet4Range m) -> prefix_set (Inet6Range m) ->
  wf_addr (Inet4Current m) -> wf_addr (Inet6Current m) ->
  hasZone (Inet4Current m) = false -> hasZone (Inet6Current m) = false ->
  fst (cache_FakeIPMetadata (cache_FakeIPSaveMetadata m c)) = Some m.
Proof.
  intros H1 H2 H3 H4 Z3 Z4. pose proof (metadata_roundtrip m H1 H2 H3 H4 Z3 Z4) as E.
  unfold cache_FakeIPSaveMetadata. rewrite Put_name by done. unfold cache_FakeIPMetadata.
  cbn [mbind option_bind from_option id bucketFakeIP]. rewrite Get_name, lookup_insert_eq by done.
  pose proof (MarshalBinary_bytes m) as Hb. pose proof (bytes_of_string_of _ Hb) as Eb.
  destruct (string_of (MarshalBinary m)) eqn:Es.
  - by rewrite <-Eb in E.
  - by rewrite Eb, E.
Qed.

End cachefile_laws.

(** ** A query and the way back *)

Section server.
Context {St : Type} `{HS : FakeIPStorage St} {SL : StorageLaws St} {FL : FqdnLib}.

Lemma handed_family (s : Store St) a : handed s a -> Is6 a = negb (Is4 a).
Proof.
  intros (v6 & _ & [(_ & _ & Hl & _) _] & _ & (El & _)). destruct a; [cbn in El; lia|done|done].
Qed.

(** A query and the way back.  On a server that runs, a query for an
    enabled family is answered with one address record of the asked type; a
    connection to its address is routed to the name of the query, on the same
    port, and marked as fake. *)
Theorem Exchange_roundtrip {SW : StorageWrites St} st r4 r6 (s : Store St) message q rest domain reverse port name :
  range_ok false r4 -> range_ok true r6 ->
  no_metadata st r4 r6 -> clears st ->
  rtc store_step (Start st (NewStore r4 r6)) s ->
  m_Question message = q :: rest ->
  q_Qtype q = TypeA \/ q_Qtype q = TypeAAAA ->
  prefix_IsValid (range_of s (q_Qtype q =? TypeAAAA)) = true ->
  FqdnToDomain (q_Name q) = Ret domain -> storable_name domain ->
  exists t' a,
    Exchange (mkTransport s (prefix_IsValid (inet4Range s)) (prefix_IsValid (inet6Range s))) message =
      Ret (t', mkResponse (m_Id message) RcodeSuccess [q]
                 [mkRecord (q_Name q) (q_Qtype q) DefaultDNSTTL a]) /\
    route_destination (Some t') reverse (mkSocksaddr a port EmptyString) name =
      Ret (mkRouted (mkSocksaddr AddrNone port domain) (Some (mkSocksaddr a port EmptyString)) name true).
Proof.
  intros H4 H6 Hm Hcl Hr Eq Ht Hv Hd Hne.
  pose proof (store_steps_ok _ _ _ Hr (Start_fresh st r4 r6 H4 H6 Hm Hcl)) as Hs.
  destruct (Create_spec s domain _ Hs Hv Hne) as (s' & a & Hc & Hs' & E4 & Ha & Er & Hl & _).
  assert (Ha' : handed s' a) by (destruct Ha as (w & Hw); exists w; by rewrite Er).
  pose proof (handed_family s a Ha) as E6. apply handed_contains in Ha'.
  assert (Hvalid : IsValid a = true) by (by destruct a).
  exists (mkTransport s' (prefix_IsValid (inet4Range s)) (prefix_IsValid (inet6Range s))), a. split.
  - unfold Exchange. rewrite Eq. change (go_index (q :: rest) 0) with (Ret q). cbn [mbind res_bind].
    rewrite Hd. cbn [mbind res_bind inet4Enabled inet6Enabled store]. rewrite Hc.
    unfold FixedResponse, fixed_answer. cbn [map fst snd mbind res_bind]. rewrite E6, E4.
    destruct Ht as [Ht|Ht]; rewrite Ht in Hv |- *; cbn in Hv |- *; rewrite Hv; reflexivity.
  - unfold route_destination. cbn [store fst snd s_Addr s_Port]. rewrite Hvalid, Ha'. cbn [andb].
    rewrite Hl. cbn [mbind res_bind]. by rewrite decide_False by (by apply name_not_empty).
Qed.

(** A range without room escapes.  With an IPv4 range of one or two
    addresses the first address handed out is outside it, so connections to
    it are not recognised as fake. *)
Theorem small_range_escapes st r4 r6 d :
  wf_prefix r4 -> Is4 (p_addr r4) = true -> 31 <= p_bits r4 -> addr_num (p_addr r4) + 2 < 2 ^ 32 ->
  prefix_IsValid r6 = false \/ (wf_prefix r6 /\ Is4 (p_addr r6) = false) ->
  no_metadata st r4 r6 -> clears st ->
  exists s' a, Create (Start st (NewStore r4 r6)) d false = Ret (s', a) /\ Contains s' a = false.
Proof.
  intros Hw H4 Hb Hn H6 Hm [_ Hcl]. rewrite Start_reset by done. pose proof Hw as (Hwa & Hz & Hl & Hbits).
  assert (El : BitLen (p_addr r4) = 32) by (by destruct (p_addr r4)). rewrite El in Hbits.
  destruct (Next_num (p_addr r4)) as (N1 & N2 & N3); [rewrite El; lia|done|lia|].
  destruct (Next_num (Next (p_addr r4))) as (M1 & M2 & M3); [rewrite N2, El, N1; lia|done|lia|].
  assert (Hv : prefix_IsValid r4 = true) by (apply Z.leb_le; lia). rewrite Hv.
  set (s := mkStore _ _ _ _ _ _ _).
  assert (Ha : next_address (inet4Range s) (inet4Last s) (inet4Current s) = Next (Next (p_addr r4))).
  { unfold next_address. by destruct (_ || _). }
  destruct (create_locked_new s (FakeIPReset (snd (LoadMetadata st))) d false) as (s' & a & Hc & [Ea Er _ _ _]).
  { apply Hcl. }
  { cbn. destruct (Next (p_addr r4)); [cbn in N2; lia|done|done]. }
  exists s', a. split; [by rewrite (Create_locked s (FakeIPReset (snd (LoadMetadata st))))|].
  unfold range_of, last_of, current_of in Ea. rewrite Ha in Ea. subst a.
  assert (E4 : prefix_Contains r4 (Next (Next (p_addr r4))) = false).
  { apply not_true_iff_false. rewrite prefix_Contains_interval by done. intros (_ & _ & Hi).
    rewrite M1, N1 in Hi. unfold last_num, first_num, host_bits in Hi. rewrite El in Hi.
    assert (Hk : 0 < 2 ^ (32 - p_bits r4) <= 2).
    { assert (p_bits r4 = 31 \/ p_bits r4 = 32) as [-> | ->] by lia; done. }
    pose proof (Z.mod_pos_bound (addr_num (p_addr r4)) (2 ^ (32 - p_bits r4)) ltac:(lia)). lia. }
  assert (E6 : prefix_Contains r6 (Next (Next (p_addr r4))) = false).
  { apply not_true_iff_false. destruct H6 as [H6|[Hw6 H6]].
    - unfold prefix_Contains. by rewrite H6.
    - rewrite prefix_Contains_interval by done. intros (_ & F & _). rewrite M2, N2, El in F.
      destruct Hw6 as (_ & _ & Hl6 & _). destruct (p_addr r6); done. }
  unfold Contains. pose proof (Er false) as R4. pose proof (Er true) as R6. cbn in R4, R6.
  by rewrite R4, R6, E4, E6.
Qed.

(** A restart goes on.  With a storage that keeps the metadata of a store,
    the store closed and started again with the same ranges has the same names
    and goes on with the same addresses, and is consistent. *)
Theorem restart_keeps st r4 r6 (s : Store St) st' :
  range_ok false r4 -> range_ok true r6 -> metadata_ok st r4 r6 -> agrees st ->
  rtc store_step (Start st (NewStore r4 r6)) s ->
  (forall st, fst (LoadMetadata (FakeIPSaveMetadata (metadata_of s) st)) = Some (metadata_of s)) ->
  storage (Close s) = Some st' ->
  let s' := Start st' (NewStore (inet4Range s) (inet6Range s)) in
  store_ok (FakeIPLoad st) s' /\ (forall a, Lookup s' a = Lookup s a) /\
  (forall v6, range_of s' v6 = range_of s v6 /\ current_of s' v6 = current_of s v6).
Proof.
  intros H4 H6 Hm Hag Hr Hp Hc.
  pose proof (store_steps_ok _ _ _ Hr (Start_ok st r4 r6 H4 H6 Hm Hag)) as [Hf (st0 & Es & Hmap)].
  unfold Close in Hc. rewrite Es in Hc. injection Hc as <-. cbv zeta.
  set (st1 := FakeIPSaveMetadata (metadata_of s) st0) in *.
  rewrite (Start_go_on st1 _ _ (metadata_of s)) by (done || apply Hp). set (s' := mkStore _ _ _ _ _ _ _).
  assert (Hrange : forall v6, range_of s' v6 = range_of s v6) by (by intros []).
  assert (Hcur : forall v6, current_of s' v6 = current_of s v6) by (by intros []).
  assert (Hsame : same_reads st0 (snd (LoadMetadata st1))).
  { destruct (metadata_reads st1) as [L1 D1], (save_reads (metadata_of s) st0) as [L2 D2].
    split; intros; [rewrite L1; apply L2|rewrite D1; apply D2]. }
  split; [split|split].
  - intros v6. unfold family_ok. rewrite Hrange, Hcur. specialize (Hf v6). unfold family_ok in Hf.
    destruct (prefix_IsValid (range_of s v6)) eqn:Ev; [|done].
    destruct Hf as (? & ? & _ & ?). split; [done|]. split; [done|]. split; [|done].
    destruct v6; cbn in Ev |- *; by rewrite Ev.
  - eexists. split; [done|]. by apply (mapping_same _ s s' st0).
  - intros a. rewrite (Lookup_storage s' (snd (LoadMetadata st1))), (Lookup_storage s st0) by done.
    f_equal. apply Hsame.
  - done.
Qed.

End server.

(** ** Witnesses *)

(** A name that ends in a dot. *)
Definition plain_fqdn : FqdnLib := {|
  IsFqdn s := match reverse (String.list_ascii_of_string s) with "."%char :: _ => true | _ => false end
|}.

(** The address of four or sixteen bytes. *)
Definition slice_addr (ip : list Z) : Addr :=
  if zlen ip =? 4 then Addr4 (get_be ip)
  else if zlen ip =? 16 then Addr6 (get_be ip) EmptyString else AddrNone.

Lemma slice_addr_slice a : storable a -> slice_addr (AsSlice a) = a.
Proof.
  intros (Hv & Hw & Hz & _). unfold slice_addr. destruct a as [|n|n z]; [done|..]; cbn [AsSlice];
    rewrite zlen_put_be, get_put_be, Z.mod_small by done; [done|].
  by apply negb_false_iff, bool_decide_eq_true_1 in Hz as ->.
Qed.

Definition no_cache : CacheFile := mkCacheFile None None None.

#[local] Instance demo_cache : FakeIPStorage CacheFile := cache_storage slice_addr.

#[local] Instance demo_cache_laws : StorageLaws CacheFile :=
  cache_laws slice_addr slice_addr_slice eq_refl.

#[local] Instance demo_cache_writes : StorageWrites CacheFile :=
  cache_writes slice_addr slice_addr_slice eq_refl.

Lemma metadata_roundtrip_witness :
  UnmarshalBinary (MarshalBinary (mkMetadata demo_range NoPrefix (demo_addr 3) AddrNone)) =
  Ret (mkMetadata demo_range NoPrefix (demo_addr 3) AddrNone).
Proof.
  apply metadata_roundtrip; [|by left|vm_compute; split; congruence|done|done|done].
  right. repeat split; vm_compute; congruence.
Defined.

Definition demo_query : Query := mkQuery 7 [mkQuestion "b.example." TypeA 1].

Lemma Exchange_roundtrip_witness :
  exists t' a,
    Exchange (FL := plain_fqdn) (mkTransport demo_one true false) demo_query =
      Ret (t', mkResponse 7 RcodeSuccess [mkQuestion "b.example." TypeA 1]
                 [mkRecord "b.example." TypeA DefaultDNSTTL a]) /\
    route_destination (Some t') (fun _ => None) (mkSocksaddr a 443 EmptyString) EmptyString =
      Ret (mkRouted (mkSocksaddr AddrNone 443 "b.example") (Some (mkSocksaddr a 443 EmptyString))
             EmptyString true).
Proof.
  exact (Exchange_roundtrip (FL := plain_fqdn) NewMemoryStorage demo_range NoPrefix demo_one demo_query
    (mkQuestion "b.example." TypeA 1) [] "b.example" (fun _ => None) 443 EmptyString
    demo_range_ok demo_none_ok (demo_no_metadata _ _) demo_clears demo_run eq_refl
    (or_introl eq_refl) eq_refl eq_refl demo_name).
Defined.

Lemma small_range_escapes_witness :
  exists s' a, Create (Start NewMemoryStorage (NewStore (mkPrefix (demo_addr 0) 31) NoPrefix))
      "a.example" false = Ret (s', a) /\ Contains s' a = false.
Proof.
  apply small_range_escapes; [|done|done|done|by left|done|apply demo_clears].
  repeat split; vm_compute; congruence.
Defined.

(** A store over a cache file, closed and started again. *)
Definition cache_start : Store CacheFile := Start no_cache (NewStore demo_range NoPrefix).

Definition cache_created : Store CacheFile :=
  match Create cache_start "a.example" false with Ret (s, _) => s | _ => cache_start end.

Definition cache_closed : CacheFile := default no_cache (storage (Close cache_created)).

Lemma no_cache_cleared : cleared no_cache.
Proof. by split; [|intros d []]. Qed.

Lemma cache_run : rtc store_step cache_start cache_created.
Proof. apply rtc_once, (step_create _ "a.example" false _ (demo_addr 2)). vm_compute. reflexivity. Qed.

Lemma restart_keeps_witness :
  let s' := Start cache_closed (NewStore demo_range NoPrefix) in
  store_ok (FakeIPLoad no_cache) s' /\ (forall a, Lookup s' a = Lookup cache_created a) /\
  (forall v6, range_of s' v6 = range_of cache_created v6 /\
     current_of s' v6 = current_of cache_created v6).
Proof.
  apply (restart_keeps no_cache demo_range NoPrefix cache_created cache_closed).
  - apply demo_range_ok.
  - apply demo_none_ok.
  - done.
  - apply agrees_cleared, no_cache_cleared.
  - apply cache_run.
  - intros st. apply cache_metadata_kept; try done; [right; repeat split; vm_compute; congruence|by left].
  - vm_compute. reflexivity.
Defined.

(** A reset that fails.  A cache file that only ever had IPv4 addresses has no
    bucket of IPv6 names, so its reset fails: started with another range, the
    store goes on answering with the address of the old one, which it does not
    recognise as fake. *)
Example failed_reset_escapes :
  let other := mkPrefix (Addr4 (10 * 2 ^ 24)) 24 in
  let s := Start cache_closed (NewStore other NoPrefix) in
  cache_FakeIPReset cache_closed = cache_closed /\
  Create s "a.example" false = Ret (s, demo_addr 2) /\ Contains s (demo_addr 2) = false.
Proof. vm_compute. repeat split; reflexivity. Qed.
