(* ===== verification/Outbounds.v ===== *)
(** * Outbound manager (src/adapter/outbound/manager.go)

    The manager keeps the outbounds by tag, who depends on whom and the default
    outbound, and starts outbounds and endpoints in the order of their
    dependencies.  What an outbound does when it is started or closed is
    other code, seen as the error it returns. *)

From S2P Require Import Prelude.

(** [adapter.StartStage]. *)
Inductive StartStage := StartStateInitialize | StartStateStart | StartStatePostStart | StartStateStarted.

Definition stage_num (s : StartStage) : Z :=
  match s with
  | StartStateInitialize => 0
  | StartStateStart => 1
  | StartStatePostStart => 2
  | StartStateStarted => 3
  end.

Definition ListStartStages : list StartStage :=
  [StartStateInitialize; StartStateStart; StartStatePostStart; StartStateStarted].

(** An outbound: its identity, its tag and the tags it depends on. *)
Record Outbound := mkOutbound { o_id : Z; o_Tag : string; o_Dependencies : list string }.

#[export] Instance Outbound_eq_dec : EqDecision Outbound.
Proof. solve_decision. Defined.

(** What the manager calls: starting an outbound at a stage and closing it,
    each with its error, and the endpoints. *)
Class OutboundLib := {
  start_outbound : Outbound -> StartStage -> option string;
  close_outbound : Outbound -> option string;
  endpoint_Get : string -> option Outbound;
  Endpoints : list Outbound
}.

Record Manager := mkManager {
  defaultTag : string;
  started : bool;
  stage : StartStage;
  outbounds : list Outbound;
  outboundByTag : gmap string Outbound;
  dependByTag : gmap string (list string);
  defaultOutbound : option Outbound;
  defaultOutboundFallback : res Outbound
}.

Definition NewManager (tag : string) (fallback : res Outbound) : Manager :=
  mkManager tag false StartStateInitialize [] ∅ ∅ None fallback.

(** ** Starting in order *)

Section starting.
Context {OL : OutboundLib}.

(** One round of the loop: the tags started, the outbounds started in order,
    whether one was, and the error that stopped it. *)
Fixpoint start_round (outs : list Outbound) (done : gset string) (order : list Outbound)
    (canContinue : bool) : gset string * list Outbound * bool * option string :=
  match outs with
  | [] => (done, order, canContinue, None)
  | o :: outs =>
    if decide (o_Tag o ∈ done) then start_round outs done order canContinue
    else if forallb (fun d => bool_decide (d ∈ done)) (o_Dependencies o) then
      let done := {[o_Tag o]} ∪ done in
      let order := order ++ [o] in
      match start_outbound o StartStateStart with
      | Some e => (done, order, true, Some e)
      | None => start_round outs done order true
      end
    else start_round outs done order canContinue
  end.

(** [common.Find] of a dependency that is not started; the empty tag when
    there is none. *)
Definition find_unstarted (done : gset string) (deps : list string) : string :=
  match List.find (fun d => negb (bool_decide (d ∈ done))) deps with
  | Some d => d
  | None => EmptyString
  end.

(** The chain of outbounds that wait for each other. *)
Fixpoint lintOutbound (fuel : nat) (byTag : gmap string Outbound) (done : gset string)
    (oTree : list string) (oCurrent : Outbound) : res unit :=
  match fuel with
  | O => Panic
  | S fuel =>
    let problemOutboundTag := find_unstarted done (o_Dependencies oCurrent) in
    if decide (problemOutboundTag ∈ oTree) then Err "circular outbound dependency" else
    match byTag !! problemOutboundTag with
    | None => Err "dependency not found for outbound"
    | Some problemOutbound =>
      lintOutbound fuel byTag done (oTree ++ [problemOutboundTag]) problemOutbound
    end
  end.

(** The outer loop: the outbounds started in order and the result.  The
    first outbound that is not started is nil when all tags are, and using
    it raises. *)
Fixpoint start_rounds (fuel : nat) (byTag : gmap string Outbound) (outs : list Outbound)
    (done : gset string) (order : list Outbound) : list Outbound * res unit :=
  match fuel with
  | O => (order, Panic)
  | S fuel =>
    let '(done, order, canContinue, err) := start_round outs done order false in
    match err with
    | Some e => (order, Err e)
    | None =>
      if (size done =? length outs)%nat then (order, Ret tt)
      else if canContinue : bool then start_rounds fuel byTag outs done order
      else
        match List.find (fun o => negb (bool_decide (o_Tag o ∈ done))) outs with
        | None => (order, Panic)
        | Some currentOutbound =>
          (order, lintOutbound (S (size byTag)) byTag done [o_Tag currentOutbound] currentOutbound)
        end
    end
  end.

Definition startOutbounds (byTag : gmap string Outbound) (outs : list Outbound)
    : list Outbound * res unit :=
  start_rounds (S (length outs)) byTag outs ∅ [].

(** Starting one stage after another. *)
Fixpoint start_stages (o : Outbound) (stages : list StartStage) : option string :=
  match stages with
  | [] => None
  | s :: stages => match start_outbound o s with Some e => Some e | None => start_stages o stages end
  end.

Fixpoint start_all (s : StartStage) (outs : list Outbound) : option string :=
  match outs with
  | [] => None
  | o :: outs => match start_outbound o s with Some e => Some e | None => start_all s outs end
  end.

Definition with_outbounds (m : Manager) (outs : list Outbound) (byTag : gmap string Outbound)
    (dependBy : gmap string (list string)) (def : option Outbound) : Manager :=
  mkManager (defaultTag m) (started m) (stage m) outs byTag dependBy def (defaultOutboundFallback m).

Definition result_of (err : option string) : res unit :=
  match err with None => Ret tt | Some e => Err e end.

(** [Start] at [StartStateStart], after the stage is set: the default
    outbound, then every outbound and endpoint. *)
Definition start_state (m : Manager) : Manager * res unit :=
  let '(m, err) :=
    if negb (bool_decide (defaultTag m = EmptyString)) && bool_decide (defaultOutbound m = None) then
      match endpoint_Get (defaultTag m) with
      | None => (m, Err "default outbound not found")
      | Some e => (with_outbounds m (outbounds m) (outboundByTag m) (dependByTag m) (Some e), Ret tt)
      end
    else (m, Ret tt) in
  match err with
  | Ret _ =>
    let '(m, err) :=
      match defaultOutbound m with
      | Some _ => (m, Ret tt)
      | None =>
        match defaultOutboundFallback m with
        | Ret directOutbound =>
          (with_outbounds m (outbounds m ++ [directOutbound])
             (<[o_Tag directOutbound := directOutbound]> (outboundByTag m)) (dependByTag m)
             (Some directOutbound), Ret tt)
        | Err e => (m, Err e)
        | Panic => (m, Panic)
        end
      end in
    match err with
    | Ret _ => (m, snd (startOutbounds (outboundByTag m) (outbounds m ++ Endpoints)))
    | err => (m, err)
    end
  | err => (m, err)
  end.

Definition Start (s : StartStage) (m : Manager) : Manager * res unit :=
  if started m && (stage_num s <=? stage_num (stage m)) then (m, Panic) else
  let m := mkManager (defaultTag m) true s (outbounds m) (outboundByTag m) (dependByTag m)
             (defaultOutbound m) (defaultOutboundFallback m) in
  match s with
  | StartStateStart => start_state m
  | _ => (m, result_of (start_all s (outbounds m)))
  end.

(** ** Closing, removing and creating *)

(** The errors of the outbounds are collected and dropped. *)
Definition Close (m : Manager) : Manager * res unit :=
  if negb (started m) then (m, Ret tt) else
  (mkManager (defaultTag m) false (stage m) [] (outboundByTag m) (dependByTag m)
     (defaultOutbound m) (defaultOutboundFallback m), Ret tt).

Definition Outbound_Get (m : Manager) (tag : string) : option Outbound :=
  match outboundByTag m !! tag with Some o => Some o | None => endpoint_Get tag end.

(** The list without the outbound; [None] when it is not in it. *)
Fixpoint remove_outbound (o : Outbound) (outs : list Outbound) : option (list Outbound) :=
  match outs with
  | [] => None
  | x :: outs =>
    if decide (x = o) then Some outs
    else match remove_outbound o outs with Some l => Some (x :: l) | None => None end
  end.

Definition depend_by (m : gmap string (list string)) (tag : string) : list string :=
  match m !! tag with Some l => l | None => [] end.

(** A tag no longer depends on [dependency]. *)
Definition remove_depend (tag : string) (m : gmap string (list string)) (dependency : string)
    : gmap string (list string) :=
  if (length (depend_by m dependency) =? 1)%nat then delete dependency m
  else <[dependency := base.filter (fun it => it <> tag) (depend_by m dependency)]> m.

Definition add_depend (tag : string) (m : gmap string (list string)) (dependency : string)
    : gmap string (list string) :=
  <[dependency := depend_by m dependency ++ [tag]]> m.

Definition Remove (tag : string) (m : Manager) : Manager * res unit :=
  match outboundByTag m !! tag with
  | None => (m, Err "invalid argument")
  | Some outbound =>
    let byTag := delete tag (outboundByTag m) in
    match remove_outbound outbound (outbounds m) with
    | None =>
      (with_outbounds m (outbounds m) byTag (dependByTag m) (defaultOutbound m), Panic)
    | Some outs =>
      let def := if decide (defaultOutbound m = Some outbound)
                 then match outs with o :: _ => Some o | [] => None end
                 else defaultOutbound m in
      match depend_by (dependByTag m) tag with
      | _ :: _ => (with_outbounds m outs byTag (dependByTag m) def, Err "outbound is depended by")
      | [] =>
        let dependBy := fold_left (remove_depend tag) (o_Dependencies outbound) (dependByTag m) in
        (with_outbounds m outs byTag dependBy def,
         if started m then result_of (close_outbound outbound) else Ret tt)
      end
    end
  end.

(** [Create] with the outbound that the registry made. *)
Definition Create (tag : string) (created : res Outbound) (m : Manager) : Manager * res unit :=
  if decide (tag = EmptyString) then (m, Err "invalid argument") else
  match created with
  | Err e => (m, Err e)
  | Panic => (m, Panic)
  | Ret outbound =>
    match (if started m then start_stages outbound ListStartStages else None) with
    | Some e => (m, Err e)
    | None =>
      let cleared :=
        match outboundByTag m !! tag with
        | None => Ret (outbounds m)
        | Some existsOutbound =>
          match (if started m then close_outbound existsOutbound else None) with
          | Some e => Err e
          | None => match remove_outbound existsOutbound (outbounds m) with
                    | None => Panic
                    | Some outs => Ret outs
                    end
          end
        end in
      match cleared with
      | Err e => (m, Err e)
      | Panic => (m, Panic)
      | Ret outs =>
        let dependBy := fold_left (add_depend tag) (o_Dependencies outbound) (dependByTag m) in
        let def := if bool_decide (tag = defaultTag m) ||
                      (bool_decide (defaultTag m = EmptyString) && bool_decide (defaultOutbound m = None))
                   then Some outbound else defaultOutbound m in
        (with_outbounds m (outs ++ [outbound]) (<[tag := outbound]> (outboundByTag m)) dependBy def,
         Ret tt)
      end
    end
  end.

End starting.

(** ** The order of starting *)

Definition tags (l : list Outbound) : list string := map o_Tag l.

(** Every outbound is started once and after the ones it depends on. *)
Inductive ordered : list Outbound -> Prop :=
| ordered_nil : ordered []
| ordered_snoc l o :
    ordered l -> o_Tag o ∉ tags l -> (forall d, d ∈ o_Dependencies o -> d ∈ tags l) ->
    ordered (l ++ [o]).

Lemma tags_app l k : tags (l ++ k) = tags l ++ tags k.
Proof. apply map_app. Qed.

Lemma ordered_NoDup l : ordered l -> NoDup (tags l).
Proof.
  induction 1 as [|l o _ IH Ho _]; [constructor|]. rewrite tags_app. apply NoDup_app.
  split; [done|]. split; [|apply NoDup_singleton].
  intros x Hx. cbn. rewrite list_elem_of_singleton. by intros ->.
Qed.

Lemma elem_of_tags o l : o ∈ l -> o_Tag o ∈ tags l.
Proof. apply list_elem_of_fmap_2. Qed.

(** As many started outbounds as there are outbounds are all of them. *)
Lemma all_started l outs :
  NoDup (tags l) -> l ⊆ outs -> length l = length outs -> l ≡ₚ outs.
Proof.
  intros Hn Hs Hl. apply submseteq_length_Permutation; [|lia].
  apply NoDup_submseteq; [|done]. by apply NoDup_fmap_1 in Hn.
Qed.

Section order.
Context {OL : OutboundLib}.
Variable all : list Outbound.

(** The tags started are those of the outbounds started in order. *)
Definition round_ok (done : gset string) (order : list Outbound) : Prop :=
  ordered order /\ order ⊆ all /\ (forall d, d ∈ done <-> d ∈ tags order).

Lemma round_ok_snoc done order o :
  round_ok done order -> o ∈ all -> o_Tag o ∉ done ->
  forallb (fun d => bool_decide (d ∈ done)) (o_Dependencies o) = true ->
  round_ok ({[o_Tag o]} ∪ done) (order ++ [o]).
Proof.
  intros (Ho & Hs & Hd) Ha Hn Hf. split; [|split].
  - constructor; [done|by rewrite <-Hd|]. intros d Hin. apply Hd.
    rewrite forallb_forall in Hf. eapply bool_decide_eq_true_1, Hf. by apply list_elem_of_In.
  - intros x [Hx|<-%list_elem_of_singleton]%elem_of_app; [by apply Hs|done].
  - intros d. rewrite tags_app, elem_of_app, elem_of_union, elem_of_singleton, Hd. cbn.
    rewrite list_elem_of_singleton. tauto.
Qed.

(** A round that starts nothing leaves every outbound waiting. *)
Definition waiting (done : gset string) (outs : list Outbound) : Prop :=
  forall o, o ∈ outs -> o_Tag o ∉ done -> exists d, d ∈ o_Dependencies o /\ d ∉ done.

Lemma not_ready done deps :
  forallb (fun d => bool_decide (d ∈ done)) deps = false -> exists d, d ∈ deps /\ d ∉ (done : gset string).
Proof.
  induction deps as [|d deps IH]; [done|]. cbn. destruct (bool_decide_reflect (d ∈ done)) as [Hd|Hd].
  - intros (d' & Hd' & Hn)%IH. exists d'. split; [by constructor|done].
  - intros _. exists d. split; [by constructor|done].
Qed.

Lemma start_round_spec outs done order cc done' order' cc' err :
  round_ok done order -> outs ⊆ all ->
  start_round outs done order cc = (done', order', cc', err) ->
  round_ok done' order' /\ (length order <= length order')%nat /\
  (cc' = true -> cc = false -> (length order < length order')%nat) /\
  (cc' = false -> done' = done /\ order' = order /\ waiting done outs) /\
  (err <> None -> exists o, o ∈ all /\ start_outbound o StartStateStart <> None).
Proof.
  revert done order cc. induction outs as [|o outs IH]; intros done order cc Hok Hs; cbn [start_round].
  - intros [= <- <- <- <-]. split; [done|]. split; [lia|]. split; [congruence|].
    split; [|done]. intros _. split; [done|]. split; [done|]. by intros o Ho%elem_of_nil.
  - assert (Ho : o ∈ all) by (apply Hs; by constructor).
    assert (Hs' : outs ⊆ all) by (intros x Hx; apply Hs; by constructor).
    destruct (decide (o_Tag o ∈ done)) as [Hd|Hd].
    { intros (H1 & H2 & H3 & H4 & H5)%IH; [|done..]. split; [done|]. split; [done|]. split; [done|].
      split; [|done]. intros (E1 & E2 & Hw)%H4. split; [done|]. split; [done|].
      intros x [->|Hx]%elem_of_cons; [done|by apply Hw]. }
    destruct (forallb _ _) eqn:Hf.
    + pose proof (round_ok_snoc _ _ _ Hok Ho Hd Hf) as Hok'.
      destruct (start_outbound o StartStateStart) as [e|] eqn:Es.
      * intros [= <- <- <- <-]. rewrite length_app. cbn [length]. split; [done|]. split; [lia|].
        split; [lia|]. split; [done|]. intros _. exists o. by rewrite Es.
      * intros Hr. pose proof (IH _ _ _ Hok' Hs' Hr) as (H1 & H2 & _ & H4 & H5).
        rewrite length_app in H2. cbn [length] in H2. split; [done|]. split; [lia|]. split; [lia|].
        split; [|done]. intros Hc. exfalso.
        assert (Hcc : cc' = true).
        { clear -Hr. revert Hr. generalize ({[o_Tag o]} ∪ done) (order ++ [o]).
          induction outs as [|x outs IH]; intros dn od; cbn; [congruence|].
          repeat case_match; try apply IH; congruence. }
        congruence.
    + intros (H1 & H2 & H3 & H4 & H5)%IH; [|done..]. split; [done|]. split; [done|]. split; [done|].
      split; [|done]. intros (E1 & E2 & Hw)%H4. split; [done|]. split; [done|].
      intros x [->|Hx]%elem_of_cons; [intros _; by apply not_ready|by apply Hw].
Qed.

End order.

(** The chain of waiting outbounds is finite and always ends in an error. *)
Lemma lint_fails fuel byTag done t0 rest o :
  NoDup rest -> (forall t, t ∈ rest -> t ∈ dom byTag) -> (size byTag < fuel + length rest)%nat ->
  exists e, lintOutbound fuel byTag done (t0 :: rest) o = Err e.
Proof.
  revert rest o. induction fuel as [|fuel IH]; intros rest o Hn Hd Hf.
  - exfalso. assert (Hs : list_to_set rest ⊆ dom byTag).
    { intros t Ht%elem_of_list_to_set. by apply Hd. }
    apply subseteq_size in Hs. rewrite size_list_to_set, size_dom in Hs by done. lia.
  - cbn [lintOutbound]. set (p := find_unstarted done (o_Dependencies o)).
    destruct (decide (p ∈ t0 :: rest)) as [|Hp]; [by eexists|].
    destruct (byTag !! p) as [o'|] eqn:Ep; [|by eexists].
    apply not_elem_of_cons in Hp as [_ Hp]. cbn [app]. apply IH.
    + apply NoDup_app. split; [done|]. split; [|apply NoDup_singleton].
      intros x Hx. rewrite list_elem_of_singleton. by intros ->.
    + intros t [Ht| ->%list_elem_of_singleton]%elem_of_app; [by apply Hd|].
      apply elem_of_dom. by eexists.
    + rewrite length_app. cbn [length]. lia.
Qed.

Section start_order.
Context {OL : OutboundLib}.

(** Dependencies are met: each is the tag of an outbound of lower rank. *)
Definition ranked (outs : list Outbound) (rank : string -> nat) : Prop :=
  forall o d, o ∈ outs -> d ∈ o_Dependencies o ->
    exists o', o' ∈ outs /\ o_Tag o' = d /\ (rank d < rank (o_Tag o))%nat.

Lemma ranked_not_waiting outs rank done :
  ranked outs rank -> waiting done outs -> forall o, o ∈ outs -> o_Tag o ∈ done.
Proof.
  intros Hr Hw. assert (Hn : forall n o, o ∈ outs -> (rank (o_Tag o) < n)%nat -> o_Tag o ∈ done).
  { induction n as [|n IH]; intros o Ho Hlt; [lia|].
    destruct (decide (o_Tag o ∈ done)) as [|Hd]; [done|].
    destruct (Hw o Ho Hd) as (d & Hin & Hnd). exfalso. apply Hnd.
    destruct (Hr o d Ho Hin) as (o' & Ho' & <- & Hlt'). apply IH; [done|lia]. }
  intros o Ho. apply (Hn (S (rank (o_Tag o)))); [done|lia].
Qed.

Lemma size_done all done order : round_ok all done order -> size done = length order.
Proof.
  intros (Ho & _ & Hd). apply ordered_NoDup in Ho.
  assert (E : done = list_to_set (tags order)).
  { apply set_eq. intros d. by rewrite Hd, elem_of_list_to_set. }
  rewrite E, size_list_to_set by done. apply length_map.
Qed.

Lemma order_length all done order :
  NoDup (tags all) -> round_ok all done order -> (length order <= length all)%nat.
Proof.
  intros Hn (Ho & Hs & _). apply submseteq_length, NoDup_submseteq; [|done].
  apply ordered_NoDup in Ho. by apply NoDup_fmap_1 in Ho.
Qed.

(** An outbound is left when not all are started. *)
Lemma find_left outs done order :
  NoDup (tags outs) -> round_ok outs done order -> size done <> length outs ->
  exists o, List.find (fun o => negb (bool_decide (o_Tag o ∈ done))) outs = Some o.
Proof.
  intros Hn Hok Hsz. destruct (List.find _ outs) as [o|] eqn:E; [by eexists|]. exfalso. apply Hsz.
  assert (Hall : list_to_set (tags outs) ⊆ done).
  { intros t Ht. apply elem_of_list_to_set, list_elem_of_fmap in Ht as (o & -> & Ho).
    apply list_elem_of_In in Ho. pose proof (List.find_none _ _ E o Ho) as Hb.
    by apply negb_false_iff, bool_decide_eq_true_1 in Hb. }
  apply subseteq_size in Hall. rewrite size_list_to_set in Hall by done. unfold tags in Hall.
  rewrite length_map in Hall. pose proof (order_length _ _ _ Hn Hok). rewrite (size_done _ _ _ Hok) in *. lia.
Qed.

Lemma start_rounds_spec byTag outs fuel done order order' r :
  NoDup (tags outs) -> round_ok outs done order -> (length outs - length order < fuel)%nat ->
  start_rounds fuel byTag outs done order = (order', r) ->
  ordered order' /\ order' ⊆ outs /\ r <> Panic /\ (r = Ret tt -> order' ≡ₚ outs) /\
  (forall rank, ranked outs rank ->
     (forall o, o ∈ outs -> start_outbound o StartStateStart = None) -> r = Ret tt).
Proof.
  intros Hn. revert done order. induction fuel as [|fuel IH]; intros done order Hok Hf; [lia|].
  cbn [start_rounds]. destruct (start_round outs done order false) as [[[done1 order1] cc] err] eqn:Er.
  destruct (start_round_spec outs outs _ _ _ _ _ _ _ Hok (reflexivity _) Er) as (Hok1 & Hle & Hprog & Hstuck & Herr).
  pose proof Hok1 as (Ho1 & Hs1 & _). pose proof (size_done _ _ _ Hok1) as Hsz.
  destruct err as [e|].
  - intros [= <- <-]. split; [done|]. split; [done|]. split; [done|]. split; [done|].
    intros rank _ Hstart. destruct Herr as (o & Hin & He); [done|]. by rewrite Hstart in He.
  - destruct (Nat.eqb_spec (size done1) (length outs)) as [El|El].
    + intros [= <- <-]. split; [done|]. split; [done|]. split; [done|]. split; [|done].
      intros _. apply all_started; [by apply ordered_NoDup|done|lia].
    + destruct cc; [apply IH; [done|specialize (Hprog eq_refl eq_refl); pose proof (order_length _ _ _ Hn Hok1); lia]|].
      destruct (find_left outs done1 order1) as [o Eo]; [done..|]. rewrite Eo.
      destruct (lint_fails (S (size byTag)) byTag done1 (o_Tag o) [] o) as [e He];
        [constructor|by intros t Ht%elem_of_nil|cbn; lia|].
      rewrite He. intros [= <- <-].
      split; [done|]. split; [done|]. split; [done|]. split; [done|].
      intros rank Hr _. exfalso. destruct Hstuck as (-> & -> & Hw); [done|].
      apply List.find_some in Eo as [Hin Hb]. apply list_elem_of_In in Hin.
      apply negb_true_iff, bool_decide_eq_false_1 in Hb. apply Hb. by eapply ranked_not_waiting.
Qed.

(** C7: outbounds start in order.  With distinct tags, [startOutbounds] ends
    without raising; every outbound it starts is started once and after the
    outbounds it depends on; when it succeeds, all are started; and it does
    succeed when the dependencies exist and are not circular and no outbound
    fails to start. *)
Theorem startOutbounds_correct byTag outs order r :
  NoDup (tags outs) -> startOutbounds byTag outs = (order, r) ->
  ordered order /\ order ⊆ outs /\ r <> Panic /\ (r = Ret tt -> order ≡ₚ outs) /\
  (forall rank, ranked outs rank ->
     (forall o, o ∈ outs -> start_outbound o StartStateStart = None) -> r = Ret tt).
Proof.
  intros Hn. apply start_rounds_spec; [done| |cbn; lia].
  split; [constructor|]. split; [by intros x Hx%elem_of_nil|]. intros d. cbn.
  split; [by intros ?%elem_of_empty|by intros ?%elem_of_nil].
Qed.

End start_order.

(** ** The manager's tables *)

Section tables.
Context {OL : OutboundLib}.

(** The list and the map agree, tags are distinct, and only an empty list has
    no default when the settings name none. *)
Definition manager_ok (m : Manager) : Prop :=
  NoDup (tags (outbounds m)) /\
  (forall tag o, outboundByTag m !! tag = Some o <-> o ∈ outbounds m /\ o_Tag o = tag) /\
  (defaultTag m = EmptyString -> defaultOutbound m = None -> outbounds m = []).

Lemma remove_outbound_spec o outs :
  o ∈ outs -> NoDup (tags outs) ->
  exists l k, outs = l ++ o :: k /\ remove_outbound o outs = Some (l ++ k).
Proof.
  induction outs as [|x outs IH]; [by intros ?%elem_of_nil|].
  intros Ho Hn. cbn [remove_outbound]. destruct (decide (x = o)) as [->|Hx]; [by exists [], outs|].
  apply elem_of_cons in Ho as [->|Ho]; [done|]. apply NoDup_cons in Hn as [_ Hn].
  destruct (IH Ho Hn) as (l & k & -> & ->). by exists (x :: l), k.
Qed.

(** What is left after one outbound is taken out. *)
Lemma removed_ok o l k :
  NoDup (tags (l ++ o :: k)) ->
  NoDup (tags (l ++ k)) /\ (forall x, x ∈ l ++ k <-> x ∈ l ++ o :: k /\ o_Tag x <> o_Tag o).
Proof.
  intros Hn. assert (Hp : tags (l ++ o :: k) ≡ₚ o_Tag o :: tags (l ++ k)).
  { rewrite !tags_app. cbn. by rewrite Permutation_middle. }
  rewrite Hp in Hn. apply NoDup_cons in Hn as [Ho Hn]. split; [done|].
  intros x. rewrite !elem_of_app, elem_of_cons. split.
  - intros Hx. split; [tauto|]. intros E. apply Ho. rewrite <-E. apply elem_of_tags. by apply elem_of_app.
  - intros [[Hx|[->|Hx]] Hne]; [by left|done|by right].
Qed.

(** Taking the outbound of a tag out of both tables. *)
Lemma manager_remove m tag o :
  manager_ok m -> outboundByTag m !! tag = Some o ->
  exists outs, remove_outbound o (outbounds m) = Some outs /\ NoDup (tags outs) /\
    (forall x, x ∈ outs <-> x ∈ outbounds m /\ o_Tag x <> tag) /\
    (forall t x, delete tag (outboundByTag m) !! t = Some x <-> x ∈ outs /\ o_Tag x = t).
Proof.
  intros (Hn & Hm & _) Ho. pose proof Ho as [Hin <-]%Hm.
  destruct (remove_outbound_spec o (outbounds m) Hin Hn) as (l & k & E & Hr).
  rewrite E in Hn. apply removed_ok in Hn as [Hn Hx]. rewrite <-E in Hx.
  exists (l ++ k). split; [done|]. split; [done|]. split; [done|].
  intros t x. rewrite lookup_delete_Some, Hm, Hx. split; [|by intros [[? ?] <-]].
  intros (Ht & ? & <-). done.
Qed.

Lemma Remove_ok tag m : manager_ok m -> manager_ok (fst (Remove tag m)) /\ snd (Remove tag m) <> Panic.
Proof.
  intros Hok. unfold Remove. destruct (outboundByTag m !! tag) as [o|] eqn:Eo; [|done].
  destruct (manager_remove m tag o Hok Eo) as (outs & -> & Hn & Hx & Hd). pose proof Hok as (_ & _ & Hdef).
  assert (Hgoal : forall dependBy, manager_ok (with_outbounds m outs (delete tag (outboundByTag m)) dependBy
    (if decide (defaultOutbound m = Some o) then match outs with x :: _ => Some x | [] => None end
     else defaultOutbound m))).
  { intros dependBy. split; [done|]. split; [done|]. cbn. intros Ht. destruct (decide _) as [Ed|Ed].
    - by destruct outs.
    - intros Hnone. pose proof (Hdef Ht Hnone) as E0. rewrite E0 in Hx. destruct outs as [|x outs]; [done|].
      assert (Hin : x ∈ x :: outs) by constructor. apply Hx in Hin as [Hin%elem_of_nil _]. done. }
  destruct (depend_by (dependByTag m) tag) as [|x l]; cbn [fst snd]; (split; [apply Hgoal|]); [|done].
  destruct (started m); [|done]. unfold result_of. by destruct (close_outbound o).
Qed.

(** A new outbound under a tag that is free. *)
Lemma manager_add m outs byTag dependBy def o :
  NoDup (tags outs) -> (forall t x, byTag !! t = Some x <-> x ∈ outs /\ o_Tag x = t) ->
  byTag !! o_Tag o = None -> (defaultTag m = EmptyString -> def <> None) ->
  manager_ok (with_outbounds m (outs ++ [o]) (<[o_Tag o := o]> byTag) dependBy def).
Proof.
  intros Hn Hm Hfree Hdef. assert (Hno : o_Tag o ∉ tags outs).
  { intros (x & E & Hx)%list_elem_of_fmap. assert (F : byTag !! o_Tag x = Some x) by (by apply Hm).
    rewrite <-E in F. congruence. }
  split; [|split].
  - cbn. rewrite tags_app. apply NoDup_app. split; [done|]. split; [|apply NoDup_singleton].
    intros x Hx. cbn. rewrite list_elem_of_singleton. by intros ->.
  - intros t x. cbn. rewrite elem_of_app, list_elem_of_singleton.
    destruct (decide (t = o_Tag o)) as [->|Ht].
    + rewrite lookup_insert_eq. split; [intros [= <-]; by split; [right|]|].
      intros [[Hx| ->] E]; [|done]. exfalso. apply Hno. rewrite <-E. by apply elem_of_tags.
    + rewrite lookup_insert_ne, Hm by done. split; [intros [? ?]; by split; [left|]|].
      intros [[Hx| ->] E]; [done|congruence].
  - cbn. intros Ht Hd. by specialize (Hdef Ht).
Qed.

Lemma lookup_delete_same (byTag : gmap string Outbound) tag o :
  <[tag := o]> byTag = <[tag := o]> (delete tag byTag).
Proof. by rewrite insert_delete_eq. Qed.

Lemma Create_ok tag created m :
  manager_ok m -> created <> Panic -> (forall o, created = Ret o -> o_Tag o = tag) ->
  manager_ok (fst (Create tag created m)) /\ snd (Create tag created m) <> Panic.
Proof.
  intros Hok Hnp Ht. unfold Create. destruct (decide (tag = EmptyString)); [done|].
  destruct created as [o|e|]; [|done..]. pose proof (Ht o eq_refl) as Eo.
  destruct (if started m then _ else None) as [e|]; [done|].
  assert (Hdef : defaultTag m = EmptyString -> (if bool_decide (tag = defaultTag m) ||
      (bool_decide (defaultTag m = EmptyString) && bool_decide (defaultOutbound m = None))
    then Some o else defaultOutbound m) <> None).
  { intros E. rewrite E. rewrite (bool_decide_eq_true_2 (EmptyString = EmptyString)) by done. cbn [andb].
    destruct (bool_decide_reflect (defaultOutbound m = None)); [by rewrite orb_true_r|].
    by case_match. }
  destruct (outboundByTag m !! tag) as [x|] eqn:Ex.
  - destruct (if started m then _ else None) as [e|]; [done|].
    destruct (manager_remove m tag x Hok Ex) as (outs & -> & Hn & _ & Hd). cbn [fst snd]. split; [|done].
    rewrite lookup_delete_same. subst tag. apply manager_add; try done. apply lookup_delete_eq.
  - cbn [fst snd]. split; [|done]. subst tag. destruct Hok as (Hn & Hm & _). by apply manager_add.
Qed.

Lemma manager_Start_ok s m :
  manager_ok m ->
  started m && (stage_num s <=? stage_num (stage m)) = false -> manager_ok (fst (Start s m)).
Proof.
  intros Hok Hs. unfold Start. rewrite Hs. set (m1 := mkManager _ _ _ _ _ _ _ _).
  assert (Hok1 : manager_ok m1) by exact Hok. destruct s; try exact Hok1.
  clearbody m1. clear Hok Hs m. unfold start_state.
  destruct (bool_decide_reflect (defaultTag m1 = EmptyString)) as [Et|Et]; cbn [negb andb].
  - pose proof Hok1 as (Hn & Hm & Hdef). destruct (defaultOutbound m1) as [d|] eqn:Ed; [exact Hok1|].
    destruct (defaultOutboundFallback m1) as [o|e|]; [|done..]. cbn [fst].
    apply manager_add; try done. rewrite (Hdef Et eq_refl) in Hm.
    destruct (outboundByTag m1 !! o_Tag o) as [x|] eqn:Ex; [|done].
    by apply Hm in Ex as [?%elem_of_nil _].
  - destruct (bool_decide_reflect (defaultOutbound m1 = None)) as [Ed|Ed].
    + destruct (endpoint_Get (defaultTag m1)) as [e|]; [|done].
      destruct Hok1 as (Hn & Hm & _). by split; [|split].
    + destruct (defaultOutbound m1); [exact Hok1|done].
Qed.

(** The life of a manager up to its closing; the registry makes outbounds of
    the tag it is asked for. *)
Inductive manager_step : Manager -> Manager -> Prop :=
| step_create tag created m :
    created <> Panic -> (forall o, created = Ret o -> o_Tag o = tag) ->
    manager_step m (fst (Create tag created m))
| step_remove tag m : manager_step m (fst (Remove tag m))
| step_start s m :
    started m && (stage_num s <=? stage_num (stage m)) = false -> manager_step m (fst (Start s m)).

Lemma manager_steps_ok m m' : rtc manager_step m m' -> manager_ok m -> manager_ok m'.
Proof.
  induction 1 as [|m m1 m' Hstep _ IH]; [done|]. intros Hok. apply IH.
  destruct Hstep; [by apply Create_ok|by apply Remove_ok|by apply manager_Start_ok].
Qed.

Lemma NewManager_ok tag fallback : manager_ok (NewManager tag fallback).
Proof.
  split; [constructor|]. split; [|done]. intros t o. cbn. rewrite lookup_empty.
  by split; [|intros [?%elem_of_nil _]].
Qed.

(** The tables agree.  Whatever is created, replaced, removed and started,
    successfully or not, the list of outbounds has distinct tags, the map has
    exactly the outbounds of the list under their tags, and removing and
    creating do not raise. *)
Theorem manager_consistent tag0 fallback m :
  rtc manager_step (NewManager tag0 fallback) m ->
  NoDup (tags (outbounds m)) /\
  (forall tag o, outboundByTag m !! tag = Some o <-> o ∈ outbounds m /\ o_Tag o = tag) /\
  (forall tag, snd (Remove tag m) <> Panic) /\
  (forall tag o, o_Tag o = tag -> snd (Create tag (Ret o) m) <> Panic).
Proof.
  intros Hr. pose proof (manager_steps_ok _ _ Hr (NewManager_ok tag0 fallback)) as Hok.
  pose proof Hok as (Hn & Hm & _). split; [done|]. split; [done|]. split.
  - intros tag. by apply Remove_ok.
  - intros tag o Ho. apply Create_ok; [done|done|]. by intros o' [= <-].
Qed.

(** Every branch of [Remove].  A known outbound leaves the tables whether
    or not others depend on it; when others do, the call is an error, the
    outbound is not closed and stays listed as a dependent of others; without
    dependents it is closed on a started manager and its own dependencies are
    forgotten. *)
Theorem Remove_branches tag o m :
  manager_ok m -> outboundByTag m !! tag = Some o ->
  let '(m', r) := Remove tag m in
  (forall x, x ∈ outbounds m' <-> x ∈ outbounds m /\ o_Tag x <> tag) /\
  outboundByTag m' = delete tag (outboundByTag m) /\
  match depend_by (dependByTag m) tag with
  | [] => dependByTag m' = fold_left (remove_depend tag) (o_Dependencies o) (dependByTag m) /\
          r = if started m then result_of (close_outbound o) else Ret tt
  | _ => dependByTag m' = dependByTag m /\ r = Err "outbound is depended by"
  end.
Proof.
  intros Hok Ho. unfold Remove. rewrite Ho.
  destruct (manager_remove m tag o Hok Ho) as (outs & -> & _ & Hx & _).
  by destruct (depend_by (dependByTag m) tag).
Qed.

(** A replaced default stays.  When the settings name no default, creating
    an outbound under the tag of the default replaces and closes the outbound
    and keeps it as the default, which then is no outbound of the manager. *)
Theorem replaced_default_stale tag old new m :
  manager_ok m -> defaultTag m = EmptyString -> defaultOutbound m = Some old ->
  outboundByTag m !! tag = Some old -> tag <> EmptyString -> o_Tag new = tag -> new <> old ->
  started m = true -> start_stages new ListStartStages = None -> close_outbound old = None ->
  let '(m', r) := Create tag (Ret new) m in
  r = Ret tt /\ outboundByTag m' !! tag = Some new /\
  defaultOutbound m' = Some old /\ old ∉ outbounds m'.
Proof.
  intros Hok Ht Hd Ho Hne Hn Hnew Hs Hstart Hclose. unfold Create.
  rewrite decide_False, Hs, Hstart, Ho, Hclose by done.
  destruct (manager_remove m tag old Hok Ho) as (outs & -> & _ & Hx & _). cbn.
  rewrite Hd, Ht. rewrite (bool_decide_eq_false_2 (tag = _)) by done.
  rewrite (bool_decide_eq_false_2 (Some old = None)) by done. rewrite andb_false_r. cbn [orb].
  split; [done|]. split; [by rewrite lookup_insert_eq|]. split; [done|].
  rewrite elem_of_app, list_elem_of_singleton. intros [F|F]; [|by subst].
  apply Hx in F as [_ F]. destruct Hok as (_ & Hm & _). by apply Hm in Ho as [_ ?].
Qed.

(** Two outbounds of one tag are never all started. *)
Lemma clash_raises byTag direct e :
  o_Tag e = o_Tag direct -> o_Dependencies direct = [] ->
  start_outbound direct StartStateStart = None -> snd (startOutbounds byTag [direct; e]) = Panic.
Proof.
  intros Ht Hd Hs. unfold startOutbounds. cbn [length start_rounds].
  assert (R1 : start_round [direct; e] ∅ [] false = ({[o_Tag direct]}, [direct], true, None)).
  { cbn [start_round]. rewrite decide_False by set_solver. rewrite Hd. cbn [forallb app]. rewrite Hs.
    by rewrite Ht, decide_True, union_empty_r_L by set_solver. }
  assert (R2 : start_round [direct; e] {[o_Tag direct]} [direct] false =
    ({[o_Tag direct]}, [direct], false, None)).
  { cbn [start_round]. by rewrite Ht, !decide_True by set_solver. }
  rewrite R1, size_singleton. cbn [Nat.eqb]. rewrite R2, size_singleton. cbn [Nat.eqb List.find].
  by rewrite Ht, !bool_decide_eq_true_2 by set_solver.
Qed.

(** An endpoint with the tag of the fallback raises.  With no outbounds,
    no default and an endpoint of the same tag as the fallback outbound, which
    the check of duplicate tags does not see, starting raises. *)
Theorem fallback_clash_raises direct e :
  Endpoints = [e] -> o_Tag e = o_Tag direct -> o_Dependencies direct = [] ->
  start_outbound direct StartStateStart = None ->
  snd (Start StartStateStart (NewManager EmptyString (Ret direct))) = Panic.
Proof.
  intros He Ht Hd Hs.
  change (snd (startOutbounds (<[o_Tag direct := direct]> ∅) ([direct] ++ Endpoints)) = Panic).
  rewrite He. by apply clash_raises.
Qed.

End tables.

(** ** Witnesses *)

(** Nothing fails, and there is one endpoint. *)
Definition plain_outbounds (e : Outbound) : OutboundLib := {|
  start_outbound _ _ := None;
  close_outbound _ := None;
  endpoint_Get tag := if decide (tag = o_Tag e) then Some e else None;
  Endpoints := [e]
|}.

Definition demo_direct : Outbound := mkOutbound 1 "direct" [].
Definition demo_select : Outbound := mkOutbound 2 "select" ["proxy"; "direct"].
Definition demo_proxy : Outbound := mkOutbound 3 "proxy" ["direct"].
Definition demo_endpoint : Outbound := mkOutbound 4 "wg" [].
Definition demo_lib : OutboundLib := plain_outbounds demo_endpoint.

Lemma startOutbounds_correct_witness :
  ordered [demo_direct; demo_proxy; demo_select] /\
  [demo_direct; demo_proxy; demo_select] ⊆ [demo_select; demo_direct; demo_proxy] /\
  Ret tt <> Panic /\
  (Ret tt = Ret tt -> [demo_direct; demo_proxy; demo_select] ≡ₚ [demo_select; demo_direct; demo_proxy]) /\
  (forall rank, ranked [demo_select; demo_direct; demo_proxy] rank ->
     (forall o, o ∈ [demo_select; demo_direct; demo_proxy] ->
        start_outbound (OutboundLib := demo_lib) o StartStateStart = None) -> Ret tt = Ret tt).
Proof.
  apply (startOutbounds_correct (OL := demo_lib) ∅); [|vm_compute; reflexivity].
  apply (bool_decide_unpack (NoDup (tags [demo_select; demo_direct; demo_proxy]))). vm_compute. exact I.
Defined.

Definition demo_manager : Manager :=
  fst (Start (OL := demo_lib) StartStateStart
    (fst (Create (OL := demo_lib) "direct" (Ret demo_direct) (NewManager EmptyString (Err "none"))))).

Lemma demo_manager_run :
  rtc (manager_step (OL := demo_lib)) (NewManager EmptyString (Err "none")) demo_manager.
Proof.
  eapply rtc_l; [|apply rtc_once].
  - apply (step_create (OL := demo_lib) "direct" (Ret demo_direct)); [done|]. by intros o [= <-].
  - apply (step_start (OL := demo_lib) StartStateStart). reflexivity.
Qed.

Lemma manager_consistent_witness :
  NoDup (tags (outbounds demo_manager)) /\
  (forall tag o, outboundByTag demo_manager !! tag = Some o <->
     o ∈ outbounds demo_manager /\ o_Tag o = tag) /\
  (forall tag, snd (Remove (OL := demo_lib) tag demo_manager) <> Panic) /\
  (forall tag o, o_Tag o = tag -> snd (Create (OL := demo_lib) tag (Ret o) demo_manager) <> Panic).
Proof. exact (manager_consistent (OL := demo_lib) EmptyString (Err "none") demo_manager demo_manager_run). Defined.

Lemma demo_manager_ok : manager_ok demo_manager.
Proof. exact (manager_steps_ok (OL := demo_lib) _ _ demo_manager_run (NewManager_ok _ _)). Qed.

Lemma Remove_branches_witness :
  let '(m', r) := Remove (OL := demo_lib) "direct" demo_manager in
  (forall x, x ∈ outbounds m' <-> x ∈ outbounds demo_manager /\ o_Tag x <> "direct"%string) /\
  outboundByTag m' = delete "direct"%string (outboundByTag demo_manager) /\
  match depend_by (dependByTag demo_manager) "direct" with
  | [] => dependByTag m' = fold_left (remove_depend "direct") (o_Dependencies demo_direct)
                             (dependByTag demo_manager) /\
          r = if started demo_manager then result_of (close_outbound (OutboundLib := demo_lib) demo_direct)
              else Ret tt
  | _ => dependByTag m' = dependByTag demo_manager /\ r = Err "outbound is depended by"
  end.
Proof.
  apply (Remove_branches (OL := demo_lib) "direct" demo_direct demo_manager);
    [apply demo_manager_ok|vm_compute; reflexivity].
Defined.

Lemma replaced_default_stale_witness :
  let '(m', r) := Create (OL := demo_lib) "direct" (Ret (mkOutbound 9 "direct" [])) demo_manager in
  r = Ret tt /\ outboundByTag m' !! "direct"%string = Some (mkOutbound 9 "direct" []) /\
  defaultOutbound m' = Some demo_direct /\ demo_direct ∉ outbounds m'.
Proof.
  apply (replaced_default_stale (OL := demo_lib) "direct" demo_direct (mkOutbound 9 "direct" []) demo_manager);
    [apply demo_manager_ok|reflexivity|vm_compute; reflexivity|vm_compute; reflexivity|discriminate|
     reflexivity|discriminate|reflexivity|reflexivity|reflexivity].
Defined.

Lemma fallback_clash_raises_witness :
  snd (Start (OL := plain_outbounds (mkOutbound 4 "direct" [])) StartStateStart
    (NewManager EmptyString (Ret demo_direct))) = Panic.
Proof.
  apply (fallback_clash_raises (OL := plain_outbounds (mkOutbound 4 "direct" [])) demo_direct
    (mkOutbound 4 "direct" [])); reflexivity.
Defined.
