(* ===== verification/TlsFragment.v ===== *)
(** * TLS fragmentation (src/common/tlsfragment/index.go, conn.go)

    The first packet of a TLS connection is cut inside the server name, into
    several packets, several records or both.  The name is found by a parser of
    the ClientHello. *)

From S2P Require Import Prelude.

(** ** Finding the server name *)

Abbreviation recordLayerHeaderLen := 5 (only parsing).
Abbreviation handshakeHeaderLen := 6 (only parsing).
Abbreviation randomDataLen := 32 (only parsing).
Abbreviation sessionIDHeaderLen := 1 (only parsing).
Abbreviation cipherSuiteHeaderLen := 2 (only parsing).
Abbreviation compressMethodHeaderLen := 1 (only parsing).
Abbreviation extensionsHeaderLen := 2 (only parsing).
Abbreviation extensionHeaderLen := 4 (only parsing).
Abbreviation sniExtensionHeaderLen := 5 (only parsing).
Abbreviation contentType := 22 (only parsing).
Abbreviation handshakeType := 1 (only parsing).
Abbreviation sniExtensionType := 0 (only parsing).
Abbreviation sniNameDNSHostnameType := 0 (only parsing).
Abbreviation tlsVersionBitmask := 0xFFFC (only parsing).
Abbreviation tls13 := 0x0304 (only parsing).

Record MyServerName := mkServerName {
  Index : Z;
  Length : Z;
  ServerName : list Z;
  ExtensionsListLengthIndex : Z
}.

(** [uint16(b[i])<<8 | uint16(b[i+1])]. *)
Definition u16_at (b : list Z) (i : Z) : res Z :=
  x ← go_index b i; y ← go_index b (i + 1); Ret (Z.lor (Z.shiftl x 8) y).

(** [exs[4+exLen:]]: the sum is of 16 bits. *)
Definition skip_extension (exs : list Z) (exLen : Z) : res (list Z) := go_from exs (u16 (4 + exLen)).

(** The loop over the extensions; it need not end, and running out of fuel is
    an error of its own. *)
Fixpoint extensions_loop (fuel : nat) (currentIndex : Z) (exs : list Z) : res (option MyServerName) :=
  match fuel with
  | O => Err "no result yet"
  | S fuel =>
    if zlen exs <=? 0 then Ret None else
    if zlen exs <? extensionHeaderLen then Ret None else
    exType ← u16_at exs 0;
    exLen ← u16_at exs 2;
    if zlen exs <? extensionHeaderLen + exLen then Ret None else
    sex ← go_slice exs extensionHeaderLen (extensionHeaderLen + exLen);
    if exType =? sniExtensionType then
      if zlen sex <? sniExtensionHeaderLen then Ret None else
      sniType ← go_index sex 2;
      if negb (sniType =? sniNameDNSHostnameType) then Ret None else
      sniLen ← u16_at sex 3;
      sex ← go_from sex sniExtensionHeaderLen;
      Ret (Some (mkServerName (currentIndex + extensionHeaderLen + sniExtensionHeaderLen) sniLen sex 0))
    else
      exs ← skip_extension exs exLen;
      extensions_loop fuel (currentIndex + 4 + exLen) exs
  end.

Definition indexTLSServerNameFromExtensions (fuel : nat) (exs : list Z) : res (option MyServerName) :=
  if zlen exs =? 0 then Ret None else
  if zlen exs <? extensionsHeaderLen then Ret None else
  exsLen ← u16_at exs 0;
  exs ← go_from exs extensionsHeaderLen;
  if zlen exs <? exsLen then Ret None else
  extensions_loop fuel extensionsHeaderLen exs.

Definition shift_name (by_index list_index : Z) (s : MyServerName) : MyServerName :=
  mkServerName (Index s + by_index) (Length s) (ServerName s) list_index.

Definition indexTLSServerNameFromHandshake (fuel : nat) (handshake : list Z) : res (option MyServerName) :=
  if zlen handshake <? handshakeHeaderLen + randomDataLen + sessionIDHeaderLen then Ret None else
  h0 ← go_index handshake 0;
  if negb (h0 =? handshakeType) then Ret None else
  h1 ← go_index handshake 1; h2 ← go_index handshake 2; h3 ← go_index handshake 3;
  let handshakeLen := Z.lor (Z.lor (Z.shiftl h1 16) (Z.shiftl h2 8)) h3 in
  tail ← go_from handshake 4;
  if negb (zlen tail =? handshakeLen) then Ret None else
  tlsVersion ← u16_at handshake 4;
  if negb (Z.land tlsVersion tlsVersionBitmask =? 0x0300) && negb (tlsVersion =? tls13) then Ret None else
  sessionIDLen ← go_index handshake 38;
  let currentIndex := handshakeHeaderLen + randomDataLen + sessionIDHeaderLen + sessionIDLen in
  if zlen handshake <? currentIndex then Ret None else
  cipherSuites ← go_from handshake currentIndex;
  if zlen cipherSuites <? cipherSuiteHeaderLen then Ret None else
  csLen ← u16_at cipherSuites 0;
  if zlen cipherSuites <? cipherSuiteHeaderLen + csLen + compressMethodHeaderLen then Ret None else
  compressMethodLen ← go_index cipherSuites (cipherSuiteHeaderLen + csLen);
  let currentIndex := currentIndex + (cipherSuiteHeaderLen + csLen + compressMethodHeaderLen +
                                      compressMethodLen) in
  if zlen handshake <? currentIndex then Ret None else
  exs ← go_from handshake currentIndex;
  serverName ← indexTLSServerNameFromExtensions fuel exs;
  match serverName with
  | None => Ret None
  | Some s => Ret (Some (shift_name currentIndex currentIndex s))
  end.

Definition IndexTLSServerName (fuel : nat) (payload : list Z) : res (option MyServerName) :=
  if zlen payload <? recordLayerHeaderLen then Ret None else
  p0 ← go_index payload 0;
  if negb (p0 =? contentType) then Ret None else
  header ← go_slice payload 3 5;
  segmentLen ← go_be 2 header;
  if zlen payload <? recordLayerHeaderLen + segmentLen then Ret None else
  handshake ← go_from payload recordLayerHeaderLen;
  serverName ← indexTLSServerNameFromHandshake fuel handshake;
  match serverName with
  | None => Ret None
  | Some s => Ret (Some (shift_name recordLayerHeaderLen
                           (ExtensionsListLengthIndex s + recordLayerHeaderLen) s))
  end.

(** ** Cutting the first packet *)

Record Conn := mkConn {
  firstPacketWritten : bool;
  splitPacket : bool;
  splitRecord : bool
}.

Definition dot : Z := 46.

(** [strings.Split(s, ".")]: never empty. *)
Fixpoint split_dots (s : list Z) : list Z * list (list Z) :=
  match s with
  | [] => ([], [])
  | c :: s =>
    let '(first, rest) := split_dots s in
    if c =? dot then ([], first :: rest) else (c :: first, rest)
  end.

Definition Split (s : list Z) : list (list Z) := fst (split_dots s) :: snd (split_dots s).

Definition count_dots (s : list Z) : Z := zlen (base.filter (fun c => c = dot) s).

(** [publicsuffix.List.PublicSuffix] and [math/rand.Intn], which raises on 0;
    the index tells the calls apart. *)
Class FragmentLib := {
  PublicSuffix : list Z -> list Z;
  Intn : nat -> Z -> Z
}.

Class FragmentLaws (L : FragmentLib) : Prop := {
  Intn_range k n : 0 < n -> 0 <= Intn k n < n
}.

Section writing.
Context {L : FragmentLib}.

(** The labels to cut and where the first one is. *)
Definition split_labels (serverName : MyServerName) : res (list (list Z) * Z) :=
  let splits := Split (ServerName serverName) in
  let currentIndex := Index serverName in
  splits ← (if decide (PublicSuffix (ServerName serverName) = []) then Ret splits
            else go_slice splits 0 (zlen splits - count_dots (ServerName serverName)));
  match splits with
  | first :: ((_ :: _) as rest) =>
    if decide (first = [dot; dot; dot]) then Ret (rest, currentIndex + (zlen first + 1))
    else Ret (splits, currentIndex)
  | _ => Ret (splits, currentIndex)
  end.

(** One place to cut in each label. *)
Fixpoint split_indexes (k : nat) (splits : list (list Z)) (currentIndex : Z) : res (list Z) :=
  match splits with
  | [] => Ret []
  | split :: splits =>
    if zlen split <=? 0 then Panic else
    let splitAt := Intn k (zlen split) in
    let next := currentIndex + zlen split + (match splits with [] => 0 | _ => 1 end) in
    l ← split_indexes (S k) splits next;
    Ret (currentIndex + splitAt :: l)
  end.

(** The pieces of the packet between the indexes, the first one from [from]. *)
Fixpoint pieces (b : list Z) (from : Z) (indexes : list Z) : res (list (list Z)) :=
  match indexes with
  | [] => p ← go_from b from; Ret [p]
  | i :: indexes => p ← go_slice b from i; l ← pieces b i indexes; Ret (p :: l)
  end.

(** A record of the same type and version. *)
Definition frame (b payload : list Z) : res (list Z) :=
  header ← go_slice b 0 3; Ret (header ++ put_be 2 (u16 (zlen payload)) ++ payload).

Fixpoint frames (b : list Z) (payloads : list (list Z)) : res (list (list Z)) :=
  match payloads with
  | [] => Ret []
  | p :: payloads => f ← frame b p; l ← frames b payloads; Ret (f :: l)
  end.

(** What the first [Write] sends for a packet with a server name; the first
    piece loses the record header when records are cut. *)
Definition fragments (c : Conn) (b : list Z) (serverName : MyServerName) : res (list (list Z)) :=
  labels ← split_labels serverName;
  splitIndexes ← split_indexes 0 (fst labels) (snd labels);
  match splitIndexes with
  | [] => Panic
  | _ =>
    payloads ← pieces b 0 splitIndexes;
    match payloads with
    | [] => Panic
    | first :: rest =>
      if splitRecord c then
        first ← go_from first recordLayerHeaderLen;
        l ← frames b (first :: rest);
        Ret (if splitPacket c then l else [concat l])
      else Ret (if splitPacket c then payloads else [])
    end
  end.

(** [Write] with the errors of the connection's writes: what was sent, and the
    number of bytes reported or the error. *)
Fixpoint send (fails : nat -> option string) (k : nat) (chunks : list (list Z))
    : list (list Z) * option string :=
  match chunks with
  | [] => ([], None)
  | x :: chunks =>
    match fails k with
    | Some e => ([], Some e)
    | None => let '(l, e) := send fails (S k) chunks in (x :: l, e)
    end
  end.

Definition Write (fuel : nat) (fails : nat -> option string) (c : Conn) (b : list Z)
    : res (Conn * list (list Z) * res Z) :=
  let plain c := Ret (c, fst (send fails 0 [b]),
    match snd (send fails 0 [b]) with None => Ret (zlen b) | Some e => Err e end) in
  if firstPacketWritten c then plain c else
  let c' := mkConn true (splitPacket c) (splitRecord c) in
  serverName ← IndexTLSServerName fuel b;
  match serverName with
  | None => plain c'
  | Some s =>
    chunks ← fragments c b s;
    let '(sent, e) := send fails 0 chunks in
    Ret (c', sent, match e with None => Ret (zlen b) | Some e => Err e end)
  end.

End writing.

(** ** The parser ends and finds the name *)

Lemma u16_at_inv b i :
  0 <= i -> i + 1 < zlen b ->
  exists v, u16_at b i = Ret v /\ (is_bytes b -> 0 <= v < 2 ^ 16).
Proof.
  intros Hi Hl. unfold u16_at.
  destruct (go_index_inv b i) as (x & Ex & Hx); [lia|]. rewrite Ex. cbn [mbind res_bind].
  destruct (go_index_inv b (i + 1)) as (y & Ey & Hy); [lia|]. rewrite Ey. cbn [mbind res_bind].
  eexists. split; [done|]. intros Hb. pose proof (Hx _ Hb) as Bx. pose proof (Hy _ Hb) as By.
  cbn beta in Bx, By. unfold is_u8 in Bx, By.
  rewrite Z.shiftl_mul_pow2 by lia. rewrite <-Z.add_nocarry_lor; [lia|].
  apply Z.bits_inj'. intros n Hn. rewrite Z.land_spec, Z.bits_0.
  destruct (Z.lt_ge_cases n 8).
  - by rewrite Z.mul_pow2_bits_low.
  - rewrite (Z.bits_above_log2 y n), andb_false_r; [done|lia|].
    destruct (Z.eq_dec y 0) as [->|]; [cbn; lia|]. apply Z.log2_lt_pow2; [lia|].
    apply Z.lt_le_trans with (2 ^ 8); [lia|]. apply Z.pow_le_mono_r; lia.
Qed.

Ltac u16_step :=
  match goal with |- context [@mbind res _ _ _ _ (u16_at ?b ?i)] =>
    let v := fresh "v" in let E := fresh "E" in let V := fresh "V" in
    destruct (u16_at_inv b i) as (v & E & V); [lia|lia|]; rewrite E; clear E; cbn [mbind res_bind]
  end.

(** The result of a parser over a slice: it returns, and a name is where it
    says. *)
Definition finds (full : list Z) (lo : Z) (r : res (option MyServerName)) : Prop :=
  exists o, r = Ret o /\ forall s, o = Some s -> lo <= Index s /\ lies full (Index s) (ServerName s).

Lemma finds_none full lo : finds full lo (Ret None).
Proof. by exists None. Qed.

#[local] Hint Resolve finds_none : core.

Lemma extensions_loop_finds full fuel ci exs :
  is_bytes exs -> zlen exs < 2 ^ 16 -> (length exs < fuel)%nat -> lies full ci exs ->
  finds full ci (extensions_loop fuel ci exs).
Proof.
  revert ci exs. induction fuel as [|fuel IH]; intros ci exs Hb Hl Hf Hat; [lia|].
  cbn [extensions_loop]. destruct (Z.leb_spec (zlen exs) 0); [done|].
  destruct (Z.ltb_spec (zlen exs) 4); [done|].
  u16_step. u16_step. specialize (V Hb). specialize (V0 Hb).
  destruct (Z.ltb_spec (zlen exs) (4 + v0)); [done|]. go_lies.
  destruct (Z.eqb_spec v sniExtensionType).
  - destruct (Z.ltb_spec (zlen r) 5); [done|]. go_step. destruct (negb _); [done|]. u16_step. go_lies.
    eexists. split; [done|]. intros s [= <-]. cbn [Index ServerName]. split; [lia|].
    by replace (ci + 4 + 5) with (ci + 4 + 5) by lia.
  - unfold skip_extension. rewrite u16_id by (unfold is_u16; lia). go_lies.
    destruct (IH (ci + (4 + v0)) r0) as (o & Eo & Ho);
      [by apply F0|lia|unfold zlen in *; lia|done|].
    rewrite <-(Z.add_assoc ci 4 v0), Eo. exists o. split; [done|].
    intros s Hs. destruct (Ho s Hs). split; [lia|done].
Qed.

Lemma extensions_finds fuel exs :
  is_bytes exs -> zlen exs < 2 ^ 16 -> (length exs <= fuel)%nat ->
  finds exs 0 (indexTLSServerNameFromExtensions fuel exs).
Proof.
  intros Hb Hl Hf. unfold indexTLSServerNameFromExtensions.
  destruct (Z.eqb_spec (zlen exs) 0); [done|]. destruct (Z.ltb_spec (zlen exs) 2); [done|].
  u16_step. pose proof (lies_refl exs). go_lies. destruct (zlen r <? v); [done|].
  destruct (extensions_loop_finds exs fuel 2 r) as (o & Eo & Ho);
    [by apply F|lia|unfold zlen in *; lia|done|].
  rewrite Eo. exists o. split; [done|]. intros s Hs. destruct (Ho s Hs). split; [lia|done].
Qed.

(** A parser of a slice inside a parser of the whole. *)
Lemma finds_shift full part k li r :
  0 <= k -> lies full k part -> finds part 0 r ->
  finds full 0 (serverName ← r; match serverName with
                | None => Ret None
                | Some s => Ret (Some (shift_name k (li s) s))
                end).
Proof.
  intros Hk Hat ([s|] & -> & Hs); cbn [mbind res_bind]; [|done]. eexists. split; [done|].
  intros x [= <-]. destruct (Hs s eq_refl) as [H0 Hl]. cbn. split; [lia|].
  rewrite Z.add_comm. by eapply lies_trans.
Qed.

Lemma handshake_finds fuel handshake :
  is_bytes handshake -> zlen handshake < 2 ^ 16 -> (length handshake <= fuel)%nat ->
  finds handshake 0 (indexTLSServerNameFromHandshake fuel handshake).
Proof.
  intros Hb Hl Hf. unfold indexTLSServerNameFromHandshake.
  pose proof (lies_refl handshake) as Hr.
  destruct (Z.ltb_spec (zlen handshake) (6 + 32 + 1)); [done|]. go_step. destruct (negb _); [done|].
  do 3 go_step. cbv zeta. go_step. destruct (negb _); [done|]. u16_step. destruct (_ && _); [done|].
  destruct (go_index_inv handshake 38) as (sid & Es & Vs); [lia|]. rewrite Es. cbn [mbind res_bind].
  pose proof (Vs _ Hb) as Bs. cbn beta in Bs. unfold is_u8 in Bs.
  destruct (Z.ltb_spec (zlen handshake) (6 + 32 + 1 + sid)); [done|]. go_step.
  destruct (Z.ltb_spec (zlen r0) 2); [done|]. u16_step. specialize (V4 (F0 _ Hb)).
  destruct (Z.ltb_spec (zlen r0) (2 + v0 + 1)); [done|].
  destruct (go_index_inv r0 (2 + v0)) as (cm & Ec & Vc); [lia|]. rewrite Ec. cbn [mbind res_bind].
  pose proof (Vc _ (F0 _ Hb)) as Bc. cbn beta in Bc. unfold is_u8 in Bc.
  destruct (Z.ltb_spec (zlen handshake) (6 + 32 + 1 + sid + (2 + v0 + 1 + cm))); [done|].
  go_lies. apply (finds_shift _ r1 _ (fun _ => 6 + 32 + 1 + sid + (2 + v0 + 1 + cm))); [lia|done|].
  apply extensions_finds; [by apply F1|lia|unfold zlen in *; lia].
Qed.

Lemma index_finds payload :
  is_bytes payload -> zlen payload < 2 ^ 16 ->
  finds payload recordLayerHeaderLen (IndexTLSServerName (length payload) payload).
Proof.
  intros Hb Hl. unfold IndexTLSServerName. pose proof (lies_refl payload) as Hr.
  destruct (Z.ltb_spec (zlen payload) 5); [done|]. go_step.
  destruct (negb _); [done|]. go_step. go_step. destruct (_ <? _); [done|]. go_lies.
  destruct (handshake_finds (length payload) r0) as (o & Eo & Ho);
    [by apply F0|lia|unfold zlen in *; lia|].
  rewrite Eo. cbn [mbind res_bind]. destruct o as [s|]; [|done]. eexists. split; [done|].
  intros x [= <-]. destruct (Ho s eq_refl) as [H0 Hs]. cbn. split; [lia|].
  rewrite Z.add_comm. by eapply lies_trans.
Qed.

(** The server name is found where it is.  For a packet of less than 64 KiB
    the parser ends, never reads out of bounds, and a name it reports is the
    text at the index it reports. *)
Theorem IndexTLSServerName_finds payload :
  is_bytes payload -> zlen payload < 2 ^ 16 ->
  exists o, IndexTLSServerName (length payload) payload = Ret o /\
    forall s, o = Some s -> recordLayerHeaderLen <= Index s /\
      go_slice payload (Index s) (Index s + zlen (ServerName s)) = Ret (ServerName s).
Proof.
  intros Hb Hl. destruct (index_finds payload Hb Hl) as (o & Eo & Ho). exists o. split; [done|].
  intros s Hs. destruct (Ho s Hs) as [Hi Hat]. split; [done|]. by apply lies_slice.
Qed.

(** An extension of 65532 bytes that is not the name makes the loop stay where
    it is. *)
Lemma extension_stays exs :
  zlen exs >= 2 ^ 16 -> u16_at exs 0 = Ret 1 -> u16_at exs 2 = Ret 65532 ->
  forall fuel ci, extensions_loop fuel ci exs = Err "no result yet".
Proof.
  intros Hl H0 H2. induction fuel as [|fuel IH]; intros ci; [done|]. cbn [extensions_loop].
  rewrite (proj2 (Z.leb_gt _ _)), (proj2 (Z.ltb_ge _ 4)), H0, H2 by lia. cbn [mbind res_bind].
  rewrite (proj2 (Z.ltb_ge _ _)) by lia. go_step. cbn [Z.eqb].
  unfold skip_extension. change (u16 (4 + 65532)) with 0. rewrite go_from_ok by lia.
  cbn [mbind res_bind Z.to_nat]. rewrite drop_0. apply IH.
Qed.

(** ** The fragments make up the packet *)

(** The length of labels with dots between them. *)
Fixpoint total (l : list (list Z)) : Z :=
  match l with
  | [] => 0
  | x :: r => zlen x + match r with [] => 0 | _ => 1 + total r end
  end.

Lemma total_nonneg l : 0 <= total l.
Proof.
  induction l as [|x r IH]; [done|]. cbn [total]. pose proof (zlen_nonneg x). destruct r; lia.
Qed.

Lemma total_Split s : total (Split s) = zlen s.
Proof.
  unfold Split. induction s as [|c s IH]; [done|]. cbn [split_dots].
  destruct (split_dots s) as [first rest]. cbn [fst snd] in *. rewrite zlen_cons, <-IH.
  destruct (c =? dot); cbn [fst snd total]; [by rewrite zlen_nil|].
  rewrite zlen_cons. lia.
Qed.

Lemma total_take n l : total (take n l) <= total l.
Proof.
  revert n. induction l as [|x r IH]; intros [|n]; cbn [take]; try lia.
  - pose proof (total_nonneg (x :: r)). cbn [total] in *. lia.
  - specialize (IH n). cbn [total]. destruct r as [|y r]; [by rewrite take_nil|].
    destruct (take n (y :: r)) as [|z k] eqn:E; [|rewrite <-E in *; lia].
    pose proof (total_nonneg (y :: r)). lia.
Qed.

(** Numbers in order, up to a bound. *)
Fixpoint rising (from : Z) (l : list Z) (bound : Z) : Prop :=
  match l with
  | [] => from <= bound
  | i :: l => from <= i /\ rising i l bound
  end.

Lemma rising_weaken from from' l bound : from' <= from -> rising from l bound -> rising from' l bound.
Proof. destruct l; cbn; [lia|]. intros ? [? ?]. split; [lia|done]. Qed.

Lemma rising_bound from l bound : rising from l bound -> from <= bound.
Proof. revert from. induction l as [|j l IH]; intros from; cbn; [done|]. intros [? ?%IH]. lia. Qed.

Section fragments.
Context {L : FragmentLib} {FL : FragmentLaws L}.

Lemma split_indexes_rising k splits ci bound :
  Forall (fun x => x <> []) splits -> ci + total splits <= bound ->
  exists l, split_indexes k splits ci = Ret l /\ rising ci l bound /\ length l = length splits.
Proof.
  intros Hne. revert k ci. induction Hne as [|x splits Hx _ IH]; intros k ci Hb; cbn [split_indexes].
  - exists []. cbn in *. split; [done|]. split; [lia|done].
  - cbn [length]. assert (Hlen : 0 < zlen x) by (destruct x; [done|]; rewrite zlen_cons; pose proof (zlen_nonneg x); lia).
    rewrite (proj2 (Z.leb_gt _ _)) by lia. pose proof (Intn_range k (zlen x) Hlen).
    set (next := ci + zlen x + match splits with [] => 0 | _ => 1 end).
    destruct (IH (S k) next) as (l & -> & Hr & Hn).
    { subst next. cbn [total] in Hb. destruct splits; cbn [total] in *; lia. }
    cbn [mbind res_bind]. eexists. split; [done|]. cbn [length]. rewrite Hn.
    split; [|done]. cbn [rising]. split; [lia|].
    eapply rising_weaken; [|done]. subst next. destruct splits; lia.
Qed.

Lemma pieces_concat b from l :
  0 <= from -> rising from l (zlen b) ->
  exists ps, pieces b from l = Ret ps /\ concat ps = drop (Z.to_nat from) b /\ length ps = S (length l).
Proof.
  revert from. induction l as [|i l IH]; intros from Hf Hr; cbn [pieces rising] in *.
  - rewrite go_from_ok by lia. cbn [mbind res_bind]. eexists. split; [done|]. cbn [concat].
    by rewrite app_nil_r.
  - destruct Hr as [Hi Hr]. assert (Hib : i <= zlen b) by (by eapply rising_bound).
    rewrite go_slice_ok by lia. cbn [mbind res_bind].
    destruct (IH i) as (ps & -> & Hc & Hn); [lia|done|]. cbn [mbind res_bind]. eexists. split; [done|].
    cbn [concat length]. rewrite Hc, Hn. split; [|done].
    replace (Z.to_nat i) with (Z.to_nat from + Z.to_nat (i - from))%nat by lia.
    by rewrite <-drop_drop, take_drop.
Qed.

End fragments.

(** What the other side reads: the records of a stream. *)
Fixpoint read_records (fuel : nat) (l : list Z) : option (list (list Z * list Z)) :=
  match fuel with
  | O => None
  | S fuel =>
    if zlen l =? 0 then Some [] else
    if zlen l <? 5 then None else
    let n := get_be (take 2 (drop 3 l)) in
    if zlen l <? 5 + n then None else
    match read_records fuel (drop (Z.to_nat (5 + n)) l) with
    | Some r => Some ((take 3 l, take (Z.to_nat n) (drop 5 l)) :: r)
    | None => None
    end
  end.

Lemma read_frame fuel h p rest r :
  length h = 3%nat -> zlen p < 2 ^ 16 -> read_records fuel rest = Some r ->
  read_records (S fuel) (h ++ put_be 2 (u16 (zlen p)) ++ p ++ rest) = Some ((h, p) :: r).
Proof.
  intros Hh Hp Hr. pose proof (zlen_nonneg p). pose proof (zlen_nonneg rest).
  rewrite u16_id by (unfold is_u16; lia). set (l := h ++ _).
  assert (Hl : zlen l = 5 + zlen p + zlen rest).
  { subst l. rewrite !zlen_app, zlen_put_be. unfold zlen in *. lia. }
  assert (Hn : get_be (take 2 (drop 3 l)) = zlen p).
  { subst l. rewrite <-Hh, drop_app_length, take_app_length' by (by rewrite length_put_be).
    rewrite get_put_be. apply Z.mod_small. change (256 ^ Z.of_nat 2) with (2 ^ 16). lia. }
  assert (H5 : drop 5 l = p ++ rest).
  { subst l. rewrite app_assoc. apply drop_app_length'. by rewrite length_app, length_put_be, Hh. }
  assert (H3 : take 3 l = h) by (subst l; by apply take_app_length').
  clearbody l. cbn [read_records]. rewrite Hn, H3, H5.
  rewrite (proj2 (Z.eqb_neq _ _)), !(proj2 (Z.ltb_ge _ _)) by lia.
  replace (Z.to_nat (5 + zlen p)) with (5 + length p)%nat by (unfold zlen; lia).
  rewrite <-drop_drop, H5, drop_app_length, Hr. unfold zlen. by rewrite Nat2Z.id, take_app_length.
Qed.

Lemma read_frames b payloads fuel :
  3 <= zlen b -> Forall (fun p => zlen p < 2 ^ 16) payloads -> (length payloads < fuel)%nat ->
  exists l, frames b payloads = Ret l /\
    read_records fuel (concat l) = Some (map (pair (take 3 b)) payloads).
Proof.
  intros Hb Hf. revert fuel. induction Hf as [|p payloads Hp _ IH]; intros fuel Hn; cbn [frames].
  - exists []. split; [done|]. destruct fuel; [cbn in Hn; lia|done].
  - destruct fuel as [|fuel]; [cbn in Hn; lia|]. destruct (IH fuel) as (l & -> & Hl); [cbn in Hn; lia|].
    unfold frame. rewrite go_slice_ok by lia. change (take _ _) with (take 3 b).
    cbn [mbind res_bind]. eexists. split; [done|].
    cbn [concat map]. rewrite <-!app_assoc. apply read_frame; [|done|done].
    rewrite length_take. unfold zlen in Hb. lia.
Qed.

Section fragment_theorem.
Context {L : FragmentLib} {FL : FragmentLaws L}.

(** The labels to cut lie in the name. *)
Lemma split_labels_total s ls ci :
  split_labels s = Ret (ls, ci) -> Index s <= ci /\ ci + total ls <= Index s + zlen (ServerName s).
Proof.
  unfold split_labels. rewrite <-(total_Split (ServerName s)).
  set (all := Split (ServerName s)).
  assert (Hsp : forall splits, (if decide (PublicSuffix (ServerName s) = []) then Ret all
    else go_slice all 0 (zlen all - count_dots (ServerName s))) = Ret splits -> total splits <= total all).
  { intros splits. destruct (decide _); [by intros <-%Ret_inj|]. unfold go_slice.
    destruct (_ && _); [|done]. intros <-%Ret_inj. rewrite drop_0. apply total_take. }
  destruct (if decide _ then _ else _) as [splits| |]; [|done..]. specialize (Hsp _ eq_refl).
  change (mbind ?k (Ret splits)) with (k splits). cbv beta.
  destruct splits as [|first [|second rest]]; [intros [= <- <-]; lia..|].
  destruct (decide _); intros [= <- <-]; [|lia]. pose proof (zlen_nonneg first).
  cbn [total] in *. lia.
Qed.

Lemma sent_all chunks : send (fun _ => None) 0 chunks = (chunks, None).
Proof.
  assert (H : forall k, send (fun _ => None) k chunks = (chunks, None)); [|done].
  induction chunks as [|x chunks IH]; intros k; [done|]. cbn [send]. by rewrite IH.
Qed.

(** C19: the fragments make up the packet.  When no write and no option of the
    socket fails and the labels to cut are not empty, the first packet of a connection is sent whole: cut
    into packets, the pieces concatenate to it; cut into records, the stream
    reads as records of its type and version whose contents concatenate to
    its handshake.  The connection is then done with cutting. *)
Theorem Write_reassembles c b s ls ci :
  is_bytes b -> zlen b < 2 ^ 16 -> firstPacketWritten c = false -> splitPacket c || splitRecord c = true ->
  IndexTLSServerName (length b) b = Ret (Some s) ->
  split_labels s = Ret (ls, ci) -> ls <> [] -> Forall (fun l => l <> []) ls ->
  exists sent, Write (length b) (fun _ => None) c b =
      Ret (mkConn true (splitPacket c) (splitRecord c), sent, Ret (zlen b)) /\
    if splitRecord c
    then exists payloads, read_records (S (S (length ls))) (concat sent) =
           Some (map (pair (take 3 b)) payloads) /\ concat payloads = drop 5 b
    else concat sent = b.
Proof.
  intros Hb Hl Hc Hsplit Hi Hls Hne Hlabels.
  destruct (index_finds b Hb Hl) as (o & Eo & Ho). rewrite Hi in Eo. apply Ret_inj in Eo as <-.
  destruct (Ho s eq_refl) as [H5 (pre & post & Epre & Hpre)]. apply split_labels_total in Hls as Htot.
    destruct (split_indexes_rising 0 ls ci (zlen b)) as (idx & Eidx & Hrise & Hidx); [done| |].
  { apply (f_equal zlen) in Epre. rewrite !zlen_app in Epre. pose proof (zlen_nonneg post). lia. }
  destruct idx as [|i idx]; [by destruct ls|]. cbn [rising] in Hrise. destruct Hrise as [Hci Hrise].
  destruct (pieces_concat b 0 (i :: idx)) as (ps & Eps & Hconcat & Hlen); [lia|split; [lia|done]|].
  rewrite drop_0 in Hconcat. destruct ps as [|first rest]; [done|].
  unfold Write. rewrite Hc, Hi. cbn [mbind res_bind]. unfold fragments. rewrite Hls.
  cbn [mbind res_bind fst snd]. rewrite Eidx. cbn [mbind res_bind]. rewrite Eps. cbn [mbind res_bind].
  destruct (splitRecord c) eqn:Er.
  - assert (Hfirst : 5 <= zlen first).
    { cbn [pieces] in Eps. revert Eps. assert (Hib : i <= zlen b) by (by eapply rising_bound).
      rewrite go_slice_ok by lia. cbn [mbind res_bind]. destruct (pieces b i idx); [|done..].
      cbn [mbind res_bind]. intros [= <- <-]. rewrite drop_0. unfold zlen in *. rewrite length_take. lia. }
    rewrite go_from_ok by lia. cbn [mbind res_bind].
    set (payloads := drop _ first :: rest).
    assert (Hp : concat payloads = drop 5 b).
    { subst payloads. rewrite <-Hconcat. cbn [concat]. rewrite drop_app_le; [done|].
      unfold zlen in Hfirst. lia. }
    destruct (read_frames b payloads (S (S (length ls)))) as (l & -> & Hrec).
    + unfold zlen in *. apply (f_equal length) in Hconcat. cbn [concat] in Hconcat.
      rewrite length_app in Hconcat. lia.
    + rewrite Forall_forall. intros x Hx. apply Z.le_lt_trans with (zlen b); [|done].
      unfold zlen. apply inj_le. transitivity (length (drop 5 b)); [|rewrite length_drop; lia].
      rewrite <-Hp. clear -Hx. induction payloads as [|y ys IH]; [by apply elem_of_nil in Hx|].
      cbn [concat]. rewrite length_app. apply elem_of_cons in Hx as [->|Hx]; [lia|].
      specialize (IH Hx). lia.
    + subst payloads. cbn [length] in *. lia.
    + cbn [mbind res_bind]. rewrite sent_all. eexists. split; [done|]. exists payloads.
      split; [|done]. destruct (splitPacket c); [done|]. cbn [concat]. by rewrite app_nil_r.
  - rewrite orb_false_r in Hsplit. rewrite Hsplit. cbn [mbind res_bind]. rewrite sent_all.
    by eexists.
Qed.

End fragment_theorem.

Section raising.
Context {L : FragmentLib}.

(** An empty label cannot be cut: a name that is empty or starts with a dot
    makes the first write raise. *)
Lemma empty_label_raises fuel fails c b s ls ci :
  firstPacketWritten c = false -> IndexTLSServerName fuel b = Ret (Some s) ->
  split_labels s = Ret ([] :: ls, ci) -> Write fuel fails c b = Panic.
Proof.
  intros Hc Hi Hs. unfold Write. rewrite Hc, Hi. cbn [mbind res_bind]. unfold fragments. by rewrite Hs.
Qed.

(** [Intn] may be 0: the only cut is then before the name, which stays whole in
    the second piece. *)
Lemma cut_before_name b s l :
  lies b (Index s) (ServerName s) -> l <> [] -> Intn 0 (zlen l) = 0 ->
  exists first rest, split_indexes 0 [l] (Index s) = Ret [Index s] /\
    pieces b 0 [Index s] = Ret [first; ServerName s ++ rest].
Proof.
  intros (pre & post & -> & Hp) Hl Hi. exists pre, post. cbn [split_indexes pieces].
  assert (0 < zlen l) by (destruct l; [done|]; rewrite zlen_cons; pose proof (zlen_nonneg l); lia).
  rewrite (proj2 (Z.leb_gt _ _)), Hi, Z.add_0_r by lia. split; [done|].
  by rewrite <-Hp, go_slice_app, go_from_app.
Qed.

End raising.

(** ** Witnesses *)

Definition demo_hello (name : list Z) : list Z :=
  let sni := put_be 2 (zlen name + 3) ++ [0] ++ put_be 2 (zlen name) ++ name in
  let exts := put_be 2 0 ++ put_be 2 (zlen sni) ++ sni in
  let body := [3; 3] ++ repeat 7 32 ++ [0] ++ [0; 2; 19; 1] ++ [1; 0] ++ put_be 2 (zlen exts) ++ exts in
  let handshake := [1] ++ put_be 3 (zlen body) ++ body in
  [22; 3; 1] ++ put_be 2 (zlen handshake) ++ handshake.

(** [ab.org]. *)
Definition demo_name : list Z := [97; 98; 46; 111; 114; 103].

Definition demo_fragment : FragmentLib := {| PublicSuffix _ := [111; 114; 103]; Intn _ n := n - 1 |}.

Definition demo_found : MyServerName := mkServerName 61 6 demo_name 50.

Lemma demo_hello_bytes : is_bytes (demo_hello demo_name).
Proof.
  assert (H : forallb (fun b => (0 <=? b) && (b <? 256)) (demo_hello demo_name) = true) by reflexivity.
  apply Forall_forall. intros x Hx. rewrite forallb_forall in H. apply list_elem_of_In, H in Hx.
  apply andb_true_iff in Hx as [?%Z.leb_le ?%Z.ltb_lt]. split; assumption.
Qed.

Lemma IndexTLSServerName_finds_witness :
  exists o, IndexTLSServerName (length (demo_hello demo_name)) (demo_hello demo_name) = Ret o /\
    forall s, o = Some s -> recordLayerHeaderLen <= Index s /\
      go_slice (demo_hello demo_name) (Index s) (Index s + zlen (ServerName s)) = Ret (ServerName s).
Proof. apply (IndexTLSServerName_finds (demo_hello demo_name)); [apply demo_hello_bytes|reflexivity]. Defined.

Lemma Write_reassembles_witness :
  exists sent, Write (L := demo_fragment) (length (demo_hello demo_name)) (fun _ => None)
      (mkConn false true true) (demo_hello demo_name) =
      Ret (mkConn true true true, sent, Ret (zlen (demo_hello demo_name))) /\
    exists payloads, read_records 3 (concat sent) =
      Some (map (pair (take 3 (demo_hello demo_name))) payloads) /\
      concat payloads = drop 5 (demo_hello demo_name).
Proof.
  assert (HL : FragmentLaws demo_fragment) by (split; cbn; lia).
  apply (@Write_reassembles demo_fragment HL (mkConn false true true) (demo_hello demo_name) demo_found
    [[97; 98]] 61); [apply demo_hello_bytes|reflexivity|reflexivity|reflexivity|vm_compute; reflexivity|
    reflexivity|discriminate|].
  constructor; [discriminate|constructor].
Defined.
