(* ===== verification/Sniff.v ===== *)
(** * Protocol sniffing (src/common/sniff/sniff.go, bittorrent.go, dtls.go,
    stun.go, ntp.go, rdp.go, ssh.go, dns.go)

    A sniffer looks at the first bytes of a stream, or at a packet, and tells
    the protocol, that it needs more data, or that it is another protocol.  A
    stream is tried again whenever more of it arrives.  TLS, HTTP and QUIC
    are recognised by other packages' parsers and are not modelled. *)

From S2P Require Import Prelude.

(** The result of a sniffer: no error and the protocol and the client it has
    set (empty when it leaves them as they are), [ErrNeedMoreData], or another
    error. *)
Inductive verdict :=
| Sniffed (protocol client : string)
| NeedMore
| Invalid.

Definition ProtocolBitTorrent : string := "bittorrent".
Definition ProtocolDTLS : string := "dtls".
Definition ProtocolSTUN : string := "stun".
Definition ProtocolNTP : string := "ntp".
Definition ProtocolRDP : string := "rdp".
Definition ProtocolSSH : string := "ssh".
Definition ProtocolDNS : string := "dns".

(** ** Readers

    An [io.MultiReader] over buffers: the bytes that are there, buffer by
    buffer; after them comes the end. *)
Definition Reader := list (list Z).

(** The reader after [n] bytes of it. *)
Fixpoint skip_bytes (n : nat) (r : Reader) : Reader :=
  match r with
  | [] => []
  | b :: r => if (length b <=? n)%nat then skip_bytes (n - length b) r else drop n b :: r
  end.

(** [io.ReadFull] of [n] bytes; [None] when they are not there. *)
Definition read_full (n : nat) (r : Reader) : option (list Z * Reader) :=
  let data := concat r in
  if (length data <? n)%nat then None else Some (take n data, skip_bytes n r).

(** [Read] into [n] bytes: at most what the first buffer that is not empty
    has; nothing at the end. *)
Fixpoint read_once (n : nat) (r : Reader) : list Z :=
  match r with
  | [] => []
  | [] :: r => read_once n r
  | b :: _ => take n b
  end.

Definition read_byte (r : Reader) : option (Z * Reader) :=
  match read_full 1 r with
  | Some ([b], r) => Some (b, r)
  | _ => None
  end.

(** ** Stream sniffers *)

Definition bt_header : list Z := bytes_of "BitTorrent protocol".

Definition BitTorrent (r : Reader) : res verdict :=
  match read_byte r with
  | None => Ret NeedMore
  | Some (first, r) =>
    if negb (first =? 19) then Ret Invalid else
    let protocol := read_once 19 r in
    let n := length protocol in
    if negb (bool_decide (protocol = take n bt_header)) then Ret Invalid else
    if (n =? 0)%nat then Ret NeedMore else
    if (n <? 19)%nat then Ret NeedMore else
    Ret (Sniffed ProtocolBitTorrent EmptyString)
  end.

Definition sshPrefix : list Z := bytes_of "SSH-2.0-".

(** [bufio.Reader.ReadLine] with its buffer of 4096 bytes: the first line
    without its end, or what there is of it. *)
Definition newline : Z := 10.
Definition carriage : Z := 13.

Fixpoint until_newline (bs : list Z) : list Z * bool :=
  match bs with
  | [] => ([], false)
  | b :: bs => if b =? newline then ([], true) else let '(l, f) := until_newline bs in (b :: l, f)
  end.

Definition strip_carriage (l : list Z) : list Z :=
  match last l with
  | Some b => if b =? carriage then removelast l else l
  | None => l
  end.

Definition read_line (bs : list Z) : list Z :=
  let window := take 4096 bs in
  let '(l, found) := until_newline window in
  if found then strip_carriage l
  else if (4096 <=? length bs)%nat then strip_carriage l else l.

Definition SSH (r : Reader) : res verdict :=
  let data := concat r in
  let prefix := take 8 data in
  if negb (bool_decide (prefix = take (length prefix) sshPrefix)) then Ret Invalid else
  if (length prefix <? 8)%nat then Ret NeedMore else
  client ← go_from (read_line data) 8;
  Ret (Sniffed ProtocolSSH (string_of client)).

(** A byte that must have a value. *)
Definition expect (value : Z) (r : Reader) (k : Reader -> verdict) : verdict :=
  match read_byte r with
  | None => NeedMore
  | Some (b, r) => if negb (b =? value) then Invalid else k r
  end.

Definition RDP (r : Reader) : res verdict :=
  Ret (expect 0x03 r (fun r => expect 0x00 r (fun r =>
    match read_full 2 r with
    | None => NeedMore
    | Some (tpktLength, r) =>
      if negb (get_be tpktLength =? 19) then Invalid else
      expect 14 r (fun r => expect 0xE0 r (fun r =>
        match read_full 5 r with
        | None => NeedMore
        | Some (_, r) =>
          expect 0x01 r (fun r =>
            match read_byte r with
            | None => NeedMore
            | Some (_, r) => expect 8 r (fun _ => Sniffed ProtocolRDP EmptyString)
            end)
        end))
    end))).

(** *** DNS *)

(** [Msg.Unpack] of github.com/miekg/dns: whether it is a response, and the
    numbers of questions, answers and authorities. *)
Class DnsLib := { Unpack : list Z -> option (bool * Z * Z * Z) }.

Section dns.
Context {DL : DnsLib}.

(** A message that unpacks and is no query gives no error and no protocol. *)
Definition DomainNameQuery (packet : list Z) : res verdict :=
  match Unpack packet with
  | None => Ret Invalid
  | Some (response, questions, answers, authorities) =>
    if response || (questions =? 0) || (0 <? answers) || (0 <? authorities)
    then Ret (Sniffed EmptyString EmptyString)
    else Ret (Sniffed ProtocolDNS EmptyString)
  end.

(** [n > i && packet[i] satisfies p]. *)
Definition byte_there (packet : list Z) (i : nat) (p : Z -> bool) : bool :=
  match packet !! i with Some b => p b | None => false end.

Definition StreamDomainNameQuery (r : Reader) : res verdict :=
  match read_full 2 r with
  | None => Ret NeedMore
  | Some (l, r) =>
    let length := get_be l in
    if length <? 12 then Ret Invalid else
    let packet := take (Z.to_nat length) (concat r) in
    if byte_there packet 2 (fun b => negb (Z.land b 0x80 =? 0)) then Ret Invalid else
    if byte_there packet 4 (fun b => b =? 0) && byte_there packet 5 (fun b => b =? 0) then Ret Invalid else
    if existsb (fun i => byte_there packet i (fun b => negb (b =? 0))) [6; 7; 8; 9]%nat then Ret Invalid else
    if zlen packet <? length then Ret NeedMore else DomainNameQuery packet
  end.

End dns.

(** ** Packet sniffers *)

(** The extensions of a uTP packet; [Seek] may go past the end, where the next
    read fails. *)
Fixpoint utp_extensions (fuel : nat) (extension : Z) (rest : list Z) : res verdict :=
  if extension =? 0 then Ret (Sniffed ProtocolBitTorrent EmptyString) else
  match fuel with
  | O => Panic
  | S fuel =>
    match rest with
    | [] => Ret Invalid
    | extension :: rest =>
      if 0x04 <? extension then Ret Invalid else
      match rest with
      | [] => Ret Invalid
      | length :: rest => utp_extensions fuel extension (drop (Z.to_nat length) rest)
      end
    end
  end.

Definition UTP (packet : list Z) : res verdict :=
  if zlen packet <? 20 then Ret Invalid else
  p0 ← go_index packet 0;
  let version := Z.land p0 0x0F in
  let ty := Z.shiftr p0 4 in
  if negb (version =? 1) || (4 <? ty) then Ret Invalid else
  extension ← go_index packet 1;
  rest ← go_from packet 20;
  utp_extensions (length packet) extension rest.

Definition UDPTracker (packet : list Z) : res verdict :=
  if zlen packet <? 16 then Ret Invalid else
  id ← go_slice packet 0 8; id ← go_be 8 id;
  if negb (id =? 0x41727101980) then Ret Invalid else
  flag ← go_slice packet 8 12; flag ← go_be 4 flag;
  if negb (flag =? 0) then Ret Invalid else
  Ret (Sniffed ProtocolBitTorrent EmptyString).

Definition DTLSRecord (packet : list Z) : res verdict :=
  if zlen packet <? 13 then Ret Invalid else
  contentType ← go_index packet 0;
  if negb (bool_decide (contentType ∈ [20; 21; 22; 23; 25])) then Ret Invalid else
  versionMajor ← go_index packet 1;
  if negb (versionMajor =? 0xfe) then Ret Invalid else
  versionMinor ← go_index packet 2;
  if negb (versionMinor =? 0xff) && negb (versionMinor =? 0xfd) then Ret Invalid else
  Ret (Sniffed ProtocolDTLS EmptyString).

Definition STUNMessage (packet : list Z) : res verdict :=
  if zlen packet <? 20 then Ret Invalid else
  cookie ← go_slice packet 4 8; cookie ← go_be 4 cookie;
  if negb (cookie =? 0x2112A442) then Ret Invalid else
  len ← go_slice packet 2 4; len ← go_be 2 len;
  if zlen packet <? 20 + len then Ret Invalid else
  Ret (Sniffed ProtocolSTUN EmptyString).

(** [float64(x)/65536.0 > 16.0] is exact: [x > 16 * 65536]. *)
Definition NTP (packet : list Z) : res verdict :=
  if zlen packet <? 48 then Ret Invalid else
  firstByte ← go_index packet 0;
  let li := Z.land (Z.shiftr firstByte 6) 0x03 in
  let vn := Z.land (Z.shiftr firstByte 3) 0x07 in
  let mode := Z.land firstByte 0x07 in
  if 3 <? li then Ret Invalid else
  if negb (vn =? 3) && negb (vn =? 4) then Ret Invalid else
  if negb (mode =? 3) then Ret Invalid else
  rootDelay ← go_slice packet 4 8; rootDelay ← go_be 4 rootDelay;
  rootDispersion ← go_slice packet 8 12; rootDispersion ← go_be 4 rootDispersion;
  if 16 * 65536 <? rootDelay then Ret Invalid else
  if 16 * 65536 <? rootDispersion then Ret Invalid else
  Ret (Sniffed ProtocolNTP EmptyString).

(** ** Trying sniffers *)

(** The errors of the sniffers that were tried, joined: no error when there
    was none to try, and [ErrNeedMoreData] when one of them is. *)
Definition joined (errors : option bool) : verdict :=
  match errors with
  | None => Sniffed EmptyString EmptyString
  | Some true => NeedMore
  | Some false => Invalid
  end.

Definition join (errors : option bool) (more : bool) : option bool :=
  Some (more || default false errors).

(** The first sniffer that succeeds, and otherwise the joined errors. *)
Fixpoint try_sniffers {A} (sniffers : list (A -> res verdict)) (x : A) (errors : option bool) : res verdict :=
  match sniffers with
  | [] => Ret (joined errors)
  | sniffer :: sniffers =>
    v ← sniffer x;
    match v with
    | Sniffed p c => Ret (Sniffed p c)
    | NeedMore => try_sniffers sniffers x (join errors true)
    | Invalid => try_sniffers sniffers x (join errors false)
    end
  end.

Definition PeekPacket (sniffers : list (list Z -> res verdict)) (packet : list Z) : res verdict :=
  try_sniffers sniffers packet None.

(** [PeekStream]: [arrivals] are the reads of the connection until it fails or
    the time is over. *)
Fixpoint PeekStream_loop (sniffers : list (Reader -> res verdict)) (buffers : Reader) (buffer : list Z)
    (sniffError : res verdict) (arrivals : list (list Z)) : res verdict :=
  match arrivals with
  | [] => sniffError
  | a :: arrivals =>
    let buffer := buffer ++ a in
    v ← try_sniffers sniffers (buffers ++ [buffer]) None;
    match v with
    | NeedMore => PeekStream_loop sniffers buffers buffer (Ret NeedMore) arrivals
    | v => Ret v
    end
  end.

Definition PeekStream (sniffers : list (Reader -> res verdict)) (buffers : Reader)
    (arrivals : list (list Z)) : res verdict :=
  PeekStream_loop sniffers buffers [] (Err "read payload") arrivals.

(** [Skip]: the ports of protocols where the server speaks first. *)
Definition Skip (port : Z) : bool := bool_decide (port ∈ [25; 465; 587; 143; 993; 110; 995]).

(** ** Reading lemmas *)

Lemma concat_skip_bytes n r : concat (skip_bytes n r) = drop n (concat r).
Proof.
  revert n. induction r as [|b r IH]; intros n; simpl; [by destruct n|].
  destruct (Nat.leb_spec (length b) n).
  - by rewrite IH, drop_app_ge.
  - simpl. by rewrite drop_app_le by lia.
Qed.

Lemma read_full_Some n r l r' :
  read_full n r = Some (l, r') -> l = take n (concat r) /\ concat r' = drop n (concat r) /\ (n <= length (concat r))%nat.
Proof.
  unfold read_full. destruct (Nat.ltb_spec (length (concat r)) n); [done|].
  intros [= <- <-]. by rewrite concat_skip_bytes.
Qed.

Lemma read_byte_eq r :
  match concat r with
  | [] => read_byte r = None
  | b :: bs => exists r', read_byte r = Some (b, r') /\ concat r' = bs /\ r' = skip_bytes 1 r
  end.
Proof.
  unfold read_byte, read_full. pose proof (concat_skip_bytes 1 r) as H.
  destruct (concat r) as [|b bs]; simpl in *; [done|].
  eauto.
Qed.

(** ** Verdicts are stable

    A verdict other than [NeedMore] does not change when more of the stream is
    there (but the client may be longer). *)

Definition extends (v v' : verdict) : Prop :=
  match v with
  | Sniffed p _ => exists c, v' = Sniffed p c
  | Invalid => v' = Invalid
  | NeedMore => True
  end.

Lemma extends_refl v : extends v v.
Proof. destruct v; simpl; eauto. Qed.

(** A reader continuation whose verdict depends on the bytes only, and is
    stable. *)
Definition stable_from (k : Reader -> verdict) : Prop :=
  forall r r' e, concat r' = concat r ++ e -> extends (k r) (k r').

Lemma expect_stable value k : stable_from k -> stable_from (fun r => expect value r k).
Proof.
  intros Hk r r' e Heq. unfold expect. pose proof (read_byte_eq r) as H. pose proof (read_byte_eq r') as H'.
  destruct (concat r) as [|b bs]; [by rewrite H|]. rewrite Heq in H'. simpl in H'.
  destruct H as (q & -> & Hq & _), H' as (q' & -> & Hq' & _).
  destruct (negb (b =? value)); [done|]. eapply Hk. by rewrite Hq', Hq.
Qed.

Lemma any_byte_stable k :
  stable_from k ->
  stable_from (fun r => match read_byte r with None => NeedMore | Some (_, r) => k r end).
Proof.
  intros Hk r r' e Heq. pose proof (read_byte_eq r) as H. pose proof (read_byte_eq r') as H'.
  destruct (concat r) as [|b bs]; [by rewrite H|]. rewrite Heq in H'. simpl in H'.
  destruct H as (q & -> & Hq & _), H' as (q' & -> & Hq' & _). eapply Hk. by rewrite Hq', Hq.
Qed.

Lemma read_full_stable n k :
  (forall l, stable_from (k l)) ->
  stable_from (fun r => match read_full n r with None => NeedMore | Some (l, r) => k l r end).
Proof.
  intros Hk r r' e Heq. unfold read_full. rewrite Heq, length_app.
  destruct (Nat.ltb_spec (length (concat r)) n); [done|].
  destruct (Nat.ltb_spec (length (concat r) + length e) n); [lia|].
  rewrite take_app_le by lia. apply (Hk _ _ _ e). rewrite !concat_skip_bytes, Heq.
  by rewrite drop_app_le by lia.
Qed.

Lemma const_stable v : stable_from (fun _ => v).
Proof. intros r r' e _. apply extends_refl. Qed.

#[local] Hint Resolve expect_stable any_byte_stable const_stable : core.

Definition stable (sniffer : Reader -> res verdict) : Prop :=
  forall d, exists v, sniffer [d] = Ret v /\
    forall e, exists v', sniffer [d ++ e] = Ret v' /\ extends v v'.

Lemma RDP_stable : stable RDP.
Proof.
  intros d. eexists. split; [reflexivity|]. intros e. eexists. split; [reflexivity|].
  assert (Hs : stable_from (fun r => match RDP r with Ret v => v | _ => Invalid end)).
  { apply expect_stable, expect_stable, read_full_stable. intros l.
    destruct (negb (get_be l =? 19)); [auto|].
    apply expect_stable, expect_stable, read_full_stable. auto. }
  apply (Hs [d] [d ++ e] e). simpl. by rewrite !app_nil_r.
Qed.

(** What [BitTorrent] reads of one buffer. *)
Lemma BitTorrent_eq first d :
  BitTorrent [first :: d] =
  let protocol := take 19 d in
  Ret (if negb (first =? 19) then Invalid else
       if negb (bool_decide (protocol = take (length protocol) bt_header)) then Invalid else
       if (length protocol <? 19)%nat then NeedMore else Sniffed ProtocolBitTorrent EmptyString).
Proof.
  unfold BitTorrent, read_byte, read_full. simpl.
  destruct (negb (first =? 19)); [done|].
  destruct d as [|b d]; [done|]. simpl. destruct (negb _); [done|]. by destruct (_ <? _)%nat.
Qed.

(** A header that does not match so far does not match later. *)
Lemma mismatch_stays n (header d e : list Z) :
  take n d <> take (length (take n d)) header ->
  take n (d ++ e) <> take (length (take n (d ++ e))) header.
Proof.
  rewrite firstn_app. intros H1 H2. apply H1.
  apply (f_equal (take (length (take n d)))) in H2.
  rewrite take_app_length, take_take, length_app, Nat.min_l in H2 by lia. done.
Qed.

Lemma take_enough n (d e : list Z) : (n <= length (take n d))%nat -> take n (d ++ e) = take n d.
Proof. rewrite length_take. intros. by rewrite take_app_le by lia. Qed.

Lemma BitTorrent_stable : stable BitTorrent.
Proof.
  intros [|first d].
  { exists NeedMore. split; [done|]. intros [|f e]; [by exists NeedMore|].
    simpl. rewrite BitTorrent_eq. simpl. eauto. }
  rewrite BitTorrent_eq. eexists. split; [reflexivity|]. intros e. simpl ((first :: d) ++ e).
  rewrite BitTorrent_eq. eexists. split; [reflexivity|]. cbv zeta.
  destruct (negb (first =? 19)); [done|].
  case_bool_decide as H1; simpl.
  - destruct (Nat.ltb_spec (length (take 19 d)) 19); [done|]. rewrite take_enough by done.
    rewrite bool_decide_eq_true_2 by done. simpl.
    destruct (Nat.ltb_spec (length (take 19 d)) 19); [lia|]. eauto.
  - rewrite bool_decide_eq_false_2; [done|]. by apply mismatch_stays.
Qed.

(** The line of a stream that begins with the SSH prefix has it, so that the
    client can be cut out. *)
Lemma strip_carriage_prefix pre c l :
  c <> carriage -> exists l', strip_carriage ((pre ++ [c]) ++ l) = (pre ++ [c]) ++ l'.
Proof.
  intros Hc. unfold strip_carriage. destruct l as [|b l] using rev_ind.
  - rewrite app_nil_r, last_snoc. destruct (Z.eqb_spec c carriage); [done|]. exists []. by rewrite app_nil_r.
  - clear IHl. rewrite app_assoc, last_snoc, removelast_last.
    destruct (b =? carriage); [by exists l|]. exists (l ++ [b]). by rewrite app_assoc.
Qed.

Lemma read_line_prefix rest : exists l, read_line (sshPrefix ++ rest) = sshPrefix ++ l.
Proof.
  unfold read_line. rewrite firstn_app, (take_ge sshPrefix) by (change (length sshPrefix) with 8%nat; lia).
  set (w := take _ rest). clearbody w.
  assert (Hu : until_newline (sshPrefix ++ w) = (sshPrefix ++ (until_newline w).1, (until_newline w).2)).
  { unfold sshPrefix, bytes_of. simpl. by destruct (until_newline w). }
  rewrite Hu. destruct (until_newline w) as [l f]. simpl fst. simpl snd.
  destruct (strip_carriage_prefix (removelast sshPrefix) 45 l) as (l' & Hl); [done|].
  change (removelast sshPrefix ++ [45]) with sshPrefix in Hl. rewrite Hl.
  destruct f; [eauto|]. destruct (_ <=? _)%nat; eauto.
Qed.

Lemma SSH_eq d :
  exists c, SSH [d] =
  Ret (if negb (bool_decide (take 8 d = take (length (take 8 d)) sshPrefix)) then Invalid else
       if (length (take 8 d) <? 8)%nat then NeedMore else Sniffed ProtocolSSH c).
Proof.
  unfold SSH. simpl concat. rewrite app_nil_r. cbv zeta.
  case_bool_decide as H1; simpl; [|by exists EmptyString].
  destruct (Nat.ltb_spec (length (take 8 d)) 8) as [|H2]; [by exists EmptyString|].
  rewrite (take_ge sshPrefix) in H1 by (change (length sshPrefix) with 8%nat; lia).
  rewrite <- (take_drop 8 d), H1. destruct (read_line_prefix (drop 8 d)) as (l & ->).
  rewrite go_from_app by done. eauto.
Qed.

Lemma SSH_stable : stable SSH.
Proof.
  intros d. destruct (SSH_eq d) as (c & ->). eexists. split; [done|]. intros e.
  destruct (SSH_eq (d ++ e)) as (c' & ->). eexists. split; [done|].
  case_bool_decide as H1; simpl.
  - destruct (Nat.ltb_spec (length (take 8 d)) 8); [done|]. rewrite take_enough by done.
    rewrite bool_decide_eq_true_2 by done. simpl.
    destruct (Nat.ltb_spec (length (take 8 d)) 8); [lia|]. simpl. eauto.
  - rewrite bool_decide_eq_false_2; [done|]. by apply mismatch_stays.
Qed.

Section dns_stable.
Context {DL : DnsLib}.

(** What [StreamDomainNameQuery] refuses in the part of the header it has. *)
Definition malformed (packet : list Z) : bool :=
  byte_there packet 2 (fun b => negb (Z.land b 0x80 =? 0))
  || (byte_there packet 4 (fun b => b =? 0) && byte_there packet 5 (fun b => b =? 0))
  || existsb (fun i => byte_there packet i (fun b => negb (b =? 0))) [6; 7; 8; 9]%nat.

Lemma byte_there_more packet e i p :
  byte_there packet i p = true -> byte_there (packet ++ e) i p = true.
Proof.
  unfold byte_there. destruct (packet !! i) eqn:Hi; [|done].
  by rewrite (lookup_app_l_Some _ _ _ _ Hi).
Qed.

Lemma malformed_more packet e : malformed packet = true -> malformed (packet ++ e) = true.
Proof.
  unfold malformed. rewrite !orb_true_iff, !andb_true_iff, !existsb_exists.
  intros [[H|[H1 H2]]|(i & Hi & H)]; [left; left|left; right; split|right; exists i; split];
    eauto using byte_there_more.
Qed.

Definition DomainNameQuery_verdict (packet : list Z) : verdict :=
  match DomainNameQuery packet with Ret v => v | _ => Invalid end.

Lemma StreamDomainNameQuery_eq d :
  StreamDomainNameQuery [d] =
  Ret (if (length d <? 2)%nat then NeedMore else
       let n := get_be (take 2 d) in
       let packet := take (Z.to_nat n) (drop 2 d) in
       if n <? 12 then Invalid else
       if malformed packet then Invalid else
       if zlen packet <? n then NeedMore else DomainNameQuery_verdict packet).
Proof.
  unfold StreamDomainNameQuery, read_full. simpl concat. rewrite app_nil_r.
  destruct (length d <? 2)%nat; [done|]. cbv zeta. rewrite concat_skip_bytes. simpl concat. rewrite app_nil_r.
  destruct (get_be (take 2 d) <? 12); [done|].
  set (packet := take _ _). unfold malformed, DomainNameQuery_verdict.
  destruct (byte_there packet 2 _); [done|]. destruct (byte_there packet 4 _ && _); [done|].
  destruct (existsb _ _); [done|]. destruct (_ <? _); [done|]. simpl.
  unfold DomainNameQuery. destruct (Unpack packet) as [[[[]]]|]; [|done]. by destruct (_ || _).
Qed.

Lemma StreamDomainNameQuery_stable : stable StreamDomainNameQuery.
Proof.
  intros d. rewrite StreamDomainNameQuery_eq. eexists. split; [done|]. intros e.
  rewrite StreamDomainNameQuery_eq. eexists. split; [done|]. rewrite length_app.
  destruct (Nat.ltb_spec (length d) 2); [done|].
  destruct (Nat.ltb_spec (length d + length e) 2); [lia|].
  rewrite take_app_le, drop_app_le by lia. cbv zeta. set (n := get_be (take 2 d)).
  destruct (Z.ltb_spec n 12); [done|]. rewrite firstn_app. set (packet := take (Z.to_nat n) (drop 2 d)).
  destruct (malformed packet) eqn:Hm; [by rewrite malformed_more|].
  destruct (Z.ltb_spec (zlen packet) n) as [|Hn]; [done|].
  replace (Z.to_nat n - length (drop 2 d))%nat with 0%nat
    by (subst packet; unfold zlen in Hn; rewrite length_take in Hn; lia).
  rewrite take_0, app_nil_r, Hm. destruct (Z.ltb_spec (zlen packet) n); [lia|]. apply extends_refl.
Qed.

(** ** At most one protocol fits *)

Definition accepts (sniffer : Reader -> res verdict) (d : list Z) (p : string) : Prop :=
  exists c, sniffer [d] = Ret (Sniffed p c).

Lemma BitTorrent_accepts d p :
  accepts BitTorrent d p -> p = ProtocolBitTorrent /\ exists r, d = 19 :: bt_header ++ r.
Proof.
  intros (c & Hc). destruct d as [|first d]; [done|]. rewrite BitTorrent_eq in Hc. cbv zeta in Hc.
  destruct (Z.eqb_spec first 19) as [->|]; [|done]. simpl negb in Hc.
  case_bool_decide as H1; [|done]. simpl negb in Hc.
  destruct (Nat.ltb_spec (length (take 19 d)) 19); [done|]. split; [naive_solver|].
  rewrite (take_ge bt_header) in H1 by (change (length bt_header) with 19%nat; lia).
  exists (drop 19 d). rewrite <- H1. by rewrite take_drop.
Qed.

Lemma SSH_accepts d p : accepts SSH d p -> p = ProtocolSSH /\ exists r, d = sshPrefix ++ r.
Proof.
  intros (c & Hc). destruct (SSH_eq d) as (c' & H). rewrite H in Hc.
  case_bool_decide as H1; [|done]. simpl negb in Hc.
  destruct (Nat.ltb_spec (length (take 8 d)) 8); [done|]. split; [naive_solver|].
  rewrite (take_ge sshPrefix) in H1 by (change (length sshPrefix) with 8%nat; lia).
  exists (drop 8 d). rewrite <- H1. by rewrite take_drop.
Qed.

Lemma expect_Sniffed value r k p c :
  expect value r k = Sniffed p c -> exists r', concat r = value :: concat r' /\ k r' = Sniffed p c.
Proof.
  unfold expect. pose proof (read_byte_eq r) as H. destruct (concat r) as [|b bs]; [by rewrite H|].
  destruct H as (r' & -> & <- & _). destruct (Z.eqb_spec b value) as [->|]; [|done]. simpl. eauto.
Qed.

Lemma RDP_accepts d p :
  accepts RDP d p -> p = ProtocolRDP /\ d !! 0%nat = Some 3 /\ d !! 11%nat = Some 1.
Proof.
  intros (c & Hc). unfold RDP in Hc. apply Ret_inj in Hc. simpl in Hc.
  apply expect_Sniffed in Hc as (r1 & E1 & Hc). simpl in E1. rewrite app_nil_r in E1. subst d.
  apply expect_Sniffed in Hc as (r2 & -> & Hc).
  destruct (read_full 2 r2) as [[l r3]|] eqn:H3; [|done]. destruct (negb _) in Hc; [done|].
  apply read_full_Some in H3 as (_ & H3 & L3). destruct (concat r2) as [|x1 [|x2 bs]]; simpl in *; [lia..|].
  apply expect_Sniffed in Hc as (r4 & E4 & Hc). apply expect_Sniffed in Hc as (r5 & E5 & Hc).
  destruct (read_full 5 r5) as [[l' r6]|] eqn:H6; [|done].
  apply read_full_Some in H6 as (_ & H6 & L6).
  apply expect_Sniffed in Hc as (r7 & E7 & Hc).
  destruct (read_byte r7) as [[? r8]|]; [|done].
  apply expect_Sniffed in Hc as (r9 & _ & [= <- _]).
  rewrite drop_0 in H3. subst bs. rewrite E4, E5. split; [done|]. split; [done|]. simpl.
  rewrite <- (take_drop 5 (concat r5)), <- H6, E7, lookup_app_r; rewrite length_take, Nat.min_l by lia; done.
Qed.

Lemma StreamDomainNameQuery_accepts d p :
  accepts StreamDomainNameQuery d p -> forall i, (8 <= i <= 11)%nat -> d !! i = Some 0.
Proof.
  intros (c & Hc). rewrite StreamDomainNameQuery_eq in Hc. apply Ret_inj in Hc.
  destruct (Nat.ltb_spec (length d) 2); [done|]. cbv zeta in Hc. set (n := get_be (take 2 d)) in *.
  destruct (Z.ltb_spec n 12); [done|]. set (packet := take (Z.to_nat n) (drop 2 d)) in *.
  destruct (malformed packet) eqn:Hm; [done|]. destruct (Z.ltb_spec (zlen packet) n) as [|Hl]; [done|].
  unfold malformed in Hm. apply orb_false_iff in Hm as [_ Hm].
  assert (Hz : forall i, In i [6; 7; 8; 9]%nat -> d !! (2 + i)%nat = Some 0).
  { intros i Hi. apply not_true_iff_false in Hm. rewrite existsb_exists in Hm.
    assert (Hb : is_Some (packet !! i)).
    { apply lookup_lt_is_Some_2. unfold zlen in Hl. simpl in Hi. lia. }
    destruct Hb as [b Hb]. pose proof Hb as Hb'. subst packet.
    rewrite lookup_take, lookup_drop in Hb. destruct (decide _); [|done]. rewrite Hb. f_equal.
    destruct (Z.eqb_spec b 0) as [|Hne]; [done|]. exfalso. apply Hm. exists i. split; [done|].
    unfold byte_there. rewrite Hb'. by apply negb_true_iff, Z.eqb_neq. }
  intros i Hi. replace i with (2 + (i - 2))%nat by lia. apply Hz. simpl. lia.
Qed.

End dns_stable.

(** ** Sniffing a stream as it arrives *)

Definition protocol_of (r : res verdict) : option string :=
  match r with Ret (Sniffed p _) => Some p | _ => None end.

Section peek.
Variable sniffers : list (Reader -> res verdict).
Hypothesis Hstable : forall s, s ∈ sniffers -> stable s.

(** All that arrives; no two of the sniffers take it for different
    protocols. *)
Variable whole : list Z.
Hypothesis Hexclusive : forall s s' p q,
  s ∈ sniffers -> s' ∈ sniffers -> accepts s whole p -> accepts s' whole q -> p = q.

Definition tried (l : list (Reader -> res verdict)) (d : list Z) (errors : option bool) (v : verdict) : Prop :=
  match v with
  | Sniffed p _ => exists s, s ∈ l /\ accepts s d p
  | NeedMore => forall s p, s ∈ l -> ~ accepts s d p
  | Invalid => errors <> Some true /\ forall s, s ∈ l -> s [d] = Ret Invalid
  end.

Lemma try_sniffers_spec (l : list (Reader -> res verdict)) d errors :
  (forall s, s ∈ l -> s ∈ sniffers) -> l <> [] \/ errors <> None ->
  exists v, try_sniffers l [d] errors = Ret v /\ tried l d errors v.
Proof.
  revert errors. induction l as [|s l IH]; intros errors Hl Hne; simpl.
  { destruct errors as [more|]; [|by destruct Hne].
    exists (joined (Some more)). split; [done|]. destruct more; simpl; [|split; [done|]].
    all: intros s; intros; by destruct (not_elem_of_nil s). }
  destruct (Hstable s) with d as (v & Hv & _); [apply Hl; by left|]. rewrite Hv. simpl.
  destruct v as [p c| |].
  { eexists. split; [done|]. exists s. split; [by left|]. by exists c. }
  - destruct (IH (join errors true)) as (v & -> & Hs); [intros; apply Hl; by right|by right|].
    exists v. split; [done|]. destruct v as [p c| |]; simpl in Hs |- *.
    + destruct Hs as (s' & Hin & Ha). exists s'. split; [by right|done].
    + intros s' q [->|Hin]%elem_of_cons; [|by apply Hs]. intros [c Hc]. by rewrite Hv in Hc.
    + by destruct Hs.
  - destruct (IH (join errors false)) as (v & -> & Hs); [intros; apply Hl; by right|by right|].
    exists v. split; [done|]. destruct v as [p c| |]; simpl in Hs |- *.
    + destruct Hs as (s' & Hin & Ha). exists s'. split; [by right|done].
    + intros s' q [->|Hin]%elem_of_cons; [|by apply Hs]. intros [c Hc]. by rewrite Hv in Hc.
    + destruct Hs as [He Hs]. split; [intros ->; by apply He|].
      intros s' [->|Hin]%elem_of_cons; [done|by apply Hs].
Qed.

(** The protocol of the whole data is the one of a sniffer that accepts a part
    of it, and none when every sniffer has refused a part. *)
Lemma sniffed_later d e s p :
  d ++ e = whole -> s ∈ sniffers -> accepts s d p -> protocol_of (try_sniffers sniffers [d ++ e] None) = Some p.
Proof.
  intros Hw Hin (c & Hc). assert (He : accepts s (d ++ e) p).
  { destruct (Hstable s Hin d) as (v & Hv & Hm). rewrite Hc in Hv. apply Ret_inj in Hv. subst v.
    destruct (Hm e) as (v' & Hv' & c' & ->). by exists c'. }
  destruct (try_sniffers_spec sniffers (d ++ e) None) as (v & -> & Hs); [done| |].
  { left. intros Hn. rewrite Hn in Hin. by apply not_elem_of_nil in Hin. }
  destruct v as [q c'| |]; simpl in *.
  - destruct Hs as (s' & Hin' & Ha'). f_equal.
    rewrite Hw in Ha', He. exact (Hexclusive s' s q p Hin' Hin Ha' He).
  - by destruct (Hs s p Hin).
  - destruct He as [c' He]. rewrite (proj2 Hs s Hin) in He. done.
Qed.

Lemma refused_later d e :
  sniffers <> [] -> (forall s, s ∈ sniffers -> s [d] = Ret Invalid) ->
  protocol_of (try_sniffers sniffers [d ++ e] None) = None.
Proof.
  intros Hne Hall. destruct (try_sniffers_spec sniffers (d ++ e) None) as (v & -> & Hs); [done|by left|].
  destruct v as [q c| |]; [|done..]. destruct Hs as (s & Hin & c' & Hc).
  destruct (Hstable s Hin d) as (v & Hv & Hm). rewrite (Hall s Hin) in Hv. apply Ret_inj in Hv. subst v.
  destruct (Hm e) as (v' & Hv' & ->). by rewrite Hv' in Hc.
Qed.

Lemma PeekStream_loop_whole arrivals buffer err :
  buffer ++ concat arrivals = whole -> sniffers <> [] -> protocol_of err = None ->
  (arrivals = [] -> protocol_of (try_sniffers sniffers [buffer] None) = None) ->
  protocol_of (PeekStream_loop sniffers [] buffer err arrivals)
  = protocol_of (try_sniffers sniffers [buffer ++ concat arrivals] None).
Proof.
  intros Hw Hne. revert buffer err Hw. induction arrivals as [|a arrivals IH]; intros buffer err Hw Herr Hnil; simpl.
  { by rewrite app_nil_r, Herr, Hnil. }
  simpl in Hw. rewrite app_assoc in Hw |- *.
  destruct (try_sniffers_spec sniffers (buffer ++ a) None) as (v & Hv & Hs); [done|by left|].
  rewrite Hv. simpl. destruct v as [p c| |]; simpl.
  - destruct Hs as (s & Hin & Ha). by rewrite (sniffed_later _ _ s p).
  - apply IH; [done..|]. intros _. by rewrite Hv.
  - symmetry. apply refused_later; [done|]. apply Hs.
Qed.

(** What was read before, and kept in buffers of its own, is as if it had
    arrived first, for sniffers that see the bytes only. *)
Definition seamless (s : Reader -> res verdict) : Prop := forall r, s r = s [concat r].

Lemma try_sniffers_seamless (l : list (Reader -> res verdict)) r errors :
  (forall s, s ∈ l -> seamless s) -> try_sniffers l r errors = try_sniffers l [concat r] errors.
Proof.
  revert errors. induction l as [|s l IH]; intros errors Hl; simpl; [done|].
  rewrite (Hl s (list_elem_of_here _ _) r). destruct (s [concat r]) as [[| |]| |]; simpl; [done|..|done|done].
  all: apply IH; intros s' Hs'; apply Hl; by right.
Qed.

Lemma PeekStream_loop_buffers buffers arrivals buffer err :
  (forall s, s ∈ sniffers -> seamless s) ->
  PeekStream_loop sniffers buffers buffer err arrivals
  = PeekStream_loop sniffers [] (concat buffers ++ buffer) err arrivals.
Proof.
  intros Hs. revert buffer err. induction arrivals as [|a arrivals IH]; intros buffer err; simpl; [done|].
  rewrite (try_sniffers_seamless sniffers (buffers ++ _)) by done.
  rewrite concat_app. simpl. rewrite app_nil_r, app_assoc.
  destruct (try_sniffers _ _ _) as [[| |]| |]; simpl; [done| |done..].
  by rewrite IH, app_assoc.
Qed.

Lemma PeekStream_whole buffers arrivals :
  concat buffers ++ concat arrivals = whole ->
  buffers = [] \/ (forall s, s ∈ sniffers -> seamless s) -> arrivals <> [] ->
  protocol_of (PeekStream sniffers buffers arrivals) = protocol_of (try_sniffers sniffers [whole] None).
Proof.
  intros Hw Hb Ha. assert (sniffers = [] \/ sniffers <> []) as [Hn|Hn] by (destruct sniffers; auto).
  { rewrite Hn. by destruct arrivals. }
  unfold PeekStream. assert (PeekStream_loop sniffers buffers [] (Err "read payload") arrivals
    = PeekStream_loop sniffers [] (concat buffers) (Err "read payload") arrivals) as ->.
  { destruct Hb as [->|Hs]; [done|]. by rewrite PeekStream_loop_buffers, app_nil_r. }
  rewrite PeekStream_loop_whole; [by rewrite Hw|done..].
Qed.

End peek.

Section families.
Context {DL : DnsLib}.

(** The stream sniffers that look at the bytes only, and with BitTorrent,
    which looks at the buffers, all that are modelled. *)
Definition seamless_streams : list (Reader -> res verdict) := [StreamDomainNameQuery; SSH; RDP].
Definition streams : list (Reader -> res verdict) := BitTorrent :: seamless_streams.

Lemma streams_stable s : s ∈ streams -> stable s.
Proof.
  unfold streams, seamless_streams. rewrite !elem_of_cons.
  intros [->|[->|[->|[->|[]%not_elem_of_nil]]]];
    auto using BitTorrent_stable, SSH_stable, RDP_stable, StreamDomainNameQuery_stable.
Qed.

Lemma read_full_concat n r r' :
  concat r = concat r' ->
  match read_full n r, read_full n r' with
  | Some (l, q), Some (l', q') => l = l' /\ concat q = concat q'
  | None, None => True
  | _, _ => False
  end.
Proof.
  intros H. unfold read_full. rewrite H. destruct (_ <? _)%nat; [done|]. by rewrite !concat_skip_bytes, H.
Qed.

(** A continuation whose verdict depends on the bytes only. *)
Definition bytes_only (k : Reader -> verdict) : Prop := forall r r', concat r = concat r' -> k r = k r'.

Lemma expect_bytes_only value k : bytes_only k -> bytes_only (fun r => expect value r k).
Proof.
  intros Hk r r' Heq. unfold expect. pose proof (read_byte_eq r) as H. pose proof (read_byte_eq r') as H'.
  rewrite <- Heq in H'. destruct (concat r) as [|b bs]; [by rewrite H, H'|].
  destruct H as (q & -> & Hq & _), H' as (q' & -> & Hq' & _).
  destruct (negb (b =? value)); [done|]. apply Hk. by rewrite Hq', Hq.
Qed.

Lemma any_byte_bytes_only k :
  bytes_only k ->
  bytes_only (fun r => match read_byte r with None => NeedMore | Some (_, r) => k r end).
Proof.
  intros Hk r r' Heq. pose proof (read_byte_eq r) as H. pose proof (read_byte_eq r') as H'.
  rewrite <- Heq in H'. destruct (concat r) as [|b bs]; [by rewrite H, H'|].
  destruct H as (q & -> & Hq & _), H' as (q' & -> & Hq' & _). apply Hk. by rewrite Hq', Hq.
Qed.

Lemma read_full_bytes_only n k :
  (forall l, bytes_only (k l)) ->
  bytes_only (fun r => match read_full n r with None => NeedMore | Some (l, r) => k l r end).
Proof.
  intros Hk r r' Heq. pose proof (read_full_concat n r r' Heq) as H.
  destruct (read_full n r) as [[l q]|], (read_full n r') as [[l' q']|]; try done.
  destruct H as [-> H]. by apply Hk.
Qed.

Lemma RDP_seamless : seamless RDP.
Proof.
  intros r. unfold RDP. f_equal. revert r.
  assert (Hb : bytes_only (fun r => match RDP r with Ret v => v | _ => Invalid end)).
  { apply expect_bytes_only, expect_bytes_only, read_full_bytes_only. intros l.
    destruct (negb (get_be l =? 19)); [by intros ?|].
    apply expect_bytes_only, expect_bytes_only, read_full_bytes_only. intros _.
    apply expect_bytes_only, any_byte_bytes_only, expect_bytes_only. by intros ?. }
  intros r. apply Hb. simpl. by rewrite app_nil_r.
Qed.

Lemma SSH_seamless : seamless SSH.
Proof. intros r. unfold SSH. simpl concat. by rewrite app_nil_r. Qed.

Lemma StreamDomainNameQuery_seamless : seamless StreamDomainNameQuery.
Proof.
  intros r. unfold StreamDomainNameQuery.
  pose proof (read_full_concat 2 r [concat r]) as H. simpl in H. rewrite app_nil_r in H. specialize (H eq_refl).
  destruct (read_full 2 r) as [[l q]|], (read_full 2 [concat r]) as [[l' q']|]; try done.
  destruct H as [-> H]. by rewrite H.
Qed.

Lemma streams_seamless s : s ∈ seamless_streams -> seamless s.
Proof.
  unfold seamless_streams. rewrite !elem_of_cons.
  intros [->|[->|[->|[]%not_elem_of_nil]]];
    auto using SSH_seamless, RDP_seamless, StreamDomainNameQuery_seamless.
Qed.

Lemma bt_ssh d p q : accepts BitTorrent d p -> accepts SSH d q -> False.
Proof. by intros (_ & r & ->)%BitTorrent_accepts (_ & r' & ?)%SSH_accepts. Qed.

Lemma bt_rdp d p q : accepts BitTorrent d p -> accepts RDP d q -> False.
Proof. by intros (_ & r & ->)%BitTorrent_accepts (_ & ? & _)%RDP_accepts. Qed.

Lemma ssh_rdp d p q : accepts SSH d p -> accepts RDP d q -> False.
Proof. by intros (_ & r & ->)%SSH_accepts (_ & ? & _)%RDP_accepts. Qed.

Lemma bt_dns d p q : accepts BitTorrent d p -> accepts StreamDomainNameQuery d q -> False.
Proof.
  intros (_ & r & ->)%BitTorrent_accepts Hd.
  by pose proof (StreamDomainNameQuery_accepts _ _ Hd 8%nat ltac:(lia)).
Qed.

Lemma rdp_dns d p q : accepts RDP d p -> accepts StreamDomainNameQuery d q -> False.
Proof.
  intros (_ & _ & H1)%RDP_accepts Hd.
  pose proof (StreamDomainNameQuery_accepts _ _ Hd 11%nat ltac:(lia)). congruence.
Qed.

(** An SSH banner that goes on with four zero bytes: the only beginning of a
    stream that both the SSH and the DNS sniffer may accept. *)
Definition ssh_or_dns (d : list Z) : Prop := (sshPrefix ++ [0; 0; 0; 0]) `prefix_of` d.

#[export] Instance ssh_or_dns_dec d : Decision (ssh_or_dns d).
Proof. unfold ssh_or_dns. apply _. Defined.

Lemma ssh_dns d p q : accepts SSH d p -> accepts StreamDomainNameQuery d q -> ssh_or_dns d.
Proof.
  intros (_ & r & ->)%SSH_accepts Hd. pose proof (StreamDomainNameQuery_accepts _ _ Hd) as Hz.
  assert (Hr : forall i, (i < 4)%nat -> r !! i = Some 0).
  { intros i Hi. rewrite <- (Hz (8 + i)%nat) by lia.
    rewrite lookup_app_r; change (length sshPrefix) with 8%nat; [f_equal|]; lia. }
  unfold ssh_or_dns. apply prefix_app.
  destruct r as [|a [|b [|c [|e r]]]];
    pose proof (Hr 0%nat ltac:(lia)) as H0; pose proof (Hr 1%nat ltac:(lia)) as H1;
    pose proof (Hr 2%nat ltac:(lia)) as H2; pose proof (Hr 3%nat ltac:(lia)) as H3;
    simpl in *; simplify_eq. by exists r.
Qed.

Lemma accepts_fun s d p q : accepts s d p -> accepts s d q -> p = q.
Proof. intros [c H1] [c' H2]. congruence. Qed.

Lemma streams_exclusive s s' d p q :
  ~ ssh_or_dns d -> s ∈ streams -> s' ∈ streams -> accepts s d p -> accepts s' d q -> p = q.
Proof.
  unfold streams, seamless_streams. rewrite !elem_of_cons. intros Hd.
  intros [->|[->|[->|[->|[]%not_elem_of_nil]]]] [->|[->|[->|[->|[]%not_elem_of_nil]]]] H1 H2;
    solve [eapply accepts_fun; eassumption
          | exfalso; eauto using bt_ssh, bt_rdp, ssh_rdp, bt_dns, rdp_dns, ssh_dns].
Qed.

(** C8: Sniffing a stream read by read finds the same protocol as running the
    same sniffers once over all the bytes, wherever the reads cut them: no
    verdict is given too early and no acceptance is missed.  The sniffers are
    any list of the DNS, BitTorrent, SSH and RDP ones, in any order.  Bytes
    that were read before and kept in [buffers] count as if they had arrived
    first, when BitTorrent, whose header is not seen over two buffers, is not
    in the list.  A stream that begins with an SSH banner and four zero bytes
    is left out: it may be accepted as SSH before enough of it has arrived to
    be a DNS message. *)
Theorem PeekStream_chunking sniffers buffers arrivals :
  (forall s, s ∈ sniffers -> s ∈ streams) ->
  buffers = [] \/ (forall s, s ∈ sniffers -> s ∈ seamless_streams) ->
  arrivals <> [] ->
  ~ ssh_or_dns (concat buffers ++ concat arrivals) ->
  protocol_of (PeekStream sniffers buffers arrivals)
  = protocol_of (try_sniffers sniffers [concat buffers ++ concat arrivals] None).
Proof.
  intros Hf Hb Ha Hw. apply PeekStream_whole; [eauto using streams_stable| |done| |done].
  { intros s s' p q Hs Hs'. apply streams_exclusive; auto. }
  destruct Hb as [->|Hs]; [by left|]. right. intros s Hin. by apply streams_seamless, Hs.
Qed.

End families.

(** A library that unpacks nothing. *)
Definition no_dns : DnsLib := {| Unpack := fun _ => None |}.

Definition ssh_arrivals : list (list Z) := [bytes_of "H-2.0-Open"; bytes_of "SSH"].

(** The order of the sniffers of the route, then two of them with two bytes read before. *)
Lemma PeekStream_chunking_witness :
  let sniffers := [@StreamDomainNameQuery no_dns; BitTorrent; SSH; RDP] in
  let arrivals := bytes_of "SS" :: ssh_arrivals in
  protocol_of (PeekStream sniffers [] arrivals) = Some ProtocolSSH /\
  protocol_of (PeekStream sniffers [] arrivals) = protocol_of (try_sniffers sniffers [concat arrivals] None) /\
  protocol_of (PeekStream [@StreamDomainNameQuery no_dns; SSH] [bytes_of "SS"] ssh_arrivals)
  = protocol_of (try_sniffers [@StreamDomainNameQuery no_dns; SSH] [concat arrivals] None).
Proof.
  cbv zeta. split; [by vm_compute|]. split.
  - apply (@PeekStream_chunking no_dns _ []).
    + intros s. unfold streams, seamless_streams. rewrite !elem_of_cons. tauto.
    + by left.
    + done.
    + by apply (bool_decide_unpack _); vm_compute.
  - apply (@PeekStream_chunking no_dns _ [bytes_of "SS"] ssh_arrivals).
    + intros s. unfold streams, seamless_streams. rewrite !elem_of_cons. tauto.
    + right. intros s. unfold seamless_streams. rewrite !elem_of_cons. tauto.
    + done.
    + by apply (bool_decide_unpack _); vm_compute.
Defined.

(** A stream that begins with a banner and zero bytes is SSH when its first
    eight bytes arrive alone, and DNS when it is there at once. *)
Example ssh_or_dns_cut :
  let lib := {| Unpack := fun _ => Some (false, 1, 0, 0) |} in
  let sniffers := [@StreamDomainNameQuery lib; SSH] in
  let rest := repeat 0 (Z.to_nat 21325) in
  protocol_of (PeekStream sniffers [] [sshPrefix; rest]) = Some ProtocolSSH
  /\ protocol_of (PeekStream sniffers [] [sshPrefix ++ rest]) = Some ProtocolDNS.
Proof. by split; vm_compute. Qed.

(** Over two buffers the BitTorrent header is not seen: its second [Read]
    ends with the first buffer. *)
Example bittorrent_two_buffers :
  BitTorrent [19 :: take 10 bt_header; drop 10 bt_header] = Ret NeedMore
  /\ BitTorrent [19 :: bt_header] = Ret (Sniffed ProtocolBitTorrent EmptyString).
Proof. by split; vm_compute. Qed.

(** ** Packets *)

Lemma utp_extensions_ret fuel extension rest :
  (length rest < fuel)%nat ->
  exists v, utp_extensions fuel extension rest = Ret v
    /\ (v = Invalid \/ v = Sniffed ProtocolBitTorrent EmptyString).
Proof.
  revert extension rest. induction fuel as [|fuel IH]; intros extension rest Hf; [lia|].
  cbn [utp_extensions]. destruct (extension =? 0); [eauto|].
  destruct rest as [|e [|l rest]]; [eauto|destruct (4 <? e); eauto|].
  destruct (4 <? e); [eauto|]. apply IH. rewrite length_drop. simpl in Hf. lia.
Qed.

(** Every packet sniffer returns, with one protocol, and tells by the first
    byte. *)
Definition tells (sniffer : list Z -> res verdict) (p : string) (first : Z -> bool) : Prop :=
  forall packet, is_bytes packet ->
    sniffer packet = Ret Invalid \/
    sniffer packet = Ret (Sniffed p EmptyString) /\ exists b r, packet = b :: r /\ first b = true.

Lemma go_index_0 (b : Z) r : go_index (b :: r) 0 = Ret b.
Proof. done. Qed.

Ltac sniff_case :=
  match goal with
  | |- context[if ?c then _ else _] => let H := fresh "Hc" in destruct c eqn:H; [by left|]
  end.

Ltac sniff_packet packet b r :=
  sniff_case; destruct packet as [|b r]; [done|]; rewrite ?go_index_0; cbn [mbind res_bind];
  repeat match goal with H : (_ <? _) = false |- _ => apply Z.ltb_ge in H end;
  repeat (cbv zeta; first [sniff_case | go_step]).

Definition utp_first (b : Z) : bool := (Z.land b 0x0F =? 1) && negb (4 <? Z.shiftr b 4).

Lemma UTP_tells : tells UTP ProtocolBitTorrent utp_first.
Proof.
  intros packet Hb. unfold UTP. sniff_packet packet b r.
  destruct (utp_extensions_ret (length (b :: r)) b0 r0) as (v & -> & Hv); [unfold zlen in *; lia|].
  destruct Hv as [->| ->]; [by left|]. right. split; [done|]. exists b, r. split; [done|].
  unfold utp_first. apply orb_false_iff in Hc0 as [H1 H2]. apply negb_false_iff in H1. by rewrite H1, H2.
Qed.

Lemma UDPTracker_tells : tells UDPTracker ProtocolBitTorrent (fun b => b =? 0).
Proof.
  intros packet Hb. unfold UDPTracker. sniff_case. apply Z.ltb_ge in Hc.
  rewrite (go_slice_ok packet 0 8) by lia. cbn [mbind res_bind].
  destruct packet as [|b r]; [done|].
  change (take (Z.to_nat (8 - 0)) (drop (Z.to_nat 0) (b :: r))) with (b :: take 7 r).
  rewrite go_be_ok by (unfold zlen in *; cbn [length] in *; rewrite length_take; lia).
  cbn [mbind res_bind]. sniff_case. repeat (cbv zeta; first [sniff_case | go_step]).
  right. split; [done|]. exists b, r. split; [done|].
  apply negb_false_iff, Z.eqb_eq in Hc0. simpl take in Hc0. rewrite get_be_cons in Hc0.
  apply Forall_cons in Hb as [Hb Hr]. unfold is_u8 in Hb.
  assert (Hrange := get_be_range (take 7 (take 7 r)) ltac:(by apply Forall_take, Forall_take)).
  replace (zlen (take 7 (take 7 r))) with 7 in *
    by (unfold zlen in *; rewrite !length_take; cbn [length] in Hc; lia).
  lia.
Qed.

Definition dtls_first (b : Z) : bool := bool_decide (b ∈ [20; 21; 22; 23; 25]).

Lemma DTLSRecord_tells : tells DTLSRecord ProtocolDTLS dtls_first.
Proof.
  intros packet Hb. unfold DTLSRecord. sniff_packet packet b r.
  right. split; [done|]. exists b, r. split; [done|]. by apply negb_false_iff.
Qed.

Definition ntp_first (b : Z) : bool :=
  let vn := Z.land (Z.shiftr b 3) 0x07 in
  ((vn =? 3) || (vn =? 4)) && (Z.land b 0x07 =? 3).

Lemma NTP_tells : tells NTP ProtocolNTP ntp_first.
Proof.
  intros packet Hb. unfold NTP. sniff_packet packet b r.
  right. split; [done|]. exists b, r. split; [done|]. unfold ntp_first.
  rewrite <- (negb_involutive (_ || _)), negb_orb. apply andb_true_iff. split.
  - by apply negb_true_iff.
  - by apply negb_false_iff.
Qed.

Lemma STUNMessage_ret packet : exists v, STUNMessage packet = Ret v.
Proof.
  unfold STUNMessage. destruct (Z.ltb_spec (zlen packet) 20); [eauto|].
  go_step. go_step. destruct (negb _); [eauto|]. go_step. go_step. destruct (_ <? _); eauto.
Qed.

(** The sniffers that tell by the first byte, with what they look for there. *)
Definition first_byte : list ((list Z -> res verdict) * (string * (Z -> bool))) :=
  [(UTP, (ProtocolBitTorrent, utp_first)); (UDPTracker, (ProtocolBitTorrent, fun b => b =? 0));
   (DTLSRecord, (ProtocolDTLS, dtls_first)); (NTP, (ProtocolNTP, ntp_first))].

Lemma first_byte_tells t : t ∈ first_byte -> tells t.1 t.2.1 t.2.2.
Proof.
  unfold first_byte. rewrite !elem_of_cons.
  intros [->|[->|[->|[->|[]%not_elem_of_nil]]]];
    auto using UTP_tells, UDPTracker_tells, DTLSRecord_tells, NTP_tells.
Qed.

(** No first byte is taken by two of them. *)
Lemma first_byte_distinct :
  forallb (fun b => (length (base.filter (fun t : string * (Z -> bool) => t.2 b = true) (map snd first_byte)) <=? 1)%nat)
    (map Z.of_nat (seq 0 256)) = true.
Proof. by vm_compute. Qed.

Lemma length_le_1 {A} (l : list A) x y : (length l <= 1)%nat -> x ∈ l -> y ∈ l -> x = y.
Proof.
  destruct l as [|a [|b l]]; simpl; [|intros _|lia].
  - by intros _ Hx%not_elem_of_nil.
  - by intros ->%list_elem_of_singleton ->%list_elem_of_singleton.
Qed.

Lemma first_byte_unique t t' b :
  is_u8 b -> t ∈ first_byte -> t' ∈ first_byte -> t.2.2 b = true -> t'.2.2 b = true -> t.2 = t'.2.
Proof.
  intros Hb Ht Ht' H H'. pose proof first_byte_distinct as Hd. rewrite forallb_forall in Hd.
  specialize (Hd b). assert (Hin : In b (map Z.of_nat (seq 0 256))).
  { apply in_map_iff. exists (Z.to_nat b). unfold is_u8 in Hb. split; [lia|]. apply in_seq. lia. }
  apply Hd, Nat.leb_le in Hin. refine (length_le_1 _ _ _ Hin _ _).
  all: apply list_elem_of_filter; (split; [done|]); apply list_elem_of_fmap; eauto.
Qed.

Section order.
Variable packet : list Z.
Hypothesis Hpacket : is_bytes packet.

Definition taken_by (s : list Z -> res verdict) (p : string) : Prop := s packet = Ret (Sniffed p EmptyString).

Lemma family_result s :
  s ∈ map fst first_byte -> s packet = Ret Invalid \/ exists p, taken_by s p.
Proof.
  intros (t & -> & Ht)%list_elem_of_fmap.
  destruct (first_byte_tells t Ht packet Hpacket) as [|[]]; [by left|right; by eexists].
Qed.

Lemma family_exclusive s s' p p' :
  s ∈ map fst first_byte -> s' ∈ map fst first_byte -> taken_by s p -> taken_by s' p' -> p = p'.
Proof.
  unfold taken_by.
  intros (t & -> & Ht)%list_elem_of_fmap (t' & -> & Ht')%list_elem_of_fmap H H'.
  destruct (first_byte_tells t Ht packet Hpacket) as [E|[E (b & r & Hp & Hb)]]; [by rewrite E in H|].
  destruct (first_byte_tells t' Ht' packet Hpacket) as [E'|[E' (b' & r' & Hp' & Hb')]]; [by rewrite E' in H'|].
  rewrite Hp in Hp'. injection Hp' as <- <-.
  assert (Hu : is_u8 b) by (rewrite Hp in Hpacket; by apply Forall_cons in Hpacket as []).
  assert (t.2 = t'.2) by (by apply (first_byte_unique t t' b)).
  rewrite E in H. rewrite E' in H'. congruence.
Qed.

Lemma try_family sniffers errors :
  (forall s, s ∈ sniffers -> s ∈ map fst first_byte) -> errors <> Some true ->
  (exists s p, s ∈ sniffers /\ taken_by s p /\ try_sniffers sniffers packet errors = Ret (Sniffed p EmptyString))
  \/ (forall s, s ∈ sniffers -> s packet = Ret Invalid) /\
     try_sniffers sniffers packet errors
     = Ret (joined (match sniffers with [] => errors | _ => Some false end)).
Proof.
  revert errors. induction sniffers as [|s l IH]; intros errors Hf He; simpl.
  { right. split; [|done]. by intros s ?%not_elem_of_nil. }
  destruct (family_result s) as [Hs|(p & Hs)]; [apply Hf; by left| |].
  - rewrite Hs. simpl. assert (Hj : join errors false = Some false) by (by destruct errors as [[]|]).
    destruct (IH (join errors false)) as [(s' & p & Hin & Ht & E)|[Hall E]];
      [intros; apply Hf; by right|by rewrite Hj|left; exists s', p; split; [by right|done]|right].
    split; [by intros s' [->|?]%elem_of_cons; [|apply Hall]|]. rewrite E, Hj. by destruct l.
  - left. exists s, p. split; [by left|]. split; [done|]. by rewrite Hs.
Qed.

End order.

(** Which protocol the uTP, UDP tracker, DTLS and NTP sniffers find in a
    packet depends on the set of sniffers that is tried only, not on their
    order: no two of them take the same packet for different protocols.  They
    never raise, whatever the packet. *)
Theorem PeekPacket_order sniffers sniffers' packet :
  is_bytes packet ->
  (forall s, s ∈ sniffers -> s ∈ [UTP; UDPTracker; DTLSRecord; NTP]) ->
  (forall s, s ∈ sniffers <-> s ∈ sniffers') ->
  PeekPacket sniffers packet = PeekPacket sniffers' packet /\
  exists v, PeekPacket sniffers packet = Ret v.
Proof.
  intros Hp Hf Hset. unfold PeekPacket.
  assert (Hf' : forall s, s ∈ sniffers' -> s ∈ map fst first_byte) by (intros; by apply Hf, Hset).
  destruct (try_family packet Hp sniffers None Hf) as [(s & p & Hin & Ht & ->)|[Hall ->]]; [done| |];
  destruct (try_family packet Hp sniffers' None Hf') as [(s' & p' & Hin' & Ht' & ->)|[Hall' ->]]; try done.
  - split; [|eauto]. do 2 f_equal. eapply (family_exclusive packet Hp s s'); eauto.
  - apply Hset, Hall' in Hin. unfold taken_by in Ht. by rewrite Ht in Hin.
  - apply Hset, Hall in Hin'. unfold taken_by in Ht'. by rewrite Ht' in Hin'.
  - split; [|eauto]. do 2 f_equal.
    destruct sniffers as [|s l], sniffers' as [|s' l']; try done; exfalso.
    + apply (not_elem_of_nil s'), Hset. by left.
    + apply (not_elem_of_nil s), Hset. by left.
Qed.

Definition ntp_packet : list Z := 0x23 :: replicate 47 0.

Lemma PeekPacket_order_witness :
  PeekPacket [UTP; NTP] ntp_packet = Ret (Sniffed ProtocolNTP EmptyString) /\
  (PeekPacket [UTP; NTP] ntp_packet = PeekPacket [NTP; UTP] ntp_packet /\
   exists v, PeekPacket [UTP; NTP] ntp_packet = Ret v).
Proof.
  split; [by vm_compute|]. apply PeekPacket_order.
  - unfold ntp_packet. constructor; [done|]. apply Forall_replicate. done.
  - intros s. rewrite !elem_of_cons. tauto.
  - intros s. rewrite !elem_of_cons. tauto.
Defined.

(** STUN is not one of them: this Binding response is taken for uTP when the
    uTP sniffer comes first. *)
Definition stun_packet : list Z :=
  [1; 1; 0; 4; 0x21; 0x12; 0xA4; 0x42] ++ replicate 12 7 ++ [0; 2; 0; 0].

Example stun_or_utp :
  PeekPacket [STUNMessage; UTP] stun_packet = Ret (Sniffed ProtocolSTUN EmptyString)
  /\ PeekPacket [UTP; STUNMessage] stun_packet = Ret (Sniffed ProtocolBitTorrent EmptyString).
Proof. by split; vm_compute. Qed.
