(* ===== verification/SrsRoundTrip.v ===== *)
(** * Rule-set files: reading ends, and reads what was written

    The laws of the packages that [Srs] calls, the safety of [Read] on any
    file, and the round trip from the options of a rule set through a file
    back to rules that match the same connections. *)

From S2P Require Import Prelude Netip Mac RuleItems RuleMatch RuleBuild Srs.

(** The reader [p] reads [s] back as [x]. *)
Definition reads_back {A} (p : reader A) (s : list Z) (x : A) : Prop := forall r, p (s ++ r) = Ret (x, r).

(** An address that has four or sixteen bytes and nothing else. *)
Definition plain_addr (a : Addr) : Prop := wf_addr a /\ Netip.IsValid a = true /\ hasZone a = false.

Definition no_empty (l : list string) : Prop := EmptyString ∉ l.

Class SetLaws (BL : BuildLib) (SL : SetLib) : Prop := {
  (** a matcher reads back as one that matches the same names, and its dump
      builds the same *)
  matcher_law d s legacy :
    no_empty d -> no_empty s ->
    exists m, reads_back ReadMatcher (WriteMatcher d s legacy) m /\
      MatchDomain m = NewMatcher d s /\
      no_empty (fst (Dump m)) /\ no_empty (snd (Dump m)) /\
      NewMatcher (fst (Dump m)) (snd (Dump m)) = NewMatcher d s;
  matcher_takes : takes 1 ReadMatcher;
  adguard_law l :
    exists m, reads_back ReadAdGuardMatcher (WriteAdGuardMatcher l) m /\
      MatchAdGuard m = NewAdGuardMatcher l /\ NewAdGuardMatcher (DumpAdGuard m) = NewAdGuardMatcher l;
  adguard_takes : takes 1 ReadAdGuardMatcher;
  (** a set is its ranges of plain addresses, and its prefixes make it up *)
  ranges_law l : IPSet l = SetContains <$> SetRanges l;
  ranges_plain l rr :
    SetRanges l = Some rr ->
    zlen rr < 2 ^ 64 /\ Forall (fun '(a, b) => plain_addr a /\ plain_addr b) rr;
  prefixes_law l rr :
    SetRanges l = Some rr ->
    exists l', parse_cidrs (Prefixes rr) = Ret l' /\ SetRanges l' = Some rr;
  AddrFromIP_law b : zlen b = 4 \/ zlen b = 16 -> AddrFromIP b = AddrFromSlice b
}.

Class ZlibLaws (ZL : ZlibLib) : Prop := {
  zlib_law b : zlib_NewReader (zlib_compress b) = Ret b;
  zlib_safe b : zlib_NewReader b <> Panic
}.

(** ** Readers that end *)

Lemma takes_le {A} k k' (p : reader A) : (k' <= k)%nat -> takes k p -> takes k' p.
Proof. intros Hk Hp r. specialize (Hp r). destruct (p r) as [[x r']| |]; [lia|done|done]. Qed.

Lemma takes_bind {A B} j k (p : reader A) (q : A -> reader B) :
  takes j p -> (forall x, takes k (q x)) -> takes (j + k) (fun r => '(x, r) ← p r; q x r).
Proof.
  intros Hp Hq r. specialize (Hp r). destruct (p r) as [[x r']| |]; [|done|done].
  change (match q x r' with Ret (_, r'') => (length r'' + (j + k) <= length r)%nat | Err _ => True | Panic => False end).
  specialize (Hq x r'). destruct (q x r') as [[y r'']| |]; [lia|done|done].
Qed.

Lemma takes_ret {A} (x : A) : takes 0 (fun r => Ret (x, r)).
Proof. intros r. lia. Qed.

Lemma takes_err {A} k e : takes (A := A) k (fun r => Err e).
Proof. intros r. done. Qed.

Lemma takes_if {A} k (c : bool) (p q : reader A) :
  takes k p -> takes k q -> takes k (fun r => if c then p r else q r).
Proof. by destruct c. Qed.

Lemma takes_byte : takes 1 ReadByte.
Proof. intros [|b r]; simpl; [done|lia]. Qed.

Lemma takes_full n : takes n (ReadFull n).
Proof.
  intros r. unfold ReadFull. destruct (Nat.ltb_spec (length r) n); [done|]. rewrite length_drop. lia.
Qed.

Lemma takes_uint n : takes n (ReadUint n).
Proof.
  unfold ReadUint. apply (takes_le (n + 0)); [lia|].
  apply takes_bind; [apply takes_full|]. intros. apply takes_ret.
Qed.

Lemma takes_bool : takes 1 ReadBool.
Proof. unfold ReadBool. apply (takes_bind 1 0); [apply takes_byte|]. intros. apply takes_ret. Qed.

Lemma takes_uvarint_loop k x s : takes 1 (uvarint_loop k x s).
Proof.
  revert x s. induction k as [|k IH]; intros x s; cbn [uvarint_loop]; [apply takes_err|].
  apply (takes_bind 1 0); [apply takes_byte|]. intros b.
  apply takes_if; [apply takes_if; [apply takes_err|apply takes_ret]|].
  eapply takes_le; [|apply IH]. lia.
Qed.

Lemma takes_uvarint : takes 1 ReadUvarint.
Proof. apply takes_uvarint_loop. Qed.

Lemma takes_range {A} count (p : reader A) : takes 1 p -> takes 0 (read_range count p).
Proof.
  intros Hp r. unfold read_range.
  assert (Hm : forall fuel count r, (length r < fuel)%nat ->
    match read_many fuel count p r with
    | Ret (_, r') => (length r' <= length r)%nat | Err _ => True | Panic => False end).
  { clear count r. induction fuel as [|fuel IH]; intros count r Hf; cbn [read_many];
      destruct (count <=? 0); [lia..|lia|]. specialize (Hp r).
    destruct (p r) as [[x r']| |]; [|done|done]. cbn [mbind res_bind].
    specialize (IH (count - 1) r'). destruct (read_many fuel (count - 1) p r') as [[l r'']| |];
      cbn; [|done|]; lia. }
  specialize (Hm (S (length r)) count r). destruct (read_many _ _ _ _) as [[l r']| |]; lia.
Qed.

Create HintDb takes.
#[export] Hint Resolve takes_ret takes_err takes_byte takes_bool takes_uvarint takes_range takes_full : takes.

Ltac takes_step :=
  lazymatch goal with
  | |- takes 0 (fun r => Ret (_, r)) => apply takes_ret
  | |- takes _ (fun r => Err _) => apply takes_err
  | |- takes _ (fun r => if _ then _ else _) => apply takes_if
  | |- takes 1 (fun r => mbind _ _) => apply (takes_bind 1 0); [|intros]
  | |- takes 0 (fun r => mbind _ _) => apply (takes_bind 0 0); [|intros]
  end.

Lemma takes_0 {A} (p : reader A) : takes 1 p -> takes 0 p.
Proof. apply takes_le. lia. Qed.

Section safety.
Context {BL : BuildLib} {V : VarbinLib} {SL : SetLib} {ZL : ZlibLib}.
Context {VL : VarbinLaws V} {SLW : SetLaws BL SL} {ZLW : ZlibLaws ZL}.

Lemma takes_ipset_addr : takes 1 readIPSetAddr.
Proof.
  unfold readIPSetAddr. takes_step; [apply takes_uvarint|]. takes_step; [takes_step|].
  takes_step; [|takes_step]. eapply takes_le; [|apply takes_full]. lia.
Qed.

Lemma takes_prefix : takes 1 readPrefix.
Proof.
  unfold readPrefix. takes_step; [apply takes_uvarint|]. takes_step; [takes_step|].
  takes_step; [eapply takes_le; [|apply takes_full]; lia|].
  takes_step; [apply takes_0, takes_byte|]. takes_step.
Qed.

Lemma takes_ipset : takes 1 readIPSet.
Proof.
  unfold readIPSet. takes_step; [apply takes_byte|]. takes_step; [takes_step|].
  takes_step; [eapply takes_le; [|apply takes_uint]; lia|]. apply takes_range.
  unfold read_pair. takes_step; [apply takes_ipset_addr|]. takes_step; [apply takes_0, takes_ipset_addr|].
  takes_step.
Qed.

Lemma takes_string : takes 1 read_string.
Proof.
  intros r. pose proof (slice_takes 1 ltac:(lia) r) as H. unfold read_string.
  destruct (ReadSlice 1 r) as [[[v e] r']| |]; done.
Qed.

Lemma takes_strings : takes 1 readRuleItemString.
Proof.
  unfold readRuleItemString. takes_step; [apply takes_uvarint|]. apply takes_range, takes_string.
Qed.

Lemma takes_prefixes : takes 1 read_prefixes.
Proof.
  unfold read_prefixes. takes_step; [apply takes_uvarint|]. apply takes_range, takes_prefix.
Qed.

Lemma takes_entries : takes 1 read_entries.
Proof.
  unfold read_entries. takes_step; [apply takes_uvarint|]. takes_step; [|takes_step].
  apply takes_range. unfold read_entry. takes_step; [apply takes_byte|].
  takes_step; [apply takes_0, takes_prefixes|]. takes_step.
Qed.

Lemma takes_into {A} (p : reader A) set : takes 1 p -> takes 0 (into p set).
Proof. intros Hp. unfold into. takes_step; [by apply takes_0|]. takes_step. Qed.

Lemma takes_slice_into w made set : (0 < w)%nat -> takes 0 (slice_into w made set).
Proof.
  intros Hw r. pose proof (slice_takes w Hw r) as H. unfold slice_into.
  destruct (ReadSlice w r) as [[[v e] r']| |]; cbn; [lia|done|done].
Qed.

#[local] Hint Resolve takes_into takes_slice_into takes_strings takes_prefixes takes_entries takes_ipset
  takes_0 matcher_takes adguard_takes : takes.

Lemma takes_item recover itemType o : takes 0 (read_item recover itemType o).
Proof.
  unfold read_item.
  repeat first [takes_step | apply takes_if].
  all: unfold read_set; first [apply takes_slice_into; lia | eauto with takes].
Qed.

Lemma takes_default fuel recover o empties r :
  (length r < fuel)%nat ->
  match readDefaultRule fuel recover o empties r with
  | Ret (_, r') => (length r' <= length r)%nat
  | Err _ => True
  | Panic => False
  end.
Proof.
  revert o empties r. induction fuel as [|fuel IH]; intros o empties r Hf; [lia|].
  cbn [readDefaultRule]. destruct r as [|t r]; [done|]. cbn [ReadByte mbind res_bind].
  destruct (t =? ruleItemFinal).
  - destruct r as [|b r]; [done|]. cbn. lia.
  - pose proof (takes_item recover t o r) as H.
    destruct (read_item recover t o r) as [[[o' e] r']| |]; [|done|done]. cbn [mbind res_bind].
    cbn [length] in Hf. specialize (IH o' (note_empty t e empties) r' ltac:(lia)).
    destruct (readDefaultRule fuel _ _ _ r') as [[x r'']| |]; cbn; [|done|done]. lia.
Qed.

Lemma takes_rule fuel recover depth :
  maxLogicalRuleDepth < depth + Z.of_nat fuel -> takes 1 (readRule fuel recover depth).
Proof.
  revert depth. induction fuel as [|fuel IH]; intros depth Hd; cbn [readRule].
  { rewrite (proj2 (Z.ltb_lt _ _)) by lia. apply takes_err. }
  takes_step; [takes_step|]. takes_step; [apply takes_byte|]. takes_step.
  - intros r. pose proof (takes_default (S (length r)) recover zero_options [] r ltac:(lia)) as H.
    destruct (readDefaultRule _ _ _ _ _) as [[o r']| |]; cbn; [lia|done|done].
  - takes_step; [|takes_step]. takes_step; [apply takes_0, takes_byte|].
    destruct (_ =? 0); [|destruct (_ =? 1)]; [| |intros r; done].
    all: (cbn [mbind res_bind]; takes_step; [apply takes_0, takes_uvarint|];
      takes_step; [apply takes_range, IH; lia|]; takes_step; [apply takes_0, takes_bool|]; takes_step).
Qed.

(** C16: Reading a rule-set file ends and never raises, whatever its bytes:
    the result is the rules or an error.  Counts of up to 2^64 elements in the
    file cost no more than the bytes that are there, and nesting is cut off
    before the stack is. *)
Theorem Read_safe recover file : Read recover file <> Panic.
Proof.
  unfold Read, ReadFull. destruct (length file <? 3)%nat; [done|]. cbn [mbind res_bind].
  destruct (negb _); [done|]. destruct (drop 3 file) as [|version r]; [done|]. cbn [ReadByte mbind res_bind].
  destruct (_ <? _); [done|]. pose proof (zlib_safe r).
  destruct (zlib_NewReader r) as [body| |]; [|done|done]. cbn [mbind res_bind].
  pose proof (takes_uvarint body) as Hu. destruct (ReadUvarint body) as [[n r']| |]; [|done|done].
  cbn [mbind res_bind].
  pose proof (takes_range n (readRule rule_fuel recover 0) ltac:(by apply takes_rule) r') as Hr.
  by destruct (read_range n _ r') as [[rules ?]| |].
Qed.

End safety.

(** ** Values that read back *)

Lemma reads_back_nonempty {A} (p : reader A) s x : takes 1 p -> reads_back p s x -> (0 < length s)%nat.
Proof. intros Hp Hs. specialize (Hp (s ++ [])). rewrite (Hs []) in Hp. rewrite app_nil_r in Hp. simpl in Hp. lia. Qed.

Lemma read_many_concat {A} (p : reader A) ss xs fuel r :
  takes 1 p -> Forall2 (reads_back p) ss xs -> (length (concat ss) < fuel)%nat ->
  read_many fuel (zlen xs) p (concat ss ++ r) = Ret (xs, r).
Proof.
  intros Hp H. revert fuel. induction H as [|s x ss xs Hs _ IH]; intros fuel Hf; [by destruct fuel|].
  pose proof (reads_back_nonempty p s x Hp Hs). cbn [concat] in *. rewrite length_app in Hf.
  destruct fuel as [|fuel]; [lia|]. cbn [read_many]. rewrite <- app_assoc.
  replace (zlen (x :: xs)) with (zlen xs + 1) by (unfold zlen; cbn [length]; lia).
  pose proof (zlen_nonneg xs). destruct (Z.leb_spec (zlen xs + 1) 0); [lia|].
  rewrite Hs. cbn [mbind res_bind]. replace (zlen xs + 1 - 1) with (zlen xs) by lia.
  by rewrite IH by lia.
Qed.

Lemma read_range_concat {A} (p : reader A) ss xs :
  takes 1 p -> Forall2 (reads_back p) ss xs -> reads_back (read_range (zlen xs) p) (concat ss) xs.
Proof.
  intros Hp H r. unfold read_range. apply read_many_concat; [done..|]. rewrite length_app. lia.
Qed.

Lemma read_range_map {A} (p : reader A) (w : A -> list Z) l :
  takes 1 p -> Forall (fun x => reads_back p (w x) x) l ->
  reads_back (read_range (zlen l) p) (concat (map w l)) l.
Proof. intros Hp H. apply read_range_concat; [done|]. induction H; constructor; done. Qed.

(** Reading a number of elements and then the elements. *)
Lemma counted {A} {V : VarbinLib} {VL : VarbinLaws V} (p : Z -> reader A) n s x :
  0 <= n < 2 ^ 64 -> reads_back (p n) s x ->
  reads_back (fun r => '(n, r) ← ReadUvarint r; p n r) (WriteUvarint n ++ s) x.
Proof. intros Hn Hp r. rewrite <- app_assoc, uvarint_law by done. apply Hp. Qed.

Lemma put_be_1 bs : is_bytes bs -> concat (map (put_be 1) bs) = bs.
Proof.
  induction 1 as [|b bs Hb _ IH]; [done|]. cbn [map concat]. rewrite IH.
  cbn [put_be]. cbn. f_equal. change (u8 (b / 1) = b). rewrite Z.div_1_r. by apply u8_id.
Qed.

Section back.
Context {BL : BuildLib} {V : VarbinLib} {SL : SetLib} {ZL : ZlibLib}.
Context {VL : VarbinLaws V} {SLW : SetLaws BL SL} {ZLW : ZlibLaws ZL}.

Lemma AsSlice_length a : plain_addr a -> zlen (AsSlice a) = 4 \/ zlen (AsSlice a) = 16.
Proof. intros (_ & Hv & _). destruct a; [done|left|right]; apply zlen_put_be. Qed.

Lemma AsSlice_read a r :
  plain_addr a -> ReadFull (Z.to_nat (zlen (AsSlice a))) (AsSlice a ++ r) = Ret (AsSlice a, r).
Proof.
  intros _. unfold ReadFull, zlen. rewrite Nat2Z.id, length_app.
  destruct (Nat.ltb_spec (length (AsSlice a) + length r) (length (AsSlice a))); [lia|].
  by rewrite take_app_length, drop_app_length.
Qed.

Lemma addr_back a : plain_addr a -> reads_back readIPSetAddr (writeAddr a) a.
Proof.
  intros Ha. pose proof (AsSlice_length a Ha) as Hl. apply counted; [lia|]. intros r.
  assert (Hc : negb (zlen (AsSlice a) =? 4) && negb (zlen (AsSlice a) =? 16) = false)
    by (by destruct Hl as [-> | ->]).
  rewrite Hc, AsSlice_read by done. cbn [mbind res_bind].
  rewrite AddrFromIP_law by done. destruct Ha as (? & _ & ?). by rewrite AddrFromSlice_AsSlice.
Qed.

Lemma wf_prefix_plain p : wf_prefix p -> plain_addr (p_addr p).
Proof. intros (Hw & Hz & Hl & _). repeat split; [done| |done]. by destruct (p_addr p). Qed.

Lemma prefix_back p : wf_prefix p -> reads_back readPrefix (writePrefix p) p.
Proof.
  intros Hp. pose proof (wf_prefix_plain p Hp) as Ha. pose proof (AsSlice_length _ Ha) as Hl.
  unfold writePrefix, writeAddr. rewrite <- app_assoc. apply counted; [lia|]. intros r. rewrite <- app_assoc.
  assert (Hc : negb (zlen (AsSlice (p_addr p)) =? 4) && negb (zlen (AsSlice (p_addr p)) =? 16) = false)
    by (by destruct Hl as [-> | ->]).
  rewrite Hc, AsSlice_read by done. cbn [mbind res_bind app ReadByte].
  rewrite AddrFromIP_law by done. destruct Ha as (? & Hv & ?). rewrite AddrFromSlice_AsSlice by done.
  destruct Hp as (_ & Hz & Hb & Hr). assert (BitLen (p_addr p) <= 128) by (destruct (p_addr p); cbn; lia).
  rewrite u8_id by (unfold is_u8; lia). unfold PrefixFrom. rewrite Hv.
  rewrite !(proj2 (Z.leb_le _ _)) by lia. cbn [andb]. destruct p as [a b]. cbn [p_addr p_bits] in *.
  destruct a as [| |n z]; [done..|]. cbn [withoutZone]. cbn [hasZone] in Hz.
  by apply negb_false_iff, bool_decide_eq_true in Hz as ->.
Qed.

Lemma ipset_back l rr : SetRanges l = Some rr -> reads_back readIPSet (writeIPSet rr) rr.
Proof.
  intros Hs r. apply ranges_plain in Hs as [Hn Hrr]. unfold readIPSet, writeIPSet.
  cbn [app ReadByte mbind res_bind Z.eqb Pos.eqb negb]. unfold ReadUint, ReadFull.
  rewrite !length_app, length_put_be. rewrite (proj2 (Nat.ltb_ge _ _)) by lia. cbn [mbind res_bind].
  rewrite <- app_assoc, take_app_length', drop_app_length' by by rewrite length_put_be.
  pose proof (zlen_nonneg rr). rewrite get_put_be, Z.mod_small by (cbn; lia).
  apply (read_range_map read_pair).
  { unfold read_pair. takes_step; [apply takes_ipset_addr|]. takes_step; [apply takes_0, takes_ipset_addr|].
    takes_step. }
  eapply Forall_impl; [exact Hrr|]. intros [a b] [Ha Hb] r'. unfold read_pair.
  rewrite <- app_assoc, (addr_back a Ha). cbn [mbind res_bind]. by rewrite (addr_back b Hb).
Qed.

(** A string that has a length. *)
Definition small_string (s : string) : Prop := zlen (bytes_of s) < 2 ^ 64.

Definition small {A} (l : list A) : Prop := zlen l < 2 ^ 64.

Lemma string_back s : small_string s -> reads_back read_string (write_string s) s.
Proof.
  intros Hs r. unfold read_string, write_string. rewrite <- app_assoc.
  destruct (slice_law 1 (bytes_of s) r) as (e & _ & E); [lia|done| |].
  - eapply Forall_impl; [apply bytes_of_bytes|]. intros b Hb. unfold is_u8 in Hb. cbn. lia.
  - rewrite put_be_1 in E by apply bytes_of_bytes. rewrite E. cbn [mbind res_bind].
    by rewrite string_of_bytes_of.
Qed.

Definition good_strings (l : list string) : Prop := small l /\ Forall small_string l.

Lemma strings_back l :
  good_strings l -> reads_back readRuleItemString (WriteUvarint (zlen l) ++ concat (map write_string l)) l.
Proof.
  intros [Hn Hl]. pose proof (zlen_nonneg l). apply (counted (fun n => read_range n read_string)); [done|].
  apply read_range_map; [apply takes_string|]. eapply Forall_impl; [exact Hl|]. apply string_back.
Qed.

Lemma prefixes_back l : small l -> Forall wf_prefix l -> reads_back read_prefixes (write_prefixes l) l.
Proof.
  intros Hn Hl. pose proof (zlen_nonneg l). apply (counted (fun n => read_range n readPrefix)); [done|].
  apply read_range_map; [apply takes_prefix|]. eapply Forall_impl; [exact Hl|]. apply prefix_back.
Qed.

Definition good_entries (m : list (Z * list Prefix)) : Prop :=
  small m /\ NoDup (map fst m) /\ Forall (fun '(k, l) => is_u8 k /\ small l /\ Forall wf_prefix l) m.

Lemma put_entry_new key value m : key ∉ map fst m -> put_entry key value m = m ++ [(key, value)].
Proof.
  induction m as [|[k v] m IH]; [done|]. cbn [map fst put_entry app]. rewrite not_elem_of_cons.
  intros [Hk Hm]. destruct (Z.eqb_spec k key); [congruence|]. by rewrite IH.
Qed.

Lemma put_entries m acc :
  NoDup (map fst (acc ++ m)) -> foldl (fun m '(key, value) => put_entry key value m) acc m = acc ++ m.
Proof.
  revert acc. induction m as [|[k v] m IH]; intros acc Hn; cbn [foldl]; [by rewrite app_nil_r|].
  rewrite put_entry_new, IH; rewrite <- ?app_assoc; [done|done|].
  rewrite map_app in Hn. apply NoDup_app in Hn as (_ & Hd & _). intros Hk. apply (Hd k Hk). by left.
Qed.

Lemma entries_back m : good_entries m -> reads_back read_entries (write_entries m) m.
Proof.
  intros (Hn & Hd & Hm) r. pose proof (zlen_nonneg m). unfold read_entries, write_entries.
  rewrite <- app_assoc, uvarint_law by done. cbn [mbind res_bind].
  rewrite (read_range_map read_entry (fun '(key, value) => [u8 key] ++ write_prefixes value)).
  - cbn [mbind res_bind]. by rewrite (put_entries m []).
  - unfold read_entry. takes_step; [apply takes_byte|]. takes_step; [apply takes_0, takes_prefixes|]. takes_step.
  - eapply Forall_impl; [exact Hm|]. intros [k l] (Hk & Hl & Hp) r'. unfold read_entry.
    cbn [app ReadByte mbind res_bind]. rewrite prefixes_back by done. cbn [mbind res_bind].
    by rewrite u8_id.
Qed.

End back.

(** ** Default rules *)

Lemma write_all_Ret l out :
  write_all l = Ret out -> exists ss, Forall2 (fun w s => w = Ret s) l ss /\ out = concat ss.
Proof.
  revert out. induction l as [|w l IH]; intros out; cbn [write_all].
  { intros <-%Ret_inj. exists []. split; [constructor|done]. }
  destruct w as [a| |]; [|done..]. cbn [mbind res_bind].
  destruct (write_all l) as [b| |]; [|done..]. cbn [mbind res_bind]. intros <-%Ret_inj.
  destruct (IH b eq_refl) as (ss & Hss & ->). exists (a :: ss). split; [by constructor|done].
Qed.

Section default_rule.
Context {BL : BuildLib} {V : VarbinLib} {SL : SetLib} {ZL : ZlibLib}.
Context {VL : VarbinLaws V} {SLW : SetLaws BL SL} {ZLW : ZlibLaws ZL}.
Variable recover : bool.

(** Reading [sec] turns the rule read so far from [o] into [o']. *)
Definition reads (sec : list Z) (o o' : DefaultHeadlessOptions) : Prop :=
  forall fuel r, (length (sec ++ r) < fuel)%nat ->
    exists fuel', (length r < fuel')%nat /\
      readDefaultRule fuel recover o [] (sec ++ r) = readDefaultRule fuel' recover o' [] r.

Lemma reads_nil o : reads [] o o.
Proof. intros fuel r Hf. by exists fuel. Qed.

Lemma reads_app s s' o o1 o2 : reads s o o1 -> reads s' o1 o2 -> reads (s ++ s') o o2.
Proof.
  intros H H' fuel r Hf. rewrite <- app_assoc in *. destruct (H fuel (s' ++ r) Hf) as (f1 & Hf1 & ->).
  by apply H'.
Qed.

Lemma reads_item t bs o o' :
  t <> ruleItemFinal -> reads_back (read_item recover t o) bs (o', false) -> reads (t :: bs) o o'.
Proof.
  intros Ht Hb fuel r Hf. destruct fuel as [|fuel]; [simpl in Hf; lia|]. exists fuel. split.
  { simpl in Hf. rewrite length_app in Hf. lia. }
  cbn [readDefaultRule app ReadByte mbind res_bind].
  rewrite (proj2 (Z.eqb_neq _ _)) by done. by rewrite Hb.
Qed.

(** A section that is written when a field is set. *)
Lemma reads_if c since v t bs s o o' :
  write_if c since v (Ret (t :: bs)) = Ret s -> t <> ruleItemFinal ->
  (c = true -> reads_back (read_item recover t o) bs (o', false)) -> (c = false -> o' = o) ->
  reads s o o'.
Proof.
  unfold write_if. destruct c; intros Hw Ht Hr Ho.
  - destruct (v <? since); [done|]. apply Ret_inj in Hw as <-. apply reads_item; auto.
  - apply Ret_inj in Hw as <-. rewrite Ho by done. apply reads_nil.
Qed.

(** What the readers of the fields do with what the writers wrote. *)
Lemma into_back {A} (p : reader A) bs x (set : A -> DefaultHeadlessOptions) :
  reads_back p bs x -> reads_back (into p set) bs (set x, false).
Proof. intros H r. unfold into. by rewrite H. Qed.

Lemma slice_into_back w made l (set : list Z -> DefaultHeadlessOptions) :
  (0 < w)%nat -> l <> [] -> small l -> Forall (fun v => 0 <= v < 256 ^ Z.of_nat w) l ->
  reads_back (slice_into w made set) (WriteUvarint (zlen l) ++ concat (map (put_be w) l)) (set l, false).
Proof.
  intros Hpos Hne Hn Hl r. unfold slice_into. rewrite <- app_assoc.
  destruct (slice_law w l r Hpos Hn Hl) as (e & He & E). rewrite E. cbn [mbind res_bind]. rewrite He by done.
  destruct made; [|done]. by rewrite bool_decide_eq_false_2.
Qed.

Lemma nonnil_true {A} (l : list A) : nonnil l = true -> l <> [].
Proof. by destruct l. Qed.

Lemma nonnil_false {A} (l : list A) : nonnil l = false -> l = [].
Proof. by destruct l. Qed.

(** A field of strings. *)
Lemma reads_strings since v t l s o set :
  write_strings t since v l = Ret s -> t <> ruleItemFinal -> good_strings l ->
  read_item recover t o = into readRuleItemString set -> set [] = o ->
  reads s o (set l).
Proof.
  intros Hw Ht Hl Hi Hs. eapply reads_if; [exact Hw|done| |].
  - intros _. rewrite Hi. apply into_back. by apply strings_back.
  - intros ->%nonnil_false. done.
Qed.

(** A field of numbers. *)
Lemma reads_slice w made since v t l s o set :
  write_if (nonnil l) since v (Ret ([t] ++ WriteUvarint (zlen l) ++ concat (map (put_be w) l))) = Ret s ->
  (0 < w)%nat -> t <> ruleItemFinal -> small l -> Forall (fun v => 0 <= v < 256 ^ Z.of_nat w) l ->
  read_item recover t o = slice_into w made set -> set [] = o ->
  reads s o (set l).
Proof.
  intros Hw Hpos Ht Hn Hl Hi Hs. eapply reads_if; [exact Hw|done| |].
  - intros Hc%nonnil_true. rewrite Hi. by apply slice_into_back.
  - intros ->%nonnil_false. done.
Qed.

(** The domain conditions as they are read. *)
Definition domains_read (d s d' s' : list string) (m : option (string -> bool)) : Prop :=
  if nonnil d || nonnil s
  then m = Some (NewMatcher d s) /\ no_empty d' /\ no_empty s' /\
       (d' = [] /\ s' = [] \/ NewMatcher d' s' = NewMatcher d s)
  else d' = [] /\ s' = [] /\ m = None.

Lemma reads_domains v o d s sec :
  write_if (nonnil d || nonnil s) 0 v (Ret ([ruleItemDomain] ++ WriteMatcher d s (v =? RuleSetVersion1))) = Ret sec ->
  no_empty d -> no_empty s -> h_Domain o = [] -> h_DomainSuffix o = [] -> h_DomainMatcher o = None ->
  exists d' s' m, domains_read d s d' s' m /\
    reads sec o (set_DomainSuffix s' (set_Domain d' (set_DomainMatcher m o))).
Proof.
  intros Hw Hd Hs O1 O2 O3. unfold domains_read. destruct (nonnil d || nonnil s) eqn:Hc; last first.
  { exists [], [], None. split; [done|]. apply Ret_inj in Hw as <-.
    replace (set_DomainSuffix _ _) with o by (destruct o; simpl in *; by subst). apply reads_nil. }
  destruct (matcher_law d s (v =? RuleSetVersion1) Hd Hs) as (m & Hm & E1 & E2 & E3 & E4).
  exists (if recover then fst (Dump m) else []), (if recover then snd (Dump m) else []), (Some (MatchDomain m)).
  split.
  { destruct recover; rewrite E1; (split; [done|]); [by split_and!; [| |right]|].
    split_and!; [apply not_elem_of_nil..|by left]. }
  eapply reads_if; [exact Hw|done| |done]. intros _.
  replace (set_DomainSuffix _ _) with
    (let o := set_DomainMatcher (Some (MatchDomain m)) o in
     if recover then set_DomainSuffix (snd (Dump m)) (set_Domain (fst (Dump m)) o) else o)
    by (destruct recover, o; simpl in *; by subst).
  by apply (into_back ReadMatcher _ m (fun matcher =>
    let o := set_DomainMatcher (Some (MatchDomain matcher)) o in
    if recover then set_DomainSuffix (snd (Dump matcher)) (set_Domain (fst (Dump matcher)) o) else o)).
Qed.

(** AdGuard conditions as they are read. *)
Definition adguard_read (l l' : list string) (m : option (string -> bool)) : Prop :=
  if nonnil l
  then m = Some (NewAdGuardMatcher l) /\ (l' = [] \/ NewAdGuardMatcher l' = NewAdGuardMatcher l)
  else l' = [] /\ m = None.

Lemma reads_adguard v o l sec :
  write_if (nonnil l) RuleSetVersion2 v (Ret ([ruleItemAdGuardDomain] ++ WriteAdGuardMatcher l)) = Ret sec ->
  h_AdGuardDomain o = [] -> h_AdGuardDomainMatcher o = None ->
  exists l' m, adguard_read l l' m /\
    reads sec o (set_AdGuardDomain l' (set_AdGuardDomainMatcher m o)).
Proof.
  intros Hw O1 O2. unfold adguard_read. destruct (nonnil l) eqn:Hc; last first.
  { exists [], None. split; [done|]. apply Ret_inj in Hw as <-.
    replace (set_AdGuardDomain _ _) with o by (destruct o; simpl in *; by subst). apply reads_nil. }
  destruct (adguard_law l) as (m & Hm & E1 & E2).
  exists (if recover then DumpAdGuard m else []), (Some (MatchAdGuard m)).
  split; [destruct recover; rewrite E1; (split; [done|]); [by right|by left]|].
  eapply reads_if; [exact Hw|done| |done]. intros _.
  replace (set_AdGuardDomain _ _) with
    (let o := set_AdGuardDomainMatcher (Some (MatchAdGuard m)) o in
     if recover then set_AdGuardDomain (DumpAdGuard m) o else o)
    by (destruct recover, o; simpl in *; by subst).
  by apply (into_back ReadAdGuardMatcher _ m (fun matcher =>
    let o := set_AdGuardDomainMatcher (Some (MatchAdGuard matcher)) o in
    if recover then set_AdGuardDomain (DumpAdGuard matcher) o else o)).
Qed.

(** Address conditions as they are read. *)
Definition cidrs_read (l l' : list string) (set : option (Addr -> bool)) : Prop :=
  if nonnil l
  then exists b f, parse_cidrs l = Ret b /\ IPSet b = Some f /\ set = Some f /\
       (l' = [] \/ exists b', parse_cidrs l' = Ret b' /\ IPSet b' = Some f)
  else l' = [] /\ set = None.

Lemma reads_cidrs v t o l sec set dump :
  write_if (nonnil l) 0 v (writeRuleItemCIDR t l) = Ret sec -> t <> ruleItemFinal ->
  read_item recover t o = read_set recover (fun s => set (Some s)) dump ->
  dump [] (set None) = o -> (forall s, dump [] (set s) = set s) ->
  exists l' s, cidrs_read l l' s /\ reads sec o (dump l' (set s)).
Proof.
  intros Hw Ht Hi Ho Hs. unfold cidrs_read. unfold write_if in Hw.
  destruct (nonnil l) eqn:Hc; last first.
  { exists [], None. split; [done|]. apply Ret_inj in Hw as <-. rewrite Ho. apply reads_nil. }
  destruct (v <? 0); [done|]. unfold writeRuleItemCIDR in Hw.
  destruct (parse_cidrs l) as [b| |] eqn:Eb; [|done..]. cbn [mbind res_bind] in Hw.
  destruct (SetRanges b) as [rr|] eqn:Er; [|done]. apply Ret_inj in Hw as <-.
  pose proof (ranges_law b) as Hb. rewrite Er in Hb. cbn in Hb.
  exists (if recover then Prefixes rr else []), (Some (SetContains rr)). split.
  { exists b, (SetContains rr). split_and!; [done..|]. destruct recover; [right|by left].
    destruct (prefixes_law b rr Er) as (b' & E1 & E2). exists b'. split; [done|].
    rewrite ranges_law, E2. done. }
  apply reads_item; [done|]. rewrite Hi. unfold read_set.
  replace (dump _ _) with (let o := set (Some (SetContains rr)) in if recover then dump (Prefixes rr) o else o)
    by (destruct recover; [done|by rewrite Hs]).
  apply (into_back readIPSet _ rr (fun rr =>
    let o := set (Some (SetContains rr)) in if recover then dump (Prefixes rr) o else o)).
  by eapply ipset_back.
Qed.

(** A flag. *)
Lemma reads_flag since v t c s o (set : bool -> DefaultHeadlessOptions) :
  write_if c since v (Ret [t]) = Ret s -> t <> ruleItemFinal ->
  (forall r, read_item recover t o r = Ret ((set true, false), r)) -> set false = o ->
  reads s o (set c).
Proof.
  intros Hw Ht Hi Ho. eapply reads_if; [exact Hw|done| |by intros ->].
  intros ->. exact Hi.
Qed.

(** The addresses of interfaces. *)
Lemma reads_interfaces v s m o :
  write_if (nonnil m) RuleSetVersion4 v (Ret ([ruleItemNetworkInterfaceAddress] ++ write_entries m)) = Ret s ->
  good_entries m -> set_NetworkInterfaceAddress [] o = o ->
  reads s o (set_NetworkInterfaceAddress m o).
Proof.
  intros Hw Hm Ho. eapply reads_if; [exact Hw|done| |by intros ->%nonnil_false].
  intros Hc%nonnil_true r. change (read_item recover ruleItemNetworkInterfaceAddress o (write_entries m ++ r)) with
    ('(m, r) ← read_entries (write_entries m ++ r);
     Ret ((set_NetworkInterfaceAddress m o, bool_decide (m = [])), r)).
  rewrite entries_back by done. cbn [mbind res_bind]. by rewrite bool_decide_eq_false_2.
Qed.

Lemma reads_default_interface v s l o :
  write_if (nonnil l) RuleSetVersion4 v (Ret ([ruleItemDefaultInterfaceAddress] ++ write_prefixes l)) = Ret s ->
  small l -> Forall wf_prefix l -> set_DefaultInterfaceAddress [] o = o ->
  reads s o (set_DefaultInterfaceAddress l o).
Proof.
  intros Hw Hn Hl Ho. eapply reads_if; [exact Hw|done| |by intros ->%nonnil_false].
  intros _. apply (into_back read_prefixes _ l (fun v => set_DefaultInterfaceAddress v o)).
  by apply prefixes_back.
Qed.

(** Options that [Write] is given: numbers of their width, lengths that fit,
    well-formed prefixes, names that are not empty, and nothing that was read
    from another file. *)
Record writable (o : DefaultHeadlessOptions) : Prop := {
  w_QueryType : small (h_QueryType o) /\ Forall (fun v => 0 <= v < 2 ^ 16) (h_QueryType o);
  w_SourcePort : small (h_SourcePort o) /\ Forall (fun v => 0 <= v < 2 ^ 16) (h_SourcePort o);
  w_Port : small (h_Port o) /\ Forall (fun v => 0 <= v < 2 ^ 16) (h_Port o);
  w_NetworkType : small (h_NetworkType o) /\ Forall (fun v => 0 <= v < 2 ^ 8) (h_NetworkType o);
  w_strings : Forall good_strings [h_Network o; h_DomainKeyword o; h_DomainRegex o; h_SourcePortRange o;
    h_PortRange o; h_ProcessName o; h_ProcessPath o; h_ProcessPathRegex o; h_PackageName o;
    h_PackageNameRegex o; h_WIFISSID o; h_WIFIBSSID o];
  w_names : no_empty (h_Domain o) /\ no_empty (h_DomainSuffix o);
  w_interfaces : good_entries (h_NetworkInterfaceAddress o);
  w_default_interface : small (h_DefaultInterfaceAddress o) /\ Forall wf_prefix (h_DefaultInterfaceAddress o);
  w_plain : h_DomainMatcher o = None /\ h_SourceIPSet o = None /\ h_IPSet o = None /\
    h_AdGuardDomainMatcher o = None /\ h_EmptyField o = false
}.

(** The options that are read: the same but for names and addresses, which
    come as compiled matchers and, when recovered, as lists that compile to
    them. *)
Inductive read_as (o : DefaultHeadlessOptions) : DefaultHeadlessOptions -> Prop :=
| read_as_intro d s m src srcset dst dstset ad adm :
    domains_read (h_Domain o) (h_DomainSuffix o) d s m ->
    cidrs_read (h_SourceIPCIDR o) src srcset -> cidrs_read (h_IPCIDR o) dst dstset ->
    adguard_read (h_AdGuardDomain o) ad adm ->
    read_as o (mkHeadless (h_QueryType o) (h_Network o) d s (h_DomainKeyword o) (h_DomainRegex o) src dst
      (h_SourcePort o) (h_SourcePortRange o) (h_Port o) (h_PortRange o) (h_ProcessName o)
      (h_ProcessPath o) (h_ProcessPathRegex o) (h_PackageName o) (h_PackageNameRegex o)
      (h_NetworkType o) (h_NetworkIsExpensive o) (h_NetworkIsConstrained o) (h_WIFISSID o)
      (h_WIFIBSSID o) (h_NetworkInterfaceAddress o) (h_DefaultInterfaceAddress o) (h_Invert o)
      m srcset dstset ad adm false).

Lemma reads_final o (invert : bool) r fuel :
  (S (length r) < fuel)%nat ->
  readDefaultRule fuel recover o [] (ruleItemFinal :: (if invert then 1 else 0) :: r)
  = Ret (set_EmptyField false (set_Invert invert o), r).
Proof.
  destruct fuel as [|fuel]; [simpl; lia|]. intros _. cbn [readDefaultRule ReadByte mbind res_bind].
  change (ruleItemFinal =? ruleItemFinal) with true. cbv iota. unfold ReadBool.
  cbn [ReadByte mbind res_bind]. by destruct invert.
Qed.

(** The tactics for the next section: [H] says what was read so far. *)
Ltac chain H L :=
  let H' := fresh in assert (H' := reads_app _ _ _ _ _ H L); cbv beta in H'; clear H; rename H' into H.

Ltac interface_field E G :=
  match goal with H : reads _ _ ?o |- _ => chain H (reads_interfaces _ _ _ o E G eq_refl) end.

Ltac default_interface_field E N F :=
  match goal with H : reads _ _ ?o |- _ => chain H (reads_default_interface _ _ _ o E N F eq_refl) end.

Ltac string_field E G set :=
  match goal with
  | H : reads _ _ ?o |- _ =>
    chain H (reads_strings _ _ _ _ _ o (fun x => set x o) E ltac:(done) G eq_refl eq_refl)
  end.

Ltac slice_field E N F w made set :=
  match goal with
  | H : reads _ _ ?o |- _ =>
    chain H (reads_slice w made _ _ _ _ _ o (fun x => set x o) E ltac:(lia) ltac:(done) N F eq_refl eq_refl)
  end.

Ltac flag_field E set :=
  match goal with
  | H : reads _ _ ?o |- _ =>
    chain H (reads_flag _ _ _ _ _ o (fun c => set c o) E ltac:(done) (fun r => eq_refl) eq_refl)
  end.

Ltac domain_field E :=
  match goal with
  | H : reads _ _ ?o, D1 : no_empty _, D2 : no_empty _ |- _ =>
    let H' := fresh in
    destruct (reads_domains _ o _ _ _ E D1 D2 eq_refl eq_refl eq_refl) as (? & ? & ? & ? & H');
    chain H H'; clear H'
  end.

Ltac adguard_field E :=
  match goal with
  | H : reads _ _ ?o |- _ =>
    let H' := fresh in
    destruct (reads_adguard _ o _ _ E eq_refl eq_refl) as (? & ? & ? & H'); chain H H'; clear H'
  end.

Ltac cidr_field E set dump :=
  match goal with
  | H : reads _ _ ?o |- _ =>
    let H' := fresh in
    destruct (reads_cidrs _ _ o _ _ (fun s => set s o) dump E ltac:(done) eq_refl eq_refl (fun s => eq_refl))
      as (? & ? & ? & H');
    chain H H'; clear H'
  end.

Lemma default_body_reads o v bs :
  writable o -> writeDefaultRule o v = Ret bs ->
  exists body o', bs = 0 :: body ++ [ruleItemFinal; if h_Invert o then 1 else 0] /\
    reads body zero_options o' /\ read_as o (set_EmptyField false (set_Invert (h_Invert o) o')).
Proof.
  intros Ho Hw. unfold writeDefaultRule in Hw. apply write_all_Ret in Hw as (ss & Hss & ->).
  destruct Ho as [[Q1 Q2] [S1 S2] [P1 P2] [T1 T2] Hstr [D1 D2] HI [DI1 DI2] HP].
  rewrite !Forall_cons in Hstr.
  destruct Hstr as (G1 & G2 & G3 & G4 & G5 & G6 & G7 & G8 & G9 & G10 & G11 & G12 & _).
  repeat match type of Hss with
  | Forall2 _ (_ :: _) _ => let y := fresh "s" in let E := fresh "E" in
      apply Forall2_cons_inv_l in Hss as (y & ? & E & Hss & ->)
  | Forall2 _ [] _ => apply Forall2_nil_inv_l in Hss as ->
  end.
  assert (H := reads_nil zero_options).
  slice_field E0 Q1 Q2 2%nat true set_QueryType. string_field E1 G1 set_Network.
  domain_field E2. string_field E3 G2 set_DomainKeyword. string_field E4 G3 set_DomainRegex.
  cidr_field E5 set_SourceIPSet set_SourceIPCIDR. cidr_field E6 set_IPSet set_IPCIDR.
  slice_field E7 S1 S2 2%nat false set_SourcePort. string_field E8 G4 set_SourcePortRange.
  slice_field E9 P1 P2 2%nat false set_Port. string_field E10 G5 set_PortRange.
  string_field E11 G6 set_ProcessName. string_field E12 G7 set_ProcessPath.
  string_field E13 G8 set_ProcessPathRegex. string_field E14 G9 set_PackageName.
  string_field E15 G10 set_PackageNameRegex. slice_field E16 T1 T2 1%nat false set_NetworkType.
  flag_field E17 set_NetworkIsExpensive. flag_field E18 set_NetworkIsConstrained.
  interface_field E19 HI. default_interface_field E20 DI1 DI2.
  string_field E21 G11 set_WIFISSID. string_field E22 G12 set_WIFIBSSID.
  adguard_field E23. apply Ret_inj in E as <-. apply Ret_inj in E24 as <-.
  eexists _, _. split; [|split; [exact H|by apply read_as_intro]].
  cbn [concat]. by rewrite <- !app_assoc.
Qed.

End default_rule.

(** ** Rules that match the same *)

Section build_back.
Context {BL : BuildLib} {T : TrimLib} {V : VarbinLib} {SL : SetLib}.

(** A build step that does at least what another does. *)
Definition follows (f g : RuleBody -> res RuleBody) : Prop := forall b b', f b = Ret b' -> g b = Ret b'.

Lemma follows_refl f : follows f f.
Proof. by intros b b'. Qed.

Lemma follows_bind f f' g g' :
  follows f f' -> follows g g' -> follows (fun b => b ← f b; g b) (fun b => b ← f' b; g' b).
Proof.
  intros Hf Hg b b'. destruct (f b) as [b1| |] eqn:E; [|done..]. cbn [mbind res_bind].
  intros H. rewrite (Hf _ _ E). by apply Hg.
Qed.

Lemma NewDomainItem_eq d s :
  no_empty d -> no_empty s -> NewDomainItem NewMatcher d s = Ret (DomainItem (NewMatcher d s)).
Proof. intros Hd Hs. unfold NewDomainItem. by rewrite !bool_decide_eq_false_2. Qed.

Lemma follows_domains d s d' s' m add :
  no_empty d -> no_empty s -> domains_read d s d' s' m ->
  follows (add_or (nonnil d || nonnil s) (NewDomainItem NewMatcher d s) None DomainItem add)
    (add_or (nonnil d' || nonnil s') (NewDomainItem NewMatcher d' s') m DomainItem add).
Proof.
  intros Hd Hs. unfold domains_read. destruct (nonnil d || nonnil s); last first.
  { intros (-> & -> & ->). by intros b b'. }
  intros (-> & Hd' & Hs' & Hm) b b'. unfold add_or. rewrite !NewDomainItem_eq by done.
  destruct Hm as [[-> ->]| ->]; [done|]. by destruct (nonnil d' || nonnil s').
Qed.

Lemma NewIPCIDRItem_eq src l b f :
  parse_cidrs l = Ret b -> IPSet b = Some f -> NewIPCIDRItem src l = Ret (IPCIDRItem src f).
Proof. intros E1 E2. unfold NewIPCIDRItem. rewrite E1. cbn [mbind res_bind]. by rewrite E2. Qed.

Lemma follows_cidrs src l l' set add :
  cidrs_read l l' set ->
  follows (add_or (nonnil l) (NewIPCIDRItem src l) None (IPCIDRItem src) add)
    (add_or (nonnil l') (NewIPCIDRItem src l') set (IPCIDRItem src) add).
Proof.
  unfold cidrs_read. destruct (nonnil l); last first.
  { intros [-> ->]. by intros b b'. }
  intros (b & f & E1 & E2 & -> & Hl) b0 b'. unfold add_or. rewrite (NewIPCIDRItem_eq src l b f) by done.
  destruct Hl as [-> |(b1 & E3 & E4)]; [done|]. rewrite (NewIPCIDRItem_eq src l' b1 f) by done.
  by destruct (nonnil l').
Qed.

Lemma follows_adguard l l' m add :
  adguard_read l l' m ->
  follows (add_or (nonnil l) (Ret (AdGuardDomainItem (NewAdGuardMatcher l))) None AdGuardDomainItem add)
    (add_or (nonnil l') (Ret (AdGuardDomainItem (NewAdGuardMatcher l'))) m AdGuardDomainItem add).
Proof.
  unfold adguard_read. destruct (nonnil l); last first.
  { intros [-> ->]. by intros b b'. }
  intros [-> [-> | ->]] b b'; unfold add_or; [done|]. by destruct (nonnil l').
Qed.

Lemma read_as_builds o o' nm rule :
  writable o -> read_as o o' ->
  NewDefaultHeadlessRule nm o = Ret rule -> NewDefaultHeadlessRule nm o' = Ret rule.
Proof.
  intros Hw Hr. destruct (w_names o Hw) as [Hd Hs]. destruct (w_plain o Hw) as (P1 & P2 & P3 & P4 & _).
  destruct Hr as [d s m src ss dst ds ad adm H1 H2 H3 H4].
  unfold NewDefaultHeadlessRule. cbn [h_Invert].
  assert (Hf : follows (add_conditions nm o) (add_conditions nm (mkHeadless (h_QueryType o) (h_Network o) d s
      (h_DomainKeyword o) (h_DomainRegex o) src dst
      (h_SourcePort o) (h_SourcePortRange o) (h_Port o) (h_PortRange o) (h_ProcessName o)
      (h_ProcessPath o) (h_ProcessPathRegex o) (h_PackageName o) (h_PackageNameRegex o)
      (h_NetworkType o) (h_NetworkIsExpensive o) (h_NetworkIsConstrained o) (h_WIFISSID o)
      (h_WIFIBSSID o) (h_NetworkInterfaceAddress o) (h_DefaultInterfaceAddress o) (h_Invert o)
      m ss ds ad adm false))).
  { apply follows_bind; [apply follows_refl|]. apply follows_bind; [apply follows_refl|].
    apply follows_bind.
    { unfold add_destinations. rewrite P1. apply follows_bind; [by apply follows_domains|apply follows_refl]. }
    apply follows_bind.
    { unfold add_addresses. rewrite P2, P3. apply follows_bind; by apply follows_cidrs. }
    apply follows_bind; [apply follows_refl|]. apply follows_bind; [apply follows_refl|].
    apply follows_bind; [apply follows_refl|]. rewrite P4. by apply follows_adguard. }
  destruct (add_conditions nm o empty_body) as [b| |] eqn:E; [|done..]. rewrite (Hf _ _ E). done.
Qed.

Lemma read_as_valid o o' : writable o -> read_as o o' -> RuleBuild.IsValid o = true -> RuleBuild.IsValid o' = true.
Proof.
  intros Hw Hr. destruct (w_plain o Hw) as (P1 & P2 & P3 & P4 & P5).
  destruct Hr as [d s m src ss dst ds ad adm H1 H2 H3 H4]. unfold RuleBuild.IsValid. cbn.
  rewrite P1, P2, P3, P4, P5. cbn [given].
  assert (E1 : nonnil (h_Domain o) || nonnil (h_DomainSuffix o) = true -> given m = true)
    by (unfold domains_read in H1; intros E; rewrite E in H1; by destruct H1 as (-> & _)).
  assert (E2 : nonnil (h_SourceIPCIDR o) = true -> given ss = true)
    by (unfold cidrs_read in H2; intros E; rewrite E in H2; by destruct H2 as (? & ? & _ & _ & -> & _)).
  assert (E3 : nonnil (h_IPCIDR o) = true -> given ds = true)
    by (unfold cidrs_read in H3; intros E; rewrite E in H3; by destruct H3 as (? & ? & _ & _ & -> & _)).
  assert (E4 : nonnil (h_AdGuardDomain o) = true -> given adm = true)
    by (unfold adguard_read in H4; intros E; rewrite E in H4; by destruct H4 as [-> _]).
  clear H1 H2 H3 H4. rewrite orb_true_iff in E1. rewrite !orb_true_iff. tauto.
Qed.

End build_back.

(** ** Whole rules *)

Fixpoint rule_depth (r : HeadlessRule) : Z :=
  match r with
  | HeadlessLogical _ rules _ =>
    1 + (fix deepest (l : list HeadlessRule) : Z :=
           match l with [] => 0 | x :: l => Z.max (rule_depth x) (deepest l) end) rules
  | _ => 0
  end.

Inductive writable_rule : HeadlessRule -> Prop :=
| writable_default o : writable o -> writable_rule (HeadlessDefault o)
| writable_logical mode rules invert :
    small rules -> Forall writable_rule rules -> writable_rule (HeadlessLogical mode rules invert).

Section rules_back.
Context {BL : BuildLib} {T : TrimLib} {V : VarbinLib} {SL : SetLib} {ZL : ZlibLib}.
Context {VL : VarbinLaws V} {SLW : SetLaws BL SL} {ZLW : ZlibLaws ZL}.

(** [r'] is valid and builds when [r] is and does, to the same rule. *)
Definition same_rule (r r' : HeadlessRule) : Prop :=
  (headless_IsValid r = Ret true -> headless_IsValid r' = Ret true) /\
  (forall nm rule, NewHeadlessRule nm r = Ret rule -> NewHeadlessRule nm r' = Ret rule).

Lemma same_default o o' : writable o -> read_as o o' -> same_rule (HeadlessDefault o) (HeadlessDefault o').
Proof.
  intros Hw Hr. split.
  - cbn [headless_IsValid]. intros E%Ret_inj. by rewrite (read_as_valid o o').
  - intros nm rule. cbn [NewHeadlessRule]. destruct (RuleBuild.IsValid o) eqn:Hv; [|done].
    rewrite (read_as_valid o o') by done. cbn [negb]. by apply read_as_builds.
Qed.

Lemma same_logical mode rules rules' invert :
  Forall2 same_rule rules rules' ->
  same_rule (HeadlessLogical mode rules invert) (HeadlessLogical mode rules' invert).
Proof.
  intros Hs.
  assert (Hv : headless_IsValid (HeadlessLogical mode rules invert) = Ret true ->
    headless_IsValid (HeadlessLogical mode rules' invert) = Ret true).
  { cbn [headless_IsValid]. destruct Hs as [|r r' l l' [Hr _] Hs]; [done|]. cbn [nonnil].
    destruct (headless_IsValid r) as [[]| |]; [|done..]. rewrite Hr by done. cbn [mbind res_bind].
    induction Hs as [|x x' l l' [Hx _] _ IH]; [done|].
    destruct (headless_IsValid x) as [[]| |]; [|done..]. rewrite Hx by done. exact IH. }
  split; [exact Hv|]. intros nm rule. cbn [NewHeadlessRule].
  destruct (headless_IsValid (HeadlessLogical mode rules invert)) as [ok| |]; [|done..].
  destruct ok; [|done]. rewrite Hv by done. cbn [mbind res_bind negb].
  destruct (parse_mode mode) as [m| |]; [|done..]. cbn [mbind res_bind].
  set (build := fix build (l : list HeadlessRule) : res (list Rule) := _).
  assert (Hb : forall out, build rules = Ret out -> build rules' = Ret out).
  { clear Hv. induction Hs as [|x x' l l' [_ Hx] _ IH]; [done|]. intros out. cbn [build].
    destruct (NewHeadlessRule nm x) as [y| |] eqn:Ex; [|done..]. rewrite (Hx _ _ Ex). cbn [mbind res_bind].
    destruct (build l) as [ys| |]; [|done..]. by rewrite (IH ys). }
  destruct (build rules) as [out| |]; [|done..]. by rewrite (Hb out).
Qed.

(** The rules of a list, written one after the other. *)
Definition back_at (recover : bool) (r : HeadlessRule) (s : list Z) (r' : HeadlessRule) : Prop :=
  same_rule r r' /\ forall fuel depth,
    rule_depth r + depth <= maxLogicalRuleDepth -> maxLogicalRuleDepth < depth + Z.of_nat fuel ->
    reads_back (readRule fuel recover depth) s r'.

Lemma rules_back recover v rules :
  Forall (fun r => forall s, writable_rule r -> writeRule r v = Ret s -> exists r', back_at recover r s r') rules ->
  Forall writable_rule rules -> forall body, write_all (map (fun r => writeRule r v) rules) = Ret body ->
  exists ss rules', body = concat ss /\ Forall2 same_rule rules rules' /\
    forall fuel depth, Forall (fun r => rule_depth r + depth <= maxLogicalRuleDepth) rules ->
      maxLogicalRuleDepth < depth + Z.of_nat fuel ->
      Forall2 (reads_back (readRule fuel recover depth)) ss rules'.
Proof.
  intros H Hw. induction H as [|r l Hr _ IH]; intros body; cbn [map write_all].
  { intros <-%Ret_inj. exists [], []. split; [done|]. split; [constructor|]. intros. constructor. }
  apply Forall_cons in Hw as [Hwr Hwl].
  destruct (writeRule r v) as [a| |] eqn:Er; [|done..]. cbn [mbind res_bind].
  destruct (write_all (map _ l)) as [b| |] eqn:El; [|done..]. cbn [mbind res_bind]. intros <-%Ret_inj.
  destruct (Hr a Hwr eq_refl) as (r' & Hs & Hb). destruct (IH Hwl b eq_refl) as (ss & rs & -> & Hss & Hbs).
  exists (a :: ss), (r' :: rs). split; [done|]. split; [by constructor|].
  intros fuel depth [Hd Hds]%Forall_cons Hf. constructor; auto.
Qed.

Lemma write_rules_all v rules :
  (fix write_rules (l : list HeadlessRule) : res (list Z) :=
     match l with
     | [] => Ret []
     | x :: l => a ← writeRule x v; b ← write_rules l; Ret (a ++ b)
     end) rules = write_all (map (fun r => writeRule r v) rules).
Proof. induction rules as [|x l IH]; [done|]. cbn [map write_all]. by rewrite IH. Qed.

Lemma Forall2_zlen {A B} (P : A -> B -> Prop) l k : Forall2 P l k -> zlen l = zlen k.
Proof. intros H. unfold zlen. by rewrite (Forall2_length _ _ _ H). Qed.

Lemma deepest_bound l depth m :
  (fix deepest (l : list HeadlessRule) : Z :=
     match l with [] => 0 | x :: l => Z.max (rule_depth x) (deepest l) end) l + depth <= m ->
  Forall (fun r => rule_depth r + depth <= m) l.
Proof. induction l as [|x l IH]; constructor; [lia|]. apply IH. lia. Qed.

Lemma deepest_nonneg l :
  0 <= (fix deepest (l : list HeadlessRule) : Z :=
          match l with [] => 0 | x :: l => Z.max (rule_depth x) (deepest l) end) l.
Proof. induction l as [|x l IH]; lia. Qed.

Lemma write_mode_back mode m :
  write_mode mode = Ret m ->
  (if m =? 0 then Ret "and"%string else if m =? 1 then Ret "or"%string else Err "unknown logical mode") = Ret mode.
Proof.
  unfold write_mode. destruct (decide (mode = "and"%string)) as [->|]; [by intros <-%Ret_inj|].
  destruct (decide (mode = "or"%string)) as [->|]; [by intros <-%Ret_inj|done].
Qed.

Lemma rule_back recover v r s :
  writable_rule r -> writeRule r v = Ret s -> exists r', back_at recover r s r'.
Proof.
  revert s. induction r as [o|mode rules invert IH|t] using HeadlessRule_nested_ind; intros s Hw; [| |done].
  - inversion Hw as [? Ho|]; subst. cbn [writeRule]. intros Hs.
    destruct (default_body_reads recover o v s Ho Hs) as (body & o' & -> & Hb & Hr).
    eexists (HeadlessDefault _). split; [by apply same_default|]. intros fuel depth Hd Hf rest.
    destruct fuel as [|fuel]; [cbn [rule_depth] in Hd; lia|]. cbn [readRule rule_depth] in *.
    rewrite (proj2 (Z.ltb_ge _ _)) by lia. cbn [app ReadByte mbind res_bind Z.eqb].
    rewrite <- app_assoc. cbn [app].
    destruct (Hb (S (length (body ++ ruleItemFinal :: (if h_Invert o then 1 else 0) :: rest)))
      (ruleItemFinal :: (if h_Invert o then 1 else 0) :: rest)) as (f & Hf' & ->); [lia|].
    rewrite reads_final by (cbn [length] in Hf'; lia). done.
  - inversion Hw as [|? ? ? Hn Hrs]; subst. cbn [writeRule].
    destruct (write_mode mode) as [m| |] eqn:Em; [|done..]. cbn [mbind res_bind]. rewrite write_rules_all.
    destruct (write_all _) as [body| |] eqn:Eb; [|done..]. cbn [mbind res_bind]. intros <-%Ret_inj.
    destruct (rules_back recover v rules IH Hrs body Eb) as (ss & rules' & -> & Hsame & Hback).
    exists (HeadlessLogical mode rules' invert). split; [by apply same_logical|].
    intros fuel depth Hd Hf rest. cbn [rule_depth] in Hd. pose proof (deepest_nonneg rules).
    destruct fuel as [|fuel]; [lia|]. cbn [readRule]. rewrite (proj2 (Z.ltb_ge _ _)) by lia.
    cbn [app ReadByte mbind res_bind Z.eqb Pos.eqb]. rewrite (write_mode_back mode m Em). cbn [mbind res_bind].
    pose proof (zlen_nonneg rules). rewrite <- !app_assoc, uvarint_law by done. cbn [mbind res_bind].
    rewrite (Forall2_zlen _ _ _ Hsame). rewrite read_range_concat.
    + cbn [mbind res_bind app]. unfold ReadBool. cbn [ReadByte mbind res_bind]. by destruct invert.
    + apply takes_rule. lia.
    + apply Hback; [apply deepest_bound; lia|lia].
Qed.

(** C4: A rule set written to a file and read back matches the same
    connections.  For any options that can be written, in any version that
    supports them, reading the file gives the version and rules that build to
    the same rules as the originals (whether or not the lists of names and
    addresses are recovered for decompiling), as long as rules are nested at
    most 100 deep. *)
Theorem srs_roundtrip recover rules v file :
  0 < v <= RuleSetVersionCurrent -> small rules -> Forall writable_rule rules ->
  Forall (fun r => rule_depth r <= maxLogicalRuleDepth) rules ->
  Write rules v = Ret file ->
  exists rules', Read recover file = Ret (v, rules') /\ Forall2 same_rule rules rules'.
Proof.
  intros Hv Hn Hw Hd. unfold Write. destruct (write_all _) as [body| |] eqn:Eb; [|done..].
  cbn [mbind res_bind]. intros <-%Ret_inj.
  destruct (rules_back recover v rules) with body as (ss & rules' & -> & Hsame & Hback); [|done..|].
  { apply Forall_true. intros r s. apply rule_back. }
  exists rules'. split; [|done]. unfold Read, ReadFull.
  cbn [MagicBytes app length]. rewrite (proj2 (Nat.ltb_ge _ _)) by lia. cbn [mbind res_bind take drop].
  rewrite bool_decide_eq_true_2 by done. cbn [negb ReadByte mbind res_bind].
  rewrite (proj2 (Z.ltb_ge _ _)) by lia. rewrite zlib_law. cbn [mbind res_bind].
  pose proof (zlen_nonneg rules). rewrite uvarint_law by done. cbn [mbind res_bind].
  rewrite (Forall2_zlen _ _ _ Hsame). rewrite <- (app_nil_r (concat ss)), read_range_concat; [done| |].
  - by apply takes_rule.
  - apply Hback; [|done]. eapply Forall_impl; [exact Hd|]. intros r Hr. cbv beta in *. lia.
Qed.

End rules_back.

(** ** The version of a compiled file *)

Section versions.
Context {BL : BuildLib} {V : VarbinLib} {SL : SetLib} {ZL : ZlibLib}.

Definition succeeds {A} (r : res A) : Prop := exists x, r = Ret x.

Lemma write_all_succeeds l : succeeds (write_all l) <-> Forall succeeds l.
Proof.
  induction l as [|w l IH]; cbn [write_all].
  { split; [constructor|]. intros _. by exists []. }
  rewrite Forall_cons, <- IH. split.
  - intros [x Hx]. destruct w as [a| |]; [|done..]. cbn [mbind res_bind] in Hx.
    destruct (write_all l) as [b| |]; [|done..]. split; by eexists.
  - intros [[a ->] [b E]]. rewrite E. by eexists.
Qed.

Lemma write_if_succeeds c since v w :
  succeeds (write_if c since v w) <-> (c = true -> since <= v /\ succeeds w).
Proof.
  unfold write_if. destruct c; [|split; [done|by exists []]].
  destruct (Z.ltb_spec v since).
  - split; [by intros [? ?]|]. intros H'. destruct (H' eq_refl). lia.
  - split; [done|]. intros H'. by apply H'.
Qed.

Definition needs2 (o : DefaultHeadlessOptions) : bool := nonnil (h_AdGuardDomain o).

(** The version an option needs. *)
Definition gate (v : Z) (o : DefaultHeadlessOptions) : Prop :=
  (needs5 o = true -> RuleSetVersion5 <= v) /\ (needs4 o = true -> RuleSetVersion4 <= v) /\
  (needs3 o = true -> RuleSetVersion3 <= v) /\ (needs2 o = true -> RuleSetVersion2 <= v).

(** What can be written whatever the version. *)
Definition cidrs_ok (o : DefaultHeadlessOptions) : Prop :=
  (nonnil (h_SourceIPCIDR o) = true -> succeeds (writeRuleItemCIDR ruleItemSourceIPCIDR (h_SourceIPCIDR o))) /\
  (nonnil (h_IPCIDR o) = true -> succeeds (writeRuleItemCIDR ruleItemIPCIDR (h_IPCIDR o))).

Lemma succeeds_Ret {A} (x : A) : succeeds (Ret x).
Proof. by exists x. Qed.

Lemma writeDefaultRule_succeeds o v :
  0 <= v -> succeeds (writeDefaultRule o v) <-> gate v o /\ cidrs_ok o.
Proof.
  intros Hv. unfold writeDefaultRule. rewrite write_all_succeeds. rewrite !Forall_cons.
  unfold write_strings. rewrite !write_if_succeeds.
  unfold gate, cidrs_ok, needs5, needs4, needs3, needs2. rewrite !orb_true_iff.
  assert (Hr : forall x : list Z, succeeds (Ret x)) by (intros; apply succeeds_Ret).
  split.
  - intros H. decompose [and] H. clear H. intuition auto.
  - intros [(H5 & H4 & H3 & H2) [C1 C2]]. intuition auto.
Qed.

(** A version that has what the rule needs. *)
Definition rule_gate (v : Z) (r : HeadlessRule) : Prop :=
  (has_rule needs5 r = true -> RuleSetVersion5 <= v) /\ (has_rule needs4 r = true -> RuleSetVersion4 <= v) /\
  (has_rule needs3 r = true -> RuleSetVersion3 <= v) /\ (has_rule needs2 r = true -> RuleSetVersion2 <= v).

Lemma rule_gate_logical v mode rules invert :
  rule_gate v (HeadlessLogical mode rules invert) <-> Forall (rule_gate v) rules.
Proof.
  unfold rule_gate. cbn [has_rule]. induction rules as [|x l IH].
  { split; [constructor|]. intros _. by split_and!. }
  rewrite Forall_cons, <- IH, !orb_true_iff. tauto.
Qed.

(** Whether a rule can be written depends on the version by its gate only. *)
Lemma writeRule_succeeds r v v' :
  0 <= v -> 0 <= v' -> succeeds (writeRule r v) ->
  rule_gate v r /\ (rule_gate v' r -> succeeds (writeRule r v')).
Proof.
  intros Hv Hv'. induction r as [o|mode rules invert IH|t] using HeadlessRule_nested_ind.
  - cbn [writeRule]. rewrite !writeDefaultRule_succeeds by done. intros [Hg Hc]. split; [exact Hg|].
    intros Hg'. split; [exact Hg'|done].
  - cbn [writeRule]. rewrite rule_gate_logical, rule_gate_logical.
    rewrite !write_rules_all. destruct (write_mode mode) as [m| |]; [|by intros [? ?]..].
    cbn [mbind res_bind]. intros H.
    assert (Hs : Forall succeeds (map (fun r => writeRule r v) rules)).
    { apply write_all_succeeds. destruct H as [x Hx]. destruct (write_all _); [apply succeeds_Ret|done..]. }
    rewrite Forall_map in Hs. split.
    + rewrite Forall_forall in IH, Hs |- *. intros x Hx. by apply IH; [|apply Hs].
    + intros Hg. assert (Hs' : succeeds (write_all (map (fun r => writeRule r v') rules))).
      { apply write_all_succeeds, Forall_map. rewrite Forall_forall in IH, Hs, Hg |- *.
        intros x Hx. apply IH; [done|by apply Hs|by apply Hg]. }
      destruct Hs' as [b ->]. apply succeeds_Ret.
  - by intros [? ?].
Qed.

Lemma HasHeadlessRule_gate rules cond since v :
  (HasHeadlessRule rules cond = true -> since <= v) <->
  Forall (fun r => has_rule cond r = true -> since <= v) rules.
Proof.
  unfold HasHeadlessRule. rewrite existsb_exists, Forall_forall. split.
  - intros H r Hr Hc. apply H. exists r. split; [by apply list_elem_of_In|done].
  - intros H (r & Hr & Hc). apply (H r); [by apply list_elem_of_In|done].
Qed.

Definition set_gate (v : Z) (rules : list HeadlessRule) : Prop :=
  (HasHeadlessRule rules needs5 = true -> RuleSetVersion5 <= v) /\
  (HasHeadlessRule rules needs4 = true -> RuleSetVersion4 <= v) /\
  (HasHeadlessRule rules needs3 = true -> RuleSetVersion3 <= v) /\
  (HasHeadlessRule rules needs2 = true -> RuleSetVersion2 <= v).

Lemma set_gate_rules v rules : set_gate v rules <-> Forall (rule_gate v) rules.
Proof.
  unfold set_gate. rewrite !HasHeadlessRule_gate, !Forall_forall. unfold rule_gate. firstorder.
Qed.

Lemma Write_succeeds rules v v' :
  0 <= v -> 0 <= v' -> succeeds (Write rules v) ->
  set_gate v rules /\ (set_gate v' rules -> succeeds (Write rules v')).
Proof.
  intros Hv Hv' H. unfold Write in *.
  assert (Hs : Forall (fun r => succeeds (writeRule r v)) rules).
  { rewrite <- Forall_map. apply write_all_succeeds. destruct H as [x Hx].
    destruct (write_all _); [apply succeeds_Ret|done..]. }
  rewrite !set_gate_rules. rewrite Forall_forall in Hs. split.
  - rewrite Forall_forall. intros x Hx. by apply (writeRule_succeeds x v v'); [..|apply Hs].
  - rewrite Forall_forall. intros Hg.
    assert (Hs' : succeeds (write_all (map (fun r => writeRule r v') rules))).
    { apply write_all_succeeds, Forall_map, Forall_forall. intros x Hx.
      apply (writeRule_succeeds x v v'); [done..|by apply Hs|by apply Hg]. }
    destruct Hs' as [b ->]. apply succeeds_Ret.
Qed.

(** The version the compile command picks is the lowest that can hold the
    rules.  When the rule set can be written in the version its source names,
    it can be written in the version [downgradeRuleSetVersion] picks; that is
    not higher, and no lower version from 2 on can hold it. *)
Theorem downgrade_lowest rules v :
  0 < v <= RuleSetVersionCurrent -> succeeds (Write rules v) ->
  let d := downgradeRuleSetVersion v rules in
  succeeds (Write rules d) /\ d <= v /\
  forall v', RuleSetVersion2 <= v' < d -> ~ succeeds (Write rules v').
Proof.
  intros Hv Hw. cbv zeta.
  assert (Hd : downgradeRuleSetVersion v rules <= v /\ 0 < downgradeRuleSetVersion v rules /\
    (set_gate v rules -> set_gate (downgradeRuleSetVersion v rules) rules) /\
    (forall v', 2 <= v' < downgradeRuleSetVersion v rules -> ~ set_gate v' rules)).
  { assert (v = 1 \/ v = 2 \/ v = 3 \/ v = 4 \/ v = 5) as Hc by lia.
    unfold set_gate, downgradeRuleSetVersion.
    destruct (HasHeadlessRule rules needs5), (HasHeadlessRule rules needs4), (HasHeadlessRule rules needs3);
      destruct Hc as [-> |[-> |[-> |[-> | ->]]]]; cbn; (split_and!; [lia|lia| |]);
      intuition (try congruence; try lia). }
  destruct Hd as (H1 & H2 & H3 & H4).
  destruct (Write_succeeds rules v (downgradeRuleSetVersion v rules)) as [Hg Hs]; [lia|lia|done|].
  split; [auto|]. split; [done|]. intros v' Hv' Hw'. apply (H4 v' Hv').
  by apply (Write_succeeds rules v' v'); [lia|lia|].
Qed.

End versions.
