(* ===== verification/SrsExample.v ===== *)
(** * Rule-set files: an implementation of the packages they call

    Concrete codecs that satisfy the laws of [Srs] and [SrsRoundTrip], and the
    theorems at a rule set of them. *)

From S2P Require Import Prelude Netip Mac RuleItems RuleMatch RuleBuild Srs SrsRoundTrip.

(** [binary.PutUvarint]. *)
Fixpoint put_uvarint (k : nat) (n : Z) : list Z :=
  match k with
  | O => []
  | S k => if n <? 0x80 then [n] else (0x80 + n mod 0x80) :: put_uvarint k (n / 0x80)
  end.

Definition demo_varbin : VarbinLib := {|
  WriteUvarint := put_uvarint 10;
  ReadSlice w := fun r =>
    '(n, r) ← ReadUvarint r;
    '(l, r) ← (if (w =? 0)%nat then Err "size" else read_range n (ReadUint w) r);
    Ret ((l, false), r)
|}.

Lemma land_7f b : 0 <= b -> Z.land (0x80 + b mod 0x80) 0x7f = b mod 0x80.
Proof.
  intros Hb. change 0x7f with (Z.ones 7). rewrite Z.land_ones by lia. change (2 ^ 7) with 128.
  rewrite <- Zplus_mod_idemp_l. change (128 mod 128) with 0. rewrite Z.add_0_l. apply Z.mod_mod. lia.
Qed.

Lemma uvarint_loop_put k x s n r :
  s = 7 * (10 - Z.of_nat k) -> (0 < k <= 10)%nat -> 0 <= x < 2 ^ s -> 0 <= n -> n * 2 ^ s + x < 2 ^ 64 ->
  uvarint_loop k x s (put_uvarint k n ++ r) = Ret (x + n * 2 ^ s, r).
Proof.
  revert x s n. induction k as [|k IH]; intros x s n Es Hk Hx Hn Hb; [lia|].
  assert (Hs : 0 <= s) by lia. assert (Hp : 0 < 2 ^ s) by (by apply Z.pow_pos_nonneg).
  assert (Hu : forall b, 0 <= b <= n -> Z.lor x (u64 (Z.shiftl b s)) = x + b * 2 ^ s).
  { intros b Hbn. unfold u64. rewrite Z.mod_small; [by apply lor_shiftl|].
    rewrite Z.shiftl_mul_pow2 by done. nia. }
  cbn [uvarint_loop put_uvarint]. destruct (Z.ltb_spec n 0x80).
  - cbn [app ReadByte mbind res_bind]. rewrite (proj2 (Z.ltb_lt n 0x80)) by done.
    destruct k as [|k].
    + assert (n <= 1) by (subst s; change (2 ^ (7 * (10 - Z.of_nat 1))) with (2 ^ 63) in *; lia).
      rewrite (proj2 (Z.ltb_ge 1 n)) by done. cbn. by rewrite Hu by lia.
    + cbn [Nat.eqb andb]. by rewrite Hu by lia.
  - cbn [app ReadByte mbind res_bind]. pose proof (Z.mod_pos_bound n 0x80).
    rewrite (proj2 (Z.ltb_ge (0x80 + n mod 0x80) 0x80)) by lia. rewrite land_7f by done.
    pose proof (Z.div_mod n 0x80 ltac:(lia)) as Hdiv. pose proof (Z.div_pos n 0x80 ltac:(lia) ltac:(lia)).
    rewrite Hu by lia. assert (Hpow : 2 ^ (s + 7) = 0x80 * 2 ^ s) by (rewrite Z.pow_add_r by lia; lia).
    destruct k as [|k].
    + exfalso. subst s. change (2 ^ (7 * (10 - Z.of_nat 1))) with (2 ^ 63) in *. lia.
    + rewrite IH; [|lia|lia|rewrite Hpow; nia|done|rewrite Hpow; nia].
      do 2 f_equal. rewrite Hpow. nia.
Qed.

#[local] Instance demo_varbin_laws : VarbinLaws demo_varbin.
Proof.
  assert (Hu : forall n r, 0 <= n < 2 ^ 64 -> ReadUvarint (put_uvarint 10 n ++ r) = Ret (n, r)).
  { intros n r Hn. unfold ReadUvarint. rewrite uvarint_loop_put by lia. do 2 f_equal. lia. }
  split; [exact Hu| |].
  - intros w l r Hw Hn Hl. exists false. split; [done|]. cbn [WriteUvarint ReadSlice demo_varbin].
    pose proof (zlen_nonneg l). rewrite Hu by done. cbn [mbind res_bind].
    rewrite (proj2 (Nat.eqb_neq w 0)) by lia. rewrite read_range_map; [done| |].
    + eapply takes_le; [|apply takes_uint]. lia.
    + eapply Forall_impl; [exact Hl|]. intros v Hv r'. unfold ReadUint, ReadFull.
      rewrite length_app, length_put_be, (proj2 (Nat.ltb_ge _ _)) by lia. cbn [mbind res_bind].
      rewrite take_app_length', drop_app_length' by by rewrite length_put_be.
      by rewrite get_put_be, Z.mod_small.
  - intros w Hw. cbn [ReadSlice demo_varbin]. takes_step; [apply takes_uvarint|].
    rewrite (proj2 (Nat.eqb_neq w 0)) by lia. takes_step; [|takes_step]. apply takes_range.
    eapply takes_le; [|apply takes_uint]. lia.
Qed.

(** Lists of strings, byte by byte: 1 and a byte, 2 at the end of a string, 0
    at the end of the list. *)
Definition enc_string (s : string) : list Z := concat (map (fun b => [1; b]) (bytes_of s)) ++ [2].

Definition enc_strings (l : list string) : list Z := concat (map enc_string l) ++ [0].

Fixpoint dec_strings (cur : list Z) (r : list Z) : res (list string * list Z) :=
  match r with
  | [] => Err "EOF"
  | t :: r =>
    if t =? 0 then Ret ([], r)
    else if t =? 2 then '(l, r) ← dec_strings [] r; Ret (string_of cur :: l, r)
    else match r with [] => Err "EOF" | b :: r => dec_strings (cur ++ [b]) r end
  end.

Lemma dec_string cur bs r :
  dec_strings cur (concat (map (fun b => [1; b]) bs) ++ 2 :: r)
  = '(l, r) ← dec_strings [] r; Ret (string_of (cur ++ bs) :: l, r).
Proof.
  revert cur. induction bs as [|b bs IH]; intros cur; [by rewrite app_nil_r|].
  cbn [map concat app]. cbn [dec_strings Z.eqb Pos.eqb]. by rewrite IH, <- app_assoc.
Qed.

Lemma dec_enc l : reads_back (dec_strings []) (enc_strings l) l.
Proof.
  intros r. unfold enc_strings. induction l as [|s l IH]; [done|]. cbn [map concat]. unfold enc_string at 1.
  rewrite <- !app_assoc. cbn [app]. rewrite dec_string. rewrite <- app_assoc in IH. cbn [app] in IH |- *.
  rewrite IH. cbn [mbind res_bind]. by rewrite string_of_bytes_of.
Qed.

Lemma takes_dec cur : takes 1 (dec_strings cur).
Proof.
  assert (H : forall n cur r, (length r <= n)%nat ->
    match dec_strings cur r with
    | Ret (_, r') => (length r' + 1 <= length r)%nat | Err _ => True | Panic => False end).
  { induction n as [|n IH]; intros c r Hr; destruct r as [|t r]; [done|simpl in Hr; lia|done|].
    cbn [dec_strings]. cbn [length] in *. destruct (t =? 0); [lia|]. destruct (t =? 2).
    - specialize (IH [] r ltac:(lia)). destruct (dec_strings [] r) as [[l r']| |]; cbn; [lia|done|done].
    - destruct r as [|b r]; [done|]. cbn [length] in *. specialize (IH (c ++ [b]) r ltac:(lia)).
      destruct (dec_strings (c ++ [b]) r) as [[l r']| |]; [lia|done|done]. }
  intros r. by apply (H (length r)).
Qed.

(** Addresses are written as their four bytes; sets are of single addresses. *)
Definition demo_addr (s : string) : option Addr :=
  if zlen (bytes_of s) =? 4 then Some (Addr4 (get_be (bytes_of s))) else None.

Definition demo_single (x : Prefix + Addr) : option Addr :=
  match x with
  | inr (Addr4 n) => if (0 <=? n) && (n <? 2 ^ 32) then Some (Addr4 n) else None
  | _ => None
  end.

Definition demo_ranges (l : list (Prefix + Addr)) : option (list (Addr * Addr)) :=
  if zlen l <? 2 ^ 64 then (fun l => map (fun a => (a, a)) l) <$> mapM demo_single l else None.

Definition demo_contains (rr : list (Addr * Addr)) (a : Addr) : bool := bool_decide ((a, a) ∈ rr).

Definition demo_build : BuildLib := {|
  NewMatcher domains suffixes s := bool_decide (s ∈ domains ++ suffixes);
  NewAdGuardMatcher lines s := bool_decide (s ∈ lines);
  Compile e := Some (fun s => bool_decide (e = s));
  ParsePrefix s := None;
  ParseAddr := demo_addr;
  IPSet l := demo_contains <$> demo_ranges l
|}.

Definition demo_sets : SetLib := {|
  Matcher := list string * list string;
  MatchDomain m s := bool_decide (s ∈ fst m ++ snd m);
  WriteMatcher d s _ := enc_strings d ++ enc_strings s;
  ReadMatcher := fun r => '(d, r) ← dec_strings [] r; '(s, r) ← dec_strings [] r; Ret ((d, s), r);
  Dump m := m;
  AdGuardMatcher := list string;
  MatchAdGuard m s := bool_decide (s ∈ m);
  WriteAdGuardMatcher := enc_strings;
  ReadAdGuardMatcher := dec_strings [];
  DumpAdGuard m := m;
  SetRanges := demo_ranges;
  SetContains := demo_contains;
  Prefixes rr := map (fun '(a, _) => string_of (AsSlice a)) rr;
  AddrFromIP := AddrFromSlice
|}.

Definition demo_zlib : ZlibLib := {| zlib_compress b := b; zlib_NewReader b := Ret b |}.

#[local] Instance demo_zlib_laws : ZlibLaws demo_zlib.
Proof. by split. Qed.

Lemma demo_ranges_single l rr :
  demo_ranges l = Some rr -> exists ns, Forall (fun n => 0 <= n < 2 ^ 32) ns /\ zlen l < 2 ^ 64 /\
    l = map (fun n => inr (Addr4 n)) ns /\ rr = map (fun n => (Addr4 n, Addr4 n)) ns.
Proof.
  unfold demo_ranges. destruct (Z.ltb_spec (zlen l) (2 ^ 64)) as [Hl|]; [|done].
  destruct (mapM demo_single l) as [k|] eqn:E; [|done]. cbn. intros [= <-].
  apply mapM_Some in E.
  revert Hl. generalize (zlen l < 2 ^ 64). intros P HP.
  induction E as [|x a l k Hx _ IH]; [by exists []|]. destruct IH as (ns & Hns & _ & -> & IH).
  destruct x as [p|[|n|]]; [done|done| |done]. cbn in Hx.
  destruct ((0 <=? n) && (n <? 2 ^ 32)) eqn:Hn; [|done]. injection Hx as <-. exists (n :: ns).
  apply andb_true_iff in Hn as [?%Z.leb_le ?%Z.ltb_lt].
  split; [by constructor|]. split; [done|]. split; [done|]. cbn [map]. by rewrite IH.
Qed.

Lemma map_single ns :
  Forall (fun n => 0 <= n < 2 ^ 32) ns -> mapM demo_single (map (fun n => inr (Addr4 n)) ns) = Some (map Addr4 ns).
Proof.
  induction 1 as [|n ns Hn _ IH]; [done|]. cbn. rewrite (proj2 (Z.leb_le 0 n)), (proj2 (Z.ltb_lt n _)) by lia.
  cbn. by rewrite IH.
Qed.

Lemma demo_parse ns :
  Forall (fun n => 0 <= n < 2 ^ 32) ns ->
  parse_cidrs (BL := demo_build) (map (fun '(a, _) => string_of (AsSlice a)) (map (fun n => (Addr4 n, Addr4 n)) ns))
  = Ret (map (fun n => inr (Addr4 n)) ns).
Proof.
  induction 1 as [|n ns Hn _ IH]; [done|]. cbn [map parse_cidrs]. cbn [ParsePrefix ParseAddr demo_build].
  unfold demo_addr. cbn [AsSlice]. rewrite bytes_of_string_of by apply put_be_bytes.
  rewrite zlen_put_be. cbn [Z.eqb Z.of_nat Pos.of_succ_nat Pos.succ Pos.eqb].
  rewrite IH. cbn [mbind res_bind]. by rewrite get_put_be, Z.mod_small.
Qed.

#[local] Instance demo_set_laws : SetLaws demo_build demo_sets.
Proof.
  split.
  - intros d s legacy Hd Hs. exists (d, s). split; [|by split_and!]. intros r. cbn [ReadMatcher WriteMatcher demo_sets].
    rewrite <- app_assoc, dec_enc. cbn [mbind res_bind]. by rewrite dec_enc.
  - cbn [ReadMatcher demo_sets]. takes_step; [apply takes_dec|]. takes_step; [apply takes_0, takes_dec|]. takes_step.
  - intros l. exists l. split; [apply dec_enc|done].
  - apply takes_dec.
  - done.
  - intros l rr (ns & Hns & Hl & -> & ->)%demo_ranges_single. split.
    + unfold zlen in *. by rewrite length_map in Hl |- *.
    + apply Forall_map. eapply Forall_impl; [exact Hns|]. intros n Hn. by split; split_and!.
  - intros l rr H. pose proof H as (ns & Hns & Hl & -> & ->)%demo_ranges_single.
    eexists. split; [by apply demo_parse|done].
  - done.
Qed.

(** A rule on names, an address and a port, inside a logical rule. *)
Definition demo_options : DefaultHeadlessOptions :=
  set_Port [443] (set_IPCIDR [string_of [10; 0; 0; 1]]
    (set_DomainSuffix ["example.com"%string] (set_NetworkIsExpensive true zero_options))).

Definition demo_rules : list HeadlessRule :=
  [HeadlessLogical "or" [HeadlessDefault demo_options] true; HeadlessDefault demo_options].

Lemma demo_writable : writable demo_options.
Proof.
  split; cbn [demo_options]; unfold good_strings, small, small_string; try done.
  - split; [done|]. by repeat constructor.
  - repeat constructor; done.
  - split; intros H; apply (bool_decide_pack _) in H; vm_compute in H; done.
  - unfold good_entries. split_and!; [done|constructor|constructor].
Qed.

Definition demo_file (v : Z) : res (list Z) :=
  Write (BL := demo_build) (V := demo_varbin) (SL := demo_sets) (ZL := demo_zlib) demo_rules v.

Lemma srs_roundtrip_witness :
  exists file rules', demo_file 3 = Ret file /\
    Read (V := demo_varbin) (SL := demo_sets) (ZL := demo_zlib) true file = Ret (3, rules') /\
    Forall2 (same_rule (BL := demo_build) (T := ascii_trim)) demo_rules rules'.
Proof.
  destruct (demo_file 3) as [file| |] eqn:E; [|vm_compute in E; discriminate..].
  destruct (srs_roundtrip (BL := demo_build) (T := ascii_trim) (V := demo_varbin) (SL := demo_sets)
    (ZL := demo_zlib) true demo_rules 3 file) as (rules' & H1 & H2).
  - done.
  - done.
  - assert (Hd : writable_rule (HeadlessDefault demo_options)) by (apply writable_default, demo_writable).
    apply Forall_cons. split; [|by apply Forall_singleton].
    apply writable_logical; [done|by apply Forall_singleton].
  - apply Forall_cons. split; [done|by apply Forall_singleton].
  - exact E.
  - by exists file, rules'.
Defined.

Lemma Read_safe_witness :
  Read (V := demo_varbin) (SL := demo_sets) (ZL := demo_zlib) false (MagicBytes ++ [5; 0xff; 0xff; 0x7f]) <> Panic.
Proof.
  apply (Read_safe (BL := demo_build) (V := demo_varbin) (SL := demo_sets) (ZL := demo_zlib)
    false (MagicBytes ++ [5; 0xff; 0xff; 0x7f])).
Defined.

Lemma downgrade_lowest_witness :
  downgradeRuleSetVersion 5 demo_rules = 3 /\
  (succeeds (demo_file (downgradeRuleSetVersion 5 demo_rules)) /\
   downgradeRuleSetVersion 5 demo_rules <= 5 /\
   forall v', RuleSetVersion2 <= v' < downgradeRuleSetVersion 5 demo_rules -> ~ succeeds (demo_file v')).
Proof.
  split; [by vm_compute|].
  apply (downgrade_lowest (BL := demo_build) (V := demo_varbin) (SL := demo_sets) (ZL := demo_zlib) demo_rules 5).
  - done.
  - by eexists; vm_compute.
Defined.
