(* ===== verification/Bond.v ===== *)
(** * Bonded connections (src/protocol/bond: conn.go, protocol.go, inbound.go,
    outbound.go)

    A bond outbound opens one connection per member and announces each with a
    request; the inbound collects the requests of a bond and makes one
    connection of them.  A write is cut over the members by their ratios,
    announced by its length on the first member. *)

From S2P Require Import Prelude.

(** ** Requests (protocol.go) *)

Definition Version : Z := 0.

Section protocol.
Context {Socksaddr : Type}.

Record Request := mkRequest {
  q_UUID : list Z;
  q_Index : Z;
  q_Count : Z;
  q_DownloadRatio : Z;
  q_UploadRatio : Z;
  q_Destination : Socksaddr
}.

(** [M.Serializer] of sing, as [AddressSerializer] configures it. *)
Class AddressSerializer := {
  ReadAddrPort : list Z -> res (Socksaddr * list Z);
  WriteAddrPort : Socksaddr -> res (list Z)
}.

Class AddressLaws (A : AddressSerializer) : Prop := {
  address_law d b r : WriteAddrPort d = Ret b -> ReadAddrPort (b ++ r) = Ret (d, r)
}.

Context {A : AddressSerializer}.

(** [binary.Read] of a byte. *)
Definition read_byte (r : list Z) : res (Z * list Z) :=
  match r with [] => Err "EOF" | b :: r => Ret (b, r) end.

Definition ReadRequest (r : list Z) : res (Request * list Z) :=
  '(version, r) ← read_byte r;
  if negb (version =? Version) then Err "unknown version" else
  '(uuid, r) ← (if (length r <? 16)%nat then Err "EOF" else Ret (take 16 r, drop 16 r));
  '(index, r) ← read_byte r;
  '(count, r) ← read_byte r;
  '(downloadRatio, r) ← read_byte r;
  '(uploadRatio, r) ← read_byte r;
  '(destination, r) ← ReadAddrPort r;
  Ret (mkRequest uuid index count downloadRatio uploadRatio destination, r).

Definition WriteRequest (q : Request) : res (list Z) :=
  address ← WriteAddrPort (q_Destination q);
  Ret ([Version] ++ q_UUID q ++ [q_Index q; q_Count q; q_DownloadRatio q; q_UploadRatio q] ++ address).

End protocol.
Arguments Request : clear implicits.
Arguments AddressSerializer : clear implicits.

(** ** The bonded connection (conn.go) *)

(** The parts of [number] for all but the last ratio, and the rest of it. *)
Fixpoint split_parts (number remaining : Z) (ratios : list Z) : list Z :=
  match ratios with
  | [] => []
  | [_] => [remaining]
  | r :: ratios =>
    let part := number * r / 100 in part :: split_parts number (remaining - part) ratios
  end.

Definition splitByRatios (number : Z) (ratios : list Z) : res (list Z) :=
  match ratios with
  | [] => Panic
  | _ => Ret (split_parts number number ratios)
  end.

(** [c.conns[i]], with the bytes of each member. *)
Definition member (conns : list (list Z)) (i : nat) : res (list Z) :=
  match conns !! i with None => Panic | Some s => Ret s end.

(** *** Write *)

Section write.
(** What the [k]-th [Write] of a member accepts of the data, and its error. *)
Variable accept : nat -> list Z -> nat * option string.

(** The bytes written to each member, the number of calls, and what the
    bonded [Write] returns. *)
Definition written : Type := list (list Z) * nat * Z * option string.

Definition member_write (outs : list (list Z)) (k i : nat) (data : list Z)
    : res (list (list Z) * nat * option string) :=
  s ← member outs i;
  let '(n, err) := accept k data in
  Ret (<[i := s ++ take n data]> outs, n, err).

(** The loop that writes one chunk. *)
Fixpoint write_chunk (fuel : nat) (outs : list (list Z)) (k i : nat) (chunk : list Z)
    (subTotal : nat) (total : Z) : res written :=
  if (subTotal <? length chunk)%nat then
    match fuel with
    | O => Panic
    | S fuel =>
      '(outs, n, err) ← member_write outs k i (drop subTotal chunk);
      let total := total + Z.of_nat n in
      match err with
      | Some e => Ret (outs, S k, total, Some e)
      | None =>
        if (n =? 0)%nat then Ret (outs, S k, total, Some "unexpected EOF"%string)
        else write_chunk fuel outs (S k) i chunk (subTotal + n) total
      end
    end
  else Ret (outs, k, total, None).

Fixpoint write_chunks (outs : list (list Z)) (k i : nat) (b : list Z) (chunkLens : list Z) (total : Z)
    : res written :=
  match chunkLens with
  | [] => Ret (outs, k, total, None)
  | chunkLen :: chunkLens =>
    if chunkLen =? 0 then write_chunks outs k (S i) b chunkLens total else
    chunk ← go_slice b total (total + chunkLen);
    '(outs, k, total, err) ← write_chunk (length chunk) outs k i chunk 0 total;
    match err with
    | Some e => Ret (outs, k, total, Some e)
    | None => write_chunks outs k (S i) b chunkLens total
    end
  end.

Definition Write (uploadRatios : list Z) (outs : list (list Z)) (k : nat) (b : list Z) : res written :=
  chunkLens ← splitByRatios (zlen b) uploadRatios;
  '(outs, _, err) ← member_write outs k 0 (put_be 2 (u16 (zlen b)));
  match err with
  | Some e => Ret (outs, S k, 0, Some e)
  | None => write_chunks outs (S k) 0 b chunkLens 0
  end.

End write.

(** *** Read *)

(** The bytes that are still to come from each member, and the buffer. *)
Record bondedConn := mkBonded {
  b_conns : list (list Z);
  b_readBuffer : list Z
}.

(** [io.CopyN] of each chunk into the buffer; the bytes copied, and the error
    at the end of a member. *)
Fixpoint copy_chunks (ins : list (list Z)) (i : nat) (chunkLens : list Z) (buffer : list Z) (total : Z)
    : res (bondedConn * Z * option string) :=
  match chunkLens with
  | [] => Ret (mkBonded ins buffer, total, None)
  | chunkLen :: chunkLens =>
    if chunkLen =? 0 then copy_chunks ins (S i) chunkLens buffer total else
    s ← member ins i;
    let data := take (Z.to_nat chunkLen) s in
    let c := mkBonded (<[i := drop (Z.to_nat chunkLen) s]> ins) (buffer ++ data) in
    if zlen data <? chunkLen then Ret (c, total + zlen data, Some "EOF"%string)
    else copy_chunks (b_conns c) (S i) chunkLens (b_readBuffer c) (total + zlen data)
  end.

(** [bytes.Buffer.Read] into [n] bytes. *)
Definition buffer_Read (c : bondedConn) (n : nat) : bondedConn * list Z * option string :=
  match b_readBuffer c with
  | [] => (mkBonded (b_conns c) [], [], if (n =? 0)%nat then None else Some "EOF"%string)
  | buffer => (mkBonded (b_conns c) (drop n buffer), take n buffer, None)
  end.

(** [Read] into [n] bytes: what it puts there, the count it returns and its
    error. *)
Definition Read (downloadRatios : list Z) (c : bondedConn) (n : nat)
    : res (bondedConn * list Z * Z * option string) :=
  let from_buffer c := let '(c, data, err) := buffer_Read c n in Ret (c, data, zlen data, err) in
  match b_readBuffer c with
  | [] =>
    s ← member (b_conns c) 0;
    if (length s <? 2)%nat then Ret (mkBonded (<[0%nat := []]> (b_conns c)) [], [], 0, Some "EOF"%string) else
    let size := get_be (take 2 s) in
    chunkLens ← splitByRatios size downloadRatios;
    '(c, total, err) ← copy_chunks (<[0%nat := drop 2 s]> (b_conns c)) 0 chunkLens [] 0;
    match err with
    | Some e => Ret (c, [], total, Some e)
    | None => from_buffer c
    end
  | _ => from_buffer c
  end.

(** ** The outbound (outbound.go) *)

Record BondOutbound := mkBondOutbound { o_DownloadRatio : Z; o_UploadRatio : Z; o_Count : Z }.

(** The ratios of the members, and the checks of their totals in bytes. *)
Definition member_ratios (options : list BondOutbound) : list (Z * Z) :=
  concat (map (fun o =>
    replicate (Z.to_nat (if o_Count o =? 0 then 1 else o_Count o)) (o_DownloadRatio o, o_UploadRatio o)) options).

Definition total8 (ratios : list Z) : Z := foldl (fun t r => u8 (t + r)) 0 ratios.

Definition NewOutbound (options : list BondOutbound) : res (list Z * list Z) :=
  let downloadRatios := map fst (member_ratios options) in
  let uploadRatios := map snd (member_ratios options) in
  if negb (total8 downloadRatios =? 100) || negb (total8 uploadRatios =? 100) then Err "invalid ratios"
  else Ret (downloadRatios, uploadRatios).

(** The request that [DialContext] sends on the [i]-th member: the ratios as
    the other side sees them. *)
Definition dial_request {Socksaddr} (downloadRatios uploadRatios : list Z) (connUUID : list Z)
    (destination : Socksaddr) (i : nat) : res (Request Socksaddr) :=
  up ← go_index uploadRatios (Z.of_nat i);
  down ← go_index downloadRatios (Z.of_nat i);
  Ret (mkRequest connUUID (u8 (Z.of_nat i)) (u8 (zlen downloadRatios)) up down destination).

(** ** The inbound (inbound.go) *)

Record ratioConn := mkRatioConn { rc_conn : Z; rc_downloadRatio : Z; rc_uploadRatio : Z }.

Abbreviation Conns := (gmap (list Z) (gmap Z ratioConn)).

Inductive outcome (Socksaddr : Type) :=
| Waiting
| Bonded (conns downloadRatios uploadRatios : list Z) (destination : Socksaddr)
| InvalidRatios (closed : list Z).
Arguments Waiting {Socksaddr}.
Arguments Bonded {Socksaddr} _ _ _ _.
Arguments InvalidRatios {Socksaddr} _.

(** The slots filled from the map; an index past them raises. *)
Fixpoint fill_slots (m : gmap Z ratioConn) (i n : nat) : res (list ratioConn) :=
  match n with
  | O => Ret []
  | S n =>
    match m !! Z.of_nat i with
    | None => Panic
    | Some c => l ← fill_slots m (S i) n; Ret (c :: l)
    end
  end.

Definition connHandler {Socksaddr} (conn : Z) (request : Request Socksaddr) (conns : Conns)
    : res (Conns * outcome Socksaddr) :=
  let ratioConns := default ∅ (conns !! q_UUID request) in
  let ratioConns := <[q_Index request := mkRatioConn conn (q_DownloadRatio request) (q_UploadRatio request)]> ratioConns in
  let conns := <[q_UUID request := ratioConns]> conns in
  if Z.of_nat (size ratioConns) =? q_Count request then
    slots ← fill_slots ratioConns 0 (size ratioConns);
    let conns := <[q_UUID request := ∅]> conns in
    let downloadRatios := map rc_downloadRatio slots in
    let uploadRatios := map rc_uploadRatio slots in
    if negb (total8 downloadRatios =? 100) || negb (total8 uploadRatios =? 100)
    then Ret (conns, InvalidRatios (map rc_conn slots))
    else Ret (conns, Bonded (map rc_conn slots) downloadRatios uploadRatios (q_Destination request))
  else Ret (conns, Waiting).

(** [OnEvicted]: a bond that is not complete in time. *)
Definition evict (uuid : list Z) (conns : Conns) : Conns * list Z :=
  (delete uuid conns, map (fun '(_, c) => rc_conn c) (map_to_list (default ∅ (conns !! uuid)))).

(** ** Cutting a write *)

(** Ratios that share at most everything. *)
Definition ratios_ok (ratios : list Z) : Prop :=
  ratios <> [] /\ Forall (fun r => 0 <= r) ratios /\ foldr Z.add 0 ratios <= 100.

Definition total (lens : list Z) : Z := foldr Z.add 0 lens.

Fixpoint cut (lens : list Z) (b : list Z) : list (list Z) :=
  match lens with
  | [] => []
  | l :: lens => take (Z.to_nat l) b :: cut lens (drop (Z.to_nat l) b)
  end.

Lemma split_parts_ok number remaining ratios :
  0 <= number -> ratios <> [] -> Forall (fun r => 0 <= r) ratios ->
  number * foldr Z.add 0 ratios <= 100 * remaining ->
  Forall (fun l => 0 <= l) (split_parts number remaining ratios) /\
  total (split_parts number remaining ratios) = remaining /\
  length (split_parts number remaining ratios) = length ratios.
Proof.
  intros Hn. revert remaining. induction ratios as [|r ratios IH]; intros remaining Hne Hr Hs; [done|].
  apply Forall_cons in Hr as [Hr0 Hr]. cbn [foldr] in Hs.
  assert (Hsum : 0 <= foldr Z.add 0 ratios) by (clear -Hr; induction Hr; cbn; lia).
  destruct ratios as [|r' ratios].
  { cbn. split; [constructor; [nia|constructor]|]. split; [lia|done]. }
  set (rest := r' :: ratios) in *. cbn [split_parts]. fold rest. cbn [split_parts] in IH.
  assert (Hp : 0 <= number * r / 100 /\ 100 * (number * r / 100) <= number * r).
  { split; [apply Z.div_pos; nia|]. apply Z.mul_div_le. lia. }
  change (match rest with [] => [remaining] | _ => _ end)
    with (number * r / 100 :: split_parts number (remaining - number * r / 100) rest).
  destruct (IH (remaining - number * r / 100)) as (H1 & H2 & H3); [done|done|nia|].
  split; [constructor; [lia|done]|]. split; [cbn [total foldr]; unfold total in H2; lia|]. cbn [length]. by rewrite H3.
Qed.

Lemma splitByRatios_parts ratios number :
  ratios <> [] -> splitByRatios number ratios = Ret (split_parts number number ratios).
Proof. by destruct ratios. Qed.

Lemma chunks_total_nonneg lens : Forall (fun l => 0 <= l) lens -> 0 <= total lens.
Proof. unfold total. induction 1; cbn; lia. Qed.

Lemma cut_concat lens b : Forall (fun l => 0 <= l) lens -> total lens = zlen b -> concat (cut lens b) = b.
Proof.
  intros Hl. revert b. induction Hl as [|l lens Hl0 Hl IH]; intros b Hb; cbn [cut concat].
  { unfold zlen in Hb. cbn in Hb. by destruct b. }
  cbn [total foldr] in Hb. fold (total lens) in Hb. pose proof (chunks_total_nonneg lens Hl).
  rewrite IH; [apply take_drop|]. unfold zlen in *. rewrite length_drop. lia.
Qed.

Lemma cut_lengths lens b :
  Forall (fun l => 0 <= l) lens -> total lens <= zlen b -> Forall2 (fun l c => zlen c = l) lens (cut lens b).
Proof.
  intros Hl. revert b. induction Hl as [|l lens Hl0 Hl IH]; intros b Hb; cbn [cut]; constructor.
  - cbn [total foldr] in Hb. fold (total lens) in Hb. pose proof (chunks_total_nonneg lens Hl).
    unfold zlen in *. rewrite length_take. lia.
  - cbn [total foldr] in Hb. fold (total lens) in Hb. pose proof (chunks_total_nonneg lens Hl).
    apply IH. unfold zlen in *. rewrite length_drop. lia.
Qed.

Lemma length_cut lens b : length (cut lens b) = length lens.
Proof. revert b. induction lens as [|l lens IH]; intros b; cbn; [done|]. by rewrite IH. Qed.

(** ** The streams of a list of writes *)

(** What one write puts on each member. *)
Definition frame (ratios : list Z) (w : list Z) : list (list Z) :=
  match cut (split_parts (zlen w) (zlen w) ratios) w with
  | [] => []
  | c :: cs => (put_be 2 (zlen w) ++ c) :: cs
  end.

Definition join (s t : list (list Z)) : list (list Z) := zip_with app s t.

Fixpoint streams (ratios : list Z) (ws : list (list Z)) : list (list Z) :=
  match ws with
  | [] => replicate (length ratios) []
  | w :: ws => join (frame ratios w) (streams ratios ws)
  end.

Definition fits (w : list Z) : Prop := w <> [] /\ zlen w < 2 ^ 16.

Lemma join_assoc s t u : join (join s t) u = join s (join t u).
Proof.
  unfold join. revert t u. induction s as [|x s IH]; intros [|y t] [|z u]; cbn; try done.
  by rewrite <- app_assoc, IH.
Qed.

Lemma join_nil_r s n : length s = n -> join s (replicate n []) = s.
Proof. unfold join. revert n. induction s as [|x s IH]; intros [|n] Hn; cbn in *; try done. rewrite app_nil_r, IH; [done|lia]. Qed.

Lemma join_nil_l s n : length s = n -> join (replicate n []) s = s.
Proof. unfold join. revert n. induction s as [|x s IH]; intros [|n] Hn; cbn in *; try done. rewrite IH; [done|lia]. Qed.

Lemma length_join s t : length s = length t -> length (join s t) = length t.
Proof. unfold join. intros H. rewrite length_zip_with. lia. Qed.

Section data.
Variable ratios : list Z.
Hypothesis Hratios : ratios_ok ratios.

Definition lens_of (w : list Z) : list Z := split_parts (zlen w) (zlen w) ratios.

Lemma lens_of_ok w :
  splitByRatios (zlen w) ratios = Ret (lens_of w) /\ Forall (fun l => 0 <= l) (lens_of w) /\
  total (lens_of w) = zlen w /\ length (lens_of w) = length ratios.
Proof.
  destruct Hratios as (Hne & Hr & Hs). split; [by apply splitByRatios_parts|].
  apply split_parts_ok; [apply zlen_nonneg|done..|]. pose proof (zlen_nonneg w). nia.
Qed.

Lemma length_frame w : length (frame ratios w) = length ratios.
Proof.
  destruct (lens_of_ok w) as (_ & _ & _ & Hl). unfold frame. fold (lens_of w).
  pose proof (length_cut (lens_of w) w) as Hc. destruct (cut (lens_of w) w); cbn [length] in *; lia.
Qed.

Lemma length_streams ws : length (streams ratios ws) = length ratios.
Proof.
  induction ws as [|w ws IH]; cbn [streams]; [apply length_replicate|].
  rewrite length_join; [done|]. by rewrite length_frame.
Qed.

Lemma streams_snoc ws w : streams ratios (ws ++ [w]) = join (streams ratios ws) (frame ratios w).
Proof.
  induction ws as [|x ws IH]; cbn [app streams].
  - rewrite join_nil_l, join_nil_r by apply length_frame. done.
  - by rewrite IH, join_assoc.
Qed.

(** *** Writing *)

Section full.
Variable accept : nat -> list Z -> nat * option string.
Hypothesis Hfull : forall k d, accept k d = (length d, None).

Lemma member_write_full pre s post k data :
  member_write accept (pre ++ s :: post) k (length pre) data
  = Ret (pre ++ (s ++ data) :: post, length data, None).
Proof.
  unfold member_write, member. rewrite list_lookup_middle by done. cbn [mbind res_bind].
  rewrite Hfull, take_ge by lia. by rewrite insert_app_r_alt, Nat.sub_diag by lia.
Qed.

Lemma write_chunk_done fuel outs k i chunk sub tot :
  (length chunk <= sub)%nat -> write_chunk accept fuel outs k i chunk sub tot = Ret (outs, k, tot, None).
Proof. intros H. destruct fuel; cbn [write_chunk]; by rewrite (proj2 (Nat.ltb_ge _ _)). Qed.

Lemma write_chunk_full pre s post k chunk tot :
  chunk <> [] ->
  write_chunk accept (length chunk) (pre ++ s :: post) k (length pre) chunk 0 tot
  = Ret (pre ++ (s ++ chunk) :: post, S k, tot + zlen chunk, None).
Proof.
  intros Hne. destruct chunk as [|c cs]; [done|]. cbn [length]. cbn [write_chunk].
  change (0 <? length (c :: cs))%nat with true. cbv iota.
  rewrite member_write_full, drop_0. cbn [mbind res_bind]. change (length (c :: cs) =? 0)%nat with false. cbv iota.
  by rewrite write_chunk_done.
Qed.

Lemma write_chunks_full lens : forall pre posts k b tot,
  Forall (fun l => 0 <= l) lens -> length posts = length lens -> 0 <= tot -> tot + total lens = zlen b ->
  exists k', write_chunks accept (pre ++ posts) k (length pre) b lens tot
    = Ret (pre ++ join posts (cut lens (drop (Z.to_nat tot) b)), k', zlen b, None).
Proof.
  induction lens as [|l lens IH]; intros pre posts k b tot Hl Hp Ht Hb; cbn [write_chunks cut].
  { destruct posts; [|done]. exists k. cbn in Hb. by rewrite Z.add_0_r in Hb; subst. }
  apply Forall_cons in Hl as [Hl0 Hl]. destruct posts as [|s posts]; [done|].
  cbn [total foldr] in Hb. fold (total lens) in Hb. pose proof (chunks_total_nonneg lens Hl).
  assert (Hstep : forall k s', exists k', write_chunks accept ((pre ++ [s']) ++ posts) k (S (length pre)) b lens (tot + l)
    = Ret (pre ++ s' :: join posts (cut lens (drop (Z.to_nat l) (drop (Z.to_nat tot) b))), k', zlen b, None)).
  { intros k0 s'. destruct (IH (pre ++ [s']) posts k0 b (tot + l)) as (k' & E); [done|cbn in Hp; lia|lia|lia|].
    rewrite length_app in E. cbn [length] in E. rewrite Nat.add_1_r in E. exists k'. rewrite E.
    rewrite drop_drop. replace (Z.to_nat tot + Z.to_nat l)%nat with (Z.to_nat (tot + l)) by lia.
    by rewrite <- app_assoc. }
  destruct (Z.eqb_spec l 0) as [->|Hne].
  - destruct (Hstep k s) as (k' & E). exists k'. rewrite Z.add_0_r, <- app_assoc in E. cbn [app] in E. rewrite E.
    cbn [join zip_with]. unfold join. cbn. by rewrite app_nil_r.
  - rewrite go_slice_ok by lia. cbn [mbind res_bind].
    replace (tot + l - tot) with l by lia. set (chunk := take (Z.to_nat l) (drop (Z.to_nat tot) b)).
    assert (Hc : zlen chunk = l).
    { subst chunk. unfold zlen in *. rewrite length_take, length_drop. lia. }
    rewrite write_chunk_full by (intros E; rewrite E in Hc; unfold zlen in Hc; cbn in Hc; lia).
    cbn [mbind res_bind]. rewrite Hc. destruct (Hstep (S k) (s ++ chunk)) as (k' & E). exists k'.
    rewrite <- app_assoc in E. cbn [app] in E. rewrite E. done.
Qed.

Lemma Write_full ws k w :
  fits w -> exists k', Write accept ratios (streams ratios ws) k w
    = Ret (streams ratios (ws ++ [w]), k', zlen w, None).
Proof.
  intros [Hne Hw]. destruct (lens_of_ok w) as (E1 & E2 & E3 & E4).
  unfold Write. rewrite E1. cbn [mbind res_bind].
  pose proof (length_streams ws) as Hls. destruct Hratios as (Hr & _).
  destruct (streams ratios ws) as [|s0 rest] eqn:Es; [by symmetry in Hls; apply nil_length_inv in Hls|].
  pose proof (member_write_full [] s0 rest k (put_be 2 (u16 (zlen w)))) as Em. cbn [app length] in Em.
  rewrite Em. cbn [mbind res_bind].
  destruct (write_chunks_full (lens_of w) [] ((s0 ++ put_be 2 (u16 (zlen w))) :: rest) (S k) w 0) as (k' & E);
    [done|cbn [length] in *; lia|lia|lia|]. cbn [app length] in E. rewrite E. exists k'. repeat f_equal.
  rewrite streams_snoc, Es. rewrite drop_0. unfold frame. fold (lens_of w).
  pose proof (length_cut (lens_of w) w) as Hc. destruct (cut (lens_of w) w) as [|c cs]; [cbn in *; lia|].
  unfold join. cbn [zip_with]. pose proof (zlen_nonneg w).
  unfold u16. rewrite Z.mod_small by lia. by rewrite <- app_assoc.
Qed.

End full.

(** *** Reading *)

Lemma copy_chunks_full lens chunks : Forall2 (fun l c => zlen c = l) lens chunks -> forall pre rests buffer tot,
  length rests = length chunks ->
  copy_chunks (pre ++ join chunks rests) (length pre) lens buffer tot
  = Ret (mkBonded (pre ++ rests) (buffer ++ concat chunks), tot + total lens, None).
Proof.
  induction 1 as [|l c lens chunks Hc _ IH]; intros pre rests buffer tot Hr; cbn [copy_chunks].
  { destruct rests; [|done]. cbn. by rewrite !app_nil_r, Z.add_0_r. }
  destruct rests as [|s rests]; [done|]. unfold join. cbn [zip_with concat total foldr]. fold (join chunks rests).
  assert (Hstep : forall buffer tot, copy_chunks (pre ++ s :: join chunks rests) (S (length pre)) lens buffer tot
    = Ret (mkBonded (pre ++ s :: rests) (buffer ++ concat chunks), tot + total lens, None)).
  { intros bu to. specialize (IH (pre ++ [s]) rests bu to ltac:(cbn in Hr; lia)).
    rewrite length_app in IH. cbn [length] in IH. rewrite Nat.add_1_r, <- !app_assoc in IH. exact IH. }
  destruct (Z.eqb_spec l 0) as [->|Hne].
  - assert (c = []) as -> by (unfold zlen in Hc; destruct c; [done|cbn in Hc; lia]). cbn [app].
    rewrite Hstep. done.
  - unfold member. rewrite list_lookup_middle by done. cbn [mbind res_bind].
    assert (El : Z.to_nat l = length c) by (unfold zlen in Hc; lia).
    rewrite El, take_app_length, drop_app_length, Hc, Z.ltb_irrefl. cbn [b_conns b_readBuffer].
    rewrite insert_app_r_alt, Nat.sub_diag by lia. cbn [list_insert insert]. rewrite Hstep.
    rewrite <- app_assoc. unfold total. by rewrite Z.add_assoc.
Qed.

Lemma Read_refill w ws n :
  fits w ->
  Read ratios (mkBonded (streams ratios (w :: ws)) []) n
  = let '(c, data, err) := buffer_Read (mkBonded (streams ratios ws) w) n in Ret (c, data, zlen data, err).
Proof.
  intros [Hne Hw]. destruct (lens_of_ok w) as (E1 & E2 & E3 & E4). cbn [streams].
  assert (Hlen : Forall2 (fun l c => zlen c = l) (lens_of w) (cut (lens_of w) w)) by (apply cut_lengths; [done|lia]).
  pose proof (cut_concat (lens_of w) w E2 E3) as Hcat. pose proof (length_cut (lens_of w) w) as Hlc.
  pose proof (length_streams ws) as Hls.
  unfold frame. fold (lens_of w). destruct Hratios as (Hr & _).
  destruct (cut (lens_of w) w) as [|c cs] eqn:Ecut; [cbn in Hlc; rewrite E4 in Hlc; symmetry in Hlc; by apply nil_length_inv in Hlc|].
  destruct (streams ratios ws) as [|s0 rest] eqn:Es; [symmetry in Hls; by apply nil_length_inv in Hls|].
  unfold Read. cbn [b_readBuffer b_conns]. unfold join. cbn [zip_with]. fold (join cs rest).
  unfold member. cbn [lookup list_lookup mbind res_bind].
  rewrite <- app_assoc, !length_app, length_put_be, (proj2 (Nat.ltb_ge _ _)) by lia.
  rewrite take_app_length', drop_app_length' by by rewrite length_put_be.
  pose proof (zlen_nonneg w). rewrite get_put_be, Z.mod_small by (cbn; lia). rewrite E1. cbn [mbind res_bind].
  cbn [insert list_insert]. change ((c ++ s0) :: join cs rest) with (join (c :: cs) (s0 :: rest)).
  pose proof (copy_chunks_full (lens_of w) (c :: cs) Hlen [] (s0 :: rest) [] 0) as Ec. cbn [app length] in Ec.
  rewrite Ec by (cbn [length] in *; lia). cbn [mbind res_bind]. by rewrite Hcat.
Qed.

Lemma Read_buffered x buffer conns n :
  Read ratios (mkBonded conns (x :: buffer)) n
  = Ret (mkBonded conns (drop n (x :: buffer)), take n (x :: buffer), zlen (take n (x :: buffer)), None).
Proof. done. Qed.

(** The end: no member has another header. *)
Lemma Read_end n :
  exists c, Read ratios (mkBonded (streams ratios []) []) n = Ret (c, [], 0, Some "EOF"%string).
Proof.
  destruct Hratios as (Hr & _). unfold Read. cbn [b_readBuffer b_conns streams].
  destruct ratios as [|r rs] eqn:E; [done|]. cbn. eauto.
Qed.

(** What a sequence of reads into buffers of the given sizes puts there. *)
Fixpoint read_seq (c : bondedConn) (sizes : list nat) : res (bondedConn * list Z) :=
  match sizes with
  | [] => Ret (c, [])
  | n :: sizes =>
    '(c, data, _, err) ← Read ratios c n;
    match err with
    | Some _ => Ret (c, data)
    | None => '(c, rest) ← read_seq c sizes; Ret (c, data ++ rest)
    end
  end.

Lemma read_seq_spec sizes : forall ws buffer,
  Forall fits ws -> Forall (fun n => (0 < n)%nat) sizes ->
  exists c data, read_seq (mkBonded (streams ratios ws) buffer) sizes = Ret (c, data) /\
    data `prefix_of` buffer ++ concat ws /\
    ((length (buffer ++ concat ws) <= length sizes)%nat -> data = buffer ++ concat ws).
Proof.
  induction sizes as [|n sizes IH]; intros ws buffer Hws Hn; cbn [read_seq].
  { exists (mkBonded (streams ratios ws) buffer), []. split; [done|]. split; [apply prefix_nil|].
    cbn. intros Hl. destruct (buffer ++ concat ws); [done|cbn in Hl; lia]. }
  apply Forall_cons in Hn as [Hn0 Hn].
  assert (Hstep : forall x bu ws, Forall fits ws ->
    exists c data, ('(c, rest) ← read_seq (mkBonded (streams ratios ws) (drop n (x :: bu))) sizes;
                    Ret (c, take n (x :: bu) ++ rest)) = Ret (c, data) /\
      data `prefix_of` (x :: bu) ++ concat ws /\
      ((length ((x :: bu) ++ concat ws) <= S (length sizes))%nat -> data = (x :: bu) ++ concat ws)).
  { intros x bu ws' Hws'. destruct (IH ws' (drop n (x :: bu)) Hws' Hn) as (c & data & -> & Hp & Hall).
    exists c, (take n (x :: bu) ++ data). split; [done|].
    assert (E : (x :: bu) ++ concat ws' = take n (x :: bu) ++ drop n (x :: bu) ++ concat ws')
      by (by rewrite app_assoc, take_drop).
    rewrite E. split; [by apply prefix_app|]. intros Hl. rewrite Hall; [done|].
    rewrite !length_app, length_take, length_drop in *. cbn [length] in *. lia. }
  destruct buffer as [|x buffer].
  - destruct ws as [|w ws].
    + destruct (Read_end n) as (c & E). unfold streams in E |- *. rewrite E. cbn [mbind res_bind].
      exists c, []. split; [done|]. split; [apply prefix_nil|done].
    + apply Forall_cons in Hws as [Hw Hws]. rewrite Read_refill by done.
      destruct Hw as [Hne _]. destruct w as [|x w]; [done|]. unfold buffer_Read. cbn [b_readBuffer b_conns mbind res_bind].
      cbn [concat]. rewrite app_nil_l. by apply Hstep.
  - rewrite Read_buffered. cbn [mbind res_bind]. by apply Hstep.
Qed.

End data.

(** ** Data through a bond *)

Fixpoint write_seq (accept : nat -> list Z -> nat * option string) (ratios : list Z) (outs : list (list Z))
    (k : nat) (bs : list (list Z)) : res (list (list Z)) :=
  match bs with
  | [] => Ret outs
  | b :: bs =>
    '(outs, k, _, err) ← Write accept ratios outs k b;
    match err with Some e => Err e | None => write_seq accept ratios outs k bs end
  end.

Lemma write_seq_streams accept ratios ws' ws k :
  ratios_ok ratios -> (forall k d, accept k d = (length d, None)) -> Forall fits ws ->
  write_seq accept ratios (streams ratios ws') k ws = Ret (streams ratios (ws' ++ ws)).
Proof.
  intros Hr Hf Hws. revert ws' k. induction Hws as [|w ws Hw _ IH]; intros ws' k; cbn [write_seq].
  { by rewrite app_nil_r. }
  destruct (Write_full ratios Hr accept Hf ws' k w Hw) as (k' & ->). cbn [mbind res_bind].
  by rewrite IH, <- app_assoc.
Qed.

(** C5: What is written to a bond is read from it.  When the members accept
    what they are given, the writes of one side (each of at least one and less
    than 2^16 bytes), cut over any number of members by ratios of at most 100
    in total, are read by the other side in order and without gaps, into
    buffers of any sizes: what is read is a prefix of what was written, and
    all of it after enough reads. *)
Theorem bond_stream accept ratios ws sizes :
  ratios_ok ratios -> (forall k d, accept k d = (length d, None)) ->
  Forall fits ws -> Forall (fun n => (0 < n)%nat) sizes ->
  exists outs, write_seq accept ratios (replicate (length ratios) []) 0 ws = Ret outs /\
  exists c data, read_seq ratios (mkBonded outs []) sizes = Ret (c, data) /\
    data `prefix_of` concat ws /\
    ((length (concat ws) <= length sizes)%nat -> data = concat ws).
Proof.
  intros Hr Hf Hws Hn. exists (streams ratios ws). split.
  - apply (write_seq_streams accept ratios [] ws 0 Hr Hf Hws).
  - exact (read_seq_spec ratios Hr sizes ws [] Hws Hn).
Qed.

Lemma bond_stream_witness :
  exists outs, write_seq (fun _ d => (length d, None)) [30; 70] [[]; []] 0 [[1; 2; 3; 4; 5]; [6]] = Ret outs /\
  exists c data, read_seq [30; 70] (mkBonded outs []) [4; 4; 4; 4; 4; 4]%nat = Ret (c, data) /\
    data `prefix_of` [1; 2; 3; 4; 5; 6] /\ ((6 <= 6)%nat -> data = [1; 2; 3; 4; 5; 6]).
Proof.
  apply (bond_stream (fun _ d => (length d, None)) [30; 70] [[1; 2; 3; 4; 5]; [6]] [4; 4; 4; 4; 4; 4]%nat).
  - split; [done|]. split; [by repeat constructor|done].
  - done.
  - repeat constructor; done.
  - repeat constructor; lia.
Defined.

(** Writes that do not fit: the length of 2^16 + 1 bytes is announced as 1, and
    an empty write is the end of the stream to the reader. *)
Definition through (w : list Z) (n : nat) : res (list Z * option string) :=
  outs ← write_seq (fun _ d => (length d, None)) [100] [[]] 0 [w];
  '(_, data, _, err) ← Read [100] (mkBonded outs []) n; Ret (data, err).

Example misfit_writes :
  through (replicate (Z.to_nat (2 ^ 16 + 1)) 7) 4096 = Ret ([7], None) /\
  through [] 4096 = Ret ([], Some "EOF"%string).
Proof. by split; vm_compute. Qed.

(** ** Requests and their arrival *)

Lemma request_back {Socksaddr} {A : AddressSerializer Socksaddr} {AL : AddressLaws A} (q : Request Socksaddr) b r :
  length (q_UUID q) = 16%nat -> WriteRequest q = Ret b -> ReadRequest (b ++ r) = Ret (q, r).
Proof.
  intros Hu. unfold WriteRequest. destruct (WriteAddrPort (q_Destination q)) as [a| |] eqn:Ea; [|done..].
  cbn [mbind res_bind]. intros <-%Ret_inj. unfold ReadRequest. rewrite <- !app_assoc.
  cbn [app read_byte mbind res_bind]. change (negb (Version =? Version)) with false. cbv iota.
  rewrite length_app, (proj2 (Nat.ltb_ge _ _)) by lia. cbn [mbind res_bind].
  rewrite take_app_length', drop_app_length' by done. cbn [app read_byte mbind res_bind].
  rewrite (address_law _ a r Ea). cbn [mbind res_bind]. by destruct q.
Qed.

Lemma total8_sum t ratios : foldl (fun t r => u8 (t + r)) (u8 t) ratios = u8 (t + foldr Z.add 0 ratios).
Proof.
  revert t. induction ratios as [|r ratios IH]; intros t; cbn [foldl foldr]; [by rewrite Z.add_0_r|].
  assert (E : u8 (u8 t + r) = u8 (t + r)) by (unfold u8; by rewrite Zplus_mod_idemp_l).
  rewrite E, IH. f_equal. lia.
Qed.

Lemma total8_mod ratios : total8 ratios = u8 (foldr Z.add 0 ratios).
Proof. unfold total8. change 0 with (u8 0) at 1. by rewrite total8_sum. Qed.

Section arrival.
Context {Socksaddr : Type}.

(** What happens at the inbound: a request on a connection, or a bond that is
    given up. *)
Inductive event :=
| Arrive (conn : Z) (request : Request Socksaddr)
| Evict (uuid : list Z).

Definition event_uuid (e : event) : list Z :=
  match e with Arrive _ q => q_UUID q | Evict u => u end.

(** The outcomes of the requests, with the bond they are of. *)
Fixpoint run (es : list event) (conns : Conns) : res (Conns * list (list Z * outcome Socksaddr)) :=
  match es with
  | [] => Ret (conns, [])
  | Arrive conn q :: es =>
    '(conns, o) ← connHandler conn q conns;
    '(conns, os) ← run es conns;
    Ret (conns, (q_UUID q, o) :: os)
  | Evict u :: es => run es (fst (evict u conns))
  end.

(** Requests that agree on the number of members of each bond. *)
Variable members : list Z -> nat.

Definition consistent_event (e : event) : Prop :=
  match e with
  | Arrive _ q => q_Count q = Z.of_nat (members (q_UUID q)) /\ 0 <= q_Index q < q_Count q
  | Evict _ => True
  end.

Definition conns_ok (conns : Conns) : Prop :=
  forall u m, conns !! u = Some m -> forall i c, m !! i = Some c -> 0 <= i < Z.of_nat (members u).

(** With as many entries as slots and no index past them, no slot is empty. *)
Lemma full_map (m : gmap Z ratioConn) n i :
  (forall j c, m !! j = Some c -> 0 <= j < Z.of_nat n) -> size m = n -> (i < n)%nat -> is_Some (m !! Z.of_nat i).
Proof.
  intros Hk Hn Hi. destruct (m !! Z.of_nat i) eqn:E; [by eexists|exfalso].
  assert (Hsub : dom m ⊆ list_to_set (map Z.of_nat (seq 0 n)) ∖ {[Z.of_nat i]}).
  { intros j Hj. apply elem_of_dom in Hj as [c Hc]. pose proof (Hk j c Hc).
    apply elem_of_difference. split.
    - apply elem_of_list_to_set, list_elem_of_fmap. exists (Z.to_nat j). split; [lia|].
      apply list_elem_of_In, in_seq. lia.
    - intros ->%elem_of_singleton. congruence. }
  apply subseteq_size in Hsub. rewrite size_dom, Hn in Hsub.
  assert (Hin : Z.of_nat i ∈ (list_to_set (map Z.of_nat (seq 0 n)) : gset Z)).
  { apply elem_of_list_to_set, list_elem_of_fmap. exists i. split; [done|]. apply list_elem_of_In, in_seq. lia. }
  rewrite size_difference in Hsub by set_solver. rewrite size_singleton, size_list_to_set in Hsub.
  - rewrite length_map, length_seq in Hsub. lia.
  - apply NoDup_fmap_2; [apply _|]. apply NoDup_seq.
Qed.

Lemma fill_slots_ok (m : gmap Z ratioConn) i n :
  (forall j, (i <= j < i + n)%nat -> is_Some (m !! Z.of_nat j)) ->
  exists l, fill_slots m i n = Ret l /\ length l = n /\
    forall j, (j < n)%nat -> l !! j = m !! Z.of_nat (i + j).
Proof.
  revert i. induction n as [|n IH]; intros i H; cbn [fill_slots].
  { exists []. split; [done|]. split; [done|]. lia. }
  destruct (H i) as [c Hc]; [lia|]. rewrite Hc. destruct (IH (S i)) as (l & -> & Hl & Hj).
  { intros j Hj. apply H. lia. }
  exists (c :: l). split; [done|]. split; [cbn; lia|]. intros [|j] Hjn; cbn.
  - by rewrite Nat.add_0_r.
  - rewrite Hj by lia. f_equal. lia.
Qed.

(** A consistent request never raises. *)
Lemma connHandler_ok conn q conns :
  consistent_event (Arrive conn q) -> conns_ok conns ->
  exists conns' o, connHandler conn q conns = Ret (conns', o) /\ conns_ok conns'.
Proof.
  intros [Hc Hi] Hok. unfold connHandler.
  set (m := <[q_Index q := _]> _).
  assert (Hm : forall i c, m !! i = Some c -> 0 <= i < Z.of_nat (members (q_UUID q))).
  { intros i c. subst m. rewrite lookup_insert_Some. intros [[<- _]|[_ Hm]]; [lia|].
    destruct (conns !! q_UUID q) as [m'|] eqn:E; cbn in Hm; [|done]. by apply (Hok _ _ E i c). }
  assert (Hok' : forall m', (forall i c, m' !! i = Some c -> 0 <= i < Z.of_nat (members (q_UUID q))) ->
    forall cs, conns_ok cs -> conns_ok (<[q_UUID q := m']> cs)).
  { intros m' Hm' cs Hcs u m1. rewrite lookup_insert_Some. intros [[<- <-]|[_ Hu]]; [done|]. by apply Hcs. }
  destruct (Z.eqb_spec (Z.of_nat (size m)) (q_Count q)) as [Hs|]; [|eauto].
  destruct (fill_slots_ok m 0 (size m)) as (l & -> & _).
  { intros j Hj. apply (full_map m (members (q_UUID q))); [done|lia|lia]. }
  cbn [mbind res_bind]. destruct (_ || _); eexists _, _; (split; [done|]); apply Hok'; auto; by intros ? ? ?%lookup_empty_Some.
Qed.

Lemma evict_ok u conns : conns_ok conns -> conns_ok (fst (evict u conns)).
Proof. intros Hok v m. cbn. rewrite lookup_delete_Some. intros [_ Hv]. by apply Hok. Qed.

(** Requests and evictions of other bonds leave a bond alone. *)
Lemma connHandler_other conn (q : Request Socksaddr) conns conns' o u :
  connHandler conn q conns = Ret (conns', o) -> q_UUID q <> u -> conns' !! u = conns !! u.
Proof.
  intros H Hu. unfold connHandler in H. set (m := <[q_Index q := _]> _) in H.
  destruct (Z.of_nat (size m) =? q_Count q).
  - destruct (fill_slots m 0 (size m)) as [l| |]; [|done..]. cbn [mbind res_bind] in H.
    destruct (_ || _); apply Ret_inj in H; injection H as <- _; by rewrite !lookup_insert_ne.
  - apply Ret_inj in H. injection H as <- _. by rewrite lookup_insert_ne.
Qed.

(** The outcomes of one bond. *)
Definition outcomes (u : list Z) (os : list (list Z * outcome Socksaddr)) : list (outcome Socksaddr) :=
  map snd (base.filter (fun p => fst p = u) os).

Lemma run_ok es conns :
  Forall consistent_event es -> conns_ok conns -> exists conns' os, run es conns = Ret (conns', os).
Proof.
  intros Hes. revert conns. induction Hes as [|e es He _ IH]; intros conns Hok; cbn [run]; [eauto|].
  destruct e as [conn q|u].
  - destruct (connHandler_ok conn q conns He Hok) as (conns' & o & -> & Hok'). cbn [mbind res_bind].
    destruct (IH conns' Hok') as (c & os & ->). cbn. eauto.
  - apply IH. by apply evict_ok.
Qed.

Lemma run_others es conns u :
  Forall consistent_event es -> conns_ok conns -> Forall (fun e => event_uuid e <> u) es ->
  exists conns' os, run es conns = Ret (conns', os) /\ outcomes u os = [].
Proof.
  intros Hes. revert conns. induction Hes as [|e es He _ IH]; intros conns Hok Hu; cbn [run]; [eauto|].
  apply Forall_cons in Hu as [Hu0 Hu]. destruct e as [conn q|v].
  - destruct (connHandler_ok conn q conns He Hok) as (conns' & o & -> & Hok'). cbn [mbind res_bind].
    destruct (IH conns' Hok' Hu) as (c & os & -> & Ho). eexists _, _. split; [done|].
    unfold outcomes in *. by rewrite filter_cons_False.
  - apply IH; [by apply evict_ok|done].
Qed.

(** *** One bond among others *)

Section bond.
Variables (u : list Z) (downs ups : list Z) (dest : Socksaddr) (conn : nat -> Z).
Hypothesis Hlen : length ups = length downs.
Hypothesis Hn : (0 < length downs < 256)%nat.
Hypothesis Hmembers : members u = length downs.
Hypothesis Hdowns : foldr Z.add 0 downs = 100.
Hypothesis Hups : foldr Z.add 0 ups = 100.

(** The request of a member as the outbound writes it. *)
Definition bond_request (i : nat) : Request Socksaddr :=
  mkRequest u (Z.of_nat i) (zlen downs) (nth i ups 0) (nth i downs 0) dest.

Lemma dial_request_bond i :
  (i < length downs)%nat -> dial_request downs ups u dest i = Ret (bond_request i).
Proof.
  intros Hi. unfold dial_request, go_index, bond_request.
  rewrite !(proj2 (Z.leb_le 0 _)) by lia. rewrite !Nat2Z.id.
  destruct (lookup_lt_is_Some_2 ups i ltac:(lia)) as [x Hx], (lookup_lt_is_Some_2 downs i Hi) as [y Hy].
  rewrite Hx, Hy. cbn [mbind res_bind].
  rewrite (nth_lookup_Some _ _ _ _ Hx), (nth_lookup_Some _ _ _ _ Hy).
  unfold u8, zlen. by rewrite !Z.mod_small by lia.
Qed.

Definition bond_entry (i : nat) : Z * ratioConn :=
  (Z.of_nat i, mkRatioConn (conn i) (nth i ups 0) (nth i downs 0)).

Definition bond_map (done : list nat) : gmap Z ratioConn := list_to_map (map bond_entry done).

Lemma bond_keys done : map fst (map bond_entry done) = map Z.of_nat done.
Proof. rewrite map_map. done. Qed.

Lemma bond_map_size done : NoDup done -> size (bond_map done) = length done.
Proof.
  intros Hd. unfold bond_map. rewrite <- size_dom, dom_list_to_map_L, <- list_fmap_compose.
  rewrite size_list_to_set, length_fmap; [done|].
  apply NoDup_fmap_2; [|done]. intros i j H. cbn in H. lia.
Qed.

Lemma bond_map_lookup done i : i ∈ done -> NoDup done -> bond_map done !! Z.of_nat i = Some (snd (bond_entry i)).
Proof.
  intros Hi Hd. apply elem_of_list_to_map_1.
  - change (NoDup (map fst (map bond_entry done))). rewrite bond_keys.
    apply NoDup_fmap_2; [|done]. intros x y H. lia.
  - apply list_elem_of_fmap. by exists i.
Qed.

(** All members are there. *)
Definition bond_outcome : outcome Socksaddr :=
  Bonded (map conn (seq 0 (length downs))) ups downs dest.

Lemma nth_seq (l : list Z) n : length l = n -> map (fun i => nth i l 0) (seq 0 n) = l.
Proof.
  intros <-. apply list_eq_same_length with (length l); [done|by rewrite length_map, length_seq|].
  intros i x y Hi Hx Hy. rewrite list_lookup_fmap, lookup_seq_lt in Hx by done. cbn in Hx.
  injection Hx as <-. by apply nth_lookup_Some.
Qed.

Lemma fill_bond done :
  NoDup done -> (forall i, i ∈ done <-> (i < length downs)%nat) ->
  fill_slots (bond_map done) 0 (length downs)
  = Ret (map (fun i => snd (bond_entry i)) (seq 0 (length downs))).
Proof.
  intros Hd Hall. destruct (fill_slots_ok (bond_map done) 0 (length downs)) as (l & -> & Hl & Hj).
  { intros j Hj. rewrite bond_map_lookup; [by eexists| |done]. apply Hall. lia. }
  f_equal. apply list_eq_same_length with (length downs); [by rewrite length_map, length_seq|done|].
  intros i x y Hi Hx Hy. rewrite Hj, bond_map_lookup in Hx by (done || by apply Hall).
  rewrite list_lookup_fmap, lookup_seq_lt in Hy by done. cbn in Hx, Hy. congruence.
Qed.

Lemma bond_arrives done i conns :
  default ∅ (conns !! u) = bond_map done -> NoDup (i :: done) ->
  connHandler (conn i) (bond_request i) conns =
  if (S (length done) =? length downs)%nat then
    slots ← fill_slots (bond_map (i :: done)) 0 (length downs);
    Ret (<[u := ∅]> (<[u := bond_map (i :: done)]> conns),
         if negb (total8 (map rc_downloadRatio slots) =? 100) || negb (total8 (map rc_uploadRatio slots) =? 100)
         then InvalidRatios (map rc_conn slots)
         else Bonded (map rc_conn slots) (map rc_downloadRatio slots) (map rc_uploadRatio slots) dest)
  else Ret (<[u := bond_map (i :: done)]> conns, Waiting).
Proof.
  intros Hm Hd. unfold connHandler. cbn [bond_request q_UUID q_Index q_Count q_DownloadRatio q_UploadRatio q_Destination].
  rewrite Hm. change (<[Z.of_nat i := mkRatioConn (conn i) (nth i ups 0) (nth i downs 0)]> (bond_map done))
    with (bond_map (i :: done)). rewrite bond_map_size by done. cbn [length].
  destruct (Nat.eqb_spec (S (length done)) (length downs)) as [E|E].
  - rewrite E. change (zlen downs) with (Z.of_nat (length downs)). rewrite Z.eqb_refl.
    destruct (fill_slots _ _ _) as [slots| |]; [|done..]. cbn [mbind res_bind]. by destruct (_ || _).
  - rewrite (proj2 (Z.eqb_neq _ _)); [done|]. unfold zlen. lia.
Qed.

Lemma bond_completes done i conns :
  default ∅ (conns !! u) = bond_map done -> NoDup (i :: done) ->
  (forall j, j ∈ i :: done <-> (j < length downs)%nat) ->
  exists conns', connHandler (conn i) (bond_request i) conns = Ret (conns', bond_outcome).
Proof.
  intros Hm Hd Hall. rewrite (bond_arrives done i conns Hm Hd).
  assert (Hs : S (length done) = length downs).
  { change (length (i :: done) = length downs). rewrite <- (length_seq (length downs) 0).
    apply Permutation_length, NoDup_Permutation; [done|apply NoDup_seq|].
    intros j. rewrite Hall, list_elem_of_In, in_seq. lia. }
  rewrite Hs, Nat.eqb_refl, fill_bond by done. cbn [mbind res_bind]. rewrite !map_map. cbn.
  rewrite (nth_seq ups), (nth_seq downs) by done. rewrite !total8_mod, Hdowns, Hups. cbn. eauto.
Qed.

(** The requests of the bond among the events, in the order of [todo]. *)
Lemma run_bond es : forall done todo conns,
  Forall consistent_event es -> conns_ok conns -> default ∅ (conns !! u) = bond_map done ->
  base.filter (fun e => event_uuid e = u) es = map (fun i => Arrive (conn i) (bond_request i)) todo ->
  NoDup (todo ++ done) -> (forall i, i ∈ todo ++ done <-> (i < length downs)%nat) -> todo <> [] ->
  exists conns' os, run es conns = Ret (conns', os) /\
    outcomes u os = replicate (length todo - 1) Waiting ++ [bond_outcome].
Proof.
  induction es as [|e es IH]; intros done todo conns Hes Hok Hm Hf Hd Hall Hne.
  { by destruct todo. }
  apply Forall_cons in Hes as [He Hes]. destruct (decide (event_uuid e = u)) as [Eu|Eu].
  - rewrite filter_cons_True in Hf by done. destruct todo as [|i todo]; [done|].
    cbn [map] in Hf. injection Hf as -> Hf. cbn [run].
    pose proof (connHandler_ok (conn i) (bond_request i) conns He Hok) as (conns1 & o & Eh & Hok1).
    destruct todo as [|j todo].
    + destruct (bond_completes done i conns Hm Hd Hall) as (conns2 & E2). rewrite Eh in E2.
      apply Ret_inj in E2. injection E2 as -> ->. rewrite Eh. cbn [mbind res_bind].
      destruct (run_others es conns2 u Hes Hok1) as (c & os & -> & Ho).
      { apply Forall_forall. intros e' He' Ee'. assert (Hin : e' ∈ base.filter (fun e => event_uuid e = u) es)
          by (by apply list_elem_of_filter). rewrite Hf in Hin. by apply not_elem_of_nil in Hin. }
      eexists _, _. split; [done|]. unfold outcomes in *. rewrite filter_cons_True by done. cbn. by rewrite Ho.
    + assert (Hd' : NoDup (i :: done)).
      { apply NoDup_app in Hd as (_ & Hi & Hdone). constructor; [|done]. apply Hi. by left. }
      assert (Hlt : (S (length done) < length downs)%nat).
      { assert (Hp : length ((i :: j :: todo) ++ done) = length downs).
        { rewrite <- (length_seq (length downs) 0). apply Permutation_length, NoDup_Permutation;
            [done|apply NoDup_seq|]. intros k. rewrite Hall, list_elem_of_In, in_seq. lia. }
        rewrite length_app in Hp. cbn [length] in Hp. lia. }
      rewrite (bond_arrives done i conns Hm Hd') in Eh |- *.
      rewrite (proj2 (Nat.eqb_neq _ _)) in Eh |- * by lia.
      apply Ret_inj in Eh. injection Eh as <- <-. cbn [mbind res_bind].
      destruct (IH (i :: done) (j :: todo) (<[u := bond_map (i :: done)]> conns)) as (c & os & -> & Ho); try done.
      * by rewrite lookup_insert_eq.
      * rewrite <- Permutation_middle. exact Hd.
      * intros k. rewrite <- Hall. rewrite <- Permutation_middle. done.
      * eexists _, _. split; [done|]. unfold outcomes in *. rewrite filter_cons_True by done.
        cbn [map snd length]. rewrite Ho. cbn [length]. rewrite !Nat.sub_succ, !Nat.sub_0_r. done.
  - rewrite filter_cons_False in Hf by done. destruct e as [c q|v]; cbn [run].
    + destruct (connHandler_ok c q conns He Hok) as (conns1 & o & Eh & Hok1). rewrite Eh. cbn [mbind res_bind].
      destruct (IH done todo conns1) as (c' & os & -> & Ho); try done.
      { by rewrite (connHandler_other c q conns conns1 o u Eh Eu). }
      eexists _, _. split; [done|]. unfold outcomes in *. by rewrite filter_cons_False.
    + apply (IH done todo); try done; [by apply evict_ok|]. cbn. by rewrite lookup_delete_ne.
Qed.

End bond.
End arrival.

Lemma sum_nonneg l : Forall (fun r => 0 <= r) l -> 0 <= foldr Z.add 0 l.
Proof. induction 1; cbn; lia. Qed.

Lemma NewOutbound_sums options downs ups :
  NewOutbound options = Ret (downs, ups) ->
  Forall (fun r => 0 <= r) downs -> Forall (fun r => 0 <= r) ups ->
  foldr Z.add 0 downs < 256 -> foldr Z.add 0 ups < 256 ->
  foldr Z.add 0 downs = 100 /\ foldr Z.add 0 ups = 100 /\ length ups = length downs /\ downs <> [].
Proof.
  unfold NewOutbound. intros H Hd Hu Sd Su.
  destruct (_ || _) eqn:E; [done|]. apply Ret_inj in H. injection H as Ed Eu. rewrite Ed, Eu in E.
  apply orb_false_iff in E as [E1%negb_false_iff%Z.eqb_eq E2%negb_false_iff%Z.eqb_eq].
  rewrite total8_mod in E1, E2. unfold u8 in E1, E2.
  pose proof (sum_nonneg downs Hd). pose proof (sum_nonneg ups Hu).
  rewrite Z.mod_small in E1, E2 by lia. split_and!; [done..|subst; by rewrite !length_map|].
  intros ->. done.
Qed.

(** A bond is put together once and in order.  The members of a bond that
    [NewOutbound] accepts (with ratios whose sum does not overflow a byte)
    announce themselves in any order, among any consistent requests and
    evictions of other bonds: the requests are answered by waiting until the
    last, which hands over one connection, of the members in the order of the
    outbound, with the ratios of each direction as the outbound has them for
    the other, and to the destination that was dialed.  Nothing raises. *)
Theorem bond_assembles {Socksaddr} (members : list Z -> nat) options downs ups u (dest : Socksaddr) conn
    order (es : list (event (Socksaddr := Socksaddr))) conns :
  NewOutbound options = Ret (downs, ups) ->
  Forall (fun r => 0 <= r) downs -> Forall (fun r => 0 <= r) ups ->
  foldr Z.add 0 downs < 256 -> foldr Z.add 0 ups < 256 -> (length downs < 256)%nat ->
  members u = length downs -> Forall (consistent_event members) es -> conns_ok members conns ->
  conns !! u = None -> Permutation order (seq 0 (length downs)) ->
  base.filter (fun e => event_uuid e = u) es
    = map (fun i => Arrive (conn i) (bond_request u downs ups dest i)) order ->
  (forall i, (i < length downs)%nat -> dial_request downs ups u dest i = Ret (bond_request u downs ups dest i)) /\
  exists conns' os, run es conns = Ret (conns', os) /\
    outcomes u os = replicate (length downs - 1) Waiting
                    ++ [Bonded (map conn (seq 0 (length downs))) ups downs dest].
Proof.
  intros Ho Hd Hu Sd Su Hn Hm Hes Hok Hfresh Hperm Hf.
  destruct (NewOutbound_sums options downs ups Ho Hd Hu Sd Su) as (E1 & E2 & E3 & E4).
  assert (Hpos : (0 < length downs)%nat) by (destruct downs; [done|cbn; lia]).
  assert (Hin : forall i, i ∈ order ++ [] <-> (i < length downs)%nat).
  { intros i. rewrite app_nil_r, Hperm, list_elem_of_In, in_seq. lia. }
  split; [intros i; by apply (dial_request_bond members u downs ups dest)|].
  replace (length downs - 1)%nat with (length order - 1)%nat by (rewrite Hperm, length_seq; done).
  apply (run_bond members u downs ups dest conn E3 (conj Hpos Hn) Hm E1 E2 es [] order conns); try done.
  - by rewrite Hfresh.
  - rewrite app_nil_r, Hperm. apply NoDup_seq.
  - intros ->. specialize (Hin 0%nat). cbn in Hin. apply (not_elem_of_nil 0%nat), Hin. lia.
Qed.

Definition demo_members (u : list Z) : nat := match u with [7] => 2 | _ => 3 end.

Definition demo_events : list (event (Socksaddr := Z)) :=
  [Arrive 11 (bond_request [7] [40; 60] [50; 50] 443 1); Arrive 5 (mkRequest [8] 2 3 100 100 80);
   Evict [9]; Arrive 10 (bond_request [7] [40; 60] [50; 50] 443 0)].

Lemma bond_assembles_witness :
  exists conns' os, run demo_events ∅ = Ret (conns', os) /\
    outcomes [7] os = [Waiting; Bonded [10; 11] [50; 50] [40; 60] 443].
Proof.
  destruct (bond_assembles demo_members [mkBondOutbound 40 50 1; mkBondOutbound 60 50 0] [40; 60] [50; 50] [7] 443
    (fun i => 10 + Z.of_nat i) [1; 0]%nat demo_events ∅) as [_ H].
  - reflexivity.
  - repeat constructor; lia.
  - repeat constructor; lia.
  - cbn; lia.
  - cbn; lia.
  - cbn; lia.
  - reflexivity.
  - repeat constructor; cbn; lia.
  - intros v m Hv. rewrite lookup_empty in Hv. discriminate.
  - reflexivity.
  - cbn. apply Permutation_swap.
  - reflexivity.
  - exact H.
Defined.

(** A request whose index is not below its count raises: it needs no other
    request. *)
Lemma stray_index_raises {Socksaddr} conn (q : Request Socksaddr) conns :
  conns !! q_UUID q = None -> q_Count q = 1 -> q_Index q <> 0 -> connHandler conn q conns = Panic.
Proof.
  intros Hu Hc Hi. unfold connHandler. rewrite Hu. cbn [default].
  rewrite insert_empty, map_size_singleton, Hc. cbn [Z.of_nat Z.eqb Pos.of_succ_nat Pos.eqb fill_slots].
  by rewrite lookup_singleton_ne.
Qed.

(** Ratios of 356 in total pass the check of their sum in a byte; the last part
    of a write is then negative, and cutting it raises. *)
Example overflowing_ratios :
  NewOutbound [mkBondOutbound 200 100 1; mkBondOutbound 156 0 1] = Ret ([200; 156], [100; 0]) /\
  Write (fun _ d => (length d, None)) [200; 156] [[]; []] 0 [1; 2; 3; 4] = Panic.
Proof. by split; vm_compute. Qed.
