(* ===== verification/Heap.v ===== *)
(** * Go's container/heap

    [Push] and [Pop] of container/heap on an implementation of
    [heap.Interface], and that they keep the heap order, add or remove one
    element, and remove a least one.  The upload queue of the XHTTP transport
    uses them. *)

From S2P Require Import Prelude.

(** [heap.Interface]: the methods of a value of type [H] that holds elements
    of type [X].  An index out of range raises. *)
Class HeapInterface (H X : Type) := {
  Len : H -> nat;
  Less : H -> nat -> nat -> res bool;
  Swap : H -> nat -> nat -> res H;
  hPush : H -> X -> H;
  hPop : H -> res (X * H)
}.

Section heap.
Context {H X : Type} {HI : HeapInterface H X}.

(** [up]; more than [j] rounds are never made. *)
Fixpoint up (fuel : nat) (h : H) (j : nat) : res H :=
  match fuel with
  | O => Panic
  | S fuel =>
    let i := ((j - 1) / 2)%nat in
    if (i =? j)%nat then Ret h else
    less ← Less h j i;
    if negb less then Ret h else
    h ← Swap h i j;
    up fuel h i
  end.

(** [down], without the answer whether the element moved, which [Pop] does
    not use; more than [n - i] rounds are never made. *)
Fixpoint down (fuel : nat) (h : H) (i n : nat) : res H :=
  match fuel with
  | O => Panic
  | S fuel =>
    let j1 := (2 * i + 1)%nat in
    if (n <=? j1)%nat then Ret h else
    let j2 := S j1 in
    less ← (if (j2 <? n)%nat then Less h j2 j1 else Ret false);
    let j := if (less : bool) then j2 else j1 in
    less ← Less h j i;
    if negb less then Ret h else
    h ← Swap h i j;
    down fuel h j n
  end.

Definition heap_Push (h : H) (x : X) : res H :=
  let h := hPush h x in
  up (Len h) h (Len h - 1).

Definition heap_Pop (h : H) : res (X * H) :=
  match Len h with
  | O => Panic
  | S n =>
    h ← Swap h 0 n;
    h ← down (S n) h 0 n;
    hPop h
  end.

End heap.

(** What an implementation over a slice promises: the methods act on the
    elements in order, compared by a key. *)
Class HeapLaws {H X} (HI : HeapInterface H X) (items : H -> list X) (key : X -> Z) : Prop := {
  Len_law h : Len h = length (items h);
  Less_law h i j x y :
    items h !! i = Some x -> items h !! j = Some y -> Less h i j = Ret (key x <? key y);
  Swap_law h i j x y :
    items h !! i = Some x -> items h !! j = Some y ->
    exists h', Swap h i j = Ret h' /\ items h' = <[j := x]> (<[i := y]> (items h));
  hPush_law h x : items (hPush h x) = items h ++ [x];
  hPop_law h l x : items h = l ++ [x] -> exists h', hPop h = Ret (x, h') /\ items h' = l
}.

Section laws.
Context {H X : Type} {HI : HeapInterface H X} {items : H -> list X} {key : X -> Z}.
Context {HL : HeapLaws HI items key}.

(** The key at a position, and the position of the parent. *)
Definition key_at (l : list X) (i : nat) : Z := from_option key 0 (l !! i).

Definition parent (c : nat) : nat := ((c - 1) / 2)%nat.

(** The heap order of the first [n] elements. *)
Definition heap_order (n : nat) (l : list X) : Prop :=
  forall c, (0 < c < n)%nat -> key_at l (parent c) <= key_at l c.

Definition is_heap (h : H) : Prop := heap_order (length (items h)) (items h).

(** The order but for one element, that may be less than its parent ([up]) or
    greater than its children ([down]). *)
Definition order_above (n : nat) (l : list X) (j : nat) : Prop :=
  (forall c, (0 < c < n)%nat -> c ≠ j -> key_at l (parent c) <= key_at l c) /\
  (forall c, (0 < c < n)%nat -> parent c = j -> (0 < j)%nat -> key_at l (parent j) <= key_at l c).

Definition order_below (n : nat) (l : list X) (i : nat) : Prop :=
  (forall c, (0 < c < n)%nat -> parent c ≠ i -> key_at l (parent c) <= key_at l c) /\
  (forall c, (0 < c < n)%nat -> parent c = i -> (0 < i)%nat -> key_at l (parent i) <= key_at l c).

Lemma parent_spec c : (0 < c)%nat -> (2 * parent c + 1 <= c <= 2 * parent c + 2)%nat.
Proof.
  unfold parent. intros Hc. pose proof (Nat.div_mod_eq (c - 1) 2).
  pose proof (Nat.mod_upper_bound (c - 1) 2). lia.
Qed.

Lemma parent_is c i : (2 * i + 1 <= c <= 2 * i + 2)%nat -> parent c = i.
Proof. intros. pose proof (parent_spec c). lia. Qed.

Lemma parent_0 : parent 0 = 0%nat.
Proof. done. Qed.

Lemma key_at_Some l i x : l !! i = Some x -> key_at l i = key x.
Proof. unfold key_at. by intros ->. Qed.

Lemma key_at_swap l i j x y c :
  l !! i = Some x -> l !! j = Some y ->
  key_at (<[j := x]> (<[i := y]> l)) c =
  if decide (c = j) then key_at l i else if decide (c = i) then key_at l j else key_at l c.
Proof.
  intros Hi Hj. unfold key_at.
  pose proof (lookup_lt_Some _ _ _ Hi). pose proof (lookup_lt_Some _ _ _ Hj).
  destruct (decide (c = j)) as [->|].
  - rewrite list_lookup_insert_eq by (by rewrite length_insert). by rewrite Hi.
  - rewrite list_lookup_insert_ne by done. destruct (decide (c = i)) as [->|].
    + rewrite list_lookup_insert_eq by done. by rewrite Hj.
    + by rewrite list_lookup_insert_ne.
Qed.

(** A swap of two elements in range succeeds. *)
Lemma Swap_in_range h i j :
  (i < length (items h))%nat -> (j < length (items h))%nat ->
  exists h', Swap h i j = Ret h' /\ items h' ≡ₚ items h /\
    (forall c, c ≠ i -> c ≠ j -> items h' !! c = items h !! c) /\
    items h' !! j = items h !! i /\ items h' !! i = items h !! j /\
    (forall c, key_at (items h') c =
      if decide (c = j) then key_at (items h) i
      else if decide (c = i) then key_at (items h) j else key_at (items h) c).
Proof.
  intros [x Hx]%lookup_lt_is_Some [y Hy]%lookup_lt_is_Some.
  pose proof (lookup_lt_Some _ _ _ Hx). pose proof (lookup_lt_Some _ _ _ Hy).
  destruct (Swap_law h i j x y Hx Hy) as (h' & E & Hh'). exists h'. rewrite Hh'. split; [done|].
  repeat split; intros.
  - by apply Permutation_insert_swap.
  - by rewrite !list_lookup_insert_ne by done.
  - rewrite list_lookup_insert_eq by (by rewrite length_insert). done.
  - destruct (decide (i = j)) as [->|].
    + rewrite list_lookup_insert_eq by (by rewrite length_insert). congruence.
    + rewrite list_lookup_insert_ne, list_lookup_insert_eq by done. done.
  - by apply key_at_swap.
Qed.

Lemma Less_in_range h i j :
  (i < length (items h))%nat -> (j < length (items h))%nat ->
  Less h i j = Ret (key_at (items h) i <? key_at (items h) j).
Proof.
  intros [x Hx]%lookup_lt_is_Some [y Hy]%lookup_lt_is_Some.
  rewrite (Less_law h i j x y Hx Hy). by rewrite (key_at_Some _ _ _ Hx), (key_at_Some _ _ _ Hy).
Qed.

(** One round of [up] moves the exception to the parent. *)
Lemma order_above_step n l l' j :
  (0 < j < n)%nat -> order_above n l j -> key_at l j < key_at l (parent j) ->
  (forall c, key_at l' c = if decide (c = j) then key_at l (parent j)
     else if decide (c = parent j) then key_at l j else key_at l c) ->
  order_above n l' (parent j).
Proof.
  intros Hj [Ho Hs] Hlt K. pose proof (parent_spec j ltac:(lia)) as Hp. split; intros c Hc Hne.
  - pose proof (parent_spec c ltac:(lia)) as Hpc. rewrite !K.
    destruct (decide (c = j)) as [->|].
    + rewrite decide_False by lia. rewrite decide_True by done. lia.
    + rewrite (decide_False (P := c = parent j)) by done.
      destruct (decide (parent c = j)) as [E|]; [apply Hs; lia|].
      destruct (decide (parent c = parent j)) as [E|].
      * rewrite <-E in *. specialize (Ho c Hc ltac:(done)). lia.
      * by apply Ho.
  - intros H0. pose proof (parent_spec c ltac:(lia)) as Hpc.
    pose proof (parent_spec (parent j) H0) as Hpp. rewrite !K.
    rewrite (decide_False (P := parent (parent j) = j)) by lia.
    rewrite (decide_False (P := parent (parent j) = parent j)) by lia.
    pose proof (Ho (parent j) ltac:(lia) ltac:(lia)).
    destruct (decide (c = j)) as [->|]; [lia|].
    rewrite decide_False by lia. specialize (Ho c Hc ltac:(done)). rewrite Hne in Ho. lia.
Qed.

Lemma up_spec fuel h j :
  (j < fuel)%nat -> (j < length (items h))%nat ->
  order_above (length (items h)) (items h) j ->
  exists h', up fuel h j = Ret h' /\ items h' ≡ₚ items h /\ is_heap h'.
Proof.
  revert h j. induction fuel as [|fuel IH]; intros h j Hf Hj Ho; [lia|]. cbn [up].
  fold (parent j). destruct (Nat.eqb_spec (parent j) j) as [E|E].
  - exists h. split; [done|]. split; [done|]. intros c Hc.
    destruct (Nat.eq_dec j 0%nat) as [->|]; [|pose proof (parent_spec j); lia].
    apply Ho; lia.
  - assert (0 < j)%nat as H0 by (destruct j; [by destruct E|lia]).
    pose proof (parent_spec j H0) as Hp.
    rewrite Less_in_range by lia. cbn [mbind res_bind].
    go_case; cbn [negb].
    + destruct (Swap_in_range h (parent j) j) as (h' & -> & HP & _ & _ & _ & K); [lia..|].
      cbn [mbind res_bind].
      assert (length (items h') = length (items h)) as HL' by (by rewrite HP).
      destruct (IH h' (parent j)) as (h'' & -> & HP' & Hh); [lia|lia| |].
      * rewrite HL'. by apply (order_above_step _ (items h)).
      * exists h''. split; [done|]. split; [by rewrite HP'|done].
    + exists h. split; [done|]. split; [done|]. intros c Hc.
      destruct (Nat.eq_dec c j) as [->|]; [lia|]. by apply Ho.
Qed.

(** One round of [down] moves the exception to the smaller child [j]. *)
Lemma order_below_step n l l' i j :
  (0 < j < n)%nat -> parent j = i -> order_below n l i ->
  (forall c, (0 < c < n)%nat -> parent c = i -> key_at l j <= key_at l c) ->
  key_at l j < key_at l i ->
  (forall c, key_at l' c = if decide (c = j) then key_at l i
     else if decide (c = i) then key_at l j else key_at l c) ->
  order_below n l' j.
Proof.
  intros Hj Hp [Ho Hs] Hmin Hlt K. pose proof (parent_spec j ltac:(lia)) as Hpj.
  split; intros c Hc Hne.
  - pose proof (parent_spec c ltac:(lia)) as Hpc. rewrite !K.
    rewrite (decide_False (P := parent c = j)) by done.
    destruct (decide (c = j)) as [->|].
    + rewrite decide_True by lia. lia.
    + destruct (decide (parent c = i)) as [E|]; destruct (decide (c = i)) as [->|].
      * lia.
      * by apply Hmin.
      * apply Hs; lia.
      * by apply Ho.
  - intros H0. pose proof (parent_spec c ltac:(lia)) as Hpc. rewrite !K.
    rewrite Hp, (decide_False (P := i = j)) by lia. rewrite (decide_True (P := i = i)) by done.
    rewrite !decide_False by lia. pose proof (Ho c Hc ltac:(lia)) as Hk. by rewrite Hne in Hk.
Qed.

Lemma down_spec fuel h i n :
  (n - i < fuel)%nat -> (i < n)%nat \/ n = 0%nat -> (n < length (items h))%nat ->
  order_below n (items h) i ->
  exists h', down fuel h i n = Ret h' /\ items h' ≡ₚ items h /\ heap_order n (items h') /\
    (forall c, (n <= c)%nat -> items h' !! c = items h !! c).
Proof.
  revert h i. induction fuel as [|fuel IH]; intros h i Hf Hi Hn Ho; [lia|]. cbn [down].
  assert (forall j, (2 * i + 1 <= j <= 2 * i + 2)%nat -> (j < n)%nat ->
    (forall c, (0 < c < n)%nat -> parent c = i -> key_at (items h) j <= key_at (items h) c) ->
    exists h', (less ← Less h j i;
      if negb less then Ret h else h ← Swap h i j; down fuel h j n) = Ret h' /\
      items h' ≡ₚ items h /\ heap_order n (items h') /\
      (forall c, (n <= c)%nat -> items h' !! c = items h !! c)) as Hround.
  { intros j Hj Hjn Hmin. pose proof (parent_is j i Hj) as Hp.
    rewrite Less_in_range by lia. cbn [mbind res_bind]. go_case; cbn [negb].
    - destruct (Swap_in_range h i j) as (h' & -> & HP & HS & _ & _ & K); [lia..|]. cbn [mbind res_bind].
      assert (length (items h') = length (items h)) as HL' by (by rewrite HP).
      destruct (IH h' j) as (h'' & -> & HP' & Hh & HS'); [lia..| |].
      + by apply (order_below_step _ (items h) _ i); [lia|..].
      + exists h''. split; [done|]. split; [by rewrite HP'|]. split; [done|].
        intros c Hc. rewrite HS', HS by lia. done.
    - exists h. split; [done|]. split; [done|]. split; [|done]. intros c Hc.
      destruct (Nat.eq_dec (parent c) i) as [E|]; [|by apply Ho].
      rewrite E. specialize (Hmin c Hc E). lia. }
  destruct (Nat.leb_spec n (2 * i + 1)).
  - exists h. split; [done|]. split; [done|]. split; [|done]. intros c Hc.
    pose proof (parent_spec c ltac:(lia)). apply Ho; lia.
  - destruct (Nat.ltb_spec (S (2 * i + 1)) n).
    + rewrite Less_in_range by lia. cbn [mbind res_bind].
      go_case; (apply Hround; [lia|lia|]); intros c Hc Hpc; pose proof (parent_spec c ltac:(lia));
        (assert (c = 2 * i + 1 \/ c = S (2 * i + 1))%nat as [-> | ->] by lia); lia.
    + cbn [mbind res_bind]. apply Hround; [lia|lia|]. intros c Hc Hpc.
      pose proof (parent_spec c ltac:(lia)). assert (c = 2 * i + 1)%nat as -> by lia. lia.
Qed.

(** The first element of a heap is a least one. *)
Lemma heap_order_least n l : heap_order n l -> forall c, (c < n)%nat -> key_at l 0 <= key_at l c.
Proof.
  intros Ho c. induction c as [c IH] using lt_wf_ind. intros Hc.
  destruct (Nat.eq_dec c 0%nat) as [->|]; [lia|]. pose proof (parent_spec c ltac:(lia)).
  specialize (IH (parent c) ltac:(lia) ltac:(lia)). specialize (Ho c ltac:(lia)). lia.
Qed.

(** [heap.Push] adds an element. *)
Lemma heap_Push_spec h x :
  is_heap h -> exists h', heap_Push h x = Ret h' /\ items h' ≡ₚ x :: items h /\ is_heap h'.
Proof.
  intros Hh. unfold heap_Push. rewrite Len_law, hPush_law, length_app. cbn [length].
  assert (length (items (hPush h x)) = length (items h) + 1)%nat as HL1
    by (rewrite hPush_law, length_app; cbn; lia).
  destruct (up_spec (length (items h) + 1) (hPush h x) (length (items h) + 1 - 1)) as (h' & E & HP & Hh').
  - lia.
  - lia.
  - rewrite HL1, hPush_law. split; intros c Hc Hne.
    + pose proof (parent_spec c ltac:(lia)). unfold key_at. rewrite !lookup_app_l by lia. apply Hh. lia.
    + pose proof (parent_spec c ltac:(lia)). lia.
  - exists h'. split; [done|]. split; [|done]. rewrite HP, hPush_law. symmetry. apply Permutation_cons_append.
Qed.

(** [heap.Pop] of a heap that is not empty removes a least element. *)
Lemma heap_Pop_spec h :
  is_heap h -> items h ≠ [] ->
  exists x h', heap_Pop h = Ret (x, h') /\ items h ≡ₚ x :: items h' /\ is_heap h' /\
    Forall (fun y => key x <= key y) (items h').
Proof.
  intros Hh Hne. unfold heap_Pop. rewrite Len_law.
  destruct (items h) as [|x l] eqn:E; [done|]. cbn [length]. rewrite <-E in *.
  assert (length (items h) = S (length l)) as HL1 by (by rewrite E).
  destruct (Swap_in_range h 0 (length l)) as (h1 & -> & HP1 & _ & Hlast & _ & K1); [lia..|].
  cbn [mbind res_bind].
  assert (length (items h1) = S (length l)) as HL2 by (by rewrite HP1).
  destruct (down_spec (S (length l)) h1 0 (length l)) as (h2 & -> & HP2 & Hh2 & HS2); [lia..| |].
  { split; intros c Hc Hp; [|lia]. pose proof (parent_spec c ltac:(lia)).
    rewrite !K1. rewrite !decide_False by lia. apply Hh. lia. }
  cbn [mbind res_bind].
  assert (items h2 !! length l = Some x) as Hx by (rewrite HS2, Hlast, E by lia; done).
  assert (items h2 = take (length l) (items h2) ++ [x]) as Hsplit.
  { assert (length (items h2) = S (length l)) as HL3 by (by rewrite HP2).
    rewrite <-(take_drop (length l) (items h2)) at 1. f_equal.
    rewrite (drop_S _ x) by done. rewrite drop_ge by lia. done. }
  destruct (hPop_law h2 _ _ Hsplit) as (h3 & E3 & Hi3). exists x, h3. split; [done|].
  assert (items h ≡ₚ x :: items h3) as HP.
  { rewrite Hi3, Permutation_cons_append, <-Hsplit, HP2. by rewrite HP1. }
  assert (length (items h3) = length l) as HL3
    by (apply Permutation_length in HP; cbn in HP; lia).
  split; [done|]. split.
  - intros c Hc. rewrite HL3 in Hc. pose proof (parent_spec c ltac:(lia)).
    specialize (Hh2 c Hc). rewrite Hsplit, <-Hi3 in Hh2. unfold key_at in *.
    rewrite !lookup_app_l in Hh2 by lia. done.
  - apply Forall_forall. intros y Hy.
    assert (y ∈ items h) as [c Hc]%list_elem_of_lookup by (rewrite HP; set_solver).
    pose proof (heap_order_least _ _ Hh c (lookup_lt_Some _ _ _ Hc)) as Hle.
    rewrite (key_at_Some _ c y Hc) in Hle. rewrite E in Hle. done.
Qed.

End laws.
