(* ===== verification/UploadQueue.v ===== *)
(** * The upload queue of the XHTTP transport
    (src/transport/v2rayxhttp/upload_queue.go)

    The POST requests of a session carry numbered pieces of the upload, and
    may arrive in any order.  Their handlers [Push] the pieces into a channel;
    the connection's [Read] takes them from there, keeps the early ones in a
    heap and hands out the bytes in the order of the numbers.  The queue is
    shared: the steps below interleave any number of handlers in [Push], one
    reader in [Read] and [Close], at the granularity of the mutex sections and
    of the channel operations. *)

From S2P Require Import Prelude Heap.

(** [Reader] is the request body of a streamed upload, by its identity. *)
Record Packet := mkPacket {
  Reader : option nat;
  Payload : list Z;
  Seq : Z
}.

(** ** The heap of packets *)

Abbreviation uploadHeap := (list Packet).

Definition uploadHeap_Len (h : uploadHeap) : nat := length h.

Definition uploadHeap_Less (h : uploadHeap) (i j : nat) : res bool :=
  match h !! i, h !! j with
  | Some p, Some q => Ret (Seq p <? Seq q)
  | _, _ => Panic
  end.

Definition uploadHeap_Swap (h : uploadHeap) (i j : nat) : res uploadHeap :=
  match h !! i, h !! j with
  | Some p, Some q => Ret (<[j := p]> (<[i := q]> h))
  | _, _ => Panic
  end.

Definition uploadHeap_Push (h : uploadHeap) (x : Packet) : uploadHeap := h ++ [x].

Definition uploadHeap_Pop (old : uploadHeap) : res (Packet * uploadHeap) :=
  match last old with
  | None => Panic
  | Some x => Ret (x, take (length old - 1) old)
  end.

#[export] Instance uploadHeap_Interface : HeapInterface uploadHeap Packet := {|
  Len := uploadHeap_Len;
  Less := uploadHeap_Less;
  Swap := uploadHeap_Swap;
  hPush := uploadHeap_Push;
  hPop := uploadHeap_Pop
|}.

#[export] Instance uploadHeap_laws : HeapLaws uploadHeap_Interface id Seq.
Proof.
  split; cbn -[last].
  - done.
  - intros h i j x y. unfold uploadHeap_Less, id. by intros -> ->.
  - intros h i j x y. unfold uploadHeap_Swap, id. intros Hx Hy. rewrite Hx, Hy. eauto.
  - done.
  - intros h l x. unfold uploadHeap_Pop, id. intros ->. rewrite last_snoc.
    eexists. split; [done|]. rewrite length_app. cbn. by rewrite Nat.add_sub, take_app_length.
Qed.

(** ** The queue *)

Record uploadQueue := mkQueue {
  q_reader : option nat;
  q_nomore : bool;
  (** the packets in the channel [pushedPackets], the next to leave first *)
  q_pushed : list Packet;
  (** whether the channel [done] is closed *)
  q_done : bool;
  q_heap : uploadHeap;
  q_nextSeq : Z;
  q_closed : bool;
  q_maxPackets : Z
}.

(** The channel is made with the given capacity; a negative one raises. *)
Definition NewUploadQueue (maxPackets : Z) : res uploadQueue :=
  if maxPackets <? 0 then Panic else
  Ret (mkQueue None false [] false [] 0 false maxPackets).

Definition with_reader r h :=
  mkQueue r (q_nomore h) (q_pushed h) (q_done h) (q_heap h) (q_nextSeq h) (q_closed h) (q_maxPackets h).
Definition with_nomore b h :=
  mkQueue (q_reader h) b (q_pushed h) (q_done h) (q_heap h) (q_nextSeq h) (q_closed h) (q_maxPackets h).
Definition with_pushed l h :=
  mkQueue (q_reader h) (q_nomore h) l (q_done h) (q_heap h) (q_nextSeq h) (q_closed h) (q_maxPackets h).
Definition with_heap l h :=
  mkQueue (q_reader h) (q_nomore h) (q_pushed h) (q_done h) l (q_nextSeq h) (q_closed h) (q_maxPackets h).
Definition with_nextSeq n h :=
  mkQueue (q_reader h) (q_nomore h) (q_pushed h) (q_done h) (q_heap h) n (q_closed h) (q_maxPackets h).

(** *** Push *)

(** The section under the mutex. *)
Definition Push_locked (h : uploadQueue) (p : Packet) : res uploadQueue :=
  if q_closed h then Err "packet queue closed"
  else if q_nomore h then Err "h.reader already exists"
  else Ret (match Reader p with Some _ => with_nomore true h | None => h end).

(** The send, when the channel has room; otherwise the handler waits for room
    or for [done]. *)
Definition Push_send (h : uploadQueue) (p : Packet) : option uploadQueue :=
  if zlen (q_pushed h) <? q_maxPackets h then Some (with_pushed (q_pushed h ++ [p]) h) else None.

(** What a call of [Push] returns, with the queue [h] under the mutex and [h']
    at the select: its error, or [None]. *)
Inductive Push_returns (p : Packet) (h h' : uploadQueue) : option string -> Prop :=
| Push_refused e : Push_locked h p = Err e -> Push_returns p h h' (Some e)
| Push_sent k k' : Push_locked h p = Ret k -> Push_send h' p = Some k' -> Push_returns p h h' None
| Push_done k : Push_locked h p = Ret k -> q_done h' = true -> Push_returns p h h' (Some "packet queue closed").

(** *** Close *)

(** The section under the mutex: the queue, and whether this call closed it. *)
Definition Close_locked (h : uploadQueue) : uploadQueue * bool :=
  if q_closed h then (h, false) else
  (mkQueue (q_reader h) (q_nomore h) (q_pushed h) true (q_heap h) (q_nextSeq h) true (q_maxPackets h), true).

(** A receive from the channel, when there is a packet. *)
Definition receive (h : uploadQueue) : option (Packet * uploadQueue) :=
  match q_pushed h with
  | [] => None
  | p :: l => Some (p, with_pushed l h)
  end.

(** One round of the loop of [Close]: the reader it closes, and whether the
    loop goes on. *)
Definition Close_round (h : uploadQueue) : uploadQueue * option nat * bool :=
  match receive h with
  | Some (p, h) => (h, Reader p, true)
  | None => (h, q_reader h, false)
  end.

(** *** Read *)

(** What a [Read] returns: bytes, [io.EOF], the error of a full queue, or
    what the [Read] of a stream's reader returns. *)
Inductive read_result :=
| Got (data : list Z)
| EOF
| TooLarge
| Delegated (r : nat).

(** Where a call of [Read] into [n] bytes stands: at its first select, holding
    a stream's reader, at the select of the loop, or finished. *)
Inductive read_pc :=
| Wait1 (n : nat)
| Hold (r : nat)
| Wait2 (n : nat)
| Returned (v : read_result).

(** The loop, up to the select in it; the heap shrinks in every round. *)
Fixpoint read_loop (fuel : nat) (h : uploadQueue) (n : nat) : res (uploadQueue * read_pc) :=
  match fuel with
  | O => Panic
  | S fuel =>
    if (length (q_heap h) =? 0)%nat then Ret (h, Returned (Got [])) else
    '(packet, heap) ← heap_Pop (q_heap h);
    let h := with_heap heap h in
    if Seq packet =? q_nextSeq h then
      let k := Nat.min n (length (Payload packet)) in
      let data := take k (Payload packet) in
      if (k <? length (Payload packet))%nat then
        heap ← heap_Push (q_heap h) (mkPacket (Reader packet) (drop k (Payload packet)) (Seq packet));
        Ret (with_heap heap h, Returned (Got data))
      else Ret (with_nextSeq (u64 (Seq packet + 1)) h, Returned (Got data))
    else if q_nextSeq h <? Seq packet then
      if q_maxPackets h <? zlen (q_heap h) then Ret (h, Returned TooLarge) else
      heap ← heap_Push (q_heap h) packet;
      Ret (with_heap heap h, Wait2 n)
    else read_loop fuel h n
  end.

Definition enter_loop (h : uploadQueue) (n : nat) : res (uploadQueue * read_pc) :=
  read_loop (S (length (q_heap h))) h n.

(** The call, up to its first select. *)
Definition Read_start (h : uploadQueue) (n : nat) : res (uploadQueue * read_pc) :=
  if q_closed h then Ret (h, Returned EOF) else
  match q_reader h with
  | Some r => Ret (h, Returned (Delegated r))
  | None => if (length (q_heap h) =? 0)%nat then Ret (h, Wait1 n) else enter_loop h n
  end.

(** A packet arrives at the first select. *)
Definition Read_first (h : uploadQueue) (n : nat) (packet : Packet) : res (uploadQueue * read_pc) :=
  match Reader packet with
  | Some r => Ret (h, Hold r)
  | None => heap ← heap_Push (q_heap h) packet; enter_loop (with_heap heap h) n
  end.

(** The section under the mutex that installs the reader of a stream; the
    reader that is closed instead. *)
Definition Read_install (h : uploadQueue) (r : nat) : uploadQueue * read_pc * option nat :=
  if q_closed h then (h, Returned EOF, Some r)
  else (with_reader (Some r) h, Returned (Delegated r), None).

(** A packet arrives at the select of the loop. *)
Definition Read_next (h : uploadQueue) (n : nat) (packet2 : Packet) : res (uploadQueue * read_pc) :=
  heap ← heap_Push (q_heap h) packet2; enter_loop (with_heap heap h) n.

(** ** The handlers, the reader and [Close] together *)

Record system := mkSystem {
  s_queue : uploadQueue;
  (** the packets of the handlers that wait to send *)
  s_pending : list Packet;
  (** the call of [Read] under way, or [None] when it raised *)
  s_read : option read_pc;
  s_draining : bool;
  (** what the calls of [Read] returned, the packets [Push] let through and
      the readers that were closed, the last one last *)
  s_results : list read_result;
  s_sent : list Packet;
  s_closed : list nat
}.

(** A finished call of [Read] is recorded. *)
Definition after_read (r : res (uploadQueue * read_pc)) (s : system) : system :=
  match r with
  | Ret (h, pc) =>
    mkSystem h (s_pending s) (Some pc) (s_draining s)
      (s_results s ++ match pc with Returned v => [v] | _ => [] end) (s_sent s) (s_closed s)
  | _ => mkSystem (s_queue s) (s_pending s) None (s_draining s) (s_results s) (s_sent s) (s_closed s)
  end.

Definition with_queue h s :=
  mkSystem h (s_pending s) (s_read s) (s_draining s) (s_results s) (s_sent s) (s_closed s).
Definition with_pending l s :=
  mkSystem (s_queue s) l (s_read s) (s_draining s) (s_results s) (s_sent s) (s_closed s).
Definition with_draining b s :=
  mkSystem (s_queue s) (s_pending s) (s_read s) b (s_results s) (s_sent s) (s_closed s).
Definition with_sent l s :=
  mkSystem (s_queue s) (s_pending s) (s_read s) (s_draining s) (s_results s) l (s_closed s).
Definition with_closed r s :=
  mkSystem (s_queue s) (s_pending s) (s_read s) (s_draining s) (s_results s) (s_sent s)
    (s_closed s ++ match r with Some i => [i] | None => [] end).

Inductive qstep : system -> system -> Prop :=
| step_push s p h :
  Push_locked (s_queue s) p = Ret h ->
  qstep s (with_sent (s_sent s ++ [p]) (with_pending (s_pending s ++ [p]) (with_queue h s)))
| step_send s l p k h :
  s_pending s = l ++ p :: k -> Push_send (s_queue s) p = Some h ->
  qstep s (with_pending (l ++ k) (with_queue h s))
| step_refuse s l p k :
  s_pending s = l ++ p :: k -> q_done (s_queue s) = true ->
  qstep s (with_pending (l ++ k) s)
| step_close s h :
  Close_locked (s_queue s) = (h, true) -> qstep s (with_draining true (with_queue h s))
| step_drain s h r b :
  s_draining s = true -> Close_round (s_queue s) = (h, r, b) ->
  qstep s (with_closed r (with_draining b (with_queue h s)))
| step_read s v n :
  s_read s = Some (Returned v) -> qstep s (after_read (Read_start (s_queue s) n) s)
| step_first s n p h :
  s_read s = Some (Wait1 n) -> receive (s_queue s) = Some (p, h) ->
  qstep s (after_read (Read_first h n p) s)
| step_install s r h pc c :
  s_read s = Some (Hold r) -> Read_install (s_queue s) r = (h, pc, c) ->
  qstep s (with_closed c (after_read (Ret (h, pc)) s))
| step_next s n p h :
  s_read s = Some (Wait2 n) -> receive (s_queue s) = Some (p, h) ->
  qstep s (after_read (Read_next h n p) s)
| step_done s n :
  s_read s = Some (Wait1 n) \/ s_read s = Some (Wait2 n) -> q_done (s_queue s) = true ->
  qstep s (after_read (Ret (s_queue s, Returned EOF)) s).

(** A new queue, before the first [Read] (as if one had returned nothing). *)
Definition start (h : uploadQueue) : system := mkSystem h [] (Some (Returned (Got []))) false [] [] [].

(** ** The loop of [Read] *)

Abbreviation heaped := (@is_heap uploadHeap Packet id Seq).

(** What one pass of the loop does with a heap: it drops old packets, and
    then finds nothing, the next packet (longer than the slice or not), or
    only later packets (too many of them or not). *)
Inductive loop_result (h : uploadQueue) (n : nat) : uploadQueue * read_pc -> Prop :=
| loop_empty old :
  Forall (fun p => Seq p < q_nextSeq h) old -> q_heap h ≡ₚ old ->
  loop_result h n (with_heap [] h, Returned (Got []))
| loop_part old p rest heap :
  Forall (fun p => Seq p < q_nextSeq h) old -> q_heap h ≡ₚ old ++ p :: rest ->
  Seq p = q_nextSeq h -> (n < length (Payload p))%nat ->
  heaped heap -> heap ≡ₚ mkPacket (Reader p) (drop n (Payload p)) (Seq p) :: rest ->
  loop_result h n (with_heap heap h, Returned (Got (take n (Payload p))))
| loop_whole old p heap :
  Forall (fun p => Seq p < q_nextSeq h) old -> q_heap h ≡ₚ old ++ p :: heap ->
  Seq p = q_nextSeq h -> heaped heap ->
  loop_result h n (with_nextSeq (u64 (Seq p + 1)) (with_heap heap h), Returned (Got (Payload p)))
| loop_large old p heap :
  Forall (fun p => Seq p < q_nextSeq h) old -> q_heap h ≡ₚ old ++ p :: heap ->
  q_nextSeq h < Seq p -> heaped heap -> q_maxPackets h < zlen heap ->
  loop_result h n (with_heap heap h, Returned TooLarge)
| loop_wait old p heap rest :
  Forall (fun p => Seq p < q_nextSeq h) old -> q_heap h ≡ₚ old ++ heap ->
  heap ≡ₚ p :: rest -> Forall (fun p => q_nextSeq h < Seq p) heap -> heaped heap ->
  zlen rest <= q_maxPackets h ->
  loop_result h n (with_heap heap h, Wait2 n).

Lemma loop_result_old h n x heap r :
  q_heap h ≡ₚ x :: heap -> Seq x < q_nextSeq h ->
  loop_result (with_heap heap h) n r -> loop_result h n r.
Proof.
  intros HP Hx Hr.
  assert (forall old rest, heap ≡ₚ old ++ rest -> q_heap h ≡ₚ (x :: old) ++ rest) as Hcons
    by (intros old rest H; by rewrite HP, H).
  inversion Hr as [old Ho Hp|old p rest hp Ho Hp|old p hp Ho Hp|old p hp Ho Hp|old p hp rest Ho Hp]; subst; cbn in *.
  - apply (loop_empty h n (x :: old)); [by constructor|]. by rewrite HP, Hp.
  - eapply (loop_part h n (x :: old)); eauto.
  - eapply (loop_whole h n (x :: old)); eauto.
  - eapply (loop_large h n (x :: old)); eauto.
  - eapply (loop_wait h n (x :: old)); eauto.
Qed.

Lemma queue_loop_spec fuel h n :
  heaped (q_heap h) -> (length (q_heap h) < fuel)%nat ->
  exists r, read_loop fuel h n = Ret r /\ loop_result h n r.
Proof.
  revert h. induction fuel as [|fuel IH]; intros h Hh Hf; [lia|]. cbn [read_loop].
  destruct (Nat.eqb_spec (length (q_heap h)) 0) as [E|E].
  - apply nil_length_inv in E. eexists. split; [done|].
    replace h with (with_heap [] h) at 2 by (destruct h; cbn in *; by subst).
    by apply (loop_empty h n []); [|rewrite E].
  - destruct (heap_Pop_spec (q_heap h) Hh) as (x & heap & -> & HP & Hh' & Hle); [by destruct (q_heap h)|].
    unfold id in HP, Hle. cbn [mbind res_bind q_nextSeq q_maxPackets q_heap with_heap].
    destruct (Z.eqb_spec (Seq x) (q_nextSeq h)); [|destruct (Z.ltb_spec (q_nextSeq h) (Seq x))].
    + destruct (Nat.ltb_spec (Nat.min n (length (Payload x))) (length (Payload x))) as [Hn|Hn].
      * rewrite Nat.min_l by lia.
        destruct (heap_Push_spec heap (mkPacket (Reader x) (drop n (Payload x)) (Seq x)) Hh') as (heap' & -> & HP' & Hh'').
        eexists. split; [done|]. eapply (loop_part h n []); eauto; lia.
      * rewrite Nat.min_r, firstn_all by lia.
        eexists. split; [done|]. by eapply (loop_whole h n []).
    + destruct (Z.ltb_spec (q_maxPackets h) (zlen heap)).
      * eexists. split; [done|]. eapply (loop_large h n []); eauto.
      * destruct (heap_Push_spec heap x Hh') as (heap' & -> & HP' & Hh''). unfold id in HP'.
        eexists. split; [done|]. eapply (loop_wait h n []); eauto.
        -- by rewrite HP', HP.
        -- rewrite HP'. constructor; [done|]. eapply Forall_impl; [done|]. intros y Hy. cbn in Hy. lia.
    + destruct (IH (with_heap heap h)) as (r & -> & Hr); [done|cbn; apply Permutation_length in HP; cbn in HP; lia|].
      exists r. split; [done|]. eapply loop_result_old; [done| |done]. lia.
Qed.

Lemma enter_loop_spec h n :
  heaped (q_heap h) -> exists r, enter_loop h n = Ret r /\ loop_result h n r.
Proof. intros. unfold enter_loop. apply queue_loop_spec; [done|lia]. Qed.

(** ** What holds however the queue is used *)

Record sane (M : Z) (s : system) : Prop := {
  sane_heap : heaped (q_heap (s_queue s));
  sane_max : q_maxPackets (s_queue s) = M;
  sane_pushed : zlen (q_pushed (s_queue s)) <= M;
  sane_size : zlen (q_heap (s_queue s)) <= M + 2;
  sane_done : q_done (s_queue s) = q_closed (s_queue s);
  sane_drain : s_draining s = true -> q_closed (s_queue s) = true;
  sane_read :
    match s_read s with
    | None => False
    | Some (Wait1 _) => q_heap (s_queue s) = []
    | Some (Wait2 _) =>
      zlen (q_heap (s_queue s)) <= M + 1 /\ Forall (fun p => q_nextSeq (s_queue s) < Seq p) (q_heap (s_queue s))
    | _ => True
    end
}.

Lemma heaped_nil : heaped [].
Proof. intros c Hc. cbn in Hc. lia. Qed.

Lemma loop_result_sane M h n r :
  q_maxPackets h = M -> 0 <= M -> zlen (q_heap h) <= M + 2 -> loop_result h n r ->
  heaped (q_heap r.1) /\ q_maxPackets r.1 = M /\ q_pushed r.1 = q_pushed h /\
  q_done r.1 = q_done h /\ q_closed r.1 = q_closed h /\
  zlen (q_heap r.1) <= M + 2 /\
  match r.2 with
  | Wait1 _ => False
  | Wait2 _ => zlen (q_heap r.1) <= M + 1 /\ Forall (fun p => q_nextSeq r.1 < Seq p) (q_heap r.1)
  | _ => True
  end.
Proof.
  intros HM H0 Hs Hr.
  inversion Hr as [old Ho Hp|old p rest hp Ho Hp|old p hp Ho Hp|old p hp Ho Hp|old p hp rest Ho Hp HP]; subst; cbn;
    (repeat split; try done); try by apply heaped_nil.
  all: apply Permutation_length in Hp; rewrite ?length_app in Hp; cbn in Hp; unfold zlen in *.
  - cbn. lia.
  - match goal with H : hp ≡ₚ _ |- _ => apply Permutation_length in H; cbn in H end. lia.
  - lia.
  - lia.
  - apply Permutation_length in HP. cbn in HP. lia.
  - apply Permutation_length in HP. cbn in HP. lia.
Qed.

Lemma receive_spec h p h' :
  receive h = Some (p, h') -> q_pushed h = p :: q_pushed h' /\ h' = with_pushed (q_pushed h') h.
Proof. unfold receive. destruct (q_pushed h) eqn:E; [done|]. by intros [= <- <-]. Qed.

(** A packet that arrives at a select goes through the loop. *)
Lemma arrive_spec h n p h' :
  heaped (q_heap h) -> receive h = Some (p, h') ->
  exists heap r, heap_Push (q_heap h') p = Ret heap /\ heap ≡ₚ p :: q_heap h /\
    enter_loop (with_heap heap h') n = Ret r /\ loop_result (with_heap heap h') n r.
Proof.
  intros Hh [Hl Hh']%receive_spec. rewrite Hh'.
  destruct (heap_Push_spec (q_heap h) p Hh) as (heap & E & HP & Hheap).
  destruct (enter_loop_spec (with_heap heap (with_pushed (q_pushed h') h)) n) as (r & Er & Hr); [done|].
  exists heap, r. by repeat split.
Qed.

Lemma sane_after M s h n r :
  0 <= M -> sane M s -> q_maxPackets h = M -> zlen (q_pushed h) <= M -> q_done h = q_closed h ->
  q_closed h = q_closed (s_queue s) -> zlen (q_heap h) <= M + 2 -> loop_result h n r -> sane M (after_read (Ret r) s).
Proof.
  intros H0 Hs HM HP Hd Hc HH Hr. pose proof (sane_drain _ _ Hs). destruct (loop_result_sane M h n r HM H0 HH Hr) as (A & B & C & D & E & F & G).
  destruct r as [h' pc]. cbn in *. split; cbn; try done; [by rewrite C|congruence|by rewrite E, Hc|].
  by destruct pc.
Qed.

Lemma sane_start M h : NewUploadQueue M = Ret h -> sane M (start h).
Proof.
  unfold NewUploadQueue. go_case; [done|]. intros [= <-].
  split; cbn; unfold zlen; cbn; first [done|by apply heaped_nil|lia].
Qed.

Lemma sane_arrive M s n p h' (f : uploadQueue -> nat -> Packet -> res (uploadQueue * read_pc)) :
  0 <= M -> sane M s -> zlen (q_heap (s_queue s)) <= M + 1 ->
  receive (s_queue s) = Some (p, h') ->
  (forall heap r, heap_Push (q_heap h') p = Ret heap -> enter_loop (with_heap heap h') n = Ret r ->
    f h' n p = Ret r) ->
  sane M (after_read (f h' n p) s).
Proof.
  intros H0 Hs Hz Hr Hf.
  destruct (arrive_spec (s_queue s) n p h' (sane_heap _ _ Hs) Hr) as (heap & r & E & HP & Er & Hl).
  rewrite (Hf heap r E Er). apply receive_spec in Hr as [Hp Hh].
  pose proof (sane_pushed _ _ Hs) as Hps. rewrite Hp, zlen_cons in Hps.
  apply (sane_after M s (with_heap heap h') n r); try done.
  - rewrite Hh. cbn. apply Hs.
  - cbn. lia.
  - rewrite Hh. cbn. apply Hs.
  - rewrite Hh. done.
  - cbn. unfold zlen in *. rewrite HP. cbn. lia.
Qed.

Lemma qstep_sane M s s' : 0 <= M -> sane M s -> qstep s s' -> sane M s'.
Proof.
  intros H0 Hs Hst. pose proof Hs as [A B C D E G F].
  destruct Hst as [s p h Hp|s l p k h Hp Hse|s l p k Hp Hd|s h Hc|s h r b Hd Hc|s v n Hr|s n p h Hr Hrec
    |s r h pc c Hr Hi|s n p h Hr Hrec|s n Hr Hd].
  - unfold Push_locked in Hp. destruct (q_closed _) eqn:?; [done|]. destruct (q_nomore _); [done|].
    injection Hp as <-. destruct (Reader p); split; cbn; first [done|congruence|intros ?%G; congruence].
  - unfold Push_send in Hse. destruct (Z.ltb_spec (zlen (q_pushed (s_queue s))) (q_maxPackets (s_queue s))); [|done].
    injection Hse as <-. split; cbn; try done. zlen_norm. lia.
  - by split.
  - unfold Close_locked in Hc. destruct (q_closed _); [done|]. injection Hc as <-. by split; cbn.
  - unfold Close_round in Hc. destruct (receive (s_queue s)) as [[p h']|] eqn:Er.
    + injection Hc as <- <- <-. apply receive_spec in Er as [Hp ->].
      rewrite Hp, zlen_cons in C. split; cbn; try done; [lia|intros _; by apply G].
    + injection Hc as <- <- <-. by split; cbn.
  - unfold Read_start. destruct (q_closed _) eqn:?.
    { split; cbn; first [done|congruence|intros ?%G; congruence]. }
    destruct (q_reader _); [split; cbn; first [done|congruence|intros ?%G; congruence]|].
    destruct (Nat.eqb_spec (length (q_heap (s_queue s))) 0) as [El|].
    + apply nil_length_inv in El. split; cbn; first [done|congruence|intros ?%G; congruence].
    + destruct (enter_loop_spec (s_queue s) n A) as (r & -> & Hr'). apply (sane_after M s (s_queue s) n r); first [done|congruence|intros ?%G; congruence].
  - rewrite Hr in F. destruct (Reader p) eqn:Ep.
    + unfold Read_first. rewrite Ep. apply receive_spec in Hrec as [Hp ->].
      rewrite Hp, zlen_cons in C. split; cbn; try done. lia.
    + apply sane_arrive; try done; [rewrite F, zlen_nil; lia|].
      intros heap r Eh El. unfold Read_first. rewrite Ep, Eh. done.
  - unfold Read_install in Hi. destruct (q_closed _) eqn:?; injection Hi as <- <- <-; split; cbn;
      first [done|congruence|intros ?%G; congruence].
  - rewrite Hr in F. apply sane_arrive; try done; [by destruct F|].
    intros heap r Eh El. unfold Read_next. by rewrite Eh.
  - by split; cbn.
Qed.

Lemma reachable_sane M h s : NewUploadQueue M = Ret h -> rtc qstep (start h) s -> 0 <= M /\ sane M s.
Proof.
  intros HN Hr. assert (0 <= M) as H0 by (unfold NewUploadQueue in HN; revert HN; by go_case).
  split; [done|]. apply sane_start in HN. remember (start h) as s0 eqn:E. clear E.
  induction Hr as [|s0 s1 s Hst _ IH]; [done|]. apply IH. by eapply qstep_sane.
Qed.

(** ** Numbered packets *)

(** The bytes the calls of [Read] returned. *)
Definition delivered (rs : list read_result) : list Z :=
  concat (map (fun v => match v with Got d => d | _ => [] end) rs).

(** The packets of an upload: the number of each is its own, below the last
    64-bit number, and it carries the bytes [data] has for its number. *)
Definition upload (data : nat -> list Z) (l : list Packet) : Prop :=
  NoDup (map Seq l) /\
  Forall (fun p => Reader p = None /\ 0 <= Seq p < 2 ^ 64 - 1 /\ Payload p = data (Z.to_nat (Seq p))) l.

(** The numbers sent are those handed out, those that wait in the heap, the
    channel and the handlers, and those lost; [off] bytes of packet [m] have
    been handed out. *)
Record acc (data : nat -> list Z) (h : uploadQueue) (pending sent : list Packet) (rs : list read_result)
    (m off : nat) (lost : list Packet) : Prop := {
  acc_next : q_nextSeq h = Z.of_nat m;
  acc_nums :
    map Seq sent ≡ₚ map Z.of_nat (seq 0 m) ++ map Seq (q_heap h) ++ map Seq (q_pushed h) ++ map Seq pending
      ++ map Seq lost;
  acc_out : delivered rs = concat (map data (seq 0 m)) ++ take off (data m);
  acc_heap :
    Forall (fun p => Payload p = if Seq p =? Z.of_nat m then drop off (data m) else data (Z.to_nat (Seq p))) (q_heap h);
  acc_wait : Forall (fun p => Reader p = None /\ Payload p = data (Z.to_nat (Seq p))) (q_pushed h ++ pending);
  acc_off : (0 < off)%nat -> Z.of_nat m ∈ map Seq (q_heap h);
  acc_lost : lost = [] \/ TooLarge ∈ rs \/ q_closed h = true
}.

Lemma delivered_app a b : delivered (a ++ b) = delivered a ++ delivered b.
Proof. unfold delivered. by rewrite map_app, concat_app. Qed.

Lemma upload_prefix data l k : upload data (l ++ k) -> upload data l.
Proof.
  unfold upload. rewrite map_app. intros [[Hn _]%NoDup_app [Hf _]%Forall_app]. done.
Qed.

Section account.
Context (data : nat -> list Z) (sent : list Packet) (Hup : upload data sent).

Lemma sent_NoDup l : map Seq sent ≡ₚ l -> NoDup l.
Proof. intros <-. apply Hup. Qed.

Lemma sent_range l i : map Seq sent ≡ₚ l -> i ∈ l -> 0 <= i < 2 ^ 64 - 1.
Proof.
  intros Hl Hi. rewrite <-Hl in Hi. apply list_elem_of_fmap in Hi as (p & -> & Hp).
  destruct Hup as [_ Hf]. rewrite Forall_forall in Hf. by apply Hf.
Qed.

(** A packet in the heap is not one handed out. *)
Lemma heap_not_old h pending rs m off lost p :
  acc data h pending sent rs m off lost -> p ∈ q_heap h -> Z.of_nat m <= Seq p < 2 ^ 64 - 1.
Proof.
  intros A Hp. pose proof (acc_nums _ _ _ _ _ _ _ _ A) as HN.
  assert (Seq p ∈ map Seq (q_heap h)) as Hin by (by apply list_elem_of_fmap_2).
  pose proof (sent_range _ (Seq p) HN) as Hr. pose proof (sent_NoDup _ HN) as Hd.
  destruct Hr as [H0 H1]; [in_list|]. split; [|done].
  destruct (Z.le_gt_cases (Z.of_nat m) (Seq p)) as [|Hlt]; [done|]. exfalso.
  apply NoDup_app in Hd as (_ & Hd & _). apply (Hd (Seq p)).
  - apply list_elem_of_fmap. exists (Z.to_nat (Seq p)). split; [lia|]. apply elem_of_seq. lia.
  - in_list.
Qed.

Lemma acc_old_nil h pending rs m off lost old rest :
  acc data h pending sent rs m off lost -> Forall (fun p => Seq p < q_nextSeq h) old ->
  q_heap h ≡ₚ old ++ rest -> old = [] /\ q_heap h ≡ₚ rest.
Proof.
  intros A Ho HP. destruct old as [|p old]; [done|]. exfalso.
  assert (p ∈ q_heap h) as Hp by (rewrite HP; in_list).
  apply (heap_not_old _ _ _ _ _ _ _ A) in Hp. apply Forall_cons in Ho as [Ho _].
  rewrite (acc_next _ _ _ _ _ _ _ _ A) in Ho. lia.
Qed.

(** The next packet is in the heap once. *)
Lemma acc_next_once h pending rs m off lost p rest :
  acc data h pending sent rs m off lost -> q_heap h ≡ₚ p :: rest -> Seq p = Z.of_nat m ->
  Forall (fun q => Z.of_nat m < Seq q) rest.
Proof.
  intros A HP Hs. apply Forall_forall. intros q Hq.
  assert (q ∈ q_heap h) as Hq' by (rewrite HP; in_list).
  apply (heap_not_old _ _ _ _ _ _ _ A) in Hq'.
  pose proof (sent_NoDup _ (acc_nums _ _ _ _ _ _ _ _ A)) as Hd.
  apply NoDup_app in Hd as (_ & _ & Hd). apply NoDup_app in Hd as (Hd & _).
  rewrite HP in Hd. cbn in Hd. apply NoDup_cons in Hd as [Hd _].
  assert (Seq q ≠ Seq p); [|lia]. intros E. apply Hd. rewrite <-E. by apply list_elem_of_fmap_2.
Qed.

(** The heap may be reordered, and nothing may be recorded. *)
Lemma acc_reorder h h' pending rs rs' m off lost :
  acc data h pending sent rs m off lost -> q_heap h' ≡ₚ q_heap h -> q_pushed h' = q_pushed h ->
  q_nextSeq h' = q_nextSeq h -> q_closed h' = q_closed h ->
  delivered rs' = delivered rs -> (TooLarge ∈ rs -> TooLarge ∈ rs') ->
  acc data h' pending sent rs' m off lost.
Proof.
  intros [A B C D E F G] HP Hp Hn Hc Hd Ht.
  split; rewrite ?Hp, ?Hn, ?Hc, ?Hd, ?HP; try done. tauto.
Qed.

(** Bytes of the next packet are handed out. *)
Lemma acc_part h heap pending rs m off lost p rest n :
  acc data h pending sent rs m off lost -> q_heap h ≡ₚ p :: rest -> Seq p = Z.of_nat m ->
  heap ≡ₚ mkPacket (Reader p) (drop n (Payload p)) (Seq p) :: rest ->
  acc data (with_heap heap h) pending sent (rs ++ [Got (take n (Payload p))]) m (off + n) lost.
Proof.
  intros A HP Hs Hh. pose proof (acc_next_once _ _ _ _ _ _ _ _ A HP Hs) as Hrest.
  destruct A as [A B C D E F G]. rewrite HP in D. apply Forall_cons in D as [Dp D].
  rewrite Hs, Z.eqb_refl in Dp. split; cbn [with_heap q_nextSeq q_heap q_pushed q_closed]; try done.
  - rewrite B, HP, Hh. done.
  - rewrite delivered_app, C, Dp. unfold delivered at 1. cbn. rewrite app_nil_r, <-app_assoc. f_equal.
    by rewrite take_take_drop.
  - rewrite Hh. constructor; cbn.
    + by rewrite Hs, Z.eqb_refl, Dp, drop_drop.
    + rewrite Forall_forall in D, Hrest |- *. intros q Hq. specialize (D q Hq). specialize (Hrest q Hq).
      destruct (Z.eqb_spec (Seq q) (Z.of_nat m)); [lia|done].
  - intros _. rewrite Hh. cbn. rewrite Hs. in_list.
  - destruct G as [G|[G|G]]; [by left|right; left; in_list|by right; right].
Qed.

(** The last bytes of the next packet are handed out. *)
Lemma acc_whole h heap pending rs m off lost p :
  acc data h pending sent rs m off lost -> q_heap h ≡ₚ p :: heap -> Seq p = Z.of_nat m ->
  acc data (with_nextSeq (u64 (Seq p + 1)) (with_heap heap h)) pending sent (rs ++ [Got (Payload p)]) (S m) 0 lost.
Proof.
  intros A HP Hs. pose proof (acc_next_once _ _ _ _ _ _ _ _ A HP Hs) as Hrest.
  assert (Z.of_nat m <= Seq p < 2 ^ 64 - 1) as Hr
    by (apply (heap_not_old _ _ _ _ _ _ _ A); rewrite HP; in_list).
  destruct A as [A B C D E F G]. rewrite HP in D. apply Forall_cons in D as [Dp D].
  rewrite Hs, Z.eqb_refl in Dp.
  split; cbn [with_heap with_nextSeq q_nextSeq q_heap q_pushed q_closed]; try done.
  - unfold u64. rewrite Hs, Z.mod_small by lia. lia.
  - rewrite B, HP, seq_S, map_app. cbn [map]. rewrite Hs. cbn. rewrite <-app_assoc. done.
  - rewrite delivered_app, C, Dp, seq_S, map_app, concat_app. unfold delivered. cbn.
    rewrite !app_nil_r, <-app_assoc. by rewrite take_drop.
  - rewrite Forall_forall in D, Hrest |- *. intros q Hq. specialize (D q Hq). specialize (Hrest q Hq).
    destruct (Z.eqb_spec (Seq q) (Z.of_nat m)); [lia|]. rewrite D, drop_0.
    destruct (Z.eqb_spec (Seq q) (Z.of_nat (S m))) as [->|]; [|done]. by rewrite Nat2Z.id.
  - lia.
  - destruct G as [G|[G|G]]; [by left|right; left; in_list|by right; right].
Qed.

(** A packet is lost when the heap is too large. *)
Lemma acc_large h heap pending rs m off lost p :
  acc data h pending sent rs m off lost -> q_heap h ≡ₚ p :: heap -> Z.of_nat m < Seq p ->
  acc data (with_heap heap h) pending sent (rs ++ [TooLarge]) m off (p :: lost).
Proof.
  intros [A B C D E F G] HP Hs. rewrite HP in D. apply Forall_cons in D as [Dp D].
  split; cbn [with_heap q_nextSeq q_heap q_pushed q_closed]; try done.
  - rewrite B, HP. cbn [map]. solve_Permutation.
  - rewrite delivered_app, C. unfold delivered. cbn. by rewrite app_nil_r.
  - intros Ho. specialize (F Ho). rewrite HP in F. cbn in F. apply elem_of_cons in F as [F|F]; [lia|done].
  - right. left. in_list.
Qed.

(** What is recorded of a call of [Read]. *)
Definition recorded (pc : read_pc) : list read_result :=
  match pc with Returned v => [v] | _ => [] end.

Lemma acc_loop h n r pending rs m off lost :
  acc data h pending sent rs m off lost -> loop_result h n r ->
  exists m' off' lost', acc data r.1 pending sent (rs ++ recorded r.2) m' off' lost'.
Proof.
  intros A Hr. pose proof (acc_next _ _ _ _ _ _ _ _ A) as Hn.
  inversion Hr as [old Ho Hp|old p rest hp Ho Hp Hs Hl _ HP|old p hp Ho Hp Hs|old p hp Ho Hp Hs|old p hp rest Ho Hp HP]; subst; cbn.
  - destruct (acc_old_nil _ _ _ _ _ _ old [] A Ho) as [-> HP]; [by rewrite app_nil_r|].
    exists m, off, lost. eapply acc_reorder; [done|..]; try done.
    + rewrite delivered_app. unfold delivered at 2. cbn. by rewrite app_nil_r.
    + in_list.
  - destruct (acc_old_nil _ _ _ _ _ _ old _ A Ho Hp) as [_ HP']. exists m, (off + n)%nat, lost.
    eapply acc_part; [done|done|congruence|done].
  - destruct (acc_old_nil _ _ _ _ _ _ old _ A Ho Hp) as [_ HP']. exists (S m), 0%nat, lost.
    eapply acc_whole; [done|done|congruence].
  - destruct (acc_old_nil _ _ _ _ _ _ old _ A Ho Hp) as [_ HP']. exists m, off, (p :: lost).
    eapply acc_large; [done|done|lia].
  - destruct (acc_old_nil _ _ _ _ _ _ old _ A Ho Hp) as [_ HP']. exists m, off, lost.
    rewrite app_nil_r. eapply acc_reorder; done.
Qed.

(** A packet moves from the channel into the heap. *)
Lemma acc_arrive h h' heap p pending rs m off lost :
  acc data h pending sent rs m off lost -> receive h = Some (p, h') -> heap ≡ₚ p :: q_heap h ->
  Reader p = None /\ acc data (with_heap heap h') pending sent rs m off lost.
Proof.
  intros A [Hp Hh]%receive_spec HP. pose proof (sent_NoDup _ (acc_nums _ _ _ _ _ _ _ _ A)) as Hd.
  destruct A as [A B C D E F G]. rewrite Hp in E. cbn in E. apply Forall_cons in E as [[Er Ep] E].
  split; [done|]. rewrite Hh.
  split; cbn [with_heap with_pushed q_nextSeq q_heap q_pushed q_closed]; try done.
  - rewrite B, HP, Hp. cbn [map]. solve_Permutation.
  - rewrite HP. constructor; [|done]. destruct (Z.eqb_spec (Seq p) (Z.of_nat m)) as [Es|]; [|done].
    rewrite Ep, Es, Nat2Z.id. destruct off as [|off]; [done|]. exfalso.
    specialize (F ltac:(lia)). apply NoDup_app in Hd as (_ & _ & Hd).
    apply NoDup_app in Hd as (_ & Hd & _). apply (Hd (Z.of_nat m)); [done|].
    rewrite Hp. cbn. rewrite Es. in_list.
  - intros Ho. rewrite HP. cbn. specialize (F Ho). in_list.
Qed.

End account.

Definition accounted (data : nat -> list Z) (s : system) : Prop :=
  exists m off lost, acc data (s_queue s) (s_pending s) (s_sent s) (s_results s) m off lost.

(** A call of [Read] that hands out nothing. *)
Lemma accounted_quiet data s h pc :
  upload data (s_sent s) -> accounted data s ->
  q_heap h ≡ₚ q_heap (s_queue s) -> q_pushed h = q_pushed (s_queue s) ->
  q_nextSeq h = q_nextSeq (s_queue s) -> q_closed h = q_closed (s_queue s) ->
  delivered (recorded pc) = [] -> accounted data (after_read (Ret (h, pc)) s).
Proof.
  intros Hup (m & off & lost & A) Hh Hp Hn Hc Hd. exists m, off, lost. cbn. fold (recorded pc).
  eapply acc_reorder; [done|..]; try done.
  - by rewrite delivered_app, Hd, app_nil_r.
  - in_list.
Qed.

Lemma accounted_loop data s h n r m off lost :
  upload data (s_sent s) -> acc data h (s_pending s) (s_sent s) (s_results s) m off lost ->
  loop_result h n r -> accounted data (after_read (Ret r) s).
Proof.
  intros Hup A Hr. destruct (acc_loop data _ Hup h n r _ _ _ _ _ A Hr) as (m' & off' & lost' & A').
  destruct r as [h' pc]. by exists m', off', lost'.
Qed.

Lemma accounted_arrive data M s n p h' (f : uploadQueue -> nat -> Packet -> res (uploadQueue * read_pc)) :
  upload data (s_sent s) -> sane M s -> accounted data s ->
  receive (s_queue s) = Some (p, h') ->
  (forall heap r, Reader p = None -> heap_Push (q_heap h') p = Ret heap ->
    enter_loop (with_heap heap h') n = Ret r -> f h' n p = Ret r) ->
  accounted data (after_read (f h' n p) s).
Proof.
  intros Hup Hs (m & off & lost & A) Hr Hf.
  destruct (arrive_spec (s_queue s) n p h' (sane_heap _ _ Hs) Hr) as (heap & r & E & HP & Er & Hl).
  destruct (acc_arrive data _ Hup _ _ heap p _ _ _ _ _ A Hr HP) as [HR A'].
  rewrite (Hf heap r HR E Er). by eapply accounted_loop.
Qed.

Lemma accounted_start data h M : NewUploadQueue M = Ret h -> accounted data (start h).
Proof.
  unfold NewUploadQueue. go_case; [done|]. intros [= <-]. exists 0%nat, 0%nat, [].
  split; cbn; first [done|lia|by left].
Qed.

Lemma accounted_push data s p h :
  upload data (s_sent s ++ [p]) -> accounted data s -> Push_locked (s_queue s) p = Ret h ->
  accounted data (with_sent (s_sent s ++ [p]) (with_pending (s_pending s ++ [p]) (with_queue h s))).
Proof.
  intros [_ Hf] (m & off & lost & [A B C D E F G]) Hp. exists m, off, lost.
  apply Forall_app in Hf as [_ [(Hr & _ & Hpl) _]%Forall_cons].
  unfold Push_locked in Hp. rewrite Hr in Hp. destruct (q_closed (s_queue s)) eqn:Hc; [done|].
  destruct (q_nomore _); [done|]. injection Hp as <-. split; cbn; try done.
  - rewrite !map_app, B. cbn. solve_Permutation.
  - rewrite app_assoc. apply Forall_app. split; [done|]. by constructor.
  - by rewrite Hc.
Qed.

Lemma accounted_send data s l p k h :
  accounted data s -> s_pending s = l ++ p :: k -> Push_send (s_queue s) p = Some h ->
  accounted data (with_pending (l ++ k) (with_queue h s)).
Proof.
  intros (m & off & lost & [A B C D E F G]) Hl Hp. exists m, off, lost. rewrite Hl in B, E.
  unfold Push_send in Hp. destruct (_ <? _); [|done]. injection Hp as <-. split; cbn; try done.
  - rewrite B, !map_app. cbn. solve_Permutation.
  - revert E. rewrite !Forall_app, !Forall_cons. intros (? & ? & [] & ?). split_and!; auto.
Qed.

(** A packet that a handler or [Close] takes out of a closed queue is lost. *)
Lemma accounted_lose data s h pending p b c :
  accounted data s -> q_closed (s_queue s) = true ->
  q_heap h = q_heap (s_queue s) -> q_nextSeq h = q_nextSeq (s_queue s) -> q_closed h = q_closed (s_queue s) ->
  q_pushed (s_queue s) ++ s_pending s ≡ₚ p :: q_pushed h ++ pending ->
  accounted data (with_closed c (with_draining b (with_pending pending (with_queue h s)))).
Proof.
  intros (m & off & lost & [A B C D E F G]) Hc Hh Hn Hch HP. exists m, off, (p :: lost).
  split; cbn; rewrite ?Hh, ?Hn, ?Hch; try done.
  - rewrite B. rewrite !(assoc (++)), <-(assoc (++) _ (map Seq (q_pushed (s_queue s)))), <-map_app, HP.
    cbn [map]. rewrite map_app. solve_Permutation.
  - rewrite HP in E. by apply Forall_cons in E as [_ E].
  - by right; right.
Qed.

Lemma after_read_sent r s : s_sent (after_read r s) = s_sent s.
Proof. by destruct r as [[h pc]| |]. Qed.

Lemma qstep_accounted data M s s' :
  sane M s -> qstep s s' -> upload data (s_sent s') -> accounted data s -> accounted data s'.
Proof.
  intros Hs Hst. destruct Hst as [s p h Hp|s l p k h Hp Hse|s l p k Hp Hd|s h Hc|s h r b Hd Hc|s v n Hr|s n p h Hr Hrec
    |s r h pc c Hr Hi|s n p h Hr Hrec|s n Hr Hd]; intros Hup A; rewrite ?after_read_sent in Hup.
  - by apply accounted_push.
  - by eapply accounted_send.
  - assert (q_closed (s_queue s) = true) as Hcl by (rewrite <-(sane_done _ _ Hs); done).
    destruct (accounted_lose data s (s_queue s) (l ++ k) p (s_draining s) None A Hcl) as (m & off & lost & A');
      try done; [|by exists m, off, lost].
    rewrite Hp. solve_Permutation.
  - unfold Close_locked in Hc. destruct (q_closed _) eqn:Hcl; [done|]. injection Hc as <-.
    destruct A as (m & off & lost & [A B C D E F G]). exists m, off, lost. split; try done.
    right. by right.
  - pose proof (sane_drain _ _ Hs Hd) as Hcl. unfold Close_round in Hc.
    destruct (receive (s_queue s)) as [[p h']|] eqn:Er; injection Hc as <- <- <-.
    + apply receive_spec in Er as [Hp ->].
      destruct (accounted_lose data s (with_pushed (q_pushed h') (s_queue s)) (s_pending s) p true (Reader p) A Hcl)
        as (m & off & lost & A'); try done; [|by exists m, off, lost]. by rewrite Hp.
    + by destruct A as (m & off & lost & A); exists m, off, lost.
  - unfold Read_start. destruct (q_closed _) eqn:Hcl; [by apply accounted_quiet|].
    destruct (q_reader _); [by apply accounted_quiet|].
    destruct (_ =? 0)%nat; [by apply accounted_quiet|].
    destruct (enter_loop_spec (s_queue s) n (sane_heap _ _ Hs)) as (r & -> & Hl).
    destruct A as (m & off & lost & A). by eapply accounted_loop.
  - eapply accounted_arrive; try done. intros heap r HR Eh El. unfold Read_first. by rewrite HR, Eh.
  - assert (accounted data (after_read (Ret (h, pc)) s)) as (m & off & lost & A').
    { unfold Read_install in Hi. destruct (q_closed _) eqn:Hcl; injection Hi as <- <- <-; by apply accounted_quiet. }
    by exists m, off, lost.
  - eapply accounted_arrive; try done. intros heap r HR Eh El. unfold Read_next. by rewrite Eh.
  - by apply accounted_quiet.
Qed.

Lemma qstep_sent s s' : qstep s s' -> exists l, s_sent s' = s_sent s ++ l.
Proof.
  destruct 1; rewrite ?after_read_sent; cbn; try (exists []; by rewrite app_nil_r). by exists [p].
Qed.

Lemma qsteps_sent s s' : rtc qstep s s' -> exists l, s_sent s' = s_sent s ++ l.
Proof.
  induction 1 as [s|s1 s2 s3 [l Hl]%qstep_sent _ [k Hk]]; [exists []; by rewrite app_nil_r|].
  exists (l ++ k). by rewrite Hk, Hl, app_assoc.
Qed.

(** An invariant of the uploads, from the start of the queue. *)
Lemma upload_invariant data M h s (P : system -> Prop) :
  NewUploadQueue M = Ret h -> rtc qstep (start h) s -> upload data (s_sent s) -> P (start h) ->
  (forall s1 s2 l, sane M s1 -> accounted data s1 -> s_sent s = s_sent s2 ++ l -> qstep s1 s2 -> P s1 -> P s2) ->
  accounted data s /\ P s.
Proof.
  intros HN Hr Hup HP Hstep. assert (0 <= M) as H0 by (unfold NewUploadQueue in HN; revert HN; by go_case).
  pose proof (accounted_start data h M HN) as HA. apply sane_start in HN.
  remember (start h) as s0 eqn:E. clear E.
  induction Hr as [s0|s0 s1 s2 Hst Hr IH]; [done|].
  destruct (qsteps_sent _ _ Hr) as [l Hl].
  assert (upload data (s_sent s1)) as Hup1 by (rewrite Hl in Hup; by eapply upload_prefix).
  apply IH; first [done|by eapply Hstep|by eapply qstep_accounted|by eapply qstep_sane].
Qed.

(** C12: however the handlers, the reader and [Close] interleave, the bytes
    that the calls of [Read] return are, in order, the bytes of packets 0 to
    [m - 1] and a first part of packet [m], for packets whose numbers are
    distinct; every packet whose bytes were returned was pushed. *)
Theorem upload_in_order data M h s :
  NewUploadQueue M = Ret h -> rtc qstep (start h) s -> upload data (s_sent s) ->
  exists m off, delivered (s_results s) = concat (map data (seq 0 m)) ++ take off (data m) /\
    (forall i, (i < m \/ (i = m /\ 0 < off))%nat -> Z.of_nat i ∈ map Seq (s_sent s)).
Proof.
  intros HN Hr Hup.
  destruct (upload_invariant data M h s (fun _ => True) HN Hr Hup) as [(m & off & lost & A) _]; [done..|].
  exists m, off. split; [apply A|]. intros i Hi. rewrite (acc_nums _ _ _ _ _ _ _ _ A).
  destruct Hi as [Hi|[-> Ho]].
  - apply elem_of_app. left. apply list_elem_of_fmap_2, elem_of_seq. lia.
  - apply (acc_off _ _ _ _ _ _ _ _ A) in Ho. in_list.
Qed.

(** ** Everything is handed out *)

(** No stream's reader is in the queue, nothing was lost, and the queue is
    open. *)
Record flowing (s : system) : Prop := {
  flow_reader : q_reader (s_queue s) = None;
  flow_hold : forall r, s_read s ≠ Some (Hold r);
  flow_large : TooLarge ∉ s_results s;
}.

(** How many packets are on their way. *)
Lemma acc_count data h pending sent rs m off lost :
  acc data h pending sent rs m off lost ->
  zlen (q_heap h) + zlen (q_pushed h) + zlen pending + zlen lost + Z.of_nat m = zlen sent.
Proof.
  intros A. pose proof (acc_nums _ _ _ _ _ _ _ _ A) as HN. apply Permutation_length in HN.
  rewrite !length_app, !length_map, length_seq in HN. unfold zlen. lia.
Qed.

Lemma loop_result_flowing h n r :
  loop_result h n r -> zlen (q_heap h) <= q_maxPackets h + 1 ->
  q_reader r.1 = q_reader h /\ (forall i, r.2 ≠ Hold i) /\ TooLarge ∉ recorded r.2.
Proof.
  intros Hr Hz.
  inversion Hr as [old Ho Hp|old p rest hp Ho Hp Hs Hl _ HP|old p hp Ho Hp Hs|old p hp Ho Hp Hs _ Hm|old p hp rest Ho Hp HP]; subst;
    cbn; split_and!; try done; rewrite ?list_elem_of_singleton; try done; try apply not_elem_of_nil.
  intros _. apply Permutation_length in Hp. rewrite length_app in Hp. cbn in Hp. unfold zlen in *. lia.
Qed.

Lemma flowing_after s h n r :
  flowing s -> q_reader h = None -> loop_result h n r -> zlen (q_heap h) <= q_maxPackets h + 1 ->
  flowing (after_read (Ret r) s).
Proof.
  intros [A B C] Hr Hl Hz. destruct (loop_result_flowing h n r Hl Hz) as (D & E & F).
  destruct r as [h' pc]. cbn in *. split; cbn.
  - congruence.
  - intros i [= ->]. by apply (E i).
  - fold (recorded pc). rewrite elem_of_app. tauto.
Qed.

Lemma flowing_quiet s h pc :
  flowing s -> q_reader h = None -> (forall i, pc ≠ Hold i) -> TooLarge ∉ recorded pc ->
  flowing (after_read (Ret (h, pc)) s).
Proof.
  intros [A B C] Hr Hh Hl. split; cbn; [done| |].
  - intros i [= ->]. by apply (Hh i).
  - fold (recorded pc). rewrite elem_of_app. tauto.
Qed.

(** The packets in the channel carry no reader. *)
Lemma accounted_receive data s p h' :
  accounted data s -> receive (s_queue s) = Some (p, h') -> Reader p = None.
Proof.
  intros (m & off & lost & A) [Hp _]%receive_spec. pose proof (acc_wait _ _ _ _ _ _ _ _ A) as Hw.
  rewrite Hp in Hw. cbn in Hw. apply Forall_cons in Hw as [[? _] _]. done.
Qed.

Lemma accounted_count data s p h' :
  accounted data s -> receive (s_queue s) = Some (p, h') -> zlen (q_heap (s_queue s)) + 1 <= zlen (s_sent s).
Proof.
  intros (m & off & lost & A) [Hp _]%receive_spec. apply acc_count in A. rewrite Hp, zlen_cons in A.
  pose proof (zlen_nonneg (q_pushed h')). pose proof (zlen_nonneg (s_pending s)).
  pose proof (zlen_nonneg lost). lia.
Qed.

Lemma flowing_arrive data M s n p h' (f : uploadQueue -> nat -> Packet -> res (uploadQueue * read_pc)) :
  sane M s -> accounted data s -> flowing s -> zlen (s_sent s) <= M + 1 ->
  receive (s_queue s) = Some (p, h') ->
  (forall heap r, heap_Push (q_heap h') p = Ret heap -> enter_loop (with_heap heap h') n = Ret r ->
    f h' n p = Ret r) ->
  flowing (after_read (f h' n p) s).
Proof.
  intros Hs HA Hf Hz Hr Hfun.
  destruct (arrive_spec (s_queue s) n p h' (sane_heap _ _ Hs) Hr) as (heap & r & E & HP & Er & Hl).
  rewrite (Hfun heap r E Er). pose proof (accounted_count data s p h' HA Hr).
  apply receive_spec in Hr as [_ Hh].
  eapply flowing_after; [done| |done|]; cbn; rewrite Hh; cbn; [apply Hf|].
  rewrite (sane_max _ _ Hs). unfold zlen in *. rewrite HP. cbn. lia.
Qed.

Lemma qstep_flowing data M s s' :
  sane M s -> accounted data s -> qstep s s' -> upload data (s_sent s') -> zlen (s_sent s') <= M + 1 ->
  flowing s -> flowing s'.
Proof.
  intros Hs HA Hst. destruct Hst as [s p h Hp|s l p k h Hp Hse|s l p k Hp Hd|s h Hc|s h r b Hd Hc|s v n Hr|s n p h Hr Hrec
    |s r h pc c Hr Hi|s n p h Hr Hrec|s n Hr Hd]; rewrite ?after_read_sent; intros Hup Hz Hf.
  - unfold Push_locked in Hp. destruct (q_closed _); [done|]. destruct (q_nomore _); [done|]. injection Hp as <-.
    by destruct (Reader p), Hf.
  - unfold Push_send in Hse. destruct (_ <? _); [|done]. injection Hse as <-. by destruct Hf.
  - by destruct Hf.
  - unfold Close_locked in Hc. destruct (q_closed _); [done|]. injection Hc as <-. by destruct Hf.
  - unfold Close_round, receive in Hc. by destruct (q_pushed (s_queue s)); injection Hc as <- <- <-; destruct Hf.
  - pose proof (flow_reader _ Hf) as Hn. unfold Read_start. rewrite Hn.
    destruct (q_closed _).
    { apply flowing_quiet; try done. cbn. by rewrite list_elem_of_singleton. }
    destruct (_ =? 0)%nat; [apply flowing_quiet; try done; apply not_elem_of_nil|].
    destruct (enter_loop_spec (s_queue s) n (sane_heap _ _ Hs)) as (r & -> & Hl).
    eapply flowing_after; try done. rewrite (sane_max _ _ Hs). destruct HA as (m & off & lost & A).
    apply acc_count in A. pose proof (zlen_nonneg (q_pushed (s_queue s))). pose proof (zlen_nonneg (s_pending s)).
    pose proof (zlen_nonneg lost). lia.
  - eapply flowing_arrive; try done. intros heap r Eh El. unfold Read_first.
    by rewrite (accounted_receive _ _ _ _ HA Hrec), Eh.
  - by destruct (flow_hold _ Hf r).
  - eapply flowing_arrive; try done. intros heap r Eh El. unfold Read_next. by rewrite Eh.
  - apply flowing_quiet; try done; [apply Hf|]. cbn. by rewrite list_elem_of_singleton.
Qed.

Lemma reachable_flowing data M h s :
  NewUploadQueue M = Ret h -> rtc qstep (start h) s -> upload data (s_sent s) -> zlen (s_sent s) <= M + 1 ->
  accounted data s /\ flowing s.
Proof.
  intros HN Hr Hup Hz. eapply (upload_invariant data M h); try done.
  - unfold NewUploadQueue in HN. revert HN. go_case; [done|]. intros [= <-]. split; cbn; try done. apply not_elem_of_nil.
  - intros s1 s2 l Hs HA Hl Hst Hf. rewrite Hl in Hup, Hz. rewrite zlen_app in Hz. pose proof (zlen_nonneg l).
    eapply qstep_flowing; try done; [by eapply upload_prefix|lia].
Qed.

(** Nothing is on its way and the reader waits. *)
Definition quiescent (s : system) : Prop :=
  q_pushed (s_queue s) = [] /\ s_pending s = [] /\
  exists n, s_read s = Some (Wait1 n) \/ s_read s = Some (Wait2 n).

(** Then every packet of an upload without a gap has been handed out. *)
Lemma quiescent_complete data M s k :
  sane M s -> accounted data s -> flowing s -> q_closed (s_queue s) = false -> quiescent s ->
  map Seq (s_sent s) ≡ₚ map Z.of_nat (seq 0 k) ->
  delivered (s_results s) = concat (map data (seq 0 k)).
Proof.
  intros Hs (m & off & lost & A) Hf Hc (Hp & Hpe & n & Hw) Hk.
  pose proof (acc_nums _ _ _ _ _ _ _ _ A) as HN. rewrite Hp, Hpe in HN. cbn in HN.
  assert (lost = []) as ->.
  { destruct (acc_lost _ _ _ _ _ _ _ _ A) as [?|[?|?]]; [done|by destruct (flow_large _ Hf)|congruence]. }
  cbn in HN. rewrite app_nil_r in HN.
  assert (Forall (fun p => Z.of_nat m < Seq p) (q_heap (s_queue s))) as Hh.
  { pose proof (sane_read _ _ Hs) as Hr. rewrite (acc_next _ _ _ _ _ _ _ _ A) in Hr.
    destruct Hw as [Hw|Hw]; rewrite Hw in Hr; [by rewrite Hr|apply Hr]. }
  assert (off = 0%nat) as ->.
  { destruct off as [|off]; [done|]. exfalso. pose proof (acc_off _ _ _ _ _ _ _ _ A ltac:(lia)) as Hin.
    apply list_elem_of_fmap in Hin as (p & E & Hp'). rewrite Forall_forall in Hh. specialize (Hh p Hp'). lia. }
  rewrite (acc_out _ _ _ _ _ _ _ _ A), app_nil_r.
  assert (m = k) as ->; [|done]. rewrite Hk in HN.
  pose proof (Permutation_length HN) as HL. rewrite length_app, !length_map, !length_seq in HL.
  destruct (decide (m < k)%nat) as [Hlt|]; [|lia]. exfalso.
  assert (Z.of_nat m ∈ map Z.of_nat (seq 0 k)) as Hin by (apply list_elem_of_fmap_2, elem_of_seq; lia).
  rewrite HN in Hin. apply elem_of_app in Hin as [Hin|Hin].
  - apply list_elem_of_fmap in Hin as (i & E & Hi%elem_of_seq). lia.
  - apply list_elem_of_fmap in Hin as (p & E & Hp'). rewrite Forall_forall in Hh. specialize (Hh p Hp'). lia.
Qed.

(** What is left to do, for packets in the heap, the channel and the
    handlers, and for the reader. *)
Definition weight (p : Packet) : nat := 2 * (1 + length (Payload p)).

Definition pc_weight (pc : read_pc) : nat := match pc with Returned _ => 1 | _ => 0 end.

Definition left_to_do (s : system) : nat :=
  sum_list_with weight (q_heap (s_queue s)) + sum_list_with (fun p => 2 + weight p)%nat (q_pushed (s_queue s)) +
  sum_list_with (fun p => 4 + weight p)%nat (s_pending s) + from_option pc_weight 0%nat (s_read s).

Lemma loop_weight h n r :
  loop_result h n r -> q_heap h ≠ [] ->
  (sum_list_with weight (q_heap r.1) + pc_weight r.2 <= sum_list_with weight (q_heap h) + (1 - n))%nat.
Proof.
  intros Hr Hne.
  inversion Hr as [old Ho Hp|old p rest hp Ho Hp Hs Hl _ HP|old p hp Ho Hp Hs|old p hp Ho Hp Hs _ Hm|old p hp rest Ho Hp HP]; subst; cbn [fst snd q_heap with_heap with_nextSeq pc_weight].
  - destruct (q_heap h) as [|p l]; [done|]. cbn. unfold weight. lia.
  - rewrite Hp, HP, sum_list_with_app. cbn [sum_list_with]. unfold weight. cbn [Payload]. rewrite length_drop. lia.
  - rewrite Hp, sum_list_with_app. cbn [sum_list_with]. unfold weight at 3. lia.
  - rewrite Hp, sum_list_with_app. cbn [sum_list_with]. unfold weight at 3. lia.
  - rewrite Hp, sum_list_with_app. lia.
Qed.

Lemma loop_result_frame h n r :
  loop_result h n r -> q_closed r.1 = q_closed h /\ q_pushed r.1 = q_pushed h.
Proof. by destruct 1. Qed.

Lemma left_to_do_arrive M s n p h' (f : uploadQueue -> nat -> Packet -> res (uploadQueue * read_pc)) :
  sane M s -> q_closed (s_queue s) = false -> receive (s_queue s) = Some (p, h') ->
  (forall heap r, heap_Push (q_heap h') p = Ret heap -> enter_loop (with_heap heap h') n = Ret r ->
    f h' n p = Ret r) ->
  q_closed (s_queue (after_read (f h' n p) s)) = false /\ (left_to_do (after_read (f h' n p) s) < left_to_do s)%nat.
Proof.
  intros Hs Hc Hr Hf.
  destruct (arrive_spec (s_queue s) n p h' (sane_heap _ _ Hs) Hr) as (heap & r & E & HP & Er & Hl).
  rewrite (Hf heap r E Er). destruct (loop_result_frame _ _ _ Hl) as [Hcl Hpu].
  apply loop_weight in Hl; [|cbn; intros ->; by apply Permutation_nil_cons in HP].
  apply receive_spec in Hr as [Hp Hh]. destruct r as [h'' pc]. cbn [after_read s_queue fst snd] in *.
  split; [rewrite Hcl, Hh; done|]. unfold left_to_do. cbn. rewrite Hpu, Hp. cbn. cbn in Hl. rewrite HP in Hl.
  cbn in Hl. lia.
Qed.

Lemma progress data M s n :
  0 < M -> sane M s -> accounted data s -> flowing s -> q_closed (s_queue s) = false -> (0 < n)%nat ->
  ~ quiescent s ->
  exists s', qstep s s' /\ s_sent s' = s_sent s /\ q_closed (s_queue s') = false /\
    (left_to_do s' < left_to_do s)%nat.
Proof.
  intros HM Hs HA Hf Hc Hn Hq.
  destruct (s_read s) as [[k|r|k|v]|] eqn:Er; [| |  | |by pose proof (sane_read _ _ Hs) as Hr; rewrite Er in Hr].
  2: by destruct (flow_hold _ Hf r).
  3:{ exists (after_read (Read_start (s_queue s) n) s). split; [by eapply step_read|].
      rewrite after_read_sent. split; [done|]. unfold Read_start. rewrite Hc, (flow_reader _ Hf).
      destruct (Nat.eqb_spec (length (q_heap (s_queue s))) 0) as [|Hne].
      - split; [done|]. unfold left_to_do. cbn. rewrite Er. cbn. lia.
      - destruct (enter_loop_spec (s_queue s) n (sane_heap _ _ Hs)) as ([h' pc] & -> & Hl).
        destruct (loop_result_frame _ _ _ Hl) as [Hcl Hpu]. cbn in Hcl, Hpu. split; [cbn; congruence|].
        apply loop_weight in Hl; [|by destruct (q_heap (s_queue s))]. cbn in Hl.
        unfold left_to_do. cbn. rewrite Er, Hpu. cbn. lia. }
  all: destruct (receive (s_queue s)) as [[p h']|] eqn:Hrec.
  2,4: assert (q_pushed (s_queue s) = []) as Hp0 by (unfold receive in Hrec; by destruct (q_pushed (s_queue s))).
  2,3: destruct (s_pending s) as [|p l] eqn:Hp; [exfalso; apply Hq; unfold quiescent; eauto|].
  2,3: assert (Push_send (s_queue s) p = Some (with_pushed [p] (s_queue s))) as Hsend
         by (unfold Push_send; rewrite Hp0, (sane_max _ _ Hs), zlen_nil, (proj2 (Z.ltb_lt _ _) HM); done).
  2,3: exists (with_pending l (with_queue (with_pushed [p] (s_queue s)) s)).
  2,3: split; [by apply (step_send s [] p l)|]; split; [done|]; split; [done|].
  2,3: unfold left_to_do; cbn; rewrite Hp, Hp0, Er; cbn; lia.
  - exists (after_read (Read_first h' k p) s). split; [by eapply step_first|]. rewrite after_read_sent. split; [done|].
    eapply left_to_do_arrive; try done. intros heap r Eh El. unfold Read_first.
    by rewrite (accounted_receive _ _ _ _ HA Hrec), Eh.
  - exists (after_read (Read_next h' k p) s). split; [by eapply step_next|]. rewrite after_read_sent. split; [done|].
    eapply left_to_do_arrive; try done. intros heap r Eh El. unfold Read_next. by rewrite Eh.
Qed.

Lemma quiescent_dec s : quiescent s \/ ~ quiescent s.
Proof.
  unfold quiescent. destruct (q_pushed (s_queue s)); [|right; by intros [? _]].
  destruct (s_pending s); [|right; by intros (_ & ? & _)].
  destruct (s_read s) as [[]|]; (left; by eauto) || (right; intros (_ & _ & n & [?|?]); done).
Qed.

Lemma upload_completes data M s n :
  0 < M -> sane M s -> accounted data s -> flowing s -> q_closed (s_queue s) = false -> (0 < n)%nat ->
  upload data (s_sent s) -> zlen (s_sent s) <= M + 1 ->
  exists s', rtc qstep s s' /\ s_sent s' = s_sent s /\ q_closed (s_queue s') = false /\ quiescent s' /\
    sane M s' /\ accounted data s' /\ flowing s'.
Proof.
  intros HM. remember (left_to_do s) as k eqn:Hk. revert s Hk.
  induction k as [k IH] using lt_wf_ind. intros s -> Hs HA Hf Hc Hn Hup Hz.
  destruct (quiescent_dec s) as [Hq|Hq]; [by exists s|].
  destruct (progress data M s n) as (s1 & Hst & Hse & Hc1 & Hm); try done.
  assert (upload data (s_sent s1)) as Hup1 by (by rewrite Hse).
  destruct (IH _ Hm s1) as (s' & Hr & Hse' & H'); try done.
  - eapply qstep_sane; [|done|done]. lia.
  - by eapply qstep_accounted.
  - eapply qstep_flowing; try done. by rewrite Hse.
  - by rewrite Hse.
  - exists s'. split; [by eapply rtc_l|]. split; [congruence|done].
Qed.

(** From every state in which packets 0 to [k - 1] were pushed, all their bytes
    can be read. *)
Lemma upload_drains data M h s k n :
  NewUploadQueue M = Ret h -> 0 < M -> rtc qstep (start h) s -> upload data (s_sent s) ->
  map Seq (s_sent s) ≡ₚ map Z.of_nat (seq 0 k) -> Z.of_nat k <= M + 1 ->
  q_closed (s_queue s) = false -> (0 < n)%nat ->
  exists s', rtc qstep s s' /\ s_sent s' = s_sent s /\ q_closed (s_queue s') = false /\ quiescent s' /\
    delivered (s_results s') = concat (map data (seq 0 k)).
Proof.
  intros HN HM Hr Hup Hk Hz Hc Hn.
  assert (zlen (s_sent s) <= M + 1) as Hz'.
  { apply Permutation_length in Hk. rewrite !length_map, length_seq in Hk. unfold zlen. lia. }
  destruct (reachable_sane M h s HN Hr) as [_ Hs].
  destruct (reachable_flowing data M h s HN Hr Hup Hz') as [HA Hf].
  destruct (upload_completes data M s n) as (s' & Hr' & Hse & Hc' & Hq & Hs' & HA' & Hf'); try done.
  exists s'. split_and!; try done. eapply quiescent_complete; try done. by rewrite Hse.
Qed.

(** When all packets 0 to [k - 1] have been pushed, in whatever order, and
    they fit the queue, a reader that waits while nothing is on its way has
    been given all their bytes in order; and such a state can be reached from
    every state of the queue, by the steps of the handlers and of a reader
    with a slice that is not empty. *)
Theorem upload_complete data M h s k n :
  NewUploadQueue M = Ret h -> 0 < M -> rtc qstep (start h) s -> upload data (s_sent s) ->
  map Seq (s_sent s) ≡ₚ map Z.of_nat (seq 0 k) -> Z.of_nat k <= M + 1 ->
  q_closed (s_queue s) = false -> (0 < n)%nat ->
  (quiescent s -> delivered (s_results s) = concat (map data (seq 0 k))) /\
  exists s', rtc qstep s s' /\ s_sent s' = s_sent s /\ quiescent s' /\
    delivered (s_results s') = concat (map data (seq 0 k)).
Proof.
  intros HN HM Hr Hup Hk Hz Hc Hn. split.
  - intros Hq. assert (zlen (s_sent s) <= M + 1) as Hz'.
    { apply Permutation_length in Hk. rewrite !length_map, length_seq in Hk. unfold zlen. lia. }
    destruct (reachable_sane M h s HN Hr) as [_ Hs].
    destruct (reachable_flowing data M h s HN Hr Hup Hz') as [HA Hf]. by eapply quiescent_complete.
  - destruct (upload_drains data M h s k n) as (s' & ? & ? & _ & ? & ?); try done. by exists s'.
Qed.

(** Whatever is pushed, [Read] never raises, and the heap and the channel
    hold at most [maxPackets + 2] and [maxPackets] packets. *)
Theorem upload_bounded M h s :
  NewUploadQueue M = Ret h -> rtc qstep (start h) s ->
  s_read s ≠ None /\ zlen (q_heap (s_queue s)) <= M + 2 /\ zlen (q_pushed (s_queue s)) <= M.
Proof.
  intros HN Hr. destruct (reachable_sane M h s HN Hr) as [_ Hs]. split_and!; try apply Hs.
  pose proof (sane_read _ _ Hs) as H. by destruct (s_read s).
Qed.

(** ** A run: packet 1 arrives before packet 0 *)

Definition demo_data (i : nat) : list Z := match i with O => [10; 11] | S O => [20] | _ => [] end.
Definition demo_packet (i : nat) : Packet := mkPacket None (demo_data i) (Z.of_nat i).
Definition demo_queue : uploadQueue := mkQueue None false [] false [] 0 false 2.

(** Both packets are in the channel, the later one first, and a [Read] of one
    byte waits. *)
Definition demo_waiting : system :=
  mkSystem (with_pushed [demo_packet 1; demo_packet 0] demo_queue) [] (Some (Wait1 1)) false []
    [demo_packet 1; demo_packet 0] [].

(** Two calls of [Read] later. *)
Definition demo_read : system :=
  mkSystem (with_nextSeq 1 (with_heap [demo_packet 1] demo_queue)) [] (Some (Returned (Got [11]))) false
    [Got [10]; Got [11]] [demo_packet 1; demo_packet 0] [].

Lemma demo_run_waiting : rtc qstep (start demo_queue) demo_waiting.
Proof.
  eapply rtc_l; [by apply (step_read _ (Got []) 1)|].
  eapply rtc_l; [by apply (step_push _ (demo_packet 1) demo_queue)|].
  eapply rtc_l; [by eapply (step_send _ [] (demo_packet 1) [])|].
  eapply rtc_l; [eapply (step_push _ (demo_packet 0)); done|].
  eapply rtc_l; [by eapply (step_send _ [] (demo_packet 0) [])|]. apply rtc_refl.
Qed.

Lemma demo_run_read : rtc qstep (start demo_queue) demo_read.
Proof.
  etrans; [apply demo_run_waiting|].
  eapply rtc_l; [by eapply (step_first _ 1)|].
  eapply rtc_l; [by eapply (step_next _ 1)|].
  eapply rtc_l; [by eapply (step_read _ _ 4)|]. apply rtc_refl.
Qed.

Lemma demo_upload : upload demo_data [demo_packet 1; demo_packet 0].
Proof.
  split.
  - apply (bool_decide_unpack _). by vm_compute.
  - repeat (apply Forall_cons; split; [by vm_compute|]). by apply Forall_nil.
Qed.

Lemma upload_in_order_witness :
  exists m off, delivered (s_results demo_read) = concat (map demo_data (seq 0 m)) ++ take off (demo_data m) /\
    (forall i, (i < m \/ (i = m /\ 0 < off))%nat -> Z.of_nat i ∈ map Seq (s_sent demo_read)).
Proof.
  apply (upload_in_order demo_data 2 demo_queue demo_read).
  - reflexivity.
  - apply demo_run_read.
  - apply demo_upload.
Defined.

Lemma upload_complete_witness :
  (quiescent demo_waiting -> delivered (s_results demo_waiting) = concat (map demo_data (seq 0 2))) /\
  exists s', rtc qstep demo_waiting s' /\ s_sent s' = s_sent demo_waiting /\ quiescent s' /\
    delivered (s_results s') = [10; 11; 20].
Proof.
  apply (upload_complete demo_data 2 demo_queue demo_waiting 2 1).
  - reflexivity.
  - reflexivity.
  - apply demo_run_waiting.
  - apply demo_upload.
  - apply Permutation_swap.
  - vm_compute. discriminate.
  - reflexivity.
  - apply Nat.lt_0_1.
Defined.

Lemma upload_bounded_witness :
  s_read demo_read ≠ None /\ zlen (q_heap (s_queue demo_read)) <= 4 /\ zlen (q_pushed (s_queue demo_read)) <= 2.
Proof. apply (upload_bounded 2 demo_queue demo_read); [reflexivity|apply demo_run_read]. Defined.

(** A number that was pushed twice is handed out twice when the first of the
    packets did not fit the slice. *)
Example duplicate_repeats :
  let p := mkPacket None [10; 11] 1 in
  let h := with_nextSeq 1 (with_heap [p; p] demo_queue) in
  exists h', Read_start h 1 = Ret (h', Returned (Got [10])) /\
    exists h'', Read_start h' 2 = Ret (h'', Returned (Got [10; 11])).
Proof. cbn zeta. eexists. split; [vm_compute; reflexivity|]. eexists. vm_compute. reflexivity. Qed.

(** The reader of a stream that arrives at the select of the loop is taken
    for packet 0: it is never read, and the packet with that number is
    skipped. *)
Example stream_taken_for_packet :
  let h := with_heap [mkPacket None [20] 1] demo_queue in
  exists h', Read_next h 4 (mkPacket (Some 7%nat) [] 0) = Ret (h', Returned (Got [])) /\
    q_reader h' = None /\ q_nextSeq h' = 1.
Proof. cbn zeta. eexists. split; [vm_compute; reflexivity|]. done. Qed.

(** A handler that passed its check before [Close] may still send after it:
    the packet stays in the channel, and its reader is not closed. *)
Example send_after_close :
  exists s, rtc qstep (start demo_queue) s /\ s_draining s = false /\ q_closed (s_queue s) = true /\
    q_pushed (s_queue s) = [mkPacket (Some 7%nat) [] 0] /\ s_closed s = [].
Proof.
  eexists. split.
  - eapply rtc_l; [by eapply (step_push _ (mkPacket (Some 7%nat) [] 0))|].
    eapply rtc_l; [by eapply step_close|].
    eapply rtc_l; [by eapply step_drain|].
    eapply rtc_l; [by eapply (step_send _ [] _ [])|]. apply rtc_refl.
  - split_and!; reflexivity.
Qed.
