(* ===== verification/XrayBuf.v ===== *)
(** * Buffers of the code taken over from Xray
    (src/common/xray/buf: buffer.go, multi_buffer.go)

    A [Buffer] is a window into a byte array of a fixed size; a [MultiBuffer]
    is a list of buffers.  The operations are shown to act on the bytes the
    buffers hold. *)

From S2P Require Import Prelude.

(** ** Buffer (buffer.go) *)

Definition Size : Z := 8192.

Record Buffer := mkBuffer {
  b_v : list Z;
  b_start : Z;
  b_end : Z
}.

(** The array of a new buffer comes from a pool, and has whatever bytes were
    left in it. *)
Definition New (pooled : list Z) : Buffer := mkBuffer pooled 0 0.

Definition Clear (b : Buffer) : Buffer := mkBuffer (b_v b) 0 0.

Definition Bytes (b : Buffer) : res (list Z) := go_slice (b_v b) (b_start b) (b_end b).

Definition Len (b : Buffer) : Z := b_end b - b_start b.

Definition Available (b : Buffer) : Z := zlen (b_v b) - b_end b.

Definition IsEmpty (b : Buffer) : bool := Len b =? 0.

Definition IsFull (b : Buffer) : bool := b_end b =? zlen (b_v b).

(** The array after a copy of [data] to position [i]. *)
Definition copy_at (v : list Z) (i : Z) (data : list Z) : list Z :=
  take (Z.to_nat i) v ++ data ++ drop (Z.to_nat i + length data) v.

(** [Extend], and the copy of [data] into the part it returns. *)
Definition Extend_copy (b : Buffer) (n : Z) (data : list Z) : res Buffer :=
  let e := b_end b + n in
  if zlen (b_v b) <? e then Panic else
  let ext := take (Z.to_nat n) (data ++ replicate (Z.to_nat n - length data) 0) in
  Ret (mkBuffer (copy_at (b_v b) (b_end b) ext) (b_start b) e).

Definition BytesTo (b : Buffer) (to : Z) : res (list Z) :=
  let to := if to <? 0 then to + Len b else to in
  let to := if to <? 0 then 0 else to in
  go_slice (b_v b) (b_start b) (b_start b + to).

Definition check (b : Buffer) : Buffer :=
  let start := if b_start b <? 0 then 0 else b_start b in
  let e := if b_end b <? 0 then 0 else b_end b in
  let start := if e <? start then e else start in
  mkBuffer (b_v b) start e.

Definition Advance (b : Buffer) (from : Z) : Buffer :=
  let from := if from <? 0 then from + Len b else from in
  check (mkBuffer (b_v b) (b_start b + from) (b_end b)).

(** [Write]: the buffer and how many bytes it took. *)
Definition Buffer_Write (b : Buffer) (data : list Z) : res (Buffer * Z) :=
  room ← go_from (b_v b) (b_end b);
  let nBytes := Nat.min (length room) (length data) in
  Ret (mkBuffer (copy_at (b_v b) (b_end b) (take nBytes data)) (b_start b) (b_end b + Z.of_nat nBytes), Z.of_nat nBytes).

(** [Read] into a slice of [n] bytes: the buffer and the bytes copied. *)
Definition Buffer_Read (b : Buffer) (n : nat) : res (Buffer * list Z) :=
  if Len b =? 0 then Ret (b, []) else
  content ← Bytes b;
  let copied := take n content in
  Ret (if zlen copied =? Len b then Clear b else mkBuffer (b_v b) (b_start b + zlen copied) (b_end b), copied).

(** ** MultiBuffer (multi_buffer.go) *)

Abbreviation MultiBuffer := (list Buffer).

Definition i32 (x : Z) : Z := (x + 2 ^ 31) mod 2 ^ 32 - 2 ^ 31.

Definition mb_Len (mb : MultiBuffer) : Z := foldl (fun size b => i32 (size + Len b)) 0 mb.

Definition mb_IsEmpty (mb : MultiBuffer) : bool := forallb IsEmpty mb.

Definition MergeMulti (dest src : MultiBuffer) : MultiBuffer := dest ++ src.

Section fresh.
(** The arrays [New] gets from the pool. *)
Variable pooled : nat -> list Z.

(** The loop of [MergeBytes], with the number of buffers made so far; a new
    buffer takes at least one byte. *)
Fixpoint merge_loop (fuel k : nat) (dest : MultiBuffer) (src : list Z) : res MultiBuffer :=
  if 0 <? zlen src then
    match fuel with
    | O => Panic
    | S fuel =>
      '(b, nBytes) ← Buffer_Write (New (pooled k)) src;
      src ← go_from src nBytes;
      merge_loop fuel (S k) (dest ++ [b]) src
    end
  else Ret dest.

Definition MergeBytes (dest : MultiBuffer) (src : list Z) : res MultiBuffer :=
  '(dest, src) ←
    match last dest with
    | Some b =>
      if IsFull b then Ret (dest, src) else
      '(b, nBytes) ← Buffer_Write b src;
      src ← go_from src nBytes;
      Ret (take (length dest - 1) dest ++ [b], src)
    | None => Ret (dest, src)
    end;
  merge_loop (length src) 0 dest src.

(** The loop of [SplitSize]: the buffers that fit [size], and the rest. *)
Fixpoint split_loop (mb : MultiBuffer) (size totalBytes : Z) : MultiBuffer * MultiBuffer :=
  match mb with
  | [] => ([], [])
  | b :: mb' =>
    if size <? i32 (totalBytes + Len b) then ([], mb)
    else let '(r, rest) := split_loop mb' size (i32 (totalBytes + Len b)) in (b :: r, rest)
  end.

(** What is left, and the beginning, of at most [size] bytes. *)
Definition SplitSize (mb : MultiBuffer) (size : Z) : res (MultiBuffer * MultiBuffer) :=
  match mb with
  | [] => Ret ([], [])
  | b0 :: mb' =>
    if size <? Len b0 then
      data ← BytesTo b0 size;
      b ← Extend_copy (New (pooled 0)) size data;
      Ret (Advance b0 size :: mb', [b])
    else let '(r, rest) := split_loop mb size 0 in Ret (rest, r)
  end.

End fresh.

(** [SplitBytes] into a slice of [n] bytes: what is left, and the bytes. *)
Fixpoint SplitBytes (mb : MultiBuffer) (n : nat) : res (MultiBuffer * list Z) :=
  match mb with
  | [] => Ret ([], [])
  | pBuffer :: mb =>
    '(pBuffer, copied) ← Buffer_Read pBuffer n;
    if negb (IsEmpty pBuffer) then Ret (pBuffer :: mb, copied) else
    '(mb, more) ← SplitBytes mb (n - length copied);
    Ret (mb, copied ++ more)
  end.

(** [Copy] into a slice of [n] bytes: the bytes copied. *)
Fixpoint Copy (mb : MultiBuffer) (n : nat) : res (list Z) :=
  match mb with
  | [] => Ret []
  | bb :: mb =>
    content ← Bytes bb;
    let copied := take n content in
    if zlen copied <? Len bb then Ret copied else
    more ← Copy mb (n - length copied);
    Ret (copied ++ more)
  end.

(** The loop of [Compact]; [ReadFrom] of a buffer reads it once, and the end
    of an empty one raises. *)
Fixpoint compact_loop (mb2 : MultiBuffer) (last_ : Buffer) (mb : MultiBuffer) : res MultiBuffer :=
  match mb with
  | [] => Ret (mb2 ++ [last_])
  | curr :: mb =>
    if Available last_ <? Len curr then compact_loop (mb2 ++ [last_]) curr mb else
    room ← go_from (b_v last_) (b_end last_);
    if Len curr =? 0 then Panic else
    '(_, copied) ← Buffer_Read curr (length room);
    compact_loop mb2
      (mkBuffer (copy_at (b_v last_) (b_end last_) copied) (b_start last_) (b_end last_ + zlen copied)) mb
  end.

Definition Compact (mb : MultiBuffer) : res MultiBuffer :=
  match mb with
  | [] => Ret []
  | last_ :: mb => compact_loop [] last_ mb
  end.

(** ** Reading all of a reader *)

(** [ReadFullFrom] of a new buffer's size, from a reader with the given bytes
    left: the buffer, and whether the reader ended. *)
Definition ReadFullFrom (pooled reader : list Z) : Buffer * list Z * bool :=
  let n := Nat.min (Z.to_nat Size) (length reader) in
  (mkBuffer (copy_at pooled 0 (take n reader)) 0 (Z.of_nat n), drop n reader, (n <? Z.to_nat Size)%nat).

Fixpoint read_from_loop (pooled : nat -> list Z) (fuel k : nat) (mb : MultiBuffer) (reader : list Z)
    : res MultiBuffer :=
  match fuel with
  | O => Panic
  | S fuel =>
    let '(b, reader, ended) := ReadFullFrom (pooled k) reader in
    let mb := if IsEmpty b then mb else mb ++ [b] in
    if (ended : bool) then Ret mb else read_from_loop pooled fuel (S k) mb reader
  end.

Definition ReadFrom (pooled : nat -> list Z) (reader : list Z) : res MultiBuffer :=
  read_from_loop pooled (S (length reader)) 0 [] reader.

Definition ReadAllToBytes (pooled : nat -> list Z) (reader : list Z) : res (list Z) :=
  mb ← ReadFrom pooled reader;
  if mb_Len mb =? 0 then Ret [] else
  if mb_Len mb <? 0 then Panic else
  '(_, b) ← SplitBytes mb (Z.to_nat (mb_Len mb));
  Ret (b ++ replicate (Z.to_nat (mb_Len mb) - length b) 0).

(** ** MultiBufferContainer *)

(** [Read] into [n] bytes; at the end of the bytes, [io.EOF]. *)
Definition Container_Read (mb : MultiBuffer) (n : nat) : res (MultiBuffer * list Z) :=
  if mb_IsEmpty mb then Err "EOF" else SplitBytes mb n.

Definition Container_Write (pooled : nat -> list Z) (mb : MultiBuffer) (b : list Z) : res (MultiBuffer * Z) :=
  mb ← MergeBytes pooled mb b;
  Ret (mb, zlen b).

(** ** The bytes a buffer holds *)

Definition holds (b : Buffer) (c : list Z) : Prop :=
  exists pre post, b_v b = pre ++ c ++ post /\ b_start b = zlen pre /\ b_end b = zlen pre + zlen c.

Lemma holds_New p : holds (New p) [].
Proof. by exists [], p. Qed.

Lemma holds_Len b c : holds b c -> Len b = zlen c.
Proof. intros (pre & post & _ & Hs & He). unfold Len. lia. Qed.

Lemma holds_IsEmpty b c : holds b c -> IsEmpty b = true <-> c = [].
Proof.
  intros H. unfold IsEmpty. rewrite (holds_Len b c H), Z.eqb_eq. unfold zlen.
  destruct c; cbn; [done|]. split; [lia|done].
Qed.

Lemma holds_Bytes b c : holds b c -> Bytes b = Ret c.
Proof.
  intros (pre & post & Hv & Hs & He). unfold Bytes. rewrite Hs, He.
  apply lies_slice. by exists pre, post.
Qed.

Lemma holds_room b c :
  holds b c -> exists post, go_from (b_v b) (b_end b) = Ret post /\ zlen post = Available b.
Proof.
  intros (pre & post & Hv & Hs & He). exists post. unfold Available. rewrite Hv, He, !zlen_app. split; [|lia].
  rewrite app_assoc. apply go_from_app. by rewrite zlen_app.
Qed.

(** Bytes copied to the end of the window extend it. *)
Lemma holds_append b c d :
  holds b c -> zlen d <= Available b ->
  holds (mkBuffer (copy_at (b_v b) (b_end b) d) (b_start b) (b_end b + zlen d)) (c ++ d) /\
  zlen (copy_at (b_v b) (b_end b) d) = zlen (b_v b).
Proof.
  intros (pre & post & Hv & Hs & He) Hd. unfold Available in Hd. rewrite Hv, He, !zlen_app in Hd.
  assert (copy_at (b_v b) (b_end b) d = pre ++ c ++ d ++ drop (length d) post) as ->.
  { unfold copy_at. rewrite Hv, He, (app_assoc pre c post). unfold zlen. rewrite <-Nat2Z.inj_add, Nat2Z.id, <-length_app.
    rewrite take_app_length, drop_app_add, <-!app_assoc. done. }
  split.
  - exists pre, (drop (length d) post). cbn. rewrite Hs, He, zlen_app, <-!app_assoc. split_and!; [done|done|lia].
  - rewrite Hv, !zlen_app. unfold zlen in *. rewrite length_drop. lia.
Qed.

Lemma holds_Write b c data :
  holds b c ->
  exists b' k, Buffer_Write b data = Ret (b', Z.of_nat k) /\ holds b' (c ++ take k data) /\
    k = Nat.min (Z.to_nat (Available b)) (length data) /\ zlen (b_v b') = zlen (b_v b).
Proof.
  intros H. destruct (holds_room b c H) as (post & E & Hp). unfold Buffer_Write. rewrite E. cbn [mbind res_bind].
  assert (length post = Z.to_nat (Available b)) as Hl by (unfold zlen in Hp; lia). rewrite Hl.
  set (k := Nat.min (Z.to_nat (Available b)) (length data)).
  assert (zlen (take k data) = Z.of_nat k) as Hk by (unfold zlen; rewrite length_take; lia).
  pose proof (zlen_nonneg post). destruct (holds_append b c (take k data) H) as [Hh Hv]; [lia|].
  rewrite Hk in Hh. eexists _, k. split_and!; try done.
Qed.

Lemma holds_drop b c k :
  holds b c -> (k <= length c)%nat -> holds (mkBuffer (b_v b) (b_start b + Z.of_nat k) (b_end b)) (drop k c).
Proof.
  intros (pre & post & Hv & Hs & He) Hk. exists (pre ++ take k c), post. cbn.
  rewrite Hv, Hs, He, zlen_app, <-app_assoc, (app_assoc (take k c)), take_drop.
  unfold zlen. rewrite length_take, length_drop. split_and!; [done|lia|lia].
Qed.

Lemma holds_Read b c n :
  holds b c -> exists b', Buffer_Read b n = Ret (b', take n c) /\ holds b' (drop n c).
Proof.
  intros H. unfold Buffer_Read. rewrite (holds_Len b c H).
  destruct (Z.eqb_spec (zlen c) 0) as [E|E].
  - assert (c = []) as -> by (unfold zlen in E; destruct c; cbn in E; [done|lia]).
    exists b. rewrite take_nil, drop_nil. done.
  - rewrite (holds_Bytes b c H). cbn [mbind res_bind]. eexists. split; [done|].
    destruct (Z.eqb_spec (zlen (take n c)) (zlen c)) as [El|El].
    + unfold zlen in El. rewrite length_take in El. rewrite drop_ge by lia. by exists [], (b_v b).
    + unfold zlen in *. rewrite length_take in *. rewrite Nat.min_l by lia. apply holds_drop; [done|lia].
Qed.

Lemma holds_Advance b c k :
  holds b c -> 0 <= k <= zlen c -> holds (Advance b k) (drop (Z.to_nat k) c).
Proof.
  intros H Hk. pose proof H as (pre & post & _ & Hs & He). pose proof (zlen_nonneg pre).
  unfold Advance, check. rewrite (proj2 (Z.ltb_ge k 0)) by lia. cbn [b_start b_end b_v].
  rewrite (proj2 (Z.ltb_ge (b_start b + k) 0)), (proj2 (Z.ltb_ge (b_end b) 0)) by lia.
  rewrite (proj2 (Z.ltb_ge (b_end b) (b_start b + k))) by lia.
  replace (b_start b + k) with (b_start b + Z.of_nat (Z.to_nat k)) by lia.
  apply holds_drop; [done|]. unfold zlen in Hk. lia.
Qed.

Lemma holds_BytesTo b c k :
  holds b c -> 0 <= k <= zlen c -> BytesTo b k = Ret (take (Z.to_nat k) c).
Proof.
  intros (pre & post & Hv & Hs & He) Hk. unfold BytesTo.
  rewrite (proj2 (Z.ltb_ge k 0)) by lia. rewrite (proj2 (Z.ltb_ge k 0)) by lia. rewrite Hs.
  replace k with (zlen (take (Z.to_nat k) c)) at 1 by (unfold zlen in *; rewrite length_take; lia).
  apply lies_slice. exists pre, (drop (Z.to_nat k) c ++ post).
  by rewrite Hv, (app_assoc (take _ c)), take_drop.
Qed.

Lemma holds_Extend_copy p data :
  zlen data <= zlen p ->
  exists b, Extend_copy (New p) (zlen data) data = Ret b /\ holds b data /\ zlen (b_v b) = zlen p.
Proof.
  intros Hd. unfold Extend_copy. cbn [New b_end b_v b_start].
  rewrite (proj2 (Z.ltb_ge _ _)) by lia.
  assert (Z.to_nat (zlen data) = length data) as Hn by (unfold zlen; lia).
  rewrite Hn, Nat.sub_diag. cbn [replicate]. rewrite app_nil_r, take_ge by lia. eexists. split; [done|].
  by apply (holds_append (New p) [] data (holds_New p)); unfold Available; cbn; lia.
Qed.

(** ** The bytes a list of buffers holds *)

Abbreviation mb_holds := (Forall2 holds).

Lemma mb_holds_app mb mb' cs cs' : mb_holds mb cs -> mb_holds mb' cs' -> mb_holds (mb ++ mb') (cs ++ cs').
Proof. apply Forall2_app. Qed.

Lemma mb_IsEmpty_spec mb cs : mb_holds mb cs -> mb_IsEmpty mb = true <-> concat cs = [].
Proof.
  induction 1 as [|b c mb cs Hb _ IH]; cbn; [done|].
  rewrite andb_true_iff, (holds_IsEmpty b c Hb), IH. split.
  - by intros [-> ->].
  - intros H%app_eq_nil. done.
Qed.

(** Lengths add up as long as they fit 32 bits. *)
Lemma i32_small x : - 2 ^ 31 <= x < 2 ^ 31 -> i32 x = x.
Proof. intros. unfold i32. rewrite Z.mod_small; lia. Qed.

Lemma mb_Len_spec mb cs : mb_holds mb cs -> zlen (concat cs) < 2 ^ 31 -> mb_Len mb = zlen (concat cs).
Proof.
  intros H. unfold mb_Len.
  assert (forall acc, 0 <= acc -> acc + zlen (concat cs) < 2 ^ 31 ->
    foldl (fun size b => i32 (size + Len b)) acc mb = acc + zlen (concat cs)) as Hacc.
  { induction H as [|b c mb cs Hb _ IH]; intros acc H0 H1; cbn [foldl concat].
    - rewrite zlen_nil. lia.
    - cbn [concat] in H1. rewrite zlen_app in H1. rewrite (holds_Len b c Hb).
      pose proof (zlen_nonneg c). pose proof (zlen_nonneg (concat cs)).
      rewrite i32_small by lia. rewrite IH by lia. rewrite zlen_app. lia. }
  intros H1. rewrite Hacc by lia. lia.
Qed.

Lemma SplitBytes_spec mb cs n :
  mb_holds mb cs ->
  exists mb' cs', SplitBytes mb n = Ret (mb', take n (concat cs)) /\ mb_holds mb' cs' /\
    concat cs' = drop n (concat cs).
Proof.
  intros H. revert n. induction H as [|b c mb cs Hb H IH]; intros n; cbn [SplitBytes concat].
  - exists [], []. by rewrite take_nil, drop_nil.
  - destruct (holds_Read b c n Hb) as (b' & -> & Hb'). cbn [mbind res_bind].
    pose proof (holds_IsEmpty b' _ Hb') as He.
    destruct (IsEmpty b') eqn:E; cbn [negb].
    + assert (length c <= n)%nat as Hn by (by apply drop_nil_inv, He).
      rewrite (take_ge c) by lia. destruct (IH (n - length c)%nat) as (mb' & cs' & -> & Hm & Hc).
      cbn [mbind res_bind]. exists mb', cs'. rewrite take_app_ge, drop_app_ge by lia. done.
    + assert (n < length c)%nat as Hn.
      { apply not_le. intros Hle. rewrite drop_ge in He by lia. discriminate (proj2 He eq_refl). }
      exists (b' :: mb), (drop n c :: cs). rewrite take_app_le, drop_app_le by lia. cbn. split_and!; [done| |done].
      by constructor.
Qed.

Lemma Copy_spec mb cs n : mb_holds mb cs -> Copy mb n = Ret (take n (concat cs)).
Proof.
  intros H. revert n. induction H as [|b c mb cs Hb H IH]; intros n; cbn [Copy concat]; [by rewrite take_nil|].
  rewrite (holds_Bytes b c Hb), (holds_Len b c Hb). cbn [mbind res_bind].
  unfold zlen. rewrite length_take.
  destruct (Z.ltb_spec (Z.of_nat (Nat.min n (length c))) (Z.of_nat (length c))).
  - rewrite take_app_le by lia. done.
  - rewrite IH. cbn [mbind res_bind]. rewrite Nat.min_r, take_app by lia. done.
Qed.

(** [MergeBytes] puts bytes behind those of the buffers, in buffers that are
    not empty. *)
Section pooled.
Context (pooled : nat -> list Z) (pooled_size : forall k, zlen (pooled k) = Size).

Lemma merge_loop_spec fuel k dest cs src :
  mb_holds dest cs -> (length src <= fuel)%nat ->
  exists new ds, merge_loop pooled fuel k dest src = Ret (dest ++ new) /\ mb_holds new ds /\ concat ds = src /\
    Forall (fun c => c ≠ [] /\ zlen c <= Size) ds /\ Forall (fun b => zlen (b_v b) = Size) new.
Proof.
  revert k dest cs src. induction fuel as [|fuel IH]; intros k dest cs src H Hf; cbn [merge_loop].
  - destruct src; cbn in Hf; [|lia]. cbn. exists [], []. rewrite app_nil_r. by split_and!.
  - destruct (Z.ltb_spec 0 (zlen src)) as [Hp|Hp].
    + destruct (holds_Write (New (pooled k)) [] src (holds_New _)) as (b & m & -> & Hb & Hm & Hv).
      cbn [mbind res_bind]. unfold Available in Hm. cbn [New b_v b_end] in Hm, Hv. rewrite pooled_size in Hm, Hv.
      unfold zlen in Hp. assert (0 < m)%nat by (unfold Size in Hm; lia).
      rewrite go_from_ok by (unfold zlen; lia). cbn [mbind res_bind]. rewrite Nat2Z.id.
      destruct (IH (S k) (dest ++ [b]) (cs ++ [take m src]) (drop m src)) as (new & ds & -> & Hn & Hc & Hd & Hw).
      * by apply Forall2_app; [|constructor].
      * rewrite length_drop. lia.
      * exists (b :: new), (take m src :: ds). rewrite <-app_assoc. split_and!; try done.
        -- by constructor.
        -- cbn. by rewrite Hc, take_drop.
        -- constructor; [|done]. split; [|unfold zlen; rewrite length_take; lia].
           intros E. apply (f_equal length) in E. rewrite length_take in E. cbn in E. lia.
        -- by constructor.
    + assert (src = []) as -> by (unfold zlen in Hp; destruct src; cbn in Hp; [done|lia]).
      exists [], []. rewrite app_nil_r. by split_and!.
Qed.

Lemma MergeBytes_spec dest cs src :
  mb_holds dest cs ->
  exists mb ds, MergeBytes pooled dest src = Ret mb /\ mb_holds mb ds /\ concat ds = concat cs ++ src.
Proof.
  intros H. unfold MergeBytes.
  assert (exists dest' cs' src', match last dest with
    | Some b => if IsFull b then Ret (dest, src) else
        '(b, nBytes) ← Buffer_Write b src; src ← go_from src nBytes; Ret (take (length dest - 1) dest ++ [b], src)
    | None => Ret (dest, src) end = Ret (dest', src') /\ mb_holds dest' cs' /\
    concat cs' ++ src' = concat cs ++ src) as (dest' & cs' & src' & -> & H' & Hc).
  { destruct (last dest) as [b|] eqn:El; [|by exists dest, cs, src].
    destruct (IsFull b); [by exists dest, cs, src|].
    apply last_Some in El as [l ->]. apply Forall2_app_inv_l in H as (cl & ck & Hl & Hk & ->).
    inversion Hk as [|? c ? ? Hb Hnil]; subst. inversion Hnil; subst.
    destruct (holds_Write b c src Hb) as (b' & m & -> & Hb' & Hm & _). cbn [mbind res_bind].
    rewrite go_from_ok by (unfold zlen; lia). cbn [mbind res_bind]. rewrite Nat2Z.id.
    exists (l ++ [b']), (cl ++ [c ++ take m src]), (drop m src). split_and!.
    - rewrite length_app. cbn. by rewrite Nat.add_sub, take_app_length.
    - by apply Forall2_app; [|constructor].
    - rewrite !concat_app. cbn. rewrite !app_nil_r, <-!app_assoc. by rewrite take_drop. }
  cbn [mbind res_bind].
  destruct (merge_loop_spec (length src') 0 dest' cs' src' H') as (new & ds & -> & Hn & Hd & _); [lia|].
  exists (dest' ++ new), (cs' ++ ds). split_and!; [done|by apply Forall2_app|]. by rewrite concat_app, Hd.
Qed.

(** A fresh container holds buffers that are not empty. *)
Lemma MergeBytes_new src :
  exists mb ds, MergeBytes pooled [] src = Ret mb /\ mb_holds mb ds /\ concat ds = src /\
    Forall (fun c => c ≠ [] /\ zlen c <= Size) ds.
Proof.
  unfold MergeBytes. cbn [last mbind res_bind].
  destruct (merge_loop_spec (length src) 0 [] [] src) as (new & ds & -> & Hn & Hd & Hf & _); [constructor|lia|].
  by exists new, ds.
Qed.

End pooled.

Lemma split_loop_spec mb cs size total :
  mb_holds mb cs -> Forall (fun c => zlen c <= Size) cs -> 0 <= total <= size -> size + Size < 2 ^ 31 ->
  exists ks rs, mb_holds (split_loop mb size total).1 ks /\ mb_holds (split_loop mb size total).2 rs /\
    cs = ks ++ rs /\ zlen (concat ks) <= size - total /\
    (forall c cs', cs = c :: cs' -> total + zlen c <= size -> ks ≠ []).
Proof.
  intros H. revert total. induction H as [|b c mb cs Hb H IH]; intros total Hs Ht Hz; cbn [split_loop].
  - exists [], []. split_and!; try constructor; [cbn; rewrite zlen_nil; lia|done].
  - apply Forall_cons in Hs as [Hc Hs]. pose proof (zlen_nonneg c).
    rewrite (holds_Len b c Hb), i32_small by (unfold Size in *; lia).
    destruct (Z.ltb_spec size (total + zlen c)).
    + exists [], (c :: cs). split_and!; [constructor|by constructor|done|cbn; rewrite zlen_nil; lia|].
      intros c' cs' [= <- <-] Hle. lia.
    + destruct (IH (total + zlen c) Hs) as (ks & rs & Hk & Hr & -> & Hz' & _); [lia|lia|].
      destruct (split_loop mb size (total + zlen c)) as [r rest]. cbn [fst snd] in *.
      exists (c :: ks), rs. split_and!; [by constructor|done|done| |done]. cbn. rewrite zlen_app. lia.
Qed.

(** [SplitSize] cuts the bytes of the buffers in two; the first part is not
    longer than asked for, and not empty when the buffers are not. *)
Lemma SplitSize_spec pooled mb cs size :
  (forall k, zlen (pooled k) = Size) ->
  mb_holds mb cs -> Forall (fun c => c ≠ [] /\ zlen c <= Size) cs -> 0 < size -> size + Size < 2 ^ 31 ->
  exists rest chunk rs ks, SplitSize pooled mb size = Ret (rest, chunk) /\
    mb_holds rest rs /\ mb_holds chunk ks /\ concat ks ++ concat rs = concat cs /\
    Forall (fun c => c ≠ [] /\ zlen c <= Size) rs /\
    zlen (concat ks) <= size /\ (cs ≠ [] -> concat ks ≠ []).
Proof.
  intros Hpool H Hs H0 Hz. destruct H as [|b c mb cs Hb H].
  - exists [], [], [], []. cbn. rewrite zlen_nil. by split_and!; try lia.
  - apply Forall_cons in Hs as [[Hne Hc] Hs]. cbn [SplitSize]. rewrite (holds_Len b c Hb).
    destruct (Z.ltb_spec size (zlen c)) as [Hlt|Hge].
    + rewrite (holds_BytesTo b c size Hb) by lia. cbn [mbind res_bind].
      assert (zlen (take (Z.to_nat size) c) = size) as Hl by (unfold zlen in *; rewrite length_take; lia).
      destruct (holds_Extend_copy (pooled 0%nat) (take (Z.to_nat size) c)) as (b' & E & Hb' & _);
        [rewrite Hpool, Hl; lia|].
      rewrite Hl in E. rewrite E. cbn [mbind res_bind].
      exists (Advance b size :: mb), [b'], (drop (Z.to_nat size) c :: cs), [take (Z.to_nat size) c].
      split_and!; try done.
      * constructor; [|done]. apply holds_Advance; [done|lia].
      * by repeat constructor.
      * cbn. rewrite app_nil_r, app_assoc, take_drop. done.
      * constructor; [|done]. unfold zlen in *. rewrite length_drop. split; [|lia].
        intros E'. apply (f_equal length) in E'. rewrite length_drop in E'. cbn in E'. lia.
      * cbn. rewrite app_nil_r, Hl. lia.
      * intros _ E'. cbn in E'. rewrite app_nil_r in E'. rewrite E', zlen_nil in Hl. lia.
    + destruct (split_loop_spec (b :: mb) (c :: cs) size 0) as (ks & rs & Hk & Hr & Hcs & Hsz & Hprog);
        [by constructor|constructor; [done|eapply Forall_impl; [done|by intros ? []]]|lia|lia|].
      destruct (split_loop (b :: mb) size 0) as [r rest]. exists rest, r, rs, ks.
      assert (Forall (fun c => c ≠ [] /\ zlen c <= Size) (ks ++ rs)) as [Hfk Hfr]%Forall_app
        by (rewrite <-Hcs; by constructor).
      split_and!; try done.
      * by rewrite <-concat_app, <-Hcs.
      * lia.
      * intros _ E'. specialize (Hprog c cs eq_refl ltac:(lia)).
        destruct ks as [|k ks]; [done|]. apply Forall_cons in Hfk as [[Hk0 _] _]. cbn in E'.
        by apply app_eq_nil in E' as [-> _].
Qed.

(** [Compact] keeps the bytes of buffers that are not empty. *)
Lemma compact_loop_spec mb2 ds last_ c mb cs :
  mb_holds mb2 ds -> holds last_ c -> mb_holds mb cs -> Forall (fun c => c ≠ []) cs ->
  exists mb' cs', compact_loop mb2 last_ mb = Ret mb' /\ mb_holds mb' cs' /\
    concat cs' = concat ds ++ c ++ concat cs.
Proof.
  intros Hd Hl H. revert mb2 ds last_ c Hd Hl.
  induction H as [|b e mb cs Hb H IH]; intros mb2 ds last_ c Hd Hl Hne; cbn [compact_loop].
  - exists (mb2 ++ [last_]), (ds ++ [c]). split_and!; [done|by apply Forall2_app; [|constructor]|].
    rewrite concat_app. cbn. by rewrite !app_nil_r.
  - apply Forall_cons in Hne as [He Hne]. rewrite (holds_Len b e Hb).
    destruct (Z.ltb_spec (Available last_) (zlen e)) as [Hlt|Hge].
    + destruct (IH (mb2 ++ [last_]) (ds ++ [c]) b e) as (mb' & cs' & -> & Hm & Hc); try done.
      { by apply Forall2_app; [|constructor]. }
      exists mb', cs'. split_and!; try done. rewrite Hc, concat_app. cbn. rewrite !app_nil_r, <-!app_assoc. done.
    + destruct (holds_room last_ c Hl) as (room & -> & Hr). cbn [mbind res_bind].
      destruct (Z.eqb_spec (zlen e) 0) as [E|E].
      { unfold zlen in E. destruct e; [done|cbn in E; lia]. }
      destruct (holds_Read b e (length room) Hb) as (b' & -> & _). cbn [mbind res_bind].
      rewrite take_ge by (unfold zlen in *; lia).
      destruct (holds_append last_ c e Hl Hge) as [Hh _].
      destruct (IH mb2 ds _ (c ++ e) Hd Hh Hne) as (mb' & cs' & -> & Hm & Hc).
      exists mb', cs'. split_and!; try done. rewrite Hc. cbn. by rewrite <-!app_assoc.
Qed.

Lemma Compact_spec mb cs :
  mb_holds mb cs -> Forall (fun c => c ≠ []) cs ->
  exists mb' cs', Compact mb = Ret mb' /\ mb_holds mb' cs' /\ concat cs' = concat cs.
Proof.
  intros H Hne. destruct H as [|b c mb cs Hb H]; [by exists [], []|]. apply Forall_cons in Hne as [_ Hne].
  destruct (compact_loop_spec [] [] b c mb cs) as (mb' & cs' & E & Hm & Hc); try done.
  by exists mb', cs'.
Qed.

Lemma holds_ReadFullFrom p reader :
  zlen p = Size -> let n := Nat.min (Z.to_nat Size) (length reader) in
  holds (ReadFullFrom p reader).1.1 (take n reader).
Proof.
  intros Hp n. unfold ReadFullFrom. fold n. cbn [fst].
  assert (zlen (take n reader) = Z.of_nat n) as Hn by (unfold zlen; rewrite length_take; lia).
  rewrite <-Hn. apply (holds_append (New p) [] (take n reader) (holds_New p)).
  unfold Available. cbn. rewrite Hp, Hn. unfold n, Size. lia.
Qed.

Lemma read_from_loop_spec pooled fuel k mb cs reader :
  (forall k, zlen (pooled k) = Size) -> mb_holds mb cs -> (length reader < fuel)%nat ->
  exists mb' cs', read_from_loop pooled fuel k mb reader = Ret mb' /\ mb_holds mb' cs' /\
    concat cs' = concat cs ++ reader.
Proof.
  intros Hp. revert k mb cs reader. induction fuel as [|fuel IH]; intros k mb cs reader H Hf; [lia|].
  cbn [read_from_loop]. pose proof (holds_ReadFullFrom (pooled k) reader (Hp k)) as Hh. cbn zeta in Hh.
  unfold ReadFullFrom in *. set (n := Nat.min (Z.to_nat Size) (length reader)) in *. cbn [fst] in Hh.
  set (b := mkBuffer _ _ _) in *.
  assert (exists cs1, mb_holds (if IsEmpty b then mb else mb ++ [b]) cs1 /\ concat cs1 = concat cs ++ take n reader)
    as (cs1 & H1 & Hc1).
  { pose proof (holds_IsEmpty b _ Hh) as He. destruct (IsEmpty b).
    - exists cs. rewrite (proj1 He eq_refl), app_nil_r. done.
    - exists (cs ++ [take n reader]). split; [by apply Forall2_app; [|constructor]|].
      rewrite concat_app. cbn. by rewrite app_nil_r. }
  destruct (Nat.ltb_spec n (Z.to_nat Size)) as [Hlt|Hge].
  - eexists _, cs1. split; [done|]. split; [done|]. rewrite Hc1, take_ge by lia. done.
  - destruct (IH (S k) _ cs1 (drop n reader) H1) as (mb' & cs' & -> & Hm & Hc').
    + rewrite length_drop. unfold Size in *. lia.
    + exists mb', cs'. split_and!; try done. rewrite Hc', Hc1, <-app_assoc, take_drop. done.
Qed.

Lemma ReadAllToBytes_spec pooled reader :
  (forall k, zlen (pooled k) = Size) -> zlen reader < 2 ^ 31 -> ReadAllToBytes pooled reader = Ret reader.
Proof.
  intros Hp Hz. unfold ReadAllToBytes, ReadFrom.
  destruct (read_from_loop_spec pooled (S (length reader)) 0 [] [] reader) as (mb & cs & -> & Hm & Hc);
    [done|constructor|lia|]. cbn [mbind res_bind]. cbn in Hc.
  rewrite (mb_Len_spec mb cs Hm), Hc by (by rewrite Hc). pose proof (zlen_nonneg reader).
  destruct (Z.eqb_spec (zlen reader) 0) as [E|E].
  - unfold zlen in E. destruct reader; [done|cbn in E; lia].
  - rewrite (proj2 (Z.ltb_ge _ _)) by lia. unfold zlen. rewrite Nat2Z.id.
    destruct (SplitBytes_spec mb cs (length reader) Hm) as (mb' & cs' & -> & _). cbn [mbind res_bind].
    rewrite Hc, firstn_all, Nat.sub_diag, app_nil_r. done.
Qed.
