(* ===== verification/XrayPipe.v ===== *)
(** * The pipe of the code taken over from Xray
    (src/common/xray/pipe: impl.go, pipe.go; src/common/xray/signal)

    A pipe carries buffers from any number of writers to one reader, with a
    limit on what it holds.  Readers and writers that have to wait do so on
    notifiers, channels that hold one token.  The steps below interleave the
    threads at the granularity of the mutex sections and of the channel
    operations, so that a lost wake-up would show. *)

From S2P Require Import Prelude XrayBuf.

Inductive state := open | closed | errord.

#[export] Instance state_eq_dec : EqDecision state.
Proof. solve_decision. Defined.

(** The errors the pipe's own code distinguishes. *)
Inductive pipe_error := errBufferFull | ErrClosedPipe | PipeEOF.

Record pipe := mkPipe {
  (** [nil] or a list of buffers *)
  p_data : option MultiBuffer;
  (** whether the notifiers hold their token *)
  p_readSignal : bool;
  p_writeSignal : bool;
  p_done : bool;
  p_limit : Z;
  p_discardOverflow : bool;
  p_state : state
}.

(** [New] with the options of a size limit (-1 without) and of discarding. *)
Definition New (limit : Z) (discardOverflow : bool) : pipe :=
  mkPipe None false false false limit discardOverflow open.

Definition isFull (p : pipe) (curSize : Z) : bool := (0 <=? p_limit p) && (p_limit p <? curSize).

Definition data_Len (p : pipe) : Z := from_option mb_Len 0 (p_data p).

Definition getState (p : pipe) (forRead : bool) : option pipe_error :=
  match p_state p with
  | open => if negb forRead && isFull p (data_Len p) then Some errBufferFull else None
  | closed =>
    if negb forRead then Some ErrClosedPipe
    else if negb (from_option mb_IsEmpty true (p_data p)) then None else Some PipeEOF
  | errord => Some ErrClosedPipe
  end.

Definition with_data d p :=
  mkPipe d (p_readSignal p) (p_writeSignal p) (p_done p) (p_limit p) (p_discardOverflow p) (p_state p).
Definition with_readSignal b p :=
  mkPipe (p_data p) b (p_writeSignal p) (p_done p) (p_limit p) (p_discardOverflow p) (p_state p).
Definition with_writeSignal b p :=
  mkPipe (p_data p) (p_readSignal p) b (p_done p) (p_limit p) (p_discardOverflow p) (p_state p).

(** The mutex section of a read: the data or an error; neither when the pipe
    is open and holds nothing. *)
Definition readMultiBufferInternal (p : pipe) : pipe * option MultiBuffer * option pipe_error :=
  match getState p true with
  | Some err => (p, None, Some err)
  | None => (with_data None p, p_data p, None)
  end.

(** The mutex section of a write. *)
Definition writeMultiBufferInternal (p : pipe) (mb : MultiBuffer) : pipe * option pipe_error :=
  match getState p false with
  | Some err => (p, Some err)
  | None =>
    (match p_data p with
     | None => with_data (Some mb) p
     | Some data => with_data (Some (MergeMulti data mb)) p
     end, None)
  end.

Definition Close (p : pipe) : pipe :=
  match p_state p with
  | open => mkPipe (p_data p) (p_readSignal p) (p_writeSignal p) true (p_limit p) (p_discardOverflow p) closed
  | _ => p
  end.

Definition Interrupt (p : pipe) : pipe :=
  let p :=
    if negb (from_option mb_IsEmpty true (p_data p)) then
      mkPipe None (p_readSignal p) (p_writeSignal p) (p_done p) (p_limit p) (p_discardOverflow p)
        (match p_state p with closed => errord | s => s end)
    else p in
  match p_state p with
  | open => mkPipe (p_data p) (p_readSignal p) (p_writeSignal p) true (p_limit p) (p_discardOverflow p) errord
  | _ => p
  end.

(** ** The threads *)

(** A result: data, or an error. *)
Definition outcome : Type := option MultiBuffer * option pipe_error.

(** The reader: between calls, before its mutex section, before the signal to
    the writers with what it will return, or waiting. *)
Inductive reader_pc :=
| RIdle
| RTry
| RSignal (r : outcome)
| RWait.

(** A writer of the given buffers: before its mutex section, before the signal
    to the reader with its error, or waiting for room. *)
Inductive writer_pc :=
| WTry (mb : MultiBuffer)
| WSignal (err : option pipe_error)
| WWait (mb : MultiBuffer).

Record system := mkSystem {
  s_pipe : pipe;
  s_reader : reader_pc;
  s_writers : list writer_pc;
  (** what the reads returned, the buffers the mutex sections of the writes
      let in, and the buffers an interrupt took out, the last ones last *)
  s_read : list outcome;
  s_accepted : list MultiBuffer;
  s_lost : MultiBuffer
}.

(** One round of [ReadMultiBuffer]. *)
Definition read_round (p : pipe) : pipe * reader_pc :=
  let '(p, data, err) := readMultiBufferInternal p in
  match data, err with
  | None, None => (p, RWait)
  | _, _ => (p, RSignal (data, err))
  end.

(** One round of [WriteMultiBuffer]: the next stage of the writer, [None] when
    it returns. *)
Definition write_round (p : pipe) (mb : MultiBuffer) : pipe * option writer_pc :=
  let '(p, err) := writeMultiBufferInternal p mb in
  match err with
  | None => (p, Some (WSignal None))
  | Some errBufferFull => (p, if p_discardOverflow p then None else Some (WWait mb))
  | Some err => (p, Some (WSignal (Some err)))
  end.

Definition accepted_by (p : pipe) (mb : MultiBuffer) : list MultiBuffer :=
  match getState p false with None => [mb] | Some _ => [] end.

Definition lost_by (p : pipe) : MultiBuffer :=
  if negb (from_option mb_IsEmpty true (p_data p)) then default [] (p_data p) else [].

Definition set_reader pc p s := mkSystem p pc (s_writers s) (s_read s) (s_accepted s) (s_lost s).
Definition set_writers ws p s := mkSystem p (s_reader s) ws (s_read s) (s_accepted s) (s_lost s).

Inductive pstep : system -> system -> Prop :=
| step_read s :
  s_reader s = RIdle -> pstep s (set_reader RTry (s_pipe s) s)
| step_read_try s p pc :
  s_reader s = RTry -> read_round (s_pipe s) = (p, pc) -> pstep s (set_reader pc p s)
| step_read_return s r :
  s_reader s = RSignal r ->
  pstep s (mkSystem (with_writeSignal true (s_pipe s)) RIdle (s_writers s) (s_read s ++ [r]) (s_accepted s) (s_lost s))
| step_read_wake s :
  s_reader s = RWait -> p_readSignal (s_pipe s) = true ->
  pstep s (set_reader RTry (with_readSignal false (s_pipe s)) s)
| step_read_done s :
  s_reader s = RWait -> p_done (s_pipe s) = true -> pstep s (set_reader RTry (s_pipe s) s)
| step_write s mb :
  mb_IsEmpty mb = false -> pstep s (set_writers (WTry mb :: s_writers s) (s_pipe s) s)
| step_write_try s l k mb p pc :
  s_writers s = l ++ WTry mb :: k -> write_round (s_pipe s) mb = (p, pc) ->
  pstep s (mkSystem p (s_reader s) (l ++ from_option (fun w => [w]) [] pc ++ k) (s_read s)
    (s_accepted s ++ accepted_by (s_pipe s) mb) (s_lost s))
| step_write_return s l k err :
  s_writers s = l ++ WSignal err :: k ->
  pstep s (set_writers (l ++ k) (with_readSignal true (s_pipe s)) s)
| step_write_wake s l k mb :
  s_writers s = l ++ WWait mb :: k -> p_writeSignal (s_pipe s) = true ->
  pstep s (set_writers (l ++ WTry mb :: k) (with_writeSignal false (s_pipe s)) s)
| step_write_done s l k mb :
  s_writers s = l ++ WWait mb :: k -> p_done (s_pipe s) = true ->
  pstep s (set_writers (l ++ k) (s_pipe s) s)
| step_close s : pstep s (set_reader (s_reader s) (Close (s_pipe s)) s)
| step_interrupt s :
  pstep s (mkSystem (Interrupt (s_pipe s)) (s_reader s) (s_writers s) (s_read s) (s_accepted s)
    (s_lost s ++ lost_by (s_pipe s))).

Definition start (p : pipe) : system := mkSystem p RIdle [] [] [] [].

(** The buffers the reads returned. *)
Definition read_data (rs : list outcome) : MultiBuffer := concat (map (fun r => default [] (fst r)) rs).

Arguments read_data : simpl never.

(** The buffers a reader is about to return. *)
Definition in_hand (pc : reader_pc) : MultiBuffer :=
  match pc with RSignal r => default [] (fst r) | _ => [] end.

(** ** First in, first out *)

Record fifo (s : system) : Prop := {
  fifo_bytes :
    concat (s_accepted s) = read_data (s_read s) ++ in_hand (s_reader s) ++ default [] (p_data (s_pipe s)) ++ s_lost s;
  fifo_lost : s_lost s = [] \/ (p_state (s_pipe s) = errord /\ p_data (s_pipe s) = None);
  fifo_data : forall mb, p_data (s_pipe s) = Some mb -> mb_IsEmpty mb = false;
  fifo_writers : forall mb, WTry mb ∈ s_writers s \/ WWait mb ∈ s_writers s -> mb_IsEmpty mb = false;
  fifo_done : p_state (s_pipe s) ≠ open -> p_done (s_pipe s) = true
}.

Lemma read_data_app a b : read_data (a ++ b) = read_data a ++ read_data b.
Proof. unfold read_data. by rewrite map_app, concat_app. Qed.

Lemma mb_IsEmpty_app a b : mb_IsEmpty (a ++ b) = mb_IsEmpty a && mb_IsEmpty b.
Proof. unfold mb_IsEmpty. apply forallb_app. Qed.

(** What the mutex section of a read does. *)
Lemma read_round_spec p p' pc :
  read_round p = (p', pc) ->
  (p' = p /\ ((exists err, pc = RSignal (None, Some err) /\ p_state p ≠ open) \/
    (pc = RWait /\ p_data p = None /\ p_state p = open))) \/
  (exists mb, p_data p = Some mb /\ pc = RSignal (Some mb, None) /\ p' = with_data None p).
Proof.
  unfold read_round, readMultiBufferInternal, getState.
  destruct (p_state p) eqn:Es; cbn [negb andb].
  - destruct (p_data p) as [mb|] eqn:Ed; intros [= <- <-].
    + right. by exists mb.
    + left. split; [by destruct p; cbn in *; subst|]. by right.
  - destruct (p_data p) as [mb|] eqn:Ed; cbn [from_option]; [destruct (mb_IsEmpty mb)|]; intros [= <- <-].
    + left. split; [done|]. left. by eexists.
    + right. by exists mb.
    + left. split; [done|]. left. by eexists.
  - intros [= <- <-]. left. split; [done|]. left. by eexists.
Qed.

(** What the mutex section of a write does. *)
Lemma write_round_spec p mb p' pc :
  write_round p mb = (p', pc) ->
  (p_state p = open /\ accepted_by p mb = [mb] /\ pc = Some (WSignal None) /\
    p' = with_data (Some (default [] (p_data p) ++ mb)) p) \/
  (p' = p /\ accepted_by p mb = [] /\
    ((p_state p = open /\ p_data p ≠ None /\ (pc = None \/ pc = Some (WWait mb))) \/
     (p_state p ≠ open /\ exists err, pc = Some (WSignal err)))).
Proof.
  unfold write_round, writeMultiBufferInternal, accepted_by, getState.
  destruct (p_state p) eqn:Es; cbn [negb andb].
  - unfold isFull, data_Len. destruct (p_data p) as [data|] eqn:Ed; cbn [from_option].
    + destruct (_ && _); intros [= <- <-].
      * right. split_and!; [done|done|]. left. split_and!; try done. destruct (p_discardOverflow p); auto.
      * left. done.
    + destruct (Z.leb_spec 0 (p_limit p)); cbn [andb]; [rewrite (proj2 (Z.ltb_ge _ _)) by lia|];
        intros [= <- <-]; left; done.
  - intros [= <- <-]. right. split_and!; [done|done|]. right. eauto.
  - intros [= <- <-]. right. split_and!; [done|done|]. right. eauto.
Qed.

(** Membership after one writer moved on. *)
Lemma writers_moved (l k : list writer_pc) pc pc' (w : writer_pc) :
  w ∈ l ++ from_option (fun w => [w]) [] pc' ++ k -> w ∈ l ++ pc :: k \/ pc' = Some w.
Proof.
  rewrite !elem_of_app, elem_of_cons. destruct pc' as [w'|]; cbn; [rewrite list_elem_of_singleton|].
  - intros [?|[->|?]]; auto.
  - intros [?|[?%elem_of_nil|?]]; [auto|done|auto].
Qed.

Lemma fifo_step s s' : fifo s -> pstep s s' -> fifo s'.
Proof.
  intros F Hst. pose proof F as [A B C D E].
  destruct Hst as [s Hr|s p pc Hr Hp|s r Hr|s Hr Hs|s Hr Hd|s mb Hm|s l k mb p pc Hw Hp|s l k err Hw|s l k mb Hw Hs
    |s l k mb Hw Hd|s|s].
  - rewrite Hr in A. by split.
  - rewrite Hr in A. cbn in A.
    destruct (read_round_spec _ _ _ Hp) as [[-> [(err & -> & He)|(-> & Hd & Ho)]]|(mb & Hd & -> & ->)].
    + by split.
    + by split.
    + rewrite Hd in A. cbn in A. split; cbn; try done.
      destruct B as [B|[_ B]]; [by left|congruence].
  - rewrite Hr in A. cbn in A. split; cbn; try done. rewrite read_data_app. unfold read_data at 2. cbn.
    by rewrite app_nil_r, <-app_assoc.
  - rewrite Hr in A. by split.
  - rewrite Hr in A. by split.
  - split; cbn; try done. intros mb' [H|H]; apply elem_of_cons in H as [[= ->]|H]; auto.
  - assert (WTry mb ∈ s_writers s) as Hin by (rewrite Hw; in_list).
    pose proof (D mb (or_introl Hin)) as Hne.
    assert (forall mb', pc = Some (WTry mb') \/ pc = Some (WWait mb') -> mb_IsEmpty mb' = false) as Hpc.
    { intros mb' Hmb. destruct (write_round_spec _ _ _ _ Hp) as [(_ & _ & -> & _)|(_ & _ & [(_ & _ & [-> | ->])|(_ & err & ->)])];
        destruct Hmb as [[= <-]|[= <-]]; done. }
    assert (forall mb', WTry mb' ∈ l ++ from_option (fun w => [w]) [] pc ++ k \/
      WWait mb' ∈ l ++ from_option (fun w => [w]) [] pc ++ k -> mb_IsEmpty mb' = false) as HD.
    { intros mb' [H|H]; (apply (writers_moved _ _ (WTry mb)) in H as [H|H]; [rewrite <-Hw in H|]); auto. }
    destruct (write_round_spec _ _ _ _ Hp) as [(Ho & Ha & -> & ->)|(-> & Ha & _)]; rewrite Ha.
    + destruct B as [B|[B _]]; [|congruence]. split; cbn; try done.
      * rewrite concat_app, A, B. cbn. rewrite !app_nil_r, <-!app_assoc. done.
      * by left.
      * intros mb' [= <-]. rewrite mb_IsEmpty_app, Hne. apply andb_false_r.
    + rewrite app_nil_r. by split.
  - split; cbn; try done. intros mb' H. apply D. rewrite Hw. in_list.
  - split; cbn; try done. intros mb' H. rewrite Hw in D.
    destruct H as [H|H]; apply elem_of_app in H as [H|H]; [|apply elem_of_cons in H as [[= ->]|H]| |apply elem_of_cons in H as [[=]|H]];
      apply D; in_list.
  - split; cbn; try done. intros mb' H. apply D. rewrite Hw. in_list.
  - unfold Close. destruct (p_state (s_pipe s)) eqn:Es; [|by split; cbn; rewrite ?Es..].
    split; cbn; try done. destruct B as [B|[B _]]; [by left|congruence].
  - unfold Interrupt, lost_by. destruct (p_data (s_pipe s)) as [mb|] eqn:Ed; cbn [from_option].
    + rewrite (C mb eq_refl). cbn [negb default]. destruct B as [B|[_ B]]; [|done].
      destruct (p_state (s_pipe s)) eqn:Es; cbn [p_state]; split; cbn; try done; rewrite ?A, ?B; cbn;
        rewrite ?app_nil_r; try done; (try by right); intros _; by apply E.
    + cbn [negb]. rewrite app_nil_r. destruct (p_state (s_pipe s)) eqn:Es; split; cbn; rewrite ?Ed, ?Es; try done.
      destruct B as [B|[B _]]; [by left|congruence].
Qed.

(** ** Wake-ups *)

Lemma other_stays (w w' : writer_pc) l mid k : w ∈ l ++ w' :: k -> w ≠ w' -> w ∈ l ++ mid ++ k.
Proof. in_list. Qed.

Record wakes (s : system) : Prop := {
  wakes_reader :
    s_reader s = RWait -> p_data (s_pipe s) ≠ None ->
    p_readSignal (s_pipe s) = true \/ exists err, WSignal err ∈ s_writers s;
  wakes_writer :
    forall mb, WWait mb ∈ s_writers s -> p_state (s_pipe s) = open ->
    p_data (s_pipe s) ≠ None \/ p_writeSignal (s_pipe s) = true \/ (exists r, s_reader s = RSignal r) \/
    (exists mb', WTry mb' ∈ s_writers s)
}.

Lemma wakes_step s s' : wakes s -> pstep s s' -> wakes s'.
Proof.
  intros [A B] Hst.
  destruct Hst as [s Hr|s p pc Hr Hp|s r Hr|s Hr Hs|s Hr Hd|s mb Hm|s l k mb p pc Hw Hp|s l k err Hw|s l k mb Hw Hs
    |s l k mb Hw Hd|s|s].
  - split; cbn; [done|]. intros mb H Ho. rewrite Hr in B.
    destruct (B mb H Ho) as [?|[?|[[r ?]|?]]]; [auto..|done|auto].
  - destruct (read_round_spec _ _ _ Hp) as [[-> [(err & -> & He)|(-> & Hd & Ho)]]|(mb & Hd & -> & ->)]; split; cbn; try done.
    + intros mb H Ho'. destruct (B mb H Ho') as [?|[?|[[r ?]|?]]]; [done|auto|congruence|auto].
    + intros mb' H Ho'. right. right. left. eauto.
  - split; cbn; [done|]. auto.
  - split; cbn; [done|]. intros mb H Ho. rewrite Hr in B. destruct (B mb H Ho) as [?|[?|[[r ?]|?]]]; [auto..|done|auto].
  - split; cbn; [done|]. intros mb H Ho. rewrite Hr in B. destruct (B mb H Ho) as [?|[?|[[r ?]|?]]]; [auto..|done|auto].
  - split; cbn.
    + intros Hr Hd. destruct (A Hr Hd) as [?|[err He]]; [auto|]. right. exists err. in_list.
    + intros mb' H Ho. right. right. right. exists mb. in_list.
  - destruct (write_round_spec _ _ _ _ Hp) as [(Ho & Ha & -> & ->)|(-> & Ha & Hcase)]; split; cbn.
    + intros _ _. right. exists None. in_list.
    + auto.
    + intros Hr Hd. destruct (A Hr Hd) as [?|[err He]]; [auto|]. right. exists err. rewrite Hw in He. by eapply other_stays.
    + intros mb' H Ho. destruct Hcase as [(_ & Hd & _)|(Hn & _)]; [auto|done].
  - split; cbn; [auto|]. intros mb H Ho. destruct (B mb) as [?|[?|[?|[mb' H']]]]; [|done|auto..|].
    + rewrite Hw. in_list.
    + right. right. right. exists mb'. rewrite Hw in H'.
      by eapply (other_stays _ _ _ []) in H'.
  - split; cbn.
    + intros Hr Hd. destruct (A Hr Hd) as [?|[err He]]; [auto|]. right. exists err. rewrite Hw in He.
      by eapply (other_stays _ _ _ [WTry mb]) in He.
    + intros mb' H Ho. right. right. right. exists mb. in_list.
  - split; cbn.
    + intros Hr Hd'. destruct (A Hr Hd') as [?|[err He]]; [auto|]. right. exists err. rewrite Hw in He.
      by eapply (other_stays _ _ _ []) in He.
    + intros mb' H Ho. destruct (B mb') as [?|[?|[?|[mb'' H']]]]; [|done|auto..|].
      * rewrite Hw. in_list.
      * right. right. right. exists mb''. rewrite Hw in H'.
        by eapply (other_stays _ _ _ []) in H'.
  - unfold Close. destruct (p_state (s_pipe s)) eqn:Es; split; cbn; try done; rewrite ?Es; done.
  - unfold Interrupt. destruct (negb _); cbn [p_state];
      destruct (p_state (s_pipe s)) eqn:Es; split; cbn; try done; rewrite ?Es; done.
Qed.

Lemma start_ok limit discard : fifo (start (New limit discard)) /\ wakes (start (New limit discard)).
Proof.
  split; split; cbn; try done; [by left|..].
  - intros mb [?%elem_of_nil|?%elem_of_nil]; done.
  - intros mb ?%elem_of_nil. done.
Qed.

Lemma reachable_ok limit discard s :
  rtc pstep (start (New limit discard)) s -> fifo s /\ wakes s.
Proof.
  intros Hr. pose proof (start_ok limit discard) as H0. remember (start _) as s0 eqn:E. clear E.
  induction Hr as [|s0 s1 s2 Hst _ IH]; [done|]. apply IH. destruct H0. split; [by eapply fifo_step|by eapply wakes_step].
Qed.

(** What the reads return are the buffers the writes put in, in order,
    nothing twice and nothing left out but what is still in the pipe or in
    the reader's hands; only an interrupt takes buffers out, and nothing goes
    in or comes out after it did. *)
Theorem pipe_fifo limit discard s :
  rtc pstep (start (New limit discard)) s ->
  concat (s_accepted s) =
    read_data (s_read s) ++ in_hand (s_reader s) ++ default [] (p_data (s_pipe s)) ++ s_lost s /\
  (s_lost s ≠ [] -> p_state (s_pipe s) = errord /\ p_data (s_pipe s) = None).
Proof.
  intros Hr. destruct (reachable_ok limit discard s Hr) as [[A B _ _ _] _]. split; [done|].
  intros Hl. by destruct B.
Qed.

(** No wake-up is lost.  A reader that waits while there is data has its
    token or a writer about to put it there; a writer that waits on an open
    pipe has data for the reader to take, its token, a reader about to put it
    there or another writer that will write; and when the pipe is no longer
    open, the channel that releases everybody is closed. *)
Theorem pipe_wakes limit discard s :
  rtc pstep (start (New limit discard)) s ->
  (s_reader s = RWait -> p_data (s_pipe s) ≠ None ->
    p_readSignal (s_pipe s) = true \/ exists err, WSignal err ∈ s_writers s) /\
  (forall mb, WWait mb ∈ s_writers s -> p_state (s_pipe s) = open ->
    p_data (s_pipe s) ≠ None \/ p_writeSignal (s_pipe s) = true \/ (exists r, s_reader s = RSignal r) \/
    (exists mb', WTry mb' ∈ s_writers s)) /\
  (p_state (s_pipe s) ≠ open -> p_done (s_pipe s) = true).
Proof.
  intros Hr. destruct (reachable_ok limit discard s Hr) as [F [A B]]. split_and!; [done|done|apply F].
Qed.

(** ** Runs *)

(** Buffers that pass from a writer to a reader that waited for them. *)
Definition waiting (limit : Z) (mb : MultiBuffer) : system :=
  mkSystem (with_data (Some mb) (New limit false)) RWait [WSignal None] [] [mb] [].
Definition passed (limit : Z) (mb : MultiBuffer) : system :=
  mkSystem (with_writeSignal true (New limit false)) RIdle [] [(Some mb, None)] [mb] [].

Lemma run_waiting limit mb :
  mb_IsEmpty mb = false -> 0 <= limit -> rtc pstep (start (New limit false)) (waiting limit mb).
Proof.
  intros Hmb Hl. assert (isFull (New limit false) 0 = false) as Hfull.
  { unfold isFull. cbn. apply andb_false_iff. right. by apply Z.ltb_ge. }
  eapply rtc_l; [by apply step_read|].
  eapply rtc_l; [by apply (step_read_try _ (New limit false) RWait)|].
  eapply rtc_l; [by apply (step_write _ mb)|].
  eapply rtc_l; [apply (step_write_try _ [] [] mb (with_data (Some mb) (New limit false)) (Some (WSignal None))); [done|]|].
  - unfold write_round, writeMultiBufferInternal, getState. cbn -[isFull New]. change (p_state _) with open.
    change (data_Len _) with 0. by rewrite Hfull.
  - unfold accepted_by, getState. cbn -[isFull New]. change (p_state _) with open. change (data_Len _) with 0.
    rewrite Hfull. apply rtc_refl.
Qed.

Lemma run_passed limit mb :
  mb_IsEmpty mb = false -> 0 <= limit -> rtc pstep (start (New limit false)) (passed limit mb).
Proof.
  intros Hmb Hl. etrans; [by apply run_waiting|].
  eapply rtc_l; [by apply (step_write_return _ [] [] None)|].
  eapply rtc_l; [by apply step_read_wake|].
  eapply rtc_l; [by eapply step_read_try|].
  eapply rtc_l; [by eapply step_read_return|]. apply rtc_refl.
Qed.

Definition demo_mb : MultiBuffer := [mkBuffer [7; 8; 9] 0 2].

Lemma pipe_fifo_witness :
  concat (s_accepted (passed 0 demo_mb)) = demo_mb /\
  (s_lost (passed 0 demo_mb) ≠ [] -> p_state (s_pipe (passed 0 demo_mb)) = errord /\ p_data (s_pipe (passed 0 demo_mb)) = None).
Proof.
  apply (pipe_fifo 0 false (passed 0 demo_mb)). apply run_passed; [reflexivity|apply Z.le_refl].
Defined.

Lemma pipe_wakes_witness :
  p_readSignal (s_pipe (waiting 0 demo_mb)) = true \/ exists err, WSignal err ∈ s_writers (waiting 0 demo_mb).
Proof.
  apply (pipe_wakes 0 false (waiting 0 demo_mb)).
  - apply run_waiting; [reflexivity|apply Z.le_refl].
  - reflexivity.
  - discriminate.
Defined.
