(* ===== verification/GoText.v ===== *)
(** * Text of the Go standard library

    The functions of strings, strconv, net/textproto and encoding/base64 that
    the XHTTP transport uses, on strings as lists of bytes, with their round
    trips. *)

From S2P Require Import Prelude.

Abbreviation text := (list Z).

(** ** strings *)

(** [strings.Split] by one byte: never empty. *)
Fixpoint split_on (sep : Z) (s : text) : list text :=
  match s with
  | [] => [[]]
  | c :: s =>
    if c =? sep then [] :: split_on sep s
    else match split_on sep s with [] => [[c]] | p :: ps => (c :: p) :: ps end
  end.

(** [strings.Cut] at one byte, without the answer whether it was found. *)
Fixpoint cut (sep : Z) (s : text) : text * text :=
  match s with
  | [] => ([], [])
  | c :: s => if c =? sep then ([], s) else let '(a, b) := cut sep s in (c :: a, b)
  end.

Definition HasPrefix (s prefix : text) : bool := bool_decide (take (length prefix) s = prefix).

Definition HasSuffix (s suffix : text) : bool := bool_decide (drop (length s - length suffix) s = suffix).

(** [strings.ToLower] of ASCII text, byte by byte. *)
Definition lower_byte (c : Z) : Z := if (65 <=? c) && (c <=? 90) then c + 32 else c.
Definition upper_byte (c : Z) : Z := if (97 <=? c) && (c <=? 122) then c - 32 else c.

(** [textproto.TrimString]. *)
Definition is_space (c : Z) : bool := (c =? 32) || (c =? 9) || (c =? 10) || (c =? 13).

Fixpoint trim_left (s : text) : text :=
  match s with
  | [] => []
  | c :: s' => if is_space c then trim_left s' else s
  end.

Definition TrimString (s : text) : text := reverse (trim_left (reverse (trim_left s))).

(** ** strconv *)

(** The decimal digits of a number of at most [fuel] digits. *)
Fixpoint digits (fuel : nat) (n : Z) : text :=
  match fuel with
  | O => []
  | S fuel => if n <? 10 then [48 + n] else digits fuel (n / 10) ++ [48 + n mod 10]
  end.

(** [strconv.FormatInt] in base 10, of a number that is not negative; a 64-bit
    number has at most 20 digits. *)
Definition FormatInt (n : Z) : text := digits 20 n.

Definition is_digit (c : Z) : bool := (48 <=? c) && (c <=? 57).

Fixpoint parse_digits (acc : Z) (s : text) : option Z :=
  match s with
  | [] => Some acc
  | c :: s =>
    if is_digit c then
      let n := acc * 10 + (c - 48) in
      if 2 ^ 64 <=? n then None else parse_digits n s
    else None
  end.

(** [strconv.ParseUint] in base 10 and 64 bits. *)
Definition ParseUint (s : text) : option Z :=
  match s with [] => None | _ => parse_digits 0 s end.

(** ** encoding/base64, [RawURLEncoding] *)

Definition b64_char (i : Z) : Z :=
  if i <? 26 then 65 + i
  else if i <? 52 then 97 + (i - 26)
  else if i <? 62 then 48 + (i - 52)
  else if i =? 62 then 45 else 95.

Definition b64_value (c : Z) : option Z :=
  if (65 <=? c) && (c <=? 90) then Some (c - 65)
  else if (97 <=? c) && (c <=? 122) then Some (c - 97 + 26)
  else if is_digit c then Some (c - 48 + 52)
  else if c =? 45 then Some 62
  else if c =? 95 then Some 63
  else None.

(** Three bytes at a time; the last one or two make two or three characters. *)
Fixpoint EncodeToString (bs : list Z) : text :=
  match bs with
  | [] => []
  | [a] => [b64_char (a / 4); b64_char (a mod 4 * 16)]
  | [a; b] => [b64_char (a / 4); b64_char (a mod 4 * 16 + b / 16); b64_char (b mod 16 * 4)]
  | a :: b :: c :: bs =>
    [b64_char (a / 4); b64_char (a mod 4 * 16 + b / 16); b64_char (b mod 16 * 4 + c / 64); b64_char (c mod 64)]
      ++ EncodeToString bs
  end.

(** The values of the characters; the bits that are left over are ignored. *)
Fixpoint decode_values (vs : list Z) : option (list Z) :=
  match vs with
  | [] => Some []
  | [_] => None
  | [v; w] => Some [v * 4 + w / 16]
  | [v; w; x] => Some [v * 4 + w / 16; w mod 16 * 16 + x / 4]
  | v :: w :: x :: y :: vs =>
    bs ← decode_values vs;
    Some (v * 4 + w / 16 :: w mod 16 * 16 + x / 4 :: x mod 4 * 64 + y :: bs)
  end.

(** Line breaks are skipped; any other character that is not of the alphabet
    is an error. *)
Definition DecodeString (s : text) : option (list Z) :=
  vs ← mapM b64_value (filter (fun c => c ≠ 10 /\ c ≠ 13) s);
  decode_values vs.

(** ** Lemmas *)

Lemma split_on_absent sep s : sep ∉ s -> split_on sep s = [s].
Proof.
  induction s as [|c s IH]; intros Hs; cbn; [done|]. apply not_elem_of_cons in Hs as [Hc Hs].
  destruct (Z.eqb_spec c sep); [congruence|]. by rewrite IH.
Qed.

Lemma split_on_app sep a b : sep ∉ a -> split_on sep (a ++ sep :: b) = a :: split_on sep b.
Proof.
  induction a as [|c a IH]; intros Ha; cbn.
  - by rewrite Z.eqb_refl.
  - apply not_elem_of_cons in Ha as [Hc Ha]. destruct (Z.eqb_spec c sep); [congruence|]. by rewrite IH.
Qed.

Lemma cut_app sep a b : sep ∉ a -> cut sep (a ++ sep :: b) = (a, b).
Proof.
  induction a as [|c a IH]; intros Ha; cbn.
  - by rewrite Z.eqb_refl.
  - apply not_elem_of_cons in Ha as [Hc Ha]. destruct (Z.eqb_spec c sep); [congruence|]. by rewrite IH.
Qed.

Lemma cut_absent sep a : sep ∉ a -> cut sep a = (a, []).
Proof.
  induction a as [|c a IH]; intros Ha; cbn; [done|].
  apply not_elem_of_cons in Ha as [Hc Ha]. destruct (Z.eqb_spec c sep); [congruence|]. by rewrite IH.
Qed.

Lemma HasPrefix_app p s : HasPrefix (p ++ s) p = true.
Proof. unfold HasPrefix. rewrite take_app_length. by apply bool_decide_true. Qed.

Lemma HasSuffix_app p s : HasSuffix (p ++ s) s = true.
Proof.
  unfold HasSuffix. rewrite length_app, Nat.add_sub, drop_app_length. by apply bool_decide_true.
Qed.

(** Text without white space at its ends is not trimmed. *)
Lemma TrimString_id s :
  (forall c, head s = Some c -> is_space c = false) -> (forall c, last s = Some c -> is_space c = false) ->
  TrimString s = s.
Proof.
  assert (forall l, (forall c, head l = Some c -> is_space c = false) -> trim_left l = l) as Hl.
  { intros [|c l] H; [done|]. cbn. by rewrite (H c). }
  intros Hh Ht. unfold TrimString. rewrite (Hl s Hh), Hl, reverse_involutive; [done|].
  intros c. rewrite head_reverse. apply Ht.
Qed.

Lemma parse_digits_app acc a b :
  parse_digits acc (a ++ b) = n ← parse_digits acc a; parse_digits n b.
Proof.
  revert acc. induction a as [|c a IH]; intros acc; cbn; [done|].
  destruct (is_digit c); [|done]. destruct (_ <=? _); [done|]. apply IH.
Qed.

Lemma digit_value d : 0 <= d < 10 -> is_digit (48 + d) = true /\ 48 + d - 48 = d.
Proof. intros. unfold is_digit. rewrite andb_true_iff, !Z.leb_le. lia. Qed.

Lemma parse_digit acc d :
  0 <= d < 10 -> acc * 10 + d < 2 ^ 64 -> parse_digits acc [48 + d] = Some (acc * 10 + d).
Proof.
  intros Hd Hz. destruct (digit_value d Hd) as [H1 H2]. cbn [parse_digits]. rewrite H1, H2.
  destruct (Z.leb_spec (2 ^ 64) (acc * 10 + d)); [lia|done].
Qed.

Lemma parse_digits_digits fuel n :
  0 <= n < 2 ^ 64 -> n < 10 ^ Z.of_nat fuel -> parse_digits 0 (digits fuel n) = Some n.
Proof.
  revert n. induction fuel as [|fuel IH]; intros n Hn Hf.
  - cbn in Hf. assert (n = 0) as -> by lia. done.
  - cbn [digits]. destruct (Z.ltb_spec n 10).
    + rewrite (parse_digit 0 n); [done|lia|lia].
    + pose proof (Z.div_mod n 10 ltac:(lia)). pose proof (Z.mod_pos_bound n 10 ltac:(lia)).
      rewrite Nat2Z.inj_succ, Z.pow_succ_r in Hf by lia.
      rewrite parse_digits_app, IH.
      * cbn [mbind option_bind]. rewrite parse_digit by lia. f_equal. lia.
      * split; [apply Z.div_pos; lia|]. apply Z.div_lt_upper_bound; lia.
      * apply Z.div_lt_upper_bound; lia.
Qed.

Lemma digits_nonempty fuel n : fuel ≠ 0%nat -> digits fuel n ≠ [].
Proof. destruct fuel; [done|]. intros _. cbn. destruct (_ <? _); [done|]. by destruct (digits fuel _). Qed.

(** A 64-bit number is read back from its digits. *)
Lemma ParseUint_FormatInt n : 0 <= n < 2 ^ 64 -> ParseUint (FormatInt n) = Some n.
Proof.
  intros Hn. unfold ParseUint, FormatInt.
  pose proof (digits_nonempty 20 n ltac:(done)). destruct (digits 20 n) as [|c s] eqn:E; [done|].
  rewrite <-E. apply parse_digits_digits; [done|]. cbn. lia.
Qed.

Lemma digits_are_digits fuel n : 0 <= n -> Forall (fun c => is_digit c = true) (digits fuel n).
Proof.
  revert n. induction fuel as [|fuel IH]; intros n Hn; cbn; [constructor|].
  destruct (Z.ltb_spec n 10).
  - constructor; [|done]. by apply digit_value.
  - apply Forall_app. split; [apply IH; apply Z.div_pos; lia|]. constructor; [|done].
    apply digit_value. apply Z.mod_pos_bound. lia.
Qed.

Lemma FormatInt_inj a b : 0 <= a < 2 ^ 64 -> 0 <= b < 2 ^ 64 -> FormatInt a = FormatInt b -> a = b.
Proof.
  intros Ha Hb E. apply (f_equal ParseUint) in E. rewrite !ParseUint_FormatInt in E by done. congruence.
Qed.

(** A character of the alphabet of base64. *)
Definition is_b64 (c : Z) : bool := bool_decide (is_Some (b64_value c)).

Lemma b64_values_check :
  forallb (fun i => bool_decide (b64_value (b64_char (Z.of_nat i)) = Some (Z.of_nat i))) (seq 0 64) = true.
Proof. by vm_compute. Qed.

Lemma b64_value_char i : 0 <= i < 64 -> b64_value (b64_char i) = Some i.
Proof.
  intros Hi. pose proof b64_values_check as H. rewrite forallb_forall in H.
  specialize (H (Z.to_nat i)). rewrite bool_decide_eq_true, Z2Nat.id in H by lia.
  apply H, in_seq. lia.
Qed.

Lemma b64_char_is i : 0 <= i < 64 -> is_b64 (b64_char i) = true.
Proof. intros Hi. unfold is_b64. rewrite b64_value_char by done. by apply bool_decide_true. Qed.

(** Induction on bytes three at a time. *)
Lemma triples_ind (P : list Z -> Prop) :
  P [] -> (forall a, P [a]) -> (forall a b, P [a; b]) -> (forall a b c l, P l -> P (a :: b :: c :: l)) ->
  forall l, P l.
Proof.
  intros H0 H1 H2 H3. fix IH 1. intros [|a [|b [|c l]]]; [apply H0|apply H1|apply H2|apply H3, IH].
Qed.

(** The values of the characters of an encoding. *)
Fixpoint encoded_values (bs : list Z) : list Z :=
  match bs with
  | [] => []
  | [a] => [a / 4; a mod 4 * 16]
  | [a; b] => [a / 4; a mod 4 * 16 + b / 16; b mod 16 * 4]
  | a :: b :: c :: bs =>
    [a / 4; a mod 4 * 16 + b / 16; b mod 16 * 4 + c / 64; c mod 64] ++ encoded_values bs
  end.

Lemma EncodeToString_values bs : EncodeToString bs = map b64_char (encoded_values bs).
Proof.
  induction bs as [|a|a b|a b c bs IH] using triples_ind; [done..|].
  cbn [EncodeToString encoded_values]. by rewrite IH, map_app.
Qed.

Lemma byte_quot a k m : 0 < k -> 0 <= a < k * m -> 0 <= a / k < m.
Proof. intros Hk Ha. split; [apply Z.div_pos; lia|]. apply Z.div_lt_upper_bound; lia. Qed.

Lemma encoded_values_range bs : is_bytes bs -> Forall (fun v => 0 <= v < 64) (encoded_values bs).
Proof.
  unfold is_bytes, is_u8. change (2 ^ 8) with 256.
  induction bs as [|a|a b|a b c bs IH] using triples_ind; intros H; cbn [encoded_values]; [constructor|..];
    repeat (apply Forall_cons in H as [? H]);
    repeat match goal with
    | x : Z, Hx : 0 <= ?x < 256 |- _ =>
      pose proof (byte_quot x 4 64 ltac:(lia) ltac:(lia)); pose proof (byte_quot x 16 16 ltac:(lia) ltac:(lia));
      pose proof (byte_quot x 64 4 ltac:(lia) ltac:(lia));
      pose proof (Z.mod_pos_bound x 4 ltac:(lia)); pose proof (Z.mod_pos_bound x 16 ltac:(lia));
      pose proof (Z.mod_pos_bound x 64 ltac:(lia)); revert Hx
    end; intros; cbn [app]; repeat (constructor; [lia|]); auto.
Qed.

Lemma decode_encoded bs : is_bytes bs -> decode_values (encoded_values bs) = Some bs.
Proof.
  unfold is_bytes, is_u8. change (2 ^ 8) with 256.
  assert (forall a b, (a mod 4 * 16 + b / 16) / 16 = a mod 4 + b / 16 / 16) as E1
    by (intros; rewrite Z.add_comm, Z.div_add by lia; lia).
  assert (forall a b, (a mod 16 * 4 + b / 64) / 4 = a mod 16 + b / 64 / 4) as E2
    by (intros; rewrite Z.add_comm, Z.div_add by lia; lia).
  assert (forall a b, (a mod 4 * 16 + b / 16) mod 16 = b / 16 mod 16) as E3
    by (intros; rewrite Z.add_comm, Z.mod_add by lia; done).
  assert (forall a b, (a mod 16 * 4 + b / 64) mod 4 = b / 64 mod 4) as E4
    by (intros; rewrite Z.add_comm, Z.mod_add by lia; done).
  assert (forall a, 0 <= a < 256 -> a / 16 / 16 = 0 /\ a / 64 / 4 = 0 /\ a / 16 mod 16 = a / 16 /\ a / 64 mod 4 = a / 64) as E5.
  { intros a Ha. pose proof (byte_quot a 16 16 ltac:(lia) ltac:(lia)). pose proof (byte_quot a 64 4 ltac:(lia) ltac:(lia)).
    split_and!; [by apply Z.div_small|by apply Z.div_small|by apply Z.mod_small|by apply Z.mod_small]. }
  assert (forall a, a / 4 * 4 + a mod 4 = a /\ a / 16 * 16 + a mod 16 = a /\ a / 64 * 64 + a mod 64 = a) as E6.
  { intros a. pose proof (Z.div_mod a 4). pose proof (Z.div_mod a 16). pose proof (Z.div_mod a 64). lia. }
  induction bs as [|a|a b|a b c bs IH] using triples_ind; intros H; cbn [encoded_values decode_values app]; [done|..];
    repeat (apply Forall_cons in H as [? H]).
  - rewrite Z.div_mul by lia. f_equal. f_equal. destruct (E6 a). lia.
  - rewrite E1, E3, Z.div_mul by lia.
    destruct (E5 b) as (-> & _ & -> & _); [done|]. destruct (E6 a) as (? & _), (E6 b) as (_ & ? & _).
    f_equal. f_equal; [lia|]. f_equal. lia.
  - rewrite (IH H). cbn [mbind option_bind]. rewrite E1, E2, E3, E4.
    destruct (E5 b) as (-> & _ & -> & _); [done|]. destruct (E5 c) as (_ & -> & _ & ->); [done|].
    destruct (E6 a) as (? & _), (E6 b) as (_ & ? & _), (E6 c) as (_ & _ & ?).
    f_equal. f_equal; [lia|]. f_equal; [lia|]. f_equal. lia.
Qed.

Lemma b64_no_break c : is_b64 c = true -> c ≠ 10 /\ c ≠ 13.
Proof. intros H. split; intros ->; by vm_compute in H. Qed.

Lemma EncodeToString_chars bs : is_bytes bs -> Forall (fun c => is_b64 c = true) (EncodeToString bs).
Proof.
  intros H%encoded_values_range. rewrite EncodeToString_values. apply Forall_map.
  eapply Forall_impl; [done|]. intros v Hv. by apply b64_char_is.
Qed.

(** Bytes are read back from their encoding. *)
Lemma Decode_Encode bs : is_bytes bs -> DecodeString (EncodeToString bs) = Some bs.
Proof.
  intros H. unfold DecodeString. rewrite filter_keeps.
  - rewrite EncodeToString_values.
    assert (mapM b64_value (map b64_char (encoded_values bs)) = Some (encoded_values bs)) as ->.
    { pose proof (encoded_values_range bs H) as Hr. induction Hr as [|v vs Hv _ IH]; [done|].
      cbn [map mapM]. by rewrite b64_value_char, IH. }
    cbn [mbind option_bind]. by apply decode_encoded.
  - eapply Forall_impl; [by apply EncodeToString_chars|]. intros c Hc. by apply b64_no_break.
Qed.

Lemma HasPrefix_spec s prefix : HasPrefix s prefix = true -> exists rest, s = prefix ++ rest.
Proof.
  unfold HasPrefix. intros H%bool_decide_eq_true. exists (drop (length prefix) s). rewrite <-H at 1. by rewrite take_drop.
Qed.

Lemma parse_digits_range acc s n : 0 <= acc < 2 ^ 64 -> parse_digits acc s = Some n -> 0 <= n < 2 ^ 64.
Proof.
  revert acc. induction s as [|c s IH]; intros acc Ha; cbn [parse_digits]; [by intros [= <-]|].
  destruct (is_digit c) eqn:Ed; [|done]. destruct (Z.leb_spec (2 ^ 64) (acc * 10 + (c - 48))) as [|Hlt]; [done|].
  apply IH. unfold is_digit in Ed. apply andb_true_iff in Ed as [Ed _]. apply Z.leb_le in Ed. lia.
Qed.

Lemma ParseUint_range s n : ParseUint s = Some n -> 0 <= n < 2 ^ 64.
Proof. unfold ParseUint. destruct s; [done|]. by apply parse_digits_range. Qed.
