(* ===== verification/GoHttp.v ===== *)
(** * Headers and cookies of Go's net/http, queries of net/url

    [http.Header] with its canonical keys, [Request.AddCookie] and
    [Request.Cookie], and the parsing of queries, as the XHTTP transport uses
    them: what is set is read back. *)

From S2P Require Import Prelude GoText.

(** A character of a token (RFC 7230). *)
Definition is_token_byte (c : Z) : bool :=
  ((65 <=? c) && (c <=? 90)) || ((97 <=? c) && (c <=? 122)) || is_digit c ||
  bool_decide (c ∈ [33; 35; 36; 37; 38; 39; 42; 43; 45; 46; 94; 95; 96; 124; 126]).

Definition isToken (s : text) : bool := negb (bool_decide (s = [])) && forallb is_token_byte s.

(** ** Header *)

Abbreviation Header := (gmap text (list text)).

Fixpoint canon_loop (upper : bool) (s : text) : text :=
  match s with
  | [] => []
  | c :: s =>
    let c := if upper then upper_byte c else lower_byte c in
    c :: canon_loop (c =? 45) s
  end.

(** [textproto.CanonicalMIMEHeaderKey]. *)
Definition CanonicalHeaderKey (s : text) : text :=
  if forallb is_token_byte s then canon_loop true s else s.

Definition header_Values (h : Header) (key : text) : list text := default [] (h !! CanonicalHeaderKey key).

Definition header_Get (h : Header) (key : text) : text := default [] (head (header_Values h key)).

Definition header_Set (h : Header) (key value : text) : Header := <[CanonicalHeaderKey key := [value]]> h.

Definition header_Add (h : Header) (key value : text) : Header :=
  <[CanonicalHeaderKey key := header_Values h key ++ [value]]> h.

(** ** Cookies *)

Definition validCookieValueByte (b : Z) : bool :=
  (0x20 <=? b) && (b <? 0x7f) && negb (b =? 34) && negb (b =? 59) && negb (b =? 92).

Definition sanitizeCookieName (n : text) : text := map (fun c => if (c =? 10) || (c =? 13) then 45 else c) n.

Definition sanitizeCookieValue (v : text) : text :=
  let v := filter (fun b => validCookieValueByte b = true) v in
  if bool_decide (v = []) then v
  else if existsb (fun b => (b =? 32) || (b =? 44)) v then 34 :: v ++ [34] else v.

Definition cookie_key : text := bytes_of "Cookie".

Definition AddCookie (h : Header) (name value : text) : Header :=
  let s := sanitizeCookieName name ++ 61 :: sanitizeCookieValue value in
  match header_Get h cookie_key with
  | [] => header_Set h cookie_key s
  | c => header_Set h cookie_key (c ++ [59; 32] ++ s)
  end.

Definition parseCookieValue (raw : text) : option text :=
  let raw :=
    if (1 <? length raw)%nat && bool_decide (head raw = Some 34) && bool_decide (last raw = Some 34)
    then take (length raw - 2) (drop 1 raw) else raw in
  if forallb validCookieValueByte raw then Some raw else None.

(** One part of a cookie line: its name and value. *)
Definition parse_part (part : text) : option (text * text) :=
  let part := TrimString part in
  if bool_decide (part = []) then None else
  let '(name, val) := cut 61 part in
  let name := TrimString name in
  if isToken name then val ← parseCookieValue val; Some (name, val) else None.

Definition readCookies (h : Header) : list (text * text) :=
  concat (map (fun line => omap parse_part (split_on 59 (TrimString line))) (default [] (h !! cookie_key))).

(** [Request.Cookie]: the first cookie with the name. *)
Definition Cookie (h : Header) (name : text) : option text :=
  if bool_decide (name = []) then None
  else snd <$> head (filter (fun c => c.1 = name) (readCookies h)).

(** ** Queries *)

Abbreviation Values := (gmap text (list text)).

Definition unhex (c : Z) : option Z :=
  if is_digit c then Some (c - 48)
  else if (97 <=? c) && (c <=? 102) then Some (c - 87)
  else if (65 <=? c) && (c <=? 70) then Some (c - 55)
  else None.

(** [url.QueryUnescape]. *)
Fixpoint QueryUnescape (s : text) : option text :=
  match s with
  | [] => Some []
  | c :: s =>
    if c =? 37 then
      match s with
      | a :: b :: s => x ← unhex a; y ← unhex b; t ← QueryUnescape s; Some (16 * x + y :: t)
      | _ => None
      end
    else t ← QueryUnescape s; Some ((if c =? 43 then 32 else c) :: t)
  end.

(** One part of a query; a malformed one is left out. *)
Definition add_parameter (q : Values) (part : text) : Values :=
  if bool_decide (59 ∈ part) || bool_decide (part = []) then q else
  let '(key, value) := cut 61 part in
  match QueryUnescape key, QueryUnescape value with
  | Some key, Some value => <[key := default [] (q !! key) ++ [value]]> q
  | _, _ => q
  end.

(** [URL.Query], of the raw query. *)
Definition parse_query (query : text) : Values := foldl add_parameter ∅ (split_on 38 query).

(** A key that a query can have as it is: a token without the characters
    [#], [%], [&] and [+]. *)
Definition is_query_key (key : text) : bool :=
  isToken key && forallb (fun c => negb (bool_decide (c ∈ [35; 37; 38; 43]))) key.

(** Letters and digits. *)
Definition is_alnum (c : Z) : bool := is_digit c || ((65 <=? c) && (c <=? 90)) || ((97 <=? c) && (c <=? 122)).

(** ** Header lemmas *)

Lemma lower_upper c : lower_byte (upper_byte c) = lower_byte c.
Proof.
  unfold lower_byte, upper_byte.
  destruct ((97 <=? c) && (c <=? 122)) eqn:E; [|done]. rewrite andb_true_iff, !Z.leb_le in E.
  rewrite (proj2 (Z.leb_le 65 (c - 32))), (proj2 (Z.leb_le (c - 32) 90)) by lia. cbn [andb].
  destruct (Z.leb_spec 65 c); destruct (Z.leb_spec c 90); cbn [andb]; lia.
Qed.

Lemma lower_lower c : lower_byte (lower_byte c) = lower_byte c.
Proof.
  unfold lower_byte at 2 3. destruct ((65 <=? c) && (c <=? 90)) eqn:E.
  - rewrite andb_true_iff, !Z.leb_le in E. unfold lower_byte.
    rewrite (proj2 (Z.leb_gt (c + 32) 90)) by lia. by rewrite andb_false_r.
  - unfold lower_byte. by rewrite E.
Qed.

Lemma canon_loop_lower u s : map lower_byte (canon_loop u s) = map lower_byte s.
Proof.
  revert u. induction s as [|c s IH]; intros u; cbn; [done|]. rewrite IH. f_equal.
  destruct u; [apply lower_upper|apply lower_lower].
Qed.

(** Keys that have the same canonical form differ in case only. *)
Lemma canon_lower a b :
  CanonicalHeaderKey a = CanonicalHeaderKey b -> map lower_byte a = map lower_byte b.
Proof.
  assert (forall s, map lower_byte (CanonicalHeaderKey s) = map lower_byte s) as H.
  { intros s. unfold CanonicalHeaderKey. destruct (forallb _ s); [apply canon_loop_lower|done]. }
  intros E. by rewrite <-(H a), <-(H b), E.
Qed.

Lemma header_Get_Set h k v k' :
  header_Get (header_Set h k v) k' =
  if decide (CanonicalHeaderKey k = CanonicalHeaderKey k') then v else header_Get h k'.
Proof.
  unfold header_Get, header_Values, header_Set.
  destruct (decide _) as [->|]; [by rewrite lookup_insert_eq|by rewrite lookup_insert_ne].
Qed.

Lemma header_Get_lookup h h' k :
  h !! CanonicalHeaderKey k = h' !! CanonicalHeaderKey k -> header_Get h k = header_Get h' k.
Proof. unfold header_Get, header_Values. by intros ->. Qed.

(** ** Cookie lemmas *)

(** A cookie that is sent unchanged. *)
Definition plain_cookie (c : text * text) : Prop :=
  isToken c.1 = true /\ Forall (fun b => validCookieValueByte b = true) c.2.

Definition enc_cookie (c : text * text) : text := c.1 ++ 61 :: sanitizeCookieValue c.2.

Fixpoint cookie_line (cs : list (text * text)) : text :=
  match cs with
  | [] => []
  | [c] => enc_cookie c
  | c :: cs => enc_cookie c ++ [59; 32] ++ cookie_line cs
  end.

(** The header holds exactly the given cookies. *)
Definition has_cookies (h : Header) (cs : list (text * text)) : Prop :=
  h !! cookie_key = match cs with [] => None | _ => Some [cookie_line cs] end.

Lemma canon_cookie_key : CanonicalHeaderKey cookie_key = cookie_key.
Proof. by vm_compute. Qed.

Lemma filter_valid v : Forall (fun b => validCookieValueByte b = true) v ->
  filter (fun b => validCookieValueByte b = true) v = v.
Proof. apply filter_keeps. Qed.

Lemma cookie_line_snoc cs c :
  cs ≠ [] -> cookie_line (cs ++ [c]) = cookie_line cs ++ [59; 32] ++ enc_cookie c.
Proof.
  induction cs as [|d cs IH]; [done|]. intros _. destruct cs as [|e cs]; [done|].
  change (cookie_line ((d :: e :: cs) ++ [c])) with (enc_cookie d ++ [59; 32] ++ cookie_line ((e :: cs) ++ [c])).
  rewrite IH by done. cbn [cookie_line]. by rewrite <-!app_assoc.
Qed.

Lemma token_byte_spec c : is_token_byte c = true -> is_space c = false /\ c ≠ 59 /\ c ≠ 61 /\ c ≠ 10 /\ c ≠ 13 /\ c ≠ 32.
Proof.
  intros H. split; [unfold is_space; rewrite !orb_false_iff, !Z.eqb_neq|]; split_and!; intros ->; by vm_compute in H.
Qed.

Lemma valid_value_spec c : validCookieValueByte c = true -> c ≠ 59 /\ c ≠ 34 /\ c ≠ 9 /\ c ≠ 10 /\ c ≠ 13.
Proof. intros H. split_and!; intros ->; by vm_compute in H. Qed.

Lemma isToken_spec n :
  isToken n = true -> exists c l, n = c :: l /\ Forall (fun c => is_token_byte c = true) (c :: l).
Proof.
  unfold isToken. rewrite andb_true_iff, negb_true_iff, bool_decide_eq_false, forallb_forall.
  intros [Hn Hf]. destruct n as [|c l]; [done|]. exists c, l. split; [done|].
  apply Forall_forall. intros x Hx. apply Hf. by apply list_elem_of_In.
Qed.

Lemma isToken_intro n : n ≠ [] -> Forall (fun c => is_token_byte c = true) n -> isToken n = true.
Proof.
  intros Hn Hf. unfold isToken. rewrite bool_decide_false by done. cbn [negb andb]. apply forallb_forall.
  intros x Hx. rewrite Forall_forall in Hf. apply Hf. by apply list_elem_of_In.
Qed.

(** The value as it is written: parsed back, without a semicolon, and without
    white space at its end. *)
Lemma cookie_value_back v :
  Forall (fun b => validCookieValueByte b = true) v ->
  parseCookieValue (sanitizeCookieValue v) = Some v /\ (59 ∉ sanitizeCookieValue v) /\
  (forall c, last (sanitizeCookieValue v) = Some c -> is_space c = false).
Proof.
  intros Hv. unfold sanitizeCookieValue. rewrite filter_valid by done.
  assert (forallb validCookieValueByte v = true) as Hb.
  { rewrite forallb_forall. intros x Hx. rewrite Forall_forall in Hv. apply Hv. by apply list_elem_of_In. }
  assert (59 ∉ v) as H59 by (intros H; rewrite Forall_forall in Hv; by apply Hv in H).
  destruct (bool_decide (v = [])) eqn:E.
  { apply bool_decide_eq_true in E. by subst. }
  destruct (existsb _ v) eqn:Es.
  - split_and!.
    + unfold parseCookieValue. rewrite (app_comm_cons v [34] 34), last_snoc.
      rewrite (proj2 (Nat.ltb_lt _ _)) by (rewrite length_app; cbn; lia). rewrite !bool_decide_true by done. cbn [andb].
      assert (take (length ((34 :: v) ++ [34]) - 2) (drop 1 ((34 :: v) ++ [34])) = v) as ->; [|by rewrite Hb].
      cbn [length drop app]. rewrite length_app. cbn [length].
      replace (S (length v + 1) - 2)%nat with (length v) by lia. apply take_app_length.
    + rewrite not_elem_of_cons, not_elem_of_app, list_elem_of_singleton. by split_and!.
    + intros c. rewrite (app_comm_cons v [34] 34), last_snoc. by intros [= <-].
  - split_and!; [|done|].
    + unfold parseCookieValue. destruct v as [|b v]; [done|].
      assert (b ≠ 34) as Hb34 by (apply Forall_cons in Hv as [Hv _]; by apply valid_value_spec in Hv as (_ & ? & _)).
      rewrite (bool_decide_false (head (b :: v) = Some 34)) by (cbn; congruence).
      rewrite andb_false_r. cbn [andb]. by rewrite Hb.
    + intros c Hc. apply last_Some_elem_of in Hc. rewrite Forall_forall in Hv. pose proof (Hv c Hc) as Hvc.
      apply valid_value_spec in Hvc as (_ & _ & H9 & H10 & H13).
      assert (c ≠ 32) as H32.
      { intros ->. enough (existsb (fun b => (b =? 32) || (b =? 44)) v = true) by congruence.
        apply existsb_exists. exists 32. split; [by apply list_elem_of_In|done]. }
      unfold is_space. rewrite !orb_false_iff, !Z.eqb_neq. done.
Qed.

Lemma parse_enc_cookie c :
  plain_cookie c -> parse_part (enc_cookie c) = Some c /\ parse_part (32 :: enc_cookie c) = Some c /\
  (59 ∉ enc_cookie c) /\ TrimString (enc_cookie c) = enc_cookie c.
Proof.
  intros [Hn Hv]. destruct (cookie_value_back c.2 Hv) as (Hp & H59 & Hl).
  destruct (isToken_spec _ Hn) as (b & l & En & Hf). destruct c as [n v]. cbn [fst snd] in *.
  assert (forall x, x ∈ n -> is_space x = false /\ x ≠ 59 /\ x ≠ 61) as Hx.
  { intros x Hx. rewrite En in Hx. rewrite Forall_forall in Hf. specialize (Hf x Hx).
    by apply token_byte_spec in Hf as (? & ? & ? & _). }
  assert (TrimString n = n) as Htn.
  { apply TrimString_id; intros x; [rewrite En; cbn; intros [= <-]|intros H%last_Some_elem_of]; apply Hx; [rewrite En; left|done]. }
  assert (TrimString (enc_cookie (n, v)) = enc_cookie (n, v)) as Ht.
  { unfold enc_cookie. cbn [fst snd]. apply TrimString_id; intros x.
    - rewrite En. cbn. intros [= <-]. apply Hx. rewrite En. left.
    - destruct (sanitizeCookieValue v) as [|w ws] eqn:Ew.
      + rewrite last_snoc. by intros [= <-].
      + rewrite last_app_cons, last_cons_cons. apply Hl. }
  assert (parse_part (enc_cookie (n, v)) = Some (n, v)) as Hpart.
  { unfold parse_part. rewrite Ht. unfold enc_cookie. cbn [fst snd].
    rewrite bool_decide_false by (by rewrite En). rewrite cut_app by (by intros (_ & _ & ?)%Hx).
    rewrite Htn, Hn, Hp. done. }
  split_and!; try done.
  unfold enc_cookie. cbn [fst snd]. rewrite not_elem_of_app, not_elem_of_cons. split_and!; [|done|done].
  by intros (_ & ? & _)%Hx.
Qed.

Lemma split_cookie_line c cs :
  Forall plain_cookie (c :: cs) ->
  split_on 59 (cookie_line (c :: cs)) = enc_cookie c :: map (fun c => 32 :: enc_cookie c) cs.
Proof.
  revert c. induction cs as [|d cs IH]; intros c H; apply Forall_cons in H as [Hc H].
  - apply split_on_absent. by apply parse_enc_cookie.
  - change (cookie_line (c :: d :: cs)) with (enc_cookie c ++ 59 :: 32 :: cookie_line (d :: cs)).
    rewrite split_on_app by (by apply parse_enc_cookie). f_equal.
    cbn [split_on]. change (32 =? 59) with false. cbn iota. by rewrite (IH d H).
Qed.

Lemma trim_cookie_line cs : Forall plain_cookie cs -> TrimString (cookie_line cs) = cookie_line cs.
Proof.
  intros H. destruct cs as [|c cs]; [done|].
  assert (forall c, plain_cookie c -> (forall x, head (enc_cookie c) = Some x -> is_space x = false) /\
    (forall x, last (enc_cookie c) = Some x -> is_space x = false) /\ enc_cookie c ≠ []) as Hends.
  { intros e [Hn Hv]. destruct (cookie_value_back e.2 Hv) as (_ & _ & Hl).
    destruct (isToken_spec _ Hn) as (b & l & En & Hf). unfold enc_cookie. rewrite En. split_and!; [| |done].
    - cbn. intros x [= <-]. apply Forall_cons in Hf as [Hf _]. by apply token_byte_spec in Hf as [? _].
    - intros x. destruct (sanitizeCookieValue e.2) as [|w ws].
      + rewrite last_snoc. by intros [= <-].
      + rewrite last_app_cons, last_cons_cons. apply Hl. }
  apply TrimString_id.
  - apply Forall_cons in H as [Hc _]. destruct (Hends c Hc) as (Hh & _ & Hne).
    intros x. destruct cs; cbn [cookie_line]; [apply Hh|].
    destruct (enc_cookie c) as [|y ys]; [done|]. cbn. apply Hh.
  - destruct (exists_last (l := c :: cs)) as (l & e & El); [done|]. rewrite El in *.
    apply Forall_app in H as [_ [He _]%Forall_cons]. destruct (Hends e He) as (_ & Hl & Hne).
    intros x. destruct l as [|d l]; [cbn; apply Hl|]. rewrite cookie_line_snoc by done.
    rewrite last_app. cbn [app last]. destruct (enc_cookie e) as [|y ys] eqn:Ee; [done|]. rewrite <-Ee in *.
    rewrite !last_cons. destruct (last (enc_cookie e)) eqn:El'; [|by rewrite last_None in El'; congruence].
    intros [= <-]. by apply Hl.
Qed.

Lemma readCookies_has h cs : has_cookies h cs -> Forall plain_cookie cs -> readCookies h = cs.
Proof.
  unfold has_cookies, readCookies. intros -> H. destruct cs as [|c cs]; [done|].
  change (default [] (Some [cookie_line (c :: cs)])) with [cookie_line (c :: cs)]. cbn [map concat].
  rewrite app_nil_r, trim_cookie_line, split_cookie_line by done.
  apply Forall_cons in H as [Hc H]. cbn [omap list_omap]. rewrite (proj1 (parse_enc_cookie c Hc)). f_equal.
  induction H as [|d cs Hd _ IH]; [done|]. cbn [map omap list_omap].
  destruct (parse_enc_cookie d Hd) as (_ & -> & _). by f_equal.
Qed.

Lemma AddCookie_has h cs n v :
  has_cookies h cs -> plain_cookie (n, v) -> Forall plain_cookie cs -> has_cookies (AddCookie h n v) (cs ++ [(n, v)]).
Proof.
  intros Hh [Hn Hv] Hcs. unfold AddCookie.
  assert (sanitizeCookieName n = n) as ->.
  { destruct (isToken_spec _ Hn) as (b & l & En & Hf). cbn [fst] in En. rewrite <-En in Hf. clear En Hn Hv.
    unfold sanitizeCookieName. induction Hf as [|c l' Hc _ IH]; [done|]. cbn [map]. rewrite IH. f_equal.
    apply token_byte_spec in Hc as (_ & _ & _ & H10 & H13 & _).
    by rewrite (proj2 (Z.eqb_neq c 10) H10), (proj2 (Z.eqb_neq c 13) H13). }
  fold (enc_cookie (n, v)). unfold has_cookies in *. unfold header_Get, header_Values. rewrite canon_cookie_key, Hh.
  destruct cs as [|c cs].
  - cbn [from_option id head app]. unfold header_Set. by rewrite canon_cookie_key, lookup_insert_eq.
  - cbn [from_option id head]. assert (cookie_line (c :: cs) ≠ []) as Hne.
    { apply Forall_cons in Hcs as [[Hc _] _]. destruct (isToken_spec _ Hc) as (b & l & En & _).
      destruct cs; cbn [cookie_line]; unfold enc_cookie; by rewrite En. }
    destruct (cookie_line (c :: cs)) as [|y ys] eqn:E; [done|]. rewrite <-E.
    unfold header_Set. rewrite canon_cookie_key, lookup_insert_eq.
    change ((c :: cs) ++ [(n, v)]) with (c :: (cs ++ [(n, v)])). cbn iota.
    change (c :: (cs ++ [(n, v)])) with ((c :: cs) ++ [(n, v)]). by rewrite cookie_line_snoc.
Qed.

Lemma Cookie_has h cs n :
  has_cookies h cs -> Forall plain_cookie cs -> n ≠ [] ->
  Cookie h n = snd <$> head (filter (fun c => c.1 = n) cs).
Proof. intros Hh Hcs Hn. unfold Cookie. by rewrite bool_decide_false, (readCookies_has h cs). Qed.

(** Another header does not touch the cookies. *)
Lemma has_cookies_Set h cs k v :
  has_cookies h cs -> CanonicalHeaderKey k ≠ cookie_key -> has_cookies (header_Set h k v) cs.
Proof. unfold has_cookies, header_Set. intros Hh Hk. by rewrite lookup_insert_ne. Qed.

Lemma header_Get_AddCookie h n v k :
  CanonicalHeaderKey k ≠ cookie_key -> header_Get (AddCookie h n v) k = header_Get h k.
Proof.
  intros Hk. unfold AddCookie. destruct (header_Get h cookie_key); rewrite header_Get_Set, canon_cookie_key;
    by destruct (decide _).
Qed.

(** ** Query lemmas *)

Lemma QueryUnescape_id s : Forall (fun c => c ≠ 37 /\ c ≠ 43) s -> QueryUnescape s = Some s.
Proof.
  induction 1 as [|c s [H1 H2] _ IH]; [done|]. cbn. rewrite (proj2 (Z.eqb_neq _ _) H1), IH.
  cbn. by rewrite (proj2 (Z.eqb_neq _ _) H2).
Qed.

Lemma query_key_spec key :
  is_query_key key = true -> key ≠ [] /\ Forall (fun c => is_token_byte c = true /\ (c ∉ [35; 37; 38; 43])) key.
Proof.
  unfold is_query_key. rewrite andb_true_iff. intros [Ht Hf]. unfold isToken in Ht.
  apply andb_true_iff in Ht as [Hn Ht]. apply negb_true_iff, bool_decide_eq_false_1 in Hn. split; [done|].
  apply Forall_forall. intros c Hc. rewrite forallb_forall in Ht, Hf. apply list_elem_of_In in Hc.
  specialize (Ht c Hc). specialize (Hf c Hc). apply negb_true_iff, bool_decide_eq_false_1 in Hf. done.
Qed.

Lemma alnum_range c : is_alnum c = true -> 48 <= c <= 57 \/ 65 <= c <= 90 \/ 97 <= c <= 122.
Proof. unfold is_alnum, is_digit. rewrite !orb_true_iff, !andb_true_iff, !Z.leb_le. lia. Qed.

Lemma token_range c : is_token_byte c = true -> 33 <= c <= 126.
Proof.
  unfold is_token_byte, is_digit. rewrite !orb_true_iff, !andb_true_iff, !Z.leb_le, bool_decide_eq_true.
  rewrite !elem_of_cons, elem_of_nil. lia.
Qed.

(** A query of one parameter is read back. *)
Lemma parse_query_one key value :
  is_query_key key = true -> Forall (fun c => is_alnum c = true) value ->
  parse_query (key ++ 61 :: value) !! key = Some [value].
Proof.
  intros [Hne Hk]%query_key_spec Hv. unfold parse_query.
  assert (Hkey : forall c, c ∈ key -> c ≠ 61 /\ c ≠ 59 /\ c ≠ 38 /\ c ≠ 37 /\ c ≠ 43).
  { rewrite Forall_forall in Hk. intros c [Ht Hc]%Hk. rewrite !not_elem_of_cons in Hc.
    apply token_byte_spec in Ht. lia. }
  assert (Hval : forall c, c ∈ value -> c ≠ 59 /\ c ≠ 38 /\ c ≠ 37 /\ c ≠ 43).
  { rewrite Forall_forall in Hv. intros c Hc%Hv%alnum_range. lia. }
  rewrite split_on_absent.
  2: { rewrite elem_of_app, elem_of_cons. intros [H%Hkey|[H|H%Hval]]; lia. }
  cbn [foldl]. unfold add_parameter. rewrite !bool_decide_eq_false_2; [|by destruct key|].
  2: { rewrite elem_of_app, elem_of_cons. intros [H%Hkey|[H|H%Hval]]; lia. }
  cbn [orb]. rewrite cut_app by (intros H%Hkey; lia). rewrite !QueryUnescape_id.
  - by rewrite lookup_insert_eq, lookup_empty.
  - apply Forall_forall. intros c H%Hval. lia.
  - apply Forall_forall. intros c H%Hkey. lia.
Qed.

(** The characters of such a query. *)
Lemma query_chars key value :
  is_query_key key = true -> Forall (fun c => is_alnum c = true) value ->
  Forall (fun c => 33 <= c <= 126 /\ c ≠ 35) (key ++ 61 :: value).
Proof.
  intros [_ Hk]%query_key_spec Hv. apply Forall_app. split.
  - eapply Forall_impl; [exact Hk|]. intros c [Ht%token_range Hc]. rewrite !not_elem_of_cons in Hc. lia.
  - constructor; [lia|]. eapply Forall_impl; [exact Hv|]. intros c Hc%alnum_range. lia.
Qed.
