(* ===== verification/Xhttp.v ===== *)
(** * Requests of the XHTTP transport
    (src/transport/v2rayxhttp: server.go, dialer.go, utils.go, xpadding.go,
    http.go; src/option/v2ray_transport.go)

    A client in mode packet-up puts the session, the number and the bytes of a
    piece of the upload somewhere into a request (its path, query, headers,
    cookies or body, as the options say), with some padding; the server's
    handler checks the request and takes them out again. *)

From S2P Require Import Prelude XrayBuf GoText GoHttp UploadQueue.

(** ** Options (option/v2ray_transport.go) *)

Record Range := mkRange { From : Z; To : Z }.

Record XmuxOptions := mkXmuxOptions {
  MaxConcurrency : Range;
  MaxConnections : Range;
  CMaxReuseTimes : Range;
  HMaxRequestTimes : Range;
  HMaxReusableSecs : Range;
  HKeepAlivePeriod : Z
}.

Record V2RayXHTTPOptions := mkOptions {
  Mode : string;
  Host : text;
  Path : text;
  Headers : list (text * text);
  XPaddingBytes : Range;
  ScMaxEachPostBytes : option Range;
  ScMaxBufferedPosts : Z;
  ServerMaxHeaderBytes : Z;
  Xmux : option XmuxOptions;
  XPaddingObfsMode : bool;
  XPaddingKey : text;
  XPaddingHeader : text;
  XPaddingPlacement : string;
  XPaddingMethod : string;
  UplinkHTTPMethod : text;
  SessionPlacement : string;
  SessionKey : text;
  SeqPlacement : string;
  SeqKey : text;
  UplinkDataPlacement : string;
  UplinkDataKey : text;
  UplinkChunkSize : option Range
}.

Definition PlacementQueryInHeader : string := "queryInHeader".
Definition PlacementCookie : string := "cookie".
Definition PlacementHeader : string := "header".
Definition PlacementQuery : string := "query".
Definition PlacementPath : string := "path".
Definition PlacementBody : string := "body".
Definition PlacementAuto : string := "auto".

Definition is_nil (t : text) : bool := match t with [] => true | _ => false end.

Definition GetNormalizedPath (c : V2RayXHTTPOptions) : text :=
  let path := (cut 63 (Path c)).1 in
  let path := if bool_decide (head path = Some 47) then path else 47 :: path in
  if bool_decide (last path = Some 47) then path else path ++ [47].

Definition GetNormalizedXPaddingBytes (c : V2RayXHTTPOptions) : Range :=
  if To (XPaddingBytes c) =? 0 then mkRange 100 1000 else XPaddingBytes c.

Definition GetNormalizedUplinkHTTPMethod (c : V2RayXHTTPOptions) : text :=
  if is_nil (UplinkHTTPMethod c) then bytes_of "POST" else UplinkHTTPMethod c.

Definition GetNormalizedScMaxEachPostBytes (c : V2RayXHTTPOptions) : Range :=
  default (mkRange 1000000 1000000) (ScMaxEachPostBytes c).

Definition GetNormalizedScMaxBufferedPosts (c : V2RayXHTTPOptions) : Z :=
  if ScMaxBufferedPosts c =? 0 then 30 else ScMaxBufferedPosts c.

Definition GetNormalizedUplinkChunkSize (c : V2RayXHTTPOptions) : Range :=
  let from_placement :=
    if String.eqb (UplinkDataPlacement c) PlacementCookie then mkRange (2 * 1024) (3 * 1024)
    else if String.eqb (UplinkDataPlacement c) PlacementHeader then mkRange (3 * 1000) (4 * 1000)
    else GetNormalizedScMaxEachPostBytes c in
  match UplinkChunkSize c with
  | None => from_placement
  | Some r =>
    if To r =? 0 then from_placement
    else if From r <? 64 then mkRange 64 (Z.max 64 (To r))
    else r
  end.

Definition GetNormalizedSessionPlacement (c : V2RayXHTTPOptions) : string :=
  if String.eqb (SessionPlacement c) "" then PlacementPath else SessionPlacement c.

Definition GetNormalizedSeqPlacement (c : V2RayXHTTPOptions) : string :=
  if String.eqb (SeqPlacement c) "" then PlacementPath else SeqPlacement c.

Definition GetNormalizedUplinkDataPlacement (c : V2RayXHTTPOptions) : string :=
  if String.eqb (UplinkDataPlacement c) "" then PlacementBody else UplinkDataPlacement c.

Definition GetNormalizedSessionKey (c : V2RayXHTTPOptions) : text :=
  if negb (is_nil (SessionKey c)) then SessionKey c
  else if String.eqb (GetNormalizedSessionPlacement c) PlacementHeader then bytes_of "X-Session"
  else if String.eqb (GetNormalizedSessionPlacement c) PlacementCookie
       || String.eqb (GetNormalizedSessionPlacement c) PlacementQuery then bytes_of "x_session"
  else [].

Definition GetNormalizedSeqKey (c : V2RayXHTTPOptions) : text :=
  if negb (is_nil (SeqKey c)) then SeqKey c
  else if String.eqb (GetNormalizedSeqPlacement c) PlacementHeader then bytes_of "X-Seq"
  else if String.eqb (GetNormalizedSeqPlacement c) PlacementCookie
       || String.eqb (GetNormalizedSeqPlacement c) PlacementQuery then bytes_of "x_seq"
  else [].

(** [options.X = ""] replaced by a default, or one of the allowed values. *)
Definition default_of (x d : string) (allowed : list string) (message : string) : res string :=
  if String.eqb x "" then Ret d
  else if existsb (String.eqb x) allowed then Ret x
  else Err message.

(** [checkV2RayXHTTPBaseOptions]: the options with their defaults, or the
    error; upper and lower case are those of ASCII. *)
Definition checkV2RayXHTTPBaseOptions (mode : string) (o : V2RayXHTTPOptions) : res V2RayXHTTPOptions :=
  if existsb (fun h => bool_decide (map lower_byte h.1 = bytes_of "host")) (Headers o)
  then Err "headers can't contain host" else
  if (From (XPaddingBytes o) <=? 0) || (To (XPaddingBytes o) <=? 0)
  then Err "x_padding_bytes cannot be disabled" else
  let paddingKey := if is_nil (XPaddingKey o) then bytes_of "x_padding" else XPaddingKey o in
  let paddingHeader := if is_nil (XPaddingHeader o) then bytes_of "X-Padding" else XPaddingHeader o in
  paddingPlacement ← default_of (XPaddingPlacement o) "queryInHeader" ["cookie"; "header"; "query"; "queryInHeader"]
    "unsupported padding placement";
  paddingMethod ← default_of (XPaddingMethod o) "repeat-x" ["repeat-x"; "tokenish"] "unsupported padding method";
  dataPlacement ←
    (if String.eqb (UplinkDataPlacement o) "" then Ret PlacementAuto
     else if existsb (String.eqb (UplinkDataPlacement o)) [PlacementAuto; PlacementBody] then Ret (UplinkDataPlacement o)
     else if existsb (String.eqb (UplinkDataPlacement o)) [PlacementCookie; PlacementHeader] then
       if negb (String.eqb mode "packet-up") then Err "UplinkDataPlacement only in packet-up mode"
       else Ret (UplinkDataPlacement o)
     else Err "unsupported uplink data placement");
  let method := map upper_byte (if is_nil (UplinkHTTPMethod o) then bytes_of "POST" else UplinkHTTPMethod o) in
  if bool_decide (method = bytes_of "GET") && negb (String.eqb mode "packet-up")
  then Err "uplink_http_method can be GET only in packet-up mode" else
  sessionPlacement ← default_of (SessionPlacement o) "path" ["path"; "cookie"; "header"; "query"]
    "unsupported session placement";
  seqPlacement ← default_of (SeqPlacement o) "path" ["path"; "cookie"; "header"; "query"]
    "unsupported seq placement";
  let sessionKey :=
    if is_nil (SessionKey o) then
      if String.eqb sessionPlacement "header" then bytes_of "X-Session"
      else if String.eqb sessionPlacement "path" then [] else bytes_of "x_session"
    else SessionKey o in
  let seqKey :=
    if is_nil (SeqKey o) then
      if String.eqb seqPlacement "header" then bytes_of "X-Seq"
      else if String.eqb seqPlacement "path" then [] else bytes_of "x_seq"
    else SeqKey o in
  let dataKey :=
    if is_nil (UplinkDataKey o) then
      if String.eqb dataPlacement PlacementCookie then bytes_of "x_data"
      else if String.eqb dataPlacement PlacementBody then [] else bytes_of "X-Data"
    else UplinkDataKey o in
  if ServerMaxHeaderBytes o <? 0 then Err "invalid negative value of maxHeaderBytes" else
  if negb (String.eqb mode "stream-one") && negb (String.eqb mode "stream-up")
     && (From (GetNormalizedScMaxEachPostBytes o) <=? 0)
  then Err "scMaxEachPostBytes should be bigger than 0" else
  xmux ←
    match Xmux o with
    | None => Ret (mkXmuxOptions (mkRange 1 1) (mkRange 0 0) (mkRange 0 0) (mkRange 600 900) (mkRange 1800 3000) 0)
    | Some x =>
      if (0 <? To (MaxConnections x)) && (0 <? To (MaxConcurrency x))
      then Err "max_connections cannot be specified together with max_concurrency" else Ret x
    end;
  Ret (mkOptions (Mode o) (Host o) (Path o) (Headers o) (XPaddingBytes o) (ScMaxEachPostBytes o)
    (ScMaxBufferedPosts o) (ServerMaxHeaderBytes o) (Some xmux) (XPaddingObfsMode o) paddingKey paddingHeader
    paddingPlacement paddingMethod method sessionPlacement sessionKey seqPlacement seqKey dataPlacement dataKey
    (UplinkChunkSize o)).

(** ** Requests

    [http.Request] as the client fills it and the server is given it: the
    decoded path and query of the URL, the header with its cookies, and the
    body. *)

Record Request := mkRequest {
  r_Method : text;
  r_Host : text;
  r_Path : text;
  r_Query : Values;
  r_Header : Header;
  r_Body : list Z;
  r_ContentLength : Z
}.

Definition query_Get (q : Values) (key : text) : text := default [] (head (default [] (q !! key))).
Definition query_Set (q : Values) (key value : text) : Values := <[key := [value]]> q.

Definition with_path p r := mkRequest (r_Method r) (r_Host r) p (r_Query r) (r_Header r) (r_Body r) (r_ContentLength r).
Definition with_query q r := mkRequest (r_Method r) (r_Host r) (r_Path r) q (r_Header r) (r_Body r) (r_ContentLength r).
Definition with_header h r := mkRequest (r_Method r) (r_Host r) (r_Path r) (r_Query r) h (r_Body r) (r_ContentLength r).
Definition with_body b n r := mkRequest (r_Method r) (r_Host r) (r_Path r) (r_Query r) (r_Header r) b n.

(** What the transport takes from elsewhere: the draws of [badoption.Range]'s
    [Rand] (the [k]-th one), [HuffmanEncodeLength] of hpack, the bytes drawn
    from crypto/rand, and net/url: the text of a request's URL, a URL with another
    query, and the raw query of a URL (nothing when the text is not a URL). *)
Class XhttpEnv := {
  Rand : Range -> nat -> Z;
  HuffmanEncodeLength : text -> Z;
  random_bytes : list Z;
  url_String : Request -> text;
  url_with_query : text -> text -> option text;
  url_RawQuery : text -> option text
}.

(** The bits of a letter or a digit in the Huffman code of HPACK (RFC 7541,
    appendix B). *)
Definition code_bits (c : Z) : Z :=
  if bool_decide (c ∈ bytes_of "012aceiost") then 5
  else if bool_decide (c ∈ bytes_of "3456789Abdfghlmnpru") then 6
  else if bool_decide (c ∈ bytes_of "XZ") then 8
  else 7.

Definition code_length (s : text) : Z := foldr (fun c n => code_bits c + n) 0 s.

(** What the client and the server rely on: a draw lies in its range, a text of
    letters and digits has the length that its code says, in whole bytes, the
    text of a request's URL is a URL, and one that was given a query of visible
    characters without [#] has that query. *)
Class XhttpLaws (E : XhttpEnv) : Prop := {
  Rand_range r k : From r <= To r -> From r <= Rand r k <= To r;
  Huffman_length s : Forall (fun c => is_alnum c = true) s -> HuffmanEncodeLength s = (code_length s + 7) / 8;
  url_query_back raw query u :
    query ≠ [] -> Forall (fun c => 33 <= c <= 126 /\ c ≠ 35) query -> url_with_query raw query = Some u ->
    url_RawQuery u = Some query /\ u ≠ [];
  url_String_parses r query : is_Some (url_with_query (url_String r) query)
}.

Section xhttp.
Context {E : XhttpEnv}.

(** [url.Parse] and [URL.Query]. *)
Definition url_Query (u : text) : option Values := parse_query <$> url_RawQuery u.

(** ** Padding (xpadding.go) *)

Definition charsetBase62 : text := bytes_of "0123456789ABCDEFGHIJKLMNOPQRSTUVWXYZabcdefghijklmnopqrstuvwxyz".

Definition validationTolerance : Z := 2.

Record XPaddingPlacement_ := mkPlacement {
  p_Placement : string;
  p_Key : text;
  p_Header : text;
  p_RawURL : text
}.

Record XPaddingConfig := mkPadding {
  p_Length : Z;
  p_Where : XPaddingPlacement_;
  p_Method : string
}.

(** Characters for the random bytes below the limit; [None] when more bytes
    have to be drawn. *)
Fixpoint pick_chars (charset : text) (limit : Z) (n : nat) (random : list Z) : option text :=
  match n, random with
  | O, _ => Some []
  | S _, [] => None
  | S n', rb :: random =>
    if limit <=? rb then pick_chars charset limit n random else
    c ← charset !! Z.to_nat (rb mod zlen charset);
    s ← pick_chars charset limit n' random;
    Some (c :: s)
  end.

Definition randStringFromCharset (n : Z) (charset : text) : option text :=
  if (n <=? 0) || is_nil charset then None else
  pick_chars charset (u8 (256 - 256 mod zlen charset)) (Z.to_nat n) random_bytes.

(** The loop that adjusts the text to the length wanted. *)
Fixpoint tokenish_loop (iter : nat) (target : Z) (s : text) (adjustChar : Z) : text :=
  match iter with
  | O => s
  | S iter =>
    let diff := HuffmanEncodeLength s - target in
    if Z.abs diff <=? validationTolerance then s
    else if diff <? 0 then tokenish_loop iter target (s ++ [adjustChar]) (if adjustChar =? 88 then 90 else 88)
    else if (length s <=? 1)%nat then s
    else tokenish_loop iter target (take (length s - 1) s) adjustChar
  end.

(** [math.Ceil] of the target divided by 0.8. *)
Definition GenerateTokenishPaddingBase62 (target : Z) : text :=
  let n := Z.max 1 ((5 * target + 3) / 4) in
  match randStringFromCharset n charsetBase62 with
  | None => []
  | Some randBase62Str => tokenish_loop 150 target randBase62Str 88
  end.

Definition GeneratePadding (method : string) (n : Z) : text :=
  if n <=? 0 then []
  else if String.eqb method "tokenish" then
    let paddingValue := GenerateTokenishPaddingBase62 n in
    if is_nil paddingValue then replicate (Z.to_nat n) 88 else paddingValue
  else replicate (Z.to_nat n) 88.

Definition ApplyPaddingToCookie (h : Header) (name value : text) : Header :=
  if is_nil name || is_nil value then h else AddCookie h name value.

Definition ApplyPaddingToQuery (q : Values) (key value : text) : Values :=
  if is_nil key || is_nil value then q else query_Set q key value.

Definition ApplyXPaddingToHeader (h : Header) (config : XPaddingConfig) : Header :=
  let paddingValue := GeneratePadding (p_Method config) (p_Length config) in
  let p := p_Where config in
  if String.eqb (p_Placement p) PlacementHeader then header_Set h (p_Header p) paddingValue
  else if String.eqb (p_Placement p) PlacementQueryInHeader then
    match url_with_query (p_RawURL p) (p_Key p ++ 61 :: paddingValue) with
    | None => h
    | Some u => header_Set h (p_Header p) u
    end
  else h.

Definition ApplyXPaddingToRequest (req : Request) (config : XPaddingConfig) : Request :=
  let p := p_Where config in
  if String.eqb (p_Placement p) PlacementHeader || String.eqb (p_Placement p) PlacementQueryInHeader then
    with_header (ApplyXPaddingToHeader (r_Header req) config) req
  else
    let paddingValue := GeneratePadding (p_Method config) (p_Length config) in
    if String.eqb (p_Placement p) PlacementCookie then
      with_header (ApplyPaddingToCookie (r_Header req) (p_Key p) paddingValue) req
    else if String.eqb (p_Placement p) PlacementQuery then
      with_query (ApplyPaddingToQuery (r_Query req) (p_Key p) paddingValue) req
    else req.

(** The padding of a request, without the description of its place. *)
Definition ExtractXPaddingFromRequest (options : V2RayXHTTPOptions) (req : Request) : text :=
  let key := XPaddingKey options in
  let header := XPaddingHeader options in
  let obfuscated :=
    let from_query := query_Get (r_Query req) key in
    match Cookie (r_Header req) key with
    | Some (c :: v) => c :: v
    | _ =>
      let headerValue := header_Get (r_Header req) header in
      if negb (is_nil headerValue) then
        if String.eqb (XPaddingPlacement options) PlacementHeader then headerValue
        else match url_Query headerValue with
             | Some q => query_Get q key
             | None => from_query
             end
      else from_query
    end in
  if negb (XPaddingObfsMode options) then
    let referrer := header_Get (r_Header req) (bytes_of "Referer") in
    if negb (is_nil referrer) then
      match url_Query referrer with
      | Some q => query_Get q (bytes_of "x_padding")
      | None => obfuscated
      end
    else query_Get (r_Query req) (bytes_of "x_padding")
  else obfuscated.

Definition IsPaddingValid (options : V2RayXHTTPOptions) (paddingValue : text) (from to : Z) (method : string) : bool :=
  if is_nil paddingValue then false else
  let r := if to <=? 0 then GetNormalizedXPaddingBytes options else mkRange from to in
  if String.eqb method "tokenish" then
    let n := HuffmanEncodeLength paddingValue in
    let f := Z.max 0 (From r - validationTolerance) in
    (f <=? n) && (n <=? To r + validationTolerance)
  else (From r <=? zlen paddingValue) && (zlen paddingValue <=? To r).

(** ** The client's request (dialer.go, utils.go) *)

Definition appendToPath (path value : text) : text :=
  if HasSuffix path [47] then path ++ value else path ++ 47 :: value.

(** One of the two values, put where its placement says. *)
Definition apply_meta (placement : string) (key value : text) (req : Request) : Request :=
  if is_nil value then req
  else if String.eqb placement PlacementPath then with_path (appendToPath (r_Path req) value) req
  else if String.eqb placement PlacementQuery then with_query (query_Set (r_Query req) key value) req
  else if String.eqb placement PlacementHeader then with_header (header_Set (r_Header req) key value) req
  else if String.eqb placement PlacementCookie then with_header (AddCookie (r_Header req) key value) req
  else req.

Definition ApplyMetaToRequest (options : V2RayXHTTPOptions) (req : Request) (sessionId seqStr : text) : Request :=
  apply_meta (GetNormalizedSeqPlacement options) (GetNormalizedSeqKey options) seqStr
    (apply_meta (GetNormalizedSessionPlacement options) (GetNormalizedSessionKey options) sessionId req).

(** The pieces of the encoded payload, by the draws of their sizes; a piece is
    not empty, so there are no more of them than characters. *)
Fixpoint payload_chunks (fuel k : nat) (r : Range) (encodedData : text) : res (list text) :=
  if 0 <? zlen encodedData then
    match fuel with
    | O => Panic
    | S fuel =>
      let chunkSize := Z.min (Rand r k) (zlen encodedData) in
      chunk ← go_slice encodedData 0 chunkSize;
      encodedData ← go_from encodedData chunkSize;
      chunks ← payload_chunks fuel (S k) r encodedData;
      Ret (chunk :: chunks)
    end
  else Ret [].

Definition chunk_key (key : text) (sep : Z) (i : nat) : text := key ++ sep :: FormatInt (Z.of_nat i).

(** [header.Set] of the pieces, or the cookies with them, from number [i]. *)
Fixpoint set_chunks (h : Header) (key : text) (i : nat) (chunks : list text) : Header :=
  match chunks with
  | [] => h
  | chunk :: chunks => set_chunks (header_Set h (chunk_key key 45 i) chunk) key (S i) chunks
  end.

Fixpoint add_chunk_cookies (h : Header) (key : text) (i : nat) (chunks : list text) : Header :=
  match chunks with
  | [] => h
  | chunk :: chunks => add_chunk_cookies (AddCookie h (chunk_key key 95 i) chunk) key (S i) chunks
  end.

Definition encoded_chunks (payload : list Z) (options : V2RayXHTTPOptions) : res (list text) :=
  let encodedData := EncodeToString payload in
  payload_chunks (length encodedData) 0 (GetNormalizedUplinkChunkSize options) encodedData.

Definition GetRequestHeaderWithPayload (header : Header) (payload : list Z) (options : V2RayXHTTPOptions) : res Header :=
  chunks ← encoded_chunks payload options;
  Ret (set_chunks header (UplinkDataKey options) 0 chunks).

Definition with_payload_cookies (header : Header) (payload : list Z) (options : V2RayXHTTPOptions) : res Header :=
  chunks ← encoded_chunks payload options;
  Ret (add_chunk_cookies header (UplinkDataKey options) 0 chunks).

(** The padding of a client's request. *)
Definition request_padding (options : V2RayXHTTPOptions) (req : Request) : XPaddingConfig :=
  let n := Rand (GetNormalizedXPaddingBytes options) 0 in
  if XPaddingObfsMode options then
    mkPadding n (mkPlacement (XPaddingPlacement options) (XPaddingKey options) (XPaddingHeader options) (url_String req))
      (XPaddingMethod options)
  else mkPadding n (mkPlacement PlacementQueryInHeader (bytes_of "x_padding") (bytes_of "Referer") (url_String req)) "".

(** [FillPacketRequest], with the headers of [options.GetRequestHeader]. *)
Definition FillPacketRequest (options : V2RayXHTTPOptions) (requestHeader : Header) (request : Request)
    (sessionId seqStr : text) (payload : list Z) : res Request :=
  let dataPlacement := GetNormalizedUplinkDataPlacement options in
  request ←
    (if String.eqb dataPlacement PlacementBody || String.eqb dataPlacement PlacementAuto then
       Ret (with_body payload (zlen payload) (with_header requestHeader request))
     else if String.eqb dataPlacement PlacementHeader then
       header ← GetRequestHeaderWithPayload requestHeader payload options;
       Ret (with_header header request)
     else if String.eqb dataPlacement PlacementCookie then
       header ← with_payload_cookies requestHeader payload options;
       Ret (with_header header request)
     else Ret request);
  let request := ApplyXPaddingToRequest request (request_padding options request) in
  Ret (ApplyMetaToRequest options request sessionId seqStr).

(** ** The server (server.go, http.go) *)

(** [net.SplitHostPort], the host only; empty on an error. *)
Definition last_index (c : Z) (s : text) : option nat :=
  (fun i => (length s - 1 - i)%nat) <$> (fst <$> list_find (fun b => b = c) (reverse s)).

Definition SplitHost (s : text) : text :=
  match last_index 58 s with
  | None => []
  | Some i =>
    match s with
    | 91 :: _ =>
      match fst <$> list_find (fun b => b = 93) s with
      | None => []
      | Some e =>
        if negb (S e =? i)%nat then []
        else if bool_decide (91 ∈ drop 1 s) || bool_decide (93 ∈ drop (S e) s) then []
        else take (e - 1) (drop 1 s)
      end
    | _ =>
      if bool_decide (58 ∈ take i s) || bool_decide (91 ∈ s) || bool_decide (93 ∈ s) then []
      else take i s
    end
  end.

Definition isValidHTTPHost (request config : text) : bool :=
  let r := map lower_byte request in
  let c := map lower_byte config in
  if bool_decide (58 ∈ r) then bool_decide (SplitHost r = c) else bool_decide (r = c).

(** One of the two values, taken from where its placement says; [subpath] is
    what is left of the segments of the path. *)
Definition extract_meta (placement : string) (key : text) (req : Request) (subpath : list text) : text * list text :=
  if String.eqb placement PlacementPath then
    match subpath with [] => ([], []) | s :: subpath => (s, subpath) end
  else if String.eqb placement PlacementQuery then (query_Get (r_Query req) key, subpath)
  else if String.eqb placement PlacementHeader then (header_Get (r_Header req) key, subpath)
  else if String.eqb placement PlacementCookie then (default [] (Cookie (r_Header req) key), subpath)
  else ([], subpath).

Definition ExtractMetaFromRequest (options : V2RayXHTTPOptions) (req : Request) (path : text) : res (text * text) :=
  let sessionPlacement := GetNormalizedSessionPlacement options in
  let seqPlacement := GetNormalizedSeqPlacement options in
  subpath ←
    (if String.eqb sessionPlacement PlacementPath || String.eqb seqPlacement PlacementPath then
       rest ← go_from (r_Path req) (zlen path); Ret (split_on 47 rest)
     else Ret []);
  let '(sessionId, subpath) := extract_meta sessionPlacement (GetNormalizedSessionKey options) req subpath in
  let '(seqStr, _) := extract_meta seqPlacement (GetNormalizedSeqKey options) req subpath in
  Ret (sessionId, seqStr).

(** The pieces of a payload, up to the first number that is missing; there
    are at most [fuel] of them. *)
Fixpoint collect_chunks (fuel : nat) (get : nat -> option text) (i : nat) : res (list text) :=
  match get i with
  | None => Ret []
  | Some chunk =>
    match fuel with
    | O => Panic
    | S fuel => chunks ← collect_chunks fuel get (S i); Ret (chunk :: chunks)
    end
  end.

Definition headerPayload (req : Request) (key : text) : res (option (list Z)) :=
  let get i :=
    let chunk := header_Get (r_Header req) (chunk_key key 45 i) in
    if is_nil chunk then None else Some chunk in
  chunks ← collect_chunks (size (r_Header req)) get 0;
  Ret (DecodeString (concat chunks)).

Definition cookiePayload (req : Request) (key : text) : res (option (list Z)) :=
  let get i := Cookie (r_Header req) (chunk_key key 95 i) in
  chunks ← collect_chunks (length (readCookies (r_Header req))) get 0;
  Ret (DecodeString (concat chunks)).

(** The body: too large, unreadable, or its bytes. *)
Definition bodyPayload (pooled : nat -> list Z) (req : Request) (scMaxEachPostBytes : Z) : res (Z + list Z) :=
  if scMaxEachPostBytes <? r_ContentLength req then Ret (inl 413)
  else if 0 <? r_ContentLength req then
    if zlen (r_Body req) <? r_ContentLength req then Ret (inl 400)
    else Ret (inr (take (Z.to_nat (r_ContentLength req)) (r_Body req)))
  else
    b ← ReadAllToBytes pooled (take (Z.to_nat (scMaxEachPostBytes + 1)) (r_Body req));
    Ret (inr b).

(** The sessions by their id, each an upload queue by its number. *)
Record Server := mkServer {
  s_sessions : gmap text nat;
  s_next : nat
}.

Definition upsertSession (s : Server) (sessionId : text) : Server * nat :=
  match s_sessions s !! sessionId with
  | Some i => (s, i)
  | None => (mkServer (<[sessionId := s_next s]> (s_sessions s)) (S (s_next s)), s_next s)
  end.

(** What the handler does with a request: answer with a status, have pushed the
    body as a stream's reader or a packet into the queue of a session, or carry a
    connection: the response for the bytes down, and for the bytes up the
    queue of a session or the body. *)
Inductive answer :=
| Respond (status : Z)
| PushReader (session : nat)
| PushPacket (session : nat) (p : Packet)
| StreamDown (session : nat)
| StreamOne.

Definition mode_is (options : V2RayXHTTPOptions) (modes : list string) : bool :=
  existsb (String.eqb (Mode options)) modes.

(** The pieces of the payload of a packet, where the placement wants them. *)
Definition packet_payload (pooled : nat -> list Z) (options : V2RayXHTTPOptions) (request : Request) : res (Z + list Z) :=
  let placement := GetNormalizedUplinkDataPlacement options in
  let wants p := String.eqb placement PlacementAuto || String.eqb placement p in
  let max := To (GetNormalizedScMaxEachPostBytes options) in
  let key := UplinkDataKey options in
  header ← (if wants PlacementHeader then headerPayload request key else Ret (Some []));
  match header with None => Ret (inl 400) | Some header =>
  cookie ← (if wants PlacementCookie then cookiePayload request key else Ret (Some []));
  match cookie with None => Ret (inl 400) | Some cookie =>
  body ← (if wants PlacementBody then bodyPayload pooled request max else Ret (inr []));
  match body with inl status => Ret (inl status) | inr body =>
  let payload :=
    if String.eqb placement PlacementHeader then header
    else if String.eqb placement PlacementCookie then cookie
    else if String.eqb placement PlacementBody then body
    else if String.eqb placement PlacementAuto then header ++ cookie ++ body
    else [] in
  Ret (if max <? zlen payload then inl 413 else inr payload)
  end end end.

(** [ServeHTTP], without the addresses of the connection and the headers of
    the response; [Push] is what the call of [Push] into the queue of a session
    returns, [None] for no error. *)
Definition ServeHTTP (pooled : nat -> list Z) (Push : nat -> option string) (options : V2RayXHTTPOptions) (s : Server) (request : Request)
    : res (Server * answer) :=
  let path := GetNormalizedPath options in
  if negb (is_nil (Host options)) && negb (isValidHTTPHost (r_Host request) (Host options))
  then Ret (s, Respond 404) else
  if negb (HasPrefix (r_Path request) path) then Ret (s, Respond 404) else
  if bool_decide (r_Method request = bytes_of "OPTIONS") then Ret (s, Respond 200) else
  let validRange := GetNormalizedXPaddingBytes options in
  if negb (IsPaddingValid options (ExtractXPaddingFromRequest options request) (From validRange) (To validRange)
             (XPaddingMethod options))
  then Ret (s, Respond 400) else
  '(sessionId, seqStr) ← ExtractMetaFromRequest options request path;
  let any_mode := mode_is options [""; "auto"] in
  if negb any_mode && is_nil sessionId && negb (mode_is options ["stream-one"; "stream-up"])
  then Ret (s, Respond 400) else
  if negb any_mode && negb (is_nil sessionId) && mode_is options ["stream-one"] then Ret (s, Respond 400) else
  let '(s, session) := if is_nil sessionId then (s, None)
                       else let '(s, i) := upsertSession s sessionId in (s, Some i) in
  let is_get := bool_decide (r_Method request = bytes_of "GET") in
  let isUplinkRequest := if is_get then negb (is_nil seqStr) else true in
  match session with
  | Some session =>
    if isUplinkRequest then
      if is_nil seqStr then
        if negb any_mode && negb (mode_is options ["stream-up"]) then Ret (s, Respond 400)
        else match Push session with
             | Some _ => Ret (s, Respond 409)
             | None => Ret (s, PushReader session)
             end
      else if negb any_mode && negb (mode_is options ["packet-up"]) then Ret (s, Respond 400)
      else
        payload ← packet_payload pooled options request;
        match payload with
        | inl status => Ret (s, Respond status)
        | inr payload =>
          match ParseUint seqStr with
          | None => Ret (s, Respond 500)
          | Some seq =>
            match Push session with
            | Some _ => Ret (s, Respond 500)
            | None => Ret (s, PushPacket session (mkPacket None payload seq))
            end
          end
        end
    else if is_get then Ret (s, StreamDown session)
    else Ret (s, Respond 405)
  | None => Ret (s, StreamOne)
  end.

End xhttp.
