(* ===== verification/XhttpRoundTrip.v ===== *)
(** * What the XHTTP server takes out of a client's request

    The server, with the same options, finds the session, the number and the
    bytes that [FillPacketRequest] put into a request, and accepts its
    padding, wherever the options place them. *)

From S2P Require Import Prelude XrayBuf GoText GoHttp UploadQueue Xhttp.

Abbreviation canon := CanonicalHeaderKey.

(** ** Headers and cookies that were set one after the other *)

(** The header [h] has what [base] has, then the pairs [hs] set and the
    cookies [cs] added. *)
Record built (base : Header) (hs cs : list (text * text)) (h : Header) : Prop := {
  built_get k :
    canon k ≠ cookie_key ->
    header_Get h k = match list_find (fun p => canon p.1 = canon k) (reverse hs) with
                     | Some (_, p) => p.2
                     | None => header_Get base k
                     end;
  built_cookies : has_cookies h cs;
  built_plain : Forall plain_cookie cs
}.

Lemma built_base base : base !! cookie_key = None -> built base [] [] base.
Proof. intros H. by split. Qed.

Lemma built_Set base hs cs h k v :
  built base hs cs h -> canon k ≠ cookie_key -> built base (hs ++ [(k, v)]) cs (header_Set h k v).
Proof.
  intros [A B C] Hk. split; [|by apply has_cookies_Set|done].
  intros k' Hk'. rewrite header_Get_Set, reverse_app. cbn [list_find reverse rev_append app].
  change (reverse [(k, v)]) with [(k, v)]. cbn [app list_find].
  destruct (decide (canon k = canon k')) as [E|E].
  - rewrite decide_True by done. done.
  - rewrite decide_False by done. rewrite A by done.
    by destruct (list_find _ (reverse hs)) as [[i p]|].
Qed.

Lemma built_AddCookie base hs cs h n v :
  built base hs cs h -> plain_cookie (n, v) -> built base hs (cs ++ [(n, v)]) (AddCookie h n v).
Proof.
  intros [A B C] Hp. split.
  - intros k Hk. rewrite header_Get_AddCookie by done. by apply A.
  - by apply AddCookie_has.
  - apply Forall_app. split; [done|]. by constructor.
Qed.

(** With distinct names, a pair that was set is found, and a name that was
    not is not. *)
Lemma built_found base hs cs h k v :
  built base hs cs h -> canon k ≠ cookie_key -> NoDup (map (fun p => canon p.1) hs) -> (k, v) ∈ hs ->
  header_Get h k = v.
Proof.
  intros [A _ _] Hk Hd Hin. rewrite A by done.
  destruct (list_find _ (reverse hs)) as [[i p]|] eqn:E.
  - apply list_find_Some in E as (Hp & Hc & _). apply list_elem_of_lookup_2 in Hp. rewrite elem_of_reverse in Hp.
    apply list_elem_of_lookup in Hp as [a Ha]. apply list_elem_of_lookup in Hin as [b Hb].
    assert (a = b) as ->; [|by simplify_eq].
    eapply NoDup_lookup; [exact Hd| |]; rewrite list_lookup_fmap; [rewrite Ha|rewrite Hb]; cbn; [done|]. by rewrite Hc.
  - apply list_find_None in E. rewrite Forall_forall in E. destruct (E (k, v)); [|done]. by rewrite elem_of_reverse.
Qed.

Lemma built_missing base hs cs h k :
  built base hs cs h -> canon k ≠ cookie_key -> (canon k ∉ map (fun p => canon p.1) hs) -> base !! canon k = None ->
  header_Get h k = [].
Proof.
  intros [A _ _] Hk Hn Hb. rewrite A by done.
  destruct (list_find _ (reverse hs)) as [[i p]|] eqn:E.
  - apply list_find_Some in E as (Hp & Hc & _). apply list_elem_of_lookup_2 in Hp. rewrite elem_of_reverse in Hp.
    destruct Hn. apply list_elem_of_fmap. by exists p.
  - unfold header_Get, header_Values. by rewrite Hb.
Qed.

Lemma cookie_found base hs cs h n v :
  built base hs cs h -> n ≠ [] -> NoDup (map fst cs) -> (n, v) ∈ cs -> Cookie h n = Some v.
Proof.
  intros [_ B C] Hn Hd Hin. rewrite (Cookie_has h cs) by done.
  clear B C. induction cs as [|[m w] cs IH]; [by apply elem_of_nil in Hin|].
  cbn in Hd. apply NoDup_cons in Hd as [Hm Hd]. rewrite filter_cons. cbn [fst].
  destruct (decide (m = n)) as [->|Hne].
  - apply elem_of_cons in Hin as [[= ->]|Hin]; [done|]. destruct Hm.
    apply list_elem_of_fmap. by exists (n, v).
  - apply elem_of_cons in Hin as [[= -> _]|Hin]; [done|]. by apply IH.
Qed.

Lemma cookie_missing base hs cs h n : built base hs cs h -> (n ∉ map fst cs) -> Cookie h n = None.
Proof.
  intros [_ B C] Hn. unfold Cookie. destruct (bool_decide (n = [])); [done|].
  rewrite (readCookies_has h cs) by done. clear B C. induction cs as [|[m w] cs IH]; [done|].
  cbn in Hn. apply not_elem_of_cons in Hn as [Hm Hn]. rewrite filter_cons. cbn [fst].
  rewrite decide_False by done. by apply IH.
Qed.

(** ** Queries *)

Lemma query_Get_Set q k v k' :
  query_Get (query_Set q k v) k' = if decide (k = k') then v else query_Get q k'.
Proof.
  unfold query_Get, query_Set. destruct (decide _) as [->|]; [by rewrite lookup_insert_eq|by rewrite lookup_insert_ne].
Qed.

(** ** The pieces of a payload *)

Section chunks.
Context {E : XhttpEnv} {L : XhttpLaws E}.

Lemma payload_chunks_spec fuel k r s :
  1 <= From r <= To r -> (length s <= fuel)%nat ->
  exists cs, payload_chunks fuel k r s = Ret cs /\ concat cs = s /\ Forall (fun c => c ≠ []) cs.
Proof.
  intros Hr. revert k s. induction fuel as [|fuel IH]; intros k s Hf; cbn [payload_chunks].
  - destruct s; cbn in Hf; [|lia]. exists []. by split_and!.
  - destruct (Z.ltb_spec 0 (zlen s)) as [Hs|Hs].
    + pose proof (Rand_range r k ltac:(lia)) as Hk.
      set (n := Z.min (Rand r k) (zlen s)). assert (1 <= n <= zlen s) as Hn by lia.
      rewrite go_slice_ok, go_from_ok by lia. cbn [mbind res_bind]. rewrite Z.sub_0_r. cbn [drop].
      destruct (IH (S k) (drop (Z.to_nat n) s)) as (cs & -> & Hc & Hne).
      { rewrite length_drop. unfold zlen in *. lia. }
      cbn [mbind res_bind]. exists (take (Z.to_nat n) s :: cs). split_and!; [done| |].
      * cbn [concat]. rewrite Hc. apply take_drop.
      * constructor; [|done]. intros Hnil. apply (f_equal length) in Hnil.
        rewrite length_take in Hnil. unfold zlen in *. cbn [length] in Hnil. lia.
    + assert (s = []) as -> by (unfold zlen in Hs; destruct s; cbn in Hs; [done|lia]).
      exists []. by split_and!.
Qed.

(** The names of the pieces are distinct. *)
Lemma chunk_key_inj key sep i j :
  Z.of_nat i < 2 ^ 64 -> Z.of_nat j < 2 ^ 64 -> chunk_key key sep i = chunk_key key sep j -> i = j.
Proof.
  intros Hi Hj H. unfold chunk_key in H. apply app_inv_head in H. injection H as H.
  apply FormatInt_inj in H; lia.
Qed.

Lemma lower_digits s : Forall (fun c => is_digit c = true) s -> map lower_byte s = s.
Proof.
  induction 1 as [|c s Hc _ IH]; [done|]. cbn. rewrite IH. f_equal. unfold lower_byte, is_digit in *.
  rewrite andb_true_iff, !Z.leb_le in Hc. destruct (Z.leb_spec 65 c); [lia|done].
Qed.

Lemma chunk_canon_inj key sep i j :
  Z.of_nat i < 2 ^ 64 -> Z.of_nat j < 2 ^ 64 -> canon (chunk_key key sep i) = canon (chunk_key key sep j) -> i = j.
Proof.
  intros Hi Hj H%canon_lower. unfold chunk_key in H. rewrite !map_app in H. cbn [map] in H.
  apply app_inv_head in H. injection H as H. unfold FormatInt in H.
  rewrite !lower_digits in H by (apply digits_are_digits; lia). apply FormatInt_inj in H; lia.
Qed.

(** The pairs of name and piece, from number [i]. *)
Fixpoint chunk_pairs (key : text) (sep : Z) (i : nat) (cs : list text) : list (text * text) :=
  match cs with
  | [] => []
  | c :: cs => (chunk_key key sep i, c) :: chunk_pairs key sep (S i) cs
  end.

Lemma chunk_pairs_lookup key sep i cs j c :
  cs !! j = Some c -> (chunk_key key sep (i + j), c) ∈ chunk_pairs key sep i cs.
Proof.
  revert i j. induction cs as [|d cs IH]; intros i j Hj; [done|]. destruct j as [|j]; cbn in Hj |- *.
  - injection Hj as ->. rewrite Nat.add_0_r. left.
  - right. replace (i + S j)%nat with (S i + j)%nat by lia. by apply IH.
Qed.

Lemma chunk_pairs_names key sep i cs p :
  p ∈ chunk_pairs key sep i cs -> exists j, (i <= j < i + length cs)%nat /\ p.1 = chunk_key key sep j.
Proof.
  revert i. induction cs as [|d cs IH]; intros i Hp; cbn in *; [by apply elem_of_nil in Hp|].
  apply elem_of_cons in Hp as [->|Hp]; [exists i; split; [lia|done]|].
  destruct (IH _ Hp) as (j & Hj & E'). exists j. split; [lia|done].
Qed.

Lemma chunk_pairs_NoDup {A} (f : text -> A) key sep i cs :
  (forall a b, Z.of_nat a < 2 ^ 64 -> Z.of_nat b < 2 ^ 64 -> f (chunk_key key sep a) = f (chunk_key key sep b) -> a = b) ->
  Z.of_nat (i + length cs) < 2 ^ 64 -> NoDup (map (fun p => f p.1) (chunk_pairs key sep i cs)).
Proof.
  intros Hf. revert i. induction cs as [|c cs IH]; intros i Hi; cbn; [constructor|]. cbn in Hi. constructor.
  - intros (p & E1 & Hp)%list_elem_of_fmap. apply chunk_pairs_names in Hp as (j & Hj & E2).
    rewrite E2 in E1. apply Hf in E1; lia.
  - apply IH. lia.
Qed.

(** The server collects the pieces that are there. *)
Lemma collect_chunks_spec fuel get i cs :
  (length cs <= fuel)%nat ->
  (forall j c, cs !! j = Some c -> get (i + j)%nat = Some c) -> get (i + length cs)%nat = None ->
  collect_chunks fuel get i = Ret cs.
Proof.
  revert fuel i. induction cs as [|c cs IH]; intros fuel i Hf Hg Hn; cbn in Hn.
  - rewrite Nat.add_0_r in Hn. destruct fuel; cbn; by rewrite Hn.
  - destruct fuel as [|fuel]; cbn in Hf; [lia|]. cbn [collect_chunks].
    pose proof (Hg 0%nat c eq_refl) as H0. rewrite Nat.add_0_r in H0. rewrite H0.
    rewrite (IH fuel (S i)); [done|lia| |].
    + intros j d Hd. replace (S i + j)%nat with (i + S j)%nat by lia. by apply Hg.
    + by replace (S i + length cs)%nat with (i + S (length cs))%nat by lia.
Qed.

End chunks.

(** ** A request as it was filled *)

(** A value that is put somewhere, by its placement. *)
Definition placed (placement target : string) (key value : text) : list (text * text) :=
  if String.eqb placement target then [(key, value)] else [].

Definition set_queries (q : Values) (qs : list (text * text)) : Values :=
  foldl (fun q p => query_Set q p.1 p.2) q qs.

(** The request [r] has the path [p], the pairs [hs] set in the header [base],
    the cookies [cs] and the query pairs [qs], and is [r0] otherwise. *)
Record filled (base : Header) (r0 : Request) (p : text) (hs cs qs : list (text * text)) (r : Request) : Prop := {
  filled_method : r_Method r = r_Method r0;
  filled_host : r_Host r = r_Host r0;
  filled_path : r_Path r = p;
  filled_header : built base hs cs (r_Header r);
  filled_query : r_Query r = set_queries (r_Query r0) qs;
  filled_body : r_Body r = r_Body r0;
  filled_length : r_ContentLength r = r_ContentLength r0
}.

Lemma query_found q qs k v : NoDup (map fst qs) -> (k, v) ∈ qs -> query_Get (set_queries q qs) k = v.
Proof.
  revert q. induction qs as [|[m w] qs IH]; intros q Hd Hin; [by apply elem_of_nil in Hin|].
  cbn in Hd. apply NoDup_cons in Hd as [Hm Hd]. cbn [set_queries foldl].
  apply elem_of_cons in Hin as [[= -> ->]|Hin]; [|by apply IH].
  assert (forall q, (m ∉ map fst qs) -> query_Get (set_queries q qs) m = query_Get q m) as Hkeep.
  { clear. induction qs as [|[m' w'] qs IH]; intros q Hm; [done|].
    cbn in Hm. apply not_elem_of_cons in Hm as [Hne Hm]. cbn [set_queries foldl].
    fold (set_queries (query_Set q m' w') qs). rewrite IH by done. cbn [fst snd]. by rewrite query_Get_Set, decide_False. }
  fold (set_queries (query_Set q (m, w).1 (m, w).2) qs). rewrite Hkeep by done. cbn [fst snd]. by rewrite query_Get_Set, decide_True.
Qed.

Lemma filled_apply_meta base r0 p hs cs qs r placement key value :
  filled base r0 p hs cs qs r -> value ≠ [] ->
  (placement = PlacementHeader -> canon key ≠ cookie_key) ->
  (placement = PlacementCookie -> plain_cookie (key, value)) ->
  filled base r0 (if String.eqb placement PlacementPath then appendToPath p value else p)
    (hs ++ placed placement PlacementHeader key value) (cs ++ placed placement PlacementCookie key value)
    (qs ++ placed placement PlacementQuery key value) (apply_meta placement key value r).
Proof.
  intros [A B C D F G H] Hv Hh Hc. unfold apply_meta, placed.
  destruct value as [|b value]; [done|]. cbn [is_nil].
  destruct (String.eqb_spec placement PlacementPath) as [->|Hp].
  { cbn. rewrite !app_nil_r. split; cbn; try done. by rewrite C. }
  destruct (String.eqb_spec placement PlacementQuery) as [->|Hq].
  { cbn. rewrite !app_nil_r. split; cbn; try done. rewrite F. unfold set_queries. by rewrite foldl_app. }
  destruct (String.eqb_spec placement PlacementHeader) as [->|Hhd].
  { cbn [String.eqb]. rewrite !app_nil_r. split; try done. apply built_Set; auto. }
  destruct (String.eqb_spec placement PlacementCookie) as [->|Hck].
  { rewrite !app_nil_r. split; try done. apply built_AddCookie; auto. }
  rewrite !app_nil_r. by split.
Qed.

Lemma set_chunks_built base hs cs h key i chunks :
  built base hs cs h -> (forall j, canon (chunk_key key 45 j) ≠ cookie_key) ->
  built base (hs ++ chunk_pairs key 45 i chunks) cs (set_chunks h key i chunks).
Proof.
  intros H Hk. revert hs h i H. induction chunks as [|c chunks IH]; intros hs h i H; cbn [set_chunks chunk_pairs].
  - by rewrite app_nil_r.
  - rewrite cons_middle, app_assoc. apply IH. by apply built_Set.
Qed.

Lemma add_chunk_cookies_built base hs cs h key i chunks :
  built base hs cs h -> (forall j c, c ∈ chunks -> plain_cookie (chunk_key key 95 j, c)) ->
  built base hs (cs ++ chunk_pairs key 95 i chunks) (add_chunk_cookies h key i chunks).
Proof.
  intros H Hk. revert cs h i H. induction chunks as [|c chunks IH]; intros cs h i H; cbn [add_chunk_cookies chunk_pairs].
  - by rewrite app_nil_r.
  - rewrite cons_middle, app_assoc. apply IH.
    + intros j d Hd. apply Hk. in_list.
    + apply built_AddCookie; [done|]. apply Hk. in_list.
Qed.

(** ** The names in use *)

Definition meta_names (o : V2RayXHTTPOptions) (target : string) : list text :=
  (if String.eqb (GetNormalizedSessionPlacement o) target then [GetNormalizedSessionKey o] else []) ++
  (if String.eqb (GetNormalizedSeqPlacement o) target then [GetNormalizedSeqKey o] else []).

Definition pad_header_name (o : V2RayXHTTPOptions) : text :=
  if XPaddingObfsMode o then XPaddingHeader o else bytes_of "Referer".

Definition wants (o : V2RayXHTTPOptions) (target : string) : bool :=
  String.eqb (GetNormalizedUplinkDataPlacement o) PlacementAuto || String.eqb (GetNormalizedUplinkDataPlacement o) target.

(** The header names, the cookie names and the query keys the options give to
    the session, the number, the pieces and the padding are different names,
    and the headers the options add to every request have none of them. *)
Record apart (o : V2RayXHTTPOptions) (base : Header) : Prop := {
  apart_headers : NoDup (cookie_key :: map canon (pad_header_name o :: meta_names o PlacementHeader));
  apart_base k : k ∈ pad_header_name o :: meta_names o PlacementHeader -> base !! canon k = None;
  apart_cookie_base : base !! cookie_key = None;
  apart_data_headers i :
    wants o PlacementHeader = true ->
    (canon (chunk_key (UplinkDataKey o) 45 i) ∉ cookie_key :: map canon (pad_header_name o :: meta_names o PlacementHeader)) /\
    base !! canon (chunk_key (UplinkDataKey o) 45 i) = None;
  apart_cookies : NoDup (XPaddingKey o :: meta_names o PlacementCookie);
  apart_data_cookies i :
    wants o PlacementCookie = true ->
    isToken (UplinkDataKey o) = true /\
    (chunk_key (UplinkDataKey o) 95 i ∉ XPaddingKey o :: meta_names o PlacementCookie);
  apart_queries : NoDup (XPaddingKey o :: meta_names o PlacementQuery);
  apart_tokens : Forall (fun k => isToken k = true) (XPaddingKey o :: meta_names o PlacementCookie)
}.

(** A session id as the client makes them: no slash, and no character that a
    cookie cannot have. *)
Definition session_ok (sid : text) : Prop :=
  sid ≠ [] /\ Forall (fun c => validCookieValueByte c = true /\ c ≠ 47) sid.

(** ** Paths *)

Lemma normalized_path_slash o : exists p, GetNormalizedPath o = p ++ [47].
Proof.
  unfold GetNormalizedPath. destruct (bool_decide (last _ = Some 47)) eqn:Hl.
  - apply bool_decide_eq_true, last_Some in Hl as [p Hp]. by exists p.
  - eauto.
Qed.

Lemma append_to_slash p v : appendToPath (p ++ [47]) v = (p ++ [47]) ++ v.
Proof. unfold appendToPath. by rewrite HasSuffix_app. Qed.

Lemma append_to_segment p s v : s ≠ [] -> (47 ∉ s) -> appendToPath (p ++ s) v = p ++ s ++ 47 :: v.
Proof.
  intros Hs Hn. unfold appendToPath, HasSuffix. rewrite bool_decide_false; [by rewrite <-app_assoc|].
  intros E. destruct (exists_last (l := s)) as (l & c & ->); [done|].
  rewrite app_assoc, length_app in E. cbn [length] in E. rewrite Nat.add_sub, drop_app_length in E.
  injection E as ->. apply Hn. in_list.
Qed.

Definition in_path (placement : string) (v : text) : list text :=
  if String.eqb placement PlacementPath then [v] else [].

(** What the server splits of the path. *)
Lemma meta_path o p sid seq :
  GetNormalizedPath o = p -> sid ≠ [] -> (47 ∉ sid) -> (47 ∉ seq) ->
  let p1 := if String.eqb (GetNormalizedSessionPlacement o) PlacementPath then appendToPath p sid else p in
  let p2 := if String.eqb (GetNormalizedSeqPlacement o) PlacementPath then appendToPath p1 seq else p1 in
  exists rest, p2 = p ++ rest /\
    (in_path (GetNormalizedSessionPlacement o) sid ++ in_path (GetNormalizedSeqPlacement o) seq ≠ [] ->
     split_on 47 rest = in_path (GetNormalizedSessionPlacement o) sid ++ in_path (GetNormalizedSeqPlacement o) seq).
Proof.
  intros Hp Hs H1 H2. destruct (normalized_path_slash o) as [p' E]. rewrite Hp in E. subst p. rewrite E.
  unfold in_path. destruct (String.eqb (GetNormalizedSessionPlacement o) _), (String.eqb (GetNormalizedSeqPlacement o) _);
    rewrite ?append_to_slash.
  - rewrite append_to_segment by done. exists (sid ++ 47 :: seq). split; [done|]. intros _.
    rewrite split_on_app, split_on_absent by done. done.
  - exists sid. split; [done|]. intros _. by rewrite split_on_absent.
  - exists seq. split; [done|]. intros _. by rewrite split_on_absent.
  - exists []. by rewrite app_nil_r.
Qed.

Definition meta_placement (placement : string) : Prop :=
  placement ∈ [PlacementPath; PlacementCookie; PlacementHeader; PlacementQuery].

Lemma extract_meta_found placement key req v subpath :
  meta_placement placement ->
  (placement = PlacementHeader -> header_Get (r_Header req) key = v) ->
  (placement = PlacementCookie -> Cookie (r_Header req) key = Some v) ->
  (placement = PlacementQuery -> query_Get (r_Query req) key = v) ->
  extract_meta placement key req (in_path placement v ++ subpath) = (v, subpath).
Proof.
  intros Hp Hh Hc Hq. unfold extract_meta, in_path. unfold meta_placement in Hp.
  rewrite !elem_of_cons in Hp. destruct Hp as [->|[->|[->|[->|Hn%elem_of_nil]]]]; cbn [String.eqb]; [done|..|done].
  - by rewrite Hc.
  - by rewrite Hh.
  - by rewrite Hq.
Qed.

(** ** Checked options *)

Lemma default_of_Ret x d allowed m y : default_of x d allowed m = Ret y -> y ∈ d :: allowed /\ y ≠ EmptyString \/ y = d.
Proof.
  unfold default_of. destruct (String.eqb_spec x "") as [->|Hx]; [intros [= <-]; by right|].
  destruct (existsb _ _) eqn:Ee; [|done]. intros [= <-]. left. split; [|done].
  apply existsb_exists in Ee as (z & Hz & ->%String.eqb_eq). right. by apply list_elem_of_In.
Qed.

Record checked (o : V2RayXHTTPOptions) : Prop := {
  checked_padding : 0 < From (XPaddingBytes o) /\ 0 < To (XPaddingBytes o);
  checked_padding_placement :
    XPaddingPlacement o ∈ [PlacementCookie; PlacementHeader; PlacementQuery; PlacementQueryInHeader];
  checked_session : meta_placement (GetNormalizedSessionPlacement o);
  checked_seq : meta_placement (GetNormalizedSeqPlacement o);
  checked_data :
    GetNormalizedUplinkDataPlacement o ∈ [PlacementAuto; PlacementBody; PlacementCookie; PlacementHeader];
  checked_posts :
    Mode o ≠ "stream-one"%string -> Mode o ≠ "stream-up"%string -> 0 < From (GetNormalizedScMaxEachPostBytes o)
}.

Lemma placements_nonempty x (l : list string) : x ∈ l -> (EmptyString ∉ l) -> String.eqb x "" = false.
Proof. intros Hx Hl. apply String.eqb_neq. intros ->. done. Qed.

Lemma check_checked mode o0 o :
  checkV2RayXHTTPBaseOptions mode o0 = Ret o -> mode = Mode o -> checked o.
Proof.
  unfold checkV2RayXHTTPBaseOptions. intros H Hm.
  destruct (existsb _ (Headers o0)); [done|].
  destruct (Z.leb_spec (From (XPaddingBytes o0)) 0); [done|].
  destruct (Z.leb_spec (To (XPaddingBytes o0)) 0); [done|]. cbn [orb] in H.
  destruct (default_of (XPaddingPlacement o0) _ _ _) as [pp| |] eqn:Epp; [|done..]. cbn [mbind res_bind] in H.
  destruct (default_of (XPaddingMethod o0) _ _ _) as [pm| |] eqn:Epm; [|done..]. cbn [mbind res_bind] in H.
  match type of H with (?d ≫= _) = _ => destruct d as [dp| |] eqn:Edp; [|done..] end. cbn [mbind res_bind] in H.
  destruct (_ && negb _); [done|].
  destruct (default_of (SessionPlacement o0) _ _ _) as [sp| |] eqn:Esp; [|done..]. cbn [mbind res_bind] in H.
  destruct (default_of (SeqPlacement o0) _ _ _) as [qp| |] eqn:Eqp; [|done..]. cbn [mbind res_bind] in H.
  destruct (ServerMaxHeaderBytes o0 <? 0); [done|].
  destruct (_ && (From (GetNormalizedScMaxEachPostBytes o0) <=? 0)) eqn:Epost; [done|].
  match type of H with (?d ≫= _) = _ => destruct d as [xm| |]; [|done..] end. injection H as <-.
  cbn [Mode XPaddingBytes] in *.
  assert (forall x, default_of x "path" ["path"; "cookie"; "header"; "query"] "unsupported session placement" = Ret sp -> meta_placement sp) as Hsp.
  { intros x [[Hy _]| ->]%default_of_Ret; unfold meta_placement, PlacementPath, PlacementCookie, PlacementHeader, PlacementQuery;
      [|by left]. repeat rewrite elem_of_cons in Hy. rewrite !elem_of_cons. tauto. }
  assert (forall x, default_of x "path" ["path"; "cookie"; "header"; "query"] "unsupported seq placement" = Ret qp -> meta_placement qp) as Hqp.
  { intros x [[Hy _]| ->]%default_of_Ret; unfold meta_placement, PlacementPath, PlacementCookie, PlacementHeader, PlacementQuery;
      [|by left]. repeat rewrite elem_of_cons in Hy. rewrite !elem_of_cons. tauto. }
  assert (dp ∈ [PlacementAuto; PlacementBody; PlacementCookie; PlacementHeader]) as Hdp.
  { revert Edp. destruct (String.eqb (UplinkDataPlacement o0) ""); [intros [= <-]; left|].
    destruct (existsb _ [PlacementAuto; PlacementBody]) eqn:E1.
    - intros [= <-]. apply existsb_exists in E1 as (z & Hz & ->%String.eqb_eq).
      apply list_elem_of_In in Hz. repeat rewrite elem_of_cons in Hz. rewrite !elem_of_cons. rewrite elem_of_nil in Hz. tauto.
    - destruct (existsb _ [PlacementCookie; PlacementHeader]) eqn:E2; [|done].
      destruct (String.eqb mode "packet-up"); cbn [negb]; [|done]. intros [= <-]. apply existsb_exists in E2 as (z & Hz & ->%String.eqb_eq).
      apply list_elem_of_In in Hz. repeat rewrite elem_of_cons in Hz. rewrite !elem_of_cons. rewrite elem_of_nil in Hz. tauto. }
  specialize (Hsp _ Esp). specialize (Hqp _ Eqp). split; cbn.
  - lia.
  - unfold PlacementCookie, PlacementHeader, PlacementQuery, PlacementQueryInHeader.
    apply default_of_Ret in Epp as [[Hy _]| ->]; [|by do 3 right; left]. repeat rewrite elem_of_cons in Hy. rewrite !elem_of_cons. tauto.
  - unfold GetNormalizedSessionPlacement. cbn.
    rewrite (placements_nonempty sp _ Hsp) by (by apply (bool_decide_unpack _); vm_compute). done.
  - unfold GetNormalizedSeqPlacement. cbn.
    rewrite (placements_nonempty qp _ Hqp) by (by apply (bool_decide_unpack _); vm_compute). done.
  - unfold GetNormalizedUplinkDataPlacement. cbn.
    rewrite (placements_nonempty dp _ Hdp) by (by apply (bool_decide_unpack _); vm_compute). done.
  - intros Ho Hu. change (0 < From (GetNormalizedScMaxEachPostBytes o0)).
    rewrite Hm, (proj2 (String.eqb_neq _ _) Ho), (proj2 (String.eqb_neq _ _) Hu) in Epost. cbn [negb andb] in Epost.
    by apply Z.leb_gt in Epost.
Qed.

(** ** Token-like paddings *)

Section tokenish.
Context {E : XhttpEnv} {L : XhttpLaws E}.

Lemma code_bits_range c : 5 <= code_bits c <= 8.
Proof. unfold code_bits. repeat case_bool_decide; lia. Qed.

Lemma code_length_app a b : code_length (a ++ b) = code_length a + code_length b.
Proof. induction a as [|c a IH]; [done|]. unfold code_length in *. cbn. rewrite IH. lia. Qed.

Lemma code_length_range s : 5 * zlen s <= code_length s <= 8 * zlen s.
Proof.
  unfold zlen. induction s as [|c s IH]; [done|]. pose proof (code_bits_range c).
  unfold code_length in *. cbn [foldr length]. lia.
Qed.

Lemma code_bytes s : (code_length s + 7) / 8 <= zlen s.
Proof. pose proof (code_length_range s). apply Z.lt_succ_r, Z.div_lt_upper_bound; lia. Qed.

(** The characters of the random text. *)
Lemma pick_chars_spec charset limit n random s :
  pick_chars charset limit n random = Some s -> length s = n /\ Forall (fun c => c ∈ charset) s.
Proof.
  revert n s. induction random as [|rb random IH]; intros [|n] s; cbn [pick_chars]; try done; [by intros [= <-]..|].
  destruct (limit <=? rb); [by apply IH|]. destruct (charset !! _) as [c|] eqn:Ec; [|done]. cbn.
  destruct (pick_chars charset limit n random) as [t|] eqn:Et; [|done]. cbn. intros [= <-].
  destruct (IH n t Et) as [<- Hf]. split; [done|]. constructor; [|done]. by eapply list_elem_of_lookup_2.
Qed.

Lemma charset_alnum c : c ∈ charsetBase62 -> is_alnum c = true.
Proof.
  assert (forallb is_alnum charsetBase62 = true) as H by (by vm_compute). rewrite forallb_forall in H.
  intros Hc%list_elem_of_In. by apply H.
Qed.

(** The loop ends with a text of the length wanted, give or take two bytes:
    what is missing can be added, and what is too much taken away, in the
    rounds that are left. *)
Lemma tokenish_loop_spec iter t s c :
  1 <= t -> s ≠ [] -> Forall (fun c => is_alnum c = true) s -> c = 88 \/ c = 90 ->
  t - HuffmanEncodeLength s <= 2 + Z.of_nat iter ->
  HuffmanEncodeLength s <= t + 2 \/ zlen s <= t + 2 + Z.of_nat iter ->
  let v := tokenish_loop iter t s c in
  v ≠ [] /\ Forall (fun c => is_alnum c = true) v /\ Z.abs (HuffmanEncodeLength v - t) <= 2.
Proof.
  intros Ht. revert s c. induction iter as [|iter IH]; intros s c Hne Ha Hc Hlow Hhigh; cbn [tokenish_loop].
  - split_and!; [done..|]. rewrite Huffman_length in * by done. pose proof (code_length_range s).
    pose proof (code_bytes s). lia.
  - unfold validationTolerance. destruct (Z.leb_spec (Z.abs (HuffmanEncodeLength s - t)) 2) as [|Hd]; [done|].
    pose proof (code_length_range s) as Hr. rewrite Huffman_length in Hlow, Hhigh, Hd |- * by done.
    destruct (Z.ltb_spec ((code_length s + 7) / 8 - t) 0).
    + assert (Ha' : Forall (fun c => is_alnum c = true) (s ++ [c])).
      { apply Forall_app. split; [done|]. constructor; [|done]. by destruct Hc as [->| ->]. }
      assert (Hc8 : code_bits c = 8) by (by destruct Hc as [->| ->]).
      assert (Hl : (code_length (s ++ [c]) + 7) / 8 = (code_length s + 7) / 8 + 1).
      { rewrite code_length_app. unfold code_length at 2. cbn [foldr]. rewrite Hc8.
        replace (code_length s + (8 + 0) + 7) with (code_length s + 7 + 1 * 8) by lia. by rewrite Z.div_add by lia. }
      apply IH; [by destruct s|done|by destruct Hc as [->| ->]; [right|left]|..]; rewrite Huffman_length, Hl by done; lia.
    + pose proof (code_bytes s) as Hz.
      destruct (Nat.leb_spec (length s) 1) as [H1|H1]; [unfold zlen in *; lia|].
      destruct s as [|x s _] using rev_ind; [done|]. rewrite length_app in *. cbn [length] in *.
      rewrite Nat.add_sub, take_app_length. apply Forall_app in Ha as [Ha _].
      assert (Hl : (code_length (s ++ [x]) + 7) / 8 <= (code_length s + 7) / 8 + 1).
      { rewrite code_length_app. unfold code_length at 2. cbn [foldr]. pose proof (code_bits_range x).
        rewrite <- (Z.div_add (code_length s + 7) 1 8) by lia. apply Z.div_le_mono; lia. }
      unfold zlen in *. rewrite length_app in *. cbn [length] in *.
      apply IH; [destruct s; [cbn in H1; lia|done]|done|done|..]; rewrite Huffman_length by done; lia.
Qed.

(** A draw from which the rounds of the loop reach the length wanted. *)
Definition draw_close (t : Z) (s : text) : Prop :=
  t - HuffmanEncodeLength s <= 152 /\ (HuffmanEncodeLength s <= t + 2 \/ zlen s <= t + 152).

Definition reaches (r : Range) : Prop :=
  forall t s, From r <= t <= To r ->
    randStringFromCharset (Z.max 1 ((5 * t + 3) / 4)) charsetBase62 = Some s -> draw_close t s.

Lemma rand_spec n s :
  randStringFromCharset n charsetBase62 = Some s ->
  1 <= n /\ zlen s = n /\ Forall (fun c => is_alnum c = true) s.
Proof.
  unfold randStringFromCharset. destruct (Z.leb_spec n 0); [done|]. cbn [orb is_nil].
  change (is_nil charsetBase62) with false. intros [Hl Hf]%pick_chars_spec. unfold zlen. rewrite Hl.
  split_and!; [lia|lia|]. eapply Forall_impl; [exact Hf|]. apply charset_alnum.
Qed.

(** Up to six hundred bytes every draw is close enough. *)
Lemma reaches_600 r : 0 < From r -> To r <= 600 -> reaches r.
Proof.
  intros Hf Ht t s Hr (Hn & Hz & Ha)%rand_spec. unfold draw_close. rewrite Huffman_length by done.
  pose proof (code_length_range s) as Hc. rewrite Hz in *.
  assert (H1 : (5 * t + 3) / 4 <= t + 151) by (apply Z.div_le_upper_bound; lia).
  assert (H2 : 5 * t <= 4 * ((5 * t + 3) / 4)) by (pose proof (Z.div_mod (5 * t + 3) 4); pose proof (Z.mod_pos_bound (5 * t + 3) 4); lia).
  assert (H3 : code_length s <= 8 * ((code_length s + 7) / 8))
    by (pose proof (Z.div_mod (code_length s + 7) 8); pose proof (Z.mod_pos_bound (code_length s + 7) 8); lia).
  split; [lia|right; lia].
Qed.

Definition xs (n : nat) : text := replicate n 88.

Lemma xs_alnum n : Forall (fun c => is_alnum c = true) (xs n).
Proof. by apply Forall_replicate. Qed.

Lemma xs_length n : HuffmanEncodeLength (xs n) = Z.of_nat n.
Proof.
  rewrite Huffman_length by apply xs_alnum.
  assert (code_length (xs n) = 8 * Z.of_nat n) as ->.
  { induction n as [|n IH]; [done|]. unfold xs, code_length in *. cbn [replicate foldr].
    change (code_bits 88) with 8. lia. }
  rewrite Z.mul_comm, Z.div_add_l by lia. change (7 / 8) with 0. lia.
Qed.

(** A padding: letters and digits, of the length wanted. *)
Lemma GeneratePadding_spec method t r :
  0 < From r -> From r <= t <= To r -> (method = "tokenish"%string -> reaches r) ->
  let v := GeneratePadding method t in
  v ≠ [] /\ Forall (fun c => is_alnum c = true) v /\ Z.abs (HuffmanEncodeLength v - t) <= 2 /\
  (method ≠ "tokenish"%string -> zlen v = t).
Proof.
  intros Hf Hr Hm. unfold GeneratePadding. rewrite (proj2 (Z.leb_gt _ _)) by lia.
  assert (Hxs : xs (Z.to_nat t) ≠ [] /\ Forall (fun c => is_alnum c = true) (xs (Z.to_nat t)) /\
    Z.abs (HuffmanEncodeLength (xs (Z.to_nat t)) - t) <= 2 /\ (method ≠ "tokenish"%string -> zlen (xs (Z.to_nat t)) = t)).
  { split_and!; [|apply xs_alnum|rewrite xs_length; lia|intros _; unfold xs, zlen; rewrite length_replicate; lia].
    unfold xs. destruct (Z.to_nat t) eqn:Et; [lia|done]. }
  destruct (String.eqb_spec method "tokenish") as [He|Hne]; [|exact Hxs]. specialize (Hm He).
  unfold GenerateTokenishPaddingBase62. destruct (randStringFromCharset _ _) as [s|] eqn:Es; [|exact Hxs].
  destruct (Hm t s Hr Es) as [H1 H2]. apply rand_spec in Es as (Hn & Hz & Ha).
  destruct (tokenish_loop_spec 150 t s 88) as (G1 & G2 & G3); [lia| |done|by left|lia|lia|].
  { intros ->. change (zlen (@nil Z)) with 0 in Hz. lia. }
  destruct (tokenish_loop 150 t s 88) as [|x v] eqn:Ev; [done|]. cbn [is_nil]. by split_and!.
Qed.

End tokenish.

Section roundtrip.
Context {E : XhttpEnv} {L : XhttpLaws E}.
Context (o : V2RayXHTTPOptions) (base : Header).
Hypothesis Hchecked : checked o.
Hypothesis Hapart : apart o base.
Hypothesis Hpad : From (XPaddingBytes o) <= To (XPaddingBytes o).
Hypothesis Hmethod : XPaddingMethod o = "tokenish"%string -> reaches (XPaddingBytes o).
Hypothesis Hkey : XPaddingObfsMode o = true -> XPaddingPlacement o = PlacementQueryInHeader -> is_query_key (XPaddingKey o) = true.
Hypothesis Hchunk : forall r, UplinkChunkSize o = Some r -> From r <= To r.

(** ** The bytes of the piece *)

Definition data_pairs (target : string) (sep : Z) (chunks : list text) : list (text * text) :=
  if String.eqb (GetNormalizedUplinkDataPlacement o) target then chunk_pairs (UplinkDataKey o) sep 0 chunks else [].

(** The request with the body it gets. *)
Definition with_data_body (payload : list Z) (r : Request) : Request :=
  if wants o PlacementBody then with_body payload (zlen payload) r else r.

Lemma chunk_range :
  GetNormalizedUplinkDataPlacement o ∈ [PlacementCookie; PlacementHeader] ->
  1 <= From (GetNormalizedUplinkChunkSize o) <= To (GetNormalizedUplinkChunkSize o).
Proof.
  intros Hd. unfold GetNormalizedUplinkDataPlacement in Hd.
  assert (UplinkDataPlacement o ∈ [PlacementCookie; PlacementHeader]) as Hu.
  { destruct (String.eqb (UplinkDataPlacement o) ""); [|done].
    rewrite elem_of_cons, list_elem_of_singleton in Hd. by destruct Hd. }
  rewrite elem_of_cons, list_elem_of_singleton in Hu.
  unfold GetNormalizedUplinkChunkSize. destruct (UplinkChunkSize o) as [r|] eqn:Er.
  - pose proof (Hchunk r eq_refl). destruct (Z.eqb_spec (To r) 0).
    + destruct Hu as [-> | ->]; cbn; lia.
    + destruct (Z.ltb_spec (From r) 64); cbn; lia.
  - destruct Hu as [-> | ->]; cbn; lia.
Qed.

Lemma encoded_chunks_spec payload :
  GetNormalizedUplinkDataPlacement o ∈ [PlacementCookie; PlacementHeader] ->
  exists cs, encoded_chunks payload o = Ret cs /\ concat cs = EncodeToString payload /\ Forall (fun c => c ≠ []) cs.
Proof. intros Hd. apply payload_chunks_spec; [by apply chunk_range|done]. Qed.

Lemma pieces_count (cs : list text) : Forall (fun c => c ≠ []) cs -> (length cs <= length (concat cs))%nat.
Proof.
  induction 1 as [|c cs Hc _ IH]; cbn; [lia|]. rewrite length_app. destruct c; [done|]. cbn. lia.
Qed.

Lemma length_Encode bs : (length (EncodeToString bs) <= 2 * length bs)%nat.
Proof.
  induction bs as [|a|a b|a b c bs IH] using triples_ind; [cbn; lia..|].
  cbn [EncodeToString]. rewrite length_app. cbn [length]. lia.
Qed.

Lemma b64_cookie c : is_b64 c = true -> validCookieValueByte c = true.
Proof.
  unfold is_b64, b64_value, is_digit, validCookieValueByte. intros H%bool_decide_eq_true.
  destruct (Z.leb_spec 0x20 c); destruct (Z.ltb_spec c 0x7f); destruct (Z.eqb_spec c 34); destruct (Z.eqb_spec c 59);
    destruct (Z.eqb_spec c 92); cbn [negb andb]; try done; exfalso;
    destruct (Z.leb_spec 65 c); destruct (Z.leb_spec c 90); cbn [andb] in H; try lia;
    destruct (Z.leb_spec 97 c); destruct (Z.leb_spec c 122); cbn [andb] in H; try lia;
    destruct (Z.leb_spec 48 c); destruct (Z.leb_spec c 57); cbn [andb] in H; try lia;
    destruct (Z.eqb_spec c 45); try lia; destruct (Z.eqb_spec c 95); try lia; by destruct H.
Qed.

Lemma digit_token c : is_digit c = true -> is_token_byte c = true.
Proof. intros H. unfold is_token_byte. by rewrite H, !orb_true_r. Qed.

Lemma chunk_key_token key i :
  isToken key = true -> isToken (chunk_key key 95 i) = true.
Proof.
  intros (c & l & -> & Hf)%isToken_spec. apply isToken_intro; [done|]. unfold chunk_key.
  apply Forall_app. split; [done|]. constructor; [done|].
  eapply Forall_impl; [by apply digits_are_digits; lia|]. intros x. apply digit_token.
Qed.

(** [FillPacketRequest] puts the payload. *)
Lemma data_filled r payload :
  is_bytes payload -> zlen payload < 2 ^ 31 ->
  exists r1 cs,
    (if String.eqb (GetNormalizedUplinkDataPlacement o) PlacementBody || String.eqb (GetNormalizedUplinkDataPlacement o) PlacementAuto then
       Ret (with_body payload (zlen payload) (with_header base r))
     else if String.eqb (GetNormalizedUplinkDataPlacement o) PlacementHeader then
       header ← GetRequestHeaderWithPayload base payload o;
       Ret (with_header header r)
     else if String.eqb (GetNormalizedUplinkDataPlacement o) PlacementCookie then
       header ← with_payload_cookies base payload o;
       Ret (with_header header r)
     else Ret r) = Ret r1 /\
    filled base (with_data_body payload r) (r_Path r) (data_pairs PlacementHeader 45 cs) (data_pairs PlacementCookie 95 cs) [] r1 /\
    (wants o PlacementBody = false -> concat cs = EncodeToString payload) /\
    Forall (fun c => c ≠ []) cs /\ Z.of_nat (length cs) + 1 < 2 ^ 64.
Proof.
  intros Hb Hz. pose proof (checked_data _ Hchecked) as Hd. pose proof Hapart as [Ah Ab Ac Adh Ack Adc Aq At].
  unfold data_pairs, with_data_body, wants.
  assert (forall cs, concat cs = EncodeToString payload -> Forall (fun c => c ≠ []) cs -> Z.of_nat (length cs) + 1 < 2 ^ 64) as Hcount.
  { intros cs Hc Hne. apply pieces_count in Hne. rewrite Hc in Hne. pose proof (length_Encode payload). unfold zlen in Hz. lia. }
  repeat rewrite elem_of_cons in Hd. destruct Hd as [Hd|[Hd|[Hd|[Hd|Hn%elem_of_nil]]]]; try done; rewrite Hd; cbn [String.eqb Ascii.eqb Bool.eqb orb].
  - eexists _, []. split; [done|]. by split_and!.
  - eexists _, []. split; [done|]. by split_and!.
  - destruct (encoded_chunks_spec payload) as (cs & Ec & Hc & Hne); [rewrite Hd; left|].
    unfold with_payload_cookies. cbn. rewrite Ec. cbn [mbind res_bind]. eexists _, cs. split; [done|].
    split_and!; try done; [|by apply Hcount]. split; cbn; try done.
    apply (add_chunk_cookies_built base [] []); [by apply built_base|].
    intros j c Hj. split; cbn.
    + apply chunk_key_token. apply (Adc 0%nat). unfold wants. by rewrite Hd.
    + pose proof (EncodeToString_chars payload Hb) as Hch. rewrite <-Hc in Hch.
      apply Forall_forall. intros x Hx. apply b64_cookie. rewrite Forall_forall in Hch. apply Hch.
      apply list_elem_of_In, in_concat. exists c. split; by apply list_elem_of_In.
  - destruct (encoded_chunks_spec payload) as (cs & Ec & Hc & Hne); [rewrite Hd; right; left|].
    unfold GetRequestHeaderWithPayload. cbn. rewrite Ec. cbn [mbind res_bind]. eexists _, cs. split; [done|].
    split_and!; try done; [|by apply Hcount]. split; cbn; try done.
    apply (set_chunks_built base [] []); [by apply built_base|].
    intros j Hj. destruct (Adh j) as [Hnot _]; [unfold wants; by rewrite Hd|]. apply Hnot. rewrite Hj. left.
Qed.

(** ** The padding *)

(** The pairs the padding adds, with the value [v]. *)
Inductive padded (v : text) : list (text * text) -> list (text * text) -> list (text * text) -> Prop :=
| padded_referer u q :
  XPaddingObfsMode o = false -> u ≠ [] -> url_Query u = Some q -> query_Get q (bytes_of "x_padding") = v ->
  padded v [(bytes_of "Referer", u)] [] []
| padded_header :
  XPaddingObfsMode o = true -> XPaddingPlacement o = PlacementHeader -> padded v [(XPaddingHeader o, v)] [] []
| padded_query_in_header u q :
  XPaddingObfsMode o = true -> XPaddingPlacement o = PlacementQueryInHeader -> u ≠ [] -> url_Query u = Some q ->
  query_Get q (XPaddingKey o) = v -> padded v [(XPaddingHeader o, u)] [] []
| padded_cookie :
  XPaddingObfsMode o = true -> XPaddingPlacement o = PlacementCookie -> padded v [] [(XPaddingKey o, v)] []
| padded_query :
  XPaddingObfsMode o = true -> XPaddingPlacement o = PlacementQuery -> padded v [] [] [(XPaddingKey o, v)].

Lemma padding_range :
  GetNormalizedXPaddingBytes o = XPaddingBytes o /\
  From (XPaddingBytes o) <= Rand (XPaddingBytes o) 0 <= To (XPaddingBytes o).
Proof.
  destruct (checked_padding _ Hchecked). split; [|by apply Rand_range].
  unfold GetNormalizedXPaddingBytes. destruct (Z.eqb_spec (To (XPaddingBytes o)) 0); [lia|done].
Qed.

(** The padding of the client. *)
Definition pad_value : text :=
  GeneratePadding (if XPaddingObfsMode o then XPaddingMethod o else EmptyString) (Rand (XPaddingBytes o) 0).

Lemma pad_value_spec :
  pad_value ≠ [] /\ Forall (fun c => is_alnum c = true) pad_value /\
  IsPaddingValid o pad_value (From (XPaddingBytes o)) (To (XPaddingBytes o)) (XPaddingMethod o) = true.
Proof.
  destruct padding_range as [_ Hr]. pose proof (checked_padding _ Hchecked) as [H1 H2].
  destruct (GeneratePadding_spec (if XPaddingObfsMode o then XPaddingMethod o else EmptyString)
    (Rand (XPaddingBytes o) 0) (XPaddingBytes o)) as (G1 & G2 & G3 & G4); [lia|done|by destruct (XPaddingObfsMode o)|].
  fold pad_value in G1, G2, G3, G4. split; [done|]. split; [done|]. unfold IsPaddingValid.
  assert (is_nil pad_value = false) as -> by (by destruct pad_value).
  rewrite (proj2 (Z.leb_gt (To (XPaddingBytes o)) 0)) by lia. cbn [From To]. unfold validationTolerance.
  destruct (String.eqb_spec (XPaddingMethod o) "tokenish") as [He|Hne].
  - rewrite andb_true_iff, !Z.leb_le. pose proof (Huffman_length pad_value G2) as Hh.
    pose proof (code_length_range pad_value). assert (0 <= (code_length pad_value + 7) / 8)
      by (apply Z.div_pos; unfold zlen in *; lia). lia.
  - rewrite G4 by (by destruct (XPaddingObfsMode o)). rewrite andb_true_iff, !Z.leb_le. lia.
Qed.

Lemma alnum_plain key v :
  isToken key = true -> Forall (fun c => is_alnum c = true) v -> plain_cookie (key, v).
Proof.
  intros H Hv. split; [done|]. cbn. eapply Forall_impl; [exact Hv|]. intros c Hc%alnum_range.
  unfold validCookieValueByte. rewrite !andb_true_iff, !negb_true_iff, Z.leb_le, Z.ltb_lt, !Z.eqb_neq. lia.
Qed.

Lemma pad_key_token : isToken (XPaddingKey o) = true.
Proof. pose proof (apart_tokens _ _ Hapart) as H. by apply Forall_cons in H as [? _]. Qed.

Lemma pad_header_not_cookie : canon (pad_header_name o) ≠ cookie_key.
Proof.
  pose proof (apart_headers _ _ Hapart) as H. apply NoDup_cons in H as [H _]. intros Ec. apply H. rewrite <-Ec. left.
Qed.

Lemma is_nil_false (v : text) : v ≠ [] -> is_nil v = false.
Proof. by destruct v. Qed.

Lemma is_nil_token k : isToken k = true -> is_nil k = false.
Proof. by destruct k. Qed.

Lemma url_back raw key u v :
  is_query_key key = true -> Forall (fun c => is_alnum c = true) v -> url_with_query raw (key ++ 61 :: v) = Some u ->
  exists q, url_Query u = Some q /\ query_Get q key = v /\ u ≠ [].
Proof.
  intros Hk Hv Hu. assert (key ++ 61 :: v ≠ []) as Hnn by (by destruct key).
  destruct (url_query_back _ _ _ Hnn (query_chars key v Hk Hv) Hu) as [Hq Hne].
  exists (parse_query (key ++ 61 :: v)). unfold url_Query, query_Get. rewrite Hq, parse_query_one by done. done.
Qed.

Lemma pad_filled r0 p hs cs r :
  filled base r0 p hs cs [] r ->
  exists ph pc pq, padded pad_value ph pc pq /\
    filled base r0 p (hs ++ ph) (cs ++ pc) pq (ApplyXPaddingToRequest r (request_padding o r)).
Proof.
  intros F. pose proof pad_key_token as Hk. pose proof pad_header_not_cookie as Hnc. unfold pad_header_name in Hnc.
  destruct padding_range as [Hnr Hr]. pose proof (checked_padding _ Hchecked) as [H1 _].
  unfold request_padding. rewrite Hnr.
  destruct pad_value_spec as (Hn & Hv & _). pose proof Hkey as Hqk. unfold pad_value in *. set (n := GeneratePadding _ _) in *.
  pose proof F as [A B C D G H I]. destruct (XPaddingObfsMode o) eqn:Eo.
  - unfold ApplyXPaddingToRequest, ApplyXPaddingToHeader. cbn [p_Where p_Placement p_Key p_Header p_RawURL p_Method p_Length].
    fold n.
    pose proof (checked_padding_placement _ Hchecked) as Hpl. repeat rewrite elem_of_cons in Hpl.
    destruct Hpl as [Hpl|[Hpl|[Hpl|[Hpl|Hf%elem_of_nil]]]]; try done; rewrite Hpl.
    + exists [], [(XPaddingKey o, n)], []. split; [by apply padded_cookie|]. cbn [String.eqb]. rewrite app_nil_r.
      change (filled base r0 p hs (cs ++ [(XPaddingKey o, n)]) []
        (with_header (ApplyPaddingToCookie (r_Header r) (XPaddingKey o) n) r)).
      unfold ApplyPaddingToCookie. rewrite is_nil_token, is_nil_false by done. cbn [orb]. split; cbn; try done.
      apply built_AddCookie; [done|]. by apply alnum_plain.
    + exists [(XPaddingHeader o, n)], [], []. split; [by apply padded_header|]. rewrite app_nil_r.
      change (filled base r0 p (hs ++ [(XPaddingHeader o, n)]) cs []
        (with_header (header_Set (r_Header r) (XPaddingHeader o) n) r)).
      split; cbn; try done. by apply built_Set.
    + exists [], [], [(XPaddingKey o, n)]. split; [by apply padded_query|]. rewrite !app_nil_r.
      change (filled base r0 p hs cs [(XPaddingKey o, n)]
        (with_query (ApplyPaddingToQuery (r_Query r) (XPaddingKey o) n) r)).
      unfold ApplyPaddingToQuery. rewrite is_nil_token, is_nil_false by done. cbn [orb]. split; cbn; try done. by rewrite G.
    + destruct (url_String_parses r (XPaddingKey o ++ 61 :: n)) as [u Hu].
      destruct (url_back _ _ _ _ (Hqk eq_refl Hpl) Hv Hu) as (q & Hq & Hg & Hne).
      exists [(XPaddingHeader o, u)], [], []. split; [by eapply padded_query_in_header|]. rewrite app_nil_r.
      change (filled base r0 p (hs ++ [(XPaddingHeader o, u)]) cs []
        (with_header (match url_with_query (url_String r) (XPaddingKey o ++ 61 :: n) with
          | None => r_Header r | Some u => header_Set (r_Header r) (XPaddingHeader o) u end) r)).
      rewrite Hu. split; cbn; try done. by apply built_Set.
  - destruct (url_String_parses r (bytes_of "x_padding" ++ 61 :: n)) as [u Hu].
    destruct (url_back (url_String r) (bytes_of "x_padding") u n) as (q & Hq & Hg & Hne); [by vm_compute|done|done|].
    exists [(bytes_of "Referer", u)], [], []. split; [by eapply padded_referer|]. rewrite app_nil_r.
    assert (ApplyXPaddingToRequest r (mkPadding (Rand (XPaddingBytes o) 0)
      (mkPlacement PlacementQueryInHeader (bytes_of "x_padding") (bytes_of "Referer") (url_String r)) "") =
      with_header (header_Set (r_Header r) (bytes_of "Referer") u) r) as ->.
    { unfold ApplyXPaddingToRequest, ApplyXPaddingToHeader. cbn [p_Where p_Placement p_Key p_Header p_RawURL p_Method p_Length].
      fold n.
      change (String.eqb PlacementQueryInHeader PlacementHeader) with false.
      change (String.eqb PlacementQueryInHeader PlacementQueryInHeader) with true. cbn [orb]. by rewrite Hu. }
    split; try done. apply built_Set; [done|]. done.
Qed.

Lemma padded_cases v ph pc pq :
  padded v ph pc pq ->
  (exists u q, XPaddingObfsMode o = false /\ u ≠ [] /\ url_Query u = Some q /\
    query_Get q (bytes_of "x_padding") = v /\ ph = [(bytes_of "Referer", u)] /\ pc = [] /\ pq = []) \/
  (XPaddingObfsMode o = true /\
    ((XPaddingPlacement o = PlacementHeader /\ ph = [(XPaddingHeader o, v)] /\ pc = [] /\ pq = []) \/
     (exists u q, XPaddingPlacement o = PlacementQueryInHeader /\ u ≠ [] /\ url_Query u = Some q /\
       query_Get q (XPaddingKey o) = v /\ ph = [(XPaddingHeader o, u)] /\ pc = [] /\ pq = []) \/
     (XPaddingPlacement o = PlacementCookie /\ ph = [] /\ pc = [(XPaddingKey o, v)] /\ pq = []) \/
     (XPaddingPlacement o = PlacementQuery /\ ph = [] /\ pc = [] /\ pq = [(XPaddingKey o, v)]))).
Proof.
  destruct 1 as [u q|Ho|u q Ho|Ho|Ho]; [left; by exists u, q|right; split; [done|]..].
  - by left.
  - right. left. by exists u, q.
  - by do 2 right; left.
  - by do 3 right.
Qed.

(** ** The whole request *)

Section whole.
Context (sid seq payload : list Z) (cs : list text) (ph pc pq : list (text * text)) (pv : text) (r0 req : Request) (p : text).
Hypothesis Hsid : session_ok sid.
Hypothesis Hseq : seq ≠ [] /\ Forall (fun c => is_digit c = true) seq.
Hypothesis Hcs : Forall (fun c => c ≠ []) cs.
Hypothesis Hlen : Z.of_nat (length cs) + 1 < 2 ^ 64.
Hypothesis Hpadded : padded pv ph pc pq.
Hypothesis Hn : pv ≠ [].

Definition meta_pairs (target : string) : list (text * text) :=
  placed (GetNormalizedSessionPlacement o) target (GetNormalizedSessionKey o) sid ++
  placed (GetNormalizedSeqPlacement o) target (GetNormalizedSeqKey o) seq.

Definition all_headers : list (text * text) := data_pairs PlacementHeader 45 cs ++ ph ++ meta_pairs PlacementHeader.
Definition all_cookies : list (text * text) := data_pairs PlacementCookie 95 cs ++ pc ++ meta_pairs PlacementCookie.
Definition all_queries : list (text * text) := pq ++ meta_pairs PlacementQuery.

Hypothesis Hfilled : filled base r0 p all_headers all_cookies all_queries req.

Lemma meta_pairs_names {A} (f : text -> A) target : map (fun p => f p.1) (meta_pairs target) = map f (meta_names o target).
Proof.
  unfold meta_pairs, meta_names, placed. rewrite !map_app.
  by destruct (String.eqb (GetNormalizedSessionPlacement o) target), (String.eqb (GetNormalizedSeqPlacement o) target).
Qed.

Lemma meta_pairs_fst target : map fst (meta_pairs target) = meta_names o target.
Proof. rewrite <-(map_id (meta_names o target)). apply (meta_pairs_names (fun x => x)). Qed.

Lemma padded_names :
  (map fst ph = [] \/ map fst ph = [pad_header_name o]) /\ (map fst pc = [] \/ map fst pc = [XPaddingKey o]) /\
  (map fst pq = [] \/ map fst pq = [XPaddingKey o]).
Proof.
  unfold pad_header_name. destruct (padded_cases _ _ _ _ Hpadded)
    as [(u & q & Ho & _ & _ & _ & E1 & E2 & E3)|(Ho & [(_ & E1 & E2 & E3)|[(u & q & _ & _ & _ & _ & E1 & E2 & E3)|[(_ & E1 & E2 & E3)|(_ & E1 & E2 & E3)]]])];
    rewrite Ho, E1, E2, E3; cbn; auto.
Qed.

(** Distinct names of the data, the padding and the others. *)
Lemma NoDup_names {A} (dn pn mn : list A) x :
  NoDup (x :: mn) -> (pn = [] \/ pn = [x]) -> NoDup dn -> (forall y, y ∈ dn -> y ∉ x :: mn) -> NoDup (dn ++ pn ++ mn).
Proof.
  intros Hm Hp Hd Hy. apply NoDup_app. split_and!; [done| |].
  - intros y H1 H2. apply (Hy y H1). destruct Hp as [-> | ->]; cbn in H2; [by right|done].
  - destruct Hp as [-> | ->]; cbn; [by apply NoDup_cons in Hm as [_ ?]|done].
Qed.

Lemma data_names target sep x :
  x ∈ data_pairs target sep cs -> GetNormalizedUplinkDataPlacement o = target /\
    exists j, (j < length cs)%nat /\ x.1 = chunk_key (UplinkDataKey o) sep j.
Proof.
  unfold data_pairs. destruct (String.eqb_spec (GetNormalizedUplinkDataPlacement o) target); [|by intros ?%elem_of_nil].
  intros (j & Hj & Ex)%chunk_pairs_names. split; [done|]. exists j. split; [lia|done].
Qed.

Lemma wants_target target : GetNormalizedUplinkDataPlacement o = target -> wants o target = true.
Proof. unfold wants. intros ->. by rewrite String.eqb_refl, orb_true_r. Qed.

Lemma headers_NoDup : NoDup (map (fun p => canon p.1) all_headers).
Proof.
  pose proof Hapart as [Ah _ _ Adh _ _ _ _]. unfold all_headers. rewrite !map_app, meta_pairs_names.
  apply NoDup_cons in Ah as [_ Ah]. cbn [map] in Ah. apply NoDup_names with (canon (pad_header_name o)); [done| | |].
  - destruct padded_names as [Hp _]. rewrite <-(map_map fst canon). by destruct Hp as [-> | ->]; [left|right].
  - unfold data_pairs. destruct (String.eqb _ _); [|constructor].
    apply chunk_pairs_NoDup; [apply chunk_canon_inj|cbn; lia].
  - intros y (x & -> & [Hd (j & Hj & Ex)]%data_names)%list_elem_of_fmap Hin. rewrite Ex in Hin.
    destruct (Adh j) as [Hnot _]; [by apply wants_target|]. apply Hnot. by right.
Qed.

Lemma cookies_NoDup : NoDup (map fst all_cookies).
Proof.
  pose proof Hapart as [_ _ _ _ Ac Adc _ _]. unfold all_cookies. rewrite !map_app.
  rewrite meta_pairs_fst. apply NoDup_names with (XPaddingKey o); [done| | |].
  - apply padded_names.
  - unfold data_pairs. destruct (String.eqb _ _); [|constructor].
    apply (chunk_pairs_NoDup (fun x => x)); [apply chunk_key_inj|cbn; lia].
  - intros y (x & -> & [Hd (j & Hj & Ex)]%data_names)%list_elem_of_fmap. rewrite Ex.
    apply Adc. by apply wants_target.
Qed.

Lemma queries_NoDup : NoDup (map fst all_queries).
Proof.
  unfold all_queries. rewrite map_app, meta_pairs_fst.
  apply (NoDup_names [] _ _ (XPaddingKey o)); [apply (apart_queries _ _ Hapart)|apply padded_names|constructor|].
  by intros y ?%elem_of_nil.
Qed.

Lemma header_name_not_cookie k : k ∈ pad_header_name o :: meta_names o PlacementHeader -> canon k ≠ cookie_key.
Proof.
  intros Hk Ec. pose proof (apart_headers _ _ Hapart) as H. apply NoDup_cons in H as [H _]. apply H.
  rewrite <-Ec. by apply list_elem_of_fmap_2.
Qed.

Lemma cookie_name_nonempty k : k ∈ XPaddingKey o :: meta_names o PlacementCookie -> k ≠ [].
Proof.
  intros Hk ->. pose proof (apart_tokens _ _ Hapart) as H. rewrite Forall_forall in H. by apply H in Hk.
Qed.

Lemma found_header k v : (k, v) ∈ ph ++ meta_pairs PlacementHeader -> header_Get (r_Header req) k = v.
Proof.
  intros Hin. apply (built_found _ _ _ _ _ _ (filled_header _ _ _ _ _ _ _ Hfilled)); [|apply headers_NoDup|].
  - apply header_name_not_cookie. apply (list_elem_of_fmap_2 fst) in Hin. rewrite fmap_app in Hin.
    change (k ∈ map fst ph ++ map fst (meta_pairs PlacementHeader)) in Hin.
    rewrite meta_pairs_fst in Hin. destruct padded_names as [Hp _].
    destruct Hp as [Hp|Hp]; rewrite Hp in Hin; cbn in Hin; [by right|done].
  - unfold all_headers. apply elem_of_app. by right.
Qed.

Lemma found_cookie k v : (k, v) ∈ pc ++ meta_pairs PlacementCookie -> Cookie (r_Header req) k = Some v.
Proof.
  intros Hin. apply (cookie_found _ _ _ _ _ _ (filled_header _ _ _ _ _ _ _ Hfilled)); [|apply cookies_NoDup|].
  - apply cookie_name_nonempty. apply (list_elem_of_fmap_2 fst) in Hin. rewrite fmap_app in Hin.
    change (k ∈ map fst pc ++ map fst (meta_pairs PlacementCookie)) in Hin.
    rewrite meta_pairs_fst in Hin. destruct padded_names as (_ & Hp & _).
    destruct Hp as [Hp|Hp]; rewrite Hp in Hin; cbn in Hin; [by right|done].
  - unfold all_cookies. apply elem_of_app. by right.
Qed.

Lemma found_query k v : (k, v) ∈ all_queries -> query_Get (r_Query req) k = v.
Proof.
  intros Hin. rewrite (filled_query _ _ _ _ _ _ _ Hfilled). apply query_found; [apply queries_NoDup|done].
Qed.

(** *** The padding *)

Lemma no_pad_cookie : pc = [] -> Cookie (r_Header req) (XPaddingKey o) = None.
Proof.
  intros Hpc. apply (cookie_missing _ _ _ _ _ (filled_header _ _ _ _ _ _ _ Hfilled)).
  pose proof Hapart as [_ _ _ _ Ac Adc _ _]. apply NoDup_cons in Ac as [Hk _].
  unfold all_cookies. rewrite Hpc, !map_app, meta_pairs_fst. cbn [map app].
  rewrite elem_of_app. intros [Hin|Hin]; [|done].
  apply list_elem_of_fmap in Hin as (x & Ex & [Hd (j & Hj & Ej)]%data_names).
  destruct (Adc j) as [_ Hnot]; [by apply wants_target|]. apply Hnot. rewrite <-Ej, <-Ex. left.
Qed.

Lemma no_pad_header : ph = [] -> header_Get (r_Header req) (pad_header_name o) = [].
Proof.
  intros Hph. pose proof Hapart as [Ah Ab _ Adh _ _ _ _].
  apply (built_missing _ _ _ _ _ (filled_header _ _ _ _ _ _ _ Hfilled)).
  - apply header_name_not_cookie. left.
  - unfold all_headers. rewrite Hph, !map_app, meta_pairs_names. cbn [map app].
    apply NoDup_cons in Ah as [_ Ah]. cbn [map] in Ah. apply NoDup_cons in Ah as [Ha _].
    rewrite elem_of_app. intros [Hin|Hin]; [|done].
    apply list_elem_of_fmap in Hin as (x & Ex & [Hd (j & Hj & Ej)]%data_names).
    destruct (Adh j) as [Hnot _]; [by apply wants_target|]. apply Hnot. rewrite <-Ej, <-Ex. right. left.
  - apply Ab. left.
Qed.

Lemma padding_extracted : ExtractXPaddingFromRequest o req = pv.
Proof.
  unfold ExtractXPaddingFromRequest. pose proof found_header as FH. pose proof found_cookie as FC. pose proof found_query as FQ.
  pose proof no_pad_cookie as NC. pose proof no_pad_header as NH. unfold pad_header_name in NH.
  unfold all_queries in FQ.
  destruct (padded_cases _ _ _ _ Hpadded)
    as [(u & q & Ho & Hu & Hq & Hg & E1 & E2 & E3)|(Ho & [(Hp & E1 & E2 & E3)|[(u & q & Hp & Hu & Hq & Hg & E1 & E2 & E3)|[(Hp & E1 & E2 & E3)|(Hp & E1 & E2 & E3)]]])];
    rewrite Ho, E1, E2, E3 in *; cbn [negb].
  - rewrite (FH (bytes_of "Referer") u) by (apply elem_of_app; left; left).
    destruct u as [|c u]; [done|]. cbn [is_nil negb]. by rewrite Hq.
  - rewrite NC by done. rewrite (FH (XPaddingHeader o) pv) by (apply elem_of_app; left; left).
    rewrite is_nil_false by done. cbn [negb]. by rewrite Hp.
  - rewrite NC by done. rewrite (FH (XPaddingHeader o) u) by (apply elem_of_app; left; left).
    destruct u as [|c u]; [done|]. cbn [is_nil negb]. rewrite Hp, Hq. done.
  - rewrite (FC (XPaddingKey o) pv) by (apply elem_of_app; left; left). by destruct pv.
  - rewrite NC, NH by done. cbn [is_nil negb]. apply FQ. apply elem_of_app. left. left.
Qed.

(** *** The session and the number *)

Lemma placed_session target :
  GetNormalizedSessionPlacement o = target -> (GetNormalizedSessionKey o, sid) ∈ meta_pairs target.
Proof. intros Ht. unfold meta_pairs, placed. rewrite Ht, String.eqb_refl. left. Qed.

Lemma placed_seq target :
  GetNormalizedSeqPlacement o = target -> (GetNormalizedSeqKey o, seq) ∈ meta_pairs target.
Proof.
  intros Ht. unfold meta_pairs, placed. rewrite Ht, String.eqb_refl. apply elem_of_app. right. left.
Qed.

Lemma sid_no_slash : 47 ∉ sid.
Proof. destruct Hsid as [_ Hf]. intros Hin. rewrite Forall_forall in Hf. by apply Hf in Hin as [_ ?]. Qed.

Lemma seq_no_slash : 47 ∉ seq.
Proof. destruct Hseq as [_ Hf]. intros Hin. rewrite Forall_forall in Hf. by apply Hf in Hin. Qed.

Lemma meta_extracted rest :
  r_Path req = GetNormalizedPath o ++ rest ->
  (in_path (GetNormalizedSessionPlacement o) sid ++ in_path (GetNormalizedSeqPlacement o) seq ≠ [] ->
   split_on 47 rest = in_path (GetNormalizedSessionPlacement o) sid ++ in_path (GetNormalizedSeqPlacement o) seq) ->
  ExtractMetaFromRequest o req (GetNormalizedPath o) = Ret (sid, seq).
Proof.
  intros Hp Hs. unfold ExtractMetaFromRequest.
  assert ((if String.eqb (GetNormalizedSessionPlacement o) PlacementPath || String.eqb (GetNormalizedSeqPlacement o) PlacementPath
    then rest ← go_from (r_Path req) (zlen (GetNormalizedPath o)); Ret (split_on 47 rest) else Ret []) =
    Ret (in_path (GetNormalizedSessionPlacement o) sid ++ in_path (GetNormalizedSeqPlacement o) seq)) as ->.
  { rewrite Hp, go_from_app by done. cbn [mbind res_bind]. unfold in_path in *.
    destruct (String.eqb (GetNormalizedSessionPlacement o) _), (String.eqb (GetNormalizedSeqPlacement o) _); cbn in *;
      [by rewrite Hs..|done]. }
  cbn [mbind res_bind]. rewrite (extract_meta_found _ _ _ sid).
  - rewrite <-(app_nil_r (in_path (GetNormalizedSeqPlacement o) seq)), (extract_meta_found _ _ _ seq); [done|apply Hchecked|..]; intros Ht.
    + apply found_header, elem_of_app. right. by apply placed_seq.
    + apply found_cookie, elem_of_app. right. by apply placed_seq.
    + apply found_query, elem_of_app. right. by apply placed_seq.
  - apply Hchecked.
  - intros Ht. apply found_header, elem_of_app. right. by apply placed_session.
  - intros Ht. apply found_cookie, elem_of_app. right. by apply placed_session.
  - intros Ht. apply found_query, elem_of_app. right. by apply placed_session.
Qed.

(** *** The payload *)

(** The pieces the server finds in the headers or the cookies. *)
Definition pieces (target : string) : list text :=
  if String.eqb (GetNormalizedUplinkDataPlacement o) target then cs else [].

Lemma pieces_lookup target sep j c :
  pieces target !! j = Some c -> (chunk_key (UplinkDataKey o) sep j, c) ∈ data_pairs target sep cs /\ c ≠ [].
Proof.
  unfold pieces, data_pairs. destruct (String.eqb _ _); [|done]. intros Hj. split.
  - by apply (chunk_pairs_lookup _ _ 0).
  - by eapply Forall_lookup_1 in Hcs.
Qed.

Lemma pieces_end target sep x :
  x ∈ data_pairs target sep cs ->
  exists j, (j < length (pieces target))%nat /\ x.1 = chunk_key (UplinkDataKey o) sep j.
Proof.
  intros [Hd (j & Hj & Ex)]%data_names. exists j. unfold pieces. rewrite Hd, String.eqb_refl. done.
Qed.

Lemma pieces_short target : Z.of_nat (length (pieces target)) + 1 < 2 ^ 64.
Proof. unfold pieces. destruct (String.eqb _ _); [done|cbn; lia]. Qed.

Lemma piece_header j c :
  wants o PlacementHeader = true -> pieces PlacementHeader !! j = Some c ->
  header_Get (r_Header req) (chunk_key (UplinkDataKey o) 45 j) = c /\ c ≠ [].
Proof.
  intros Hw [Hin Hne]%(pieces_lookup _ 45). split; [|done].
  apply (built_found _ _ _ _ _ _ (filled_header _ _ _ _ _ _ _ Hfilled)); [|apply headers_NoDup|].
  - intros Ec. destruct (apart_data_headers _ _ Hapart j Hw) as [Hnot _]. apply Hnot. rewrite Ec. left.
  - unfold all_headers. apply elem_of_app. by left.
Qed.

Lemma headers_size :
  wants o PlacementHeader = true -> (length (pieces PlacementHeader) <= size (r_Header req))%nat.
Proof.
  intros Hw. pose proof (pieces_short PlacementHeader) as Hsh.
  set (ks := map (fun j => canon (chunk_key (UplinkDataKey o) 45 j)) (List.seq 0 (length (pieces PlacementHeader)))).
  assert (length ks = length (pieces PlacementHeader)) as <- by (unfold ks; by rewrite length_map, length_seq).
  assert (NoDup ks) as Hd.
  { unfold ks. apply NoDup_fmap_2_strong; [|apply NoDup_seq]. intros a b Ha%elem_of_seq Hb%elem_of_seq Eab.
    apply chunk_canon_inj in Eab; lia. }
  rewrite <-(size_list_to_set (C := gset text) ks Hd), <-size_dom. apply subseteq_size.
  intros k Hk. apply elem_of_list_to_set in Hk. unfold ks in Hk.
  apply list_elem_of_fmap in Hk as (j & -> & Hj%elem_of_seq).
  destruct (lookup_lt_is_Some_2 (pieces PlacementHeader) j) as [c Hc]; [lia|].
  destruct (piece_header j c Hw Hc) as [Hg Hne]. apply elem_of_dom.
  unfold header_Get, header_Values in Hg. destruct (r_Header req !! _); [done|]. by subst c.
Qed.

Lemma header_payload :
  wants o PlacementHeader = true ->
  headerPayload req (UplinkDataKey o) = Ret (DecodeString (concat (pieces PlacementHeader))).
Proof.
  intros Hw. unfold headerPayload. rewrite (collect_chunks_spec _ _ 0 (pieces PlacementHeader)); [done|by apply headers_size|..].
  - intros j c Hj. cbn [Nat.add]. destruct (piece_header j c Hw Hj) as [-> Hne]. by destruct c.
  - cbn [Nat.add]. set (m := length (pieces PlacementHeader)).
    destruct (apart_data_headers _ _ Hapart m Hw) as [Hnot Hb].
    rewrite (built_missing _ _ _ _ _ (filled_header _ _ _ _ _ _ _ Hfilled)); [done| | |done].
    + intros Ec. apply Hnot. rewrite Ec. left.
    + unfold all_headers. rewrite !map_app, meta_pairs_names, !elem_of_app. intros [Hin|[Hin|Hin]].
      * apply list_elem_of_fmap in Hin as (x & Ex & (j & Hj & Ej)%pieces_end). rewrite Ej in Ex.
        pose proof (pieces_short PlacementHeader). apply chunk_canon_inj in Ex; unfold m in *; lia.
      * apply Hnot. rewrite <-(map_map fst canon) in Hin. destruct padded_names as [[Hp|Hp] _]; rewrite Hp in Hin;
          [by apply elem_of_nil in Hin|apply list_elem_of_singleton in Hin; rewrite Hin; right; left].
      * apply Hnot. right. by right.
Qed.

Lemma cookie_payload :
  wants o PlacementCookie = true ->
  cookiePayload req (UplinkDataKey o) = Ret (DecodeString (concat (pieces PlacementCookie))).
Proof.
  intros Hw. pose proof (filled_header _ _ _ _ _ _ _ Hfilled) as HB. unfold cookiePayload.
  rewrite (collect_chunks_spec _ _ 0 (pieces PlacementCookie)); [done|..].
  - rewrite (readCookies_has _ all_cookies) by apply HB. unfold all_cookies, data_pairs, pieces.
    rewrite length_app. destruct (String.eqb _ _); [|cbn; lia].
    assert (forall i l, length (chunk_pairs (UplinkDataKey o) 95 i l) = length l) as ->; [|lia].
    intros i l. revert i. induction l as [|c l IH]; intros i; cbn; [done|]. by rewrite IH.
  - intros j c Hj. cbn [Nat.add]. destruct (pieces_lookup _ 95 _ _ Hj) as [Hin _].
    apply (cookie_found _ _ _ _ _ _ HB); [by destruct (UplinkDataKey o)|apply cookies_NoDup|].
    unfold all_cookies. apply elem_of_app. by left.
  - cbn [Nat.add]. set (m := length (pieces PlacementCookie)). apply (cookie_missing _ _ _ _ _ HB).
    destruct (apart_data_cookies _ _ Hapart m Hw) as [_ Hnot].
    unfold all_cookies. rewrite !map_app, meta_pairs_fst, !elem_of_app. intros [Hin|[Hin|Hin]].
    + apply list_elem_of_fmap in Hin as (x & Ex & (j & Hj & Ej)%pieces_end). rewrite Ej in Ex.
      pose proof (pieces_short PlacementCookie). apply chunk_key_inj in Ex; unfold m in *; lia.
    + apply Hnot. destruct padded_names as (_ & [Hp|Hp] & _); rewrite Hp in Hin;
        [by apply elem_of_nil in Hin|apply list_elem_of_singleton in Hin; rewrite Hin; left].
    + apply Hnot. by right.
Qed.

Lemma body_payload pooled max :
  (forall k, zlen (pooled k) = Size) -> r_Body req = payload -> r_ContentLength req = zlen payload -> zlen payload <= max ->
  bodyPayload pooled req max = Ret (inr payload).
Proof.
  intros Hpool Hb Hl Hm. unfold bodyPayload. rewrite Hb, Hl, (proj2 (Z.ltb_ge _ _)) by lia.
  destruct (Z.ltb_spec 0 (zlen payload)) as [Hp|Hp].
  - rewrite Z.ltb_irrefl. unfold zlen. rewrite Nat2Z.id, firstn_all. done.
  - assert (payload = []) as E0 by (unfold zlen in Hp; destruct payload; cbn in Hp; [done|lia]).
    rewrite E0, take_nil, ReadAllToBytes_spec by (try done; cbn; lia). done.
Qed.

Lemma packet_payload_found pooled r :
  (forall k, zlen (pooled k) = Size) -> r0 = with_data_body payload r -> is_bytes payload ->
  zlen payload <= To (GetNormalizedScMaxEachPostBytes o) ->
  (wants o PlacementBody = false -> concat cs = EncodeToString payload) ->
  packet_payload pooled o req = Ret (inr payload).
Proof.
  intros Hpool Hr0 Hb Hm Hc. unfold packet_payload. fold (wants o PlacementHeader). fold (wants o PlacementCookie).
  fold (wants o PlacementBody).
  pose proof header_payload as HP. pose proof cookie_payload as CP. unfold pieces in HP, CP.
  assert (wants o PlacementBody = true -> bodyPayload pooled req (To (GetNormalizedScMaxEachPostBytes o)) = Ret (inr payload)) as BP.
  { intros Hw. apply body_payload; [done| | |done]; rewrite ?(filled_body _ _ _ _ _ _ _ Hfilled), ?(filled_length _ _ _ _ _ _ _ Hfilled), Hr0;
      unfold with_data_body; by rewrite Hw. }
  assert (DecodeString [] = Some []) as D0 by done.
  assert (wants o PlacementBody = false -> DecodeString (concat cs) = Some payload) as DP
    by (intros Hw; rewrite (Hc Hw); by apply Decode_Encode).
  unfold wants in *. pose proof (checked_data _ Hchecked) as Hd. repeat rewrite elem_of_cons in Hd.
  destruct Hd as [Hd|[Hd|[Hd|[Hd|Hf%elem_of_nil]]]]; try done; rewrite Hd in HP, CP, BP, DP |- *.
  - rewrite HP, CP, BP by done. cbn -[DecodeString zlen]. rewrite D0. cbn -[zlen].
    rewrite (proj2 (Z.ltb_ge _ _)) by lia. done.
  - rewrite BP by done. cbn -[zlen]. rewrite (proj2 (Z.ltb_ge _ _)) by lia. done.
  - rewrite CP by done. cbn -[DecodeString zlen concat]. rewrite DP by done. cbn -[zlen].
    rewrite (proj2 (Z.ltb_ge _ _)) by lia. done.
  - rewrite HP by done. cbn -[DecodeString zlen concat]. rewrite DP by done. cbn -[zlen].
    rewrite (proj2 (Z.ltb_ge _ _)) by lia. done.
Qed.

End whole.

(** *** The client's request and the server's answer *)

Lemma request_filled r sid seq payload :
  r_Path r = GetNormalizedPath o -> session_ok sid -> (seq ≠ [] /\ Forall (fun c => is_digit c = true) seq) ->
  is_bytes payload -> zlen payload < 2 ^ 31 ->
  exists req cs ph pc pq rest,
    FillPacketRequest o base r sid seq payload = Ret req /\
    filled base (with_data_body payload r) (GetNormalizedPath o ++ rest) (all_headers sid seq cs ph)
      (all_cookies sid seq cs pc) (all_queries sid seq pq) req /\
    (in_path (GetNormalizedSessionPlacement o) sid ++ in_path (GetNormalizedSeqPlacement o) seq ≠ [] ->
     split_on 47 rest = in_path (GetNormalizedSessionPlacement o) sid ++ in_path (GetNormalizedSeqPlacement o) seq) /\
    padded pad_value ph pc pq /\
    Forall (fun c => c ≠ []) cs /\ Z.of_nat (length cs) + 1 < 2 ^ 64 /\
    (wants o PlacementBody = false -> concat cs = EncodeToString payload).
Proof.
  intros Hp Hsid Hseq Hb Hz.
  destruct (data_filled r payload Hb Hz) as (r1 & cs & Edata & F1 & Hc & Hne & Hlen).
  destruct (pad_filled _ _ _ _ _ F1) as (ph & pc & pq & Hpadded & F2).
  assert (forall k v, k ∈ meta_names o PlacementCookie -> Forall (fun b => validCookieValueByte b = true) v ->
    plain_cookie (k, v)) as Hplain.
  { intros k v Hk Hv. split; [|done]. pose proof (apart_tokens _ _ Hapart) as Ht. apply Forall_cons in Ht as [_ Ht].
    rewrite Forall_forall in Ht. by apply Ht. }
  apply (filled_apply_meta _ _ _ _ _ _ _ (GetNormalizedSessionPlacement o) (GetNormalizedSessionKey o) sid) in F2; [|apply Hsid|..].
  2:{ intros Ht. apply header_name_not_cookie. right. unfold meta_names. rewrite Ht, String.eqb_refl. left. }
  2:{ intros Ht. apply Hplain; [unfold meta_names; rewrite Ht, String.eqb_refl; left|].
      destruct Hsid as [_ Hf]. eapply Forall_impl; [done|]. by intros x []. }
  apply (filled_apply_meta _ _ _ _ _ _ _ (GetNormalizedSeqPlacement o) (GetNormalizedSeqKey o) seq) in F2; [|apply Hseq|..].
  2:{ intros Ht. apply header_name_not_cookie. right. unfold meta_names. rewrite Ht, String.eqb_refl.
      apply elem_of_app. right. left. }
  2:{ intros Ht. apply Hplain; [unfold meta_names; rewrite Ht, String.eqb_refl; apply elem_of_app; right; left|].
      destruct Hseq as [_ Hf]. eapply Forall_impl; [done|]. intros x Hx. unfold is_digit, validCookieValueByte in *.
      rewrite andb_true_iff, !Z.leb_le in Hx.
      rewrite (proj2 (Z.leb_le _ _)), (proj2 (Z.ltb_lt _ _)), !(proj2 (Z.eqb_neq _ _)) by lia. done. }
  destruct (meta_path o (GetNormalizedPath o) sid seq) as (rest & Epath & Hsplit);
    [done|apply Hsid|by apply sid_no_slash|by apply seq_no_slash|].
  rewrite Hp, Epath in F2. unfold FillPacketRequest. rewrite Edata. cbn [mbind res_bind].
  eexists _, cs, ph, pc, pq, rest. split; [done|]. split_and!; try done.
  unfold all_headers, all_cookies, all_queries, meta_pairs. rewrite <-!app_assoc in F2. exact F2.
Qed.

End roundtrip.

(** What the request of a packet is built from: checked options that allow
    packets and give their names to one thing each, a request for the path of
    the transport, and the id of a session.  A padding key that is written into
    the query of a header as it is has no character that means something there,
    and a token-like padding is asked for whose random draw is close enough to
    its length to be brought to it, as all up to 600 bytes are
    ([reaches_600]). *)
Record usable {E : XhttpEnv} (o0 o : V2RayXHTTPOptions) (base : Header) (r : Request) (sid : text) : Prop := {
  usable_check : checkV2RayXHTTPBaseOptions (Mode o) o0 = Ret o;
  usable_mode : mode_is o [""; "auto"; "packet-up"] = true;
  usable_apart : apart o base;
  usable_padding : From (XPaddingBytes o) <= To (XPaddingBytes o);
  usable_method : XPaddingMethod o = "tokenish"%string -> reaches (XPaddingBytes o);
  usable_key : XPaddingObfsMode o = true -> XPaddingPlacement o = PlacementQueryInHeader -> is_query_key (XPaddingKey o) = true;
  usable_chunks c : UplinkChunkSize o = Some c -> From c <= To c;
  usable_path : r_Path r = GetNormalizedPath o;
  usable_options : r_Method r ≠ bytes_of "OPTIONS";
  usable_host : is_nil (Host o) || isValidHTTPHost (r_Host r) (Host o) = true;
  usable_session : session_ok sid
}.

(** What the server does with the packet of a request whose session has the
    number [i]: it is in the queue, or [Push] has failed. *)
Definition packet_answer (Push : nat -> option string) (i : nat) (p : Packet) : answer :=
  match Push i with None => PushPacket i p | Some _ => Respond 500 end.

Lemma packet_served {E : XhttpEnv} {L : XhttpLaws E} pooled Push o0 o base r s sid n payload :
  (forall k, zlen (pooled k) = Size) ->
  usable o0 o base r sid -> 0 <= n < 2 ^ 64 -> is_bytes payload ->
  zlen payload <= To (GetNormalizedScMaxEachPostBytes o) < 2 ^ 31 ->
  exists req, FillPacketRequest o base r sid (FormatInt n) payload = Ret req /\
    ServeHTTP pooled Push o s req =
      Ret ((upsertSession s sid).1, packet_answer Push (upsertSession s sid).2 (mkPacket None payload n)).
Proof.
  intros Hpool [Hcheck Hmode Hapart Hpad Hmethod Hkey Hchunk Hpath Hopt Hhost Hsid] Hn Hb Hm.
  apply check_checked in Hcheck as Hck; [|done].
  assert (FormatInt n ≠ [] /\ Forall (fun c => is_digit c = true) (FormatInt n)) as Hseq
    by (split; [by apply digits_nonempty|apply digits_are_digits; lia]).
  destruct (request_filled o base Hck Hapart Hpad Hmethod Hkey Hchunk r sid (FormatInt n) payload)
    as (req & cs & ph & pc & pq & rest & Ereq & F & Hsplit & Hpadded & Hne & Hlen & Hc); try done; [lia|].
  exists req. split; [done|]. destruct (padding_range o Hck Hpad) as [Hnr Hr].
  destruct (pad_value_spec o Hck Hpad Hmethod Hkey) as (Hx & _ & Hvalid).
  unfold ServeHTTP. rewrite (filled_host _ _ _ _ _ _ _ F), (filled_path _ _ _ _ _ _ _ F), (filled_method _ _ _ _ _ _ _ F).
  assert (r_Host (with_data_body o payload r) = r_Host r) as -> by (unfold with_data_body; by destruct (wants _ _)).
  assert (r_Method (with_data_body o payload r) = r_Method r) as -> by (unfold with_data_body; by destruct (wants _ _)).
  assert (negb (is_nil (Host o)) && negb (isValidHTTPHost (r_Host r) (Host o)) = false) as ->
    by (destruct (is_nil (Host o)); cbn in *; [done|by rewrite Hhost]).
  rewrite HasPrefix_app. cbn [negb]. rewrite bool_decide_false by done.
  rewrite (padding_extracted o base Hapart Hkey sid (FormatInt n) cs ph pc pq _ _ req _ Hlen Hpadded Hx F).
  rewrite Hnr, Hvalid. cbn [negb].
  rewrite (meta_extracted o base Hck Hapart sid (FormatInt n) cs ph pc pq _ _ req _ Hlen Hpadded F rest (filled_path _ _ _ _ _ _ _ F) Hsplit).
  cbn [mbind res_bind].
  assert (is_nil sid = false) as -> by (destruct Hsid as [Hs _]; by destruct sid).
  assert (is_nil (FormatInt n) = false) as -> by (destruct Hseq as [Hs _]; by destruct (FormatInt n)).
  rewrite (packet_payload_found o base Hck Hapart sid (FormatInt n) payload cs ph pc pq _ _ req _ Hne Hlen Hpadded F pooled r
    Hpool eq_refl Hb ltac:(lia) Hc).
  rewrite ParseUint_FormatInt by done. cbn [mbind res_bind negb andb].
  rewrite andb_false_r. cbn [andb].
  assert (negb (mode_is o [""; "auto"]) && mode_is o ["stream-one"] = false /\
    negb (mode_is o [""; "auto"]) && negb (mode_is o ["packet-up"]) = false) as [H1 H2].
  { unfold mode_is in *. cbn [existsb] in *. rewrite !orb_false_r in *.
    destruct (String.eqb_spec (Mode o) ""); [done|]. destruct (String.eqb_spec (Mode o) "auto"); [done|]. cbn [orb] in Hmode.
    apply String.eqb_eq in Hmode. by rewrite Hmode. }
  rewrite andb_true_r, H1, H2. unfold packet_answer. destruct (upsertSession s sid) as [s' i]. cbn [fst snd].
  destruct (bool_decide _), (Push i); done.
Qed.

