(* ===== verification/XhttpServer.v ===== *)
(** * The server of the XHTTP transport on any request, and its sessions
    (src/transport/v2rayxhttp/server.go)

    The handler answers every request, whoever made it, with one of a few
    status codes, or gives the request to the queue of a session of bounded
    packets, or makes a connection of it.  Sessions live in a table that the
    handlers, the downloads that end and the timers of sessions that nobody
    downloads from share. *)

From S2P Require Import Prelude XrayBuf GoText GoHttp UploadQueue Xhttp XhttpRoundTrip.

(** ** Every request is answered *)

(** Pieces under different names, all of them in a list. *)
Lemma collect_chunks_total {A} `{EqDecision A} (name : nat -> A) fuel get i (l : list A) :
  (length l <= fuel)%nat ->
  (forall j, (i <= j <= i + fuel)%nat -> is_Some (get j) -> name j ∈ l) ->
  (forall j k, (i <= j <= i + fuel)%nat -> (i <= k <= i + fuel)%nat -> name j = name k -> j = k) ->
  exists cs, collect_chunks fuel get i = Ret cs.
Proof.
  revert i l. induction fuel as [|fuel IH]; intros i l Hl Hin Hinj; cbn [collect_chunks].
  - destruct (get i) eqn:Eg; [|by eexists]. assert (name i ∈ l) as Hn by (apply Hin; [lia|by eexists]).
    destruct l; [by apply elem_of_nil in Hn|cbn in Hl; lia].
  - destruct (get i) as [chunk|] eqn:Eg; [|by eexists].
    assert (name i ∈ l) as Hn by (apply Hin; [lia|by eexists]).
    destruct (IH (S i) (filter (fun x => x ≠ name i) l)) as [cs ->]; [| | |by eexists].
    + assert (length (filter (fun x => x ≠ name i) l) < length l)%nat; [|lia].
      eapply (length_filter_lt _ _ (name i)); [done|]. intros Hc. by apply Hc.
    + intros j Hj Hs. apply list_elem_of_filter. split; [|apply Hin; [lia|done]].
      intros E. apply Hinj in E; lia.
    + intros j k Hj Hk. apply Hinj; lia.
Qed.

Lemma headerPayload_total req key :
  Z.of_nat (size (r_Header req)) < 2 ^ 63 -> exists o, headerPayload req key = Ret o.
Proof.
  intros Hz. unfold headerPayload.
  match goal with |- context [collect_chunks ?f ?g ?i] =>
    destruct (collect_chunks_total (fun j => canon (chunk_key key 45 j)) f g i (map fst (map_to_list (r_Header req))))
      as [cs ->] end.
  - by rewrite length_map, length_map_to_list.
  - intros j _ [c Hc]. unfold header_Get, header_Values in Hc.
    destruct (r_Header req !! canon (chunk_key key 45 j)) as [v|] eqn:E; [|by cbn in Hc].
    apply list_elem_of_fmap. eexists (_, v). split; [done|]. by apply elem_of_map_to_list.
  - intros j k Hj Hk. apply chunk_canon_inj; lia.
  - by eexists.
Qed.

Lemma cookiePayload_total req key :
  Z.of_nat (length (readCookies (r_Header req))) < 2 ^ 63 -> exists o, cookiePayload req key = Ret o.
Proof.
  intros Hz. unfold cookiePayload.
  match goal with |- context [collect_chunks ?f ?g ?i] =>
    destruct (collect_chunks_total (fun j => chunk_key key 95 j) f g i (map fst (readCookies (r_Header req)))) as [cs ->] end.
  - by rewrite length_map.
  - intros j _ [c Hc]. unfold Cookie in Hc. destruct (bool_decide _); [done|].
    destruct (filter _ _) as [|p ps] eqn:Ef; [done|].
    assert (p ∈ filter (fun c => c.1 = chunk_key key 95 j) (readCookies (r_Header req))) as Hp by (rewrite Ef; by left).
    apply list_elem_of_filter in Hp as [Hp Hin]. rewrite <-Hp. by apply list_elem_of_fmap_2.
  - intros j k Hj Hk. apply chunk_key_inj; lia.
  - by eexists.
Qed.

(** A request that fits the memory of a machine. *)
Definition in_memory (req : Request) : Prop :=
  Z.of_nat (size (r_Header req)) < 2 ^ 63 /\ Z.of_nat (length (readCookies (r_Header req))) < 2 ^ 63.

Lemma packet_payload_total pooled o req :
  (forall k, zlen (pooled k) = Size) -> in_memory req -> To (GetNormalizedScMaxEachPostBytes o) + 1 < 2 ^ 31 ->
  (exists status, packet_payload pooled o req = Ret (inl status) /\ status ∈ [400; 413]) \/
  (exists payload, packet_payload pooled o req = Ret (inr payload) /\
    zlen payload <= To (GetNormalizedScMaxEachPostBytes o)).
Proof.
  intros Hp [Hh Hc] Hm. unfold packet_payload. set (max := To _) in *.
  assert (exists h, (if String.eqb (GetNormalizedUplinkDataPlacement o) PlacementAuto
      || String.eqb (GetNormalizedUplinkDataPlacement o) PlacementHeader
    then headerPayload req (UplinkDataKey o) else Ret (Some [])) = Ret h) as [h ->]
    by (case_match; [by apply headerPayload_total|by eexists]).
  cbn [mbind res_bind]. destruct h as [h|]; [|left; eexists; split; [done|in_list]].
  assert (exists h, (if String.eqb (GetNormalizedUplinkDataPlacement o) PlacementAuto
      || String.eqb (GetNormalizedUplinkDataPlacement o) PlacementCookie
    then cookiePayload req (UplinkDataKey o) else Ret (Some [])) = Ret h) as [c ->]
    by (case_match; [by apply cookiePayload_total|by eexists]).
  cbn [mbind res_bind]. destruct c as [c|]; [|left; eexists; split; [done|in_list]].
  assert (exists b, (if String.eqb (GetNormalizedUplinkDataPlacement o) PlacementAuto
      || String.eqb (GetNormalizedUplinkDataPlacement o) PlacementBody
    then bodyPayload pooled req max else Ret (inr [])) = Ret b /\ forall e, b = inl e -> e ∈ [400; 413]) as (b & -> & He).
  { case_match; [|by eexists]. unfold bodyPayload. repeat case_match; try (eexists; split; [done|]; intros e [= <-]; in_list).
    rewrite ReadAllToBytes_spec; [by eexists|done|]. unfold zlen. rewrite length_take. lia. }
  cbn [mbind res_bind]. destruct b as [e|b]; [left; eexists; split; [done|by apply He]|].
  destruct (Z.ltb_spec max (zlen
    (if String.eqb (GetNormalizedUplinkDataPlacement o) PlacementHeader then h
     else if String.eqb (GetNormalizedUplinkDataPlacement o) PlacementCookie then c
     else if String.eqb (GetNormalizedUplinkDataPlacement o) PlacementBody then b
     else if String.eqb (GetNormalizedUplinkDataPlacement o) PlacementAuto then h ++ c ++ b else []))) as [H|H].
  - left. eexists. split; [done|in_list].
  - right. eexists. split; [done|done].
Qed.

Lemma upsertSession_spec s sid :
  let '(s', i) := upsertSession s sid in
  s_sessions s ⊆ s_sessions s' /\ s_sessions s' !! sid = Some i.
Proof.
  unfold upsertSession. destruct (s_sessions s !! sid) as [i|] eqn:E; [done|]. cbn.
  split; [by apply insert_subseteq|apply lookup_insert_eq].
Qed.

Lemma ExtractMeta_total o req :
  HasPrefix (r_Path req) (GetNormalizedPath o) = true ->
  exists sid seq, ExtractMetaFromRequest o req (GetNormalizedPath o) = Ret (sid, seq).
Proof.
  intros Hp. unfold ExtractMetaFromRequest. apply HasPrefix_spec in Hp as [rest Hp].
  assert (exists l, (if String.eqb (GetNormalizedSessionPlacement o) PlacementPath
      || String.eqb (GetNormalizedSeqPlacement o) PlacementPath
    then rest ← go_from (r_Path req) (zlen (GetNormalizedPath o)); Ret (split_on 47 rest) else Ret []) = Ret l) as [l ->].
  { case_match; [|by eexists]. rewrite Hp, go_from_app by done. cbn. by eexists. }
  cbn [mbind res_bind]. destruct (extract_meta _ _ _ _) as [sid l']. destruct (extract_meta _ _ _ l') as [seq ?]. by do 2 eexists.
Qed.

(** The errors of [Push]: the queue is closed, or has a stream's reader. *)
Lemma Push_returns_error p h h' e :
  Push_returns p h h' (Some e) ->
  (e = "packet queue closed"%string /\ (q_closed h = true \/ q_done h' = true)) \/
  (e = "h.reader already exists"%string /\ q_nomore h = true).
Proof.
  inversion 1 as [e' Hl| |k Hl Hd]; subst; [|by left; split; [|right]].
  unfold Push_locked in Hl. destruct (q_closed h); [injection Hl as <-; left; by split; [|left]|].
  destruct (q_nomore h); [injection Hl as <-; by right|done].
Qed.

(** The push into the queue of a session of the table has failed. *)
Definition push_failed (Push : nat -> option string) (s : Server) : Prop :=
  exists sid i e, sid ≠ [] /\ s_sessions s !! sid = Some i /\ Push i = Some e /\
    (e = "packet queue closed"%string \/ e = "h.reader already exists"%string).

(** What a request does: an error that says why, or its session and a packet
    of bounded size with a 64-bit number; a session that was there stays. *)
Definition answered (Push : nat -> option string) (o : V2RayXHTTPOptions) (req : Request) (s s' : Server) (a : answer) : Prop :=
  s_sessions s ⊆ s_sessions s' /\
  match a with
  | Respond status =>
    status ∈ [400; 404; 413] \/ (status = 200 /\ r_Method req = bytes_of "OPTIONS") \/
    (status = 409 /\ push_failed Push s') \/
    (status = 500 /\ (push_failed Push s' \/
      exists sid seq, ExtractMetaFromRequest o req (GetNormalizedPath o) = Ret (sid, seq) /\ ParseUint seq = None))
  | PushReader i | StreamDown i => exists sid, sid ≠ [] /\ s_sessions s' !! sid = Some i
  | PushPacket i p =>
    (exists sid, sid ≠ [] /\ s_sessions s' !! sid = Some i) /\ Reader p = None /\
    zlen (Payload p) <= To (GetNormalizedScMaxEachPostBytes o) /\ 0 <= Seq p < 2 ^ 64
  | StreamOne => s' = s
  end.

Lemma answered_status Push o req s s' status :
  s_sessions s ⊆ s_sessions s' -> status ∈ [400; 404; 413] ->
  exists s'' a, Ret (s', Respond status) = Ret (s'', a) /\ answered Push o req s s'' a.
Proof. intros Hs Hst. exists s', (Respond status). split; [done|]. split; [done|by left]. Qed.

(** A packet request of a session: the payload, the number and the push. *)
Lemma packet_answered {E : XhttpEnv} pooled Push o req s s' i sid seq :
  (forall k, zlen (pooled k) = Size) -> in_memory req -> To (GetNormalizedScMaxEachPostBytes o) + 1 < 2 ^ 31 ->
  (forall i, exists p h h', Push_returns p h h' (Push i)) ->
  s_sessions s ⊆ s_sessions s' -> sid ≠ [] -> s_sessions s' !! sid = Some i ->
  ExtractMetaFromRequest o req (GetNormalizedPath o) = Ret (sid, seq) ->
  exists s'' a,
    (payload ← packet_payload pooled o req;
     match payload with
     | inl status => Ret (s', Respond status)
     | inr payload =>
       match ParseUint seq with
       | None => Ret (s', Respond 500)
       | Some n =>
         match Push i with
         | Some _ => Ret (s', Respond 500)
         | None => Ret (s', PushPacket i (mkPacket None payload n))
         end
       end
     end) = Ret (s'', a) /\ answered Push o req s s'' a.
Proof.
  intros Hp Hmem Hm Hpush Hsub Hsid Hi Hmeta.
  destruct (packet_payload_total pooled o req Hp Hmem Hm) as [(st & -> & Hst)|(payload & -> & Hlen)];
    cbn [mbind res_bind]; [apply answered_status; [done|rewrite !elem_of_cons in *; tauto]|].
  destruct (ParseUint seq) as [n|] eqn:En.
  - destruct (Push i) as [e|] eqn:Ep.
    + do 2 eexists. split; [done|]. split; [done|]. right; right; right. split; [done|]. left. exists sid, i, e.
      destruct (Hpush i) as (p & h & h' & Hr). rewrite Ep in Hr. apply Push_returns_error in Hr. tauto.
    + do 2 eexists. split; [done|]. split; [done|]. split_and!; try done; [by exists sid|..];
        cbn [Seq]; apply ParseUint_range in En; lia.
  - do 2 eexists. split; [done|]. split; [done|]. right; right; right. split; [done|]. right. by exists sid, seq.
Qed.


(** ** The life of sessions *)

(** [httpSession]: the id it was made for, whether [isFullyConnected] is
    closed, whether its goroutine still waits for that or for the timer, and
    whether its queue was closed. *)
Record httpSession := mkSession {
  se_id : text;
  se_connected : bool;
  se_waiting : bool;
  se_closed : bool
}.

(** The table, every session that was made, by its number, and the requests in
    progress: those that have their session, and downloads that have declared
    it connected. *)
Record sessions := mkSessions {
  t_server : Server;
  t_made : list httpSession;
  t_requests : list (text * nat);
  t_downloads : list (text * nat)
}.

Definition made_by (s : Server) (sid : text) (l : list httpSession) : list httpSession :=
  match s_sessions s !! sid with
  | Some _ => l
  | None => l ++ [mkSession sid false true false]
  end.

Definition delete_session (sid : text) (s : Server) : Server := mkServer (delete sid (s_sessions s)) (s_next s).

(** What the timer does to the table: only its own session is deleted. *)
Definition reap (i : nat) (sid : text) (s : Server) : Server :=
  if bool_decide (s_sessions s !! sid = Some i) then delete_session sid s else s.

Inductive session_step : sessions -> sessions -> Prop :=
| session_upsert t sid :
  sid ≠ [] ->
  session_step t (mkSessions (upsertSession (t_server t) sid).1 (made_by (t_server t) sid (t_made t))
    ((sid, (upsertSession (t_server t) sid).2) :: t_requests t) (t_downloads t))
(** an upload ends, or a request is refused *)
| session_uploaded t l k r :
  t_requests t = l ++ r :: k -> session_step t (mkSessions (t_server t) (t_made t) (l ++ k) (t_downloads t))
| session_connect t l k sid i se :
  t_requests t = l ++ (sid, i) :: k -> t_made t !! i = Some se ->
  session_step t (mkSessions (t_server t) (<[i := mkSession (se_id se) true (se_waiting se) (se_closed se)]> (t_made t))
    (l ++ k) ((sid, i) :: t_downloads t))
(** the connection of a download closes the queue it reads from *)
| session_close t sid i se :
  (sid, i) ∈ t_downloads t -> t_made t !! i = Some se ->
  session_step t (mkSessions (t_server t) (<[i := mkSession (se_id se) (se_connected se) (se_waiting se) true]> (t_made t))
    (t_requests t) (t_downloads t))
| session_downloaded t l k sid i :
  t_downloads t = l ++ (sid, i) :: k ->
  session_step t (mkSessions (delete_session sid (t_server t)) (t_made t) (t_requests t) (l ++ k))
(** the timer, also when the session was connected at the same time *)
| session_timer t i se :
  t_made t !! i = Some se -> se_waiting se = true ->
  session_step t (mkSessions (reap i (se_id se) (t_server t))
    (<[i := mkSession (se_id se) (se_connected se) false true]> (t_made t)) (t_requests t) (t_downloads t))
| session_kept t i se :
  t_made t !! i = Some se -> se_waiting se = true -> se_connected se = true ->
  session_step t (mkSessions (t_server t)
    (<[i := mkSession (se_id se) true false (se_closed se)]> (t_made t)) (t_requests t) (t_downloads t)).

Definition no_sessions : sessions := mkSessions (mkServer ∅ 0) [] [] [].

(** A session of the table was made for its id, its goroutine waits or a
    download of it is in progress, and a download is in progress when it is
    connected or its queue is closed; a request has a session of its id. *)
Record tended (t : sessions) : Prop := {
  tended_next : s_next (t_server t) = length (t_made t);
  tended_made sid i : s_sessions (t_server t) !! sid = Some i -> exists se, t_made t !! i = Some se /\ se_id se = sid /\
    (se_waiting se = true \/ (sid, i) ∈ t_downloads t) /\
    (se_connected se = true \/ se_closed se = true -> (sid, i) ∈ t_downloads t);
  tended_requests sid i : (sid, i) ∈ t_requests t ++ t_downloads t -> exists se, t_made t !! i = Some se /\ se_id se = sid
}.

(** A session that changes keeps its id. *)
Lemma made_insert (l : list httpSession) i se se' j x :
  l !! i = Some se -> l !! j = Some x -> se_id se' = se_id se ->
  exists y, <[i := se']> l !! j = Some y /\ se_id y = se_id x /\ (j ≠ i -> y = x) /\ (j = i -> y = se' /\ x = se).
Proof.
  intros Hi Hj He. destruct (decide (j = i)) as [->|Hne].
  - rewrite Hi in Hj. injection Hj as <-. exists se'. rewrite list_lookup_insert_eq by (by eapply lookup_lt_Some). done.
  - exists x. rewrite list_lookup_insert_ne by done. done.
Qed.

(** The invariant when one session changes: what it has to keep is what the
    table says of it. *)
Lemma tended_change t srv i se se' reqs downs :
  tended t -> t_made t !! i = Some se -> se_id se' = se_id se -> s_next srv = s_next (t_server t) ->
  s_sessions srv ⊆ s_sessions (t_server t) ->
  (forall p, p ∈ reqs ++ downs -> p ∈ t_requests t ++ t_downloads t) ->
  (forall p, p ∈ t_downloads t -> p ∈ downs) ->
  (s_sessions srv !! se_id se = Some i -> (se_waiting se' = true \/ (se_id se, i) ∈ downs) /\
    (se_connected se' = true \/ se_closed se' = true -> (se_id se, i) ∈ downs)) ->
  tended (mkSessions srv (<[i := se']> (t_made t)) reqs downs).
Proof.
  intros [Hn Hm Hr] Hi He Hnext Hsub Hreq Hdown Hnew. split; cbn.
  - by rewrite Hnext, Hn, length_insert.
  - intros sid j Hj. destruct (Hm sid j) as (x & Hx & Hid & Hw & Hc); [by eapply lookup_weaken|].
    destruct (made_insert _ _ _ se' _ _ Hi Hx He) as (y & Hy & Hyid & Hne & Heq). exists y.
    split; [done|]. split; [congruence|]. destruct (decide (j = i)) as [->|Hji].
    + destruct (Heq eq_refl) as [-> ->]. subst sid. by apply Hnew.
    + rewrite (Hne Hji). split; [destruct Hw; [by left|right; by apply Hdown]|]. intros H. by apply Hdown, Hc.
  - intros sid j Hj. destruct (Hr sid j) as (x & Hx & Hid); [by apply Hreq|].
    destruct (made_insert _ _ _ se' _ _ Hi Hx He) as (y & Hy & Hyid & _). exists y. split; [done|congruence].
Qed.

Lemma tended_upsert t sid :
  tended t ->
  tended (mkSessions (upsertSession (t_server t) sid).1 (made_by (t_server t) sid (t_made t))
    ((sid, (upsertSession (t_server t) sid).2) :: t_requests t) (t_downloads t)).
Proof.
  intros [Hn Hm Hr]. unfold upsertSession, made_by. destruct (s_sessions (t_server t) !! sid) as [i|] eqn:E; cbn.
  - split; cbn; try done. intros a j Hj. apply elem_of_cons in Hj as [[= -> ->]|Hj]; [|by apply Hr].
    destruct (Hm sid i E) as (se & ? & ? & _). by exists se.
  - split; cbn; [rewrite length_app, Hn; cbn; lia|..].
    + intros a j Hj. apply lookup_insert_Some in Hj as [[<- <-]|[Hne Hj]].
      * exists (mkSession sid false true false). rewrite Hn, list_lookup_middle by done. split_and!; try done; [by left|by intros [?|?]].
      * destruct (Hm a j Hj) as (se & ? & ?). exists se. split; [by apply lookup_app_l_Some|done].
    + intros a j Hj. apply elem_of_cons in Hj as [[= -> ->]|Hj].
      * exists (mkSession sid false true false). by rewrite Hn, list_lookup_middle.
      * destruct (Hr a j Hj) as (se & ? & ?). exists se. split; [by apply lookup_app_l_Some|done].
Qed.

Lemma tended_step t t' : tended t -> session_step t t' -> tended t'.
Proof.
  intros Ht Hst. inversion Hst; subst; clear Hst.
  - by apply tended_upsert.
  - destruct Ht as [Hn Hm Hr]. split; cbn; try done. intros sid i Hi. apply Hr. rewrite H. in_list.
  - eapply tended_change; try done; cbn.
    + intros p Hp. rewrite H. in_list.
    + intros p Hp. by right.
    + intros _. assert (se_id se = sid) as -> by (destruct (tended_requests t Ht sid i) as (x & Hx & <-); [rewrite H; in_list|congruence]).
      split; [right|intros _]; by left.
  - eapply tended_change; try done; cbn. intros Hin.
    destruct (tended_made t Ht _ _ Hin) as (x & Hx & _ & Hw & Hc). assert (x = se) as -> by congruence. split; [done|].
    intros _. destruct (tended_requests t Ht sid i) as (y & Hy & Hid); [in_list|]. assert (y = se) as -> by congruence. by rewrite Hid.
  - destruct Ht as [Hn Hm Hr]. split; cbn; [done|..].
    + intros a j Hj. apply lookup_delete_Some in Hj as [Hne Hj]. destruct (Hm a j Hj) as (se & ? & ? & Hw & Hc).
      exists se. rewrite H in Hw, Hc. assert ((a, j) ∈ l ++ (sid, i) :: k -> (a, j) ∈ l ++ k) as Hdrop.
      { rewrite !elem_of_app, elem_of_cons. intros [?|[[= -> ->]|?]]; [by left|done|by right]. }
      split_and!; try done; [destruct Hw; [by left|right; by apply Hdrop]|]. intros Hx. by apply Hdrop, Hc.
    + intros a j Hj. apply Hr. rewrite H. in_list.
  - eapply tended_change; try done; cbn; unfold reap; case_bool_decide as Hb; try done; cbn.
    + apply delete_subseteq.
    + intros Hin. by rewrite lookup_delete_eq in Hin.
  - eapply tended_change; try done; cbn. intros Hin.
    destruct (tended_made t Ht _ _ Hin) as (x & Hx & _ & Hw & Hc). assert (x = se) as -> by congruence.
    split; [right|intros _]; apply Hc; by left.
Qed.

Lemma tended_reachable t : rtc session_step no_sessions t -> tended t.
Proof.
  intros Hr. assert (tended no_sessions) as H0 by (split; cbn; [done|done|intros sid i []%elem_of_nil]).
  remember no_sessions as t0 eqn:E. clear E. induction Hr as [|t0 t1 t2 Hst _ IH]; [done|]. by eapply IH, tended_step.
Qed.

(** The timers and downloads that are left. *)
Definition unfinished (t : sessions) : nat :=
  length (t_downloads t) + length (filter (fun se => se_waiting se = true) (t_made t)).

Lemma waiting_drops (l : list httpSession) i se se' :
  l !! i = Some se -> se_waiting se = true -> se_waiting se' = false ->
  (length (filter (fun x => se_waiting x = true) (<[i := se']> l)) < length (filter (fun x => se_waiting x = true) l))%nat.
Proof.
  intros Hi Hw Hw'. rewrite (insert_take_drop l i se') by (by eapply lookup_lt_Some).
  rewrite <-(take_drop_middle l i se Hi) at 3. rewrite !filter_app, !filter_cons, !length_app.
  rewrite decide_False by congruence. rewrite decide_True by done. cbn. lia.
Qed.

Lemma sessions_end t :
  tended t -> exists t', rtc session_step t t' /\ s_sessions (t_server t') = ∅.
Proof.
  remember (unfinished t) as n eqn:Hn. revert t Hn. induction n as [n IH] using lt_wf_ind. intros t -> Ht.
  assert (forall t1, session_step t t1 -> (unfinished t1 < unfinished t)%nat ->
    exists t', rtc session_step t t' /\ s_sessions (t_server t') = ∅) as Hgo.
  { intros t1 Hst Hlt. destruct (IH _ Hlt t1 eq_refl) as (t' & Hr & He); [by eapply tended_step|].
    exists t'. split; [by eapply rtc_l|done]. }
  destruct (t_downloads t) as [|[sid i] k] eqn:Ed.
  - destruct (list_find (fun se => se_waiting se = true) (t_made t)) as [[i se]|] eqn:Ef.
    + apply list_find_Some in Ef as (Hi & Hw & _). eapply Hgo; [by eapply session_timer|].
      unfold unfinished. cbn. apply Nat.add_lt_mono_l. by eapply waiting_drops.
    + apply list_find_None in Ef. exists t. split; [done|]. apply map_empty. intros sid.
      destruct (s_sessions (t_server t) !! sid) as [i|] eqn:Ei; [|done].
      destruct (tended_made t Ht sid i Ei) as (se & Hse & _ & [Hw|Hw] & _).
      * rewrite Forall_forall in Ef. by destruct (Ef se); [by eapply list_elem_of_lookup_2|].
      * rewrite Ed in Hw. by apply elem_of_nil in Hw.
  - eapply Hgo; [by apply (session_downloaded t [] k sid i)|]. unfold unfinished. cbn. rewrite Ed. cbn. lia.
Qed.

(** C18: no session leaks and none is shared.  Two ids never lead to one
    session, whatever the order of uploads, downloads and timers; a session of
    the table waits for its timer or has a download that removes it when it
    ends, and its queue is closed only with a download still in progress; and
    from every state one with an empty table can be reached. *)
Theorem sessions_tended t :
  rtc session_step no_sessions t ->
  (forall a b i, s_sessions (t_server t) !! a = Some i -> s_sessions (t_server t) !! b = Some i -> a = b) /\
  (forall sid i, s_sessions (t_server t) !! sid = Some i -> exists se, t_made t !! i = Some se /\ se_id se = sid /\
    (se_waiting se = true \/ (sid, i) ∈ t_downloads t) /\ (se_closed se = true -> (sid, i) ∈ t_downloads t)) /\
  exists t', rtc session_step t t' /\ s_sessions (t_server t') = ∅.
Proof.
  intros Ht%tended_reachable. split_and!.
  - intros a b i Ha Hb. destruct (tended_made t Ht a i Ha) as (x & Hx & <- & _).
    destruct (tended_made t Ht b i Hb) as (y & Hy & <- & _). congruence.
  - intros sid i Hi. destruct (tended_made t Ht sid i Hi) as (se & ? & ? & ? & Hc). exists se. split_and!; try done.
    intros H'. apply Hc. by right.
  - by apply sessions_end.
Qed.

(** ** Runs *)

Definition demo_id : text := bytes_of "s1".

(** Two downloads of one session, of which the first has ended, and an upload
    that came after it. *)
Definition demo_sessions : sessions :=
  mkSessions (mkServer (<[demo_id := 1%nat]> (delete demo_id (<[demo_id := 0%nat]> ∅))) 2)
    [mkSession demo_id true true false; mkSession demo_id false true false] [(demo_id, 1%nat)] [(demo_id, 0%nat)].

Lemma run_demo_sessions : rtc session_step no_sessions demo_sessions.
Proof.
  eapply rtc_l; [by apply (session_upsert _ demo_id)|]. cbn.
  eapply rtc_l; [by apply (session_upsert _ demo_id)|]. cbn.
  eapply rtc_l; [by eapply (session_connect _ []); [reflexivity|reflexivity]|]. cbn.
  eapply rtc_l; [by eapply (session_connect _ []); [reflexivity|reflexivity]|]. cbn.
  eapply rtc_l; [by apply (session_downloaded _ [] [(demo_id, 0%nat)] demo_id 0)|]. cbn.
  eapply rtc_l; [by apply (session_upsert _ demo_id)|]. apply rtc_refl.
Qed.

Lemma sessions_tended_witness : exists t', rtc session_step demo_sessions t' /\ s_sessions (t_server t') = ∅.
Proof. apply (sessions_tended demo_sessions run_demo_sessions). Defined.

(** The second download then ends, and removes the session of the upload,
    which is not its own and still waits for its timer. *)
Example stale_download_deletes :
  exists t', session_step demo_sessions t' /\ s_sessions (t_server demo_sessions) !! demo_id = Some 1%nat /\
    s_sessions (t_server t') !! demo_id = None /\ se_waiting <$> (t_made t' !! 1%nat) = Some true.
Proof.
  eexists. split; [by apply (session_downloaded _ [] [] demo_id 0)|]. cbn [t_server].
  split_and!; [reflexivity|apply lookup_delete_eq|reflexivity].
Qed.
