(* ===== verification/XhttpUpload.v ===== *)
(** * An upload through the XHTTP transport in mode packet-up
    (src/transport/v2rayxhttp: writer.go, client.go)

    What the client's connection is given to write goes through a pipe, is
    cut into pieces of at most the size of a post, which are numbered and sent
    as requests; the server pushes them into the queue of the session, and
    the connection on its side reads the bytes from there. *)

From S2P Require Import Prelude XrayBuf XrayPipe GoText GoHttp UploadQueue Xhttp XhttpRoundTrip.

(** ** The client *)

(** [uploadWriter.Write]: the buffers it writes into the pipe, one at a
    time. *)
Definition Write_buffers (pooled : nat -> list Z) (b : list Z) : res (list MultiBuffer) :=
  '(buffer, _) ← Container_Write pooled [] b;
  Ret (map (fun buff => [buff]) buffer).

(** The pieces that are posted of the buffers of one read, with their numbers
    (of type int64): the inner loop of the goroutine of [DialContext].  Every piece takes bytes
    out of the buffers. *)
Fixpoint post_loop (pooled : nat -> list Z) (maxUploadSize : Z) (fuel : nat) (seq : Z) (remainder : MultiBuffer)
    : res (list (Z * list Z)) :=
  '(remainder, chunk) ← SplitSize pooled remainder maxUploadSize;
  if mb_IsEmpty chunk then Ret [] else
  match fuel with
  | O => Panic
  | S fuel =>
    payload ← Copy chunk (Z.to_nat (mb_Len chunk));
    posts ← post_loop pooled maxUploadSize fuel (i64 (seq + 1)) remainder;
    Ret ((seq, payload) :: posts)
  end.

(** How many bytes buffers have. *)
Definition mb_bytes (mb : MultiBuffer) : nat := sum_list_with (fun b => Z.to_nat (Len b)) mb.

(** The outer loop, over what the reads of the pipe return. *)
Fixpoint post_reads (pooled : nat -> list Z) (maxUploadSize : Z) (seq : Z) (reads : list MultiBuffer)
    : res (list (Z * list Z)) :=
  match reads with
  | [] => Ret []
  | mb :: reads =>
    posts ← post_loop pooled maxUploadSize (mb_bytes mb) seq mb;
    more ← post_reads pooled maxUploadSize (i64 (seq + zlen posts)) reads;
    Ret (posts ++ more)
  end.

(** The buffers the reads of a pipe returned, read by read. *)
Definition reads_of (rs : list outcome) : list MultiBuffer := omap fst rs.

Section posts.
Context (pooled : nat -> list Z) (pooled_size : forall k, zlen (pooled k) = Size).
Context (size : Z) (size_pos : 0 < size) (size_small : size + Size < 2 ^ 31).

(** Buffers that are not empty and of the usual size. *)
Abbreviation good := (Forall (fun c : list Z => c ≠ [] /\ zlen c <= Size)).

Lemma i64_add_l a b : i64 (i64 a + b) = i64 (a + b).
Proof.
  unfold i64. f_equal. replace ((a + 2 ^ 63) mod 2 ^ 64 - 2 ^ 63 + b + 2 ^ 63) with ((a + 2 ^ 63) mod 2 ^ 64 + b) by lia.
  rewrite Zplus_mod_idemp_l. f_equal. lia.
Qed.

Lemma i64_idem a : i64 (i64 a) = i64 a.
Proof. pose proof (i64_add_l a 0) as H. by rewrite !Z.add_0_r in H. Qed.

Lemma i64_int n : - 2 ^ 63 <= n < 2 ^ 63 -> i64 n = n.
Proof. intros H. unfold i64. rewrite Z.mod_small by lia. lia. Qed.

(** Posts numbered from [seq], whose payloads make up the bytes. *)
Definition posts_for (seq : Z) (bytes : list Z) (posts : list (Z * list Z)) : Prop :=
  map fst posts = map (fun i => i64 (seq + Z.of_nat i)) (List.seq 0 (length posts)) /\
  concat (map snd posts) = bytes /\ Forall (fun p => p.2 ≠ [] /\ zlen p.2 <= size) posts.

Lemma posts_for_nil seq : posts_for seq [] [].
Proof. by split_and!. Qed.

Lemma posts_for_i64 seq bytes posts : posts_for (i64 seq) bytes posts <-> posts_for seq bytes posts.
Proof.
  unfold posts_for. assert (map (fun i => i64 (i64 seq + Z.of_nat i)) (List.seq 0 (length posts))
    = map (fun i => i64 (seq + Z.of_nat i)) (List.seq 0 (length posts))) as ->; [|done].
  apply map_ext. intros i. apply i64_add_l.
Qed.

Lemma numbers_app seq m k :
  map (fun i => i64 (seq + Z.of_nat i)) (List.seq 0 (m + k)) =
  map (fun i => i64 (seq + Z.of_nat i)) (List.seq 0 m) ++ map (fun i => i64 (seq + Z.of_nat m + Z.of_nat i)) (List.seq 0 k).
Proof.
  rewrite seq_app, map_app. f_equal. cbn. rewrite <-(Nat.add_0_r m) at 1.
  rewrite <-fmap_add_seq. change (map (fun i => i64 (seq + Z.of_nat i)) (map (Nat.add m) (List.seq 0 k)) =
    map (fun i => i64 (seq + Z.of_nat m + Z.of_nat i)) (List.seq 0 k)).
  rewrite map_map. apply map_ext. intros i. f_equal. lia.
Qed.

Lemma posts_for_app seq a b ps qs :
  posts_for seq a ps -> posts_for (seq + zlen ps) b qs -> posts_for seq (a ++ b) (ps ++ qs).
Proof.
  intros (A1 & A2 & A3) (B1 & B2 & B3). split_and!.
  - rewrite map_app, A1, B1, length_app, numbers_app. done.
  - by rewrite map_app, concat_app, A2, B2.
  - by apply Forall_app.
Qed.

Lemma mb_bytes_spec mb cs : mb_holds mb cs -> mb_bytes mb = length (concat cs).
Proof.
  induction 1 as [|b c mb cs Hb _ IH]; [done|]. unfold mb_bytes in *. cbn. rewrite length_app, IH.
  rewrite (holds_Len b c Hb). unfold zlen. lia.
Qed.

Lemma post_loop_spec fuel seq mb cs :
  mb_holds mb cs -> good cs -> (length (concat cs) <= fuel)%nat -> i64 seq = seq ->
  exists posts, post_loop pooled size fuel seq mb = Ret posts /\ posts_for seq (concat cs) posts.
Proof.
  revert seq mb cs. induction fuel as [|fuel IH]; intros seq mb cs Hm Hg Hf Hseq; cbn [post_loop];
    (destruct (SplitSize_spec pooled mb cs size pooled_size Hm Hg size_pos size_small)
      as (rest & chunk & rs & ks & -> & Hr & Hk & Happ & Hgr & Hsz & Hprog));
    cbn [mbind res_bind].
  - assert (concat ks = []) as Hnil.
    { apply (f_equal length) in Happ. rewrite length_app in Happ. apply length_zero_iff_nil. lia. }
    rewrite (proj2 (mb_IsEmpty_spec chunk ks Hk) Hnil). exists []. split; [done|].
    destruct (concat cs) eqn:Ec; [apply posts_for_nil|cbn in Hf; lia].
  - destruct (mb_IsEmpty chunk) eqn:Ee.
    + apply (mb_IsEmpty_spec chunk ks Hk) in Ee. exists []. split; [done|].
      destruct cs as [|c cs]; [apply posts_for_nil|]. by destruct Hprog.
    + assert (concat ks ≠ []) as Hne by (intros Hnil%(mb_IsEmpty_spec chunk ks Hk); congruence).
      rewrite (mb_Len_spec chunk ks Hk) by (unfold Size in *; lia).
      rewrite (Copy_spec chunk ks _ Hk). unfold zlen at 1. rewrite Nat2Z.id, firstn_all. cbn [mbind res_bind].
      destruct (IH (i64 (seq + 1)) rest rs Hr Hgr) as (posts & -> & Hp).
      2: { apply i64_idem. }
      { apply (f_equal length) in Happ. rewrite length_app in Happ. destruct (concat ks); [done|cbn in Happ; lia]. }
      cbn [mbind res_bind]. eexists. split; [done|]. rewrite <-Happ. apply (posts_for_app seq (concat ks) _ [_]).
      * split_and!; cbn; [by rewrite Z.add_0_r, Hseq|by rewrite app_nil_r|by constructor].
      * by apply posts_for_i64.
Qed.

Lemma post_reads_spec seq reads css :
  Forall2 (fun mb cs => mb_holds mb cs /\ good cs) reads css -> i64 seq = seq ->
  exists posts, post_reads pooled size seq reads = Ret posts /\ posts_for seq (concat (concat css)) posts.
Proof.
  intros H. revert seq. induction H as [|mb cs reads css [Hm Hg] H IH]; intros seq Hseq; cbn [post_reads].
  - exists []. split; [done|]. apply posts_for_nil.
  - destruct (post_loop_spec (mb_bytes mb) seq mb cs Hm Hg) as (posts & -> & Hp); [by rewrite (mb_bytes_spec mb cs)|done|].
    cbn [mbind res_bind]. destruct (IH (i64 (seq + zlen posts))) as (more & -> & Hq); cbn [mbind res_bind].
    { apply i64_idem. }
    exists (posts ++ more). split; [done|]. cbn [concat]. rewrite concat_app.
    apply posts_for_app; [done|]. by apply posts_for_i64.
Qed.

(** What [uploadWriter] writes for some bytes. *)
Lemma Write_buffers_spec b :
  exists mbs ds, Write_buffers pooled b = Ret mbs /\ mb_holds (concat mbs) ds /\ good ds /\ concat ds = b.
Proof.
  unfold Write_buffers, Container_Write.
  destruct (MergeBytes_new pooled pooled_size b) as (mb & ds & -> & Hm & Hc & Hg). cbn [mbind res_bind].
  exists (map (fun buff => [buff]) mb), ds. split; [done|]. split_and!; try done.
  by rewrite concat_singletons.
Qed.

End posts.

(** ** From the pipe to the posts *)

Lemma reads_concat rs : concat (reads_of rs) = read_data rs.
Proof.
  unfold reads_of, read_data. induction rs as [|[[mb|] err] rs IH]; cbn; [done|by f_equal|done].
Qed.

(** The pieces of the buffers of a list of reads. *)
Lemma split_reads (reads : list MultiBuffer) ds :
  mb_holds (concat reads) ds -> Forall (fun c : list Z => c ≠ [] /\ zlen c <= Size) ds ->
  exists css, Forall2 (fun mb cs => mb_holds mb cs /\ Forall (fun c => c ≠ [] /\ zlen c <= Size) cs) reads css /\
    concat css = ds.
Proof.
  revert ds. induction reads as [|mb reads IH]; cbn; intros ds H Hg.
  - apply Forall2_nil_inv_l in H as ->. by exists [].
  - apply Forall2_app_inv_l in H as (d1 & d2 & H1 & H2 & ->). apply Forall_app in Hg as [Hg1 Hg2].
    destruct (IH d2 H2 Hg2) as (css & Hc & <-). exists (d1 :: css). split; [by constructor|done].
Qed.

(** What several writes put into the pipe. *)
Lemma writes_buffers pooled writes bufs :
  (forall k, zlen (pooled k) = Size) -> Forall2 (fun b mbs => Write_buffers pooled b = Ret mbs) writes bufs ->
  exists ds, mb_holds (concat (concat bufs)) ds /\ Forall (fun c => c ≠ [] /\ zlen c <= Size) ds /\
    concat ds = concat writes.
Proof.
  intros Hp. induction 1 as [|b mbs writes bufs Hb H (ds & Hm & Hg & Hc)]; [by exists []|].
  destruct (Write_buffers_spec pooled Hp b) as (mbs' & d & Hb' & Hm' & Hg' & Hc').
  rewrite Hb in Hb'. injection Hb' as <-. exists (d ++ ds). cbn. rewrite !concat_app, Hc, Hc'.
  split_and!; [by apply Forall2_app|by apply Forall_app|done].
Qed.

(** The posts of a client, out of what a pipe had in it: they carry a first
    part of what was written, and all of it when the pipe lost nothing and
    has nothing left. *)
Lemma client_posts pooled size limit writes bufs ps :
  (forall k, zlen (pooled k) = Size) -> 0 < size -> size + Size < 2 ^ 31 ->
  Forall2 (fun b mbs => Write_buffers pooled b = Ret mbs) writes bufs ->
  rtc pstep (XrayPipe.start (XrayPipe.New limit false)) ps -> XrayPipe.s_accepted ps `prefix_of` concat bufs ->
  exists posts bytes, post_reads pooled size 0 (reads_of (XrayPipe.s_read ps)) = Ret posts /\
    posts_for size 0 bytes posts /\ bytes `prefix_of` concat writes /\
    (XrayPipe.s_accepted ps = concat bufs -> in_hand (s_reader ps) = [] -> p_data (s_pipe ps) = None ->
      s_lost ps = [] -> bytes = concat writes).
Proof.
  intros Hp Hs Hsz Hw Hr [later Hacc]. destruct (writes_buffers pooled writes bufs Hp Hw) as (ds & Hm & Hg & Hc).
  destruct (reachable_ok limit false ps Hr) as [[Hf _ _ _ _] _].
  assert (concat (concat bufs) = read_data (XrayPipe.s_read ps) ++
    (in_hand (s_reader ps) ++ default [] (p_data (s_pipe ps)) ++ s_lost ps) ++ concat later) as Hall.
  { rewrite Hacc, concat_app, Hf, <-!app_assoc. done. }
  rewrite Hall, <-reads_concat in Hm. apply Forall2_app_inv_l in Hm as (d1 & d2 & H1 & H2 & ->).
  apply Forall_app in Hg as [Hg1 _]. rewrite concat_app in Hc.
  destruct (split_reads _ _ H1 Hg1) as (css & Hcss & Ecss).
  destruct (post_reads_spec pooled Hp size Hs Hsz 0 _ _ Hcss eq_refl) as (posts & Hposts & Hfor).
  rewrite Ecss in Hfor. exists posts, (concat d1). split_and!; try done.
  - exists (concat d2). done.
  - intros Ha Hi Hd Hl. rewrite Hi, Hd, Hl in H2. rewrite Ha in Hacc. assert (later = []) as ->.
    { apply (app_inv_head (concat bufs)). by rewrite app_nil_r. }
    apply Forall2_nil_inv_l in H2 as ->. by rewrite app_nil_r in Hc.
Qed.

(** ** To the queue of the session *)

(** The packet a server pushes, whatever its sessions are, for the request of
    a post, when [Push] lets it through. *)
Definition served {E : XhttpEnv} (pooled : nat -> list Z) (o : V2RayXHTTPOptions) (base : Header) (r : Request)
    (sid : text) (post : Z * list Z) (pk : Packet) : Prop :=
  exists Push s s' i req, FillPacketRequest o base r sid (FormatInt (fst post)) (snd post) = Ret req /\
    ServeHTTP pooled Push o s req = Ret (s', PushPacket i pk).

Section queue.
Context {E : XhttpEnv} {L : XhttpLaws E}.
Context (pooled : nat -> list Z) (pooled_size : forall k, zlen (pooled k) = Size).
Context (o0 o : V2RayXHTTPOptions) (base : Header) (r : Request) (sid : text) (Hu : usable o0 o base r sid).
Context (size : Z) (size_fits : size <= To (GetNormalizedScMaxEachPostBytes o) < 2 ^ 31).

Definition post_data (posts : list (Z * list Z)) (i : nat) : list Z := from_option snd [] (posts !! i).

Lemma served_packet n payload pk :
  0 <= n < 2 ^ 64 -> is_bytes payload -> zlen payload <= size ->
  served pooled o base r sid (n, payload) pk -> pk = mkPacket None payload n.
Proof.
  intros Hn Hb Hz (Push & s & s' & i & req & Hreq & Hserve).
  destruct (packet_served pooled Push o0 o base r s sid n payload) as (req' & Hreq' & Hserve'); try done; [lia|].
  cbn [fst snd] in Hreq. rewrite Hreq in Hreq'. injection Hreq' as <-. rewrite Hserve in Hserve'.
  unfold packet_answer in Hserve'. by destruct (Push _); injection Hserve'.
Qed.

Lemma post_number bytes posts i p :
  posts_for size 0 bytes posts -> posts !! i = Some p -> Z.of_nat i < 2 ^ 63 -> fst p = Z.of_nat i.
Proof.
  intros (Hn & _ & _) Hp Hi. apply (f_equal (.!! i)) in Hn. rewrite !list_lookup_fmap, Hp in Hn. cbn in Hn.
  assert (i < length posts)%nat as Hlt by (by eapply lookup_lt_Some).
  rewrite lookup_seq_lt in Hn by done. cbn in Hn. rewrite i64_int in Hn by lia. by injection Hn.
Qed.

Lemma served_all bytes posts pks :
  posts_for size 0 bytes posts -> is_bytes bytes -> zlen posts <= 2 ^ 63 ->
  Forall2 (served pooled o base r sid) posts pks ->
  pks = map (fun i => mkPacket None (post_data posts i) (Z.of_nat i)) (List.seq 0 (length posts)).
Proof.
  intros Hf Hb Hz H. apply list_eq_same_length with (length posts);
    [by rewrite length_map, length_seq|by rewrite <-(Forall2_length _ _ _ H)|].
  intros i x y Hi Hx Hy. rewrite list_lookup_fmap, lookup_seq_lt in Hy by done. injection Hy as <-.
  destruct (Forall2_lookup_r _ _ _ _ _ H Hx) as ([n payload] & Hp & Hs).
  pose proof (post_number _ _ _ _ Hf Hp ltac:(unfold zlen in Hz; lia)) as Hn. cbn in Hn. subst n.
  destruct Hf as (_ & Hc & Hall). unfold zlen in Hz.
  pose proof (proj1 (Forall_lookup _ _) Hall i _ Hp) as [_ Hlen].
  unfold post_data. rewrite Hp. apply served_packet; try done; [lia|].
  rewrite <-Hc in Hb. unfold is_bytes in *. rewrite Forall_concat in Hb.
  eapply (proj1 (Forall_forall _ _) Hb). apply list_elem_of_fmap. exists (Z.of_nat i, payload).
  split; [done|]. by eapply list_elem_of_lookup_2.
Qed.

(** The packets of posts are an upload of their payloads. *)
Lemma served_upload bytes posts pks sent :
  posts_for size 0 bytes posts -> is_bytes bytes -> zlen posts <= 2 ^ 63 ->
  Forall2 (served pooled o base r sid) posts pks -> sent ⊆+ pks -> upload (post_data posts) sent.
Proof.
  intros Hf Hb Hz H Hsub. rewrite (served_all bytes posts pks Hf Hb ltac:(lia) H) in Hsub. split.
  - apply (fmap_submseteq Seq) in Hsub. rewrite <-list_fmap_compose in Hsub.
    apply submseteq_Permutation in Hsub as [k Hk].
    assert (NoDup (Z.of_nat <$> List.seq 0 (length posts))) as Hd by (apply NoDup_fmap_2; [apply _|apply NoDup_seq]).
    unfold compose in Hk. cbn in Hk. rewrite Hk in Hd. by apply NoDup_app in Hd as [? _].
  - apply Forall_forall. intros p Hp. apply (elem_of_submseteq _ _ _ Hp) in Hsub.
    apply list_elem_of_fmap in Hsub as (i & -> & Hi). apply elem_of_seq in Hi. cbn. rewrite Nat2Z.id.
    unfold zlen in Hz. split_and!; try done; lia.
Qed.

(** The payloads of the first posts. *)
Lemma post_data_take posts m :
  concat (map (post_data posts) (List.seq 0 m)) = concat (take m (map snd posts)).
Proof.
  induction m as [|m IH]; [done|]. rewrite seq_S, map_app, concat_app, IH. cbn. rewrite app_nil_r.
  unfold post_data. destruct (posts !! m) as [p|] eqn:Ep; cbn.
  - rewrite (take_S_r _ _ (snd p)) by (by rewrite list_lookup_fmap, Ep). rewrite concat_app. cbn. by rewrite app_nil_r.
  - apply lookup_ge_None in Ep. rewrite app_nil_r, !take_ge by (rewrite length_map; lia). done.
Qed.

Lemma post_data_prefix posts m off :
  concat (map (post_data posts) (List.seq 0 m)) ++ take off (post_data posts m) `prefix_of` concat (map snd posts).
Proof.
  transitivity (concat (map (post_data posts) (List.seq 0 (S m)))).
  - rewrite seq_S, map_app, concat_app. cbn. rewrite app_nil_r. apply prefix_app. by eexists (drop off _); rewrite take_drop.
  - rewrite post_data_take. rewrite <-(take_drop (S m) (map snd posts)) at 2. rewrite concat_app. by eexists.
Qed.
End queue.


