(* ===== verification/XhttpExample.v ===== *)
(** * An upload of three bytes
    (src/transport/v2rayxhttp)

    The theorems of the upload at an example: URLs whose query is what follows
    the first question mark, options with the session in a header, the number
    in a cookie, the data in cookies and the padding in the query of a header,
    and posts of two bytes that reach the server in the wrong order. *)

From S2P Require Import Prelude XrayBuf XrayPipe GoText GoHttp UploadQueue Xhttp XhttpRoundTrip XhttpServer XhttpUpload.

(** ** URLs and draws *)

#[export] Instance demo_env : XhttpEnv := {
  Rand r _ := From r;
  HuffmanEncodeLength s := (code_length s + 7) / 8;
  random_bytes := map Z.of_nat (List.seq 0 256);
  url_String _ := bytes_of "http://example.com/";
  url_with_query raw query := Some (fst (cut 63 (fst (cut 35 raw))) ++ 63 :: query);
  url_RawQuery u := Some (snd (cut 63 (fst (cut 35 u))))
}.

Lemma cut_before sep a b : sep ∉ a -> cut sep (a ++ sep :: b) = (a, b).
Proof.
  induction a as [|c a IH]; intros H; cbn; [by rewrite Z.eqb_refl|].
  apply not_elem_of_cons in H as [Hne H]. rewrite IH by done. by rewrite (proj2 (Z.eqb_neq c sep)).
Qed.

(** What is before a separator has none. *)
Lemma cut_clean sep a : sep ∉ fst (cut sep a).
Proof.
  induction a as [|c a IH]; cbn; [apply not_elem_of_nil|].
  destruct (Z.eqb_spec c sep) as [->|Hne]; cbn; [apply not_elem_of_nil|].
  destruct (cut sep a) as [x y]. cbn in *. apply not_elem_of_cons. split; [congruence|done].
Qed.

Lemma cut_keeps sep other a : other ∉ a -> other ∉ fst (cut sep a).
Proof.
  induction a as [|c a IH]; cbn; intros H; [apply not_elem_of_nil|]. apply not_elem_of_cons in H as [H1 H2].
  destruct (c =? sep); cbn; [apply not_elem_of_nil|]. destruct (cut sep a) as [x y]. cbn in *.
  apply not_elem_of_cons. split; [done|by apply IH].
Qed.

#[export] Instance demo_laws : XhttpLaws demo_env.
Proof.
  split; cbn.
  - intros r _. lia.
  - done.
  - intros raw query u Hne Hq [= <-]. set (before := fst (cut 63 _)).
    assert (63 ∉ before) as H1 by apply cut_clean.
    assert (35 ∉ before) as H2 by (apply cut_keeps, cut_clean).
    rewrite (cut_absent 35 (before ++ 63 :: query)).
    + cbn [fst]. rewrite cut_before by done. split; [done|]. by destruct before.
    + rewrite elem_of_app, elem_of_cons. rewrite Forall_forall in Hq. intros [H|[H|H%Hq]]; [done|done|lia].
  - intros r query. by eexists.
Qed.

(** ** Options *)

Definition demo_given : V2RayXHTTPOptions :=
  mkOptions "packet-up" [] (bytes_of "up") [] (mkRange 3 5) None 0 0 None true [] [] "queryInHeader" "" [] "header" []
    "cookie" [] "cookie" [] (Some (mkRange 2 2)).

Definition demo_options : V2RayXHTTPOptions :=
  match checkV2RayXHTTPBaseOptions "packet-up" demo_given with Ret o => o | _ => demo_given end.

Definition demo_request : Request := mkRequest (bytes_of "POST") (bytes_of "example.com") (bytes_of "/up/") ∅ ∅ [] 0.
Definition demo_sid : text := bytes_of "4f1c".

Lemma demo_apart : apart demo_options ∅.
Proof.
  split; try (by apply (bool_decide_unpack _); vm_compute); try done.
  intros i _. split; [done|].
  assert (XPaddingKey demo_options :: meta_names demo_options PlacementCookie = [bytes_of "x_padding"; bytes_of "x_seq"])
    as -> by (by vm_compute).
  rewrite !not_elem_of_cons. split_and!; [..|apply not_elem_of_nil];
    intros H; apply (f_equal (take 3)) in H; discriminate H.
Qed.

Lemma demo_usable : usable demo_given demo_options ∅ demo_request demo_sid.
Proof.
  split; try (by vm_compute).
  - apply demo_apart.
  - intros c H. vm_compute in H. injection H as <-. by vm_compute.
  - split; [done|]. repeat (apply Forall_cons; split; [by vm_compute|]). apply Forall_nil_2.
Qed.

Definition demo_pooled (k : nat) : list Z := replicate (Z.to_nat Size) 0.
Lemma demo_pooled_size k : zlen (demo_pooled k) = Size.
Proof. by vm_compute. Qed.

(** A [Push] that lets every packet through. *)
Definition no_error (i : nat) : option string := None.

(** The same options with a token-like padding, and a post with them. *)
Definition token_given : V2RayXHTTPOptions :=
  mkOptions "packet-up" [] (bytes_of "up") [] (mkRange 3 5) None 0 0 None true [] [] "queryInHeader" "tokenish" [] "header" []
    "cookie" [] "cookie" [] (Some (mkRange 2 2)).

Definition token_options : V2RayXHTTPOptions :=
  match checkV2RayXHTTPBaseOptions "packet-up" token_given with Ret o => o | _ => token_given end.

Lemma token_usable : usable token_given token_options ∅ demo_request demo_sid.
Proof.
  destruct demo_usable as [_ _ [A B C D F G H I] _ _ _ J _ _ _ K].
  split; try (by vm_compute); try done.
  intros _. apply reaches_600; by vm_compute.
Qed.

Example token_roundtrip :
  GeneratePadding "tokenish" 3 ≠ replicate 3 88 /\
  exists req, FillPacketRequest token_options ∅ demo_request demo_sid (FormatInt 0) [10; 11] = Ret req /\
    ServeHTTP demo_pooled no_error token_options (mkServer ∅ 0) req =
      Ret ((upsertSession (mkServer ∅ 0) demo_sid).1, PushPacket (upsertSession (mkServer ∅ 0) demo_sid).2 (mkPacket None [10; 11] 0)).
Proof.
  split; [by vm_compute|].
  apply (packet_served demo_pooled no_error token_given token_options ∅ demo_request (mkServer ∅ 0) demo_sid 0 [10; 11]).
  - apply demo_pooled_size.
  - apply token_usable.
  - split; [apply Z.le_refl|reflexivity].
  - repeat (apply Forall_cons; split; [by vm_compute|]). apply Forall_nil_2.
  - split; [vm_compute; discriminate|reflexivity].
Qed.


(** A request without padding, and the first post to a queue that is closed. *)
Definition closed (i : nat) : option string := Some "packet queue closed"%string.

Lemma demo_closed i : exists p h h', Push_returns p h h' (closed i).
Proof.
  exists (mkPacket None [] 0), (mkQueue None false [] true [] 0 true 1), (mkQueue None false [] true [] 0 true 1).
  by apply Push_refused.
Qed.

Definition demo_post : Request :=
  match FillPacketRequest demo_options ∅ demo_request demo_sid (FormatInt 0) [10; 11] with Ret req => req | _ => demo_request end.


(** ** The upload *)

Definition demo_writes : list (list Z) := [[10; 11; 20]].
Definition demo_bufs : list (list MultiBuffer) :=
  [match Write_buffers demo_pooled [10; 11; 20] with Ret mbs => mbs | _ => [] end].
Definition demo_read_mb : MultiBuffer := concat (concat demo_bufs).
Definition demo_pipe : XrayPipe.system := XrayPipe.passed 0 demo_read_mb.
Definition demo_posts : list (Z * list Z) := [(0, [10; 11]); (1, [20])].

Lemma demo_bytes : is_bytes (concat demo_writes).
Proof. repeat (apply Forall_cons; split; [by vm_compute|]). apply Forall_nil_2. Qed.

Lemma demo_written : Forall2 (fun b mbs => Write_buffers demo_pooled b = Ret mbs) demo_writes demo_bufs.
Proof. constructor; [vm_compute; reflexivity|constructor]. Qed.

Lemma demo_accepted : XrayPipe.s_accepted demo_pipe = concat demo_bufs.
Proof. vm_compute. reflexivity. Qed.

Lemma demo_piped : rtc pstep (XrayPipe.start (XrayPipe.New 0 false)) demo_pipe.
Proof. apply run_passed; [by vm_compute|done]. Qed.

Lemma demo_posted : post_reads demo_pooled 2 0 (reads_of (XrayPipe.s_read demo_pipe)) = Ret demo_posts.
Proof. vm_compute. reflexivity. Qed.

Lemma demo_serve n payload :
  0 <= n < 2 ^ 64 -> is_bytes payload -> zlen payload <= 2 ->
  served demo_pooled demo_options ∅ demo_request demo_sid (n, payload) (mkPacket None payload n).
Proof.
  intros Hn Hb Hz.
  destruct (packet_served demo_pooled no_error demo_given demo_options ∅ demo_request (mkServer ∅ 0) demo_sid n payload)
    as (req & Hreq & Hserve); [apply demo_pooled_size|apply demo_usable|done|done| |].
  - assert (To (GetNormalizedScMaxEachPostBytes demo_options) = 1000000) as -> by (by vm_compute). lia.
  - exists no_error, (mkServer ∅ 0). do 3 eexists. split; [exact Hreq|exact Hserve].
Qed.

Lemma demo_served :
  Forall2 (served demo_pooled demo_options ∅ demo_request demo_sid) demo_posts [demo_packet 0; demo_packet 1].
Proof.
  pose proof demo_bytes as Hb. unfold is_bytes in Hb. cbn in Hb. rewrite !Forall_cons in Hb. destruct Hb as (? & ? & ? & _).
  unfold demo_posts. apply Forall2_cons. split; [|apply Forall2_cons; split; [|apply Forall2_nil_2]];
    (apply demo_serve; [done| |by vm_compute]); repeat (apply Forall_cons; split; [done|]); apply Forall_nil_2.
Qed.



(** A padding key with an ampersand is written into the query of a header as it
    is, and is not found there. *)
Example raw_key_lost :
  isToken (bytes_of "x&y") = true /\
  (u ← url_with_query (bytes_of "http://example.com/") (bytes_of "x&y=XXX"); q ← url_Query u;
   Some (query_Get q (bytes_of "x&y"))) = Some [].
Proof. by split; vm_compute. Qed.
