(* ===== verification/Failover.v ===== *)
(** * Connections that outlive their carrier
    (src/protocol/failover: conn.go)

    A failover connection sends numbered messages over a carrier connection.
    When the carrier fails, a new one is dialed; the two ends tell each other
    how many messages they have read, and send again what is missing out of a
    ring of the last messages. *)

From S2P Require Import Prelude.

#[local] Arguments Nat.modulo : simpl never.

Abbreviation BufferSize := 10%nat (only parsing).

Record failoverConn := mkConn {
  c_readIndex : Z;
  c_readBuffer : list Z;
  c_writeIndex : Z;
  c_writeBuffers : list (list Z)
}.

Definition NewFailoverConn : failoverConn := mkConn 0 [] 0 (replicate BufferSize []).

(** ** Messages on a carrier *)

(** The bytes [write] gives to the carrier. *)
Definition frame (b : list Z) : list Z := put_be 2 (u16 (zlen b)) ++ b.

Arguments frame : simpl never.

(** How a [read] ends: it waits for the carrier, the carrier has failed, the
    other end has closed the session, or there is data. *)
Inductive outcome :=
| Blocked
| Failed
| SessionClosed
| Got (data : list Z).

(** [read] into a slice of [n] bytes, of a carrier with the given bytes on
    their way, which may still carry more. *)
Definition read (c : failoverConn) (conn : list Z) (alive : bool) (n : nat) : failoverConn * list Z * outcome :=
  let give buffer conn :=
    (mkConn (c_readIndex c) (drop n buffer) (c_writeIndex c) (c_writeBuffers c), conn, Got (take n buffer)) in
  let fail buffer :=
    if alive then (c, conn, Blocked)
    else (mkConn (c_readIndex c) buffer (c_writeIndex c) (c_writeBuffers c), [], Failed) in
  match c_readBuffer c with
  | [] =>
    if (length conn <? 2)%nat then fail [] else
    let size := Z.to_nat (get_be (take 2 conn)) in
    let rest := drop 2 conn in
    if (size =? 0)%nat then (c, rest, SessionClosed) else
    if (length rest <? size)%nat then fail rest
    else give (take size rest) (drop size rest)
  | buffer => give buffer conn
  end.

(** A round of [Read]: every one that returns data counts. *)
Definition Read (c : failoverConn) (conn : list Z) (alive : bool) (n : nat) : failoverConn * list Z * outcome :=
  match read c conn alive n with
  | (c, conn, Got data) =>
    (mkConn (u32 (c_readIndex c + 1)) (c_readBuffer c) (c_writeIndex c) (c_writeBuffers c), conn, Got data)
  | r => r
  end.

(** A round of [Write] that succeeds: the message is kept. *)
Definition Write (c : failoverConn) (b : list Z) : failoverConn :=
  mkConn (c_readIndex c) (c_readBuffer c) (u32 (c_writeIndex c + 1))
    (<[(Z.to_nat (c_writeIndex c) mod BufferSize)%nat := b]> (c_writeBuffers c)).

(** The messages [RestoreConn] sends again to an end that has read
    [writeIndex] of them; [None] when it has not kept them all. *)
Fixpoint restore_loop (fuel : nat) (c : failoverConn) (writeIndex : Z) : option (list (list Z)) :=
  if writeIndex =? c_writeIndex c then Some []
  else match fuel with
  | O => None
  | S fuel =>
    buffers ← restore_loop fuel c (u32 (writeIndex + 1));
    Some (default [] (c_writeBuffers c !! (Z.to_nat writeIndex mod BufferSize)%nat) :: buffers)
  end.

Definition RestoreConn (c : failoverConn) (writeIndex : Z) : option (list (list Z)) := restore_loop BufferSize c writeIndex.

(** ** One direction of a session

    The sender and the receiver, the bytes on their way on the carrier and
    whether it is alive; with the messages whose [Write] returned, the one
    that was given to a carrier in full although its [Write] failed, the bytes
    that were read, and how the session stands. *)

Inductive status := Running | Finished | Broken.

Record link := mkLink {
  l_sender : failoverConn;
  l_receiver : failoverConn;
  l_wire : list Z;
  l_alive : bool;
  l_written : list (list Z);
  l_extra : list (list Z);
  l_read : list Z;
  l_status : status
}.

Inductive event :=
| EWrite (b : list Z)
(** the carrier fails with the first [k] bytes of a message given to it *)
| EWriteFails (b : list Z) (k : nat)
(** it fails, and only the first [k] of the bytes on their way arrive *)
| EFail (k : nat)
| ERead (n : nat)
(** a new carrier, and [RestoreConn] at both ends *)
| ERestore.

Definition apply_event (l : link) (e : event) : link :=
  match e with
  | EWrite b =>
    if l_alive l then
      mkLink (Write (l_sender l) b) (l_receiver l) (l_wire l ++ frame b) true (l_written l ++ [b]) (l_extra l)
        (l_read l) (l_status l)
    else l
  | EWriteFails b k =>
    if l_alive l then
      mkLink (l_sender l) (l_receiver l) (l_wire l ++ take k (frame b)) false (l_written l)
        (if (length (frame b) <=? k)%nat then [b] else []) (l_read l) (l_status l)
    else l
  | EFail k =>
    mkLink (l_sender l) (l_receiver l) (take k (l_wire l)) false (l_written l) (l_extra l) (l_read l) (l_status l)
  | ERead n =>
    match l_status l with
    | Running =>
      let '(c, wire, o) := Read (l_receiver l) (l_wire l) (l_alive l) n in
      mkLink (l_sender l) c wire (l_alive l) (l_written l) (l_extra l)
        (l_read l ++ match o with Got data => data | _ => [] end)
        match o with SessionClosed => Finished | _ => Running end
    | _ => l
    end
  | ERestore =>
    match l_status l with
    | Running =>
      match RestoreConn (l_sender l) (c_readIndex (l_receiver l)) with
      | Some buffers =>
        mkLink (l_sender l) (l_receiver l) (concat (map frame buffers)) true (l_written l) [] (l_read l) Running
      | None => mkLink (l_sender l) (l_receiver l) [] false (l_written l) (l_extra l) (l_read l) Broken
      end
    | _ => l
    end
  end.

Definition run (l : link) (es : list event) : link := foldl apply_event l es.

Definition fresh : link := mkLink NewFailoverConn NewFailoverConn [] true [] [] [] Running.

(** The bytes of the first [i] messages on a wire. *)
Fixpoint skip_frames (i : nat) (wire : list Z) : nat :=
  match i with
  | O => O
  | S i =>
    if (length wire <? 2)%nat then length wire
    else let size := (2 + Z.to_nat (get_be (take 2 wire)))%nat in (size + skip_frames i (drop size wire))%nat
  end.

(** A slice of [n] bytes takes the next message on the wire whole. *)
Definition whole_read (l : link) (n : nat) : Prop :=
  (length (l_wire l) < 2)%nat \/ get_be (take 2 (l_wire l)) <= Z.of_nat n.

(** What the guarantees below ask of the world: messages whose length fits the
    header, slices that take a whole message, and carriers that do not fail
    within the payload of a message. *)
Definition clean (l : link) (e : event) : Prop :=
  match e with
  | EWrite b => zlen b < 2 ^ 16
  | EWriteFails b k => 0 < zlen b < 2 ^ 16 /\ ((k <= 2)%nat \/ (length (frame b) <= k)%nat)
  | EFail k => exists i j, (j <= 2)%nat /\ k = (skip_frames i (l_wire l) + j)%nat
  | ERead n => whole_read l n
  | ERestore => True
  end.

Fixpoint clean_run (l : link) (es : list event) : Prop :=
  match es with
  | [] => True
  | e :: es => clean l e /\ clean_run (apply_event l e) es
  end.

(** ** Frames *)

Lemma length_message b : length (frame b) = (2 + length b)%nat.
Proof. unfold frame. by rewrite length_app, length_put_be. Qed.

Lemma frame_header b r : zlen b < 2 ^ 16 -> get_be (take 2 (frame b ++ r)) = zlen b.
Proof.
  intros Hb. unfold frame. rewrite <-app_assoc, take_app_length' by (by rewrite length_put_be).
  rewrite get_put_be. unfold u16. pose proof (zlen_nonneg b). rewrite !Z.mod_small; try lia. by rewrite Z.mod_small.
Qed.

Lemma frame_rest b r : drop 2 (frame b ++ r) = b ++ r.
Proof. unfold frame. rewrite <-app_assoc, drop_app_length' by (by rewrite length_put_be). done. Qed.

Lemma frame_Read c b r alive n :
  c_readBuffer c = [] -> b ≠ [] -> zlen b < 2 ^ 16 -> zlen b <= Z.of_nat n ->
  Read c (frame b ++ r) alive n =
    (mkConn (u32 (c_readIndex c + 1)) [] (c_writeIndex c) (c_writeBuffers c), r, Got b).
Proof.
  intros Hc Hb Hz Hn. unfold Read, read. rewrite Hc, frame_header, frame_rest by done.
  assert ((length (frame b ++ r) <? 2)%nat = false) as -> by (apply Nat.ltb_ge; rewrite length_app, length_message; lia).
  unfold zlen in *. rewrite Nat2Z.id.
  assert ((length b =? 0)%nat = false) as -> by (apply Nat.eqb_neq; by destruct b).
  assert ((length (b ++ r) <? length b)%nat = false) as -> by (apply Nat.ltb_ge; rewrite length_app; lia).
  cbn. rewrite take_app_length, drop_app_length, take_ge, drop_ge by lia. done.
Qed.

Lemma close_Read c r alive n :
  c_readBuffer c = [] -> Read c (frame [] ++ r) alive n = (c, r, SessionClosed).
Proof. intros Hc. unfold Read, read. by rewrite Hc. Qed.

(** What is left of a message that did not arrive: at most its length. *)
Definition torn (t : list Z) : Prop := (length t < 2)%nat \/ (length t = 2%nat /\ 0 < get_be t).

Lemma torn_Read c t alive n :
  c_readBuffer c = [] -> torn t -> exists wire, Read c t alive n = (c, wire, if alive then Blocked else Failed) /\
    (alive = true -> wire = t) /\ (alive = false -> wire = []).
Proof.
  intros Hc Ht. assert (c = mkConn (c_readIndex c) [] (c_writeIndex c) (c_writeBuffers c)) as Hd
    by (destruct c; cbn in *; congruence).
  unfold Read, read. rewrite Hc. destruct Ht as [Ht|[Ht Hg]].
  - rewrite (proj2 (Nat.ltb_lt _ _) Ht). destruct alive; cbn; rewrite <-?Hd; by eexists.
  - rewrite Ht. change (2 <? 2)%nat with false. rewrite take_ge, drop_ge by lia.
    assert ((Z.to_nat (get_be t) =? 0)%nat = false) as -> by (apply Nat.eqb_neq; lia).
    assert ((length (@nil Z) <? Z.to_nat (get_be t))%nat = true) as -> by (apply Nat.ltb_lt; cbn; lia).
    destruct alive; cbn; rewrite <-?Hd; by eexists.
Qed.

Lemma torn_take k t : torn t -> torn (take k t).
Proof.
  intros Ht. destruct (decide (length t <= k)%nat) as [Hk|Hk]; [by rewrite take_ge|].
  left. rewrite length_take. destruct Ht as [?|[? _]]; lia.
Qed.

Lemma torn_frame j b : (j <= 2)%nat -> 0 < zlen b < 2 ^ 16 -> torn (take j (frame b)).
Proof.
  intros Hj Hb. destruct (decide (j = 2%nat)) as [->|Hne].
  - right. rewrite length_take, length_message. split; [lia|].
    pose proof (frame_header b [] ltac:(lia)) as H. rewrite app_nil_r in H. lia.
  - left. rewrite length_take, length_message. lia.
Qed.

(** A cut at the allowed places leaves whole messages and a torn one. *)
Lemma cut_frames i j ms t :
  (j <= 2)%nat -> torn t -> Forall (fun m => zlen m < 2 ^ 16) ms ->
  exists ms' t', ms' `prefix_of` ms /\ torn t' /\
    take (skip_frames i (concat (map frame ms) ++ t) + j) (concat (map frame ms) ++ t) = concat (map frame ms') ++ t'.
Proof.
  intros Hj Ht Hms. revert i. induction Hms as [|m ms Hm Hms IH]; intros i.
  - exists [], (take (skip_frames i t + j) t). split; [done|]. split; [by apply torn_take|done].
  - cbn [map concat]. destruct i as [|i].
    + cbn [skip_frames Nat.add]. destruct (decide (m = [] /\ j = 2%nat)) as [[-> ->]|Hne].
      * exists [[]], []. split; [by apply prefix_cons, prefix_nil|]. split; [left; cbn; lia|done].
      * exists [], (take j (frame m)). split; [apply prefix_nil|]. split.
        -- destruct (decide (m = [])) as [->|Hm0]; [left; rewrite length_take, length_message; cbn; destruct (decide (j = 2%nat)); [by destruct Hne|lia]|].
           apply torn_frame; [done|]. unfold zlen in *. destruct m; [done|cbn in *; lia].
        -- cbn [map concat app]. rewrite <-app_assoc, take_app_le by (rewrite length_message; lia). done.
    + destruct (IH i) as (ms' & t' & Hpre & Ht' & Hcut). exists (m :: ms'), t'. split; [by apply prefix_cons|]. split; [done|].
      cbn [skip_frames map concat]. rewrite <-app_assoc.
      assert ((length (frame m ++ concat (map frame ms) ++ t) <? 2)%nat = false) as ->
        by (apply Nat.ltb_ge; rewrite length_app, length_message; lia).
      rewrite frame_header by done. unfold zlen at 1 2. rewrite Nat2Z.id, <-length_message, drop_app_length.
      rewrite <-Nat.add_assoc, take_app_add. by rewrite Hcut, app_assoc.
Qed.

(** ** The ring *)

(** The last messages are where their numbers say. *)
Record keeps (c : failoverConn) (w : list (list Z)) : Prop := {
  keeps_index : c_writeIndex c = zlen w;
  keeps_length : length (c_writeBuffers c) = BufferSize;
  keeps_ring i : (i < length w <= i + BufferSize)%nat -> c_writeBuffers c !! (i mod BufferSize)%nat = w !! i
}.

Lemma keeps_Write c w b : keeps c w -> zlen w + 1 < 2 ^ 32 -> keeps (Write c b) (w ++ [b]).
Proof.
  intros [Hi Hl Hr] Hz. pose proof (zlen_nonneg w). split; cbn.
  - rewrite Hi, u32_id by (unfold is_u32; lia). by rewrite zlen_app.
  - by rewrite length_insert.
  - intros i. rewrite length_app. cbn. intros Hb. rewrite Hi. unfold zlen. rewrite Nat2Z.id.
    destruct (decide (i = length w)) as [->|Hne].
    + rewrite list_lookup_insert_eq by (rewrite Hl; by apply Nat.mod_upper_bound). by rewrite list_lookup_middle.
    + rewrite list_lookup_insert_ne, lookup_app_l by first [lia|intros E; assert (i = length w \/ i + 10 <= length w)%nat as [?|?]; [|lia|lia];
        pose proof (Nat.div_mod_eq i 10); pose proof (Nat.div_mod_eq (length w) 10); lia].
      apply Hr. lia.
Qed.

Lemma restore_some c w fuel r :
  keeps c w -> zlen w < 2 ^ 32 -> (r <= length w <= r + fuel)%nat -> (fuel <= BufferSize)%nat ->
  restore_loop fuel c (Z.of_nat r) = Some (drop r w).
Proof.
  intros Hk Hz. revert r. induction fuel as [|fuel IH]; intros r Hr Hf; cbn [restore_loop]; rewrite (keeps_index c w Hk);
    destruct (Z.eqb_spec (Z.of_nat r) (zlen w)) as [E|E]; unfold zlen in *; try lia.
  - rewrite drop_ge by lia. done.
  - rewrite drop_ge by lia. done.
  - replace (u32 (Z.of_nat r + 1)) with (Z.of_nat (S r)) by (rewrite u32_id; unfold is_u32; lia). rewrite IH by lia. cbn.
    destruct (lookup_lt_is_Some_2 w r) as [m Hm]; [lia|]. rewrite Nat2Z.id.
    rewrite (keeps_ring c w Hk) by lia. rewrite Hm. cbn. by rewrite (drop_S w m r Hm).
Qed.

Lemma restore_none c w fuel r :
  keeps c w -> zlen w < 2 ^ 32 -> Z.of_nat r + Z.of_nat fuel < 2 ^ 32 -> (length w < r \/ r + fuel < length w)%nat ->
  restore_loop fuel c (Z.of_nat r) = None.
Proof.
  intros Hk Hz. revert r. induction fuel as [|fuel IH]; intros r Hb Hr; cbn [restore_loop]; rewrite (keeps_index c w Hk);
    destruct (Z.eqb_spec (Z.of_nat r) (zlen w)) as [E|E]; unfold zlen in *; try lia; [done|].
  replace (u32 (Z.of_nat r + 1)) with (Z.of_nat (S r)) by (rewrite u32_id; unfold is_u32; lia). by rewrite IH by lia.
Qed.

(** ** The invariant *)

(** What the receiver may get: the messages that were written, and the one of a
    failed write. *)
Definition sent (l : link) : list (list Z) := l_written l ++ l_extra l.

(** The wire of a running session has whole messages, the next ones of the
    receiver, and a torn one; all of them while the carrier is alive. *)
Definition wire_ok (l : link) (r : nat) : Prop :=
  exists ms t, l_wire l = concat (map frame ms) ++ t /\ torn t /\ ms `prefix_of` drop r (sent l) /\
    (l_alive l = true -> t = [] /\ ms = drop r (sent l)).

Record linked (l : link) (r : nat) : Prop := {
  linked_sizes : Forall (fun m => zlen m < 2 ^ 16) (sent l);
  linked_sender : keeps (l_sender l) (l_written l);
  linked_buffer : c_readBuffer (l_receiver l) = [];
  linked_index : c_readIndex (l_receiver l) = Z.of_nat r;
  linked_count : (r <= length (sent l))%nat;
  linked_read : l_read l = concat (take r (sent l));
  linked_extra : l_alive l = true -> l_extra l = [];
  linked_one : (length (l_extra l) <= 1)%nat;
  linked_wire : l_status l = Running -> wire_ok l r;
  linked_finished : l_status l = Finished -> sent l !! r = Some []
}.

Lemma linked_fresh : linked fresh 0.
Proof.
  split; cbn; try done; try lia.
  - split; [done|done|]. intros i [Hi _]. cbn in Hi. lia.
  - intros _. exists [], []. split_and!; try done. left. cbn. lia.
Qed.

Lemma linked_EWrite l r b :
  linked l r -> zlen b < 2 ^ 16 -> zlen (l_written l) + 1 < 2 ^ 32 -> linked (apply_event l (EWrite b)) r.
Proof.
  intros H Hb Hz. cbn. destruct (l_alive l) eqn:Ea; [|done].
  destruct H as [Hs Hk Hbuf Hi Hc Hr He H1 Hw Hf]. specialize (He Ea).
  assert (sent l = l_written l) as El by (unfold sent; by rewrite He, app_nil_r). rewrite El in *.
  split; cbn; unfold sent; cbn; rewrite ?He, ?app_nil_r; try done; [..| cbn; lia| |].
  - apply Forall_app. split; [done|by constructor].
  - by apply keeps_Write.
  - rewrite length_app. lia.
  - by rewrite take_app_le by lia.
  - intros Hrun. destruct (Hw Hrun) as (ms & t & Hwire & Ht & Hpre & Hall). destruct (Hall Ea) as [-> ->].
    exists (drop r (l_written l) ++ [b]), []. unfold sent in *; cbn. rewrite He, !app_nil_r in *.
    split_and!; [|done|by rewrite drop_app_le by lia|intros _; by rewrite drop_app_le by lia].
    rewrite Hwire, map_app, concat_app. cbn. by rewrite app_nil_r.
  - intros Hfin. by apply lookup_app_l_Some, Hf.
Qed.

Lemma linked_EWriteFails l r b k :
  linked l r -> clean l (EWriteFails b k) -> linked (apply_event l (EWriteFails b k)) r.
Proof.
  intros H [Hb Hk]. unfold apply_event. destruct (l_alive l) eqn:Ea; [|done].
  assert (exists extra, (if (length (frame b) <=? k)%nat then [b] else []) = extra /\
    (extra = [b] /\ (length (frame b) <= k)%nat \/ extra = [] /\ (k < length (frame b))%nat)) as (extra & -> & Hex).
  { destruct (Nat.leb_spec (length (frame b)) k); eexists; (split; [done|]); [by left|by right]. }
  destruct H as [Hs Hkeep Hbuf Hi Hc Hr He H1 Hw Hf]. specialize (He Ea).
  assert (sent l = l_written l) as El by (unfold sent; by rewrite He, app_nil_r). rewrite El in *.
  split; cbn; unfold sent; cbn; try done.
  - apply Forall_app. split; [done|]. destruct Hex as [[-> _]|[-> _]]; [constructor; [lia|constructor]|constructor].
  - rewrite length_app. lia.
  - by rewrite take_app_le by lia.
  - destruct Hex as [[-> _]|[-> _]]; cbn; lia.
  - intros Hrun. destruct (Hw Hrun) as (ms & t & Hwire & Ht & Hpre & Hall). destruct (Hall Ea) as [-> ->].
    unfold wire_ok, sent in *. cbn. rewrite He, app_nil_r in Hwire. rewrite app_nil_r in Hwire.
    destruct Hex as [[-> Hle]|[-> Hlt]].
    + exists (drop r (l_written l) ++ [b]), []. split_and!; [|left; cbn; lia|by rewrite drop_app_le by lia|done].
      rewrite Hwire, map_app, concat_app, take_ge by lia. cbn. by rewrite !app_nil_r.
    + exists (drop r (l_written l)), (take k (frame b)). rewrite app_nil_r. split_and!; [by rewrite Hwire| |done|done].
      apply torn_frame; lia.
  - intros Hfin. by apply lookup_app_l_Some, Hf.
Qed.

Lemma linked_EFail l r k :
  linked l r -> clean l (EFail k) -> linked (apply_event l (EFail k)) r.
Proof.
  intros [Hs Hkeep Hbuf Hi Hc Hr He H1 Hw Hf] (i & j & Hj & ->). split; try done.
  intros Hrun. destruct (Hw Hrun) as (ms & t & Hwire & Ht & Hpre & _). cbn [apply_event]. rewrite Hwire.
  destruct (cut_frames i j ms t Hj Ht) as (ms' & t' & Hpre' & Ht' & Hcut).
  { destruct Hpre as [k Hk]. apply (Forall_drop _ r) in Hs. rewrite Hk in Hs. by apply Forall_app in Hs as [? _]. }
  rewrite Hcut. exists ms', t'. split_and!; [done|done|by etrans|done].
Qed.

(** Reading one message, when the receiver has a whole one on the wire. *)
Lemma linked_next l r b ms t n :
  linked l r -> l_status l = Running -> l_wire l = concat (map frame (b :: ms)) ++ t -> torn t ->
  b :: ms `prefix_of` drop r (sent l) -> (l_alive l = true -> t = [] /\ b :: ms = drop r (sent l)) ->
  zlen b <= Z.of_nat n -> zlen (sent l) < 2 ^ 32 ->
  linked (apply_event l (ERead n)) (if decide (b = []) then r else S r) /\
  (b ≠ [] -> l_wire (apply_event l (ERead n)) = concat (map frame ms) ++ t /\ l_status (apply_event l (ERead n)) = Running).
Proof.
  intros [Hs Hkeep Hbuf Hi Hc Hr He H1 Hw Hf] Hrun Hwire Ht Hpre Hall Hn Hz.
  cbn [map concat] in Hwire. rewrite <-app_assoc in Hwire.
  assert (sent l !! r = Some b) as Hb.
  { destruct Hpre as [k Hk]. apply (f_equal (.!! 0%nat)) in Hk. rewrite lookup_drop in Hk. by rewrite Nat.add_0_r in Hk. }
  assert (zlen b < 2 ^ 16) as Hzb by (by apply (proj1 (Forall_lookup _ _) Hs r)).
  assert (drop r (sent l) = b :: drop (S r) (sent l)) as Hd by (by apply drop_S).
  assert (r < length (sent l))%nat as Hlt by (by eapply lookup_lt_Some).
  unfold apply_event. rewrite Hrun, Hwire. destruct (decide (b = [])) as [->|Hne].
  - rewrite close_Read by done. split; [|done]. split; cbn; try done. by rewrite app_nil_r.
  - rewrite frame_Read by done. cbn. split; [|done]. rewrite Hd in Hpre. apply prefix_cons_inv_2 in Hpre.
    split; cbn; try done.
    + rewrite Hi, u32_id; [lia|]. unfold is_u32, zlen in *. lia.
    + change (l_read l ++ b = concat (take (S r) (sent l))). rewrite (take_S_r _ _ b Hb), concat_app, Hr. cbn. by rewrite app_nil_r.
    + intros _. exists ms, t. split_and!; [done|done|done|]. intros Ha. destruct (Hall Ha) as [-> Hms]. split; [done|].
      rewrite Hd in Hms. by injection Hms.
Qed.

Lemma linked_ERead l r n :
  linked l r -> clean l (ERead n) -> zlen (sent l) < 2 ^ 32 -> exists r', linked (apply_event l (ERead n)) r'.
Proof.
  intros H Hn Hz. destruct (l_status l) eqn:Es; [|exists r; cbn; by rewrite Es..].
  destruct (linked_wire l r H Es) as (ms & t & Hwire & Ht & Hpre & Hall). destruct ms as [|b ms].
  - exists r. destruct H as [Hs Hkeep Hbuf Hi Hc Hr He H1 Hw Hf]. cbn in Hwire. unfold apply_event. rewrite Es, Hwire.
    destruct (torn_Read (l_receiver l) t (l_alive l) n Hbuf Ht) as (wire & -> & Hyes & Hno).
    split; cbn; try done.
    + destruct (l_alive l); by rewrite app_nil_r.
    + intros _. exists [], wire. split_and!; [done| |apply prefix_nil|].
      * destruct (l_alive l); [by rewrite Hyes|rewrite Hno by done; left; cbn; lia].
      * intros Ha. rewrite Hyes by done. by apply Hall.
    + destruct (l_alive l); done.
  - eexists. eapply (linked_next l r b ms t n); try done.
    assert (zlen b < 2 ^ 16) as Hb.
    { pose proof (Forall_drop _ r _ (linked_sizes l r H)) as Hs. destruct Hpre as [k Hk]. rewrite Hk in Hs.
      by inversion Hs. }
    unfold clean, whole_read in Hn. rewrite Hwire in Hn. cbn [map concat] in Hn.
    rewrite <-app_assoc, frame_header, length_app, length_message in Hn by done. lia.
Qed.

Lemma linked_ERestore l r :
  linked l r -> zlen (l_written l) + 11 < 2 ^ 32 -> linked (apply_event l ERestore) r /\
  (l_status l = Running ->
    if decide (r <= length (l_written l) <= r + BufferSize)%nat
    then l_status (apply_event l ERestore) = Running /\ l_alive (apply_event l ERestore) = true
    else l_status (apply_event l ERestore) = Broken).
Proof.
  intros H Hz. unfold apply_event. destruct (l_status l) eqn:Es; [|done..].
  destruct H as [Hs Hkeep Hbuf Hi Hc Hr He H1 Hw Hf]. unfold RestoreConn. rewrite Hi.
  assert (r <= length (l_written l) + 1)%nat as Hr1 by (unfold sent in Hc; rewrite length_app in Hc; lia).
  destruct (decide _) as [Hd|Hd].
  - rewrite (restore_some _ _ _ _ Hkeep) by lia. split; [|done].
    assert (take r (sent l) = take r (l_written l)) as Et by (unfold sent; rewrite take_app_le by lia; done).
    split; cbn; unfold sent; cbn; rewrite ?app_nil_r; try done; [by apply Forall_app in Hs as [? _]|lia|congruence|lia|].
    intros _. exists (drop r (l_written l)), []. unfold sent. cbn. rewrite !app_nil_r. split_and!; try done. left. cbn. lia.
  - rewrite (restore_none _ (l_written l)); [|done|unfold zlen in *; lia..]. split; [|done].
    split; cbn; done.
Qed.

(** ** The guarantees *)

Lemma apply_written l e : exists k, l_written (apply_event l e) = l_written l ++ k.
Proof.
  destruct e; cbn.
  - destruct (l_alive l); [by eexists|exists []; by rewrite app_nil_r].
  - destruct (l_alive l); exists []; by rewrite app_nil_r.
  - exists []. by rewrite app_nil_r.
  - exists []. rewrite app_nil_r. repeat case_match; done.
  - exists []. rewrite app_nil_r. repeat case_match; done.
Qed.

Lemma run_written l es : exists k, l_written (run l es) = l_written l ++ k.
Proof.
  revert l. induction es as [|e es IH]; intros l; cbn; [exists []; by rewrite app_nil_r|].
  destruct (apply_written l e) as [a Ha]. destruct (IH (apply_event l e)) as [b Hb]. unfold run in Hb. rewrite Hb, Ha.
  exists (a ++ b). by rewrite app_assoc.
Qed.

Lemma linked_step l r e :
  linked l r -> clean l e -> zlen (l_written (apply_event l e)) + 11 < 2 ^ 32 -> exists r', linked (apply_event l e) r'.
Proof.
  intros H Hc Hz. assert (zlen (l_written l) + 11 < 2 ^ 32) as Hz0.
  { destruct (apply_written l e) as [k Hk]. rewrite Hk, zlen_app in Hz. pose proof (zlen_nonneg k). lia. }
  destruct e.
  - exists r. apply linked_EWrite; [done|done|lia].
  - exists r. by apply linked_EWriteFails.
  - exists r. by apply linked_EFail.
  - apply (linked_ERead l r); [done|done|]. unfold sent. rewrite zlen_app. pose proof (linked_one l r H). unfold zlen in *. lia.
  - exists r. by apply linked_ERestore.
Qed.

Lemma linked_run l r es :
  linked l r -> clean_run l es -> zlen (l_written (run l es)) + 11 < 2 ^ 32 -> exists r', linked (run l es) r'.
Proof.
  revert l r. induction es as [|e es IH]; intros l r H Hc Hz; [by exists r|]. destruct Hc as [Hc Hcs]. cbn in Hz |- *.
  destruct (linked_step l r e H Hc) as [r1 H1]; [|by eapply IH].
  destruct (run_written (apply_event l e) es) as [k Hk]. unfold run in Hk. rewrite Hk, zlen_app in Hz.
  pose proof (zlen_nonneg k). lia.
Qed.

Lemma ERead_frame l n :
  l_written (apply_event l (ERead n)) = l_written l /\ l_alive (apply_event l (ERead n)) = l_alive l.
Proof. cbn. repeat case_match; done. Qed.

(** Reads on a carrier that is alive get everything that was written. *)
Lemma reads_drain l r n k :
  linked l r -> l_status l = Running -> l_alive l = true ->
  Forall (fun m => m ≠ [] /\ zlen m <= Z.of_nat n) (l_written l) -> zlen (l_written l) < 2 ^ 32 -> length (l_written l) = (r + k)%nat ->
  l_read (run l (replicate k (ERead n))) = concat (l_written l).
Proof.
  revert l r. induction k as [|k IH]; intros l r H Hrun Ha Hne Hz Hk;
    (assert (sent l = l_written l) as El by (unfold sent; rewrite (linked_extra l r H Ha), app_nil_r; done)).
  - cbn. rewrite (linked_read l r H), El, take_ge by lia. done.
  - cbn [replicate run foldl].
    destruct (lookup_lt_is_Some_2 (l_written l) r) as [b Hb]; [lia|].
    destruct (linked_wire l r H Hrun) as (ms & t & Hwire & Ht & Hpre & Hall). destruct (Hall Ha) as [-> ->]. rewrite El in *.
    pose proof (drop_S _ _ _ Hb) as Hd. rewrite Hd in Hwire. destruct (proj1 (Forall_lookup _ _) Hne r b Hb) as [Hb0 Hbn].
    destruct (linked_next l r b (drop (S r) (l_written l)) [] n) as [H' Hst]; try done; rewrite ?El, ?Hd; try done.
    destruct (Hst Hb0) as [_ Hst']. rewrite decide_False in H' by done. destruct (ERead_frame l n) as [Hw' Ha'].
    fold (run (apply_event l (ERead n)) (replicate k (ERead n))).
    rewrite (IH _ (S r) H'), Hw'; [done|done|congruence|by rewrite Hw'|by rewrite Hw'|rewrite Hw'; lia].
Qed.

(** C22: over carriers that fail at any time, but not within the payload of a
    message, read with slices that take the next message whole, what is read
    are the bytes of the first messages that were written, as many as the
    receiver counts, each once and in order; only a message that was given to
    a carrier in full although its [Write] failed may come after them; and the
    session ends for the receiver where the sender closed it.  The messages
    are shorter than 2^16 bytes and fewer than 2^32 - 11. *)
Theorem failover_exactly_once es :
  clean_run fresh es -> zlen (l_written (run fresh es)) + 11 < 2 ^ 32 ->
  let l := run fresh es in
  exists r, c_readIndex (l_receiver l) = Z.of_nat r /\ (r <= length (l_written l ++ l_extra l))%nat /\
    l_read l = concat (take r (l_written l ++ l_extra l)) /\ (length (l_extra l) <= 1)%nat /\
    (l_status l = Finished -> (l_written l ++ l_extra l) !! r = Some []).
Proof.
  intros Hc Hz. cbv zeta. destruct (linked_run fresh 0 es linked_fresh Hc Hz) as [r H]. exists r. split_and!; apply H.
Qed.

(** C23: from every state of a running session that such a run reaches, a new
    carrier restores it exactly when at most ten messages have to be sent
    again, and none that the sender does not know of was read; then the next
    reads, with slices that take the longest message whole, get all that was
    written; otherwise the session is broken, and not resumed with a gap. *)
Theorem failover_recovers es n :
  clean_run fresh es -> zlen (l_written (run fresh es)) + 11 < 2 ^ 32 ->
  let l := run fresh es in
  let r := Z.to_nat (c_readIndex (l_receiver l)) in
  l_status l = Running -> Forall (fun m => m ≠ [] /\ zlen m <= Z.of_nat n) (l_written l) ->
  if decide (r <= length (l_written l) <= r + BufferSize)%nat
  then l_read (run l (ERestore :: replicate (length (l_written l) - r) (ERead n))) = concat (l_written l)
  else l_status (apply_event l ERestore) = Broken.
Proof.
  intros Hc Hz. cbv zeta. intros Hrun Hne. destruct (linked_run fresh 0 es linked_fresh Hc Hz) as [r H].
  rewrite (linked_index _ _ H), Nat2Z.id. destruct (linked_ERestore _ _ H Hz) as [H' Hst]. specialize (Hst Hrun).
  destruct (decide _) as [Hd|Hd]; [|done]. destruct Hst as [Hrun' Ha].
  assert (l_written (apply_event (run fresh es) ERestore) = l_written (run fresh es)) as Hw by (cbn; repeat case_match; done).
  cbn [run foldl]. fold (run (apply_event (run fresh es) ERestore)
    (replicate (length (l_written (run fresh es)) - r) (ERead n))).
  rewrite (reads_drain _ r n); [by rewrite Hw|done|done|done|by rewrite Hw|rewrite Hw; lia|rewrite Hw; lia].
Qed.

(** ** Runs *)

(** Two messages; the carrier fails after the first, which the receiver has
    read, and within the length of the second. *)
Definition demo_events : list event := [EWrite [1; 2]; EWrite [3]; ERead 2; EFail 1].

Lemma demo_clean : clean_run fresh demo_events.
Proof.
  repeat split; try (vm_compute; done); try lia; [right; vm_compute; discriminate|].
  exists 0%nat, 1%nat. split; [lia|reflexivity].
Qed.

Lemma failover_exactly_once_witness :
  exists r, 1 = Z.of_nat r /\ (r <= 2)%nat /\ [1; 2] = concat (take r [[1; 2]; [3]]) /\ (0 <= 1)%nat /\
    (Running = Finished -> [[1; 2]; [3]] !! r = Some []).
Proof. apply (failover_exactly_once demo_events); [apply demo_clean|vm_compute; reflexivity]. Defined.

Lemma failover_recovers_witness :
  l_read (run (run fresh demo_events) [ERestore; ERead 2]) = [1; 2; 3].
Proof.
  apply (failover_recovers demo_events 2); [apply demo_clean|vm_compute; reflexivity|reflexivity|].
  repeat constructor; vm_compute; discriminate.
Defined.

(** A carrier that fails within a payload: the receiver keeps the part that
    arrived, hands it out, and is sent the whole message again. *)
Example torn_payload_repeats :
  l_read (run fresh [EWrite [1; 2]; EFail 3; ERead 65535; ERestore; ERead 65535; ERead 65535]) = [1; 1; 2].
Proof. vm_compute. reflexivity. Qed.

(** A message that is read in two parts counts twice: after the next failure
    the receiver asks for the messages from the one after the next on. *)
Example short_reads_skip :
  l_read (run fresh [EWrite [1; 2]; ERead 1; ERead 1; EWrite [3]; EFail 0; ERestore; EWrite [4]; ERead 9; ERead 9]) = [1; 2; 4].
Proof. vm_compute. reflexivity. Qed.
