(* ===== verification/Kmutex.v ===== *)
(** * A mutex per key
    (src/common/kmutex/mutex.go)

    [Lock] and [Unlock] of one key exclude each other; keys do not hinder each
    other, and a key that nobody uses takes no space.  Both run under one
    inner lock, which [cond.Wait] releases; a thread that was signalled still
    has to return from it. *)

From S2P Require Import Prelude.

Section kmutex.
Context {T : Type} `{Countable T}.

(** [klock]: the count, and the threads that wait on its condition, the first
    one first. *)
Record klock := mkKlock {
  kl_ref : nat;
  kl_waiting : list nat
}.

Abbreviation Kmutex := (gmap T klock).

(** [Lock] up to its return or its wait: whether thread [t] has the lock. *)
Definition Lock (km : Kmutex) (key : T) (t : nat) : Kmutex * bool :=
  match km !! key with
  | None => (<[key := mkKlock 1 []]> km, true)
  | Some kl => (<[key := mkKlock (S (kl_ref kl)) (kl_waiting kl ++ [t])]> km, false)
  end.

(** [Unlock], with the thread that is signalled. *)
Definition Unlock (km : Kmutex) (key : T) : res (Kmutex * option nat) :=
  match km !! key with
  | None => Panic
  | Some kl =>
    match kl_ref kl with
    | O => Panic
    | S O => Ret (delete key km, None)
    | S n =>
      match kl_waiting kl with
      | [] => Ret (<[key := mkKlock n []]> km, None)
      | t :: l => Ret (<[key := mkKlock n l]> km, Some t)
      end
    end
  end.

(** The threads: those that have the lock of a key, those that were signalled
    and have not returned, and whether an [Unlock] panicked. *)
Record threads := mkThreads {
  th_mutex : Kmutex;
  th_holding : list (T * nat);
  th_woken : list (T * nat);
  th_panic : bool
}.

Inductive kstep : threads -> threads -> Prop :=
| step_lock s key t km got :
  Lock (th_mutex s) key t = (km, got) ->
  kstep s (mkThreads km (if got then (key, t) :: th_holding s else th_holding s) (th_woken s) (th_panic s))
| step_return s l k key t :
  th_woken s = l ++ (key, t) :: k ->
  kstep s (mkThreads (th_mutex s) ((key, t) :: th_holding s) (l ++ k) (th_panic s))
| step_unlock s l k key t km woken :
  th_holding s = l ++ (key, t) :: k -> Unlock (th_mutex s) key = Ret (km, woken) ->
  kstep s (mkThreads km (l ++ k) (from_option (fun u => [(key, u)]) [] woken ++ th_woken s) (th_panic s))
| step_panic s l k key t :
  th_holding s = l ++ (key, t) :: k -> Unlock (th_mutex s) key = Panic ->
  kstep s (mkThreads (th_mutex s) (l ++ k) (th_woken s) true).

Definition unlocked : threads := mkThreads ∅ [] [] false.

(** The threads of a list that are there for a key. *)
Definition owned (key : T) (l : list (T * nat)) : list nat := map snd (filter (fun p => p.1 = key) l).

Arguments owned : simpl never.

(** Those that have a key, or are about to. *)
Definition owners (key : T) (s : threads) : list nat := owned key (th_holding s ++ th_woken s).

(** A key that is in use has one owner, and its count is that owner and the
    threads that wait. *)
Record excluded (s : threads) : Prop := {
  excluded_used key kl : th_mutex s !! key = Some kl ->
    length (owners key s) = 1%nat /\ kl_ref kl = S (length (kl_waiting kl));
  excluded_free key : th_mutex s !! key = None -> owners key s = [];
  excluded_panic : th_panic s = false
}.

Lemma owned_app key a b : owned key (a ++ b) = owned key a ++ owned key b.
Proof. unfold owned. by rewrite filter_app, map_app. Qed.

Lemma owned_cons key key' t l : owned key ((key', t) :: l) = (if decide (key' = key) then [t] else []) ++ owned key l.
Proof. unfold owned. rewrite filter_cons. cbn. by destruct (decide (key' = key)). Qed.

#[local] Instance owned_Proper key : Proper (Permutation ==> Permutation) (owned key).
Proof. intros a b Hab. unfold owned. apply Permutation_map. by rewrite Hab. Qed.

Lemma Permutation_none (a b : list nat) : Permutation a b -> a = [] -> b = [].
Proof. intros Hp ->. by apply Permutation_nil_l in Hp. Qed.

(** Only the owners of one key change. *)
Lemma excluded_change s s' key :
  excluded s -> th_panic s' = false ->
  (forall key', key' ≠ key -> th_mutex s' !! key' = th_mutex s !! key' /\ Permutation (owners key' s) (owners key' s')) ->
  match th_mutex s' !! key with
  | Some kl => length (owners key s') = 1%nat /\ kl_ref kl = S (length (kl_waiting kl))
  | None => owners key s' = []
  end -> excluded s'.
Proof.
  intros [Hu Hf _] Hp Hother Hkey. split; [| |done].
  - intros key' kl Hl. destruct (decide (key' = key)) as [->|Hne]; [by rewrite Hl in Hkey|].
    destruct (Hother key' Hne) as [Hm Ho]. rewrite Hm in Hl. rewrite <-Ho. by apply Hu.
  - intros key' Hl. destruct (decide (key' = key)) as [->|Hne]; [by rewrite Hl in Hkey|].
    destruct (Hother key' Hne) as [Hm Ho]. rewrite Hm in Hl. eapply Permutation_none; [done|]. by apply Hf.
Qed.

Lemma excluded_lock s key t km got :
  excluded s -> Lock (th_mutex s) key t = (km, got) ->
  excluded (mkThreads km (if got then (key, t) :: th_holding s else th_holding s) (th_woken s) (th_panic s)).
Proof.
  intros Hs Hl. unfold Lock in Hl. destruct (th_mutex s !! key) as [kl|] eqn:E; injection Hl as <- <-;
    apply (excluded_change s _ key); try done; cbn; try apply Hs; rewrite ?lookup_insert_eq.
  - intros key' Hne. by rewrite lookup_insert_ne.
  - destruct (excluded_used s Hs key kl E) as [Hn Hr]. split; [done|]. cbn. rewrite length_app. cbn. lia.
  - intros key' Hne. rewrite lookup_insert_ne by done. split; [done|]. unfold owners. cbn. by rewrite owned_cons, decide_False.
  - pose proof (excluded_free s Hs key E) as Hf. unfold owners in *. cbn. by rewrite owned_cons, decide_True, Hf.
Qed.

Lemma excluded_return s l k key t :
  excluded s -> th_woken s = l ++ (key, t) :: k ->
  excluded (mkThreads (th_mutex s) ((key, t) :: th_holding s) (l ++ k) (th_panic s)).
Proof.
  intros Hs Hw. set (s' := mkThreads _ _ _ _).
  assert (forall key', Permutation (owners key' s) (owners key' s')) as Hperm.
  { intros key'. unfold owners, s'. cbn. apply owned_Proper. rewrite Hw, !app_assoc. symmetry. apply Permutation_middle. }
  apply (excluded_change s s' key); try done; [apply Hs|]. cbn. destruct (th_mutex s !! key) as [kl|] eqn:E.
  - rewrite <-Hperm. by apply excluded_used.
  - eapply Permutation_none; [apply Hperm|]. by apply excluded_free.
Qed.

(** The owner of a key leaves. *)
Lemma excluded_leave s l k key t :
  excluded s -> th_holding s = l ++ (key, t) :: k ->
  (exists kl, th_mutex s !! key = Some kl /\ kl_ref kl = S (length (kl_waiting kl))) /\
  owned key ((l ++ k) ++ th_woken s) = [] /\
  (forall key', key' ≠ key -> Permutation (owners key' s) (owned key' ((l ++ k) ++ th_woken s))).
Proof.
  intros Hs Hh. assert (forall key', Permutation (owners key' s)
    ((if decide (key = key') then [t] else []) ++ owned key' ((l ++ k) ++ th_woken s))) as Hperm.
  { intros key'. rewrite <-owned_cons. unfold owners. apply owned_Proper. rewrite Hh, app_comm_cons. apply Permutation_app; [|done].
    symmetry. apply Permutation_middle. }
  specialize (Hperm key) as Hk. rewrite decide_True in Hk by done. split_and!.
  - destruct (th_mutex s !! key) as [kl|] eqn:E.
    + exists kl. split; [done|]. by apply (excluded_used s Hs key).
    + rewrite (excluded_free s Hs key E) in Hk. by apply Permutation_nil_l in Hk.
  - destruct (th_mutex s !! key) as [kl|] eqn:E.
    + destruct (excluded_used s Hs key kl E) as [Hn _]. rewrite Hk in Hn. cbn in Hn.
      destruct (owned key ((l ++ k) ++ th_woken s)); [done|cbn in Hn; lia].
    + rewrite (excluded_free s Hs key E) in Hk. by apply Permutation_nil_l in Hk.
  - intros key' Hne. by rewrite Hperm, decide_False.
Qed.

Lemma excluded_unlock s l k key t km woken :
  excluded s -> th_holding s = l ++ (key, t) :: k -> Unlock (th_mutex s) key = Ret (km, woken) ->
  excluded (mkThreads km (l ++ k) (from_option (fun u => [(key, u)]) [] woken ++ th_woken s) (th_panic s)).
Proof.
  intros Hs Hh Hun. destruct (excluded_leave s l k key t Hs Hh) as ((kl & E & Hr) & Hnone & Hother).
  unfold Unlock in Hun. rewrite E, Hr in Hun. rewrite owned_app in Hnone. apply app_nil in Hnone as [Ha Hb].
  destruct (kl_waiting kl) as [|w ws]; injection Hun as <- <-; apply (excluded_change s _ key); try done; cbn; try apply Hs.
  - intros key' Hne. rewrite lookup_delete_ne by done. split; [done|]. by apply Hother.
  - rewrite lookup_delete_eq. unfold owners. cbn. by rewrite owned_app, Ha, Hb.
  - intros key' Hne. rewrite lookup_insert_ne by done. split; [done|]. rewrite Hother by done. unfold owners. cbn.
    rewrite !owned_app, owned_cons, decide_False by done. done.
  - rewrite lookup_insert_eq. unfold owners. cbn. by rewrite owned_app, owned_cons, decide_True, Ha, Hb.
Qed.

Lemma excluded_step s s' : excluded s -> kstep s s' -> excluded s'.
Proof.
  intros Hs Hst. inversion Hst as [? key t km got Hl|? l k key t Hw|? l k key t km woken Hh Hun|? l k key t Hh Hun]; subst.
  - by apply excluded_lock.
  - by apply excluded_return.
  - by eapply excluded_unlock.
  - exfalso. destruct (excluded_leave s l k key t Hs Hh) as ((kl & E & Hr) & _). unfold Unlock in Hun. rewrite E, Hr in Hun.
    by destruct (kl_waiting kl).
Qed.

Lemma excluded_reachable s : rtc kstep unlocked s -> excluded s.
Proof.
  intros Hr. assert (excluded unlocked) as H0 by (split; [by intros key kl Hl|done|done]).
  remember unlocked as s0 eqn:E. clear E. induction Hr as [|s0 s1 s2 Hst _ IH]; [done|]. by eapply IH, excluded_step.
Qed.

(** A thread that waits for a key. *)
Definition waits (key : T) (t : nat) (s : threads) : Prop := exists kl, th_mutex s !! key = Some kl /\ t ∈ kl_waiting kl.

(** C24: at most one thread has the lock of a key, no [Unlock] of a thread that
    has it panics, a key is in the map exactly while somebody has or awaits
    it, and no wake-up is lost: while threads wait for a key, one has it or
    has been signalled, and when that one is done the first of them is
    next. *)
Theorem kmutex_excludes s key :
  rtc kstep unlocked s ->
  (length (owned key (th_holding s)) <= 1)%nat /\ th_panic s = false /\
  (th_mutex s !! key = None <-> owners key s = []) /\
  (forall t, waits key t s -> owners key s ≠ []) /\
  (forall t kl, (key, t) ∈ th_holding s -> th_mutex s !! key = Some kl ->
    exists km, Unlock (th_mutex s) key = Ret (km, head (kl_waiting kl))).
Proof.
  intros Hs%excluded_reachable. split_and!.
  - destruct (th_mutex s !! key) as [kl|] eqn:E.
    + destruct (excluded_used s Hs key kl E) as [Hn _]. unfold owners in Hn. rewrite owned_app, length_app in Hn. lia.
    + pose proof (excluded_free s Hs key E) as Hf. unfold owners in Hf. rewrite owned_app in Hf. apply app_nil in Hf as [-> _]. cbn. lia.
  - apply Hs.
  - split; [apply excluded_free, Hs|]. intros Ho. destruct (th_mutex s !! key) as [kl|] eqn:E; [|done].
    destruct (excluded_used s Hs key kl E) as [Hn _]. by rewrite Ho in Hn.
  - intros t (kl & E & _) Ho. destruct (excluded_used s Hs key kl E) as [Hn _]. by rewrite Ho in Hn.
  - intros t kl _ E. destruct (excluded_used s Hs key kl E) as [_ Hr]. unfold Unlock. rewrite E, Hr.
    destruct (kl_waiting kl); by eexists.
Qed.
End kmutex.

(** Thread 1 has a key that thread 2 waits for. *)
Definition demo_threads : threads (T := Z) := mkThreads (<[7 := mkKlock 2 [2%nat]]> (<[7 := mkKlock 1 []]> ∅)) [(7, 1%nat)] [] false.

Lemma kmutex_excludes_witness :
  (length (owned 7%Z (th_holding demo_threads)) <= 1)%nat /\ th_panic demo_threads = false /\
  (th_mutex demo_threads !! 7 = None <-> owners 7 demo_threads = []) /\
  (forall t, waits 7 t demo_threads -> owners 7 demo_threads ≠ []) /\
  (forall t kl, (7, t) ∈ th_holding demo_threads -> th_mutex demo_threads !! 7 = Some kl ->
    exists km, Unlock (th_mutex demo_threads) 7 = Ret (km, head (kl_waiting kl))).
Proof.
  apply kmutex_excludes.
  eapply rtc_l; [by eapply (step_lock _ 7 1)|]. cbn.
  eapply rtc_l; [eapply (step_lock _ 7 2); reflexivity|]. apply rtc_refl.
Defined.
