(* ===== verification/FailoverServer.v ===== *)
(** * The sessions of failover connections
    (src/protocol/failover: protocol.go, inbound.go, outbound.go, strategy.go)

    A client dials one of its outbounds, in the order of its strategy, and
    announces a session or asks to go on with one; the server keeps the
    connections by the id of their session, and serves the requests of a
    session one after the other. *)

From S2P Require Import Prelude Bond Kmutex.

(** ** Requests (protocol.go) *)

Abbreviation CommandTCP := 1 (only parsing).
Abbreviation CommandReconnect := 2 (only parsing).
Abbreviation StatusOK := 1 (only parsing).
Abbreviation StatusSessionNotFound := 2 (only parsing).

Section sessions.
Context {Socksaddr : Type} {A : AddressSerializer Socksaddr}.

Record Request := mkRequest {
  q_UUID : list Z;
  q_Command : Z;
  q_Destination : Socksaddr
}.

Definition ReadRequest (r : list Z) : res (Request * list Z) :=
  '(version, r) ← read_byte r;
  if negb (version =? 0) then Err "unknown version" else
  '(uuid, r) ← (if (length r <? 16)%nat then Err "EOF" else Ret (take 16 r, drop 16 r));
  '(command, r) ← read_byte r;
  '(destination, r) ← ReadAddrPort r;
  Ret (mkRequest uuid command destination, r).

Definition WriteRequest (q : Request) : res (list Z) :=
  address ← WriteAddrPort (q_Destination q);
  Ret ([0] ++ q_UUID q ++ [q_Command q] ++ address).

Lemma failover_request_back {AL : AddressLaws A} q b r :
  WriteRequest q = Ret b -> length (q_UUID q) = 16%nat -> ReadRequest (b ++ r) = Ret (q, r).
Proof.
  intros Hw Hl. unfold WriteRequest in Hw. destruct (WriteAddrPort (q_Destination q)) as [a|e|] eqn:Ea; try done.
  injection Hw as <-. unfold ReadRequest. cbn [app read_byte mbind res_bind]. change (negb (0 =? 0)) with false. cbv iota.
  rewrite <-!app_assoc, length_app, (proj2 (Nat.ltb_ge _ _)) by lia. cbn [mbind res_bind].
  rewrite take_app_length', drop_app_length' by done. cbn [app read_byte mbind res_bind].
  rewrite (address_law _ a r Ea). cbn [mbind res_bind]. by destruct q.
Qed.

(** ** Dialing (strategy.go, outbound.go)

    The strategies are given what each attempt comes to: a connection or an
    error; and whether the context has ended after an attempt. *)

Section strategy.
Context {conn : Type} (dial : nat -> conn + string) (delay : Z) (done_after : nat -> bool).

(** One pass over [n] outbounds, from attempt [k] on: a connection, the end
    of the context, or the error of the last attempt. *)
Inductive dialed :=
| Connected (c : conn)
| Cancelled
| AllFailed (err : option string).

Fixpoint dial_pass (n k : nat) (err : option string) : dialed :=
  match n with
  | O => AllFailed err
  | S n =>
    match dial k with
    | inl c => Connected c
    | inr e => if (0 <? delay) && done_after k then Cancelled else dial_pass n (S k) (Some e)
    end
  end.

Definition sequentialStrategy (outbounds : nat) : dialed := dial_pass outbounds 0 None.

(** Passes without an end; [None] when [fuel] of them did not connect. *)
Fixpoint cycleStrategy (fuel outbounds k : nat) : option dialed :=
  match fuel with
  | O => None
  | S fuel =>
    match dial_pass outbounds k None with
    | AllFailed _ => cycleStrategy fuel outbounds (k + outbounds)
    | r => Some r
    end
  end.

Lemma dial_pass_first n k err i c :
  (i < n)%nat -> dial (k + i)%nat = inl c ->
  (forall j, (j < i)%nat -> (exists e, dial (k + j)%nat = inr e) /\ (0 <? delay) && done_after (k + j)%nat = false) ->
  dial_pass n k err = Connected c.
Proof.
  revert k err i. induction n as [|n IH]; intros k err i Hi Hc Hj; [lia|]. cbn. destruct i as [|i].
  - rewrite Nat.add_0_r in Hc. by rewrite Hc.
  - destruct (Hj 0%nat) as [[e He] Hd]; [lia|]. rewrite Nat.add_0_r in He, Hd. rewrite He, Hd.
    apply (IH _ _ i); [lia|by rewrite Nat.add_succ_l, <-Nat.add_succ_r|].
    intros j Hlt. rewrite Nat.add_succ_l, <-Nat.add_succ_r. apply Hj. lia.
Qed.

Lemma dial_pass_fails n k err :
  (forall j, (j < n)%nat -> (exists e, dial (k + j)%nat = inr e) /\ (0 <? delay) && done_after (k + j)%nat = false) ->
  exists err', dial_pass n k err = AllFailed err'.
Proof.
  revert k err. induction n as [|n IH]; intros k err Hj; [by eexists|]. cbn.
  destruct (Hj 0%nat) as [[e He] Hd]; [lia|]. rewrite Nat.add_0_r in He, Hd. rewrite He, Hd.
  apply IH. intros j Hlt. rewrite Nat.add_succ_l, <-Nat.add_succ_r. apply Hj. lia.
Qed.

(** The first attempt that connects is the one a strategy returns. *)
Lemma cycle_first n i c k :
  (0 < n)%nat -> dial (k + i)%nat = inl c ->
  (forall j, (j < i)%nat -> (exists e, dial (k + j)%nat = inr e) /\ (0 <? delay) && done_after (k + j)%nat = false) ->
  cycleStrategy (S (i / n)) n k = Some (Connected c).
Proof.
  intros Hn. revert k. induction i as [i IH] using lt_wf_ind. intros k Hc Hj. destruct (decide (i < n)%nat) as [Hlt|Hge].
  - cbn. by rewrite (dial_pass_first n k None i c).
  - destruct (dial_pass_fails n k None) as [err He]; [intros j Hlt; apply Hj; lia|].
    cbn [cycleStrategy]. rewrite He. replace i with (i - n + 1 * n)%nat at 1 by lia. rewrite Nat.div_add by lia. rewrite Nat.add_1_r.
    apply IH; [lia|by replace (k + n + (i - n))%nat with (k + i)%nat by lia|].
    intros j Hlt. rewrite <-Nat.add_assoc. apply Hj. lia.
Qed.

(** Without a delay the end of the context is never looked at: a cycle over
    outbounds that all fail does not end. *)
Lemma cycle_never_ends fuel n k :
  delay <= 0 -> (forall j, exists e, dial j = inr e) -> cycleStrategy fuel n k = None.
Proof.
  intros Hd Hall. revert k. induction fuel as [|fuel IH]; intros k; [done|]. cbn.
  destruct (dial_pass_fails n k None) as [err ->]; [|apply IH].
  intros j _. split; [apply Hall|]. by rewrite (proj2 (Z.ltb_ge 0 delay) Hd).
Qed.
End strategy.

(** ** The server's table (inbound.go) *)

Record Inbound := mkInbound {
  h_conns : gmap (list Z) nat;
  h_mutex : gmap (list Z) klock;
  (** how many connections were made *)
  h_made : nat
}.

Inductive reply :=
| Waiting
| Routed (c : nat)
| NotFound
| Restored (c : nat)
| NotAnswered
| UnknownCommand.

(** [connHandler] for thread [t], when no other thread has the session;
    [answered] is whether the status byte could be written.  Two of its
    returns keep the lock of the session. *)
Definition connHandler (h : Inbound) (t : nat) (request : Request) (answered : bool) : res (Inbound * reply) :=
  let uuid := q_UUID request in
  let '(km, got) := Lock (h_mutex h) uuid t in
  if negb got then Ret (mkInbound (h_conns h) km (h_made h), Waiting) else
  if q_Command request =? CommandTCP then
    '(km, _) ← Unlock km uuid;
    Ret (mkInbound (<[uuid := h_made h]> (h_conns h)) km (S (h_made h)), Routed (h_made h))
  else if q_Command request =? CommandReconnect then
    match h_conns h !! uuid with
    | None =>
      '(km, _) ← Unlock km uuid;
      Ret (mkInbound (h_conns h) km (h_made h), NotFound)
    | Some c =>
      if negb answered then Ret (mkInbound (h_conns h) km (h_made h), NotAnswered) else
      '(km, _) ← Unlock km uuid;
      Ret (mkInbound (h_conns h) km (h_made h), Restored c)
    end
  else Ret (mkInbound (h_conns h) km (h_made h), UnknownCommand).

(** [onClose] of a connection: the session is forgotten. *)
Definition close_session (uuid : list Z) (h : Inbound) : Inbound :=
  mkInbound (delete uuid (h_conns h)) (h_mutex h) (h_made h).

Inductive served :=
| SRequest (t : nat) (q : Request) (answered : bool)
| SClose (uuid : list Z).

Definition served_uuid (e : served) : list Z :=
  match e with SRequest _ q _ => q_UUID q | SClose uuid => uuid end.

Fixpoint serve (h : Inbound) (es : list served) : res (Inbound * list reply) :=
  match es with
  | [] => Ret (h, [])
  | SRequest t q answered :: es =>
    '(h, r) ← connHandler h t q answered;
    '(h, rs) ← serve h es;
    Ret (h, r :: rs)
  | SClose uuid :: es => serve (close_session uuid h) es
  end.

Lemma connHandler_frame h t q answered :
  exists h' r, connHandler h t q answered = Ret (h', r) /\
    forall uuid, uuid ≠ q_UUID q -> h_conns h' !! uuid = h_conns h !! uuid /\ h_mutex h' !! uuid = h_mutex h !! uuid.
Proof.
  unfold connHandler, Lock. destruct (h_mutex h !! q_UUID q) as [kl|] eqn:E; cbn.
  - do 2 eexists. split; [done|]. intros uuid Hne. cbn. by rewrite lookup_insert_ne.
  - unfold Unlock. rewrite lookup_insert_eq. cbn. repeat case_match; (do 2 eexists; split; [done|]); intros uuid Hne; cbn;
      rewrite ?lookup_insert_ne, ?lookup_delete_ne, ?lookup_insert_ne by done; done.
Qed.

Lemma serve_frame h es uuid :
  Forall (fun e => served_uuid e ≠ uuid) es ->
  exists h' rs, serve h es = Ret (h', rs) /\ h_conns h' !! uuid = h_conns h !! uuid /\ h_mutex h' !! uuid = h_mutex h !! uuid.
Proof.
  intros H. revert h. induction H as [|e es He _ IH]; intros h; [by do 2 eexists|]. destruct e as [t q answered|u]; cbn in *.
  - destruct (connHandler_frame h t q answered) as (h1 & r & -> & Hf). cbn. destruct (IH h1) as (h2 & rs & -> & Hc & Hm).
    cbn. destruct (Hf uuid) as [H1 H2]; [done|]. do 2 eexists. split; [done|]. split; congruence.
  - destruct (IH (close_session u h)) as (h2 & rs & -> & Hc & Hm). do 2 eexists. split; [done|]. cbn in *.
    by rewrite lookup_delete_ne in Hc.
Qed.

Lemma lock_unlock (km : gmap (list Z) klock) uuid :
  km !! uuid = None -> Unlock (<[uuid := mkKlock 1 []]> km) uuid = Ret (km, None).
Proof. intros Hk. unfold Unlock. rewrite lookup_insert_eq. cbn. by rewrite delete_insert_id. Qed.

Lemma connHandler_announce h t uuid destination answered :
  h_mutex h !! uuid = None ->
  connHandler h t (mkRequest uuid CommandTCP destination) answered =
    Ret (mkInbound (<[uuid := h_made h]> (h_conns h)) (h_mutex h) (S (h_made h)), Routed (h_made h)).
Proof. intros Hm. unfold connHandler, Lock. cbn. rewrite Hm. cbn. by rewrite lock_unlock. Qed.

Lemma connHandler_reconnect h t uuid destination :
  h_mutex h !! uuid = None ->
  connHandler h t (mkRequest uuid CommandReconnect destination) true =
    Ret (h, from_option Restored NotFound (h_conns h !! uuid)).
Proof.
  intros Hm. unfold connHandler, Lock. cbn. rewrite Hm. cbn.
  destruct (h_conns h !! uuid); rewrite lock_unlock by done; by destruct h.
Qed.

(** A session that was announced is found again: whatever the other
    sessions do in between, the request to go on reaches the connection that
    was made for the announcement, the lock of the session is free before and
    after, and once the session is closed such requests are refused. *)
Theorem failover_session {AL : AddressLaws A} h t t' uuid destination b b' es :
  length uuid = 16%nat -> h_mutex h !! uuid = None ->
  WriteRequest (mkRequest uuid CommandTCP destination) = Ret b ->
  WriteRequest (mkRequest uuid CommandReconnect destination) = Ret b' ->
  Forall (fun e => served_uuid e ≠ uuid) es ->
  exists q h1 h2 rs q', ReadRequest b = Ret (q, []) /\ connHandler h t q true = Ret (h1, Routed (h_made h)) /\
    serve h1 es = Ret (h2, rs) /\ ReadRequest b' = Ret (q', []) /\
    (exists h3, connHandler h2 t' q' true = Ret (h3, Restored (h_made h)) /\ h_mutex h3 !! uuid = None) /\
    (exists h3, connHandler (close_session uuid h2) t' q' true = Ret (h3, NotFound) /\ h_mutex h3 !! uuid = None).
Proof.
  intros Hl Hm Hb Hb' Hes.
  pose proof (failover_request_back _ _ [] Hb Hl) as Hq. pose proof (failover_request_back _ _ [] Hb' Hl) as Hq'.
  rewrite app_nil_r in Hq, Hq'. set (h1 := mkInbound (<[uuid := h_made h]> (h_conns h)) (h_mutex h) (S (h_made h))).
  destruct (serve_frame h1 es uuid Hes) as (h2 & rs & Hs & Hc & Hk). cbn in Hc, Hk. rewrite lookup_insert_eq in Hc.
  rewrite Hm in Hk. eexists _, h1, h2, rs, _. split_and!; [done|by apply connHandler_announce|done|done|..].
  - exists h2. split; [|done]. by rewrite connHandler_reconnect, Hc.
  - exists (close_session uuid h2). split; [|done]. rewrite connHandler_reconnect by done. cbn. by rewrite lookup_delete_eq.
Qed.

(** A request with another command leaves its session locked: the next request
    of the session waits for ever. *)
Lemma unknown_command_locks h t q answered :
  h_mutex h !! q_UUID q = None -> q_Command q ≠ CommandTCP -> q_Command q ≠ CommandReconnect ->
  exists h', connHandler h t q answered = Ret (h', UnknownCommand) /\
    forall t' q' answered', q_UUID q' = q_UUID q -> exists h'', connHandler h' t' q' answered' = Ret (h'', Waiting).
Proof.
  intros Hm H1 H2. unfold connHandler, Lock. rewrite Hm. cbn. rewrite (proj2 (Z.eqb_neq _ _) H1), (proj2 (Z.eqb_neq _ _) H2).
  eexists. split; [done|]. intros t' q' answered' Eq. rewrite Eq. cbn. rewrite lookup_insert_eq. cbn. by eexists.
Qed.
End sessions.
Arguments Request : clear implicits.

(** ** An example: destinations of one byte *)

#[local] Instance demo_address : AddressSerializer Z := {
  ReadAddrPort r := match r with [] => Err "EOF" | d :: r => Ret (d, r) end;
  WriteAddrPort d := Ret [d]
}.

#[local] Instance demo_address_laws : AddressLaws demo_address.
Proof. split. intros d b r Hw. by injection Hw as <-. Qed.

Definition demo_uuid : list Z := replicate 16 7.
Definition demo_inbound : Inbound := mkInbound ∅ ∅ 0.
Definition demo_served : list (served (Socksaddr := Z)) :=
  [SRequest 5 (mkRequest (replicate 16 8) CommandTCP 3) true; SClose (replicate 16 9)].

Lemma failover_session_witness :
  exists q h1 h2 rs q', ReadRequest ([0] ++ demo_uuid ++ [1; 3]) = Ret (q, []) /\
    connHandler demo_inbound 1 q true = Ret (h1, Routed 0) /\
    serve h1 demo_served = Ret (h2, rs) /\ ReadRequest ([0] ++ demo_uuid ++ [2; 3]) = Ret (q', []) /\
    (exists h3, connHandler h2 2 q' true = Ret (h3, Restored 0) /\ h_mutex h3 !! demo_uuid = None) /\
    (exists h3, connHandler (close_session demo_uuid h2) 2 q' true = Ret (h3, NotFound) /\ h_mutex h3 !! demo_uuid = None).
Proof.
  apply (failover_session demo_inbound 1 2 demo_uuid 3 ([0] ++ demo_uuid ++ [1; 3]) ([0] ++ demo_uuid ++ [2; 3]) demo_served).
  - reflexivity.
  - apply lookup_empty.
  - reflexivity.
  - reflexivity.
  - repeat (apply Forall_cons; split; [discriminate|]). apply Forall_nil_2.
Defined.
