(* ===== verification/SudokuGrid.v ===== *)
(** * Sudoku grids of four by four
    (src/transport/sudoku/obfs/sudoku: grid.go, the search of table.go)

    The obfuscation gives every byte a solved grid and sends four of its
    cells, chosen such that no other grid has them. *)

From S2P Require Import Prelude.

Abbreviation Grid := (list Z).

Definition cell (g : Grid) (i : nat) : Z := nth i g 0.

(** Whether [num] may stand at [idx]: not yet in its row, column and box. *)
Definition fits (g : Grid) (idx : nat) (num : Z) : bool :=
  let row := (idx / 4)%nat in
  let col := (idx mod 4)%nat in
  let br := (row / 2 * 2)%nat in
  let bc := (col / 2 * 2)%nat in
  forallb (fun i => negb (cell g (row * 4 + i) =? num) && negb (cell g (i * 4 + col) =? num)) (seq 0 4) &&
  forallb (fun r => forallb (fun c => negb (cell g ((br + r) * 4 + (bc + c)) =? num)) (seq 0 2)) (seq 0 2).

(** [backtrack], with [todo] cells to go. *)
Fixpoint backtrack (todo : nat) (g : Grid) : list Grid :=
  match todo with
  | O => [g]
  | S todo =>
    flat_map (fun num => if fits g (15 - todo) num then backtrack todo (<[(15 - todo)%nat := num]> g) else []) [1; 2; 3; 4]
  end.

Definition GenerateAllGrids : list Grid := backtrack 16 (replicate 16 0).

(** The positions of [k] hints from [s] on, after the positions [c]. *)
Fixpoint combine (k s : nat) (c : list nat) : list (list nat) :=
  match k with
  | O => [c]
  | S k' => flat_map (fun i => combine k' (S i) (c ++ [i])) (seq s (17 - k - s))
  end.

Definition combinations : list (list nat) := combine 4 0 [].

Abbreviation hint := (Z * nat)%type.

(** The value and the position of each hint of a grid. *)
Definition rawParts (g : Grid) (positions : list nat) : list hint := map (fun pos => (cell g pos, pos)) positions.

Definition matches (parts : list hint) (g : Grid) : bool := forallb (fun p => cell g p.2 =? p.1) parts.

(** How many grids have the hints, counting no further than 2. *)
Fixpoint count_matches (parts : list hint) (grids : list Grid) (matchCount : nat) : nat :=
  match grids with
  | [] => matchCount
  | g :: grids =>
    if matches parts g
    then let matchCount := S matchCount in if (1 <? matchCount)%nat then matchCount else count_matches parts grids matchCount
    else count_matches parts grids matchCount
  end.

Definition unique (parts : list hint) : bool := (count_matches parts GenerateAllGrids 0 =? 1)%nat.

(** ** The search finds the solved grids *)

(** The cells of the three kinds of regions. *)
Definition regions : list (list nat) :=
  map (fun r => map (fun i => (r * 4 + i)%nat) (seq 0 4)) (seq 0 4) ++
  map (fun c => map (fun i => (i * 4 + c)%nat) (seq 0 4)) (seq 0 4) ++
  map (fun b => map (fun i => ((b / 2 * 2 + i / 2) * 4 + (b mod 2 * 2 + i mod 2))%nat) (seq 0 4)) (seq 0 4).

(** A solved grid: 16 cells from 1 to 4, different within every region. *)
Definition solved (g : Grid) : Prop :=
  length g = 16%nat /\ Forall (fun v => 1 <= v <= 4) g /\ Forall (fun region => NoDup (map (cell g) region)) regions.

#[export] Instance solved_dec g : Decision (solved g).
Proof. unfold solved. apply _. Defined.

(** The first [idx] cells of a grid. *)
Definition part (g : Grid) (idx : nat) : Grid := take idx g ++ replicate (16 - idx) 0.

Lemma cell_part g idx i : length g = 16%nat -> (idx <= 16)%nat -> cell (part g idx) i = if decide (i < idx)%nat then cell g i else 0.
Proof.
  intros Hl Hi. unfold cell, part. destruct (decide (i < idx)%nat) as [Hlt|Hge].
  - rewrite app_nth1 by (rewrite length_take; lia). rewrite <-(take_drop idx g) at 2. rewrite app_nth1 by (rewrite length_take; lia). done.
  - rewrite app_nth2 by (rewrite length_take; lia). rewrite nth_lookup. destruct (replicate _ _ !! _) eqn:E; [|done].
    by apply lookup_replicate in E as [-> _].
Qed.

(** The cells that share a region with [idx]. *)
Definition neighbours (idx : nat) : list nat :=
  let row := (idx / 4)%nat in
  let col := (idx mod 4)%nat in
  map (fun i => (row * 4 + i)%nat) (seq 0 4) ++ map (fun i => (i * 4 + col)%nat) (seq 0 4) ++
  flat_map (fun r => map (fun c => ((row / 2 * 2 + r) * 4 + (col / 2 * 2 + c))%nat) (seq 0 2)) (seq 0 2).

Lemma fits_neighbours g idx num :
  (forall j, j ∈ neighbours idx -> cell g j ≠ num) -> fits g idx num = true.
Proof.
  intros H. assert (forall j, j ∈ neighbours idx -> negb (cell g j =? num) = true) as Hn.
  { intros j Hj. apply negb_true_iff, Z.eqb_neq, H, Hj. }
  unfold fits. apply andb_true_iff. split.
  - apply forallb_forall. intros i Hi. apply andb_true_iff. split; apply Hn; unfold neighbours; apply list_elem_of_In; rewrite !in_app_iff.
    + left. apply in_map_iff. by exists i.
    + right. left. apply in_map_iff. by exists i.
  - apply forallb_forall. intros r Hr. apply forallb_forall. intros c Hc. apply Hn. unfold neighbours.
    apply list_elem_of_In. rewrite !in_app_iff. right. right. apply in_flat_map. exists r. split; [done|].
    apply in_map_iff. by exists c.
Qed.

(** Two different cells of a region. *)
Definition peers (i j : nat) : bool :=
  negb (i =? j)%nat && existsb (fun region => existsb (Nat.eqb i) region && existsb (Nat.eqb j) region) regions.

Lemma peers_differ g i j : solved g -> peers i j = true -> cell g i ≠ cell g j.
Proof.
  intros (_ & _ & Hr) Hp E. unfold peers in Hp. apply andb_true_iff in Hp as [Hne Hex].
  apply existsb_exists in Hex as (region & Hin & Hij). apply andb_true_iff in Hij as [Hi Hj].
  apply existsb_exists in Hi as (i' & Hi & ->%Nat.eqb_eq). apply existsb_exists in Hj as (j' & Hj & ->%Nat.eqb_eq).
  apply list_elem_of_In in Hin. rewrite Forall_forall in Hr. specialize (Hr region Hin).
  apply list_elem_of_In, list_elem_of_lookup_1 in Hi as [a Ha]. apply list_elem_of_In, list_elem_of_lookup_1 in Hj as [b Hb].
  assert (a = b) as ->.
  { eapply (NoDup_lookup _ _ _ (cell g i') Hr); rewrite list_lookup_fmap; [by rewrite Ha|by rewrite Hb, E]. }
  rewrite Ha in Hb. injection Hb as ->. by rewrite Nat.eqb_refl in Hne.
Qed.

Lemma neighbours_peers : forall idx, (idx < 16)%nat ->
  forallb (fun j => (idx <=? j)%nat || peers idx j) (neighbours idx) = true.
Proof. do 16 (destruct idx as [|idx]; [reflexivity|]). lia. Qed.

Lemma part_S g idx : length g = 16%nat -> (idx < 16)%nat -> <[idx := cell g idx]> (part g idx) = part g (S idx).
Proof.
  intros Hl Hi. apply (nth_ext _ _ 0 0).
  - unfold part. rewrite length_insert, !length_app, !length_take, !length_replicate. lia.
  - intros n Hn. change (nth n ?l 0) with (cell l n). rewrite cell_part by lia.
    unfold part in Hn. rewrite length_insert, length_app, length_take, length_replicate in Hn.
    unfold cell at 1. rewrite nth_lookup. destruct (decide (n = idx)) as [->|Hne].
    + rewrite list_lookup_insert_eq by (unfold part; rewrite length_app, length_take, length_replicate; lia).
      rewrite decide_True by lia. done.
    + rewrite list_lookup_insert_ne by done. rewrite <-nth_lookup. change (nth n ?l 0) with (cell l n). rewrite cell_part by lia.
      destruct (decide (n < idx)%nat), (decide (n < S idx)%nat); try done; lia.
Qed.

Lemma backtrack_finds g todo : solved g -> (todo <= 16)%nat -> g ∈ backtrack todo (part g (16 - todo)).
Proof.
  intros Hs. induction todo as [|todo IH]; intros Ht; destruct Hs as (Hl & Hv & Hr); (assert (solved g) as Hs by done).
  - cbn. unfold part. rewrite take_ge by (rewrite Hl; lia). cbn. rewrite app_nil_r. by left.
  - cbn [backtrack]. apply list_elem_of_In, in_flat_map. exists (cell g (15 - todo)).
    assert (1 <= cell g (15 - todo) <= 4) as Hc.
    { unfold cell. rewrite Forall_forall in Hv. apply Hv, list_elem_of_In, nth_In. lia. }
    split; [cbn; lia|]. replace (16 - S todo)%nat with (15 - todo)%nat by lia. rewrite fits_neighbours.
    + rewrite part_S by lia. replace (S (15 - todo)) with (16 - todo)%nat by lia. apply list_elem_of_In, IH; lia.
    + intros j Hj. rewrite cell_part by lia. destruct (decide (j < 15 - todo)%nat) as [Hlt|Hge]; [|lia].
      pose proof (neighbours_peers (15 - todo) ltac:(lia)) as Hp. rewrite forallb_forall in Hp.
      apply list_elem_of_In, Hp in Hj. apply orb_true_iff in Hj as [Hj|Hj]; [apply Nat.leb_le in Hj; lia|].
      intros E. by apply (peers_differ g _ _ Hs) in Hj.
Qed.

Lemma grids_solved : forallb (fun g => bool_decide (solved g)) GenerateAllGrids = true.
Proof. vm_compute. reflexivity. Qed.

(** The search finds exactly the solved grids. *)
Lemma GenerateAllGrids_iff g : g ∈ GenerateAllGrids <-> solved g.
Proof.
  split.
  - intros Hin. pose proof grids_solved as H. rewrite forallb_forall in H. apply list_elem_of_In, H in Hin.
    by apply bool_decide_eq_true in Hin.
  - intros Hs. by apply (backtrack_finds g 16 Hs).
Qed.

(** ** Hints *)

Lemma count_one parts grids :
  count_matches parts grids 1 = 1%nat -> Forall (fun g => matches parts g = false) grids.
Proof.
  induction grids as [|g grids IH]; cbn; [constructor|]. destruct (matches parts g) eqn:E; cbn; [done|].
  intros H. constructor; auto.
Qed.

Lemma count_unique parts grids :
  count_matches parts grids 0 = 1%nat ->
  exists pre g post, grids = pre ++ g :: post /\ matches parts g = true /\
    Forall (fun g => matches parts g = false) (pre ++ post).
Proof.
  induction grids as [|g grids IH]; cbn [count_matches]; [done|]. destruct (matches parts g) eqn:E; cbn [Nat.ltb Nat.leb].
  - intros H. exists [], g, grids. by repeat split; [|apply count_one].
  - intros H. destruct (IH H) as (pre & g' & post & -> & Hm & Hf). exists (g :: pre), g', post. repeat split; [done|].
    by constructor.
Qed.

(** Unique hints are those of one grid only. *)
Lemma unique_grid parts g g' :
  unique parts = true -> g ∈ GenerateAllGrids -> g' ∈ GenerateAllGrids ->
  matches parts g = true -> matches parts g' = true -> g = g'.
Proof.
  unfold unique. intros (pre & h & post & E & Hh & Hf)%Nat.eqb_eq%count_unique Hg Hg' Hm Hm'. rewrite E in Hg, Hg'.
  rewrite Forall_forall in Hf.
  assert (forall x, x ∈ pre ++ h :: post -> matches parts x = true -> x = h) as Hx.
  { intros x Hin Hx. rewrite elem_of_app, elem_of_cons in Hin. destruct Hin as [Hin|[->|Hin]]; [|done|];
    rewrite Hf in Hx; try done; rewrite elem_of_app; auto. }
  by rewrite (Hx g Hg Hm), (Hx g' Hg' Hm').
Qed.

Lemma matches_raw g positions : matches (rawParts g positions) g = true.
Proof.
  unfold matches, rawParts. apply forallb_forall. intros [v p] Hin. apply in_map_iff in Hin as (q & [= <- <-] & _).
  apply Z.eqb_refl.
Qed.

Lemma matches_perm parts parts' g : Permutation parts parts' -> matches parts g = matches parts' g.
Proof.
  intros HP. unfold matches. induction HP; cbn; [done|by f_equal| |congruence].
  rewrite !andb_assoc. f_equal. apply andb_comm.
Qed.

Definition combination_ok (positions : list nat) : bool :=
  (length positions =? 4)%nat && forallb (fun p => (p <? 16)%nat) positions && bool_decide (NoDup positions).

Lemma combinations_ok : forallb combination_ok combinations = true.
Proof. vm_compute. reflexivity. Qed.

Lemma combinations_count : length combinations = 1820%nat.
Proof. vm_compute. reflexivity. Qed.

Lemma combinations_spec positions :
  positions ∈ combinations -> length positions = 4%nat /\ Forall (fun p => (p < 16)%nat) positions /\ NoDup positions.
Proof.
  intros Hin. pose proof combinations_ok as H. rewrite forallb_forall in H. apply list_elem_of_In, H in Hin.
  unfold combination_ok in Hin. apply andb_true_iff in Hin as [[Hl%Nat.eqb_eq Hp]%andb_true_iff Hn%bool_decide_eq_true].
  repeat split; [done| |done]. apply Forall_forall. intros p Hin. rewrite forallb_forall in Hp.
  apply Nat.ltb_lt, Hp. by apply list_elem_of_In.
Qed.

Lemma grids_count : length GenerateAllGrids = 288%nat.
Proof. vm_compute. reflexivity. Qed.

Lemma grids_distinct : NoDup GenerateAllGrids.
Proof. apply (bool_decide_unpack _). vm_compute. exact I. Qed.

(** Four choices of positions are enough to give every grid unique hints. *)
Definition covering : list (list nat) := [[0; 2; 9; 11]; [0; 3; 13; 14]; [0; 2; 13; 15]; [0; 3; 9; 10]]%nat.

Lemma covering_combinations : forallb (fun c => bool_decide (c ∈ combinations)) covering = true.
Proof. vm_compute. reflexivity. Qed.

Lemma covering_unique :
  forallb (fun g => existsb (fun c => unique (rawParts g c)) covering) GenerateAllGrids = true.
Proof. vm_compute. reflexivity. Qed.

(** Every solved grid has four cells that no other solved grid has. *)
Lemma unique_hints_exist g : solved g -> exists positions, positions ∈ combinations /\ unique (rawParts g positions) = true.
Proof.
  intros Hin%GenerateAllGrids_iff. pose proof covering_unique as H. rewrite forallb_forall in H.
  apply list_elem_of_In, H in Hin. apply existsb_exists in Hin as (c & Hc & Hu). exists c. split; [|done].
  pose proof covering_combinations as Hcc. rewrite forallb_forall in Hcc. by apply Hcc, bool_decide_eq_true in Hc.
Qed.

(** The search finds all 288 solved grids, each once, and for each of them
    some choice of four positions gives hints that no other solved grid has. *)
Theorem grids_and_hints :
  length GenerateAllGrids = 288%nat /\ NoDup GenerateAllGrids /\ (forall g, g ∈ GenerateAllGrids <-> solved g) /\
  (forall g, solved g -> exists positions, positions ∈ combinations /\
    forall g', solved g' -> matches (rawParts g positions) g' = true -> g' = g).
Proof.
  split; [apply grids_count|]. split; [apply grids_distinct|]. split; [apply GenerateAllGrids_iff|]. intros g Hg.
  destruct (unique_hints_exist g Hg) as (positions & Hc & Hu). exists positions. split; [done|]. intros g' Hg' Hm.
  apply (unique_grid _ _ _ Hu); [by apply GenerateAllGrids_iff..|done|apply matches_raw].
Qed.
