(* ===== verification/SudokuLayout.v ===== *)
(** * Byte layouts of the Sudoku obfuscation
    (src/transport/sudoku/obfs/sudoku: layout.go, ascii_mode.go)

    A layout says which bytes of the wire carry a hint and which are padding,
    and translates hints (a value and a position) and groups of six bits to
    bytes.  There is one of printable bytes, one of low entropy, and one for
    every pattern of the configuration.  A Go string is the list of its bytes;
    the functions of Unicode tables are parameters. *)

From stdpp Require Import sorting.
From S2P Require Import Prelude GoText.

(** [strings.TrimSpace] and [strings.ToLower]. *)
Class TextLib := { TrimSpace : text -> text; ToLower : text -> text }.

(** Letters that are lower case already, and the underscore. *)
Definition plain_char (c : Z) : bool := ((97 <=? c) && (c <=? 122)) || (c =? 95).

(** What their documentation says of a word of such letters. *)
Class TextLaws `{TextLib} : Prop := {
  trim_plain s : forallb plain_char s = true -> TrimSpace s = s;
  lower_plain s : forallb plain_char s = true -> ToLower s = s
}.

Record byteLayout := mk_layout {
  name : text;
  hintMask : Z;
  hintValue : Z;
  padMarker : Z;
  paddingPool : list Z;
  hintTable : list bool;
  encodeHint : list (list Z);
  encodeGroup : list Z;
  decodeGroup : list Z;
  groupValid : list bool
}.

(** [for i := 0; i < n; i++] *)
Definition range (n : nat) : list Z := map Z.of_nat (seq 0 n).

Definition isHint (l : byteLayout) (b : Z) : bool := nth (Z.to_nat b) (hintTable l) false.

Definition hintByte (l : byteLayout) (val pos : Z) : Z :=
  nth (Z.to_nat (Z.land pos 0x0F)) (nth (Z.to_nat (Z.land val 0x03)) (encodeHint l) []) 0.

Definition groupByte (l : byteLayout) (group : Z) : Z := nth (Z.to_nat (Z.land group 0x3F)) (encodeGroup l) 0.

Definition decodePackedGroup (l : byteLayout) (b : Z) : Z * bool :=
  (nth (Z.to_nat b) (decodeGroup l) 0, nth (Z.to_nat b) (groupValid l) false).

Definition newASCIILayout : byteLayout :=
  let wire_of (b : Z) := if b =? 0x7F then 10 else b in
  let is_wire (wire : Z) := Z.land wire 0x40 =? 0x40 in
  {| name := bytes_of "ascii";
     hintMask := 0x40;
     hintValue := 0x40;
     padMarker := 0x3F;
     paddingPool := map (fun i => 0x20 + i) (range 32);
     hintTable := <[10%nat := true]> (map is_wire (range 256));
     encodeHint := map (fun val => map (fun pos => wire_of (Z.lor (Z.lor 0x40 (u8 (Z.shiftl val 4))) pos)) (range 16)) (range 4);
     encodeGroup := map (fun group => wire_of (Z.lor 0x40 group)) (range 64);
     decodeGroup := <[10%nat := 0x3F]> (map (fun wire => if is_wire wire then Z.land wire 0x3F else 0) (range 256));
     groupValid := <[10%nat := true]> (map is_wire (range 256)) |}.

Definition newEntropyLayout : byteLayout :=
  let is_wire (wire : Z) := Z.land wire 0x90 =? 0 in
  {| name := bytes_of "entropy";
     hintMask := 0x90;
     hintValue := 0x00;
     padMarker := 0x80;
     paddingPool := flat_map (fun i => [0x80 + i; 0x10 + i]) (range 8);
     hintTable := map is_wire (range 256);
     encodeHint := map (fun val => map (fun pos => Z.lor (u8 (Z.shiftl val 5)) pos) (range 16)) (range 4);
     encodeGroup := map (fun v => Z.lor (u8 (Z.shiftl (Z.land v 0x30) 1)) (Z.land v 0x0F)) (range 64);
     decodeGroup := map (fun wire =>
       if is_wire wire then Z.lor (Z.land (Z.shiftr wire 1) 0x30) (Z.land wire 0x0F) else 0) (range 256);
     groupValid := map is_wire (range 256) |}.

(** ** Custom patterns *)

(** The bits of the symbols of a pattern, from bit [7 - i] on. *)
Fixpoint pattern_bits (cleaned : text) (i : Z) (bits : list Z * list Z * list Z) : res (list Z * list Z * list Z) :=
  match cleaned with
  | [] => Ret bits
  | c :: rest =>
    let '(xBits, pBits, vBits) := bits in
    let bit := 7 - i in
    if c =? 120 then pattern_bits rest (i + 1) (xBits ++ [bit], pBits, vBits)
    else if c =? 112 then pattern_bits rest (i + 1) (xBits, pBits ++ [bit], vBits)
    else if c =? 118 then pattern_bits rest (i + 1) (xBits, pBits, vBits ++ [bit])
    else Err "invalid char in custom table"
  end.

(** [1 << b] as a byte. *)
Definition bit_of (b : Z) : Z := u8 (Z.shiftl 1 b).

(** [for i, bit := range bits] *)
Definition indexed (bits : list Z) : list (Z * Z) := zip (range (length bits)) bits.

Definition encodeBits (xBits pBits vBits : list Z) (xMask val pos : Z) (dropX : option nat) : Z :=
  let out := xMask in
  let out := match dropX with Some d => Z.ldiff out (bit_of (nth d xBits 0)) | None => out end in
  let out := if negb (Z.land val 0x02 =? 0) then Z.lor out (bit_of (nth 0 pBits 0)) else out in
  let out := if negb (Z.land val 0x01 =? 0) then Z.lor out (bit_of (nth 1 pBits 0)) else out in
  foldl (fun out '(i, bit) => if Z.land (Z.shiftr pos (3 - i)) 0x01 =? 1 then Z.lor out (bit_of bit) else out) out (indexed vBits).

(** [bits.OnesCount8] *)
Definition OnesCount8 (b : Z) : nat := length (filter (fun i => Z.testbit b i = true) (range 8)).

(** The padding bytes of a pattern: hints that miss one of the two marks and
    have at least five bits, in the order in which they are found. *)
Definition custom_padding (xBits pBits vBits : list Z) (xMask : Z) : list Z :=
  foldl (fun padding drop =>
    foldl (fun padding val =>
      foldl (fun padding pos =>
        let b := encodeBits xBits pBits vBits xMask val pos (Some drop) in
        if (5 <=? OnesCount8 b)%nat then if bool_decide (b ∈ padding) then padding else padding ++ [b] else padding)
        padding (range 16))
      padding (range 4))
    [] (seq 0 (length xBits)).

(** The group of six bits that a byte of the wire carries. *)
Definition decodeBits (pBits vBits : list Z) (wire : Z) : Z :=
  let val := 0 in
  let val := if negb (Z.land wire (bit_of (nth 0 pBits 0)) =? 0) then Z.lor val 0x02 else val in
  let val := if negb (Z.land wire (bit_of (nth 1 pBits 0)) =? 0) then Z.lor val 0x01 else val in
  let pos := foldl (fun pos '(i, bit) =>
    if negb (Z.land wire (bit_of bit) =? 0) then Z.lor pos (bit_of (3 - i)) else pos) 0 (indexed vBits) in
  Z.lor (u8 (Z.shiftl val 4)) pos.

(** [newCustomLayout] of a pattern without its white space, in lower case. *)
Definition custom_layout (cleaned : text) : res byteLayout :=
  if negb (zlen cleaned =? 8) then Err "custom table must have 8 symbols" else
  bits ← pattern_bits cleaned 0 ([], [], []);
  let '(xBits, pBits, vBits) := bits in
  if negb (zlen xBits =? 2) || negb (zlen pBits =? 2) || negb (zlen vBits =? 4)
  then Err "custom table must contain exactly 2 x, 2 p, 4 v" else
  let xMask := foldl (fun xMask b => Z.lor xMask (bit_of b)) 0 xBits in
  match merge_sort Z.le (custom_padding xBits pBits vBits xMask) with
  | [] => Err "custom table produced empty padding pool"
  | p0 :: rest =>
    let is_wire (wire : Z) := Z.land wire xMask =? xMask in
    Ret {| name := bytes_of "custom(" ++ cleaned ++ bytes_of ")";
           hintMask := xMask;
           hintValue := xMask;
           padMarker := p0;
           paddingPool := p0 :: rest;
           hintTable := map is_wire (range 256);
           encodeHint := map (fun val => map (fun pos => encodeBits xBits pBits vBits xMask val pos None) (range 16)) (range 4);
           encodeGroup := map (fun group =>
             encodeBits xBits pBits vBits xMask (Z.land (Z.shiftr group 4) 0x03) (Z.land group 0x0F) None) (range 64);
           decodeGroup := map (fun wire => if is_wire wire then decodeBits pBits vBits wire else 0) (range 256);
           groupValid := map is_wire (range 256) |}
  end.

Section text.
  Context `{TextLib}.

Definition newCustomLayout (pattern : text) : res byteLayout :=
  custom_layout (ToLower (filter (fun c => c ≠ 32) (TrimSpace pattern))).

Definition resolveLayout (mode customPattern : text) : res byteLayout :=
  let m := ToLower mode in
  if bool_decide (m ∈ [bytes_of "ascii"; bytes_of "prefer_ascii"]) then Ret newASCIILayout
  else if bool_decide (m ∈ [bytes_of "entropy"; bytes_of "prefer_entropy"; []]) then
    if bool_decide (TrimSpace customPattern = []) then Ret newEntropyLayout else newCustomLayout customPattern
  else Err "invalid ascii mode".
End text.

(** ** What the other parts need of a layout *)

Record layout_ok (l : byteLayout) : Prop := {
  (** a group of six bits goes to a hint byte and back *)
  ok_group g : 0 <= g < 64 ->
    is_u8 (nth (Z.to_nat g) (encodeGroup l) 0) /\ isHint l (nth (Z.to_nat g) (encodeGroup l) 0) = true /\
    decodePackedGroup l (nth (Z.to_nat g) (encodeGroup l) 0) = (g, true);
  (** the byte of a hint is that of the group of its value and position *)
  ok_hint val pos : 0 <= val < 4 -> 0 <= pos < 16 ->
    hintByte l val pos = nth (Z.to_nat (16 * val + pos)) (encodeGroup l) 0;
  (** every hint byte carries a group *)
  ok_valid b : is_u8 b -> isHint l b = true -> exists g, decodePackedGroup l b = (g, true) /\ 0 <= g < 64;
  (** padding is never a hint, and there is padding that is not the marker *)
  ok_padding b : b ∈ paddingPool l -> is_u8 b /\ isHint l b = false;
  ok_marker : is_u8 (padMarker l) /\ isHint l (padMarker l) = false;
  ok_pool : exists b, b ∈ paddingPool l /\ b ≠ padMarker l;
  ok_pool_size : zlen (paddingPool l) <= 256
}.

(** The same as a computation over all bytes. *)
Definition layout_okb (l : byteLayout) : bool :=
  let byte (b : Z) := (0 <=? b) && (b <? 256) in
  forallb (fun g => let b := nth (Z.to_nat g) (encodeGroup l) 0 in
    byte b && isHint l b && bool_decide (decodePackedGroup l b = (g, true))) (range 64) &&
  forallb (fun val => forallb (fun pos => hintByte l val pos =? nth (Z.to_nat (16 * val + pos)) (encodeGroup l) 0) (range 16)) (range 4) &&
  forallb (fun b => if isHint l b
    then let '(g, valid) := decodePackedGroup l b in (0 <=? g) && (g <? 64) && valid
    else true) (range 256) &&
  forallb (fun b => byte b && negb (isHint l b)) (paddingPool l) &&
  byte (padMarker l) && negb (isHint l (padMarker l)) &&
  existsb (fun b => negb (b =? padMarker l)) (paddingPool l) && (zlen (paddingPool l) <=? 256).

Lemma in_range n i : 0 <= i < Z.of_nat n -> In i (range n).
Proof.
  intros Hi. unfold range. apply in_map_iff. exists (Z.to_nat i). split; [lia|]. apply in_seq. lia.
Qed.

Lemma byte_spec b : (0 <=? b) && (b <? 256) = true -> is_u8 b.
Proof. unfold is_u8. intros [H1%Z.leb_le H2%Z.ltb_lt]%andb_true_iff. lia. Qed.

Lemma layout_okb_ok l : layout_okb l = true -> layout_ok l.
Proof.
  unfold layout_okb. rewrite !andb_true_iff, !forallb_forall.
  intros [[[[[[[Hg Hh] Hv] Hp] Hmb%andb_true_iff] Hm%negb_true_iff] Hx] Hs%Z.leb_le]. split.
  - intros g Hr. specialize (Hg g (in_range 64 g Hr)). cbv zeta in Hg.
    rewrite !andb_true_iff in Hg. destruct Hg as [[Hb Hi] Hd%bool_decide_eq_true].
    split; [|done]. by apply byte_spec, andb_true_iff.
  - intros val pos Hval Hpos. specialize (Hh val (in_range 4 val Hval)). rewrite forallb_forall in Hh.
    by apply Z.eqb_eq, Hh, (in_range 16).
  - intros b Hb Hi. specialize (Hv b (in_range 256 b Hb)). rewrite Hi in Hv.
    destruct (decodePackedGroup l b) as [g valid]. rewrite !andb_true_iff in Hv. destruct Hv as [[H1 H2] ->]. exists g. split; [done|lia].
  - intros b Hb. apply list_elem_of_In, Hp in Hb. apply andb_true_iff in Hb as [Hb Hi%negb_true_iff]. split; [|done]. by apply byte_spec.
  - split; [by apply byte_spec|done].
  - apply existsb_exists in Hx as (b & Hb & Hne). exists b. split; [by apply list_elem_of_In|]. apply negb_true_iff in Hne. lia.
  - done.
Qed.

Lemma ascii_ok : layout_ok newASCIILayout.
Proof. apply layout_okb_ok. vm_compute. reflexivity. Qed.

Lemma entropy_ok : layout_ok newEntropyLayout.
Proof. apply layout_okb_ok. vm_compute. reflexivity. Qed.
