(* ===== verification/SudokuCustom.v ===== *)
(** * The layouts of custom patterns are well formed

    A pattern of eight symbols places the two marks, the two bits of the value
    and the four bits of the position of a hint.  Bit by bit, what is encoded
    is decoded again, whatever the order of the symbols. *)

From stdpp Require Import sorting.
From S2P Require Import Prelude GoText SudokuLayout.

(** ** Single bits *)

Lemma bit_of_testbit b i : 0 <= b < 8 -> 0 <= i -> Z.testbit (bit_of b) i = (i =? b).
Proof.
  intros Hb Hi. unfold bit_of, u8. rewrite Z.shiftl_1_l, Z.mod_small.
  - rewrite Z.pow2_bits_eqb by lia. apply Z.eqb_sym.
  - split; [lia|]. apply Z.pow_lt_mono_r; lia.
Qed.

Lemma land_bit w b : 0 <= b < 8 -> negb (Z.land w (bit_of b) =? 0) = Z.testbit w b.
Proof.
  intros Hb. destruct (Z.testbit w b) eqn:E.
  - apply negb_true_iff, Z.eqb_neq. intros H0. assert (Z.testbit (Z.land w (bit_of b)) b = false) as H1 by (rewrite H0; apply Z.bits_0).
    rewrite Z.land_spec, E, bit_of_testbit in H1 by lia. by rewrite Z.eqb_refl in H1.
  - apply negb_false_iff, Z.eqb_eq. apply Z.bits_inj'. intros i Hi. rewrite Z.land_spec, bit_of_testbit, Z.bits_0 by lia.
    destruct (i =? b) eqn:Ei; [|apply andb_false_r]. apply Z.eqb_eq in Ei as ->. by rewrite E.
Qed.

Lemma land_2 w : negb (Z.land w 2 =? 0) = Z.testbit w 1.
Proof. apply (land_bit w 1). lia. Qed.

Lemma land_1 w : negb (Z.land w 1 =? 0) = Z.testbit w 0.
Proof. apply (land_bit w 0). lia. Qed.

Lemma shiftr_bit w k : 0 <= k -> (Z.land (Z.shiftr w k) 1 =? 1) = Z.testbit w k.
Proof.
  intros Hk. change 1 with (Z.ones 1). rewrite Z.land_ones by lia. rewrite Z.testbit_eqb by lia.
  rewrite Z.shiftr_div_pow2 by lia. reflexivity.
Qed.

(** Setting one bit under a condition. *)
Lemma set_bit c out b i :
  0 <= b < 8 -> 0 <= i -> Z.testbit (if c : bool then Z.lor out (bit_of b) else out) i = Z.testbit out i || (c && (i =? b)).
Proof.
  intros Hb Hi. destruct c; [|by rewrite orb_false_r]. by rewrite Z.lor_spec, bit_of_testbit.
Qed.

Lemma group_parts val pos :
  0 <= val < 4 -> 0 <= pos < 16 -> val = ((16 * val + pos) / 16) mod 4 /\ pos = (16 * val + pos) mod 16.
Proof.
  intros Hv Hp. rewrite (Z.mul_comm 16). split.
  - rewrite Z.div_add_l, Z.div_small, Z.add_0_r by lia. symmetry. apply Z.mod_small. lia.
  - rewrite Z.add_comm, Z.mod_add by lia. symmetry. apply Z.mod_small. lia.
Qed.

(** A number whose bits from [k] on are zero. *)
Lemma bits_below n k : 0 <= k -> (forall i, k <= i -> Z.testbit n i = false) -> 0 <= n < 2 ^ k.
Proof.
  intros Hk H. replace n with (n mod 2 ^ k); [apply Z.mod_pos_bound; lia|]. apply Z.bits_inj'. intros i Hi.
  destruct (decide (i < k)); [by apply Z.mod_pow2_bits_low|]. rewrite Z.mod_pow2_bits_high by lia. symmetry. apply H. lia.
Qed.

Lemma nth_range {A} (f : Z -> A) n i d : 0 <= i < Z.of_nat n -> nth (Z.to_nat i) (map f (range n)) d = f i.
Proof.
  intros Hi. unfold range. rewrite map_map, nth_lookup, list_lookup_fmap, lookup_seq_lt by lia. cbn. f_equal. lia.
Qed.

(** ** The padding pool *)

Lemma foldl_elems {A} (f : list Z -> A -> list Z) (Q : A -> Z -> Prop) l padding b :
  (forall padding x, b ∈ f padding x <-> b ∈ padding \/ Q x b) ->
  b ∈ foldl f padding l <-> b ∈ padding \/ exists x, x ∈ l /\ Q x b.
Proof.
  intros Hf. revert padding. induction l as [|x l IH]; intros padding; cbn.
  - split; [by left|]. intros [H|(x & H & _)]; [done|]. by apply elem_of_nil in H.
  - rewrite IH, Hf. split.
    + intros [[H|H]|(y & Hy & H)]; [by left|right; exists x; by rewrite elem_of_cons; auto|right; exists y; by rewrite elem_of_cons; auto].
    + intros [H|(y & Hy & H)]; [by auto|]. apply elem_of_cons in Hy as [->|Hy]; [by auto|]. right. by exists y.
Qed.

Lemma foldl_length {A} (f : list Z -> A -> list Z) k l padding :
  (forall padding x, (length (f padding x) <= length padding + k)%nat) ->
  (length (foldl f padding l) <= length padding + k * length l)%nat.
Proof.
  intros Hf. revert padding. induction l as [|x l IH]; intros padding; cbn [foldl length]; [lia|].
  specialize (IH (f padding x)). specialize (Hf padding x). lia.
Qed.

Lemma custom_padding_spec xs ps vs m b :
  b ∈ custom_padding xs ps vs m <->
  exists drop, drop ∈ seq 0 (length xs) /\ exists val, val ∈ range 4 /\ exists pos, pos ∈ range 16 /\
    b = encodeBits xs ps vs m val pos (Some drop) /\ (5 <= OnesCount8 b)%nat.
Proof.
  unfold custom_padding.
  rewrite (foldl_elems _ (fun drop b => exists val, val ∈ range 4 /\ exists pos, pos ∈ range 16 /\
    b = encodeBits xs ps vs m val pos (Some drop) /\ (5 <= OnesCount8 b)%nat)).
  - rewrite elem_of_nil. tauto.
  - intros padding drop. apply (foldl_elems _ (fun val b => exists pos, pos ∈ range 16 /\
      b = encodeBits xs ps vs m val pos (Some drop) /\ (5 <= OnesCount8 b)%nat)).
    intros p' val. apply (foldl_elems _ (fun pos b => b = encodeBits xs ps vs m val pos (Some drop) /\ (5 <= OnesCount8 b)%nat)).
    intros p'' pos. cbv zeta. destruct (5 <=? _)%nat eqn:E; [apply Nat.leb_le in E|apply Nat.leb_gt in E].
    + case_bool_decide as Hin.
      * split; [by left|]. intros [H|[-> _]]; done.
      * rewrite elem_of_app, list_elem_of_singleton. split; [|tauto]. intros [H| ->]; auto.
    + split; [by left|]. intros [H|[-> H]]; [done|lia].
Qed.

Lemma custom_padding_length x0 x1 ps vs m : (length (custom_padding [x0; x1] ps vs m) <= 128)%nat.
Proof.
  unfold custom_padding.
  etransitivity; [apply (foldl_length _ 64); intros padding d; etransitivity; [apply (foldl_length _ 16); intros p' val;
    etransitivity; [apply (foldl_length _ 1)|]|]|]; [|cbn; lia..].
  intros p'' pos. cbv zeta. destruct (5 <=? _)%nat; [|lia]. case_bool_decide; [lia|]. rewrite length_app. cbn. lia.
Qed.

(** ** The layout of eight different bits *)

(** Decides the equality of bits that a hypothesis tells apart. *)
Ltac eqb_distinct :=
  repeat match goal with
  | |- context [?a =? ?b] => rewrite (proj2 (Z.eqb_neq a b)) by (assumption || (apply not_eq_sym; assumption))
  end.

Section bits.
  Variables x0 x1 p0 p1 v0 v1 v2 v3 : Z.
  Hypothesis Hperm : Permutation [x0; x1; p0; p1; v0; v1; v2; v3] [7; 6; 5; 4; 3; 2; 1; 0].

Let xMask := Z.lor (Z.lor 0 (bit_of x0)) (bit_of x1).
Let enc := encodeBits [x0; x1] [p0; p1] [v0; v1; v2; v3] xMask.
Let dec := decodeBits [p0; p1] [v0; v1; v2; v3].

Lemma bits_distinct : NoDup [x0; x1; p0; p1; v0; v1; v2; v3].
Proof. rewrite Hperm. apply (bool_decide_unpack _). vm_compute. exact I. Qed.

Lemma bits_range b : b ∈ [x0; x1; p0; p1; v0; v1; v2; v3] -> 0 <= b < 8.
Proof. rewrite Hperm. rewrite !elem_of_cons, elem_of_nil. lia. Qed.

Lemma bits_ranges :
  (0 <= x0 < 8 /\ 0 <= x1 < 8 /\ 0 <= p0 < 8 /\ 0 <= p1 < 8) /\
  (0 <= v0 < 8 /\ 0 <= v1 < 8 /\ 0 <= v2 < 8 /\ 0 <= v3 < 8).
Proof. repeat split; apply bits_range; rewrite !elem_of_cons; tauto. Qed.

Lemma mask_testbit i : 0 <= i -> Z.testbit xMask i = (i =? x0) || (i =? x1).
Proof.
  intros Hi. pose proof bits_ranges. unfold xMask. by rewrite !Z.lor_spec, Z.bits_0, !bit_of_testbit by lia.
Qed.

(** The marks of an encoded hint, one of which may be dropped. *)
Definition marks (d : option nat) (i : Z) : bool :=
  ((i =? x0) || (i =? x1)) && match d with Some d => negb (i =? nth d [x0; x1] 0) | None => true end.

Lemma enc_testbit val pos d i :
  match d with Some d => (d < 2)%nat | None => True end -> 0 <= i ->
  Z.testbit (enc val pos d) i =
  marks d i || (Z.testbit val 1 && (i =? p0)) || (Z.testbit val 0 && (i =? p1)) || (Z.testbit pos 3 && (i =? v0)) ||
  (Z.testbit pos 2 && (i =? v1)) || (Z.testbit pos 1 && (i =? v2)) || (Z.testbit pos 0 && (i =? v3)).
Proof.
  intros Hd Hi. pose proof bits_ranges as Hr. unfold enc, encodeBits. cbn [indexed range length seq map zip zip_with foldl nth Z.of_nat].
  cbv zeta. rewrite !set_bit by lia. rewrite land_2, land_1, !shiftr_bit by lia. do 6 f_equal.
  unfold marks. destruct d as [[|[|d]]|]; cbn [nth]; rewrite ?Z.ldiff_spec, mask_testbit, ?bit_of_testbit, ?andb_true_r by lia; [done..|lia|done].
Qed.
Lemma dec_testbit w i :
  0 <= i ->
  Z.testbit (dec w) i =
  (Z.testbit w p0 && (i =? 5)) || (Z.testbit w p1 && (i =? 4)) || (Z.testbit w v0 && (i =? 3)) ||
  (Z.testbit w v1 && (i =? 2)) || (Z.testbit w v2 && (i =? 1)) || (Z.testbit w v3 && (i =? 0)).
Proof.
  intros Hi. pose proof bits_ranges as Hr. unfold dec, decodeBits.
  cbn [indexed range length seq map zip zip_with foldl nth Z.of_nat]. cbv zeta. rewrite !land_bit by lia.
  set (val := if Z.testbit w p1 then _ else _).
  assert (forall j, Z.testbit (u8 (Z.shiftl val 4)) j = (Z.testbit w p0 && (j =? 5)) || (Z.testbit w p1 && (j =? 4))) as Hv.
  { subst val. destruct (Z.testbit w p0), (Z.testbit w p1); intros j; cbn [andb orb].
    - change (u8 _) with (Z.lor (2 ^ 5) (2 ^ 4)). rewrite Z.lor_spec, !Z.pow2_bits_eqb by lia. lia.
    - change (u8 _) with (2 ^ 5). rewrite Z.pow2_bits_eqb by lia. lia.
    - change (u8 _) with (2 ^ 4). rewrite Z.pow2_bits_eqb by lia. lia.
    - apply Z.bits_0. }
  rewrite Z.lor_spec, Hv. rewrite !set_bit by lia. rewrite Z.bits_0, orb_false_l, !orb_assoc. done.
Qed.

Lemma dec_range w : 0 <= dec w < 64.
Proof.
  apply (bits_below _ 6); [lia|]. intros i Hi. rewrite dec_testbit by lia.
  rewrite !(proj2 (Z.eqb_neq i _)) by lia. by rewrite !andb_false_r.
Qed.

Lemma enc_byte val pos d : match d with Some d => (d < 2)%nat | None => True end -> is_u8 (enc val pos d).
Proof.
  intros Hd. unfold is_u8. apply bits_below; [lia|]. intros i Hi. pose proof bits_ranges as Hr. rewrite enc_testbit by (done || lia).
  unfold marks. rewrite !(proj2 (Z.eqb_neq i _)) by lia. by rewrite !andb_false_r.
Qed.

Lemma is_wire_spec w : (Z.land w xMask =? xMask) = Z.testbit w x0 && Z.testbit w x1.
Proof.
  pose proof bits_ranges as Hr. destruct (Z.testbit w x0 && Z.testbit w x1) eqn:E.
  - apply andb_true_iff in E as [E0 E1]. apply Z.eqb_eq, Z.bits_inj'. intros i Hi. rewrite Z.land_spec, mask_testbit by lia.
    destruct (i =? x0) eqn:Ex; [apply Z.eqb_eq in Ex as ->; by rewrite E0|].
    destruct (i =? x1) eqn:Ey; [apply Z.eqb_eq in Ey as ->; by rewrite E1|]. apply andb_false_r.
  - apply Z.eqb_neq. intros H. assert (forall x, 0 <= x -> Z.testbit xMask x = true -> Z.testbit w x = true) as Hx.
    { intros x Hx Hm. rewrite <-H, Z.land_spec in Hm. by apply andb_true_iff in Hm as []. }
    rewrite !Hx in E; rewrite ?mask_testbit, ?Z.eqb_refl, ?orb_true_r by lia; done || lia.
Qed.

Lemma distinct_bits :
  (x0 ≠ x1 /\ x0 ≠ p0 /\ x0 ≠ p1 /\ x0 ≠ v0 /\ x0 ≠ v1 /\ x0 ≠ v2 /\ x0 ≠ v3) /\
  (x1 ≠ p0 /\ x1 ≠ p1 /\ x1 ≠ v0 /\ x1 ≠ v1 /\ x1 ≠ v2 /\ x1 ≠ v3) /\
  (p0 ≠ p1 /\ p0 ≠ v0 /\ p0 ≠ v1 /\ p0 ≠ v2 /\ p0 ≠ v3) /\ (p1 ≠ v0 /\ p1 ≠ v1 /\ p1 ≠ v2 /\ p1 ≠ v3) /\
  (v0 ≠ v1 /\ v0 ≠ v2 /\ v0 ≠ v3 /\ v1 ≠ v2 /\ v1 ≠ v3 /\ v2 ≠ v3).
Proof.
  pose proof bits_distinct as H. rewrite !NoDup_cons, !not_elem_of_cons in H. tauto.
Qed.

(** The bits of an encoded hint are where the pattern says. *)
Lemma enc_bits val pos :
  Z.testbit (enc val pos None) x0 = true /\ Z.testbit (enc val pos None) x1 = true /\
  Z.testbit (enc val pos None) p0 = Z.testbit val 1 /\ Z.testbit (enc val pos None) p1 = Z.testbit val 0 /\
  Z.testbit (enc val pos None) v0 = Z.testbit pos 3 /\ Z.testbit (enc val pos None) v1 = Z.testbit pos 2 /\
  Z.testbit (enc val pos None) v2 = Z.testbit pos 1 /\ Z.testbit (enc val pos None) v3 = Z.testbit pos 0.
Proof.
  pose proof bits_ranges as Hr. repeat match goal with |- _ /\ _ => split end; rewrite enc_testbit by (done || lia); clear Hr;
  pose proof distinct_bits as Hd; destruct_and! Hd; unfold marks; rewrite ?Z.eqb_refl, ?andb_true_r;
  eqb_distinct;
  rewrite ?andb_false_r, ?andb_true_r, ?orb_false_r, ?orb_true_r; done.
Qed.

Lemma bits_dec_enc g : 0 <= g < 64 -> dec (enc (Z.land (Z.shiftr g 4) 0x03) (Z.land g 0x0F) None) = g.
Proof.
  intros Hg. apply Z.bits_inj'. intros i Hi. rewrite dec_testbit by lia.
  destruct (enc_bits (Z.land (Z.shiftr g 4) 0x03) (Z.land g 0x0F)) as (_ & _ & -> & -> & -> & -> & -> & ->).
  rewrite !Z.land_spec, !Z.shiftr_spec by lia. change (Z.testbit 3 1) with true. change (Z.testbit 3 0) with true.
  change (Z.testbit 0x0F _) with true. rewrite !andb_true_r. cbn [Z.add Pos.add Pos.succ].
  destruct (decide (i < 6)) as [Hlt|Hge].
  - assert (i = 0 \/ i = 1 \/ i = 2 \/ i = 3 \/ i = 4 \/ i = 5) as Hc by lia.
    destruct_or! Hc; subst i; cbn [Z.eqb Pos.eqb]; by rewrite ?andb_false_r, ?andb_true_r, ?orb_false_r.
  - rewrite !(proj2 (Z.eqb_neq i _)) by lia. rewrite !andb_false_r. cbn [orb]. symmetry.
    rewrite <-(Z.mod_small g (2 ^ 6)) by lia. apply Z.mod_pow2_bits_high. lia.
Qed.
Lemma bits_all i : 0 <= i < 8 -> i ∈ [x0; x1; p0; p1; v0; v1; v2; v3].
Proof. rewrite Hperm. rewrite !elem_of_cons, elem_of_nil. lia. Qed.

(** The hint of all ones with one mark dropped. *)
Lemma enc_ones d : (d < 2)%nat -> enc 3 15 (Some d) = Z.ldiff 255 (bit_of (nth d [x0; x1] 0)).
Proof.
  intros Hd. pose proof bits_ranges as Hr. assert (0 <= nth d [x0; x1] 0 < 8) as Hn by (destruct d as [|[|d]]; cbn; lia).
  apply Z.bits_inj'. intros i Hi. rewrite enc_testbit by (done || lia). rewrite Z.ldiff_spec, bit_of_testbit by lia.
  change (Z.testbit 3 1) with true. change (Z.testbit 3 0) with true. change (Z.testbit 15 _) with true. cbn [andb].
  change 255 with (Z.ones 8). destruct (decide (i < 8)) as [Hlt|Hge].
  - rewrite Z.ones_spec_low by lia. pose proof (bits_all i ltac:(lia)) as Hin. clear Hr Hn.
    pose proof distinct_bits as Hne. destruct_and! Hne. rewrite !elem_of_cons in Hin. unfold marks.
    destruct Hin as [->|[->|[->|[->|[->|[->|[->|Hin]]]]]]]; [..|destruct Hin as [->|Hin%elem_of_nil]; [|done]];
    (destruct d as [|[|d]]; [| |by apply Nat.ltb_lt in Hd]); cbn [nth]; rewrite ?Z.eqb_refl;
    eqb_distinct; done.
  - rewrite Z.ones_spec_high by lia. unfold marks. rewrite !(proj2 (Z.eqb_neq i _)) by lia. done.
Qed.

Lemma ones_padding d : (d < 2)%nat ->
  Z.ldiff 255 (bit_of (nth d [x0; x1] 0)) ∈ custom_padding [x0; x1] [p0; p1] [v0; v1; v2; v3] xMask.
Proof.
  intros Hd. apply custom_padding_spec. exists d. split; [apply elem_of_seq; cbn; lia|]. exists 3. split; [apply list_elem_of_In, in_range; lia|].
  exists 15. split; [apply list_elem_of_In, in_range; lia|]. split; [by rewrite <-enc_ones|].
  assert (0 <= nth d [x0; x1] 0 < 8) as Hn by (pose proof bits_ranges; destruct d as [|[|d]]; cbn; lia).
  assert (forall x, 0 <= x < 8 -> (5 <= OnesCount8 (Z.ldiff 255 (bit_of x)))%nat) as Hc; [|by apply Hc].
  intros x Hx. assert (x = 0 \/ x = 1 \/ x = 2 \/ x = 3 \/ x = 4 \/ x = 5 \/ x = 6 \/ x = 7) as Hcase by lia.
  destruct_or! Hcase; subst x; vm_compute; lia.
Qed.
Lemma enc_dropped val pos d : (d < 2)%nat -> Z.testbit (enc val pos (Some d)) (nth d [x0; x1] 0) = false.
Proof.
  intros Hd. assert (0 <= nth d [x0; x1] 0) as Hn by (pose proof bits_ranges; destruct d as [|[|d]]; cbn; lia).
  rewrite enc_testbit by done. clear Hn. pose proof distinct_bits as Hne. destruct_and! Hne. unfold marks.
  destruct d as [|[|d]]; [| |by apply Nat.ltb_lt in Hd]; cbn [nth]; rewrite ?Z.eqb_refl; eqb_distinct;
  by rewrite !andb_false_r.
Qed.

Lemma bits_layout_ok nm q0 rest :
  Permutation (q0 :: rest) (custom_padding [x0; x1] [p0; p1] [v0; v1; v2; v3] xMask) ->
  let is_wire (wire : Z) := Z.land wire xMask =? xMask in
  layout_ok
    {| name := nm; hintMask := xMask; hintValue := xMask; padMarker := q0; paddingPool := q0 :: rest;
       hintTable := map is_wire (range 256);
       encodeHint := map (fun val => map (fun pos => enc val pos None) (range 16)) (range 4);
       encodeGroup := map (fun group => enc (Z.land (Z.shiftr group 4) 0x03) (Z.land group 0x0F) None) (range 64);
       decodeGroup := map (fun wire => if is_wire wire then dec wire else 0) (range 256);
       groupValid := map is_wire (range 256) |}.
Proof.
  intros HP is_wire. set (l := mk_layout _ _ _ _ _ _ _ _ _ _).
  assert (forall b, is_u8 b -> isHint l b = Z.testbit b x0 && Z.testbit b x1) as Hh.
  { intros b Hb. unfold isHint, l. cbn [hintTable]. rewrite nth_range by apply Hb. apply is_wire_spec. }
  assert (forall b, is_u8 b -> isHint l b = true -> decodePackedGroup l b = (dec b, true)) as Hd.
  { intros b Hb Hi. unfold decodePackedGroup, l. cbn [decodeGroup groupValid]. rewrite !nth_range by apply Hb.
    unfold is_wire. rewrite is_wire_spec, <-(Hh b Hb), Hi. done. }
  assert (forall b, b ∈ q0 :: rest -> is_u8 b /\ isHint l b = false) as Hp.
  { intros b Hb. rewrite HP in Hb. apply custom_padding_spec in Hb as (d & Hd2 & val & _ & pos & _ & -> & _).
    apply elem_of_seq in Hd2. cbn in Hd2. assert (is_u8 (enc val pos (Some d))) as Hu by (apply enc_byte; lia).
    split; [done|]. rewrite Hh by done. pose proof (enc_dropped val pos d ltac:(lia)) as Hdrop. subst enc.
    destruct d as [|[|d]]; [| |lia]; cbn [nth] in Hdrop; rewrite Hdrop; [done|apply andb_false_r]. }
  split.
  - intros g Hg. cbn [encodeGroup l]. rewrite nth_range by done.
    set (b := enc _ _ None). assert (is_u8 b) as Hb by by apply enc_byte.
    assert (isHint l b = true) as Hi.
    { rewrite Hh by done. destruct (enc_bits (Z.land (Z.shiftr g 4) 3) (Z.land g 15)) as (H0 & H1 & _). subst b. by rewrite H0, H1. }
    repeat split; [apply Hb..|done|]. rewrite Hd by done. f_equal. by apply bits_dec_enc.
  - intros val pos Hval Hpos. unfold hintByte, l. cbn [encodeHint encodeGroup]. change 3 with (Z.ones 2). change 15 with (Z.ones 4).
    rewrite !Z.land_ones by lia. rewrite (Z.mod_small val), (Z.mod_small pos), !nth_range by lia.
    rewrite !Z.land_ones, Z.shiftr_div_pow2 by lia. change (2 ^ 4) with 16. change (2 ^ 2) with 4. rewrite <-(proj2 (group_parts val pos Hval Hpos)), <-(proj1 (group_parts val pos Hval Hpos)). done.
  - intros b Hb Hi. exists (dec b). split; [by apply Hd|apply dec_range].
  - apply Hp.
  - cbn [padMarker l]. apply Hp. by left.
  - cbn [padMarker paddingPool l]. pose proof (ones_padding 0 ltac:(lia)) as H0. pose proof (ones_padding 1 ltac:(lia)) as H1.
    rewrite <-HP in H0, H1. destruct (decide (Z.ldiff 255 (bit_of x0) = q0)) as [E|E]; [|by exists (Z.ldiff 255 (bit_of x0))].
    exists (Z.ldiff 255 (bit_of x1)). split; [done|]. rewrite <-E. pose proof bits_ranges as Hr. pose proof distinct_bits as Hne.
    destruct Hne as ((Hne & _) & _). intros Hx. apply (f_equal (fun z => Z.testbit z x0)) in Hx.
    rewrite !Z.ldiff_spec, !bit_of_testbit in Hx by lia. rewrite Z.eqb_refl, (proj2 (Z.eqb_neq x0 x1)) in Hx by done.
    change 255 with (Z.ones 8) in Hx. by rewrite Z.ones_spec_low in Hx by lia.
  - cbn [paddingPool l]. unfold zlen. rewrite HP. pose proof (custom_padding_length x0 x1 [p0; p1] [v0; v1; v2; v3] xMask). lia.
Qed.
End bits.

(** ** Reading a pattern *)

Definition symbols (c : Z) (w : text) : nat := length (filter (fun d => d = c) w).

(** A pattern of two x, two p and four v. *)
Definition good_pattern (w : text) : Prop :=
  length w = 8%nat /\ symbols 120 w = 2%nat /\ symbols 112 w = 2%nat /\ symbols 118 w = 4%nat.

Fixpoint bits_from (i : Z) (n : nat) : list Z :=
  match n with O => [] | S n => 7 - i :: bits_from (i + 1) n end.

Lemma symbols_cons c d w : symbols c (d :: w) = ((if decide (d = c) then 1 else 0) + symbols c w)%nat.
Proof. unfold symbols. rewrite filter_cons. by case_decide. Qed.

Lemma pattern_bits_spec w i xs ps vs xs' ps' vs' :
  pattern_bits w i (xs, ps, vs) = Ret (xs', ps', vs') ->
  Permutation (xs' ++ ps' ++ vs') (xs ++ ps ++ vs ++ bits_from i (length w)) /\
  length xs' = (length xs + symbols 120 w)%nat /\ length ps' = (length ps + symbols 112 w)%nat /\
  length vs' = (length vs + symbols 118 w)%nat.
Proof.
  revert i xs ps vs. induction w as [|c w IH]; intros i xs ps vs; cbn [pattern_bits].
  - intros [= <- <- <-]. cbn. rewrite app_nil_r. unfold symbols, filter. cbn. repeat split; [done|lia..].
  - rewrite !symbols_cons. cbn [length bits_from].
    destruct (c =? 120) eqn:Ex; [apply Z.eqb_eq in Ex as ->|destruct (c =? 112) eqn:Ep; [apply Z.eqb_eq in Ep as ->|
      destruct (c =? 118) eqn:Ev; [apply Z.eqb_eq in Ev as ->|done]]];
    intros (HP & H1 & H2 & H3)%IH; rewrite !length_app in *; cbn [length] in *;
    (split; [rewrite HP|repeat case_decide; lia]); rewrite <-?app_assoc; cbn; solve_Permutation.
Qed.

Lemma symbols_length w :
  (symbols 120 w + symbols 112 w + symbols 118 w <= length w)%nat /\
  (symbols 120 w + symbols 112 w + symbols 118 w = length w -> forall i b, exists r, pattern_bits w i b = Ret r)%nat.
Proof.
  induction w as [|c w [IH1 IH2]]; cbn [length pattern_bits].
  - split; [unfold symbols; cbn; lia|]. intros _ i b. by exists b.
  - rewrite !symbols_cons. split; [repeat case_decide; lia|]. intros E i [[xs ps] vs].
    destruct (c =? 120) eqn:Ex; [|destruct (c =? 112) eqn:Ep; [|destruct (c =? 118) eqn:Ev]];
    [apply IH2; repeat case_decide; lia..|]. repeat case_decide; lia.
Qed.

Lemma custom_layout_spec w :
  match custom_layout w with
  | Ret l => good_pattern w /\ layout_ok l
  | Err _ => ~ good_pattern w
  | Panic => False
  end.
Proof.
  unfold custom_layout, good_pattern, zlen. destruct (Z.of_nat (length w) =? 8) eqn:El; cbn [negb]; [|lia].
  destruct (pattern_bits w 0 ([], [], [])) as [[[xs ps] vs]|e|] eqn:E; cbn [mbind res_bind].
  - apply pattern_bits_spec in E as (HP & Hx & Hp & Hv). cbn in Hx, Hp, Hv.
    destruct (_ || _ || _) eqn:Ec; [lia|]. assert (length w = 8%nat) as Hl by lia. rewrite Hl in HP.
    assert (length xs = 2 /\ length ps = 2 /\ length vs = 4)%nat as (Hx2 & Hp2 & Hv4) by lia. clear Ec.
    destruct xs as [|x0 [|x1 [|? ?]]]; try discriminate Hx2. destruct ps as [|p0 [|p1 [|? ?]]]; try discriminate Hp2.
    destruct vs as [|v0 [|v1 [|v2 [|v3 [|? ?]]]]]; try discriminate Hv4. cbn [length] in Hx, Hp, Hv.
    assert (Permutation [x0; x1; p0; p1; v0; v1; v2; v3] [7; 6; 5; 4; 3; 2; 1; 0]) as HP8 by exact HP.
    set (padding := custom_padding _ _ _ _). destruct (merge_sort Z.le padding) as [|q0 rest] eqn:Em.
    + pose proof (ones_padding _ _ _ _ _ _ _ _ HP8 0 ltac:(lia)) as Hin. pose proof (merge_sort_Permutation Z.le padding) as Hm. rewrite Em in Hm. apply Permutation_nil_l in Hm.
      unfold padding in Hm. cbn [foldl] in Hm. rewrite <-Hm in Hin. by apply elem_of_nil in Hin.
    + split; [lia|]. apply (bits_layout_ok _ _ _ _ _ _ _ _ HP8). rewrite <-Em. apply merge_sort_Permutation.
  - intros (_ & H1 & H2 & H3). destruct (symbols_length w) as [_ Hs]. destruct (Hs ltac:(lia) 0 ([], [], [])) as [r Hr]. congruence.
  - assert (forall w i b, pattern_bits w i b ≠ Panic) as Hn; [|by apply Hn in E].
    clear. induction w as [|c w IH]; intros i [[xs ps] vs]; cbn; [done|]. repeat case_match; auto.
Qed.

(** Whatever the modes and patterns of the configuration say, a layout that
    they resolve to is well formed; the patterns that are accepted are those of
    two x, two p and four v. *)
Lemma resolved_layout_ok `{TextLib} mode customPattern l :
  resolveLayout mode customPattern = Ret l -> layout_ok l.
Proof.
  unfold resolveLayout, newCustomLayout. case_bool_decide; [intros [= <-]; apply ascii_ok|].
  case_bool_decide; [|done]. case_bool_decide; [intros [= <-]; apply entropy_ok|]. intros E.
  pose proof (custom_layout_spec (ToLower (filter (fun c => c ≠ 32) (TrimSpace customPattern)))) as Hs. rewrite E in Hs. apply Hs.
Qed.
