(* ===== verification/SudokuTable.v ===== *)
(** * Tables of the Sudoku obfuscation
    (src/transport/sudoku/obfs/sudoku: table.go, table_set.go, ascii_mode.go)

    A table gives every byte a solved grid, picked by the key, and the ways to
    write the byte as four hints that only its grid has.  The map from hints
    back to bytes has for key the hints in their order by value, so that the
    order in which they arrive does not matter. *)

From stdpp Require Import sorting.
From S2P Require Import Prelude GoText SudokuGrid SudokuLayout SudokuCustom.

(** ** The modes of the two directions *)

Record ASCIIMode := { Uplink : text; Downlink : text }.

Abbreviation asciiModeTokenASCII := (bytes_of "ascii").
Abbreviation asciiModeTokenEntropy := (bytes_of "entropy").

(** [strings.SplitN] with a limit of 2: what is before and after the first
    separator. *)
Fixpoint split2 (sep s : text) : option (text * text) :=
  if HasPrefix s sep then Some ([], drop (length sep) s)
  else match s with
       | [] => None
       | c :: s => match split2 sep s with Some (a, b) => Some (c :: a, b) | None => None end
       end.

Section mode.
  Context `{TextLib}.

Definition normalizeASCIIModeToken (token : text) : option text :=
  let t := ToLower (TrimSpace token) in
  if bool_decide (t ∈ [bytes_of "ascii"; bytes_of "prefer_ascii"]) then Some asciiModeTokenASCII
  else if bool_decide (t ∈ [bytes_of "entropy"; bytes_of "prefer_entropy"; []]) then Some asciiModeTokenEntropy
  else None.

Definition ParseASCIIMode (mode : text) : res ASCIIMode :=
  let raw := ToLower (TrimSpace mode) in
  if bool_decide (raw ∈ [[]; bytes_of "entropy"; bytes_of "prefer_entropy"])
  then Ret {| Uplink := asciiModeTokenEntropy; Downlink := asciiModeTokenEntropy |}
  else if bool_decide (raw ∈ [bytes_of "ascii"; bytes_of "prefer_ascii"])
  then Ret {| Uplink := asciiModeTokenASCII; Downlink := asciiModeTokenASCII |}
  else if negb (HasPrefix raw (bytes_of "up_")) then Err "invalid ascii mode"
  else match split2 (bytes_of "_down_") (drop 3 raw) with
       | None => Err "invalid ascii mode"
       | Some (a, b) =>
         match normalizeASCIIModeToken a with
         | None => Err "invalid ascii mode"
         | Some up =>
           match normalizeASCIIModeToken b with
           | None => Err "invalid ascii mode"
           | Some down => Ret {| Uplink := up; Downlink := down |}
           end
         end
       end.

Definition Canonical (m : ASCIIMode) : text :=
  if bool_decide (Uplink m = asciiModeTokenASCII) && bool_decide (Downlink m = asciiModeTokenASCII) then bytes_of "prefer_ascii"
  else if bool_decide (Uplink m = asciiModeTokenEntropy) && bool_decide (Downlink m = asciiModeTokenEntropy) then bytes_of "prefer_entropy"
  else bytes_of "up_" ++ Uplink m ++ bytes_of "_down_" ++ Downlink m.

Definition NormalizeASCIIMode (mode : text) : res text := parsed ← ParseASCIIMode mode; Ret (Canonical parsed).

Definition singleDirectionPreference (token : text) : text :=
  if bool_decide (token = asciiModeTokenASCII) then bytes_of "prefer_ascii" else bytes_of "prefer_entropy".

(** A parsed mode has one of the two tokens for each direction. *)
Lemma ParseASCIIMode_tokens mode m :
  ParseASCIIMode mode = Ret m ->
  Uplink m ∈ [asciiModeTokenASCII; asciiModeTokenEntropy] /\ Downlink m ∈ [asciiModeTokenASCII; asciiModeTokenEntropy].
Proof.
  assert (forall token t, normalizeASCIIModeToken token = Some t -> t ∈ [asciiModeTokenASCII; asciiModeTokenEntropy]) as Ht.
  { intros token t. unfold normalizeASCIIModeToken. case_bool_decide; [intros [= <-]; by left|].
    case_bool_decide; [intros [= <-]; right; by left|done]. }
  unfold ParseASCIIMode. case_bool_decide; [intros [= <-]; split; right; by left|].
  case_bool_decide; [intros [= <-]; split; by left|]. destruct (HasPrefix _ _); [|done]. cbn [negb].
  destruct (split2 _ _) as [[a b]|]; [|done]. destruct (normalizeASCIIModeToken a) as [up|] eqn:Ea; [|done].
  destruct (normalizeASCIIModeToken b) as [down|] eqn:Eb; [|done]. intros [= <-]. cbn. eauto.
Qed.

(** The canonical text of a mode reads back as the mode. *)
Lemma mode_roundtrip `{!TextLaws} mode m : ParseASCIIMode mode = Ret m -> ParseASCIIMode (Canonical m) = Ret m.
Proof.
  intros [Hu Hd]%ParseASCIIMode_tokens. destruct m as [up down]. cbn in Hu, Hd.
  rewrite !elem_of_cons, elem_of_nil in Hu, Hd.
  destruct Hu as [->|[->|[]]], Hd as [->|[->|[]]]; unfold ParseASCIIMode;
  rewrite trim_plain, lower_plain by (vm_compute; reflexivity); try (vm_compute; reflexivity);
  unfold normalizeASCIIModeToken;
  match goal with |- context [split2 ?a ?b] => let r := eval vm_compute in (split2 a b) in change (split2 a b) with r end;
  cbn [fst snd]; rewrite !trim_plain, !lower_plain by (vm_compute; reflexivity); vm_compute; reflexivity.
Qed.

End mode.

(** ** Keys of hints *)

Definition swap_if (a b : Z) : Z * Z := if b <? a then (b, a) else (a, b).

Definition packHintBytes (h0 h1 h2 h3 : Z) : Z :=
  let '(h0, h1) := swap_if h0 h1 in
  let '(h2, h3) := swap_if h2 h3 in
  let '(h0, h2) := swap_if h0 h2 in
  let '(h1, h3) := swap_if h1 h3 in
  let '(h1, h2) := swap_if h1 h2 in
  Z.lor (Z.lor (Z.lor (Z.shiftl h0 24) (Z.shiftl h1 16)) (Z.shiftl h2 8)) h3.

Definition packHintsToKey (hints : list Z) : Z := packHintBytes (nth 0 hints 0) (nth 1 hints 0) (nth 2 hints 0) (nth 3 hints 0).

(** The key is the sorted hints as one number. *)
Lemma packHintBytes_sorted a b c d :
  exists s0 s1 s2 s3,
    packHintBytes a b c d = Z.lor (Z.lor (Z.lor (Z.shiftl s0 24) (Z.shiftl s1 16)) (Z.shiftl s2 8)) s3 /\
    Permutation [s0; s1; s2; s3] [a; b; c; d] /\ s0 <= s1 <= s2 /\ s2 <= s3.
Proof.
  unfold packHintBytes, swap_if.
  repeat match goal with |- context [if ?x <? ?y then _ else _] => let E := fresh in destruct (x <? y) eqn:E end;
  eexists _, _, _, _; (split; [reflexivity|]); (split; [solve_Permutation|lia]).
Qed.

Lemma pack_value s0 s1 s2 s3 :
  is_u8 s0 -> is_u8 s1 -> is_u8 s2 -> is_u8 s3 ->
  Z.lor (Z.lor (Z.lor (Z.shiftl s0 24) (Z.shiftl s1 16)) (Z.shiftl s2 8)) s3 = s0 * 2 ^ 24 + s1 * 2 ^ 16 + s2 * 2 ^ 8 + s3.
Proof.
  unfold is_u8. intros H0 H1 H2 H3.
  assert (forall a b c d, Z.lor (Z.lor (Z.lor a b) c) d = Z.lor (Z.lor (Z.lor d c) b) a) as ->.
  { intros a b c d. rewrite (Z.lor_comm _ d), (Z.lor_comm _ c), (Z.lor_comm a b), !Z.lor_assoc. done. }
  rewrite (lor_shiftl s3 s2 8), (lor_shiftl _ s1 16), (lor_shiftl _ s0 24) by lia. lia.
Qed.

Lemma bytes4 a b c d : is_bytes [a; b; c; d] <-> is_u8 a /\ is_u8 b /\ is_u8 c /\ is_u8 d.
Proof. unfold is_bytes. rewrite !Forall_cons, Forall_nil. tauto. Qed.

Lemma sorted4 a b c d : a <= b <= c -> c <= d -> StronglySorted Z.le [a; b; c; d].
Proof. intros H1 H2. repeat constructor; lia. Qed.

(** Two sequences of four hints have the same key when one is a permutation of
    the other, and only then. *)
Lemma pack_perm a b c d a' b' c' d' :
  Permutation [a; b; c; d] [a'; b'; c'; d'] -> packHintBytes a b c d = packHintBytes a' b' c' d'.
Proof.
  intros HP. destruct (packHintBytes_sorted a b c d) as (s0 & s1 & s2 & s3 & -> & HS & H1 & H2).
  destruct (packHintBytes_sorted a' b' c' d') as (t0 & t1 & t2 & t3 & -> & HT & H3 & H4).
  assert ([s0; s1; s2; s3] = [t0; t1; t2; t3]) as [= -> -> -> ->]; [|done].
  apply (StronglySorted_unique Z.le); [by apply sorted4..|]. by rewrite HS, HP, HT.
Qed.

Lemma pack_inj a b c d a' b' c' d' :
  is_bytes [a; b; c; d] -> is_bytes [a'; b'; c'; d'] ->
  packHintBytes a b c d = packHintBytes a' b' c' d' -> Permutation [a; b; c; d] [a'; b'; c'; d'].
Proof.
  intros Hb Hb'. destruct (packHintBytes_sorted a b c d) as (s0 & s1 & s2 & s3 & -> & HS & H1 & H2).
  destruct (packHintBytes_sorted a' b' c' d') as (t0 & t1 & t2 & t3 & -> & HT & H3 & H4).
  unfold is_bytes in Hb, Hb'. rewrite <-HS in Hb. rewrite <-HT in Hb'. apply bytes4 in Hb as (? & ? & ? & ?). apply bytes4 in Hb' as (? & ? & ? & ?).
  rewrite !pack_value by done. unfold is_u8 in *. intros E.
  assert (s3 = t3) as -> by lia. assert (s2 = t2) as -> by lia. assert (s1 = t1) as -> by lia. assert (s0 = t0) as -> by lia.
  by rewrite <-HS, HT.
Qed.

(** ** Building a table *)

(** [sha256.Sum256] *)
Class Sha256 := sha256 : list Z -> list Z.

(** [rand.Rand.Shuffle]: the swaps it makes of [n] elements, for a seed. *)
Class MathRand := shuffle_swaps : Z -> nat -> list (nat * nat).

(** It swaps elements by indexes below [n]. *)
Class MathRandLaws `{MathRand} : Prop :=
  shuffle_in_range seed n : Forall (fun '(i, j) => (i < n)%nat /\ (j < n)%nat) (shuffle_swaps seed n).

Record Table := mk_table {
  EncodeTable : list (list (list Z));
  DecodeMap : gmap Z Z;
  PaddingPool : list Z;
  IsASCII : bool;
  layout : byteLayout;
  table_hint : Z
}.

Definition int64_of (x : Z) : Z := if x <? 2 ^ 63 then x else x - 2 ^ 64.

(** The closure given to [Shuffle], for every swap. *)
Fixpoint shuffle_grids (grids : list Grid) (swaps : list (nat * nat)) : res (list Grid) :=
  match swaps with
  | [] => Ret grids
  | (i, j) :: swaps =>
    match grids !! i, grids !! j with
    | Some a, Some b => shuffle_grids (<[j := a]> (<[i := b]> grids)) swaps
    | _, _ => Panic
    end
  end.

(** The bytes of the hints of a grid at four positions. *)
Definition hint_bytes (l : byteLayout) (parts : list hint) : list Z :=
  map (fun p => hintByte l (u8 (p.1 - 1)) (Z.of_nat p.2)) parts.

(** One choice of positions for a byte. *)
Definition table_step (byteVal : nat) (targetGrid : Grid) (t : Table) (positions : list nat) : Table :=
  let parts := rawParts targetGrid positions in
  if unique parts then
    let currentHints := hint_bytes (layout t) parts in
    {| EncodeTable := alter (fun puzzles => puzzles ++ [currentHints]) byteVal (EncodeTable t);
       DecodeMap := <[packHintsToKey currentHints := Z.of_nat byteVal]> (DecodeMap t);
       PaddingPool := PaddingPool t; IsASCII := IsASCII t; layout := layout t; table_hint := table_hint t |}
  else t.

Definition table_byte (t : Table) (bg : nat * Grid) : Table := foldl (table_step bg.1 bg.2) t combinations.

Section table.
  Context `{TextLib} `{Sha256} `{MathRand}.

Definition newSingleDirectionTable (key mode customPattern : text) : res Table :=
  l ← resolveLayout mode customPattern;
  let t := {| EncodeTable := replicate 256 []; DecodeMap := ∅; PaddingPool := paddingPool l;
              IsASCII := bool_decide (name l = bytes_of "ascii"); layout := l; table_hint := 0 |} in
  let allGrids := GenerateAllGrids in
  let seed := int64_of (get_be (take 8 (sha256 key))) in
  let copied := take 288 allGrids ++ replicate (288 - length allGrids) (replicate 16 0) in
  shuffledGrids ← shuffle_grids copied (shuffle_swaps seed (length copied));
  Ret (foldl table_byte t (zip (seq 0 256) shuffledGrids)).

Definition customPatternForToken (token customPattern : text) : text :=
  if bool_decide (token = asciiModeTokenEntropy) then customPattern else [].

(** [strings.Join] with a byte of zero. *)
Fixpoint join0 (parts : list text) : text :=
  match parts with
  | [] => []
  | [p] => p
  | p :: parts => p ++ 0 :: join0 parts
  end.

Definition tableHintFingerprint (key mode uplinkPattern downlinkPattern : text) : Z :=
  get_be (take 4 (sha256 (join0 [bytes_of "sudoku-table-hint"; key; mode;
    ToLower (TrimSpace uplinkPattern); ToLower (TrimSpace downlinkPattern)]))).

Definition with_hint (t : Table) (h : Z) : Table :=
  {| EncodeTable := EncodeTable t; DecodeMap := DecodeMap t; PaddingPool := PaddingPool t;
     IsASCII := IsASCII t; layout := layout t; table_hint := h |}.

(** A table and the one that its [opposite] pointer leads to, which points back. *)
Record TableRef := { this : Table; opposite : Table }.

Definition OppositeDirection (r : TableRef) : TableRef := {| this := opposite r; opposite := this r |}.

Definition NewTableWithCustom (key mode customPattern : text) : res TableRef :=
  asciiMode ← ParseASCIIMode mode;
  let uplinkPattern := customPatternForToken (Uplink asciiMode) customPattern in
  let downlinkPattern := customPatternForToken (Downlink asciiMode) customPattern in
  let h := tableHintFingerprint key (Canonical asciiMode) uplinkPattern downlinkPattern in
  uplink ← newSingleDirectionTable key (singleDirectionPreference (Uplink asciiMode)) uplinkPattern;
  let uplink := with_hint uplink h in
  if bool_decide (Uplink asciiMode = Downlink asciiMode) then Ret {| this := uplink; opposite := uplink |}
  else
    downlink ← newSingleDirectionTable key (singleDirectionPreference (Downlink asciiMode)) downlinkPattern;
    Ret {| this := uplink; opposite := with_hint downlink h |}.

Definition NewTable (key mode : text) : res TableRef :=
  match NewTableWithCustom key mode [] with Err _ => Panic | r => r end.

(** The tables of the patterns, one for each. *)
Fixpoint tables_of (key mode : text) (patterns : list text) : res (list TableRef) :=
  match patterns with
  | [] => Ret []
  | pattern :: patterns =>
    match NewTableWithCustom key mode pattern with
    | Ret t => ts ← tables_of key mode patterns; Ret (t :: ts)
    | Err _ => Err "build table"
    | Panic => Panic
    end
  end.

Definition NewTableSet (key mode : text) (patterns : list text) : res (list TableRef) :=
  if bool_decide (patterns = []) then t ← NewTableWithCustom key mode []; Ret [t] else tables_of key mode patterns.
End table.

(** ** What a table promises to the connections *)

Record table_ok (t : Table) : Prop := {
  tok_layout : layout_ok (layout t);
  tok_pool : PaddingPool t = paddingPool (layout t);
  (** every byte can be written as a puzzle *)
  tok_encode b : is_u8 b -> nth (Z.to_nat b) (EncodeTable t) [] ≠ [];
  tok_size b : is_u8 b -> (length (nth (Z.to_nat b) (EncodeTable t) []) <= 1820)%nat;
  (** whose hints, in any order, are decoded to the byte *)
  tok_puzzle b p : is_u8 b -> p ∈ nth (Z.to_nat b) (EncodeTable t) [] ->
    length p = 4%nat /\ Forall (fun h => is_u8 h /\ isHint (layout t) h = true) p /\
    forall q, Permutation p q -> DecodeMap t !! packHintsToKey q = Some b
}.

(** ** The tables keep the promise *)

#[local] Opaque combinations unique GenerateAllGrids.

(** The puzzles of a grid. *)
Definition puzzles_of (l : byteLayout) (g : Grid) (cs : list (list nat)) : list (list Z) :=
  map (fun ps => hint_bytes l (rawParts g ps)) (filter (fun ps => unique (rawParts g ps) = true) cs).

Definition insert_all (m : gmap Z Z) (kvs : list (Z * Z)) : gmap Z Z := foldl (fun m kv => <[kv.1 := kv.2]> m) m kvs.

Lemma insert_all_app m a b : insert_all m (a ++ b) = insert_all (insert_all m a) b.
Proof. apply foldl_app. Qed.

Lemma insert_all_keep m kvs k v :
  m !! k = Some v -> (forall v', (k, v') ∈ kvs -> v' = v) -> insert_all m kvs !! k = Some v.
Proof.
  revert m. induction kvs as [|[k' v'] kvs IH]; intros m Hm Hk; cbn; [done|]. apply IH.
  - destruct (decide (k' = k)) as [->|Hne]; [rewrite lookup_insert_eq, (Hk v'); [done|by left]|by rewrite lookup_insert_ne].
  - intros v'' Hin. apply Hk. by right.
Qed.

Lemma insert_all_in m kvs k v :
  (k, v) ∈ kvs -> (forall v', (k, v') ∈ kvs -> v' = v) -> insert_all m kvs !! k = Some v.
Proof.
  intros (a & b & ->)%list_elem_of_split Hk. rewrite insert_all_app. cbn. apply insert_all_keep; [apply lookup_insert_eq|].
  intros v' Hin. apply Hk. rewrite elem_of_app, elem_of_cons. auto.
Qed.

Lemma alter_compose (f g : list (list Z) -> list (list Z)) i (l : list (list (list Z))) :
  alter g i (alter f i l) = alter (fun x => g (f x)) i l.
Proof. revert i. induction l as [|x l IH]; intros [|i]; cbn; [done..|]. f_equal. apply IH. Qed.

Definition keyed (b : nat) (puzzles : list (list Z)) : list (Z * Z) := map (fun p => (packHintsToKey p, Z.of_nat b)) puzzles.

Lemma table_steps b g t cs :
  let t' := foldl (table_step b g) t cs in
  layout t' = layout t /\ PaddingPool t' = PaddingPool t /\
  EncodeTable t' = alter (fun puzzles => puzzles ++ puzzles_of (layout t) g cs) b (EncodeTable t) /\
  DecodeMap t' = insert_all (DecodeMap t) (keyed b (puzzles_of (layout t) g cs)).
Proof.
  revert t. induction cs as [|c cs IH]; intros t; cbn [foldl].
  - repeat split. cbn. symmetry. transitivity (alter id b (EncodeTable t)); [|apply list_alter_id; done].
    apply list_alter_ext; [|done]. intros x _. apply app_nil_r.
  - destruct (IH (table_step b g t c)) as (-> & -> & -> & ->). unfold table_step, puzzles_of. rewrite filter_cons.
    destruct (unique (rawParts g c)) eqn:E; [rewrite decide_True by done|by rewrite decide_False].
    cbn [layout PaddingPool EncodeTable DecodeMap map keyed]. repeat split. rewrite alter_compose. apply list_alter_ext; [|done].
    intros x _. by rewrite <-app_assoc.
Qed.

(** The entries of the tables of the bytes from [s] on. *)
Definition entries (l : byteLayout) (bgs : list (nat * Grid)) : list (Z * Z) :=
  flat_map (fun bg => keyed bg.1 (puzzles_of l bg.2 combinations)) bgs.

Lemma table_bytes t bgs :
  NoDup bgs.*1 ->
  let t' := foldl table_byte t bgs in
  layout t' = layout t /\ PaddingPool t' = PaddingPool t /\
  (forall b, b ∉ bgs.*1 -> EncodeTable t' !! b = EncodeTable t !! b) /\
  (forall b g, (b, g) ∈ bgs -> EncodeTable t' !! b = (fun ps => ps ++ puzzles_of (layout t) g combinations) <$> EncodeTable t !! b) /\
  DecodeMap t' = insert_all (DecodeMap t) (entries (layout t) bgs).
Proof.
  revert t. induction bgs as [|[b g] bgs IH]; intros t Hn; cbn [foldl].
  - repeat split. intros b g Hin. by apply elem_of_nil in Hin.
  - apply NoDup_cons in Hn as [Hb Hn]. destruct (IH (table_byte t (b, g)) Hn) as (-> & -> & Hout & Hin & ->).
    unfold table_byte in *. cbn [fst snd] in *. destruct (table_steps b g t combinations) as (-> & -> & HE & ->). rewrite HE in Hout, Hin.
    repeat split.
    + intros b' Hb'. cbn in Hb'. apply not_elem_of_cons in Hb' as [Hne Hb']. rewrite Hout by done. by apply list_lookup_alter_ne.
    + intros b' g' Hin'. apply elem_of_cons in Hin' as [[= -> ->]|Hin'].
      * rewrite Hout by done. apply list_lookup_alter_eq.
      * rewrite (Hin b' g' Hin'). destruct (table_steps b g t combinations) as (-> & _). f_equal. apply list_lookup_alter_ne. intros ->. apply Hb.
        apply (list_elem_of_fmap_2 fst _ _ Hin').
    + unfold entries. cbn [flat_map fst snd]. by rewrite insert_all_app.
Qed.

(** The hints of a grid from their bytes. *)
Definition part_of (l : byteLayout) (b : Z) : hint :=
  let g := (decodePackedGroup l b).1 in (g / 16 + 1, Z.to_nat (g mod 16)).

Lemma hint_byte_spec l v p :
  layout_ok l -> 1 <= v <= 4 -> (p < 16)%nat ->
  let b := hintByte l (u8 (v - 1)) (Z.of_nat p) in is_u8 b /\ isHint l b = true /\ part_of l b = (v, p).
Proof.
  intros Hl Hv Hp b. unfold b. rewrite u8_id by (unfold is_u8; lia). rewrite (ok_hint l Hl) by lia.
  destruct (ok_group l Hl (16 * (v - 1) + Z.of_nat p) ltac:(lia)) as (H1 & H2 & H3). split; [done|]. split; [done|].
  unfold part_of. rewrite H3. cbn [fst]. rewrite Z.mul_comm, Z.div_add_l, Z.div_small, (Z.add_comm (_ * 16)), Z.mod_add, Z.mod_small by lia.
  f_equal; lia.
Qed.

Definition parts_ok (parts : list hint) : Prop := Forall (fun p => 1 <= p.1 <= 4 /\ (p.2 < 16)%nat) parts.

Lemma hint_bytes_spec l parts :
  layout_ok l -> parts_ok parts ->
  Forall (fun h => is_u8 h /\ isHint l h = true) (hint_bytes l parts) /\ map (part_of l) (hint_bytes l parts) = parts.
Proof.
  intros Hl HP. induction HP as [|[v p] parts [Hv Hp] HP [IH1 IH2]]; [by split|]. cbn [fst snd] in Hv, Hp.
  change (hint_bytes l ((v, p) :: parts)) with (hintByte l (u8 (v - 1)) (Z.of_nat p) :: hint_bytes l parts).
  destruct (hint_byte_spec l v p Hl Hv Hp) as (H1 & H2 & H3). cbn [map]. rewrite H3, IH2. split; [by constructor|done].
Qed.

Lemma parts_ok_raw g ps : g ∈ GenerateAllGrids -> ps ∈ combinations -> parts_ok (rawParts g ps) /\ length (rawParts g ps) = 4%nat.
Proof.
  intros (Hl & Hv & _)%GenerateAllGrids_iff (H4 & Hp & _)%combinations_spec. unfold rawParts. rewrite length_map. split; [|done].
  unfold parts_ok. apply Forall_map. eapply Forall_impl; [apply Hp|]. intros p Hp16. cbn. split; [|done].
  rewrite Forall_forall in Hv. apply Hv, list_elem_of_In, nth_In. rewrite Hl. exact Hp16.
Qed.

Lemma puzzle_inv l g p :
  p ∈ puzzles_of l g combinations ->
  exists ps, ps ∈ combinations /\ unique (rawParts g ps) = true /\ p = hint_bytes l (rawParts g ps).
Proof.
  unfold puzzles_of. intros (ps & Hp & Hin)%list_elem_of_In%in_map_iff. apply list_elem_of_In, list_elem_of_filter in Hin as [Hu Hc].
  by exists ps.
Qed.

Lemma packHintsToKey_inj p q :
  length p = 4%nat -> length q = 4%nat -> is_bytes p -> is_bytes q -> packHintsToKey p = packHintsToKey q -> Permutation p q.
Proof.
  intros Hp Hq Hbp Hbq. destruct p as [|p0 [|p1 [|p2 [|p3 [|? ?]]]]]; try discriminate Hp.
  destruct q as [|q0 [|q1 [|q2 [|q3 [|? ?]]]]]; try discriminate Hq. by apply pack_inj.
Qed.

Lemma packHintsToKey_perm p q : length p = 4%nat -> Permutation p q -> packHintsToKey p = packHintsToKey q.
Proof.
  intros Hp HP. pose proof (Permutation_length HP) as Hq. rewrite Hp in Hq. symmetry in Hq.
  destruct p as [|p0 [|p1 [|p2 [|p3 [|? ?]]]]]; try discriminate Hp.
  destruct q as [|q0 [|q1 [|q2 [|q3 [|? ?]]]]]; try discriminate Hq. by apply pack_perm.
Qed.

Lemma length_hint_bytes l parts : length (hint_bytes l parts) = length parts.
Proof. apply length_map. Qed.

Lemma hint_bytes_are_bytes l parts : layout_ok l -> parts_ok parts -> is_bytes (hint_bytes l parts).
Proof. intros Hl HP. destruct (hint_bytes_spec l parts Hl HP) as [H _]. eapply Forall_impl; [apply H|]. by intros ? []. Qed.

(** Puzzles with the same key are puzzles of the same grid. *)
Lemma same_key_same_grid l g g' p p' :
  layout_ok l -> g ∈ GenerateAllGrids -> g' ∈ GenerateAllGrids ->
  p ∈ puzzles_of l g combinations -> p' ∈ puzzles_of l g' combinations -> packHintsToKey p = packHintsToKey p' -> g = g'.
Proof.
  intros Hl Hg Hg' (ps & Hc & Hu & ->)%puzzle_inv (ps' & Hc' & _ & ->)%puzzle_inv E.
  destruct (parts_ok_raw g ps Hg Hc) as [Hok H4]. destruct (parts_ok_raw g' ps' Hg' Hc') as [Hok' H4'].
  apply packHintsToKey_inj in E; [|by rewrite length_hint_bytes|by rewrite length_hint_bytes|by apply hint_bytes_are_bytes|by apply hint_bytes_are_bytes].
  apply (Permutation_map (part_of l)) in E.
  rewrite (proj2 (hint_bytes_spec l _ Hl Hok)), (proj2 (hint_bytes_spec l _ Hl Hok')) in E.
  apply (unique_grid _ _ _ Hu Hg Hg'); [apply matches_raw|]. rewrite (matches_perm _ _ _ E). apply matches_raw.
Qed.

Lemma swap_perm (grids : list Grid) i j a b :
  grids !! i = Some a -> grids !! j = Some b -> Permutation (<[j := a]> (<[i := b]> grids)) grids.
Proof.
  intros Ha Hb. apply Permutation_inj. split; [by rewrite !length_insert|].
  exists (fun k => if decide (k = i) then j else if decide (k = j) then i else k). split.
  - intros k k'. repeat case_decide; congruence.
  - intros k. pose proof (lookup_lt_Some _ _ _ Ha). pose proof (lookup_lt_Some _ _ _ Hb).
    destruct (decide (k = j)) as [->|Hj].
    + rewrite list_lookup_insert_eq by (rewrite length_insert; done). case_decide; congruence.
    + rewrite list_lookup_insert_ne by done. case_decide as Hi; [subst k; by rewrite list_lookup_insert_eq|].
      by rewrite list_lookup_insert_ne.
Qed.

Lemma shuffle_grids_perm grids swaps :
  Forall (fun '(i, j) => (i < length grids)%nat /\ (j < length grids)%nat) swaps ->
  exists out, shuffle_grids grids swaps = Ret out /\ Permutation out grids.
Proof.
  revert grids. induction swaps as [|[i j] swaps IH]; intros grids Hs; cbn [shuffle_grids]; [by exists grids|].
  apply Forall_cons in Hs as [[Hi Hj] Hs]. destruct (lookup_lt_is_Some_2 grids i Hi) as [a Ha]. destruct (lookup_lt_is_Some_2 grids j Hj) as [b Hb].
  rewrite Ha, Hb. destruct (IH (<[j := a]> (<[i := b]> grids))) as (out & -> & HP).
  { eapply Forall_impl; [apply Hs|]. intros [i' j']. by rewrite !length_insert. }
  exists out. split; [done|]. rewrite HP. by apply swap_perm.
Qed.

Lemma puzzles_length l g : (length (puzzles_of l g combinations) <= 1820)%nat.
Proof.
  unfold puzzles_of. rewrite length_map. etransitivity; [apply length_filter|]. rewrite combinations_count. done.
Qed.

Lemma puzzles_nonempty l g : g ∈ GenerateAllGrids -> puzzles_of l g combinations ≠ [].
Proof.
  intros (ps & Hc & Hu)%GenerateAllGrids_iff%unique_hints_exist E.
  assert (hint_bytes l (rawParts g ps) ∈ puzzles_of l g combinations) as Hin.
  { unfold puzzles_of. apply list_elem_of_In, in_map_iff. exists ps. split; [done|]. by apply list_elem_of_In, list_elem_of_filter. }
  rewrite E in Hin. by apply elem_of_nil in Hin.
Qed.

Lemma zip_seq_lookup {A} (l : list A) s n i x : (i, x) ∈ zip (seq s n) l -> l !! (i - s)%nat = Some x /\ (s <= i < s + n)%nat.
Proof.
  revert s l. induction n as [|n IH]; intros s [|y l]; cbn; try (intros H; by apply elem_of_nil in H).
  intros [[= -> ->]|Hin]%elem_of_cons; [rewrite Nat.sub_diag; split; [done|lia]|].
  apply IH in Hin as [Hl Hr]. split; [|lia]. replace (i - s)%nat with (S (i - S s)) by lia. done.
Qed.

Lemma zip_seq_in {A} (l : list A) s n i x : l !! i = Some x -> (i < n)%nat -> ((s + i)%nat, x) ∈ zip (seq s n) l.
Proof.
  revert s l i. induction n as [|n IH]; intros s l i Hl Hn; [lia|]. destruct l as [|y l]; [done|]. destruct i as [|i]; cbn in *.
  - injection Hl as ->. rewrite Nat.add_0_r. by left.
  - right. replace (s + S i)%nat with (S s + i)%nat by lia. apply IH; [done|lia].
Qed.

Lemma zip_seq_fst {A} (l : list A) s n : (n <= length l)%nat -> (zip (seq s n) l).*1 = seq s n.
Proof. intros H. apply fst_zip. rewrite length_seq. done. Qed.

Section correct.
  Context `{TextLib} `{Sha256} `{MathRand} `{!MathRandLaws}.

Lemma new_table_entries key mode customPattern t :
  newSingleDirectionTable key mode customPattern = Ret t ->
  exists grids, Permutation grids GenerateAllGrids /\ layout_ok (layout t) /\ PaddingPool t = paddingPool (layout t) /\
    (forall b g, (b, g) ∈ zip (seq 0 256) grids -> EncodeTable t !! b = Some (puzzles_of (layout t) g combinations)) /\
    DecodeMap t = insert_all ∅ (entries (layout t) (zip (seq 0 256) grids)).
Proof.
  unfold newSingleDirectionTable. destruct (resolveLayout mode customPattern) as [l|e|] eqn:El; cbn [mbind res_bind]; [|done..].
  apply resolved_layout_ok in El. rewrite grids_count, take_ge, app_nil_r, grids_count by (rewrite grids_count; done).
  set (seed := int64_of _). destruct (shuffle_grids_perm GenerateAllGrids (shuffle_swaps seed 288)) as (grids & -> & HP).
  { rewrite grids_count. apply shuffle_in_range. }
  cbn [mbind res_bind]. set (t0 := mk_table _ _ _ _ _ _). intros <-%Ret_inj. exists grids.
  assert (length grids = 288%nat) as Hlen by (rewrite HP; apply grids_count).
  destruct (table_bytes t0 (zip (seq 0 256) grids)) as (-> & -> & _ & HE & ->).
  { rewrite zip_seq_fst by lia. apply NoDup_seq. }
  split; [exact HP|]. split; [exact El|]. split; [done|]. split; [|done]. intros b g Hin. rewrite (HE b g Hin). apply zip_seq_lookup in Hin as [_ Hr].
  cbn [EncodeTable t0]. by rewrite lookup_replicate_2 by lia.
Qed.

Lemma new_table_ok key mode customPattern t :
  newSingleDirectionTable key mode customPattern = Ret t -> table_ok t.
Proof.
  intros (grids & HP & Hl & Hpool & HE & HD)%new_table_entries.
  assert (length grids = 288%nat) as Hlen by (rewrite HP; apply grids_count).
  assert (forall b, is_u8 b -> exists g, grids !! Z.to_nat b = Some g /\ g ∈ GenerateAllGrids /\
    nth (Z.to_nat b) (EncodeTable t) [] = puzzles_of (layout t) g combinations) as Hb.
  { intros b Hb. unfold is_u8 in Hb. destruct (lookup_lt_is_Some_2 grids (Z.to_nat b)) as [g Hg]; [lia|]. exists g. split; [done|].
    split; [rewrite <-HP; by apply list_elem_of_lookup_2 in Hg|].
    rewrite nth_lookup, (HE (Z.to_nat b) g); [done|]. apply (zip_seq_in grids 0 256 (Z.to_nat b)); [done|lia]. }
  split; [done|done| | |].
  - intros b (g & _ & Hg & ->)%Hb. by apply puzzles_nonempty.
  - intros b (g & _ & _ & ->)%Hb. apply puzzles_length.
  - intros b p Hu Hp. destruct (Hb b Hu) as (g & Hg & Hin & E). rewrite E in Hp. pose proof Hp as (ps & Hc & _ & Ep)%puzzle_inv.
    destruct (parts_ok_raw g ps Hin Hc) as [Hok H4]. pose proof (hint_bytes_spec _ _ Hl Hok) as [Hh _].
    assert (length p = 4%nat) as Hp4 by by rewrite Ep, length_hint_bytes. split; [done|]. split; [by rewrite Ep|].
    intros q Hq. rewrite <-(packHintsToKey_perm p q Hp4 Hq), HD. unfold is_u8 in Hu. apply insert_all_in.
    + unfold entries. apply list_elem_of_In, in_flat_map. exists (Z.to_nat b, g). split.
      * apply list_elem_of_In, (zip_seq_in grids 0 256 (Z.to_nat b)); [done|lia].
      * cbn [fst snd]. apply in_map_iff. exists p. split; [f_equal; lia|by apply list_elem_of_In].
    + intros v ([b' g'] & Hin' & Hv)%list_elem_of_In%in_flat_map. cbn [fst snd] in Hv.
      apply in_map_iff in Hv as (p' & [= Hk <-] & Hp'). apply list_elem_of_In in Hp', Hin'. apply zip_seq_lookup in Hin' as [Hg' _].
      rewrite Nat.sub_0_r in Hg'. assert (g' ∈ GenerateAllGrids) as Hin' by (rewrite <-HP; by apply list_elem_of_lookup_2 in Hg').
      assert (g' = g) as -> by by apply (same_key_same_grid (layout t) g' g p' p).
      assert (NoDup grids) as Hnd by (rewrite HP; apply grids_distinct).
      pose proof (NoDup_lookup _ _ _ _ Hnd Hg' Hg). lia.
Qed.
(** A table is built for every layout that is resolved. *)
Lemma new_table_total key mode customPattern :
  match resolveLayout mode customPattern with
  | Ret _ => exists t, newSingleDirectionTable key mode customPattern = Ret t
  | Err e => newSingleDirectionTable key mode customPattern = Err e
  | Panic => False
  end.
Proof.
  unfold newSingleDirectionTable. destruct (resolveLayout mode customPattern) as [l|e|] eqn:El; cbn [mbind res_bind]; [|done|].
  - rewrite grids_count, take_ge, app_nil_r, grids_count by (rewrite grids_count; done). set (seed := int64_of _).
    destruct (shuffle_grids_perm GenerateAllGrids (shuffle_swaps seed 288)) as (grids & -> & _); [rewrite grids_count; apply shuffle_in_range|].
    by eexists.
  - unfold resolveLayout, newCustomLayout in El. repeat case_bool_decide; try done.
    pose proof (custom_layout_spec (ToLower (filter (fun c => c ≠ 32) (TrimSpace customPattern)))) as Hs. by rewrite El in Hs.
Qed.

(** Whether a pattern of the configuration can be used. *)
Definition usable_pattern (customPattern : text) : Prop :=
  TrimSpace customPattern = [] \/ good_pattern (ToLower (filter (fun c => c ≠ 32) (TrimSpace customPattern))).

Lemma direction_layout `{!TextLaws} token customPattern :
  usable_pattern customPattern ->
  exists l, resolveLayout (singleDirectionPreference token) (customPatternForToken token customPattern) = Ret l.
Proof.
  intros Hu. unfold resolveLayout, singleDirectionPreference, customPatternForToken.
  destruct (bool_decide (token = asciiModeTokenASCII)); rewrite lower_plain by (vm_compute; reflexivity).
  - rewrite bool_decide_true; [by eexists|]. right. by left.
  - rewrite bool_decide_false by (rewrite !elem_of_cons, elem_of_nil; intros [E|[E|[]]]; discriminate E).
    rewrite bool_decide_true by (right; by left). destruct (bool_decide (token = asciiModeTokenEntropy)).
    + destruct Hu as [->|Hg]; [rewrite bool_decide_true; [by eexists|done]|]. case_bool_decide; [by eexists|].
      unfold newCustomLayout. pose proof (custom_layout_spec (ToLower (filter (fun c => c ≠ 32) (TrimSpace customPattern)))) as Hs.
      destruct (custom_layout _) as [l|e|]; [by eexists|done|done].
    + rewrite trim_plain by done. rewrite bool_decide_true by done. by eexists.
Qed.

(** C25: a mode that parses and a pattern that can be used give tables for both
    directions, whatever the key: in each, every byte has a puzzle of four
    hints, and its hints decode to the byte in whatever order they come. *)
Theorem NewTableWithCustom_correct `{!TextLaws} key mode customPattern m :
  ParseASCIIMode mode = Ret m -> usable_pattern customPattern ->
  exists r, NewTableWithCustom key mode customPattern = Ret r /\ table_ok (this r) /\ table_ok (opposite r) /\
    table_hint (this r) = table_hint (opposite r) /\ (Uplink m = Downlink m -> this r = opposite r).
Proof.
  intros Hm Hu. unfold NewTableWithCustom. rewrite Hm. cbn [mbind res_bind].
  set (up := customPatternForToken (Uplink m) customPattern). set (down := customPatternForToken (Downlink m) customPattern).
  set (h := tableHintFingerprint _ _ _ _).
  assert (forall token, exists t, newSingleDirectionTable key (singleDirectionPreference token) (customPatternForToken token customPattern) = Ret t) as Ht.
  { intros token. destruct (direction_layout token customPattern Hu) as [l Hl].
    pose proof (new_table_total key (singleDirectionPreference token) (customPatternForToken token customPattern)) as Hn. by rewrite Hl in Hn. }
  destruct (Ht (Uplink m)) as [t Et]. destruct (Ht (Downlink m)) as [t' Et']. fold up in Et. fold down in Et'. rewrite Et. cbn [mbind res_bind].
  apply new_table_ok in Et as Hok. apply new_table_ok in Et' as Hok'.
  assert (forall t, table_ok t -> table_ok (with_hint t h)) as Hw by (intros ? []; by constructor).
  case_bool_decide; [|rewrite Et'; cbn [mbind res_bind]]; eexists; split_and!; try reflexivity; cbn [this opposite]; auto; done.
Qed.
End correct.
