(* ===== verification/SudokuRand.v ===== *)
(** * Random choices and buffers of the Sudoku connections
    (src/transport/sudoku/obfs/sudoku: rand.go, padding_prob.go, pending.go)

    The generator of the padding and of the puzzles, the probability of
    padding in units of 2^-32, and the bytes that were decoded beyond the
    buffer of a reader. *)

From S2P Require Import Prelude.

(** ** The generator *)

Record sudokuRand := { state : Z; cached : Z; haveCached : bool }.

Definition newSudokuRand (seed : Z) : sudokuRand :=
  let s := u64 seed in
  {| state := if s =? 0 then 0x9e3779b97f4a7c15 else s; cached := 0; haveCached := false |}.

Definition Uint64 (r : sudokuRand) : Z * sudokuRand :=
  let x := state r in
  let x := Z.lxor x (Z.shiftr x 12) in
  let x := Z.lxor x (u64 (Z.shiftl x 25)) in
  let x := Z.lxor x (Z.shiftr x 27) in
  (u64 (x * 0x2545f4914f6cdd1d), {| state := x; cached := cached r; haveCached := false |}).

Definition Uint32 (r : sudokuRand) : Z * sudokuRand :=
  if haveCached r then (cached r, {| state := state r; cached := cached r; haveCached := false |})
  else
    let '(v, r) := Uint64 r in
    (u32 (Z.shiftr v 32), {| state := state r; cached := u32 v; haveCached := true |}).

Definition fastIntnFromUint32 (u n : Z) : Z := Z.shiftr (u64 (u * n)) 32.

Definition Intn (r : sudokuRand) (n : Z) : Z * sudokuRand :=
  if n <=? 1 then (0, r)
  else let '(u, r) := Uint32 r in (fastIntnFromUint32 u n, r).

(** What was cached is 32 bits wide. *)
Definition rand_ok (r : sudokuRand) : Prop := is_u32 (cached r).

Lemma newSudokuRand_ok seed : rand_ok (newSudokuRand seed).
Proof. unfold rand_ok, newSudokuRand, is_u32. cbn. lia. Qed.

Lemma Uint32_ok r : rand_ok r -> is_u32 (Uint32 r).1 /\ rand_ok (Uint32 r).2.
Proof.
  intros Hr. unfold Uint32. destruct (haveCached r); [by split|]. cbn [Uint64 fst snd].
  split; [apply u32_range|]. unfold rand_ok. cbn. apply u32_range.
Qed.

Lemma fastIntn_range u n : is_u32 u -> 0 < n <= 2 ^ 32 -> 0 <= fastIntnFromUint32 u n < n.
Proof.
  unfold is_u32, fastIntnFromUint32, u64. intros Hu Hn. rewrite Z.mod_small by nia. rewrite Z.shiftr_div_pow2 by lia.
  split; [apply Z.div_pos; nia|]. apply Z.div_lt_upper_bound; nia.
Qed.

(** A choice among [n] is below [n]. *)
Lemma Intn_ok r n : rand_ok r -> 0 < n <= 2 ^ 32 -> 0 <= (Intn r n).1 < n /\ rand_ok (Intn r n).2.
Proof.
  intros Hr Hn. unfold Intn. destruct (n <=? 1) eqn:E; [split; [cbn; lia|done]|].
  destruct (Uint32_ok r Hr) as [Hu Hr']. destruct (Uint32 r) as [u r']. cbn in *. split; [|done]. by apply fastIntn_range.
Qed.

(** A choice from a list that is not empty. *)
Definition choose {A} (l : list A) (r : sudokuRand) : res (A * sudokuRand) :=
  let '(i, r) := Intn r (zlen l) in x ← go_index l i; Ret (x, r).

Lemma choose_ok {A} (l : list A) r :
  rand_ok r -> l ≠ [] -> zlen l <= 2 ^ 32 -> exists x r', choose l r = Ret (x, r') /\ x ∈ l /\ rand_ok r'.
Proof.
  intros Hr Hl Hs. assert (0 < zlen l) as Hz by (destruct l; [done|unfold zlen; cbn; lia]).
  unfold choose. destruct (Intn_ok r (zlen l) Hr ltac:(lia)) as [Hi Hr']. destruct (Intn r (zlen l)) as [i r']. cbn in *.
  unfold go_index. rewrite (proj2 (Z.leb_le 0 i)) by lia. destruct (lookup_lt_is_Some_2 l (Z.to_nat i)) as [x Hx]; [unfold zlen in *; lia|].
  rewrite Hx. exists x, r'. split; [done|]. split; [by apply list_elem_of_lookup_2 in Hx|done].
Qed.

(** ** Probabilities *)

Abbreviation probOne := (2 ^ 32).

Definition pickPaddingThreshold (r : sudokuRand) (pMin pMax : Z) : Z * sudokuRand :=
  let pMin := if pMin <? 0 then 0 else pMin in
  let pMax := if pMax <? pMin then pMin else pMax in
  let pMax := if 100 <? pMax then 100 else pMax in
  let pMin := if 100 <? pMin then 100 else pMin in
  let min := u64 (pMin * probOne) / 100 in
  let max := u64 (pMax * probOne) / 100 in
  if max <=? min then (min, r)
  else let '(u, r) := Uint32 r in (u64 (min + Z.shiftr (u64 (u * (max - min))) 32), r).

Definition clamp_percent (p : Z) : Z := Z.max 0 (Z.min 100 p).

(** The threshold lies between the two percentages, each taken into 0 to 100,
    and is the lower one when they are not in order. *)
Lemma pickPaddingThreshold_range r pMin pMax :
  rand_ok r ->
  let lo := clamp_percent pMin * probOne / 100 in
  let hi := clamp_percent (Z.max pMin pMax) * probOne / 100 in
  lo <= (pickPaddingThreshold r pMin pMax).1 <= hi /\ hi <= probOne /\ rand_ok (pickPaddingThreshold r pMin pMax).2.
Proof.
  intros Hr lo hi. unfold pickPaddingThreshold. cbv zeta.
  set (a := if pMin <? 0 then 0 else pMin). set (b := if pMax <? a then a else pMax).
  assert ((if 100 <? a then 100 else a) = clamp_percent pMin) as -> by (unfold a, clamp_percent; repeat case_match; lia).
  assert ((if 100 <? b then 100 else b) = clamp_percent (Z.max pMin pMax)) as -> by (unfold b, a, clamp_percent; repeat case_match; lia).
  assert (0 <= clamp_percent pMin <= 100) as H1 by (unfold clamp_percent; lia).
  assert (clamp_percent pMin <= clamp_percent (Z.max pMin pMax) <= 100) as H2 by (unfold clamp_percent; lia).
  assert (forall p, 0 <= p <= 100 -> u64 (p * probOne) = p * probOne) as Hp by (intros p Hp; apply Z.mod_small; lia).
  rewrite !Hp by lia. clear Hp. fold lo hi.
  assert (0 <= lo) as Hlo by (apply Z.div_pos; lia). assert (lo <= hi) as Hle by (apply Z.div_le_mono; lia).
  assert (hi <= probOne) as Hhi by (apply Z.div_le_upper_bound; lia).
  destruct (hi <=? lo) eqn:E; [cbn; split; [lia|by split]|].
  destruct (Uint32_ok r Hr) as [Hu Hr']. destruct (Uint32 r) as [u r']. cbn [fst snd] in *. split; [|by split].
  assert (0 <= fastIntnFromUint32 u (hi - lo) < hi - lo) as Hf by (apply fastIntn_range; [done|lia]).
  unfold fastIntnFromUint32 in Hf. set (f := Z.shiftr _ _) in *. unfold u64. rewrite Z.mod_small; lia.
Qed.

(** ** Bytes decoded ahead *)

(** The capacity of a slice that [append] has to grow, for its length. *)
Class GoAppend := append_cap : nat -> nat.

Record pendingBuffer := { data : list Z; off : nat; pcap : nat }.

Definition newPendingBuffer (capacity : nat) : pendingBuffer := {| data := []; off := 0; pcap := capacity |}.

Definition available (p : pendingBuffer) : nat := length (data p) - off p.

Definition pending_reset (p : pendingBuffer) : pendingBuffer := {| data := []; off := 0; pcap := pcap p |}.

Definition ensureAppendCapacity (p : pendingBuffer) (extra : nat) : pendingBuffer :=
  if (extra <=? 0)%nat then p
  else if (off p =? 0)%nat then p
  else if (extra <=? pcap p - length (data p))%nat then p
  else {| data := drop (off p) (data p); off := 0; pcap := pcap p |}.

Section pending.
  Context `{GoAppend}.

Definition appendByte (p : pendingBuffer) (b : Z) : pendingBuffer :=
  let p := ensureAppendCapacity p 1 in
  {| data := data p ++ [b]; off := off p;
     pcap := if (length (data p) <? pcap p)%nat then pcap p else append_cap (length (data p)) |}.

(** [dst] of [size] bytes, of which [out] are written. *)
Definition appendDecodedByte (size : nat) (out : list Z) (pending : pendingBuffer) (b : Z) : list Z * pendingBuffer :=
  if (length out <? size)%nat then (out ++ [b], pending) else (out, appendByte pending b).

Definition drainPending (size : nat) (pending : pendingBuffer) : option (list Z) * pendingBuffer :=
  if (available pending =? 0)%nat then (None, pending)
  else
    let copied := take size (drop (off pending) (data pending)) in
    let pending := {| data := data pending; off := off pending + length copied; pcap := pcap pending |} in
    (Some copied, if (off pending =? length (data pending))%nat then pending_reset pending else pending).

(** What is still to be read. *)
Definition unread (p : pendingBuffer) : list Z := drop (off p) (data p).

Definition pending_ok (p : pendingBuffer) : Prop := (off p <= length (data p))%nat.

Lemma ensure_unread p extra :
  pending_ok p -> unread (ensureAppendCapacity p extra) = unread p /\ pending_ok (ensureAppendCapacity p extra).
Proof.
  intros Hp. unfold ensureAppendCapacity. repeat case_match; [by split..|]. unfold unread, pending_ok. cbn. split; [done|lia].
Qed.

Lemma unread_append p b : pending_ok p -> unread (appendByte p b) = unread p ++ [b] /\ pending_ok (appendByte p b).
Proof.
  intros Hp. destruct (ensure_unread p 1 Hp) as [Hu Hok]. rewrite <-Hu. unfold appendByte, unread, pending_ok in *. cbn [data off].
  rewrite drop_app_le, length_app by done. split; [done|lia].
Qed.

Lemma available_unread p : available p = length (unread p).
Proof. unfold available, unread. by rewrite length_drop. Qed.

Lemma drainPending_spec size p :
  pending_ok p -> (0 < size)%nat ->
  if decide (unread p = []) then drainPending size p = (None, p)
  else exists out p', drainPending size p = (Some out, p') /\ out ≠ [] /\ (length out <= size)%nat /\
    unread p = out ++ unread p' /\ pending_ok p'.
Proof.
  unfold pending_ok. intros Hp Hs. unfold drainPending. rewrite available_unread. destruct (decide (unread p = [])) as [->|Hne]; [done|].
  destruct (length (unread p) =? 0)%nat eqn:E; [apply Nat.eqb_eq, nil_length_inv in E; done|]. apply Nat.eqb_neq in E. unfold unread in *. cbn [off data].
  set (u := drop (off p) (data p)) in *. assert (length u = length (data p) - off p)%nat as Hu by apply length_drop.
  assert (take size u ≠ []) as Ht by (intros H0; apply (f_equal length) in H0; rewrite length_take in H0; cbn in H0; lia).
  assert (length (take size u) <= size)%nat as Hle by (rewrite length_take; lia).
  case_match eqn:Ec; [apply Nat.eqb_eq in Ec|apply Nat.eqb_neq in Ec]; eexists _, _; split_and!; try done; cbn [off data pending_reset].
  - rewrite drop_nil, app_nil_r. symmetry. apply take_ge. rewrite length_take in Ec. lia.
  - rewrite <-(take_drop size u) at 1. f_equal. unfold u at 1. rewrite drop_drop. rewrite length_take in *. f_equal. lia.
  - rewrite length_take in *. lia.
Qed.
(** Bytes wait only when the buffer of the reader is full. *)
Definition ahead_ok (size : nat) (out : list Z) (p : pendingBuffer) : Prop :=
  pending_ok p /\ (length out <= size)%nat /\ (unread p ≠ [] -> length out = size).

(** A decoded byte comes after all that were decoded before. *)
Lemma appendDecodedByte_ok size out p val :
  ahead_ok size out p ->
  let '(out', p') := appendDecodedByte size out p val in
  ahead_ok size out' p' /\ out' ++ unread p' = (out ++ unread p) ++ [val].
Proof.
  intros (Hp & Ho & Hf). unfold appendDecodedByte, ahead_ok. destruct (length out <? size)%nat eqn:E.
  - apply Nat.ltb_lt in E. rewrite length_app. cbn [length]. split_and!; [done|lia| |].
    + intros Hu. apply Hf in Hu. lia.
    + destruct (decide (unread p = [])) as [->|Hu]; [by rewrite !app_nil_r|apply Hf in Hu; lia].
  - apply Nat.ltb_ge in E. destruct (unread_append p val Hp) as [-> Hok]. split_and!; [done..|lia|by rewrite app_assoc].
Qed.
End pending.
