(* ===== verification/SudokuConn.v ===== *)
(** * The connection of the Sudoku obfuscation
    (src/transport/sudoku/obfs/sudoku: conn.go, encode.go, writeFull of packed.go)

    Writing gives each byte a puzzle at random, its hints in a random order,
    and padding between them; reading drops the padding and decodes the hints
    four by four.  The network may cut the stream anywhere. *)

From S2P Require Import Prelude GoText SudokuGrid SudokuLayout SudokuTable SudokuRand.

(** ** The network *)

(** What a connection is about to deliver: each chunk by one read or more, then
    an error, which may come with the last bytes. *)
Record Net := { chunks : list (list Z); net_err : string; err_with_data : bool }.

Definition set_chunks (c : Net) (cs : list (list Z)) : Net :=
  {| chunks := cs; net_err := net_err c; err_with_data := err_with_data c |}.

(** [net.Conn.Read] into [n] bytes. *)
Definition net_Read (c : Net) (n : nat) : list Z * option string * Net :=
  match chunks c with
  | [] => ([], Some (net_err c), c)
  | chunk :: rest =>
    if (length chunk <=? n)%nat
    then (chunk, if bool_decide (rest = []) && err_with_data c then Some (net_err c) else None, set_chunks c rest)
    else (take n chunk, None, set_chunks c (drop n chunk :: rest))
  end.

(** [writeFull] to a connection that accepts some bytes at each call, with an
    error or not, and everything after the listed calls: what was sent. *)
Fixpoint writeFull (script : list (nat * option string)) (b : list Z) : list Z * option string * list (nat * option string) :=
  if bool_decide (b = []) then ([], None, script)
  else match script with
       | [] => (b, None, [])
       | (n, err) :: script =>
         match err with
         | Some e => (take n b, Some e, script)
         | None =>
           if (n =? 0)%nat then ([], Some "short write"%string, script)
           else let '(sent, err, script) := writeFull script (drop n b) in (take n b ++ sent, err, script)
         end
       end.

(** ** Writing *)

Definition perm4 : list (list nat) :=
  [[0; 1; 2; 3]; [0; 1; 3; 2]; [0; 2; 1; 3]; [0; 2; 3; 1]; [0; 3; 1; 2]; [0; 3; 2; 1];
   [1; 0; 2; 3]; [1; 0; 3; 2]; [1; 2; 0; 3]; [1; 2; 3; 0]; [1; 3; 0; 2]; [1; 3; 2; 0];
   [2; 0; 1; 3]; [2; 0; 3; 1]; [2; 1; 0; 3]; [2; 1; 3; 0]; [2; 3; 0; 1]; [2; 3; 1; 0];
   [3; 0; 1; 2]; [3; 0; 2; 1]; [3; 1; 0; 2]; [3; 1; 2; 0]; [3; 2; 0; 1]; [3; 2; 1; 0]]%nat.

(** The hints of a byte: a puzzle, in an order. *)
Definition choose_hints (t : Table) (r : sudokuRand) (b : Z) : res (list Z * sudokuRand) :=
  let puzzles := nth (Z.to_nat b) (EncodeTable t) [] in
  '(puzzle, r) ← choose puzzles r;
  '(perm, r) ← choose perm4 r;
  Ret (map (fun idx => nth idx puzzle 0) perm, r).

Fixpoint encodeSudokuPayloadNoPadding (t : Table) (r : sudokuRand) (p : list Z) : res (list Z * sudokuRand) :=
  match p with
  | [] => Ret ([], r)
  | b :: p =>
    '(hints, r) ← choose_hints t r b;
    '(out, r) ← encodeSudokuPayloadNoPadding t r p;
    Ret (hints ++ out, r)
  end.

(** Padding before a hint: always, when the threshold is one, or by chance. *)
Definition maybe_pad (pads : list Z) (r : sudokuRand) (paddingThreshold : Z) : res (list Z * sudokuRand) :=
  if probOne <=? paddingThreshold then '(pad, r) ← choose pads r; Ret ([pad], r)
  else
    let '(u, r) := Uint32 r in
    if u <? paddingThreshold then '(pad, r) ← choose pads r; Ret ([pad], r) else Ret ([], r).

Fixpoint pad_hints (pads : list Z) (r : sudokuRand) (paddingThreshold : Z) (hints : list Z) : res (list Z * sudokuRand) :=
  match hints with
  | [] => Ret ([], r)
  | h :: hints =>
    '(pad, r) ← maybe_pad pads r paddingThreshold;
    '(out, r) ← pad_hints pads r paddingThreshold hints;
    Ret (pad ++ h :: out, r)
  end.

Fixpoint pad_bytes (t : Table) (r : sudokuRand) (paddingThreshold : Z) (p : list Z) : res (list Z * sudokuRand) :=
  match p with
  | [] => Ret ([], r)
  | b :: p =>
    '(pad, r) ← maybe_pad (PaddingPool t) r paddingThreshold;
    '(hints, r) ← choose_hints t r b;
    '(padded, r) ← pad_hints (PaddingPool t) r paddingThreshold hints;
    '(out, r) ← pad_bytes t r paddingThreshold p;
    Ret (pad ++ padded ++ out, r)
  end.

Definition encodeSudokuPayload (t : Table) (r : sudokuRand) (paddingThreshold : Z) (p : list Z) : res (list Z * sudokuRand) :=
  if bool_decide (p = []) then Ret ([], r)
  else if paddingThreshold =? 0 then encodeSudokuPayloadNoPadding t r p
  else
    '(out, r) ← pad_bytes t r paddingThreshold p;
    '(pad, r) ← maybe_pad (PaddingPool t) r paddingThreshold;
    Ret (out ++ pad, r).

(** ** The connection *)

Abbreviation IOBufferSize := (32 * 1024).
Abbreviation minDecodeReadSize := 64.
Abbreviation ErrInvalidSudokuMapMiss := "INVALID_SUDOKU_MAP_MISS"%string.
Abbreviation ErrClosedPipe := "io: read/write on closed pipe"%string.

Record Conn := mk_conn {
  table : option Table;
  net : Net;
  (** what [reader] has buffered *)
  buffered : list Z;
  recorder : option (list Z);
  recording : bool;
  pendingData : pendingBuffer;
  hintBuf : list Z;
  hintCount : nat;
  rng : sudokuRand;
  paddingThreshold : Z
}.

Definition NewConn (c : Net) (t : option Table) (seed pMin pMax : Z) (record : bool) : Conn :=
  let '(threshold, r) := pickPaddingThreshold (newSudokuRand seed) pMin pMax in
  {| table := t; net := c; buffered := []; recorder := if record then Some [] else None; recording := record;
     pendingData := newPendingBuffer 4096; hintBuf := [0; 0; 0; 0]; hintCount := 0; rng := r; paddingThreshold := threshold |}.

Definition StopRecording (sc : Conn) : Conn :=
  {| table := table sc; net := net sc; buffered := buffered sc; recorder := None; recording := false;
     pendingData := pendingData sc; hintBuf := hintBuf sc; hintCount := hintCount sc; rng := rng sc;
     paddingThreshold := paddingThreshold sc |}.

Definition GetBufferedAndRecorded (sc : Conn) : list Z :=
  let recorded := default [] (recorder sc) in
  if (0 <? length (buffered sc))%nat then recorded ++ buffered sc else recorded.

Definition set_rng (sc : Conn) (r : sudokuRand) : Conn :=
  {| table := table sc; net := net sc; buffered := buffered sc; recorder := recorder sc; recording := recording sc;
     pendingData := pendingData sc; hintBuf := hintBuf sc; hintCount := hintCount sc; rng := r;
     paddingThreshold := paddingThreshold sc |}.

(** [Write]: the count and the error, what went to the network, and the rest of
    the calls that the network answers. *)
Definition conn_Write (sc : Conn) (script : list (nat * option string)) (p : list Z) :
  res (Conn * (Z * option string) * list Z * list (nat * option string)) :=
  if bool_decide (p = []) then Ret (sc, (0, None), [], script)
  else match table sc with
       | None => Ret (sc, (0, Some ErrClosedPipe), [], script)
       | Some t =>
         '(writeBuf, r) ← encodeSudokuPayload t (rng sc) (paddingThreshold sc) p;
         let '(sent, err, script) := writeFull script writeBuf in
         Ret (set_rng sc r, (zlen p, err), sent, script)
       end.

Definition sudokuReadSize (decodedRemaining maxRaw : Z) : Z :=
  if (maxRaw <=? minDecodeReadSize) || (decodedRemaining <=? 0) then maxRaw
  else if (maxRaw - minDecodeReadSize) / 5 <? decodedRemaining then maxRaw
  else decodedRemaining * 5 + minDecodeReadSize.

(** [readRawLimited]: from the buffer of the reader first. *)
Definition readRawLimited (c : Net) (buf : list Z) (n : nat) : list Z * option string * Net * list Z :=
  if (n =? 0)%nat then ([], None, c, buf)
  else if (0 <? length buf)%nat then (take n buf, None, c, drop n buf)
  else let '(got, err, c) := net_Read c n in (got, err, c, buf).

(** What the loop over a chunk changes. *)
Record Dec := { d_hintBuf : list Z; d_hintCount : nat; d_out : list Z; d_pending : pendingBuffer }.

Section read.
  Context `{GoAppend}.

(** One byte of the wire; the answer is whether its key was found. *)
Definition decode_byte (t : Table) (size : nat) (s : Dec) (b : Z) : res (Dec * bool) :=
  if negb (isHint (layout t) b) then Ret (s, true)
  else if (4 <=? d_hintCount s)%nat then Panic
  else
    let hb := <[d_hintCount s := b]> (d_hintBuf s) in
    let count := S (d_hintCount s) in
    if negb (count =? 4)%nat then Ret ({| d_hintBuf := hb; d_hintCount := count; d_out := d_out s; d_pending := d_pending s |}, true)
    else match DecodeMap t !! packHintsToKey hb with
         | None => Ret ({| d_hintBuf := hb; d_hintCount := count; d_out := d_out s; d_pending := d_pending s |}, false)
         | Some val =>
           let '(out, pending) := appendDecodedByte size (d_out s) (d_pending s) val in
           Ret ({| d_hintBuf := hb; d_hintCount := 0; d_out := out; d_pending := pending |}, true)
         end.

(** The loop over a chunk: four hints in a row are decoded at once. *)
Fixpoint decode_chunk (t : Table) (size : nat) (s : Dec) (chunk : list Z) : res (Dec * bool) :=
  match chunk with
  | [] => Ret (s, true)
  | b0 :: rest =>
    match rest with
    | b1 :: b2 :: b3 :: rest' =>
      if (d_hintCount s =? 0)%nat && (length (d_out s) <? size)%nat &&
         isHint (layout t) b0 && isHint (layout t) b1 && isHint (layout t) b2 && isHint (layout t) b3
      then match DecodeMap t !! packHintBytes b0 b1 b2 b3 with
           | None => Ret (s, false)
           | Some val =>
             decode_chunk t size {| d_hintBuf := d_hintBuf s; d_hintCount := d_hintCount s; d_out := d_out s ++ [val];
                                    d_pending := d_pending s |} rest'
           end
      else '(s, ok) ← decode_byte t size s b0; if ok : bool then decode_chunk t size s rest else Ret (s, false)
    | _ => '(s, ok) ← decode_byte t size s b0; if ok : bool then decode_chunk t size s rest else Ret (s, false)
    end
  end.

Definition record_chunk (sc : Conn) (chunk : list Z) : option (list Z) :=
  if recording sc then option_map (fun r => r ++ chunk) (recorder sc) else recorder sc.

(** The connection after a read of [chunk] from the network and its decoding. *)
Definition after_chunk (sc : Conn) (c : Net) (buf chunk : list Z) (s : Dec) : Conn :=
  {| table := table sc; net := c; buffered := buf; recorder := if bool_decide (chunk = []) then recorder sc else record_chunk sc chunk;
     recording := recording sc; pendingData := d_pending s; hintBuf := d_hintBuf s; hintCount := d_hintCount s;
     rng := rng sc; paddingThreshold := paddingThreshold sc |}.

Definition set_pending (sc : Conn) (p : pendingBuffer) : Conn :=
  {| table := table sc; net := net sc; buffered := buffered sc; recorder := recorder sc; recording := recording sc;
     pendingData := p; hintBuf := hintBuf sc; hintCount := hintCount sc; rng := rng sc; paddingThreshold := paddingThreshold sc |}.

Abbreviation answer := (Conn * list Z * option string)%type.

(** The loop of [Read], until a byte is decoded or the network fails. *)
Fixpoint read_loop (fuel : nat) (t : Table) (size : nat) (sc : Conn) (out : list Z) : res answer :=
  match fuel with
  | O => Panic
  | S fuel =>
    let n := Z.to_nat (sudokuReadSize (Z.of_nat size - zlen out) IOBufferSize) in
    let '(chunk, rErr, c, buf) := readRawLimited (net sc) (buffered sc) n in
    '(s, ok) ← decode_chunk t size {| d_hintBuf := hintBuf sc; d_hintCount := hintCount sc; d_out := out; d_pending := pendingData sc |} chunk;
    let sc := after_chunk sc c buf chunk s in
    if negb ok then Ret (sc, [], Some ErrInvalidSudokuMapMiss)
    else match rErr with
         | Some e =>
           if (0 <? length (d_out s))%nat then Ret (sc, d_out s, None)
           else match drainPending size (pendingData sc) with
                | (Some drained, p) => Ret (set_pending sc p, drained, None)
                | (None, _) => Ret (sc, [], Some e)
                end
         | None => if (0 <? length (d_out s))%nat then Ret (sc, d_out s, None) else read_loop fuel t size sc (d_out s)
         end
  end.

(** Every turn of the loop takes a byte or a chunk from the network. *)
Definition read_fuel (sc : Conn) : nat := S (S (length (buffered sc) + length (concat (chunks (net sc))) + length (chunks (net sc)))).

(** [Read] into [size] bytes. *)
Definition conn_Read (sc : Conn) (size : nat) : res answer :=
  if (size =? 0)%nat then Ret (sc, [], None)
  else match table sc with
       | None => Ret (sc, [], Some ErrClosedPipe)
       | Some t =>
         match drainPending size (pendingData sc) with
         | (Some drained, p) => Ret (set_pending sc p, drained, None)
         | (None, _) => read_loop (read_fuel sc) t size sc []
         end
       end.
End read.
