(* ===== verification/SudokuStream.v ===== *)
(** * The Sudoku connection delivers what was written

    The wire of any writes, with any randomness and padding, decodes to the
    bytes written; and a reader of any buffer sizes gets those bytes, however
    the network cuts the stream. *)

From S2P Require Import Prelude GoText SudokuGrid SudokuLayout SudokuTable SudokuRand SudokuConn.

#[local] Opaque combinations unique GenerateAllGrids.

(** ** What a wire means *)

(** The bytes that a wire carries after the hints [hs], and the hints left. *)
Fixpoint decode_hints (t : Table) (hs wire : list Z) : option (list Z * list Z) :=
  match wire with
  | [] => Some ([], hs)
  | b :: wire =>
    if isHint (layout t) b then
      let hs := hs ++ [b] in
      if (length hs =? 4)%nat then
        match DecodeMap t !! packHintsToKey hs with
        | Some val => match decode_hints t [] wire with Some (bs, hs) => Some (val :: bs, hs) | None => None end
        | None => None
        end
      else decode_hints t hs wire
    else decode_hints t hs wire
  end.

Lemma decode_hints_app t hs a b :
  decode_hints t hs (a ++ b) =
  match decode_hints t hs a with
  | Some (bs, hs') => match decode_hints t hs' b with Some (cs, hs'') => Some (bs ++ cs, hs'') | None => None end
  | None => None
  end.
Proof.
  revert hs. induction a as [|x a IH]; intros hs; cbn.
  - by destruct (decode_hints t hs b) as [[cs hs'']|].
  - repeat case_match; rewrite ?IH in *; simplify_eq; repeat case_match; by simplify_eq.
Qed.

(** Only the hints of a wire matter. *)
Lemma decode_hints_filter t hs wire :
  decode_hints t hs wire = decode_hints t hs (filter (fun b => isHint (layout t) b = true) wire).
Proof.
  revert hs. induction wire as [|b wire IH]; intros hs; [done|]. rewrite filter_cons.
  destruct (isHint (layout t) b) eqn:E; [rewrite decide_True by done|rewrite decide_False by done]; cbn [decode_hints]; rewrite E.
  - repeat case_match; rewrite ?IH in *; by simplify_eq.
  - apply IH.
Qed.

(** Hints that are a byte. *)
Definition hints_for (t : Table) (b : Z) (hints : list Z) : Prop :=
  length hints = 4%nat /\ Forall (fun h => isHint (layout t) h = true) hints /\ DecodeMap t !! packHintsToKey hints = Some b.

Lemma decode_four t b hints wire :
  hints_for t b hints ->
  decode_hints t [] (hints ++ wire) = match decode_hints t [] wire with Some (bs, hs) => Some (b :: bs, hs) | None => None end.
Proof.
  intros (H4 & Hh & HD). destruct hints as [|h0 [|h1 [|h2 [|h3 [|? ?]]]]]; try discriminate H4.
  rewrite !Forall_cons in Hh. destruct Hh as (E0 & E1 & E2 & E3 & _). cbn [decode_hints app length Nat.eqb]. rewrite E0, E1, E2, E3.
  cbn [decode_hints app length Nat.eqb]. by rewrite HD.
Qed.

Lemma decode_quads t p hss : Forall2 (hints_for t) p hss -> decode_hints t [] (concat hss) = Some (p, []).
Proof.
  induction 1 as [|b hints p hss Hb HF IH]; [done|]. cbn [concat]. by rewrite (decode_four t b hints _ Hb), IH.
Qed.

(** ** Writing *)

Lemma perm4_perms : Forall (fun perm => Permutation perm [0; 1; 2; 3]%nat) perm4.
Proof. repeat constructor; solve_Permutation. Qed.

Lemma choose_hints_ok t r b :
  table_ok t -> rand_ok r -> is_u8 b ->
  exists hints r', choose_hints t r b = Ret (hints, r') /\ rand_ok r' /\ hints_for t b hints.
Proof.
  intros Ht Hr Hb. unfold choose_hints. pose proof (tok_size t Ht b Hb) as Hs.
  destruct (choose_ok (nth (Z.to_nat b) (EncodeTable t) []) r Hr (tok_encode t Ht b Hb)) as (p & r1 & -> & Hp & Hr1).
  { unfold zlen. lia. }
  cbn [mbind res_bind]. destruct (choose_ok perm4 r1 Hr1) as (perm & r2 & -> & Hperm & Hr2); [done|done|].
  cbn [mbind res_bind]. eexists _, r2. split; [done|]. split; [done|].
  destruct (tok_puzzle t Ht b p Hb Hp) as (H4 & Hh & HD).
  assert (Permutation p (map (fun idx => nth idx p 0) perm)) as HP.
  { pose proof perm4_perms as Hf. rewrite Forall_forall in Hf. rewrite (Hf perm Hperm).
    destruct p as [|h0 [|h1 [|h2 [|h3 [|? ?]]]]]; try discriminate H4. done. }
  split; [by rewrite <-HP|]. split; [|by apply HD]. rewrite <-HP. eapply Forall_impl; [apply Hh|]. by intros h [].
Qed.

Definition no_hints (t : Table) (pad : list Z) : Prop := filter (fun b => isHint (layout t) b = true) pad = [].

Lemma maybe_pad_ok t r threshold :
  table_ok t -> rand_ok r ->
  exists pad r', maybe_pad (PaddingPool t) r threshold = Ret (pad, r') /\ rand_ok r' /\ no_hints t pad.
Proof.
  intros Ht Hr. assert (forall r, rand_ok r -> exists pad r', choose (PaddingPool t) r = Ret (pad, r') /\ rand_ok r' /\ no_hints t [pad]) as Hc.
  { clear r Hr. intros r Hr. pose proof (tok_layout t Ht) as Hl. rewrite (tok_pool t Ht).
    destruct (choose_ok (paddingPool (layout t)) r Hr) as (pad & r' & -> & Hin & Hr').
    - intros E. destruct (ok_pool _ Hl) as (x & Hx & _). rewrite E in Hx. by apply elem_of_nil in Hx.
    - pose proof (ok_pool_size _ Hl). lia.
    - exists pad, r'. split; [done|]. split; [done|]. unfold no_hints. apply (ok_padding _ Hl) in Hin as [_ Hi].
      by rewrite filter_cons, decide_False by (by rewrite Hi). }
  unfold maybe_pad. destruct (probOne <=? threshold).
  - destruct (Hc r Hr) as (pad & r' & -> & Hr' & Hp). by eexists _, _.
  - destruct (Uint32_ok r Hr) as [_ Hr1]. destruct (Uint32 r) as [u r1]. cbn [snd] in Hr1. destruct (u <? threshold); [|by exists [], r1].
    destruct (Hc r1 Hr1) as (pad & r' & -> & Hr' & Hp). by eexists _, _.
Qed.

Lemma pad_hints_ok t r threshold hints :
  table_ok t -> rand_ok r -> Forall (fun h => isHint (layout t) h = true) hints ->
  exists out r', pad_hints (PaddingPool t) r threshold hints = Ret (out, r') /\ rand_ok r' /\
    filter (fun b => isHint (layout t) b = true) out = hints.
Proof.
  intros Ht Hr Hh. revert r Hr. induction Hh as [|h hints Hh Hhs IH]; intros r Hr; cbn [pad_hints]; [by exists [], r|].
  destruct (maybe_pad_ok t r threshold Ht Hr) as (pad & r1 & -> & Hr1 & Hp). cbn [mbind res_bind].
  destruct (IH r1 Hr1) as (out & r2 & -> & Hr2 & Ho). cbn [mbind res_bind]. eexists _, r2. split; [done|]. split; [done|].
  by rewrite filter_app, filter_cons, Hp, decide_True, Ho by done.
Qed.

(** The hints of a wire are those of the bytes. *)
Definition carries (t : Table) (wire p : list Z) : Prop :=
  exists hss, filter (fun b => isHint (layout t) b = true) wire = concat hss /\ Forall2 (hints_for t) p hss.

Lemma carries_decode t wire p : carries t wire p -> decode_hints t [] wire = Some (p, []).
Proof. intros (hss & E & HF). rewrite decode_hints_filter, E. by apply decode_quads. Qed.

Lemma carries_cons t pad padded hints b wire p :
  no_hints t pad -> filter (fun b => isHint (layout t) b = true) padded = hints -> hints_for t b hints -> carries t wire p ->
  carries t (pad ++ padded ++ wire) (b :: p).
Proof.
  intros Hp Hhs Hb (hss & E & HF). exists (hints :: hss). split; [|by constructor]. by rewrite !filter_app, Hp, Hhs, E.
Qed.

Lemma carries_pad t wire pad p : carries t wire p -> no_hints t pad -> carries t (wire ++ pad) p.
Proof. intros (hss & E & HF) Hp. exists hss. split; [|done]. by rewrite filter_app, Hp, app_nil_r. Qed.

Lemma pad_bytes_ok t r threshold p :
  table_ok t -> rand_ok r -> is_bytes p ->
  exists out r', pad_bytes t r threshold p = Ret (out, r') /\ rand_ok r' /\ carries t out p.
Proof.
  intros Ht Hr Hp. revert r Hr. induction Hp as [|b p Hb Hp IH]; intros r Hr; cbn [pad_bytes]; [exists [], r; split_and!; [done..|by exists []]|].
  destruct (maybe_pad_ok t r threshold Ht Hr) as (pad & r1 & -> & Hr1 & Hpad). cbn [mbind res_bind].
  destruct (choose_hints_ok t r1 b Ht Hr1 Hb) as (hints & r2 & -> & Hr2 & Hh). cbn [mbind res_bind].
  destruct (pad_hints_ok t r2 threshold hints Ht Hr2) as (padded & r3 & -> & Hr3 & Hf); [apply Hh|]. cbn [mbind res_bind].
  destruct (IH r3 Hr3) as (out & r4 & -> & Hr4 & Ho). cbn [mbind res_bind]. eexists _, r4. split_and!; [done..|].
  by apply (carries_cons t pad padded hints).
Qed.

Lemma encode_plain_ok t r p :
  table_ok t -> rand_ok r -> is_bytes p ->
  exists out r', encodeSudokuPayloadNoPadding t r p = Ret (out, r') /\ rand_ok r' /\ carries t out p.
Proof.
  intros Ht Hr Hp. revert r Hr. induction Hp as [|b p Hb Hp IH]; intros r Hr; cbn [encodeSudokuPayloadNoPadding];
    [exists [], r; split_and!; [done..|by exists []]|].
  destruct (choose_hints_ok t r b Ht Hr Hb) as (hints & r2 & -> & Hr2 & Hh). cbn [mbind res_bind].
  destruct (IH r2 Hr2) as (out & r4 & -> & Hr4 & Ho). cbn [mbind res_bind]. eexists _, r4. split_and!; [done..|].
  apply (carries_cons t [] hints hints); [done| |done..]. apply filter_keeps, Hh.
Qed.

(** An encoded payload carries its bytes. *)
Lemma encode_ok t r threshold p :
  table_ok t -> rand_ok r -> is_bytes p ->
  exists out r', encodeSudokuPayload t r threshold p = Ret (out, r') /\ rand_ok r' /\ carries t out p.
Proof.
  intros Ht Hr Hp. unfold encodeSudokuPayload. case_bool_decide as E; [subst p; exists [], r; split_and!; [done..|by exists []]|].
  destruct (threshold =? 0); [by apply encode_plain_ok|].
  destruct (pad_bytes_ok t r threshold p Ht Hr Hp) as (out & r1 & -> & Hr1 & Ho). cbn [mbind res_bind].
  destruct (maybe_pad_ok t r1 threshold Ht Hr1) as (pad & r2 & -> & Hr2 & Hpad). cbn [mbind res_bind].
  eexists _, r2. split_and!; [done..|]. by apply carries_pad.
Qed.

(** Calls of the network that all make progress. *)
Definition script_ok (script : list (nat * option string)) : Prop := Forall (fun c => (0 < c.1)%nat /\ c.2 = None) script.

Lemma writeFull_ok script b :
  script_ok script -> exists script', writeFull script b = (b, None, script') /\ script_ok script'.
Proof.
  intros Hs. revert b. induction Hs as [|[n err] script [Hn He] Hs IH]; intros b; cbn [writeFull]; case_bool_decide as E.
  - subst b. exists []. split; [done|constructor].
  - exists []. split; [done|constructor].
  - subst b. eexists. split; [done|]. by constructor.
  - cbn in Hn, He. subst err. rewrite (proj2 (Nat.eqb_neq n 0)) by lia. destruct (IH (drop n b)) as (script' & -> & Hs').
    exists script'. by rewrite take_drop.
Qed.

(** ** Reading *)

Definition net_size (c : Net) (buf : list Z) : nat := length buf + length (concat (chunks c)) + length (chunks c).

Lemma readRawLimited_ok c buf n :
  (0 < n)%nat ->
  let '(chunk, rErr, c', buf') := readRawLimited c buf n in
  buf ++ concat (chunks c) = chunk ++ buf' ++ concat (chunks c') /\ net_err c' = net_err c /\
  match rErr with
  | Some e => e = net_err c /\ buf' ++ concat (chunks c') = []
  | None => (net_size c' buf' < net_size c buf)%nat
  end.
Proof.
  intros Hn. unfold readRawLimited, net_size. rewrite (proj2 (Nat.eqb_neq n 0)) by lia. destruct buf as [|b buf]; cbn [length Nat.ltb Nat.leb].
  - unfold net_Read. destruct (chunks c) as [|chunk rest] eqn:E; [rewrite E; done|].
    destruct (length chunk <=? n)%nat eqn:El.
    + cbn [chunks set_chunks net_err concat length app]. split; [done|]. split; [done|].
      case_bool_decide as Er; [subst rest|]; destruct (err_with_data c); cbn; rewrite ?length_app; try done; try lia.
    + apply Nat.leb_gt in El. cbn [chunks set_chunks net_err concat length app]. split; [by rewrite app_assoc, take_drop|]. split; [done|].
      rewrite !length_app, length_drop. lia.
  - split; [by rewrite app_assoc, take_drop|]. split; [done|]. rewrite length_drop. cbn [length]. lia.
Qed.

Section read.
  Context `{GoAppend}.
  Variable t : Table.
  Variable size : nat.
  Hypothesis Hsize : (0 < size)%nat.

Definition hints_of (s : Dec) : list Z := take (d_hintCount s) (d_hintBuf s).

Definition content (s : Dec) : list Z := d_out s ++ unread (d_pending s).

Record dec_ok (s : Dec) : Prop := {
  ok_buf : length (d_hintBuf s) = 4%nat;
  ok_count : (d_hintCount s < 4)%nat;
  ok_ahead : ahead_ok size (d_out s) (d_pending s)
}.

(** One byte does to the state what it does to the hints. *)
Lemma decode_byte_ok s b bs hs :
  dec_ok s -> decode_hints t (hints_of s) [b] = Some (bs, hs) ->
  exists s', decode_byte t size s b = Ret (s', true) /\ dec_ok s' /\ hints_of s' = hs /\ content s' = content s ++ bs.
Proof.
  intros Hs. cbn [decode_hints]. unfold decode_byte. destruct (isHint (layout t) b); cbn [negb].
  2: { intros [= <- <-]. exists s. by rewrite app_nil_r. }
  pose proof Hs as [Hb Hc Ha]. rewrite (proj2 (Nat.leb_gt 4 (d_hintCount s))) by lia.
  assert (length (hints_of s ++ [b]) = S (d_hintCount s)) as Hl by (unfold hints_of; rewrite length_app, length_take; cbn; lia).
  assert (take (S (d_hintCount s)) (<[d_hintCount s := b]> (d_hintBuf s)) = hints_of s ++ [b]) as Ht.
  { unfold hints_of. rewrite (take_S_r _ _ b) by (apply list_lookup_insert_eq; lia). by rewrite take_insert_ge. }
  rewrite Hl. destruct (S (d_hintCount s) =? 4)%nat eqn:E; cbn [negb].
  - apply Nat.eqb_eq in E. assert (<[d_hintCount s := b]> (d_hintBuf s) = hints_of s ++ [b]) as Ek.
    { rewrite <-Ht. symmetry. apply take_ge. rewrite length_insert. lia. }
    rewrite Ek. destruct (DecodeMap t !! _) as [val|]; [|done]. intros [= <- <-].
    apply (appendDecodedByte_ok size _ _ val) in Ha. destruct (appendDecodedByte size (d_out s) (d_pending s) val) as [out pending].
    destruct Ha as [H1 H2]. eexists. split; [done|]. split; [split; cbn; try done; lia|]. by split.
  - apply Nat.eqb_neq in E. intros [= <- <-]. eexists. split; [done|]. split; [split; cbn; try done; rewrite ?length_insert; lia|].
    unfold content. cbn. by rewrite app_nil_r.
Qed.
(** A byte, then the rest of the chunk. *)
Lemma decode_slow s b0 rest bs hs :
  (forall s bs hs, dec_ok s -> decode_hints t (hints_of s) rest = Some (bs, hs) ->
    exists s', decode_chunk t size s rest = Ret (s', true) /\ dec_ok s' /\ hints_of s' = hs /\ content s' = content s ++ bs) ->
  dec_ok s -> decode_hints t (hints_of s) (b0 :: rest) = Some (bs, hs) ->
  exists s', ('(s, ok) ← decode_byte t size s b0; if ok : bool then decode_chunk t size s rest else Ret (s, false)) = Ret (s', true) /\
    dec_ok s' /\ hints_of s' = hs /\ content s' = content s ++ bs.
Proof.
  intros IH Hs Hd. change (b0 :: rest) with ([b0] ++ rest) in Hd. rewrite decode_hints_app in Hd.
  destruct (decode_hints t (hints_of s) [b0]) as [[bs1 hs1]|] eqn:E1; [|done].
  destruct (decode_byte_ok s b0 bs1 hs1 Hs E1) as (s1 & -> & Hs1 & Hh1 & Hc1). cbn [mbind res_bind]. rewrite <-Hh1 in Hd.
  destruct (decode_hints t (hints_of s1) rest) as [[bs2 hs2]|] eqn:E2; [|done]. injection Hd as <- <-.
  destruct (IH s1 bs2 hs2 Hs1 E2) as (s2 & -> & Hs2 & Hh2 & Hc2). exists s2. split_and!; [done..|]. by rewrite Hc2, Hc1, app_assoc.
Qed.

(** A chunk does to the state what its bytes do, one by one: the shortcut for
    four hints in a row included. *)
Lemma decode_chunk_ok chunk s bs hs :
  dec_ok s -> decode_hints t (hints_of s) chunk = Some (bs, hs) ->
  exists s', decode_chunk t size s chunk = Ret (s', true) /\ dec_ok s' /\ hints_of s' = hs /\ content s' = content s ++ bs.
Proof.
  remember (length chunk) as n eqn:Hn. revert chunk Hn s bs hs. induction n as [n IH] using lt_wf_ind. intros chunk -> s bs hs Hs Hd.
  destruct chunk as [|b0 rest]; [injection Hd as <- <-; exists s; by rewrite app_nil_r|].
  assert (forall s bs hs, dec_ok s -> decode_hints t (hints_of s) rest = Some (bs, hs) ->
    exists s', decode_chunk t size s rest = Ret (s', true) /\ dec_ok s' /\ hints_of s' = hs /\ content s' = content s ++ bs) as IHr.
  { intros s1 bs1 hs1. apply (IH (length rest) ltac:(cbn; lia) rest eq_refl). }
  pose proof (decode_slow s b0 rest bs hs IHr Hs Hd) as Hslow.
  destruct rest as [|b1 [|b2 [|b3 rest']]]; [exact Hslow..|]. cbn [decode_chunk].
  destruct ((d_hintCount s =? 0)%nat && _ && _ && _ && _ && _) eqn:Efast; [|exact Hslow].
  rewrite !andb_true_iff in Efast. destruct Efast as [[[[[E0%Nat.eqb_eq El%Nat.ltb_lt] H0] H1] H2] H3]. clear Hslow IHr.
  unfold hints_of in Hd. rewrite E0, take_0 in Hd. cbn [decode_hints app length Nat.eqb] in Hd. rewrite H0, H1, H2, H3 in Hd.
  cbn [decode_hints app length Nat.eqb] in Hd. change (packHintsToKey [b0; b1; b2; b3]) with (packHintBytes b0 b1 b2 b3) in Hd.
  destruct (DecodeMap t !! packHintBytes b0 b1 b2 b3) as [val|] eqn:EK; [|done].
  destruct (decode_hints t [] rest') as [[bs1 hs1]|] eqn:E1; [|done]. injection Hd as <- <-.
  destruct Hs as [Hb Hc (Hp & Ho & Hf)]. assert (unread (d_pending s) = []) as Hu.
  { destruct (decide (unread (d_pending s) = [])) as [|Hu]; [done|]. apply Hf in Hu. lia. }
  set (s1 := Build_Dec _ _ _ _). destruct (IH (length rest') ltac:(cbn; lia) rest' eq_refl s1 bs1 hs1) as (s2 & -> & Hs2 & Hh2 & Hc2).
  - split; cbn [s1 d_hintBuf d_hintCount d_out d_pending]; [done..|]. split_and!; [done|rewrite length_app; cbn; lia|by rewrite Hu].
  - unfold hints_of, s1. cbn [d_hintCount d_hintBuf]. by rewrite E0.
  - exists s2. split_and!; [done..|]. rewrite Hc2. unfold content, s1. cbn [d_out d_pending]. rewrite Hu, !app_nil_r. by rewrite <-app_assoc.
Qed.
(** ** The network and the loop *)

Lemma read_size_pos : (0 < Z.to_nat (sudokuReadSize (Z.of_nat size - zlen (@nil Z)) IOBufferSize))%nat.
Proof. unfold sudokuReadSize. cbn. repeat case_match; lia. Qed.

(** What a connection has still to deliver: what waits decoded, then what its
    wire carries. *)
Definition stream (sc : Conn) : list Z := buffered sc ++ concat (chunks (net sc)).

Record delivers (sc : Conn) (X : list Z) : Prop := {
  dl_table : table sc = Some t;
  dl_pending : pending_ok (pendingData sc);
  dl_buf : length (hintBuf sc) = 4%nat;
  dl_count : (hintCount sc < 4)%nat;
  dl_data : exists D, decode_hints t (take (hintCount sc) (hintBuf sc)) (stream sc) = Some (D, []) /\ X = unread (pendingData sc) ++ D
}.

(** What a read takes off the wire is recorded. *)
Definition recorded (sc sc' : Conn) : Prop :=
  exists consumed, stream sc = consumed ++ stream sc' /\ recording sc' = recording sc /\
    recorder sc' = if recording sc then option_map (fun r => r ++ consumed) (recorder sc) else recorder sc.

Lemma recorded_refl sc : recorded sc sc.
Proof. exists []. split_and!; [done..|]. destruct (recording sc), (recorder sc); cbn; by rewrite ?app_nil_r. Qed.

Lemma recorded_trans a b c : recorded a b -> recorded b c -> recorded a c.
Proof.
  intros (x & Hx & Rx & Ex) (y & Hy & Ry & Ey). exists (x ++ y). split_and!; [by rewrite Hx, Hy, app_assoc|by rewrite Ry|].
  rewrite Ey, Ex, Rx. destruct (recording a), (recorder a); cbn; by rewrite ?app_assoc.
Qed.

(** The answer of a read when [X] is still to be delivered: some of it, or the
    error of the network once there is nothing more. *)
Definition good_answer (sc : Conn) (X : list Z) (sc' : Conn) (out : list Z) (err : option string) : Prop :=
  recorded sc sc' /\ net_err (net sc') = net_err (net sc) /\
  match err with
  | Some e => X = [] /\ out = [] /\ e = net_err (net sc) /\ delivers sc' []
  | None => out ≠ [] /\ (length out <= size)%nat /\ exists X', X = out ++ X' /\ delivers sc' X'
  end.

Lemma read_loop_ok fuel sc X :
  delivers sc X -> unread (pendingData sc) = [] -> (net_size (net sc) (buffered sc) < fuel)%nat ->
  exists sc' out err, read_loop fuel t size sc [] = Ret (sc', out, err) /\ good_answer sc X sc' out err.
Proof.
  revert sc X. induction fuel as [|fuel IH]; intros sc X [Ht Hp Hb Hc (D & HD & ->)] Hu Hf; [lia|]. rewrite Hu, app_nil_l. cbn [read_loop].
  pose proof (readRawLimited_ok (net sc) (buffered sc) _ read_size_pos) as Hr.
  destruct (readRawLimited _ _ _) as [[[chunk rErr] c'] buf']. destruct Hr as (Hw & He & Hr). unfold stream in HD. rewrite Hw, decode_hints_app in HD.
  set (s := Build_Dec _ _ _ _). change (take (hintCount sc) (hintBuf sc)) with (hints_of s) in HD.
  destruct (decode_hints t (hints_of s) chunk) as [[bs hs]|] eqn:E1; [|done].
  assert (dec_ok s) as Hs by (split; cbn [s d_hintBuf d_hintCount d_out d_pending]; [done..|]; split_and!; [done|cbn; lia|by rewrite Hu]).
  destruct (decode_chunk_ok chunk s bs hs Hs E1) as (s' & -> & Hs' & Hh' & Hc'). cbn [mbind res_bind negb].
  unfold content in Hc' at 2. cbn [s d_out d_pending] in Hc'. rewrite Hu in Hc'. cbn [app] in Hc'.
  destruct (decode_hints t hs _) as [[cs hs2]|] eqn:E2; [|done]. injection HD as <- ->.
  set (sc1 := after_chunk sc c' buf' chunk s').
  assert (recorded sc sc1) as Hrec.
  { exists chunk. split_and!; [done..|]. cbn [recorder sc1 after_chunk]. case_bool_decide as Ec; [|done].
    subst chunk. destruct (recording sc), (recorder sc); cbn; by rewrite ?app_nil_r. }
  assert (forall X', unread (d_pending s') ++ cs = X' -> delivers sc1 X') as Hdel.
  { intros X' <-. destruct Hs' as [? ? []]. split; cbn [sc1 after_chunk table pendingData hintBuf hintCount]; try done.
    exists cs. split; [|done]. change (take (d_hintCount s') (d_hintBuf s')) with (hints_of s'). by rewrite Hh'. }
  assert (d_out s' = [] -> bs = [] /\ unread (d_pending s') = []) as Hempty.
  { intros E0. unfold content in Hc'. rewrite E0 in Hc'. destruct (decide (unread (d_pending s') = [])) as [E|E]; [by rewrite <-Hc', E|].
    apply (ok_ahead s' Hs') in E. rewrite E0 in E. cbn in E. lia. }
  assert (d_out s' ≠ [] -> good_answer sc (bs ++ cs) sc1 (d_out s') None) as Hgood.
  { intros Hne. split; [done|]. split; [done|]. split; [done|]. split; [apply (ok_ahead s' Hs')|]. exists (unread (d_pending s') ++ cs). split; [|by apply Hdel].
    rewrite app_assoc. by rewrite <-Hc'. }
  destruct (d_out s') as [|o out] eqn:Eo; cbn [length Nat.ltb Nat.leb].
  2: { destruct rErr; eexists _, _, _; (split; [reflexivity|]); by apply Hgood. }
  destruct (Hempty eq_refl) as [-> Hu']. clear Hgood Hempty. destruct rErr as [e|].
  - destruct Hr as [-> Hend]. rewrite Hend in E2. injection E2 as <- ->.
    cbn [pendingData sc1 after_chunk]. pose proof (drainPending_spec size (d_pending s') (proj1 (ok_ahead s' Hs')) Hsize) as Hd.
    rewrite decide_True in Hd by done. rewrite Hd. eexists _, _, _. split; [reflexivity|]. split_and!; [done..|].
    apply Hdel. by rewrite Hu'.
  - destruct (IH sc1 cs (Hdel cs ltac:(by rewrite Hu')) Hu') as (sc2 & out & err & -> & Hg).
    { cbn [net buffered sc1 after_chunk]. lia. }
    eexists _, _, _. split; [reflexivity|]. destruct Hg as (Hrec2 & Hnet & Hg). split; [by eapply recorded_trans|].
    cbn [app]. change (net_err (net sc1)) with (net_err c') in *. rewrite He in *. done.
Qed.

(** A read delivers some of what is to be delivered, and the error of the
    network only when there is nothing more. *)
Lemma conn_Read_ok sc X :
  delivers sc X -> exists sc' out err, conn_Read sc size = Ret (sc', out, err) /\ good_answer sc X sc' out err.
Proof.
  intros Hd. pose proof Hd as [Ht Hp Hb Hc (D & HD & E)]. unfold conn_Read. rewrite (proj2 (Nat.eqb_neq size 0)) by lia. rewrite Ht.
  pose proof (drainPending_spec size (pendingData sc) Hp Hsize) as Hdr. destruct (decide (unread (pendingData sc) = [])) as [Hu|Hu].
  - rewrite Hdr. apply read_loop_ok; [done..|]. unfold read_fuel, net_size. lia.
  - destruct Hdr as (out & p' & -> & Hne & Hlen & Hun & Hp'). eexists _, _, _. split; [reflexivity|].
    split; [|split; [done|]]. { exists []. split_and!; [done..|]. cbn. destruct (recording sc), (recorder sc); cbn; by rewrite ?app_nil_r. }
    split; [done|]. split; [done|]. exists (unread p' ++ D). split; [by rewrite E, Hun, app_assoc|]. split; try done. by exists D.
Qed.
End read.

(** ** From one end to the other *)

(** The writes of one side, and what they send. *)
Fixpoint conn_Writes (sc : Conn) (script : list (nat * option string)) (ps : list (list Z)) : res (Conn * list Z) :=
  match ps with
  | [] => Ret (sc, [])
  | p :: ps =>
    '(sc, _, sent, script) ← conn_Write sc script p;
    '(sc, wire) ← conn_Writes sc script ps;
    Ret (sc, sent ++ wire)
  end.

Section reads.
  Context `{GoAppend}.

(** Reads of the given sizes, up to the first error: the bytes read. *)
Fixpoint conn_Reads (sc : Conn) (sizes : list nat) : res (Conn * list Z * option string) :=
  match sizes with
  | [] => Ret (sc, [], None)
  | size :: sizes =>
    '(sc, out, err) ← conn_Read sc size;
    match err with
    | Some e => Ret (sc, out, Some e)
    | None => '(sc, rest, err) ← conn_Reads sc sizes; Ret (sc, out ++ rest, err)
    end
  end.

Lemma conn_Writes_ok t sc script ps :
  table_ok t -> table sc = Some t -> rand_ok (rng sc) -> script_ok script -> Forall is_bytes ps ->
  exists sc' wire, conn_Writes sc script ps = Ret (sc', wire) /\ carries t wire (concat ps).
Proof.
  intros Ht Hsc Hr Hs Hps. revert sc script Hsc Hr Hs. induction Hps as [|p ps Hp Hps IH]; intros sc script Hsc Hr Hs; cbn [conn_Writes].
  - exists sc, []. split; [done|]. by exists [].
  - unfold conn_Write at 1. case_bool_decide as E; cbn [mbind res_bind].
    + subst p. destruct (IH sc script Hsc Hr Hs) as (sc' & wire & -> & Hw). by exists sc', wire.
    + rewrite Hsc. destruct (encode_ok t (rng sc) (paddingThreshold sc) p Ht Hr Hp) as (out & r & -> & Hr' & Hc). cbn [mbind res_bind].
      destruct (writeFull_ok script out Hs) as (script' & -> & Hs').
      destruct (IH (set_rng sc r) script' Hsc Hr' Hs') as (sc' & wire & E' & Hw). cbn [mbind res_bind] in *. rewrite E'.
      exists sc', (out ++ wire). split; [done|]. destruct Hc as (a & Ea & Fa), Hw as (b & Eb & Fb). exists (a ++ b).
      rewrite filter_app, Ea, Eb, concat_app. split; [done|]. cbn [concat]. by apply Forall2_app.
Qed.

Lemma conn_Reads_ok t sc sizes X :
  delivers t sc X -> Forall (fun n => (0 < n)%nat) sizes ->
  exists sc' out err, conn_Reads sc sizes = Ret (sc', out, err) /\ recorded sc sc' /\
    match err with
    | Some e => e = net_err (net sc) /\ out = X
    | None => out `prefix_of` X /\ (length sizes <= length out)%nat
    end.
Proof.
  intros Hd Hs. revert sc X Hd. induction Hs as [|size sizes Hn Hs IH]; intros sc X Hd; cbn [conn_Reads].
  - exists sc, [], None. split; [done|]. split; [apply recorded_refl|]. split; [apply prefix_nil|cbn; lia].
  - destruct (conn_Read_ok t size Hn sc X Hd) as (sc1 & out & err & -> & Hrec & Hnet & Hg). cbn [mbind res_bind]. destruct err as [e|].
    + destruct Hg as (-> & -> & -> & _). exists sc1, [], (Some (net_err (net sc))). by split_and!.
    + destruct Hg as (Hne & Hlen & X' & -> & Hd'). destruct (IH sc1 X' Hd') as (sc2 & rest & err & -> & Hrec2 & Hr). cbn [mbind res_bind].
      eexists _, _, _. split; [done|]. split; [by eapply recorded_trans|]. rewrite <-Hnet. destruct err as [e|].
      * destruct Hr as [-> ->]. done.
      * destruct Hr as [Hp Hle]. split; [by apply prefix_app|]. rewrite length_app. destruct out; [done|]. cbn [length]. lia.
Qed.

(** C26: whatever is written through a table, with any randomness and any
    probability of padding, the other side reads exactly those bytes, however
    the network cuts the stream and whatever the sizes of the reads: never
    more, never a byte that is no puzzle, all of them before the error of the
    network, and that after as many reads as there are bytes and one more.
    What it took off the wire is what it recorded. *)
Theorem sudoku_stream_exact t ps script seed pMin pMax :
  table_ok t -> Forall is_bytes ps -> script_ok script ->
  exists sc wire, conn_Writes (NewConn {| chunks := []; net_err := "EOF"; err_with_data := false |} (Some t) seed pMin pMax false) script ps = Ret (sc, wire) /\
    forall cs e flag seed' pMin' pMax' sizes,
      concat cs = wire -> Forall (fun n => (0 < n)%nat) sizes ->
      exists sc' out err,
        conn_Reads (NewConn {| chunks := cs; net_err := e; err_with_data := flag |} (Some t) seed' pMin' pMax' true) sizes = Ret (sc', out, err) /\
        (err = None /\ out `prefix_of` concat ps /\ (length sizes <= length out)%nat \/ err = Some e /\ out = concat ps) /\
        GetBufferedAndRecorded sc' ++ concat (chunks (net sc')) = wire.
Proof.
  intros Ht Hps Hs.
  destruct (conn_Writes_ok t (NewConn {| chunks := []; net_err := "EOF"; err_with_data := false |} (Some t) seed pMin pMax false) script ps Ht)
    as (sc & wire & E & Hw); [| |done..|].
  { unfold NewConn. by destruct (pickPaddingThreshold _ _ _). }
  { destruct (pickPaddingThreshold_range (newSudokuRand seed) pMin pMax (newSudokuRand_ok seed)) as (_ & _ & Hr).
    unfold NewConn. by destruct (pickPaddingThreshold _ _ _). }
  exists sc, wire. split; [done|]. intros cs e flag seed' pMin' pMax' sizes <- Hsizes.
  set (rd := NewConn _ _ seed' _ _ _).
  assert (delivers t rd (concat ps) /\ recording rd = true /\ recorder rd = Some [] /\ stream rd = concat cs /\ net_err (net rd) = e) as (Hd & Hr1 & Hr2 & Hst & He).
  { unfold rd, NewConn. destruct (pickPaddingThreshold _ _ _) as [th r]. split_and!; [|done..]. split; cbn; [done| |done|lia|].
    - unfold pending_ok. cbn. lia.
    - exists (concat ps). split; [|done]. by apply carries_decode. }
  destruct (conn_Reads_ok t rd sizes (concat ps) Hd Hsizes) as (sc' & out & err & -> & Hrec & Hres). exists sc', out, err. split; [done|]. split.
  - destruct err as [e'|]; [right; rewrite He in Hres; destruct Hres as [-> ->]; done|left; done].
  - destruct Hrec as (consumed & Hc & _ & Hrr). rewrite Hr1, Hr2 in Hrr. cbn in Hrr. rewrite <-Hst, Hc. unfold GetBufferedAndRecorded, stream.
    rewrite Hrr. cbn. destruct (buffered sc') as [|b buf]; cbn; [done|]. by rewrite <-app_assoc.
Qed.

End reads.
