(* ===== verification/SudokuPacked.v ===== *)
(** * The packed connection of the Sudoku obfuscation
    (src/transport/sudoku/obfs/sudoku/packed.go)

    The downlink may be packed: six bits of the payload to a hint byte, the
    last bits of a write filled up with zeros and followed by the padding
    marker, at which the reader drops the bits it has. *)

From S2P Require Import Prelude GoText SudokuGrid SudokuLayout SudokuTable SudokuRand SudokuConn.

Abbreviation packedProtectedPrefixBytes := 14%nat.
Abbreviation packedDecodeBufferSize := (96 * 1024).

Record PackedConn := mk_packed {
  p_table : option Table;
  p_net : Net;
  p_buffered : list Z;
  p_pending : pendingBuffer;
  bitBuf : Z;
  bitCount : Z;
  readBitBuf : Z;
  readBits : Z;
  p_rng : sudokuRand;
  p_threshold : Z;
  p_padMarker : Z;
  padPool : list Z
}.

Definition NewPackedConn (c : Net) (t : option Table) (seed pMin pMax : Z) : PackedConn :=
  let '(threshold, r) := pickPaddingThreshold (newSudokuRand seed) pMin pMax in
  let marker := match t with Some t => padMarker (layout t) | None => 0 end in
  let pool := match t with Some t => filter (fun b => b ≠ marker) (PaddingPool t) | None => [] end in
  {| p_table := t; p_net := c; p_buffered := []; p_pending := newPendingBuffer 4096; bitBuf := 0; bitCount := 0;
     readBitBuf := 0; readBits := 0; p_rng := r; p_threshold := threshold; p_padMarker := marker;
     padPool := if bool_decide (pool = []) then [marker] else pool |}.

(** ** Writing *)

(** What a write changes: the bits not yet sent, the output and the generator. *)
Record W := { w_buf : Z; w_count : Z; w_out : list Z; w_rng : sudokuRand }.

Definition w_append (w : W) (bs : list Z) (r : sudokuRand) : W :=
  {| w_buf := w_buf w; w_count := w_count w; w_out := w_out w ++ bs; w_rng := r |}.

Section write.
  (** The layout, the threshold and the pool of the connection. *)
  Variable l : byteLayout.
  Variable threshold : Z.
  Variable pool : list Z.

Definition maybeAppendPackedPadding (w : W) : res W :=
  if threshold =? 0 then Ret w
  else
    let '(u, r) := Uint32 (w_rng w) in
    if u <? threshold then
      let '(v, r) := Uint32 r in
      pad ← go_index pool (fastIntnFromUint32 v (zlen pool));
      Ret (w_append w [pad] r)
    else Ret (w_append w [] r).

Definition appendPackedGroup (w : W) (group : Z) : res W :=
  w ← maybeAppendPackedPadding w;
  Ret (w_append w [nth (Z.to_nat (Z.land group 0x3F)) (encodeGroup l) 0] (w_rng w)).

Definition appendForcedPadding (w : W) : res W :=
  '(pad, r) ← choose pool (w_rng w); Ret (w_append w [pad] r).

(** The groups of six bits of what is buffered. *)
Fixpoint drain_bits (fuel : nat) (w : W) : res W :=
  if w_count w <? 6 then Ret w
  else match fuel with
       | O => Panic
       | S fuel =>
         let count := w_count w - 6 in
         let group := u8 (Z.shiftr (w_buf w) count) in
         let buf := if count =? 0 then 0 else Z.land (w_buf w) (u64 (Z.shiftl 1 count) - 1) in
         w ← appendPackedGroup {| w_buf := buf; w_count := count; w_out := w_out w; w_rng := w_rng w |} group;
         drain_bits fuel w
       end.

(** One byte of the payload: at most two groups. *)
Definition push_byte (w : W) (b : Z) : res W :=
  drain_bits 3 {| w_buf := Z.lor (u64 (Z.shiftl (w_buf w) 8)) b; w_count := w_count w + 8; w_out := w_out w; w_rng := w_rng w |}.

(** [for padCount := 0; padCount < 1+pc.rng.Intn(2); padCount++]: the bound is
    drawn anew at each turn. *)
Fixpoint forced_pads (fuel : nat) (padCount : Z) (w : W) : res W :=
  let '(k, r) := Intn (w_rng w) 2 in
  let w := w_append w [] r in
  if padCount <? 1 + k then
    match fuel with
    | O => Panic
    | S fuel => w ← appendForcedPadding w; forced_pads fuel (padCount + 1) w
    end
  else Ret w.

Definition nextProtectedPrefixGap (w : W) : Z * W :=
  let '(k, r) := Intn (w_rng w) 2 in (1 + k, w_append w [] r).

Fixpoint prefix_bytes (w : W) (gap effective : Z) (p : list Z) : res W :=
  match p with
  | [] => Ret w
  | b :: p =>
    w ← push_byte w b;
    let effective := effective + 1 in
    if gap <=? effective then
      w ← appendForcedPadding w;
      let '(gap, w) := nextProtectedPrefixGap w in
      prefix_bytes w gap 0 p
    else prefix_bytes w gap effective p
  end.

Definition writeProtectedPrefix (w : W) (p : list Z) : res (W * nat) :=
  if bool_decide (p = []) then Ret (w, 0%nat)
  else
    let limit := Nat.min (length p) packedProtectedPrefixBytes in
    w ← forced_pads 2 0 w;
    let '(gap, w) := nextProtectedPrefixGap w in
    w ← prefix_bytes w gap 0 (take limit p);
    Ret (w, limit).

(** [for pc.bitCount > 0 && i < n] *)
Fixpoint align_loop (w : W) (p : list Z) : res (W * list Z) :=
  if 0 <? w_count w then
    match p with
    | [] => Ret (w, [])
    | b :: p => w ← push_byte w b; align_loop w p
    end
  else Ret (w, p).

(** Three bytes as four groups, without the bit buffer. *)
Definition push_three (w : W) (p : list Z) : res (W * list Z) :=
  match p with
  | b1 :: b2 :: b3 :: rest =>
    let g1 := Z.land (Z.shiftr b1 2) 0x3F in
    let g2 := Z.lor (u8 (Z.shiftl (Z.land b1 0x03) 4)) (Z.land (Z.shiftr b2 4) 0x0F) in
    let g3 := Z.lor (u8 (Z.shiftl (Z.land b2 0x0F) 2)) (Z.land (Z.shiftr b3 6) 0x03) in
    let g4 := Z.land b3 0x3F in
    w ← appendPackedGroup w g1;
    w ← appendPackedGroup w g2;
    w ← appendPackedGroup w g3;
    w ← appendPackedGroup w g4;
    Ret (w, rest)
  | _ => Panic
  end.

(** [for i+11 < n], four times three bytes at a turn. *)
Fixpoint batch_loop (fuel : nat) (w : W) (p : list Z) : res (W * list Z) :=
  if (11 <? length p)%nat then
    match fuel with
    | O => Panic
    | S fuel =>
      '(w, p) ← push_three w p;
      '(w, p) ← push_three w p;
      '(w, p) ← push_three w p;
      '(w, p) ← push_three w p;
      batch_loop fuel w p
    end
  else Ret (w, p).

(** [for i+2 < n] *)
Fixpoint triple_loop (fuel : nat) (w : W) (p : list Z) : res (W * list Z) :=
  if (2 <? length p)%nat then
    match fuel with
    | O => Panic
    | S fuel => '(w, p) ← push_three w p; triple_loop fuel w p
    end
  else Ret (w, p).

Fixpoint tail_loop (w : W) (p : list Z) : res W :=
  match p with
  | [] => Ret w
  | b :: p => w ← push_byte w b; tail_loop w p
  end.

(** The last bits of a write, and the marker. *)
Definition flush_bits (marker : Z) (w : W) : res W :=
  if 0 <? w_count w then
    let group := u8 (Z.shiftl (w_buf w) (6 - w_count w)) in
    w ← appendPackedGroup {| w_buf := 0; w_count := 0; w_out := w_out w; w_rng := w_rng w |} group;
    Ret (w_append w [marker] (w_rng w))
  else Ret w.

Definition packed_encode (marker : Z) (w : W) (p : list Z) : res W :=
  '(w, prefixN) ← writeProtectedPrefix w p;
  '(w, p) ← align_loop w (drop prefixN p);
  '(w, p) ← batch_loop (length p) w p;
  '(w, p) ← triple_loop (length p) w p;
  w ← tail_loop w p;
  w ← flush_bits marker w;
  maybeAppendPackedPadding w.
End write.

Definition after_write (pc : PackedConn) (w : W) : PackedConn :=
  {| p_table := p_table pc; p_net := p_net pc; p_buffered := p_buffered pc; p_pending := p_pending pc; bitBuf := w_buf w;
     bitCount := w_count w; readBitBuf := readBitBuf pc; readBits := readBits pc; p_rng := w_rng w; p_threshold := p_threshold pc;
     p_padMarker := p_padMarker pc; padPool := padPool pc |}.

Definition w_start (pc : PackedConn) : W :=
  {| w_buf := bitBuf pc; w_count := bitCount pc; w_out := []; w_rng := p_rng pc |}.

(** The table of a connection that is open for writing. *)
Definition open_table (pc : PackedConn) : option Table := if bool_decide (padPool pc = []) then None else p_table pc.

Definition packed_Write (pc : PackedConn) (script : list (nat * option string)) (p : list Z) :
  res (PackedConn * (Z * option string) * list Z * list (nat * option string)) :=
  if bool_decide (p = []) then Ret (pc, (0, None), [], script)
  else match open_table pc with
       | None => Ret (pc, (0, Some ErrClosedPipe), [], script)
       | Some t =>
         w ← packed_encode (layout t) (p_threshold pc) (padPool pc) (p_padMarker pc) (w_start pc) p;
         let '(sent, err, script) := writeFull script (w_out w) in
         Ret (after_write pc w, (zlen p, err), sent, script)
       end.

Definition packed_Flush (pc : PackedConn) (script : list (nat * option string)) :
  res (PackedConn * option string * list Z * list (nat * option string)) :=
  match open_table pc with
  | None => Ret (pc, Some ErrClosedPipe, [], script)
  | Some t =>
    let w := w_start pc in
    let w :=
      if 0 <? w_count w then
        let group := u8 (Z.shiftl (w_buf w) (6 - w_count w)) in
        {| w_buf := 0; w_count := 0; w_out := [groupByte (layout t) (Z.land group 0x3F); p_padMarker pc]; w_rng := w_rng w |}
      else w in
    w ← maybeAppendPackedPadding (p_threshold pc) (padPool pc) w;
    let '(sent, err, script) := writeFull script (w_out w) in
    Ret (after_write pc w, err, sent, script)
  end.

(** ** Reading *)

Definition packedReadSize (decodedRemaining maxRaw : Z) : Z :=
  if (maxRaw <=? minDecodeReadSize) || (decodedRemaining <=? 0) then maxRaw
  else if (maxRaw - minDecodeReadSize) / 2 <? decodedRemaining then maxRaw
  else decodedRemaining * 2 + minDecodeReadSize.

Record PDec := { rBuf : Z; rBits : Z; r_out : list Z; r_pending : pendingBuffer }.

Section read.
  Context `{GoAppend}.

(** One byte of the wire; the answer is whether it carries a group. *)
Definition packed_byte (l : byteLayout) (marker : Z) (size : nat) (s : PDec) (b : Z) : PDec * bool :=
  if negb (isHint l b) then
    (if b =? marker then {| rBuf := 0; rBits := 0; r_out := r_out s; r_pending := r_pending s |} else s, true)
  else
    let '(group, ok) := decodePackedGroup l b in
    if negb ok then (s, false)
    else
      let buf := Z.lor (u64 (Z.shiftl (rBuf s) 6)) group in
      let bits := rBits s + 6 in
      if 8 <=? bits then
        let bits := bits - 8 in
        let val := u8 (Z.shiftr buf bits) in
        let '(out, pending) := appendDecodedByte size (r_out s) (r_pending s) val in
        ({| rBuf := if bits =? 0 then 0 else Z.land buf (u64 (Z.shiftl 1 bits) - 1); rBits := bits; r_out := out; r_pending := pending |}, true)
      else ({| rBuf := buf; rBits := bits; r_out := r_out s; r_pending := r_pending s |}, true).

(** Four groups as three bytes. *)
Definition three_bytes (g1 g2 g3 g4 : Z) : list Z :=
  [Z.lor (u8 (Z.shiftl g1 2)) (Z.shiftr g2 4); Z.lor (u8 (Z.shiftl g2 4)) (Z.shiftr g3 2); Z.lor (u8 (Z.shiftl g3 6)) g4].

Fixpoint packed_chunk (l : byteLayout) (marker : Z) (size : nat) (s : PDec) (chunk : list Z) : PDec * bool :=
  match chunk with
  | [] => (s, true)
  | b0 :: rest =>
    match rest with
    | b1 :: b2 :: b3 :: rest' =>
      if (rBits s =? 0) && (length (r_out s) + 3 <=? size)%nat && isHint l b0 && isHint l b1 && isHint l b2 && isHint l b3
      then
        let group b := (decodePackedGroup l b).1 in
        packed_chunk l marker size {| rBuf := rBuf s; rBits := rBits s;
          r_out := r_out s ++ three_bytes (group b0) (group b1) (group b2) (group b3); r_pending := r_pending s |} rest'
      else let '(s, ok) := packed_byte l marker size s b0 in if ok then packed_chunk l marker size s rest else (s, false)
    | _ => let '(s, ok) := packed_byte l marker size s b0 in if ok then packed_chunk l marker size s rest else (s, false)
    end
  end.

Definition packed_after (pc : PackedConn) (c : Net) (buf : list Z) (bits : Z * Z) (pending : pendingBuffer) : PackedConn :=
  {| p_table := p_table pc; p_net := c; p_buffered := buf; p_pending := pending; bitBuf := bitBuf pc; bitCount := bitCount pc;
     readBitBuf := bits.1; readBits := bits.2; p_rng := p_rng pc; p_threshold := p_threshold pc; p_padMarker := p_padMarker pc;
     padPool := padPool pc |}.

Fixpoint packed_read_loop (fuel : nat) (t : Table) (size : nat) (pc : PackedConn) (out : list Z) :
  res (PackedConn * list Z * option string) :=
  match fuel with
  | O => Panic
  | S fuel =>
    let n := Z.to_nat (packedReadSize (Z.of_nat size - zlen out) packedDecodeBufferSize) in
    let '(chunk, rErr, c, buf) := readRawLimited (p_net pc) (p_buffered pc) n in
    let '(s, ok) := packed_chunk (layout t) (p_padMarker pc) size
      {| rBuf := readBitBuf pc; rBits := readBits pc; r_out := out; r_pending := p_pending pc |} chunk in
    if negb ok then
      Ret (packed_after pc c buf (readBitBuf pc, readBits pc) (r_pending s), [], Some ErrInvalidSudokuMapMiss)
    else
      let eof := match rErr with Some e => bool_decide (e = "EOF"%string) | None => false end in
      let pc := packed_after pc c buf (if eof then (0, 0) else (rBuf s, rBits s)) (r_pending s) in
      match rErr with
      | Some e =>
        if (0 <? length (r_out s))%nat then Ret (pc, r_out s, None)
        else match drainPending size (p_pending pc) with
             | (Some drained, p) => Ret (packed_after pc c buf (readBitBuf pc, readBits pc) p, drained, None)
             | (None, _) => Ret (pc, [], Some e)
             end
      | None => if (0 <? length (r_out s))%nat then Ret (pc, r_out s, None) else packed_read_loop fuel t size pc (r_out s)
      end
  end.

Definition packed_fuel (pc : PackedConn) : nat :=
  S (S (length (p_buffered pc) + length (concat (chunks (p_net pc))) + length (chunks (p_net pc)))).

Definition packed_Read (pc : PackedConn) (size : nat) : res (PackedConn * list Z * option string) :=
  if (size =? 0)%nat then Ret (pc, [], None)
  else match p_table pc with
       | None => Ret (pc, [], Some ErrClosedPipe)
       | Some t =>
         match drainPending size (p_pending pc) with
         | (Some drained, p) => Ret (packed_after pc (p_net pc) (p_buffered pc) (readBitBuf pc, readBits pc) p, drained, None)
         | (None, _) => packed_read_loop (packed_fuel pc) t size pc []
         end
       end.
End read.
