(* ===== verification/SudokuPackedStream.v ===== *)
(** * The packed connection delivers what was written

    The bits that a writer keeps back and those that a reader has got of the
    same byte make up that byte, after every byte of a write; at its end the
    marker has both start again. *)

From S2P Require Import Prelude GoText SudokuGrid SudokuLayout SudokuTable SudokuRand SudokuConn SudokuStream SudokuPacked.

(** ** Bits as numbers *)

Lemma lor_shl a b k : 0 <= k <= 8 -> 0 <= a < 2 ^ 40 -> 0 <= b < 2 ^ k -> Z.lor (u64 (Z.shiftl a k)) b = a * 2 ^ k + b.
Proof.
  intros Hk Ha Hb. assert (2 ^ k <= 2 ^ 8) by (apply Z.pow_le_mono_r; lia). unfold u64. rewrite Z.mod_small.
  - rewrite Z.lor_comm, lor_shiftl by lia. lia.
  - rewrite Z.shiftl_mul_pow2 by lia. nia.
Qed.

Lemma land_low x k : 0 <= k < 64 -> Z.land x (u64 (Z.shiftl 1 k) - 1) = x mod 2 ^ k.
Proof.
  intros Hk. rewrite Z.shiftl_1_l. unfold u64. rewrite Z.mod_small.
  - rewrite <-Z.land_ones, Z.ones_equiv by lia. by rewrite Z.sub_1_r.
  - split; [lia|]. apply Z.pow_lt_mono_r; lia.
Qed.

Lemma land_const x k m : 0 <= k -> m = Z.ones k -> Z.land x m = x mod 2 ^ k.
Proof. intros Hk ->. by apply Z.land_ones. Qed.

Ltac div_lia := Z.div_mod_to_equations; lia.

(** ** What a wire means *)

Section layout.
  Variable l : byteLayout.
  Variable marker : Z.
  Hypothesis Hl : layout_ok l.
  Hypothesis Hm : is_u8 marker /\ isHint l marker = false.

(** A group after the bits [s]: the byte that becomes complete, and the bits. *)
Definition group_step (s : Z * Z) (g : Z) : list Z * (Z * Z) :=
  let buf := Z.lor (u64 (Z.shiftl s.1 6)) g in
  let bits := s.2 + 6 in
  if 8 <=? bits then
    let bits := bits - 8 in
    ([u8 (Z.shiftr buf bits)], (if bits =? 0 then 0 else Z.land buf (u64 (Z.shiftl 1 bits) - 1), bits))
  else ([], (buf, bits)).

Definition pd_step (s : Z * Z) (b : Z) : list Z * (Z * Z) :=
  if isHint l b then group_step s (decodePackedGroup l b).1
  else if b =? marker then ([], (0, 0)) else ([], s).

Fixpoint pd_run (s : Z * Z) (wire : list Z) : list Z * (Z * Z) :=
  match wire with
  | [] => ([], s)
  | b :: wire => let '(o, s) := pd_step s b in let '(os, s) := pd_run s wire in (o ++ os, s)
  end.

Lemma pd_run_app s a b :
  pd_run s (a ++ b) = let '(o, s) := pd_run s a in let '(os, s) := pd_run s b in (o ++ os, s).
Proof.
  revert s. induction a as [|x a IH]; intros s; cbn.
  - by destruct (pd_run s b).
  - destruct (pd_step s x) as [o s1]. rewrite IH. destruct (pd_run s1 a) as [o2 s2]. destruct (pd_run s2 b) as [o3 s3].
    by rewrite app_assoc.
Qed.

(** The bits a reader may have. *)
Definition bits_ok (s : Z * Z) : Prop := (s.2 = 0 \/ s.2 = 2 \/ s.2 = 4 \/ s.2 = 6) /\ 0 <= s.1 < 2 ^ s.2.

Lemma step_0 buf g : buf = 0 -> 0 <= g < 64 -> group_step (buf, 0) g = ([], (g, 6)).
Proof. intros -> Hg. unfold group_step. cbn [fst snd]. rewrite lor_shl by lia. done. Qed.

Lemma step_2 buf g : 0 <= buf < 4 -> 0 <= g < 64 -> group_step (buf, 2) g = ([buf * 64 + g], (0, 0)).
Proof.
  intros Hb Hg. unfold group_step. cbn [fst snd]. rewrite lor_shl by lia. cbn [Z.add Z.sub Z.leb Z.eqb Z.compare Pos.compare Pos.compare_cont].
  cbn -[Z.mul Z.shiftr u8]. rewrite Z.shiftr_0_r, u8_id; [done|unfold is_u8; lia].
Qed.

Lemma step_4 buf g : 0 <= buf < 16 -> 0 <= g < 64 -> group_step (buf, 4) g = ([buf * 16 + g / 4], (g mod 4, 2)).
Proof.
  intros Hb Hg. unfold group_step. cbn [fst snd]. rewrite lor_shl by lia. change (4 + 6) with 10. change (8 <=? 10) with true.
  change (10 - 8) with 2. change (2 =? 0) with false. cbv iota. cbv zeta. rewrite land_low, Z.shiftr_div_pow2 by lia.
  change (2 ^ 6) with 64. change (2 ^ 2) with 4.
  assert ((buf * 64 + g) / 4 = buf * 16 + g / 4) as -> by div_lia. assert ((buf * 64 + g) mod 4 = g mod 4) as -> by div_lia.
  rewrite u8_id; [done|]. unfold is_u8. div_lia.
Qed.

Lemma step_6 buf g : 0 <= buf < 64 -> 0 <= g < 64 -> group_step (buf, 6) g = ([buf * 4 + g / 16], (g mod 16, 4)).
Proof.
  intros Hb Hg. unfold group_step. cbn [fst snd]. rewrite lor_shl by lia. change (6 + 6) with 12. change (8 <=? 12) with true.
  change (12 - 8) with 4. change (4 =? 0) with false. cbv iota. cbv zeta. rewrite land_low, Z.shiftr_div_pow2 by lia.
  change (2 ^ 6) with 64. change (2 ^ 4) with 16.
  assert ((buf * 64 + g) / 16 = buf * 4 + g / 16) as -> by div_lia. assert ((buf * 64 + g) mod 16 = g mod 16) as -> by div_lia.
  rewrite u8_id; [done|]. unfold is_u8. div_lia.
Qed.

Lemma group_step_ok s g : bits_ok s -> 0 <= g < 64 -> bits_ok (group_step s g).2.
Proof.
  destruct s as [buf bits]. intros [Hb Hr] Hg. cbn [fst snd] in Hb, Hr.
  destruct Hb as [->|[->|[->| ->]]]; [rewrite step_0|rewrite step_2|rewrite step_4|rewrite step_6]; try lia; cbn [fst snd]; split; cbn [fst snd]; try lia; div_lia.
Qed.

Lemma pd_step_ok s b : bits_ok s -> is_u8 b -> bits_ok (pd_step s b).2.
Proof.
  intros Hs Hb. unfold pd_step. destruct (isHint l b) eqn:E.
  - destruct (ok_valid l Hl b Hb E) as (g & -> & Hg). by apply group_step_ok.
  - destruct (b =? marker); [|done]. split; cbn; lia.
Qed.
(** ** Writing *)

Section write.
  Variable threshold : Z.
  Variable pool : list Z.
  Hypothesis Hpool : pool ≠ [] /\ zlen pool <= 2 ^ 32 /\ Forall (fun b => is_u8 b /\ isHint l b = false /\ b ≠ marker) pool.

(** The generator and the output of a write in progress, and what a reader makes
    of the output. *)
Definition wire_is (w : W) (D : list Z) (s : Z * Z) : Prop :=
  rand_ok (w_rng w) /\ is_bytes (w_out w) /\ pd_run (0, 0) (w_out w) = (D, s).

Lemma wire_is_app w bs r o s D s' :
  wire_is w D s -> rand_ok r -> is_bytes bs -> pd_run s bs = (o, s') -> wire_is (w_append w bs r) (D ++ o) s'.
Proof.
  intros (Hr & Hb & E) Hr' Hbs Eb. unfold wire_is, w_append. cbn [w_rng w_out]. split; [done|]. split; [by apply Forall_app|].
  by rewrite pd_run_app, E, Eb.
Qed.

Lemma wire_is_rng w r D s : wire_is w D s -> rand_ok r -> wire_is (w_append w [] r) D s.
Proof. intros Hw Hr. rewrite <-(app_nil_r D). by apply (wire_is_app _ _ _ _ s); [..|constructor|]. Qed.

Lemma pad_run s b : b ∈ pool -> is_bytes [b] /\ pd_run s [b] = ([], s).
Proof.
  destruct Hpool as (_ & _ & HF). rewrite Forall_forall in HF. intros (Hb & Hi & Hne)%HF. split; [by constructor|].
  cbn. unfold pd_step. rewrite Hi. by rewrite (proj2 (Z.eqb_neq b marker)).
Qed.

Lemma pad_kept w b r D s : wire_is w D s -> rand_ok r -> b ∈ pool -> wire_is (w_append w [b] r) D s.
Proof. intros Hw Hr Hb. destruct (pad_run s b Hb). rewrite <-(app_nil_r D). by apply (wire_is_app _ _ _ _ s). Qed.

(** [w'] is [w] with more output, that means [o] to the reader. *)
Definition extends (w w' : W) (D : list Z) (s : Z * Z) : Prop :=
  w_buf w' = w_buf w /\ w_count w' = w_count w /\ wire_is w' D s.

Lemma padding_ok w D s :
  wire_is w D s -> exists w', maybeAppendPackedPadding threshold pool w = Ret w' /\ extends w w' D s.
Proof.
  intros Hw. unfold maybeAppendPackedPadding. destruct (threshold =? 0); [by exists w|].
  destruct (Uint32_ok (w_rng w) ltac:(apply Hw)) as [Hu Hr]. destruct (Uint32 (w_rng w)) as [u r]. cbn [fst snd] in *.
  destruct (u <? threshold); [|eexists; split; [done|]; split_and!; [done..|by apply wire_is_rng]].
  destruct (Uint32_ok r Hr) as [Hv Hr']. destruct (Uint32 r) as [v r']. cbn [fst snd] in *.
  pose proof Hpool as (Hne & Hlen & _). assert (0 < zlen pool) as Hpos by (destruct pool; [done|unfold zlen; cbn; lia]).
  pose proof (fastIntn_range v (zlen pool) Hv ltac:(lia)) as Hi. unfold go_index. rewrite (proj2 (Z.leb_le 0 _)) by lia.
  destruct (lookup_lt_is_Some_2 pool (Z.to_nat (fastIntnFromUint32 v (zlen pool)))) as [pad Hpad]; [unfold zlen in *; lia|].
  rewrite Hpad. cbn [mbind res_bind]. eexists. split; [done|]. split_and!; [done..|]. apply pad_kept; [done..|]. by apply list_elem_of_lookup_2 in Hpad.
Qed.

Lemma group_run s g : 0 <= g < 64 ->
  let b := nth (Z.to_nat g) (encodeGroup l) 0 in is_bytes [b] /\ pd_run s [b] = group_step s g.
Proof.
  intros Hg b. destruct (ok_group l Hl g Hg) as (Hb & Hi & Hd). fold b in Hb, Hi, Hd. split; [by constructor|].
  cbn [pd_run]. unfold pd_step. rewrite Hi, Hd. cbn [fst]. destruct (group_step s g). by rewrite app_nil_r.
Qed.

(** A group reaches the reader. *)
Lemma append_group_ok w group D s :
  wire_is w D s ->
  let g := group mod 64 in
  exists w', appendPackedGroup l threshold pool w group = Ret w' /\ extends w w' (D ++ (group_step s g).1) (group_step s g).2.
Proof.
  intros Hw g. unfold appendPackedGroup. destruct (padding_ok w D s Hw) as (w1 & -> & Hb1 & Hc1 & Hw1). cbn [mbind res_bind].
  eexists. split; [done|]. split_and!; [done..|]. rewrite (land_const _ 6) by (done || lia). change (2 ^ 6) with 64. fold g.
  destruct (group_run s g ltac:(unfold g; div_lia)) as [Hbs Hr]. apply (wire_is_app _ _ _ _ s); [done|apply Hw1|done|]. rewrite Hr. by destruct (group_step s g).
Qed.

Lemma forced_ok w D s : wire_is w D s -> exists w', appendForcedPadding pool w = Ret w' /\ extends w w' D s.
Proof.
  intros Hw. unfold appendForcedPadding. destruct Hpool as (Hne & Hlen & _).
  destruct (choose_ok pool (w_rng w) ltac:(apply Hw) Hne ltac:(lia)) as (pad & r & -> & Hin & Hr). cbn [mbind res_bind].
  eexists. split; [done|]. split_and!; [done..|]. by apply pad_kept.
Qed.

(** The bits that the writer keeps, and those that the reader has got, after
    the bytes [written]. *)
Inductive link : Z -> Z -> Z * Z -> list Z -> list Z -> Prop :=
  | link_0 D : link 0 0 (0, 0) D D
  | link_2 wb rb D : 0 <= wb < 4 -> 0 <= rb < 64 -> link wb 2 (rb, 6) D (D ++ [rb * 4 + wb])
  | link_4 wb rb D : 0 <= wb < 16 -> 0 <= rb < 16 -> link wb 4 (rb, 4) D (D ++ [rb * 16 + wb]).

Definition winv (w : W) (written : list Z) : Prop :=
  exists D s, wire_is w D s /\ link (w_buf w) (w_count w) s D written.

Lemma winv_extends w w' D s written :
  extends w w' D s -> link (w_buf w) (w_count w) s D written -> winv w' written.
Proof. intros (Hb & Hc & Hw) Hlink. exists D, s. by rewrite Hb, Hc. Qed.

(** A turn of the loop that sends groups. *)
Lemma drain_step fuel w D s :
  wire_is w D s -> 6 <= w_count w < 64 -> 0 <= w_buf w ->
  let g := (w_buf w / 2 ^ (w_count w - 6)) mod 64 in
  exists w1, drain_bits l threshold pool (S fuel) w = drain_bits l threshold pool fuel w1 /\
    w_buf w1 = w_buf w mod 2 ^ (w_count w - 6) /\ w_count w1 = w_count w - 6 /\
    wire_is w1 (D ++ (group_step s g).1) (group_step s g).2.
Proof.
  intros Hw Hc Hb g. cbn [drain_bits]. rewrite (proj2 (Z.ltb_ge _ _)) by lia.
  set (w0 := Build_W _ _ _ _). set (group := u8 _).
  destruct (append_group_ok w0 group D s Hw) as (w1 & -> & Hb1 & Hc1 & Hw1). cbn [mbind res_bind]. exists w1. split; [done|].
  assert (group mod 64 = g) as Eg.
  { unfold group, g, u8. rewrite Z.shiftr_div_pow2 by lia. change (2 ^ 8) with (64 * 4).
    rewrite Z.rem_mul_r by lia. rewrite (Z.mul_comm 64 _), Z.mod_add by lia. apply Z.mod_mod. lia. }
  rewrite Eg in Hw1. split; [|by split]. rewrite Hb1. cbn [w0 w_buf].
  destruct (w_count w - 6 =? 0) eqn:E; [apply Z.eqb_eq in E; rewrite E; symmetry; apply Z.mod_1_r|]. apply land_low. lia.
Qed.

Lemma drain_done fuel w : w_count w < 6 -> drain_bits l threshold pool fuel w = Ret w.
Proof. intros H. destruct fuel; cbn [drain_bits]; by rewrite (proj2 (Z.ltb_lt _ _)). Qed.

(** Every byte keeps the two sides linked. *)
Lemma push_byte_ok w written b :
  winv w written -> is_u8 b -> exists w', push_byte l threshold pool w b = Ret w' /\ winv w' (written ++ [b]).
Proof.
  unfold is_u8. change (2 ^ 8) with 256. intros (D & s & Hw & Hlink) Hb. unfold push_byte. set (w0 := Build_W _ _ _ _).
  assert (wire_is w0 D s) as Hw0 by done. destruct w as [wb wc out r]. cbn [w_buf w_count w_out w_rng] in *.
  inversion Hlink as [D' E1 E2 E3 E4 E5|wb' rb D' Hwb Hrb E1 E2 E3 E4 E5|wb' rb D' Hwb Hrb E1 E2 E3 E4 E5]; subst.
  - assert (w_buf w0 = b) as Eb by (cbn [w0 w_buf]; rewrite lor_shl by lia; lia).
    destruct (drain_step 2 w0 _ _ Hw0) as (w1 & -> & Hb1 & Hc1 & Hw1); [cbn; lia|lia|]. rewrite Eb in *. cbn [w0 w_count] in Hb1, Hc1, Hw1.
    change (2 ^ (0 + 8 - 6)) with 4 in *. rewrite drain_done by lia. exists w1. split; [done|].
    rewrite (Z.mod_small (b / 4)), step_0 in Hw1 by div_lia. cbn [fst snd] in Hw1. rewrite app_nil_r in Hw1.
    exists written, (b / 4, 6). split; [done|]. rewrite Hb1, Hc1. replace b with (b / 4 * 4 + b mod 4) at 3 by div_lia. apply link_2; div_lia.
  - assert (w_buf w0 = wb * 256 + b) as Eb by (cbn [w0 w_buf]; rewrite lor_shl by lia; lia).
    destruct (drain_step 2 w0 _ _ Hw0) as (w1 & -> & Hb1 & Hc1 & Hw1); [cbn; lia|lia|]. rewrite Eb in *. cbn [w0 w_count] in Hb1, Hc1, Hw1.
    change (2 ^ (2 + 8 - 6)) with 16 in *. rewrite drain_done by lia. exists w1. split; [done|].
    rewrite (Z.mod_small (_ / 16)), step_6 in Hw1 by div_lia. cbn [fst snd] in Hw1.
    assert (rb * 4 + (wb * 256 + b) / 16 / 16 = rb * 4 + wb) as E1 by div_lia.
    assert (((wb * 256 + b) / 16) mod 16 = b / 16) as E2 by div_lia. rewrite E1, E2 in Hw1.
    exists (D ++ [rb * 4 + wb]), (b / 16, 4). split; [done|]. rewrite Hb1, Hc1.
    replace ((wb * 256 + b) mod 16) with (b mod 16) by div_lia. replace b with (b / 16 * 16 + b mod 16) at 3 by div_lia. apply link_4; div_lia.
  - assert (w_buf w0 = wb * 256 + b) as Eb by (cbn [w0 w_buf]; rewrite lor_shl by lia; lia).
    destruct (drain_step 2 w0 _ _ Hw0) as (w1 & -> & Hb1 & Hc1 & Hw1); [cbn; lia|lia|]. rewrite Eb in *. cbn [w0 w_count] in Hb1, Hc1, Hw1.
    change (2 ^ (4 + 8 - 6)) with 64 in *. rewrite (Z.mod_small (_ / 64)), step_4 in Hw1 by div_lia. cbn [fst snd] in Hw1.
    assert (rb * 16 + (wb * 256 + b) / 64 / 4 = rb * 16 + wb) as E1 by div_lia.
    assert (((wb * 256 + b) / 64) mod 4 = b / 64) as E2 by div_lia. rewrite E1, E2 in Hw1.
    destruct (drain_step 1 w1 _ _ Hw1) as (w2 & -> & Hb2 & Hc2 & Hw2); [lia|rewrite Hb1; div_lia|].
    rewrite Hc1, Hb1 in *. change (2 ^ (4 + 8 - 6 - 6)) with 1 in *. rewrite Z.div_1_r, Z.mod_1_r, Z.mod_mod in * by lia.
    rewrite step_2 in Hw2 by div_lia. cbn [fst snd] in Hw2. rewrite drain_done by lia. exists w2. split; [done|].
    assert (b / 64 * 64 + (wb * 256 + b) mod 64 = b) as E3 by div_lia. rewrite E3 in Hw2.
    exists ((D ++ [rb * 16 + wb]) ++ [b]), (0, 0). split; [done|]. rewrite Hb2, Hc2. apply link_0.
Qed.
(** Four groups make the three bytes. *)
Lemma four_groups b1 b2 b3 :
  is_u8 b1 -> is_u8 b2 -> is_u8 b3 ->
  let g1 := Z.land (Z.shiftr b1 2) 0x3F in
  let g2 := Z.lor (u8 (Z.shiftl (Z.land b1 0x03) 4)) (Z.land (Z.shiftr b2 4) 0x0F) in
  let g3 := Z.lor (u8 (Z.shiftl (Z.land b2 0x0F) 2)) (Z.land (Z.shiftr b3 6) 0x03) in
  let g4 := Z.land b3 0x3F in
  g1 = b1 / 4 /\ g2 = b1 mod 4 * 16 + b2 / 16 /\ g3 = b2 mod 16 * 4 + b3 / 64 /\ g4 = b3 mod 64.
Proof.
  unfold is_u8. change (2 ^ 8) with 256. intros H1 H2 H3. cbv zeta.
  rewrite (land_const _ 6 0x3F), (land_const b1 2), (land_const (Z.shiftr b2 4) 4), (land_const b2 4), (land_const (Z.shiftr b3 6) 2), (land_const b3 6)
    by (done || lia).
  rewrite !Z.shiftr_div_pow2 by lia. change (2 ^ 2) with 4. change (2 ^ 4) with 16. change (2 ^ 6) with 64.
  assert (forall a b k, 0 <= k <= 8 -> 0 <= a -> a * 2 ^ k < 256 -> 0 <= b < 2 ^ k -> Z.lor (u8 (Z.shiftl a k)) b = a * 2 ^ k + b) as Hor.
  { intros a b k Hk Ha Hak Hb. rewrite u8_id by (unfold is_u8; rewrite Z.shiftl_mul_pow2 by lia; lia).
    rewrite Z.lor_comm, lor_shiftl by lia. lia. }
  rewrite !Hor by div_lia. change (2 ^ 2) with 4. change (2 ^ 4) with 16. split_and!; div_lia.
Qed.

Lemma push_three_ok w written b1 b2 b3 rest :
  winv w written -> w_count w = 0 -> is_u8 b1 -> is_u8 b2 -> is_u8 b3 ->
  exists w', push_three l threshold pool w (b1 :: b2 :: b3 :: rest) = Ret (w', rest) /\ winv w' (written ++ [b1; b2; b3]) /\ w_count w' = 0.
Proof.
  intros (D & s & Hw & Hlink) H0 H1 H2 H3. destruct (four_groups b1 b2 b3 H1 H2 H3) as (E1 & E2 & E3 & E4). unfold is_u8 in H1, H2, H3.
  inversion Hlink as [D' F1 F2 F3 F4|? ? ? ? ? F1 F2|? ? ? ? ? F1 F2]; [|lia..]. subst. cbn [push_three]. cbv zeta. rewrite E1, E2, E3, E4.
  destruct (append_group_ok w (b1 / 4) written (0, 0) Hw) as (w1 & -> & Hb1 & Hc1 & Hw1). cbn [mbind res_bind].
  rewrite (Z.mod_small (b1 / 4)), step_0 in Hw1 by div_lia. cbn [fst snd] in Hw1.
  destruct (append_group_ok w1 (b1 mod 4 * 16 + b2 / 16) _ _ Hw1) as (w2 & -> & Hb2 & Hc2 & Hw2). cbn [mbind res_bind].
  rewrite (Z.mod_small (_ + b2 / 16)), step_6 in Hw2 by div_lia. cbn [fst snd] in Hw2.
  destruct (append_group_ok w2 (b2 mod 16 * 4 + b3 / 64) _ _ Hw2) as (w3 & -> & Hb3 & Hc3 & Hw3). cbn [mbind res_bind].
  rewrite (Z.mod_small (_ + b3 / 64)), step_4 in Hw3 by div_lia. cbn [fst snd] in Hw3.
  destruct (append_group_ok w3 (b3 mod 64) _ _ Hw3) as (w4 & -> & Hb4 & Hc4 & Hw4). cbn [mbind res_bind].
  rewrite Z.mod_mod, step_2 in Hw4 by div_lia. cbn [fst snd] in Hw4.
  exists w4. split; [done|]. split; [|congruence].
  assert (b1 / 4 * 4 + (b1 mod 4 * 16 + b2 / 16) / 16 = b1) as G1 by div_lia.
  assert ((b1 mod 4 * 16 + b2 / 16) mod 16 * 16 + (b2 mod 16 * 4 + b3 / 64) / 4 = b2) as G2 by div_lia.
  assert ((b2 mod 16 * 4 + b3 / 64) mod 4 * 64 + b3 mod 64 = b3) as G3 by div_lia.
  rewrite G1, G2, G3, app_nil_r, <-!app_assoc in Hw4. cbn [app] in Hw4.
  exists (written ++ [b1; b2; b3]), (0, 0). split; [done|].
  replace (w_buf w4) with 0 by congruence. replace (w_count w4) with 0 by congruence. apply link_0.
Qed.
Lemma winv_rng w r written : winv w written -> rand_ok r -> winv (w_append w [] r) written.
Proof. intros (D & s & Hw & Hlink) Hr. exists D, s. split; [by apply wire_is_rng|done]. Qed.

Lemma winv_rand w written : winv w written -> rand_ok (w_rng w).
Proof. by intros (D & s & (Hr & _) & _). Qed.

Lemma winv_forced w written : winv w written -> exists w', appendForcedPadding pool w = Ret w' /\ winv w' written.
Proof.
  intros (D & s & Hw & Hlink). destruct (forced_ok w D s Hw) as (w' & -> & He). exists w'. split; [done|]. by eapply winv_extends.
Qed.

Lemma forced_pads_ok fuel padCount w written :
  winv w written -> 2 <= padCount + Z.of_nat fuel -> exists w', forced_pads pool fuel padCount w = Ret w' /\ winv w' written.
Proof.
  revert padCount w. induction fuel as [|fuel IH]; intros padCount w Hw Hp; cbn [forced_pads];
    destruct (Intn_ok (w_rng w) 2 (winv_rand _ _ Hw) ltac:(lia)) as [Hk Hr]; destruct (Intn (w_rng w) 2) as [k r]; cbn [fst snd] in Hk, Hr;
    pose proof (winv_rng w r written Hw Hr) as Hw1.
  - rewrite (proj2 (Z.ltb_ge _ _)) by lia. by eexists.
  - destruct (padCount <? 1 + k); [|by eexists]. destruct (winv_forced _ _ Hw1) as (w2 & -> & Hw2). cbn [mbind res_bind]. apply IH; [done|lia].
Qed.

Lemma gap_ok w written : winv w written -> exists gap w', nextProtectedPrefixGap w = (gap, w') /\ winv w' written.
Proof.
  intros Hw. unfold nextProtectedPrefixGap. destruct (Intn_ok (w_rng w) 2 (winv_rand _ _ Hw) ltac:(lia)) as [_ Hr].
  destruct (Intn (w_rng w) 2) as [k r]. eexists _, _. split; [done|]. by apply winv_rng.
Qed.

Lemma prefix_bytes_ok p w gap effective written :
  winv w written -> is_bytes p -> exists w', prefix_bytes l threshold pool w gap effective p = Ret w' /\ winv w' (written ++ p).
Proof.
  intros Hw Hp. revert w gap effective written Hw. induction Hp as [|b p Hb Hp IH]; intros w gap effective written Hw; cbn [prefix_bytes].
  - exists w. by rewrite app_nil_r.
  - destruct (push_byte_ok w written b Hw Hb) as (w1 & -> & Hw1). cbn [mbind res_bind]. rewrite cons_middle, app_assoc.
    destruct (gap <=? effective + 1); [|by apply IH]. destruct (winv_forced _ _ Hw1) as (w2 & -> & Hw2). cbn [mbind res_bind].
    destruct (gap_ok _ _ Hw2) as (gap' & w3 & -> & Hw3). by apply IH.
Qed.

Lemma prefix_ok w p written :
  winv w written -> is_bytes p ->
  exists w' n, writeProtectedPrefix l threshold pool w p = Ret (w', n) /\ winv w' (written ++ take n p).
Proof.
  intros Hw Hp. unfold writeProtectedPrefix. case_bool_decide as E; [exists w, 0%nat; split; [done|]; by rewrite take_0, app_nil_r|].
  destruct (forced_pads_ok 2 0 w written Hw ltac:(lia)) as (w1 & -> & Hw1). cbn [mbind res_bind].
  destruct (gap_ok _ _ Hw1) as (gap & w2 & -> & Hw2). set (n := Nat.min _ _).
  destruct (prefix_bytes_ok (take n p) w2 gap 0 written Hw2) as (w3 & -> & Hw3); [by apply Forall_take|]. cbn [mbind res_bind]. by exists w3, n.
Qed.

Lemma winv_count w written : winv w written -> 0 <= w_count w.
Proof. intros (D & s & _ & Hlink). inversion Hlink; lia. Qed.

(** The loop ends with no bits kept, or no bytes left. *)
Lemma align_ok p w written :
  winv w written -> is_bytes p ->
  exists w' rest, align_loop l threshold pool w p = Ret (w', rest) /\ is_bytes rest /\ (rest = [] \/ w_count w' = 0) /\
    exists front, p = front ++ rest /\ winv w' (written ++ front).
Proof.
  intros Hw Hp. revert w written Hw. induction Hp as [|b p Hb Hp IH]; intros w written Hw; cbn [align_loop].
  - exists w, []. split; [by destruct (0 <? w_count w)|]. split; [constructor|]. split; [by left|]. exists []. split; [done|]. by rewrite app_nil_r.
  - destruct (0 <? w_count w) eqn:E.
    + destruct (push_byte_ok w written b Hw Hb) as (w1 & -> & Hw1). cbn [mbind res_bind].
      destruct (IH w1 _ Hw1) as (w2 & rest & -> & Hr & Hc & front & -> & Hw2). exists w2, rest. split_and!; [done..|].
      exists (b :: front). split; [done|]. by rewrite cons_middle, app_assoc.
    + apply Z.ltb_ge in E. pose proof (winv_count _ _ Hw). exists w, (b :: p). split; [done|]. split; [by constructor|]. split; [right; lia|].
      exists []. by rewrite app_nil_r.
Qed.

Lemma three_ok p w written :
  winv w written -> w_count w = 0 -> is_bytes p -> (2 < length p)%nat ->
  exists w' rest, push_three l threshold pool w p = Ret (w', rest) /\ is_bytes rest /\ w_count w' = 0 /\ (length rest + 3 = length p)%nat /\
    exists front, p = front ++ rest /\ winv w' (written ++ front).
Proof.
  intros Hw H0 Hp Hlen. destruct p as [|b1 [|b2 [|b3 rest]]]; cbn in Hlen; try lia. unfold is_bytes in Hp. rewrite !Forall_cons in Hp. destruct Hp as (H1 & H2 & H3 & Hr).
  destruct (push_three_ok w written b1 b2 b3 rest Hw H0 H1 H2 H3) as (w' & -> & Hw' & Hc). exists w', rest. split_and!; [done..|cbn; lia|].
  by exists [b1; b2; b3].
Qed.

(** Both loops over groups of three bytes. *)
Definition loop_result (w' : W) (rest p written : list Z) : Prop :=
  is_bytes rest /\ w_count w' = 0 /\ exists front, p = front ++ rest /\ winv w' (written ++ front).

Lemma loop_result_trans w' p rest rest' written front :
  p = front ++ rest -> loop_result w' rest' rest (written ++ front) -> loop_result w' rest' p written.
Proof.
  intros -> (Hb & Hc & front' & -> & Hw). split; [done|]. split; [done|]. exists (front ++ front').
  split; [by rewrite app_assoc|]. by rewrite (app_assoc written).
Qed.

Lemma triple_loop_ok fuel p w written :
  winv w written -> w_count w = 0 -> is_bytes p -> (length p <= fuel)%nat ->
  exists w' rest, triple_loop l threshold pool fuel w p = Ret (w', rest) /\ loop_result w' rest p written.
Proof.
  revert p w written. induction fuel as [|fuel IH]; intros p w written Hw H0 Hp Hf; cbn [triple_loop]; destruct (2 <? length p)%nat eqn:E.
  1: apply Nat.ltb_lt in E; lia.
  1,3: exists w, p; split; [done|]; split; [done|]; split; [done|]; exists []; by rewrite app_nil_r.
  apply Nat.ltb_lt in E. destruct (three_ok p w written Hw H0 Hp E) as (w1 & r1 & -> & Hb1 & Hc1 & Hl1 & f1 & Ep & Hw1). cbn [mbind res_bind].
  destruct (IH r1 w1 _ Hw1 Hc1 Hb1 ltac:(lia)) as (w2 & r2 & -> & Hres). exists w2, r2. split; [done|]. by eapply loop_result_trans.
Qed.

Lemma batch_loop_ok fuel p w written :
  winv w written -> w_count w = 0 -> is_bytes p -> (length p <= fuel)%nat ->
  exists w' rest, batch_loop l threshold pool fuel w p = Ret (w', rest) /\ loop_result w' rest p written.
Proof.
  revert p w written. induction fuel as [|fuel IH]; intros p w written Hw H0 Hp Hf; cbn [batch_loop]; destruct (11 <? length p)%nat eqn:E.
  1: apply Nat.ltb_lt in E; lia.
  1,3: exists w, p; split; [done|]; split; [done|]; split; [done|]; exists []; by rewrite app_nil_r.
  apply Nat.ltb_lt in E. destruct (three_ok p w written Hw H0 Hp ltac:(lia)) as (w1 & r1 & -> & Hb1 & Hc1 & Hl1 & f1 & Ep1 & Hw1). cbn [mbind res_bind].
  destruct (three_ok r1 w1 _ Hw1 Hc1 Hb1 ltac:(lia)) as (w2 & r2 & -> & Hb2 & Hc2 & Hl2 & f2 & Ep2 & Hw2). cbn [mbind res_bind].
  destruct (three_ok r2 w2 _ Hw2 Hc2 Hb2 ltac:(lia)) as (w3 & r3 & -> & Hb3 & Hc3 & Hl3 & f3 & Ep3 & Hw3). cbn [mbind res_bind].
  destruct (three_ok r3 w3 _ Hw3 Hc3 Hb3 ltac:(lia)) as (w4 & r4 & -> & Hb4 & Hc4 & Hl4 & f4 & Ep4 & Hw4). cbn [mbind res_bind].
  destruct (IH r4 w4 _ Hw4 Hc4 Hb4 ltac:(lia)) as (w5 & r5 & -> & Hres). exists w5, r5. split; [done|].
  do 4 (eapply loop_result_trans; [eassumption|]). done.
Qed.

Lemma tail_loop_ok p w written :
  winv w written -> is_bytes p -> exists w', tail_loop l threshold pool w p = Ret w' /\ winv w' (written ++ p).
Proof.
  intros Hw Hp. revert w written Hw. induction Hp as [|b p Hb Hp IH]; intros w written Hw; cbn [tail_loop]; [exists w; by rewrite app_nil_r|].
  destruct (push_byte_ok w written b Hw Hb) as (w1 & -> & Hw1). cbn [mbind res_bind]. rewrite cons_middle, app_assoc. by apply IH.
Qed.
Lemma marker_run s : is_bytes [marker] /\ pd_run s [marker] = ([], (0, 0)).
Proof. destruct Hm as [Hb Hi]. split; [by constructor|]. cbn. unfold pd_step. by rewrite Hi, Z.eqb_refl. Qed.

(** The write is over: the reader has every byte, and neither side has bits. *)
Definition complete (w : W) (written : list Z) : Prop := w_buf w = 0 /\ w_count w = 0 /\ wire_is w written (0, 0).

Lemma flush_group w group D s written :
  wire_is w D s -> w_buf w = 0 -> w_count w = 0 -> D ++ (group_step s (group mod 64)).1 = written ->
  exists w', (w1 ← appendPackedGroup l threshold pool w group; Ret (w_append w1 [marker] (w_rng w1))) = Ret w' /\ complete w' written.
Proof.
  intros Hw Hb Hc <-. destruct (append_group_ok w group D s Hw) as (w1 & -> & Hb1 & Hc1 & Hw1). cbn [mbind res_bind].
  eexists. split; [done|]. split; [by rewrite <-Hb|]. split; [by rewrite <-Hc|].
  rewrite <-(app_nil_r (D ++ _)). destruct (marker_run (group_step s (group mod 64)).2). apply (wire_is_app _ _ _ _ (group_step s (group mod 64)).2); [done|apply Hw1|done..].
Qed.

Lemma flush_bits_ok w written :
  winv w written -> exists w', flush_bits l threshold pool marker w = Ret w' /\ complete w' written.
Proof.
  intros (D & s & Hw & Hlink). unfold flush_bits. destruct w as [wb wc out r]. cbn [w_buf w_count w_out w_rng] in *.
  inversion Hlink as [D' E1 E2 E3 E4 E5|wb' rb D' Hwb Hrb E1 E2 E3 E4 E5|wb' rb D' Hwb Hrb E1 E2 E3 E4 E5]; subst.
  - cbn [Z.ltb Z.compare]. eexists. split; [done|]. by split.
  - change (0 <? 2) with true. cbv iota. apply (flush_group _ _ D (rb, 6)); [done..|]. change (6 - 2) with 4.
    rewrite u8_id by (unfold is_u8; rewrite Z.shiftl_mul_pow2 by lia; lia). rewrite Z.shiftl_mul_pow2 by lia.
    rewrite Z.mod_small, step_6 by lia. cbn [fst]. by rewrite Z.div_mul.
  - change (0 <? 4) with true. cbv iota. apply (flush_group _ _ D (rb, 4)); [done..|]. change (6 - 4) with 2.
    rewrite u8_id by (unfold is_u8; rewrite Z.shiftl_mul_pow2 by lia; lia). rewrite Z.shiftl_mul_pow2 by lia.
    rewrite Z.mod_small, step_4 by lia. cbn [fst]. by rewrite Z.div_mul.
Qed.

(** An encoded payload means its bytes to a reader. *)
Lemma packed_encode_ok r p :
  rand_ok r -> is_bytes p ->
  exists w, packed_encode l threshold pool marker {| w_buf := 0; w_count := 0; w_out := []; w_rng := r |} p = Ret w /\ complete w p.
Proof.
  intros Hr Hp. set (w0 := Build_W _ _ _ _). assert (winv w0 []) as Hw0.
  { exists [], (0, 0). split; [|apply link_0]. split; [done|]. split; [constructor|done]. }
  unfold packed_encode. destruct (prefix_ok w0 p [] Hw0 Hp) as (w1 & n & -> & Hw1). cbn [mbind res_bind].
  destruct (align_ok (drop n p) w1 _ Hw1) as (w2 & p2 & -> & Hb2 & Hc2 & f2 & E2 & Hw2); [by apply Forall_drop|]. cbn [mbind res_bind].
  assert (exists w4 p4, ('(w, p) ← batch_loop l threshold pool (length p2) w2 p2; triple_loop l threshold pool (length p) w p) = Ret (w4, p4) /\
    is_bytes p4 /\ exists f4, p2 = f4 ++ p4 /\ winv w4 ((([] ++ take n p) ++ f2) ++ f4)) as (w4 & p4 & E & Hb4 & f4 & E4 & Hw4).
  { destruct Hc2 as [->|Hc2].
    - exists w2, []. split; [done|]. split; [done|]. exists []. by rewrite (app_nil_r (_ ++ f2)).
    - destruct (batch_loop_ok (length p2) p2 w2 _ Hw2 Hc2 Hb2 ltac:(lia)) as (w3 & p3 & -> & Hb3 & Hc3 & f3 & E3 & Hw3). cbn [mbind res_bind].
      destruct (triple_loop_ok (length p3) p3 w3 _ Hw3 Hc3 Hb3 ltac:(lia)) as (w4 & p4 & -> & Hb4 & Hc4 & f4 & E4 & Hw4). exists w4, p4. split; [done|].
      split; [done|]. exists (f3 ++ f4). split; [by rewrite E3, E4, app_assoc|]. by rewrite (app_assoc _ f3). }
  destruct (batch_loop l threshold pool (length p2) w2 p2) as [[w3 p3]| |]; cbn [mbind res_bind] in *; [|done..]. rewrite E. cbn [mbind res_bind].
  destruct (tail_loop_ok p4 w4 _ Hw4 Hb4) as (w5 & -> & Hw5). cbn [mbind res_bind].
  assert ([] ++ take n p ++ f2 ++ f4 ++ p4 = p) as Ep by by rewrite <-E4, <-E2, app_nil_l, take_drop.
  rewrite <-!app_assoc, Ep in Hw5. destruct (flush_bits_ok w5 p Hw5) as (w6 & -> & Hb6 & Hc6 & Hw6). cbn [mbind res_bind].
  destruct (padding_ok w6 p _ Hw6) as (w7 & -> & Hb7 & Hc7 & Hw7). exists w7. split; [done|]. split; [by rewrite Hb7|]. split; [by rewrite Hc7|done].
Qed.
End write.
End layout.
