(* ===== verification/SudokuPackedExact.v ===== *)
(** * Reading a packed connection

    The reader of the packed connection follows the wire bit by bit, the
    shortcut of four hints for three bytes included; with the writer, what is
    read is what was written. *)

From S2P Require Import Prelude GoText SudokuGrid SudokuLayout SudokuTable SudokuRand SudokuConn SudokuStream SudokuPacked SudokuPackedStream.

#[local] Opaque combinations unique GenerateAllGrids.

Section read.
  Context `{GoAppend}.
  Variable t : Table.
  Variable marker : Z.
  Variable size : nat.
  Hypothesis Hl : layout_ok (layout t).
  Hypothesis Hm : is_u8 marker /\ isHint (layout t) marker = false.
  Hypothesis Hsize : (0 < size)%nat.

Abbreviation run := (pd_run (layout t) marker).

Definition p_content (s : PDec) : list Z := r_out s ++ unread (r_pending s).

Definition pdec_ok (s : PDec) : Prop := bits_ok (rBuf s, rBits s) /\ ahead_ok size (r_out s) (r_pending s).

(** [s'] is [s] after the bytes [o] and with the bits [b]. *)
Definition reached (s s' : PDec) (o : list Z) (b : Z * Z) : Prop :=
  pdec_ok s' /\ (rBuf s', rBits s') = b /\ p_content s' = p_content s ++ o.

Lemma packed_byte_ok s b :
  pdec_ok s -> is_u8 b ->
  exists s', packed_byte (layout t) marker size s b = (s', true) /\
    let '(o, bits) := pd_step (layout t) marker (rBuf s, rBits s) b in reached s s' o bits.
Proof.
  intros [Hbits Ha] Hb. pose proof (pd_step_ok (layout t) marker Hl (rBuf s, rBits s) b Hbits Hb) as Hok.
  unfold packed_byte, pd_step in *. destruct (isHint (layout t) b) eqn:E; cbn [negb].
  - destruct (ok_valid _ Hl b Hb E) as (g & Hg & Hr). rewrite Hg in *. cbn [negb fst snd] in *. unfold group_step in *. cbn [fst snd] in *.
    destruct (8 <=? rBits s + 6).
    + cbv zeta in *. set (val := u8 _). apply (appendDecodedByte_ok size _ _ val) in Ha. destruct (appendDecodedByte size (r_out s) (r_pending s) val) as [out pending].
      destruct Ha as [Ha Hc]. eexists. split; [done|]. split; [by split|]. by split.
    + eexists. split; [done|]. split; [by split|]. split; [done|]. unfold p_content. cbn. by rewrite app_nil_r.
  - destruct (b =? marker); eexists; (split; [done|]); (split; [by split|]); (split; [done|]); unfold p_content; cbn; by rewrite app_nil_r.
Qed.

(** Four groups from no bits are the three bytes of the shortcut. *)
Lemma four_hints b0 b1 b2 b3 :
  is_bytes [b0; b1; b2; b3] -> Forall (fun b => isHint (layout t) b = true) [b0; b1; b2; b3] ->
  let group b := (decodePackedGroup (layout t) b).1 in
  run (0, 0) [b0; b1; b2; b3] = (three_bytes (group b0) (group b1) (group b2) (group b3), (0, 0)).
Proof.
  intros (B0 & B1 & B2 & B3)%bytes4 Hh group. rewrite !Forall_cons in Hh. destruct Hh as (H0 & H1 & H2 & H3 & _).
  destruct (ok_valid _ Hl b0 B0 H0) as (g0 & E0 & R0). destruct (ok_valid _ Hl b1 B1 H1) as (g1 & E1 & R1).
  destruct (ok_valid _ Hl b2 B2 H2) as (g2 & E2 & R2). destruct (ok_valid _ Hl b3 B3 H3) as (g3 & E3 & R3).
  cbn [pd_run]. unfold pd_step, group. rewrite H0, H1, H2, H3, E0, E1, E2, E3. cbn [fst].
  rewrite step_0 by lia. rewrite step_6 by lia. rewrite step_4 by div_lia. rewrite step_2 by div_lia. cbn [app]. f_equal.
  unfold three_bytes. rewrite !Z.shiftr_div_pow2, !Z.shiftl_mul_pow2 by lia. change (2 ^ 2) with 4. change (2 ^ 4) with 16. change (2 ^ 6) with 64.
  assert (forall a b k, 0 <= k -> 0 <= b < 2 ^ k -> Z.lor (a * 2 ^ k) b = a * 2 ^ k + b) as Hor.
  { intros a b k Hk Hb. rewrite Z.lor_comm, <-Z.shiftl_mul_pow2, lor_shiftl, Z.shiftl_mul_pow2 by lia. lia. }
  assert (u8 (g0 * 4) = g0 * 2 ^ 2 /\ u8 (g1 * 16) = g1 mod 16 * 2 ^ 4 /\ u8 (g2 * 64) = g2 mod 4 * 2 ^ 6) as (-> & -> & ->).
  { unfold u8. change (2 ^ 8) with 256. change (2 ^ 2) with 4. change (2 ^ 4) with 16. change (2 ^ 6) with 64. split_and!; div_lia. }
  rewrite !Hor by div_lia. done.
Qed.

Definition chunk_follows (s : PDec) (chunk : list Z) : Prop :=
  exists s', packed_chunk (layout t) marker size s chunk = (s', true) /\
    let '(o, bits) := run (rBuf s, rBits s) chunk in reached s s' o bits.

Lemma chunk_slow s b0 rest :
  (forall s, pdec_ok s -> chunk_follows s rest) -> pdec_ok s -> is_u8 b0 ->
  exists s', (let '(s, ok) := packed_byte (layout t) marker size s b0 in
              if ok then packed_chunk (layout t) marker size s rest else (s, false)) = (s', true) /\
    let '(o, bits) := run (rBuf s, rBits s) (b0 :: rest) in reached s s' o bits.
Proof.
  intros IH Hs Hb. cbn [pd_run]. destruct (packed_byte_ok s b0 Hs Hb) as (s1 & -> & H1).
  destruct (pd_step _ _ _ _) as [o1 bits1]. destruct H1 as (Hs1 & <- & Hc1). destruct (IH s1 Hs1) as (s2 & -> & H2).
  destruct (run _ rest) as [o2 bits2]. destruct H2 as (Hs2 & Hb2 & Hc2). exists s2. split; [done|]. split; [done|]. split; [done|].
  by rewrite Hc2, Hc1, app_assoc.
Qed.

Lemma packed_chunk_ok chunk s : pdec_ok s -> is_bytes chunk -> chunk_follows s chunk.
Proof.
  remember (length chunk) as n eqn:Hn. revert chunk Hn s. induction n as [n IH] using lt_wf_ind. intros chunk -> s Hs Hb.
  destruct chunk as [|b0 rest]; [exists s; split; [done|]; split; [done|]; split; [done|]; by rewrite app_nil_r|].
  unfold is_bytes in Hb. apply Forall_cons in Hb as [Hb0 Hb].
  assert (forall s, pdec_ok s -> chunk_follows s rest) as IHr.
  { intros s1 Hs1. by apply (IH (length rest) ltac:(cbn; lia) rest eq_refl). }
  pose proof (chunk_slow s b0 rest IHr Hs Hb0) as Hslow. unfold chunk_follows.
  destruct rest as [|b1 [|b2 [|b3 rest']]]; [exact Hslow..|]. cbn [packed_chunk].
  destruct ((rBits s =? 0) && _ && _ && _ && _ && _) eqn:Efast; [|exact Hslow].
  rewrite !andb_true_iff in Efast. destruct Efast as [[[[[E0%Z.eqb_eq El%Nat.leb_le] H0] H1] H2] H3]. clear Hslow IHr.
  destruct Hs as [[_ Hbuf] (Hp & Ho & Hf)]. cbn [fst snd] in Hbuf. rewrite E0 in *. assert (rBuf s = 0) as EB by lia. rewrite EB in *.
  assert (unread (r_pending s) = []) as Hu.
  { destruct (decide (unread (r_pending s) = [])) as [|Hu]; [done|]. apply Hf in Hu. lia. }
  rewrite !Forall_cons in Hb. destruct Hb as (B1 & B2 & B3 & Hb). cbv zeta. set (s1 := Build_PDec _ _ _ _).
  destruct (IH (length rest') ltac:(cbn; lia) rest' eq_refl s1) as (s2 & -> & Hr2); [|done|].
  { split; [by split; [left|cbn; lia]|]. split_and!; [done|cbn [s1 r_out]; rewrite length_app; cbn; lia|]. cbn [s1 r_pending]. by rewrite Hu. }
  exists s2. split; [done|]. change (b0 :: b1 :: b2 :: b3 :: rest') with ([b0; b1; b2; b3] ++ rest'). rewrite pd_run_app.
  rewrite four_hints; [|by apply bytes4|by repeat constructor]. cbn [s1 rBuf rBits] in Hr2.
  destruct (run (0, 0) rest') as [o2 bits2]. destruct Hr2 as (Hs2 & Hb2 & Hc2). split; [done|]. split; [done|].
  rewrite Hc2. unfold p_content, s1. cbn [r_out r_pending]. rewrite Hu, !app_nil_r. by rewrite <-app_assoc.
Qed.
(** ** The loop *)

Lemma packed_size_pos : (0 < Z.to_nat (packedReadSize (Z.of_nat size - zlen (@nil Z)) packedDecodeBufferSize))%nat.
Proof. unfold packedReadSize. cbn. repeat case_match; lia. Qed.

Definition p_stream (pc : PackedConn) : list Z := p_buffered pc ++ concat (chunks (p_net pc)).

(** What a connection has still to deliver. *)
Record p_delivers (pc : PackedConn) (X : list Z) : Prop := {
  pd_table : p_table pc = Some t;
  pd_marker : p_padMarker pc = marker;
  pd_pending : pending_ok (p_pending pc);
  pd_bits : bits_ok (readBitBuf pc, readBits pc);
  pd_bytes : is_bytes (p_stream pc);
  pd_data : exists D, run (readBitBuf pc, readBits pc) (p_stream pc) = (D, (0, 0)) /\ X = unread (p_pending pc) ++ D
}.

Definition p_good (pc : PackedConn) (X : list Z) (pc' : PackedConn) (out : list Z) (err : option string) : Prop :=
  net_err (p_net pc') = net_err (p_net pc) /\
  match err with
  | Some e => X = [] /\ out = [] /\ e = net_err (p_net pc) /\ p_delivers pc' []
  | None => out ≠ [] /\ (length out <= size)%nat /\ exists X', X = out ++ X' /\ p_delivers pc' X'
  end.

Lemma packed_loop_ok fuel pc X :
  p_delivers pc X -> unread (p_pending pc) = [] -> (net_size (p_net pc) (p_buffered pc) < fuel)%nat ->
  exists pc' out err, packed_read_loop fuel t size pc [] = Ret (pc', out, err) /\ p_good pc X pc' out err.
Proof.
  revert pc X. induction fuel as [|fuel IH]; intros pc X [Ht HM Hp Hbits HB (D & HD & ->)] Hu Hf; [lia|]. rewrite Hu, app_nil_l. cbn [packed_read_loop].
  pose proof (readRawLimited_ok (p_net pc) (p_buffered pc) _ packed_size_pos) as Hr.
  destruct (readRawLimited _ _ _) as [[[chunk rErr] c'] buf']. destruct Hr as (Hw & He & Hr). unfold p_stream in HD, HB. rewrite Hw in HD, HB. rewrite pd_run_app in HD.
  unfold is_bytes in HB. apply Forall_app in HB as [HBc HBr]. rewrite HM.
  set (s := Build_PDec _ _ _ _). assert (pdec_ok s) as Hs by (split; [done|]; split_and!; [done|cbn; lia|cbn [s r_pending]; by rewrite Hu]).
  destruct (packed_chunk_ok chunk s Hs HBc) as (s' & -> & Hfol). cbn [negb]. cbn [s rBuf rBits] in Hfol.
  destruct (run _ chunk) as [bs bits]. destruct Hfol as (Hs' & <- & Hc'). unfold p_content in Hc' at 2. cbn [s r_out r_pending] in Hc'. rewrite Hu in Hc'. cbn [app] in Hc'.
  destruct (run _ (buf' ++ _)) as [cs bits2] eqn:E2. injection HD as <- ->.
  set (eof := match rErr with Some e => bool_decide (e = "EOF"%string) | None => false end).
  set (pc1 := packed_after pc c' buf' (if eof then (0, 0) else (rBuf s', rBits s')) (r_pending s')).
  assert (forall X', unread (r_pending s') ++ cs = X' -> p_delivers pc1 X') as Hdel.
  { intros X' <-. destruct Hs' as [Hbits' (Hp' & _)].
    assert (eof = true -> buf' ++ concat (chunks c') = []) as Heof by (destruct rErr; [by intros _; apply Hr|done]).
    split; cbn [pc1 packed_after p_table p_padMarker p_pending readBitBuf readBits]; try done.
    - destruct eof; [split; cbn; lia|done].
    - exists cs. split; [|done]. unfold p_stream. cbn [pc1 packed_after p_buffered p_net]. destruct eof; [|done]. rewrite (Heof eq_refl) in *. by injection E2 as <- _. }
  assert (r_out s' = [] -> bs = [] /\ unread (r_pending s') = []) as Hempty.
  { intros E0. unfold p_content in Hc'. rewrite E0 in Hc'. destruct (decide (unread (r_pending s') = [])) as [E|E]; [by rewrite <-Hc', E|].
    destruct Hs' as [_ (_ & _ & Hfull)]. apply Hfull in E. rewrite E0 in E. cbn in E. lia. }
  assert (r_out s' ≠ [] -> p_good pc (bs ++ cs) pc1 (r_out s') None) as Hgood.
  { intros Hne. split; [done|]. split; [done|]. split; [apply Hs'|]. exists (unread (r_pending s') ++ cs). split; [|by apply Hdel].
    rewrite app_assoc. by rewrite <-Hc'. }
  destruct (r_out s') as [|o out] eqn:Eo; cbn [length Nat.ltb Nat.leb].
  2: { destruct rErr; eexists _, _, _; (split; [reflexivity|]); by apply Hgood. }
  destruct (Hempty eq_refl) as [-> Hu']. clear Hgood Hempty. destruct rErr as [e|].
  - destruct Hr as [-> Hend]. rewrite Hend in E2. injection E2 as <- _.
    cbn [p_pending pc1 packed_after]. pose proof (drainPending_spec size (r_pending s') ltac:(apply Hs') Hsize) as Hd.
    rewrite decide_True in Hd by done. rewrite Hd. eexists _, _, _. split; [reflexivity|]. split; [done|]. split_and!; [done..|]. apply Hdel. by rewrite Hu'.
  - destruct (IH pc1 cs (Hdel cs ltac:(by rewrite Hu')) Hu') as (pc2 & out & err & -> & Hnet & Hg).
    { cbn [p_net p_buffered pc1 packed_after]. lia. }
    eexists _, _, _. split; [reflexivity|]. change (net_err (p_net pc1)) with (net_err c') in *. rewrite He in *. by split.
Qed.

Lemma packed_Read_ok pc X :
  p_delivers pc X -> exists pc' out err, packed_Read pc size = Ret (pc', out, err) /\ p_good pc X pc' out err.
Proof.
  intros Hd. pose proof Hd as [Ht HM Hp Hbits HB (D & HD & E)]. unfold packed_Read. rewrite (proj2 (Nat.eqb_neq size 0)) by lia. rewrite Ht.
  pose proof (drainPending_spec size (p_pending pc) Hp Hsize) as Hdr. destruct (decide (unread (p_pending pc) = [])) as [Hu|Hu].
  - rewrite Hdr. apply packed_loop_ok; [done..|]. unfold packed_fuel, net_size. lia.
  - destruct Hdr as (out & p' & -> & Hne & Hlen & Hun & Hp'). eexists _, _, _. split; [reflexivity|]. split; [done|].
    split; [done|]. split; [done|]. exists (unread p' ++ D). split; [by rewrite E, Hun, app_assoc|]. split; try done. by exists D.
Qed.
End read.

(** ** From one end to the other *)

Inductive packed_op := OpWrite (p : list Z) | OpFlush.

Definition op_bytes (op : packed_op) : list Z := match op with OpWrite p => p | OpFlush => [] end.

Fixpoint packed_Ops (pc : PackedConn) (script : list (nat * option string)) (ops : list packed_op) : res (PackedConn * list Z) :=
  match ops with
  | [] => Ret (pc, [])
  | op :: ops =>
    '(pc, sent, script) ← match op with
      | OpWrite p => '(pc, _, sent, script) ← packed_Write pc script p; Ret (pc, sent, script)
      | OpFlush => '(pc, _, sent, script) ← packed_Flush pc script; Ret (pc, sent, script)
      end;
    '(pc, wire) ← packed_Ops pc script ops;
    Ret (pc, sent ++ wire)
  end.

(** A writer between two operations: it keeps no bits. *)
Record writer_ok (t : Table) (pc : PackedConn) : Prop := {
  wr_table : open_table pc = Some t;
  wr_bits : bitBuf pc = 0 /\ bitCount pc = 0;
  wr_rand : rand_ok (p_rng pc);
  wr_marker : p_padMarker pc = padMarker (layout t);
  wr_pool : padPool pc ≠ [] /\ zlen (padPool pc) <= 2 ^ 32 /\
    Forall (fun b => is_u8 b /\ isHint (layout t) b = false /\ b ≠ padMarker (layout t)) (padPool pc)
}.

Lemma new_writer_ok t c seed pMin pMax : table_ok t -> writer_ok t (NewPackedConn c (Some t) seed pMin pMax).
Proof.
  intros Ht. pose proof (tok_layout t Ht) as Hl.
  destruct (pickPaddingThreshold_range (newSudokuRand seed) pMin pMax (newSudokuRand_ok seed)) as (_ & _ & Hr).
  unfold NewPackedConn. destruct (pickPaddingThreshold _ _ _) as [th r]. cbn [snd] in Hr. rewrite (tok_pool t Ht).
  set (pool := filter _ _). assert (pool ≠ []) as Hne.
  { intros E. destruct (ok_pool _ Hl) as (b & Hb & Hn). assert (b ∈ pool) as Hin by (apply list_elem_of_filter; done). rewrite E in Hin. by apply elem_of_nil in Hin. }
  rewrite bool_decide_false by done. split; cbn [open_table p_table padPool bitBuf bitCount p_rng p_padMarker]; try done.
  - unfold open_table. cbn. by rewrite bool_decide_false.
  - split; [done|]. split.
    + pose proof (ok_pool_size _ Hl) as Hs. unfold zlen in *. pose proof (length_filter (fun b => b ≠ padMarker (layout t)) (paddingPool (layout t))).
      unfold pool. lia.
    + apply Forall_forall. intros b [Hn Hb]%list_elem_of_filter. by destruct (ok_padding _ Hl b Hb).
Qed.

(** Every operation sends what the reader decodes to the bytes it was given. *)
Lemma op_ok t pc script op :
  table_ok t -> writer_ok t pc -> script_ok script -> is_bytes (op_bytes op) ->
  exists pc' sent script',
    match op with
    | OpWrite p => '(pc, _, sent, script) ← packed_Write pc script p; Ret (pc, sent, script)
    | OpFlush => '(pc, _, sent, script) ← packed_Flush pc script; Ret (pc, sent, script)
    end = Ret (pc', sent, script') /\
    writer_ok t pc' /\ script_ok script' /\ is_bytes sent /\
    pd_run (layout t) (padMarker (layout t)) (0, 0) sent = (op_bytes op, (0, 0)).
Proof.
  intros Ht [Hot [Hb Hc] Hr HM Hpool] Hs Hop. pose proof (tok_layout t Ht) as Hl. pose proof (ok_marker _ Hl) as Hm.
  assert (w_start pc = {| w_buf := 0; w_count := 0; w_out := []; w_rng := p_rng pc |}) as Ew by (unfold w_start; by rewrite Hb, Hc).
  assert (forall w p script', complete (layout t) (padMarker (layout t)) w p -> script_ok script' ->
    writer_ok t (after_write pc w) /\ script_ok script' /\ is_bytes (w_out w) /\
    pd_run (layout t) (padMarker (layout t)) (0, 0) (w_out w) = (p, (0, 0))) as Hdone.
  { intros w p script' (Hwb & Hwc & Hwr & HwB & Hwd) Hs'. split_and!; [|done..]. by split. }
  destruct op as [p|]; cbn [op_bytes] in *.
  - unfold packed_Write. case_bool_decide as E.
    + subst p. cbn [mbind res_bind]. eexists _, _, _. split; [reflexivity|]. split_and!; [by split|done|constructor|done].
    + rewrite Hot, Ew, HM. destruct (packed_encode_ok (layout t) (padMarker (layout t)) Hl Hm (p_threshold pc) (padPool pc) Hpool (p_rng pc) p Hr Hop) as (w & -> & Hw).
      cbn [mbind res_bind]. destruct (writeFull_ok script (w_out w) Hs) as (script' & -> & Hs'). cbn [mbind res_bind]. eexists _, _, _. split; [reflexivity|]. by apply Hdone.
  - unfold packed_Flush. rewrite Hot, Ew. cbn [w_count Z.ltb Z.compare]. cbv zeta.
    destruct (padding_ok (layout t) (padMarker (layout t)) (p_threshold pc) (padPool pc) Hpool {| w_buf := 0; w_count := 0; w_out := []; w_rng := p_rng pc |} [] (0, 0))
      as (w & -> & Hwb & Hwc & Hw); [by split_and!; [|constructor|]|].
    cbn [mbind res_bind]. destruct (writeFull_ok script (w_out w) Hs) as (script' & -> & Hs'). cbn [mbind res_bind]. eexists _, _, _. split; [reflexivity|]. apply Hdone; [by split|done].
Qed.

Lemma packed_Ops_ok t pc script ops :
  table_ok t -> writer_ok t pc -> script_ok script -> Forall (fun op => is_bytes (op_bytes op)) ops ->
  exists pc' wire, packed_Ops pc script ops = Ret (pc', wire) /\ is_bytes wire /\
    pd_run (layout t) (padMarker (layout t)) (0, 0) wire = (concat (map op_bytes ops), (0, 0)).
Proof.
  intros Ht Hw Hs Hops. revert pc script Hw Hs. induction Hops as [|op ops Hop Hops IH]; intros pc script Hw Hs; cbn [packed_Ops].
  - exists pc, []. split; [done|]. split; [constructor|done].
  - destruct (op_ok t pc script op Ht Hw Hs Hop) as (pc1 & sent & script1 & -> & Hw1 & Hs1 & Hb1 & Hr1). cbn [mbind res_bind].
    destruct (IH pc1 script1 Hw1 Hs1) as (pc2 & wire & -> & Hb2 & Hr2). cbn [mbind res_bind]. eexists _, _. split; [done|].
    split; [by apply Forall_app|]. by rewrite pd_run_app, Hr1, Hr2.
Qed.

Section reads.
  Context `{GoAppend}.

Fixpoint packed_Reads (pc : PackedConn) (sizes : list nat) : res (PackedConn * list Z * option string) :=
  match sizes with
  | [] => Ret (pc, [], None)
  | size :: sizes =>
    '(pc, out, err) ← packed_Read pc size;
    match err with
    | Some e => Ret (pc, out, Some e)
    | None => '(pc, rest, err) ← packed_Reads pc sizes; Ret (pc, out ++ rest, err)
    end
  end.

Lemma packed_Reads_ok t pc sizes X :
  layout_ok (layout t) -> p_delivers t (padMarker (layout t)) pc X -> Forall (fun n => (0 < n)%nat) sizes ->
  exists pc' out err, packed_Reads pc sizes = Ret (pc', out, err) /\
    match err with
    | Some e => e = net_err (p_net pc) /\ out = X
    | None => out `prefix_of` X /\ (length sizes <= length out)%nat
    end.
Proof.
  intros Hl Hd Hs. revert pc X Hd. induction Hs as [|size sizes Hn Hs IH]; intros pc X Hd; cbn [packed_Reads].
  - exists pc, [], None. split; [done|]. split; [apply prefix_nil|cbn; lia].
  - destruct (packed_Read_ok t (padMarker (layout t)) size Hl Hn pc X Hd) as (pc1 & out & err & -> & Hnet & Hg). cbn [mbind res_bind]. destruct err as [e|].
    + destruct Hg as (-> & -> & -> & _). by eexists _, _, _.
    + destruct Hg as (Hne & Hlen & X' & -> & Hd'). destruct (IH pc1 X' Hd') as (pc2 & rest & err & -> & Hr). cbn [mbind res_bind].
      eexists _, _, _. split; [done|]. rewrite <-Hnet. destruct err as [e|].
      * destruct Hr as [-> ->]. done.
      * destruct Hr as [Hp Hle]. split; [by apply prefix_app|]. rewrite length_app. destruct out; [done|]. cbn [length]. lia.
Qed.

(** C27: whatever is written to a packed connection, in whatever writes and with
    flushes between them, with any randomness and any probability of padding,
    the other side reads exactly those bytes, however the network cuts the
    stream and whatever the sizes of the reads. *)
Theorem packed_stream_exact t ops script seed pMin pMax :
  table_ok t -> Forall (fun op => is_bytes (op_bytes op)) ops -> script_ok script ->
  exists pc wire, packed_Ops (NewPackedConn {| chunks := []; net_err := "EOF"; err_with_data := false |} (Some t) seed pMin pMax) script ops = Ret (pc, wire) /\
    forall cs e flag seed' pMin' pMax' sizes,
      concat cs = wire -> Forall (fun n => (0 < n)%nat) sizes ->
      exists pc' out err,
        packed_Reads (NewPackedConn {| chunks := cs; net_err := e; err_with_data := flag |} (Some t) seed' pMin' pMax') sizes = Ret (pc', out, err) /\
        let written := concat (map op_bytes ops) in
        (err = None /\ out `prefix_of` written /\ (length sizes <= length out)%nat \/ err = Some e /\ out = written).
Proof.
  intros Ht Hops Hs. pose proof (tok_layout t Ht) as Hl.
  destruct (packed_Ops_ok t (NewPackedConn {| chunks := []; net_err := "EOF"; err_with_data := false |} (Some t) seed pMin pMax) script ops Ht)
    as (pc & wire & E & Hb & Hw); [by apply new_writer_ok|done..|].
  exists pc, wire. split; [done|]. intros cs e flag seed' pMin' pMax' sizes <- Hsizes. set (rd := NewPackedConn _ _ seed' _ _).
  assert (p_delivers t (padMarker (layout t)) rd (concat (map op_bytes ops)) /\ net_err (p_net rd) = e) as [Hd He].
  { unfold rd, NewPackedConn. destruct (pickPaddingThreshold _ _ _) as [th r]. split; [|done].
    split; cbn [p_table p_padMarker p_pending readBitBuf readBits]; [done..|unfold pending_ok; cbn; lia|split; cbn; lia|done|].
    exists (concat (map op_bytes ops)). by split. }
  destruct (packed_Reads_ok t rd sizes _ Hl Hd Hsizes) as (pc' & out & err & -> & Hres). exists pc', out, err. split; [done|]. cbv zeta.
  destruct err as [e'|]; [right; rewrite He in Hres; destruct Hres as [-> ->]; done|left; done].
Qed.
End reads.
