(* ===== verification/SudokuExample.v ===== *)
(** * The Sudoku obfuscation at work

    Instances of what the library functions are assumed to do, the theorems at
    concrete inputs, and runs of the connections. *)

From S2P Require Import Prelude GoText SudokuGrid SudokuLayout SudokuCustom SudokuTable SudokuRand SudokuConn SudokuStream SudokuPacked SudokuPackedStream SudokuPackedExact.

#[local] Instance ex_text : TextLib := {| TrimSpace := TrimString; ToLower := map lower_byte |}.
#[local] Instance ex_sha : Sha256 := fun bs => put_be 32 (get_be bs).
#[local] Instance ex_rand : MathRand := fun seed n => map (fun i => (i, (7 * i + 3) mod n)%nat) (seq 0 n).
#[local] Instance ex_append : GoAppend := fun n => (2 * n)%nat.

Lemma plain_facts c : plain_char c = true -> is_space c = false /\ lower_byte c = c.
Proof. unfold plain_char, is_space, lower_byte. intros Hc. split; [lia|]. case_match; lia. Qed.

#[local] Instance ex_text_laws : TextLaws.
Proof.
  split; cbn [TrimSpace ToLower ex_text]; intros s Hs; rewrite forallb_forall in Hs.
  - apply TrimString_id; intros c Hc; apply plain_facts, Hs, list_elem_of_In.
    + by apply head_Some_elem_of.
    + by apply last_Some_elem_of.
  - rewrite <-(map_id s) at 2. apply map_ext_in. intros c Hc. by apply plain_facts, Hs.
Qed.

#[local] Instance ex_rand_laws : MathRandLaws.
Proof.
  intros seed n. apply Forall_forall. intros [i j] Hin. unfold shuffle_swaps, ex_rand in Hin.
  apply list_elem_of_In, in_map_iff in Hin as (k & [= <- <-] & Hk). apply in_seq in Hk. split; [lia|]. apply Nat.mod_upper_bound. lia.
Qed.

Definition down : text := bytes_of "up_ascii_down_entropy".

Lemma down_parses : ParseASCIIMode down = Ret {| Uplink := bytes_of "ascii"; Downlink := bytes_of "entropy" |}.
Proof. vm_compute. reflexivity. Qed.

Lemma ex_pattern : usable_pattern (bytes_of "xpxvvpvv").
Proof. right. vm_compute. done. Qed.

Lemma NewTableWithCustom_correct_witness :
  exists r, NewTableWithCustom (bytes_of "key") down (bytes_of "xpxvvpvv") = Ret r /\ table_ok (this r) /\ table_ok (opposite r) /\
    table_hint (this r) = table_hint (opposite r) /\ (bytes_of "ascii" = bytes_of "entropy" -> this r = opposite r).
Proof. exact (NewTableWithCustom_correct (bytes_of "key") down (bytes_of "xpxvvpvv") _ down_parses ex_pattern). Defined.

(** A table to write with. *)
Lemma ex_table : exists t, newSingleDirectionTable (bytes_of "key") (bytes_of "prefer_ascii") [] = Ret t.
Proof. exact (new_table_total (bytes_of "key") (bytes_of "prefer_ascii") []). Qed.

Lemma sudoku_stream_exact_witness :
  exists t, newSingleDirectionTable (bytes_of "key") (bytes_of "prefer_ascii") [] = Ret t /\
  exists sc wire, conn_Writes (NewConn {| chunks := []; net_err := "EOF"; err_with_data := false |} (Some t) 42 5 20 false) [(3%nat, None)] [[1; 2; 3]; []; [255]] = Ret (sc, wire) /\
    forall cs e flag seed' pMin' pMax' sizes,
      concat cs = wire -> Forall (fun n => (0 < n)%nat) sizes ->
      exists sc' out err,
        conn_Reads (NewConn {| chunks := cs; net_err := e; err_with_data := flag |} (Some t) seed' pMin' pMax' true) sizes = Ret (sc', out, err) /\
        (err = None /\ out `prefix_of` [1; 2; 3; 255] /\ (length sizes <= length out)%nat \/ err = Some e /\ out = [1; 2; 3; 255]) /\
        GetBufferedAndRecorded sc' ++ concat (chunks (net sc')) = wire.
Proof.
  destruct ex_table as [t Ht]. exists t. split; [exact Ht|].
  exact (sudoku_stream_exact t [[1; 2; 3]; []; [255]] [(3%nat, None)] 42 5 20 (new_table_ok _ _ _ _ Ht)
    ltac:(repeat constructor; unfold is_u8; lia) ltac:(repeat constructor)).
Defined.

Lemma packed_stream_exact_witness :
  exists t, newSingleDirectionTable (bytes_of "key") (bytes_of "prefer_ascii") [] = Ret t /\
  exists pc wire, packed_Ops (NewPackedConn {| chunks := []; net_err := "EOF"; err_with_data := false |} (Some t) 42 5 20) [] [OpWrite [1; 2; 3]; OpFlush; OpWrite [255]] = Ret (pc, wire) /\
    forall cs e flag seed' pMin' pMax' sizes,
      concat cs = wire -> Forall (fun n => (0 < n)%nat) sizes ->
      exists pc' out err,
        packed_Reads (NewPackedConn {| chunks := cs; net_err := e; err_with_data := flag |} (Some t) seed' pMin' pMax') sizes = Ret (pc', out, err) /\
        (err = None /\ out `prefix_of` [1; 2; 3; 255] /\ (length sizes <= length out)%nat \/ err = Some e /\ out = [1; 2; 3; 255]).
Proof.
  destruct ex_table as [t Ht]. exists t. split; [exact Ht|].
  exact (packed_stream_exact t [OpWrite [1; 2; 3]; OpFlush; OpWrite [255]] [] 42 5 20 (new_table_ok _ _ _ _ Ht)
    ltac:(repeat constructor; unfold is_u8; lia) ltac:(repeat constructor)).
Defined.

(** ** Runs *)

Definition bare_table (l : byteLayout) : Table :=
  {| EncodeTable := []; DecodeMap := ∅; PaddingPool := paddingPool l; IsASCII := false; layout := l; table_hint := 0 |}.

Definition quiet (cs : list (list Z)) : Net := {| chunks := cs; net_err := "EOF"; err_with_data := false |}.

(** The packed connection writes twenty bytes and reads them back. *)
Example packed_run :
  let t := bare_table newEntropyLayout in
  let p := map (fun i => (i * 37) mod 256) (range 20) in
  (r ← packed_Ops (NewPackedConn (quiet []) (Some t) 7 10 30) [] [OpWrite p];
   r ← packed_Reads (NewPackedConn (quiet (map (fun b => [b]) r.2)) (Some t) 9 0 0) (replicate 21 3%nat);
   Ret (r.1.2, r.2)) = Ret (map (fun i => (i * 37) mod 256) (range 20), Some "EOF"%string).
Proof. vm_compute. reflexivity. Qed.

(** Four hints that are no puzzle, the first of them in a chunk of its own: the
    read fails, and leaves the count of hints at four, so that the next hint
    that arrives is written past the end of the buffer. *)
Example miss_then_index_out_of_range :
  let sc := NewConn (quiet [[0x40]; [0x41; 0x42; 0x43]; [0x44]]) (Some (bare_table newASCIILayout)) 7 0 0 false in
  exists sc', conn_Read sc 8 = Ret (sc', [], Some ErrInvalidSudokuMapMiss) /\ hintCount sc' = 4%nat /\ conn_Read sc' 8 = Panic.
Proof. eexists. split; [vm_compute; reflexivity|]. split; vm_compute; reflexivity. Qed.
