(* ===== verification/GoIo.v ===== *)
(** * Readers of Go's io package

    The interface of a connection to what reads from it: a read returns some
    of what the connection has still to deliver, and its error only when there
    is nothing more.  [io.ReadFull] over any such connection. *)

From S2P Require Import Prelude.

Lemma go_slice_front {A} (l r : list A) hi : hi = zlen l -> go_slice (l ++ r) 0 hi = Ret l.
Proof. intros ->. apply go_slice_app. Qed.

Lemma go_be_whole n v : 0 <= v < 256 ^ Z.of_nat n -> go_be n (put_be n v) = Ret v.
Proof. intros Hv. rewrite <-(app_nil_r (put_be n v)). by apply go_be_app. Qed.

(** [io.Reader], into a buffer of the given size. *)
Class Reader (R : Type) := rd : R -> nat -> res (R * list Z * option string).

(** [yields r X e]: [r] delivers [X] and then the error [e]. *)
Class ReaderLaws (R : Type) `{Reader R} := {
  yields : R -> list Z -> string -> Prop;
  rd_yields r X e size :
    yields r X e -> (0 < size)%nat ->
    exists r' out err, rd r size = Ret (r', out, err) /\
      match err with
      | Some e' => X = [] /\ out = [] /\ e' = e /\ yields r' [] e
      | None => out ≠ [] /\ (length out <= size)%nat /\ exists X', X = out ++ X' /\ yields r' X' e
      end
}.

Abbreviation EOF := "EOF"%string.
Abbreviation ErrUnexpectedEOF := "unexpected EOF"%string.

(** [io.ReadFull] of [n] more bytes after [got]; a reader that returns neither
    bytes nor an error is asked again. *)
Fixpoint read_full {R} `{Reader R} (fuel : nat) (r : R) (n : nat) (got : list Z) : res (R * list Z * option string) :=
  if (n =? 0)%nat then Ret (r, got, None)
  else match fuel with
       | O => Panic
       | S fuel =>
         '(r, out, err) ← rd r n;
         match err with
         | None => read_full fuel r (n - length out) (got ++ out)
         | Some e =>
           if (n <=? length out)%nat then Ret (r, got ++ out, None)
           else Ret (r, got ++ out, Some (if bool_decide (got ++ out = []) then e else if bool_decide (e = EOF) then ErrUnexpectedEOF else e))
         end
       end.

(** A reader that gives a byte at each read at least needs [n] reads. *)
Definition ReadFull {R} `{Reader R} (r : R) (n : nat) : res (R * list Z * option string) := read_full (S n) r n [].

(** [P r X] says that [r] has [X] to give before anything else. *)
Definition supply {R} `{Reader R} (P : R -> list Z -> Prop) : Prop :=
  forall r X size, P r X -> X ≠ [] -> (0 < size)%nat ->
  exists r' out, rd r size = Ret (r', out, None) /\ out ≠ [] /\ (length out <= size)%nat /\ exists X', X = out ++ X' /\ P r' X'.

Lemma read_full_supply {R} `{Reader R} (P : R -> list Z -> Prop) fuel r n got X :
  supply P -> P r X -> (n < fuel)%nat -> (n <= length X)%nat ->
  exists r', read_full fuel r n got = Ret (r', got ++ take n X, None) /\ P r' (drop n X).
Proof.
  intros HP. revert r n got X. induction fuel as [|fuel IH]; intros r n got X Hy Hf Hn; [lia|]. cbn [read_full].
  destruct (n =? 0)%nat eqn:E; [apply Nat.eqb_eq in E as ->; exists r; by rewrite take_0, app_nil_r, drop_0|]. apply Nat.eqb_neq in E.
  destruct (HP r X n Hy) as (r' & out & -> & Hne & Hlen & X' & -> & Hy'); [by intros ->; cbn in Hn; lia|lia|]. cbn [mbind res_bind].
  assert (length out ≠ 0)%nat by (destruct out; [done|cbn; lia]).
  rewrite length_app in Hn. destruct (IH r' (n - length out)%nat (got ++ out) X' Hy' ltac:(lia) ltac:(lia)) as (r2 & -> & Hy2).
  exists r2. rewrite take_app_ge, drop_app_ge, app_assoc by lia. done.
Qed.

Lemma ReadFull_supply {R} `{Reader R} (P : R -> list Z -> Prop) r n X :
  supply P -> P r X -> (n <= length X)%nat -> exists r', ReadFull r n = Ret (r', take n X, None) /\ P r' (drop n X).
Proof. intros HP Hy Hn. apply (read_full_supply P (S n) r n [] X HP Hy); [lia|done]. Qed.

Section laws.
  Context {R : Type} `{ReaderLaws R}.

Lemma yields_supply e : supply (fun r X => yields r X e).
Proof.
  intros r X size Hy Hne Hs. destruct (rd_yields r X e size Hy Hs) as (r' & out & err & -> & Hr). destruct err as [e'|].
  - by destruct Hr as [-> _].
  - exists r', out. split; [done|]. destruct Hr as (Ho & Hl & X' & -> & Hy'). split_and!; [done..|]. by exists X'.
Qed.

(** Enough bytes are read in full. *)
Lemma ReadFull_ok r n X e :
  yields r X e -> (n <= length X)%nat -> exists r', ReadFull r n = Ret (r', take n X, None) /\ yields r' (drop n X) e.
Proof. intros Hy Hn. by apply (ReadFull_supply (fun r X => yields r X e) r n X (yields_supply e)). Qed.

(** At the end of the stream the error is that of the reader. *)
Lemma ReadFull_end r n e :
  yields r [] e -> (0 < n)%nat -> exists r', ReadFull r n = Ret (r', [], Some e) /\ yields r' [] e.
Proof.
  intros Hy Hn. unfold ReadFull. cbn [read_full]. rewrite (proj2 (Nat.eqb_neq n 0)) by lia.
  destruct (rd_yields r [] e n Hy Hn) as (r' & out & err & -> & Hr). cbn [mbind res_bind]. destruct err as [e'|].
  - destruct Hr as (_ & -> & -> & Hy'). exists r'. cbn [length app]. rewrite (proj2 (Nat.leb_gt n 0)) by lia. done.
  - destruct Hr as (Hne & _ & X' & E & _). symmetry in E. apply app_eq_nil in E as []. done.
Qed.

(** With too few bytes there is an error. *)
Lemma ReadFull_short r n X e :
  yields r X e -> (length X < n)%nat -> exists r' out e', ReadFull r n = Ret (r', out, Some e').
Proof.
  unfold ReadFull. generalize (@nil Z) as got. assert (n < S n)%nat as Hf by lia. revert Hf. generalize (S n) as fuel.
  intros fuel. revert r n X. induction fuel as [|fuel IH]; intros r n X Hf got Hy Hn; [lia|]. cbn [read_full].
  rewrite (proj2 (Nat.eqb_neq n 0)) by lia. destruct (rd_yields r X e n Hy) as (r' & out & err & -> & Hr); [lia|]. cbn [mbind res_bind]. destruct err as [e'|].
  - destruct Hr as (_ & -> & _ & _). cbn [length]. rewrite (proj2 (Nat.leb_gt n 0)) by lia. by eexists _, _, _.
  - destruct Hr as (Hne & Hl & X' & -> & Hy'). rewrite length_app in Hn. assert (length out ≠ 0)%nat by (by destruct out). eapply IH; [|exact Hy'|]; lia.
Qed.

(** Reads of the given sizes, up to the first error. *)
Fixpoint Reads (r : R) (sizes : list nat) : res (R * list Z * option string) :=
  match sizes with
  | [] => Ret (r, [], None)
  | size :: sizes =>
    '(r, out, err) ← rd r size;
    match err with
    | Some e => Ret (r, out, Some e)
    | None => '(r, rest, err) ← Reads r sizes; Ret (r, out ++ rest, err)
    end
  end.

(** They return the first bytes, one each at least, and all of them before the
    error. *)
Lemma Reads_ok r sizes X e :
  yields r X e -> Forall (fun n => (0 < n)%nat) sizes ->
  exists r' out err, Reads r sizes = Ret (r', out, err) /\
    (err = None /\ out `prefix_of` X /\ (length sizes <= length out)%nat \/ err = Some e /\ out = X).
Proof.
  intros Hy Hs. revert r X Hy. induction Hs as [|size sizes Hn Hs IH]; intros r X Hy; cbn [Reads].
  - exists r, [], None. split; [done|]. left. split_and!; [done|apply prefix_nil|cbn; lia].
  - destruct (rd_yields r X e size Hy Hn) as (r1 & out & err & -> & Hg). cbn [mbind res_bind]. destruct err as [e'|].
    + destruct Hg as (-> & -> & -> & _). eexists _, _, _. split; [done|]. by right.
    + destruct Hg as (Hne & Hlen & X' & -> & Hy'). destruct (IH r1 X' Hy') as (r2 & rest & err & -> & Hr). cbn [mbind res_bind].
      eexists _, _, _. split; [done|]. destruct Hr as [(-> & Hp & Hle)|[-> ->]]; [left|by right]. split_and!; [done|by apply prefix_app|].
      rewrite length_app. destruct out; [done|]. cbn [length]. lia.
Qed.
End laws.

(** ** Writing *)

(** [io.Writer]: the count of the bytes written and the error. *)
Class Writer (W : Type) := wr : W -> list Z -> res (W * Z * option string).

Abbreviation ErrShortWrite := "short write"%string.

(** A write without an error has written all its bytes after those before. *)
Class WriterLaws (W : Type) `{Writer W} := {
  wrote : W -> list Z -> Prop;
  wr_wrote w bs w' n X : wrote w X -> wr w bs = Ret (w', n, None) -> wrote w' (X ++ bs)
}.
