(* ===== verification/GoIoExample.v ===== *)
(** * A reader and a writer

    A connection that delivers what it is made of, and one that takes all that is
    written to it: they satisfy the laws of [GoIo]. *)

From S2P Require Import Prelude GoIo.

(** A connection that delivers pieces, and then ends. *)
Definition pieces_reader : Reader (list (list Z)) := fun r size =>
  match r with
  | [] => Ret ([], [], Some EOF)
  | p :: r => Ret (if (size <? length p)%nat then drop size p :: r else r, take size p, None)
  end.

#[local] Existing Instance pieces_reader.

Definition pieces_laws : ReaderLaws (list (list Z)).
Proof.
  refine {| yields := fun r X e => Forall (fun p => p ≠ []) r /\ concat r = X /\ e = EOF |}.
  intros r X e size (Hr & <- & ->) Hs. destruct Hr as [|p r Hp Hr]; cbn [rd pieces_reader].
  - by exists [], [], (Some EOF).
  - eexists _, _, None. split; [done|]. cbv beta iota. split_and!; [destruct p; [done|]; destruct size; [lia|done]|rewrite length_take; lia|].
    destruct (size <? length p)%nat eqn:E.
    + exists (drop size p ++ concat r). split; [cbn [concat]; by rewrite app_assoc, take_drop|]. split_and!; [|done|done].
      constructor; [|done]. intros Hn. apply (f_equal length) in Hn. rewrite length_drop in Hn. change (length (@nil Z)) with 0%nat in Hn. apply Nat.ltb_lt in E. lia.
    + exists (concat r). apply Nat.ltb_ge in E. split; [cbn [concat]; by rewrite take_ge by lia|done].
Defined.

(** A connection that takes all bytes. *)
Definition sink_writer : Writer (list Z) := fun w bs => Ret (w ++ bs, zlen bs, None).

#[local] Existing Instance sink_writer.

Definition sink_laws : WriterLaws (list Z).
Proof. refine {| wrote := fun w X => w = X |}. intros w bs w' n X <- [= <- _]. reflexivity. Defined.
