(* ===== verification/SudokuRecord.v ===== *)
(** * Encrypted records of the Sudoku transport
    (src/transport/sudoku/crypto/record_conn.go)

    A connection that is cut into records, each with its epoch and number as
    nonce and as associated data.  The sender changes the key, with the epoch,
    after so many bytes; the receiver takes the records in order only.  The
    ciphers and HMAC are parameters. *)

From S2P Require Import Prelude GoIo.

Inductive Cipher := AES128GCM | ChaCha20Poly1305.

#[export] Instance Cipher_dec : EqDecision Cipher.
Proof. solve_decision. Defined.

(** crypto/hmac with SHA-256, and the [cipher.AEAD]s: [Seal(nil, nonce, plain,
    data)] and [Open], with the key first. *)
Class RecordLib := {
  hmac_sha256 : list Z -> list Z -> list Z;
  aead_Overhead : Cipher -> Z;
  aead_NonceSize : Cipher -> Z;
  aead_Seal : Cipher -> list Z -> list Z -> list Z -> list Z -> list Z;
  aead_Open : Cipher -> list Z -> list Z -> list Z -> list Z -> option (list Z)
}.

(** A sealed message opens to itself, and is longer by the overhead, which for
    both ciphers is 16, as their nonces are of 12 bytes. *)
Class RecordLaws `{RecordLib} : Prop := {
  hmac_size key message : length (hmac_sha256 key message) = 32%nat;
  overhead_16 c : aead_Overhead c = 16;
  nonce_12 c : aead_NonceSize c = 12;
  open_seal c key nonce plain data : is_bytes plain -> aead_Open c key nonce (aead_Seal c key nonce plain data) data = Some plain;
  seal_length c key nonce plain data : zlen (aead_Seal c key nonce plain data) = zlen plain + 16;
  seal_bytes c key nonce plain data : is_bytes (aead_Seal c key nonce plain data)
}.

Abbreviation recordHeaderSize := 12.
Abbreviation maxFrameBodySize := 65535.

Record Aead := { a_cipher : Cipher; a_key : list Z }.

Record RecordConn := mk_record {
  method : string;
  baseSend : list Z;
  baseRecv : list Z;
  sendAEAD : option Aead;
  sendAEADEpoch : Z;
  recvAEAD : option Aead;
  recvAEADEpoch : Z;
  sendEpoch : Z;
  sendSeq : Z;
  sendBytes : Z;
  sendEpochUpdates : Z;
  recvEpoch : Z;
  recvSeq : Z;
  recvInitialized : bool;
  readBuf : list Z
}.

(** ** Counters *)

(** Draws of crypto/rand, until one is neither zero nor all ones; there is an
    error when the source has no more. *)
Fixpoint randomNonZero (max : Z) (draws : list Z) : res (Z * list Z) :=
  match draws with
  | [] => Err "rand"
  | v :: draws => if negb (v =? 0) && negb (v =? max) then Ret (v, draws) else randomNonZero max draws
  end.

Definition randomRecordCounters (draws : list Z) : res (Z * Z * list Z) :=
  '(epoch, draws) ← randomNonZero (2 ^ 32 - 1) draws;
  '(seq, draws) ← randomNonZero (2 ^ 64 - 1) draws;
  Ret (epoch, seq, draws).

Definition resetTrafficState (c : RecordConn) (draws : list Z) : res (RecordConn * list Z) :=
  '(epoch, seq, draws) ← randomRecordCounters draws;
  Ret ({| method := method c; baseSend := baseSend c; baseRecv := baseRecv c; sendAEAD := sendAEAD c; sendAEADEpoch := sendAEADEpoch c;
          recvAEAD := recvAEAD c; recvAEADEpoch := recvAEADEpoch c; sendEpoch := epoch; sendSeq := seq; sendBytes := 0;
          sendEpochUpdates := 0; recvEpoch := 0; recvSeq := 0; recvInitialized := false; readBuf := readBuf c |}, draws).

Definition normalizeAEADMethod (m : string) : string := if bool_decide (m = "") then "chacha20-poly1305" else m.

Definition validateBaseKey (b : list Z) : bool := 32 <=? zlen b.

Definition with_keys (c : RecordConn) (send recv : list Z) : RecordConn :=
  {| method := method c; baseSend := send; baseRecv := recv; sendAEAD := sendAEAD c; sendAEADEpoch := sendAEADEpoch c;
     recvAEAD := recvAEAD c; recvAEADEpoch := recvAEADEpoch c; sendEpoch := sendEpoch c; sendSeq := sendSeq c; sendBytes := sendBytes c;
     sendEpochUpdates := sendEpochUpdates c; recvEpoch := recvEpoch c; recvSeq := recvSeq c; recvInitialized := recvInitialized c;
     readBuf := readBuf c |}.

Definition NewRecordConn (m : string) (send recv draws : list Z) : res (RecordConn * list Z) :=
  let m := normalizeAEADMethod m in
  if negb (bool_decide (m = "none"%string)) && negb (validateBaseKey send) then Err "invalid send base key"
  else if negb (bool_decide (m = "none"%string)) && negb (validateBaseKey recv) then Err "invalid recv base key"
  else resetTrafficState {| method := m; baseSend := send; baseRecv := recv; sendAEAD := None; sendAEADEpoch := 0; recvAEAD := None;
         recvAEADEpoch := 0; sendEpoch := 0; sendSeq := 0; sendBytes := 0; sendEpochUpdates := 0; recvEpoch := 0; recvSeq := 0;
         recvInitialized := false; readBuf := [] |} draws.

Definition Rekey (c : RecordConn) (send recv draws : list Z) : res (RecordConn * list Z) :=
  if negb (bool_decide (method c = "none"%string)) && negb (validateBaseKey send) then Err "invalid send base key"
  else if negb (bool_decide (method c = "none"%string)) && negb (validateBaseKey recv) then Err "invalid recv base key"
  else
    '(c, draws) ← resetTrafficState (with_keys c send recv) draws;
    Ret ({| method := method c; baseSend := baseSend c; baseRecv := baseRecv c; sendAEAD := None; sendAEADEpoch := 0; recvAEAD := None;
            recvAEADEpoch := 0; sendEpoch := sendEpoch c; sendSeq := sendSeq c; sendBytes := sendBytes c;
            sendEpochUpdates := sendEpochUpdates c; recvEpoch := recvEpoch c; recvSeq := recvSeq c;
            recvInitialized := recvInitialized c; readBuf := [] |}, draws).

(** ** Sending *)

Section record.
  Context `{RecordLib}.
  (** [KeyUpdateAfterBytes] *)
  Variable ku : Z.

Definition deriveEpochKey (base : list Z) (epoch : Z) (m : string) : list Z :=
  hmac_sha256 base (bytes_of "sudoku-record:" ++ bytes_of m ++ put_be 4 epoch).

Definition newAEADFor (m : string) (base : list Z) (epoch : Z) : res (option Aead) :=
  if bool_decide (m = "none"%string) then Ret None
  else
    let key := deriveEpochKey base epoch m in
    if bool_decide (m = "aes-128-gcm"%string) then
      k ← go_slice key 0 16;
      if negb (aead_NonceSize AES128GCM =? recordHeaderSize) then Err "unexpected gcm nonce size"
      else Ret (Some {| a_cipher := AES128GCM; a_key := k |})
    else if bool_decide (m = "chacha20-poly1305"%string) then
      k ← go_slice key 0 32;
      if negb (aead_NonceSize ChaCha20Poly1305 =? recordHeaderSize) then Err "unexpected chacha nonce size"
      else Ret (Some {| a_cipher := ChaCha20Poly1305; a_key := k |})
    else Err "unsupported cipher".

Definition set_send (c : RecordConn) (a : option Aead) (aepoch epoch seq bytes updates : Z) : RecordConn :=
  {| method := method c; baseSend := baseSend c; baseRecv := baseRecv c; sendAEAD := a; sendAEADEpoch := aepoch;
     recvAEAD := recvAEAD c; recvAEADEpoch := recvAEADEpoch c; sendEpoch := epoch; sendSeq := seq; sendBytes := bytes;
     sendEpochUpdates := updates; recvEpoch := recvEpoch c; recvSeq := recvSeq c; recvInitialized := recvInitialized c;
     readBuf := readBuf c |}.

Definition maybeBumpSendEpochLocked (c : RecordConn) (addedPlain : Z) (draws : list Z) : RecordConn * list Z * option string :=
  if (ku <=? 0) || bool_decide (method c = "none"%string) then (c, draws, None)
  else
    let bytes := i64 (sendBytes c + addedPlain) in
    let c := set_send c (sendAEAD c) (sendAEADEpoch c) (sendEpoch c) (sendSeq c) bytes (sendEpochUpdates c) in
    let threshold := i64 (ku * u32 (sendEpochUpdates c + 1)) in
    if bytes <? threshold then (c, draws, None)
    else
      let c := set_send c (sendAEAD c) (sendAEADEpoch c) (u32 (sendEpoch c + 1)) (sendSeq c) bytes (u32 (sendEpochUpdates c + 1)) in
      match randomNonZero (2 ^ 64 - 1) draws with
      | Ret (seq, draws) => (set_send c (sendAEAD c) (sendAEADEpoch c) (sendEpoch c) seq bytes (sendEpochUpdates c), draws, None)
      | _ => (c, [], Some "rotate record seq"%string)
      end.

(** [Seal(nil, nonce, plain, data)] for the cipher and key of an epoch. *)
Definition seal_with (a : Aead) (header chunk : list Z) : list Z := aead_Seal (a_cipher a) (a_key a) header chunk header.

Definition record_header (epoch seq : Z) : list Z := put_be 4 epoch ++ put_be 8 seq.

Definition frame_of (a : Aead) (epoch seq : Z) (chunk : list Z) : list Z :=
  let header := record_header epoch seq in
  put_be 2 (recordHeaderSize + (zlen chunk + aead_Overhead (a_cipher a))) ++ header ++ seal_with a header chunk.

(** What a write returns: the state, the rest of the random source and of the
    answers of the connection below, the frames sent, the count and the error. *)
Record Sent := { s_conn : RecordConn; s_draws : list Z; s_script : list (option string); s_frames : list (list Z); s_total : Z; s_err : option string }.

Definition stop (c : RecordConn) (draws : list Z) (script : list (option string)) (frames : list (list Z)) (total : Z) (err : option string) : res Sent :=
  Ret {| s_conn := c; s_draws := draws; s_script := script; s_frames := frames; s_total := total; s_err := err |}.

(** The cipher for the epoch of the next record. *)
Definition send_aead (c : RecordConn) : res (option Aead) :=
  if bool_decide (sendAEAD c = None) || negb (sendAEADEpoch c =? sendEpoch c)
  then newAEADFor (method c) (baseSend c) (sendEpoch c) else Ret (sendAEAD c).

Fixpoint write_records (fuel : nat) (c : RecordConn) (draws : list Z) (script : list (option string)) (p : list Z)
  (frames : list (list Z)) (total : Z) : res Sent :=
  if bool_decide (p = []) then stop c draws script frames total None
  else match fuel with
       | O => Panic
       | S fuel =>
         match send_aead c with
         | Err e => stop c draws script frames total (Some e)
         | Ret (Some a) =>
           let c := set_send c (Some a) (sendEpoch c) (sendEpoch c) (sendSeq c) (sendBytes c) (sendEpochUpdates c) in
           let maxPlain := maxFrameBodySize - recordHeaderSize - aead_Overhead (a_cipher a) in
           if maxPlain <=? 0 then stop c draws script frames total (Some "frame size too small"%string)
           else
             let n := if maxPlain <? zlen p then maxPlain else zlen p in
             let chunk := take (Z.to_nat n) p in
             let p := drop (Z.to_nat n) p in
             let frame := frame_of a (sendEpoch c) (sendSeq c) chunk in
             let c := set_send c (sendAEAD c) (sendAEADEpoch c) (sendEpoch c) (u64 (sendSeq c + 1)) (sendBytes c) (sendEpochUpdates c) in
             if maxFrameBodySize <? recordHeaderSize + (n + aead_Overhead (a_cipher a))
             then stop c draws script frames total (Some "frame too large"%string)
             else match script with
                  | Some e :: script => stop c draws script frames total (Some e)
                  | _ =>
                    let script := tail script in
                    let '(c, draws, err) := maybeBumpSendEpochLocked c n draws in
                    match err with
                    | Some e => stop c draws script (frames ++ [frame]) (total + n) (Some e)
                    | None => write_records fuel c draws script p (frames ++ [frame]) (total + n)
                    end
                  end
         | _ => Panic
         end
       end.

(** [Write]: every frame is one write to the connection below, which answers
    with the errors of the script and then takes all; without encryption the
    bytes are passed on as they are. *)
Definition record_Write (c : RecordConn) (draws : list Z) (script : list (option string)) (p : list Z) : res Sent :=
  if bool_decide (method c = "none"%string) then
    match script with
    | Some e :: script => stop c draws script [] 0 (Some e)
    | _ => stop c draws (tail script) [p] (zlen p) None
    end
  else write_records (S (length p)) c draws script p [] 0.

(** ** Receiving *)

Definition validateRecvPosition (c : RecordConn) (epoch seq : Z) : option string :=
  if negb (recvInitialized c) then None
  else if epoch <? recvEpoch c then Some "replayed epoch"%string
  else if (epoch =? recvEpoch c) && negb (seq =? recvSeq c) then Some "out of order"%string
  else if (recvEpoch c <? epoch) && (8 <? epoch - recvEpoch c) then Some "epoch jump too large"%string
  else None.

Definition set_recv (c : RecordConn) (a : option Aead) (aepoch epoch seq : Z) (init : bool) (buf : list Z) : RecordConn :=
  {| method := method c; baseSend := baseSend c; baseRecv := baseRecv c; sendAEAD := sendAEAD c; sendAEADEpoch := sendAEADEpoch c;
     recvAEAD := a; recvAEADEpoch := aepoch; sendEpoch := sendEpoch c; sendSeq := sendSeq c; sendBytes := sendBytes c;
     sendEpochUpdates := sendEpochUpdates c; recvEpoch := epoch; recvSeq := seq; recvInitialized := init; readBuf := buf |}.

Definition markRecvPosition (c : RecordConn) (epoch seq : Z) : RecordConn :=
  set_recv c (recvAEAD c) (recvAEADEpoch c) epoch (u64 (seq + 1)) true (readBuf c).

(** [bytes.Buffer.Read] *)
Definition read_buffer (c : RecordConn) (size : nat) : RecordConn * list Z * option string :=
  if bool_decide (readBuf c = []) then (c, [], if (size =? 0)%nat then None else Some EOF)
  else (set_recv c (recvAEAD c) (recvAEADEpoch c) (recvEpoch c) (recvSeq c) (recvInitialized c) (drop size (readBuf c)), take size (readBuf c), None).

Section reader.
  Context {R : Type} `{Reader R}.

Abbreviation reply := (RecordConn * R * list Z * option string)%type.

(** The cipher for the epoch of a record that arrived. *)
Definition recv_aead (c : RecordConn) (epoch : Z) : res (option Aead) :=
  if bool_decide (recvAEAD c = None) || negb (recvAEADEpoch c =? epoch)
  then newAEADFor (method c) (baseRecv c) epoch else Ret (recvAEAD c).

(** A record: its position is checked before it is opened. *)
Definition open_record (c : RecordConn) (body : list Z) : res (RecordConn * option string) :=
  header ← go_slice body 0 recordHeaderSize;
  ciphertext ← go_from body recordHeaderSize;
  eb ← go_slice header 0 4;
  epoch ← go_be 4 eb;
  sb ← go_from header 4;
  seq ← go_be 8 sb;
  match validateRecvPosition c epoch seq with
  | Some e => Ret (c, Some e)
  | None =>
    match recv_aead c epoch with
    | Err e => Ret (c, Some e)
    | Ret (Some a) =>
      let c := set_recv c (Some a) epoch (recvEpoch c) (recvSeq c) (recvInitialized c) (readBuf c) in
      match aead_Open (a_cipher a) (a_key a) header ciphertext header with
      | None => Ret (c, Some "decryption failed"%string)
      | Some plaintext =>
        let c := markRecvPosition c epoch seq in
        Ret (set_recv c (recvAEAD c) (recvAEADEpoch c) (recvEpoch c) (recvSeq c) (recvInitialized c) (readBuf c ++ plaintext), None)
      end
    | _ => Panic
    end
  end.

Definition record_Read (c : RecordConn) (r : R) (size : nat) : res reply :=
  if bool_decide (method c = "none"%string) then '(r, out, err) ← rd r size; Ret (c, r, out, err)
  else if negb (bool_decide (readBuf c = [])) then let '(c, out, err) := read_buffer c size in Ret (c, r, out, err)
  else
    '(r, lenBuf, err) ← ReadFull r 2;
    match err with
    | Some e => Ret (c, r, [], Some e)
    | None =>
      bodyLen ← go_be 2 lenBuf;
      if bodyLen <? recordHeaderSize then Ret (c, r, [], Some "frame too short"%string)
      else if maxFrameBodySize <? bodyLen then Ret (c, r, [], Some "frame too large"%string)
      else
        '(r, body, err) ← ReadFull r (Z.to_nat bodyLen);
        match err with
        | Some e => Ret (c, r, [], Some e)
        | None =>
          '(c, err) ← open_record c body;
          match err with
          | Some e => Ret (c, r, [], Some e)
          | None => let '(c, out, err) := read_buffer c size in Ret (c, r, out, err)
          end
        end
    end.
End reader.
End record.
