(* ===== verification/SudokuRecordExact.v ===== *)
(** * Records are delivered in order and once

    The records of a sender follow one another as the receiver demands, no
    nonce is used twice, and what was written is what is read; of whatever
    records arrive, the receiver accepts none twice. *)

From S2P Require Import Prelude GoIo SudokuRecord.

(** ** Positions *)

(** The position that a receiver expects, when it has had a record. *)
Definition position (c : RecordConn) : option (Z * Z) := if recvInitialized c then Some (recvEpoch c, recvSeq c) else None.

Definition accepts (pos : option (Z * Z)) (e s : Z) : Prop :=
  match pos with
  | None => True
  | Some (e0, s0) => e0 <= e <= e0 + 8 /\ (e = e0 -> s = s0)
  end.

Lemma validate_accepts c e s : validateRecvPosition c e s = None <-> accepts (position c) e s.
Proof.
  unfold validateRecvPosition, position, accepts. destruct (recvInitialized c); cbn [negb]; [|done].
  destruct (e <? recvEpoch c) eqn:E1; [split; [done|lia]|].
  destruct ((e =? recvEpoch c) && negb (s =? recvSeq c)) eqn:E2; [split; [done|lia]|].
  destruct ((recvEpoch c <? e) && (8 <? e - recvEpoch c)) eqn:E3; split; try done; lia.
Qed.

(** A sequence of positions, each of which is accepted after the one before. *)
Inductive chain : option (Z * Z) -> list (Z * Z) -> Prop :=
  | chain_nil pos : chain pos []
  | chain_cons pos e s rest : accepts pos e s -> is_u64 s -> chain (Some (e, u64 (s + 1))) rest -> chain pos ((e, s) :: rest).

Lemma chain_lookup e0 s0 ps i e s :
  chain (Some (e0, s0)) ps -> ps !! i = Some (e, s) -> e0 <= e /\ (e = e0 -> s = u64 (s0 + Z.of_nat i) \/ s = s0 /\ i = 0%nat).
Proof.
  revert e0 s0 i. induction ps as [|[e1 s1] ps IH]; intros e0 s0 i Hc Hi; [done|].
  inversion Hc as [|pos e' s' rest Ha Hu Hc']; subst. destruct Ha as [He Hs]. destruct i as [|i]; cbn in Hi.
  - injection Hi as -> ->. split; [lia|]. intros ->. right. split; [by apply Hs|done].
  - destruct (IH _ _ _ Hc' Hi) as [H1 H2]. split; [lia|]. intros ->. assert (e1 = e0) as -> by lia. rewrite <-(Hs eq_refl). left.
    destruct (H2 eq_refl) as [->|[-> ->]]; unfold u64; [rewrite Zplus_mod_idemp_l|]; f_equal; lia.
Qed.

Lemma chain_app_inv pos a b : chain pos (a ++ b) -> exists pos', chain pos' b.
Proof.
  revert pos. induction a as [|[e s] a IH]; intros pos Hc; [by exists pos|]. inversion Hc; subst. by eapply IH.
Qed.

(** No position occurs twice. *)
Lemma chain_distinct pos ps : chain pos ps -> zlen ps < 2 ^ 64 -> NoDup ps.
Proof.
  revert pos. induction ps as [|[e s] ps IH]; intros pos Hc Hl; [constructor|].
  inversion Hc as [|pos' e' s' rest Ha Hu Hc']; subst. constructor; [|apply (IH _ Hc'); unfold zlen in *; cbn in Hl; lia].
  intros (i & Hi)%list_elem_of_lookup. destruct (chain_lookup _ _ _ _ _ _ Hc' Hi) as [_ Hs].
  apply lookup_lt_Some in Hi as Hlt. unfold zlen in Hl. cbn [length] in Hl. unfold is_u64 in Hu.
  destruct (Hs eq_refl) as [E|[E _]]; unfold u64 in E.
  - rewrite Zplus_mod_idemp_l in E.
    destruct (decide (s + 1 + Z.of_nat i < 2 ^ 64)); [rewrite Z.mod_small in E; lia|].
    rewrite <-(Z.mod_add _ (-1)), Z.mod_small in E by lia. lia.
  - destruct (decide (s + 1 < 2 ^ 64)); [rewrite Z.mod_small in E; lia|]. assert (s + 1 = 2 ^ 64) as E1 by lia. rewrite E1, Z.mod_same in E by lia. lia.
Qed.

(** ** Whatever arrives *)

Section adversary.
  Context `{RecordLib} `{!RecordLaws}.

(** Records as they arrive; the headers of those that are accepted. *)
Fixpoint open_all (c : RecordConn) (bodies : list (list Z)) : res (RecordConn * list (list Z)) :=
  match bodies with
  | [] => Ret (c, [])
  | body :: bodies =>
    '(c, err) ← open_record c body;
    '(c, hs) ← open_all c bodies;
    Ret (c, match err with None => take 12 body :: hs | Some _ => hs end)
  end.

Lemma newAEADFor_total m base e :
  m ≠ "none"%string ->
  match newAEADFor m base e with Ret (Some _) => True | Err _ => True | _ => False end.
Proof.
  intros Hm. unfold newAEADFor. rewrite bool_decide_false by done. cbv zeta. set (key := deriveEpochKey _ _ _).
  assert (zlen key = 32) as Hk by (unfold zlen, key, deriveEpochKey; by rewrite hmac_size).
  rewrite !go_slice_ok by lia. rewrite !nonce_12. cbn [mbind res_bind Z.eqb Pos.eqb negb]. repeat case_bool_decide; done.
Qed.

(** The position in a header. *)
Definition header_position (h : list Z) : Z * Z := (get_be (take 4 h), get_be (drop 4 h)).

Lemma open_record_position c body :
  method c ≠ "none"%string -> is_bytes body -> 12 <= zlen body ->
  exists c' err, open_record c body = Ret (c', err) /\ method c' = method c /\
    match err with
    | None =>
      let '(e, s) := header_position (take 12 body) in
      accepts (position c) e s /\ is_u64 s /\ position c' = Some (e, u64 (s + 1))
    | Some _ => position c' = position c
    end.
Proof.
  intros Hm Hb Hl. unfold open_record. rewrite go_slice_ok, go_from_ok by lia. cbn [mbind res_bind].
  change (take (Z.to_nat (12 - 0)) (drop (Z.to_nat 0) body)) with (take 12 body).
  assert (length (take 12 body) = 12%nat) as Hh by (rewrite length_take; unfold zlen in Hl; lia). set (h := take 12 body) in *.
  assert (is_bytes h) as Hhb by by apply Forall_take.
  assert (zlen h = 12) as Hz by (unfold zlen; by rewrite Hh).
  rewrite go_slice_ok, go_from_ok by lia. cbn [mbind res_bind].
  change (take (Z.to_nat (4 - 0)) (drop (Z.to_nat 0) h)) with (take 4 h). change (drop (Z.to_nat 4) h) with (drop 4 h).
  rewrite !go_be_ok by (unfold zlen; rewrite ?length_take, ?length_drop, Hh; lia). cbn [mbind res_bind].
  rewrite take_take, (take_ge (drop 4 h)) by (rewrite length_drop, Hh; lia). change (4 `min` 4)%nat with 4%nat.
  assert (is_u64 (get_be (drop 4 h))) as Hu.
  { pose proof (get_be_range (drop 4 h) ltac:(by apply Forall_drop)) as Hr. unfold zlen in Hr. rewrite length_drop, Hh in Hr. exact Hr. }
  unfold header_position. set (e := get_be (take 4 h)). set (s := get_be (drop 4 h)) in *.
  destruct (validateRecvPosition c e s) as [err|] eqn:Ev; [by eexists _, _|]. apply validate_accepts in Ev.
  unfold recv_aead. assert (match (if bool_decide (recvAEAD c = None) || negb (recvAEADEpoch c =? e) then newAEADFor (method c) (baseRecv c) e else Ret (recvAEAD c)) with
    Ret (Some _) => True | Err _ => True | _ => False end) as Ha.
  { case_bool_decide as En; cbn [orb]; [by apply newAEADFor_total|]. destruct (negb _); [by apply newAEADFor_total|]. by destruct (recvAEAD c). }
  destruct (if bool_decide _ || _ then _ else _) as [[a|]|err|]; [|done| |done].
  - cbv zeta. destruct (aead_Open _ _ _ _ _); eexists _, _; (split; [reflexivity|]); (split; [done|]); [|done]. by split.
  - by eexists _, _.
Qed.

Lemma open_all_chain c bodies :
  method c ≠ "none"%string -> Forall (fun body => is_bytes body /\ 12 <= zlen body) bodies ->
  exists c' hs, open_all c bodies = Ret (c', hs) /\ chain (position c) (map header_position hs) /\ (length hs <= length bodies)%nat.
Proof.
  intros Hm HF. revert c Hm. induction HF as [|body bodies [Hb Hl] HF IH]; intros c Hm; cbn [open_all].
  - exists c, []. split; [done|]. split; [constructor|done].
  - destruct (open_record_position c body Hm Hb Hl) as (c1 & err & -> & Hm1 & Hp). cbn [mbind res_bind].
    destruct (IH c1 ltac:(by rewrite Hm1)) as (c2 & hs & -> & Hc & Hlen). cbn [mbind res_bind]. eexists _, _. split; [done|].
    destruct err as [e|].
    + rewrite <-Hp. split; [done|]. cbn. lia.
    + cbn [map length]. destruct (header_position (take 12 body)) as [e s]. destruct Hp as (Ha & Hu & Hp). rewrite Hp in Hc. split; [by constructor|lia].
Qed.

(** C28: whatever records arrive, in whatever order and however often, none is
    accepted twice: the epochs and numbers of those accepted are distinct. *)
Theorem record_no_replay c bodies :
  method c ≠ "none"%string -> Forall (fun body => is_bytes body /\ 12 <= zlen body) bodies -> zlen bodies < 2 ^ 64 ->
  exists c' hs, open_all c bodies = Ret (c', hs) /\ NoDup hs.
Proof.
  intros Hm HF Hl. destruct (open_all_chain c bodies Hm HF) as (c' & hs & E & Hc & Hlen). exists c', hs. split; [done|].
  apply (NoDup_fmap_1 header_position). apply (chain_distinct (position c)); [done|]. unfold zlen in *. rewrite length_map. lia.
Qed.
End adversary.

(** ** What a sender sends *)

Definition supported (m : string) : Prop := m = "aes-128-gcm"%string \/ m = "chacha20-poly1305"%string.

(** The end of a chain. *)
Fixpoint endpos (pos : option (Z * Z)) (ps : list (Z * Z)) : option (Z * Z) :=
  match ps with
  | [] => pos
  | (e, s) :: ps => endpos (Some (e, u64 (s + 1))) ps
  end.

Lemma chain_app pos a b : chain pos a -> chain (endpos pos a) b -> chain pos (a ++ b).
Proof. intros Ha. induction Ha as [|pos e s rest Hacc Hu Hc IH]; cbn; [done|]. intros Hb. constructor; auto. Qed.

Lemma endpos_app pos a b : endpos pos (a ++ b) = endpos (endpos pos a) b.
Proof. revert pos. induction a as [|[e s] a IH]; intros pos; cbn; [done|]. apply IH. Qed.

Section exact.
  Context `{RecordLib} `{!RecordLaws}.

Lemma newAEADFor_ok m base e : supported m -> exists a, newAEADFor m base e = Ret (Some a).
Proof.
  intros Hm. pose proof (newAEADFor_total m base e ltac:(by destruct Hm as [->| ->])) as Ht. unfold newAEADFor in *.
  set (key := deriveEpochKey _ _ _) in *. assert (zlen key = 32) as Hk by (unfold zlen, key, deriveEpochKey; by rewrite hmac_size).
  rewrite !go_slice_ok by lia. rewrite !nonce_12. cbn [mbind res_bind Z.eqb Pos.eqb negb].
  destruct Hm as [->| ->]; (rewrite bool_decide_false by done); [rewrite bool_decide_true by done|rewrite bool_decide_false, bool_decide_true by done]; by eexists.
Qed.

(** A record: its position and what it carries. *)
Abbreviation rec := (Z * Z * list Z)%type.

Definition is_frame (m : string) (base : list Z) (r : rec) (frame : list Z) : Prop :=
  let '(e, s, plain) := r in
  is_u32 e /\ is_bytes plain /\ plain ≠ [] /\ zlen plain <= 65507 /\
  exists a, newAEADFor m base e = Ret (Some a) /\ frame = frame_of a e s plain.

Definition plains (recs : list rec) : list Z := concat (map snd recs).

Definition cached (m : string) (base : list Z) (a : option Aead) (e : Z) : Prop := a = None \/ newAEADFor m base e = Ret a.

Record send_ok (c : RecordConn) (pos : option (Z * Z)) : Prop := {
  so_method : supported (method c);
  so_cached : cached (method c) (baseSend c) (sendAEAD c) (sendAEADEpoch c);
  so_epoch : is_u32 (sendEpoch c);
  so_seq : is_u64 (sendSeq c);
  so_next : accepts pos (sendEpoch c) (sendSeq c)
}.

Lemma send_aead_ok c pos :
  send_ok c pos -> exists a, send_aead c = Ret (Some a) /\ newAEADFor (method c) (baseSend c) (sendEpoch c) = Ret (Some a).
Proof.
  intros [Hm Hc He Hs Hn]. destruct (newAEADFor_ok (method c) (baseSend c) (sendEpoch c) Hm) as [a Ha]. exists a. split; [|done].
  unfold send_aead. case_bool_decide as En; cbn [orb]; [done|]. destruct (negb _) eqn:E; [done|]. apply negb_false_iff, Z.eqb_eq in E.
  destruct Hc as [?|Hc]; [done|]. rewrite E, Ha in Hc. done.
Qed.

Lemma random_range max draws v rest :
  randomNonZero max draws = Ret (v, rest) -> Forall is_u64 draws -> is_u64 v /\ Forall is_u64 rest.
Proof.
  induction draws as [|d draws IH]; cbn; [done|]. intros E Hd. apply Forall_cons in Hd as [Hd Hds]. destruct (negb _ && negb _); [|by apply IH].
  injection E as <- <-. done.
Qed.

(** After a record the next position is accepted, in the epoch or in the next. *)
Lemma bump_ok ku c e s n draws :
  supported (method c) -> cached (method c) (baseSend c) (sendAEAD c) (sendAEADEpoch c) ->
  sendEpoch c = e -> sendSeq c = u64 (s + 1) -> 0 <= e < 2 ^ 32 - 1 -> Forall is_u64 draws ->
  exists c' draws' err, maybeBumpSendEpochLocked ku c n draws = (c', draws', err) /\ Forall is_u64 draws' /\
    send_ok c' (Some (e, u64 (s + 1))) /\ sendEpoch c' <= e + 1 /\ method c' = method c /\ baseSend c' = baseSend c.
Proof.
  intros Hm Hc He Hs Hr Hd. unfold maybeBumpSendEpochLocked.
  assert (is_u64 (u64 (s + 1))) as Hu by (unfold is_u64, u64; apply Z.mod_pos_bound; lia).
  assert (forall e', e <= e' <= e + 1 -> is_u32 e') as He32 by (unfold is_u32; lia).
  destruct (_ || _).
  - eexists _, _, _. split; [reflexivity|]. split_and!; [done| |lia|done..]. split; try done; [apply He32; lia|by rewrite Hs|]. split; [lia|]. intros _. done.
  - cbv zeta. destruct (_ <? _).
    + eexists _, _, _. split; [reflexivity|]. cbn. split_and!; [done| |lia|done..]. split; cbn; try done; [apply He32; lia|by rewrite Hs|]. split; [lia|]. intros _. done.
    + cbn [set_send sendEpoch]. rewrite He, (u32_id (e + 1)) by (apply He32; lia).
      destruct (randomNonZero (2 ^ 64 - 1) draws) as [[seq rest]| |] eqn:Er.
      * destruct (random_range _ _ _ _ Er Hd) as [Hsq Hrest]. eexists _, _, _. split; [reflexivity|]. cbn. split_and!; [done| |lia|done..].
        split; cbn; try done; [apply He32; lia|]. split; [lia|]. lia.
      * eexists _, _, _. split; [reflexivity|]. cbn. split_and!; [constructor| |lia|done..]. split; cbn; try done; [apply He32; lia|by rewrite Hs|]. split; [lia|]. lia.
      * eexists _, _, _. split; [reflexivity|]. cbn. split_and!; [constructor| |lia|done..]. split; cbn; try done; [apply He32; lia|by rewrite Hs|]. split; [lia|]. lia.
Qed.
(** What a write has sent: [bytes] in the records [recs], and where it stands. *)
Record sent_ok (c : RecordConn) (pos : option (Z * Z)) (p : list Z) (out : Sent) (recs : list rec) : Prop := {
  st_chain : chain pos (map fst recs);
  st_frames : exists frames, s_frames out = frames /\ Forall2 (is_frame (method c) (baseSend c)) recs frames;
  st_bytes : plains recs = take (Z.to_nat (s_total out)) p;
  st_total : 0 <= s_total out <= zlen p /\ (s_err out = None -> s_total out = zlen p);
  st_conn : send_ok (s_conn out) (endpos pos (map fst recs));
  st_same : method (s_conn out) = method c /\ baseSend (s_conn out) = baseSend c;
  st_epoch : sendEpoch (s_conn out) <= sendEpoch c + zlen p;
  st_draws : Forall is_u64 (s_draws out);
  st_script : Forall (eq None) (s_script out)
}.

Lemma write_records_ok ku fuel c draws script p frames total pos :
  send_ok c pos -> Forall is_u64 draws -> Forall (eq None) script -> is_bytes p -> (length p < fuel)%nat -> sendEpoch c + zlen p < 2 ^ 32 ->
  exists out recs, write_records ku fuel c draws script p frames total =
      Ret {| s_conn := s_conn out; s_draws := s_draws out; s_script := s_script out; s_frames := frames ++ s_frames out;
             s_total := total + s_total out; s_err := s_err out |} /\ sent_ok c pos p out recs.
Proof.
  revert c draws script p frames total pos. induction fuel as [|fuel IH]; intros c draws script p frames total pos Hc Hd Hs Hp Hf He; [lia|].
  cbn [write_records]. case_bool_decide as E.
  { subst p. exists {| s_conn := c; s_draws := draws; s_script := script; s_frames := []; s_total := 0; s_err := None |}, []. split.
    - unfold stop. cbn. by rewrite app_nil_r, Z.add_0_r.
    - split; cbn; try done; [constructor|by exists []|unfold zlen; cbn; lia..]. }
  assert (0 < zlen p) as Hpos by (destruct p; [done|unfold zlen; cbn; lia]).
  destruct (send_aead_ok c pos Hc) as (a & -> & Ha). rewrite overhead_16. change (maxFrameBodySize - recordHeaderSize - 16) with 65507. cbn [Z.leb Z.compare]. cbv zeta.
  set (n := if 65507 <? zlen p then 65507 else zlen p). assert (0 < n <= 65507 /\ n <= zlen p) as Hn by (unfold n; destruct (65507 <? zlen p) eqn:En; lia).
  rewrite (proj2 (Z.ltb_ge maxFrameBodySize _)) by lia.
  set (chunk := take (Z.to_nat n) p). set (rest := drop (Z.to_nat n) p).
  assert (zlen chunk = n) as Hcl by (unfold chunk, zlen in *; rewrite length_take; lia).
  assert (zlen rest = zlen p - n) as Hrl by (unfold rest, zlen in *; rewrite length_drop; lia).
  set (c1 := set_send _ _ _ _ (u64 _) _ _). destruct Hc as [Hm Hca He32 Hsq Hnx].
  assert (forall (A : Type) (f : string -> list (option string) -> A) (g : A), match script with Some e :: script => f e script | _ => g end = g) as Hsc.
  { intros A f g. by destruct Hs as [|x ? <-]. }
  rewrite Hsc. clear Hsc. assert (Forall (eq None) (tail script)) as Hs2 by by destruct Hs.
  destruct (bump_ok ku c1 (sendEpoch c) (sendSeq c) n draws) as (c2 & draws2 & err & -> & Hd2 & Hc2 & He2 & Hm2 & Hb2);
    [done|by right|done|done|unfold is_u32 in He32; lia|done|].
  set (frame := frame_of a _ _ chunk). assert (is_frame (method c) (baseSend c) (sendEpoch c, sendSeq c, chunk) frame) as Hframe.
  { split; [done|]. split; [by apply Forall_take|]. split; [intros E0; rewrite E0 in Hcl; unfold zlen in Hcl; cbn in Hcl; lia|]. split; [lia|]. by exists a. }
  assert (chunk = take (Z.to_nat n) p) as Hch by done.
  destruct err as [e|].
  - exists {| s_conn := c2; s_draws := draws2; s_script := tail script; s_frames := [frame]; s_total := n; s_err := Some e |}, [(sendEpoch c, sendSeq c, chunk)].
    split; [done|]. split; cbn; try done; [apply chain_cons; [done|done|apply chain_nil]|exists [frame]; split; [done|by apply Forall2_cons_2; [|apply Forall2_nil_2]]|by unfold plains; cbn; rewrite app_nil_r|split; [lia|done]|lia].
  - destruct (IH c2 draws2 (tail script) rest (frames ++ [frame]) (total + n) (Some (sendEpoch c, u64 (sendSeq c + 1)))) as (out & recs & -> & Hok);
      [done|done|done|by apply Forall_drop|unfold rest; rewrite length_drop; unfold zlen in *; lia|lia|].
    destruct Hok as [Hk (fs & Hfs & Hk2) Hk3 [Hk4 Hk4'] Hk5 [Hk6 Hk7] Hk8 Hk9 Hk10].
    exists {| s_conn := s_conn out; s_draws := s_draws out; s_script := s_script out; s_frames := frame :: s_frames out; s_total := n + s_total out; s_err := s_err out |},
      ((sendEpoch c, sendSeq c, chunk) :: recs).
    split; [cbn [s_conn s_draws s_script s_frames s_total s_err]; do 2 f_equal; [by rewrite <-app_assoc|lia]|]. rewrite Hm2, Hb2 in *.
    split; cbn [s_conn s_draws s_script s_frames s_total s_err map fst]; [by apply chain_cons| | |split; [lia|intros Hx; specialize (Hk4' Hx); lia]|done|done|lia|done|done].
    + exists (frame :: fs). split; [by rewrite Hfs|]. by constructor.
    + unfold plains in *. cbn [map concat snd]. rewrite Hk3. unfold rest. rewrite Z2Nat.inj_add, <-take_take_drop by lia. done.
Qed.
(** Writes one after another, up to the first error. *)
Fixpoint record_Writes (ku : Z) (c : RecordConn) (draws : list Z) (script : list (option string)) (ps : list (list Z)) : res Sent :=
  match ps with
  | [] => stop c draws script [] 0 None
  | p :: ps =>
    out ← record_Write ku c draws script p;
    match s_err out with
    | Some _ => Ret out
    | None =>
      rest ← record_Writes ku (s_conn out) (s_draws out) (s_script out) ps;
      Ret {| s_conn := s_conn rest; s_draws := s_draws rest; s_script := s_script rest; s_frames := s_frames out ++ s_frames rest;
             s_total := s_total out + s_total rest; s_err := s_err rest |}
    end
  end.

Lemma record_Write_ok ku c draws script p pos :
  send_ok c pos -> Forall is_u64 draws -> Forall (eq None) script -> is_bytes p -> sendEpoch c + zlen p < 2 ^ 32 ->
  exists out recs, record_Write ku c draws script p = Ret out /\ sent_ok c pos p out recs.
Proof.
  intros Hc Hd Hs Hp He. unfold record_Write. rewrite bool_decide_false by (destruct (so_method c pos Hc) as [->| ->]; done).
  destruct (write_records_ok ku (S (length p)) c draws script p [] 0 pos Hc Hd Hs Hp ltac:(lia) He) as (out & recs & -> & Hok).
  exists out, recs. split; [|done]. by destruct out.
Qed.

Lemma record_Writes_ok ku c draws script ps pos :
  send_ok c pos -> Forall is_u64 draws -> Forall (eq None) script -> Forall is_bytes ps -> sendEpoch c + zlen (concat ps) < 2 ^ 32 ->
  exists out recs, record_Writes ku c draws script ps = Ret out /\ sent_ok c pos (concat ps) out recs.
Proof.
  intros Hc Hd Hs Hps. revert c draws script pos Hc Hd Hs. induction Hps as [|p ps Hp Hps IH]; intros c draws script pos Hc Hd Hs He; cbn [record_Writes concat].
  - exists {| s_conn := c; s_draws := draws; s_script := script; s_frames := []; s_total := 0; s_err := None |}, []. split; [done|].
    split; cbn; try done; [constructor|by exists []|unfold zlen; cbn; lia].
  - cbn [concat] in He. rewrite zlen_app in He. pose proof (zlen_nonneg p). pose proof (zlen_nonneg (concat ps)).
    destruct (record_Write_ok ku c draws script p pos Hc Hd Hs Hp ltac:(lia)) as (out & recs & -> & Hok). cbn [mbind res_bind].
    destruct Hok as [J1 (fs & J2 & J3) J4 [J5 J6] J7 [J8 J9] J10 J11 J12].
    destruct (s_err out) as [e|] eqn:Ee.
    + exists out, recs. split; [done|]. split; try done; [by exists fs| |rewrite zlen_app, Ee; split; [lia|done]|rewrite zlen_app; lia].
      rewrite take_app_le; [done|]. unfold zlen in *. lia.
    + specialize (J6 eq_refl). destruct (IH (s_conn out) (s_draws out) (s_script out) _ J7 J11 J12 ltac:(lia)) as (rest & recs2 & -> & Hok2). cbn [mbind res_bind].
      destruct Hok2 as [K1 (fs2 & K2 & K3) K4 [K5 K6] K7 [K8 K9] K10 K11 K12]. rewrite J8, J9 in *.
      eexists _, (recs ++ recs2). split; [reflexivity|].
      split; cbn [s_conn s_draws s_script s_frames s_total s_err]; try done.
      * rewrite map_app. by apply chain_app.
      * exists (fs ++ fs2). split; [by rewrite J2, K2|]. by apply Forall2_app.
      * unfold plains in *. rewrite map_app, concat_app, J4, K4, J6. rewrite (take_ge p) by (unfold zlen; lia).
        rewrite take_app_ge by (unfold zlen in *; lia). do 2 f_equal. unfold zlen in *. lia.
      * rewrite zlen_app. split; [lia|]. intros E. specialize (K6 E). lia.
      * by rewrite map_app, endpos_app.
      * rewrite zlen_app. lia.
Qed.

(** ** What a receiver reads *)

Section reader.
  Context {R : Type} `{ReaderLaws R}.

#[export] Instance record_reader : Reader (RecordConn * R) := fun cr size =>
  '(c, r, out, err) ← record_Read cr.1 cr.2 size; Ret ((c, r), out, err).

(** The receiver has [X] to give, and then the connection below has [rest],
    which is not for this key. *)
Definition record_holds (rest : list Z) (e : string) (cr : RecordConn * R) (X : list Z) : Prop :=
  let '(c, r) := cr in
  supported (method c) /\ cached (method c) (baseRecv c) (recvAEAD c) (recvAEADEpoch c) /\
  exists recs frames, yields r (concat frames ++ rest) e /\ Forall2 (is_frame (method c) (baseRecv c)) recs frames /\
    chain (position c) (map fst recs) /\ X = readBuf c ++ plains recs.

Lemma length_header e s : length (record_header e s) = 12%nat.
Proof. unfold record_header. by rewrite length_app, !length_put_be. Qed.

(** A record that is next is opened. *)
Lemma open_next c e s plain a :
  supported (method c) -> cached (method c) (baseRecv c) (recvAEAD c) (recvAEADEpoch c) ->
  newAEADFor (method c) (baseRecv c) e = Ret (Some a) -> is_u32 e -> is_u64 s -> is_bytes plain -> accepts (position c) e s ->
  exists c', open_record c (record_header e s ++ seal_with a (record_header e s) plain) = Ret (c', None) /\
    method c' = method c /\ baseRecv c' = baseRecv c /\ cached (method c) (baseRecv c) (recvAEAD c') (recvAEADEpoch c') /\
    position c' = Some (e, u64 (s + 1)) /\ readBuf c' = readBuf c ++ plain.
Proof.
  intros Hm Hc Ha He Hs Hp Hacc. unfold open_record. set (h := record_header e s). set (ct := seal_with a h plain).
  assert (zlen h = 12) as Hz by (unfold zlen, h; by rewrite length_header).
  assert (go_slice (h ++ ct) 0 recordHeaderSize = Ret h) as -> by (rewrite <-Hz; apply go_slice_app). cbn [mbind res_bind]. rewrite (go_from_app h ct recordHeaderSize) by done. cbn [mbind res_bind].
  assert (go_slice h 0 4 = Ret (put_be 4 e)) as -> by apply (go_slice_app (put_be 4 e)). cbn [mbind res_bind].
  rewrite <-(app_nil_r (put_be 4 e)), go_be_app by (unfold is_u32 in He; lia). cbn [mbind res_bind]. assert (go_from h 4 = Ret (put_be 8 s)) as -> by by apply (go_from_app (put_be 4 e)).
  cbn [mbind res_bind].
  rewrite <-(app_nil_r (put_be 8 s)), go_be_app by (unfold is_u64 in Hs; lia). cbn [mbind res_bind].
  apply validate_accepts in Hacc. rewrite Hacc.
  assert (recv_aead c e = Ret (Some a)) as ->.
  { unfold recv_aead. case_bool_decide as En; cbn [orb]; [done|]. destruct (negb _) eqn:E; [done|]. apply negb_false_iff, Z.eqb_eq in E.
    destruct Hc as [?|Hc]; [done|]. rewrite E, Ha in Hc. done. }
  cbv zeta. unfold ct, seal_with. rewrite open_seal by done. eexists. split; [reflexivity|]. cbn. split_and!; try done. by right.
Qed.
(** What is left of the buffer. *)
Lemma read_buffer_ok c r size recs frames rest e :
  supported (method c) -> cached (method c) (baseRecv c) (recvAEAD c) (recvAEADEpoch c) -> readBuf c ≠ [] -> (0 < size)%nat ->
  yields r (concat frames ++ rest) e -> Forall2 (is_frame (method c) (baseRecv c)) recs frames -> chain (position c) (map fst recs) ->
  exists c' out, read_buffer c size = (c', out, None) /\ out ≠ [] /\ (length out <= size)%nat /\
    exists X', readBuf c ++ plains recs = out ++ X' /\ record_holds rest e (c', r) X' /\ baseRecv c' = baseRecv c /\ method c' = method c.
Proof.
  intros Hm Hc Hne Hs Hy HF Hch. unfold read_buffer. rewrite bool_decide_false by done. eexists _, _. split; [reflexivity|].
  split; [intros E; apply (f_equal length) in E; rewrite length_take in E; cbn in E; destruct (readBuf c); [done|cbn in E; lia]|].
  split; [rewrite length_take; lia|]. exists (drop size (readBuf c) ++ plains recs). split; [by rewrite app_assoc, take_drop|].
  split; [|done]. split; [done|]. split; [done|]. by exists recs, frames.
Qed.

Lemma record_supply rest e : supply (record_holds rest e).
Proof.
  intros [c r] X size (Hm & Hc & recs & frames & Hy & HF & Hch & ->) HX Hs. unfold rd, record_reader, record_Read. cbn [fst snd].
  rewrite bool_decide_false by (destruct Hm as [->| ->]; done).
  case_bool_decide as Eb; cbn [negb].
  2: { destruct (read_buffer_ok c r size recs frames rest e Hm Hc Eb Hs Hy HF Hch) as (c' & out & -> & Hne & Hl & X' & HX' & Hh & _).
    cbn [mbind res_bind]. exists (c', r), out. split_and!; [done..|]. by exists X'. }
  rewrite Eb in *. cbn [app] in *. destruct HF as [|[[e1 s1] plain] frame recs frames Hf HF]; [done|].
  destruct Hf as (He1 & Hpb & Hpne & Hpl & a & Ha & ->). cbn [map fst] in Hch. inversion Hch as [|pos e' s' rest' Hacc Hu Hch']; subst.
  cbn [concat] in Hy. unfold frame_of in Hy. cbv zeta in Hy. set (h := record_header e1 s1) in *. set (ct := seal_with a h plain) in *.
  rewrite overhead_16 in Hy. set (L := recordHeaderSize + (zlen plain + 16)) in *. pose proof (zlen_nonneg plain) as Hp0.
  assert (zlen (h ++ ct) = L) as HL by (rewrite zlen_app; unfold ct, seal_with; rewrite seal_length; unfold zlen at 1, h; by rewrite length_header).
  rewrite <-!app_assoc in Hy.
  destruct (ReadFull_ok r 2 _ e Hy) as (r1 & -> & Hy1); [rewrite length_app, length_put_be; lia|]. cbn [mbind res_bind].
  rewrite take_app_length' by (by rewrite length_put_be). rewrite drop_app_length' in Hy1 by (by rewrite length_put_be).
  rewrite <-(app_nil_r (put_be 2 L)), go_be_app by (unfold L; lia). cbn [mbind res_bind].
  rewrite (proj2 (Z.ltb_ge L _)), (proj2 (Z.ltb_ge maxFrameBodySize _)) by (unfold L; lia). rewrite (app_assoc h) in Hy1.
  destruct (ReadFull_ok r1 (Z.to_nat L) _ e Hy1) as (r2 & -> & Hy2); [rewrite length_app; unfold zlen in HL; lia|]. cbn [mbind res_bind].
  rewrite take_app_length' by (unfold zlen in HL; lia). rewrite drop_app_length' in Hy2 by (unfold zlen in HL; lia).
  destruct (open_next c e1 s1 plain a Hm Hc Ha He1 Hu Hpb Hacc) as (c1 & Eo & Hm1 & Hb1 & Hc1 & Hp1 & Hr1). unfold ct, h. rewrite Eo. cbn [mbind res_bind].
  rewrite Eb in Hr1. cbn [app] in Hr1. rewrite <-Hp1 in Hch'.
  destruct (read_buffer_ok c1 r2 size recs frames rest e) as (c2 & out & -> & Hne & Hlen & X' & HX' & Hy3 & _);
    [by rewrite Hm1|by rewrite Hm1, Hb1|by rewrite Hr1|done|done|by rewrite Hm1, Hb1|done|].
  cbn [mbind res_bind]. exists (c2, r2), out. split_and!; [done..|]. exists X'. split; [|done]. rewrite <-HX', Hr1. done.
Qed.

Lemma record_end e c r : record_holds [] e (c, r) [] -> forall size, (0 < size)%nat ->
  exists r', rd (c, r) size = Ret ((c, r'), [], Some e) /\ record_holds [] e (c, r') [].
Proof.
  intros (Hm & Hc & recs & frames & Hy & HF & Hch & HX) size Hs. symmetry in HX. apply app_eq_nil in HX as [Eb HX].
  destruct HF as [|[[e1 s1] plain] frame recs frames (_ & _ & Hne & _) HF]; [|by apply app_eq_nil in HX as []]. cbn [concat app] in Hy.
  unfold rd, record_reader, record_Read. cbn [fst snd]. rewrite bool_decide_false by (destruct Hm as [->| ->]; done). rewrite Eb. rewrite bool_decide_true by done. cbn [negb].
  destruct (ReadFull_end r 2 e Hy ltac:(lia)) as (r' & -> & Hy'). cbn [mbind res_bind]. exists r'. split; [done|].
  split; [done|]. split; [done|]. exists [], []. split_and!; [done|constructor|constructor|by rewrite Eb].
Qed.

(** So a connection of records is a reader like the one below. *)
#[export] Instance record_reader_laws : ReaderLaws (RecordConn * R).
Proof.
  refine {| yields := fun cr X e => record_holds [] e cr X |}. intros [c r] X e size Hy Hs. destruct (decide (X = [])) as [->|HX].
  - destruct (record_end e c r Hy size Hs) as (r' & -> & Hy'). by eexists _, _, _.
  - destruct (record_supply [] e (c, r) X size Hy HX Hs) as (cr' & out & -> & Hr). by exists cr', out, None.
Defined.
End reader.
End exact.
