(* ===== verification/SudokuKip.v ===== *)
(** * The messages of the Sudoku handshake
    (src/transport/sudoku/kip.go, write_chunks.go, handshake.go)

    Messages with a type and a length over any connection, the two hellos that
    are exchanged, and the table that a hello asks for. *)

From S2P Require Import Prelude GoIo SudokuTable.

(** ** Messages *)

(** The inner loop of [writeAllChunks], for one chunk: every turn writes a byte
    at least or is the last. *)
Fixpoint write_chunk {W} `{Writer W} (fuel : nat) (w : W) (chunk : list Z) : res (W * option string) :=
  if bool_decide (chunk = []) then Ret (w, None)
  else match fuel with
       | O => Panic
       | S fuel =>
         '(w, n, err) ← wr w chunk;
         match err with
         | Some e => Ret (w, Some e)
         | None =>
           if n =? 0 then Ret (w, Some ErrShortWrite)
           else chunk ← go_from chunk n; write_chunk fuel w chunk
         end
       end.

Fixpoint writeAllChunks {W} `{Writer W} (w : W) (chunks : list (list Z)) : res (W * option string) :=
  match chunks with
  | [] => Ret (w, None)
  | chunk :: chunks =>
    '(w, err) ← write_chunk (S (length chunk)) w chunk;
    match err with
    | Some e => Ret (w, Some e)
    | None => writeAllChunks w chunks
    end
  end.

Record KIPMessage := { Type_ : Z; Payload : list Z }.

Abbreviation kipMagic := (bytes_of "kip").
Abbreviation KIPTypeClientHello := 1.
Abbreviation KIPTypeServerHello := 2.
Abbreviation KIPTypeOpenTCP := 16.
Abbreviation KIPTypeStartMux := 17.
Abbreviation KIPTypeStartUoT := 18.
Abbreviation KIPTypeKeepAlive := 20.
Abbreviation kipMaxPayload := (64 * 1024).
Abbreviation KIPFeatAll := 23.

Definition kip_header (typ : Z) (payload : list Z) : list Z := kipMagic ++ [typ] ++ put_be 2 (u16 (zlen payload)).

Definition WriteKIPMessage {W} `{Writer W} (w : W) (typ : Z) (payload : list Z) : res (W * option string) :=
  if kipMaxPayload <? zlen payload then Ret (w, Some "payload too large"%string)
  else writeAllChunks w [kip_header typ payload; payload].

Definition ReadKIPMessage {R} `{Reader R} (r : R) : res (R * (string + KIPMessage)) :=
  '(r, hdr, err) ← ReadFull r 6;
  match err with
  | Some e => Ret (r, inl e)
  | None =>
    magic ← go_slice hdr 0 3;
    if negb (bool_decide (magic = kipMagic)) then Ret (r, inl "bad magic"%string)
    else
      typ ← go_index hdr 3;
      lb ← go_from hdr 4;
      n ← go_be 2 lb;
      if kipMaxPayload <? n then Ret (r, inl "invalid payload length"%string)
      else if 0 <? n then
        '(r, payload, err) ← ReadFull r (Z.to_nat n);
        match err with
        | Some e => Ret (r, inl e)
        | None => Ret (r, inr {| Type_ := typ; Payload := payload |})
        end
      else Ret (r, inr {| Type_ := typ; Payload := [] |})
  end.

(** What is on the wire for a message. *)
Definition kip_bytes (typ : Z) (payload : list Z) : list Z := kip_header typ payload ++ payload.

Lemma length_kip_header typ payload : length (kip_header typ payload) = 6%nat.
Proof. unfold kip_header. by rewrite !length_app, length_put_be. Qed.

Section reading.
  Context {R : Type} `{Reader R} (P : R -> list Z -> Prop).

(** The header says the length modulo 2^16. *)
Lemma ReadKIPMessage_wrap r typ payload X n :
  supply P -> u16 (zlen payload) = Z.of_nat n -> (n <= length payload)%nat -> P r (kip_bytes typ payload ++ X) ->
  exists r', ReadKIPMessage r = Ret (r', inr {| Type_ := typ; Payload := take n payload |}) /\ P r' (drop n payload ++ X).
Proof.
  intros HP Hu Hn Hy. unfold ReadKIPMessage, kip_bytes in *. rewrite <-app_assoc in Hy.
  destruct (ReadFull_supply P r 6 _ HP Hy) as (r1 & -> & Hy1); [rewrite length_app, length_kip_header; lia|]. cbn [mbind res_bind].
  rewrite take_app_length' by (by rewrite length_kip_header). rewrite drop_app_length' in Hy1 by (by rewrite length_kip_header).
  unfold kip_header. rewrite (go_slice_app (bytes_of "kip")). cbn [mbind res_bind]. rewrite bool_decide_true by done. cbn [negb].
  change (go_index (bytes_of "kip" ++ [typ] ++ put_be 2 (u16 (zlen payload))) 3) with (Ret typ). cbn [mbind res_bind].
  rewrite app_assoc, (go_from_app (bytes_of "kip" ++ [typ])) by done. cbn [mbind res_bind].
  pose proof (u16_range (zlen payload)) as Hr. unfold is_u16 in Hr.
  rewrite <-(app_nil_r (put_be 2 _)), go_be_app by lia. cbn [mbind res_bind]. rewrite Hu in *.
  rewrite (proj2 (Z.ltb_ge kipMaxPayload _)) by lia. destruct (0 <? Z.of_nat n) eqn:E.
  - destruct (ReadFull_supply P r1 (Z.to_nat (Z.of_nat n)) _ HP Hy1) as (r2 & -> & Hy2); [rewrite length_app; lia|]. cbn [mbind res_bind].
    rewrite Nat2Z.id in *. rewrite take_app_le by lia. rewrite drop_app_le in Hy2 by lia. by exists r2.
  - assert (n = 0%nat) as -> by lia. rewrite take_0, drop_0. by exists r1.
Qed.

Lemma ReadKIPMessage_ok r typ payload X :
  supply P -> zlen payload <= 65535 -> P r (kip_bytes typ payload ++ X) ->
  exists r', ReadKIPMessage r = Ret (r', inr {| Type_ := typ; Payload := payload |}) /\ P r' X.
Proof.
  intros HP Hl Hy. pose proof (zlen_nonneg payload).
  destruct (ReadKIPMessage_wrap r typ payload X (length payload) HP) as (r' & E & Hy'); [apply u16_id; unfold is_u16, zlen in *; lia|lia|done|].
  rewrite take_ge in E by lia. rewrite drop_ge in Hy' by lia. by exists r'.
Qed.

(** A payload of the greatest length that is accepted, 65536 bytes, is
    announced as empty, and is left to be read as messages. *)
Lemma ReadKIPMessage_greatest r typ payload X :
  supply P -> zlen payload = kipMaxPayload -> P r (kip_bytes typ payload ++ X) ->
  exists r', ReadKIPMessage r = Ret (r', inr {| Type_ := typ; Payload := [] |}) /\ P r' (payload ++ X).
Proof.
  intros HP Hl Hy. destruct (ReadKIPMessage_wrap r typ payload X 0 HP) as (r' & E & Hy'); [by rewrite Hl|lia|done|].
  rewrite drop_0 in Hy'. by exists r'.
Qed.
End reading.

(** ** Hellos *)

(** Times are in nanoseconds since 1970. *)
Abbreviation second := 1000000000.
Definition Unix (t : Z) : Z := t / second.

Record KIPClientHello := {
  Timestamp : Z;
  UserHash : list Z;
  Nonce : list Z;
  ClientPub : list Z;
  Features : Z;
  TableHint : Z;
  HasTableHint : bool
}.

Record KIPServerHello := { s_Nonce : list Z; ServerPub : list Z; SelectedFeats : Z }.

Definition newKIPClientHello (now : Z) (userHash nonce clientPub : list Z) (feats tableHint : Z) (hasTableHint : bool) : KIPClientHello :=
  {| Timestamp := now; UserHash := userHash; Nonce := nonce; ClientPub := clientPub; Features := feats; TableHint := tableHint;
     HasTableHint := hasTableHint |}.

Definition client_EncodePayload (m : KIPClientHello) : list Z :=
  put_be 8 (u64 (Unix (Timestamp m))) ++ UserHash m ++ Nonce m ++ ClientPub m ++ put_be 4 (Features m) ++
  (if HasTableHint m then put_be 4 (TableHint m) else []).

Definition DecodeKIPClientHelloPayload (payload : list Z) : res KIPClientHello :=
  if zlen payload <? 8 + 8 + 16 + 32 + 4 then Err "client hello too short"
  else
    tb ← go_slice payload 0 8;
    ts ← go_be 8 tb;
    userHash ← go_slice payload 8 16;
    nonce ← go_slice payload 16 32;
    clientPub ← go_slice payload 32 64;
    fb ← go_slice payload 64 68;
    features ← go_be 4 fb;
    if 68 + 4 <=? zlen payload then
      hb ← go_slice payload 68 72;
      h ← go_be 4 hb;
      Ret {| Timestamp := int64_of ts * second; UserHash := userHash; Nonce := nonce; ClientPub := clientPub; Features := features;
             TableHint := h; HasTableHint := true |}
    else
      Ret {| Timestamp := int64_of ts * second; UserHash := userHash; Nonce := nonce; ClientPub := clientPub; Features := features;
             TableHint := 0; HasTableHint := false |}.

Definition server_EncodePayload (m : KIPServerHello) : list Z := s_Nonce m ++ ServerPub m ++ put_be 4 (SelectedFeats m).

Definition DecodeKIPServerHelloPayload (payload : list Z) : res KIPServerHello :=
  if negb (zlen payload =? 16 + 32 + 4) then Err "server hello bad len"
  else
    nonce ← go_slice payload 0 16;
    serverPub ← go_slice payload 16 48;
    fb ← go_slice payload 48 52;
    feats ← go_be 4 fb;
    Ret {| s_Nonce := nonce; ServerPub := serverPub; SelectedFeats := feats |}.

(** The arrays have their sizes. *)
Record hello_ok (m : KIPClientHello) : Prop := {
  ho_time : -2 ^ 63 <= Unix (Timestamp m) < 2 ^ 63;
  ho_user : zlen (UserHash m) = 8;
  ho_nonce : zlen (Nonce m) = 16;
  ho_pub : zlen (ClientPub m) = 32;
  ho_feats : is_u32 (Features m);
  ho_hint : is_u32 (TableHint m)
}.

(** The hello that is read: of its time the seconds, and the hint only when
    there is one. *)
Definition received (m : KIPClientHello) : KIPClientHello :=
  {| Timestamp := Unix (Timestamp m) * second; UserHash := UserHash m; Nonce := Nonce m; ClientPub := ClientPub m; Features := Features m;
     TableHint := if HasTableHint m then TableHint m else 0; HasTableHint := HasTableHint m |}.

Lemma client_hello_roundtrip m : hello_ok m -> DecodeKIPClientHelloPayload (client_EncodePayload m) = Ret (received m).
Proof.
  intros [Ht Hu Hn Hp Hf Hh]. unfold DecodeKIPClientHelloPayload, client_EncodePayload, received. unfold is_u32 in *.
  set (t := put_be 8 _). set (h := if HasTableHint m then _ else _).
  assert (zlen h = if HasTableHint m then 4 else 0) as Hz by (unfold h; by destruct (HasTableHint m)).
  assert (zlen (t ++ UserHash m ++ Nonce m ++ ClientPub m ++ put_be 4 (Features m) ++ h) = 68 + zlen h) as Hl.
  { rewrite !zlen_app, Hu, Hn, Hp. unfold t. rewrite !zlen_put_be. lia. }
  rewrite (proj2 (Z.ltb_ge _ _)) by (rewrite Hl, Hz; destruct (HasTableHint m); lia).
  assert (zlen t = 8) as Ht8 by (unfold t; by rewrite zlen_put_be).
  assert (0 <= u64 (Unix (Timestamp m)) < 2 ^ 64) as Hr by (unfold u64; apply Z.mod_pos_bound; lia).
  rewrite go_slice_front by done. cbn [mbind res_bind].
  assert (go_be 8 t = Ret (u64 (Unix (Timestamp m)))) as -> by (apply go_be_whole; lia). cbn [mbind res_bind].
  rewrite (go_slice_mid t (UserHash m) _ 8 16) by lia. cbn [mbind res_bind].
  rewrite (app_assoc t), (go_slice_mid (t ++ UserHash m) (Nonce m) _ 16 32) by (rewrite ?zlen_app; lia). cbn [mbind res_bind].
  rewrite (app_assoc (t ++ UserHash m)), (go_slice_mid _ (ClientPub m) _ 32 64) by (rewrite ?zlen_app; lia). cbn [mbind res_bind].
  rewrite (app_assoc ((t ++ UserHash m) ++ Nonce m)), (go_slice_mid _ (put_be 4 (Features m)) _ 64 68) by (rewrite ?zlen_app, ?zlen_put_be; lia). cbn [mbind res_bind].
  rewrite go_be_whole by lia. cbn [mbind res_bind]. rewrite <-!app_assoc, Hl, Hz.
  assert (int64_of (u64 (Unix (Timestamp m))) = Unix (Timestamp m)) as ->.
  { unfold int64_of, u64. destruct (decide (0 <= Unix (Timestamp m))).
    - rewrite Z.mod_small by lia. by rewrite (proj2 (Z.ltb_lt _ _)) by lia.
    - rewrite <-(Z.mod_add _ 1), Z.mod_small by lia. rewrite (proj2 (Z.ltb_ge _ _)) by lia. lia. }
  destruct (HasTableHint m) eqn:E; cbn [Z.leb Z.compare]; [|done].
  change (68 + 4 <=? 68 + 4) with true. cbv iota.
  rewrite (app_assoc t), (app_assoc (t ++ _)), (app_assoc ((t ++ _) ++ _)), (app_assoc (((t ++ _) ++ _) ++ _)), <-(app_nil_r h).
  rewrite (go_slice_mid _ h) by (rewrite ?zlen_app, ?zlen_put_be, ?Hz; lia). cbn [mbind res_bind].
  unfold h. by rewrite go_be_whole by lia.
Qed.

Lemma server_hello_roundtrip m :
  zlen (s_Nonce m) = 16 -> zlen (ServerPub m) = 32 -> is_u32 (SelectedFeats m) ->
  DecodeKIPServerHelloPayload (server_EncodePayload m) = Ret m.
Proof.
  intros Hn Hp Hf. unfold DecodeKIPServerHelloPayload, server_EncodePayload. unfold is_u32 in Hf.
  rewrite !zlen_app, Hn, Hp, zlen_put_be. change (negb _) with false. cbv iota.
  rewrite go_slice_front by done. cbn [mbind res_bind].
  rewrite (go_slice_mid (s_Nonce m) (ServerPub m) _ 16 48) by lia. cbn [mbind res_bind].
  rewrite app_assoc, <-(app_nil_r (put_be 4 _)), (go_slice_mid (s_Nonce m ++ ServerPub m) (put_be 4 _) []) by (rewrite ?zlen_app, ?zlen_put_be; lia). cbn [mbind res_bind].
  rewrite go_be_whole by lia. cbn [mbind res_bind]. by destruct m.
Qed.

(** ** The table *)

(** Tables are compared by their addresses. *)
Record TableObj := { t_table : Table; t_opposite : option nat }.

Section tables.
  (** what is at an address *)
  Variable heap : nat -> TableObj.

Definition Hint_ (p : nat) : Z := table_hint (t_table (heap p)).

(** [Table.OppositeDirection] and [oppositeDirectionTable] *)
Definition oppositeDirectionTable (p : nat) : nat := match t_opposite (heap p) with Some o => o | None => p end.

Fixpoint first_hinted (candidates : list (option nat)) (hint : Z) : option nat :=
  match candidates with
  | [] => None
  | None :: candidates => first_hinted candidates hint
  | Some c :: candidates => if Hint_ c =? hint then Some c else first_hinted candidates hint
  end.

Definition ResolveClientHelloTable (selected : option nat) (candidates : list (option nat)) (hello : option KIPClientHello) : res nat :=
  match selected with
  | None => Err "nil selected table"
  | Some selected =>
    match hello with
    | None => Ret selected
    | Some hello =>
      if negb (HasTableHint hello) then Ret selected
      else if Hint_ selected =? TableHint hello then Ret selected
      else if bool_decide (candidates = []) then Err "no table candidates"
      else
        match first_hinted candidates (TableHint hello) with
        | None => Err "unknown table hint"
        | Some hinted =>
          if negb (hinted =? selected)%nat && (negb (IsASCII (t_table (heap hinted))) || negb (IsASCII (t_table (heap selected))))
          then Err "table hint mismatches probed uplink table" else Ret hinted
        end
    end
  end.

Lemma first_hinted_in candidates hint p : first_hinted candidates hint = Some p -> Some p ∈ candidates /\ Hint_ p = hint.
Proof.
  induction candidates as [|[c|] candidates IH]; cbn; [done| |].
  - destruct (Hint_ c =? hint) eqn:E.
    + intros [= ->]. split; [by left|lia].
    + intros Hp. destruct (IH Hp). split; [by right|done].
  - intros Hp. destruct (IH Hp). split; [by right|done].
Qed.

(** The table resolved is the one probed or a candidate; with a hint it has
    the hint, and it is another than the probed one only among ASCII tables. *)
Lemma Resolve_spec selected candidates hello p :
  ResolveClientHelloTable (Some selected) candidates (Some hello) = Ret p ->
  (p = selected \/ Some p ∈ candidates) /\
  (HasTableHint hello = true -> Hint_ p = TableHint hello) /\
  (p ≠ selected -> IsASCII (t_table (heap p)) = true /\ IsASCII (t_table (heap selected)) = true).
Proof.
  cbn [ResolveClientHelloTable]. destruct (HasTableHint hello); cbn [negb].
  2: { intros <-%Ret_inj. split_and!; [by left|done|done]. }
  destruct (Hint_ selected =? TableHint hello) eqn:E1.
  { intros <-%Ret_inj. split_and!; [by left|lia|done]. }
  case_bool_decide; [done|]. destruct (first_hinted candidates _) as [q|] eqn:Eq; [|done].
  apply first_hinted_in in Eq as [Hin Hq]. destruct (negb _ && _) eqn:E2; [done|]. intros <-%Ret_inj.
  split_and!; [by right|done|]. intros Hne. apply Nat.eqb_neq in Hne. rewrite Hne in E2. cbn [negb andb] in E2.
  apply orb_false_iff in E2 as [?%negb_false_iff ?%negb_false_iff]. done.
Qed.
End tables.
