(* ===== verification/SudokuReplay.v ===== *)
(** * Replayed hellos
    (src/transport/sudoku/replay.go, handshake.go)

    The server remembers the nonces of hellos for a while, a set for each user,
    and refuses a hello whose time is too far from its own. *)

From S2P Require Import Prelude SudokuKip.

Abbreviation handshakeReplayTTL := (60 * second).

(** The key that a range over a map comes to first. *)
Class MapOrder := first_key : gmap (list Z) Z -> list Z.

Class MapOrderLaws `{MapOrder} : Prop := first_key_in m : m ≠ ∅ -> is_Some (m !! first_key m).

Record nonceSet := { ns_m : gmap (list Z) Z; maxEntries : Z; lastPrune : option Z }.

Definition newNonceSet (max : Z) : nonceSet :=
  {| ns_m := ∅; maxEntries := if max <=? 0 then 4096 else max; lastPrune := None |}.

(** The entries that have not expired. *)
Definition prune (now : Z) (m : gmap (list Z) Z) : gmap (list Z) Z := filter (fun kv => now < kv.2) m.

(** [hex.EncodeToString] *)
Definition hex_digit (d : Z) : Z := if d <? 10 then 48 + d else 87 + d.
Definition hex_string (bs : list Z) : list Z := concat (map (fun b => [hex_digit (Z.shiftr b 4); hex_digit (Z.land b 15)]) bs).

(** [handshakeReplayProtector]: the sets by user. *)
Abbreviation protector := (gmap (list Z) nonceSet).

Section replay.
  Context `{MapOrder}.

Fixpoint evict (fuel : nat) (max : Z) (m : gmap (list Z) Z) : res (gmap (list Z) Z) :=
  if Z.of_nat (size m) <=? max then Ret m
  else match fuel with
       | O => Panic
       | S fuel => evict fuel max (delete (first_key m) m)
       end.

Definition allow (s : nonceSet) (nonce : list Z) (now ttl : Z) : res (nonceSet * bool) :=
  let ttl := if ttl <=? 0 then 60 * second else ttl in
  s ← (if (match lastPrune s with None => true | Some t => ttl ÷ 2 <? now - t end) || (maxEntries s <? Z.of_nat (size (ns_m s))) then
         m ← evict (size (ns_m s)) (maxEntries s) (prune now (ns_m s));
         Ret {| ns_m := m; maxEntries := maxEntries s; lastPrune := Some now |}
       else Ret s);
  match ns_m s !! nonce with
  | Some exp => if now <? exp then Ret (s, false)
                else Ret ({| ns_m := <[nonce := now + ttl]> (ns_m s); maxEntries := maxEntries s; lastPrune := lastPrune s |}, true)
  | None => Ret ({| ns_m := <[nonce := now + ttl]> (ns_m s); maxEntries := maxEntries s; lastPrune := lastPrune s |}, true)
  end.

Definition protector_allow (p : protector) (userHash nonce : list Z) (now : Z) : res (protector * bool) :=
  let userHash := if bool_decide (userHash = []) then bytes_of "_" else userHash in
  let set := match p !! userHash with Some set => set | None => newNonceSet 4096 end in
  '(set, ok) ← allow set nonce now handshakeReplayTTL;
  Ret (<[userHash := set]> p, ok).

(** [absInt64] of the difference of two times in seconds, both as [int64]. *)
Definition absInt64 (v : Z) : Z := if v <? 0 then i64 (- v) else v.

Definition skew_ok (now ts : Z) : bool := absInt64 (i64 (Unix now - Unix ts)) <=? 60.

(** The hellos that a server lets pass, one after another, each with the time
    at which its own is looked at and the time at which its nonce is. *)
Definition pass_hello (p : protector) (h : KIPClientHello) (now now' : Z) : res (protector * bool) :=
  if negb (skew_ok now (Timestamp h)) then Ret (p, false)
  else protector_allow p (hex_string (UserHash h)) (Nonce h) now'.

Fixpoint pass_all (p : protector) (hs : list (KIPClientHello * Z * Z)) : res (protector * list bool) :=
  match hs with
  | [] => Ret (p, [])
  | (h, now, now') :: hs =>
    '(p, ok) ← pass_hello p h now now';
    '(p, oks) ← pass_all p hs;
    Ret (p, ok :: oks)
  end.

(** ** Totality *)

Lemma evict_total `{!MapOrderLaws} fuel max m :
  0 <= max -> (size m <= fuel)%nat -> exists m', evict fuel max m = Ret m' /\ m' ⊆ m /\ Z.of_nat (size m') <= max.
Proof.
  intros Hmax. revert m. induction fuel as [|fuel IH]; intros m Hf; cbn [evict]; destruct (Z.of_nat (size m) <=? max) eqn:E; try by (exists m; split_and!; [done|done|lia]).
  - lia.
  - assert (m ≠ ∅) as Hne by (intros ->; rewrite map_size_empty in E; apply Z.leb_gt in E; cbn in E; lia). destruct (first_key_in m Hne) as [v Hv].
    assert (size (delete (first_key m) m) = pred (size m)) as Hs by (rewrite map_size_delete, Hv; done).
    destruct (IH (delete (first_key m) m)) as (m' & -> & Hsub & Hm'); [lia|]. exists m'. split_and!; [done| |done].
    etransitivity; [done|apply delete_subseteq].
Qed.

Lemma size_prune now m : (size (prune now m) <= size m)%nat.
Proof. apply map_subseteq_size, map_filter_subseteq. Qed.

Lemma prune_lookup now m k exp : prune now m !! k = Some exp <-> m !! k = Some exp /\ now < exp.
Proof. apply map_lookup_filter_Some. Qed.

Lemma allow_total `{!MapOrderLaws} s nonce now ttl :
  0 <= maxEntries s -> exists s' ok, allow s nonce now ttl = Ret (s', ok) /\ maxEntries s' = maxEntries s.
Proof.
  intros Hmax. unfold allow. cbv zeta. set (t := if ttl <=? 0 then _ else _).
  destruct (_ || _).
  - destruct (evict_total (size (ns_m s)) (maxEntries s) (prune now (ns_m s)) Hmax (size_prune now _)) as (m & -> & _). cbn [mbind res_bind ns_m].
    destruct (m !! nonce) as [exp|]; [destruct (now <? exp)|]; by eexists _, _.
  - cbn [mbind res_bind]. destruct (ns_m s !! nonce) as [exp|]; [destruct (now <? exp)|]; by eexists _, _.
Qed.

(** Every hello is answered, however many there are. *)
Lemma pass_all_total `{!MapOrderLaws} p hs :
  map_Forall (fun _ set => maxEntries set = 4096) p -> exists p' oks, pass_all p hs = Ret (p', oks) /\ length oks = length hs.
Proof.
  revert p. induction hs as [|[[h now] now'] hs IH]; intros p Hp; cbn [pass_all]; [by eexists _, []|].
  assert (exists p' ok, pass_hello p h now now' = Ret (p', ok) /\ map_Forall (fun _ set => maxEntries set = 4096) p') as (p' & ok & -> & Hp').
  { unfold pass_hello. destruct (negb _); [by eexists _, _|]. unfold protector_allow. cbv zeta. set (u := if bool_decide _ then _ else _).
    set (set := match p !! u with Some set => set | None => _ end).
    assert (maxEntries set = 4096) as Hset by (unfold set; destruct (p !! u) eqn:E; [by apply (Hp u)|done]).
    destruct (allow_total set (Nonce h) now' handshakeReplayTTL) as (s' & ok & -> & Hs'); [lia|]. cbn [mbind res_bind]. eexists _, _. split; [done|].
    apply map_Forall_insert_2; [by rewrite Hs'|done]. }
  cbn [mbind res_bind]. destruct (IH p' Hp') as (p2 & oks & -> & Hl). cbn [mbind res_bind]. eexists _, _. split; [done|]. cbn. by rewrite Hl.
Qed.
(** ** What is remembered *)

Definition entry (p : protector) (u nonce : list Z) : option Z := match p !! u with Some set => ns_m set !! nonce | None => None end.

(** The sets have [n] entries at most. *)
Definition small (n : nat) (p : protector) : Prop := map_Forall (fun _ set => maxEntries set = 4096 /\ (size (ns_m set) <= n)%nat) p.

(** In a set that is not full nothing is evicted. *)
Lemma allow_small s nonce now ttl :
  Z.of_nat (size (ns_m s)) <= maxEntries s -> 0 < ttl ->
  exists s' ok, allow s nonce now ttl = Ret (s', ok) /\ maxEntries s' = maxEntries s /\ (size (ns_m s') <= S (size (ns_m s)))%nat /\
    ok = negb (match ns_m s !! nonce with Some exp => now <? exp | None => false end) /\
    (ok = true -> ns_m s' !! nonce = Some (now + ttl)) /\
    (forall k exp, now < exp -> ns_m s !! k = Some exp -> (k = nonce -> ok = false) /\ ns_m s' !! k = Some exp).
Proof.
  intros Hs Ht. unfold allow. rewrite (proj2 (Z.leb_gt ttl 0)) by lia. cbv zeta.
  set (s1 := if _ || _ then _ else _).
  assert (exists s2, s1 = Ret s2 /\ maxEntries s2 = maxEntries s /\ (ns_m s2 = ns_m s \/ ns_m s2 = prune now (ns_m s))) as (s2 & -> & Hm & Hns).
  { unfold s1. destruct (_ || _); [|exists s; split_and!; [done|done|by left]]. pose proof (size_prune now (ns_m s)).
    destruct (size (ns_m s)) as [|n]; cbn [evict]; (rewrite (proj2 (Z.leb_le _ (maxEntries s))) by lia); cbn [mbind res_bind]; eexists; (split_and!; [done|done|by right]). }
  cbn [mbind res_bind].
  assert (size (ns_m s2) <= size (ns_m s))%nat as Hsz by (destruct Hns as [->| ->]; [lia|apply size_prune]).
  assert (forall k exp, now < exp -> ns_m s !! k = Some exp -> ns_m s2 !! k = Some exp) as Hkeep.
  { intros k exp Hlt Hk. destruct Hns as [->| ->]; [done|]. by apply prune_lookup. }
  assert (match ns_m s2 !! nonce with Some exp => now <? exp | None => false end = match ns_m s !! nonce with Some exp => now <? exp | None => false end) as Hok.
  { destruct Hns as [->| ->]; [done|]. destruct (ns_m s !! nonce) as [exp|] eqn:E.
    - destruct (now <? exp) eqn:E2; [rewrite (proj2 (prune_lookup now (ns_m s) nonce exp)) by (split; [done|lia]); done|].
      destruct (prune now (ns_m s) !! nonce) eqn:E3; [|done]. apply prune_lookup in E3 as [E3 E4]. rewrite E in E3. injection E3 as <-. lia.
    - destruct (prune now (ns_m s) !! nonce) eqn:E3; [|done]. apply prune_lookup in E3 as [E3 E4]. rewrite E in E3. done. }
  assert (size (<[nonce := (now + ttl)%Z]> (ns_m s2)) <= S (size (ns_m s)))%nat as Hsz2.
  { rewrite map_size_insert. destruct (ns_m s2 !! nonce); cbn; lia. }
  rewrite <-Hok. destruct (ns_m s2 !! nonce) as [exp|] eqn:E; [destruct (now <? exp) eqn:E2|];
    (eexists _, _; split; [reflexivity|]); cbn [ns_m maxEntries]; (split_and!; [done|lia|done| |]).
  - done.
  - intros k e Hlt Hk. split; [done|]. by apply Hkeep.
  - intros _. apply lookup_insert_eq.
  - intros k e Hlt Hk. apply Hkeep in Hk; [|done]. destruct (decide (k = nonce)) as [->|Hne]; [rewrite E in Hk; injection Hk as ->; lia|].
    split; [done|]. by rewrite lookup_insert_ne.
  - intros _. apply lookup_insert_eq.
  - intros k e Hlt Hk. apply Hkeep in Hk; [|done]. destruct (decide (k = nonce)) as [->|Hne]; [by rewrite E in Hk|].
    split; [done|]. by rewrite lookup_insert_ne.
Qed.

(** The key of a user's set. *)
Definition user_key (h : KIPClientHello) : list Z :=
  if bool_decide (hex_string (UserHash h) = []) then bytes_of "_" else hex_string (UserHash h).

Lemma pass_hello_ok p h now now' n :
  small n p -> (n <= 4096)%nat ->
  exists p' ok, pass_hello p h now now' = Ret (p', ok) /\ small (S n) p' /\
    ok = skew_ok now (Timestamp h) && negb (match entry p (user_key h) (Nonce h) with Some exp => now' <? exp | None => false end) /\
    (ok = true -> entry p' (user_key h) (Nonce h) = Some (now' + handshakeReplayTTL)) /\
    (forall u k exp, now' < exp -> entry p u k = Some exp -> entry p' u k = Some exp).
Proof.
  intros Hp Hn. unfold pass_hello. destruct (skew_ok now (Timestamp h)); cbn [negb andb].
  2: { eexists _, _. split; [done|]. split_and!; try done. intros u set Hu. destruct (Hp u set Hu). split; [done|lia]. }
  unfold protector_allow. fold (user_key h). cbv zeta.
  set (set := match p !! user_key h with Some set => set | None => _ end).
  assert (maxEntries set = 4096 /\ (size (ns_m set) <= n)%nat) as [Hm Hs].
  { unfold set. destruct (p !! user_key h) eqn:E; [by apply (Hp (user_key h))|]. cbn. rewrite map_size_empty. split; [done|lia]. }
  assert (forall k, ns_m set !! k = entry p (user_key h) k) as He.
  { intros k. unfold entry, set. destruct (p !! user_key h); [done|]. apply lookup_empty. }
  destruct (allow_small set (Nonce h) now' handshakeReplayTTL) as (s' & ok & -> & Hm' & Hs' & Hok & Htrue & Hkeep); [lia|lia|]. cbn [mbind res_bind].
  eexists _, _. split; [done|]. split_and!.
  - apply map_Forall_insert_2; [split; [by rewrite Hm'|lia]|]. intros u s2 Hu. destruct (Hp u s2 Hu). split; [done|lia].
  - by rewrite Hok, He.
  - intros Ht. unfold entry. rewrite lookup_insert_eq. by apply Htrue.
  - intros u k exp Hlt Hk. unfold entry. destruct (decide (u = user_key h)) as [->|Hne].
    + rewrite lookup_insert_eq. apply (Hkeep k exp Hlt). by rewrite He.
    + rewrite lookup_insert_ne by done. done.
Qed.

Lemma pass_all_ok p hs n :
  small n p -> (n + length hs <= 4096)%nat ->
  exists p' oks, pass_all p hs = Ret (p', oks) /\ length oks = length hs /\ small (n + length hs) p' /\
    (forall u k exp, Forall (fun x => x.2 < exp) hs -> entry p u k = Some exp -> entry p' u k = Some exp).
Proof.
  revert p n. induction hs as [|[[h now] now'] hs IH]; intros p n Hp Hn; cbn [pass_all length] in *.
  - eexists _, _. split; [done|]. by rewrite Nat.add_0_r.
  - destruct (pass_hello_ok p h now now' n Hp ltac:(lia)) as (p1 & ok & -> & Hp1 & _ & _ & Hk1). cbn [mbind res_bind].
    destruct (IH p1 (S n) Hp1 ltac:(lia)) as (p2 & oks & -> & Hl & Hp2 & Hk2). cbn [mbind res_bind]. eexists _, _. split; [done|].
    split_and!; [cbn; by rewrite Hl|by rewrite Nat.add_succ_r|]. intros u k exp [Hlt HF]%Forall_cons Hk. apply Hk2; [done|]. by apply Hk1.
Qed.

Lemma pass_all_app p a b :
  pass_all p (a ++ b) = ('(p, x) ← pass_all p a; '(p, y) ← pass_all p b; Ret (p, x ++ y)).
Proof.
  revert p. induction a as [|[[h now] now'] a IH]; intros p; cbn [pass_all app].
  - cbn [mbind res_bind]. by destruct (pass_all p b) as [[? ?]| |].
  - destruct (pass_hello p h now now') as [[p1 ok]| |]; cbn [mbind res_bind]; [|done|done]. rewrite IH.
    destruct (pass_all p1 a) as [[p2 x]| |]; cbn [mbind res_bind]; [|done|done]. by destruct (pass_all p2 b) as [[? ?]| |].
Qed.

(** C29: a hello that was let pass at [t0], among fewer than 4096 hellos, is
    refused when it comes again within 60 seconds; when it comes again later,
    it passes again if its time is then still within 60 seconds of the
    server's: the time that a nonce is kept is shorter than the time that a
    hello is valid. *)
Theorem hello_replay_window a b h s0 t0 s1 t1 :
  zlen a + zlen b < 4095 -> Forall (fun x => x.2 < t0 + handshakeReplayTTL) b ->
  exists p oks, pass_all ∅ (a ++ (h, s0, t0) :: b ++ [(h, s1, t1)]) = Ret (p, oks) /\
    (oks !! length a = Some true -> last oks = Some (skew_ok s1 (Timestamp h) && (t0 + handshakeReplayTTL <=? t1))).
Proof.
  intros Hl Hb. unfold zlen in Hl. rewrite pass_all_app.
  destruct (pass_all_ok ∅ a 0 ltac:(apply map_Forall_empty) ltac:(lia)) as (p1 & oks1 & -> & Hl1 & Hp1 & _). cbn [mbind res_bind pass_all].
  destruct (pass_hello_ok p1 h s0 t0 _ Hp1 ltac:(lia)) as (p2 & ok & -> & Hp2 & _ & Hent & _). cbn [mbind res_bind]. rewrite pass_all_app.
  destruct (pass_all_ok p2 b _ Hp2 ltac:(lia)) as (p3 & oks3 & -> & Hl3 & Hp3 & Hk3). cbn [mbind res_bind pass_all].
  destruct (pass_hello_ok p3 h s1 t1 _ Hp3 ltac:(lia)) as (p4 & ok4 & -> & _ & Hok4 & _). cbn [mbind res_bind]. eexists _, _. split; [done|].
  rewrite lookup_app_r, Hl1, Nat.sub_diag by lia. intros [= ->].
  rewrite app_comm_cons, !app_assoc, last_snoc, Hok4. rewrite (Hk3 _ _ _ Hb (Hent eq_refl)). do 2 f_equal. lia.
Qed.
End replay.

(** [absInt64] is negative for the least [int64]: a time that differs by 2^63
    seconds passes. *)
Example skew_ok_least : let now := 1800000000 * second in skew_ok now (now - 2 ^ 63 * second) = true.
Proof. vm_compute. reflexivity. Qed.

Lemma skew_ok_spec now ts :
  -2 ^ 62 <= Unix now < 2 ^ 62 -> -2 ^ 62 <= Unix ts < 2 ^ 62 -> skew_ok now ts = (Z.abs (Unix now - Unix ts) <=? 60).
Proof.
  intros Hn Ht. unfold skew_ok, absInt64, i64. rewrite (Z.mod_small (_ - _ + 2 ^ 63)) by lia. rewrite Z.add_simpl_r.
  destruct (_ <? 0) eqn:E; [rewrite Z.mod_small by lia|]; lia.
Qed.

(** The key that comes first in the order of the map. *)
#[local] Instance ex_order : MapOrder := fun m => match map_to_list m with (k, _) :: _ => k | [] => [] end.

#[local] Instance ex_order_laws : MapOrderLaws.
Proof.
  intros m Hm. unfold first_key, ex_order. destruct (map_to_list m) as [|[k v] l] eqn:E; [by apply map_to_list_empty_iff in E|].
  exists v. apply elem_of_map_to_list. rewrite E. by left.
Qed.

Definition ex_hello : KIPClientHello :=
  {| Timestamp := 1030 * second; UserHash := [1; 2; 3; 4; 5; 6; 7; 8]; Nonce := repeat 7 16; ClientPub := repeat 9 32; Features := KIPFeatAll; TableHint := 0;
     HasTableHint := false |}.

(** From a client whose clock is half a minute ahead: at second 1059 the hello
    of second 1000 is refused, at second 1061 it passes. *)
Lemma hello_replay_window_witness :
  (exists p oks, pass_all ∅ ([] ++ (ex_hello, 1000 * second, 1000 * second) :: [] ++ [(ex_hello, 1061 * second, 1061 * second)]) = Ret (p, oks) /\
    (oks !! 0%nat = Some true -> last oks = Some true)) /\
  exists p, pass_all ∅ [(ex_hello, 1000 * second, 1000 * second); (ex_hello, 1059 * second, 1059 * second); (ex_hello, 1061 * second, 1061 * second)] = Ret (p, [true; false; true]).
Proof.
  split; [exact (hello_replay_window [] [] ex_hello (1000 * second) (1000 * second) (1061 * second) (1061 * second) eq_refl (Forall_nil_2 _))|].
  eexists. vm_compute. reflexivity.
Defined.
