(* ===== verification/SudokuHandshake.v ===== *)
(** * The Sudoku handshake
    (src/transport/sudoku/handshake.go, handshake_kip.go, session_keys.go,
    table_probe.go)

    The client and the server exchange hellos over records with keys of the
    shared secret, agree on keys by X25519 and go on with these.  X25519 and
    HKDF are parameters. *)

From S2P Require Import Prelude GoIo SudokuTable SudokuRecord SudokuKip SudokuReplay.

(** crypto/ecdh for X25519: the public key of a private one, and the shared
    secret, unless the public key is refused; and HKDF with SHA-256, of which 32
    bytes are taken. *)
Class KeyLib := {
  x25519_public : list Z -> list Z;
  x25519 : list Z -> list Z -> option (list Z);
  hkdf_extract : list Z -> list Z -> list Z;
  hkdf_expand : list Z -> list Z -> list Z
}.

(** Both sides come to the same secret. *)
Class KeyLaws `{KeyLib} : Prop := {
  public_size k : length (x25519_public k) = 32%nat;
  public_bytes k : is_bytes (x25519_public k);
  x25519_agree a b : exists k, x25519 a (x25519_public b) = Some k /\ x25519 b (x25519_public a) = Some k;
  expand_size prk info : length (hkdf_expand prk info) = 32%nat
}.

(** ** Keys *)

Section keys.
  Context `{KeyLib} `{Sha256}.

Definition derivePSKDirectionalBases (psk : list Z) : list Z * list Z :=
  let sum := sha256 psk in
  (hkdf_expand sum (bytes_of "sudoku-psk-c2s"), hkdf_expand sum (bytes_of "sudoku-psk-s2c")).

Definition deriveSessionDirectionalBases (psk shared nonce : list Z) : list Z * list Z :=
  let sum := sha256 psk in
  let ikm := shared ++ nonce in
  let prk := hkdf_extract ikm sum in
  (hkdf_expand prk (bytes_of "sudoku-session-c2s"), hkdf_expand prk (bytes_of "sudoku-session-s2c")).

Definition x25519SharedSecret (priv peerPub : list Z) : option (list Z) := x25519 priv peerPub.
End keys.

(** ** Directions *)

(** What carries the bytes of the server to the client: a Sudoku connection
    with the opposite table or a packed one; or the connection of the other
    direction too. *)
Inductive Down := PureDown (table : nat) | PackedDown (table : nat).

Section directions.
  Variable heap : nat -> TableObj.

Definition newClientDownlinkReader (table : nat) (pureDownlink : bool) : option Down :=
  let downlinkTable := oppositeDirectionTable heap table in
  if pureDownlink then if (downlinkTable =? table)%nat then None else Some (PureDown downlinkTable)
  else Some (PackedDown downlinkTable).

Definition newServerDownlinkWriter (table : nat) (pureDownlink : bool) : option Down :=
  let downlinkTable := oppositeDirectionTable heap table in
  if pureDownlink then if (downlinkTable =? table)%nat then None else Some (PureDown downlinkTable)
  else Some (PackedDown downlinkTable).

(** [directionalConn]; with no downlink it is the uplink connection. *)
Record Obfs := { uplink_table : nat; downlink : option Down }.

Definition buildClientObfsConn (table : nat) (pureDownlink : bool) : Obfs :=
  {| uplink_table := table; downlink := newClientDownlinkReader table pureDownlink |}.

Definition buildServerObfsConn (table : nat) (pureDownlink : bool) : Obfs :=
  {| uplink_table := table; downlink := newServerDownlinkWriter table pureDownlink |}.

(** The server's change to the resolved table: only of a directional
    connection; one without a writer then cannot be written to. *)
Definition switch_downlink (o : Obfs) (selected resolved : nat) (pureDownlink : bool) : res (string + Obfs) :=
  if (resolved =? selected)%nat then Ret (inr o)
  else
    let downlinkWriter := newServerDownlinkWriter resolved pureDownlink in
    match downlink o with
    | None => Ret (inl "switch downlink writer failed"%string)
    | Some _ =>
      match downlinkWriter with
      | None => Panic
      | Some w => Ret (inr {| uplink_table := uplink_table o; downlink := Some w |})
      end
    end.
End directions.

(** ** A side of the connection *)

(** The records, the reader below, the rest of the random source, the answers
    of the writer below and the frames written to it. *)
Record Side (R : Type) := mk_side {
  sd_conn : RecordConn;
  sd_reader : R;
  sd_draws : list Z;
  sd_script : list (option string);
  sd_frames : list (list Z)
}.
Arguments mk_side {R}.
Arguments sd_conn {R}.
Arguments sd_reader {R}.
Arguments sd_draws {R}.
Arguments sd_script {R}.
Arguments sd_frames {R}.

(** Steps that fail with an error, and keep what they have done. *)
Abbreviation fails S A := (res (S * (string + A))).

Definition and_then {S A B} (m : fails S A) (k : S -> A -> fails S B) : fails S B :=
  '(s, x) ← m;
  match x with
  | inl e => Ret (s, inl e)
  | inr a => k s a
  end.

Definition done_with {S} (m : res (S * option string)) : fails S unit :=
  '(s, err) ← m; Ret (s, match err with Some e => inl e | None => inr tt end).

(** A function without state: its error is the step's. *)
Definition lift {S A} (s : S) (m : res A) : fails S A :=
  match m with
  | Ret a => Ret (s, inr a)
  | Err e => Ret (s, inl e)
  | Panic => Panic
  end.

Section handshake.
  Context `{RecordLib} `{KeyLib} `{Sha256} {R : Type} `{Reader R}.
  (** [KeyUpdateAfterBytes] *)
  Variable ku : Z.

#[local] Instance side_writer : Writer (Side R) := fun s p =>
  out ← record_Write ku (sd_conn s) (sd_draws s) (sd_script s) p;
  Ret (mk_side (s_conn out) (sd_reader s) (s_draws out) (s_script out) (sd_frames s ++ s_frames out), s_total out, s_err out).

#[local] Instance side_reader : Reader (Side R) := fun s size =>
  '(c, r, out, err) ← record_Read (sd_conn s) (sd_reader s) size;
  Ret (mk_side c r (sd_draws s) (sd_script s) (sd_frames s), out, err).

Definition side_Rekey (s : Side R) (send recv : list Z) : fails (Side R) unit :=
  match Rekey (sd_conn s) send recv (sd_draws s) with
  | Ret (c, draws) => Ret (mk_side c (sd_reader s) draws (sd_script s) (sd_frames s), inr tt)
  | Err e => Ret (s, inl e)
  | Panic => Panic
  end.

(** The random source gives a private key and a nonce, or an error. *)
Definition kipHandshakeClient (s : Side R) (seed userHash : list Z) (feats tableHint : Z) (hasTableHint : bool)
  (gen : option (list Z)) (rand_nonce : option (list Z)) (now : Z) : fails (Side R) Z :=
  match gen, rand_nonce with
  | None, _ => Ret (s, inl "ecdh generate failed"%string)
  | _, None => Ret (s, inl "nonce generate failed"%string)
  | Some ephemeral, Some nonce =>
    let ch := newKIPClientHello now userHash nonce (x25519_public ephemeral) feats tableHint hasTableHint in
    and_then (done_with (WriteKIPMessage s KIPTypeClientHello (client_EncodePayload ch))) (fun s _ =>
    and_then (ReadKIPMessage s) (fun s msg =>
    if negb (Type_ msg =? KIPTypeServerHello) then Ret (s, inl "unexpected handshake message"%string)
    else
      and_then (lift s (DecodeKIPServerHelloPayload (Payload msg))) (fun s sh =>
      if negb (bool_decide (s_Nonce sh = nonce)) then Ret (s, inl "handshake nonce mismatch"%string)
      else match x25519SharedSecret ephemeral (ServerPub sh) with
           | None => Ret (s, inl "ecdh failed"%string)
           | Some shared =>
             let '(sessC2S, sessS2C) := deriveSessionDirectionalBases seed shared nonce in
             and_then (side_Rekey s sessC2S sessS2C) (fun s _ => Ret (s, inr (SelectedFeats sh)))
           end)))
  end.

Section server.
  Context `{MapOrder}.
  Variable heap : nat -> TableObj.

(** What the server keeps besides: the nonces it has seen, and the directions. *)
Abbreviation server := (Side R * protector * Obfs)%type.

(** A step of the connection alone. *)
Definition on_side {A : Type} (p : protector) (o : Obfs) (m : fails (Side R) A) : fails server A :=
  '(s, x) ← m; Ret (s, p, o, x).

(** The server, from the first message on; the clock is looked at twice. *)
Definition kipHandshakeServer (st : server) (seed : list Z) (selected : nat) (candidates : list (option nat)) (pureDownlink : bool)
  (gen : option (list Z)) (now now' : Z) : fails server (list Z) :=
  let '(s, p, o) := st in
  and_then (on_side p o (ReadKIPMessage s)) (fun '(s, p, o) msg =>
  if negb (Type_ msg =? KIPTypeClientHello) then Ret (s, p, o, inl "unexpected handshake message"%string)
  else
    and_then (lift (s, p, o) (DecodeKIPClientHelloPayload (Payload msg))) (fun '(s, p, o) ch =>
    if negb (skew_ok now (Timestamp ch)) then Ret (s, p, o, inl "time skew/replay"%string)
    else
      let userHashHex := hex_string (UserHash ch) in
      '(p, ok) ← protector_allow p userHashHex (Nonce ch) now';
      if negb ok then Ret (s, p, o, inl "replay"%string)
      else
        and_then (lift (s, p, o) (ResolveClientHelloTable heap (Some selected) candidates (Some ch))) (fun '(s, p, o) resolvedTable =>
        and_then (x ← switch_downlink heap o selected resolvedTable pureDownlink; Ret (s, p, o, x)) (fun '(s, p, _) o =>
        match gen with
        | None => Ret (s, p, o, inl "ecdh generate failed"%string)
        | Some serverEphemeral =>
          match x25519SharedSecret serverEphemeral (ClientPub ch) with
          | None => Ret (s, p, o, inl "ecdh failed"%string)
          | Some shared =>
            let '(sessC2S, sessS2C) := deriveSessionDirectionalBases seed shared (Nonce ch) in
            let sh := {| s_Nonce := Nonce ch; ServerPub := x25519_public serverEphemeral; SelectedFeats := Z.land (Features ch) KIPFeatAll |} in
            and_then (on_side p o (done_with (WriteKIPMessage s KIPTypeServerHello (server_EncodePayload sh)))) (fun '(s, p, o) _ =>
            and_then (on_side p o (side_Rekey s sessS2C sessC2S)) (fun '(s, p, o) _ => Ret (s, p, o, inr userHashHex)))
          end
        end)))).
End server.
End handshake.
