(* ===== verification/SudokuHandshakeExact.v ===== *)
(** * The handshake ends in agreement

    After the hellos the two sides have the same keys, crosswise, and what the
    one then writes the other reads. *)

From S2P Require Import Prelude GoIo SudokuTable SudokuRecord SudokuRecordExact SudokuKip SudokuReplay SudokuHandshake.

#[local] Existing Instance side_reader.

(** ** Fresh connections *)

Definition fresh_conn (m : string) (send recv : list Z) (epoch seq : Z) : RecordConn :=
  {| method := m; baseSend := send; baseRecv := recv; sendAEAD := None; sendAEADEpoch := 0; recvAEAD := None; recvAEADEpoch := 0;
     sendEpoch := epoch; sendSeq := seq; sendBytes := 0; sendEpochUpdates := 0; recvEpoch := 0; recvSeq := 0; recvInitialized := false;
     readBuf := [] |}.

(** The random source gives counters of their sizes. *)
Definition counters (draws : list Z) (epoch seq : Z) (rest : list Z) : Prop :=
  randomRecordCounters draws = Ret (epoch, seq, rest) /\ is_u32 epoch /\ is_u64 seq.

Lemma NewRecordConn_fresh m send recv draws e q rest :
  supported m -> length send = 32%nat -> length recv = 32%nat -> counters draws e q rest ->
  NewRecordConn m send recv draws = Ret (fresh_conn m send recv e q, rest).
Proof.
  intros Hm Hs Hr (Hd & _). unfold NewRecordConn, validateBaseKey, zlen. rewrite Hs, Hr.
  assert (normalizeAEADMethod m = m) as -> by (destruct Hm as [->| ->]; done). cbv zeta. change (32 <=? Z.of_nat 32) with true. rewrite !andb_false_r.
  unfold resetTrafficState. rewrite Hd. done.
Qed.

Lemma Rekey_fresh c send recv draws e q rest :
  length send = 32%nat -> length recv = 32%nat -> counters draws e q rest ->
  Rekey c send recv draws = Ret (fresh_conn (method c) send recv e q, rest).
Proof.
  intros Hs Hr (Hd & _). unfold Rekey, validateBaseKey, zlen. rewrite Hs, Hr. change (32 <=? Z.of_nat 32) with true. rewrite !andb_false_r.
  unfold resetTrafficState. rewrite Hd. done.
Qed.

(** ** What reading leaves alone *)

Definition same_send (c c' : RecordConn) : Prop :=
  method c' = method c /\ baseSend c' = baseSend c /\ baseRecv c' = baseRecv c /\ sendAEAD c' = sendAEAD c /\ sendAEADEpoch c' = sendAEADEpoch c /\
  sendEpoch c' = sendEpoch c /\ sendSeq c' = sendSeq c /\ sendBytes c' = sendBytes c /\ sendEpochUpdates c' = sendEpochUpdates c.

Lemma same_send_trans a b c : same_send a b -> same_send b c -> same_send a c.
Proof. unfold same_send. intros H1 H2. destruct_and!. split_and!; congruence. Qed.

Section exact.
  Context `{RecordLib} `{!RecordLaws}.

Lemma open_record_send c body c' err : open_record c body = Ret (c', err) -> same_send c c'.
Proof.
  unfold open_record. intros E.
  repeat match type of E with
  | (mbind _ ?m) = _ => destruct m as [?| |]; cbn [mbind res_bind] in E; [|discriminate E|discriminate E]
  end.
  destruct (validateRecvPosition _ _ _); [by injection E as <- _|].
  destruct (recv_aead _ _) as [[?|]| |]; [|discriminate E|by injection E as <- _|discriminate E].
  cbv zeta in E. destruct (aead_Open _ _ _ _ _); by injection E as <- _.
Qed.

Lemma record_Read_send {R} `{Reader R} c r size c' r' out err : record_Read c r size = Ret (c', r', out, err) -> same_send c c'.
Proof.
  assert (forall c size c' out err, read_buffer c size = (c', out, err) -> same_send c c') as Hb.
  { clear. intros c size c' out err. unfold read_buffer. case_bool_decide; intros [= <- _ _]; done. }
  unfold record_Read. case_bool_decide.
  { intros E. destruct (rd r size) as [[[? ?] ?]| |]; cbn [mbind res_bind] in E; [|discriminate E|discriminate E]. by injection E as <- _ _ _. }
  case_bool_decide; cbn [negb].
  2: { destruct (read_buffer c size) as [[? ?] ?] eqn:Eb. intros [= <- _ _ _]. by eapply Hb. }
  destruct (ReadFull r 2) as [[[r1 lb] e1]| |]; cbn [mbind res_bind]; [|done|done]. destruct e1; [by intros [= <- _ _ _]|].
  destruct (go_be 2 lb) as [n| |]; cbn [mbind res_bind]; [|done|done]. destruct (n <? _); [by intros [= <- _ _ _]|].
  destruct (_ <? n); [by intros [= <- _ _ _]|]. destruct (ReadFull r1 _) as [[[r2 body] e2]| |]; cbn [mbind res_bind]; [|done|done].
  destruct e2; [by intros [= <- _ _ _]|]. destruct (open_record c body) as [[c1 e3]| |] eqn:Eo; cbn [mbind res_bind]; [|done|done].
  apply open_record_send in Eo. destruct e3; [by intros [= <- _ _ _]|].
  destruct (read_buffer c1 size) as [[? ?] ?] eqn:Eb. intros [= <- _ _ _]. apply Hb in Eb. by eapply same_send_trans.
Qed.

(** ** Messages *)

(** One record is enough for a short message, and the key is not yet changed. *)
Lemma record_Write_small ku c draws p pos a :
  send_ok c pos -> newAEADFor (method c) (baseSend c) (sendEpoch c) = Ret (Some a) ->
  p ≠ [] -> zlen p <= 65507 -> 0 <= sendBytes c -> sendBytes c + zlen p < ku < 2 ^ 62 -> sendEpochUpdates c = 0 ->
  record_Write ku c draws [] p =
  Ret {| s_conn := set_send c (Some a) (sendEpoch c) (sendEpoch c) (u64 (sendSeq c + 1)) (sendBytes c + zlen p) 0; s_draws := draws; s_script := [];
         s_frames := [frame_of a (sendEpoch c) (sendSeq c) p]; s_total := zlen p; s_err := None |}.
Proof.
  intros Hc Ha Hne Hl Hb Hku Hu. destruct (send_aead_ok c pos Hc) as (a' & Ea & Ha'). rewrite Ha in Ha'. injection Ha' as <-. destruct Hc as [Hm _ _ _ _].
  assert (bool_decide (method c = "none"%string) = false) as Hmn by (apply bool_decide_false; destruct Hm as [->| ->]; done).
  assert (0 < zlen p) as Hpos by (destruct p; [done|unfold zlen; cbn; lia]).
  unfold record_Write. rewrite Hmn. destruct (length p) as [|n] eqn:En; [unfold zlen in Hpos; lia|]. cbn [write_records].
  rewrite bool_decide_false, Ea, overhead_16 by done. change (maxFrameBodySize - recordHeaderSize - 16) with 65507. cbn [Z.leb Z.compare]. cbv zeta.
  rewrite (proj2 (Z.ltb_ge 65507 _)), (proj2 (Z.ltb_ge maxFrameBodySize _)) by lia. cbn [tail].
  rewrite (take_ge p), (drop_ge p) by (unfold zlen; lia).
  unfold maybeBumpSendEpochLocked. cbn [method set_send sendBytes sendEpochUpdates sendEpoch sendSeq sendAEAD sendAEADEpoch]. rewrite Hmn, Hu.
  rewrite (proj2 (Z.leb_gt ku 0)) by lia. cbn [orb]. cbv zeta. change (u32 (0 + 1)) with 1.
  assert (forall x, 0 <= x < 2 ^ 62 -> i64 x = x) as Hi by (intros x Hx; unfold i64; rewrite Z.mod_small by lia; lia).
  rewrite !Hi by lia. rewrite (proj2 (Z.ltb_lt _ _)) by lia. rewrite bool_decide_true by done. done.
Qed.

(** What is under the frames, for a receiver that has had none. *)
Definition carried (m : string) (base : list Z) (frames : list (list Z)) (X : list Z) : Prop :=
  exists recs, Forall2 (is_frame m base) recs frames /\ chain None (map fst recs) /\ plains recs = X.

(** The header of a message and its payload are a record each. *)
Definition message_frames (a : Aead) (e q typ : Z) (payload : list Z) : list (list Z) :=
  [frame_of a e q (kip_header typ payload); frame_of a e (u64 (q + 1)) payload].

Lemma frames_bytes m base recs frames : Forall2 (is_frame m base) recs frames -> Forall is_bytes frames.
Proof.
  induction 1 as [|[[e q] plain] frame recs frames (_ & _ & _ & _ & a & _ & ->) _ IH]; constructor; [|done].
  unfold frame_of, record_header, is_bytes. rewrite !Forall_app. split_and!; try apply put_be_bytes. apply seal_bytes.
Qed.

Lemma carried_bytes m base frames X : carried m base frames X -> Forall is_bytes frames.
Proof. intros (recs & HF & _). by eapply frames_bytes. Qed.

Lemma header_facts typ payload : is_u8 typ -> is_bytes (kip_header typ payload) /\ zlen (kip_header typ payload) = 6 /\ kip_header typ payload ≠ [].
Proof.
  intros Ht. split; [|split; [unfold zlen; by rewrite length_kip_header|done]].
  unfold kip_header. apply Forall_app. split; [repeat constructor; unfold is_u8; lia|]. apply Forall_app. split; [by constructor|apply put_be_bytes].
Qed.

Lemma next_seq q : is_u64 (u64 (q + 1)).
Proof. unfold is_u64, u64. apply Z.mod_pos_bound. lia. Qed.

Lemma message_carried m base a e q typ payload :
  newAEADFor m base e = Ret (Some a) -> is_u32 e -> is_u64 q -> is_u8 typ -> is_bytes payload -> 0 < zlen payload <= 1000 ->
  carried m base (message_frames a e q typ payload) (kip_bytes typ payload).
Proof.
  intros Ha He Hq Ht Hp Hl. destruct (header_facts typ payload Ht) as (Hhb & Hh & Hh0). pose proof (next_seq q) as Hq1.
  assert (payload ≠ []) as Hp0 by (intros E; rewrite E in Hl; unfold zlen in Hl; cbn in Hl; lia).
  exists [(e, q, kip_header typ payload); (e, u64 (q + 1), payload)]. split; [|split].
  - constructor; [|constructor; [|constructor]]; (split; [done|]); (split; [done|]); (split; [done|]); (split; [lia|]); by exists a.
  - cbn. apply chain_cons; [done|done|]. apply chain_cons; [|done|constructor]. split; [lia|]. done.
  - unfold plains. cbn [map snd concat]. by rewrite app_nil_r.
Qed.

Lemma write_message {R : Type} ku c draws typ payload a :
  send_ok c None -> newAEADFor (method c) (baseSend c) (sendEpoch c) = Ret (Some a) ->
  is_u8 typ -> 0 < zlen payload <= 1000 -> sendBytes c = 0 -> sendEpochUpdates c = 0 -> 1024 <= ku < 2 ^ 62 ->
  exists c', method c' = method c /\ baseRecv c' = baseRecv c /\ recvAEAD c' = recvAEAD c /\ position c' = position c /\ readBuf c' = readBuf c /\
    forall (r : R) fs, @WriteKIPMessage (Side R) (side_writer ku) (mk_side c r draws [] fs) typ payload =
      Ret (mk_side c' r draws [] (fs ++ message_frames a (sendEpoch c) (sendSeq c) typ payload), None).
Proof.
  intros Hc Ha Ht Hl Hb Hu Hku. destruct (header_facts typ payload Ht) as (Hhb & Hh & Hh0). set (h := kip_header typ payload) in *.
  assert (payload ≠ []) as Hp0 by (intros E; rewrite E in Hl; unfold zlen in Hl; cbn in Hl; lia).
  pose proof (record_Write_small ku c draws h None a Hc Ha Hh0 ltac:(lia) ltac:(lia) ltac:(lia) Hu) as Ew.
  set (c1 := set_send _ _ _ _ _ _ _) in Ew. set (e := sendEpoch c) in *. set (q := sendSeq c) in *.
  destruct Hc as [Hm Hca He Hq _].
  assert (send_ok c1 (Some (e, u64 (q + 1)))) as Hc1.
  { split; cbn; [done|by right|done|apply next_seq|]. split; [lia|]. done. }
  pose proof (record_Write_small ku c1 draws payload _ a Hc1 Ha Hp0 ltac:(lia)) as Ew2. change (sendBytes c1) with (sendBytes c + zlen h) in Ew2.
  specialize (Ew2 ltac:(lia) ltac:(lia) eq_refl).
  set (c2 := set_send _ _ _ _ _ _ _) in Ew2. cbn [c1 set_send sendEpoch sendSeq] in Ew2.
  exists c2. split_and!; try done. intros r fs. unfold WriteKIPMessage. rewrite (proj2 (Z.ltb_ge kipMaxPayload _)) by lia. fold h.
  assert (forall c c' p fs frame, p ≠ [] ->
    record_Write ku c draws [] p = Ret {| s_conn := c'; s_draws := draws; s_script := []; s_frames := [frame]; s_total := zlen p; s_err := None |} ->
    @write_chunk (Side R) (side_writer ku) (S (length p)) (mk_side c r draws [] fs) p = Ret (mk_side c' r draws [] (fs ++ [frame]), None)) as Hchunk.
  { clear. intros c c' p fs frame Hne E. cbn [write_chunk]. rewrite bool_decide_false by done. unfold wr, side_writer.
    cbn [sd_conn sd_reader sd_draws sd_script sd_frames]. rewrite E. cbn [mbind res_bind s_conn s_draws s_script s_frames s_total s_err].
    assert (0 < zlen p) by (destruct p; [done|unfold zlen; cbn; lia]). rewrite (proj2 (Z.eqb_neq (zlen p) 0)) by lia.
    rewrite go_from_ok, drop_ge by (unfold zlen in *; lia). cbn [mbind res_bind]. destruct (length p); cbn [write_chunk]; by rewrite bool_decide_true. }
  cbn [writeAllChunks]. rewrite (Hchunk c c1 h fs _ Hh0 Ew). cbn [mbind res_bind]. rewrite (Hchunk c1 c2 payload _ _ Hp0 Ew2). cbn [mbind res_bind].
  by rewrite <-app_assoc.
Qed.

(** Reading from a side, which keeps what it has to send with. *)
Definition side_holds {R} `{ReaderLaws R} (rest : list Z) (e : string) (s0 s : Side R) (X : list Z) : Prop :=
  record_holds rest e (sd_conn s, sd_reader s) X /\ same_send (sd_conn s0) (sd_conn s) /\
  sd_draws s = sd_draws s0 /\ sd_script s = sd_script s0 /\ sd_frames s = sd_frames s0.

Lemma side_supply {R} `{ReaderLaws R} rest e s0 : supply (side_holds rest e s0).
Proof.
  intros s X size (Hh & Hss & Hf) HX Hs. destruct (record_supply rest e (sd_conn s, sd_reader s) X size Hh HX Hs) as ([c' r'] & out & E & Hne & Hl & X' & HX' & Hh').
  unfold rd, record_reader in E. cbn [fst snd] in E. unfold rd at 1, side_reader.
  destruct (record_Read (sd_conn s) (sd_reader s) size) as [[[[c1 r1] out1] err1]| |] eqn:Er; cbn [mbind res_bind] in E; [|discriminate E|discriminate E].
  injection E as -> -> -> ->. cbn [mbind res_bind]. eexists _, _. split; [done|]. split; [done|]. split; [done|]. exists X'. split; [done|].
  split; [done|]. split; [|done]. cbn. apply record_Read_send in Er. by eapply same_send_trans.
Qed.

Lemma record_holds_nil {R} `{ReaderLaws R} rest e c r : record_holds rest e (c, r) [] -> yields r rest e.
Proof.
  intros (_ & _ & recs & frames & Hy & HF & _ & HX). symmetry in HX. apply app_eq_nil in HX as [_ HX].
  destruct HF as [|[[e1 s1] plain] frame recs frames (_ & _ & Hne & _) HF]; [done|]. by apply app_eq_nil in HX as [].
Qed.

(** A fresh receiver reads the message that was written with its key. *)
Lemma read_message {R} `{ReaderLaws R} m base c' (r : R) draws script fs frames typ payload rest e :
  carried m base frames (kip_bytes typ payload) -> supported m -> method c' = m -> baseRecv c' = base ->
  recvAEAD c' = None -> position c' = None -> readBuf c' = [] -> zlen payload <= 65535 -> yields r (concat frames ++ rest) e ->
  exists c2 r2, ReadKIPMessage (mk_side c' r draws script fs) = Ret (mk_side c2 r2 draws script fs, inr {| Type_ := typ; Payload := payload |}) /\
    same_send c' c2 /\ yields r2 rest e.
Proof.
  intros (recs & HF & Hch & Hpl) Hm Hm' Hk Ha Hpos Hb Hl Hy.
  assert (side_holds rest e (mk_side c' r draws script fs) (mk_side c' r draws script fs) (kip_bytes typ payload ++ [])) as Hh.
  { split; [|done]. cbn [sd_conn sd_reader]. unfold record_holds. rewrite Hm', Hk, Ha, Hpos, Hb. split; [done|]. split; [by left|].
    exists recs, frames. split; [done|]. split; [done|]. split; [done|]. by rewrite app_nil_r. }
  destruct (ReadKIPMessage_ok _ _ typ payload [] (side_supply rest e _) Hl Hh) as ([c2 r2 d2 s2 f2] & -> & Hh2 & Hss & Hd & Hs & Hf).
  cbn in *. subst. exists c2, r2. split; [done|]. split; [done|]. by apply record_holds_nil in Hh2.
Qed.

(** ** Sessions *)

(** Whatever [a] writes, [b] reads, over any connection that delivers the
    frames: in reads of any sizes the first bytes, and all before the error
    that ends it.  Only a write whose random source fails is incomplete. *)
Definition delivers_all {R} `{ReaderLaws R} (ku : Z) (a b : RecordConn) : Prop :=
  forall draws ps, Forall is_u64 draws -> Forall is_bytes ps -> sendEpoch a + zlen (concat ps) < 2 ^ 32 ->
  exists out, record_Writes ku a draws [] ps = Ret out /\ Forall is_bytes (s_frames out) /\ (s_err out = None -> s_total out = zlen (concat ps)) /\
    forall (r : R) e sizes, yields r (concat (s_frames out)) e -> Forall (fun n => (0 < n)%nat) sizes ->
    exists br got err, Reads (b, r) sizes = Ret (br, got, err) /\
      let sent := take (Z.to_nat (s_total out)) (concat ps) in
      (err = None /\ got `prefix_of` sent /\ (length sizes <= length got)%nat \/ err = Some e /\ got = sent).

Lemma fresh_send_ok m k k' e q : supported m -> is_u32 e -> is_u64 q -> send_ok (fresh_conn m k k' e q) None.
Proof. intros Hm He Hq. split; cbn; [done|by left|done..]. Qed.

Lemma fresh_delivers {R} `{ReaderLaws R} ku m k k' k2 e q e' q' :
  supported m -> is_u32 e -> is_u64 q -> delivers_all ku (fresh_conn m k k' e q) (fresh_conn m k2 k e' q').
Proof.
  intros Hm He Hq draws ps Hd Hps Hl.
  destruct (record_Writes_ok ku (fresh_conn m k k' e q) draws [] ps None (fresh_send_ok m k k' e q Hm He Hq) Hd ltac:(constructor) Hps Hl)
    as (out & recs & E & [J1 (fs & Hfs & HF) J3 [_ J4] _ _ _ _ _]).
  exists out. split; [done|]. split; [rewrite Hfs; by eapply frames_bytes|]. split; [done|]. intros r err sizes Hy Hs.
  apply (Reads_ok (fresh_conn m k2 k e' q', r) sizes); [|done]. split; [done|]. split; [by left|].
  exists recs, (s_frames out). split; [by rewrite app_nil_r|]. rewrite Hfs. split; [done|]. split; [done|]. by rewrite <-J3.
Qed.

Lemma feats_range f : is_u32 (Z.land f KIPFeatAll).
Proof.
  change KIPFeatAll with (Z.land KIPFeatAll (Z.ones 5)). rewrite Z.land_assoc, Z.land_ones by lia.
  pose proof (Z.mod_pos_bound (Z.land f KIPFeatAll) (2 ^ 5) ltac:(lia)). unfold is_u32. lia.
Qed.

Section agreement.
  Context `{KeyLib} `{!KeyLaws} `{Sha256} `{MapOrder} {RC RS : Type} `{ReaderLaws RC} `{ReaderLaws RS}.
  Variable heap : nat -> TableObj.

Lemma derived_sizes psk shared nonce :
  length (derivePSKDirectionalBases psk).1 = 32%nat /\ length (derivePSKDirectionalBases psk).2 = 32%nat /\
  length (deriveSessionDirectionalBases psk shared nonce).1 = 32%nat /\ length (deriveSessionDirectionalBases psk shared nonce).2 = 32%nat.
Proof. cbn. rewrite !expand_size. done. Qed.

Lemma hello_size ch : hello_ok ch -> 0 < zlen (client_EncodePayload ch) <= 1000.
Proof.
  intros [_ Hu Hn Hp _ _]. unfold client_EncodePayload. rewrite !zlen_app, Hu, Hn, Hp, !zlen_put_be.
  destruct (HasTableHint ch); [rewrite zlen_put_be|change (zlen []) with 0]; lia.
Qed.

Lemma hello_bytes ch : is_bytes (UserHash ch) -> is_bytes (Nonce ch) -> is_bytes (ClientPub ch) -> is_bytes (client_EncodePayload ch).
Proof.
  intros Hu Hn Hp. unfold client_EncodePayload, is_bytes. rewrite !Forall_app. split_and!; try done; try apply put_be_bytes.
  destruct (HasTableHint ch); [apply put_be_bytes|constructor].
Qed.

(** The server's hello, for the client's. *)
Definition answer_to (ch : KIPClientHello) (eph : list Z) : KIPServerHello :=
  {| s_Nonce := Nonce ch; ServerPub := x25519_public eph; SelectedFeats := Z.land (Features ch) KIPFeatAll |}.

Lemma answer_size ch eph : zlen (Nonce ch) = 16 -> zlen (server_EncodePayload (answer_to ch eph)) = 52.
Proof. intros Hn. unfold server_EncodePayload, answer_to. cbn [s_Nonce ServerPub SelectedFeats]. rewrite !zlen_app, Hn, zlen_put_be. unfold zlen. rewrite public_size. done. Qed.

Lemma answer_bytes ch eph : is_bytes (Nonce ch) -> is_bytes (server_EncodePayload (answer_to ch eph)).
Proof. intros Hn. unfold server_EncodePayload, is_bytes. rewrite !Forall_app. split_and!; [done|apply public_bytes|apply put_be_bytes]. Qed.

(** The client, once the server's hello is there to be read. *)
Lemma client_runs ku m seed c2s s2c e q draws userHash nonce eph ephS feats hint has now e1 q1 draws1 k a f2 (r : RC) X err :
  let ch := newKIPClientHello now userHash nonce (x25519_public eph) feats hint has in
  let keys := deriveSessionDirectionalBases seed k nonce in
  1024 <= ku < 2 ^ 62 -> supported m -> is_u32 e -> is_u64 q -> counters draws e1 q1 draws1 -> newAEADFor m c2s e = Ret (Some a) ->
  hello_ok ch -> x25519 eph (x25519_public ephS) = Some k ->
  carried m s2c f2 (kip_bytes KIPTypeServerHello (server_EncodePayload (answer_to ch ephS))) -> yields r (concat f2 ++ X) err ->
  exists r',
    kipHandshakeClient ku (mk_side (fresh_conn m c2s s2c e q) r draws [] []) seed userHash feats hint has (Some eph) (Some nonce) now =
    Ret (mk_side (fresh_conn m keys.1 keys.2 e1 q1) r' draws1 [] (message_frames a e q KIPTypeClientHello (client_EncodePayload ch)),
         inr (Z.land feats KIPFeatAll)) /\ yields r' X err.
Proof.
  intros ch keys Hku Hm He Hq Hcnt Ha Hch Hk Hf2 Hy.
  destruct (write_message (R := RC) ku (fresh_conn m c2s s2c e q) draws KIPTypeClientHello (client_EncodePayload ch) a) as (c1 & Hm1 & Hk1 & Ha1 & Hp1 & Hb1 & Hw);
    [by apply fresh_send_ok|done|unfold is_u8; lia|by apply hello_size|done|done|lia|].
  unfold kipHandshakeClient. fold ch. unfold done_with. rewrite Hw. cbn [and_then mbind res_bind app].
  pose proof (ho_nonce ch Hch) as Hn16. pose proof (answer_size ch ephS Hn16) as Hl.
  destruct (read_message m s2c c1 r draws [] (message_frames a e q KIPTypeClientHello (client_EncodePayload ch)) f2 KIPTypeServerHello
    (server_EncodePayload (answer_to ch ephS)) X err Hf2 Hm) as (c2 & r2 & E & Hss & Hy2); [done..|lia|done|].
  cbn [fresh_conn sendEpoch sendSeq]. rewrite E. cbn [and_then mbind res_bind Type_ Payload negb Z.eqb Pos.eqb].
  rewrite server_hello_roundtrip; [|done|unfold zlen; cbn; by rewrite public_size|apply feats_range]. cbn [lift and_then mbind res_bind].
  rewrite bool_decide_true by done. cbn [negb answer_to ServerPub]. unfold x25519SharedSecret. rewrite Hk. fold keys. rewrite (surjective_pairing keys).
  destruct (derived_sizes seed k nonce) as (_ & _ & Hz1 & Hz2). fold keys in Hz1, Hz2. cbv iota beta.
  unfold side_Rekey. cbn [sd_conn sd_draws sd_reader sd_script sd_frames]. rewrite (Rekey_fresh c2 _ _ _ _ _ _ Hz1 Hz2 Hcnt). cbn [and_then mbind res_bind].
  exists r2. split; [|done]. destruct Hss as (-> & _). by rewrite Hm1.
Qed.

(** The server, once the client's hello is there to be read. *)
Lemma server_runs ku m seed c2s s2c e q draws ch eph selected candidates resolved pureDownlink p p' o o' now now' e1 q1 draws1 k a f1 (r : RS) X err :
  let keys := deriveSessionDirectionalBases seed k (Nonce ch) in
  1024 <= ku < 2 ^ 62 -> supported m -> is_u32 e -> is_u64 q -> counters draws e1 q1 draws1 -> newAEADFor m s2c e = Ret (Some a) ->
  hello_ok ch -> x25519 eph (ClientPub ch) = Some k ->
  skew_ok now (Timestamp (received ch)) = true -> protector_allow p (hex_string (UserHash ch)) (Nonce ch) now' = Ret (p', true) ->
  ResolveClientHelloTable heap (Some selected) candidates (Some (received ch)) = Ret resolved ->
  switch_downlink heap o selected resolved pureDownlink = Ret (inr o') ->
  carried m c2s f1 (kip_bytes KIPTypeClientHello (client_EncodePayload ch)) -> yields r (concat f1 ++ X) err ->
  exists r',
    kipHandshakeServer ku heap (mk_side (fresh_conn m s2c c2s e q) r draws [] [], p, o) seed selected candidates pureDownlink (Some eph) now now' =
    Ret (mk_side (fresh_conn m keys.2 keys.1 e1 q1) r' draws1 [] (message_frames a e q KIPTypeServerHello (server_EncodePayload (answer_to ch eph))), p', o',
         inr (hex_string (UserHash ch))) /\ yields r' X err.
Proof.
  intros keys Hku Hm He Hq Hcnt Ha Hch Hk Hskew Hallow Hres Hsw Hf1 Hy.
  pose proof (ho_nonce ch Hch) as Hn16. pose proof (answer_size ch eph Hn16) as Hl. pose proof (hello_size ch Hch) as Hhl.
  destruct (read_message m c2s (fresh_conn m s2c c2s e q) r draws [] [] f1 KIPTypeClientHello (client_EncodePayload ch) X err Hf1 Hm)
    as (c2 & r2 & E & Hss & Hy2); [done..|lia|done|].
  unfold kipHandshakeServer. rewrite E. cbn [on_side and_then mbind res_bind Type_ Payload negb Z.eqb Pos.eqb].
  rewrite client_hello_roundtrip by done. cbn [lift and_then mbind res_bind]. rewrite Hskew. cbn [negb].
  cbn [received UserHash Nonce]. cbn [received UserHash Nonce] in Hallow. rewrite Hallow. cbn [mbind res_bind negb]. fold (received ch).
  rewrite Hres. cbn [lift and_then mbind res_bind]. rewrite Hsw. cbn [and_then mbind res_bind].
  unfold x25519SharedSecret. cbn [received ClientPub]. rewrite Hk. fold keys. rewrite (surjective_pairing keys). cbv iota beta. cbn [received Features].
  fold (answer_to ch eph). destruct Hss as (Em & Ebs & Ebr & Eas & Eae & Ee & Eq & Eb & Eu). cbn [fresh_conn method baseSend baseRecv sendAEAD sendAEADEpoch sendEpoch sendSeq sendBytes sendEpochUpdates] in *.
  destruct (write_message (R := RS) ku c2 draws KIPTypeServerHello (server_EncodePayload (answer_to ch eph)) a) as (c3 & Hm3 & _ & _ & _ & _ & Hw).
  { split; [by rewrite Em|left; by rewrite Eas|by rewrite Ee|by rewrite Eq|done]. }
  { by rewrite Em, Ebs, Ee. }
  { unfold is_u8. lia. }
  { lia. }
  { done. }
  { done. }
  { lia. }
  unfold done_with. rewrite Hw. cbn [on_side and_then mbind res_bind app].
  destruct (derived_sizes seed k (Nonce ch)) as (_ & _ & Hz1 & Hz2). fold keys in Hz1, Hz2.
  unfold side_Rekey. cbn [sd_conn sd_draws sd_reader sd_script sd_frames]. rewrite (Rekey_fresh c3 _ _ _ _ _ _ Hz2 Hz1 Hcnt). cbn [on_side and_then mbind res_bind].
  exists r2. split; [|done]. by rewrite Hm3, Em, Ee, Eq.
Qed.

(** A client and a server with the same secret and cipher, whose hello the
    server lets pass: each side, when what the other has sent is there to be
    read, ends without an error, consumes that and no more, and then what the
    one writes is what the other reads, in both directions. *)
Lemma handshake_agrees ku m seed drawsC ec qc drawsC1 ec1 qc1 drawsC2 drawsS es qs drawsS1 es1 qs1 drawsS2
    userHash nonce ephC ephS feats hint has nowC nowS nowS' selected candidates resolved pureDownlink p p' o o' :
  let psk := derivePSKDirectionalBases seed in
  let ch := newKIPClientHello nowC userHash nonce (x25519_public ephC) feats hint has in
  1024 <= ku < 2 ^ 62 -> supported m ->
  counters drawsC ec qc drawsC1 -> counters drawsC1 ec1 qc1 drawsC2 -> counters drawsS es qs drawsS1 -> counters drawsS1 es1 qs1 drawsS2 ->
  hello_ok ch -> is_bytes userHash -> is_bytes nonce ->
  skew_ok nowS (Timestamp (received ch)) = true -> protector_allow p (hex_string userHash) nonce nowS' = Ret (p', true) ->
  ResolveClientHelloTable heap (Some selected) candidates (Some (received ch)) = Ret resolved ->
  switch_downlink heap o selected resolved pureDownlink = Ret (inr o') ->
  exists c s f1 f2 c' s',
    NewRecordConn m psk.1 psk.2 drawsC = Ret (c, drawsC1) /\ NewRecordConn m psk.2 psk.1 drawsS = Ret (s, drawsS1) /\
    (forall (r : RC) X err, yields r (concat f2 ++ X) err -> exists r',
      kipHandshakeClient ku (mk_side c r drawsC1 [] []) seed userHash feats hint has (Some ephC) (Some nonce) nowC =
      Ret (mk_side c' r' drawsC2 [] f1, inr (Z.land feats KIPFeatAll)) /\ yields r' X err) /\
    (forall (r : RS) X err, yields r (concat f1 ++ X) err -> exists r',
      kipHandshakeServer ku heap (mk_side s r drawsS1 [] [], p, o) seed selected candidates pureDownlink (Some ephS) nowS nowS' =
      Ret (mk_side s' r' drawsS2 [] f2, p', o', inr (hex_string userHash)) /\ yields r' X err) /\
    Forall is_bytes f1 /\ Forall is_bytes f2 /\ delivers_all (R := RS) ku c' s' /\ delivers_all (R := RC) ku s' c'.
Proof.
  intros psk ch Hku Hm HC HC1 HS HS1 Hch Hub Hnb Hskew Hallow Hres Hsw.
  destruct (derived_sizes seed [] []) as (Hz1 & Hz2 & _). fold psk in Hz1, Hz2. destruct (x25519_agree ephC ephS) as (k & HkC & HkS).
  destruct (newAEADFor_ok m psk.1 ec Hm) as [a Ha]. destruct (newAEADFor_ok m psk.2 es Hm) as [b Hb].
  pose proof HC as (_ & Hec & Hqc). pose proof HS as (_ & Hes & Hqs). pose proof HC1 as (_ & Hec1 & Hqc1). pose proof HS1 as (_ & Hes1 & Hqs1).
  pose proof (message_carried m psk.1 a ec qc KIPTypeClientHello (client_EncodePayload ch) Ha Hec Hqc ltac:(unfold is_u8; lia)
    (hello_bytes ch Hub Hnb (public_bytes _)) (hello_size ch Hch)) as Hf1.
  pose proof (message_carried m psk.2 b es qs KIPTypeServerHello (server_EncodePayload (answer_to ch ephS)) Hb Hes Hqs ltac:(unfold is_u8; lia)
    (answer_bytes ch ephS Hnb) ltac:(rewrite answer_size by apply (ho_nonce ch Hch); lia)) as Hf2.
  set (keys := deriveSessionDirectionalBases seed k nonce).
  exists (fresh_conn m psk.1 psk.2 ec qc), (fresh_conn m psk.2 psk.1 es qs), (message_frames a ec qc KIPTypeClientHello (client_EncodePayload ch)),
    (message_frames b es qs KIPTypeServerHello (server_EncodePayload (answer_to ch ephS))), (fresh_conn m keys.1 keys.2 ec1 qc1), (fresh_conn m keys.2 keys.1 es1 qs1).
  split; [by apply NewRecordConn_fresh|]. split; [by apply NewRecordConn_fresh|]. split.
  { intros r X err Hy. by eapply (client_runs ku m seed psk.1 psk.2 ec qc drawsC1 userHash nonce ephC ephS feats hint has nowC ec1 qc1 drawsC2 k a _ r X err). }
  split.
  { intros r X err Hy. by eapply (server_runs ku m seed psk.1 psk.2 es qs drawsS1 ch ephS selected candidates resolved pureDownlink p p' o o' nowS nowS' es1 qs1 drawsS2 k b _ r X err). }
  split; [by eapply carried_bytes|]. split; [by eapply carried_bytes|]. split; by apply fresh_delivers.
Qed.
End agreement.
End exact.
