(* ===== verification/SudokuSession.v ===== *)
(** * A session of the Sudoku transport, from end to end

    The Sudoku connections as readers; what carries the bytes of a direction as
    an interface, with the plain and the packed obfuscation as instances; and
    the whole: handshake and data, over both. *)

From S2P Require Import Prelude GoIo SudokuLayout SudokuTable SudokuRand SudokuConn SudokuStream SudokuPacked SudokuPackedStream SudokuPackedExact.
From S2P Require Import SudokuRecord SudokuRecordExact SudokuKip SudokuReplay SudokuHandshake SudokuHandshakeExact.

Section readers.
  Context `{GoAppend}.

#[export] Instance conn_reader : Reader Conn := conn_Read.

#[export] Instance conn_reader_laws : ReaderLaws Conn.
Proof.
  refine {| yields := fun sc X e => (exists t, delivers t sc X) /\ net_err (net sc) = e |}.
  intros sc X e size [[t Hd] <-] Hs. destruct (conn_Read_ok t size Hs sc X Hd) as (sc' & out & err & E & _ & Hn & Hg).
  exists sc', out, err. split; [exact E|]. destruct err as [e'|].
  - destruct Hg as (-> & -> & -> & Hd'). split; [done|]. split; [done|]. split; [done|]. by split; [exists t|].
  - destruct Hg as (Hne & Hl & X' & -> & Hd'). split; [done|]. split; [done|]. exists X'. split; [done|]. by split; [exists t|].
Defined.

#[export] Instance packed_reader : Reader PackedConn := packed_Read.

#[export] Instance packed_reader_laws : ReaderLaws PackedConn.
Proof.
  refine {| yields := fun pc X e => (exists t, layout_ok (layout t) /\ p_delivers t (padMarker (layout t)) pc X) /\ net_err (p_net pc) = e |}.
  intros pc X e size [(t & Hl & Hd) <-] Hs. destruct (packed_Read_ok t _ size Hl Hs pc X Hd) as (pc' & out & err & E & Hn & Hg).
  exists pc', out, err. split; [exact E|]. destruct err as [e'|].
  - destruct Hg as (-> & -> & -> & Hd'). split; [done|]. split; [done|]. split; [done|]. by split; [exists t|].
  - destruct Hg as (Hne & Hlen & X' & -> & Hd'). split; [done|]. split; [done|]. exists X'. split; [done|]. by split; [exists t|].
Defined.
End readers.

(** ** What carries a direction *)

(** One end sends writes as bytes of the network; the other end reads, from the
    bytes cut in any way, what was written. *)
Record Channel (R : Type) `{ReaderLaws R} := {
  ch_send : list (list Z) -> res (list Z);
  ch_open : list (list Z) -> string -> bool -> R;
  ch_carries writes : Forall is_bytes writes ->
    exists wire, ch_send writes = Ret wire /\ forall cs e flag, concat cs = wire -> yields (ch_open cs e flag) (concat writes) e
}.
Arguments ch_send {R _ _}.
Arguments ch_open {R _ _}.
Arguments ch_carries {R _ _}.

Section channels.
  Context `{GoAppend}.
  Variable t : Table.
  Hypothesis Ht : table_ok t.
  (** the seeds and paddings of the two ends, and how the network takes writes *)
  Variables seed pMin pMax seed' pMin' pMax' : Z.
  Variable record : bool.
  Variable script : list (nat * option string).
  Hypothesis Hscript : script_ok script.

Abbreviation no_net := {| chunks := []; net_err := "EOF"; err_with_data := false |}.

Definition plain_channel : Channel Conn.
Proof using Ht Hscript t seed pMin pMax seed' pMin' pMax' record.
  refine {| ch_send := fun writes => '(_, wire) ← conn_Writes (NewConn no_net (Some t) seed pMin pMax false) script writes; Ret wire;
            ch_open := fun cs e flag => NewConn {| chunks := cs; net_err := e; err_with_data := flag |} (Some t) seed' pMin' pMax' record |}.
  intros writes Hw.
  destruct (conn_Writes_ok t (NewConn no_net (Some t) seed pMin pMax false) script writes Ht) as (sc & wire & -> & Hc); [| |done..|].
  { unfold NewConn. by destruct (pickPaddingThreshold _ _ _). }
  { destruct (pickPaddingThreshold_range (newSudokuRand seed) pMin pMax (newSudokuRand_ok seed)) as (_ & _ & Hr).
    unfold NewConn. by destruct (pickPaddingThreshold _ _ _). }
  exists wire. split; [done|]. intros cs e flag <-. unfold NewConn. destruct (pickPaddingThreshold _ _ _) as [th r].
  split; [|done]. exists t. split; cbn; [done|unfold pending_ok; cbn; lia|done|lia|].
  exists (concat writes). split; [by apply carries_decode|done].
Defined.

Definition packed_channel : Channel PackedConn.
Proof using Ht Hscript t seed pMin pMax seed' pMin' pMax'.
  refine {| ch_send := fun writes => '(_, wire) ← packed_Ops (NewPackedConn no_net (Some t) seed pMin pMax) script (map OpWrite writes); Ret wire;
            ch_open := fun cs e flag => NewPackedConn {| chunks := cs; net_err := e; err_with_data := flag |} (Some t) seed' pMin' pMax' |}.
  intros writes Hw. pose proof (tok_layout t Ht) as Hl.
  destruct (packed_Ops_ok t (NewPackedConn no_net (Some t) seed pMin pMax) script (map OpWrite writes) Ht) as (pc & wire & -> & Hb & Hr);
    [by apply new_writer_ok|done|by apply Forall_map|].
  exists wire. split; [done|]. intros cs e flag <-. unfold NewPackedConn. destruct (pickPaddingThreshold _ _ _) as [th r].
  split; [|done]. exists t. split; [done|]. rewrite map_map in Hr. cbn [op_bytes] in Hr. rewrite map_id in Hr.
  split; cbn [p_table p_padMarker p_pending readBitBuf readBits]; [done..|unfold pending_ok; cbn; lia|split; cbn; lia|done|]. by exists (concat writes).
Defined.
End channels.

(** ** Handshake and data *)

Section session.
  Context `{RecordLib} `{!RecordLaws} `{KeyLib} `{!KeyLaws} `{Sha256} `{MapOrder} {RC RS : Type} `{ReaderLaws RC} `{ReaderLaws RS}.

(** What reads of any sizes return of [sent], when [e] is the error that ends
    the connection: the first bytes, and all before the error. *)
Definition exactly (sent : list Z) (e : string) (sizes : list nat) (got : list Z) (err : option string) : Prop :=
  err = None /\ got `prefix_of` sent /\ (length sizes <= length got)%nat \/ err = Some e /\ got = sent.

(** A side that has run its part, [run], over a channel whose other end sent the
    frames of its hello and then data of [peer]: the side ends in [conn] with
    its own frames, and reads that data exactly. *)
Definition hears {R} `{ReaderLaws R} (ku : Z) (ch : Channel R) (hello : list (list Z)) (peer conn : RecordConn) (run : R -> R -> Prop) : Prop :=
  forall draws ps, Forall is_u64 draws -> Forall is_bytes ps -> sendEpoch peer + zlen (concat ps) < 2 ^ 32 ->
  exists out wire, record_Writes ku peer draws [] ps = Ret out /\ (s_err out = None -> s_total out = zlen (concat ps)) /\
    ch_send ch (hello ++ s_frames out) = Ret wire /\
    forall cs e flag sizes, concat cs = wire -> Forall (fun n => (0 < n)%nat) sizes ->
    exists r', run (ch_open ch cs e flag) r' /\
    exists cr got err, Reads (conn, r') sizes = Ret (cr, got, err) /\ exactly (take (Z.to_nat (s_total out)) (concat ps)) e sizes got err.

Lemma hears_ok {R} `{ReaderLaws R} ku (ch : Channel R) hello peer conn (run : R -> R -> Prop) :
  Forall is_bytes hello -> delivers_all (R := R) ku peer conn ->
  (forall r X e, yields r (concat hello ++ X) e -> exists r', run r r' /\ yields r' X e) -> hears ku ch hello peer conn run.
Proof.
  intros Hh Hd Hrun draws ps Hdr Hps Hl. destruct (Hd draws ps Hdr Hps Hl) as (out & E & Hfb & Ht & Hread).
  destruct (ch_carries ch (hello ++ s_frames out)) as (wire & Hw & Hopen); [by apply Forall_app|]. exists out, wire. split_and!; [done..|].
  intros cs e flag sizes Hcs Hsz. specialize (Hopen cs e flag Hcs). rewrite concat_app in Hopen. destruct (Hrun _ _ _ Hopen) as (r' & Hr & Hy).
  exists r'. split; [done|]. destruct (Hread r' e sizes Hy Hsz) as (cr & got & err & Er & Hg). by exists cr, got, err.
Qed.

(** C30: a client and a server with the same secret, cipher and tables, whose
    hello the server lets pass, over obfuscated channels whose bytes the network
    cuts in any way: the handshake ends without an error on both sides, with the
    features the server knows, and then each side reads exactly what the other
    has written, all of it before the error that ends the connection. *)
Theorem sudoku_session_exact (up : Channel RS) (down : Channel RC) heap
    ku m seed drawsC ec qc drawsC1 ec1 qc1 drawsC2 drawsS es qs drawsS1 es1 qs1 drawsS2
    userHash nonce ephC ephS feats hint has nowC nowS nowS' selected candidates resolved pureDownlink p p' o o' :
  let psk := derivePSKDirectionalBases seed in
  let ch := newKIPClientHello nowC userHash nonce (x25519_public ephC) feats hint has in
  1024 <= ku < 2 ^ 62 -> supported m ->
  counters drawsC ec qc drawsC1 -> counters drawsC1 ec1 qc1 drawsC2 -> counters drawsS es qs drawsS1 -> counters drawsS1 es1 qs1 drawsS2 ->
  hello_ok ch -> is_bytes userHash -> is_bytes nonce ->
  skew_ok nowS (Timestamp (received ch)) = true -> protector_allow p (hex_string userHash) nonce nowS' = Ret (p', true) ->
  ResolveClientHelloTable heap (Some selected) candidates (Some (received ch)) = Ret resolved ->
  switch_downlink heap o selected resolved pureDownlink = Ret (inr o') ->
  exists c s f1 f2 c' s',
    NewRecordConn m psk.1 psk.2 drawsC = Ret (c, drawsC1) /\ NewRecordConn m psk.2 psk.1 drawsS = Ret (s, drawsS1) /\
    hears ku up f1 c' s' (fun r r' =>
      kipHandshakeServer ku heap (mk_side s r drawsS1 [] [], p, o) seed selected candidates pureDownlink (Some ephS) nowS nowS' =
      Ret (mk_side s' r' drawsS2 [] f2, p', o', inr (hex_string userHash))) /\
    hears ku down f2 s' c' (fun r r' =>
      kipHandshakeClient ku (mk_side c r drawsC1 [] []) seed userHash feats hint has (Some ephC) (Some nonce) nowC =
      Ret (mk_side c' r' drawsC2 [] f1, inr (Z.land feats KIPFeatAll))).
Proof.
  intros psk ch Hku Hm HC HC1 HS HS1 Hch Hub Hnb Hskew Hallow Hres Hsw.
  destruct (handshake_agrees (RC := RC) (RS := RS) heap ku m seed drawsC ec qc drawsC1 ec1 qc1 drawsC2 drawsS es qs drawsS1 es1 qs1 drawsS2
    userHash nonce ephC ephS feats hint has nowC nowS nowS' selected candidates resolved pureDownlink p p' o o')
    as (c & s & f1 & f2 & c' & s' & E1 & E2 & Hcl & Hsv & Hb1 & Hb2 & Hd1 & Hd2); [done..|].
  exists c, s, f1, f2, c', s'. split_and!; [done..| |]; by apply hears_ok.
Qed.
End session.
