(* ===== verification/SudokuSessionExample.v ===== *)
(** * A session at work

    Instances of what the cryptographic functions are assumed to do, and the
    theorems on records and sessions at concrete inputs. *)

From S2P Require Import Prelude GoIo GoText SudokuLayout SudokuTable SudokuRand SudokuConn SudokuStream SudokuPacked SudokuPackedExact SudokuExample.
From S2P Require Import SudokuRecord SudokuRecordExact SudokuKip SudokuReplay SudokuHandshake SudokuHandshakeExact SudokuSession.

#[local] Existing Instance ex_text.
#[local] Existing Instance ex_sha.
#[local] Existing Instance ex_rand.
#[local] Existing Instance ex_append.
#[local] Existing Instance ex_text_laws.
#[local] Existing Instance ex_rand_laws.
#[local] Existing Instance ex_order.

(** Functions with the sizes and the inverses of the real ones. *)
#[local] Instance ex_record : RecordLib := {|
  hmac_sha256 key message := put_be 32 (get_be key + get_be message);
  aead_Overhead _ := 16;
  aead_NonceSize _ := 12;
  aead_Seal _ key nonce plain data := map u8 plain ++ put_be 16 (get_be key + get_be data);
  aead_Open _ key nonce sealed data :=
    if bool_decide (drop (length sealed - 16) sealed = put_be 16 (get_be key + get_be data)) then Some (take (length sealed - 16) sealed) else None |}.

Lemma u8_bytes plain : is_bytes plain -> map u8 plain = plain.
Proof. induction 1 as [|b plain Hb _ IH]; cbn; [done|]. by rewrite IH, u8_id. Qed.

#[local] Instance ex_record_laws : RecordLaws.
Proof.
  split; cbn [hmac_sha256 aead_Overhead aead_NonceSize aead_Seal aead_Open ex_record]; intros; try done.
  - rewrite u8_bytes by done. rewrite length_app, length_put_be, Nat.add_sub, drop_app_length, take_app_length. by rewrite bool_decide_true.
  - rewrite zlen_app, zlen_put_be. unfold zlen. rewrite length_map. done.
  - apply Forall_app. split; [|apply put_be_bytes]. apply Forall_map, Forall_forall. intros x _. apply u8_range.
Qed.

#[local] Instance ex_keys : KeyLib := {|
  x25519_public k := put_be 32 (get_be k);
  x25519 k public := Some (put_be 32 (get_be (put_be 32 (get_be k)) + get_be public));
  hkdf_extract secret salt := put_be 32 (get_be secret + get_be salt);
  hkdf_expand prk info := put_be 32 (get_be prk + get_be info) |}.

#[local] Instance ex_keys_laws : KeyLaws.
Proof.
  split; cbn [x25519_public x25519 hkdf_extract hkdf_expand ex_keys]; intros; try apply length_put_be; try apply put_be_bytes.
  eexists. split; [done|]. by rewrite Z.add_comm.
Qed.

(** Two records, and the first of them again; with a third that is not one. *)
Definition ex_receiver : RecordConn := fresh_conn "aes-128-gcm" (repeat 1 32) (repeat 2 32) 5 7.

Definition ex_body (e s : Z) (plain : list Z) : list Z :=
  match newAEADFor "aes-128-gcm" (repeat 2 32) e with
  | Ret (Some a) => record_header e s ++ seal_with a (record_header e s) plain
  | _ => []
  end.

Definition ex_bodies : list (list Z) := [ex_body 3 9 [1; 2]; ex_body 3 10 [3]; ex_body 3 9 [1; 2]; ex_body 3 11 [4] ++ [0]; ex_body 4 100 [5]].

Lemma ex_body_ok e s plain : is_bytes (ex_body e s plain) /\ 12 <= zlen (ex_body e s plain).
Proof.
  unfold ex_body. destruct (newAEADFor_ok "aes-128-gcm" (repeat 2 32) e (or_introl eq_refl)) as [a ->]. split.
  - unfold record_header, is_bytes. rewrite !Forall_app. split_and!; [apply put_be_bytes..|apply seal_bytes].
  - rewrite zlen_app. unfold record_header at 1. rewrite zlen_app, !zlen_put_be. pose proof (zlen_nonneg (seal_with a (record_header e s) plain)). lia.
Qed.

Lemma ex_bodies_ok : Forall (fun body => is_bytes body /\ 12 <= zlen body) ex_bodies.
Proof.
  unfold ex_bodies. repeat (constructor; [apply ex_body_ok|]). constructor; [|constructor; [apply ex_body_ok|constructor]].
  destruct (ex_body_ok 3 11 [4]) as [Hb Hl]. split; [|rewrite zlen_app; change (zlen [0]) with 1; lia].
  apply Forall_app. split; [done|]. constructor; [unfold is_u8; lia|constructor].
Qed.

Lemma record_no_replay_witness :
  (exists c' hs, open_all ex_receiver ex_bodies = Ret (c', hs) /\ NoDup hs) /\
  exists c', open_all ex_receiver ex_bodies = Ret (c', [record_header 3 9; record_header 3 10; record_header 4 100]) /\ readBuf c' = [1; 2; 3; 5].
Proof.
  split; [|eexists; vm_compute; split; reflexivity].
  exact (record_no_replay ex_receiver ex_bodies ltac:(discriminate) ex_bodies_ok eq_refl).
Defined.

Lemma ex_counters a b rest :
  is_u32 a -> is_u64 b -> negb (a =? 0) && negb (a =? 2 ^ 32 - 1) = true -> negb (b =? 0) && negb (b =? 2 ^ 64 - 1) = true -> counters (a :: b :: rest) a b rest.
Proof.
  intros Ha Hb Ea Eb. unfold counters, randomRecordCounters. cbn [randomNonZero]. rewrite Ea. cbn [mbind res_bind randomNonZero]. rewrite Eb.
  exact (conj eq_refl (conj Ha Hb)).
Qed.

Lemma ex_session_hello : hello_ok (newKIPClientHello (1000 * second) (repeat 1 8) (repeat 7 16) (x25519_public (repeat 5 32)) 255 0 false).
Proof. split; cbn [newKIPClientHello Timestamp UserHash Nonce ClientPub Features TableHint]; [change (Unix _) with 1000; lia|reflexivity|reflexivity|unfold zlen; by rewrite public_size|unfold is_u32; lia..]. Qed.

(** The first hello of all passes. *)
Lemma first_passes u nonce now : u ≠ [] -> exists p', protector_allow ∅ u nonce now = Ret (p', true).
Proof.
  intros Hu. unfold protector_allow. rewrite bool_decide_false by done. cbv zeta. rewrite lookup_empty.
  destruct (allow_small (newNonceSet 4096) nonce now handshakeReplayTTL) as (s' & ok & -> & _ & _ & -> & _); [done|done|].
  cbn [mbind res_bind newNonceSet ns_m]. rewrite lookup_empty. by eexists.
Qed.

(** A table for both directions, the clocks two seconds apart. *)
Lemma sudoku_session_exact_witness :
  exists t Ht p',
    let up := plain_channel t Ht 1 5 20 2 5 20 true [] (Forall_nil_2 _) in
    let down := packed_channel t Ht 3 5 20 4 5 20 [] (Forall_nil_2 _) in
    let heap := fun _ : nat => {| t_table := t; t_opposite := None |} in
    let o := {| uplink_table := 0; downlink := Some (PackedDown 0) |} in
    protector_allow ∅ (hex_string (repeat 1 8)) (repeat 7 16) (1002 * second) = Ret (p', true) /\
    exists c s f1 f2 c' s',
    NewRecordConn "aes-128-gcm" (derivePSKDirectionalBases [1; 2; 3]).1 (derivePSKDirectionalBases [1; 2; 3]).2 [11; 12; 13; 14] = Ret (c, [13; 14]) /\
    NewRecordConn "aes-128-gcm" (derivePSKDirectionalBases [1; 2; 3]).2 (derivePSKDirectionalBases [1; 2; 3]).1 [21; 22; 23; 24] = Ret (s, [23; 24]) /\
    hears (2 ^ 25) up f1 c' s' (fun r r' =>
      kipHandshakeServer (2 ^ 25) heap (mk_side s r [23; 24] [] [], ∅, o) [1; 2; 3] 0 [Some 0%nat] false (Some (repeat 6 32)) (1002 * second) (1002 * second) =
      Ret (mk_side s' r' [] [] f2, p', o, inr (hex_string (repeat 1 8)))) /\
    hears (2 ^ 25) down f2 s' c' (fun r r' =>
      kipHandshakeClient (2 ^ 25) (mk_side c r [13; 14] [] []) [1; 2; 3] (repeat 1 8) 255 0 false (Some (repeat 5 32)) (Some (repeat 7 16)) (1000 * second) =
      Ret (mk_side c' r' [] [] f1, inr 23)).
Proof.
  destruct ex_table as [t E]. destruct (first_passes (hex_string (repeat 1 8)) (repeat 7 16) (1002 * second) ltac:(discriminate)) as [p' Ep].
  exists t, (new_table_ok _ _ _ _ E), p'. cbv zeta.
  split; [exact Ep|].
  refine (sudoku_session_exact _ _ _ (2 ^ 25) "aes-128-gcm" [1; 2; 3] _ 11 12 _ 13 14 _ _ 21 22 _ 23 24 _ (repeat 1 8) (repeat 7 16) (repeat 5 32) (repeat 6 32)
    255 0 false (1000 * second) (1002 * second) (1002 * second) 0 [Some 0%nat] 0 false _ _ _ _ _ _ _ _ _ _ _ _ _ _ _ _ _).
  - lia.
  - by left.
  - apply ex_counters; [unfold is_u32; lia|unfold is_u64; lia|reflexivity|reflexivity].
  - apply ex_counters; [unfold is_u32; lia|unfold is_u64; lia|reflexivity|reflexivity].
  - apply ex_counters; [unfold is_u32; lia|unfold is_u64; lia|reflexivity|reflexivity].
  - apply ex_counters; [unfold is_u32; lia|unfold is_u64; lia|reflexivity|reflexivity].
  - exact ex_session_hello.
  - cbn. repeat (constructor; [unfold is_u8; lia|]). constructor.
  - cbn. repeat (constructor; [unfold is_u8; lia|]). constructor.
  - vm_compute. reflexivity.
  - exact Ep.
  - reflexivity.
  - reflexivity.
Defined.

(** The first epoch is random: two changes of the key after the greatest one
    there is the epoch is zero, which the receiver takes for an old one. *)
Example epoch_wraps :
  let c := fresh_conn "aes-128-gcm" (repeat 1 32) (repeat 2 32) (2 ^ 32 - 2) 7 in
  exists out, record_Writes 10 c [100; 200] [] [repeat 3 10; repeat 4 10] = Ret out /\ sendEpoch (s_conn out) = 0 /\ s_err out = None /\
  validateRecvPosition (markRecvPosition c (2 ^ 32 - 1) 100) 0 200 = Some "replayed epoch"%string.
Proof. eexists. split; [vm_compute; reflexivity|]. split_and!; vm_compute; reflexivity. Qed.
