(* ===== verification/SudokuMux.v ===== *)
(** * Streams over one Sudoku session
    (src/transport/sudoku/multiplex/session.go)

    Streams are opened, written and closed by frames with the number of the
    stream.  The loop that reads the frames puts the bytes in the queue of their
    stream, and waits when that queue is full.  Streams are objects: whoever has
    one can read it after the session has forgotten it. *)

From S2P Require Import Prelude GoIo.

Abbreviation frameOpen := 1.
Abbreviation frameData := 2.
Abbreviation frameClose := 3.
Abbreviation frameReset := 4.
Abbreviation maxQueuedBytesPerStream := (4 * 1024 * 1024).
Abbreviation maxFrameSize := (256 * 1024).
Abbreviation maxDataPayload := (128 * 1024).
Abbreviation ErrClosedPipe := "io: read/write on closed pipe"%string.

(** ** Streams *)

Record stream := mk_stream {
  st_id : Z;
  st_closed : bool;
  st_closeErr : option string;
  st_readBuf : list Z;
  st_queue : list (list Z);
  queuedBytes : Z
}.

Definition newStream (id : Z) : stream :=
  {| st_id := id; st_closed := false; st_closeErr := None; st_readBuf := []; st_queue := []; queuedBytes := 0 |}.

(** [enqueue]; [None] when it has to wait. *)
Definition enqueue (c : stream) (payload : list Z) : option stream :=
  if negb (st_closed c) && (maxQueuedBytesPerStream <? queuedBytes c + zlen payload) then None
  else if st_closed c then Some c
  else
    let queued := queuedBytes c + zlen payload in
    if bool_decide (st_readBuf c = []) && bool_decide (st_queue c = [])
    then Some (mk_stream (st_id c) (st_closed c) (st_closeErr c) payload (st_queue c) queued)
    else Some (mk_stream (st_id c) (st_closed c) (st_closeErr c) (st_readBuf c) (st_queue c ++ [payload]) queued).

(** The error is never nil here. *)
Definition closeNoSend (err : string) (c : stream) : stream :=
  if st_closed c then c
  else mk_stream (st_id c) true (match st_closeErr c with None => Some err | e => e end) (st_readBuf c) (st_queue c) (queuedBytes c).

Inductive read_result := RWait | RErr (e : string) | RBytes (bs : list Z).

Definition stream_Read (c : stream) (size : nat) : stream * read_result :=
  if (size =? 0)%nat then (c, RBytes [])
  else if bool_decide (st_readBuf c = []) && bool_decide (st_queue c = []) && negb (st_closed c) then (c, RWait)
  else
    let '(buf, queue) :=
      match st_readBuf c, st_queue c with
      | [], q :: queue => (q, queue)
      | buf, queue => (buf, queue)
      end in
    let c := mk_stream (st_id c) (st_closed c) (st_closeErr c) buf queue (queuedBytes c) in
    if bool_decide (buf = []) && st_closed c then (c, RErr (default ErrClosedPipe (st_closeErr c)))
    else
      let out := take size buf in
      let queued := queuedBytes c - zlen out in
      (mk_stream (st_id c) (st_closed c) (st_closeErr c) (drop size buf) queue (if queued <? 0 then 0 else queued), RBytes out).

(** ** Sessions *)

(** A frame: its type, stream and payload. *)
Record frame := { f_type : Z; f_id : Z; f_payload : list Z }.

Record Session := mk_session {
  (** whether there is an [acceptCh] *)
  is_server : bool;
  objs : list stream;
  streams : gmap Z nat;
  nextID : Z;
  (** streams that wait to be accepted *)
  offered : list (nat * list Z);
  closed : bool;
  closeErr : option string;
  (** the frames written *)
  sent : list frame
}.

Definition NewSession (server : bool) : Session := mk_session server [] ∅ 0 [] false None [].

Definition set_objs (s : Session) (os : list stream) : Session :=
  mk_session (is_server s) os (streams s) (nextID s) (offered s) (closed s) (closeErr s) (sent s).

Definition set_streams (s : Session) (m : gmap Z nat) : Session :=
  mk_session (is_server s) (objs s) m (nextID s) (offered s) (closed s) (closeErr s) (sent s).

Definition set_offered (s : Session) (l : list (nat * list Z)) : Session :=
  mk_session (is_server s) (objs s) (streams s) (nextID s) l (closed s) (closeErr s) (sent s).

Definition on_stream (s : Session) (a : nat) (f : stream -> stream) : Session := set_objs s (alter f a (objs s)).

Definition closedErr (s : Session) : string := default ErrClosedPipe (closeErr s).

Definition closeWithError (s : Session) (err : string) : Session :=
  if closed s then s
  else
    let addresses := map snd (map_to_list (streams s)) in
    let os := foldr (alter (closeNoSend err)) (objs s) addresses in
    mk_session (is_server s) os ∅ (nextID s) (offered s) true (match closeErr s with None => Some err | e => e end) (sent s).

Definition getStream (s : Session) (id : Z) : option nat := streams s !! id.
Definition removeStream (s : Session) (id : Z) : Session := set_streams s (delete id (streams s)).

(** [newStream] and [registerStream] *)
Definition register (s : Session) (id : Z) : Session * nat :=
  let a := length (objs s) in
  (mk_session (is_server s) (objs s ++ [newStream id]) (<[id := a]> (streams s)) (nextID s) (offered s) (closed s) (closeErr s) (sent s), a).

Definition nextStreamID (s : Session) : Session * Z :=
  let n := u32 (nextID s + 1) in
  let n := if n =? 0 then u32 (n + 1) else n in
  (mk_session (is_server s) (objs s) (streams s) n (offered s) (closed s) (closeErr s) (sent s), n).

(** The connection answers a write with an error or not. *)
Definition sendFrame (s : Session) (w : option string) (typ id : Z) (payload : list Z) : Session * option string :=
  if closed s then (s, Some (closedErr s))
  else if maxFrameSize <? zlen payload then (s, Some "mux payload too large"%string)
  else match w with
       | Some e => (closeWithError s e, Some e)
       | None =>
         (mk_session (is_server s) (objs s) (streams s) (nextID s) (offered s) (closed s) (closeErr s)
            (sent s ++ [{| f_type := typ; f_id := id; f_payload := payload |}]), None)
       end.

Definition sendReset (s : Session) (w w' : option string) (id : Z) (msg : string) : Session :=
  let msg := if bool_decide (msg = "") then "reset"%string else msg in
  let '(s, _) := sendFrame s w frameReset id (bytes_of msg) in
  let '(s, _) := sendFrame s w' frameClose id [] in
  s.

Definition OpenStream (s : Session) (w : option string) (openPayload : list Z) : Session * (string + nat) :=
  if closed s then (s, inl (closedErr s))
  else
    let '(s, id) := nextStreamID s in
    let '(s, a) := register s id in
    let '(s, err) := sendFrame s w frameOpen id openPayload in
    match err with
    | Some e => (removeStream (on_stream s a (closeNoSend e)) id, inl e)
    | None => (s, inr a)
    end.

(** [AcceptStream], of the streams offered the [i]th: the goroutines that offer
    them are in no order. *)
Definition AcceptStream (s : Session) (i : nat) : Session * option (nat * list Z) :=
  match offered s !! i with
  | Some ev => (set_offered s (delete i (offered s)), Some ev)
  | None => (s, None)
  end.

(** A goroutine that offers a stream when the session is closed. *)
Definition withdraw (s : Session) (i : nat) : Session :=
  match offered s !! i with
  | Some (a, _) =>
    match objs s !! a with
    | Some st => if closed s then set_offered (removeStream (on_stream s a (closeNoSend ErrClosedPipe)) (st_id st)) (delete i (offered s)) else s
    | None => s
    end
  | None => s
  end.

(** ** The loop that reads frames *)

Definition is_blank (c : Z) : bool := (c =? 32) || (c =? 10) || (c =? 13) || (c =? 9).

Fixpoint drop_blanks (b : list Z) : list Z :=
  match b with
  | [] => []
  | c :: r => if is_blank c then drop_blanks r else b
  end.

Definition trimASCII (b : list Z) : list Z := reverse (drop_blanks (reverse (drop_blanks b))).

Definition text_of (bs : list Z) : string := String.string_of_list_ascii (map (fun b => Ascii.ascii_of_N (Z.to_N b)) bs).

Inductive verdict := Next | Stop | Wait.

(** A turn of the loop, for the frame that was read. *)
Definition handle (s : Session) (w w' : option string) (f : frame) : Session * verdict :=
  let id := f_id f in
  if f_type f =? frameOpen then
    if negb (is_server s) then (sendReset s w w' id "unexpected open", Next)
    else if id =? 0 then (sendReset s w w' id "invalid stream id", Next)
    else match getStream s id with
         | Some _ => (sendReset s w w' id "stream already exists", Next)
         | None => let '(s, a) := register s id in (set_offered s (offered s ++ [(a, f_payload f)]), Next)
         end
  else if f_type f =? frameData then
    match getStream s id with
    | None => (s, Next)
    | Some a =>
      if bool_decide (f_payload f = []) then (s, Next)
      else match objs s !! a with
           | None => (s, Next)
           | Some st =>
             match enqueue st (f_payload f) with
             | None => (s, Wait)
             | Some st => (set_objs s (<[a := st]> (objs s)), Next)
             end
           end
    end
  else if f_type f =? frameClose then
    match getStream s id with
    | None => (s, Next)
    | Some a => (removeStream (on_stream s a (closeNoSend EOF)) id, Next)
    end
  else if f_type f =? frameReset then
    match getStream s id with
    | None => (s, Next)
    | Some a =>
      let msg := text_of (trimASCII (f_payload f)) in
      let msg := if bool_decide (msg = "") then "reset"%string else msg in
      (removeStream (on_stream s a (closeNoSend msg)) id, Next)
    end
  else (closeWithError s "unknown mux frame type", Stop).

Definition frame_bytes (f : frame) : list Z := [f_type f] ++ put_be 4 (f_id f) ++ put_be 4 (u32 (zlen (f_payload f))) ++ f_payload f.

Definition read_frame {R} `{Reader R} (r : R) : res (R * (string + frame)) :=
  '(r, header, err) ← ReadFull r 9;
  match err with
  | Some e => Ret (r, inl e)
  | None =>
    frameType ← go_index header 0;
    ib ← go_slice header 1 5;
    streamID ← go_be 4 ib;
    nb ← go_slice header 5 9;
    n ← go_be 4 nb;
    if maxFrameSize <? n then Ret (r, inl "invalid mux frame length"%string)
    else if 0 <? n then
      '(r, payload, err) ← ReadFull r (Z.to_nat n);
      match err with
      | Some e => Ret (r, inl e)
      | None => Ret (r, inr {| f_type := frameType; f_id := streamID; f_payload := payload |})
      end
    else Ret (r, inr {| f_type := frameType; f_id := streamID; f_payload := [] |})
  end.

(** ** Operations of a stream *)

Fixpoint write_chunks (fuel : nat) (s : Session) (ws : list (option string)) (id : Z) (p : list Z) (written : Z) : res (Session * Z * option string) :=
  if bool_decide (p = []) then Ret (s, written, None)
  else match fuel with
       | O => Panic
       | S fuel =>
         let chunk := if maxDataPayload <? zlen p then take (Z.to_nat maxDataPayload) p else p in
         let '(s, err) := sendFrame s (default None (head ws)) frameData id chunk in
         match err with
         | Some e => Ret (s, written, Some e)
         | None => write_chunks fuel s (tail ws) id (drop (length chunk) p) (written + zlen chunk)
         end
       end.

Definition stream_Write (s : Session) (ws : list (option string)) (a : nat) (p : list Z) : res (Session * Z * option string) :=
  if bool_decide (p = []) then Ret (s, 0, None)
  else if closed s then Ret (s, 0, Some (closedErr s))
  else match objs s !! a with
       | None => Panic
       | Some st =>
         if st_closed st then Ret (s, 0, Some (default ErrClosedPipe (st_closeErr st)))
         else write_chunks (S (length p)) s ws (st_id st) p 0
       end.

Definition stream_Close (s : Session) (w : option string) (a : nat) : Session :=
  match objs s !! a with
  | None => s
  | Some st =>
    if st_closed st then s
    else
      let s := on_stream s a (closeNoSend ErrClosedPipe) in
      let '(s, _) := sendFrame s w frameClose (st_id st) [] in
      removeStream s (st_id st)
  end.
