(* ===== verification/SudokuMuxExact.v ===== *)
(** * Every stream is a stream of its own

    However the frames of streams, the reads, the closes and the end of the
    session interleave, a stream of the server holds and has handed out what the
    frames with its number brought since it was opened, in order; and the frames
    of a client's stream bring what was written to it. *)

From S2P Require Import Prelude GoIo SudokuMux.

(** ** Frames on the wire *)

Definition frame_ok (f : frame) : Prop := is_u32 (f_id f) /\ zlen (f_payload f) <= maxFrameSize.

Definition frame_head (f : frame) : list Z := [f_type f] ++ put_be 4 (f_id f) ++ put_be 4 (zlen (f_payload f)).

Lemma length_frame_head f : length (frame_head f) = 9%nat.
Proof. unfold frame_head. by rewrite !length_app, !length_put_be. Qed.

Lemma frame_bytes_head f : frame_ok f -> frame_bytes f = frame_head f ++ f_payload f.
Proof.
  intros [_ Hl]. pose proof (zlen_nonneg (f_payload f)). unfold frame_bytes, frame_head. rewrite u32_id by (unfold is_u32; lia). by rewrite <-!app_assoc.
Qed.

(** What the loop does with a header. *)
Lemma read_frame_head {R} `{Reader R} r r1 f :
  frame_ok f -> ReadFull r 9 = Ret (r1, frame_head f, None) ->
  read_frame r =
    if 0 <? zlen (f_payload f) then
      '(r, payload, err) ← ReadFull r1 (length (f_payload f));
      match err with
      | Some e => Ret (r, inl e)
      | None => Ret (r, inr {| f_type := f_type f; f_id := f_id f; f_payload := payload |})
      end
    else Ret (r1, inr {| f_type := f_type f; f_id := f_id f; f_payload := [] |}).
Proof.
  intros [Hid Hl] Hr. pose proof (zlen_nonneg (f_payload f)) as Hpos. unfold read_frame. rewrite Hr. cbn [mbind res_bind].
  change (go_index (frame_head f) 0) with (Ret (f_type f)). cbn [mbind res_bind]. unfold frame_head.
  rewrite (go_slice_mid [f_type f] (put_be 4 (f_id f)) _ 1 5) by (rewrite ?zlen_put_be; done). cbn [mbind res_bind].
  unfold is_u32 in Hid. rewrite go_be_whole by lia. cbn [mbind res_bind].
  assert (go_slice ([f_type f] ++ put_be 4 (f_id f) ++ put_be 4 (zlen (f_payload f))) 5 9 = Ret (put_be 4 (zlen (f_payload f)))) as ->.
  { rewrite app_assoc, <-(app_nil_r (put_be 4 (zlen _))). apply (go_slice_mid ([f_type f] ++ put_be 4 (f_id f)) (put_be 4 (zlen (f_payload f))) []); rewrite ?zlen_app, ?zlen_put_be; done. }
  cbn [mbind res_bind]. rewrite go_be_whole by lia. cbn [mbind res_bind].
  rewrite (proj2 (Z.ltb_ge maxFrameSize _)) by lia. replace (Z.to_nat (zlen (f_payload f))) with (length (f_payload f)) by (unfold zlen; lia). done.
Qed.

Lemma read_frame_ok {R} `{Reader R} (P : R -> list Z -> Prop) r f X :
  supply P -> frame_ok f -> P r (frame_bytes f ++ X) -> exists r', read_frame r = Ret (r', inr f) /\ P r' X.
Proof.
  intros HP Hf Hy. rewrite frame_bytes_head, <-app_assoc in Hy by done.
  destruct (ReadFull_supply P r 9 _ HP Hy) as (r1 & Hr & Hy1); [rewrite length_app, length_frame_head; lia|].
  rewrite take_app_length' in Hr by (by rewrite length_frame_head). rewrite drop_app_length' in Hy1 by (by rewrite length_frame_head).
  rewrite (read_frame_head r r1 f Hf Hr). destruct (0 <? zlen (f_payload f)) eqn:E.
  - destruct (ReadFull_supply P r1 (length (f_payload f)) _ HP Hy1) as (r2 & -> & Hy2); [rewrite length_app; lia|]. cbn [mbind res_bind].
    rewrite take_app_length. rewrite drop_app_length in Hy2. exists r2. by destruct f.
  - exists r1. destruct f as [t i payload]. cbn [f_payload f_type f_id] in *. destruct payload; [done|discriminate E].
Qed.

(** The frames that the loop reads one after the other. *)
Fixpoint read_frames {R} `{Reader R} (k : nat) (r : R) : res (R * (string + list frame)) :=
  match k with
  | O => Ret (r, inr [])
  | S k =>
    '(r, x) ← read_frame r;
    match x with
    | inl e => Ret (r, inl e)
    | inr f =>
      '(r, y) ← read_frames k r;
      Ret (r, match y with inl e => inl e | inr fs => inr (f :: fs) end)
    end
  end.

Section frames.
  Context {R : Type} `{ReaderLaws R}.

(** Nothing is read as a frame before all of it has come. *)
Lemma read_frame_short r f g X Y e r' :
  frame_ok f -> yields r X e -> frame_bytes f = X ++ Y -> Y ≠ [] -> read_frame r = Ret (r', inr g) -> False.
Proof.
  intros Hf Hy HX HY. rewrite frame_bytes_head in HX by done. destruct (decide (length X < 9)%nat) as [Hs|Hs].
  { unfold read_frame. destruct (ReadFull_short r 9 X e Hy Hs) as (r1 & out & e' & ->). by cbn [mbind res_bind]. }
  destruct (ReadFull_ok r 9 X e Hy) as (r1 & Hr & Hy1); [lia|].
  assert (X = frame_head f ++ drop 9 X) as EX.
  { rewrite <-(take_drop 9 X) at 1. f_equal. rewrite <-(take_app_le X Y), <-HX by lia. apply take_app_length'. by rewrite length_frame_head. }
  rewrite EX, take_app_length' in Hr by (by rewrite length_frame_head). rewrite EX, <-app_assoc in HX. apply app_inv_head in HX.
  assert (length (drop 9 X) < length (f_payload f))%nat as Hlt by (rewrite HX, length_app; destruct Y; [done|cbn [length]; lia]).
  rewrite (read_frame_head r r1 f Hf Hr), (proj2 (Z.ltb_lt 0 _)) by (unfold zlen; lia).
  destruct (ReadFull_short r1 _ _ e Hy1 Hlt) as (r2 & out & e' & ->). by cbn [mbind res_bind].
Qed.

(** The frames read off a connection that gives a first part of what the frames
    [fs] are, are the first of them. *)
Lemma read_frames_first k fs r X e r' gs :
  Forall frame_ok fs -> yields r X e -> X `prefix_of` concat (map frame_bytes fs) -> read_frames k r = Ret (r', inr gs) -> gs = take k fs.
Proof.
  revert fs r X r' gs. induction k as [|k IH]; intros fs r X r' gs Hfs Hy HX Hr; cbn [read_frames] in Hr; [by injection Hr as _ <-|].
  destruct (read_frame r) as [[r1 x]| |] eqn:E1; cbn [mbind res_bind] in Hr; [|done..]. destruct x as [e1|g]; [done|].
  destruct (read_frames k r1) as [[r2 y]| |] eqn:E2; cbn [mbind res_bind] in Hr; [|done..]. destruct y as [e2|gs']; [done|]. injection Hr as _ <-.
  destruct Hfs as [|f fs Hf Hfs].
  { cbn [map concat] in HX. apply prefix_nil_inv in HX. subst X. exfalso. unfold read_frame in E1.
    destruct (ReadFull_end r 9 e Hy) as (r3 & E3 & _); [lia|]. rewrite E3 in E1. by cbn [mbind res_bind] in E1. }
  cbn [map concat] in HX. destruct HX as [Y HY]. destruct (decide (length (frame_bytes f) <= length X)%nat) as [Hle|Hlt].
  - assert (X = frame_bytes f ++ drop (length (frame_bytes f)) X) as EX.
    { rewrite <-(take_drop (length (frame_bytes f)) X) at 1. f_equal. rewrite <-(take_app_le X Y), <-HY by lia. apply take_app_length. }
    rewrite EX in Hy. destruct (read_frame_ok (fun r X => yields r X e) r f _ (yields_supply e) Hf Hy) as (r3 & E3 & Hy3).
    rewrite E3 in E1. injection E1 as <- <-. cbn [take]. f_equal. eapply IH; [done|exact Hy3| |exact E2].
    rewrite EX, <-app_assoc in HY. apply app_inv_head in HY. by eexists.
  - exfalso. eapply (read_frame_short r f g X (drop (length X) (frame_bytes f)) e r1); [done|done| | |exact E1].
    + rewrite <-(take_drop (length X) (frame_bytes f)) at 1. f_equal. rewrite <-(take_app_le (frame_bytes f) (concat (map frame_bytes fs))), HY by lia. apply take_app_length.
    + intros Hn. apply (f_equal length) in Hn. rewrite length_drop in Hn. change (length (@nil Z)) with 0%nat in Hn. lia.
Qed.
End frames.

(** ** Streams *)

(** What a stream has still to give. *)
Definition content (st : stream) : list Z := st_readBuf st ++ concat (st_queue st).

Record stream_ok (st : stream) : Prop := {
  so_queued : queuedBytes st = zlen (content st);
  so_bound : queuedBytes st <= maxQueuedBytesPerStream;
  so_parts : Forall (fun q => q ≠ []) (st_queue st)
}.

Lemma stream_ok_new id : stream_ok (newStream id).
Proof. split; cbn; [done|lia|constructor]. Qed.

Lemma enqueue_spec st payload st' :
  stream_ok st -> st_closed st = false -> payload ≠ [] -> enqueue st payload = Some st' ->
  stream_ok st' /\ st_id st' = st_id st /\ st_closed st' = false /\ content st' = content st ++ payload.
Proof.
  destruct st as [id cl err buf q n]. intros [Hq Hb Hp] Hc Hne. cbn in Hq, Hb, Hp, Hc. subst cl. unfold enqueue. cbn [negb andb st_closed st_readBuf st_queue queuedBytes st_id st_closeErr].
  destruct (_ <? _) eqn:E; [done|]. pose proof (zlen_nonneg payload). unfold content in *. cbn [st_readBuf st_queue] in *.
  assert (forall b q', b ++ concat q' = (buf ++ concat q) ++ payload -> Forall (fun q => q ≠ []) q' ->
    stream_ok (mk_stream id false err b q' (n + zlen payload)) /\ id = id /\ false = false /\ b ++ concat q' = (buf ++ concat q) ++ payload) as Hall.
  { intros b q' Hbq HF. split_and!; [|done..]. split; cbn; [unfold content; cbn; rewrite Hbq, (zlen_app (buf ++ _)); lia|lia|done]. }
  case_bool_decide as E1; cbn [andb]; [case_bool_decide as E2; cbn [andb]|]; intros [= <-]; cbn [st_readBuf st_queue st_id st_closed]; apply Hall; subst; try done.
  - cbn. by rewrite app_nil_r.
  - by rewrite concat_app; cbn; rewrite app_nil_r.
  - apply Forall_app. split; [done|by constructor].
  - rewrite concat_app; cbn; rewrite app_nil_r. by rewrite app_assoc.
  - apply Forall_app. split; [done|by constructor].
Qed.

Lemma closeNoSend_spec e st : stream_ok st -> stream_ok (closeNoSend e st) /\ st_id (closeNoSend e st) = st_id st /\ st_closed (closeNoSend e st) = true /\ content (closeNoSend e st) = content st.
Proof. intros Hs. unfold closeNoSend. destruct (st_closed st) eqn:E; [done|]. split_and!; try done. destruct Hs. by split. Qed.

(** A read gives some of what there is, waits only when there is nothing and
    the stream is open, and fails only when there is nothing and it is closed. *)
Lemma stream_Read_spec st n st' res :
  stream_ok st -> (0 < n)%nat -> stream_Read st n = (st', res) ->
  stream_ok st' /\ st_id st' = st_id st /\ st_closed st' = st_closed st /\
  match res with
  | RWait => content st = [] /\ st_closed st = false /\ content st' = []
  | RErr e => content st = [] /\ st_closed st = true /\ e = default ErrClosedPipe (st_closeErr st) /\ content st' = []
  | RBytes out => out ≠ [] /\ (length out <= n)%nat /\ content st = out ++ content st'
  end.
Proof.
  destruct st as [id cl err buf q k]. intros [Hq Hb Hp] Hn. cbn in Hq, Hb, Hp. unfold stream_Read, content in *. rewrite (proj2 (Nat.eqb_neq n 0)) by lia.
  cbn [st_closed st_readBuf st_queue queuedBytes st_id st_closeErr] in *.
  destruct (bool_decide (buf = []) && bool_decide (q = []) && negb cl) eqn:E0.
  { intros [= <- <-]. apply andb_true_iff in E0 as [[E1 E2]%andb_true_iff E3]. apply bool_decide_eq_true in E1, E2. apply negb_true_iff in E3. subst. done. }
  set (bq := match buf with [] => match q with [] => _ | _ => _ end | _ => _ end).
  assert (bq.1 ++ concat bq.2 = buf ++ concat q /\ Forall (fun x => x ≠ []) bq.2 /\ (bq.1 = [] -> buf ++ concat q = [] /\ cl = true)) as (Hbq & HF & Hnil).
  { unfold bq. destruct buf as [|b buf]; [|done]. destruct Hp as [|x q Hx Hp]; [|done]. cbn in E0. split_and!; [done|constructor|]. intros _. by destruct cl. }
  clear E0. destruct bq as [b q']. cbn [fst snd] in *. case_bool_decide as E1; cbn [andb].
  - destruct (Hnil E1) as [Hc ->]. intros [= <- <-]. subst b. cbn [app] in Hbq. split_and!; try done.
    + split; cbn; [unfold content; cbn; by rewrite Hbq|lia|done].
    + cbn. by rewrite Hbq.
  - intros [= <- <-]. cbn [st_closed st_readBuf st_queue st_id].
    assert (drop n b ++ concat q' = drop (length (take n b)) (buf ++ concat q)) as Hd.
    { rewrite <-Hbq. rewrite length_take. destruct (decide (n <= length b)%nat); [rewrite Nat.min_l by lia; by rewrite drop_app_le by lia|].
      rewrite Nat.min_r by lia. rewrite drop_app_length. by rewrite drop_ge by lia. }
    assert (zlen (drop n b ++ concat q') = k - zlen (take n b)) as Hz.
    { rewrite Hd. unfold zlen in *. rewrite length_drop. apply (f_equal length) in Hbq. rewrite !length_app in *. rewrite length_take. lia. }
    split_and!; try done.
    + pose proof (zlen_nonneg (drop n b ++ concat q')). pose proof (zlen_nonneg (take n b)). rewrite (proj2 (Z.ltb_ge _ 0)) by lia. split; cbn; [unfold content; cbn; lia|lia|done].
    + intros E. apply (f_equal length) in E. rewrite length_take in E. cbn in E. destruct b; [done|]. cbn in E. lia.
    + rewrite length_take. lia.
    + rewrite <-Hbq, app_assoc. by rewrite take_drop.
Qed.

(** ** What the frames bring *)

(** The bytes that frames bring to the stream of a number, up to the first
    frame that closes it, and whether there is one. *)
Fixpoint inflow (id : Z) (fs : list frame) : list Z :=
  match fs with
  | [] => []
  | f :: fs =>
    if negb (f_id f =? id) then inflow id fs
    else if f_type f =? frameData then f_payload f ++ inflow id fs
    else if (f_type f =? frameClose) || (f_type f =? frameReset) then []
    else inflow id fs
  end.

Definition stops (id : Z) (f : frame) : bool := (f_id f =? id) && ((f_type f =? frameClose) || (f_type f =? frameReset)).

Definition stopped (id : Z) (fs : list frame) : bool := existsb (stops id) fs.

Definition brings (id : Z) (f : frame) : list Z := if (f_id f =? id) && (f_type f =? frameData) then f_payload f else [].

Lemma inflow_snoc id fs f : inflow id (fs ++ [f]) = inflow id fs ++ (if stopped id fs then [] else brings id f).
Proof.
  unfold stopped, brings. induction fs as [|g fs IH]; cbn [inflow app existsb].
  - unfold stops. destruct (f_id f =? id); cbn [negb andb]; [|done]. destruct (f_type f =? frameData); [by rewrite app_nil_r|]. by destruct (_ || _).
  - unfold stops at 1. destruct (f_id g =? id); cbn [negb andb orb]; [|done]. destruct (f_type g =? frameData) eqn:E.
    + apply Z.eqb_eq in E. rewrite E. cbn [Z.eqb Pos.eqb orb]. rewrite IH. by rewrite app_assoc.
    + by destruct (_ || _).
Qed.

Lemma stopped_snoc id fs f : stopped id (fs ++ [f]) = stopped id fs || stops id f.
Proof. unfold stopped. rewrite existsb_app. cbn. by rewrite orb_false_r. Qed.

Lemma inflow_prefix id fs f : inflow id fs `prefix_of` inflow id (fs ++ [f]).
Proof. rewrite inflow_snoc. by eexists. Qed.

(** ** Runs of a server *)

(** A session with what each stream has handed out, the frames handled, how
    many of them there were when a stream was opened, and the streams that a
    frame has closed. *)
Record Run := mk_run { sess : Session; got : list (list Z); log : list frame; birth : list nat; finished : gset nat }.

Definition since (r : Run) (a : nat) : list frame := drop (default 0%nat (birth r !! a)) (log r).
Definition handed (r : Run) (a : nat) : list Z := default [] (got r !! a).

(** What a handled frame adds: the stream it opens or closes. *)
Definition opens (s : Session) (f : frame) : bool :=
  (f_type f =? frameOpen) && negb (f_id f =? 0) && bool_decide (streams s !! f_id f = None).

Definition finishes (s : Session) (f : frame) : gset nat :=
  if f_type f =? frameClose then match streams s !! f_id f with Some a => {[a]} | None => ∅ end else ∅.

Definition run_frame (r : Run) (s' : Session) (f : frame) : Run :=
  let n := if opens (sess r) f then 1%nat else 0%nat in
  mk_run s' (got r ++ replicate n []) (log r ++ [f]) (birth r ++ replicate n (S (length (log r)))) (finishes (sess r) f ∪ finished r).

Definition with_sess (r : Run) (s' : Session) : Run := mk_run s' (got r) (log r) (birth r) (finished r).

Definition bytes_read (res : read_result) : list Z := match res with RBytes out => out | _ => [] end.

(** The loop that reads frames, reads and writes and closes of streams, accepts,
    offers that are withdrawn and the end of the session, in any order. *)
Inductive mux_step : Run -> Run -> Prop :=
  | m_frame r w w' f s' v : handle (sess r) w w' f = (s', v) -> v ≠ Wait -> mux_step r (run_frame r s' f)
  | m_read r a st n st' res : objs (sess r) !! a = Some st -> stream_Read st n = (st', res) ->
      mux_step r (mk_run (set_objs (sess r) (<[a := st']> (objs (sess r)))) (alter (fun g => g ++ bytes_read res) a (got r)) (log r) (birth r) (finished r))
  | m_accept r i : mux_step r (with_sess r (AcceptStream (sess r) i).1)
  | m_withdraw r i : mux_step r (with_sess r (withdraw (sess r) i))
  | m_write r ws a p s' n e : stream_Write (sess r) ws a p = Ret (s', n, e) -> mux_step r (with_sess r s')
  | m_close r w a : mux_step r (with_sess r (stream_Close (sess r) w a))
  | m_end r e : mux_step r (with_sess r (closeWithError (sess r) e)).

Definition run_start : Run := mk_run (NewSession true) [] [] [] ∅.

(** ** The invariant *)

Record obj_ok (r : Run) (a : nat) (st : stream) : Prop := {
  oo_stream : stream_ok st;
  oo_birth : (default 0 (birth r !! a) <= length (log r))%nat;
  oo_prefix : handed r a ++ content st `prefix_of` inflow (st_id st) (since r a);
  oo_finished : a ∈ finished r -> st_closed st = true /\ stopped (st_id st) (since r a) = true /\ handed r a ++ content st = inflow (st_id st) (since r a);
  oo_live : streams (sess r) !! st_id st = Some a ->
    st_closed st = false /\ stopped (st_id st) (since r a) = false /\ handed r a ++ content st = inflow (st_id st) (since r a);
  oo_born : exists k f, birth r !! a = Some (S k) /\ log r !! k = Some f /\ f_id f = st_id st /\ f_type f = frameOpen
}.

Record run_ok (r : Run) : Prop := {
  ro_server : is_server (sess r) = true;
  ro_got : length (got r) = length (objs (sess r));
  ro_birth : length (birth r) = length (objs (sess r));
  ro_obj : forall a st, objs (sess r) !! a = Some st -> obj_ok r a st;
  ro_reg : forall id a, streams (sess r) !! id = Some a -> exists st, objs (sess r) !! a = Some st /\ st_id st = id;
  ro_open : closed (sess r) = false -> forall a st, objs (sess r) !! a = Some st -> st_closed st = false -> streams (sess r) !! st_id st = Some a;
  ro_finished : forall a, a ∈ finished r -> (a < length (objs (sess r)))%nat
}.

(** A change that closes some streams and forgets them. *)
Record closing (s s' : Session) : Prop := {
  cl_server : is_server s' = is_server s;
  cl_len : length (objs s') = length (objs s);
  cl_obj : forall a st', objs s' !! a = Some st' -> exists st, objs s !! a = Some st /\ (st' = st \/ exists e, st' = closeNoSend e st);
  cl_reg : forall id a, streams s' !! id = Some a -> streams s !! id = Some a /\ objs s' !! a = objs s !! a;
  cl_open : closed s' = false -> closed s = false /\ forall a st, objs s' !! a = Some st -> st_closed st = false -> streams s !! st_id st = Some a -> streams s' !! st_id st = Some a
}.

Lemma run_ok_closing r s' : run_ok r -> closing (sess r) s' -> run_ok (with_sess r s').
Proof.
  intros [R1 R2 R3 R4 R5 R6 R7] [C1 C2 C3 C4 C5]. split; cbn [with_sess sess got birth finished].
  - by rewrite C1.
  - by rewrite C2.
  - by rewrite C2.
  - intros a st' Ha. destruct (C3 a st' Ha) as (st & Hst & Hor). destruct (R4 a st Hst) as [O1 O2 O3 O4 O5 O6].
    assert (stream_ok st' /\ st_id st' = st_id st /\ content st' = content st /\ (st_closed st = true -> st_closed st' = true)) as (K1 & K2 & K3 & K4).
    { destruct Hor as [->|[e ->]]; [done|]. destruct (closeNoSend_spec e st O1) as (? & ? & ? & ?). done. }
    split; unfold since, handed in *; cbn [with_sess sess got birth log finished] in *; rewrite ?K2, ?K3; [done|done|done| | |done].
    + intros Hf. destruct (O4 Hf) as (? & ? & ?). split; [by apply K4|done].
    + intros Hreg. destruct (C4 _ _ Hreg) as [Hr Hsame]. rewrite Ha, Hst in Hsame. injection Hsame as ->. by apply O5.
  - intros id a Hreg. destruct (C4 _ _ Hreg) as [Hr Hsame]. rewrite Hsame. by apply R5.
  - intros Hc a st' Ha Hop. destruct (C5 Hc) as [Hc0 Hk]. apply Hk; [done|done|]. destruct (C3 a st' Ha) as (st & Hst & [->|[e ->]]); [by apply R6|].
    destruct (closeNoSend_spec e st (oo_stream _ _ _ (R4 a st Hst))) as (_ & _ & Hcl & _). by rewrite Hcl in Hop.
  - intros a Ha. rewrite C2. by apply R7.
Qed.

(** Nothing but [sent], [nextID] and [offered] changes. *)
Lemma closing_same s s' :
  is_server s' = is_server s -> objs s' = objs s -> streams s' = streams s -> closed s' = closed s -> closing s s'.
Proof. intros E1 E2 E3 E4. split; rewrite ?E1, ?E2, ?E3, ?E4; try done. intros a st' Ha. exists st'. split; [done|by left]. Qed.

Lemma closeNoSend_twice e e' st : closeNoSend e (closeNoSend e' st) = closeNoSend e' st.
Proof. unfold closeNoSend. by destruct (st_closed st) eqn:E; cbn; rewrite ?E. Qed.

Lemma foldr_close e (as_ : list nat) (os : list stream) :
  length (foldr (alter (closeNoSend e)) os as_) = length os /\
  forall a, foldr (alter (closeNoSend e)) os as_ !! a = (if decide (a ∈ as_) then closeNoSend e <$> os !! a else os !! a).
Proof.
  induction as_ as [|b as_ [IH1 IH2]]; cbn [foldr]; [split; [done|]; intros a; rewrite decide_False; [done|apply not_elem_of_nil]|].
  split; [by rewrite length_alter|]. intros a. destruct (decide (a = b)) as [->|Hne].
  - rewrite list_lookup_alter_eq, IH2, (decide_True (P := b ∈ b :: as_)) by (by left). destruct (decide (b ∈ as_)); [|done].
    destruct (os !! b); cbn; [|done]. by rewrite closeNoSend_twice.
  - rewrite list_lookup_alter_ne, IH2 by done. destruct (decide (a ∈ as_)); [rewrite decide_True by (by right); done|].
    rewrite decide_False; [done|]. intros [->|?]%elem_of_cons; done.
Qed.

Lemma closing_end s e : closing s (closeWithError s e).
Proof.
  unfold closeWithError. destruct (closed s) eqn:Ec; [by apply closing_same|].
  destruct (foldr_close e (map snd (map_to_list (streams s))) (objs s)) as [F1 F2]. split; cbn [is_server objs streams closed]; [done|done| |done|done].
  intros a st' Ha. rewrite F2 in Ha. destruct (decide _); [|exists st'; split; [done|by left]].
  destruct (objs s !! a) as [st|] eqn:E; [|done]. injection Ha as <-. exists st. split; [done|]. right. by exists e.
Qed.

Lemma closing_sendFrame s w typ id payload : closing s (sendFrame s w typ id payload).1.
Proof. unfold sendFrame. destruct (closed s) eqn:E; [by apply closing_same|]. destruct (_ <? _); [by apply closing_same|]. destruct w; [apply closing_end|by apply closing_same]. Qed.

Lemma closing_trans s1 s2 s3 : closing s1 s2 -> closing s2 s3 -> closing s1 s3.
Proof.
  intros [A1 A2 A3 A4 A5] [B1 B2 B3 B4 B5]. split.
  - by rewrite B1.
  - by rewrite B2.
  - intros a st3 Ha. destruct (B3 a st3 Ha) as (st2 & H2 & Hor). destruct (A3 a st2 H2) as (st1 & H1 & Hor1). exists st1. split; [done|].
    destruct Hor as [->|[e ->]]; [done|]. destruct Hor1 as [->|[e' ->]]; right; [by exists e|]. exists e'. by rewrite closeNoSend_twice.
  - intros id a Ha. destruct (B4 id a Ha) as [H2 E2]. destruct (A4 id a H2) as [H1 E1]. split; [done|]. by rewrite E2.
  - intros Hc. destruct (B5 Hc) as [Hc2 K2]. destruct (A5 Hc2) as [Hc1 K1]. split; [done|]. intros a st Ha Hop Hr. apply K2; [done|done|].
    destruct (B3 a st Ha) as (st2 & H2 & [->|[e ->]]); [by apply K1|].
    unfold closeNoSend in Hop, Hr |- *. destruct (st_closed st2) eqn:E; [by rewrite E in Hop|]. done.
Qed.

(** One stream is closed and forgotten. *)
Lemma closing_one s a id e :
  (forall id', streams s !! id' = Some a -> id' = id) -> (closed s = false -> streams s !! id = Some a) ->
  closing s (removeStream (on_stream s a (closeNoSend e)) id).
Proof.
  intros H1 H2. split; cbn [removeStream set_streams on_stream set_objs is_server objs streams closed]; [done|by rewrite length_alter| | |].
  - intros b st' Hb. destruct (decide (a = b)) as [->|Hne].
    + rewrite list_lookup_alter_eq in Hb. destruct (objs s !! b) as [st|]; [|done]. injection Hb as <-. exists st. split; [done|]. right. by exists e.
    + rewrite list_lookup_alter_ne in Hb by done. exists st'. split; [done|by left].
  - intros id' b [Hne Hb]%lookup_delete_Some. split; [done|]. rewrite list_lookup_alter_ne; [done|]. intros ->. by rewrite (H1 id') in Hne.
  - intros Hc. split; [done|]. intros b st Hb Hop Hr. apply lookup_delete_Some. split; [|done]. intros Hid. rewrite <-Hid, H2 in Hr by done. injection Hr as <-.
    rewrite list_lookup_alter_eq in Hb. destruct (objs s !! a) as [st0|]; [|done]. injection Hb as <-. unfold closeNoSend in Hop. by destruct (st_closed st0) eqn:E; cbn in Hop; rewrite ?E in Hop.
Qed.

Lemma closing_Close r w a : run_ok r -> closing (sess r) (stream_Close (sess r) w a).
Proof.
  intros Hr. unfold stream_Close. destruct (objs (sess r) !! a) as [st|] eqn:Ea; [|by apply closing_same]. destruct (st_closed st) eqn:Ec; [by apply closing_same|].
  set (s := sess r) in *. set (s1 := on_stream s a (closeNoSend ErrClosedPipe)).
  assert (closing s (removeStream s1 (st_id st))) as H1.
  { apply closing_one.
    - intros id' Hid. destruct (ro_reg r Hr id' a Hid) as (st2 & E2 & <-). fold s in E2. rewrite Ea in E2. by injection E2 as ->.
    - intros Hc. by apply (ro_open r Hr). }
  assert (closed s1 = closed s /\ is_server s1 = is_server s /\ length (objs s1) = length (objs s)) as (E1 & E2 & E3)
    by (split_and!; [done|done|cbn; by rewrite length_alter]).
  clearbody s1. unfold sendFrame. rewrite E1. destruct (closed s) eqn:Ecl; [done|]. change (maxFrameSize <? zlen []) with false. cbv iota.
  destruct w as [e|]; [|eapply closing_trans; [exact H1|by apply closing_same]].
  unfold closeWithError. rewrite E1. destruct (foldr_close e (map snd (map_to_list (streams s1))) (objs s1)) as [F1 F2].
  split; cbn [removeStream set_streams is_server objs streams closed]; [done|by rewrite F1| |intros id b; rewrite delete_empty; done|done].
  intros b st' Hb. rewrite F2 in Hb. assert (forall x, objs s1 !! b = Some x -> exists st, objs s !! b = Some st /\ (x = st \/ exists e, x = closeNoSend e st)) as Hx.
  { intros x Hx. apply (cl_obj _ _ H1 b x). exact Hx. }
  destruct (decide _); [|by apply Hx]. destruct (objs s1 !! b) as [x|]; [|done]. injection Hb as <-. destruct (Hx x eq_refl) as (st0 & E0 & Hor).
  exists st0. split; [done|]. right. destruct Hor as [->|[e' ->]]; [by exists e|]. exists e'. by rewrite closeNoSend_twice.
Qed.

Lemma closing_withdraw r i : run_ok r -> closing (sess r) (withdraw (sess r) i).
Proof.
  intros Hr. unfold withdraw. destruct (offered (sess r) !! i) as [[a payload]|]; [|by apply closing_same].
  destruct (objs (sess r) !! a) as [st|] eqn:Ea; [|by apply closing_same]. destruct (closed (sess r)) eqn:Ec; [|by apply closing_same].
  apply (closing_trans _ (removeStream (on_stream (sess r) a (closeNoSend ErrClosedPipe)) (st_id st))); [|by apply closing_same]. apply closing_one; [|by rewrite Ec].
  intros id' Hid. destruct (ro_reg r Hr id' a Hid) as (st2 & E2 & <-). rewrite Ea in E2. by injection E2 as ->.
Qed.

Lemma closing_chunks fuel s ws id p n s' n' e : write_chunks fuel s ws id p n = Ret (s', n', e) -> closing s s'.
Proof.
  revert s ws p n. induction fuel as [|fuel IH]; intros s ws p n; cbn [write_chunks]; case_bool_decide; try (intros [= <- _ _]; by apply closing_same); try done.
  set (chunk := if _ <? _ then _ else _). pose proof (closing_sendFrame s (default None (head ws)) frameData id chunk) as Hs.
  destruct (sendFrame _ _ _ _ _) as [s1 err]. destruct err; [by intros [= <- _ _]|]. intros E. eapply closing_trans; [exact Hs|]. by eapply IH.
Qed.

Lemma closing_Write s ws a p s' n e : stream_Write s ws a p = Ret (s', n, e) -> closing s s'.
Proof.
  unfold stream_Write. case_bool_decide; [intros [= <- _ _]; by apply closing_same|]. destruct (closed s) eqn:Ec; [intros [= <- _ _]; by apply closing_same|].
  destruct (objs s !! a) as [st|]; [|done]. destruct (st_closed st); [intros [= <- _ _]; by apply closing_same|]. apply closing_chunks.
Qed.

Lemma closing_reset s w w' id msg : closing s (sendReset s w w' id msg).
Proof.
  unfold sendReset. set (m := if bool_decide _ then _ else _). pose proof (closing_sendFrame s w frameReset id (bytes_of m)) as H1.
  destruct (sendFrame s _ _ _ _) as [s1 e1]. pose proof (closing_sendFrame s1 w' frameClose id []) as H2. destruct (sendFrame s1 _ _ _ _) as [s2 e2]. by eapply closing_trans.
Qed.

(** ** Frames *)

Definition with_log (r : Run) (f : frame) : Run := mk_run (sess r) (got r) (log r ++ [f]) (birth r) (finished r).

Lemma since_log r f a : (default 0 (birth r !! a) <= length (log r))%nat -> since (with_log r f) a = since r a ++ [f].
Proof. intros Hb. unfold since. cbn [with_log birth log]. by rewrite drop_app_le. Qed.

(** A frame that concerns no stream of the session. *)
Lemma run_ok_log r f :
  run_ok r -> (forall a, streams (sess r) !! f_id f = Some a -> brings (f_id f) f = [] /\ stops (f_id f) f = false) -> run_ok (with_log r f).
Proof.
  intros [R1 R2 R3 R4 R5 R6 R7] Hf. split; try done. intros a st Ha. destruct (R4 a st Ha) as [O1 O2 O3 O4 O5 O6].
  split; [done|cbn [with_log birth log]; rewrite length_app; lia| | | |]; rewrite ?since_log by done; change (handed (with_log r f) a) with (handed r a).
  4: { destruct O6 as (k & g & B1 & B2 & B3). exists k, g. split; [done|]. split; [by apply lookup_app_l_Some|done]. }
  - etransitivity; [exact O3|apply inflow_prefix].
  - intros Hfin. destruct (O4 Hfin) as (H1 & H2 & H3). rewrite stopped_snoc, inflow_snoc, H2. cbn [orb]. rewrite app_nil_r. done.
  - intros Hreg. destruct (O5 Hreg) as (H1 & H2 & H3). rewrite stopped_snoc, inflow_snoc, H2, H3. cbn [orb]. cbn [with_log sess] in Hreg.
    destruct (decide (f_id f = st_id st)) as [E|E].
    + rewrite <-E in *. destruct (Hf a Hreg) as [-> ->]. by rewrite app_nil_r.
    + unfold brings, stops. rewrite (proj2 (Z.eqb_neq _ _) E). cbn [andb]. by rewrite app_nil_r.
Qed.

(** A stream is opened. *)
Lemma run_ok_open r f l :
  run_ok r -> f_type f = frameOpen -> streams (sess r) !! f_id f = None ->
  let s := (register (sess r) (f_id f)).1 in
  run_ok (mk_run (set_offered s l) (got r ++ [[]]) (log r ++ [f]) (birth r ++ [S (length (log r))]) (finished r)).
Proof.
  intros Hr Ht Hnone s. assert (run_ok (with_log r f)) as [R1 R2 R3 R4 R5 R6 R7] by (apply run_ok_log; [done|]; intros a Ha; by rewrite Hnone in Ha).
  cbn [with_log sess got birth finished] in *. set (n := length (objs (sess r))) in *. unfold s. clear s. set (r2 := mk_run _ _ _ _ _).
  split; cbn [r2 register fst set_offered sess got birth finished is_server objs streams closed]; [done|rewrite !length_app; cbn; lia|rewrite !length_app; cbn; lia| | | |].
  - intros a st Ha. apply lookup_app_Some in Ha as [Ha|[Hle Ha]].
    + pose proof (lookup_lt_Some _ _ _ Ha) as Hlt. destruct (R4 a st Ha) as [O1 O2 O3 O4 O5 O6].
      assert (forall r', got r' = got r ++ [[]] -> birth r' = birth r ++ [S (length (log r))] -> log r' = log r ++ [f] -> handed r' a = handed (with_log r f) a /\ since r' a = since (with_log r f) a) as Hsame.
      { intros r' E1 E2 E3. unfold handed, since. rewrite E1, E2, E3. rewrite !lookup_app_l by lia. done. }
      destruct (Hsame r2 eq_refl eq_refl eq_refl) as [E1 E2].
      split; [done| | | | |]; rewrite ?E1, ?E2; cbn [r2 birth log finished sess register fst set_offered streams]; [rewrite lookup_app_l by lia; exact O2|done|done| |].
      2: { destruct O6 as (k & g & B1 & B2 & B3). exists k, g. split; [by apply lookup_app_l_Some|done]. }
      intros Hreg. apply lookup_insert_Some in Hreg as [[_ Heq]|[_ Hreg]]; [lia|]. by apply O5.
    + apply list_lookup_singleton_Some in Ha as [Hz <-]. assert (a = n) as Han by (unfold n; lia). rewrite Han. clear Han Hz Hle.
      assert (forall r', got r' = got r ++ [[]] -> birth r' = birth r ++ [S (length (log r))] -> log r' = log r ++ [f] -> handed r' n = [] /\ since r' n = []) as Hnew.
      { intros r' E1 E2 E3. unfold handed, since. rewrite E1, E2, E3. rewrite !lookup_app_r by lia. rewrite R2, R3, Nat.sub_diag. cbn. split; [done|].
        rewrite drop_ge; [done|]. rewrite length_app. cbn. lia. }
      destruct (Hnew r2 eq_refl eq_refl eq_refl) as [E1 E2].
      split; rewrite ?E1, ?E2; cbn [r2 birth log finished sess register fst set_offered streams newStream st_id st_closed].
      * apply stream_ok_new.
      * rewrite lookup_app_r, R3, Nat.sub_diag by lia. cbn. rewrite length_app. cbn. lia.
      * done.
      * intros Hfin. apply R7 in Hfin. lia.
      * done.
      * exists (length (log r)), f. split; [rewrite lookup_app_r, R3, Nat.sub_diag by lia; done|]. split; [|done]. rewrite lookup_app_r, Nat.sub_diag by lia. done.
  - intros id a Hreg. apply lookup_insert_Some in Hreg as [[<- <-]|[Hne Hreg]].
    + exists (newStream (f_id f)). split; [|done]. rewrite lookup_app_r, Nat.sub_diag by lia. done.
    + destruct (R5 id a Hreg) as (st & Hst & Hid). exists st. split; [|done]. by apply lookup_app_l_Some.
  - intros Hc a st Ha Hop. apply lookup_app_Some in Ha as [Ha|[Hle Ha]].
    + pose proof (R6 Hc a st Ha Hop) as Hreg. rewrite lookup_insert_ne; [done|]. intros E. rewrite E, Hreg in Hnone. done.
    + apply list_lookup_singleton_Some in Ha as [Hz <-]. cbn [newStream st_id]. rewrite lookup_insert_eq. f_equal. lia.
  - intros a Ha. apply R7 in Ha. rewrite length_app. lia.
Qed.

(** A stream that a frame does not concern. *)
Lemma obj_other r r' f b st :
  obj_ok r b st -> handed r' b = handed r b -> birth r' = birth r -> log r' = log r ++ [f] -> (b ∈ finished r' -> b ∈ finished r) ->
  (streams (sess r') !! st_id st = Some b -> streams (sess r) !! st_id st = Some b /\ f_id f ≠ st_id st) -> obj_ok r' b st.
Proof.
  intros [O1 O2 O3 O4 O5 O6] Eh Eb El Hfin Hreg.
  assert (since r' b = since r b ++ [f]) as Es by (unfold since; rewrite Eb, El; by rewrite drop_app_le).
  split; rewrite ?Eh, ?Es, ?Eb; [done|rewrite El, length_app; lia| | | |].
  4: { rewrite El. destruct O6 as (k & g & B1 & B2 & B3). exists k, g. split; [done|]. split; [by apply lookup_app_l_Some|done]. }
  - etransitivity; [exact O3|apply inflow_prefix].
  - intros Hb. destruct (O4 (Hfin Hb)) as (H1 & H2 & H3). rewrite stopped_snoc, inflow_snoc, H2. cbn [orb]. by rewrite app_nil_r.
  - intros Hr. destruct (Hreg Hr) as [Hr0 Hne]. destruct (O5 Hr0) as (H1 & H2 & H3). rewrite stopped_snoc, inflow_snoc, H2, H3. cbn [orb].
    unfold brings, stops. rewrite (proj2 (Z.eqb_neq _ _) Hne). cbn [andb]. by rewrite app_nil_r.
Qed.

Lemma reg_id r id a st : run_ok r -> streams (sess r) !! id = Some a -> objs (sess r) !! a = Some st -> st_id st = id.
Proof. intros Hr Ha Hst. destruct (ro_reg r Hr id a Ha) as (st2 & E & <-). rewrite Hst in E. by injection E as ->. Qed.

Lemma run_ok_data r f a st st' :
  run_ok r -> f_type f = frameData -> streams (sess r) !! f_id f = Some a -> objs (sess r) !! a = Some st -> f_payload f ≠ [] ->
  enqueue st (f_payload f) = Some st' ->
  run_ok (mk_run (set_objs (sess r) (<[a := st']> (objs (sess r)))) (got r) (log r ++ [f]) (birth r) (finished r)).
Proof.
  intros Hr Ht Ha Hst Hne He. pose proof (reg_id r _ a st Hr Ha Hst) as Hid. pose proof Hr as [R1 R2 R3 R4 R5 R6 R7].
  destruct (R4 a st Hst) as [O1 O2 O3 O4 O5 O6]. rewrite Hid in *. destruct (O5 Ha) as (H1 & H2 & H3).
  destruct (enqueue_spec st _ st' O1 H1 Hne He) as (K1 & K2 & K3 & K4). rewrite Hid in K2. pose proof (lookup_lt_Some _ _ _ Hst) as Hlt.
  set (r2 := mk_run _ _ _ _ _).
  split; cbn [r2 sess set_objs is_server objs streams closed got birth log finished]; rewrite ?length_insert; try done.
  - intros b stb Hb. destruct (decide (a = b)) as [<-|Hab].
    + rewrite list_lookup_insert_eq in Hb by done. injection Hb as <-.
      assert (since r2 a = since r a ++ [f]) as Es by (unfold since; cbn [r2 birth log]; by rewrite drop_app_le).
      assert (handed r a ++ content st' = inflow (f_id f) (since r a ++ [f])) as Heq.
      { rewrite inflow_snoc, H2, K4, app_assoc, H3. unfold brings. by rewrite Z.eqb_refl, Ht. }
      split; rewrite ?K2, ?Es; change (handed r2 a) with (handed r a); [done|cbn [r2 birth log]; rewrite length_app; lia|by rewrite Heq| | |].
      3: { cbn [r2 birth log]. destruct O6 as (k & g & B1 & B2 & B3). exists k, g. split; [done|]. split; [by apply lookup_app_l_Some|done]. }
      * intros Hf. destruct (O4 Hf) as [Hcl _]. by rewrite Hcl in H1.
      * intros _. split; [done|]. split; [|done]. rewrite stopped_snoc, H2. unfold stops. rewrite Ht. by rewrite andb_false_r.
    + rewrite list_lookup_insert_ne in Hb by done. apply (obj_other r r2 f b stb (R4 b stb Hb)); try done.
      intros Hreg. split; [done|]. intros E. cbn [r2 sess set_objs streams] in Hreg. rewrite <-E, Ha in Hreg. by injection Hreg as ->.
  - intros id b Hb. destruct (R5 id b Hb) as (stb & Hstb & Eb). destruct (decide (a = b)) as [<-|Hab].
    + exists st'. rewrite list_lookup_insert_eq by done. split; [done|]. rewrite Hst in Hstb. injection Hstb as <-. by rewrite K2, <-Hid.
    + exists stb. by rewrite list_lookup_insert_ne.
  - intros Hc b stb Hb Hop. destruct (decide (a = b)) as [<-|Hab].
    + rewrite list_lookup_insert_eq in Hb by done. injection Hb as <-. by rewrite K2.
    + rewrite list_lookup_insert_ne in Hb by done. by apply R6.
Qed.

Lemma run_ok_stop r f a e fin :
  run_ok r -> stops (f_id f) f = true -> streams (sess r) !! f_id f = Some a -> (fin = {[a]} \/ fin = ∅) ->
  run_ok (mk_run (removeStream (on_stream (sess r) a (closeNoSend e)) (f_id f)) (got r) (log r ++ [f]) (birth r) (fin ∪ finished r)).
Proof.
  intros Hr Ht Ha Hfin. destruct (ro_reg r Hr _ a Ha) as (st & Hst & Hid). pose proof Hr as [R1 R2 R3 R4 R5 R6 R7].
  destruct (R4 a st Hst) as [O1 O2 O3 O4 O5 O6]. rewrite Hid in *. destruct (O5 Ha) as (H1 & H2 & H3).
  destruct (closeNoSend_spec e st O1) as (K1 & K2 & K3 & K4). rewrite Hid in K2. pose proof (lookup_lt_Some _ _ _ Hst) as Hlt.
  set (r2 := mk_run _ _ _ _ _).
  split; cbn [r2 sess removeStream set_streams on_stream set_objs is_server objs streams closed got birth log finished]; rewrite ?length_alter; try done.
  - intros b stb Hb. destruct (decide (a = b)) as [<-|Hab].
    + rewrite list_lookup_alter_eq, Hst in Hb. injection Hb as <-.
      assert (since r2 a = since r a ++ [f]) as Es by (unfold since; cbn [r2 birth log]; by rewrite drop_app_le).
      assert (brings (f_id f) f = []) as Hbr.
      { unfold stops, brings in *. rewrite Z.eqb_refl in *. cbn [andb] in *. destruct (f_type f =? frameData) eqn:E; [|done]. apply Z.eqb_eq in E. by rewrite E in Ht. }
      assert (handed r a ++ content (closeNoSend e st) = inflow (f_id f) (since r a ++ [f])) as Heq.
      { by rewrite inflow_snoc, H2, K4, Hbr, app_nil_r. }
      split; rewrite ?K2, ?Es; change (handed r2 a) with (handed r a); [done|cbn [r2 birth log]; rewrite length_app; lia|by rewrite Heq| | |].
      3: { cbn [r2 birth log]. destruct O6 as (k & g & B1 & B2 & B3). exists k, g. split; [done|]. split; [by apply lookup_app_l_Some|done]. }
      * intros _. split; [done|]. split; [|done]. by rewrite stopped_snoc, Ht, orb_true_r.
      * cbn [r2 sess removeStream set_streams streams]. by rewrite lookup_delete_eq.
    + rewrite list_lookup_alter_ne in Hb by done. apply (obj_other r r2 f b stb (R4 b stb Hb)); try done.
      * cbn [r2 finished]. intros [Hin|Hin]%elem_of_union; [|done]. destruct Hfin as [->| ->]; [|by apply elem_of_empty in Hin]. apply elem_of_singleton in Hin. by subst.
      * cbn [r2 sess removeStream set_streams streams on_stream set_objs]. intros [Hne Hreg]%lookup_delete_Some. done.
  - intros id b [Hne Hb]%lookup_delete_Some. destruct (R5 id b Hb) as (stb & Hstb & Eb). destruct (decide (a = b)) as [<-|Hab].
    + rewrite Hst in Hstb. injection Hstb as <-. by rewrite Hid in Eb.
    + exists stb. by rewrite list_lookup_alter_ne.
  - intros Hc b stb Hb Hop. destruct (decide (a = b)) as [<-|Hab].
    + rewrite list_lookup_alter_eq, Hst in Hb. injection Hb as <-. by rewrite K3 in Hop.
    + rewrite list_lookup_alter_ne in Hb by done. apply lookup_delete_Some. pose proof (R6 Hc b stb Hb Hop) as Hreg. split; [|done].
      intros E. rewrite <-E, Ha in Hreg. by injection Hreg as ->.
  - intros b [Hin|Hin]%elem_of_union; [|by apply R7]. destruct Hfin as [->| ->]; [apply elem_of_singleton in Hin; by subst|by apply elem_of_empty in Hin].
Qed.

Lemma run_frame_plain r s' f : opens (sess r) f = false -> finishes (sess r) f = ∅ -> run_frame r s' f = with_sess (with_log r f) s'.
Proof. intros E1 E2. unfold run_frame. rewrite E1, E2. cbn [replicate]. by rewrite !app_nil_r, union_empty_l_L. Qed.

Lemma run_ok_handle r w w' f s' v : run_ok r -> handle (sess r) w w' f = (s', v) -> v ≠ Wait -> run_ok (run_frame r s' f).
Proof.
  intros Hr. unfold handle. destruct (f_type f =? frameOpen) eqn:T1; [apply Z.eqb_eq in T1|].
  { assert (finishes (sess r) f = ∅) as Hfin by (unfold finishes; by rewrite T1).
    assert (run_ok (with_log r f)) as Hlog by (apply run_ok_log; [done|]; intros a _; unfold brings, stops; rewrite T1; by rewrite !andb_false_r).
    rewrite (ro_server r Hr). cbn [negb]. destruct (f_id f =? 0) eqn:E0.
    { intros [= <- _] _. rewrite run_frame_plain by (first [done|unfold opens; by rewrite T1, E0]). apply run_ok_closing; [done|apply closing_reset]. }
    unfold getStream. destruct (streams (sess r) !! f_id f) as [a|] eqn:Ea.
    { intros [= <- _] _. rewrite run_frame_plain by (first [done|unfold opens; by rewrite T1, E0, Ea]). apply run_ok_closing; [done|apply closing_reset]. }
    pose proof (run_ok_open r f) as Hopen. destruct (register (sess r) (f_id f)) as [s a]. intros [= <- _] _. unfold run_frame, opens. rewrite T1, E0, Ea, Hfin. cbn [Z.eqb Pos.eqb negb andb replicate].
    rewrite bool_decide_true, union_empty_l_L by done. by apply Hopen. }
  assert (opens (sess r) f = false) as Hop by (unfold opens; by rewrite T1).
  destruct (f_type f =? frameData) eqn:T2; [apply Z.eqb_eq in T2|].
  { assert (finishes (sess r) f = ∅) as Hfin by (unfold finishes; by rewrite T2). unfold getStream. destruct (streams (sess r) !! f_id f) as [a|] eqn:Ea.
    2: { intros [= <- _] _. rewrite run_frame_plain by done. apply (run_ok_log r f); [done|]. intros a Ha. by rewrite Ea in Ha. }
    case_bool_decide as Ep.
    { intros [= <- _] _. rewrite run_frame_plain by done. apply (run_ok_log r f); [done|]. intros b _. unfold brings, stops. rewrite Ep, T2. cbn. by rewrite !andb_false_r; destruct (_ && _). }
    destruct (ro_reg r Hr _ a Ea) as (st & Hst & Hid). rewrite Hst. destruct (enqueue st (f_payload f)) as [st'|] eqn:Ee; [|by intros [= _ <-]].
    intros [= <- _] _. rewrite run_frame_plain by done. exact (run_ok_data r f a st st' Hr T2 Ea Hst Ep Ee). }
  destruct (f_type f =? frameClose) eqn:T3; [apply Z.eqb_eq in T3|].
  { unfold getStream. destruct (streams (sess r) !! f_id f) as [a|] eqn:Ea.
    2: { intros [= <- _] _. rewrite run_frame_plain by (first [done|unfold finishes; by rewrite T3, Ea]). apply (run_ok_log r f); [done|]. intros a Ha. by rewrite Ea in Ha. }
    intros [= <- _] _. unfold run_frame, finishes. rewrite Hop, T3, Ea. cbn [Z.eqb Pos.eqb replicate]. rewrite !app_nil_r. apply run_ok_stop; [done| |done|by left].
    unfold stops. by rewrite Z.eqb_refl, T3. }
  assert (finishes (sess r) f = ∅) as Hfin by (unfold finishes; by rewrite T3).
  destruct (f_type f =? frameReset) eqn:T4; [apply Z.eqb_eq in T4|].
  { unfold getStream. destruct (streams (sess r) !! f_id f) as [a|] eqn:Ea.
    2: { intros [= <- _] _. rewrite run_frame_plain by done. apply (run_ok_log r f); [done|]. intros a Ha. by rewrite Ea in Ha. }
    intros [= <- _] _. unfold run_frame. rewrite Hop, Hfin. cbn [replicate]. rewrite !app_nil_r. apply run_ok_stop; [done| |done|by right].
    unfold stops. by rewrite Z.eqb_refl, T4. }
  intros [= <- _] _. rewrite run_frame_plain by done. apply run_ok_closing; [|apply closing_end]. apply run_ok_log; [done|]. intros a _. unfold brings, stops.
  rewrite T2, T3, T4. by rewrite !andb_false_r.
Qed.

Lemma run_ok_read r a st n st' res :
  run_ok r -> objs (sess r) !! a = Some st -> stream_Read st n = (st', res) ->
  run_ok (mk_run (set_objs (sess r) (<[a := st']> (objs (sess r)))) (alter (fun g => g ++ bytes_read res) a (got r)) (log r) (birth r) (finished r)).
Proof.
  intros Hr Hst Hread. pose proof Hr as [R1 R2 R3 R4 R5 R6 R7]. pose proof (lookup_lt_Some _ _ _ Hst) as Hlt. destruct (R4 a st Hst) as [O1 O2 O3 O4 O5 O6].
  assert (stream_ok st' /\ st_id st' = st_id st /\ st_closed st' = st_closed st /\ bytes_read res ++ content st' = content st) as (K1 & K2 & K3 & K4).
  { destruct (decide (0 < n)%nat) as [Hn|Hn].
    - destruct (stream_Read_spec st n st' res O1 Hn Hread) as (? & ? & ? & Hs). split_and!; try done. destruct res; cbn; destruct_and!; congruence.
    - unfold stream_Read in Hread. rewrite (proj2 (Nat.eqb_eq n 0)) in Hread by lia. injection Hread as <- <-. done. }
  set (r2 := mk_run _ _ _ _ _).
  assert (forall b, a ≠ b -> handed r2 b = handed r b) as Hh.
  { intros b Hab. unfold handed. cbn [r2 got]. by rewrite list_lookup_alter_ne. }
  assert (handed r2 a = handed r a ++ bytes_read res) as Ha2.
  { unfold handed. cbn [r2 got]. rewrite list_lookup_alter_eq. destruct (got r !! a) eqn:E; [done|]. apply lookup_ge_None in E. lia. }
  split; cbn [r2 sess set_objs is_server objs streams closed got birth log finished]; rewrite ?length_insert, ?length_alter; try done.
  - intros b stb Hb. destruct (decide (a = b)) as [<-|Hab].
    + rewrite list_lookup_insert_eq in Hb by done. injection Hb as <-.
      split; rewrite ?K2, ?K3, ?Ha2, <-?app_assoc, ?K4; done.
    + rewrite list_lookup_insert_ne in Hb by done. destruct (R4 b stb Hb) as [P1 P2 P3 P4 P5 P6].
      split; rewrite ?(Hh b Hab); done.
  - intros id b Hb. destruct (R5 id b Hb) as (stb & Hstb & Eb). destruct (decide (a = b)) as [<-|Hab].
    + exists st'. rewrite list_lookup_insert_eq by done. split; [done|]. rewrite Hst in Hstb. injection Hstb as <-. by rewrite K2.
    + exists stb. by rewrite list_lookup_insert_ne.
  - intros Hc b stb Hb Hop. destruct (decide (a = b)) as [<-|Hab].
    + rewrite list_lookup_insert_eq in Hb by done. injection Hb as <-. rewrite K2. apply (R6 Hc a st); [done|]. by rewrite <-K3.
    + rewrite list_lookup_insert_ne in Hb by done. by apply R6.
Qed.

Lemma run_ok_step r r' : run_ok r -> mux_step r r' -> run_ok r'.
Proof.
  intros Hr Hs. destruct Hs.
  - by eapply run_ok_handle.
  - by eapply run_ok_read.
  - apply run_ok_closing; [done|]. unfold AcceptStream. destruct (offered _ !! _); by apply closing_same.
  - apply run_ok_closing; [done|]. by apply closing_withdraw.
  - apply run_ok_closing; [done|]. by eapply closing_Write.
  - apply run_ok_closing; [done|]. by apply closing_Close.
  - apply run_ok_closing; [done|]. apply closing_end.
Qed.

Lemma run_ok_start : run_ok run_start.
Proof. split; cbn; try done. Qed.

Lemma run_ok_reachable r0 r : run_ok r0 -> rtc mux_step r0 r -> run_ok r.
Proof. intros H0 Hr. revert H0. induction Hr as [|x y z Hs _ IH]; [done|]. intros H0. by apply IH, (run_ok_step x). Qed.
