(* ===== verification/SudokuMuxClient.v ===== *)
(** * From a client's streams to the server's

    What the frames that a client sends bring to each of its streams is what was
    written to it; and so the server's streams hold what the client's were
    given. *)

From S2P Require Import Prelude GoIo SudokuMux SudokuMuxExact.

(** ** Frames of one stream *)

Definition is_open (id : Z) (f : frame) : bool := (f_id f =? id) && (f_type f =? frameOpen).

(** The frames after the one that opens a stream. *)
Fixpoint opened (id : Z) (fs : list frame) : option (list frame) :=
  match fs with
  | [] => None
  | f :: fs => if is_open id f then Some fs else opened id fs
  end.

Lemma opened_snoc id fs f :
  opened id (fs ++ [f]) = match opened id fs with Some post => Some (post ++ [f]) | None => if is_open id f then Some [] else None end.
Proof. induction fs as [|g fs IH]; cbn [opened app]; [done|]. by destruct (is_open id g). Qed.

Lemma opened_none id fs : Forall (fun f => f_id f ≠ id) fs -> opened id fs = None.
Proof. induction 1 as [|f fs Hf _ IH]; cbn [opened]; [done|]. unfold is_open. by rewrite (proj2 (Z.eqb_neq _ _) Hf). Qed.

(** What the frames sent say of a stream: that it was never opened and cannot
    be written, or opened once and given [wr], and not stopped while open. *)
Definition flow_ok (fs : list frame) (id : Z) (cl : bool) (wr : list Z) : Prop :=
  match opened id fs with
  | Some post => inflow id post = wr /\ (stopped id post = true -> cl = true) /\ opened id post = None
  | None => wr = [] /\ cl = true
  end.

Lemma flow_closes fs id cl cl' wr : (cl = true -> cl' = true) -> flow_ok fs id cl wr -> flow_ok fs id cl' wr.
Proof. unfold flow_ok. destruct (opened id fs); intros Hc; [intros (? & ? & ?)|intros (? & ?)]; split_and!; auto. Qed.

Lemma flow_other fs f id cl wr : f_id f ≠ id -> flow_ok fs id cl wr -> flow_ok (fs ++ [f]) id cl wr.
Proof.
  intros Hne. unfold flow_ok. rewrite opened_snoc. apply Z.eqb_neq in Hne.
  assert (is_open id f = false /\ brings id f = [] /\ stops id f = false) as (E1 & E2 & E3) by (unfold is_open, brings, stops; by rewrite Hne).
  destruct (opened id fs) as [post|]; [|by rewrite E1]. rewrite inflow_snoc, stopped_snoc, opened_snoc, E1, E2, E3, orb_false_r.
  intros (H1 & H2 & ->). split_and!; [|done|done]. destruct (stopped id post); by rewrite app_nil_r.
Qed.

Lemma flow_data fs f id wr :
  f_id f = id -> f_type f = frameData -> flow_ok fs id false wr -> flow_ok (fs ++ [f]) id false (wr ++ f_payload f).
Proof.
  intros Hid Ht. unfold flow_ok. rewrite opened_snoc. destruct (opened id fs) as [post|]; [|by intros [_ ?]].
  intros (H1 & H2 & H3). rewrite inflow_snoc, stopped_snoc, opened_snoc, H3.
  assert (stopped id post = false) as Hs by (destruct (stopped id post); [by specialize (H2 eq_refl)|done]).
  unfold is_open, brings, stops. rewrite Hid, Z.eqb_refl, Ht, Hs, H1. done.
Qed.

Lemma flow_close fs f id cl wr :
  f_id f = id -> f_type f = frameClose -> flow_ok fs id cl wr -> flow_ok (fs ++ [f]) id true wr.
Proof.
  intros Hid Ht. unfold flow_ok. rewrite opened_snoc. assert (is_open id f = false) as E by (unfold is_open; by rewrite Ht, andb_false_r).
  destruct (opened id fs) as [post|]; [|by rewrite E; intros [? _]]. intros (H1 & H2 & H3). rewrite inflow_snoc, stopped_snoc, opened_snoc, H3, E.
  split_and!; [|done|done]. unfold brings. rewrite Ht, andb_false_r. destruct (stopped id post); by rewrite app_nil_r.
Qed.

(** ** Runs of a client *)

Record Client := mk_client { c_sess : Session; written : list (list Z) }.

Definition given (c : Client) (a : nat) : list Z := default [] (written c !! a).

(** Streams are opened, as long as there are numbers, and written, in turns of
    the loop of [Write]; they are read and closed; the frames of the server are
    handled, which opens none; and the session ends.  A turn of [Write] sends
    only while its stream is open: no stream is closed in the middle of a write. *)
Inductive client_step : Client -> Client -> Prop :=
  | c_open c w p s' x : Z.of_nat (length (objs (c_sess c))) + 1 < 2 ^ 32 -> OpenStream (c_sess c) w p = (s', x) ->
      client_step c (mk_client s' (written c ++ replicate (if closed (c_sess c) then 0 else 1) []))
  | c_chunk c w a st chunk s' err : objs (c_sess c) !! a = Some st -> st_closed st = false -> chunk ≠ [] -> zlen chunk <= maxDataPayload ->
      sendFrame (c_sess c) w frameData (st_id st) chunk = (s', err) ->
      client_step c (mk_client s' (match err with None => alter (fun g => g ++ chunk) a (written c) | Some _ => written c end))
  | c_read c a st n st' res : objs (c_sess c) !! a = Some st -> stream_Read st n = (st', res) ->
      client_step c (mk_client (set_objs (c_sess c) (<[a := st']> (objs (c_sess c)))) (written c))
  | c_close c w a : client_step c (mk_client (stream_Close (c_sess c) w a) (written c))
  | c_frame c w w' f s' v : f_type f ≠ frameOpen -> handle (c_sess c) w w' f = (s', v) -> client_step c (mk_client s' (written c))
  | c_end c e : client_step c (mk_client (closeWithError (c_sess c) e) (written c)).

Definition client_start : Client := mk_client (NewSession false) [].

Lemma take_length_take {A} k (l : list A) : take (length (take k l)) l = take k l.
Proof. rewrite <-(take_drop k l) at 2. by rewrite take_app_length. Qed.

(** A turn of [Write] is such a step: a write is the turns for its pieces. *)
Lemma Write_turns fuel s ws id p n s' n' err :
  write_chunks fuel s ws id p n = Ret (s', n', err) ->
  exists pieces, sent s' = sent s ++ map (fun piece => {| f_type := frameData; f_id := id; f_payload := piece |}) pieces /\
    concat pieces = take (Z.to_nat (n' - n)) p /\ n <= n' /\ Forall (fun piece => piece ≠ [] /\ zlen piece <= maxDataPayload) pieces /\ (err = None -> n' = n + zlen p).
Proof.
  revert s ws p n. induction fuel as [|fuel IH]; intros s ws p n; cbn [write_chunks]; case_bool_decide as Ep; try done.
  1,2: intros [= <- <- <-]; exists []; subst p; rewrite Z.sub_diag, app_nil_r; split_and!; [done|done|lia|done|unfold zlen; cbn; lia].
  set (chunk := if _ <? _ then _ else _).
  assert (chunk ≠ [] /\ zlen chunk <= maxDataPayload /\ take (length chunk) p = chunk /\ (length chunk <= length p)%nat) as (C1 & C2 & C3 & C4).
  { unfold chunk. destruct (_ <? zlen p) eqn:E.
    - assert (zlen (take (Z.to_nat maxDataPayload) p) = maxDataPayload) as Hz by (unfold zlen in *; rewrite length_take; lia).
      split_and!; [intros E0; rewrite E0 in Hz; done|lia|apply take_length_take|rewrite length_take; lia].
    - split_and!; [done|lia|by rewrite take_ge|lia]. }
  clearbody chunk. assert (0 < zlen chunk) as C0 by (destruct chunk; [done|unfold zlen; cbn; lia]).
  destruct (sendFrame s _ _ _ _) as [s1 e1] eqn:Es. destruct e1 as [e|].
  - intros [= <- <- <-]. exists []. rewrite Z.sub_diag. split_and!; [|done|lia|done|done]. cbn. rewrite app_nil_r.
    unfold sendFrame in Es. destruct (closed s) eqn:Ec; [by injection Es as <- _|]. destruct (_ <? _); [by injection Es as <- _|].
    destruct (default None (head ws)); [|done]. injection Es as <- _. unfold closeWithError. by rewrite Ec.
  - intros E. destruct (IH _ _ _ _ E) as (pieces & P1 & P2 & P3 & P4 & P5). exists (chunk :: pieces).
    assert (sent s1 = sent s ++ [{| f_type := frameData; f_id := id; f_payload := chunk |}]) as Hs1.
    { unfold sendFrame in Es. destruct (closed s); [done|]. destruct (_ <? _); [done|]. destruct (default None (head ws)); [done|]. by injection Es as <-. }
    split_and!.
    + rewrite P1, Hs1, <-app_assoc. done.
    + cbn [concat]. rewrite P2. rewrite <-C3 at 1. replace (Z.to_nat (n' - n)) with (length chunk + Z.to_nat (n' - (n + zlen chunk)))%nat by (unfold zlen in *; lia).
      apply take_take_drop.
    + lia.
    + constructor; [done|done].
    + intros He. rewrite (P5 He). unfold zlen. rewrite length_drop. lia.
Qed.

(** ** The invariant *)

Record client_ok (c : Client) : Prop := {
  co_server : is_server (c_sess c) = false;
  co_len : length (written c) = length (objs (c_sess c));
  co_next : nextID (c_sess c) = Z.of_nat (length (objs (c_sess c)));
  co_id : forall a st, objs (c_sess c) !! a = Some st -> st_id st = Z.of_nat a + 1;
  co_frames : Forall (fun f => 1 <= f_id f <= Z.of_nat (length (objs (c_sess c)))) (sent (c_sess c));
  co_flow : forall a st, objs (c_sess c) !! a = Some st -> flow_ok (sent (c_sess c)) (Z.of_nat a + 1) (st_closed st) (given c a)
}.

(** A change of the streams' insides only, or that closes some. *)
Record fading (s s' : Session) : Prop := {
  fd_server : is_server s' = is_server s;
  fd_len : length (objs s') = length (objs s);
  fd_next : nextID s' = nextID s;
  fd_sent : sent s' = sent s;
  fd_obj : forall a st', objs s' !! a = Some st' -> exists st, objs s !! a = Some st /\ st_id st' = st_id st /\ (st_closed st = true -> st_closed st' = true)
}.

Lemma fading_trans s1 s2 s3 : fading s1 s2 -> fading s2 s3 -> fading s1 s3.
Proof.
  intros [A1 A2 A3 A4 A5] [B1 B2 B3 B4 B5]. split; [congruence..|]. intros a st3 Ha. destruct (B5 a st3 Ha) as (st2 & H2 & E2 & K2).
  destruct (A5 a st2 H2) as (st1 & H1 & E1 & K1). exists st1. split_and!; [done|congruence|auto].
Qed.

Lemma fading_same s s' : is_server s' = is_server s -> objs s' = objs s -> nextID s' = nextID s -> sent s' = sent s -> fading s s'.
Proof. intros E1 E2 E3 E4. split; rewrite ?E2; try done. intros a st' Ha. by exists st'. Qed.

Lemma fading_alter s a e : fading s (on_stream s a (closeNoSend e)).
Proof.
  split; cbn [on_stream set_objs is_server objs nextID sent]; [done|by rewrite length_alter|done|done|]. intros b st' Hb. destruct (decide (a = b)) as [<-|Hne].
  - rewrite list_lookup_alter_eq in Hb. destruct (objs s !! a) as [st|]; [|done]. injection Hb as <-. exists st. unfold closeNoSend. by destruct (st_closed st) eqn:E.
  - rewrite list_lookup_alter_ne in Hb by done. by exists st'.
Qed.

Lemma fading_end s e : fading s (closeWithError s e).
Proof.
  pose proof (closing_end s e) as [C1 C2 C3 _ _]. split; [done|done|unfold closeWithError; by destruct (closed s)..|].
  intros a st' Ha. destruct (C3 a st' Ha) as (st & Hst & [->|[e' ->]]); exists st; split_and!; try done; unfold closeNoSend; by destruct (st_closed st) eqn:E.
Qed.

Lemma client_ok_fading c s' : client_ok c -> fading (c_sess c) s' -> client_ok (mk_client s' (written c)).
Proof.
  intros [K1 K2 K3 K4 K5 K6] [F1 F2 F3 F4 F5]. split; cbn [c_sess written]; rewrite ?F1, ?F2, ?F3, ?F4; try done.
  - intros a st' Ha. destruct (F5 a st' Ha) as (st & Hst & -> & _). by apply K4.
  - intros a st' Ha. destruct (F5 a st' Ha) as (st & Hst & _ & Hc). eapply flow_closes; [exact Hc|]. by apply K6.
Qed.

(** A frame is added; the stream of its number is [a]. *)
Lemma client_ok_sent c s' f a wr :
  client_ok c -> is_server s' = is_server (c_sess c) -> nextID s' = nextID (c_sess c) -> sent s' = sent (c_sess c) ++ [f] ->
  length (objs s') = length (objs (c_sess c)) -> length wr = length (written c) -> (a < length (objs s'))%nat -> f_id f = Z.of_nat a + 1 ->
  (forall b st', b ≠ a -> objs s' !! b = Some st' -> exists st, objs (c_sess c) !! b = Some st /\ st_id st' = st_id st /\ st_closed st' = st_closed st) ->
  (forall b, b ≠ a -> wr !! b = written c !! b) ->
  (forall st', objs s' !! a = Some st' -> st_id st' = Z.of_nat a + 1 /\ flow_ok (sent s') (Z.of_nat a + 1) (st_closed st') (default [] (wr !! a))) ->
  client_ok (mk_client s' wr).
Proof.
  intros [K1 K2 K3 K4 K5 K6] E1 E2 E3 E4 E5 Ha Hid Hother Hwr Hself. split; cbn [c_sess written].
  - by rewrite E1.
  - by rewrite E5, E4.
  - by rewrite E2, E4.
  - intros b st' Hb. destruct (decide (b = a)) as [->|Hne]; [by apply Hself|]. destruct (Hother b st' Hne Hb) as (st & Hst & -> & _). by apply K4.
  - rewrite E3, E4. apply Forall_app. split; [done|]. constructor; [|constructor]. rewrite Hid. lia.
  - intros b st' Hb. unfold given. cbn [written]. destruct (decide (b = a)) as [->|Hne]; [by apply Hself|].
    destruct (Hother b st' Hne Hb) as (st & Hst & _ & ->). rewrite Hwr, E3 by done. apply flow_other; [lia|]. by apply K6.
Qed.

(** A stream that could not be opened. *)
Lemma client_ok_unopened c s' :
  client_ok c -> is_server s' = false -> nextID s' = Z.of_nat (length (objs (c_sess c))) + 1 -> sent s' = sent (c_sess c) ->
  length (objs s') = S (length (objs (c_sess c))) ->
  (forall b st', objs s' !! b = Some st' ->
    (exists st, objs (c_sess c) !! b = Some st /\ st_id st' = st_id st /\ (st_closed st = true -> st_closed st' = true)) \/
    b = length (objs (c_sess c)) /\ st_id st' = nextID s' /\ st_closed st' = true) ->
  client_ok (mk_client s' (written c ++ [[]])).
Proof.
  intros [K1 K2 K3 K4 K5 K6] E1 E2 E3 E4 Hobj. split; cbn [c_sess written]; rewrite ?E3, ?E4; [done|rewrite length_app; cbn; lia|lia| | |].
  - intros b st' Hb. destruct (Hobj b st' Hb) as [(st & Hst & -> & _)|(-> & -> & _)]; [by apply K4|done].
  - eapply Forall_impl; [exact K5|]. cbn. lia.
  - intros b st' Hb. unfold given. cbn [written]. destruct (Hobj b st' Hb) as [(st & Hst & _ & Hc)|(-> & _ & ->)].
    + rewrite lookup_app_l by (rewrite K2; by apply lookup_lt_Some in Hst). eapply flow_closes; [exact Hc|]. by apply K6.
    + rewrite lookup_app_r, K2, Nat.sub_diag by lia. unfold flow_ok. rewrite opened_none; [done|]. eapply Forall_impl; [exact K5|]. cbn. lia.
Qed.

Lemma client_ok_opened c s' f :
  client_ok c -> is_server s' = false -> nextID s' = Z.of_nat (length (objs (c_sess c))) + 1 -> sent s' = sent (c_sess c) ++ [f] ->
  f_id f = nextID s' -> f_type f = frameOpen -> objs s' = objs (c_sess c) ++ [newStream (nextID s')] -> client_ok (mk_client s' (written c ++ [[]])).
Proof.
  intros [K1 K2 K3 K4 K5 K6] E1 E2 E3 Hid Ht Hobj.
  assert (forall b st', objs s' !! b = Some st' -> objs (c_sess c) !! b = Some st' \/ b = length (objs (c_sess c)) /\ st' = newStream (nextID s')) as Hcase.
  { intros b st' Hb. rewrite Hobj in Hb. apply lookup_app_Some in Hb as [Hb|[Hle Hb]]; [by left|right]. apply list_lookup_singleton_Some in Hb as [Hz <-]. split; [lia|done]. }
  split; cbn [c_sess written]; [done|rewrite Hobj, !length_app; cbn; lia|rewrite Hobj, length_app; cbn; lia| | |].
  - intros b st' Hb. destruct (Hcase b st' Hb) as [Hst|[-> ->]]; [by apply K4|done].
  - rewrite E3, Hobj, length_app. apply Forall_app. split; [eapply Forall_impl; [exact K5|]; cbn; lia|]. constructor; [|constructor]. rewrite Hid, E2. cbn. lia.
  - intros b st' Hb. unfold given. cbn [written]. rewrite E3. destruct (Hcase b st' Hb) as [Hst|[-> ->]].
    + pose proof (lookup_lt_Some _ _ _ Hst). rewrite lookup_app_l by lia. apply flow_other; [lia|]. by apply K6.
    + rewrite lookup_app_r, K2, Nat.sub_diag by lia. unfold flow_ok. rewrite opened_snoc, opened_none by (eapply Forall_impl; [exact K5|]; cbn; lia).
      unfold is_open. rewrite Hid, E2, Z.eqb_refl, Ht. cbn. done.
Qed.

Lemma client_open c w p s' x :
  client_ok c -> Z.of_nat (length (objs (c_sess c))) + 1 < 2 ^ 32 -> OpenStream (c_sess c) w p = (s', x) ->
  client_ok (mk_client s' (written c ++ replicate (if closed (c_sess c) then 0 else 1) [])).
Proof.
  intros Hc Hb. unfold OpenStream. destruct (closed (c_sess c)) eqn:Ecl.
  { intros [= <- _]. cbn [replicate]. rewrite app_nil_r. by apply client_ok_fading, fading_same. }
  cbn [replicate]. unfold nextStreamID. rewrite (co_next c Hc). set (n := Z.of_nat (length (objs (c_sess c)))) in *.
  rewrite (u32_id (n + 1)) by (unfold is_u32; lia). rewrite (proj2 (Z.eqb_neq (n + 1) 0)) by lia.
  destruct (register _ _) as [s2 a] eqn:Er. injection Er as E2 Ea.
  assert (is_server s2 = false /\ nextID s2 = n + 1 /\ sent s2 = sent (c_sess c) /\ objs s2 = objs (c_sess c) ++ [newStream (n + 1)] /\ closed s2 = false) as (S1 & S2 & S3 & S4 & S5).
  { subst s2. split_and!; try done. apply (co_server c Hc). }
  clear E2. unfold sendFrame. rewrite S5.
  assert (forall s3 e, fading s2 s3 -> client_ok (mk_client (removeStream (on_stream s3 a (closeNoSend e)) (n + 1)) (written c ++ [[]]))) as Hfail.
  { intros s3 e Hf. destruct (fading_trans _ _ _ Hf (fading_alter s3 a e)) as [F1 F2 F3 F4 F5]. subst a.
    apply client_ok_unopened; cbn [removeStream set_streams is_server nextID sent objs]; [done|by rewrite F1|by rewrite F3, S2|by rewrite F4, S3|rewrite F2, S4, length_app; cbn; lia|].
    intros b st' Hst'. destruct (F5 b st' Hst') as (st & Hst & Hid & Hcl). rewrite S4 in Hst. apply lookup_app_Some in Hst as [Hst|[Hle Hst]]; [left; by exists st|right].
    apply list_lookup_singleton_Some in Hst as [Hz <-]. split_and!; [lia|by rewrite Hid, F3, S2|].
    cbn [on_stream set_objs objs] in Hst'. assert (b = length (objs (c_sess c))) as -> by lia. cbn in Hst'. rewrite list_lookup_alter_eq in Hst'.
    destruct (objs s3 !! _) as [st3|]; [|done]. injection Hst' as <-. unfold closeNoSend. by destruct (st_closed st3) eqn:E. }
  destruct (_ <? _); [intros [= <- _]; apply Hfail; by apply fading_same|]. destruct w as [e|]; [intros [= <- _]; apply Hfail, fading_end|].
  intros [= <- _]. eapply client_ok_opened; cbn [is_server nextID sent objs]; [done|done|done|by rewrite S3|done|done|by rewrite S4, S2].
Qed.

Lemma client_chunk c w a st chunk s' err :
  client_ok c -> objs (c_sess c) !! a = Some st -> st_closed st = false -> sendFrame (c_sess c) w frameData (st_id st) chunk = (s', err) ->
  client_ok (mk_client s' (match err with None => alter (fun g => g ++ chunk) a (written c) | Some _ => written c end)).
Proof.
  intros Hc Hst Hop. unfold sendFrame. destruct (closed (c_sess c)); [intros [= <- <-]; by apply client_ok_fading, fading_same|].
  destruct (_ <? _); [intros [= <- <-]; by apply client_ok_fading, fading_same|]. destruct w as [e|]; [intros [= <- <-]; apply client_ok_fading; [done|apply fading_end]|].
  intros [= <- <-]. pose proof (lookup_lt_Some _ _ _ Hst) as Hlt.
  eapply (client_ok_sent c _ _ a); cbn [is_server nextID sent objs f_id]; [done|done|done|done|done|by rewrite length_alter|done|by apply (co_id c Hc)| | |].
  - intros b st' _ Hb. by exists st'.
  - intros b Hne. by rewrite list_lookup_alter_ne.
  - intros st' Hst'. rewrite Hst in Hst'. injection Hst' as <-. split; [by apply (co_id c Hc)|]. rewrite list_lookup_alter_eq.
    pose proof (co_flow c Hc a st Hst) as Hf. unfold given in Hf. destruct (written c !! a) eqn:Ew; [|apply lookup_ge_None in Ew; rewrite (co_len c Hc) in Ew; lia].
    cbn [fmap option_fmap option_map default] in *. rewrite Hop in *. apply (flow_data (sent (c_sess c)) {| f_type := frameData; f_id := st_id st; f_payload := chunk |}); [by apply (co_id c Hc)|done|done].
Qed.

Lemma client_close c w a : client_ok c -> client_ok (mk_client (stream_Close (c_sess c) w a) (written c)).
Proof.
  intros Hc. unfold stream_Close. destruct (objs (c_sess c) !! a) as [st|] eqn:Hst; [|by apply client_ok_fading, fading_same].
  destruct (st_closed st); [by apply client_ok_fading, fading_same|]. pose proof (fading_alter (c_sess c) a ErrClosedPipe) as Hf.
  pose proof (lookup_lt_Some _ _ _ Hst) as Hlt. set (s1 := on_stream (c_sess c) a (closeNoSend ErrClosedPipe)) in *.
  assert (forall b, b ≠ a -> objs s1 !! b = objs (c_sess c) !! b) as Hother by (intros b Hne; cbn; by rewrite list_lookup_alter_ne).
  assert (objs s1 !! a = Some (closeNoSend ErrClosedPipe st)) as Hself by (cbn; by rewrite list_lookup_alter_eq, Hst).
  clearbody s1. unfold sendFrame. destruct (closed s1); [apply client_ok_fading; [done|]; eapply fading_trans; [exact Hf|by apply fading_same]|].
  change (maxFrameSize <? zlen []) with false. cbv iota. destruct w as [e|].
  { apply client_ok_fading; [done|]. eapply fading_trans; [exact Hf|]. eapply fading_trans; [apply (fading_end s1 e)|by apply fading_same]. }
  destruct Hf as [F1 F2 F3 F4 F5].
  eapply (client_ok_sent c _ {| f_type := frameClose; f_id := st_id st; f_payload := [] |} a); cbn [removeStream set_streams is_server nextID sent objs f_id];
    [done|done|done|by rewrite F4|done|done|by rewrite F2|by apply (co_id c Hc)| |done|].
  - intros b st' Hne Hb. rewrite Hother in Hb by done. by exists st'.
  - intros st' Hst'. rewrite Hself in Hst'. injection Hst' as <-. assert (st_closed (closeNoSend ErrClosedPipe st) = true) as -> by (unfold closeNoSend; by destruct (st_closed st) eqn:E).
    assert (st_id (closeNoSend ErrClosedPipe st) = st_id st) as -> by (unfold closeNoSend; by destruct (st_closed st)).
    split; [by apply (co_id c Hc)|]. rewrite F4. eapply flow_close; [by apply (co_id c Hc)|done|]. by apply (co_flow c Hc).
Qed.

Lemma fading_insert s a st st' : objs s !! a = Some st -> st_id st' = st_id st -> st_closed st' = st_closed st -> fading s (set_objs s (<[a := st']> (objs s))).
Proof.
  intros Hst E1 E2. split; cbn [set_objs is_server objs nextID sent]; [done|by rewrite length_insert|done|done|]. intros b stb Hb. destruct (decide (a = b)) as [<-|Hne].
  - rewrite list_lookup_insert_eq in Hb by (by apply lookup_lt_Some in Hst). injection Hb as <-. exists st. by rewrite E1, E2.
  - rewrite list_lookup_insert_ne in Hb by done. by exists stb.
Qed.

Lemma fading_handle s w w' f s' v : f_type f ≠ frameOpen -> handle s w w' f = (s', v) -> fading s s'.
Proof.
  intros Ht E. unfold handle in E. apply Z.eqb_neq in Ht. rewrite Ht in E. clear Ht.
  assert (forall a e id, fading s (removeStream (on_stream s a (closeNoSend e)) id)) as Hrm
    by (intros a e id; eapply fading_trans; [apply fading_alter|by apply fading_same]).
  destruct (_ =? _); [|destruct (_ =? _); [|destruct (_ =? _)]].
  - destruct (getStream _ _) as [a|]; [|injection E as <- _; by apply fading_same]. case_bool_decide; [injection E as <- _; by apply fading_same|].
    destruct (objs s !! a) as [st|] eqn:Hst; [|injection E as <- _; by apply fading_same].
    destruct (enqueue st _) as [st'|] eqn:Ee; injection E as <- _; [|by apply fading_same].
    apply (fading_insert _ _ st); [done|..]; unfold enqueue in Ee; repeat case_match; by simplify_eq.
  - destruct (getStream _ _); injection E as <- _; [apply Hrm|by apply fading_same].
  - destruct (getStream _ _); injection E as <- _; [apply Hrm|by apply fading_same].
  - injection E as <- _. apply fading_end.
Qed.

Lemma client_ok_step c c' : client_ok c -> client_step c c' -> client_ok c'.
Proof.
  intros Hc Hs. destruct Hs as [c w p s' x Hb E|c w a st chunk s' err Hst Hop _ _ E|c a st n st' res Hst E|c w a|c w w' f s' v Ht E|c e].
  - by eapply client_open.
  - by eapply client_chunk.
  - apply client_ok_fading; [done|]. apply (fading_insert _ _ st); [done|..]; unfold stream_Read in E; repeat case_match; by simplify_eq.
  - by apply client_close.
  - apply client_ok_fading; [done|by eapply fading_handle].
  - apply client_ok_fading; [done|apply fading_end].
Qed.

Lemma client_ok_reachable c0 c : client_ok c0 -> rtc client_step c0 c -> client_ok c.
Proof. intros H0 Hr. revert H0. induction Hr as [|x y z Hs _ IH]; [done|]. intros H0. by apply IH, (client_ok_step x). Qed.

Lemma client_ok_start : client_ok client_start.
Proof. split; cbn; try done. Qed.

(** ** The frames of a client fit the wire *)

Lemma sendFrame_sends s w typ id payload s' err :
  sendFrame s w typ id payload = (s', err) ->
  sent s' = sent s \/ exists f, sent s' = sent s ++ [f] /\ zlen (f_payload f) <= maxFrameSize.
Proof.
  unfold sendFrame. destruct (closed s); [intros [= <- _]; by left|]. destruct (_ <? _) eqn:E; [intros [= <- _]; by left|].
  destruct w as [e|]; intros [= <- _]; [left; apply fading_end|right]. eexists. split; [done|]. cbn [f_payload]. lia.
Qed.

Lemma client_sends c c' :
  client_step c c' ->
  (sent (c_sess c') = sent (c_sess c) \/ exists f, sent (c_sess c') = sent (c_sess c) ++ [f] /\ zlen (f_payload f) <= maxFrameSize) /\
  (length (written c') = length (written c) \/ length (written c') = S (length (written c)) /\ Z.of_nat (length (objs (c_sess c))) + 1 < 2 ^ 32).
Proof.
  destruct 1 as [c w p s' x Hb E|c w a st chunk s' err Hst Hop _ _ E|c a st n st' res Hst E|c w a|c w w' f s' v Ht E|c e]; cbn [c_sess written].
  - split; [|rewrite length_app; destruct (closed (c_sess c)); cbn [replicate length]; [left; lia|right; split; [lia|done]]].
    unfold OpenStream in E. destruct (closed (c_sess c)); [injection E as <- _; by left|]. unfold nextStreamID, register in E.
    destruct (sendFrame _ _ _ _ _) as [s2 err] eqn:Es. apply sendFrame_sends in Es. cbn [sent] in Es. destruct err; injection E as <- _; exact Es.
  - split; [by eapply sendFrame_sends|]. left. destruct err; [done|by rewrite length_alter].
  - by split; left.
  - split; [|by left]. unfold stream_Close. destruct (objs (c_sess c) !! a) as [st|]; [|by left]. destruct (st_closed st); [by left|].
    destruct (sendFrame _ _ _ _ _) as [s2 err] eqn:Es. apply sendFrame_sends in Es. exact Es.
  - split; [|by left]. left. by apply (fd_sent _ _ (fading_handle _ _ _ _ _ _ Ht E)).
  - split; left; [apply fading_end|done].
Qed.

Lemma client_frames_ok c : rtc client_step client_start c -> client_ok c /\ Forall frame_ok (sent (c_sess c)).
Proof.
  intros Hr. enough (client_ok c /\ Z.of_nat (length (objs (c_sess c))) < 2 ^ 32 /\ Forall (fun f => zlen (f_payload f) <= maxFrameSize) (sent (c_sess c))) as (Hc & Hb & Hf).
  { split; [done|]. apply Forall_forall. intros f Hin. pose proof (co_frames c Hc) as Hi. rewrite Forall_forall in Hi, Hf. split; [|by apply Hf].
    specialize (Hi f Hin). unfold is_u32. lia. }
  revert c Hr. apply (rtc_ind_r (fun c => client_ok c /\ Z.of_nat (length (objs (c_sess c))) < 2 ^ 32 /\ Forall (fun f => zlen (f_payload f) <= maxFrameSize) (sent (c_sess c))));
    [split_and!; [apply client_ok_start|done|constructor]|].
  intros c c' _ Hs (Hc & Hb & Hf). pose proof (client_ok_step _ _ Hc Hs) as Hc'. destruct (client_sends _ _ Hs) as [Hsent Hlen]. split_and!; [done| |].
  - rewrite <-(co_len _ Hc'). rewrite <-(co_len _ Hc) in Hb, Hlen. lia.
  - destruct Hsent as [->|(f & -> & Hl)]; [done|]. apply Forall_app. split; [done|by constructor].
Qed.

(** ** Both ends *)

Lemma opened_some id fs k f : fs !! k = Some f -> is_open id f = true -> opened id fs ≠ None.
Proof.
  revert k. induction fs as [|g fs IH]; intros k Hk Ho; [done|]. cbn [opened]. destruct (is_open id g) eqn:E; [done|].
  destruct k as [|k]; [injection Hk as ->; by rewrite Ho in E|]. by apply (IH k).
Qed.

Lemma opened_unique id fs k f post : fs !! k = Some f -> is_open id f = true -> opened id fs = Some post -> opened id post = None -> post = drop (S k) fs.
Proof.
  revert k. induction fs as [|g fs IH]; intros k Hk Ho Hp Hn; [done|]. cbn [opened] in Hp. destruct (is_open id g) eqn:E.
  - injection Hp as ->. destruct k as [|k]; [done|]. by apply (opened_some id post k f) in Hk.
  - destruct k as [|k]; [injection Hk as ->; by rewrite Ho in E|]. cbn [drop]. by apply IH.
Qed.

Lemma inflow_app id a b : exists rest, inflow id (a ++ b) = inflow id a ++ rest /\ (stopped id a = true -> rest = []).
Proof.
  induction b as [|f b IH] using rev_ind; [exists []; by rewrite !app_nil_r|]. destruct IH as (rest & E & Hs). rewrite app_assoc, inflow_snoc, E.
  assert (stopped id a = true -> stopped id (a ++ b) = true) as Hm by (intros H; unfold stopped in *; by rewrite existsb_app, H).
  exists (rest ++ if stopped id (a ++ b) then [] else brings id f). split; [by rewrite app_assoc|]. intros H. by rewrite (Hs H), (Hm H).
Qed.

(** Streams are opened at different frames. *)
Definition births_ok (r : Run) : Prop := NoDup (birth r) /\ Forall (fun n => (n <= length (log r))%nat) (birth r).

Lemma births_ok_reachable r0 r : births_ok r0 -> rtc mux_step r0 r -> births_ok r.
Proof.
  intros H0 Hr. revert H0. induction Hr as [|x y z Hs _ IH]; [done|]. intros [H1 H2]. apply IH. destruct Hs; try by split.
  unfold run_frame, births_ok. cbn [birth log]. rewrite length_app. destruct (opens _ _); cbn [replicate length].
  - split; [|apply Forall_app; split; [eapply Forall_impl; [exact H2|]; cbn; lia|by constructor; [lia|]]].
    apply NoDup_app. split_and!; [done| |apply NoDup_singleton]. intros n Hn ->%list_elem_of_singleton. rewrite Forall_forall in H2. specialize (H2 _ Hn). lia.
  - rewrite app_nil_r. split; [done|]. eapply Forall_impl; [exact H2|]. cbn. lia.
Qed.

(** C31: a client and a server of a session, with whatever they do to their
    streams and in whatever order, but that a stream is not closed in the middle
    of a write; the server reads its frames off a connection that delivers the
    bytes of the client's frames, cut anywhere and ended anywhere.  Every stream
    of the server is one of the client's, and no other is that one; what it has
    handed out and holds is a first part of what was written there; all of it,
    once the frame has come that closes the stream, and while it is open when all
    frames have come; and it holds no more than 4 MiB. *)
Theorem mux_delivers {R} `{ReaderLaws R} c r (conn conn' : R) X e :
  rtc client_step client_start c -> rtc mux_step run_start r ->
  yields conn X e -> X `prefix_of` concat (map frame_bytes (sent (c_sess c))) -> read_frames (length (log r)) conn = Ret (conn', inr (log r)) ->
  forall b st, objs (sess r) !! b = Some st ->
  exists a cst, objs (c_sess c) !! a = Some cst /\ st_id cst = st_id st /\
    handed r b ++ content st `prefix_of` given c a /\
    (b ∈ finished r -> st_closed cst = true /\ handed r b ++ content st = given c a) /\
    (streams (sess r) !! st_id st = Some b -> log r = sent (c_sess c) -> handed r b ++ content st = given c a) /\
    queuedBytes st = zlen (content st) /\ zlen (content st) <= maxQueuedBytesPerStream /\
    (forall b' st', objs (sess r) !! b' = Some st' -> st_id st' = st_id st -> b' = b).
Proof.
  intros [Hc Hfit]%client_frames_ok Hr Hy HX Hread b st Hb. pose proof (read_frames_first _ _ _ _ _ _ _ Hfit Hy HX Hread) as Hlog.
  set (k := length (log r)) in Hlog. clearbody k. clear Hread Hy HX.
  assert (births_ok r) as [Hnd _] by (eapply births_ok_reachable; [|exact Hr]; split; constructor).
  apply run_ok_reachable in Hr; [|apply run_ok_start].
  destruct (ro_obj r Hr b st Hb) as [O1 O2 O3 O4 O5 (j & f & B1 & B2 & B3 & B4)].
  assert (sent (c_sess c) !! j = Some f) as Hj by (rewrite Hlog in B2; by apply lookup_take_Some in B2 as [? _]).
  pose proof (co_frames c Hc) as HF. rewrite Forall_lookup in HF. specialize (HF j f Hj). rewrite B3 in HF.
  destruct (lookup_lt_is_Some_2 (objs (c_sess c)) (Z.to_nat (st_id st - 1))) as [cst Hcst]; [lia|].
  pose proof (co_id c Hc _ _ Hcst) as Hid. pose proof (co_flow c Hc _ _ Hcst) as Hfl. replace (Z.of_nat (Z.to_nat (st_id st - 1)) + 1) with (st_id st) in Hid, Hfl by lia.
  assert (forall g, f_id g = st_id st -> f_type g = frameOpen -> is_open (st_id st) g = true) as Hop by (intros g E1 E2; unfold is_open; by rewrite E1, E2, Z.eqb_refl).
  unfold flow_ok in Hfl. destruct (opened (st_id st) (sent (c_sess c))) as [post|] eqn:Eo; [|by apply (opened_some (st_id st) _ j f Hj (Hop f B3 B4)) in Eo].
  destruct Hfl as (H1 & H2 & H3). pose proof (opened_unique _ _ _ _ _ Hj (Hop f B3 B4) Eo H3) as Epost.
  assert (since r b = drop (S j) (log r)) as Es by (unfold since; by rewrite B1).
  assert (post = since r b ++ drop k (sent (c_sess c))) as Ep.
  { rewrite Epost, Es. rewrite <-(take_drop k (sent (c_sess c))) at 1. rewrite <-Hlog. apply drop_app_le. apply lookup_lt_Some in B2. lia. }
  destruct (inflow_app (st_id st) (since r b) (drop k (sent (c_sess c)))) as (rest & Erest & Hrest). rewrite <-Ep, H1 in Erest.
  exists (Z.to_nat (st_id st - 1)), cst. split; [done|]. split; [done|]. split; [rewrite Erest; by apply prefix_app_r|]. split; [|split; [|split; [|split]]].
  - intros Hfin. destruct (O4 Hfin) as (_ & Hst & Heq). rewrite Erest, (Hrest Hst), app_nil_r. split; [|done]. apply H2. rewrite Ep. unfold stopped in *. by rewrite existsb_app, Hst.
  - intros Hlive Hall. destruct (O5 Hlive) as (_ & _ & Heq). rewrite Heq, <-H1, Epost, Es, Hall. done.
  - apply (so_queued st O1).
  - rewrite <-(so_queued st O1). apply (so_bound st O1).
  - intros b' st' Hb' E. destruct (ro_obj r Hr b' st' Hb') as [_ _ _ _ _ (j' & f' & B1' & B2' & B3' & B4')].
    assert (sent (c_sess c) !! j' = Some f') as Hj' by (rewrite Hlog in B2'; by apply lookup_take_Some in B2' as [? _]).
    pose proof (opened_unique _ _ _ _ _ Hj' (Hop f' ltac:(congruence) B4') Eo H3) as Epost'. rewrite Epost in Epost'.
    apply lookup_lt_Some in Hj, Hj'. apply (f_equal length) in Epost'. rewrite !length_drop in Epost'. assert (j' = j) as -> by lia.
    by eapply NoDup_lookup.
Qed.
