(* ===== verification/SudokuMuxExample.v ===== *)
(** * Runs of multiplexed Sudoku sessions

    A stream from its opening to its end, and what a stream cannot tell. *)

From S2P Require Import Prelude GoIo GoIoExample SudokuMux SudokuMuxExact SudokuMuxClient.

#[local] Existing Instance pieces_reader.
#[local] Existing Instance pieces_laws.

(** ** One stream, opened, written and closed *)

Definition wire : list frame :=
  [ {| f_type := frameOpen; f_id := 1; f_payload := [9] |};
    {| f_type := frameData; f_id := 1; f_payload := [7; 8] |};
    {| f_type := frameClose; f_id := 1; f_payload := [] |} ].

Definition closed_stream : stream := mk_stream 1 true (Some ErrClosedPipe) [] [] 0.

Definition the_client : Client := mk_client (mk_session false [closed_stream] ∅ 1 [] false None wire) [[7; 8]].

Lemma the_client_runs : rtc client_step client_start the_client.
Proof.
  eapply rtc_l; [eapply (c_open _ None [9]); [cbn; lia|vm_compute; reflexivity]|].
  eapply rtc_l; [eapply (c_chunk _ None 0%nat _ [7; 8]); [vm_compute; reflexivity|reflexivity|discriminate|vm_compute; discriminate|vm_compute; reflexivity]|].
  eapply rtc_l; [apply (c_close _ None 0%nat)|].
  assert (forall x y : Client, x = y -> rtc client_step x y) as Hsame by (intros x y ->; reflexivity). apply Hsame. vm_compute. reflexivity.
Qed.

(** The server's stream, read once by a byte. *)
Definition the_run : Run :=
  mk_run (mk_session true [mk_stream 1 true (Some EOF) [8] [] 1] ∅ 0 [(0%nat, [9])] false None [])
    [[7]] wire [1%nat] {[0%nat]}.

Lemma the_run_runs : rtc mux_step run_start the_run.
Proof.
  eapply rtc_l; [eapply (m_frame _ None None {| f_type := frameOpen; f_id := 1; f_payload := [9] |}); [vm_compute; reflexivity|discriminate]|].
  eapply rtc_l; [eapply (m_frame _ None None {| f_type := frameData; f_id := 1; f_payload := [7; 8] |}); [vm_compute; reflexivity|discriminate]|].
  eapply rtc_l; [eapply (m_read _ 0%nat _ 1%nat); [vm_compute; reflexivity|vm_compute; reflexivity]|].
  eapply rtc_l; [eapply (m_frame _ None None {| f_type := frameClose; f_id := 1; f_payload := [] |}); [vm_compute; reflexivity|discriminate]|].
  assert (forall x y : Run, x = y -> rtc mux_step x y) as Hsame by (intros x y ->; reflexivity). apply Hsame. vm_compute. reflexivity.
Qed.

Definition bytes_sent : list Z := concat (map frame_bytes wire).
Definition the_pieces : list (list Z) := [take 3 bytes_sent; drop 3 bytes_sent].

Lemma mux_delivers_witness :
  objs (sess the_run) !! 0%nat = Some (mk_stream 1 true (Some EOF) [8] [] 1) /\ exists a, handed the_run 0%nat ++ [8] = given the_client a.
Proof.
  split; [reflexivity|].
  assert (yields the_pieces bytes_sent EOF) as Hy by (split; [repeat constructor; discriminate|split; reflexivity]).
  assert (read_frames 3 the_pieces = Ret ([], inr (log the_run))) as Hr by (vm_compute; reflexivity).
  destruct (mux_delivers the_client the_run the_pieces [] bytes_sent EOF the_client_runs the_run_runs Hy ltac:(reflexivity) Hr
    0%nat (mk_stream 1 true (Some EOF) [8] [] 1) eq_refl) as (a & cst & _ & _ & _ & Hfin & _).
  exists a. apply Hfin. unfold the_run. cbn [finished]. apply elem_of_singleton_2. reflexivity.
Defined.

(** ** What a stream cannot tell *)

(** A stream of a connection that is cut off after the first frames ends as one
    that was closed. *)
Example cut_off_is_closed :
  let opened := (handle (NewSession true) None None {| f_type := frameOpen; f_id := 1; f_payload := [] |}).1 in
  let cut := closeWithError opened EOF in
  let ended := (handle opened None None {| f_type := frameClose; f_id := 1; f_payload := [] |}).1 in
  objs cut = objs ended /\ option_map (fun st => (stream_Read st 1).2) (objs cut !! 0%nat) = Some (RErr EOF).
Proof. vm_compute. split; reflexivity. Qed.

(** A frame that opens a stream and is handled when the session has been closed:
    the stream is accepted, and a read of it waits, and goes on waiting when the
    session is closed again. *)
Example opened_after_the_end :
  let s := closeWithError (NewSession true) ErrClosedPipe in
  let s := (handle s None None {| f_type := frameOpen; f_id := 1; f_payload := [] |}).1 in
  let '(s, ev) := AcceptStream s 0 in
  let s := closeWithError s ErrClosedPipe in
  ev = Some (0%nat, []) /\ option_map (fun st => (stream_Read st 1).2) (objs s !! 0%nat) = Some RWait.
Proof. vm_compute. split; reflexivity. Qed.

(** [CloseWrite] and [CloseRead] *)
Definition stream_CloseWrite (s : Session) (w : option string) (a : nat) : Session := stream_Close s w a.

(** After [CloseWrite] the answer of the other end is lost. *)
Example half_close_loses_the_answer :
  let s := (OpenStream (NewSession false) None []).1 in
  let s := stream_CloseWrite s None 0 in
  let s := (handle s None None {| f_type := frameData; f_id := 1; f_payload := [5] |}).1 in
  option_map (fun st => (stream_Read st 1).2) (objs s !! 0%nat) = Some (RErr ErrClosedPipe).
Proof. vm_compute. reflexivity. Qed.
