(* ===== verification/SimpleObfs.v ===== *)
(** * Streams in the shape of TLS
    (src/transport/simple-obfs: tls.go, tls_server.go)

    The first write of each end is put into a hello message, the others into
    application records.  The fields that the reader has no use for are skipped by
    their length. *)

From S2P Require Import Prelude GoIo.

Abbreviation chunkSize := 16384.

(** What a hello message takes from the random source and the clock. *)
Record Hello := { h_random : list Z; h_session : list Z; h_now : Z }.

Definition hello_ok (h : Hello) : Prop := length (h_random h) = 28%nat /\ length (h_session h) = 32%nat.

(** ** Messages *)

Definition cipher_suites : list Z :=
  [0xc0; 0x2c; 0xc0; 0x30; 0x00; 0x9f; 0xcc; 0xa9; 0xcc; 0xa8; 0xcc; 0xaa; 0xc0; 0x2b; 0xc0; 0x2f;
   0x00; 0x9e; 0xc0; 0x24; 0xc0; 0x28; 0x00; 0x6b; 0xc0; 0x23; 0xc0; 0x27; 0x00; 0x67; 0xc0; 0x0a;
   0xc0; 0x14; 0x00; 0x39; 0xc0; 0x09; 0xc0; 0x13; 0x00; 0x33; 0x00; 0x9d; 0x00; 0x9c; 0x00; 0x3d;
   0x00; 0x3c; 0x00; 0x35; 0x00; 0x2f; 0x00; 0xff].

Definition signature_algorithms : list Z :=
  [0x00; 0x0d; 0x00; 0x20; 0x00; 0x1e; 0x06; 0x01; 0x06; 0x02; 0x06; 0x03; 0x05;
   0x01; 0x05; 0x02; 0x05; 0x03; 0x04; 0x01; 0x04; 0x02; 0x04; 0x03; 0x03; 0x01;
   0x03; 0x02; 0x03; 0x03; 0x02; 0x01; 0x02; 0x02; 0x02; 0x03].

Definition makeClientHelloMsg (h : Hello) (data server : list Z) : list Z :=
  let length := u16 (212 + zlen data + zlen server) in
  [22] ++ [0x03; 0x01] ++ [Z.shiftr length 8; Z.land length 0xff] ++
  [1; 0] ++ put_be 2 (u16 (208 + zlen data + zlen server)) ++ [0x03; 0x03] ++
  put_be 4 (u32 (h_now h)) ++ h_random h ++ [32] ++ h_session h ++
  [0x00; 0x38] ++ cipher_suites ++
  [0x01; 0x00] ++
  put_be 2 (u16 (79 + zlen data + zlen server)) ++
  [0x00; 0x23] ++ put_be 2 (u16 (zlen data)) ++ data ++
  [0x00; 0x00] ++ put_be 2 (u16 (zlen server + 5)) ++ put_be 2 (u16 (zlen server + 3)) ++ [0] ++ put_be 2 (u16 (zlen server)) ++ server ++
  [0x00; 0x0b; 0x00; 0x04; 0x03; 0x01; 0x00; 0x02] ++
  [0x00; 0x0a; 0x00; 0x0a; 0x00; 0x08; 0x00; 0x1d; 0x00; 0x17; 0x00; 0x19; 0x00; 0x18] ++
  signature_algorithms ++
  [0x00; 0x16; 0x00; 0x00] ++
  [0x00; 0x17; 0x00; 0x00].

Definition makeServerHello (h : Hello) (data : list Z) : list Z :=
  [0x16] ++ put_be 2 0x0301 ++ put_be 2 91 ++ [2; 0; 0; 87; 0x03; 0x03] ++
  put_be 4 (u32 (h_now h)) ++ h_random h ++ [32] ++ h_session h ++
  [0xcc; 0xa8] ++ [0] ++ [0x00; 0x00] ++
  [0xff; 0x01; 0x00; 0x01; 0x00] ++ [0x00; 0x17; 0x00; 0x00] ++ [0x00; 0x0b; 0x00; 0x02; 0x01; 0x00] ++
  [0x14; 0x03; 0x03; 0x00; 0x01; 0x01] ++
  [0x16; 0x03; 0x03] ++ put_be 2 (u16 (zlen data)) ++ data.

Definition app_record (b : list Z) : list Z := [0x17; 0x03; 0x03] ++ put_be 2 (u16 (zlen b)) ++ b.

(** ** Writing *)

(** The loop of [Write] over the chunks, for the [write] of either end; the
    count is that of [write] when it fails. *)
Fixpoint write_chunks {S W} (write : S -> W -> list Z -> res (S * W * Z * option string)) (fuel : nat) (s : S) (w : W) (b : list Z) (length : Z)
  : res (S * W * Z * option string) :=
  if bool_decide (b = []) then Ret (s, w, length, None)
  else match fuel with
       | O => Panic
       | Datatypes.S fuel =>
         '(s, w, n, err) ← write s w (take (Z.to_nat chunkSize) b);
         match err with
         | Some e => Ret (s, w, n, Some e)
         | None => write_chunks write fuel s w (drop (Z.to_nat chunkSize) b) length
         end
       end.

Record TLSObfs := { server : list Z; remain : Z; firstRequest : bool; firstResponse : bool }.

Definition NewTLSObfs (server : list Z) : TLSObfs :=
  {| server := server; remain := 0; firstRequest := true; firstResponse := true |}.

Definition client_write {W} `{Writer W} (h : Hello) (to : TLSObfs) (w : W) (b : list Z) : res (TLSObfs * W * Z * option string) :=
  if firstRequest to then
    let helloMsg := makeClientHelloMsg h b (server to) in
    '(w, _, err) ← wr w helloMsg;
    Ret ({| server := server to; remain := remain to; firstRequest := false; firstResponse := firstResponse to |}, w, zlen b, err)
  else
    '(w, _, err) ← wr w (app_record b);
    Ret (to, w, zlen b, err).

Definition client_Write {W} `{Writer W} (h : Hello) (to : TLSObfs) (w : W) (b : list Z) : res (TLSObfs * W * Z * option string) :=
  write_chunks (client_write h) (S (length b)) to w b (zlen b).

Record TLSObfsServer := { s_remain : Z; s_firstRequest : bool; sessionTicketDone : bool; s_firstResponse : bool }.

Definition NewTLSObfsServer : TLSObfsServer :=
  {| s_remain := 0; s_firstRequest := true; sessionTicketDone := false; s_firstResponse := true |}.

Definition server_write {W} `{Writer W} (h : Hello) (tos : TLSObfsServer) (w : W) (b : list Z) : res (TLSObfsServer * W * Z * option string) :=
  if s_firstResponse tos then
    let serverHello := makeServerHello h b in
    '(w, _, err) ← wr w serverHello;
    Ret ({| s_remain := s_remain tos; s_firstRequest := s_firstRequest tos; sessionTicketDone := sessionTicketDone tos; s_firstResponse := false |}, w, zlen b, err)
  else
    '(w, _, err) ← wr w (app_record b);
    match err with
    | Some e => Ret (tos, w, 0, Some e)
    | None => Ret (tos, w, zlen b, None)
    end.

Definition server_Write {W} `{Writer W} (h : Hello) (tos : TLSObfsServer) (w : W) (b : list Z) : res (TLSObfsServer * W * Z * option string) :=
  write_chunks (server_write h) (S (length b)) tos w b (zlen b).

(** ** Reading *)

(** [read] of either end, with the remainder that it leaves to the field of
    that name, if it sets it. *)
Definition read_record {R} `{Reader R} (r : R) (size discardN : nat) : res (R * list Z * option string * option Z) :=
  '(r, _, err) ← ReadFull r discardN;
  match err with
  | Some e => Ret (r, [], Some e, None)
  | None =>
    '(r, sizeBuf, err) ← ReadFull r 2;
    match err with
    | Some _ => Ret (r, [], None, None)
    | None =>
      length ← go_be 2 sizeBuf;
      if Z.of_nat size <? length then
        '(r, out, err) ← rd r size;
        match err with
        | Some e => Ret (r, out, Some e, None)
        | None => Ret (r, out, None, Some (length - zlen out))
        end
      else
        '(r, out, err) ← ReadFull r (Z.to_nat length);
        Ret (r, out, err, None)
    end
  end.

Definition client_read {R} `{Reader R} (to : TLSObfs) (r : R) (size discardN : nat) : res (TLSObfs * R * list Z * option string) :=
  '(r, out, err, rest) ← read_record r size discardN;
  Ret ({| server := server to; remain := default (remain to) rest; firstRequest := firstRequest to; firstResponse := firstResponse to |}, r, out, err).

Definition client_Read {R} `{Reader R} (to : TLSObfs) (r : R) (size : nat) : res (TLSObfs * R * list Z * option string) :=
  if 0 <? remain to then
    let length := if Z.of_nat size <? remain to then Z.of_nat size else remain to in
    '(r, out, err) ← ReadFull r (Z.to_nat length);
    Ret ({| server := server to; remain := remain to - zlen out; firstRequest := firstRequest to; firstResponse := firstResponse to |}, r, out, err)
  else if firstResponse to then
    client_read {| server := server to; remain := remain to; firstRequest := firstRequest to; firstResponse := false |} r size 105
  else client_read to r size 3.

Definition set_remain (tos : TLSObfsServer) (left : Z) : TLSObfsServer :=
  {| s_remain := left; s_firstRequest := s_firstRequest tos; sessionTicketDone := sessionTicketDone tos; s_firstResponse := s_firstResponse tos |}.

Definition server_read {R} `{Reader R} (tos : TLSObfsServer) (r : R) (size discardN : nat) : res (TLSObfsServer * R * list Z * option string) :=
  '(r, out, err, rest) ← read_record r size discardN;
  Ret (set_remain tos (default (s_remain tos) rest), r, out, err).

Definition skipOtherExts {R} `{Reader R} (tos : TLSObfsServer) (r : R) : res (TLSObfsServer * R * option string) :=
  '(tos, r, _, err) ← server_read tos r 256 7;
  match err with
  | Some e => Ret (tos, r, Some e)
  | None =>
    '(r, _, err) ← ReadFull r (4 * 16 + 2);
    Ret (tos, r, err)
  end.

Definition server_Read {R} `{Reader R} (tos : TLSObfsServer) (r : R) (size : nat) : res (TLSObfsServer * R * list Z * option string) :=
  if 0 <? s_remain tos then
    let length := if Z.of_nat size <? s_remain tos then Z.of_nat size else s_remain tos in
    '(r, out, err) ← ReadFull r (Z.to_nat length);
    Ret (set_remain tos (s_remain tos - zlen out), r, out, err)
  else if s_firstRequest tos then
    server_read {| s_remain := s_remain tos; s_firstRequest := false; sessionTicketDone := sessionTicketDone tos; s_firstResponse := s_firstResponse tos |}
      r size (9 * 16 - 4)
  else if negb (sessionTicketDone tos) then
    let tos := {| s_remain := s_remain tos; s_firstRequest := s_firstRequest tos; sessionTicketDone := true; s_firstResponse := s_firstResponse tos |} in
    '(tos, r, err) ← skipOtherExts tos r;
    match err with
    | Some e => Ret (tos, r, [], Some e)
    | None => server_read tos r size 3
    end
  else server_read tos r size 3.
