(* ===== verification/SimpleObfsExact.v ===== *)
(** * What is written to either end of an obfuscated stream is read at the other *)

From S2P Require Import Prelude GoIo SimpleObfs.

(** ** Messages *)

Definition chunk_ok (p : list Z) : Prop := p ≠ [] /\ zlen p <= chunkSize.

Lemma chunk_len p : chunk_ok p -> 0 < zlen p < 2 ^ 16.
Proof. intros [Hne Hl]. assert (0 < zlen p) by (destruct p; [done|unfold zlen; cbn [length]; lia]). lia. Qed.

Lemma zlen_pos_ne (p : list Z) : 0 < zlen p -> p ≠ [].
Proof. by intros Hp ->. Qed.

Lemma zlen_le_0 (p : list Z) : zlen p <= 0 -> p = [].
Proof. destruct p; [done|]. unfold zlen. cbn [length]. lia. Qed.

(** The parts of a client's hello around the data. *)
Definition hello_tail (server : list Z) : list Z :=
  ([0x00; 0x00] ++ put_be 2 (u16 (zlen server + 5)) ++ put_be 2 (u16 (zlen server + 3)) ++ [0]) ++ put_be 2 (u16 (zlen server)) ++ server ++
  ([0x00; 0x0b; 0x00; 0x04; 0x03; 0x01; 0x00; 0x02] ++
  [0x00; 0x0a; 0x00; 0x0a; 0x00; 0x08; 0x00; 0x1d; 0x00; 0x17; 0x00; 0x19; 0x00; 0x18] ++
  signature_algorithms ++ [0x00; 0x16; 0x00; 0x00] ++ [0x00; 0x17; 0x00; 0x00]).

Lemma client_hello_parts h p srv :
  hello_ok h -> exists D, length D = 140%nat /\ makeClientHelloMsg h p srv = D ++ put_be 2 (u16 (zlen p)) ++ p ++ hello_tail srv.
Proof.
  intros [H1 H2]. unfold makeClientHelloMsg, hello_tail. set (len := u16 (212 + _ + _)).
  exists ([22] ++ [0x03; 0x01] ++ [Z.shiftr len 8; Z.land len 0xff] ++ [1; 0] ++ put_be 2 (u16 (208 + zlen p + zlen srv)) ++ [0x03; 0x03] ++
    put_be 4 (u32 (h_now h)) ++ h_random h ++ [32] ++ h_session h ++ [0x00; 0x38] ++ cipher_suites ++ [0x01; 0x00] ++ put_be 2 (u16 (79 + zlen p + zlen srv)) ++ [0x00; 0x23]).
  split; [|by rewrite <-!app_assoc]. rewrite !length_app, !length_put_be, H1, H2. reflexivity.
Qed.

Lemma server_hello_parts h p :
  hello_ok h -> exists D, length D = 105%nat /\ makeServerHello h p = D ++ put_be 2 (u16 (zlen p)) ++ p.
Proof.
  intros [H1 H2]. unfold makeServerHello.
  exists ([0x16] ++ put_be 2 0x0301 ++ put_be 2 91 ++ [2; 0; 0; 87; 0x03; 0x03] ++ put_be 4 (u32 (h_now h)) ++ h_random h ++ [32] ++ h_session h ++
    [0xcc; 0xa8] ++ [0] ++ [0x00; 0x00] ++ [0xff; 0x01; 0x00; 0x01; 0x00] ++ [0x00; 0x17; 0x00; 0x00] ++ [0x00; 0x0b; 0x00; 0x02; 0x01; 0x00] ++
    [0x14; 0x03; 0x03; 0x00; 0x01; 0x01] ++ [0x16; 0x03; 0x03]).
  split; [|by rewrite <-!app_assoc]. rewrite !length_app, !length_put_be, H1, H2. reflexivity.
Qed.

Definition records (ps : list (list Z)) : list Z := concat (map app_record ps).

(** What is on the wire after the chunks [ps], for the hello of either end. *)
Definition coded (hello : Hello -> list Z -> list Z) (ps : list (list Z)) (X : list Z) : Prop :=
  match ps with
  | [] => X = []
  | p :: ps => exists h, hello_ok h /\ X = hello h p ++ records ps
  end.

Lemma records_snoc ps p : records (ps ++ [p]) = records ps ++ app_record p.
Proof. unfold records. rewrite map_app, concat_app. cbn. by rewrite app_nil_r. Qed.

Lemma coded_snoc hello ps p X : ps ≠ [] -> coded hello ps X -> coded hello (ps ++ [p]) (X ++ app_record p).
Proof. destruct ps as [|q ps]; [done|]. intros _ (h & Hh & ->). exists h. split; [done|]. by rewrite <-app_assoc, records_snoc. Qed.

(** ** Writing *)

Section write_chunks.
  Context {S W : Type} (write : S -> W -> list Z -> res (S * W * Z * option string)).

Lemma write_chunks_inv (inv : S -> W -> list (list Z) -> Prop) fuel s w b L s' w' n ps :
  (forall s w p s' w' n ps, chunk_ok p -> inv s w ps -> write s w p = Ret (s', w', n, None) -> inv s' w' (ps ++ [p])) ->
  inv s w ps -> write_chunks write fuel s w b L = Ret (s', w', n, None) ->
  exists qs, concat qs = b /\ Forall chunk_ok qs /\ inv s' w' (ps ++ qs) /\ n = L.
Proof.
  intros Hw. revert s w b ps. induction fuel as [|fuel IH]; intros s w b ps Hi; cbn [write_chunks]; case_bool_decide as Eb; try done.
  1,2: intros [= <- <- <-]; exists []; by rewrite app_nil_r.
  destruct (write s w _) as [[[[s1 w1] n1] [e|]]| |] eqn:E; cbn [mbind res_bind]; [done| |done..]. intros Hr.
  assert (chunk_ok (take (Z.to_nat chunkSize) b)) as Hc.
  { split; [destruct b; [done|]; by replace (Z.to_nat chunkSize) with (Datatypes.S (Z.to_nat (chunkSize - 1))) by lia|unfold zlen; rewrite length_take; lia]. }
  destruct (IH _ _ _ _ (Hw _ _ _ _ _ _ _ Hc Hi E) Hr) as (qs & Eq & Hq & Hi' & ->). exists (take (Z.to_nat chunkSize) b :: qs).
  split_and!; [cbn [concat]; by rewrite Eq, take_drop|by constructor|by rewrite <-app_assoc in Hi'|done].
Qed.

(** The loop ends. *)
Lemma write_chunks_total fuel s w b L :
  (forall s w p, exists x, write s w p = Ret x) -> (length b < fuel)%nat -> exists x, write_chunks write fuel s w b L = Ret x.
Proof.
  intros Hw. revert s w b. induction fuel as [|fuel IH]; intros s w b Hf; [lia|]. cbn [write_chunks]. case_bool_decide as Eb; [by eexists|].
  destruct (Hw s w (take (Z.to_nat chunkSize) b)) as [[[[s1 w1] n1] [e|]] ->]; cbn [mbind res_bind]; [by eexists|]. apply IH.
  rewrite length_drop. destruct b; [done|]. cbn [length] in *. lia.
Qed.
End write_chunks.

Section writes.
  Context {W : Type} `{WriterLaws W}.

(** Writes of either end, up to the first error. *)
Fixpoint client_Writes (to : TLSObfs) (w : W) (ps : list (Hello * list Z)) : res (TLSObfs * W * option string) :=
  match ps with
  | [] => Ret (to, w, None)
  | (h, p) :: ps =>
    '(to, w, _, err) ← client_Write h to w p;
    match err with
    | Some e => Ret (to, w, Some e)
    | None => client_Writes to w ps
    end
  end.

Fixpoint server_Writes (tos : TLSObfsServer) (w : W) (ps : list (Hello * list Z)) : res (TLSObfsServer * W * option string) :=
  match ps with
  | [] => Ret (tos, w, None)
  | (h, p) :: ps =>
    '(tos, w, _, err) ← server_Write h tos w p;
    match err with
    | Some e => Ret (tos, w, Some e)
    | None => server_Writes tos w ps
    end
  end.

Definition client_sent (srv : list Z) (to : TLSObfs) (w : W) (ps : list (list Z)) : Prop :=
  server to = srv /\ firstRequest to = bool_decide (ps = []) /\ exists X, wrote w X /\ coded (fun h p => makeClientHelloMsg h p srv) ps X.

Definition server_sent (tos : TLSObfsServer) (w : W) (ps : list (list Z)) : Prop :=
  s_firstResponse tos = bool_decide (ps = []) /\ exists X, wrote w X /\ coded makeServerHello ps X.

Lemma client_write_sent srv h to w p to' w' n ps :
  hello_ok h -> client_sent srv to w ps -> client_write h to w p = Ret (to', w', n, None) -> client_sent srv to' w' (ps ++ [p]).
Proof.
  intros Hh (Hs & Hf & X & HX & Hc). unfold client_write, client_sent. rewrite Hf. case_bool_decide as E; [subst ps|].
  - destruct (wr w _) as [[[w1 m] err]| |] eqn:Ew; cbn [mbind res_bind]; [|done..]. intros [= <- <- _ ->]. split_and!; [done|done|].
    eexists. split; [by eapply wr_wrote|]. cbn in Hc. subst X. exists h. split; [done|]. by rewrite Hs, app_nil_l, app_nil_r.
  - destruct (wr w _) as [[[w1 m] err]| |] eqn:Ew; cbn [mbind res_bind]; [|done..]. intros [= <- <- _ ->].
    split_and!; [done|rewrite Hf; by destruct ps|]. eexists. split; [by eapply wr_wrote|]. by apply coded_snoc.
Qed.

Lemma server_write_sent h tos w p tos' w' n ps :
  hello_ok h -> server_sent tos w ps -> server_write h tos w p = Ret (tos', w', n, None) -> server_sent tos' w' (ps ++ [p]).
Proof.
  intros Hh (Hf & X & HX & Hc). unfold server_write, server_sent. rewrite Hf. case_bool_decide as E; [subst ps|].
  - destruct (wr w _) as [[[w1 m] err]| |] eqn:Ew; cbn [mbind res_bind]; [|done..]. intros [= <- <- _ ->]. split_and!; [done|].
    eexists. split; [by eapply wr_wrote|]. cbn in Hc. subst X. exists h. split; [done|]. by rewrite app_nil_l, app_nil_r.
  - destruct (wr w _) as [[[w1 m] err]| |] eqn:Ew; cbn [mbind res_bind]; [|done..]. destruct err; [done|]. intros [= <- <- _].
    split_and!; [rewrite Hf; by destruct ps|]. eexists. split; [by eapply wr_wrote|]. by apply coded_snoc.
Qed.

Lemma client_Writes_sent srv to w up to' w' ps :
  Forall (fun hp => hello_ok hp.1) up -> client_sent srv to w ps -> client_Writes to w up = Ret (to', w', None) ->
  exists qs, concat qs = concat (map snd up) /\ Forall chunk_ok qs /\ client_sent srv to' w' (ps ++ qs).
Proof.
  intros Hup. revert to w ps. induction Hup as [|[h p] up Hh Hup IH]; intros to w ps Hs; cbn [client_Writes map concat snd].
  - intros [= <- <-]. exists []. by rewrite app_nil_r.
  - unfold client_Write. destruct (write_chunks _ _ _ _ _ _) as [[[[to1 w1] n] [e|]]| |] eqn:E; cbn [mbind res_bind]; [done| |done..]. intros Hr.
    destruct (write_chunks_inv _ (client_sent srv) _ _ _ _ _ _ _ _ ps (fun s w p s' w' n ps _ => client_write_sent srv h s w p s' w' n ps Hh) Hs E) as (qs & Eq & Hq & Hs1 & _).
    destruct (IH _ _ _ Hs1 Hr) as (rs & Er & Hr' & Hs2). exists (qs ++ rs). rewrite concat_app, Eq, Er, app_assoc. by split_and!; [|apply Forall_app|].
Qed.

Lemma server_Writes_sent tos w down tos' w' ps :
  Forall (fun hp => hello_ok hp.1) down -> server_sent tos w ps -> server_Writes tos w down = Ret (tos', w', None) ->
  exists qs, concat qs = concat (map snd down) /\ Forall chunk_ok qs /\ server_sent tos' w' (ps ++ qs).
Proof.
  intros Hup. revert tos w ps. induction Hup as [|[h p] up Hh Hup IH]; intros to w ps Hs; cbn [server_Writes map concat snd].
  - intros [= <- <-]. exists []. by rewrite app_nil_r.
  - unfold server_Write. destruct (write_chunks _ _ _ _ _ _) as [[[[to1 w1] n] [e|]]| |] eqn:E; cbn [mbind res_bind]; [done| |done..]. intros Hr.
    destruct (write_chunks_inv _ server_sent _ _ _ _ _ _ _ _ ps (fun s w p s' w' n ps _ => server_write_sent h s w p s' w' n ps Hh) Hs E) as (qs & Eq & Hq & Hs1 & _).
    destruct (IH _ _ _ Hs1 Hr) as (rs & Er & Hr' & Hs2). exists (qs ++ rs). rewrite concat_app, Eq, Er, app_assoc. by split_and!; [|apply Forall_app|].
Qed.
End writes.

(** ** Reading *)

Section reads.
  Context {R : Type} `{ReaderLaws R}.

(** The part of a record up to its data. *)
Lemma read_record_head (D p Y : list Z) (r : R) e size n :
  yields r (D ++ put_be 2 (u16 (zlen p)) ++ p ++ Y) e -> length D = n -> zlen p < 2 ^ 16 ->
  exists r', yields r' (p ++ Y) e /\ read_record r size n =
    if Z.of_nat size <? zlen p then
      '(r, out, err) ← rd r' size;
      match err with
      | Some e => Ret (r, out, Some e, None)
      | None => Ret (r, out, None, Some (zlen p - zlen out))
      end
    else '(r, out, err) ← ReadFull r' (length p); Ret (r, out, err, None).
Proof.
  intros Hy HD Hp. pose proof (zlen_nonneg p). rewrite u16_id in Hy by (unfold is_u16; lia). unfold read_record.
  destruct (ReadFull_ok r n _ e Hy) as (r1 & -> & Hy1); [rewrite length_app; lia|]. cbn [mbind res_bind].
  rewrite drop_app_length' in Hy1 by done. destruct (ReadFull_ok r1 2 _ e Hy1) as (r2 & -> & Hy2); [rewrite length_app, length_put_be; lia|]. cbn [mbind res_bind].
  rewrite take_app_length' by (by rewrite length_put_be). rewrite drop_app_length' in Hy2 by (by rewrite length_put_be).
  rewrite go_be_whole by lia. cbn [mbind res_bind]. exists r2. split; [done|]. replace (Z.to_nat (zlen p)) with (length p) by (unfold zlen; lia). done.
Qed.

Lemma read_record_ok D p Y (r : R) e size n :
  yields r (D ++ put_be 2 (u16 (zlen p)) ++ p ++ Y) e -> length D = n -> 0 < zlen p < 2 ^ 16 -> (0 < size)%nat ->
  exists r' out rest p', read_record r size n = Ret (r', out, None, rest) /\ out ≠ [] /\ (length out <= size)%nat /\
    p = out ++ p' /\ yields r' (p' ++ Y) e /\ default 0 rest = zlen p'.
Proof.
  intros Hy HD Hp Hs. destruct (read_record_head D p Y r e size n Hy HD) as (r1 & Hy1 & ->); [lia|]. destruct (Z.of_nat size <? zlen p) eqn:E.
  - destruct (rd_yields r1 _ e size Hy1 Hs) as (r2 & out & err & -> & Hr). cbn [mbind res_bind]. destruct err as [e'|].
    { destruct Hr as [Hn _]. apply app_eq_nil in Hn as [-> _]. destruct Hp as [Hp _]. by cbv in Hp. }
    destruct Hr as (Hne & Hl & X' & EX & Hy2). assert (p = out ++ drop (length out) p) as Ep.
    { rewrite <-(take_drop (length out) p) at 1. f_equal. rewrite <-(take_app_le p Y), EX by (unfold zlen in *; lia). apply take_app_length. }
    exists r2, out, (Some (zlen p - zlen out)), (drop (length out) p). split_and!; try done.
    + assert (X' = drop (length out) p ++ Y) as <-; [|done]. rewrite Ep, <-app_assoc in EX. by apply app_inv_head in EX.
    + cbn. unfold zlen. rewrite length_drop. unfold zlen in *. lia.
  - destruct (ReadFull_ok r1 (length p) _ e Hy1) as (r2 & -> & Hy2); [rewrite length_app; lia|]. cbn [mbind res_bind].
    rewrite take_app_length. rewrite drop_app_length in Hy2. exists r2, p, None, []. split_and!; [done|apply zlen_pos_ne; lia|unfold zlen in *; lia|by rewrite app_nil_r|done|done].
Qed.

Lemma read_record_whole D p Y (r : R) e size n :
  yields r (D ++ put_be 2 (u16 (zlen p)) ++ p ++ Y) e -> length D = n -> zlen p <= Z.of_nat size -> zlen p < 2 ^ 16 ->
  exists r', read_record r size n = Ret (r', p, None, None) /\ yields r' Y e.
Proof.
  intros Hy HD Hp Hp'. destruct (read_record_head D p Y r e size n Hy HD Hp') as (r1 & Hy1 & ->). rewrite (proj2 (Z.ltb_ge _ _)) by lia.
  destruct (ReadFull_ok r1 (length p) _ e Hy1) as (r2 & -> & Hy2); [rewrite length_app; lia|]. cbn [mbind res_bind].
  rewrite take_app_length. rewrite drop_app_length in Hy2. by exists r2.
Qed.

Lemma read_record_end (r : R) e size n :
  yields r [] e -> (0 < n)%nat -> exists r', read_record r size n = Ret (r', [], Some e, None) /\ yields r' [] e.
Proof. intros Hy Hn. unfold read_record. destruct (ReadFull_end r n e Hy Hn) as (r1 & -> & Hy1). cbn [mbind res_bind]. by exists r1. Qed.

(** What is left of a record is read up to the end of the record. *)
Lemma remain_ok p Y (r : R) e size :
  yields r (p ++ Y) e -> p ≠ [] -> (0 < size)%nat ->
  exists r' out p', ReadFull r (Z.to_nat (if Z.of_nat size <? zlen p then Z.of_nat size else zlen p)) = Ret (r', out, None) /\ out ≠ [] /\ (length out <= size)%nat /\
    p = out ++ p' /\ yields r' (p' ++ Y) e /\ zlen p - zlen out = zlen p'.
Proof.
  intros Hy Hp Hs. set (k := Z.to_nat _). assert (0 < k <= size /\ k <= length p)%nat as [Hk1 Hk2].
  { unfold k. assert (0 < length p)%nat by (destruct p; [done|cbn; lia]). destruct (Z.of_nat size <? zlen p) eqn:E; unfold zlen in *; lia. }
  clearbody k. destruct (ReadFull_ok r k _ e Hy) as (r1 & -> & Hy1); [rewrite length_app; lia|]. rewrite take_app_le by lia. rewrite drop_app_le in Hy1 by lia.
  exists r1, (take k p), (drop k p). split_and!; [done|intros E; apply (f_equal length) in E; rewrite length_take in E; cbn in E; lia|rewrite length_take; lia|by rewrite take_drop|done|].
  unfold zlen. rewrite length_take, length_drop. lia.
Qed.
End reads.

(** ** Both ends as readers *)

Section ends.
  Context {R : Type} `{ReaderLaws R}.

#[export] Instance client_reader : Reader (TLSObfs * R) := fun '(to, r) size =>
  '(to, r, out, err) ← client_Read to r size;
  Ret ((to, r), out, err).

#[export] Instance server_reader : Reader (TLSObfsServer * R) := fun '(tos, r) size =>
  '(tos, r, out, err) ← server_Read tos r size;
  Ret ((tos, r), out, err).

(** The wire from the rest [p] of a record on, for a client that has to see the
    chunks [ps]. *)
Definition client_yields (x : TLSObfs * R) (X : list Z) (e : string) : Prop :=
  exists p ps Y, X = p ++ concat ps /\ Forall chunk_ok ps /\ remain x.1 = zlen p /\ yields x.2 (p ++ Y) e /\
    if firstResponse x.1 then p = [] /\ coded makeServerHello ps Y else Y = records ps.

(** For a server: before the hello, in or after its data, and after its end; an
    end of the stream at one of these is an end of the data. *)
Definition server_yields (srv : list Z) (x : TLSObfsServer * R) (X : list Z) (e : string) : Prop :=
  exists p ps Y, X = p ++ concat ps /\ Forall chunk_ok ps /\ s_remain x.1 = zlen p /\ yields x.2 (p ++ Y) e /\
    if s_firstRequest x.1 then p = [] /\ sessionTicketDone x.1 = false /\ coded (fun h p => makeClientHelloMsg h p srv) ps Y
    else if sessionTicketDone x.1 then Y = records ps
    else Y = hello_tail srv ++ records ps \/ p = [] /\ ps = [] /\ Y = [].

(** A read of the next application record. *)
Lemma next_record ps (r : R) e size :
  Forall chunk_ok ps -> yields r (records ps) e -> (0 < size)%nat ->
  exists r' out err rest, read_record r size 3 = Ret (r', out, err, rest) /\
    match err with
    | Some e' => ps = [] /\ out = [] /\ e' = e /\ rest = None /\ yields r' [] e
    | None => out ≠ [] /\ (length out <= size)%nat /\ exists p' qs, concat ps = out ++ p' ++ concat qs /\ Forall chunk_ok qs /\ default 0 rest = zlen p' /\ yields r' (p' ++ records qs) e
    end.
Proof.
  intros Hps Hy Hs. destruct Hps as [|p ps Hp Hps].
  - destruct (read_record_end r e size 3 Hy) as (r1 & -> & Hy1); [lia|]. by exists r1, [], (Some e), None.
  - unfold records in Hy. cbn [map concat] in Hy. unfold app_record in Hy at 1. rewrite <-!app_assoc in Hy.
    destruct (read_record_ok [0x17; 0x03; 0x03] p _ r e size 3 Hy eq_refl (chunk_len p Hp) Hs) as (r1 & out & rest & p' & -> & Hne & Hl & -> & Hy1 & Hrest).
    exists r1, out, None, rest. split; [done|]. split_and!; [done|done|]. exists p', ps. cbn [concat]. by rewrite <-app_assoc.
Qed.

#[export] Instance client_laws : ReaderLaws (TLSObfs * R).
Proof.
  refine {| yields := client_yields |}.
  intros [to r] X e size (p & ps & Y & -> & Hps & Hrem & Hy & Hst) Hs. cbn [fst snd] in *. cbn [rd client_reader]. unfold client_Read. rewrite Hrem.
  destruct (0 <? zlen p) eqn:Ep.
  { assert (p ≠ []) as Hp by (apply zlen_pos_ne; lia). assert (firstResponse to = false) as Ef by (destruct (firstResponse to); [by destruct Hst|done]). rewrite Ef in *.
    destruct (remain_ok p Y r e size Hy Hp Hs) as (r1 & out & p' & -> & Hne & Hl & Epp & Hy1 & Hz). cbn [mbind res_bind]. eexists _, out, None. split; [done|].
    split_and!; [done|done|]. exists (p' ++ concat ps). split; [by rewrite Epp, <-app_assoc|]. exists p', ps, Y. cbn [fst snd remain firstResponse]. done. }
  assert (p = []) as -> by (apply zlen_le_0; lia). cbn [app] in *. change (zlen []) with 0 in Hrem.
  destruct (firstResponse to) eqn:Ef.
  - destruct Hst as [_ Hc]. unfold client_read. destruct Hps as [|p ps Hp Hps]; cbn [coded] in Hc.
    + subst Y. destruct (read_record_end r e size 105 Hy) as (r1 & -> & Hy1); [lia|]. cbn [mbind res_bind]. eexists _, [], (Some e). split; [done|].
      split_and!; [done..|]. exists [], [], []. done.
    + destruct Hc as (h & Hh & ->). destruct (server_hello_parts h p Hh) as (D & HD & E). rewrite E, <-!app_assoc in Hy.
      destruct (read_record_ok D p _ r e size 105 Hy HD (chunk_len p Hp) Hs) as (r1 & out & rest & p' & -> & Hne & Hl & -> & Hy1 & Hrest). cbn [mbind res_bind].
      eexists _, out, None. split; [done|]. split_and!; [done|done|]. exists (p' ++ concat ps). split; [cbn [concat]; by rewrite <-app_assoc|].
      exists p', ps, (records ps). done.
  - subst Y. unfold client_read. destruct (next_record ps r e size Hps Hy Hs) as (r1 & out & err & rest & -> & Hr). cbn [mbind res_bind].
    eexists _, out, err. split; [done|]. destruct err as [e'|].
    + destruct Hr as (-> & -> & -> & -> & Hy1). split_and!; [done..|]. exists [], [], []. by rewrite Ef.
    + destruct Hr as (Hne & Hl & p' & qs & E & Hqs & Hrest & Hy1). split_and!; [done|done|]. exists (p' ++ concat qs). split; [done|].
      exists p', qs, (records qs). cbn [fst snd remain firstResponse]. by rewrite Hrem, Ef.
Defined.

(** The rest of the hello is skipped. *)
Lemma skip_tail srv Y tos (r : R) e :
  zlen srv <= 256 -> yields r (hello_tail srv ++ Y) e -> exists r', skipOtherExts tos r = Ret (tos, r', None) /\ yields r' Y e.
Proof.
  intros Hsrv Hy. unfold hello_tail in Hy. rewrite <-!(app_assoc _ _ Y) in Hy. unfold skipOtherExts, server_read.
  match type of Hy with yields _ (?D ++ put_be 2 _ ++ _ ++ ?T) _ => destruct (read_record_whole D srv T r e 256 7 Hy) as (r1 & -> & Hy1) end;
    [by rewrite !length_app, !length_put_be|lia|lia|]. cbn [mbind res_bind].
  rewrite !app_assoc in Hy1.
  destruct (ReadFull_ok r1 (4 * 16 + 2) _ e Hy1) as (r2 & -> & Hy2); [rewrite length_app; cbn; lia|]. cbn [mbind res_bind].
  rewrite drop_app_length' in Hy2 by reflexivity. exists r2. split; [|done]. by destruct tos.
Qed.

Lemma skip_end tos (r : R) e : yields r [] e -> exists r', skipOtherExts tos r = Ret (tos, r', Some e) /\ yields r' [] e.
Proof.
  intros Hy. unfold skipOtherExts, server_read. destruct (read_record_end r e 256 7 Hy) as (r1 & -> & Hy1); [lia|]. cbn [mbind res_bind].
  exists r1. split; [|done]. by destruct tos.
Qed.

Lemma server_record tos ps (r : R) e size srv :
  s_remain tos = 0 -> s_firstRequest tos = false -> sessionTicketDone tos = true -> Forall chunk_ok ps -> yields r (records ps) e -> (0 < size)%nat ->
  exists tos' r' out err, server_read tos r size 3 = Ret (tos', r', out, err) /\
    match err with
    | Some e' => ps = [] /\ out = [] /\ e' = e /\ server_yields srv (tos', r') [] e
    | None => out ≠ [] /\ (length out <= size)%nat /\ exists X, concat ps = out ++ X /\ server_yields srv (tos', r') X e
    end.
Proof.
  intros Hrem Hf Hd Hps Hy Hs. unfold server_read. destruct (next_record ps r e size Hps Hy Hs) as (r1 & out & err & rest & -> & Hr). cbn [mbind res_bind].
  eexists _, r1, out, err. split; [done|]. unfold server_yields. cbn [fst snd set_remain s_remain s_firstRequest sessionTicketDone]. rewrite Hrem, Hf, Hd.
  destruct err as [e'|].
  - destruct Hr as (-> & -> & -> & -> & Hy1). split_and!; [done..|]. by exists [], [], [].
  - destruct Hr as (Hne & Hl & p' & qs & E & Hqs & Hrest & Hy1). split_and!; [done|done|]. exists (p' ++ concat qs). split; [done|]. by exists p', qs, (records qs).
Qed.

Lemma server_rd srv (x : TLSObfsServer * R) X e size :
  zlen srv <= 256 -> server_yields srv x X e -> (0 < size)%nat ->
  exists x' out err, rd x size = Ret (x', out, err) /\
    match err with
    | Some e' => X = [] /\ out = [] /\ e' = e /\ server_yields srv x' [] e
    | None => out ≠ [] /\ (length out <= size)%nat /\ exists X', X = out ++ X' /\ server_yields srv x' X' e
    end.
Proof.
  intros Hsrv. destruct x as [tos r]. intros (p & ps & Y & -> & Hps & Hrem & Hy & Hst) Hs. cbn [fst snd] in *. cbn [rd server_reader]. unfold server_Read. rewrite Hrem.
  destruct (0 <? zlen p) eqn:Ep.
  { assert (p ≠ []) as Hp by (apply zlen_pos_ne; lia).
    destruct (remain_ok p Y r e size Hy Hp Hs) as (r1 & out & p' & -> & Hne & Hl & Epp & Hy1 & Hz). cbn [mbind res_bind]. eexists _, out, None. split; [done|].
    split_and!; [done|done|]. exists (p' ++ concat ps). split; [by rewrite Epp, <-app_assoc|]. exists p', ps, Y. cbn [fst snd set_remain s_remain s_firstRequest sessionTicketDone].
    split_and!; try done. destruct (s_firstRequest tos); [by destruct Hst|]. destruct (sessionTicketDone tos); [done|]. destruct Hst as [?|[? _]]; [by left|done]. }
  assert (p = []) as -> by (apply zlen_le_0; lia). cbn [app] in *. change (zlen []) with 0 in *. clear Ep.
  destruct (s_firstRequest tos) eqn:Ef; [|destruct (sessionTicketDone tos) eqn:Ed; cbn [negb]].
  - destruct Hst as (_ & Hd & Hc). unfold server_read. destruct Hps as [|p ps Hp Hps]; cbn [coded] in Hc.
    + subst Y. destruct (read_record_end r e size (9 * 16 - 4) Hy) as (r1 & -> & Hy1); [cbn; lia|]. cbn [mbind res_bind]. eexists _, [], (Some e). split; [done|].
      split_and!; [done..|]. exists [], [], []. cbn [fst snd set_remain s_remain s_firstRequest sessionTicketDone]. rewrite Hd. split_and!; try done. by right.
    + destruct Hc as (h & Hh & ->). destruct (client_hello_parts h p srv Hh) as (D & HD & E). rewrite E, <-!app_assoc in Hy.
      destruct (read_record_ok D p _ r e size (9 * 16 - 4) Hy HD (chunk_len p Hp) Hs) as (r1 & out & rest & p' & -> & Hne & Hl & -> & Hy1 & Hrest). cbn [mbind res_bind].
      eexists _, out, None. split; [done|]. split_and!; [done|done|]. exists (p' ++ concat ps). split; [cbn [concat]; by rewrite <-app_assoc|].
      exists p', ps, (hello_tail srv ++ records ps). cbn [fst snd set_remain s_remain s_firstRequest sessionTicketDone]. rewrite Hd. split_and!; try done. by left.
  - subst Y. destruct (server_record tos ps r e size srv Hrem Ef Ed Hps Hy Hs) as (tos' & r1 & out & err & -> & Hr). cbn [mbind res_bind].
    eexists _, out, err. split; [done|]. destruct err; [|done]. destruct Hr as (-> & Hr). done.
  - set (tos1 := {| s_remain := _ |}). destruct Hst as [->|(_ & -> & ->)].
    + destruct (skip_tail srv _ tos1 r e Hsrv Hy) as (r1 & -> & Hy1). cbn [mbind res_bind].
      destruct (server_record tos1 ps r1 e size srv eq_refl eq_refl eq_refl Hps Hy1 Hs) as (tos' & r2 & out & err & -> & Hr). cbn [mbind res_bind].
      eexists _, out, err. split; [done|]. destruct err; [|done]. destruct Hr as (-> & Hr). done.
    + destruct (skip_end tos1 r e Hy) as (r1 & -> & Hy1). cbn [mbind res_bind]. eexists _, [], (Some e). split; [done|]. split_and!; [done..|].
      by exists [], [], [].
Qed.

#[export] Instance server_laws : ReaderLaws (TLSObfsServer * R).
Proof.
  refine {| yields := fun x X e => exists srv, zlen srv <= 256 /\ server_yields srv x X e |}.
  intros x X e size (srv & Hsrv & Hy) Hs. destruct (server_rd srv x X e size Hsrv Hy Hs) as (x' & out & err & E & Hr). exists x', out, err. split; [done|].
  destruct err as [e'|]; [destruct Hr as (? & ? & ? & ?)|destruct Hr as (? & ? & X' & ? & ?)]; split_and!; try done; [by exists srv|exists X'; split; [done|by exists srv]].
Defined.
End ends.

(** C32: what a client writes, when its writes succeed, is read by the server,
    and what the server writes by the client, whatever the messages draw from the
    random source, however the network cuts the streams and whatever the sizes
    of the reads: each read gives at least a byte of it, in order, and the end of
    the stream comes after all of it. *)
Theorem tls_obfs_exact {W R} `{WriterLaws W} `{ReaderLaws R} srv (up down : list (Hello * list Z)) to' tos' (w w1 v v1 : W) :
  zlen srv <= 256 -> Forall (fun hp => hello_ok hp.1) up -> Forall (fun hp => hello_ok hp.1) down -> wrote w [] -> wrote v [] ->
  client_Writes (NewTLSObfs srv) w up = Ret (to', w1, None) -> server_Writes NewTLSObfsServer v down = Ret (tos', v1, None) ->
  exists X Y, wrote w1 X /\ wrote v1 Y /\
  forall (r q : R) e sizes, yields r X e -> yields q Y e -> Forall (fun n => (0 < n)%nat) sizes ->
  exists x out err, Reads (NewTLSObfsServer, r) sizes = Ret (x, out, err) /\
    (err = None /\ out `prefix_of` concat (map snd up) /\ (length sizes <= length out)%nat \/ err = Some e /\ out = concat (map snd up)) /\
  exists y out' err', Reads (NewTLSObfs srv, q) sizes = Ret (y, out', err') /\
    (err' = None /\ out' `prefix_of` concat (map snd down) /\ (length sizes <= length out')%nat \/ err' = Some e /\ out' = concat (map snd down)).
Proof.
  intros Hsrv Hup Hdown Hw Hv Hcw Hsw.
  destruct (client_Writes_sent srv (NewTLSObfs srv) w up to' w1 [] Hup) as (ps & Ep & Hps & _ & _ & X & HX & HcX); [split; [done|split; [done|by exists []]]|exact Hcw|].
  destruct (server_Writes_sent NewTLSObfsServer v down tos' v1 [] Hdown) as (qs & Eq & Hqs & _ & Y & HY & HcY); [split; [done|by exists []]|exact Hsw|].
  exists X, Y. split_and!; [done|done|]. intros r q e sizes Hr Hq Hsz.
  destruct (Reads_ok (NewTLSObfsServer, r) sizes (concat ps) e) as (x & out & err & E1 & K1); [|done|].
  { exists srv. split; [done|]. by exists [], ps, X. }
  destruct (Reads_ok (NewTLSObfs srv, q) sizes (concat qs) e) as (y & out' & err' & E2 & K2); [|done|]; [by exists [], qs, Y|].
  rewrite Ep in K1. rewrite Eq in K2. exists x, out, err. split_and!; [done|done|]. by exists y, out', err'.
Qed.
