(* ===== verification/SimpleObfsHttp.v ===== *)
(** * Answers in the shape of HTTP
    (src/transport/simple-obfs: http.go, http_server.go)

    The server puts the header of a response before its first write; the client
    takes everything up to the blank line off its first read. *)

From S2P Require Import Prelude GoIo GoText.

Definition crlf : list Z := [13; 10].

(** [httpResponseTemplate], filled in. *)
Definition response_lines (vMajor vMinor : Z) (date key : text) : list text :=
  [ bytes_of "HTTP/1.1 101 Switching Protocols";
    bytes_of "Server: nginx/1." ++ FormatInt vMajor ++ bytes_of "." ++ FormatInt vMinor;
    bytes_of "Date: " ++ date;
    bytes_of "Upgrade: websocket";
    bytes_of "Connection: Upgrade";
    bytes_of "Sec-WebSocket-Accept: " ++ key ].

Definition httpResponse (vMajor vMinor : Z) (date key : text) : list Z :=
  concat (map (fun l => l ++ crlf) (response_lines vMajor vMinor date key)) ++ crlf.

Record HTTPObfsServer := { hos_firstResponse : bool }.

Definition hos_Write {W} `{Writer W} (vMajor vMinor : Z) (date key : text) (hos : HTTPObfsServer) (w : W) (b : list Z)
  : res (HTTPObfsServer * W * Z * option string) :=
  if hos_firstResponse hos then
    '(w, _, err) ← wr w (httpResponse vMajor vMinor date key);
    match err with
    | Some e => Ret (hos, w, 0, Some e)
    | None => '(w, n, err) ← wr w b; Ret ({| hos_firstResponse := false |}, w, n, err)
    end
  else '(w, n, err) ← wr w b; Ret (hos, w, n, err).

(** [bytes.Index] *)
Fixpoint bytes_Index (s sep : list Z) : option nat :=
  if HasPrefix s sep then Some 0%nat
  else match s with
       | [] => None
       | _ :: s => n ← bytes_Index s sep; Some (S n)
       end.

Record HTTPObfs := { ho_buf : option (list Z); ho_offset : nat; ho_firstResponse : bool }.

Definition NewHTTPObfs : HTTPObfs := {| ho_buf := None; ho_offset := 0; ho_firstResponse := true |}.

(** [HTTPObfs.Read]; the buffer of the first read is of [BufferSize] bytes. *)
Definition ho_Read {R} `{Reader R} (BufferSize : nat) (ho : HTTPObfs) (r : R) (size : nat) : res (HTTPObfs * R * list Z * option string) :=
  match ho_buf ho with
  | Some buf =>
    let out := take size (drop (ho_offset ho) buf) in
    let offset := (ho_offset ho + length out)%nat in
    Ret ({| ho_buf := if (offset =? length buf)%nat then None else Some buf; ho_offset := offset; ho_firstResponse := ho_firstResponse ho |}, r, out, None)
  | None =>
    if ho_firstResponse ho then
      '(r, buf, err) ← rd r BufferSize;
      match err with
      | Some e => Ret (ho, r, [], Some e)
      | None =>
        match bytes_Index buf [13; 10; 13; 10] with
        | None => Ret (ho, r, [], Some EOF)
        | Some idx =>
          let data := drop (idx + 4) buf in
          let out := take size data in
          Ret (if (length out <? length data)%nat
               then {| ho_buf := Some (take (idx + 4 + length data) buf); ho_offset := idx + 4 + length out; ho_firstResponse := false |}
               else {| ho_buf := None; ho_offset := ho_offset ho; ho_firstResponse := false |}, r, out, None)
        end
      end
    else
      '(r, out, err) ← rd r size;
      Ret (ho, r, out, err)
  end.

(** ** The end of the header *)

Definition line_ok (l : text) : Prop := l ≠ [] /\ Forall (fun c => c ≠ 13) l.

Lemma Index_line l s : Forall (fun c => c ≠ 13) l -> bytes_Index (l ++ s) [13; 10; 13; 10] = n ← bytes_Index s [13; 10; 13; 10]; Some (length l + n)%nat.
Proof.
  induction 1 as [|c l Hc _ IH]; cbn [app length plus]; [by destruct (bytes_Index s _)|].
  cbn [bytes_Index]. unfold HasPrefix. rewrite bool_decide_eq_false_2 by (by intros [= ?]).
  rewrite IH. by destruct (bytes_Index s _).
Qed.

Lemma Index_crlf c s : c ≠ 13 -> bytes_Index (crlf ++ c :: s) [13; 10; 13; 10] = n ← bytes_Index (c :: s) [13; 10; 13; 10]; Some (2 + n)%nat.
Proof.
  intros Hc. cbn [app crlf bytes_Index]. unfold HasPrefix at 1. rewrite bool_decide_eq_false_2 by (by intros [= ?]).
  unfold HasPrefix at 1. rewrite bool_decide_eq_false_2 by (by intros [= ?]). by destruct (if HasPrefix (c :: s) _ then _ else _).
Qed.

(** The blank line after lines is found where it is. *)
Lemma Index_lines ls s :
  ls ≠ [] -> Forall line_ok ls ->
  let header := concat (map (fun l => l ++ crlf) ls) ++ crlf in
  bytes_Index (header ++ s) [13; 10; 13; 10] = Some (length header - 4)%nat /\ (4 <= length header)%nat.
Proof.
  intros Hne Hls. induction Hls as [|l ls [Hl Hc] Hls IH]; [done|]. cbn zeta. cbn [map concat]. destruct ls as [|l2 ls].
  - cbn [map concat]. rewrite app_nil_r, <-!app_assoc, Index_line by done. change (bytes_Index (crlf ++ crlf ++ s) _) with (Some 0%nat).
    cbn [mbind option_bind]. rewrite !length_app. cbn [length crlf]. split; [f_equal; lia|lia].
  - destruct IH as [E Hle]; [done|]. clear Hne. apply Forall_cons in Hls as [[H2 H3] _]. destruct l2 as [|c l2]; [done|]. apply Forall_cons in H3 as [H3 _].
    set (rest := concat (map (fun l => l ++ crlf) ((c :: l2) :: ls)) ++ crlf) in *.
    assert (exists t, rest ++ s = c :: t) as [t Et] by (unfold rest; cbn [map concat app]; by eexists).
    replace ((((l ++ crlf) ++ concat (map (fun l => l ++ crlf) ((c :: l2) :: ls))) ++ crlf) ++ s) with (l ++ crlf ++ rest ++ s) by (unfold rest; by rewrite <-!app_assoc).
    replace (((l ++ crlf) ++ concat (map (fun l => l ++ crlf) ((c :: l2) :: ls))) ++ crlf) with (l ++ crlf ++ rest) by (unfold rest; by rewrite <-!app_assoc).
    clearbody rest. rewrite Index_line, Et, Index_crlf, <-Et, E by done. cbn [mbind option_bind]. rewrite !length_app. cbn [length crlf]. split; [f_equal; lia|lia].
Qed.

Lemma FormatInt_plain n : 0 <= n -> Forall (fun c => c ≠ 13) (FormatInt n).
Proof.
  unfold FormatInt. generalize 20%nat as fuel. intros fuel. revert n. induction fuel as [|fuel IH]; intros n Hn; cbn [digits]; [constructor|].
  pose proof (Z.mod_pos_bound n 10). destruct (_ <? _); [apply Forall_singleton; lia|]. apply Forall_app. split; [|apply Forall_singleton; lia]. apply IH. by apply Z.div_pos.
Qed.

Lemma httpResponse_Index vMajor vMinor date key s :
  0 <= vMajor -> 0 <= vMinor -> Forall (fun c => c ≠ 13) date -> Forall (fun c => c ≠ 13) key ->
  bytes_Index (httpResponse vMajor vMinor date key ++ s) [13; 10; 13; 10] = Some (length (httpResponse vMajor vMinor date key) - 4)%nat /\
  (4 <= length (httpResponse vMajor vMinor date key))%nat.
Proof.
  intros H1 H2 Hd Hk. apply Index_lines; [done|]. apply FormatInt_plain in H1, H2.
  repeat constructor; try done; rewrite ?Forall_app; split_and?; try done; by repeat constructor.
Qed.

(** ** Reading *)

(** What the client has still to give: what it holds of the first read, and the
    connection's. *)
Definition ho_yields {R} `{ReaderLaws R} (ho : HTTPObfs) (r : R) (X : list Z) (e : string) : Prop :=
  ho_firstResponse ho = false /\ exists held Y, X = held ++ Y /\ yields r Y e /\
  match ho_buf ho with
  | Some buf => drop (ho_offset ho) buf = held /\ held ≠ []
  | None => held = []
  end.

Section reads.
  Context {R : Type} `{ReaderLaws R} (BufferSize : nat).

Lemma ho_Read_ok ho (r : R) X e size :
  ho_yields ho r X e -> (0 < size)%nat ->
  exists ho' r' out err, ho_Read BufferSize ho r size = Ret (ho', r', out, err) /\
    match err with
    | Some e' => X = [] /\ out = [] /\ e' = e /\ ho_yields ho' r' [] e
    | None => out ≠ [] /\ (length out <= size)%nat /\ exists X', X = out ++ X' /\ ho_yields ho' r' X' e
    end.
Proof.
  intros (Hf & held & Y & -> & Hy & Hb) Hs. unfold ho_Read. destruct (ho_buf ho) as [buf|] eqn:Eb.
  - destruct Hb as [Hh Hne]. rewrite Hh. eexists _, r, (take size held), None. split; [done|].
    split_and!; [destruct held; [done|]; by destruct size; [lia|]|rewrite length_take; lia|]. exists (drop size held ++ Y). split; [by rewrite app_assoc, take_drop|].
    split; [done|]. exists (drop size held), Y. split_and!; [done|done|]. cbn [ho_buf ho_offset].
    assert (length held + ho_offset ho = length buf)%nat as Hl. { rewrite <-Hh, length_drop. apply (f_equal length) in Hh. rewrite length_drop in Hh. assert (0 < length held)%nat by (by destruct held; [|cbn; lia]). lia. }
    rewrite length_take. destruct (_ =? _)%nat eqn:E.
    + apply Nat.eqb_eq in E. apply drop_ge. lia.
    + apply Nat.eqb_neq in E. split; [|intros Hn; apply (f_equal length) in Hn; rewrite length_drop in Hn; cbn in Hn; lia].
      rewrite Nat.min_l by lia. rewrite <-Hh, drop_drop. done.
  - subst held. cbn [app]. rewrite Hf. destruct (rd_yields r Y e size Hy Hs) as (r1 & out & err & -> & Hr). cbn [mbind res_bind]. eexists _, r1, out, err. split; [done|].
    assert (forall r X, yields r X e -> ho_yields ho r X e) as Hho by (intros r' X Hy'; split; [done|]; exists [], X; by rewrite Eb).
    destruct err as [e'|]; [destruct Hr as (? & ? & ? & ?)|destruct Hr as (? & ? & X' & ? & ?)]; split_and!; try done; [by apply Hho|exists X'; split; [done|by apply Hho]].
Qed.

(** The first read, when the connection delivers the whole header with it. *)
Lemma ho_Read_first vMajor vMinor date key data (r r1 : R) X e size :
  0 <= vMajor -> 0 <= vMinor -> Forall (fun c => c ≠ 13) date -> Forall (fun c => c ≠ 13) key ->
  rd r BufferSize = Ret (r1, httpResponse vMajor vMinor date key ++ data, None) -> yields r1 X e ->
  exists ho', ho_Read BufferSize NewHTTPObfs r size = Ret (ho', r1, take size data, None) /\ ho_yields ho' r1 (drop size data ++ X) e.
Proof.
  intros H1 H2 Hd Hk Hr Hy. unfold ho_Read. cbn [ho_buf NewHTTPObfs ho_firstResponse ho_offset]. rewrite Hr. cbn [mbind res_bind].
  destruct (httpResponse_Index vMajor vMinor date key data H1 H2 Hd Hk) as [-> Hle]. set (hdr := httpResponse _ _ _ _) in *. clearbody hdr.
  replace (length hdr - 4 + 4)%nat with (length hdr) by lia. rewrite drop_app_length. eexists. split; [done|].
  destruct (_ <? _)%nat eqn:E; split; try done; exists (drop size data), X; (split; [done|split; [done|]]); cbn [ho_buf ho_offset].
  - apply Nat.ltb_lt in E. rewrite length_take in E. rewrite (take_ge (hdr ++ data)) by (rewrite length_app; lia). rewrite length_take. split.
    + rewrite Nat.min_l by lia. by rewrite <-drop_drop, drop_app_length.
    + intros Hn. apply (f_equal length) in Hn. rewrite length_drop in Hn. cbn in Hn. lia.
  - apply Nat.ltb_ge in E. rewrite length_take in E. apply drop_ge. lia.
Qed.
End reads.

(** A header that comes in two reads ends the stream. *)
Example split_header :
  let whole := httpResponse 1 2 (bytes_of "today") (bytes_of "key") ++ [1; 2; 3] in
  let reader : Reader (list (list Z)) := fun r size => match r with [] => Ret ([], [], Some EOF) | p :: r => Ret (r, take size p, None) end in
  (exists ho r, @ho_Read _ reader 1024 NewHTTPObfs [whole] 8 = Ret (ho, r, [1; 2; 3], None)) /\
  (exists ho r, @ho_Read _ reader 1024 NewHTTPObfs [take 40 whole; drop 40 whole] 8 = Ret (ho, r, [], Some EOF)).
Proof. split; eexists _, _; vm_compute; reflexivity. Qed.
