(* ===== verification/SimpleObfsExample.v ===== *)
(** * Runs of the obfuscated streams *)

From S2P Require Import Prelude GoIo GoIoExample SimpleObfs SimpleObfsExact.

#[local] Existing Instance pieces_reader.
#[local] Existing Instance pieces_laws.
#[local] Existing Instance sink_writer.
#[local] Existing Instance sink_laws.

Definition hello0 : Hello := {| h_random := replicate 28 7; h_session := replicate 32 8; h_now := 1700000000 |}.

Definition up : list (Hello * list Z) := [(hello0, [1; 2; 3]); (hello0, []); (hello0, [4])].
Definition down : list (Hello * list Z) := [(hello0, [9])].
Definition name : list Z := bytes_of "example.org".

(** A client and a server that exchange some bytes, in pieces of the network. *)
Lemma tls_obfs_exact_witness :
  zlen name <= 256 /\ exists X, client_Writes (NewTLSObfs name) [] up = Ret ({| server := name; remain := 0; firstRequest := false; firstResponse := true |}, X, None) /\
  exists x, Reads (NewTLSObfsServer, [take 100 X; drop 100 X]) [2%nat; 5%nat; 5%nat; 5%nat; 5%nat] = Ret (x, [1; 2; 3; 4], Some EOF).
Proof.
  split; [vm_compute; discriminate|]. eexists. split; [vm_compute; reflexivity|]. set (X := 22 :: _).
  assert (Forall (fun hp => hello_ok hp.1) up) as Hup by (repeat constructor).
  assert (Forall (fun hp => hello_ok hp.1) down) as Hdown by (repeat constructor).
  destruct (tls_obfs_exact (W:=list Z) (R:=list (list Z)) name up down {| server := name; remain := 0; firstRequest := false; firstResponse := true |}
    {| s_remain := 0; s_firstRequest := true; sessionTicketDone := false; s_firstResponse := false |} [] X [] (makeServerHello hello0 [9])
    ltac:(vm_compute; discriminate) Hup Hdown eq_refl eq_refl ltac:(vm_compute; reflexivity) ltac:(vm_compute; reflexivity)) as (X' & Y & E & EY & Hr).
  destruct (Hr [take 100 X; drop 100 X] [Y] EOF [2%nat; 5%nat; 5%nat; 5%nat; 5%nat]) as (x & out & err & E1 & H1 & _).
  - split; [repeat constructor; discriminate|]. split; [|reflexivity]. cbn [concat]. rewrite app_nil_r, take_drop. exact E.
  - split; [|split; [apply app_nil_r|reflexivity]]. constructor; [rewrite <-EY; discriminate|constructor].
  - repeat constructor.
  - destruct H1 as [(-> & Hp & Hl)|[-> ->]].
    + exfalso. apply prefix_length in Hp. clear E1. revert Hp Hl. vm_compute. intros Hp Hl. lia.
    + exists x. exact E1.
Defined.

(** A stream that ends within the header of a record: the read gives nothing and
    no error. *)
Example cut_header :
  exists tos r, server_Read {| s_remain := 0; s_firstRequest := false; sessionTicketDone := true; s_firstResponse := true |} [[0x17; 0x03; 0x03; 0]] 8 = Ret (tos, r, [], None).
Proof. eexists _, _. vm_compute. reflexivity. Qed.
