(* ===== verification/PluginArgs.v ===== *)
(** * Options of plugins
    (src/transport/sip003/args.go)

    A string of keys and values, in which a backslash takes the next byte as it
    is, becomes a map from keys to lists of values. *)

From S2P Require Import Prelude GoText.

Abbreviation semicolon := 59.
Abbreviation equals := 61.
Abbreviation backslash := 92.

Abbreviation Args := (gmap text (list text)).

Definition args_Get (args : Args) (key : text) : option text :=
  match args !! key with
  | Some (v :: _) => Some v
  | _ => None
  end.

Definition args_Add (args : Args) (key value : text) : Args := <[key := default [] (args !! key) ++ [value]]> args.

(** The index of the next byte of [term] that is not escaped, and what is before
    it; [None] is the error of a final backslash. *)
Fixpoint indexUnescaped (s : text) (term : list Z) : option (nat * text) :=
  match s with
  | [] => Some (0%nat, [])
  | b :: s =>
    if existsb (Z.eqb b) term then Some (0%nat, [])
    else if b =? backslash then
      match s with
      | [] => None
      | b :: s => '(i, unesc) ← indexUnescaped s term; Some (2 + i, b :: unesc)%nat
      end
    else '(i, unesc) ← indexUnescaped s term; Some (1 + i, b :: unesc)%nat
  end.

Fixpoint options_loop (fuel : nat) (s : text) (i : nat) (opts : Args) : res (string + Args) :=
  match fuel with
  | O => Panic
  | S fuel =>
    if (length s <=? i)%nat then Ret (inr opts)
    else
      match indexUnescaped (drop i s) [equals; semicolon] with
      | None => Ret (inl "nothing following final escape"%string)
      | Some (offset, key) =>
        if bool_decide (key = []) then Ret (inl "empty key"%string)
        else
          let i := (i + offset)%nat in
          if (length s <=? i)%nat || negb (default 0 (s !! i) =? equals) then options_loop fuel s (i + 1) (args_Add opts key (bytes_of "1"))
          else
            let i := (i + 1)%nat in
            match indexUnescaped (drop i s) [semicolon] with
            | None => Ret (inl "nothing following final escape"%string)
            | Some (offset, value) => options_loop fuel s (i + offset + 1) (args_Add opts key value)
            end
      end
  end.

Definition ParsePluginOptions (s : text) : res (string + Args) :=
  if bool_decide (s = []) then Ret (inr ∅) else options_loop (S (length s)) s 0 ∅.

(** ** The parser ends *)

Lemma options_loop_total fuel s i opts : (length s - i < fuel)%nat -> exists x, options_loop fuel s i opts = Ret x.
Proof.
  revert i opts. induction fuel as [|fuel IH]; intros i opts Hf; [lia|]. cbn [options_loop]. destruct (_ <=? _)%nat eqn:E; [by eexists|]. apply Nat.leb_gt in E.
  destruct (indexUnescaped _ _) as [[offset key]|]; [|by eexists]. case_bool_decide; [by eexists|].
  destruct (_ || _); [apply IH; lia|]. destruct (indexUnescaped _ _) as [[offset' value]|]; [apply IH; lia|by eexists].
Qed.

Lemma ParsePluginOptions_total s : exists x, ParsePluginOptions s = Ret x.
Proof. unfold ParsePluginOptions. case_bool_decide; [by eexists|]. apply options_loop_total. lia. Qed.

(** ** Writing options *)

(** As the comment says: semicolons, equal signs and backslashes are escaped. *)
Definition escape (s : text) : text := concat (map (fun b => if (b =? semicolon) || (b =? equals) || (b =? backslash) then [backslash; b] else [b]) s).

Definition option_text (kv : text * option text) : text :=
  escape kv.1 ++ match kv.2 with Some v => equals :: escape v | None => [] end.

Fixpoint options_text (kvs : list (text * option text)) : text :=
  match kvs with
  | [] => []
  | [kv] => option_text kv
  | kv :: kvs => option_text kv ++ semicolon :: options_text kvs
  end.

(** The options that such a text stands for; a key alone stands for 1. *)
Definition options_of (kvs : list (text * option text)) : Args :=
  foldl (fun m kv => args_Add m kv.1 (default (bytes_of "1") kv.2)) ∅ kvs.

Lemma escape_cons b s : escape (b :: s) = (if (b =? semicolon) || (b =? equals) || (b =? backslash) then [backslash; b] else [b]) ++ escape s.
Proof. done. Qed.

(** An escaped text is read back up to the end or to a terminator. *)
Lemma indexUnescaped_escape s rest term :
  (forall t, t ∈ term -> t = semicolon \/ t = equals) -> match rest with [] => True | t :: _ => existsb (Z.eqb t) term = true end ->
  indexUnescaped (escape s ++ rest) term = Some (length (escape s), s).
Proof.
  intros Ht Hr. assert (existsb (Z.eqb backslash) term = false) as Hb.
  { destruct (existsb _ term) eqn:E; [|done]. apply existsb_exists in E as (t & Hin & <-%Z.eqb_eq). apply list_elem_of_In in Hin. destruct (Ht _ Hin); lia. }
  induction s as [|b s IH].
  - destruct rest as [|t rest]; [done|]. change (escape [] ++ t :: rest) with (t :: rest). cbn [indexUnescaped]. by rewrite Hr.
  - rewrite escape_cons. destruct ((b =? semicolon) || (b =? equals) || (b =? backslash)) eqn:E; cbn [app].
    + cbn [indexUnescaped]. rewrite Hb, Z.eqb_refl, IH. cbn. done.
    + apply orb_false_iff in E as [[E1 E2]%orb_false_iff E3]. cbn [indexUnescaped]. rewrite E3, IH.
      assert (existsb (Z.eqb b) term = false) as ->; [|done].
      destruct (existsb (Z.eqb b) term) eqn:E; [|done]. apply existsb_exists in E as (t & Hin & <-%Z.eqb_eq). apply list_elem_of_In in Hin. destruct (Ht _ Hin); lia.
Qed.

Lemma escape_ne s : s ≠ [] -> escape s ≠ [].
Proof. destruct s as [|b s]; [done|]. intros _. rewrite escape_cons. by destruct (_ || _). Qed.

(** One option, between what was read and what follows. *)
Lemma options_step fuel done_ kv rest opts :
  kv.1 ≠ [] -> (rest = [] \/ exists t, rest = semicolon :: t) ->
  options_loop (S fuel) (done_ ++ option_text kv ++ rest) (length done_) opts =
  options_loop fuel (done_ ++ option_text kv ++ rest) (length done_ + length (option_text kv) + 1) (args_Add opts kv.1 (default (bytes_of "1") kv.2)).
Proof.
  destruct kv as [k v]. cbn [fst snd]. intros Hk Hrest. cbn [options_loop]. set (s := done_ ++ _).
  assert (0 < length (escape k))%nat as Hpos by (pose proof (escape_ne k Hk); destruct (escape k); [done|cbn; lia]).
  assert (length s = length done_ + (length (option_text (k, v)) + length rest))%nat as Hlen by (unfold s; by rewrite !length_app).
  assert (length (escape k) <= length (option_text (k, v)))%nat as Hle by (unfold option_text; cbn [fst snd]; rewrite length_app; lia).
  rewrite (proj2 (Nat.leb_gt _ _)) by lia. unfold s at 1. rewrite drop_app_length. unfold option_text at 1. cbn [fst snd]. rewrite <-app_assoc.
  rewrite indexUnescaped_escape; [|intros t Hin; apply list_elem_of_In in Hin; cbn [In] in Hin; intuition lia|destruct v; [done|]; destruct Hrest as [->|[t ->]]; done]. rewrite bool_decide_eq_false_2 by done.
  destruct v as [v|]; unfold option_text in *; cbn [fst snd default] in *; rewrite ?length_app in *; cbn [length] in *.
  - rewrite (proj2 (Nat.leb_gt _ _)) by lia. cbn [orb].
    assert (s !! (length done_ + length (escape k))%nat = Some equals) as -> by (unfold s; rewrite lookup_app_r, Nat.add_comm, Nat.add_sub by lia; rewrite <-app_assoc, lookup_app_r, Nat.sub_diag by lia; done).
    change (negb (default 0 (Some equals) =? equals)) with false. cbv iota.
    replace (drop (length done_ + length (escape k) + 1) s) with (escape v ++ rest).
    2: { unfold s. rewrite <-Nat.add_assoc, <-drop_drop, drop_app_length, <-app_assoc, <-drop_drop, drop_app_length. done. }
    rewrite indexUnescaped_escape; [|intros t Hin; apply list_elem_of_In in Hin; cbn [In] in Hin; intuition lia|destruct Hrest as [->|[t ->]]; done]. f_equal. lia.
  - rewrite ?app_nil_r, ?Nat.add_0_r in *. replace (_ || _) with true; [done|]. symmetry. apply orb_true_iff. destruct Hrest as [->|[t ->]]; [left; apply Nat.leb_le; cbn in *; lia|right].
    unfold s. rewrite app_nil_r,  lookup_app_r, Nat.add_comm, Nat.add_sub by lia. rewrite lookup_app_r, Nat.sub_diag by lia. done.
Qed.

Lemma options_text_loop fuel done_ kvs opts :
  Forall (fun kv : text * option text => kv.1 ≠ []) kvs -> (length kvs < fuel)%nat ->
  options_loop fuel (done_ ++ options_text kvs) (length done_) opts = Ret (inr (foldl (fun m kv => args_Add m kv.1 (default (bytes_of "1") kv.2)) opts kvs)).
Proof.
  intros Hk. revert fuel done_ opts. induction Hk as [|kv kvs Hkv Hk IH]; intros fuel done_ opts Hf; destruct fuel as [|fuel]; cbn [length] in Hf; try lia.
  - cbn [options_text options_loop foldl]. rewrite app_nil_r, Nat.leb_refl. done.
  - destruct kvs as [|kv2 kvs].
    + cbn [options_text foldl]. replace (done_ ++ option_text kv) with (done_ ++ option_text kv ++ []) by (by rewrite app_nil_r).
      rewrite options_step by auto. destruct fuel as [|fuel]; [cbn in Hf; lia|]. cbn [options_loop]. rewrite (proj2 (Nat.leb_le _ _)); [done|]. rewrite !length_app. cbn. lia.
    + change (options_text (kv :: kv2 :: kvs)) with (option_text kv ++ semicolon :: options_text (kv2 :: kvs)). rewrite options_step by eauto.
      replace (done_ ++ option_text kv ++ semicolon :: options_text (kv2 :: kvs)) with ((done_ ++ option_text kv ++ [semicolon]) ++ options_text (kv2 :: kvs)) by (by rewrite <-!app_assoc).
      replace (length done_ + length (option_text kv) + 1)%nat with (length (done_ ++ option_text kv ++ [semicolon])) by (rewrite !length_app; cbn; lia).
      rewrite IH by lia. done.
Qed.

Lemma options_of_lookup kvs key : 
  default [] (options_of kvs !! key) = map (fun kv => default (bytes_of "1") kv.2) (filter (fun kv => kv.1 = key) kvs).
Proof.
  unfold options_of. enough (forall m : Args, default [] (foldl (fun m kv => args_Add m kv.1 (default (bytes_of "1") kv.2)) m kvs !! key) =
    default [] (m !! key) ++ map (fun kv : text * option text => default (bytes_of "1") kv.2) (filter (fun kv => kv.1 = key) kvs)) as Hm by (rewrite Hm; done).
  induction kvs as [|kv kvs IH]; intros m; cbn [foldl]; [by rewrite app_nil_r|]. rewrite IH. unfold args_Add. rewrite filter_cons. case_decide as E.
  - subst key. rewrite lookup_insert_eq. cbn [map default from_option id]. by rewrite <-app_assoc.
  - by rewrite lookup_insert_ne.
Qed.

Lemma options_text_length kvs : Forall (fun kv : text * option text => kv.1 ≠ []) kvs -> (length kvs <= length (options_text kvs))%nat.
Proof.
  induction 1 as [|kv kvs Hk _ IH]; [done|].
  assert (0 < length (option_text kv))%nat by (apply escape_ne in Hk; unfold option_text; rewrite length_app; destruct (escape kv.1); [done|cbn; lia]).
  destruct kvs as [|kv2 kvs]; [cbn; lia|]. change (options_text (kv :: kv2 :: kvs)) with (option_text kv ++ semicolon :: options_text (kv2 :: kvs)).
  rewrite length_app. cbn [length] in *. lia.
Qed.

(** Options written with semicolons, equal signs and backslashes escaped
    are parsed to what they stand for: each key has the values it was given, in
    their order, and 1 where it stands alone; and parsing ends on every text. *)
Theorem plugin_options_roundtrip kvs s :
  Forall (fun kv : text * option text => kv.1 ≠ []) kvs ->
  (exists args, ParsePluginOptions (options_text kvs) = Ret (inr args) /\
    forall key, default [] (args !! key) = map (fun kv => default (bytes_of "1") kv.2) (filter (fun kv => kv.1 = key) kvs) /\
      args_Get args key = head (map (fun kv => default (bytes_of "1") kv.2) (filter (fun kv => kv.1 = key) kvs))) /\
  exists x, ParsePluginOptions s = Ret x.
Proof.
  intros Hk. split; [|apply ParsePluginOptions_total]. exists (options_of kvs). split.
  - unfold ParsePluginOptions. case_bool_decide as E.
    + destruct kvs as [|kv kvs]; [done|]. exfalso. apply Forall_cons in Hk as [Hk _]. apply escape_ne in Hk. destruct kvs; cbn [options_text] in E; unfold option_text in E; repeat apply app_eq_nil in E as [E _]; done.
    + apply (options_text_loop _ [] kvs ∅ Hk). pose proof (options_text_length kvs Hk). lia.
  - intros key. rewrite <-options_of_lookup. split; [done|]. unfold args_Get. by destruct (options_of kvs !! key) as [[|v vs]|].
Qed.

Lemma plugin_options_roundtrip_witness :
  exists args, ParsePluginOptions (options_text [(bytes_of "obfs", Some (bytes_of "a=b;c")); (bytes_of "fast", None); (bytes_of "obfs", Some [])]) = Ret (inr args) /\
    args_Get args (bytes_of "obfs") = Some (bytes_of "a=b;c").
Proof.
  destruct (plugin_options_roundtrip [(bytes_of "obfs", Some (bytes_of "a=b;c")); (bytes_of "fast", None); (bytes_of "obfs", Some [])] [] ltac:(repeat constructor; discriminate)) as [(args & E & Ha) _].
  exists args. split; [exact E|]. destruct (Ha (bytes_of "obfs")) as [_ ->]. vm_compute. reflexivity.
Defined.
