(* ===== verification/Geosite.v ===== *)
(** * Geosite files
    (src/common/geosite: reader.go, writer.go, rule.go)

    Lists of domain rules under codes, behind an index that says where each list
    begins and how many rules it has. *)

From stdpp Require Import sorting.
From S2P Require Import Prelude Srs SrsRoundTrip SrsExample.

Abbreviation MaxInt32 := 2147483647.

(** ** Rules *)

Record Item := { Type_ : Z; Value : string }.

Abbreviation RuleTypeDomain := 0.
Abbreviation RuleTypeDomainSuffix := 1.
Abbreviation RuleTypeDomainKeyword := 2.
Abbreviation RuleTypeDomainRegex := 3.

(** The fields of [option.DefaultRule] that are set. *)
Record DefaultRule := { Domain : list string; DomainSuffix : list string; DomainKeyword : list string; DomainRegex : list string }.

Definition add_item (rule : DefaultRule) (item : Item) : DefaultRule :=
  if Type_ item =? RuleTypeDomain then
    {| Domain := Domain rule ++ [Value item]; DomainSuffix := DomainSuffix rule; DomainKeyword := DomainKeyword rule; DomainRegex := DomainRegex rule |}
  else if Type_ item =? RuleTypeDomainSuffix then
    {| Domain := Domain rule; DomainSuffix := DomainSuffix rule ++ [Value item]; DomainKeyword := DomainKeyword rule; DomainRegex := DomainRegex rule |}
  else if Type_ item =? RuleTypeDomainKeyword then
    {| Domain := Domain rule; DomainSuffix := DomainSuffix rule; DomainKeyword := DomainKeyword rule ++ [Value item]; DomainRegex := DomainRegex rule |}
  else if Type_ item =? RuleTypeDomainRegex then
    {| Domain := Domain rule; DomainSuffix := DomainSuffix rule; DomainKeyword := DomainKeyword rule; DomainRegex := DomainRegex rule ++ [Value item] |}
  else rule.

Definition Compile (code : list Item) : DefaultRule :=
  foldl add_item {| Domain := []; DomainSuffix := []; DomainKeyword := []; DomainRegex := [] |} code.

Definition merge_rule (rule subRule : DefaultRule) : DefaultRule :=
  {| Domain := Domain rule ++ Domain subRule;
     DomainSuffix := DomainSuffix rule ++ DomainSuffix subRule;
     DomainKeyword := DomainKeyword rule ++ DomainKeyword subRule;
     DomainRegex := DomainRegex rule ++ DomainRegex subRule |}.

Definition Merge (rules : list DefaultRule) : DefaultRule :=
  foldl merge_rule {| Domain := []; DomainSuffix := []; DomainKeyword := []; DomainRegex := [] |} rules.

Lemma fold_items acc items : foldl add_item acc items = merge_rule acc (Compile items).
Proof.
  unfold Compile. induction items as [|item items IH] using rev_ind; cbn [foldl].
  - destruct acc. unfold merge_rule. cbn. by rewrite !app_nil_r.
  - rewrite !foldl_app, IH. cbn [foldl]. unfold add_item at 1 3, merge_rule. destruct (foldl add_item _ items). cbn [Domain DomainSuffix DomainKeyword DomainRegex].
    repeat (destruct (Type_ item =? _); [cbn; by rewrite ?app_assoc|]). done.
Qed.

(** The merged rule of some lists is the rule of the lists together. *)
Lemma Merge_Compile codes : Merge (map Compile codes) = Compile (concat codes).
Proof.
  unfold Merge. change {| Domain := []; DomainSuffix := []; DomainKeyword := []; DomainRegex := [] |} with (Compile []) at 1.
  enough (forall acc, foldl merge_rule (Compile acc) (map Compile codes) = Compile (acc ++ concat codes)) as He by apply (He []).
  induction codes as [|code codes IH]; intros acc; cbn [map foldl concat]; [by rewrite app_nil_r|].
  replace (merge_rule (Compile acc) (Compile code)) with (Compile (acc ++ code)) by (unfold Compile at 1; rewrite foldl_app; apply fold_items).
  by rewrite IH, <-app_assoc.
Qed.

(** ** Reading *)

Definition readString : reader string := fun r =>
  '(length, r) ← ReadUvarint r;
  '(result, r) ← read_range length ReadByte r;
  Ret (string_of result, r).

Record Reader := { file : list Z; metadataIndex : Z; domainIndex : gmap string Z; domainLength : gmap string Z }.

Definition read_entry : reader (string * Z * Z) := fun r =>
  '(code, r) ← readString r;
  '(codeIndex, r) ← ReadUvarint r;
  '(codeLength, r) ← ReadUvarint r;
  if (MaxInt32 <? codeIndex) || (MaxInt32 <? codeLength) then Err "invalid metadata entry"
  else Ret (code, codeIndex, codeLength, r).

(** The metadata ends where the next byte is to be read: at the count of the
    bytes taken, without those in the buffer. *)
Definition readMetadata (file : list Z) : res Reader :=
  '(version, r) ← ReadByte file;
  if negb (version =? 0) then Err "unknown version"
  else
    '(entryLength, r) ← ReadUvarint r;
    '(entries, r) ← read_range entryLength read_entry r;
    Ret {| file := file; metadataIndex := zlen file - zlen r;
           domainIndex := foldl (fun m '(code, codeIndex, _) => <[code := codeIndex]> m) ∅ entries;
           domainLength := foldl (fun m '(code, _, codeLength) => <[code := codeLength]> m) ∅ entries |}.

(** [NewReader], with the codes in some order. *)
Definition NewReader (file : list Z) : res (Reader * list string) :=
  reader ← readMetadata file;
  Ret (reader, (map_to_list (domainIndex reader)).*1).

Definition read_item : reader Item := fun r =>
  '(typeByte, r) ← ReadByte r;
  '(value, r) ← readString r;
  Ret ({| Type_ := typeByte; Value := value |}, r).

Definition Read (reader : Reader) (code : string) : res (list Item) :=
  match domainIndex reader !! code with
  | None => Err "code not exists!"
  | Some index =>
    let r := drop (Z.to_nat (metadataIndex reader + index)) (file reader) in
    let length := default 0 (domainLength reader !! code) in
    '(itemList, _) ← read_range length read_item r;
    Ret itemList
  end.

(** ** Writing *)

Section writing.
Context {V : VarbinLib}.

Definition writeString (value : string) : list Z := WriteUvarint (zlen (bytes_of value)) ++ bytes_of value.

Definition write_item (item : Item) : list Z := u8 (Type_ item) :: writeString (Value item).

(** The loop over the codes, with the bytes and the places of the lists. *)
Fixpoint write_contents (keys : list string) (domains : gmap string (list Item)) (content : list Z) (index : gmap string Z) : list Z * gmap string Z :=
  match keys with
  | [] => (content, index)
  | code :: keys =>
    let index := <[code := zlen content]> index in
    let content := content ++ concat (map write_item (default [] (domains !! code))) in
    write_contents keys domains content index
  end.

(** [sort.Strings] sorts by the bytes. *)
Definition string_le (a b : string) : Prop := String.leb a b = true.

#[export] Instance string_le_dec : RelDecision string_le.
Proof. intros a b. unfold string_le. apply _. Defined.

Definition write_entry (domains : gmap string (list Item)) (index : gmap string Z) (code : string) : list Z :=
  writeString code ++ WriteUvarint (default 0 (index !! code)) ++ WriteUvarint (zlen (default [] (domains !! code))).

Definition Write (domains : gmap string (list Item)) : list Z :=
  let keys := merge_sort string_le (map_to_list domains).*1 in
  let '(content, index) := write_contents keys domains [] ∅ in
  [0] ++ WriteUvarint (zlen keys) ++ concat (map (write_entry domains index) keys) ++ content.
End writing.

(** ** Any file *)

Lemma takes_readString : takes 1 readString.
Proof. unfold readString. takes_step; [apply takes_uvarint|]. takes_step; [apply takes_range, takes_byte|]. takes_step. Qed.

Lemma takes_read_entry : takes 1 read_entry.
Proof.
  unfold read_entry. takes_step; [apply takes_readString|]. takes_step; [apply takes_0, takes_uvarint|]. takes_step; [apply takes_0, takes_uvarint|].
  takes_step; takes_step.
Qed.

Lemma takes_read_item : takes 1 read_item.
Proof. unfold read_item. takes_step; [apply takes_byte|]. takes_step; [apply takes_0, takes_readString|]. takes_step. Qed.

(** Opening and reading a file end, whatever its bytes. *)
Lemma geosite_safe bytes : NewReader bytes ≠ Panic /\ forall reader code, Read reader code ≠ Panic.
Proof.
  split.
  - unfold NewReader, readMetadata. destruct bytes as [|version r]; [done|]. cbn [ReadByte mbind res_bind]. destruct (negb _); [done|].
    pose proof (takes_uvarint r) as Hu. destruct (ReadUvarint r) as [[n r1]| |]; [|done|done]. cbn [mbind res_bind].
    pose proof (takes_range n read_entry takes_read_entry r1) as Hr. destruct (read_range n read_entry r1) as [[entries r2]| |]; done.
  - intros reader code. unfold Read. destruct (domainIndex reader !! code) as [index|]; [|done]. set (r := drop _ _). set (n := default 0 _).
    pose proof (takes_range n read_item takes_read_item r) as Hr. destruct (read_range n read_item r) as [[items r2]| |]; done.
Qed.

(** ** Round trip *)

Section roundtrip.
Context {V : VarbinLib} {VL : VarbinLaws V}.

Lemma readString_back s : small_string s -> reads_back readString (writeString s) s.
Proof.
  intros Hs r. unfold readString, writeString. pose proof (zlen_nonneg (bytes_of s)). rewrite <-app_assoc, uvarint_law by (unfold small_string in Hs; lia). cbn [mbind res_bind].
  assert (reads_back (read_range (zlen (bytes_of s)) ReadByte) (bytes_of s) (bytes_of s)) as Hb.
  { replace (bytes_of s) with (concat (map (fun b => [b]) (bytes_of s))) at 2 by apply concat_singletons.
    apply (read_range_map ReadByte (fun b => [b])); [apply takes_byte|]. by apply Forall_true. }
  rewrite (Hb r). cbn [mbind res_bind]. by rewrite string_of_bytes_of.
Qed.

Definition item_ok (item : Item) : Prop := is_u8 (Type_ item) /\ small_string (Value item).

Lemma item_back item : item_ok item -> reads_back read_item (write_item item) item.
Proof.
  intros [Ht Hs] r. unfold read_item, write_item. cbn [app ReadByte mbind res_bind]. rewrite (readString_back (Value item) Hs r). cbn [mbind res_bind].
  rewrite u8_id by done. by destruct item.
Qed.

(** Each list is in the content, at its place. *)
Lemma write_contents_spec keys domains content index content' index' :
  NoDup keys -> write_contents keys domains content index = (content', index') ->
  (exists more, content' = content ++ more) /\ (forall code, code ∉ keys -> index' !! code = index !! code) /\
  (forall code, code ∈ keys -> exists pre post, content' = pre ++ concat (map write_item (default [] (domains !! code))) ++ post /\ index' !! code = Some (zlen pre)).
Proof.
  intros Hnd. revert content index. induction Hnd as [|code keys Hin Hnd IH]; intros content index; cbn [write_contents].
  - intros [= <- <-]. split_and!; [exists []; by rewrite app_nil_r|done|by intros code ?%not_elem_of_nil].
  - intros E. destruct (IH _ _ E) as ([more ->] & Hother & Hall). split_and!.
    + eexists. by rewrite <-app_assoc.
    + intros c [Hne Hc]%not_elem_of_cons. rewrite Hother, lookup_insert_ne by done. done.
    + intros c [->|Hc]%elem_of_cons; [|by apply Hall]. exists content, more. split; [by rewrite <-app_assoc|]. by rewrite Hother, lookup_insert_eq.
Qed.

Lemma foldl_map {A B C} (f : C -> B -> C) (g : A -> B) (l : list A) c : foldl f c (map g l) = foldl (fun c a => f c (g a)) c l.
Proof. revert c. induction l as [|a l IH]; intros c; [done|]. apply IH. Qed.

Lemma index_lookup {A} (g : string -> A) keys m code :
  foldl (fun (m : gmap string A) code => <[code := g code]> m) m keys !! code = if decide (code ∈ keys) then Some (g code) else m !! code.
Proof.
  revert m. induction keys as [|k keys IH]; intros m; cbn [foldl]; [by rewrite decide_False by apply not_elem_of_nil|]. rewrite IH.
  destruct (decide (code ∈ keys)) as [Hin|Hout]; [by rewrite decide_True by (by apply elem_of_cons; right)|]. destruct (decide (k = code)) as [->|Hne].
  - rewrite lookup_insert_eq, decide_True by (by apply elem_of_cons; left). done.
  - rewrite lookup_insert_ne by done. rewrite decide_False; [done|]. intros [?|?]%elem_of_cons; [by subst|done].
Qed.

(** What a file can hold. *)
Record fits (domains : gmap string (list Item)) : Prop := {
  fit_codes : zlen (map_to_list domains) < 2 ^ 64;
  fit_lists : forall code items, domains !! code = Some items -> small_string code /\ zlen items <= MaxInt32 /\ Forall item_ok items;
  fit_content : zlen (write_contents (merge_sort string_le (map_to_list domains).*1) domains [] ∅).1 <= MaxInt32
}.

Lemma keys_spec (domains : gmap string (list Item)) :
  let keys := merge_sort string_le (map_to_list domains).*1 in
  NoDup keys /\ length keys = length (map_to_list domains) /\ forall code, code ∈ keys <-> is_Some (domains !! code).
Proof.
  cbn zeta. pose proof (merge_sort_Permutation string_le (map_to_list domains).*1) as Hp. split_and!.
  - rewrite Hp. apply NoDup_fst_map_to_list.
  - rewrite Hp. by rewrite length_fmap.
  - intros code. rewrite Hp, list_elem_of_fmap. split.
    + intros ([c items] & -> & Hin). apply elem_of_map_to_list in Hin. by eexists.
    + intros [items Hl]. exists (code, items). split; [done|]. by apply elem_of_map_to_list.
Qed.

(** The entries of a list of codes. *)
Lemma index_back (domains : gmap string (list Item)) (index : gmap string Z) keys :
  (forall code, code ∈ keys -> small_string code /\ 0 <= default 0 (index !! code) <= MaxInt32 /\ zlen (default [] (domains !! code)) <= MaxInt32) ->
  reads_back (read_range (zlen keys) read_entry) (concat (map (write_entry domains index) keys))
    (map (fun code => (code, default 0 (index !! code), zlen (default [] (domains !! code)))) keys).
Proof.
  intros Hk. set (entry := fun code => _).
  replace (zlen keys) with (zlen (map entry keys)) by (unfold zlen; by rewrite length_map). apply read_range_concat; [apply takes_read_entry|].
  assert (Forall (fun code => reads_back read_entry (write_entry domains index code) (entry code)) keys) as Hf.
  { apply Forall_forall. intros code Hin. destruct (Hk code Hin) as (Hs & Hi & Hl). pose proof (zlen_nonneg (default [] (domains !! code))).
    intros r. unfold read_entry, write_entry. rewrite <-!app_assoc, (readString_back code Hs). cbn [mbind res_bind].
    rewrite uvarint_law by lia. cbn [mbind res_bind]. rewrite uvarint_law by lia. cbn [mbind res_bind].
    rewrite (proj2 (Z.ltb_ge _ _)), (proj2 (Z.ltb_ge _ _)) by lia. done. }
  clear Hk. induction Hf; constructor; done.
Qed.

(** C33: a file that was written is opened, has the codes that were written and
    gives for each of them its list, and an error for any other; and no file
    whatever makes opening or reading it fail but with an error. *)
Theorem geosite_roundtrip (domains : gmap string (list Item)) bytes :
  fits domains ->
  (exists reader codes, NewReader (Write domains) = Ret (reader, codes) /\ (forall code, code ∈ codes <-> is_Some (domains !! code)) /\
    forall code, Read reader code = match domains !! code with Some items => Ret items | None => Err "code not exists!" end) /\
  (NewReader bytes ≠ Panic /\ forall reader code, Read reader code ≠ Panic).
Proof.
  intros [Hn Hl Hc]. split; [|apply geosite_safe]. destruct (keys_spec domains) as (Hnd & Hlen & Hkeys). unfold Write. set (keys := merge_sort _ _) in *.
  destruct (write_contents keys domains [] ∅) as [content index] eqn:E. cbn [fst] in Hc. destruct (write_contents_spec _ _ _ _ _ _ Hnd E) as (_ & _ & Hplace).
  assert (forall code, code ∈ keys -> small_string code /\ 0 <= default 0 (index !! code) <= MaxInt32 /\ zlen (default [] (domains !! code)) <= MaxInt32) as Hk.
  { intros code Hin. destruct (Hplace code Hin) as (pre & post & Ec & Ei). apply Hkeys in Hin as [items Hi]. destruct (Hl code items Hi) as (H1 & H2 & _).
    rewrite Hi, Ei. cbn. pose proof (zlen_nonneg pre). split_and!; [done|done| |done]. rewrite Ec, !zlen_app in Hc. pose proof (zlen_nonneg (concat (map write_item (default [] (domains !! code))))). pose proof (zlen_nonneg post). lia. }
  set (head_ := [0] ++ WriteUvarint (zlen keys) ++ concat (map (write_entry domains index) keys)).
  replace ([0] ++ WriteUvarint (zlen keys) ++ concat (map (write_entry domains index) keys) ++ content) with (head_ ++ content) by (unfold head_; by rewrite <-!app_assoc).
  assert (readMetadata (head_ ++ content) = Ret {| file := head_ ++ content; metadataIndex := zlen head_;
    domainIndex := foldl (fun m code => <[code := default 0 (index !! code)]> m) ∅ keys; domainLength := foldl (fun m code => <[code := zlen (default [] (domains !! code))]> m) ∅ keys |}) as Em.
  { unfold readMetadata.
    replace (ReadByte (head_ ++ content)) with (Ret (0, WriteUvarint (zlen keys) ++ concat (map (write_entry domains index) keys) ++ content)) by (unfold head_; by rewrite <-!app_assoc).
    cbn [mbind res_bind]. change (negb (0 =? 0)) with false. cbv iota.
    rewrite uvarint_law by (pose proof (zlen_nonneg keys); unfold zlen in *; lia). cbn [mbind res_bind]. rewrite (index_back domains index keys Hk content). cbn [mbind res_bind].
    rewrite !foldl_map. do 2 f_equal. rewrite zlen_app. lia. }
  unfold NewReader. rewrite Em. cbn [mbind res_bind]. eexists _, _. split; [done|]. cbn [domainIndex]. split.
  - intros code. rewrite <-Hkeys, list_elem_of_fmap. split.
    + intros ([c i] & -> & Hin). apply elem_of_map_to_list in Hin. rewrite index_lookup in Hin. cbn. case_decide; [done|]. by rewrite lookup_empty in Hin.
    + intros Hin. exists (code, default 0 (index !! code)). split; [done|]. apply elem_of_map_to_list. by rewrite index_lookup, decide_True.
  - intros code. unfold Read. cbn [domainIndex domainLength metadataIndex file]. rewrite !index_lookup. case_decide as Hin.
    + destruct (Hplace code Hin) as (pre & post & Ec & Ei). apply Hkeys in Hin as [items Hi]. destruct (Hl code items Hi) as (_ & _ & Hitems).
      rewrite Hi, Ei in *. cbn [default from_option id] in *. rewrite Ec.
      replace (drop _ _) with (concat (map write_item items) ++ post).
      2: { replace (Z.to_nat (zlen head_ + zlen pre)) with (length (head_ ++ pre)) by (rewrite length_app; unfold zlen; lia). by rewrite app_assoc, drop_app_length. }
      assert (reads_back (read_range (zlen items) read_item) (concat (map write_item items)) items) as Hb.
      { apply read_range_map; [apply takes_read_item|]. eapply Forall_impl; [exact Hitems|]. apply item_back. }
      rewrite (Hb post). done.
    + rewrite lookup_empty. destruct (domains !! code) as [items|] eqn:Hi; [|done]. exfalso. apply Hin, Hkeys. by eexists.
Qed.
End roundtrip.

(** ** A file *)

#[local] Existing Instance demo_varbin.
#[local] Existing Instance demo_varbin_laws.

Definition ads : list Item := [ {| Type_ := RuleTypeDomainSuffix; Value := "ads.example" |}; {| Type_ := RuleTypeDomain; Value := "track.example" |} ].

Definition two_codes : gmap string (list Item) := <["ads" := ads]> {["empty" := []]}.

Lemma geosite_roundtrip_witness :
  fits two_codes /\ exists reader codes, NewReader (Write two_codes) = Ret (reader, codes) /\ Read reader "ads" = Ret ads /\ Read reader "other" = Err "code not exists!".
Proof.
  assert (fits two_codes) as Hf.
  { split; [vm_compute; reflexivity| |vm_compute; discriminate].
    intros code items Hc. unfold two_codes in Hc. apply lookup_insert_Some in Hc as [[<- <-]|[_ Hc]]; [|apply lookup_singleton_Some in Hc as [<- <-]]; (split; [vm_compute; reflexivity|split; [vm_compute; discriminate|]]).
    - repeat constructor; vm_compute; done.
    - constructor. }
  split; [exact Hf|]. destruct (geosite_roundtrip two_codes [] Hf) as [(reader & codes & E & _ & Hr) _]. exists reader, codes. split; [exact E|].
  split; [exact (Hr "ads"%string)|exact (Hr "other"%string)].
Defined.
