(* ===== verification/LinkedList.v ===== *)
(** * Doubly linked lists
    (src/common/list/list.go)

    The lists are rings of elements through a root, with pointers to both
    neighbours and to the list.  A heap of lists stands for a map from lists to
    sequences of elements, and every operation does to the sequences what its name
    says. *)

From S2P Require Import Prelude.

(** ** The heap *)

(** The fields of elements and lists by address; nil is no entry.  The address of
    a list is that of its root. *)
Record Heap (V : Type) := mk_heap {
  nxt : gmap nat nat;
  prv : gmap nat nat;
  owner : gmap nat nat;
  vals : gmap nat V;
  lens : gmap nat Z;
  fresh : nat
}.
Arguments mk_heap {V} _ _ _ _ _ _.
Arguments nxt {V} _.
Arguments prv {V} _.
Arguments owner {V} _.
Arguments vals {V} _.
Arguments lens {V} _.
Arguments fresh {V} _.

(** The sequences of the lists. *)
Abbreviation Seqs := (gmap nat (list nat)).

Section lists.
Context {V : Type}.
Implicit Types (h : Heap V) (v : V).

Definition set_next (h : Heap V) (e x : nat) : Heap V := mk_heap (<[e := x]> (nxt h)) (prv h) (owner h) (vals h) (lens h) (fresh h).
Definition set_prev (h : Heap V) (e x : nat) : Heap V := mk_heap (nxt h) (<[e := x]> (prv h)) (owner h) (vals h) (lens h) (fresh h).
Definition set_owner (h : Heap V) (e l : nat) : Heap V := mk_heap (nxt h) (prv h) (<[e := l]> (owner h)) (vals h) (lens h) (fresh h).
Definition set_len (h : Heap V) (l : nat) (n : Z) : Heap V := mk_heap (nxt h) (prv h) (owner h) (vals h) (<[l := n]> (lens h)) (fresh h).

(** A pointer that must not be nil. *)
Definition deref (p : option nat) : res nat := match p with Some x => Ret x | None => Panic end.

Definition Len (h : Heap V) (l : nat) : Z := default 0 (lens h !! l).

Definition Init (h : Heap V) (l : nat) : Heap V := set_len (set_prev (set_next h l l) l l) l 0.

(** [New]; a fresh root. *)
Definition New (h : Heap V) : Heap V * nat :=
  let l := fresh h in
  (Init (mk_heap (nxt h) (prv h) (owner h) (vals h) (lens h) (S l)) l, l).

Definition lazyInit (h : Heap V) (l : nat) : Heap V := match nxt h !! l with None => Init h l | Some _ => h end.

Definition Next (h : Heap V) (e : nat) : option nat :=
  match owner h !! e, nxt h !! e with
  | Some l, p => if bool_decide (p ≠ Some l) then p else None
  | None, _ => None
  end.

Definition Prev (h : Heap V) (e : nat) : option nat :=
  match owner h !! e, prv h !! e with
  | Some l, p => if bool_decide (p ≠ Some l) then p else None
  | None, _ => None
  end.

Definition Front (h : Heap V) (l : nat) : option nat := if Len h l =? 0 then None else nxt h !! l.
Definition Back (h : Heap V) (l : nat) : option nat := if Len h l =? 0 then None else prv h !! l.

(** The element's neighbours are set to the element, one after the other. *)
Definition ring_insert (h : Heap V) (l e at_ : nat) : res (Heap V) :=
  let h := set_prev h e at_ in
  x ← deref (nxt h !! at_);
  let h := set_next h e x in
  let h := set_next h at_ e in
  y ← deref (nxt h !! e);
  let h := set_prev h y e in
  let h := set_owner h e l in
  Ret (set_len h l (Len h l + 1)).

(** A new element. *)
Definition insertValue (h : Heap V) (l : nat) (v : V) (at_ : nat) : res (Heap V * nat) :=
  let e := fresh h in
  h ← ring_insert (mk_heap (nxt h) (prv h) (owner h) (<[e := v]> (vals h)) (lens h) (S e)) l e at_;
  Ret (h, e).

Definition ring_remove (h : Heap V) (l e : nat) : res (Heap V) :=
  p ← deref (prv h !! e);
  x ← deref (nxt h !! e);
  let h := set_next h p x in
  x ← deref (nxt h !! e);
  p ← deref (prv h !! e);
  let h := set_prev h x p in
  let h := mk_heap (delete e (nxt h)) (delete e (prv h)) (delete e (owner h)) (vals h) (lens h) (fresh h) in
  Ret (set_len h l (Len h l - 1)).

Definition ring_move (h : Heap V) (e at_ : nat) : res (Heap V) :=
  if (e =? at_)%nat then Ret h
  else
    p ← deref (prv h !! e);
    x ← deref (nxt h !! e);
    let h := set_next h p x in
    x ← deref (nxt h !! e);
    p ← deref (prv h !! e);
    let h := set_prev h x p in
    let h := set_prev h e at_ in
    x ← deref (nxt h !! at_);
    let h := set_next h e x in
    p ← deref (prv h !! e);
    let h := set_next h p e in
    x ← deref (nxt h !! e);
    Ret (set_prev h x e).

(** ** Operations *)

(** [Element.Remove] tells whether the element was removed, [List.Remove] gives
    the value of the element. *)
Definition element_Remove (h : Heap V) (e : nat) : res (Heap V * bool) :=
  match owner h !! e with
  | None => Ret (h, false)
  | Some l => h ← ring_remove h l e; Ret (h, true)
  end.

Definition list_Remove (h : Heap V) (l e : nat) : res (Heap V * V) :=
  h ← (if bool_decide (owner h !! e = Some l) then ring_remove h l e else Ret h);
  match vals h !! e with Some v => Ret (h, v) | None => Panic end.

Definition PushFront (h : Heap V) (l : nat) (v : V) : res (Heap V * nat) :=
  let h := lazyInit h l in
  insertValue h l v l.

Definition PushBack (h : Heap V) (l : nat) (v : V) : res (Heap V * nat) :=
  let h := lazyInit h l in
  at_ ← deref (prv h !! l);
  insertValue h l v at_.

Definition InsertBefore (h : Heap V) (l : nat) (v : V) (mark : nat) : res (Heap V * option nat) :=
  if bool_decide (owner h !! mark ≠ Some l) then Ret (h, None)
  else
    at_ ← deref (prv h !! mark);
    '(h, e) ← insertValue h l v at_;
    Ret (h, Some e).

Definition InsertAfter (h : Heap V) (l : nat) (v : V) (mark : nat) : res (Heap V * option nat) :=
  if bool_decide (owner h !! mark ≠ Some l) then Ret (h, None)
  else '(h, e) ← insertValue h l v mark; Ret (h, Some e).

Definition MoveToFront (h : Heap V) (l e : nat) : res (Heap V) :=
  if bool_decide (owner h !! e ≠ Some l) || bool_decide (nxt h !! l = Some e) then Ret h
  else ring_move h e l.

Definition MoveToBack (h : Heap V) (l e : nat) : res (Heap V) :=
  if bool_decide (owner h !! e ≠ Some l) || bool_decide (prv h !! l = Some e) then Ret h
  else at_ ← deref (prv h !! l); ring_move h e at_.

Definition MoveBefore (h : Heap V) (l e mark : nat) : res (Heap V) :=
  if bool_decide (owner h !! e ≠ Some l) || (e =? mark)%nat || bool_decide (owner h !! mark ≠ Some l) then Ret h
  else at_ ← deref (prv h !! mark); ring_move h e at_.

Definition MoveAfter (h : Heap V) (l e mark : nat) : res (Heap V) :=
  if bool_decide (owner h !! e ≠ Some l) || (e =? mark)%nat || bool_decide (owner h !! mark ≠ Some l) then Ret h
  else ring_move h e mark.

(** ** Paths *)

(** From [a] through the elements [xs] to [z], in both directions. *)
Fixpoint path (n p : gmap nat nat) (a : nat) (xs : list nat) (z : nat) : Prop :=
  match xs with
  | [] => n !! a = Some z /\ p !! z = Some a
  | x :: xs => n !! a = Some x /\ p !! x = Some a /\ path n p x xs z
  end.

Lemma path_app n p a xs x ys z : path n p a (xs ++ x :: ys) z <-> path n p a xs x /\ path n p x ys z.
Proof. revert a. induction xs as [|y xs IH]; intros a; cbn [app path]; [tauto|]. rewrite IH. tauto. Qed.

(** A path depends on the next of all but its end, and on the previous of all
    but its start. *)
Lemma path_same n p n' p' a xs z :
  path n p a xs z -> (forall k, k ∈ a :: xs -> n' !! k = n !! k) -> (forall k, k ∈ xs ++ [z] -> p' !! k = p !! k) -> path n' p' a xs z.
Proof.
  revert a. induction xs as [|x xs IH]; intros a; cbn [path app]; intros Hp Hn Hq.
  - rewrite Hn, Hq by (by apply list_elem_of_here). done.
  - destruct Hp as (H1 & H2 & Hp). rewrite Hn by (by apply list_elem_of_here). rewrite Hq by (by apply list_elem_of_here). split_and!; [done|done|].
    apply IH; [done| |]; intros k Hk; [apply Hn|apply Hq]; by apply list_elem_of_further.
Qed.

(** The neighbours at a place of a path. *)
Definition before (a : nat) (xs : list nat) : nat := default a (last xs).
Definition after (xs : list nat) (z : nat) : nat := default z (head xs).

Lemma path_at n p a xs ys z : path n p a (xs ++ ys) z -> n !! before a xs = Some (after ys z) /\ p !! after ys z = Some (before a xs).
Proof.
  unfold before. destruct xs as [|x xs _] using rev_ind; cbn [app].
  - destruct ys as [|y ys]; cbn [path]; unfold after; cbn; tauto.
  - rewrite last_snoc. cbn [default]. rewrite <-app_assoc. cbn [app]. rewrite path_app. intros [_ Hp]. destruct ys as [|y ys]; cbn [path] in Hp; unfold after; cbn; tauto.
Qed.

Lemma before_in a xs : before a xs ∈ a :: xs.
Proof. unfold before. destruct xs as [|x xs _] using rev_ind; [by apply list_elem_of_here|]. rewrite last_snoc. cbn. apply list_elem_of_further, elem_of_app. right. by apply list_elem_of_here. Qed.

Lemma after_in ys z : after ys z ∈ ys ++ [z].
Proof. unfold after. destruct ys; by apply list_elem_of_here. Qed.

(** An element is put between two neighbours. *)
Lemma path_insert n p n' p' a xs e ys z :
  path n p a (xs ++ ys) z -> NoDup (a :: xs ++ ys) -> NoDup ((xs ++ ys) ++ [z]) ->
  n' !! before a xs = Some e -> n' !! e = Some (after ys z) -> p' !! e = Some (before a xs) -> p' !! after ys z = Some e ->
  (forall k, k ∈ a :: xs ++ ys -> k ≠ before a xs -> n' !! k = n !! k) ->
  (forall k, k ∈ (xs ++ ys) ++ [z] -> k ≠ after ys z -> p' !! k = p !! k) ->
  path n' p' a (xs ++ e :: ys) z.
Proof.
  intros Hp N1 N2 E1 E2 E3 E4 Hn Hq. apply path_app. split.
  - destruct xs as [|x xs _] using rev_ind; [done|]. unfold before in *. rewrite last_snoc in *. cbn [default from_option id] in *.
    rewrite <-app_assoc in Hp, N1, N2, Hn, Hq. cbn [app] in *. apply path_app in Hp as [Hp _]. apply path_app. split; [|done].
    eapply path_same; [exact Hp| |].
    + intros k Hk. apply Hn; [set_solver|]. intros ->. apply NoDup_cons in N1 as [N0 N1]. apply NoDup_app in N1 as (_ & N1 & _). set_solver.
    + intros k Hk. apply Hq; [set_solver|]. intros ->. rewrite <-app_assoc in N2. cbn [app] in N2.
      replace (xs ++ x :: ys ++ [z]) with ((xs ++ [x]) ++ ys ++ [z]) in N2 by (by rewrite <-app_assoc). apply NoDup_app in N2 as (_ & N2 & _). apply (N2 _ Hk), after_in.
  - destruct ys as [|y ys]; [done|]. unfold after in *. cbn [head default from_option id app] in *. cbn [path]. split_and!; [done|done|].
    apply path_app in Hp as [_ Hp]. eapply path_same; [exact Hp| |].
    + intros k Hk. apply Hn; [set_solver|]. intros ->. replace (a :: xs ++ y :: ys) with ((a :: xs) ++ y :: ys) in N1 by done. apply NoDup_app in N1 as (_ & N1 & _). by apply (N1 _ (before_in a xs)).
    + intros k Hk. apply Hq; [set_solver|]. intros ->. rewrite <-app_assoc in N2. cbn [app] in N2. apply NoDup_app in N2 as (_ & _ & N2). by apply NoDup_cons in N2 as [N2 _].
Qed.

(** The neighbours of an element are joined. *)
Lemma path_remove n p n' p' a xs e ys z :
  path n p a (xs ++ e :: ys) z -> NoDup (a :: xs ++ ys) -> NoDup ((xs ++ ys) ++ [z]) ->
  n' !! before a xs = Some (after ys z) -> p' !! after ys z = Some (before a xs) ->
  (forall k, k ∈ a :: xs ++ ys -> k ≠ before a xs -> n' !! k = n !! k) ->
  (forall k, k ∈ (xs ++ ys) ++ [z] -> k ≠ after ys z -> p' !! k = p !! k) ->
  path n' p' a (xs ++ ys) z.
Proof.
  intros Hp N1 N2 E1 E2 Hn Hq. apply path_app in Hp as [Hp1 Hp2].
  assert (path n' p' (before a xs) ys z) as Hright.
  { destruct ys as [|y ys]; [done|]. unfold after in *. cbn [head default from_option id] in *. cbn [path] in *. split_and!; [done|done|].
    destruct Hp2 as (_ & _ & Hp2). eapply path_same; [exact Hp2| |].
    + intros k Hk. apply Hn; [set_solver|]. intros ->. replace (a :: xs ++ y :: ys) with ((a :: xs) ++ y :: ys) in N1 by done. apply NoDup_app in N1 as (_ & N1 & _). by apply (N1 _ (before_in a xs)).
    + intros k Hk. apply Hq; [set_solver|]. intros ->. rewrite <-app_assoc in N2. cbn [app] in N2. apply NoDup_app in N2 as (_ & _ & N2). by apply NoDup_cons in N2 as [N2 _]. }
  destruct xs as [|x xs _] using rev_ind; [done|]. unfold before in *. rewrite last_snoc in *. cbn [default from_option id] in *.
  rewrite <-app_assoc in *. cbn [app] in *. apply path_app. split; [|done]. apply path_app in Hp1 as [Hp1 _].
  eapply path_same; [exact Hp1| |].
  - intros k Hk. apply Hn; [set_solver|]. intros ->. apply NoDup_cons in N1 as [N0 N1]. apply NoDup_app in N1 as (_ & N1 & _). set_solver.
  - intros k Hk. apply Hq; [set_solver|]. intros ->. replace (xs ++ (x :: ys) ++ [z]) with ((xs ++ [x]) ++ ys ++ [z]) in N2 by (by rewrite <-app_assoc).
    apply NoDup_app in N2 as (_ & N2 & _). apply (N2 _ Hk), after_in.
Qed.

(** ** What a heap stands for *)

Record stands_for (h : Heap V) (s : Seqs) : Prop := {
  sf_ring : forall l xs, s !! l = Some xs -> path (nxt h) (prv h) l xs l;
  sf_nodup : forall l xs, s !! l = Some xs -> NoDup xs;
  sf_len : forall l xs, s !! l = Some xs -> lens h !! l = Some (zlen xs);
  sf_owner : forall e l, owner h !! e = Some l <-> exists xs, s !! l = Some xs /\ e ∈ xs;
  sf_root : forall l xs, s !! l = Some xs -> owner h !! l = None;
  sf_fresh : forall k, is_Some (s !! k) \/ is_Some (owner h !! k) -> (k < fresh h)%nat
}.

Section ops.
  Context (h : Heap V) (s : Seqs) (Hs : stands_for h s).

Lemma ring_nodup l xs : s !! l = Some xs -> NoDup (l :: xs).
Proof.
  intros Hl. apply NoDup_cons. split; [|by eapply sf_nodup]. intros Hin. pose proof (sf_root _ _ Hs l xs Hl) as Hr.
  assert (owner h !! l = Some l) as Ho by (apply (sf_owner _ _ Hs); by exists xs). congruence.
Qed.

Lemma ring_nodup_end l xs : s !! l = Some xs -> NoDup (xs ++ [l]).
Proof. intros Hl. rewrite <-(NoDup_Permutation_proper _ _ (Permutation_cons_append xs l)). by apply ring_nodup. Qed.

(** Lists have no nodes in common. *)
Lemma rings_disjoint l xs m ys k : s !! l = Some xs -> s !! m = Some ys -> l ≠ m -> k ∈ l :: xs -> k ∉ m :: ys.
Proof.
  intros Hl Hm Hne [->|Hk]%elem_of_cons [->|Hk']%elem_of_cons; [done| | |].
  - pose proof (sf_root _ _ Hs _ _ Hl) as Hr. assert (owner h !! l = Some m) by (apply (sf_owner _ _ Hs); by exists ys). congruence.
  - pose proof (sf_root _ _ Hs _ _ Hm) as Hr. assert (owner h !! m = Some l) by (apply (sf_owner _ _ Hs); by exists xs). congruence.
  - assert (owner h !! k = Some l) by (apply (sf_owner _ _ Hs); by exists xs). assert (owner h !! k = Some m) by (apply (sf_owner _ _ Hs); by exists ys). congruence.
Qed.

(** A heap in which one list has changed. *)
Lemma stands_update h' l xs xs' :
  s !! l = Some xs -> path (nxt h') (prv h') l xs' l -> NoDup xs' -> lens h' = <[l := zlen xs']> (lens h) ->
  (forall e m, owner h' !! e = Some m <-> if decide (m = l) then e ∈ xs' else owner h !! e = Some m) ->
  (forall e, e ∈ xs' -> e ∈ xs \/ owner h !! e = None /\ s !! e = None /\ (e < fresh h)%nat) ->
  (forall k, k ∉ l :: xs -> k ∉ xs' -> nxt h' !! k = nxt h !! k /\ prv h' !! k = prv h !! k) ->
  fresh h' = fresh h -> stands_for h' (<[l := xs']> s).
Proof.
  intros Hl Hp Hnd Hlen Hown Hnew Hframe Hfresh.
  assert (forall m ys k, l ≠ m -> s !! m = Some ys -> k ∈ m :: ys -> (k ∉ l :: xs) /\ (k ∉ xs')) as Hother.
  { intros m ys k Hne Hm Hk. assert (k ∉ l :: xs) as Hk' by (intros Hin; by apply (rings_disjoint l xs m ys k)). split; [done|]. intros Hin.
    destruct (Hnew k Hin) as [?|(Ho & Hns & _)]; [apply Hk'; by apply list_elem_of_further|].
    apply elem_of_cons in Hk as [->|Hk]; [by rewrite Hm in Hns|]. assert (owner h !! k = Some m) by (apply (sf_owner _ _ Hs); by exists ys). congruence. }
  split.
  - intros m ys [[<- <-]|[Hne Hm]]%lookup_insert_Some; [done|]. eapply path_same; [by eapply (sf_ring _ _ Hs)| |]; intros k Hk.
    + destruct (Hother m ys k Hne Hm Hk) as [K1 K2]. by apply Hframe.
    + destruct (Hother m ys k Hne Hm) as [K1 K2]; [apply elem_of_app in Hk as [Hk| ->%list_elem_of_singleton]; [by apply list_elem_of_further|by apply list_elem_of_here]|]. by apply Hframe.
  - intros m ys [[<- <-]|[Hne Hm]]%lookup_insert_Some; [done|]. by apply (sf_nodup _ _ Hs m).
  - intros m ys [[<- <-]|[Hne Hm]]%lookup_insert_Some; rewrite Hlen; [by rewrite lookup_insert_eq|]. rewrite lookup_insert_ne by done. by apply (sf_len _ _ Hs).
  - intros e m. rewrite Hown. destruct (decide (m = l)) as [->|Hne].
    + split; [intros He; exists xs'; by rewrite lookup_insert_eq|]. intros (ys & E & He). rewrite lookup_insert_eq in E. by injection E as ->.
    + rewrite (sf_owner _ _ Hs). by setoid_rewrite (lookup_insert_ne s l m xs' (not_eq_sym Hne)).
  - intros m ys Hm. destruct (owner h' !! m) as [q|] eqn:Eo; [|done]. exfalso. apply Hown in Eo.
    assert (exists ys, s !! m = Some ys) as [zs Hz] by (apply lookup_insert_Some in Hm as [[<- _]|[_ Hm]]; by eexists).
    destruct (decide (q = l)) as [->|Hne]; [|by rewrite (sf_root _ _ Hs m zs) in Eo].
    destruct (Hnew m Eo) as [Hin|(_ & Hns & _)]; [|by rewrite Hz in Hns].
    assert (owner h !! m = Some l) by (apply (sf_owner _ _ Hs); by exists xs). by rewrite (sf_root _ _ Hs m zs) in *.
  - intros k Hk. rewrite Hfresh. destruct Hk as [[ys Hk]|[m Hk]].
    + apply lookup_insert_Some in Hk as [[<- _]|[_ Hk]]; apply (sf_fresh _ _ Hs); left; by eexists.
    + apply Hown in Hk. destruct (decide (m = l)); [|apply (sf_fresh _ _ Hs); right; by eexists].
      destruct (Hnew k Hk) as [Hin|(_ & _ & ?)]; [|done]. apply (sf_fresh _ _ Hs). right. exists l. apply (sf_owner _ _ Hs). by exists xs.
Qed.

Lemma node_known l xs k : s !! l = Some xs -> k ∈ l :: xs -> is_Some (s !! k) \/ is_Some (owner h !! k).
Proof. intros Hl [->|Hk]%elem_of_cons; [left; by eexists|right]. exists l. apply (sf_owner _ _ Hs). by exists xs. Qed.

Lemma owner_of l xs e : s !! l = Some xs -> owner h !! e = Some l <-> e ∈ xs.
Proof.
  intros Hl. rewrite (sf_owner _ _ Hs). split; [|intros He; by exists xs]. intros (ys & E & He). rewrite Hl in E. by injection E as ->.
Qed.

Lemma before_known l xs ys : s !! l = Some (xs ++ ys) -> is_Some (s !! before l xs) \/ is_Some (owner h !! before l xs).
Proof. intros Hl. apply (node_known l (xs ++ ys)); [done|]. pose proof (before_in l xs). set_solver. Qed.

Lemma after_known l xs ys : s !! l = Some (xs ++ ys) -> is_Some (s !! after ys l) \/ is_Some (owner h !! after ys l).
Proof. intros Hl. apply (node_known l (xs ++ ys)); [done|]. pose proof (after_in ys l). set_solver. Qed.

(** A new element after its neighbour. *)
Lemma ring_insert_stands l xs ys e :
  s !! l = Some (xs ++ ys) -> s !! e = None -> owner h !! e = None -> (e < fresh h)%nat ->
  exists h', ring_insert h l e (before l xs) = Ret h' /\ stands_for h' (<[l := xs ++ e :: ys]> s).
Proof.
  intros Hl He1 He2 He3. pose proof (sf_ring _ _ Hs _ _ Hl) as Hp. destruct (path_at _ _ _ _ _ _ Hp) as [Hu Hv].
  assert (e ≠ before l xs) as Neu by (intros ->; destruct (before_known _ _ _ Hl) as [[? E]|[? E]]; congruence).
  assert (e ≠ after ys l) as Nev by (intros ->; destruct (after_known _ _ _ Hl) as [[? E]|[? E]]; congruence).
  pose proof (ring_nodup _ _ Hl) as N1. pose proof (ring_nodup_end _ _ Hl) as N2.
  assert (e ∉ l :: xs ++ ys) as Nin by (intros Hin; destruct (node_known _ _ _ Hl Hin) as [[? E]|[? E]]; congruence).
  unfold ring_insert. cbn [set_prev nxt]. rewrite Hu. cbn [deref mbind res_bind set_next nxt]. rewrite lookup_insert_ne, lookup_insert_eq by done. cbn [deref mbind res_bind].
  eexists. split; [done|]. eapply stands_update; [exact Hl|..]; cbn [set_len set_owner set_prev set_next nxt prv owner lens fresh Len].
  - eapply path_insert; [exact Hp|done|done|by rewrite lookup_insert_eq|by rewrite lookup_insert_ne, lookup_insert_eq|by rewrite lookup_insert_ne, lookup_insert_eq|by rewrite lookup_insert_eq|..]; intros k Hk Hne.
    + rewrite !lookup_insert_ne; [done|by intros ->|done].
    + rewrite !lookup_insert_ne; [done|intros ->; apply Nin; set_solver|done].
  - apply NoDup_cons in N1 as [_ N1]. rewrite <-(NoDup_Permutation_proper _ _ (Permutation_middle xs ys e)). apply NoDup_cons. split; [set_solver|done].
  - unfold Len. cbn [set_len set_owner set_prev set_next lens]. rewrite (sf_len _ _ Hs _ _ Hl). cbn. f_equal. unfold zlen. rewrite !length_app. cbn [length]. lia.
  - intros k m. rewrite lookup_insert_Some. destruct (decide (m = l)) as [->|Hne].
    + rewrite (owner_of l _ k Hl). destruct (decide (e = k)) as [->|]; set_solver.
    + destruct (decide (e = k)) as [->|]; naive_solver congruence.
  - intros k. rewrite elem_of_app, elem_of_cons, elem_of_app. intros [?|[->|?]]; tauto.
  - intros k Hk1 Hk2. pose proof (after_in ys l). pose proof (before_in l xs). rewrite !lookup_insert_ne; [done|..]; intros <-; set_solver.
  - done.
Qed.

Lemma element_links l xs e ys :
  s !! l = Some (xs ++ e :: ys) -> prv h !! e = Some (before l xs) /\ nxt h !! e = Some (after ys l) /\ e ≠ before l xs /\ e ≠ after ys l /\ NoDup (l :: xs ++ ys) /\ NoDup ((xs ++ ys) ++ [l]) /\ e ∉ l :: xs ++ ys.
Proof.
  intros Hl. pose proof (sf_ring _ _ Hs _ _ Hl) as Hp. destruct (path_at _ _ _ xs (e :: ys) _ Hp) as [_ Hpe]. unfold after at 1 in Hpe. cbn in Hpe.
  replace (xs ++ e :: ys) with ((xs ++ [e]) ++ ys) in Hp by (by rewrite <-app_assoc). destruct (path_at _ _ _ (xs ++ [e]) ys _ Hp) as [Hne _].
  unfold before at 1 in Hne. rewrite last_snoc in Hne. cbn in Hne.
  pose proof (ring_nodup _ _ Hl) as N1. assert (l :: xs ++ e :: ys ≡ₚ e :: l :: xs ++ ys) as Hperm by solve_Permutation.
  rewrite (NoDup_Permutation_proper _ _ Hperm) in N1. apply NoDup_cons in N1 as [Nin N1].
  split_and!; [done|done| | |done| |done].
  - intros E. apply Nin. rewrite E. pose proof (before_in l xs). set_solver.
  - intros E. apply Nin. rewrite E. pose proof (after_in ys l). set_solver.
  - rewrite <-(NoDup_Permutation_proper _ _ (Permutation_cons_append (xs ++ ys) l)). done.
Qed.

Lemma ring_remove_stands l xs e ys :
  s !! l = Some (xs ++ e :: ys) -> exists h', ring_remove h l e = Ret h' /\ stands_for h' (<[l := xs ++ ys]> s).
Proof.
  intros Hl. destruct (element_links l xs e ys Hl) as (Hpe & Hne & Neu & Nev & N1 & N2 & Nin). unfold ring_remove. rewrite Hpe, Hne. cbn [deref mbind res_bind set_next nxt prv].
  rewrite lookup_insert_ne, Hne, Hpe by done. cbn [deref mbind res_bind]. eexists. split; [done|].
  eapply stands_update; [exact Hl|..]; cbn [set_len set_owner set_prev set_next nxt prv owner lens fresh].
  - eapply path_remove; [by eapply (sf_ring _ _ Hs)|done|done|by rewrite lookup_delete_ne, lookup_insert_eq|by rewrite lookup_delete_ne, lookup_insert_eq|..]; intros k Hk Hk'.
    + rewrite lookup_delete_ne, lookup_insert_ne; [done|done|by intros ->].
    + rewrite lookup_delete_ne, lookup_insert_ne; [done|done|intros ->; apply Nin; set_solver].
  - by apply NoDup_cons in N1 as [_ N1].
  - unfold Len. cbn [set_len set_owner set_prev set_next lens]. rewrite (sf_len _ _ Hs _ _ Hl). cbn. f_equal. unfold zlen. rewrite !length_app. cbn [length]. lia.
  - intros k m. rewrite lookup_delete_Some. destruct (decide (m = l)) as [->|Hm].
    + rewrite (owner_of l _ k Hl). split; [set_solver|]. intros Hk. split; [intros ->; apply Nin; set_solver|set_solver].
    + split; [tauto|]. intros Ho. split; [|done]. intros ->. assert (owner h !! k = Some l) by (apply (owner_of l _ k Hl); set_solver). congruence.
  - set_solver.
  - intros k Hk1 Hk2. pose proof (after_in ys l). pose proof (before_in l xs). rewrite !lookup_delete_ne, !lookup_insert_ne; [done|..]; intros <-; set_solver.
  - done.
Qed.

Lemma ring_move_stands l as_ e bs xs ys :
  s !! l = Some (as_ ++ e :: bs) -> as_ ++ bs = xs ++ ys ->
  exists h', ring_move h e (before l xs) = Ret h' /\ stands_for h' (<[l := xs ++ e :: ys]> s).
Proof.
  intros Hl Exy. destruct (element_links l as_ e bs Hl) as (Hpe & Hne & Neu & Nev & N1 & N2 & Nin). rewrite Exy in N1, N2, Nin.
  assert (e ≠ before l xs) as Ne1 by (intros E; apply Nin; rewrite E; pose proof (before_in l xs); set_solver).
  assert (e ≠ after ys l) as Ne2 by (intros E; apply Nin; rewrite E; pose proof (after_in ys l); set_solver).
  unfold ring_move. rewrite (proj2 (Nat.eqb_neq _ _)) by done. rewrite Hpe, Hne. cbn [deref mbind res_bind set_next set_prev nxt prv].
  rewrite (lookup_insert_ne (nxt h) _ e) by done. rewrite Hne, Hpe. cbn [deref mbind res_bind]. cbn [deref mbind res_bind set_next set_prev nxt prv].
  set (n1 := <[before l as_ := after bs l]> (nxt h)). set (p1 := <[after bs l := before l as_]> (prv h)).
  assert (path n1 p1 l (xs ++ ys) l) as Hp1.
  { rewrite <-Exy in *. eapply path_remove; [by eapply (sf_ring _ _ Hs)|done|done|by apply lookup_insert_eq|by apply lookup_insert_eq|..]; intros k Hk Hk'; by apply lookup_insert_ne. }
  destruct (path_at _ _ _ _ _ _ Hp1) as [Hu Hv]. rewrite Hu. cbn [deref mbind res_bind]. rewrite lookup_insert_eq. cbn [deref mbind res_bind].
  rewrite lookup_insert_ne, lookup_insert_eq by done. cbn [deref mbind res_bind]. eexists. split; [done|].
  assert (xs ++ e :: ys ≡ₚ as_ ++ e :: bs) as Hperm by (rewrite <-!Permutation_middle, Exy; done).
  eapply stands_update; [exact Hl|..]; cbn [set_len set_owner set_prev set_next nxt prv owner lens fresh].
  - eapply path_insert; [exact Hp1|done|done|by rewrite lookup_insert_eq|by rewrite lookup_insert_ne, lookup_insert_eq|by rewrite lookup_insert_ne, lookup_insert_eq|by rewrite lookup_insert_eq|..]; intros k Hk Hk'.
    + rewrite lookup_insert_ne by done. rewrite lookup_insert_ne; [done|by intros ->].
    + rewrite lookup_insert_ne by done. rewrite lookup_insert_ne; [done|intros ->; apply Nin; set_solver].
  - rewrite (NoDup_Permutation_proper _ _ Hperm). by apply (sf_nodup _ _ Hs l).
  - unfold zlen. rewrite Hperm. symmetry. apply insert_id. by apply (sf_len _ _ Hs).
  - intros k m. destruct (decide (m = l)) as [->|Hm]; [|done]. rewrite (owner_of l _ k Hl). by rewrite Hperm.
  - intros k Hk. left. by rewrite <-Hperm.
  - intros k Hk1 Hk2. assert (k ∉ l :: xs ++ e :: ys) as Hk3 by (intros Hin; apply Hk1; by rewrite <-Hperm). unfold n1, p1.
    pose proof (before_in l as_). pose proof (after_in bs l). pose proof (before_in l xs). pose proof (after_in ys l). rewrite !lookup_insert_ne; [done|..]; intros <-; set_solver.
  - done.
Qed.
End ops.
End lists.
