(* ===== verification/LinkedListSpec.v ===== *)
(** * Linked lists are sequences

    The operations of [LinkedList] against operations on sequences, for any
    number of lists that share a heap. *)

From S2P Require Import Prelude LinkedList.

(** ** Operations on sequences *)

Definition without (e : nat) (xs : list nat) : list nat := filter (fun x => x ≠ e) xs.

Fixpoint put_before (m e : nat) (xs : list nat) : list nat :=
  match xs with
  | [] => []
  | x :: xs => if (x =? m)%nat then e :: x :: xs else x :: put_before m e xs
  end.

Fixpoint put_after (m e : nat) (xs : list nat) : list nat :=
  match xs with
  | [] => []
  | x :: xs => if (x =? m)%nat then x :: e :: xs else x :: put_after m e xs
  end.

Section spec.
Context {V : Type}.

Inductive op :=
  | ONew
  | OInit (l : nat)
  | OPushFront (l : nat) (v : V) | OPushBack (l : nat) (v : V)
  | OInsertBefore (l : nat) (v : V) (mark : nat) | OInsertAfter (l : nat) (v : V) (mark : nat)
  | ORemove (e : nat) | OListRemove (l e : nat)
  | OMoveToFront (l e : nat) | OMoveToBack (l e : nat)
  | OMoveBefore (l e mark : nat) | OMoveAfter (l e mark : nat).

(** What an operation returns: a list, an element or nil, whether an element
    was removed, a value, or nothing. *)
Inductive result :=
  | RList (l : nat)
  | RElement (e : option nat)
  | RBool (b : bool)
  | RValue (v : V)
  | RNothing.

Definition run (h : Heap V) (o : op) : res (Heap V * result) :=
  match o with
  | ONew => let '(h, l) := New h in Ret (h, RList l)
  | OInit l => Ret (Init h l, RList l)
  | OPushFront l v => '(h, e) ← PushFront h l v; Ret (h, RElement (Some e))
  | OPushBack l v => '(h, e) ← PushBack h l v; Ret (h, RElement (Some e))
  | OInsertBefore l v m => '(h, e) ← InsertBefore h l v m; Ret (h, RElement e)
  | OInsertAfter l v m => '(h, e) ← InsertAfter h l v m; Ret (h, RElement e)
  | ORemove e => '(h, b) ← element_Remove h e; Ret (h, RBool b)
  | OListRemove l e => '(h, v) ← list_Remove h l e; Ret (h, RValue v)
  | OMoveToFront l e => h ← MoveToFront h l e; Ret (h, RNothing)
  | OMoveToBack l e => h ← MoveToBack h l e; Ret (h, RNothing)
  | OMoveBefore l e m => h ← MoveBefore h l e m; Ret (h, RNothing)
  | OMoveAfter l e m => h ← MoveAfter h l e m; Ret (h, RNothing)
  end.

(** The operation on the sequence of its list; [n] is the address of a new
    element. *)
Definition on_list (s : Seqs) (l : nat) (f : list nat -> list nat) : Seqs := alter f l s.

Definition seqs_after (s : Seqs) (n : nat) (o : op) : Seqs :=
  match o with
  | ONew => <[n := []]> s
  | OInit l => <[l := []]> s
  | OPushFront l _ => on_list s l (fun xs => n :: xs)
  | OPushBack l _ => on_list s l (fun xs => xs ++ [n])
  | OInsertBefore l _ m => on_list s l (put_before m n)
  | OInsertAfter l _ m => on_list s l (put_after m n)
  | ORemove e => without e <$> s
  | OListRemove l e => on_list s l (without e)
  | OMoveToFront l e => on_list s l (fun xs => if bool_decide (e ∈ xs) then e :: without e xs else xs)
  | OMoveToBack l e => on_list s l (fun xs => if bool_decide (e ∈ xs) then without e xs ++ [e] else xs)
  | OMoveBefore l e m => on_list s l (fun xs => if bool_decide (e ∈ xs /\ e ≠ m /\ m ∈ xs) then put_before m e (without e xs) else xs)
  | OMoveAfter l e m => on_list s l (fun xs => if bool_decide (e ∈ xs /\ e ≠ m /\ m ∈ xs) then put_after m e (without e xs) else xs)
  end.

(** What it returns. *)
Definition answer (s : Seqs) (vs : gmap nat V) (n : nat) (o : op) : result :=
  match o with
  | ONew => RList n
  | OInit l => RList l
  | OPushFront _ _ | OPushBack _ _ => RElement (Some n)
  | OInsertBefore l _ m | OInsertAfter l _ m =>
    RElement (if bool_decide (m ∈ default [] (s !! l)) then Some n else None)
  | ORemove e => RBool (existsb (fun p : nat * list nat => bool_decide (e ∈ p.2)) (map_to_list s))
  | OListRemove _ e => match vs !! e with Some v => RValue v | None => RNothing end
  | OMoveToFront _ _ | OMoveToBack _ _ | OMoveBefore _ _ _ | OMoveAfter _ _ _ => RNothing
  end.

(** The value of the element it makes, and whether it takes an address. *)
Definition made (s : Seqs) (o : op) : option V :=
  match o with
  | OPushFront _ v | OPushBack _ v => Some v
  | OInsertBefore l v m | OInsertAfter l v m => if bool_decide (m ∈ default [] (s !! l)) then Some v else None
  | _ => None
  end.

Definition takes (s : Seqs) (o : op) : bool :=
  match o with ONew => true | _ => bool_decide (is_Some (made s o)) end.

(** The sequences with the values of the elements and the next address. *)
Record Spec := mk_spec { seqs : Seqs; values : gmap nat V; next : nat }.

Definition spec (s : Spec) (o : op) : Spec * result :=
  (mk_spec (seqs_after (seqs s) (next s) o)
     match made (seqs s) o with Some v => <[next s := v]> (values s) | None => values s end
     (if takes (seqs s) o then S (next s) else next s),
   answer (seqs s) (values s) (next s) o).

(** The lists that an operation is called on exist, [Init] is called on an
    empty list, and the element whose value is asked for exists. *)
Definition known (s : Seqs) (vs : gmap nat V) (o : op) : Prop :=
  match o with
  | ONew | ORemove _ => True
  | OInit l => s !! l = Some []
  | OListRemove l e => is_Some (s !! l) /\ is_Some (vs !! e)
  | OPushFront l _ | OPushBack l _ | OInsertBefore l _ _ | OInsertAfter l _ _
  | OMoveToFront l _ | OMoveToBack l _ | OMoveBefore l _ _ | OMoveAfter l _ _ => is_Some (s !! l)
  end.

(** ** Sequences *)

Lemma without_out e xs : e ∉ xs -> without e xs = xs.
Proof.
  intros He. apply filter_true. by intros x Hx ->.
Qed.

Lemma without_split e xs ys : NoDup (xs ++ e :: ys) -> without e (xs ++ e :: ys) = xs ++ ys.
Proof.
  intros (_ & N1 & N2)%NoDup_app. apply NoDup_cons in N2 as [N2 _]. unfold without. rewrite filter_app, filter_cons_False by auto.
  fold (without e xs) (without e ys). rewrite !without_out; [done|done|]. intros Hin. apply (N1 e Hin), list_elem_of_here.
Qed.

Lemma put_before_split m e xs ys : m ∉ xs -> put_before m e (xs ++ m :: ys) = xs ++ e :: m :: ys.
Proof.
  induction xs as [|x xs IH]; cbn [app put_before]; [by rewrite Nat.eqb_refl|]. intros [Hx Hm]%not_elem_of_cons.
  rewrite (proj2 (Nat.eqb_neq x m)) by congruence. by rewrite IH.
Qed.

Lemma put_after_split m e xs ys : m ∉ xs -> put_after m e (xs ++ m :: ys) = xs ++ m :: e :: ys.
Proof.
  induction xs as [|x xs IH]; cbn [app put_after]; [by rewrite Nat.eqb_refl|]. intros [Hx Hm]%not_elem_of_cons.
  rewrite (proj2 (Nat.eqb_neq x m)) by congruence. by rewrite IH.
Qed.

Lemma put_before_out m e xs : m ∉ xs -> put_before m e xs = xs.
Proof. induction xs as [|x xs IH]; [done|]. intros [Hx Hm]%not_elem_of_cons. cbn. rewrite (proj2 (Nat.eqb_neq x m)) by congruence. by rewrite IH. Qed.

Lemma put_after_out m e xs : m ∉ xs -> put_after m e xs = xs.
Proof. induction xs as [|x xs IH]; [done|]. intros [Hx Hm]%not_elem_of_cons. cbn. rewrite (proj2 (Nat.eqb_neq x m)) by congruence. by rewrite IH. Qed.

Lemma before_snoc a xs x : before a (xs ++ [x]) = x.
Proof. unfold before. by rewrite last_snoc. Qed.

Lemma before_app_ne a xs ys : ys ≠ [] -> before a (xs ++ ys) = before a ys.
Proof. intros Hne. destruct ys as [|y ys _] using rev_ind; [done|]. by rewrite app_assoc, !before_snoc. Qed.

Lemma before_cons_ne a x ys : ys ≠ [] -> before a (x :: ys) = before a ys.
Proof. apply (before_app_ne a [x]). Qed.

Lemma on_list_at s l xs f : s !! l = Some xs -> on_list s l f = <[l := f xs]> s.
Proof. intros Hl. unfold on_list. apply map_eq. intros k. destruct (decide (l = k)) as [<-|Hne]; [by rewrite lookup_alter_eq, Hl, lookup_insert_eq|by rewrite lookup_alter_ne, lookup_insert_ne]. Qed.

Lemma on_list_id s l xs f : s !! l = Some xs -> f xs = xs -> on_list s l f = s.
Proof. intros Hl Hf. by rewrite (on_list_at s l xs), Hf, insert_id. Qed.

(** ** The heap does it *)

(** Linking changes neither the values nor the next address. *)
Lemma ring_insert_frame (h h' : Heap V) l e a : ring_insert h l e a = Ret h' -> vals h' = vals h /\ fresh h' = fresh h.
Proof.
  unfold ring_insert, deref. cbn [mbind res_bind]. intros H.
  repeat (case_match; cbn [mbind res_bind] in H; try done); by simplify_eq.
Qed.

Lemma ring_remove_frame (h h' : Heap V) l e : ring_remove h l e = Ret h' -> vals h' = vals h /\ fresh h' = fresh h.
Proof.
  unfold ring_remove, deref. cbn [mbind res_bind]. intros H.
  repeat (case_match; cbn [mbind res_bind] in H; try done); by simplify_eq.
Qed.

Lemma ring_move_frame (h h' : Heap V) e a : ring_move h e a = Ret h' -> vals h' = vals h /\ fresh h' = fresh h.
Proof.
  unfold ring_move, deref. cbn [mbind res_bind]. intros H.
  repeat (case_match; cbn [mbind res_bind] in H; try done); by simplify_eq.
Qed.

Lemma insertValue_frame (h h' : Heap V) l v a e :
  insertValue h l v a = Ret (h', e) -> vals h' = <[fresh h := v]> (vals h) /\ fresh h' = S (fresh h).
Proof.
  unfold insertValue. destruct (ring_insert _ _ _ _) as [h1| |] eqn:E; cbn [mbind res_bind]; [|done..].
  intros [= <- _]. by apply ring_insert_frame in E.
Qed.

Section refines.
  Context (h : Heap V) (s : Seqs) (Hs : stands_for h s).

(** A new element in a known list. *)
Lemma insertValue_stands l v xs ys :
  s !! l = Some (xs ++ ys) -> exists h', insertValue h l v (before l xs) = Ret (h', fresh h) /\ stands_for h' (<[l := xs ++ fresh h :: ys]> s).
Proof.
  intros Hl. set (h1 := mk_heap (nxt h) (prv h) (owner h) (<[fresh h := v]> (vals h)) (lens h) (S (fresh h))).
  assert (stands_for h1 s) as H1 by (destruct Hs as [K1 K2 K3 K4 K5 K6]; split; try done; intros k Hk; specialize (K6 k Hk); cbn [fresh h1]; lia).
  assert (s !! fresh h = None) as Hn by (destruct (s !! fresh h) eqn:E; [|done]; pose proof (sf_fresh _ _ Hs (fresh h) (or_introl (mk_is_Some _ _ E))); lia).
  assert (owner h !! fresh h = None) as Ho by (destruct (owner h !! fresh h) eqn:E; [|done]; pose proof (sf_fresh _ _ Hs (fresh h) (or_intror (mk_is_Some _ _ E))); lia).
  destruct (ring_insert_stands h1 s H1 l xs ys (fresh h) Hl Hn Ho) as (h' & E & Hs'); [cbn; lia|]. exists h'. unfold insertValue. fold h1. by rewrite E.
Qed.

Lemma lazyInit_known l xs : s !! l = Some xs -> lazyInit h l = h.
Proof. intros Hl. unfold lazyInit. destruct (path_at _ _ _ [] _ _ (sf_ring _ _ Hs _ _ Hl)) as [E _]. cbn in E. by rewrite E. Qed.

Lemma prev_root l xs : s !! l = Some xs -> prv h !! l = Some (before l xs).
Proof. intros Hl. pose proof (sf_ring _ _ Hs _ _ Hl) as Hp. rewrite <-(app_nil_r xs) in Hp. by destruct (path_at _ _ _ _ _ _ Hp) as [_ ?]. Qed.

Lemma prev_at l xs e ys : s !! l = Some (xs ++ e :: ys) -> prv h !! e = Some (before l xs).
Proof. intros Hl. by destruct (element_links h s Hs l xs e ys Hl) as (? & _). Qed.

Lemma next_root l xs : s !! l = Some xs -> nxt h !! l = Some (after xs l).
Proof. intros Hl. by destruct (path_at _ _ _ [] _ _ (sf_ring _ _ Hs _ _ Hl)) as [? _]. Qed.

Lemma owner_dec l xs e : s !! l = Some xs -> bool_decide (owner h !! e ≠ Some l) = negb (bool_decide (e ∈ xs)).
Proof.
  intros Hl. pose proof (owner_of h s Hs l xs e Hl) as Ho. destruct (decide (e ∈ xs)) as [Hin|Hout].
  - rewrite (bool_decide_eq_true_2 (e ∈ xs)) by done. apply bool_decide_eq_false_2. intros Hne. by apply Hne, Ho.
  - rewrite (bool_decide_eq_false_2 (e ∈ xs)) by done. apply bool_decide_eq_true_2. intros E. by apply Hout, Ho.
Qed.

(** An element that is in a list is moved to a place of what is left. *)
Lemma move_stands l xs e ys zs :
  s !! l = Some xs -> e ∈ xs -> without e xs = ys ++ zs -> exists h', ring_move h e (before l ys) = Ret h' /\ stands_for h' (<[l := ys ++ e :: zs]> s).
Proof.
  intros Hl He Ew. apply list_elem_of_split in He as (as_ & bs & ->). rewrite without_split in Ew by (by apply (sf_nodup _ _ Hs l)). by apply (ring_move_stands h s Hs l as_ e bs).
Qed.

Lemma remove_stands l xs e : s !! l = Some xs -> e ∈ xs -> exists h', ring_remove h l e = Ret h' /\ stands_for h' (<[l := without e xs]> s).
Proof.
  intros Hl He. apply list_elem_of_split in He as (as_ & bs & ->). rewrite without_split by (by apply (sf_nodup _ _ Hs l)). by apply (ring_remove_stands h s Hs).
Qed.

(** Only its list has an element. *)
Lemma remove_everywhere l xs e : s !! l = Some xs -> e ∈ xs -> without e <$> s = <[l := without e xs]> s.
Proof.
  intros Hl He. apply map_eq. intros m. rewrite lookup_fmap. destruct (decide (l = m)) as [<-|Hne]; [by rewrite lookup_insert_eq, Hl|]. rewrite lookup_insert_ne by done.
  destruct (s !! m) as [ys|] eqn:Hm; [|done]. cbn. f_equal. apply without_out. intros Hin. apply (rings_disjoint h s Hs l xs m ys e); try done; by apply list_elem_of_further.
Qed.

(** The neighbour of a mark, before the element is taken out. *)
Lemma mark_prev l xs e m ys zs :
  s !! l = Some xs -> e ∈ xs -> without e xs = ys ++ m :: zs -> prv h !! m = Some e /\ put_before m e (without e xs) = xs \/ prv h !! m = Some (before l ys).
Proof.
  intros Hl He Ew. apply list_elem_of_split in He as (as_ & bs & ->). pose proof (sf_nodup _ _ Hs l _ Hl) as Hnd. rewrite without_split in * by done.
  assert (NoDup (ys ++ m :: zs)) as Hnd'. { rewrite <-Ew. rewrite <-(NoDup_Permutation_proper _ _ (Permutation_middle as_ bs e)) in Hnd. by apply NoDup_cons in Hnd as [_ ?]. }
  assert (m ∉ ys) as Hm by (apply NoDup_app in Hnd' as (_ & N & _); intros Hin; apply (N m Hin), list_elem_of_here).
  apply app_eq_inv in Ew as [(k & Ea & Eb)|(k & Ea & Eb)].
  - destruct k as [|c k].
    + left. rewrite app_nil_r in Ea. cbn [app] in Eb. subst as_ bs. split; [|by apply put_before_split].
      rewrite (prev_at l (ys ++ [e]) m zs) by (by rewrite <-app_assoc). by rewrite before_snoc.
    + right. cbn [app] in Eb. injection Eb as <- Eb. subst zs. rewrite Ea, <-app_assoc in Hl. cbn [app] in Hl. by rewrite (prev_at l ys m _ Hl).
  - subst ys. destruct k as [|c k _] using rev_ind.
    + left. rewrite app_nil_r in *. cbn [app] in Eb. subst bs. split; [|by apply put_before_split].
      rewrite (prev_at l (as_ ++ [e]) m zs) by (by rewrite <-app_assoc). by rewrite before_snoc.
    + right. rewrite Eb in Hl. rewrite (prev_at l (as_ ++ e :: k ++ [c]) m zs) by (rewrite Hl, <-!app_assoc; cbn [app]; by rewrite <-!app_assoc).
      f_equal. rewrite !app_assoc, before_snoc. change (e :: k ++ [c]) with ((e :: k) ++ [c]). by rewrite app_assoc, before_snoc.
Qed.

Lemma New_stands : stands_for (New h).1 (<[fresh h := []]> s).
Proof.
  assert (s !! fresh h = None) as Hn by (destruct (s !! fresh h) eqn:E; [|done]; pose proof (sf_fresh _ _ Hs (fresh h) (or_introl (mk_is_Some _ _ E))); lia).
  assert (owner h !! fresh h = None) as Ho by (destruct (owner h !! fresh h) eqn:E; [|done]; pose proof (sf_fresh _ _ Hs (fresh h) (or_intror (mk_is_Some _ _ E))); lia).
  split; cbn [New fst Init set_len set_prev set_next nxt prv owner lens fresh].
  - intros l xs [[<- <-]|[Hne Hl]]%lookup_insert_Some; [cbn [path]; by rewrite !lookup_insert_eq|]. eapply path_same; [by eapply (sf_ring _ _ Hs)| |]; intros k Hk; apply lookup_insert_ne; intros <-.
    + destruct (node_known h s Hs l xs _ Hl Hk) as [[? E]|[? E]]; congruence.
    + destruct (node_known h s Hs l xs (fresh h) Hl) as [[? E]|[? E]]; [set_solver|congruence..].
  - intros l xs [[<- <-]|[Hne Hl]]%lookup_insert_Some; [constructor|by apply (sf_nodup _ _ Hs l)].
  - intros l xs [[<- <-]|[Hne Hl]]%lookup_insert_Some; [by rewrite lookup_insert_eq|]. rewrite lookup_insert_ne by done. by apply (sf_len _ _ Hs).
  - intros e l. rewrite (sf_owner _ _ Hs). split; intros (xs & Hl & He); exists xs; (split; [|done]).
    + rewrite lookup_insert_ne; [done|]. intros <-. congruence.
    + apply lookup_insert_Some in Hl as [[_ <-]|[_ Hl]]; [by apply not_elem_of_nil in He|done].
  - intros l xs [[<- <-]|[Hne Hl]]%lookup_insert_Some; [done|by eapply (sf_root _ _ Hs)].
  - intros k [[xs Hk]|Hk]; [apply lookup_insert_Some in Hk as [[<- _]|[_ Hk]]; [lia|]|]; enough (k < fresh h)%nat by lia; apply (sf_fresh _ _ Hs); [left; by eexists|by right].
Qed.

Lemma without_in x e xs : x ∈ without e xs <-> x ≠ e /\ x ∈ xs.
Proof. unfold without. by rewrite list_elem_of_filter. Qed.

(** Operations that insert. *)
Lemma insert_refines o :
  match o with OPushFront _ _ | OPushBack _ _ | OInsertBefore _ _ _ | OInsertAfter _ _ _ => True | _ => False end -> known s (vals h) o ->
  exists h', run h o = Ret (h', answer s (vals h) (fresh h) o) /\ stands_for h' (seqs_after s (fresh h) o).
Proof.
  intros Ho Hk. destruct o as [| |l v|l v|l v m|l v m| | | | | |]; try done; cbn [known] in Hk; destruct Hk as [xs Hl]; cbn [run seqs_after answer]; rewrite (on_list_at s l xs) by done.
  - unfold PushFront. rewrite (lazyInit_known l xs) by done. destruct (insertValue_stands l v [] xs Hl) as (h' & E & Hs'). change (before l []) with l in E. rewrite E. by exists h'.
  - unfold PushBack. rewrite (lazyInit_known l xs), (prev_root l xs) by done. cbn [deref mbind res_bind].
    destruct (insertValue_stands l v xs []) as (h' & E & Hs'); [by rewrite app_nil_r|]. rewrite E. by exists h'.
  - unfold InsertBefore. rewrite (owner_dec l xs), Hl by done. cbn [default from_option id]. destruct (decide (m ∈ xs)) as [Hm|Hm].
    + rewrite bool_decide_eq_true_2 by done. cbn [negb]. apply list_elem_of_split_l in Hm as (ys & zs & -> & Hm). rewrite (prev_at l ys m zs) by done. cbn [deref mbind res_bind].
      rewrite put_before_split by done. destruct (insertValue_stands l v ys (m :: zs) Hl) as (h' & E & Hs'). rewrite E. by exists h'.
    + rewrite bool_decide_eq_false_2, put_before_out by done. cbn [negb]. rewrite insert_id by done. by exists h.
  - unfold InsertAfter. rewrite (owner_dec l xs), Hl by done. cbn [default from_option id]. destruct (decide (m ∈ xs)) as [Hm|Hm].
    + rewrite bool_decide_eq_true_2 by done. cbn [negb]. apply list_elem_of_split_l in Hm as (ys & zs & -> & Hm). rewrite put_after_split by done.
      destruct (insertValue_stands l v (ys ++ [m]) zs) as (h' & E & Hs'); [by rewrite <-app_assoc|]. rewrite before_snoc in E. rewrite E. rewrite <-app_assoc in Hs'. by exists h'.
    + rewrite bool_decide_eq_false_2, put_after_out by done. cbn [negb]. rewrite insert_id by done. by exists h.
Qed.

(** Whether an element is in a list. *)
Lemma listed_true e l xs : s !! l = Some xs -> e ∈ xs -> existsb (fun p : nat * list nat => bool_decide (e ∈ p.2)) (map_to_list s) = true.
Proof.
  intros Hl He. apply existsb_exists. exists (l, xs). split; [|by apply bool_decide_eq_true_2].
  by apply list_elem_of_In, elem_of_map_to_list.
Qed.

Lemma listed_false e : owner h !! e = None -> existsb (fun p : nat * list nat => bool_decide (e ∈ p.2)) (map_to_list s) = false.
Proof.
  intros Ho. apply not_true_iff_false. rewrite existsb_exists. intros ([l xs] & Hin & He).
  apply list_elem_of_In, elem_of_map_to_list in Hin. apply bool_decide_eq_true_1 in He.
  by rewrite (proj2 (sf_owner _ _ Hs e l) (ex_intro _ xs (conj Hin He))) in Ho.
Qed.

(** Operations that remove. *)
Lemma remove_refines o :
  match o with ORemove _ | OListRemove _ _ => True | _ => False end -> known s (vals h) o ->
  exists h', run h o = Ret (h', answer s (vals h) (fresh h) o) /\ stands_for h' (seqs_after s (fresh h) o).
Proof.
  intros Ho Hk. destruct o as [| |l v|l v|l v m|l v m|e|l e| | | |]; try done; cbn [run seqs_after answer].
  - unfold element_Remove. destruct (owner h !! e) as [l|] eqn:Eo.
    + apply (sf_owner _ _ Hs) in Eo as (xs & Hl & He). rewrite (remove_everywhere l xs) by done. destruct (remove_stands l xs e Hl He) as (h' & -> & Hs'). exists h'. split; [|done].
      cbn [mbind res_bind]. by rewrite (listed_true e l xs).
    + cbn [mbind res_bind]. rewrite (listed_false e) by done. replace (without e <$> s) with s; [by exists h|]. symmetry. apply map_eq. intros l. rewrite lookup_fmap. destruct (s !! l) as [xs|] eqn:Hl; [|done].
      cbn. f_equal. apply without_out. intros He. by rewrite (proj2 (sf_owner _ _ Hs e l) (ex_intro _ xs (conj Hl He))) in Eo.
  - destruct Hk as [[xs Hl] [v Hv]]. rewrite (on_list_at s l xs), Hv by done. unfold list_Remove. pose proof (owner_of h s Hs l xs e Hl) as Hw. destruct (decide (e ∈ xs)) as [He|He].
    + rewrite bool_decide_eq_true_2 by (by apply Hw). destruct (remove_stands l xs e Hl He) as (h' & E & Hs'). rewrite E. apply ring_remove_frame in E as [E _].
      cbn [mbind res_bind]. rewrite E, Hv. by exists h'.
    + rewrite bool_decide_eq_false_2 by (by intros ?%Hw). cbn [mbind res_bind]. rewrite Hv, without_out, insert_id by done. by exists h.
Qed.

(** Operations that move. *)
Lemma move_refines o :
  match o with OMoveToFront _ _ | OMoveToBack _ _ | OMoveBefore _ _ _ | OMoveAfter _ _ _ => True | _ => False end -> known s (vals h) o ->
  exists h', run h o = Ret (h', answer s (vals h) (fresh h) o) /\ stands_for h' (seqs_after s (fresh h) o).
Proof.
  assert (forall l (f : list nat -> list nat) xs, s !! l = Some xs -> f xs = xs -> exists h', (h ← Ret h; Ret (h, RNothing)) = Ret (h', RNothing) /\ stands_for h' (on_list s l f)) as Hstay.
  { intros l f xs Hl Hf. exists h. split; [done|]. by rewrite (on_list_id s l xs). }
  intros Ho Hk. destruct o as [| | | | | | | |l e|l e|l e m|l e m]; try done; cbn [known] in Hk; destruct Hk as [xs Hl]; cbn [run seqs_after answer].
  - unfold MoveToFront. rewrite (owner_dec l xs), (next_root l xs) by done. destruct (decide (e ∈ xs)) as [He|He].
    2: { rewrite bool_decide_eq_false_2 by done. cbn [negb orb]. apply (Hstay l _ xs Hl). by rewrite bool_decide_eq_false_2. }
    rewrite (on_list_at s l xs), !(bool_decide_eq_true_2 (e ∈ xs)) by done. cbn [negb orb]. case_bool_decide as Ef.
    + exists h. split; [done|]. assert (e :: without e xs = xs) as ->; [|by rewrite insert_id]. destruct xs as [|x xs]; [by apply not_elem_of_nil in He|].
      unfold after in Ef. cbn in Ef. injection Ef as ->. pose proof (sf_nodup _ _ Hs l _ Hl) as N. apply (without_split e []) in N. cbn [app] in N. by rewrite N.
    + destruct (move_stands l xs e [] (without e xs) Hl He eq_refl) as (h' & E & Hs'). change (before l []) with l in E. rewrite E. by exists h'.
  - unfold MoveToBack. rewrite (owner_dec l xs), (prev_root l xs) by done. destruct (decide (e ∈ xs)) as [He|He].
    2: { rewrite bool_decide_eq_false_2 by done. cbn [negb orb]. apply (Hstay l _ xs Hl). by rewrite bool_decide_eq_false_2. }
    rewrite (on_list_at s l xs), !(bool_decide_eq_true_2 (e ∈ xs)) by done. cbn [negb orb deref mbind res_bind].
    pose proof (sf_nodup _ _ Hs l _ Hl) as N. apply list_elem_of_split in He as (as_ & bs & Exs). assert (without e xs = as_ ++ bs) as Ew by (subst xs; by apply without_split).
    assert (e ∈ xs) as He by (subst xs; set_solver). destruct bs as [|b bs _] using rev_ind.
    + rewrite app_nil_r in Ew. rewrite Exs, before_snoc, bool_decide_eq_true_2 by done. exists h. split; [done|]. rewrite <-Exs, Ew, <-Exs, insert_id by done. done.
    + rewrite Exs. replace (before l (as_ ++ e :: bs ++ [b])) with b by (change (e :: bs ++ [b]) with ((e :: bs) ++ [b]); by rewrite app_assoc, before_snoc). rewrite <-Exs.
      rewrite bool_decide_eq_false_2.
      2: { intros [= ->]. rewrite Exs in N. apply NoDup_app in N as (_ & _ & N). apply NoDup_cons in N as [N _]. apply N. set_solver. }
      destruct (move_stands l xs e (without e xs) [] Hl He) as (h' & E & Hs'); [by rewrite app_nil_r|]. rewrite Ew, app_assoc, before_snoc in E. rewrite E. by exists h'.
  - unfold MoveBefore. rewrite !(owner_dec l xs) by done. destruct (decide (e ∈ xs /\ e ≠ m /\ m ∈ xs)) as [(He & Hne & Hm)|Hno].
    2: { replace (_ || _ || _) with true; [apply (Hstay l _ xs Hl); by rewrite bool_decide_eq_false_2|].
         destruct (decide (e ∈ xs)); [|by rewrite bool_decide_eq_false_2]. destruct (decide (e = m)) as [->|]; [by rewrite Nat.eqb_refl, orb_true_r|].
         rewrite (bool_decide_eq_false_2 (m ∈ xs)) by tauto. by rewrite orb_true_r. }
    rewrite (on_list_at s l xs), (bool_decide_eq_true_2 (e ∈ xs /\ _)) by done. rewrite !bool_decide_eq_true_2, (proj2 (Nat.eqb_neq e m)) by done. cbn [negb orb].
    assert (m ∈ without e xs) as Hw by (apply without_in; auto). apply list_elem_of_split_l in Hw as (ys & zs & Ew & Hy).
    destruct (mark_prev l xs e m ys zs Hl He Ew) as [[-> Eput]| ->]; cbn [deref mbind res_bind].
    + rewrite Eput, insert_id by done. unfold ring_move. rewrite Nat.eqb_refl. by exists h.
    + destruct (move_stands l xs e ys (m :: zs) Hl He Ew) as (h' & -> & Hs'). rewrite Ew, put_before_split by done. by exists h'.
  - unfold MoveAfter. rewrite !(owner_dec l xs) by done. destruct (decide (e ∈ xs /\ e ≠ m /\ m ∈ xs)) as [(He & Hne & Hm)|Hno].
    2: { replace (_ || _ || _) with true; [apply (Hstay l _ xs Hl); by rewrite bool_decide_eq_false_2|].
         destruct (decide (e ∈ xs)); [|by rewrite bool_decide_eq_false_2]. destruct (decide (e = m)) as [->|]; [by rewrite Nat.eqb_refl, orb_true_r|].
         rewrite (bool_decide_eq_false_2 (m ∈ xs)) by tauto. by rewrite orb_true_r. }
    rewrite (on_list_at s l xs), (bool_decide_eq_true_2 (e ∈ xs /\ _)) by done. rewrite !bool_decide_eq_true_2, (proj2 (Nat.eqb_neq e m)) by done. cbn [negb orb].
    assert (m ∈ without e xs) as Hw by (apply without_in; auto). apply list_elem_of_split_l in Hw as (ys & zs & Ew & Hy).
    destruct (move_stands l xs e (ys ++ [m]) zs Hl He) as (h' & E & Hs'); [by rewrite <-app_assoc|]. rewrite before_snoc in E. rewrite E, Ew, put_after_split by done.
    rewrite <-app_assoc in Hs'. by exists h'.
Qed.

(** What the heap answers is what the sequences say. *)
Lemma observers l xs :
  s !! l = Some xs -> Len h l = zlen xs /\ Front h l = head xs /\ Back h l = last xs /\
  forall ys e zs, xs = ys ++ e :: zs -> Next h e = head zs /\ Prev h e = last ys.
Proof.
  intros Hl. assert (Len h l = zlen xs) as Hlen by (unfold Len; by rewrite (sf_len _ _ Hs _ _ Hl)). split; [done|].
  assert (forall k, k ∈ xs -> k ≠ l) as Hnl by (intros k Hk ->; pose proof (ring_nodup h s Hs l xs Hl) as N; by apply NoDup_cons in N as [N _]).
  unfold Front, Back. rewrite Hlen, (next_root l xs), (prev_root l xs) by done. split_and!.
  - destruct xs as [|x xs]; [done|]. rewrite (proj2 (Z.eqb_neq _ 0)); [done|]. unfold zlen. cbn [length]. lia.
  - destruct xs as [|x xs _] using rev_ind; [done|]. rewrite (proj2 (Z.eqb_neq _ 0)); [by rewrite before_snoc, last_snoc|]. unfold zlen. rewrite length_app. cbn [length]. lia.
  - intros ys e zs ->. destruct (element_links h s Hs l ys e zs Hl) as (Hp & Hn & _). unfold Next, Prev. rewrite (proj2 (owner_of h s Hs l _ e Hl)), Hp, Hn by set_solver. split.
    + destruct zs as [|z zs]; unfold after; cbn; [by rewrite bool_decide_eq_false_2 by auto|]. rewrite bool_decide_eq_true_2; [done|]. intros [= ->]. apply (Hnl l); [set_solver|done].
    + destruct ys as [|y ys _] using rev_ind; [unfold before; cbn; by rewrite bool_decide_eq_false_2 by auto|]. rewrite before_snoc, last_snoc, bool_decide_eq_true_2; [done|].
      intros [= ->]. apply (Hnl l); [set_solver|done].
Qed.
End refines.

(** ** Any operations *)

Lemma Init_stands (h : Heap V) s l : stands_for h s -> s !! l = Some [] -> stands_for (Init h l) (<[l := []]> s).
Proof.
  intros Hs Hl. destruct (sf_ring _ _ Hs l [] Hl) as [Hn Hp]. pose proof (sf_len _ _ Hs l [] Hl) as Hlen.
  rewrite (insert_id s l []) by done. unfold Init, set_len, set_prev, set_next. cbn [nxt prv owner vals lens fresh].
  rewrite !insert_id by done. by destruct h.
Qed.

(** The values and the addresses of the sequences are those of the heap. *)
Definition represents (h : Heap V) (s : Spec) : Prop :=
  stands_for h (seqs s) /\ vals h = values s /\ fresh h = next s.

Lemma run_refines h s o :
  stands_for h s -> known s (vals h) o ->
  exists h', run h o = Ret (h', answer s (vals h) (fresh h) o) /\ stands_for h' (seqs_after s (fresh h) o).
Proof.
  intros Hs Hk. destruct o; try by apply insert_refines. all: try by apply remove_refines. all: try by apply move_refines.
  - exists (New h).1. cbn [run seqs_after answer]. destruct (New h) as [h' l] eqn:E. split; [|rewrite <-E; by apply New_stands]. unfold New in E. by injection E as <- <-.
  - exists (Init h l). split; [done|]. by apply Init_stands.
Qed.

(** The values and the next address after an operation. *)
Lemma run_frame h s o h' x :
  stands_for h s -> known s (vals h) o -> run h o = Ret (h', x) ->
  vals h' = match made s o with Some v => <[fresh h := v]> (vals h) | None => vals h end /\
  fresh h' = (if takes s o then S (fresh h) else fresh h).
Proof.
  intros Hs Hk Hr. destruct o as [|l|l v|l v|l v m|l v m|e|l e|l e|l e|l e m|l e m]; cbn [run made takes known] in *.
  - by injection Hr as <- _.
  - by injection Hr as <- _.
  - destruct Hk as [xs Hl]. unfold PushFront in Hr. rewrite (lazyInit_known h s Hs l xs) in Hr by done.
    destruct (insertValue _ _ _ _) as [[h1 e]| |] eqn:E; cbn [mbind res_bind] in Hr; simplify_eq. by apply insertValue_frame in E.
  - destruct Hk as [xs Hl]. unfold PushBack, deref in Hr. rewrite (lazyInit_known h s Hs l xs) in Hr by done.
    destruct (prv h !! l); cbn [mbind res_bind] in Hr; [|done].
    destruct (insertValue _ _ _ _) as [[h1 e]| |] eqn:E; cbn [mbind res_bind] in Hr; simplify_eq. by apply insertValue_frame in E.
  - destruct Hk as [xs Hl]. rewrite Hl. unfold InsertBefore, deref in Hr. rewrite (owner_dec h s Hs l xs) in Hr by done. cbn [default from_option id].
    destruct (bool_decide (m ∈ xs)); cbn [negb] in Hr; cbn [mbind res_bind] in Hr; [|by simplify_eq].
    destruct (prv h !! m); cbn [mbind res_bind] in Hr; [|done].
    destruct (insertValue _ _ _ _) as [[h1 e]| |] eqn:E; cbn [mbind res_bind] in Hr; simplify_eq. by apply insertValue_frame in E.
  - destruct Hk as [xs Hl]. rewrite Hl. unfold InsertAfter in Hr. rewrite (owner_dec h s Hs l xs) in Hr by done. cbn [default from_option id].
    destruct (bool_decide (m ∈ xs)); cbn [negb] in Hr; cbn [mbind res_bind] in Hr; [|by simplify_eq].
    destruct (insertValue _ _ _ _) as [[h1 e]| |] eqn:E; cbn [mbind res_bind] in Hr; simplify_eq. by apply insertValue_frame in E.
  - unfold element_Remove in Hr. destruct (owner h !! e) as [l|]; cbn [mbind res_bind] in Hr; [|by simplify_eq].
    destruct (ring_remove h l e) as [h1| |] eqn:E; cbn [mbind res_bind] in Hr; simplify_eq. by apply ring_remove_frame in E.
  - unfold list_Remove in Hr. case_bool_decide.
    + destruct (ring_remove h l e) as [h1| |] eqn:E; cbn [mbind res_bind] in Hr; [|done..].
      destruct (vals h1 !! e); cbn [mbind res_bind] in Hr; simplify_eq. by apply ring_remove_frame in E.
    + cbn [mbind res_bind] in Hr. destruct (vals h !! e); cbn [mbind res_bind] in Hr; by simplify_eq.
  - unfold MoveToFront in Hr. destruct (_ || _); cbn [mbind res_bind] in Hr; [by simplify_eq|].
    destruct (ring_move _ _ _) as [h1| |] eqn:E; cbn [mbind res_bind] in Hr; simplify_eq. by apply ring_move_frame in E.
  - unfold MoveToBack, deref in Hr. destruct (_ || _); cbn [mbind res_bind] in Hr; [by simplify_eq|].
    destruct (prv h !! l); cbn [mbind res_bind] in Hr; [|done].
    destruct (ring_move _ _ _) as [h1| |] eqn:E; cbn [mbind res_bind] in Hr; simplify_eq. by apply ring_move_frame in E.
  - unfold MoveBefore, deref in Hr. destruct (_ || _); cbn [mbind res_bind] in Hr; [by simplify_eq|].
    destruct (prv h !! m); cbn [mbind res_bind] in Hr; [|done].
    destruct (ring_move _ _ _) as [h1| |] eqn:E; cbn [mbind res_bind] in Hr; simplify_eq. by apply ring_move_frame in E.
  - unfold MoveAfter in Hr. destruct (_ || _); cbn [mbind res_bind] in Hr; [by simplify_eq|].
    destruct (ring_move _ _ _) as [h1| |] eqn:E; cbn [mbind res_bind] in Hr; simplify_eq. by apply ring_move_frame in E.
Qed.

(** One operation. *)
Lemma run_represents h s o :
  represents h s -> known (seqs s) (values s) o ->
  exists h', run h o = Ret (h', (spec s o).2) /\ represents h' (spec s o).1.
Proof.
  intros (Hs & Hv & Hn) Hk. rewrite <-Hv in Hk. destruct (run_refines h (seqs s) o Hs Hk) as (h' & Hr & Hs').
  destruct (run_frame h (seqs s) o h' _ Hs Hk Hr) as [Hv' Hn']. unfold represents, spec. cbn [fst snd seqs values next].
  rewrite <-Hv, <-Hn. by exists h'.
Qed.

Fixpoint run_all (h : Heap V) (os : list op) : res (Heap V * list result) :=
  match os with
  | [] => Ret (h, [])
  | o :: os => '(h, x) ← run h o; '(h, xs) ← run_all h os; Ret (h, x :: xs)
  end.

Fixpoint spec_all (s : Spec) (os : list op) : Spec * list result :=
  match os with
  | [] => (s, [])
  | o :: os => let '(s, x) := spec s o in let '(s, xs) := spec_all s os in (s, x :: xs)
  end.

(** Every operation is called on what exists at that time, for the
    sequences. *)
Fixpoint all_known (s : Spec) (os : list op) : Prop :=
  match os with
  | [] => True
  | o :: os => known (seqs s) (values s) o /\ all_known (spec s o).1 os
  end.

(** C34: lists that share a heap, under any operations on lists that [New] has
    made, also with elements of other lists or of none ([Init] on empty lists
    only): no pointer is nil where it is followed, every operation does to the
    sequence of its list what it does to a sequence and nothing to the others,
    and returns the list, element, boolean or value that the sequences give;
    afterwards the ends, neighbours, lengths and values are those of the
    sequences. *)
Theorem linked_lists_refine h s os :
  represents h s -> all_known s os ->
  let s' := (spec_all s os).1 in
  exists h', run_all h os = Ret (h', (spec_all s os).2) /\ represents h' s' /\
    forall l ys, seqs s' !! l = Some ys -> Len h' l = zlen ys /\ Front h' l = head ys /\ Back h' l = last ys /\
      forall as_ e bs, ys = as_ ++ e :: bs ->
        Next h' e = head bs /\ Prev h' e = last as_ /\ vals h' !! e = values s' !! e.
Proof.
  revert h s. induction os as [|o os IH]; intros h s Hs Hk; cbn [run_all spec_all all_known fst snd] in *.
  - exists h. split_and!; [done|done|]. intros l ys Hl. destruct Hs as (Hs & Hv & _).
    destruct (observers h _ Hs l ys Hl) as (H1 & H2 & H3 & H4). split_and!; [done..|].
    intros as_ e bs Hys. destruct (H4 as_ e bs Hys). by rewrite Hv.
  - destruct Hk as [Hk1 Hk2]. destruct (run_represents h s o Hs Hk1) as (h1 & E & Hs1). specialize (IH h1 _ Hs1 Hk2).
    destruct (spec s o) as [s1 x]. cbn [fst snd] in *. destruct (spec_all s1 os) as [s' xs]. cbn [fst snd] in *.
    destruct IH as (h' & Eall & Hrest). exists h'. rewrite E. cbn [mbind res_bind]. rewrite Eall. done.
Qed.
End spec.
Arguments op : clear implicits.
Arguments result : clear implicits.

(** Two lists, on an empty heap. *)
Definition empty_heap : Heap Z := mk_heap ∅ ∅ ∅ ∅ ∅ 0.
Definition some_ops : list (op Z) :=
  [ONew; ONew; OInit 1; OPushBack 0 10; OPushFront 0 20; OPushBack 1 30; OMoveBefore 0 2 3;
   OInsertAfter 0 40 2; ORemove 3; ORemove 3; OListRemove 1 4; OListRemove 0 4].

Definition some_results : list (result Z) :=
  [RList 0; RList 1; RList 1; RElement (Some 2%nat); RElement (Some 3%nat); RElement (Some 4%nat); RNothing;
   RElement (Some 5%nat); RBool true; RBool false; RValue 30; RValue 30].

Lemma linked_lists_refine_witness :
  exists h', run_all empty_heap some_ops = Ret (h', some_results) /\
    Front h' 0 = Some 2%nat /\ Len h' 0 = 2.
Proof.
  assert (represents empty_heap (mk_spec ∅ ∅ 0)) as Hs.
  { split; [|done]. split; cbn [empty_heap nxt prv owner lens fresh seqs]; try (intros l xs Hl; by rewrite lookup_empty in Hl); [|intros k [[x Hx]|[x Hx]]; by rewrite lookup_empty in Hx].
    intros e l. rewrite lookup_empty. split; [done|]. intros (xs & Hl & _). by rewrite lookup_empty in Hl. }
  assert (all_known (mk_spec ∅ ∅ 0) some_ops) as Hk
    by (vm_compute; repeat (split; [first [exact I|reflexivity|by eexists|split; by eexists]|]); exact I).
  assert ((spec_all (mk_spec ∅ ∅ 0) some_ops).2 = some_results) as Hr by (vm_compute; reflexivity).
  assert (seqs (spec_all (mk_spec ∅ ∅ 0) some_ops).1 !! 0%nat = Some [2; 5]%nat) as Hl by (vm_compute; reflexivity).
  pose proof (linked_lists_refine empty_heap (mk_spec ∅ ∅ 0) some_ops Hs Hk) as Hmain. cbv zeta in Hmain.
  rewrite Hr in Hmain. destruct Hmain as (h' & E & _ & Hobs). exists h'. split; [exact E|].
  destruct (Hobs 0%nat _ Hl) as (H1 & H2 & _). split; [exact H2|exact H1].
Defined.

(** [Init] of a list with elements leaves them their list: one that is removed
    afterwards is counted a second time. *)
Example init_keeps_owner :
  exists h', run_all empty_heap [ONew; OPushBack 0 7; OInit 0; ORemove 1] =
    Ret (h', [RList 0; RElement (Some 1%nat); RList 0; RBool true]) /\ Len h' 0 = -1.
Proof. eexists. split; [vm_compute; reflexivity|vm_compute; reflexivity]. Qed.
