(* ===== verification/FairQueue.v ===== *)
(** * The fair queue of the bandwidth limiter
    (src/protocol/limiter/bandwidth/limiter.go)

    Requests wait in flows by the key of their connection.  Whoever holds the
    token serves the first request of the first flow, until its own is served; the
    flows are ordered by what they have used and ask for. *)

From S2P Require Import Prelude.

(** ** The limiter *)

(** A flow with its requests: who asks, and for how many bytes. *)
Record flow := mk_flow { fl_id : string; pending : list (nat * Z) }.

(** The flows are the sequence of the linked list; [index] has the ids of those
    in it. *)
Record FairQueueLimiter := mk_fq { flows : list flow; index : gset string; bytes : gmap string Z; reset : Z }.

Abbreviation second := 1000000000.

Definition NewFairQueueLimiter (now : Z) : FairQueueLimiter := mk_fq [] ∅ ∅ (now + second).

Definition set_flows (l : FairQueueLimiter) (fs : list flow) : FairQueueLimiter := mk_fq fs (index l) (bytes l) (reset l).

Definition cost (l : FairQueueLimiter) (f : flow) : option Z :=
  match pending f with
  | [] => None
  | (_, n) :: _ => Some (u64 (default 0 (bytes l !! fl_id f) + u64 n))
  end.

(** The loop of [reorder] over the other flows: before the first with a greater
    cost, or at the end. *)
Fixpoint place (l : FairQueueLimiter) (c : Z) (f : flow) (es : list flow) : list flow :=
  match es with
  | [] => [f]
  | e :: es =>
    match cost l e with
    | Some c' => if c <? c' then f :: e :: es else e :: place l c f es
    | None => e :: place l c f es
    end
  end.

Definition find_flow (l : FairQueueLimiter) (id : string) : option flow := snd <$> list_find (fun f => fl_id f = id) (flows l).

Definition others (l : FairQueueLimiter) (id : string) : list flow := filter (fun f => fl_id f ≠ id) (flows l).

Definition reorder (l : FairQueueLimiter) (id : string) : FairQueueLimiter :=
  match find_flow l id with
  | None => l
  | Some f =>
    match cost l f with
    | None => l
    | Some c => set_flows l (place l c f (others l id))
    end
  end.

(** The request at the end of its flow, which is new at the front if there was
    none. *)
Definition push_request (l : FairQueueLimiter) (id : string) (rq : nat) (n : Z) : FairQueueLimiter :=
  let l := if bool_decide (id ∈ index l) then l else mk_fq (mk_flow id [] :: flows l) ({[id]} ∪ index l) (bytes l) (reset l) in
  set_flows l (map (fun f => if bool_decide (fl_id f = id) then mk_flow id (pending f ++ [(rq, n)]) else f) (flows l)).

(** The first part of [WaitN]. *)
Definition enqueue (l : FairQueueLimiter) (id : string) (rq : nat) (n : Z) : FairQueueLimiter := reorder (push_request l id rq n) id.

(** A turn of the loop of [WaitN], up to the wait for the request's bytes. *)
Definition serve (l : FairQueueLimiter) (now : Z) : res (FairQueueLimiter * (string * nat * Z)) :=
  let l := if reset l <? now then mk_fq (flows l) (index l) ∅ (now + second) else l in
  match flows l with
  | [] => Panic
  | f :: fs =>
    match pending f with
    | [] => Panic
    | (rq, n) :: ps =>
      let b := <[fl_id f := u64 (default 0 (bytes l !! fl_id f) + u64 n)]> (bytes l) in
      if bool_decide (ps = []) then Ret (mk_fq fs (index l ∖ {[fl_id f]}) b (reset l), (fl_id f, rq, n))
      else Ret (reorder (mk_fq (mk_flow (fl_id f) ps :: fs) (index l) b (reset l)) (fl_id f), (fl_id f, rq, n))
    end
  end.

Definition removeRequest (l : FairQueueLimiter) (id : string) (rq : nat) : FairQueueLimiter :=
  match find_flow l id with
  | None => l
  | Some f =>
    if bool_decide (rq ∈ (pending f).*1) then
      let ps := filter (fun x => x.1 ≠ rq) (pending f) in
      if bool_decide (ps = []) then mk_fq (others l id) (index l ∖ {[id]}) (bytes l) (reset l)
      else set_flows l (map (fun g => if bool_decide (fl_id g = id) then mk_flow id ps else g) (flows l))
    else l
  end.

(** ** What waits in a limiter *)

Record fq_wf (l : FairQueueLimiter) : Prop := {
  wf_ids : NoDup (fl_id <$> flows l);
  wf_index : forall id, id ∈ index l <-> id ∈ fl_id <$> flows l;
  wf_pending : Forall (fun f => pending f ≠ []) (flows l)
}.

Definition waiting (l : FairQueueLimiter) (id : string) : list (nat * Z) := default [] (pending <$> find_flow l id).

Lemma find_flow_some l id f : NoDup (fl_id <$> flows l) -> find_flow l id = Some f <-> f ∈ flows l /\ fl_id f = id.
Proof.
  unfold find_flow. intros Hnd. split.
  - intros E. apply fmap_Some in E as ([i g] & E & ->). apply list_find_Some in E as (Hi & <- & _). split; [by eapply list_elem_of_lookup_2|done].
  - intros [Hin <-]. destruct (list_find (fun g => fl_id g = fl_id f) (flows l)) as [[i g]|] eqn:E.
    + apply list_find_Some in E as (Hi & Eg & _). cbn. f_equal. apply list_elem_of_lookup in Hin as [j Hj].
      assert (i = j) as ->; [|congruence]. eapply (NoDup_lookup _ _ _ (fl_id f) Hnd); rewrite list_lookup_fmap; [by rewrite Hi; cbn; rewrite Eg|by rewrite Hj].
    + apply list_find_None in E. rewrite Forall_forall in E. by destruct (E f Hin).
Qed.

Lemma find_flow_none l id : find_flow l id = None <-> id ∉ fl_id <$> flows l.
Proof.
  unfold find_flow. rewrite fmap_None, list_find_None, Forall_forall. split.
  - intros Hf Hin. apply list_elem_of_fmap in Hin as (f & -> & Hin). by apply (Hf f Hin).
  - intros Hn f Hin <-. apply Hn. apply list_elem_of_fmap. by exists f.
Qed.

(** The order of the flows does not matter. *)
Lemma waiting_perm l l' id : NoDup (fl_id <$> flows l) -> flows l' ≡ₚ flows l -> waiting l' id = waiting l id.
Proof.
  intros Hnd Hp. assert (NoDup (fl_id <$> flows l')) as Hnd' by (by rewrite Hp). unfold waiting. destruct (find_flow l id) as [f|] eqn:E.
  - apply find_flow_some in E as [Hin <-]; [|done]. replace (find_flow l' (fl_id f)) with (Some f); [done|]. symmetry. apply find_flow_some; [done|]. by rewrite Hp.
  - apply find_flow_none in E. rewrite (proj2 (find_flow_none l' id)); [done|]. by rewrite Hp.
Qed.

Lemma waiting_cons l f fs id : NoDup (fl_id <$> f :: fs) -> flows l = f :: fs -> waiting l id = if decide (fl_id f = id) then pending f else waiting (set_flows l fs) id.
Proof.
  intros Hnd Hl. unfold waiting, find_flow. rewrite Hl. cbn [list_find]. case_decide; [done|]. cbn [set_flows flows].
  destruct (list_find _ fs) as [[i g]|]; done.
Qed.

Lemma place_perm l c f es : place l c f es ≡ₚ f :: es.
Proof. induction es as [|e es IH]; cbn [place]; [done|]. destruct (cost l e) as [c'|]; [destruct (c <? c')|]; try done; rewrite IH; solve_Permutation. Qed.

Lemma others_perm l id f : NoDup (fl_id <$> flows l) -> find_flow l id = Some f -> flows l ≡ₚ f :: others l id.
Proof.
  intros Hnd E. apply find_flow_some in E as [Hin <-]; [|done]. unfold others. apply list_elem_of_split in Hin as (as_ & bs & Hl). rewrite Hl in *.
  rewrite fmap_app, fmap_cons in Hnd. apply NoDup_app in Hnd as (_ & N1 & N2). apply NoDup_cons in N2 as [N2 _].
  rewrite filter_app, filter_cons_False by auto. rewrite !filter_keeps; [solve_Permutation|..]; apply Forall_forall; intros g Hg Eg.
  - apply N2. rewrite <-Eg. by apply list_elem_of_fmap_2.
  - apply (N1 (fl_id g)); [by apply list_elem_of_fmap_2|rewrite Eg; apply list_elem_of_here].
Qed.

Lemma reorder_perm l id : NoDup (fl_id <$> flows l) -> flows (reorder l id) ≡ₚ flows l.
Proof.
  intros Hnd. unfold reorder. destruct (find_flow l id) as [f|] eqn:E; [|done]. destruct (cost l f) as [c|]; [|done]. cbn [set_flows flows].
  rewrite place_perm. by rewrite (others_perm l id f).
Qed.

Lemma reorder_wf l id : fq_wf l -> fq_wf (reorder l id).
Proof.
  intros [W1 W2 W3]. pose proof (reorder_perm l id W1) as Hp. assert (index (reorder l id) = index l) as Ei by (unfold reorder; by repeat case_match).
  split; [by rewrite Hp|intros id'; by rewrite Ei, Hp|by rewrite Hp].
Qed.

Lemma reorder_waiting l id id' : fq_wf l -> waiting (reorder l id) id' = waiting l id'.
Proof. intros Hw. apply waiting_perm; [apply Hw|]. apply reorder_perm, Hw. Qed.

(** ** Its operations *)

Lemma find_flow_map l (g : flow -> flow) id : (forall f, fl_id (g f) = fl_id f) -> find_flow (set_flows l (map g (flows l))) id = g <$> find_flow l id.
Proof.
  intros Hg. unfold find_flow. cbn [set_flows flows]. induction (flows l) as [|f fs IH]; cbn [map list_find]; [done|]. rewrite Hg. case_decide; [done|].
  destruct (list_find _ fs) as [[i x]|], (list_find _ (map g fs)) as [[j y]|]; cbn in *; congruence.
Qed.

Lemma ids_map (g : flow -> flow) fs : (forall f, fl_id (g f) = fl_id f) -> fl_id <$> map g fs = fl_id <$> fs.
Proof. intros Hg. induction fs as [|f fs IH]; [done|]. cbn. by rewrite Hg; f_equal. Qed.

Lemma push_request_ok l id rq n :
  fq_wf l -> fq_wf (push_request l id rq n) /\ id ∈ index (push_request l id rq n) /\ forall id', waiting (push_request l id rq n) id' = waiting l id' ++ (if decide (id = id') then [(rq, n)] else []).
Proof.
  intros [W1 W2 W3]. unfold push_request. set (l1 := if bool_decide (id ∈ index l) then _ else _). set (g := fun f => if bool_decide (fl_id f = id) then _ else f).
  assert (forall f, fl_id (g f) = fl_id f) as Hg by (intros f; unfold g; by case_bool_decide).
  assert (NoDup (fl_id <$> flows l1) /\ (forall x, x ∈ index l1 <-> x ∈ fl_id <$> flows l1) /\ id ∈ fl_id <$> flows l1 /\ Forall (fun f => fl_id f = id \/ pending f ≠ []) (flows l1) /\
    forall x, waiting l1 x = waiting l x) as (A1 & A2 & A3 & A4 & A5).
  { unfold l1. case_bool_decide as Hin.
    - split_and!; [done|done|by apply W2|eapply Forall_impl; [exact W3|]; cbn; tauto|done].
    - cbn [flows index]. rewrite fmap_cons. cbn [fl_id]. rewrite W2 in Hin. split_and!.
      + by apply NoDup_cons.
      + intros x. rewrite elem_of_union, elem_of_singleton, elem_of_cons, W2. done.
      + apply list_elem_of_here.
      + constructor; [by left|]. eapply Forall_impl; [exact W3|]. cbn. tauto.
      + intros x. rewrite (waiting_cons _ (mk_flow id []) (flows l) x); [|by apply NoDup_cons|done]. cbn [fl_id pending]. case_decide as E; [|done]. subst x.
        unfold waiting. by rewrite (proj2 (find_flow_none l id)). }
  clearbody l1. assert (fq_wf (set_flows l1 (map g (flows l1)))) as Hw.
  { split; cbn [set_flows flows index]; rewrite ?ids_map by done; [done|done|]. apply Forall_map. eapply Forall_impl; [exact A4|]. intros f Hf. unfold g. case_bool_decide; [by destruct (pending f)|]. by destruct Hf. }
  split; [done|]. split; [by apply A2|]. intros id'. rewrite <-A5. unfold waiting. rewrite find_flow_map by done.
  destruct (find_flow l1 id') as [f|] eqn:E; cbn.
  - apply find_flow_some in E as [Hf <-]; [|done]. unfold g. case_bool_decide; case_decide; try congruence; [done|by rewrite app_nil_r].
  - apply find_flow_none in E. case_decide; [by subst|done].
Qed.

Lemma enqueue_ok l id rq n :
  fq_wf l -> fq_wf (enqueue l id rq n) /\ forall id', waiting (enqueue l id rq n) id' = waiting l id' ++ (if decide (id = id') then [(rq, n)] else []).
Proof.
  intros Hw. destruct (push_request_ok l id rq n Hw) as (Hp & _ & Hq). split; [by apply reorder_wf|]. intros id'. unfold enqueue. by rewrite reorder_waiting.
Qed.

(** There is something to serve when something waits; the first request of its
    flow is taken. *)
Lemma serve_ok l now id x ps :
  fq_wf l -> waiting l id = x :: ps ->
  exists l' id' rq n, serve l now = Ret (l', (id', rq, n)) /\ fq_wf l' /\ waiting l id' = (rq, n) :: waiting l' id' /\ forall k, k ≠ id' -> waiting l' k = waiting l k.
Proof.
  intros [W1 W2 W3] Hq. unfold serve. set (l1 := if reset l <? now then _ else l).
  assert (flows l1 = flows l /\ index l1 = index l) as [Ef Ei] by (unfold l1; by destruct (_ <? _)). rewrite Ef, Ei. clearbody l1.
  destruct (flows l) as [|f fs] eqn:Hf; [unfold waiting, find_flow in Hq; by rewrite Hf in Hq|]. apply Forall_cons in W3 as [W0 W3].
  destruct (pending f) as [|[rq n] qs] eqn:Hp; [done|]. set (b := <[fl_id f := _]> _).
  pose proof W1 as N. rewrite fmap_cons in N. apply NoDup_cons in N as [N1 N2].
  assert (waiting l (fl_id f) = (rq, n) :: qs) as Hl by (rewrite (waiting_cons l f fs), decide_True by done; done).
  assert (forall k, k ≠ fl_id f -> waiting l k = waiting (set_flows l fs) k) as Hother by (intros k Hk; rewrite (waiting_cons l f fs), decide_False by done; done).
  assert (forall idx bb r, forall k, waiting (mk_fq fs idx bb r) k = waiting (set_flows l fs) k) as Hfs by done.
  case_bool_decide as Eqs; eexists _, (fl_id f), rq, n; (split; [done|]).
  - subst qs. split_and!.
    + split; cbn [flows index]; [done| |done]. intros k. rewrite elem_of_difference, elem_of_singleton, W2, fmap_cons, elem_of_cons. split; [tauto|]. intros Hk. split; [by right|]. by intros ->.
    + rewrite Hl. f_equal. unfold waiting. by rewrite (proj2 (find_flow_none (mk_fq fs _ b (reset l1)) (fl_id f))).
    + intros k Hk. by rewrite Hother.
  - set (l2 := mk_fq _ _ _ _). assert (fq_wf l2) as Hw2 by (split; [done|done|by constructor]).
    split_and!; [by apply reorder_wf| |].
    + rewrite reorder_waiting, Hl by done. rewrite (waiting_cons l2 (mk_flow (fl_id f) qs) fs), decide_True by done. done.
    + intros k Hk. rewrite reorder_waiting by done. rewrite (waiting_cons l2 (mk_flow (fl_id f) qs) fs), decide_False by done. by rewrite Hother.
Qed.

Lemma removeRequest_ok l id rq :
  fq_wf l -> fq_wf (removeRequest l id rq) /\
  forall k, waiting (removeRequest l id rq) k = if decide (k = id) then filter (fun x => x.1 ≠ rq) (waiting l id) else waiting l k.
Proof.
  intros Hw. pose proof Hw as [W1 W2 W3]. unfold removeRequest. destruct (find_flow l id) as [f|] eqn:E.
  2: { split; [done|]. intros k. case_decide; [subst|done]. unfold waiting. by rewrite E. }
  assert (waiting l id = pending f) as Hl by (unfold waiting; by rewrite E). pose proof E as Ef. apply find_flow_some in Ef as [Hin Eid]; [|done].
  case_bool_decide as Hrq.
  2: { split; [done|]. intros k. case_decide; [subst k|done]. rewrite Hl, filter_true; [done|]. intros x Hx Ex. apply Hrq. rewrite <-Ex. by apply list_elem_of_fmap_2. }
  set (ps := filter _ (pending f)). case_bool_decide as Eps.
  - pose proof (others_perm l id f W1 E) as Hp. assert (NoDup (fl_id <$> f :: others l id)) as Hnd by (by rewrite <-Hp). pose proof Hnd as N. rewrite fmap_cons, Eid in N. apply NoDup_cons in N as [N1 N2].
    split; [split; cbn [flows index]|].
    + done.
    + intros k. rewrite elem_of_difference, elem_of_singleton, W2, Hp, fmap_cons, elem_of_cons, Eid. split; [tauto|]. intros Hk. split; [by right|]. by intros ->.
    + rewrite Hp in W3. by apply Forall_cons in W3 as [_ W3].
    + intros k. assert (waiting l k = waiting (set_flows l (f :: others l id)) k) as -> by (symmetry; by apply waiting_perm).
      rewrite (waiting_cons (set_flows l (f :: others l id)) f (others l id)) by done. rewrite Eid. destruct (decide (k = id)) as [->|Hk]; [|by rewrite decide_False]. rewrite Hl. fold ps. rewrite Eps.
      unfold waiting. by rewrite (proj2 (find_flow_none (mk_fq (others l id) _ _ _) id)).
  - set (g := fun h => if bool_decide (fl_id h = id) then _ else h). assert (forall f, fl_id (g f) = fl_id f) as Hg by (intros h; unfold g; by case_bool_decide). split.
    + split; cbn [set_flows flows index]; rewrite ?ids_map by done; [done|done|]. apply Forall_map. eapply Forall_impl; [exact W3|]. intros h Hh. unfold g. by case_bool_decide.
    + intros k. unfold waiting at 1. rewrite find_flow_map by done. case_decide as Ek.
      * subst k. rewrite E, Hl. cbn. unfold g. by rewrite bool_decide_eq_true_2.
      * unfold waiting. destruct (find_flow l k) as [h|] eqn:Eh; [|done]. apply find_flow_some in Eh as [_ <-]; [|done]. cbn. unfold g. by rewrite bool_decide_eq_false_2.
Qed.
