(* ===== verification/FairQueueRuns.v ===== *)
(** * Runs of the fair queue

    Requests arrive, are given up, are served by whoever holds the token, in any
    order of the steps: none is lost, none is served twice, and each flow is
    served in order.  While nothing is given up and the counters are not reset,
    the flow that has used the least is served. *)

From Stdlib Require Import Sorting.Sorted.
From S2P Require Import Prelude FairQueue.

(** ** Runs *)

Record Run := mk_run {
  lim : FairQueueLimiter;
  (** who holds the token, and whether it is in the loop *)
  token : option (nat * string * bool);
  (** the request that the holder waits for *)
  serving : option nat;
  arrived : list (string * nat);
  served : list (string * nat);
  (** requests taken back, those whose channel is closed, and calls that have
      returned *)
  removed : gset nat;
  finished : gset nat;
  returned : gset nat
}.

Definition with_token (r : Run) (t : option (nat * string * bool)) : Run :=
  mk_run (lim r) t (serving r) (arrived r) (served r) (removed r) (finished r) (returned r).

Definition returns (r : Run) (rq : nat) : Run :=
  mk_run (lim r) (token r) (serving r) (arrived r) (served r) (removed r) (finished r) ({[rq]} ∪ returned r).

(** [removeRequest] by the call whose context is done. *)
Definition take_back (r : Run) (id : string) (rq : nat) : Run :=
  mk_run (removeRequest (lim r) id rq) (token r) (serving r) (arrived r) (served r)
    (if bool_decide (rq ∈ (waiting (lim r) id).*1) then {[rq]} ∪ removed r else removed r) (finished r) ({[rq]} ∪ returned r).

Definition holds (r : Run) (rq : nat) : Prop := exists id b, token r = Some (rq, id, b).

Inductive fq_step : Run -> Run -> Prop :=
  | f_arrive r id rq n : rq ∉ (arrived r).*2 ->
      fq_step r (mk_run (enqueue (lim r) id rq n) (token r) (serving r) (arrived r ++ [(id, rq)]) (served r) (removed r) (finished r) (returned r))
  | f_take r id rq : token r = None -> (id, rq) ∈ arrived r -> rq ∉ returned r -> fq_step r (with_token r (Some (rq, id, false)))
  | f_seen r id rq : token r = Some (rq, id, false) -> rq ∈ finished r -> fq_step r (returns (with_token r None) rq)
  | f_enter r id rq : token r = Some (rq, id, false) -> rq ∉ finished r -> fq_step r (with_token r (Some (rq, id, true)))
  | f_stop r id rq : token r = Some (rq, id, true) -> serving r = None -> fq_step r (take_back (with_token r None) id rq)
  | f_serve r id rq now l' id' rq' n : token r = Some (rq, id, true) -> serving r = None -> serve (lim r) now = Ret (l', (id', rq', n)) ->
      fq_step r (mk_run l' (token r) (Some rq') (arrived r) (served r ++ [(id', rq')]) (removed r) (finished r) (returned r))
  | f_close r rq id rq' : token r = Some (rq, id, true) -> serving r = Some rq' ->
      let r' := mk_run (lim r) (token r) None (arrived r) (served r) (removed r) ({[rq']} ∪ finished r) (returned r) in
      fq_step r (if bool_decide (rq' = rq) then returns (with_token r' None) rq else r')
  | f_served r rq : rq ∈ finished r -> ~ holds r rq -> fq_step r (returns r rq)
  | f_cancel r id rq : (id, rq) ∈ arrived r -> rq ∉ returned r -> ~ holds r rq -> fq_step r (take_back r id rq).

Definition run_start (now : Z) : Run := mk_run (NewFairQueueLimiter now) None None [] [] ∅ ∅ ∅.

Definition of_flow (id : string) (l : list (string * nat)) : list nat := (filter (fun x => x.1 = id) l).*2.

(** Of the requests of a flow, those not taken back are served or wait, in the
    order of their arrival. *)
Record queue_ok (r : Run) : Prop := {
  ok_wf : fq_wf (lim r);
  ok_nodup : NoDup (arrived r).*2;
  ok_order : forall id, filter (fun rq => rq ∉ removed r) (of_flow id (arrived r)) = of_flow id (served r) ++ (waiting (lim r) id).*1;
  ok_finished : forall rq, rq ∈ (served r).*2 <-> rq ∈ finished r \/ serving r = Some rq;
  ok_serving : forall rq, serving r = Some rq -> (rq ∉ finished r) /\ exists q id, token r = Some (q, id, true);
  ok_token : forall rq id b, token r = Some (rq, id, b) -> (id, rq) ∈ arrived r /\ (rq ∉ returned r) /\ (b = true -> rq ∉ finished r);
  ok_removed : removed r ⊆ returned r;
  ok_arrived : forall rq, rq ∈ removed r -> rq ∈ (arrived r).*2
}.

Lemma of_flow_snoc id l k rq : of_flow id (l ++ [(k, rq)]) = of_flow id l ++ (if decide (k = id) then [rq] else []).
Proof. unfold of_flow. rewrite filter_app, fmap_app, filter_cons. cbn [fst]. by destruct (decide (k = id)). Qed.

Lemma of_flow_in id l rq : rq ∈ of_flow id l <-> (id, rq) ∈ l.
Proof.
  unfold of_flow. rewrite list_elem_of_fmap. split.
  - intros ([k q] & -> & Hin). apply list_elem_of_filter in Hin as [E Hin]. cbn in E. by subst.
  - intros Hin. exists (id, rq). split; [done|]. by apply list_elem_of_filter.
Qed.

(** A request that has arrived waits, was served or was taken back. *)
Lemma request_where r id rq : queue_ok r -> (id, rq) ∈ arrived r -> rq ∉ removed r -> rq ∉ (served r).*2 -> rq ∈ (waiting (lim r) id).*1.
Proof.
  intros Hr Ha Hn Hs. assert (rq ∈ filter (fun rq => rq ∉ removed r) (of_flow id (arrived r))) as Hin by (apply list_elem_of_filter; split; [done|by apply of_flow_in]).
  rewrite (ok_order r Hr), elem_of_app in Hin. destruct Hin as [Hin|]; [|done]. apply of_flow_in in Hin. destruct Hs. apply list_elem_of_fmap. by exists (id, rq).
Qed.

(** The request of the holder in the loop waits. *)
Lemma holder_waits r rq id :
  queue_ok r -> token r = Some (rq, id, true) -> serving r = None -> exists x ps, waiting (lim r) id = x :: ps.
Proof.
  intros Hr Ht Hs. destruct (ok_token r Hr _ _ _ Ht) as (Ha & Hret & Hfin). specialize (Hfin eq_refl).
  assert (rq ∈ (waiting (lim r) id).*1) as Hw.
  { apply (request_where r id rq Hr Ha); [intros Hin; apply Hret; by apply (ok_removed r Hr)|]. rewrite (ok_finished r Hr), Hs. by intros [?|?]. }
  destruct (waiting (lim r) id) as [|x ps] eqn:E; [by apply not_elem_of_nil in Hw|]. by eexists _, _.
Qed.

Lemma of_flow_nodup id l : NoDup l.*2 -> NoDup (of_flow id l).
Proof. intros Hnd. unfold of_flow. eapply sublist_NoDup; [exact Hnd|]. apply fmap_sublist, sublist_filter. Qed.

(** What is served and what waits in a flow are different requests. *)
Lemma flow_nodup r id : queue_ok r -> NoDup (of_flow id (served r) ++ (waiting (lim r) id).*1).
Proof. intros Hr. rewrite <-(ok_order r Hr). apply NoDup_filter, of_flow_nodup, (ok_nodup r Hr). Qed.

Lemma waiting_arrived r id rq : queue_ok r -> rq ∈ (waiting (lim r) id).*1 -> (id, rq) ∈ arrived r /\ (rq ∉ removed r).
Proof.
  intros Hr Hw. assert (rq ∈ filter (fun rq => rq ∉ removed r) (of_flow id (arrived r))) as Hin by (rewrite (ok_order r Hr), elem_of_app; by right).
  apply list_elem_of_filter in Hin as [Hn Hin]. split; [by apply of_flow_in|done].
Qed.

Lemma served_arrived r id rq : queue_ok r -> (id, rq) ∈ served r -> (id, rq) ∈ arrived r /\ (rq ∉ removed r).
Proof.
  intros Hr Hs. assert (rq ∈ filter (fun rq => rq ∉ removed r) (of_flow id (arrived r))) as Hin by (rewrite (ok_order r Hr), elem_of_app; left; by apply of_flow_in).
  apply list_elem_of_filter in Hin as [Hn Hin]. split; [by apply of_flow_in|done].
Qed.

(** A request belongs to one flow. *)
Lemma one_flow r id k rq : queue_ok r -> (id, rq) ∈ arrived r -> (k, rq) ∈ arrived r -> id = k.
Proof.
  intros Hr [i Hi]%list_elem_of_lookup [j Hj]%list_elem_of_lookup. assert (i = j) as ->; [|congruence].
  eapply (NoDup_lookup _ _ _ rq (ok_nodup r Hr)); rewrite list_lookup_fmap; [by rewrite Hi|by rewrite Hj].
Qed.

Lemma flows_nodup l : (forall id, NoDup (of_flow id l)) -> (forall id k rq, (id, rq) ∈ l -> (k, rq) ∈ l -> id = k) -> NoDup l.*2.
Proof.
  induction l as [|[id rq] l IH]; intros Hf Hu; [constructor|]. cbn. constructor.
  - intros Hin. apply list_elem_of_fmap in Hin as ([k q] & E & Hin). cbn in E. subst q. pose proof (Hu id k rq (list_elem_of_here _ _) (list_elem_of_further _ _ _ Hin)) as <-.
    specialize (Hf id). unfold of_flow in Hf. rewrite filter_cons_True, fmap_cons in Hf by done. apply NoDup_cons in Hf as [Hf _]. by apply Hf, of_flow_in.
  - apply IH; [|intros i k q Hi Hk; by apply (Hu i k q); apply list_elem_of_further]. intros k. specialize (Hf k). unfold of_flow in Hf. rewrite filter_cons in Hf. case_decide; [|done].
    rewrite fmap_cons in Hf. by apply NoDup_cons in Hf as [_ Hf].
Qed.

Lemma served_nodup r : queue_ok r -> NoDup (served r).*2.
Proof.
  intros Hr. apply flows_nodup.
  - intros id. pose proof (flow_nodup r id Hr) as N. by apply NoDup_app in N as (N & _).
  - intros id k rq Hi Hk. eapply one_flow; [exact Hr| |]; by apply served_arrived.
Qed.

Lemma waiting_not_served r id rq : queue_ok r -> rq ∈ (waiting (lim r) id).*1 -> rq ∉ (served r).*2.
Proof.
  intros Hr Hw Hs. apply list_elem_of_fmap in Hs as ([k q] & -> & Hs). cbn in Hw. destruct (waiting_arrived r id q Hr Hw) as [Ha _].
  pose proof (one_flow r id k q Hr Ha (proj1 (served_arrived r k q Hr Hs))) as ->. pose proof (flow_nodup r k Hr) as N. apply NoDup_app in N as (_ & N & _). by apply (N q); [apply of_flow_in|].
Qed.

Lemma fst_filter rq (l : list (nat * Z)) : (filter (fun x => x.1 ≠ rq) l).*1 = filter (fun x => x ≠ rq) l.*1.
Proof. induction l as [|[a b] l IH]; [done|]. rewrite fmap_cons, !filter_cons. cbn [fst]. by destruct (decide (a ≠ rq)); [rewrite fmap_cons, IH|]. Qed.

Lemma filter_without rq (s : gset nat) (l : list nat) : filter (fun x => x ∉ {[rq]} ∪ s) l = filter (fun x => x ≠ rq) (filter (fun x => x ∉ s) l).
Proof. rewrite list_filter_filter. apply list_filter_iff. intros x. rewrite not_elem_of_union, not_elem_of_singleton. tauto. Qed.

(** A request taken back leaves the order of the others. *)
Lemma order_take_back r id rq k : queue_ok r -> (id, rq) ∈ arrived r ->
  filter (fun x => x ∉ removed (take_back r id rq)) (of_flow k (arrived r)) = of_flow k (served r) ++ (waiting (lim (take_back r id rq)) k).*1.
Proof.
  intros Hr Ha. cbn [take_back lim removed]. rewrite (proj2 (removeRequest_ok (lim r) id rq (ok_wf r Hr))). destruct (decide (k = id)) as [->|Hne]; case_bool_decide as Hin.
  - rewrite filter_without, (ok_order r Hr), filter_app, fst_filter. f_equal. apply filter_true. intros x Hx ->. apply (waiting_not_served r id rq Hr Hin).
    apply list_elem_of_fmap. exists (id, rq). split; [done|by apply of_flow_in].
  - rewrite fst_filter, (ok_order r Hr). f_equal. symmetry. apply filter_true. by intros x Hx ->.
  - rewrite filter_without, (ok_order r Hr). apply filter_true. rewrite <-(ok_order r Hr). intros x Hx ->. apply list_elem_of_filter in Hx as [_ Hx].
    apply Hne. eapply one_flow; [exact Hr|by apply of_flow_in in Hx|done].
  - apply (ok_order r Hr).
Qed.

Lemma queue_ok_take_back r id rq : queue_ok r -> (id, rq) ∈ arrived r -> ~ holds r rq -> queue_ok (take_back r id rq).
Proof.
  intros Hr Ha Ht. pose proof Hr as [K1 K2 K3 K4 K5 K6 K7 K8]. assert (forall x, x ∈ removed (take_back r id rq) -> x = rq \/ x ∈ removed r) as Hrm.
  { cbn [take_back removed]. intros x. case_bool_decide; set_solver. }
  split; [by apply removeRequest_ok|done|intros k; exact (order_take_back r id rq k Hr Ha)|done|done| | |].
  - intros q k b E. destruct (K6 q k b E) as (? & ? & ?). split; [done|]. split; [|done]. cbn [take_back returned]. rewrite not_elem_of_union, not_elem_of_singleton. split; [|done]. intros ->. apply Ht. by exists k, b.
  - intros x [->|Hx]%Hrm; cbn [take_back returned]; set_solver.
  - intros x [->|Hx]%Hrm; [|by apply K8]. apply list_elem_of_fmap. by exists (id, rq).
Qed.

Lemma queue_ok_returns r rq : queue_ok r -> ~ holds r rq -> queue_ok (returns r rq).
Proof.
  intros [K1 K2 K3 K4 K5 K6 K7 K8] Ht. split; cbn [returns lim token serving arrived served removed finished returned]; try done; [|set_solver].
  intros q k b E. destruct (K6 q k b E) as (? & ? & ?). split; [done|]. split; [|done]. rewrite not_elem_of_union, not_elem_of_singleton. split; [|done]. intros ->. apply Ht. by exists k, b.
Qed.

Lemma queue_ok_token r t :
  queue_ok r -> serving r = None -> (forall rq id b, t = Some (rq, id, b) -> (id, rq) ∈ arrived r /\ (rq ∉ returned r) /\ (b = true -> rq ∉ finished r)) -> queue_ok (with_token r t).
Proof. intros [K1 K2 K3 K4 K5 K6 K7 K8] Hs Ht. split; cbn [with_token lim token serving arrived served removed finished returned]; try done. by rewrite Hs. Qed.

Lemma queue_ok_arrive r id rq n : queue_ok r -> rq ∉ (arrived r).*2 ->
  queue_ok (mk_run (enqueue (lim r) id rq n) (token r) (serving r) (arrived r ++ [(id, rq)]) (served r) (removed r) (finished r) (returned r)).
Proof.
  intros [K1 K2 K3 K4 K5 K6 K7 K8] Hn. destruct (enqueue_ok (lim r) id rq n K1) as [Hw Hq].
  split; cbn [lim token serving arrived served removed finished returned]; try done.
  - rewrite fmap_app. apply NoDup_app. split_and!; [done| |apply NoDup_singleton]. intros x Hx ->%list_elem_of_singleton. done.
  - intros k. rewrite of_flow_snoc, filter_app, K3, Hq, fmap_app, app_assoc. f_equal. destruct (decide (id = k)); [|done]. apply filter_true. intros x ->%list_elem_of_singleton Hx. by apply Hn, K8.
  - intros q k b E. destruct (K6 q k b E) as (? & ? & ?). split; [|done]. apply elem_of_app. by left.
  - intros x Hx. rewrite fmap_app, elem_of_app. left. by apply K8.
Qed.

Lemma queue_ok_serve r id rq now l' id' rq' n : queue_ok r -> token r = Some (rq, id, true) -> serving r = None -> serve (lim r) now = Ret (l', (id', rq', n)) ->
  queue_ok (mk_run l' (token r) (Some rq') (arrived r) (served r ++ [(id', rq')]) (removed r) (finished r) (returned r)).
Proof.
  intros Hr Ht Hs E. pose proof Hr as [K1 K2 K3 K4 K5 K6 K7 K8]. destruct (holder_waits r rq id Hr Ht Hs) as (x & ps & Hx).
  destruct (serve_ok (lim r) now id x ps K1 Hx) as (l2 & id2 & rq2 & n2 & E2 & Hw & Hq & Ho). rewrite E in E2. injection E2 as <- <- <- <-.
  assert (rq' ∈ (waiting (lim r) id').*1) as Hin by (rewrite Hq; apply list_elem_of_here). pose proof (waiting_not_served r id' rq' Hr Hin) as Hns.
  split; cbn [lim token serving arrived served removed finished returned]; try done.
  - intros k. rewrite K3, of_flow_snoc. destruct (decide (id' = k)) as [<-|Hne]; [by rewrite Hq, <-app_assoc|]. by rewrite app_nil_r, Ho.
  - intros q. rewrite fmap_app, elem_of_app, K4, Hs. cbn. rewrite list_elem_of_singleton. split; [intros [[?|?]| ->]; [by left|done|by right]|]. intros [?|[= ->]]; [left; by left|by right].
  - intros q [= <-]. split; [|by eexists _, _]. intros Hf. apply Hns, K4. by left.
Qed.

Lemma queue_ok_close r rq id rq' : queue_ok r -> token r = Some (rq, id, true) -> serving r = Some rq' -> rq' ≠ rq ->
  queue_ok (mk_run (lim r) (token r) None (arrived r) (served r) (removed r) ({[rq']} ∪ finished r) (returned r)).
Proof.
  intros [K1 K2 K3 K4 K5 K6 K7 K8] Ht Hs Hne. split; cbn [lim token serving arrived served removed finished returned]; try done.
  - intros q. rewrite K4, Hs, elem_of_union, elem_of_singleton. split; [intros [?|[= ->]]; left; tauto|]. intros [[->|?]|?]; [by right|by left|done].
  - intros q k b E. destruct (K6 q k b E) as (? & ? & Hf). split; [done|]. split; [done|]. intros Hb. rewrite not_elem_of_union, not_elem_of_singleton. split; [congruence|by apply Hf].
Qed.

Lemma queue_ok_last r rq id : queue_ok r -> token r = Some (rq, id, true) -> serving r = Some rq ->
  queue_ok (mk_run (lim r) None None (arrived r) (served r) (removed r) ({[rq]} ∪ finished r) (returned r)).
Proof.
  intros [K1 K2 K3 K4 K5 K6 K7 K8] Ht Hs. split; cbn [lim token serving arrived served removed finished returned]; try done.
  intros q. rewrite K4, Hs, elem_of_union, elem_of_singleton. split; [intros [?|[= ->]]; left; tauto|]. intros [[->|?]|?]; [by right|by left|done].
Qed.

(** Outside the loop nothing is being served. *)
Lemma idle r : queue_ok r -> (forall rq id, token r ≠ Some (rq, id, true)) -> serving r = None.
Proof. intros Hr Ht. destruct (serving r) as [rq|] eqn:E; [|done]. destruct (ok_serving r Hr rq E) as (_ & q & id & Hq). by destruct (Ht q id). Qed.

Lemma queue_ok_step r r' : fq_step r r' -> queue_ok r -> queue_ok r'.
Proof.
  intros Hst Hr. destruct Hst as [r id rq n Hn|r id rq Ht Ha Hret|r id rq Ht Hf|r id rq Ht Hf|r id rq Ht Hs|r id rq now l' id' rq' n Ht Hs E|r rq id rq' Ht Hs r'|r rq Hf Hh|r id rq Ha Hret Hh].
  - by apply queue_ok_arrive.
  - apply queue_ok_token; [done|apply idle; [done|]; by rewrite Ht|]. by intros ? ? ? [= <- <- <-].
  - apply queue_ok_returns; [|by intros (k & b & ?)]. apply queue_ok_token; [done|apply idle; [done|]; by rewrite Ht|done].
  - pose proof (ok_token r Hr _ _ _ Ht) as (? & ? & ?). apply queue_ok_token; [done|apply idle; [done|]; by rewrite Ht|]. by intros ? ? ? [= <- <- <-].
  - pose proof (ok_token r Hr _ _ _ Ht) as (? & ? & ?). apply queue_ok_take_back; [by apply queue_ok_token|done|by intros (k & b & ?)].
  - by eapply queue_ok_serve.
  - case_bool_decide as Eq; [subst rq'|exact (queue_ok_close r rq id rq' Hr Ht Hs Eq)]. apply queue_ok_returns; [exact (queue_ok_last r rq id Hr Ht Hs)|by intros (k & b & ?)].
  - by apply queue_ok_returns.
  - by apply queue_ok_take_back.
Qed.

Lemma queue_ok_start now : queue_ok (run_start now).
Proof.
  split; cbn [run_start lim token serving arrived served removed finished returned]; try done; try constructor; cbn; try done; try constructor; set_solver.
Qed.

Lemma queue_ok_reachable now r : rtc fq_step (run_start now) r -> queue_ok r.
Proof. apply (rtc_ind_r queue_ok); [apply queue_ok_start|]. intros r1 r2 _ Hst. by apply queue_ok_step. Qed.

(** ** The least used flow first *)

(** The flows by their costs, the least first. *)
Definition not_more (l : FairQueueLimiter) (f g : flow) : Prop := default 0 (cost l f) <= default 0 (cost l g).
Definition ordered (l : FairQueueLimiter) : Prop := StronglySorted (not_more l) (flows l).

Lemma sorted_by l l' fs : (forall f, f ∈ fs -> cost l' f = cost l f) -> StronglySorted (not_more l) fs -> StronglySorted (not_more l') fs.
Proof.
  intros Hc. induction 1 as [|f fs Hs IH Hf]; [constructor|]. constructor.
  - apply IH. intros g Hg. apply Hc. by apply list_elem_of_further.
  - rewrite Forall_forall in Hf |- *. intros g Hg. unfold not_more. rewrite !Hc; [by apply Hf|by apply list_elem_of_further|apply list_elem_of_here].
Qed.

Lemma sorted_sub l fs gs : gs `sublist_of` fs -> StronglySorted (not_more l) fs -> StronglySorted (not_more l) gs.
Proof.
  induction 1 as [|f gs fs Hsub IH|f gs fs Hsub IH]; intros Hs; [done|..]; apply StronglySorted_inv in Hs as [Hs Hf].
  - constructor; [by apply IH|]. rewrite Forall_forall in Hf |- *. intros g Hg. apply Hf. by eapply elem_of_sublist.
  - by apply IH.
Qed.

Lemma place_sorted l f c es : cost l f = Some c -> Forall (fun e => pending e ≠ []) es -> StronglySorted (not_more l) es -> StronglySorted (not_more l) (place l c f es).
Proof.
  intros Hc. induction es as [|e es IH]; intros Hp Hs; cbn [place]; [by repeat constructor|]. apply Forall_cons in Hp as [Hp Hps].
  pose proof Hs as Hs0. apply StronglySorted_inv in Hs0 as [Hs1 Hf]. destruct (cost l e) as [c'|] eqn:Ee; [|unfold cost in Ee; by destruct (pending e) as [|[]]].
  destruct (c <? c') eqn:Ec.
  - constructor; [done|]. assert (not_more l f e) as Hfe by (unfold not_more; rewrite Hc, Ee; cbn; lia). constructor; [done|].
    eapply Forall_impl; [exact Hf|]. intros g Hg. unfold not_more in *. lia.
  - constructor; [by apply IH|]. rewrite place_perm. constructor; [|done]. unfold not_more. rewrite Hc, Ee. cbn. lia.
Qed.

Lemma reorder_sorted l id : fq_wf l -> StronglySorted (not_more l) (others l id) -> ordered l \/ id ∈ index l -> ordered (reorder l id).
Proof.
  intros [W1 W2 W3] Hs Hid. unfold reorder. destruct (find_flow l id) as [f|] eqn:E.
  - pose proof E as Ef. apply find_flow_some in Ef as [Hin _]; [|done]. destruct (cost l f) as [c|] eqn:Ec.
    + apply (sorted_by l); [done|]. cbn [set_flows flows]. apply place_sorted; [done| |done]. rewrite Forall_forall in W3 |- *. intros g Hg. apply W3. unfold others in Hg. by apply list_elem_of_filter in Hg as [_ Hg].
    + rewrite Forall_forall in W3. unfold cost in Ec. specialize (W3 f Hin). by destruct (pending f) as [|[]].
  - destruct Hid as [?|Hid]; [done|]. rewrite W2 in Hid. by apply find_flow_none in E.
Qed.

Lemma cost_other (l l' : FairQueueLimiter) f : bytes l' !! fl_id f = bytes l !! fl_id f -> cost l' f = cost l f.
Proof. intros E. unfold cost. by rewrite E. Qed.

Lemma others_map l (g : flow -> flow) id : (forall f, fl_id (g f) = fl_id f) -> (forall f, fl_id f ≠ id -> g f = f) -> others (set_flows l (map g (flows l))) id = others l id.
Proof.
  intros Hg Hne. unfold others. cbn [set_flows flows]. induction (flows l) as [|f fs IH]; [done|]. cbn [map]. rewrite !filter_cons, Hg. case_decide as E; [|done]. by rewrite Hne, IH.
Qed.

Lemma others_sorted l id : ordered l -> StronglySorted (not_more l) (others l id).
Proof. apply sorted_sub. unfold others. apply sublist_filter. Qed.

Lemma enqueue_ordered l id rq n : fq_wf l -> ordered l -> ordered (enqueue l id rq n).
Proof.
  intros Hw Hs. destruct (push_request_ok l id rq n Hw) as (Hp & Hid & _). unfold enqueue. apply reorder_sorted; [done| |by right]. clear Hp Hid.
  assert (others (push_request l id rq n) id = others l id) as ->.
  { unfold push_request. rewrite others_map; [|intros f; by case_bool_decide|intros f Hf; by rewrite bool_decide_eq_false_2].
    case_bool_decide; [done|]. unfold others. cbn [flows]. rewrite filter_cons_False; [done|]. cbn. tauto. }
  apply (sorted_by l); [|by apply others_sorted]. intros f _. apply cost_other. unfold push_request. by case_bool_decide.
Qed.

(** Without a reset, the flow served costs the least and the others keep their
    order. *)
Lemma serve_ordered l now l' id rq n :
  fq_wf l -> ordered l -> now <= reset l -> serve l now = Ret (l', (id, rq, n)) ->
  ordered l' /\ forall k q m ps, waiting l k = (q, m) :: ps -> u64 (default 0 (bytes l !! id) + u64 n) <= u64 (default 0 (bytes l !! k) + u64 m).
Proof.
  intros Hw Hs Hnow. pose proof Hw as [W1 W2 W3]. unfold serve. replace (reset l <? now) with false by lia. unfold ordered in Hs. destruct (flows l) as [|f fs] eqn:Hf; [done|].
  destruct (pending f) as [|[rq0 n0] qs] eqn:Hp; [done|]. set (b := <[fl_id f := _]> _). apply StronglySorted_inv in Hs as [Hs Hfs].
  assert (forall l2, bytes l2 = b -> StronglySorted (not_more l2) fs) as Hb.
  { intros l2 E2. apply (sorted_by l); [|done]. intros g Hg. apply cost_other. rewrite E2. unfold b. apply lookup_insert_ne. intros E.
    rewrite fmap_cons in W1. apply NoDup_cons in W1 as [W1 _]. apply W1. rewrite E. by apply list_elem_of_fmap_2. }
  assert (forall k q m ps, waiting l k = (q, m) :: ps -> u64 (default 0 (bytes l !! fl_id f) + u64 n0) <= u64 (default 0 (bytes l !! k) + u64 m)) as Hleast.
  { intros k q m ps Hk. unfold waiting in Hk. destruct (find_flow l k) as [g|] eqn:E; [|done]. cbn in Hk. apply find_flow_some in E as [Hg <-]; [|by rewrite Hf].
    rewrite Hf in Hg. apply elem_of_cons in Hg as [->|Hg]; [rewrite Hp in Hk; by injection Hk as <- <- <-|].
    rewrite Forall_forall in Hfs. specialize (Hfs g Hg). unfold not_more, cost in Hfs. by rewrite Hp, Hk in Hfs. }
  case_bool_decide as Eq; intros [= <- <- <- <-]; (split; [|done]).
  - by apply Hb.
  - apply reorder_sorted; [split; cbn [flows index fl_id]; rewrite ?fmap_cons; cbn [fl_id]; [done|done|]| |].
    + constructor; [done|]. by apply Forall_cons in W3 as [_ W3].
    + unfold others. cbn [flows]. rewrite filter_cons_False by (cbn; tauto). eapply sorted_sub; [apply sublist_filter|]. by apply Hb.
    + right. cbn [index]. apply W2. rewrite fmap_cons. apply list_elem_of_here.
Qed.

(** A step that neither takes a request back nor resets the counters. *)
Definition calm_step (r r' : Run) : Prop := fq_step r r' /\ removed r' = removed r /\ reset (lim r') = reset (lim r).

Lemma take_back_same r id rq : queue_ok r -> removed (take_back r id rq) = removed r -> lim (take_back r id rq) = lim r.
Proof.
  intros Hr. cbn [take_back removed lim]. case_bool_decide as Hin.
  - intros E. destruct (waiting_arrived r id rq Hr Hin) as [_ Hn]. destruct Hn. rewrite <-E. set_solver.
  - intros _. unfold removeRequest. destruct (find_flow (lim r) id) as [f|] eqn:E; [|done]. unfold waiting in Hin. rewrite E in Hin. cbn in Hin. by rewrite bool_decide_eq_false_2.
Qed.

Lemma serve_reset l now l' x : reset l < now -> serve l now = Ret (l', x) -> reset l' = now + second.
Proof.
  intros Hn. unfold serve. replace (reset l <? now) with true by lia. cbn [flows]. destruct (flows l) as [|f fs]; [done|]. destruct (pending f) as [|[rq n] ps]; [done|]. case_bool_decide; intros [= <- <-]; [done|].
  unfold reorder. by repeat case_match.
Qed.

Lemma calm_ordered r r' : calm_step r r' -> queue_ok r -> ordered (lim r) -> ordered (lim r').
Proof.
  intros (Hst & Hrm & Hre) Hr Ho. destruct Hst as [r id rq n Hn|r id rq Ht Ha Hret|r id rq Ht Hf|r id rq Ht Hf|r id rq Ht Hs|r id rq now l' id' rq' n Ht Hs E|r rq id rq' Ht Hs r'|r rq Hf Hh|r id rq Ha Hret Hh]; try done.
  - apply enqueue_ordered; [apply (ok_wf r Hr)|done].
  - pose proof (take_back_same r id rq Hr) as G. cbn [take_back with_token lim removed] in *. by rewrite G.
  - cbn [lim] in *. assert (now <= reset (lim r)) as Hnow.
    { destruct (decide (now <= reset (lim r))); [done|]. assert (reset (lim r) < now) as Hlt by lia. pose proof (serve_reset _ _ _ _ Hlt E). lia. }
    by apply (serve_ordered (lim r) now l' id' rq' n (ok_wf r Hr) Ho Hnow E).
  - unfold r' in *. by case_bool_decide.
  - by rewrite (take_back_same r id rq Hr Hrm).
Qed.

Lemma calm_reachable r0 r : queue_ok r0 -> ordered (lim r0) -> rtc calm_step r0 r -> queue_ok r /\ ordered (lim r).
Proof.
  intros Hr Ho Hrtc. induction Hrtc as [|r0 r1 r Hst _ IH]; [done|]. apply IH; [by eapply queue_ok_step; [apply Hst|]|by eapply calm_ordered].
Qed.

(** ** The theorems *)

(** C35: in every interleaving of arriving requests, calls that give up, and the
    calls that take the token and serve, no request is lost or served twice: of
    each flow, the requests not taken back are those served and those waiting, in
    the order in which they arrived; only served requests are reported done; and
    the call in the loop always finds a request to serve, so that the
    dereferences of the first flow and its first request are safe. *)
Theorem fair_queue_serves now r :
  rtc fq_step (run_start now) r ->
  (forall id, filter (fun rq => rq ∉ removed r) (of_flow id (arrived r)) = of_flow id (served r) ++ (waiting (lim r) id).*1) /\
  NoDup (served r).*2 /\
  (forall rq, rq ∈ finished r -> rq ∈ (served r).*2) /\
  (forall rq id t, token r = Some (rq, id, true) -> serving r = None -> exists l' x, serve (lim r) t = Ret (l', x)).
Proof.
  intros Hr%queue_ok_reachable. split_and!.
  - apply (ok_order r Hr).
  - by apply served_nodup.
  - intros rq Hf. apply (ok_finished r Hr). by left.
  - intros rq id t Ht Hs. destruct (holder_waits r rq id Hr Ht Hs) as (x & ps & Hx). destruct (serve_ok (lim r) t id x ps (ok_wf r Hr) Hx) as (l' & id' & rq' & n & -> & _). by eexists _, _.
Qed.

(** C36: the queue is fair between resets: from a state with at most one flow
    waiting, as long as no waiting request is taken back and the counters are not
    reset, the request served is of a flow for which the bytes used so far and
    the bytes asked for are the least among all the waiting flows. *)
Theorem fair_queue_least now r0 r t l' id rq n k q m ps :
  rtc fq_step (run_start now) r0 -> (length (flows (lim r0)) <= 1)%nat -> rtc calm_step r0 r ->
  t <= reset (lim r) -> serve (lim r) t = Ret (l', (id, rq, n)) -> waiting (lim r) k = (q, m) :: ps ->
  u64 (default 0 (bytes (lim r) !! id) + u64 n) <= u64 (default 0 (bytes (lim r) !! k) + u64 m).
Proof.
  intros Hr%queue_ok_reachable Hlen Hcalm Ht E Hk. destruct (calm_reachable r0 r Hr) as [Hr' Ho]; [|done|].
  - unfold ordered. destruct (flows (lim r0)) as [|f [|g fs]]; cbn in Hlen; [constructor|by repeat constructor|lia].
  - destruct (serve_ordered (lim r) t l' id rq n (ok_wf r Hr') Ho Ht E) as [_ Hl]. by apply (Hl k q m ps).
Qed.

(** ** Examples *)

Definition two_flows : Run :=
  let l1 := enqueue (NewFairQueueLimiter 0) "a" 0 60 in
  mk_run (enqueue l1 "b" 1 20) None None [("a", 0%nat); ("b", 1%nat)] [] ∅ ∅ ∅.

Definition two_flows_after : FairQueueLimiter := mk_fq [mk_flow "a" [(0%nat, 60)]] {["a"]} {["b" := 20]} second.

Lemma two_flows_calm : rtc calm_step (run_start 0) two_flows.
Proof.
  eapply rtc_l; [split; [apply (f_arrive _ "a" 0 60); by apply not_elem_of_nil|done]|]. apply rtc_once. split; [|done].
  apply (f_arrive (mk_run (enqueue (NewFairQueueLimiter 0) "a" 0 60) None None [("a", 0%nat)] [] ∅ ∅ ∅) "b" 1 20). cbn. intros [=]%list_elem_of_singleton.
Qed.

Lemma two_flows_serve : serve (lim two_flows) 5 = Ret (two_flows_after, ("b", 1%nat, 20)).
Proof. by vm_compute. Qed.

(** The call of the first flow serves the second, which asks for less. *)
Definition serving_b : Run := mk_run two_flows_after (Some (0%nat, "a", true)) (Some 1%nat) (arrived two_flows) [("b", 1%nat)] ∅ ∅ ∅.

Lemma serving_b_reached : rtc fq_step (run_start 0) serving_b.
Proof.
  transitivity two_flows.
  { eapply rtc_subrel; [|exact two_flows_calm]. by intros r r' [Hst _]. }
  eapply rtc_l; [apply (f_take two_flows "a" 0); [done|apply list_elem_of_here|apply not_elem_of_empty]|].
  eapply rtc_l; [apply (f_enter (with_token two_flows (Some (0%nat, "a", false))) "a" 0); [done|apply not_elem_of_empty]|].
  apply rtc_once. apply (f_serve (with_token two_flows (Some (0%nat, "a", true))) "a" 0 5 two_flows_after "b" 1 20); [done|done|exact two_flows_serve].
Qed.

Lemma fair_queue_serves_witness : rtc fq_step (run_start 0) serving_b /\
  filter (fun rq => rq ∉ removed serving_b) (of_flow "b" (arrived serving_b)) = of_flow "b" (served serving_b) ++ (waiting (lim serving_b) "b").*1.
Proof. split; [exact serving_b_reached|]. exact (proj1 (fair_queue_serves 0 serving_b serving_b_reached) "b"). Defined.

Lemma fair_queue_least_witness : u64 (default 0 (bytes (lim two_flows) !! "b") + u64 20) <= u64 (default 0 (bytes (lim two_flows) !! "a") + u64 60).
Proof.
  refine (fair_queue_least 0 (run_start 0) two_flows 5 two_flows_after "b" 1 20 "a" 0 60 [] (rtc_refl _ _) _ two_flows_calm _ two_flows_serve _).
  - cbn. lia.
  - by vm_compute.
  - by vm_compute.
Defined.

(** When the counters are reset the flows keep the order of the old ones: the
    flow that asks for 60 bytes is served before the one that asks for 50. *)
Example reset_keeps_order :
  exists l', serve (enqueue two_flows_after "b" 2 50) (second + 1) = Ret (l', ("a", 0%nat, 60)) /\ bytes l' !! "b" = None /\ waiting l' "b" = [(2%nat, 50)].
Proof. eexists. by vm_compute. Qed.

(** A flow whose first request is taken back keeps its place. *)
Example take_back_keeps_order :
  exists l', serve (removeRequest (enqueue (lim two_flows) "a" 2 1) "a" 0) 5 = Ret (l', ("b", 1%nat, 20)) /\ waiting l' "a" = [(2%nat, 1)].
Proof. eexists. by vm_compute. Qed.
