(* ===== verification/ConnLimiter.v ===== *)
(** * The connection limiter
    (src/protocol/limiter/connection/lock.go, strategy.go)

    A strategy lets connections of at most so many ids through; the manager has a
    strategy for each user and cancels the connections of the users it loses. *)

From S2P Require Import Prelude.

(** ** Locks *)

(** [locks] has pointers to the counters; [counters] is what they point to. *)
Record Locks := mk_locks { locks : gmap string nat; counters : list Z }.

Definition no_locks : Locks := mk_locks ∅ [].

(** The function that [NewDefaultLock] returns, and the one that that returns. *)
Definition lock_id (max : Z) (l : Locks) (id : string) : res (Locks * nat) :=
  match locks l !! id with
  | Some p => Ret (mk_locks (locks l) (alter (fun c => u32 (c + 1)) p (counters l)), p)
  | None =>
    if Z.of_nat (size (locks l)) =? max then Err "not enough free locks"
    else Ret (mk_locks (<[id := length (counters l)]> (locks l)) (counters l ++ [u32 (0 + 1)]), length (counters l))
  end.

Definition unlock_id (l : Locks) (id : string) (p : nat) : Locks :=
  let cs := alter (fun c => u32 (c - 1)) p (counters l) in
  mk_locks (if bool_decide (cs !! p = Some 0) then delete id (locks l) else locks l) cs.

(** ** Strategies *)

Inductive Strategy :=
  | DefaultConnectionStrategy (max : Z) (l : Locks)
  | BypassConnectionStrategy.

(** What the close handler has to undo. *)
Abbreviation handle := (option (string * nat)).

(** [id] is what the strategy's [connIDGetter] finds. *)
Definition strategy_request (s : Strategy) (id : option string) : res (Strategy * handle) :=
  match s with
  | DefaultConnectionStrategy max l =>
    match id with
    | None => Err "id not found"
    | Some id => '(l, p) ← lock_id max l id; Ret (DefaultConnectionStrategy max l, Some (id, p))
    end
  | BypassConnectionStrategy => Ret (s, None)
  end.

Definition strategy_close (s : Strategy) (h : handle) : Strategy :=
  match s, h with
  | DefaultConnectionStrategy max l, Some (id, p) => DefaultConnectionStrategy max (unlock_id l id p)
  | _, _ => s
  end.

(** ** The manager *)

(** Strategies by their place in the store, cancellations by their connection. *)
Record ManagerConnectionStrategy := mk_manager { strategies : gmap string nat; cancels : gmap string (list nat) }.

Definition NewManagerConnectionStrategy : ManagerConnectionStrategy := mk_manager ∅ ∅.

Definition entries (m : ManagerConnectionStrategy) (user : string) : list nat := default [] (cancels m !! user).

Definition add_cancel (m : ManagerConnectionStrategy) (user : string) (e : nat) : ManagerConnectionStrategy :=
  mk_manager (strategies m) (<[user := entries m user ++ [e]]> (cancels m)).

Fixpoint remove_entry (e : nat) (es : list nat) : option (list nat) :=
  match es with
  | [] => None
  | x :: es => if bool_decide (x = e) then Some es else cons x <$> remove_entry e es
  end.

Definition remove_cancel (m : ManagerConnectionStrategy) (user : string) (e : nat) : ManagerConnectionStrategy :=
  match remove_entry e (entries m user) with
  | Some es => mk_manager (strategies m) (<[user := es]> (cancels m))
  | None => m
  end.

(** The manager, and the entries to cancel. *)
Definition UpdateStrategies (m : ManagerConnectionStrategy) (ss : gmap string nat) : ManagerConnectionStrategy * list nat :=
  (mk_manager ss (filter (fun x => is_Some (ss !! x.1)) (cancels m)),
   concat (map snd (map_to_list (filter (fun x => ss !! x.1 = None) (cancels m))))).

(** ** Connections through a manager *)

(** [request] and the close handler, one constructor between two critical
    sections: the strategy is found, its lock is taken, the cancellation is
    registered; then it is removed and the lock is released. *)
Inductive phase :=
  | Found (k : nat)
  | Locked (k : nat) (h : handle)
  | Open (k : nat) (h : handle)
  | Closing (k : nat) (h : handle)
  | Refused
  | Closed.

Record Conn := mk_conn { user : string; conn_id : option string; at_ : phase }.

Record System := mk_system { manager : ManagerConnectionStrategy; store : list Strategy; conns : list Conn; cancelled : gset nat }.

Definition system_start : System := mk_system NewManagerConnectionStrategy [] [] ∅.

Definition with_conns (s : System) (cs : list Conn) : System := mk_system (manager s) (store s) cs (cancelled s).

Definition fresh (st : Strategy) : Prop := match st with DefaultConnectionStrategy max l => 0 <= max /\ l = no_locks | BypassConnectionStrategy => True end.

Inductive cl_step : System -> System -> Prop :=
  | c_create s st : fresh st -> cl_step s (mk_system (manager s) (store s ++ [st]) (conns s) (cancelled s))
  | c_update s ss : map_Forall (fun _ k => (k < length (store s))%nat) ss ->
      let (m, es) := UpdateStrategies (manager s) ss in
      cl_step s (mk_system m (store s) (conns s) (list_to_set es ∪ cancelled s))
  | c_find s u id k : strategies (manager s) !! u = Some k -> cl_step s (with_conns s (conns s ++ [mk_conn u id (Found k)]))
  | c_lock s i u id k st st' h : conns s !! i = Some (mk_conn u id (Found k)) -> store s !! k = Some st -> strategy_request st id = Ret (st', h) ->
      cl_step s (mk_system (manager s) (<[k := st']> (store s)) (<[i := mk_conn u id (Locked k h)]> (conns s)) (cancelled s))
  | c_refuse s i u id k st e : conns s !! i = Some (mk_conn u id (Found k)) -> store s !! k = Some st -> strategy_request st id = Err e ->
      cl_step s (with_conns s (<[i := mk_conn u id Refused]> (conns s)))
  | c_register s i u id k h : conns s !! i = Some (mk_conn u id (Locked k h)) ->
      cl_step s (mk_system (add_cancel (manager s) u i) (store s) (<[i := mk_conn u id (Open k h)]> (conns s)) (cancelled s))
  | c_close s i u id k h : conns s !! i = Some (mk_conn u id (Open k h)) ->
      cl_step s (mk_system (remove_cancel (manager s) u i) (store s) (<[i := mk_conn u id (Closing k h)]> (conns s)) ({[i]} ∪ cancelled s))
  | c_release s i u id k h st : conns s !! i = Some (mk_conn u id (Closing k h)) -> store s !! k = Some st ->
      cl_step s (mk_system (manager s) (<[k := strategy_close st h]> (store s)) (<[i := mk_conn u id Closed]> (conns s)) (cancelled s)).

(** ** The invariant *)

(** What a connection holds of which strategy. *)
Definition holding (c : Conn) : option (nat * string * nat) :=
  match at_ c with
  | Locked k (Some (id, p)) | Open k (Some (id, p)) | Closing k (Some (id, p)) => Some (k, id, p)
  | _ => None
  end.

Definition count (cs : list Conn) (x : nat * string * nat) : nat := length (filter (fun c => holding c = Some x) cs).

(** The counter of an id is the number of connections that hold it; the others
    hold nothing. *)
Record locks_ok (max : Z) (l : Locks) (uses : string -> nat -> nat) : Prop := {
  lo_size : Z.of_nat (size (locks l)) <= max;
  lo_counter : forall id p, locks l !! id = Some p -> counters l !! p = Some (Z.of_nat (uses id p)) /\ (0 < uses id p)%nat;
  lo_held : forall id p, (0 < uses id p)%nat -> locks l !! id = Some p;
  lo_inj : forall i j p, locks l !! i = Some p -> locks l !! j = Some p -> i = j
}.

Definition strategy_ok (cs : list Conn) (k : nat) (st : Strategy) : Prop :=
  match st with
  | DefaultConnectionStrategy max l => locks_ok max l (fun id p => count cs (k, id, p))
  | BypassConnectionStrategy => forall id p, count cs (k, id, p) = 0%nat
  end.

Definition is_open (c : Conn) : Prop := match at_ c with Open _ _ => True | _ => False end.

Record system_ok (s : System) : Prop := {
  so_store : forall k st, store s !! k = Some st -> strategy_ok (conns s) k st;
  so_refs : map_Forall (fun _ k => (k < length (store s))%nat) (strategies (manager s));
  so_phase : forall i c, conns s !! i = Some c ->
    match at_ c with Found k | Locked k _ | Open k _ | Closing k _ => (k < length (store s))%nat | _ => True end;
  so_entries : forall u i, i ∈ entries (manager s) u -> exists c, conns s !! i = Some c /\ user c = u /\ is_open c;
  so_nodup : forall u, NoDup (entries (manager s) u);
  so_open : forall i c, conns s !! i = Some c -> is_open c -> i ∈ entries (manager s) (user c) \/ i ∈ cancelled s
}.

Lemma lock_id_ok max l id l' p uses uses' :
  locks_ok max l uses -> lock_id max l id = Ret (l', p) ->
  (forall i q, uses' i q = (uses i q + (if decide ((i, q) = (id, p)) then 1 else 0))%nat) -> Z.of_nat (uses' id p) < 2 ^ 32 -> locks_ok max l' uses'.
Proof.
  intros [L1 L2 L3 L4] E Hu Hb. unfold lock_id in E. destruct (locks l !! id) as [p0|] eqn:El.
  - injection E as <- <-. destruct (L2 id p0 El) as [Hc Hpos]. pose proof (Hu id p0) as Hp. rewrite decide_True in Hp by done. split; cbn [locks counters]; try done.
    + intros i q Hi. rewrite Hu. destruct (decide ((i, q) = (id, p0))) as [[= -> ->]|Hne].
      * rewrite list_lookup_alter_eq, Hc. cbn. split; [|lia]. f_equal. rewrite u32_id; [|red]; lia.
      * rewrite list_lookup_alter_ne; [|intros <-; by rewrite (L4 i id p0 Hi El) in Hne]. rewrite Nat.add_0_r. by apply L2.
    + intros i q. rewrite Hu. case_decide as Eq; [by injection Eq as -> ->|]. rewrite Nat.add_0_r. apply L3.
  - destruct (Z.of_nat (size (locks l)) =? max) eqn:Em; [done|]. injection E as <- <-. set (p := length (counters l)) in *.
    assert (forall i q, (0 < uses i q)%nat -> (q < p)%nat) as Hlt.
    { intros i q Hq. destruct (L2 i q (L3 i q Hq)) as [Hc _]. by apply lookup_lt_Some in Hc. }
    assert (forall i q, locks l !! i = Some q -> (q < p)%nat) as Hlt2 by (intros i q Hi; by apply (Hlt i q), L2).
    assert (forall i, uses i p = 0%nat) as H0 by (intros i; destruct (uses i p) eqn:Eu; [done|]; pose proof (Hlt i p ltac:(lia)); lia). split; cbn [locks counters].
    + rewrite map_size_insert_None by done. lia.
    + intros i q. rewrite Hu. destruct (decide (i = id)) as [->|Hne].
      * rewrite lookup_insert_eq. intros [= <-]. rewrite decide_True, H0 by done. split; [|lia]. unfold p. by rewrite lookup_app_r, Nat.sub_diag by lia.
      * rewrite lookup_insert_ne by done. intros Hi. rewrite decide_False, Nat.add_0_r by congruence. rewrite lookup_app_l by (by apply (Hlt2 i)). by apply L2.
    + intros i q. rewrite Hu. case_decide as Eq; [injection Eq as -> ->; by rewrite lookup_insert_eq|]. rewrite Nat.add_0_r. intros Hi.
      pose proof (L3 i q Hi). rewrite lookup_insert_ne by congruence. done.
    + intros i j q. destruct (decide (i = id)) as [->|Hi], (decide (j = id)) as [->|Hj]; rewrite ?lookup_insert_eq, ?lookup_insert_ne by done; [done|..].
      * intros [= <-] Hq. apply Hlt2 in Hq. lia.
      * intros Hq [= <-]. apply Hlt2 in Hq. lia.
      * apply L4.
Qed.

Lemma unlock_id_ok max l id p uses uses' :
  locks_ok max l uses -> (forall i q, uses i q = (uses' i q + (if decide ((i, q) = (id, p)) then 1 else 0))%nat) -> Z.of_nat (uses id p) < 2 ^ 32 -> locks_ok max (unlock_id l id p) uses'.
Proof.
  intros [L1 L2 L3 L4] Hu Hb. pose proof (Hu id p) as Hp. rewrite decide_True in Hp by done. assert (locks l !! id = Some p) as Hid by (apply L3; lia). destruct (L2 id p Hid) as [Hc _].
  unfold unlock_id. set (cs := alter _ p (counters l)). assert (cs !! p = Some (Z.of_nat (uses' id p))) as Hcs.
  { unfold cs. rewrite list_lookup_alter_eq, Hc. cbn. f_equal. rewrite u32_id; [|red]; lia. }
  assert (forall i q, locks l !! i = Some q -> i ≠ id -> cs !! q = Some (Z.of_nat (uses' i q)) /\ (0 < uses' i q)%nat) as Hother.
  { intros i q Hi Hne. destruct (L2 i q Hi) as [Hq Hpos]. rewrite Hu, decide_False, Nat.add_0_r in Hq, Hpos by congruence. split; [|done]. unfold cs. rewrite list_lookup_alter_ne; [done|]. intros <-. by apply Hne, (L4 i id p). }
  assert (forall i q, (0 < uses' i q)%nat -> locks l !! i = Some q) as Hheld by (intros i q Hq; apply L3; rewrite Hu; lia).
  rewrite Hcs. case_bool_decide as E0; split; cbn [locks counters].
  - rewrite map_size_delete_Some by (by eexists). lia.
  - intros i q. destruct (decide (i = id)) as [->|Hne]; [by rewrite lookup_delete_eq|]. rewrite lookup_delete_ne by done. intros Hi. by apply Hother.
  - intros i q Hq. pose proof (Hheld i q Hq) as Hi. destruct (decide (i = id)) as [->|Hne]; [|by rewrite lookup_delete_ne]. rewrite Hid in Hi. injection Hi as <-. injection E0 as E0. lia.
  - intros i j q [_ Hi]%lookup_delete_Some [_ Hj]%lookup_delete_Some. by apply (L4 i j q).
  - done.
  - intros i q Hi. destruct (decide (i = id)) as [->|Hne]; [|by apply Hother]. rewrite Hid in Hi. injection Hi as <-. split; [done|]. destruct (uses' id p); [done|lia].
  - done.
  - done.
Qed.

(** ** Counting *)

Lemma count_insert cs i c c' x : cs !! i = Some c ->
  (count (<[i := c']> cs) x + (if decide (holding c = Some x) then 1 else 0) = count cs x + (if decide (holding c' = Some x) then 1 else 0))%nat.
Proof.
  unfold count. revert i. induction cs as [|d cs IH]; intros [|i] Hi; cbn in Hi; [done|done| |].
  - injection Hi as ->. cbn [insert list_insert]. rewrite !filter_cons. repeat case_decide; cbn; lia.
  - specialize (IH i Hi). change (<[S i := c']> (d :: cs)) with (d :: <[i := c']> cs). rewrite !filter_cons. destruct (decide (holding d = Some x)); cbn [length]; lia.
Qed.

Lemma count_same cs i c c' x : cs !! i = Some c -> holding c' = holding c -> count (<[i := c']> cs) x = count cs x.
Proof. intros Hi E. pose proof (count_insert cs i c c' x Hi) as H. rewrite E in H. lia. Qed.

Lemma count_snoc cs c x : holding c = None -> count (cs ++ [c]) x = count cs x.
Proof. intros E. unfold count. rewrite filter_app, filter_cons, E, decide_False by done. by rewrite app_nil_r. Qed.

Lemma count_le cs x : (count cs x <= length cs)%nat.
Proof. apply length_filter. Qed.

Lemma count_pos cs x : (0 < count cs x)%nat <-> exists i c, cs !! i = Some c /\ holding c = Some x.
Proof.
  unfold count. destruct (filter _ cs) as [|c l] eqn:E; cbn; split; try lia.
  - intros (i & c & Hi & Hc). assert (c ∈ filter (fun c => holding c = Some x) cs) as Hin by (apply list_elem_of_filter; split; [done|by eapply list_elem_of_lookup_2]). rewrite E in Hin. by apply not_elem_of_nil in Hin.
  - intros _. assert (c ∈ filter (fun c => holding c = Some x) cs) as Hin by (rewrite E; apply list_elem_of_here). apply list_elem_of_filter in Hin as [Hc Hin]. apply list_elem_of_lookup in Hin as [i Hi]. by exists i, c.
Qed.

Lemma strategy_ok_ext cs cs' k st : (forall id p, count cs' (k, id, p) = count cs (k, id, p)) -> strategy_ok cs k st -> strategy_ok cs' k st.
Proof.
  intros E. destruct st as [max l|]; cbn; [|intros H id p; by rewrite E]. intros [L1 L2 L3 L4]. split; try done.
  - intros id p. rewrite E. apply L2.
  - intros id p. rewrite E. apply L3.
Qed.

(** ** Entries *)

Lemma cancels_insert m u es u' : entries (mk_manager (strategies m) (<[u := es]> (cancels m))) u' = if decide (u = u') then es else entries m u'.
Proof. unfold entries. cbn [cancels]. rewrite lookup_insert. by case_decide. Qed.

Lemma remove_entry_spec e es : NoDup es ->
  match remove_entry e es with Some es' => NoDup es' /\ (forall i, i ∈ es' <-> i ∈ es /\ i ≠ e) | None => e ∉ es end.
Proof.
  induction es as [|x es IH]; intros Hn; cbn [remove_entry]; [by apply not_elem_of_nil|]. apply NoDup_cons in Hn as [Hx Hn]. specialize (IH Hn). case_bool_decide as E.
  - subst x. split; [done|]. intros i. rewrite elem_of_cons. split; [intros Hi; split; [by right|]; by intros ->|]. by intros [[->|?] ?].
  - destruct (remove_entry e es) as [es'|]; cbn.
    + destruct IH as [Hn' IH]. split; [constructor; [|done]; rewrite IH; tauto|]. intros i. rewrite !elem_of_cons, IH. split; [intros [->|?]; tauto|tauto].
    + rewrite elem_of_cons. by intros [->|?].
Qed.

Lemma remove_cancel_spec m u e : (forall u, NoDup (entries m u)) ->
  strategies (remove_cancel m u e) = strategies m /\ forall u', NoDup (entries (remove_cancel m u e) u') /\ forall i, i ∈ entries (remove_cancel m u e) u' <-> i ∈ entries m u' /\ ~ (u' = u /\ i = e).
Proof.
  intros Hn. unfold remove_cancel. pose proof (remove_entry_spec e (entries m u) (Hn u)) as H. destruct (remove_entry e (entries m u)) as [es|]; (split; [done|]); intros u'.
  - destruct H as [Hn' H]. rewrite cancels_insert. case_decide as E; [subst u'|]; (split; [done|]); intros i; [rewrite H|]; naive_solver.
  - split; [done|]. intros i. split; [|tauto]. intros Hi. split; [done|]. by intros [-> ->].
Qed.

Lemma update_entries m ss u : entries (UpdateStrategies m ss).1 u = if decide (is_Some (ss !! u)) then entries m u else [].
Proof.
  unfold entries. cbn [UpdateStrategies fst cancels]. rewrite map_lookup_filter. destruct (cancels m !! u) as [es|]; cbn; [|by case_decide]. case_decide as E; case_guard; done.
Qed.

Lemma update_swept m ss i : i ∈ (UpdateStrategies m ss).2 <-> exists u, ss !! u = None /\ i ∈ entries m u.
Proof.
  cbn [UpdateStrategies snd]. rewrite list_elem_of_In, in_concat. split.
  - intros (es & Hes & Hi). apply list_elem_of_In in Hi. apply in_map_iff in Hes as ([u es'] & <- & Hin). apply list_elem_of_In, elem_of_map_to_list, map_lookup_filter_Some in Hin as [Hu Hs].
    exists u. split; [done|]. unfold entries. by rewrite Hu.
  - intros (u & Hs & Hi). unfold entries in Hi. destruct (cancels m !! u) as [es|] eqn:E; [|by apply not_elem_of_nil in Hi]. exists es. split; [|by apply list_elem_of_In].
    apply in_map_iff. exists (u, es). split; [done|]. by apply list_elem_of_In, elem_of_map_to_list, map_lookup_filter_Some.
Qed.

(** ** Steps *)

Definition phase_in (n : nat) (c : Conn) : Prop :=
  match at_ c with Found k | Locked k _ | Open k _ | Closing k _ => (k < n)%nat | _ => True end.

Lemma holding_in n c k id p : phase_in n c -> holding c = Some (k, id, p) -> (k < n)%nat.
Proof. unfold phase_in, holding. destruct (at_ c) as [|? [[]|]|? [[]|]|? [[]|]| |]; congruence. Qed.

Lemma phase_insert s i c' j c : system_ok s -> phase_in (length (store s)) c' -> <[i := c']> (conns s) !! j = Some c -> phase_in (length (store s)) c.
Proof. intros Hs Hc' [(<- & <- & _)|(_ & Hj)]%list_lookup_insert_Some; [done|]. by apply (so_phase s Hs j c). Qed.

(** A connection that is not open, before or after. *)
Lemma system_ok_move s i c c' store' :
  system_ok s -> conns s !! i = Some c -> ~ is_open c -> ~ is_open c' -> phase_in (length (store s)) c' -> length store' = length (store s) ->
  (forall k st, store' !! k = Some st -> strategy_ok (<[i := c']> (conns s)) k st) ->
  system_ok (mk_system (manager s) store' (<[i := c']> (conns s)) (cancelled s)).
Proof.
  intros Hs Hi Hc Hc' Hp Hlen Hst. pose proof Hs as [S1 S2 S3 S4 S5 S6]. split; cbn [manager store conns cancelled]; rewrite ?Hlen; try done.
  - intros j d Hj. by apply (phase_insert s i c' j d).
  - intros u j Hj. destruct (S4 u j Hj) as (d & Hd & Hu & Ho). exists d. split; [|done]. rewrite list_lookup_insert_ne; [done|]. intros <-. congruence.
  - intros j d [(<- & <- & _)|(_ & Hj)]%list_lookup_insert_Some Ho; [done|by apply S6].
Qed.

Lemma store_insert s k st st' cs' :
  system_ok s -> strategy_ok cs' k st' -> (forall k' id p, k' ≠ k -> count cs' (k', id, p) = count (conns s) (k', id, p)) ->
  store s !! k = Some st -> forall j st0, <[k := st']> (store s) !! j = Some st0 -> strategy_ok cs' j st0.
Proof.
  intros Hs Hst Hc Hk j st0 [(<- & <- & _)|(Hne & Hj)]%list_lookup_insert_Some; [done|].
  eapply strategy_ok_ext; [|by apply (so_store s Hs)]. intros id p. by apply Hc.
Qed.

Lemma ok_lock s i u id k st st' h :
  system_ok s -> Z.of_nat (length (conns s)) < 2 ^ 32 -> conns s !! i = Some (mk_conn u id (Found k)) -> store s !! k = Some st -> strategy_request st id = Ret (st', h) ->
  system_ok (mk_system (manager s) (<[k := st']> (store s)) (<[i := mk_conn u id (Locked k h)]> (conns s)) (cancelled s)).
Proof.
  intros Hs Hlen Hi Hk E. apply (system_ok_move s i _ _ _ Hs Hi); [by intros []|by intros []|by apply lookup_lt_Some in Hk|by rewrite length_insert|].
  pose proof (fun x => count_insert (conns s) i _ (mk_conn u id (Locked k h)) x Hi) as Hc. pose proof (so_store s Hs k st Hk) as Hst.
  apply (store_insert s k st); [done| | |done].
  - destruct st as [max l|]; cbn in E.
    + destruct id as [id|]; [|done]. destruct (lock_id max l id) as [[l' p]|?|] eqn:El; [|done..]. cbn in E. injection E as <- <-. cbn. eapply lock_id_ok; [exact Hst|exact El| |].
      * intros i' q. specialize (Hc (k, i', q)). cbn in Hc. repeat case_decide; simplify_eq; lia.
      * pose proof (count_le (<[i := mk_conn u (Some id) (Locked k (Some (id, p)))]> (conns s)) (k, id, p)) as Hle. rewrite length_insert in Hle. lia.
    + injection E as <- <-. intros i' q. rewrite (count_same _ _ _ _ _ Hi); [apply Hst|done].
  - intros k' i' q Hne. specialize (Hc (k', i', q)). destruct h as [[]|]; cbn in Hc; repeat case_decide; simplify_eq; lia.
Qed.

Lemma ok_release s i u id k h st :
  system_ok s -> Z.of_nat (length (conns s)) < 2 ^ 32 -> conns s !! i = Some (mk_conn u id (Closing k h)) -> store s !! k = Some st ->
  system_ok (mk_system (manager s) (<[k := strategy_close st h]> (store s)) (<[i := mk_conn u id Closed]> (conns s)) (cancelled s)).
Proof.
  intros Hs Hlen Hi Hk. apply (system_ok_move s i _ _ _ Hs Hi); [by intros []|by intros []|done|by rewrite length_insert|].
  pose proof (fun x => count_insert (conns s) i _ (mk_conn u id Closed) x Hi) as Hc. pose proof (so_store s Hs k st Hk) as Hst.
  apply (store_insert s k st); [done| | |done].
  - destruct h as [[i' q]|].
    + destruct st as [max l|]; cbn [strategy_close strategy_ok].
      * eapply unlock_id_ok; [exact Hst| |pose proof (count_le (conns s) (k, i', q)); lia]. intros j p. specialize (Hc (k, j, p)). cbn in Hc. repeat case_decide; simplify_eq; lia.
      * intros j p. pose proof (Hst j p) as H0. specialize (Hc (k, j, p)). cbn in Hc, H0. repeat case_decide; simplify_eq; lia.
    + assert (strategy_close st None = st) as -> by (by destruct st). eapply strategy_ok_ext; [|exact Hst]. intros j p. by apply (count_same _ _ _ _ _ Hi).
  - intros k' i' q Hne. specialize (Hc (k', i', q)). destruct h as [[]|]; cbn in Hc; repeat case_decide; simplify_eq; lia.
Qed.

Lemma ok_refuse s i u id k : system_ok s -> conns s !! i = Some (mk_conn u id (Found k)) -> system_ok (with_conns s (<[i := mk_conn u id Refused]> (conns s))).
Proof.
  intros Hs Hi. apply (system_ok_move s i _ _ _ Hs Hi); [by intros []|by intros []|done|done|]. intros k' st Hk. eapply strategy_ok_ext; [|by apply (so_store s Hs)]. intros j p. by apply (count_same _ _ _ _ _ Hi).
Qed.

Lemma ok_register s i u id k h : system_ok s -> conns s !! i = Some (mk_conn u id (Locked k h)) ->
  system_ok (mk_system (add_cancel (manager s) u i) (store s) (<[i := mk_conn u id (Open k h)]> (conns s)) (cancelled s)).
Proof.
  intros Hs Hi. pose proof Hs as [S1 S2 S3 S4 S5 S6]. assert (forall u', i ∉ entries (manager s) u') as Hn.
  { intros u' Hin. destruct (S4 u' i Hin) as (c & Hc & _ & Ho). rewrite Hi in Hc. by injection Hc as <-. }
  split; cbn [manager store conns cancelled]; try done.
  - intros k' st Hk. eapply strategy_ok_ext; [|by apply S1]. intros j p. by apply (count_same _ _ _ _ _ Hi).
  - intros j d Hj. apply (phase_insert s i _ j d Hs) in Hj; [done|]. by apply (S3 i _ Hi).
  - intros u' j. unfold add_cancel. rewrite cancels_insert. intros Hj. assert (j ∈ entries (manager s) u' \/ u = u' /\ j = i) as [Hold|[<- ->]].
    { case_decide; [subst u'|by left]. apply elem_of_app in Hj as [?| ->%list_elem_of_singleton]; [by left|by right]. }
    + destruct (S4 u' j Hold) as (d & Hd & ?). exists d. split; [|done]. rewrite list_lookup_insert_ne; [done|]. intros ->. by apply (Hn u').
    + exists (mk_conn u id (Open k h)). split; [|done]. apply list_lookup_insert_eq. by apply lookup_lt_Some in Hi.
  - intros u'. unfold add_cancel. rewrite cancels_insert. case_decide; [subst u'|done]. apply NoDup_app. split_and!; [done| |apply NoDup_singleton]. intros x Hx ->%list_elem_of_singleton. by apply (Hn u).
  - intros j d [(<- & <- & _)|(_ & Hj)]%list_lookup_insert_Some Ho; unfold add_cancel; rewrite cancels_insert.
    + left. cbn [user]. rewrite decide_True by done. apply elem_of_app. right. by apply list_elem_of_singleton.
    + destruct (S6 j d Hj Ho) as [Hin|Hin]; [|by right]. left. case_decide; [subst u; apply elem_of_app; by left|done].
Qed.

Lemma ok_close s i u id k h : system_ok s -> conns s !! i = Some (mk_conn u id (Open k h)) ->
  system_ok (mk_system (remove_cancel (manager s) u i) (store s) (<[i := mk_conn u id (Closing k h)]> (conns s)) ({[i]} ∪ cancelled s)).
Proof.
  intros Hs Hi. pose proof Hs as [S1 S2 S3 S4 S5 S6]. destruct (remove_cancel_spec (manager s) u i S5) as [Est Hr]. split; cbn [manager store conns cancelled].
  - intros k' st Hk. eapply strategy_ok_ext; [|by apply S1]. intros j p. by apply (count_same _ _ _ _ _ Hi).
  - by rewrite Est.
  - intros j d Hj. apply (phase_insert s i _ j d Hs) in Hj; [done|]. by apply (S3 i _ Hi).
  - intros u' j Hj. apply Hr in Hj as [Hj Hne]. destruct (S4 u' j Hj) as (d & Hd & Hu & Ho). exists d. split; [|done]. rewrite list_lookup_insert_ne; [done|]. intros <-. rewrite Hi in Hd. injection Hd as <-. by apply Hne.
  - intros u'. apply Hr.
  - intros j d [(<- & <- & _)|(Hne & Hj)]%list_lookup_insert_Some Ho; [done|]. destruct (S6 j d Hj Ho) as [Hin|Hin]; [left|right; set_solver]. apply Hr. split; [done|]. by intros [_ ->].
Qed.

Lemma ok_update s ss : system_ok s -> map_Forall (fun _ k => (k < length (store s))%nat) ss ->
  system_ok (mk_system (UpdateStrategies (manager s) ss).1 (store s) (conns s) (list_to_set (UpdateStrategies (manager s) ss).2 ∪ cancelled s)).
Proof.
  intros [S1 S2 S3 S4 S5 S6] Hss. split; cbn [manager store conns cancelled]; try done.
  - intros u i. rewrite update_entries. case_decide; [apply S4|by intros ?%not_elem_of_nil].
  - intros u. rewrite update_entries. case_decide; [apply S5|constructor].
  - intros i c Hi Ho. rewrite update_entries. destruct (S6 i c Hi Ho) as [Hin|Hin]; [|right; set_solver]. case_decide as Hd; [by left|]. right. apply elem_of_union. left. apply elem_of_list_to_set, update_swept. exists (user c). split; [by apply eq_None_not_Some|done].
Qed.

Lemma ok_create s st : system_ok s -> fresh st -> system_ok (mk_system (manager s) (store s ++ [st]) (conns s) (cancelled s)).
Proof.
  intros Hs Hf. pose proof Hs as [S1 S2 S3 S4 S5 S6]. assert (forall id p, count (conns s) (length (store s), id, p) = 0%nat) as H0.
  { intros id p. destruct (count (conns s) (length (store s), id, p)) eqn:E; [done|]. destruct (proj1 (count_pos (conns s) (length (store s), id, p)) ltac:(lia)) as (i & c & Hi & Hc).
    pose proof (holding_in _ c _ _ _ (S3 i c Hi) Hc). lia. }
  split; cbn [manager store conns cancelled]; try done.
  - intros k st' [[_ Hk]|[-> <-]]%lookup_snoc_Some; [by apply S1|]. destruct st as [max l|]; cbn in *; [|done]. destruct Hf as [Hm ->].
    split; cbn [no_locks locks counters]; [by rewrite map_size_empty|by intros id p; rewrite lookup_empty|intros id p; rewrite H0; lia|by intros ? ? ?; rewrite lookup_empty].
  - intros u k Hk. rewrite length_app. specialize (S2 u k Hk). cbn in *. lia.
  - intros i c Hi. specialize (S3 i c Hi). rewrite length_app. destruct (at_ c); cbn in *; lia || done.
Qed.

Lemma ok_find s u id k : system_ok s -> strategies (manager s) !! u = Some k -> system_ok (with_conns s (conns s ++ [mk_conn u id (Found k)])).
Proof.
  intros [S1 S2 S3 S4 S5 S6] Hk. split; cbn [with_conns manager store conns cancelled]; try done.
  - intros k' st Hst. eapply strategy_ok_ext; [|by apply S1]. intros j p. by apply count_snoc.
  - intros i c [[_ Hi]|[-> <-]]%lookup_snoc_Some; [by apply (S3 i c)|]. by apply (S2 u k).
  - intros u' i Hi. destruct (S4 u' i Hi) as (c & Hc & ?). exists c. split; [|done]. by apply lookup_app_l_Some.
  - intros i c [[_ Hi]|[-> <-]]%lookup_snoc_Some Ho; [by apply S6|done].
Qed.

Lemma system_ok_step s s' : cl_step s s' -> Z.of_nat (length (conns s')) < 2 ^ 32 -> system_ok s -> system_ok s'.
Proof.
  intros Hst Hlen Hs. destruct Hst as [s st Hf|s ss Hss|s u id k Hk|s i u id k st st' h Hi Hk E|s i u id k st e Hi Hk E|s i u id k h Hi|s i u id k h Hi|s i u id k h st Hi Hk];
    cbn [with_conns conns] in Hlen; rewrite ?length_insert in Hlen.
  - by apply ok_create.
  - by apply ok_update.
  - by apply ok_find.
  - by eapply ok_lock.
  - by eapply ok_refuse.
  - by apply ok_register.
  - by apply ok_close.
  - by apply ok_release.
Qed.

Lemma conns_grow s s' : cl_step s s' -> (length (conns s) <= length (conns s'))%nat.
Proof. destruct 1; cbn [with_conns conns]; rewrite ?length_insert, ?length_app; lia. Qed.

Lemma system_ok_start : system_ok system_start.
Proof.
  assert (forall u, entries NewManagerConnectionStrategy u = []) as He by (intros u; unfold entries; cbn; by rewrite lookup_empty).
  split; cbn [system_start manager store conns cancelled]; try done; intros u; rewrite He; [by intros i ?%not_elem_of_nil|constructor].
Qed.

Lemma system_ok_reachable s : rtc cl_step system_start s -> Z.of_nat (length (conns s)) < 2 ^ 32 -> system_ok s.
Proof.
  apply (rtc_ind_r (fun s => Z.of_nat (length (conns s)) < 2 ^ 32 -> system_ok s)); [intros _; apply system_ok_start|].
  intros s1 s2 _ Hst IH Hlen. pose proof (conns_grow s1 s2 Hst). apply (system_ok_step s1 s2 Hst Hlen), IH. lia.
Qed.

(** ** The limits *)

(** C37: through any interleaving of requests, closes and updates of the manager's
    strategies (fewer than 2^32 connections), a strategy has connections of at
    most [max] ids under way: the ids it has locked are exactly those with a
    connection that has its lock and has not released it; it refuses an id only
    when that has no such connection and [max] others have.  An update cancels
    open connections of users without a strategy, and all of them that are not
    cancelled yet. *)
Theorem connection_limits s :
  rtc cl_step system_start s -> Z.of_nat (length (conns s)) < 2 ^ 32 ->
  (forall k max l, store s !! k = Some (DefaultConnectionStrategy max l) ->
    Z.of_nat (size (locks l)) <= max /\
    (forall id, is_Some (locks l !! id) <-> exists i c p, conns s !! i = Some c /\ holding c = Some (k, id, p)) /\
    (forall id e, lock_id max l id = Err e -> locks l !! id = None /\ Z.of_nat (size (locks l)) = max)) /\
  (forall ss i, i ∈ (UpdateStrategies (manager s) ss).2 -> exists c, conns s !! i = Some c /\ is_open c /\ ss !! user c = None) /\
  (forall ss i c, conns s !! i = Some c -> is_open c -> ss !! user c = None -> i ∈ (UpdateStrategies (manager s) ss).2 \/ i ∈ cancelled s).
Proof.
  intros Hr Hlen. pose proof (system_ok_reachable s Hr Hlen) as Hs. split_and!.
  - intros k max l Hk. destruct (so_store s Hs k _ Hk) as [L1 L2 L3 L4]. split_and!; [done| |].
    + intros id. split.
      * intros [p Hp]. destruct (L2 id p Hp) as [_ Hpos]. apply count_pos in Hpos as (i & c & Hi & Hc). by exists i, c, p.
      * intros (i & c & p & Hi & Hc). exists p. apply L3, count_pos. by exists i, c.
    + intros id e. unfold lock_id. destruct (locks l !! id); [done|]. destruct (_ =? max) eqn:E; [|done]. intros _. split; [done|lia].
  - intros ss i (u & Hu & Hi)%update_swept. destruct (so_entries s Hs u i Hi) as (c & Hc & <- & Ho). by exists c.
  - intros ss i c Hi Ho Hu. destruct (so_open s Hs i c Hi Ho) as [Hin|]; [left|by right]. apply update_swept. by exists (user c).
Qed.

(** ** Examples *)

Definition one_open : System :=
  mk_system (mk_manager {["u" := 0%nat]} {["u" := [0%nat]]}) [DefaultConnectionStrategy 1 (mk_locks {["a" := 0%nat]} [1])]
    [mk_conn "u" (Some "a") (Open 0 (Some ("a", 0%nat)))] ∅.

Lemma one_open_reached : rtc cl_step system_start one_open.
Proof.
  eapply rtc_l; [by apply (c_create _ (DefaultConnectionStrategy 1 no_locks))|].
  eapply rtc_l; [apply (c_update _ {["u" := 0%nat]}); intros u k [_ <-]%lookup_singleton_Some; cbn; lia|].
  eapply rtc_l; [by apply (c_find _ "u" (Some "a") 0)|].
  eapply rtc_l; [by apply (c_lock _ 0 "u" (Some "a") 0 (DefaultConnectionStrategy 1 no_locks))|].
  eapply rtc_l; [by apply (c_register _ 0 "u" (Some "a") 0 (Some ("a", 0%nat)))|].
  match goal with |- rtc _ ?s _ => assert (s = one_open) as -> by (by vm_compute) end. apply rtc_refl.
Qed.

Lemma connection_limits_witness : is_Some (locks (mk_locks {["a" := 0%nat]} [1]) !! "a") <-> exists i c p, conns one_open !! i = Some c /\ holding c = Some (0%nat, "a", p).
Proof.
  refine (proj1 (proj2 (proj1 (connection_limits one_open one_open_reached _) 0%nat 1 _ _)) "a"); [by vm_compute|done].
Defined.

(** A request that has found its strategy when its user is removed opens all the
    same, and nothing cancels it. *)
Example opened_after_removal : exists s, rtc cl_step system_start s /\
  strategies (manager s) !! "u" = None /\ conns s !! 0%nat = Some (mk_conn "u" None (Open 0 None)) /\ (0%nat ∉ cancelled s).
Proof.
  eexists. split.
  - eapply rtc_l; [by apply (c_create _ BypassConnectionStrategy)|].
    eapply rtc_l; [apply (c_update _ {["u" := 0%nat]}); intros u k [_ <-]%lookup_singleton_Some; cbn; lia|].
    eapply rtc_l; [by apply (c_find _ "u" None 0)|].
    eapply rtc_l; [by apply (c_update _ ∅)|].
    eapply rtc_l; [by apply (c_lock _ 0 "u" None 0 BypassConnectionStrategy)|].
    eapply rtc_l; [by apply (c_register _ 0 "u" None 0 None)|]. apply rtc_refl.
  - split; [by vm_compute|]. split; [by vm_compute|]. by vm_compute.
Qed.
