(* ===== verification/Protobuf.v ===== *)
(** * Messages of LiveKit on the wire
    (src/transport/call/livekit/wire.go)

    Protocol buffers, written and read by hand: tags, varints and strings of
    bytes.  The reader keeps a position in a buffer. *)

From S2P Require Import Prelude.

(** ** Writing *)

(** [pbWriter]'s methods, as what they append. *)
Fixpoint w_varint_loop (fuel : nat) (v : Z) : list Z :=
  match fuel with
  | O => [u8 v]
  | S fuel => if 0x80 <=? v then Z.lor (u8 v) 0x80 :: w_varint_loop fuel (Z.shiftr v 7) else [u8 v]
  end.

(** A 64-bit number has at most ten groups of seven bits. *)
Definition w_varint (v : Z) : list Z := w_varint_loop 9 v.

Definition w_tag (field wire : Z) : list Z := w_varint (u64 (Z.lor (Z.shiftl field 3) wire)).

Abbreviation wireVarint := 0.
Abbreviation wireFixed64 := 1.
Abbreviation wireBytes := 2.
Abbreviation wireFixed32 := 5.

Definition w_bytes (field : Z) (b : list Z) : list Z := w_tag field wireBytes ++ w_varint (u64 (zlen b)) ++ b.

Definition w_int32 (field v : Z) : list Z := w_tag field wireVarint ++ w_varint (u32 v).
Definition w_int64 (field v : Z) : list Z := w_tag field wireVarint ++ w_varint (u64 v).
Definition w_uint32 (field v : Z) : list Z := w_tag field wireVarint ++ w_varint v.
Definition w_bool (field : Z) (v : bool) : list Z := w_tag field wireVarint ++ w_varint (if v then 1 else 0).

(** ** Reading *)

Record pbReader := mk_reader { buf : list Z; pos : nat }.

Definition eof (r : pbReader) : bool := (length (buf r) <=? pos r)%nat.

Fixpoint r_varint_loop (k : nat) (v shift : Z) (r : pbReader) : pbReader * (string + Z) :=
  match buf r !! pos r with
  | None => (r, inl "varint: unexpected eof"%string)
  | Some b =>
    let r := mk_reader (buf r) (S (pos r)) in
    let v := Z.lor v (u64 (Z.shiftl (Z.land b 0x7f) shift)) in
    if b <? 0x80 then (r, inr v)
    else match k with
         | O => (r, inl "varint: overflow"%string)
         | S k => r_varint_loop k v (shift + 7) r
         end
  end.

(** The shift is 64 or more after ten bytes. *)
Definition r_varint (r : pbReader) : pbReader * (string + Z) := r_varint_loop 9 0 0 r.

Definition r_tag (r : pbReader) : pbReader * (string + Z * Z) :=
  match r_varint r with
  | (r, inl e) => (r, inl e)
  | (r, inr t) => (r, inr (Z.shiftr t 3, Z.land t 7))
  end.

(** The sum of the position and the length is an [int]. *)
Definition r_bytes (r : pbReader) : res (pbReader * (string + list Z)) :=
  match r_varint r with
  | (r, inl e) => Ret (r, inl e)
  | (r, inr n) =>
    let end_ := i64 (Z.of_nat (pos r) + i64 n) in
    if zlen (buf r) <? end_ then Ret (r, inl "bytes: short read"%string)
    else out ← go_slice (buf r) (Z.of_nat (pos r)) end_; Ret (mk_reader (buf r) (Z.to_nat end_), inr out)
  end.

Definition skipWire (r : pbReader) (wire : Z) : res (pbReader * option string) :=
  if wire =? wireVarint then
    match r_varint r with (r, inl e) => Ret (r, Some e) | (r, inr _) => Ret (r, None) end
  else if wire =? wireFixed64 then
    if (length (buf r) <? pos r + 8)%nat then Ret (r, Some "skip: short fixed64"%string) else Ret (mk_reader (buf r) (pos r + 8), None)
  else if wire =? wireBytes then
    '(r, x) ← r_bytes r; match x with inl e => Ret (r, Some e) | inr _ => Ret (r, None) end
  else if wire =? wireFixed32 then
    if (length (buf r) <? pos r + 4)%nat then Ret (r, Some "skip: short fixed32"%string) else Ret (mk_reader (buf r) (pos r + 4), None)
  else Ret (r, Some "unknown wire type"%string).

(** ** Fields *)

(** The loop of the decoders: [step] handles a field and says whether it fails;
    the value is returned also with an error. *)
Fixpoint fields {A} (step : A -> pbReader -> Z -> Z -> res (pbReader * A * option string)) (fuel : nat) (a : A) (r : pbReader) : res (A * option string) :=
  if eof r then Ret (a, None)
  else match fuel with
       | O => Panic
       | S fuel =>
         match r_tag r with
         | (r, inl e) => Ret (a, Some e)
         | (r, inr (field, wire)) =>
           '(r, a, err) ← step a r field wire;
           match err with
           | Some e => Ret (a, Some e)
           | None => fields step fuel a r
           end
         end
       end.

Definition decode {A} (step : A -> pbReader -> Z -> Z -> res (pbReader * A * option string)) (a : A) (data : list Z) : res (A * option string) :=
  fields step (length data) a (mk_reader data 0).

(** A case of a decoder that takes bytes or a number, and the default. *)
Definition on_bytes {A} (r : pbReader) (a : A) (f : list Z -> res A) : res (pbReader * A * option string) :=
  '(r, x) ← r_bytes r;
  match x with
  | inl e => Ret (r, a, Some e)
  | inr b => a ← f b; Ret (r, a, None)
  end.

Definition on_varint {A} (r : pbReader) (a : A) (f : Z -> A) : res (pbReader * A * option string) :=
  match r_varint r with
  | (r, inl e) => Ret (r, a, Some e)
  | (r, inr v) => Ret (r, f v, None)
  end.

Definition on_other {A} (r : pbReader) (a : A) (wire : Z) : res (pbReader * A * option string) :=
  '(r, err) ← skipWire r wire; Ret (r, a, err).

Definition is_field (field wire n w : Z) : bool := (field =? n) && (wire =? w).

(** ** What is written is read *)

Definition rest (r : pbReader) : list Z := drop (pos r) (buf r).

Definition after (r : pbReader) (n : nat) : pbReader := mk_reader (buf r) (pos r + n).

Lemma rest_after r n : rest (after r n) = drop n (rest r).
Proof. unfold rest, after. cbn. by rewrite drop_drop. Qed.

Lemma rest_app r x y : rest r = x ++ y -> rest (after r (length x)) = y.
Proof. intros E. by rewrite rest_after, E, drop_app_length. Qed.

Lemma after_after r n m : after (after r n) m = after r (n + m).
Proof. unfold after. cbn. f_equal. lia. Qed.

Lemma rest_head r b x : rest r = b :: x -> buf r !! pos r = Some b /\ eof r = false.
Proof.
  unfold rest. intros E. assert (buf r !! pos r = Some b) as Hb.
  { rewrite <-(Nat.add_0_r (pos r)), <-lookup_drop, E. done. }
  split; [done|]. unfold eof. apply lookup_lt_Some in Hb. apply Nat.leb_gt. done.
Qed.

Lemma rest_nil r : rest r = [] -> eof r = true.
Proof. unfold rest, eof. intros E. apply Nat.leb_le. apply (f_equal length) in E. rewrite length_drop in E. cbn in E. lia. Qed.

Lemma u8_lor_80 v : Z.lor (u8 v) 0x80 = v mod 128 + 128.
Proof.
  assert (u8 v = v mod 128 + 128 * ((v / 128) mod 2)) as -> by (unfold u8; change (2 ^ 8) with (128 * 2); by rewrite Z.rem_mul_r by lia).
  pose proof (Z.mod_pos_bound v 128 ltac:(lia)) as Hm. pose proof (Z.mod_pos_bound (v / 128) 2 ltac:(lia)) as Hq. set (m := v mod 128) in *. set (q := (v / 128) mod 2) in *.
  rewrite (Z.mul_comm 128 q). change 128 with (2 ^ 7) at 1. rewrite <-(lor_shiftl m q 7), <-Z.lor_assoc by lia. change (0x80) with (Z.shiftl 1 7). rewrite <-Z.shiftl_lor.
  assert (Z.lor q 1 = 1) as -> by (assert (q = 0 \/ q = 1) as [-> | ->] by lia; done). rewrite lor_shiftl by lia. done.
Qed.

Lemma land_127 m : 0 <= m < 128 -> Z.land (m + 128) 0x7f = m /\ Z.land m 0x7f = m.
Proof.
  intros Hm. change 0x7f with (Z.ones 7). rewrite !Z.land_ones by lia. change (2 ^ 7) with 128. split; [|by rewrite Z.mod_small].
  replace (m + 128) with (m + 1 * 128) by lia. rewrite Z.mod_add by lia. by rewrite Z.mod_small.
Qed.

Lemma group_in v m s : 0 <= s -> 0 <= v < 2 ^ s -> 0 <= m -> m * 2 ^ s < 2 ^ 64 -> Z.lor v (u64 (Z.shiftl m s)) = v + m * 2 ^ s.
Proof.
  intros Hs Hv Hm H64. unfold u64. rewrite Z.mod_small; [by apply lor_shiftl|]. rewrite Z.shiftl_mul_pow2 by lia. nia.
Qed.

Lemma r_varint_loop_ok k v s n r post :
  0 <= s -> 0 <= v < 2 ^ s -> 0 <= n -> n < 2 ^ (7 * Z.of_nat (S k)) -> n * 2 ^ s < 2 ^ 64 -> rest r = w_varint_loop k n ++ post ->
  r_varint_loop k v s r = (after r (length (w_varint_loop k n)), inr (v + n * 2 ^ s)).
Proof.
  revert v s n r. induction k as [|k IH]; intros v s n r Hs Hv Hn Hk H64 Hr.
  - cbn [w_varint_loop] in Hr |- *. change (2 ^ (7 * Z.of_nat 1)) with 128 in Hk. rewrite u8_id in Hr |- * by (red; lia). destruct (rest_head r n post Hr) as [Hb _].
    cbn [r_varint_loop]. rewrite Hb. replace (n <? 128) with true by lia. rewrite (proj2 (land_127 n ltac:(lia))). f_equal; [unfold after; cbn; f_equal; lia|]. f_equal.
    by apply group_in.
  - cbn [w_varint_loop] in Hr |- *. destruct (0x80 <=? n) eqn:E.
    + rewrite u8_lor_80 in Hr |- *. cbn [app] in Hr. destruct (rest_head r _ _ Hr) as [Hb _]. cbn [r_varint_loop]. rewrite Hb.
      pose proof (Z.mod_pos_bound n 128 ltac:(lia)) as Hm. pose proof (Z.div_mod n 128 ltac:(lia)) as Hd. rewrite (proj1 (land_127 _ Hm)). replace (n mod 128 + 128 <? 128) with false by lia.
      assert (2 ^ (s + 7) = 2 ^ s * 128) as Es by (rewrite Z.pow_add_r by lia; done). assert (0 < 2 ^ s) by (apply Z.pow_pos_nonneg; lia).
      rewrite group_in by nia.
      assert (Z.shiftr n 7 = n / 128) as En by (by rewrite Z.shiftr_div_pow2 by lia). rewrite En in Hr |- *.
      rewrite (IH _ (s + 7) (n / 128) (mk_reader (buf r) (S (pos r)))).
      * f_equal; [unfold after; cbn; f_equal; lia|]. f_equal. rewrite Es. nia.
      * lia.
      * rewrite Es. nia.
      * apply Z.div_pos; lia.
      * apply Z.div_lt_upper_bound; [lia|]. replace (7 * Z.of_nat (S (S k))) with (7 + 7 * Z.of_nat (S k)) in Hk by lia. rewrite Z.pow_add_r in Hk by lia. done.
      * rewrite Es. nia.
      * replace (mk_reader (buf r) (S (pos r))) with (after r 1) by (unfold after; f_equal; lia). rewrite rest_after, Hr. done.
    + rewrite u8_id in Hr |- * by (red; lia). destruct (rest_head r n post Hr) as [Hb _].
      cbn [r_varint_loop]. rewrite Hb. replace (n <? 128) with true by lia. rewrite (proj2 (land_127 n ltac:(lia))). f_equal; [unfold after; cbn; f_equal; lia|]. f_equal.
      by apply group_in.
Qed.

Lemma r_varint_ok n r post : is_u64 n -> rest r = w_varint n ++ post -> r_varint r = (after r (length (w_varint n)), inr n).
Proof.
  intros [Hn1 Hn2] Hr. unfold r_varint, w_varint in *. rewrite (r_varint_loop_ok 9 0 0 n r post); [|lia|done|lia| |lia|done].
  - do 2 f_equal. lia.
  - apply (Z.lt_le_trans _ (2 ^ 64)); [done|]. apply Z.pow_le_mono_r; lia.
Qed.

Lemma w_tag_val n w : 0 <= n < 2 ^ 61 -> 0 <= w < 8 ->
  let t := u64 (Z.lor (Z.shiftl n 3) w) in is_u64 t /\ Z.shiftr t 3 = n /\ Z.land t 7 = w.
Proof.
  intros Hn Hw. cbn zeta. rewrite Z.lor_comm, lor_shiftl by lia. change (2 ^ 3) with 8. unfold u64. rewrite Z.mod_small by lia. split_and!; [red; lia| |].
  - rewrite Z.shiftr_div_pow2 by lia. change (2 ^ 3) with 8. rewrite Z.div_add by lia. rewrite Z.div_small by lia. lia.
  - change 7 with (Z.ones 3). rewrite Z.land_ones by lia. change (2 ^ 3) with 8. rewrite Z.mod_add by lia. by apply Z.mod_small.
Qed.

Lemma r_tag_ok n w r post : 0 <= n < 2 ^ 61 -> 0 <= w < 8 -> rest r = w_tag n w ++ post -> r_tag r = (after r (length (w_tag n w)), inr (n, w)).
Proof.
  intros Hn Hw Hr. destruct (w_tag_val n w Hn Hw) as (H1 & H2 & H3). unfold r_tag, w_tag in *. rewrite (r_varint_ok _ r post H1 Hr). by rewrite H2, H3.
Qed.

Lemma i64_small x : 0 <= x < 2 ^ 63 -> i64 x = x.
Proof. intros Hx. unfold i64. rewrite Z.mod_small by lia. lia. Qed.

Lemma rest_length r : (length (rest r) = length (buf r) - pos r)%nat.
Proof. apply length_drop. Qed.

Lemma w_varint_ne v : w_varint v ≠ [].
Proof. unfold w_varint. cbn [w_varint_loop]. by destruct (_ <=? _). Qed.

Lemma r_bytes_ok b r post : zlen (buf r) < 2 ^ 62 -> rest r = w_varint (u64 (zlen b)) ++ b ++ post ->
  r_bytes r = Ret (after r (length (w_varint (u64 (zlen b)) ++ b)), inr b).
Proof.
  intros Hlen Hr. pose proof (f_equal length Hr) as El. rewrite rest_length, !length_app in El. unfold zlen in Hlen.
  assert (is_u64 (u64 (zlen b)) /\ u64 (zlen b) = zlen b) as [Hu Eb] by (unfold u64, zlen; rewrite Z.mod_small by lia; split; [red; lia|done]).
  unfold r_bytes. rewrite (r_varint_ok _ r (b ++ post) Hu Hr). pose proof (rest_app r _ _ Hr) as Hr2. rewrite Eb in *. remember (length (w_varint (zlen b))) as k eqn:Ek.
  assert (0 < k)%nat as Hk by (rewrite Ek; pose proof (w_varint_ne (zlen b)); destruct (w_varint (zlen b)); [done|cbn; lia]). cbn [after buf pos].
  rewrite (i64_small (zlen b)) by (unfold zlen; lia). rewrite i64_small by (unfold zlen; lia). destruct (zlen (buf r) <? _) eqn:El2; [exfalso; apply Z.ltb_lt in El2; unfold zlen in El2; lia|].
  unfold rest, after in Hr2. cbn in Hr2. assert (buf r = take (pos r + k) (buf r) ++ b ++ post) as Eb2 by (rewrite <-Hr2; by rewrite take_drop).
  assert (go_slice (buf r) (Z.of_nat (pos r + k)) (Z.of_nat (pos r + k) + zlen b) = Ret b) as ->.
  { rewrite Eb2. apply go_slice_mid; [|done]. unfold zlen. rewrite length_take. lia. }
  cbn [mbind res_bind]. unfold after. do 3 f_equal. rewrite length_app, <-Ek. unfold zlen. lia.
Qed.

(** ** Messages as lists of fields *)

Inductive pbField :=
  | FVarint (n v : Z)
  | FFixed64 (n : Z) (b : list Z)
  | FBytes (n : Z) (b : list Z)
  | FFixed32 (n : Z) (b : list Z).

Definition number (f : pbField) : Z := match f with FVarint n _ | FFixed64 n _ | FBytes n _ | FFixed32 n _ => n end.

Definition wire_of (f : pbField) : Z := match f with FVarint _ _ => wireVarint | FFixed64 _ _ => wireFixed64 | FBytes _ _ => wireBytes | FFixed32 _ _ => wireFixed32 end.

Definition payload (f : pbField) : list Z :=
  match f with FVarint _ v => w_varint v | FFixed64 _ b | FFixed32 _ b => b | FBytes _ b => w_varint (u64 (zlen b)) ++ b end.

Definition enc_field (f : pbField) : list Z := w_tag (number f) (wire_of f) ++ payload f.

Definition enc_fields (fs : list pbField) : list Z := concat (map enc_field fs).

Definition field_ok (f : pbField) : Prop :=
  0 <= number f < 2 ^ 61 /\ match f with FVarint _ v => is_u64 v | FFixed64 _ b => length b = 8%nat | FFixed32 _ b => length b = 4%nat | FBytes _ _ => True end.

(** A step that does to the value what [apply] says. *)
Definition reads_fields {A} (step : A -> pbReader -> Z -> Z -> res (pbReader * A * option string)) (apply : A -> pbField -> A) : Prop :=
  forall a f r post, field_ok f -> zlen (buf r) < 2 ^ 62 -> rest r = payload f ++ post ->
  step a r (number f) (wire_of f) = Ret (after r (length (payload f)), apply a f, None).

Lemma field_head f post r fuel : field_ok f -> rest r = enc_field f ++ post -> (length (rest r) <= fuel)%nat ->
  exists fuel', fuel = S fuel' /\ eof r = false /\ r_tag r = (after r (length (w_tag (number f) (wire_of f))), inr (number f, wire_of f)) /\
  rest (after r (length (w_tag (number f) (wire_of f)))) = payload f ++ post /\ (length (payload f ++ post) <= fuel')%nat.
Proof.
  intros [Hn _] Hr Hfuel. unfold enc_field in Hr. rewrite <-app_assoc in Hr. assert (0 <= wire_of f < 8) as Hw by (destruct f; cbn; lia).
  pose proof (r_tag_ok (number f) (wire_of f) r _ Hn Hw Hr) as Ht. pose proof (rest_app r _ _ Hr) as Hr2. pose proof (f_equal length Hr) as El. rewrite length_app in El.
  assert (w_tag (number f) (wire_of f) ≠ []) as Hne by apply w_varint_ne. destruct (w_tag (number f) (wire_of f)) as [|x t]; [done|].
  destruct (rest_head r x _ Hr) as [_ He]. destruct fuel as [|fuel']; [cbn in El; lia|]. exists fuel'. split_and!; [done|done|done|done|cbn in El; lia].
Qed.

Lemma fields_ok {A} step apply (a : A) fs fuel r :
  reads_fields step apply -> Forall field_ok fs -> zlen (buf r) < 2 ^ 62 -> rest r = enc_fields fs -> (length (enc_fields fs) <= fuel)%nat ->
  fields step fuel a r = Ret (foldl apply a fs, None).
Proof.
  intros Hstep Hfs. revert a fuel r. induction Hfs as [|f fs [Hn Hf] Hfs IH]; intros a fuel r Hlen Hr Hfuel.
  - destruct fuel; cbn [fields]; by rewrite (rest_nil r Hr).
  - unfold enc_fields in Hr, Hfuel. cbn [map concat] in Hr, Hfuel. fold (enc_fields fs) in Hr, Hfuel. unfold enc_field in Hr, Hfuel. rewrite <-app_assoc in Hr.
    destruct (field_head f (enc_fields fs) r fuel) as (fuel' & -> & He & Ht & Hr2 & Hl); [by split|unfold enc_field; by rewrite <-app_assoc|rewrite Hr, app_assoc, length_app; rewrite length_app in Hfuel; done|].
    cbn [fields]. rewrite He, Ht. rewrite (Hstep a f _ (enc_fields fs)); [|by split|done|done]. cbn [mbind res_bind]. cbn [foldl]. apply IH; [done|by apply rest_app|]. rewrite length_app in Hl. lia.
Qed.

(** A decoder folds over the fields of a message. *)
Lemma decode_fields {A} step apply (a : A) fs :
  reads_fields step apply -> Forall field_ok fs -> zlen (enc_fields fs) < 2 ^ 62 -> decode step a (enc_fields fs) = Ret (foldl apply a fs, None).
Proof. intros Hstep Hfs Hlen. unfold decode. by apply fields_ok. Qed.

Lemma on_bytes_ok {A} n b r post (a x : A) f : zlen (buf r) < 2 ^ 62 -> rest r = payload (FBytes n b) ++ post -> f b = Ret x ->
  on_bytes r a f = Ret (after r (length (payload (FBytes n b))), x, None).
Proof. intros Hlen Hr Hf. unfold on_bytes. cbn [payload] in *. rewrite <-app_assoc in Hr. rewrite (r_bytes_ok b r post) by done. cbn [mbind res_bind]. by rewrite Hf. Qed.

Lemma on_varint_ok {A} n v r post (a : A) f : field_ok (FVarint n v) -> rest r = payload (FVarint n v) ++ post ->
  on_varint r a f = Ret (after r (length (payload (FVarint n v))), f v, None).
Proof. intros [_ Hv] Hr. unfold on_varint. by rewrite (r_varint_ok v r post). Qed.

(** An unknown field is skipped. *)
Lemma on_other_ok {A} f r post (a : A) : field_ok f -> zlen (buf r) < 2 ^ 62 -> rest r = payload f ++ post ->
  on_other r a (wire_of f) = Ret (after r (length (payload f)), a, None).
Proof.
  intros [_ Hf] Hlen Hr. unfold on_other, skipWire. pose proof (f_equal length Hr) as El. rewrite rest_length, length_app in El.
  destruct f as [n v|n b|n b|n b]; cbn [wire_of] in *; cbn -[r_varint r_bytes Nat.ltb after].
  - by rewrite (r_varint_ok v r post).
  - cbn [payload] in *. replace (_ <? _)%nat with false by (symmetry; apply Nat.ltb_ge; lia). cbn -[after]. by rewrite <-Hf.
  - cbn [payload] in *. rewrite <-app_assoc in Hr. rewrite (r_bytes_ok b r post) by done. done.
  - cbn [payload] in *. replace (_ <? _)%nat with false by (symmetry; apply Nat.ltb_ge; lia). cbn -[after]. by rewrite <-Hf.
Qed.

(** ** Any bytes *)

(** Eight bytes in a row that all say that a varint goes on. *)
Definition long_run (bs : list Z) : Prop := exists a x c, bs = a ++ x ++ c /\ length x = 8%nat /\ Forall (fun b => 0x80 <= b) x.

Lemma long_run_in a x c : long_run x -> long_run (a ++ x ++ c).
Proof. intros (a' & y & c' & -> & Hy). exists (a ++ a'), y, (c' ++ c). split; [by rewrite <-!app_assoc|done]. Qed.

Lemma long_run_rest r : long_run (rest r) -> long_run (buf r).
Proof. intros H. unfold rest in H. rewrite <-(take_drop (pos r) (buf r)), <-(app_nil_r (drop _ _)). by apply long_run_in. Qed.

Lemma lor_below a b n : 0 <= n -> 0 <= a < 2 ^ n -> 0 <= b < 2 ^ n -> 0 <= Z.lor a b < 2 ^ n.
Proof.
  intros Hn Ha Hb. destruct (Z.eq_dec a 0) as [->|Hza]; [by rewrite Z.lor_0_l|]. destruct (Z.eq_dec b 0) as [->|Hzb]; [by rewrite Z.lor_0_r|].
  assert (0 <= Z.lor a b) as H0 by (apply Z.lor_nonneg; lia). split; [done|]. assert (Z.lor a b ≠ 0) as Hz by (intros E; apply Z.lor_eq_0_iff in E; lia).
  apply Z.log2_lt_pow2; [lia|]. rewrite Z.log2_lor by lia. apply Z.max_lub_lt; apply Z.log2_lt_pow2; lia.
Qed.

Lemma r_varint_loop_reads k v s r r' x :
  is_bytes (buf r) -> 0 <= s -> 0 <= v < 2 ^ s -> r_varint_loop k v s r = (r', x) ->
  buf r' = buf r /\ (pos r <= pos r')%nat /\
  match x with
  | inl _ => True
  | inr n => exists xs c post, rest r = xs ++ c :: post /\ Forall (fun b => 0x80 <= b) xs /\ pos r' = (pos r + S (length xs))%nat /\ 0 <= n < 2 ^ (s + 7 * Z.of_nat (S (length xs)))
  end.
Proof.
  intros Hb. revert v s r Hb. induction k as [|k IH]; intros v s r Hb Hs Hv; cbn [r_varint_loop]; destruct (buf r !! pos r) as [b|] eqn:Eb; try (intros [= <- <-]; done).
  all: assert (is_u8 b) as Hu by (by eapply Forall_lookup_1); assert (rest r = b :: drop (S (pos r)) (buf r)) as Hr by (unfold rest; by apply drop_S).
  all: assert (0 <= Z.lor v (u64 (Z.shiftl (Z.land b 127) s)) < 2 ^ (s + 7)) as Hv'.
  1,3: apply lor_below; [lia|split; [lia|]; apply (Z.lt_le_trans _ (2 ^ s)); [lia|apply Z.pow_le_mono_r; lia]|].
  1,2: change 127 with (Z.ones 7); rewrite Z.land_ones by lia; rewrite Z.shiftl_mul_pow2 by lia; pose proof (Z.mod_pos_bound b (2 ^ 7) ltac:(lia)); unfold u64;
       assert (0 < 2 ^ s) by (apply Z.pow_pos_nonneg; lia); split; [apply Z.mod_pos_bound; lia|];
       apply (Z.le_lt_trans _ (b mod 2 ^ 7 * 2 ^ s)); [apply Z.mod_le; nia|rewrite Z.pow_add_r by lia; nia].
  - destruct (b <? 128); intros [= <- <-]; cbn [buf pos]; (split; [done|split; [lia|]]); [|done].
    exists [], b, (drop (S (pos r)) (buf r)). split_and!; [done|by apply Forall_nil|cbn; lia|lia|cbn [length]; replace (s + 7 * Z.of_nat 1) with (s + 7) by lia; lia].
  - destruct (b <? 128) eqn:E128.
    + intros [= <- <-]; cbn [buf pos]; (split; [done|split; [lia|]]).
      exists [], b, (drop (S (pos r)) (buf r)). split_and!; [done|by apply Forall_nil|cbn; lia|lia|cbn [length]; replace (s + 7 * Z.of_nat 1) with (s + 7) by lia; lia].
    + intros E. destruct (IH _ (s + 7) (mk_reader (buf r) (S (pos r))) Hb ltac:(lia) Hv' E) as (E1 & E2 & E3). cbn [buf pos] in *. split; [done|]. split; [lia|].
      destruct x as [e|n]; [done|]. destruct E3 as (xs & c & post & F1 & F2 & F3 & F4). unfold rest in F1. cbn [buf pos] in F1. exists (b :: xs), c, post. split_and!.
      * by rewrite Hr, F1.
      * constructor; [lia|done].
      * cbn. lia.
      * lia.
      * cbn [length]. replace (s + 7 * Z.of_nat (S (S (length xs)))) with (s + 7 + 7 * Z.of_nat (S (length xs))) by lia. lia.
Qed.

(** A number of 2^56 or more has a long run. *)
Lemma r_varint_reads r r' x :
  is_bytes (buf r) -> r_varint r = (r', x) ->
  buf r' = buf r /\ (pos r <= pos r')%nat /\ match x with inl _ => True | inr n => (pos r < pos r' <= length (buf r))%nat /\ 0 <= n /\ (n < 2 ^ 56 \/ long_run (buf r)) end.
Proof.
  intros Hb E. destruct (r_varint_loop_reads 9 0 0 r r' x Hb ltac:(lia) ltac:(done) E) as (E1 & E2 & E3). split; [done|]. split; [done|]. destruct x as [|n]; [done|].
  destruct E3 as (xs & c & post & F1 & F2 & F3 & F4). pose proof (f_equal length F1) as El. rewrite rest_length, length_app in El. cbn in El. split; [lia|]. split; [lia|].
  destruct (decide (length xs < 8)%nat) as [Hlt|Hge].
  - left. apply (Z.lt_le_trans _ (2 ^ (0 + 7 * Z.of_nat (S (length xs))))); [lia|]. apply Z.pow_le_mono_r; lia.
  - right. apply long_run_rest. exists [], (take 8 xs), (drop 8 xs ++ c :: post). split_and!; [|rewrite length_take; lia|by apply Forall_take]. cbn [app]. by rewrite F1, app_assoc, take_drop.
Qed.

(** The reader goes forward, and a decoder that raises has met a long run. *)
Definition goes_on {A} (r : pbReader) (x : res (pbReader * A)) : Prop :=
  match x with
  | Ret (r', _) => buf r' = buf r /\ (pos r <= pos r')%nat
  | Err _ => False
  | Panic => long_run (buf r)
  end.

Definition small (bs : list Z) : Prop := is_bytes bs /\ zlen bs < 2 ^ 62.

Lemma r_bytes_reads r : small (buf r) ->
  goes_on r (r_bytes r) /\ forall r' b, r_bytes r = Ret (r', inr b) -> exists a c, buf r = a ++ b ++ c.
Proof.
  intros [Hb Hlen]. unfold r_bytes. destruct (r_varint r) as [r1 x] eqn:E. destruct (r_varint_reads r r1 x Hb E) as (E1 & E2 & E3). destruct x as [e|n]; [split; [by split|done]|].
  destruct E3 as (Hpos & Hn0 & Hn). rewrite E1. set (e := i64 (Z.of_nat (pos r1) + i64 n)). destruct (zlen (buf r) <? e) eqn:Ee; [split; [by split|done]|].
  assert (n < 2 ^ 56 -> e = Z.of_nat (pos r1) + n) as He by (intros Hs; unfold e, zlen in *; rewrite (i64_small n), i64_small by lia; done).
  destruct (go_slice (buf r) (Z.of_nat (pos r1)) e) as [out|s|] eqn:Es; cbn [mbind res_bind].
  - unfold go_slice in Es. destruct ((_ <=? _) && _ && _) eqn:Ec in Es; [|done]. injection Es as Eo. split; [split; [done|cbn [pos]; lia]|].
    intros r' b [= <- <-]. exists (take (pos r1) (buf r)), (drop (Z.to_nat e) (buf r)). rewrite <-Eo, Nat2Z.id.
    replace (Z.to_nat e) with (pos r1 + Z.to_nat (e - Z.of_nat (pos r1)))%nat by lia. rewrite <-drop_drop. by rewrite !take_drop.
  - unfold go_slice in Es. by destruct ((_ <=? _) && _ && _) in Es.
  - split; [|done]. destruct Hn as [Hn|]; [|done]. exfalso. specialize (He Hn). rewrite go_slice_ok in Es; [done|..]; unfold zlen in *; lia.
Qed.

Lemma skipWire_reads r wire : small (buf r) -> goes_on r (skipWire r wire).
Proof.
  intros Hs. unfold skipWire. destruct (wire =? wireVarint).
  { destruct (r_varint r) as [r1 x] eqn:E. destruct (r_varint_reads r r1 x (proj1 Hs) E) as (E1 & E2 & _). by destruct x. }
  destruct (wire =? wireFixed64); [destruct (_ <? _)%nat; split; cbn; [done|lia|done|lia]|]. destruct (wire =? wireBytes).
  { pose proof (proj1 (r_bytes_reads r Hs)) as H. destruct (r_bytes r) as [[r1 x]|e|]; [by destruct x|done|done]. }
  destruct (wire =? wireFixed32); [destruct (_ <? _)%nat; split; cbn; [done|lia|done|lia]|]. by split.
Qed.

(** A result, or a panic over a long run. *)
Definition decodes {A} (bs : list Z) (x : res A) : Prop := match x with Ret _ => True | Err _ => False | Panic => long_run bs end.

Definition steps_on {A} (step : A -> pbReader -> Z -> Z -> res (pbReader * A * option string)) : Prop :=
  forall a r field wire, small (buf r) ->
  match step a r field wire with Ret (r', _, _) => buf r' = buf r /\ (pos r <= pos r')%nat | Err _ => False | Panic => long_run (buf r) end.

Lemma on_bytes_reads {A} r (a : A) f : small (buf r) -> (forall b, small b -> decodes b (f b)) ->
  match on_bytes r a f with Ret (r', _, _) => buf r' = buf r /\ (pos r <= pos r')%nat | Err _ => False | Panic => long_run (buf r) end.
Proof.
  intros Hs Hf. unfold on_bytes. destruct (r_bytes_reads r Hs) as [H Hsub]. destruct (r_bytes r) as [[r1 x]|e|]; cbn [mbind res_bind]; [|done|done]. destruct x as [e|b]; [done|].
  destruct (Hsub r1 b eq_refl) as (p & q & E). assert (small b) as Hb.
  { destruct Hs as [S1 S2]. rewrite E in S1, S2. unfold is_bytes in S1. rewrite !Forall_app in S1. split; [apply S1|]. rewrite !zlen_app in S2. pose proof (zlen_nonneg p). pose proof (zlen_nonneg q). lia. }
  specialize (Hf b Hb). destruct (f b) as [a'|e|]; cbn [mbind res_bind]; [done|done|]. cbn in Hf. rewrite E. by apply long_run_in.
Qed.

Lemma on_varint_reads {A} r (a : A) f : small (buf r) ->
  match on_varint r a f with Ret (r', _, _) => buf r' = buf r /\ (pos r <= pos r')%nat | Err _ => False | Panic => long_run (buf r) end.
Proof.
  intros Hs. unfold on_varint. destruct (r_varint r) as [r1 x] eqn:E. destruct (r_varint_reads r r1 x (proj1 Hs) E) as (E1 & E2 & _). by destruct x.
Qed.

Lemma on_other_reads {A} r (a : A) wire : small (buf r) ->
  match on_other r a wire with Ret (r', _, _) => buf r' = buf r /\ (pos r <= pos r')%nat | Err _ => False | Panic => long_run (buf r) end.
Proof. intros Hs. unfold on_other. pose proof (skipWire_reads r wire Hs) as H. destruct (skipWire r wire) as [[r1 x]|e|]; done. Qed.

Lemma r_tag_reads r r' x : is_bytes (buf r) -> r_tag r = (r', x) ->
  buf r' = buf r /\ match x with inl _ => True | inr _ => (pos r < pos r' <= length (buf r))%nat end.
Proof.
  intros Hb. unfold r_tag. destruct (r_varint r) as [r1 y] eqn:E. destruct (r_varint_reads r r1 y Hb E) as (E1 & E2 & E3). destruct y as [e|t]; intros [= <- <-]; [done|]. by destruct E3 as [E3 _].
Qed.

Lemma fields_reads {A} step fuel (a : A) r :
  steps_on step -> small (buf r) -> (length (buf r) - pos r <= fuel)%nat -> decodes (buf r) (fields step fuel a r).
Proof.
  intros Hstep. revert a r. induction fuel as [|fuel IH]; intros a r Hs Hfuel; cbn [fields]; unfold eof.
  - rewrite (proj2 (Nat.leb_le _ _)) by lia. done.
  - destruct (_ <=? _)%nat; [done|]. destruct (r_tag r) as [r1 x] eqn:E. destruct (r_tag_reads r r1 x (proj1 Hs) E) as [E1 E2]. destruct x as [e|[field wire]]; [done|].
    specialize (Hstep a r1 field wire ltac:(by rewrite E1)). destruct (step a r1 field wire) as [[[r2 a'] err]|e|]; cbn [mbind res_bind]; [|done|by rewrite E1 in Hstep].
    destruct Hstep as [F1 F2]. destruct err; [done|]. rewrite <-E1, <-F1. apply IH; rewrite F1, E1; [done|lia].
Qed.

Lemma decode_reads {A} step (a : A) data : steps_on step -> small data -> decodes data (decode step a data).
Proof. intros Hstep Hs. unfold decode. apply fields_reads; [done|done|cbn; lia]. Qed.

Lemma w_varint_length k n : (length (w_varint_loop k n) <= S k)%nat.
Proof. revert n. induction k as [|k IH]; intros n; cbn [w_varint_loop]; [done|]. destruct (_ <=? _); cbn; [|lia]. specialize (IH (Z.shiftr n 7)). lia. Qed.

(** A length that does not fit an [int] with the position makes [bytes] slice
    out of bounds. *)
Lemma r_bytes_panics n r post : 2 ^ 63 <= n < 2 ^ 64 -> Z.of_nat (pos r) + 10 < 2 ^ 62 -> rest r = w_varint n ++ post -> r_bytes r = Panic.
Proof.
  intros Hn Hp Hr. unfold r_bytes. rewrite (r_varint_ok n r post) by (done || (red; lia)). cbn [after buf pos]. set (k := length (w_varint n)).
  assert (k <= 10)%nat as Hk by apply w_varint_length.
  assert (i64 n = n - 2 ^ 64) as -> by (unfold i64; replace (n + 2 ^ 63) with (n - 2 ^ 63 + 1 * 2 ^ 64) by lia; rewrite Z.mod_add, Z.mod_small by lia; lia).
  assert (i64 (Z.of_nat (pos r + k) + (n - 2 ^ 64)) = Z.of_nat (pos r + k) + (n - 2 ^ 64)) as -> by (unfold i64; rewrite Z.mod_small by lia; lia).
  pose proof (zlen_nonneg (buf r)). assert (k + pos r <= length (buf r))%nat.
  { pose proof (f_equal length Hr) as El. rewrite rest_length, length_app in El. fold k in El. assert (0 < k)%nat by (unfold k; pose proof (w_varint_ne n); destruct (w_varint n); [done|cbn; lia]). lia. }
  rewrite (proj2 (Z.ltb_ge _ _)) by (unfold zlen; lia). unfold go_slice. rewrite (proj2 (Z.leb_gt (Z.of_nat (pos r + k)) _)) by lia. by rewrite andb_false_r.
Qed.

(** ** The first field of a kind *)

(** The loops that return at the first field of bytes they want. *)
Fixpoint find_loop (want : Z -> Z -> bool) (fuel : nat) (r : pbReader) : res (option (Z * list Z) * option string) :=
  if eof r then Ret (None, None)
  else match fuel with
       | O => Panic
       | S fuel =>
         match r_tag r with
         | (r, inl e) => Ret (None, Some e)
         | (r, inr (field, wire)) =>
           if want field wire then
             '(r, x) ← r_bytes r;
             match x with
             | inl e => Ret (None, Some e)
             | inr b => Ret (Some (field, b), None)
             end
           else
             '(r, err) ← skipWire r wire;
             match err with
             | Some e => Ret (None, Some e)
             | None => find_loop want fuel r
             end
         end
       end.

Definition find_bytes (want : Z -> Z -> bool) (data : list Z) : res (option (Z * list Z) * option string) := find_loop want (length data) (mk_reader data 0).

Lemma find_loop_reads want fuel r : small (buf r) -> (length (buf r) - pos r <= fuel)%nat ->
  decodes (buf r) (find_loop want fuel r) /\ forall n b e, find_loop want fuel r = Ret (Some (n, b), e) -> exists a c, buf r = a ++ b ++ c.
Proof.
  revert r. induction fuel as [|fuel IH]; intros r Hs Hfuel; cbn [find_loop]; unfold eof.
  - rewrite (proj2 (Nat.leb_le _ _)) by lia. done.
  - destruct (_ <=? _)%nat; [done|]. destruct (r_tag r) as [r1 x] eqn:E. destruct (r_tag_reads r r1 x (proj1 Hs) E) as [E1 E2]. destruct x as [e|[field wire]]; [done|].
    assert (small (buf r1)) as Hs1 by (by rewrite E1). destruct (want field wire).
    + destruct (r_bytes_reads r1 Hs1) as [H Hsub]. destruct (r_bytes r1) as [[r2 y]|e|]; cbn [mbind res_bind]; [|done|cbn in H; by rewrite E1 in H]. destruct y as [e|b]; [done|].
      split; [done|]. intros n b' e [= <- <- <-]. rewrite <-E1. by apply (Hsub r2).
    + pose proof (skipWire_reads r1 wire Hs1) as H. destruct (skipWire r1 wire) as [[r2 err]|e|]; cbn [mbind res_bind]; [|done|cbn in H; by rewrite E1 in H]. destruct H as [F1 F2]. destruct err; [done|].
      rewrite <-E1, <-F1. apply IH; rewrite F1; [done|rewrite E1; lia].
Qed.

Lemma find_bytes_reads want data : small data ->
  decodes data (find_bytes want data) /\ forall n b e, find_bytes want data = Ret (Some (n, b), e) -> small b /\ (long_run b -> long_run data).
Proof.
  intros Hs. destruct (find_loop_reads want (length data) (mk_reader data 0) Hs) as [H1 H2]; [cbn; lia|]. split; [done|]. intros n b e E. destruct (H2 n b e E) as (a & c & Ed). cbn in Ed.
  destruct Hs as [S1 S2]. rewrite Ed in S1, S2 |- *. unfold is_bytes in S1. rewrite !Forall_app in S1. rewrite !zlen_app in S2. pose proof (zlen_nonneg a). pose proof (zlen_nonneg c).
  split; [split; [apply S1|lia]|]. apply long_run_in.
Qed.

Lemma find_loop_ok want us n b post fuel r :
  Forall (fun f => field_ok f /\ want (number f) (wire_of f) = false) us -> field_ok (FBytes n b) -> want n wireBytes = true ->
  zlen (buf r) < 2 ^ 62 -> rest r = enc_fields us ++ enc_field (FBytes n b) ++ post -> (length (rest r) <= fuel)%nat ->
  find_loop want fuel r = Ret (Some (n, b), None).
Proof.
  intros Hus. revert fuel r. induction Hus as [|f us [Hf Hw] Hus IH]; intros fuel r [Hn _] Hwant Hlen Hr Hfuel.
  - cbn [enc_fields map concat app] in Hr. destruct (field_head (FBytes n b) post r fuel (conj Hn I) Hr Hfuel) as (fuel' & -> & He & Ht & Hr2 & _). cbn [number wire_of] in *. cbn [find_loop]. rewrite He, Ht, Hwant.
    cbn [payload] in Hr2. rewrite <-app_assoc in Hr2. rewrite (r_bytes_ok b _ post) by done. done.
  - unfold enc_fields in Hr. cbn [map concat] in Hr. fold (enc_fields us) in Hr. rewrite <-app_assoc in Hr. destruct (field_head f _ r fuel Hf Hr Hfuel) as (fuel' & -> & He & Ht & Hr2 & Hl). cbn [find_loop]. rewrite He, Ht, Hw.
    set (r1 := after r _) in *. pose proof (on_other_ok f r1 _ tt Hf Hlen Hr2) as Ho. unfold on_other in Ho. destruct (skipWire r1 (wire_of f)) as [[r2 err]|e|]; cbn [mbind res_bind] in *; [|done|done]. injection Ho as -> ->.
    apply IH; [by split|done|done|by apply rest_app|]. rewrite (rest_app _ _ _ Hr2). rewrite length_app in Hl. lia.
Qed.

Lemma find_bytes_ok want us n b post :
  Forall (fun f => field_ok f /\ want (number f) (wire_of f) = false) us -> field_ok (FBytes n b) -> want n wireBytes = true ->
  zlen (enc_fields us ++ enc_field (FBytes n b) ++ post) < 2 ^ 62 -> find_bytes want (enc_fields us ++ enc_field (FBytes n b) ++ post) = Ret (Some (n, b), None).
Proof. intros Hus Hn Hw Hlen. unfold find_bytes. by eapply find_loop_ok. Qed.
