(* ===== verification/Livekit.v ===== *)
(** * Signalling messages of LiveKit
    (src/transport/call/livekit/messages.go)

    The requests that are written and the responses that are read; strings are
    the bytes they are made of. *)

From S2P Require Import Prelude Protobuf.

Record LeaveInfo := mk_leave { Reason : Z; Action : Z }.
Record sessionDescription := mk_sd { Type_ : list Z; SDP : list Z; ID : Z }.
Record trickleMsg := mk_trickle { CandidateInit : list Z; Target : Z; Final : bool }.
Record iceServer := mk_ice { URLs : list (list Z); Username : list Z; Credential : list Z }.
Record joinResponse := mk_join {
  RoomSID : list Z; RoomName : list Z; ParticipantSID : list Z; ParticipantID : list Z; ServerVersion : list Z; ServerRegion : list Z;
  ICEServers : list iceServer; SubscriberPrimary : bool; PingTimeoutSec : Z; PingIntervalSec : Z
}.
Record ParticipantInfo := mk_participant { SID : list Z; Identity : list Z; State : Z; Name : list Z }.
Record signalResponse := mk_response {
  Kind : Z; Join : option joinResponse; SDP_ : option sessionDescription; Trickle : option trickleMsg; Token : list Z;
  Leave : option LeaveInfo; Participants : list ParticipantInfo
}.

Definition no_response : signalResponse := mk_response 0 None None None [] None [].
Definition no_join : joinResponse := mk_join [] [] [] [] [] [] [] false 0 0.

(** [int32] of a number *)
Definition i32 (x : Z) : Z := (x + 2 ^ 31) mod 2 ^ 32 - 2 ^ 31.

(** ** Writing *)

Definition encUserPacket (payload : list Z) : list Z := w_bytes 2 payload.

Definition EncodeDataPacketUser (payload : list Z) (kind : Z) : list Z :=
  (if kind =? 0 then [] else w_int32 1 (i32 kind)) ++ w_bytes 2 (encUserPacket payload).

Definition encSessionDescription (sd : sessionDescription) : list Z :=
  (if bool_decide (Type_ sd = []) then [] else w_bytes 1 (Type_ sd)) ++
  (if bool_decide (SDP sd = []) then [] else w_bytes 2 (SDP sd)) ++
  (if ID sd =? 0 then [] else w_uint32 3 (ID sd)).

Definition encTrickle (m : trickleMsg) : list Z :=
  w_bytes 1 (CandidateInit m) ++ w_int32 2 (i32 (Target m)) ++ (if Final m then w_bool 3 true else []).

Definition encVideoLayer (quality width height : Z) : list Z :=
  (if quality =? 0 then [] else w_uint32 1 quality) ++ (if width =? 0 then [] else w_uint32 2 width) ++ (if height =? 0 then [] else w_uint32 3 height).

Definition encAddTrack (cid name : list Z) (trackType source width height : Z) : list Z :=
  w_bytes 1 cid ++ w_bytes 2 name ++ w_int32 3 (i32 trackType) ++
  (if width =? 0 then [] else w_uint32 4 width) ++ (if height =? 0 then [] else w_uint32 5 height) ++
  w_int32 8 (i32 source) ++
  (if trackType =? 1 then w_bytes 9 (encVideoLayer 2 width height) else []).

Definition encPing (timestamp : Z) : list Z := w_int64 1 timestamp.

Definition encSignalRequestOffer (sd : sessionDescription) : list Z := w_bytes 1 (encSessionDescription sd).
Definition encSignalRequestAnswer (sd : sessionDescription) : list Z := w_bytes 2 (encSessionDescription sd).
Definition encSignalRequestTrickle (m : trickleMsg) : list Z := w_bytes 3 (encTrickle m).
Definition encSignalRequestAddTrack (cid name : list Z) (trackType source width height : Z) : list Z := w_bytes 4 (encAddTrack cid name trackType source width height).
Definition encSignalRequestLeave : list Z := w_bytes 8 [].
Definition encSignalRequestPing (timestamp : Z) : list Z := w_int64 14 timestamp ++ w_bytes 16 (encPing timestamp).

(** ** Reading *)

(** The errors of [varint] are not looked at. *)
Definition leave_field (li : LeaveInfo) (r : pbReader) (field wire : Z) : res (pbReader * LeaveInfo * option string) :=
  let value := fun x : string + Z => match x with inl _ => 0 | inr v => i64 v end in
  if is_field field wire 2 wireVarint then let '(r, x) := r_varint r in Ret (r, mk_leave (value x) (Action li), None)
  else if is_field field wire 3 wireVarint then let '(r, x) := r_varint r in Ret (r, mk_leave (Reason li) (value x), None)
  else on_other r li wire.

Definition DecodeLeaveRequest (data : list Z) : res LeaveInfo := '(li, _) ← decode leave_field (mk_leave 0 0) data; Ret li.

Definition DecodeDataPacketUser (data : list Z) : res (option (list Z)) :=
  '(inner, _) ← find_bytes (fun field wire => is_field field wire 2 wireBytes) data;
  match inner with
  | None => Ret None
  | Some (_, inner) =>
    '(payload, _) ← find_bytes (fun field wire => is_field field wire 2 wireBytes) inner;
    match payload with Some (_, out) => Ret (Some out) | None => Ret None end
  end.

Definition participant_field (i : ParticipantInfo) (r : pbReader) (field wire : Z) : res (pbReader * ParticipantInfo * option string) :=
  if is_field field wire 1 wireBytes then on_bytes r i (fun b => Ret (mk_participant b (Identity i) (State i) (Name i)))
  else if is_field field wire 2 wireBytes then on_bytes r i (fun b => Ret (mk_participant (SID i) b (State i) (Name i)))
  else if is_field field wire 3 wireVarint then on_varint r i (fun v => mk_participant (SID i) (Identity i) (i32 v) (Name i))
  else if is_field field wire 9 wireBytes then on_bytes r i (fun b => Ret (mk_participant (SID i) (Identity i) (State i) b))
  else on_other r i wire.

Definition DecodeParticipantInfo (data : list Z) : res ParticipantInfo := '(i, _) ← decode participant_field (mk_participant [] [] 0 []) data; Ret i.

Definition update_field (out : list ParticipantInfo) (r : pbReader) (field wire : Z) : res (pbReader * list ParticipantInfo * option string) :=
  if is_field field wire 1 wireBytes then on_bytes r out (fun b => i ← DecodeParticipantInfo b; Ret (out ++ [i])) else on_other r out wire.

Definition DecodeParticipantUpdate (data : list Z) : res (list ParticipantInfo) := '(out, _) ← decode update_field [] data; Ret out.

Definition sd_field (sd : sessionDescription) (r : pbReader) (field wire : Z) : res (pbReader * sessionDescription * option string) :=
  if is_field field wire 1 wireBytes then on_bytes r sd (fun b => Ret (mk_sd b (SDP sd) (ID sd)))
  else if is_field field wire 2 wireBytes then on_bytes r sd (fun b => Ret (mk_sd (Type_ sd) b (ID sd)))
  else if is_field field wire 3 wireVarint then on_varint r sd (fun v => mk_sd (Type_ sd) (SDP sd) (u32 v))
  else on_other r sd wire.

Definition decSessionDescription (data : list Z) : res (sessionDescription * option string) := decode sd_field (mk_sd [] [] 0) data.

Definition trickle_field (m : trickleMsg) (r : pbReader) (field wire : Z) : res (pbReader * trickleMsg * option string) :=
  if is_field field wire 1 wireBytes then on_bytes r m (fun b => Ret (mk_trickle b (Target m) (Final m)))
  else if is_field field wire 2 wireVarint then on_varint r m (fun v => mk_trickle (CandidateInit m) (i64 v) (Final m))
  else if is_field field wire 3 wireVarint then on_varint r m (fun v => mk_trickle (CandidateInit m) (Target m) (negb (v =? 0)))
  else on_other r m wire.

Definition decTrickle (data : list Z) : res (trickleMsg * option string) := decode trickle_field (mk_trickle [] 0 false) data.

Definition ice_field (s : iceServer) (r : pbReader) (field wire : Z) : res (pbReader * iceServer * option string) :=
  if is_field field wire 1 wireBytes then on_bytes r s (fun b => Ret (mk_ice (URLs s ++ [b]) (Username s) (Credential s)))
  else if is_field field wire 2 wireBytes then on_bytes r s (fun b => Ret (mk_ice (URLs s) b (Credential s)))
  else if is_field field wire 3 wireBytes then on_bytes r s (fun b => Ret (mk_ice (URLs s) (Username s) b))
  else on_other r s wire.

Definition decICEServer (data : list Z) : res (iceServer * option string) := decode ice_field (mk_ice [] [] []) data.

Definition room_field (x : list Z * list Z) (r : pbReader) (field wire : Z) : res (pbReader * (list Z * list Z) * option string) :=
  if is_field field wire 1 wireBytes then on_bytes r x (fun b => Ret (b, snd x))
  else if is_field field wire 2 wireBytes then on_bytes r x (fun b => Ret (fst x, b))
  else on_other r x wire.

Definition decRoom (data : list Z) : res (list Z * list Z * option string) :=
  '(sid, name, err) ← decode room_field ([], []) data;
  match err with Some e => Ret ([], [], Some e) | None => Ret (sid, name, None) end.

Definition decParticipant (data : list Z) : res (list Z * list Z) := i ← DecodeParticipantInfo data; Ret (SID i, Identity i).

Definition join_field (j : joinResponse) (r : pbReader) (field wire : Z) : res (pbReader * joinResponse * option string) :=
  let 'mk_join rs rn ps pi sv sr ice sp pt pv := j in
  if is_field field wire 1 wireBytes then on_bytes r j (fun b => '(sid, name, _) ← decRoom b; Ret (mk_join sid name ps pi sv sr ice sp pt pv))
  else if is_field field wire 2 wireBytes then on_bytes r j (fun b => '(sid, identity) ← decParticipant b; Ret (mk_join rs rn sid identity sv sr ice sp pt pv))
  else if is_field field wire 4 wireBytes then on_bytes r j (fun b => Ret (mk_join rs rn ps pi b sr ice sp pt pv))
  else if is_field field wire 5 wireBytes then on_bytes r j (fun b => '(s, _) ← decICEServer b; Ret (mk_join rs rn ps pi sv sr (ice ++ [s]) sp pt pv))
  else if is_field field wire 6 wireVarint then on_varint r j (fun v => mk_join rs rn ps pi sv sr ice (negb (v =? 0)) pt pv)
  else if is_field field wire 9 wireBytes then on_bytes r j (fun b => Ret (mk_join rs rn ps pi sv b ice sp pt pv))
  else if is_field field wire 10 wireVarint then on_varint r j (fun v => mk_join rs rn ps pi sv sr ice sp (i32 v) pv)
  else if is_field field wire 11 wireVarint then on_varint r j (fun v => mk_join rs rn ps pi sv sr ice sp pt (i32 v))
  else if is_field field wire 3 wireBytes then on_bytes r j (fun _ => Ret j)
  else on_other r j wire.

Definition decJoinResponse (data : list Z) : res (joinResponse * option string) := decode join_field no_join data.

(** The switch of [decSignalResponse] on the field. *)
Definition signal_message (field : Z) (inner : list Z) : res (signalResponse * option string) :=
  let kind := i64 field in
  let failed := fun e : string => Ret (mk_response kind None None None [] None [], Some e) in
  if field =? 1 then
    '(j, err) ← decJoinResponse inner; match err with Some e => failed e | None => Ret (mk_response kind (Some j) None None [] None [], None) end
  else if (field =? 2) || (field =? 3) then
    '(sd, err) ← decSessionDescription inner; match err with Some e => failed e | None => Ret (mk_response kind None (Some sd) None [] None [], None) end
  else if field =? 4 then
    '(m, err) ← decTrickle inner; match err with Some e => failed e | None => Ret (mk_response kind None None (Some m) [] None [], None) end
  else if field =? 16 then Ret (mk_response kind None None None inner None [], None)
  else if field =? 8 then li ← DecodeLeaveRequest inner; Ret (mk_response kind None None None [] (Some li) [], None)
  else if field =? 5 then ps ← DecodeParticipantUpdate inner; Ret (mk_response kind None None None [] None ps, None)
  else Ret (mk_response kind None None None [] None [], None).

Definition decSignalResponse (data : list Z) : res (signalResponse * option string) :=
  '(message, err) ← find_bytes (fun _ wire => wire =? wireBytes) data;
  match message with
  | None => Ret (no_response, err)
  | Some (field, inner) => signal_message field inner
  end.

(** ** Any bytes *)

Lemma decodes_bind {A B} bs (x : res A) (f : A -> res B) : decodes bs x -> (forall a, decodes bs (f a)) -> decodes bs (x ≫= f).
Proof. destruct x as [a|e|]; cbn [mbind res_bind decodes]; [|done|done]. intros _ Hf. apply Hf. Qed.

Ltac steps :=
  intros ? ? ? ? ?; cbv beta zeta; repeat (destruct (is_field _ _ _ _));
  first [apply on_other_reads; done | apply on_varint_reads; done | apply on_bytes_reads; [done|intros b Hb]; try done].

Lemma leave_steps : steps_on leave_field.
Proof.
  intros li r field wire Hs. unfold leave_field. destruct (r_varint r) as [r1 x] eqn:E. destruct (r_varint_reads r r1 x (proj1 Hs) E) as (E1 & E2 & _).
  repeat (destruct (is_field _ _ _ _); [done|]). by apply on_other_reads.
Qed.

Lemma participant_steps : steps_on participant_field.
Proof. unfold participant_field. steps. Qed.

Lemma DecodeParticipantInfo_reads data : small data -> decodes data (DecodeParticipantInfo data).
Proof. intros Hs. apply decodes_bind; [by apply decode_reads; [exact participant_steps|]|by intros []]. Qed.

Lemma update_steps : steps_on update_field.
Proof. unfold update_field. steps. apply decodes_bind; [by apply DecodeParticipantInfo_reads|done]. Qed.

Lemma sd_steps : steps_on sd_field.
Proof. unfold sd_field. steps. Qed.

Lemma trickle_steps : steps_on trickle_field.
Proof. unfold trickle_field. steps. Qed.

Lemma ice_steps : steps_on ice_field.
Proof. unfold ice_field. steps. Qed.

Lemma room_steps : steps_on room_field.
Proof. unfold room_field. steps. Qed.

Lemma join_steps : steps_on join_field.
Proof.
  intros [rs rn ps pi sv sr ice sp pt pv]. unfold join_field. intros r field wire Hs.
  repeat (destruct (is_field _ _ _ _)); first [apply on_other_reads; done | apply on_varint_reads; done | apply on_bytes_reads; [done|intros b Hb]; try done].
  - apply decodes_bind; [|by intros [[] ?]]. apply decodes_bind; [by apply decode_reads; [exact room_steps|]|]. by intros [[] []].
  - apply decodes_bind; [|by intros []]. apply decodes_bind; [by apply DecodeParticipantInfo_reads|done].
  - apply decodes_bind; [by apply decode_reads; [exact ice_steps|]|by intros []].
Qed.

Lemma signal_message_reads field inner : small inner -> decodes inner (signal_message field inner).
Proof.
  intros Hs. unfold signal_message. cbv zeta.
  destruct (field =? 1); [apply decodes_bind; [by apply decode_reads; [exact join_steps|]|by intros [? []]]|].
  destruct ((field =? 2) || (field =? 3)); [apply decodes_bind; [by apply decode_reads; [exact sd_steps|]|by intros [? []]]|].
  destruct (field =? 4); [apply decodes_bind; [by apply decode_reads; [exact trickle_steps|]|by intros [? []]]|].
  destruct (field =? 16); [done|].
  destruct (field =? 8); [apply decodes_bind; [apply decodes_bind; [by apply decode_reads; [exact leave_steps|]|by intros []]|done]|].
  destruct (field =? 5); [apply decodes_bind; [apply decodes_bind; [by apply decode_reads; [exact update_steps|]|by intros []]|done]|done].
Qed.

Lemma decSignalResponse_reads data : small data -> decodes data (decSignalResponse data).
Proof.
  intros Hs. unfold decSignalResponse. destruct (find_bytes_reads (fun _ wire => wire =? wireBytes) data Hs) as [H1 H2].
  destruct (find_bytes _ data) as [[[[field inner]|] err]|e|]; cbn [mbind res_bind]; [|done|done|done].
  destruct (H2 field inner err eq_refl) as [Hi Hl]. pose proof (signal_message_reads field inner Hi) as H. destruct (signal_message field inner); [done|done|by apply Hl].
Qed.

Lemma DecodeDataPacketUser_reads data : small data -> decodes data (DecodeDataPacketUser data).
Proof.
  intros Hs. unfold DecodeDataPacketUser. set (want := fun field wire => _). destruct (find_bytes_reads want data Hs) as [H1 H2].
  destruct (find_bytes want data) as [[[[field inner]|] err]|e|]; cbn [mbind res_bind]; [|done|done|done].
  destruct (H2 field inner err eq_refl) as [Hi Hl]. destruct (find_bytes_reads want inner Hi) as [H3 _]. destruct (find_bytes want inner) as [[[[]|] ?]|e|]; cbn [mbind res_bind]; [done|done|done|by apply Hl].
Qed.

(** ** What the decoders make of fields *)

Definition sd_apply (sd : sessionDescription) (f : pbField) : sessionDescription :=
  match f with
  | FBytes n b => if n =? 1 then mk_sd b (SDP sd) (ID sd) else if n =? 2 then mk_sd (Type_ sd) b (ID sd) else sd
  | FVarint n v => if n =? 3 then mk_sd (Type_ sd) (SDP sd) (u32 v) else sd
  | _ => sd
  end.

Definition trickle_apply (m : trickleMsg) (f : pbField) : trickleMsg :=
  match f with
  | FBytes n b => if n =? 1 then mk_trickle b (Target m) (Final m) else m
  | FVarint n v => if n =? 2 then mk_trickle (CandidateInit m) (i64 v) (Final m) else if n =? 3 then mk_trickle (CandidateInit m) (Target m) (negb (v =? 0)) else m
  | _ => m
  end.

Definition participant_apply (i : ParticipantInfo) (f : pbField) : ParticipantInfo :=
  match f with
  | FBytes n b =>
    if n =? 1 then mk_participant b (Identity i) (State i) (Name i) else if n =? 2 then mk_participant (SID i) b (State i) (Name i)
    else if n =? 9 then mk_participant (SID i) (Identity i) (State i) b else i
  | FVarint n v => if n =? 3 then mk_participant (SID i) (Identity i) (i32 v) (Name i) else i
  | _ => i
  end.

Definition leave_apply (li : LeaveInfo) (f : pbField) : LeaveInfo :=
  match f with
  | FVarint n v => if n =? 2 then mk_leave (i64 v) (Action li) else if n =? 3 then mk_leave (Reason li) (i64 v) else li
  | _ => li
  end.

Ltac known :=
  repeat match goal with
  | |- context [?a =? ?b] => let v := eval vm_compute in (a =? b) in lazymatch v with true => change (a =? b) with true | false => change (a =? b) with false end
  end; rewrite ?andb_false_r, ?andb_true_r.

Ltac reads_case :=
  unfold is_field; cbn [wire_of number]; known; repeat match goal with |- context [if ?c then _ else _] => destruct c end;
  match goal with
  | Hf : field_ok (FVarint ?n ?v), Hr : rest ?r = _ ++ ?post |- on_varint ?r ?a ?f = _ => exact (on_varint_ok n v r post a f Hf Hr)
  | Hl : zlen _ < _, Hr : rest ?r = payload (FBytes ?n ?b) ++ ?post |- on_bytes ?r ?a ?f = _ => exact (on_bytes_ok n b r post a _ f Hl Hr eq_refl)
  | Hf : field_ok ?f, Hl : zlen _ < _, Hr : rest ?r = _ ++ ?post |- on_other ?r ?a _ = _ => exact (on_other_ok f r post a Hf Hl Hr)
  end.

Lemma sd_reads : reads_fields sd_field sd_apply.
Proof. intros sd [n v|n b|n b|n b] r post Hf Hlen Hr; unfold sd_field, sd_apply. all: reads_case. Qed.

Lemma trickle_reads : reads_fields trickle_field trickle_apply.
Proof. intros m [n v|n b|n b|n b] r post Hf Hlen Hr; unfold trickle_field, trickle_apply. all: reads_case. Qed.

Lemma participant_reads : reads_fields participant_field participant_apply.
Proof. intros i [n v|n b|n b|n b] r post Hf Hlen Hr; unfold participant_field, participant_apply. all: reads_case. Qed.

Lemma leave_reads : reads_fields leave_field leave_apply.
Proof.
  intros li [n v|n b|n b|n b] r post Hf Hlen Hr; unfold leave_field, leave_apply, is_field; cbn [wire_of number]; known.
  - assert (r_varint r = (after r (length (payload (FVarint n v))), inr v)) as Hv by (apply (r_varint_ok v r post); [apply Hf|done]). rewrite Hv.
    destruct (n =? 2); [done|]. destruct (n =? 3); [done|]. by eapply (on_other_ok (FVarint _ _)).
  - by eapply (on_other_ok (FFixed64 _ _)).
  - by eapply (on_other_ok (FBytes _ _)).
  - by eapply (on_other_ok (FFixed32 _ _)).
Qed.

(** ** The theorems *)

(** Fields that a later version may add. *)
Definition unknown (f : pbField) : Prop := field_ok f /\ 100 < number f.

Lemma enc_fields_app fs gs : enc_fields (fs ++ gs) = enc_fields fs ++ enc_fields gs.
Proof. unfold enc_fields. by rewrite map_app, concat_app. Qed.

Lemma foldl_unknown {A} (apply : A -> pbField -> A) a us : (forall a f, unknown f -> apply a f = a) -> Forall unknown us -> foldl apply a us = a.
Proof. intros Ha. induction 1 as [|f us Hf _ IH]; [done|]. cbn. by rewrite Ha. Qed.

(** A message between unknown fields. *)
Lemma decode_between {A} step apply (a : A) us fs vs :
  reads_fields step apply -> (forall a f, unknown f -> apply a f = a) -> Forall unknown us -> Forall field_ok fs -> Forall unknown vs ->
  zlen (enc_fields us ++ enc_fields fs ++ enc_fields vs) < 2 ^ 62 ->
  decode step a (enc_fields us ++ enc_fields fs ++ enc_fields vs) = Ret (foldl apply a fs, None).
Proof.
  intros Hstep Ha Hus Hfs Hvs. rewrite <-!enc_fields_app. intros Hlen. rewrite (decode_fields step apply); [|done| |done].
  - rewrite !foldl_app, (foldl_unknown apply a us), (foldl_unknown apply _ vs) by done. done.
  - rewrite !Forall_app. split_and!; [|done|]; (eapply Forall_impl; [eassumption|]); by intros f [? _].
Qed.

Ltac unknown_case :=
  intros ? f [_ Hn]; destruct f; cbn in Hn; cbn; repeat match goal with |- context [?n =? ?k] => replace (n =? k) with false by lia end; done.

Definition sd_fields (sd : sessionDescription) : list pbField :=
  (if bool_decide (Type_ sd = []) then [] else [FBytes 1 (Type_ sd)]) ++ (if bool_decide (SDP sd = []) then [] else [FBytes 2 (SDP sd)]) ++
  (if ID sd =? 0 then [] else [FVarint 3 (ID sd)]).

Lemma encSessionDescription_fields sd : encSessionDescription sd = enc_fields (sd_fields sd).
Proof.
  unfold encSessionDescription, sd_fields. rewrite !enc_fields_app. f_equal; [case_bool_decide; [done|symmetry; apply app_nil_r]|].
  f_equal; [case_bool_decide; [done|symmetry; apply app_nil_r]|]. destruct (ID sd =? 0); [done|]. symmetry. apply app_nil_r.
Qed.

Lemma sd_between us sd vs :
  is_u32 (ID sd) -> Forall unknown us -> Forall unknown vs -> zlen (enc_fields us ++ encSessionDescription sd ++ enc_fields vs) < 2 ^ 62 ->
  decSessionDescription (enc_fields us ++ encSessionDescription sd ++ enc_fields vs) = Ret (sd, None).
Proof.
  intros Hid Hus Hvs Hlen. rewrite encSessionDescription_fields in Hlen |- *. unfold decSessionDescription. rewrite (decode_between sd_field sd_apply); [|exact sd_reads|unknown_case|done| |done|done].
  - unfold sd_fields. destruct sd as [t s i]. cbn [Type_ SDP ID] in *. case_bool_decide as Et; case_bool_decide as Es; destruct (i =? 0) eqn:Ei; subst; cbn; rewrite ?u32_id by done; try done.
    all: by assert (i = 0) as -> by lia.
  - unfold sd_fields. rewrite !Forall_app. split_and!; [case_bool_decide|case_bool_decide|destruct (ID sd =? 0)]; repeat constructor; cbn; unfold is_u32 in Hid; lia.
Qed.

Definition trickle_fields (m : trickleMsg) : list pbField :=
  [FBytes 1 (CandidateInit m); FVarint 2 (u32 (i32 (Target m)))] ++ (if Final m then [FVarint 3 1] else []).

Lemma trickle_between us m vs :
  0 <= Target m < 2 ^ 31 -> Forall unknown us -> Forall unknown vs -> zlen (enc_fields us ++ encTrickle m ++ enc_fields vs) < 2 ^ 62 ->
  decTrickle (enc_fields us ++ encTrickle m ++ enc_fields vs) = Ret (m, None).
Proof.
  intros Ht Hus Hvs Hlen. assert (encTrickle m = enc_fields (trickle_fields m)) as E.
  { unfold encTrickle, trickle_fields. rewrite enc_fields_app. unfold enc_fields at 1. cbn [map concat]. rewrite app_nil_r, <-app_assoc. do 2 f_equal. destruct (Final m); [|done]. symmetry. apply app_nil_r. }
  assert (u32 (i32 (Target m)) = Target m) as Eu by (unfold i32; rewrite Z.mod_small by lia; rewrite u32_id; [lia|red; lia]).
  rewrite E in Hlen |- *. unfold decTrickle. rewrite (decode_between trickle_field trickle_apply); [|exact trickle_reads|unknown_case|done| |done|done].
  - unfold trickle_fields. rewrite Eu. destruct m as [c t f]. cbn [CandidateInit Target Final] in *. by destruct f; cbn; rewrite i64_small by lia.
  - unfold trickle_fields. rewrite Eu. apply Forall_app. split; [|destruct (Final m)]; repeat constructor; cbn; lia.
Qed.

Lemma data_between us out kind vs :
  Forall unknown us -> Forall unknown vs -> zlen (enc_fields us ++ EncodeDataPacketUser out kind ++ enc_fields vs) < 2 ^ 62 ->
  DecodeDataPacketUser (enc_fields us ++ EncodeDataPacketUser out kind ++ enc_fields vs) = Ret (Some out).
Proof.
  intros Hus Hvs Hlen. set (ks := if kind =? 0 then [] else [FVarint 1 (u32 (i32 kind))]).
  assert (enc_fields us ++ EncodeDataPacketUser out kind ++ enc_fields vs = enc_fields (us ++ ks) ++ enc_field (FBytes 2 (encUserPacket out)) ++ enc_fields vs) as E.
  { rewrite enc_fields_app, <-!app_assoc. f_equal. unfold EncodeDataPacketUser. rewrite <-app_assoc. f_equal. unfold ks. destruct (kind =? 0); [done|]. symmetry. apply app_nil_r. }
  assert (zlen (encUserPacket out) < 2 ^ 62) as Hlen2.
  { rewrite E, !zlen_app in Hlen. unfold enc_field in Hlen. cbn [payload] in Hlen. rewrite !zlen_app in Hlen. pose proof (fun l : list Z => zlen_nonneg l) as H. pose proof (H (enc_fields (us ++ ks))). pose proof (H (enc_fields vs)).
    pose proof (H (w_tag (number (FBytes 2 (encUserPacket out))) (wire_of (FBytes 2 (encUserPacket out))))). pose proof (H (w_varint (u64 (zlen (encUserPacket out))))). lia. }
  rewrite E in Hlen |- *. unfold DecodeDataPacketUser. rewrite find_bytes_ok; [|..|done].
  - cbn [mbind res_bind]. change (encUserPacket out) with (enc_fields [] ++ enc_field (FBytes 2 out)) in Hlen2 |- *. rewrite <-(app_nil_r (enc_field (FBytes 2 out))) in Hlen2 |- *. by rewrite find_bytes_ok.
  - apply Forall_app. split; [|unfold ks; destruct (kind =? 0); [by apply Forall_nil|]; apply Forall_singleton; pose proof (u32_range (i32 kind)) as Hk; unfold is_u32 in Hk; split; [split; cbn; [lia|red; lia]|done]].
    eapply Forall_impl; [exact Hus|]. intros f [Hf Hn]. split; [done|]. unfold is_field. by replace (number f =? 2) with false by lia.
  - done.
  - done.
Qed.

Lemma zlen_w_bytes n b : zlen (w_bytes n b) <= zlen b + 20.
Proof.
  unfold w_bytes, w_tag, w_varint, zlen. rewrite !length_app. pose proof (w_varint_length 9 (u64 (Z.lor (Z.shiftl n 3) wireBytes))). pose proof (w_varint_length 9 (u64 (Z.of_nat (length b)))). lia.
Qed.

Lemma zlen_w_int32 n v : zlen (w_int32 n v) <= 20.
Proof.
  unfold w_int32, w_tag, w_varint, zlen. rewrite !length_app. pose proof (w_varint_length 9 (u64 (Z.lor (Z.shiftl n 3) wireVarint))). pose proof (w_varint_length 9 (u32 v)). lia.
Qed.

Lemma signal_between field sd us vs post :
  field = 2 \/ field = 3 -> is_u32 (ID sd) -> Forall unknown us -> Forall unknown vs ->
  let inner := enc_fields us ++ encSessionDescription sd ++ enc_fields vs in
  zlen (w_bytes field inner ++ post) < 2 ^ 62 -> decSignalResponse (w_bytes field inner ++ post) = Ret (mk_response field None (Some sd) None [] None [], None).
Proof.
  intros Hf Hid Hus Hvs inner Hlen. assert (zlen inner < 2 ^ 62) as Hi.
  { unfold w_bytes in Hlen. rewrite !zlen_app in Hlen. pose proof (zlen_nonneg (w_tag field wireBytes)). pose proof (zlen_nonneg (w_varint (u64 (zlen inner)))). pose proof (zlen_nonneg post). unfold inner in *. lia. }
  unfold decSignalResponse. change (w_bytes field inner ++ post) with (enc_fields [] ++ enc_field (FBytes field inner) ++ post) in Hlen |- *.
  rewrite find_bytes_ok; [|by apply Forall_nil|split; cbn; [lia|done]|done|done]. cbn [mbind res_bind]. unfold signal_message, inner in *.
  destruct Hf as [-> | ->]; cbn [Z.eqb Pos.eqb orb]; rewrite sd_between by done; done.
Qed.

(** C39: descriptions of sessions, candidates and packets of data are read back as
    they were written, also among fields that the reader does not know, and a
    response with a description gives that description. *)
Theorem livekit_roundtrip us vs sd m out kind field post :
  Forall unknown us -> Forall unknown vs -> is_u32 (ID sd) -> 0 <= Target m < 2 ^ 31 -> field = 2 \/ field = 3 ->
  Forall (fun x => zlen x < 2 ^ 59) [enc_fields us; enc_fields vs; encSessionDescription sd; encTrickle m; out; post] ->
  let among := fun x => enc_fields us ++ x ++ enc_fields vs in
  decSessionDescription (among (encSessionDescription sd)) = Ret (sd, None) /\
  decTrickle (among (encTrickle m)) = Ret (m, None) /\
  DecodeDataPacketUser (among (EncodeDataPacketUser out kind)) = Ret (Some out) /\
  decSignalResponse (w_bytes field (among (encSessionDescription sd)) ++ post) = Ret (mk_response field None (Some sd) None [] None [], None).
Proof.
  intros Hus Hvs Hid Ht Hf Hl. rewrite !Forall_cons in Hl. destruct Hl as (L1 & L2 & L3 & L4 & L5 & L6 & _). cbn zeta. split_and!.
  - apply sd_between; [done..|]. rewrite !zlen_app. lia.
  - apply trickle_between; [done..|]. rewrite !zlen_app. lia.
  - apply data_between; [done..|]. unfold EncodeDataPacketUser. rewrite !zlen_app. pose proof (zlen_w_bytes 2 (encUserPacket out)) as W1. assert (zlen (encUserPacket out) <= zlen out + 20) as W2 by apply zlen_w_bytes.
    pose proof (zlen_w_int32 1 (i32 kind)). destruct (kind =? 0); rewrite ?zlen_nil; lia.
  - apply signal_between; [done..|]. rewrite zlen_app. pose proof (zlen_w_bytes field (enc_fields us ++ encSessionDescription sd ++ enc_fields vs)) as W. rewrite !zlen_app in W. lia.
Qed.

Lemma find_panics want n post : 2 ^ 63 <= n < 2 ^ 64 -> want 2 wireBytes = true -> find_bytes want (w_tag 2 wireBytes ++ w_varint n ++ post) = Panic.
Proof.
  intros Hn Hw. unfold find_bytes. set (data := w_tag 2 wireBytes ++ w_varint n ++ post). assert (rest (mk_reader data 0) = data) as Hr by done.
  change (length data) with (S (length (w_varint n ++ post))). cbn [find_loop]. change (eof (mk_reader data 0)) with false. cbv iota.
  rewrite (r_tag_ok 2 wireBytes _ (w_varint n ++ post)) by (done || lia). rewrite Hw. rewrite (r_bytes_panics n _ post); [done|done|by vm_compute|by apply rest_app].
Qed.

(** C40: on any bytes (fewer than 2^62) the decoders of signalling and data end and
    do not raise, except where eight bytes in a row have their high bits set: a
    length of 2^63 or more is negative as an [int], passes the check and makes
    the slice panic, so that a packet of eleven bytes ends the process. *)
Theorem livekit_decoding data n post :
  small data -> 2 ^ 63 <= n < 2 ^ 64 ->
  decodes data (decSignalResponse data) /\ decodes data (DecodeDataPacketUser data) /\
  DecodeDataPacketUser (w_tag 2 wireBytes ++ w_varint n ++ post) = Panic /\ decSignalResponse (w_tag 2 wireBytes ++ w_varint n ++ post) = Panic.
Proof.
  intros Hs Hn. split_and!; [by apply decSignalResponse_reads|by apply DecodeDataPacketUser_reads|unfold DecodeDataPacketUser; by rewrite find_panics|unfold decSignalResponse; by rewrite find_panics].
Qed.

(** ** Examples *)

Definition some_sd : sessionDescription := mk_sd [111; 102; 102; 101; 114] [118; 61; 48] 7.
Definition some_unknown : list pbField := [FFixed32 200 [1; 2; 3; 4]; FBytes 101 [200; 201]; FVarint 300 (2 ^ 64 - 1)].

Lemma some_unknown_ok : Forall unknown some_unknown.
Proof. repeat constructor; cbn; lia. Qed.

Lemma livekit_roundtrip_witness :
  decSignalResponse (w_bytes 3 (enc_fields some_unknown ++ encSessionDescription some_sd ++ enc_fields some_unknown) ++ [1; 2]) = Ret (mk_response 3 None (Some some_sd) None [] None [], None).
Proof.
  refine (proj2 (proj2 (proj2 (livekit_roundtrip some_unknown some_unknown some_sd (mk_trickle [99] 1 true) [1; 2; 3] 1 3 [1; 2] some_unknown_ok some_unknown_ok _ _ _ _)))).
  - by vm_compute.
  - by vm_compute.
  - by right.
  - repeat constructor; by vm_compute.
Defined.

(** A packet of eleven bytes. *)
Lemma livekit_decoding_witness :
  DecodeDataPacketUser (w_tag 2 wireBytes ++ w_varint (2 ^ 64 - 1) ++ []) = Panic /\ length (w_tag 2 wireBytes ++ w_varint (2 ^ 64 - 1) ++ []) = 11%nat /\
  decodes [8; 1; 18; 3; 18; 1; 42] (DecodeDataPacketUser [8; 1; 18; 3; 18; 1; 42]).
Proof.
  assert (small [8; 1; 18; 3; 18; 1; 42]) as Hs by (split; [repeat constructor; by vm_compute|by vm_compute]).
  destruct (livekit_decoding [8; 1; 18; 3; 18; 1; 42] (2 ^ 64 - 1) [] Hs) as (_ & H1 & H2 & _); [lia|]. split; [exact H2|]. split; [by vm_compute|exact H1].
Defined.
