(* ===== verification/CallFrames.v ===== *)
(** * Frames over a data channel
    (src/transport/call/tunnel: protocol.go, obfuscator.go, dctunnel.go)

    Frames of the relay, sealed one by one and cut into chunks of the size that a
    data channel of a conference takes. *)

From S2P Require Import Prelude KcpCrypt.

(** ** Frames *)

Abbreviation MsgConnect := 0x01.
Abbreviation MsgConnectOK := 0x02.
Abbreviation MsgConnectErr := 0x03.
Abbreviation MsgData := 0x04.
Abbreviation MsgClose := 0x05.
Abbreviation MsgUDP := 0x06.
Abbreviation MsgUDPReply := 0x07.
Abbreviation MsgConfig := 0x08.
Abbreviation MsgConfigAck := 0x09.
Abbreviation ControlConnID := 0.

(** The number of the connection, the type, the payload. *)
Abbreviation frame := (Z * Z * list Z)%type.

Definition EncodeFrame (f : frame) : list Z :=
  let '(connID, msgType, payload) := f in put_be 4 (u32 (5 + zlen payload)) ++ put_be 4 connID ++ [msgType] ++ payload.

(** The frames that [DecodeFrames] calls back with. *)
Fixpoint frames_loop (fuel : nat) (data : list Z) : res (list frame) :=
  if zlen data <? 4 then Ret []
  else match fuel with
       | O => Panic
       | S fuel =>
         frameLen ← go_be 4 data;
         if (frameLen <? 5) || (zlen data <? 4 + frameLen) then Ret []
         else
           head ← go_slice data 4 8;
           connID ← go_be 4 head;
           msgType ← go_index data 8;
           payload ← go_slice data 9 (4 + frameLen);
           data ← go_from data (4 + frameLen);
           fs ← frames_loop fuel data;
           Ret ((connID, msgType, payload) :: fs)
       end.

Definition DecodeFrames (data : list Z) : res (list frame) := frames_loop (length data) data.

Definition LooksLikeRelayFrame (payload : list Z) : res bool :=
  if zlen payload <? 9 then Ret false
  else frameLen ← go_be 4 payload; Ret ((5 <=? frameLen) && (frameLen + 4 <=? zlen payload)).

Definition clamp (x : Z) : Z := Z.min (Z.max x 1) 0xFFFF.

Definition EncodeVP8Config (fps batch trackCount : Z) : list Z :=
  EncodeFrame (ControlConnID, MsgConfig, put_be 2 (clamp fps) ++ put_be 2 (clamp batch) ++ put_be 2 (clamp trackCount)).

Definition DecodeVP8Config (payload : list Z) : res (option (Z * Z * Z)) :=
  if zlen payload <? 4 then Ret None
  else
    fps ← go_be 2 payload;
    rest ← go_slice payload 2 4;
    batch ← go_be 2 rest;
    if 6 <=? zlen payload then rest ← go_slice payload 4 6; trackCount ← go_be 2 rest; Ret (Some (fps, batch, trackCount))
    else Ret (Some (fps, batch, 1)).

(** ** Sealing *)

(** Without an obfuscator the bytes go as they are; [nonce] is what the random
    source gives. *)
Definition EncryptPayload (obf : option AEAD) (nonce plaintext : list Z) : res (list Z) :=
  match obf with
  | None => Ret plaintext
  | Some a => sealed ← Seal a nonce plaintext; Ret (nonce ++ sealed)
  end.

Definition DecryptPayload (obf : option AEAD) (data : list Z) : res (option (list Z)) :=
  match obf with
  | None => Ret (Some data)
  | Some a =>
    if zlen data <? NonceSize a + Overhead a then Ret None
    else
      nonce ← go_slice data 0 (NonceSize a);
      ciphertext ← go_from data (NonceSize a);
      match Open a nonce ciphertext with
      | Ret plaintext => Ret (Some plaintext)
      | Err _ => Ret None
      | Panic => Panic
      end
  end.

(** ** Chunks *)

Abbreviation chunkSize := 994.

Definition chunk_bytes (id i total : Z) (p : list Z) : list Z :=
  [u8 (Z.shiftr id 8); Z.land id 0xFF; u8 (Z.shiftr i 8); u8 (Z.land i 0xFF); u8 (Z.shiftr total 8); u8 (Z.land total 0xFF)] ++ p.

Fixpoint chunk_loop (n : nat) (id i total : Z) (data : list Z) : list (list Z) :=
  match n with
  | O => []
  | S n => chunk_bytes id i total (take (Z.to_nat chunkSize) data) :: chunk_loop n id (i + 1) total (drop (Z.to_nat chunkSize) data)
  end.

(** The rounded up quotient, at least 1. *)
Definition chunk_count (len : Z) : Z := Z.max ((len + chunkSize - 1) / chunkSize) 1.

(** [sendChunked] after the counter was increased to [sendMsgID]: the messages
    that it writes. *)
Definition sendChunked (sendMsgID : Z) (data : list Z) : list (list Z) :=
  let total := chunk_count (zlen data) in chunk_loop (Z.to_nat total) (u16 sendMsgID) 0 total data.

Record chunkBuf := mk_chunks { chunks : list (option (list Z)); count : Z; size : Z }.

Record DCTunnel := mk_tunnel { obf : option AEAD; chunked : bool; recvBufs : gmap Z chunkBuf; sendMsgID : Z }.

(** [SendData], with the nonces it draws: what is written to the channel. *)
Fixpoint send_loop (fuel : nat) (t : DCTunnel) (nonces : list (list Z)) (data : list Z) : res (DCTunnel * list (list Z)) :=
  if zlen data <? 4 then Ret (t, [])
  else match fuel with
       | O => Panic
       | S fuel =>
         frameLen ← go_be 4 data;
         if (frameLen <? 5) || (zlen data <? 4 + frameLen) then Ret (t, [])
         else
           body ← go_slice data 4 (4 + frameLen);
           wire ← EncryptPayload (obf t) (default [] (head nonces)) body;
           let '(t, out) := if chunked t then let id := u32 (sendMsgID t + 1) in (mk_tunnel (obf t) (chunked t) (recvBufs t) id, sendChunked id wire) else (t, [wire]) in
           data ← go_from data (4 + frameLen);
           '(t, outs) ← send_loop fuel t (tail nonces) data;
           Ret (t, out ++ outs)
       end.

Definition SendData (t : DCTunnel) (nonces : list (list Z)) (data : list Z) : res (DCTunnel * list (list Z)) := send_loop (length data) t nonces data.

(** What the handler of the data is called with. *)
Definition deliverMessage (t : DCTunnel) (data : list Z) : res (list (list Z)) :=
  if bool_decide (data = []) then Ret []
  else
    pt ← DecryptPayload (obf t) data;
    match pt with
    | None | Some [] => Ret []
    | Some data => Ret [put_be 4 (u32 (zlen data)) ++ data]
    end.

Definition be16 (a b : Z) : Z := Z.lor (u16 (Z.shiftl a 8)) b.

Definition handleChunk (t : DCTunnel) (data : list Z) : res (DCTunnel * list (list Z)) :=
  match data with
  | d0 :: d1 :: d2 :: d3 :: d4 :: d5 :: payload =>
    let id := be16 d0 d1 in let idx := be16 d2 d3 in let total := be16 d4 d5 in
    if total =? 1 then out ← deliverMessage t payload; Ret (t, out)
    else
      let cb := default (mk_chunks (replicate (Z.to_nat total) None) 0 0) (recvBufs t !! id) in
      let cb := if (idx <? zlen (chunks cb)) && bool_decide (chunks cb !! Z.to_nat idx = Some None)
                then mk_chunks (<[Z.to_nat idx := Some payload]> (chunks cb)) (count cb + 1) (size cb + zlen payload) else cb in
      if count cb =? total then
        out ← deliverMessage t (concat (map (default []) (chunks cb)));
        Ret (mk_tunnel (obf t) (chunked t) (delete id (recvBufs t)) (sendMsgID t), out)
      else Ret (mk_tunnel (obf t) (chunked t) (<[id := cb]> (recvBufs t)) (sendMsgID t), [])
  | _ => Panic
  end.

(** A message of [readLoop] that fits its buffer of [readBuf] bytes; for a
    longer one [ReadDataChannel] returns an error, and the loop ends. *)
Definition read_message (t : DCTunnel) (data : list Z) : res (DCTunnel * list (list Z)) :=
  if chunked t && (6 <=? zlen data) then handleChunk t data
  else if bool_decide (data = []) then Ret (t, []) else out ← deliverMessage t data; Ret (t, out).

Fixpoint read_messages (t : DCTunnel) (ms : list (list Z)) : res (DCTunnel * list (list Z)) :=
  match ms with
  | [] => Ret (t, [])
  | m :: ms => '(t, out) ← read_message t m; '(t, outs) ← read_messages t ms; Ret (t, out ++ outs)
  end.
