(* ===== verification/CallFramesExact.v ===== *)
(** * Chunks are put together again

    Whatever the order in which the chunks of some messages arrive, each message
    is delivered once, with its last chunk; and the frames of the relay arrive as
    they were sent. *)

From S2P Require Import Prelude KcpCrypt CallFrames.

(** ** A chunk *)

Lemma be16_of x : is_u16 x -> be16 (u8 (Z.shiftr x 8)) (u8 (Z.land x 0xFF)) = x.
Proof.
  intros [H0 H1]. unfold be16. rewrite Z.shiftr_div_pow2 by lia. change 0xFF with (Z.ones 8). rewrite Z.land_ones by lia. change (2 ^ 8) with 256 in *. change (2 ^ 16) with 65536 in *.
  pose proof (Z.mod_pos_bound x 256 ltac:(lia)). pose proof (Z.div_mod x 256 ltac:(lia)). rewrite !u8_id by (red; change (2 ^ 8) with 256; lia).
  rewrite u16_id by (red; rewrite Z.shiftl_mul_pow2 by lia; change (2 ^ 8) with 256; change (2 ^ 16) with 65536; lia). rewrite Z.lor_comm, lor_shiftl by (try change (2 ^ 8) with 256; lia). change (2 ^ 8) with 256. lia.
Qed.

Lemma u8_land_ff x : u8 (Z.land x 0xFF) = Z.land x 0xFF.
Proof. change 0xFF with (Z.ones 8). rewrite Z.land_ones by lia. apply u8_id. red. apply Z.mod_pos_bound. lia. Qed.

Lemma handleChunk_bytes t id i total p :
  is_u16 id -> is_u16 i -> is_u16 total ->
  handleChunk t (chunk_bytes id i total p) =
    if total =? 1 then out ← deliverMessage t p; Ret (t, out)
    else
      let cb := default (mk_chunks (replicate (Z.to_nat total) None) 0 0) (recvBufs t !! id) in
      let cb := if (i <? zlen (chunks cb)) && bool_decide (chunks cb !! Z.to_nat i = Some None)
                then mk_chunks (<[Z.to_nat i := Some p]> (chunks cb)) (count cb + 1) (size cb + zlen p) else cb in
      if count cb =? total then
        out ← deliverMessage t (concat (map (default []) (chunks cb)));
        Ret (mk_tunnel (obf t) (chunked t) (delete id (recvBufs t)) (sendMsgID t), out)
      else Ret (mk_tunnel (obf t) (chunked t) (<[id := cb]> (recvBufs t)) (sendMsgID t), []).
Proof.
  intros H1 H2 H3. unfold chunk_bytes. cbn [app handleChunk]. rewrite <-(u8_land_ff id). by rewrite !be16_of.
Qed.

(** ** Several messages *)

(** A message is its number and its parts; a chunk is the number of the message
    and the place of the part. *)
Abbreviation message := (Z * list (list Z))%type.

Definition bytes_of_chunk (msgs : list message) (c : Z * nat) : list Z :=
  match list_find (fun m => m.1 = c.1) msgs with
  | Some (_, m) => chunk_bytes c.1 (Z.of_nat c.2) (zlen m.2) (default [] (m.2 !! c.2))
  | None => []
  end.

Record messages_ok (msgs : list message) : Prop := {
  mo_ids : NoDup msgs.*1;
  mo_id : Forall (fun m => is_u16 m.1) msgs;
  mo_len : Forall (fun m => 1 <= zlen m.2 < 65536) msgs
}.

Definition parts_seen (seen : gset (Z * nat)) (m : message) : list (option (list Z)) :=
  imap (fun i p => if bool_decide ((m.1, i) ∈ seen) then Some p else None) m.2.

Definition seen_count (seen : gset (Z * nat)) (m : message) : nat := length (filter (fun x => x ≠ None) (parts_seen seen m)).

Definition complete (seen : gset (Z * nat)) (m : message) : Prop := seen_count seen m = length m.2.

#[export] Instance complete_dec seen m : Decision (complete seen m) := decide (seen_count seen m = length m.2).

Lemma parts_seen_length seen m : length (parts_seen seen m) = length m.2.
Proof. apply length_imap. Qed.

Lemma parts_seen_insert seen m i p :
  m.2 !! i = Some p -> parts_seen ({[(m.1, i)]} ∪ seen) m = <[i := Some p]> (parts_seen seen m).
Proof.
  intros Hi. apply list_eq. intros j. unfold parts_seen. destruct (decide (i = j)) as [<-|Hne].
  - rewrite list_lookup_insert_eq by (rewrite length_imap; by apply lookup_lt_Some in Hi). rewrite list_lookup_imap, Hi. cbn. rewrite bool_decide_eq_true_2; [done|set_solver].
  - rewrite list_lookup_insert_ne by done. rewrite !list_lookup_imap. destruct (m.2 !! j) as [q|]; [|done]. cbn. f_equal. replace (bool_decide ((m.1, j) ∈ {[(m.1, i)]} ∪ seen)) with (bool_decide ((m.1, j) ∈ seen)); [done|]. apply bool_decide_ext. set_solver.
Qed.

Lemma parts_seen_other seen m x i : x ≠ m.1 -> parts_seen ({[(x, i)]} ∪ seen) m = parts_seen seen m.
Proof. intros Hne. unfold parts_seen. apply imap_ext. intros j p _. cbn. replace (bool_decide _) with (bool_decide ((m.1, j) ∈ seen)); [done|]. apply bool_decide_ext. set_solver. Qed.

Lemma count_some (l : list (option (list Z))) i p : l !! i = Some None ->
  length (filter (fun x => x ≠ None) (<[i := Some p]> l)) = S (length (filter (fun x => x ≠ None) l)).
Proof.
  revert i. induction l as [|x l IH]; intros [|i] Hi; cbn in Hi; [done|done| |].
  - injection Hi as ->. change (<[0%nat := Some p]> (None :: l)) with (Some p :: l). rewrite filter_cons_True, filter_cons_False by (cbn; tauto || done). done.
  - change (<[S i := Some p]> (x :: l)) with (x :: <[i := Some p]> l). rewrite !filter_cons. destruct (decide (x ≠ None)); cbn [length]; by rewrite IH.
Qed.

Lemma seen_none seen m : seen_count seen m = 0%nat -> parts_seen seen m = replicate (length m.2) None.
Proof.
  unfold seen_count. rewrite <-(parts_seen_length seen m). induction (parts_seen seen m) as [|x l IH]; [done|].
  rewrite filter_cons. destruct x as [q|]; [by rewrite decide_True|]. rewrite decide_False by (cbn; tauto). intros E. cbn [length replicate]. by rewrite <-IH.
Qed.

Lemma complete_all seen m : complete seen m -> Forall (fun x => x ≠ None) (parts_seen seen m).
Proof.
  unfold complete, seen_count. rewrite <-(parts_seen_length seen m). induction (parts_seen seen m) as [|x l IH]; intros Hc; [by apply Forall_nil|].
  rewrite filter_cons in Hc. destruct (decide (x ≠ None)) as [Hx|Hx]; cbn [length] in Hc.
  - constructor; [done|]. apply IH. lia.
  - pose proof (length_filter (fun x : option (list Z) => x ≠ None) l). lia.
Qed.

Lemma complete_in seen m i p : complete seen m -> m.2 !! i = Some p -> (m.1, i) ∈ seen.
Proof.
  intros Hc Hi. pose proof (complete_all seen m Hc) as Hf. rewrite Forall_lookup in Hf. specialize (Hf i). unfold parts_seen in Hf. rewrite list_lookup_imap, Hi in Hf. cbn in Hf.
  destruct (decide ((m.1, i) ∈ seen)) as [|Hn]; [done|]. rewrite (bool_decide_eq_false_2 _ Hn) in Hf. by destruct (Hf None).
Qed.

Lemma seen_full seen m : complete seen m -> concat (map (default []) (parts_seen seen m)) = concat m.2.
Proof.
  intros Hc. f_equal. apply list_eq. intros i. change (map (default []) (parts_seen seen m)) with (default [] <$> parts_seen seen m). rewrite list_lookup_fmap. unfold parts_seen. rewrite list_lookup_imap.
  destruct (m.2 !! i) as [p|] eqn:Hi; [|done]. cbn. by rewrite bool_decide_eq_true_2 by (by eapply complete_in).
Qed.

(** ** The tunnel after some chunks *)

Definition deliverable (t : DCTunnel) (g : message -> list Z) (msgs : list message) : Prop :=
  Forall (fun m => deliverMessage t (concat m.2) = Ret [g m]) msgs.

Definition buffered (seen : gset (Z * nat)) (m : message) : option chunkBuf :=
  if decide (length m.2 = 1%nat \/ seen_count seen m = 0%nat \/ complete seen m) then None
  else Some (mk_chunks (parts_seen seen m) (Z.of_nat (seen_count seen m)) (zlen (concat (map (default []) (parts_seen seen m))))).

Lemma buffered_other seen m x i : x ≠ m.1 -> buffered ({[(x, i)]} ∪ seen) m = buffered seen m.
Proof.
  intros Hne. pose proof (parts_seen_other seen m x i Hne) as Ep. assert (seen_count ({[(x, i)]} ∪ seen) m = seen_count seen m) as Ec by (unfold seen_count; by rewrite Ep).
  unfold buffered. rewrite Ep, Ec. repeat case_decide; unfold complete in *; rewrite ?Ec in *; tauto || done.
Qed.

Record holds (msgs : list message) (seen : gset (Z * nat)) (t : DCTunnel) : Prop := {
  h_in m : m ∈ msgs -> (fun b => (chunks b, count b)) <$> recvBufs t !! m.1 = (fun b => (chunks b, count b)) <$> buffered seen m;
  h_out id : id ∉ msgs.*1 -> recvBufs t !! id = None
}.

Lemma find_message (msgs : list message) (m : message) : NoDup msgs.*1 -> m ∈ msgs -> exists i, list_find (fun x => x.1 = m.1) msgs = Some (i, m).
Proof.
  intros Hnd Hin. destruct (list_find (fun x => x.1 = m.1) msgs) as [[i x]|] eqn:E.
  - exists i. apply list_find_Some in E as (Hi & Ex & _). apply list_elem_of_lookup in Hin as [j Hj]. assert (i = j) as ->; [|congruence].
    eapply (NoDup_lookup _ _ _ m.1 Hnd); rewrite list_lookup_fmap; [by rewrite Hi; cbn; rewrite Ex|by rewrite Hj].
  - apply list_find_None in E. rewrite Forall_forall in E. by destruct (E m Hin).
Qed.

Lemma seen_count_insert seen m i p : m.2 !! i = Some p -> (m.1, i) ∉ seen -> seen_count ({[(m.1, i)]} ∪ seen) m = S (seen_count seen m) /\ parts_seen seen m !! i = Some None.
Proof.
  intros Hi Hn. assert (parts_seen seen m !! i = Some None) as E by (unfold parts_seen; rewrite list_lookup_imap, Hi; cbn; by rewrite bool_decide_eq_false_2).
  split; [|done]. unfold seen_count. rewrite (parts_seen_insert seen m i p Hi). by apply count_some.
Qed.

Lemma seen_count_le seen m : (seen_count seen m <= length m.2)%nat.
Proof. unfold seen_count. rewrite <-(parts_seen_length seen m). apply length_filter. Qed.

(** One chunk: the message is delivered if it is complete. *)
Lemma handle_one t g msgs seen m i p :
  messages_ok msgs -> deliverable t g msgs -> holds msgs seen t -> m ∈ msgs -> m.2 !! i = Some p -> (m.1, i) ∉ seen ->
  let seen' := {[(m.1, i)]} ∪ seen in
  exists t', handleChunk t (chunk_bytes m.1 (Z.of_nat i) (zlen m.2) p) = Ret (t', if decide (complete seen' m) then [g m] else []) /\
    obf t' = obf t /\ chunked t' = chunked t /\ holds msgs seen' t'.
Proof.
  intros [O1 O2 O3] Hd [H1 H2] Hm Hi Hn seen'. rewrite Forall_forall in O2, O3. pose proof (O2 m Hm) as Hid. pose proof (O3 m Hm) as Hlen. unfold deliverable in Hd. rewrite Forall_forall in Hd. specialize (Hd m Hm).
  pose proof (lookup_lt_Some _ _ _ Hi) as Hlt. assert (is_u16 (zlen m.2)) as Hu by (red; change (2 ^ 16) with 65536; lia). assert (is_u16 (Z.of_nat i)) as Hui by (red; unfold zlen in *; change (2 ^ 16) with 65536; lia).
  destruct (seen_count_insert seen m i p Hi Hn) as [Hc Hnone]. pose proof (seen_count_le seen' m) as Hle. fold seen' in Hc.
  assert (forall t', (fun b => (chunks b, count b)) <$> recvBufs t' !! m.1 = (fun b => (chunks b, count b)) <$> buffered seen' m -> (forall x, x ≠ m.1 -> recvBufs t' !! x = recvBufs t !! x) -> holds msgs seen' t') as Hholds.
  { intros t' Hb Ho. split.
    - intros m' Hm'. destruct (decide (m'.1 = m.1)) as [E|Hne].
      + destruct (find_message msgs m O1 Hm) as [j Ej]. destruct (find_message msgs m' O1 Hm') as [j' Ej']. rewrite E, Ej in Ej'. injection Ej' as <- <-. done.
      + rewrite Ho by done. rewrite (H1 m' Hm'). unfold seen'. by rewrite buffered_other by congruence.
    - intros id Hnid. rewrite Ho; [by apply H2|]. intros ->. apply Hnid. by apply list_elem_of_fmap_2. }
  rewrite handleChunk_bytes by done. destruct (Z.eqb_spec (zlen m.2) 1) as [E1|E1].
  - assert (length m.2 = 1%nat) as El by (unfold zlen in E1; lia). assert (complete seen' m) as Hcomp by (unfold complete; lia).
    assert (concat m.2 = p) as Ecp by (destruct m.2 as [|q [|]]; cbn in El; try lia; destruct i; cbn in Hi; [|by destruct i]; injection Hi as <-; cbn; by rewrite app_nil_r).
    rewrite Ecp in Hd. rewrite Hd, decide_True by done. exists t. cbn [mbind res_bind]. split_and!; [done|done|done|]. apply Hholds; [|done].
    rewrite (H1 m Hm). unfold buffered. rewrite !decide_True by (by left). done.
  - cbv zeta. assert (length m.2 ≠ 1%nat) as Hl1 by (unfold zlen in E1; lia).
    set (cb := default _ (recvBufs t !! m.1)). assert (chunks cb = parts_seen seen m /\ count cb = Z.of_nat (seen_count seen m)) as [Ec En].
    { specialize (H1 m Hm). unfold buffered in H1. unfold cb. case_decide as Hcase.
      - destruct (recvBufs t !! m.1); [done|]. cbn. assert (seen_count seen m = 0%nat) as E0 by (unfold complete in Hcase; lia).
        rewrite (seen_none seen m E0), E0. unfold zlen. by rewrite Nat2Z.id.
      - destruct (recvBufs t !! m.1) as [b|]; [|done]. cbn in H1 |- *. by injection H1 as -> ->. }
    rewrite Ec, Nat2Z.id, Hnone, bool_decide_eq_true_2, andb_true_r by done. rewrite (proj2 (Z.ltb_lt _ _)) by (unfold zlen; rewrite parts_seen_length; lia).
    cbn [chunks count]. rewrite En, <-(parts_seen_insert seen m i p Hi). fold seen'.
    destruct (decide (complete seen' m)) as [Hcomp|Hinc].
    + rewrite (proj2 (Z.eqb_eq _ _)) by (unfold complete in Hcomp; unfold zlen; lia). rewrite seen_full, Hd by done. cbn [mbind res_bind]. eexists. split; [done|]. split_and!; [done|done|].
      apply Hholds; cbn [recvBufs]; [rewrite lookup_delete_eq; unfold buffered; by rewrite decide_True by tauto|]. intros x Hx. by rewrite lookup_delete_ne.
    + rewrite (proj2 (Z.eqb_neq _ _)) by (unfold complete in Hinc; unfold zlen; lia). eexists. split; [done|]. split_and!; [done|done|].
      apply Hholds; cbn [recvBufs]; [|intros x Hx; by rewrite lookup_insert_ne]. rewrite lookup_insert_eq. unfold buffered. rewrite decide_False by (intros [?|[?|?]]; [done|lia|done]). cbn. do 2 f_equal. lia.
Qed.

(** ** All chunks *)

(** The messages that the chunks complete, in the order in which they do. *)
Fixpoint completions (msgs : list message) (seen : gset (Z * nat)) (cs : list (Z * nat)) : list message :=
  match cs with
  | [] => []
  | c :: cs =>
    let seen' := {[c]} ∪ seen in
    match list_find (fun m => m.1 = c.1) msgs with
    | Some (_, m) => if decide (complete seen' m) then [m] else []
    | None => []
    end ++ completions msgs seen' cs
  end.

Definition chunk_of (msgs : list message) (c : Z * nat) : Prop := exists m, m ∈ msgs /\ m.1 = c.1 /\ (c.2 < length m.2)%nat.

Lemma seen_cons (c : Z * nat) (cs : list (Z * nat)) (seen : gset (Z * nat)) : list_to_set (c :: cs) ∪ seen = list_to_set cs ∪ ({[c]} ∪ seen).
Proof. rewrite list_to_set_cons, (union_comm_L {[c]}). symmetry. apply (assoc_L (∪)). Qed.

Lemma deliver_obf t t' d : obf t' = obf t -> deliverMessage t' d = deliverMessage t d.
Proof. intros E. unfold deliverMessage. by rewrite E. Qed.

Lemma chunk_bytes_long id i total p : 6 <= zlen (chunk_bytes id i total p).
Proof. unfold chunk_bytes. rewrite zlen_app. pose proof (zlen_nonneg p). rewrite !zlen_cons, zlen_nil. lia. Qed.

Lemma bytes_of_chunk_eq msgs m i p : messages_ok msgs -> m ∈ msgs -> m.2 !! i = Some p -> bytes_of_chunk msgs (m.1, i) = chunk_bytes m.1 (Z.of_nat i) (zlen m.2) p.
Proof. intros Ho Hm Hp. destruct (find_message msgs m (mo_ids msgs Ho) Hm) as [k Ek]. unfold bytes_of_chunk. cbn [fst snd]. by rewrite Ek, Hp. Qed.

Lemma read_chunks t g msgs seen cs :
  messages_ok msgs -> deliverable t g msgs -> holds msgs seen t -> chunked t = true -> NoDup cs -> Forall (chunk_of msgs) cs -> Forall (fun c => c ∉ seen) cs ->
  exists t', read_messages t (map (bytes_of_chunk msgs) cs) = Ret (t', map g (completions msgs seen cs)) /\ obf t' = obf t /\ chunked t' = true /\ holds msgs (list_to_set cs ∪ seen) t'.
Proof.
  intros Ho. revert t seen. induction cs as [|[id i] cs IH]; intros t seen Hd Hh Hc Hnd Hv Hs.
  { exists t. cbn [list_to_set foldr]. rewrite (left_id_L ∅ (∪)). done. }
  apply NoDup_cons in Hnd as [Hn Hnd]. apply Forall_cons in Hv as [(m & Hm & Em & Hi) Hv]. apply Forall_cons in Hs as [Hs0 Hs]. cbn [fst snd] in Em, Hi. subst id.
  destruct (find_message msgs m (mo_ids msgs Ho) Hm) as [k Ek]. apply lookup_lt_is_Some in Hi as [p Hp].
  destruct (handle_one t g msgs seen m i p Ho Hd Hh Hm Hp Hs0) as (t1 & E1 & Eo & Ec & Hh1).
  destruct (IH t1 ({[(m.1, i)]} ∪ seen)) as (t2 & E2 & Eo2 & Ec2 & Hh2); [|done|congruence|done|done| |].
  - unfold deliverable in *. eapply Forall_impl; [exact Hd|]. cbn. intros x Hx. by rewrite (deliver_obf t t1).
  - rewrite Forall_forall in Hs |- *. intros c Hin. rewrite not_elem_of_union, not_elem_of_singleton. split; [|by apply Hs]. by intros ->.
  - exists t2. cbn [map read_messages completions fst snd]. rewrite (bytes_of_chunk_eq msgs m i p Ho Hm Hp), Ek. unfold read_message. rewrite Hc, (proj2 (Z.leb_le _ _)) by apply chunk_bytes_long. cbn [andb].
    rewrite E1. cbn [mbind res_bind]. rewrite E2. cbn [mbind res_bind]. split_and!; [|congruence|done|].
    + do 2 f_equal. rewrite map_app. f_equal. by case_decide.
    + by rewrite seen_cons.
Qed.

Lemma complete_mono seen seen' m : seen ⊆ seen' -> complete seen m -> complete seen' m.
Proof.
  intros Hsub Hc. assert (parts_seen seen' m = parts_seen seen m) as E; [|unfold complete, seen_count in *; by rewrite E]. unfold parts_seen. apply imap_ext. intros i p Hi. cbn.
  pose proof (complete_in seen m i p Hc Hi). by rewrite !bool_decide_eq_true_2 by set_solver.
Qed.

Lemma filter_one (P Q : message -> Prop) `{!forall x, Decision (P x), !forall x, Decision (Q x)} m l :
  NoDup l -> m ∈ l -> P m -> ~ Q m -> (forall x, x ∈ l -> x ≠ m -> P x <-> Q x) -> filter P l ≡ₚ m :: filter Q l.
Proof.
  intros Hnd Hm HP HQ Hx. apply list_elem_of_split in Hm as (a & b & ->). apply NoDup_app in Hnd as (_ & Hd & Hnd). apply NoDup_cons in Hnd as [Hnb _].
  assert (forall l' : list message, (forall x, x ∈ l' -> x ∈ a ++ m :: b /\ x ≠ m) -> filter P l' = filter Q l') as Heq.
  { intros l' Hl'. induction l' as [|x l' IH]; [done|]. destruct (Hl' x (list_elem_of_here _ _)) as [H1 H2]. specialize (Hx x H1 H2).
    rewrite !filter_cons, IH by (intros y Hy; apply Hl'; by apply list_elem_of_further). destruct (decide (P x)), (decide (Q x)); tauto || done. }
  rewrite !filter_app, filter_cons_True, filter_cons_False by done. rewrite (Heq a), (Heq b); [solve_Permutation|..].
  - intros x Hb. split; [in_list|]. by intros ->.
  - intros x Ha. split; [in_list|]. intros ->. apply (Hd m Ha). apply list_elem_of_here.
Qed.

(** Every message is completed once. *)
Lemma completions_perm msgs seen cs :
  messages_ok msgs -> NoDup cs -> Forall (chunk_of msgs) cs -> Forall (fun c => c ∉ seen) cs ->
  completions msgs seen cs ≡ₚ filter (fun m => complete (list_to_set cs ∪ seen) m /\ ~ complete seen m) msgs.
Proof.
  intros Ho. revert seen. induction cs as [|[id i] cs IH]; intros seen Hnd Hv Hs.
  { cbn [completions]. rewrite (list_filter_iff _ (fun _ => False)); [clear; induction msgs as [|x l IHl]; [done|by rewrite filter_cons_False by tauto]|]. intros m. cbn [list_to_set foldr]. rewrite (left_id_L ∅ (∪)). tauto. }
  apply NoDup_cons in Hnd as [Hn Hnd]. apply Forall_cons in Hv as [(m & Hm & Em & Hi) Hv]. apply Forall_cons in Hs as [Hs0 Hs]. cbn [fst snd] in Em, Hi. subst id.
  destruct (find_message msgs m (mo_ids msgs Ho) Hm) as [k Ek]. apply lookup_lt_is_Some in Hi as [p Hp]. set (seen' := {[(m.1, i)]} ∪ seen).
  destruct (seen_count_insert seen m i p Hp Hs0) as [Hcnt _]. fold seen' in Hcnt. pose proof (seen_count_le seen' m) as Hle. assert (~ complete seen m) as Hnc by (unfold complete; lia).
  assert (Forall (fun c => c ∉ seen') cs) as Hs'.
  { rewrite Forall_forall in Hs |- *. intros c Hin. unfold seen'. rewrite not_elem_of_union, not_elem_of_singleton. split; [|by apply Hs]. by intros ->. }
  cbn [completions fst]. rewrite Ek. fold seen'. rewrite (IH seen' Hnd Hv Hs'). rewrite seen_cons. fold seen'.
  assert (forall x, x ∈ msgs -> x ≠ m -> complete seen' x <-> complete seen x) as Hother.
  { intros x Hx Hne. assert (m.1 ≠ x.1) as Hne1.
    { intros E. destruct (find_message msgs x (mo_ids msgs Ho) Hx) as [k' Ek']. rewrite <-E, Ek in Ek'. by injection Ek' as _ ->. }
    unfold complete, seen_count, seen'. by rewrite parts_seen_other. }
  destruct (decide (complete seen' m)) as [Hc|Hc].
  - cbn [app]. symmetry. apply filter_one; [apply (NoDup_fmap_1 fst), Ho|done| |tauto|].
    + split; [|done]. eapply complete_mono; [|exact Hc]. apply union_subseteq_r.
    + intros x Hx Hne. by rewrite Hother.
  - cbn [app]. assert (forall x, x ∈ msgs -> complete (list_to_set cs ∪ seen') x /\ ~ complete seen' x <-> complete (list_to_set cs ∪ seen') x /\ ~ complete seen x) as Heq.
    { intros x Hx. destruct (decide (x = m)) as [->|Hne]; [tauto|]. by rewrite Hother. }
    clear - Heq. induction msgs as [|x l IH]; [done|]. rewrite !filter_cons. specialize (Heq x (list_elem_of_here _ _)) as Hx. specialize (IH (fun y Hy => Heq y (list_elem_of_further _ _ _ Hy))).
    repeat case_decide; [by constructor|tauto|tauto|done].
Qed.

(** ** Chunks in order *)

Definition chunks_of (m : message) : list (Z * nat) := map (pair m.1) (seq 0 (length m.2)).

Definition all_chunks (ms : list message) : list (Z * nat) := concat (map chunks_of ms).

Lemma all_chunks_in ms c : c ∈ all_chunks ms <-> chunk_of ms c.
Proof.
  unfold all_chunks, chunk_of. rewrite list_elem_of_In, in_concat. split.
  - intros (l & Hl & Hc). apply in_map_iff in Hl as (m & <- & Hm). unfold chunks_of in Hc. apply in_map_iff in Hc as (i & <- & Hi). apply in_seq in Hi. exists m. split_and!; [by apply list_elem_of_In|done|cbn; lia].
  - intros (m & Hm & E & Hi). exists (chunks_of m). split; [apply in_map; by apply list_elem_of_In|]. destruct c as [id i]. cbn in *. subst id. unfold chunks_of. apply in_map, in_seq. lia.
Qed.

Lemma all_chunks_nodup ms : NoDup ms.*1 -> NoDup (all_chunks ms).
Proof.
  induction ms as [|m ms IH]; intros Hnd; [constructor|]. rewrite fmap_cons in Hnd. apply NoDup_cons in Hnd as [Hn Hnd]. unfold all_chunks. cbn [map concat]. fold (all_chunks ms). apply NoDup_app. split_and!; [| |by apply IH].
  - unfold chunks_of. apply (NoDup_fmap_2 (pair m.1)). apply NoDup_ListNoDup, seq_NoDup.
  - intros c Hc Hin. apply all_chunks_in in Hin as (m' & Hm' & E & _). unfold chunks_of in Hc. apply list_elem_of_In, in_map_iff in Hc as (i & <- & _). apply Hn. cbn in E. rewrite <-E. by apply list_elem_of_fmap_2.
Qed.

Lemma completions_message msgs m n k seen rest :
  messages_ok msgs -> m ∈ msgs -> seen_count seen m = k -> (k + S n = length m.2)%nat -> (forall j, (k <= j)%nat -> (m.1, j) ∉ seen) ->
  completions msgs seen (map (pair m.1) (seq k (S n)) ++ rest) = m :: completions msgs (list_to_set (map (pair m.1) (seq k (S n))) ∪ seen) rest.
Proof.
  intros Ho Hm. destruct (find_message msgs m (mo_ids msgs Ho) Hm) as [x Ex]. revert k seen. induction n as [|n IH]; intros k seen Hk Hl Hn.
  all: destruct (lookup_lt_is_Some_2 m.2 k ltac:(lia)) as [p Hp]; destruct (seen_count_insert seen m k p Hp (Hn k ltac:(lia))) as [Hc _].
  all: rewrite <-cons_seq; cbn [map app completions fst]; rewrite Ex, seen_cons.
  - rewrite decide_True by (unfold complete; lia). cbn [app seq map list_to_set foldr]. by rewrite (left_id_L ∅ (∪)).
  - rewrite decide_False by (unfold complete; lia). cbn [app]. apply IH; [lia|lia|]. intros j Hj. rewrite not_elem_of_union, not_elem_of_singleton. split; [intros [= ->]; lia|apply Hn; lia].
Qed.

Lemma completions_all msgs ms seen :
  messages_ok msgs -> (forall m, m ∈ ms -> m ∈ msgs) -> NoDup ms.*1 -> (forall m j, m ∈ ms -> (m.1, j) ∉ seen) -> completions msgs seen (all_chunks ms) = ms.
Proof.
  intros Ho. revert seen. induction ms as [|m ms IH]; intros seen Hin Hnd Hs; [done|]. rewrite fmap_cons in Hnd. apply NoDup_cons in Hnd as [Hn Hnd].
  assert (m ∈ msgs) as Hm by (apply Hin, list_elem_of_here). pose proof (mo_len msgs Ho) as Hlen. rewrite Forall_forall in Hlen. specialize (Hlen m Hm). unfold zlen in Hlen.
  unfold all_chunks. cbn [map concat]. fold (all_chunks ms). unfold chunks_of. destruct (length m.2) as [|n] eqn:El; [lia|].
  rewrite completions_message; [|done|done| |lia|intros j _; apply Hs, list_elem_of_here].
  - f_equal. apply IH; [intros m' Hm'; apply Hin; by apply list_elem_of_further|done|]. intros m' j Hm'. rewrite not_elem_of_union, elem_of_list_to_set. split; [|apply Hs; by apply list_elem_of_further].
    intros Hc. apply list_elem_of_In, in_map_iff in Hc as (i & [= E _] & _). apply Hn. rewrite E. by apply list_elem_of_fmap_2.
  - unfold seen_count. assert (parts_seen seen m = replicate (length m.2) None) as ->; [|clear; induction (length m.2) as [|n IH]; [done|by cbn [replicate]; rewrite filter_cons_False by (cbn; tauto)]].
    apply list_eq. intros j. unfold parts_seen. rewrite list_lookup_imap. destruct (m.2 !! j) as [q|] eqn:Ej; cbn.
    + rewrite bool_decide_eq_false_2 by (apply Hs, list_elem_of_here). symmetry. apply lookup_replicate. split; [done|by apply lookup_lt_Some in Ej].
    + symmetry. apply lookup_replicate_None. by apply lookup_ge_None in Ej.
Qed.

(** ** Cutting *)

Fixpoint cut (n : nat) (data : list Z) : list (list Z) :=
  match n with O => [] | S n => take (Z.to_nat chunkSize) data :: cut n (drop (Z.to_nat chunkSize) data) end.

Lemma length_pieces n data : length (cut n data) = n.
Proof. revert data. induction n as [|n IH]; intros data; cbn [cut length]; [done|]. by rewrite IH. Qed.

Lemma concat_cut n data : (length data <= n * Z.to_nat chunkSize)%nat -> concat (cut n data) = data.
Proof.
  revert data. induction n as [|n IH]; intros data Hn; cbn [cut concat]; [by destruct data; cbn in Hn; [|lia]|]. rewrite IH; [apply take_drop|]. rewrite length_drop. lia.
Qed.

Definition message_of (id : Z) (w : list Z) : message := (u16 id, cut (Z.to_nat (chunk_count (zlen w))) w).

Lemma message_of_concat id w : concat (message_of id w).2 = w.
Proof.
  cbn [message_of snd]. apply concat_cut. unfold chunk_count, zlen. pose proof (Z.div_mod (Z.of_nat (length w) + chunkSize - 1) chunkSize ltac:(lia)). pose proof (Z.mod_pos_bound (Z.of_nat (length w) + chunkSize - 1) chunkSize ltac:(lia)). lia.
Qed.

Lemma chunk_loop_cut n id i total data :
  chunk_loop n id (Z.of_nat i) total data = map (fun j => chunk_bytes id (Z.of_nat j) total (default [] (cut n data !! (j - i)%nat))) (seq i n).
Proof.
  revert i data. induction n as [|n IH]; intros i data; cbn [chunk_loop cut seq map]; [done|]. rewrite Nat.sub_diag. cbn [lookup list_lookup default from_option]. f_equal.
  replace (Z.of_nat i + 1) with (Z.of_nat (S i)) by lia. rewrite IH. apply map_ext_in. intros j Hj. apply in_seq in Hj. replace (j - i)%nat with (S (j - S i)) by lia. done.
Qed.

(** The chunks that are sent are those of the message. *)
Lemma sendChunked_chunks msgs id w : messages_ok msgs -> message_of id w ∈ msgs -> sendChunked id w = map (bytes_of_chunk msgs) (chunks_of (message_of id w)).
Proof.
  intros Ho Hm. unfold sendChunked. cbv zeta. set (total := chunk_count (zlen w)). assert (1 <= total) as Ht by (unfold total, chunk_count; lia).
  change 0 with (Z.of_nat 0). rewrite chunk_loop_cut. unfold chunks_of. rewrite map_map. cbn [message_of snd fst] in *. fold total. rewrite length_pieces. apply map_ext_in. intros j Hj. apply in_seq in Hj.
  destruct (lookup_lt_is_Some_2 (cut (Z.to_nat total) w) j ltac:(rewrite length_pieces; lia)) as [p Hp]. rewrite Nat.sub_0_r, Hp.
  pose proof (bytes_of_chunk_eq msgs (message_of id w) j p Ho Hm Hp) as E. cbn [message_of fst snd] in E. fold total in E. rewrite E. replace (zlen (cut (Z.to_nat total) w)) with total; [done|]. unfold zlen. rewrite length_pieces. lia.
Qed.

(** ** Frames *)

(** The greatest message that can be cut. *)
Abbreviation max_wire := (chunkSize * 65535).

Definition extra (o : option AEAD) : Z := match o with None => 0 | Some a => NonceSize a + Overhead a end.

Record frame_ok (o : option AEAD) (limit : Z) (f : frame) : Prop := {
  fo_id : is_u32 f.1.1;
  fo_type : is_u8 f.1.2;
  fo_bytes : is_bytes f.2;
  fo_limit : 5 + zlen f.2 <= limit;
  fo_wire : 5 + zlen f.2 + extra o <= max_wire
}.

(** The ciphers keep their laws, and the nonces have their size. *)
Definition seals (o : option AEAD) (limit : Z) (nonces : list (list Z)) : Prop :=
  match o with None => True | Some a => AEADLaws a limit /\ Forall (fun n => zlen n = NonceSize a) nonces end.

Definition body (f : frame) : list Z := put_be 4 f.1.1 ++ [f.1.2] ++ f.2.

Lemma zlen_body f : zlen (body f) = 5 + zlen f.2.
Proof. unfold body. zlen_norm. lia. Qed.

Lemma EncodeFrame_body f : EncodeFrame f = put_be 4 (u32 (zlen (body f))) ++ body f.
Proof. rewrite zlen_body. by destruct f as [[id ty] p]. Qed.

Lemma body_bytes o limit f : frame_ok o limit f -> is_bytes (body f).
Proof. intros [H1 H2 H3 _ _]. unfold body, is_bytes. rewrite !Forall_app. split_and!; [apply put_be_bytes|by apply Forall_singleton|done]. Qed.

Lemma extra_nonneg o limit nonces : seals o limit nonces -> 0 <= extra o.
Proof. destruct o as [a|]; cbn; [|lia]. intros [L _]. destruct (@aead_sizes a limit L). lia. Qed.

Lemma frame_u32 o limit nonces f : seals o limit nonces -> frame_ok o limit f -> is_u32 (zlen (body f)).
Proof. intros Hs [_ _ _ _ Hw]. pose proof (extra_nonneg o limit nonces Hs). pose proof (zlen_nonneg f.2). rewrite zlen_body. red. change (2 ^ 32) with 4294967296. lia. Qed.

(** What goes over the wire is what is delivered. *)
Lemma seal_delivers t limit nonces n f :
  seals (obf t) limit nonces -> n ∈ nonces -> frame_ok (obf t) limit f ->
  exists w, EncryptPayload (obf t) n (body f) = Ret w /\ zlen w = 5 + zlen f.2 + extra (obf t) /\ deliverMessage t w = Ret [EncodeFrame f].
Proof.
  intros Hs Hn Hf. pose proof (body_bytes _ _ _ Hf) as Hb. pose proof (zlen_body f) as Hl. pose proof (zlen_nonneg f.2) as H0. rewrite EncodeFrame_body. unfold deliverMessage, DecryptPayload, EncryptPayload.
  assert (exists x y, body f = x :: y) as (x & y & Exy) by (destruct (body f); [rewrite zlen_nil in Hl; lia|by eexists _, _]).
  destruct (obf t) as [a|]; cbn [seals extra] in *.
  - destruct Hs as [L Hns]. rewrite Forall_forall in Hns. specialize (Hns n Hn). destruct (@aead_sizes a limit L) as [Ha1 Ha2]. destruct (@aead_open_seal a limit L n (body f) Hns Hb) as (c & E1 & E2 & E3); [rewrite Hl; apply Hf|].
    rewrite E1. cbn [mbind res_bind]. eexists. split; [done|]. rewrite zlen_app. split; [lia|]. rewrite bool_decide_eq_false_2.
    2: { intros E. apply (f_equal zlen) in E. rewrite zlen_app, zlen_nil in E. lia. }
    rewrite (proj2 (Z.ltb_ge _ _)) by lia. rewrite <-Hns, go_slice_app. cbn [mbind res_bind]. rewrite go_from_app by done. cbn [mbind res_bind]. rewrite E3. cbn [mbind res_bind]. by rewrite Exy.
  - eexists. split; [done|]. split; [lia|]. rewrite bool_decide_eq_false_2 by (by rewrite Exy). cbn [mbind res_bind]. by rewrite Exy.
Qed.

Lemma EncodeFrame_parts f : EncodeFrame f = put_be 4 (u32 (zlen (body f))) ++ put_be 4 f.1.1 ++ [f.1.2] ++ f.2.
Proof. apply EncodeFrame_body. Qed.

(** ** Sending *)

Fixpoint messages_of (s : Z) (ws : list (list Z)) : list message :=
  match ws with [] => [] | w :: ws => message_of (u32 (s + 1)) w :: messages_of (u32 (s + 1)) ws end.

(** What is written for some wires. *)
Fixpoint written (c : bool) (s : Z) (ws : list (list Z)) : list (list Z) :=
  match ws with [] => [] | w :: ws => (if c then sendChunked (u32 (s + 1)) w else [w]) ++ written c (u32 (s + 1)) ws end.

Lemma written_plain s ws : written false s ws = ws.
Proof. revert s. induction ws as [|w ws IH]; intros s; [done|]. cbn [written app]. by rewrite IH. Qed.

Lemma send_loop_ok fs nonces limit t fuel :
  seals (obf t) limit nonces -> length nonces = length fs -> Forall (frame_ok (obf t) limit) fs -> (length (concat (map EncodeFrame fs)) <= fuel)%nat ->
  exists t' ws, send_loop fuel t nonces (concat (map EncodeFrame fs)) = Ret (t', written (chunked t) (sendMsgID t) ws) /\
    Forall2 (fun f w => deliverMessage t w = Ret [EncodeFrame f] /\ zlen w <= max_wire /\ w ≠ []) fs ws.
Proof.
  revert nonces t fuel. induction fs as [|f fs IH]; intros nonces t fuel Hs Hn Hf Hfuel.
  { exists t, []. split; [|constructor]. cbn [map concat]. by destruct fuel. }
  destruct nonces as [|n nonces]; [done|]. injection Hn as Hn. apply Forall_cons in Hf as [Hf Hfs].
  destruct (seal_delivers t limit (n :: nonces) n f Hs (list_elem_of_here _ _) Hf) as (w & Ew & Hw & Hd).
  assert (seals (obf t) limit nonces) as Hs' by (destruct (obf t); [|done]; destruct Hs as [L Hns]; split; [done|]; by apply Forall_cons in Hns as [_ ?]).
  pose proof (frame_u32 _ _ _ _ Hs Hf) as Hu. pose proof (zlen_body f) as Hl. pose proof (zlen_nonneg f.2) as H0. pose proof (extra_nonneg _ _ _ Hs) as He.
  cbn [map concat] in Hfuel |- *. rewrite EncodeFrame_body in Hfuel |- *. rewrite u32_id in Hfuel |- * by done. set (rest := concat (map EncodeFrame fs)) in *. rewrite <-app_assoc in Hfuel |- *.
  assert (zlen (put_be 4 (zlen (body f)) ++ body f ++ rest) = 4 + zlen (body f) + zlen rest) as Hz by (zlen_norm; lia). pose proof (zlen_nonneg rest) as Hr.
  rewrite !length_app, length_put_be in Hfuel. destruct fuel as [|fuel]; [lia|]. cbn [send_loop]. rewrite (proj2 (Z.ltb_ge _ 4)) by lia. rt_step.
  rewrite (proj2 (Z.ltb_ge _ 5)), Hz, (proj2 (Z.ltb_ge _ (4 + _))) by lia. cbn [orb].
  rewrite (go_slice_mid (put_be 4 (zlen (body f))) (body f) rest) by (rewrite ?zlen_put_be; lia). cbn [mbind res_bind tail]. change (default [] (head (n :: nonces))) with n. rewrite Ew. cbn [mbind res_bind].
  assert (w ≠ []) as Hne by (intros ->; rewrite zlen_nil in Hw; lia). pose proof (fo_wire _ _ _ Hf) as Hmax.
  destruct (chunked t) eqn:Ec.
  - set (t1 := mk_tunnel (obf t) true (recvBufs t) (u32 (sendMsgID t + 1))). rewrite app_assoc, go_from_app by (rewrite zlen_app, zlen_put_be; lia). cbn [mbind res_bind].
    destruct (IH nonces t1 fuel Hs' Hn Hfs ltac:(lia)) as (t' & ws & E & Hws). rewrite E. cbn [mbind res_bind]. exists t', (w :: ws). split; [done|]. constructor; [|done]. split_and!; [done|lia|done].
  - rewrite app_assoc, go_from_app by (rewrite zlen_app, zlen_put_be; lia). cbn [mbind res_bind].
    destruct (IH nonces t fuel Hs' Hn Hfs ltac:(lia)) as (t' & ws & E & Hws). rewrite E, Ec. cbn [mbind res_bind]. exists t', (w :: ws). split; [by rewrite !written_plain|]. constructor; [|done]. split_and!; [done|lia|done].
Qed.

Lemma u16_u32_add a b : u16 (u32 a + b) = u16 (a + b).
Proof.
  unfold u16, u32. pose proof (Z.div_mod a (2 ^ 32) ltac:(lia)). replace (a mod 2 ^ 32 + b) with (a + b + - (a / 2 ^ 32 * 2 ^ 16) * 2 ^ 16) by lia. apply Z.mod_add. lia.
Qed.

Lemma messages_ids s ws k : (messages_of s ws).*1 !! k = if decide (k < length ws)%nat then Some (u16 (s + 1 + Z.of_nat k)) else None.
Proof.
  revert s k. induction ws as [|w ws IH]; intros s k; [done|]. cbn [messages_of length]. rewrite fmap_cons. destruct k as [|k].
  - cbn. f_equal. by rewrite <-(Z.add_0_r (u32 (s + 1))), u16_u32_add.
  - cbn [lookup list_lookup]. rewrite IH. repeat case_decide; try lia; [|done]. f_equal. rewrite <-Z.add_assoc, u16_u32_add. f_equal. lia.
Qed.

Lemma chunk_count_bound len : 0 <= len <= max_wire -> 1 <= chunk_count len < 65536.
Proof.
  intros Hl. unfold chunk_count. assert ((len + chunkSize - 1) / chunkSize < 65536) by (apply Z.div_lt_upper_bound; lia). lia.
Qed.

Lemma messages_of_ok s ws : zlen ws <= 65536 -> Forall (fun w => zlen w <= max_wire) ws -> messages_ok (messages_of s ws).
Proof.
  intros Hn Hw. split.
  - apply NoDup_alt. intros i j x. rewrite !messages_ids. repeat case_decide; [|done..]. intros [= <-] [= E]. unfold u16 in E. unfold zlen in Hn.
    pose proof (Z.div_mod (s + 1 + Z.of_nat i) (2 ^ 16) ltac:(lia)). pose proof (Z.div_mod (s + 1 + Z.of_nat j) (2 ^ 16) ltac:(lia)). change (2 ^ 16) with 65536 in *. lia.
  - clear. revert s. induction ws as [|w ws IH]; intros s; constructor; [apply u16_range|apply IH].
  - clear Hn. revert s. induction Hw as [|w ws Hw _ IH]; intros s; constructor; [|apply IH]. cbn [message_of snd].
    pose proof (chunk_count_bound (zlen w) (conj (zlen_nonneg w) Hw)) as Hb. assert (zlen (cut (Z.to_nat (chunk_count (zlen w))) w) = chunk_count (zlen w)) as -> by (unfold zlen at 1; rewrite length_pieces; lia). lia.
Qed.

Lemma written_chunks msgs s ws : messages_ok msgs -> (forall m, m ∈ messages_of s ws -> m ∈ msgs) -> written true s ws = map (bytes_of_chunk msgs) (all_chunks (messages_of s ws)).
Proof.
  intros Ho. revert s. induction ws as [|w ws IH]; intros s Hin; [done|]. cbn [written messages_of]. unfold all_chunks. cbn [map concat]. fold (all_chunks (messages_of (u32 (s + 1)) ws)).
  rewrite map_app, <-IH by (intros m Hm; apply Hin; by apply list_elem_of_further). f_equal. apply sendChunked_chunks; [done|]. apply Hin, list_elem_of_here.
Qed.

Lemma messages_deliver t s fs ws :
  Forall2 (fun f w => deliverMessage t w = Ret [EncodeFrame f] /\ zlen w <= max_wire /\ w ≠ []) fs ws ->
  let g := fun m : message => match deliverMessage t (concat m.2) with Ret [x] => x | _ => [] end in
  deliverable t g (messages_of s ws) /\ map g (messages_of s ws) = map EncodeFrame fs.
Proof.
  intros Hf g. unfold deliverable. revert s. induction Hf as [|f w fs ws (Hd & _ & _) _ IH]; intros s; [by split; [apply Forall_nil|]|]. destruct (IH (u32 (s + 1))) as [H1 H2].
  assert (deliverMessage t (concat (message_of (u32 (s + 1)) w).2) = Ret [EncodeFrame f]) as E by (by rewrite message_of_concat).
  cbn [messages_of map]. split; [constructor; [|done]|rewrite H2]; unfold g; by rewrite E.
Qed.

Lemma complete_once msgs cs m : cs ≡ₚ all_chunks msgs -> m ∈ msgs -> complete (list_to_set cs ∪ ∅) m.
Proof.
  intros Hp Hm. unfold complete, seen_count. rewrite <-(parts_seen_length (list_to_set cs ∪ ∅) m). f_equal. apply filter_true. intros x Hx. apply list_elem_of_lookup in Hx as [i Hi]. unfold parts_seen in Hi. rewrite list_lookup_imap in Hi.
  destruct (m.2 !! i) as [p|] eqn:Ei; [|done]. cbn in Hi. rewrite bool_decide_eq_true_2 in Hi; [by injection Hi as <-|]. rewrite elem_of_union. left. rewrite elem_of_list_to_set, Hp. apply all_chunks_in. exists m. split_and!; [done|done|by apply lookup_lt_Some in Ei].
Qed.

Lemma incomplete_none msgs m : messages_ok msgs -> m ∈ msgs -> ~ complete ∅ m.
Proof.
  intros Ho Hm Hc. pose proof (mo_len msgs Ho) as Hl. rewrite Forall_forall in Hl. specialize (Hl m Hm). unfold zlen in Hl. destruct (lookup_lt_is_Some_2 m.2 0 ltac:(lia)) as [p Hp].
  by apply (complete_in ∅ m 0 p Hc) in Hp.
Qed.

(** The chunks of some messages in any order. *)
Lemma read_all r g msgs cs :
  messages_ok msgs -> deliverable r g msgs -> recvBufs r = ∅ -> chunked r = true -> cs ≡ₚ all_chunks msgs ->
  exists r', read_messages r (map (bytes_of_chunk msgs) cs) = Ret (r', map g (completions msgs ∅ cs)) /\ recvBufs r' = ∅ /\ completions msgs ∅ cs ≡ₚ msgs.
Proof.
  intros Ho Hd He Hc Hp. assert (NoDup cs) as Hnd by (rewrite Hp; apply all_chunks_nodup, Ho). assert (Forall (chunk_of msgs) cs) as Hv by (apply Forall_forall; intros c Hin; apply all_chunks_in; by rewrite <-Hp).
  assert (Forall (fun c => c ∉ (∅ : gset (Z * nat))) cs) as Hs by (apply Forall_forall; intros c _; apply not_elem_of_empty).
  assert (holds msgs ∅ r) as Hh.
  { split; [|intros id _; by rewrite He, lookup_empty]. intros m Hm. rewrite He, lookup_empty. unfold buffered. rewrite decide_True; [done|]. right. left.
    unfold seen_count. assert (Forall (fun x => ~ x ≠ None) (parts_seen ∅ m)) as Hf.
    { apply Forall_lookup. intros i x. unfold parts_seen. rewrite list_lookup_imap. destruct (m.2 !! i); [|done]. cbn. intros [= <-]. tauto. }
    induction Hf as [|x l Hx _ IH]; [done|]. by rewrite filter_cons_False. }
  destruct (read_chunks r g msgs ∅ cs Ho Hd Hh Hc Hnd Hv Hs) as (r' & E & _ & _ & Hh'). exists r'. split; [done|]. split.
  - apply map_eq. intros id. rewrite lookup_empty. destruct (decide (id ∈ msgs.*1)) as [Hin|Hnin]; [|by apply (h_out _ _ _ Hh')]. apply list_elem_of_fmap in Hin as (m & -> & Hm).
    pose proof (h_in _ _ _ Hh' m Hm) as Hb. unfold buffered in Hb. rewrite decide_True in Hb by (right; right; by apply (complete_once msgs)). by destruct (recvBufs r' !! m.1).
  - rewrite (completions_perm msgs ∅ cs Ho Hnd Hv Hs), filter_true; [done|]. intros m Hm. split; [by apply (complete_once msgs)|by apply (incomplete_none msgs)].
Qed.

Lemma frames_loop_ok o limit fs nonces fuel :
  seals o limit nonces -> Forall (frame_ok o limit) fs -> (length (concat (map EncodeFrame fs)) <= fuel)%nat -> frames_loop fuel (concat (map EncodeFrame fs)) = Ret fs.
Proof.
  intros Hs. revert fuel. induction fs as [|f fs IH]; intros fuel Hf Hfuel; [by destruct fuel|]. apply Forall_cons in Hf as [Hf Hfs].
  pose proof (frame_u32 _ _ _ _ Hs Hf) as Hu. pose proof (zlen_body f) as Hl. pose proof (zlen_nonneg f.2) as H0. pose proof (fo_id _ _ _ Hf) as Hid.
  cbn [map concat] in Hfuel |- *. rewrite EncodeFrame_parts in Hfuel |- *. rewrite u32_id in Hfuel |- * by done. rewrite Hl in *. set (rest := concat (map EncodeFrame fs)) in *. rewrite <-!app_assoc in Hfuel |- *.
  rewrite !length_app, !length_put_be in Hfuel. pose proof (zlen_nonneg rest) as Hr. destruct fuel as [|fuel]; [lia|]. cbn [frames_loop].
  assert (zlen (put_be 4 (5 + zlen f.2) ++ put_be 4 f.1.1 ++ [f.1.2] ++ f.2 ++ rest) = 9 + zlen f.2 + zlen rest) as Hz by (zlen_norm; lia). rewrite Hz, (proj2 (Z.ltb_ge _ 4)) by lia. rt_step.
  rewrite (proj2 (Z.ltb_ge _ 5)), (proj2 (Z.ltb_ge _ (4 + _))) by lia. cbn [orb]. rewrite (go_slice_mid (put_be 4 (5 + zlen f.2)) (put_be 4 f.1.1) _ 4 8) by (rewrite ?zlen_put_be; lia). cbn [mbind res_bind].
  rewrite <-(app_nil_r (put_be 4 f.1.1)) at 1. rt_step.
  assert (forall (x : list Z) y z, zlen x = 8 -> go_index (x ++ [y] ++ z) 8 = Ret y) as Hidx.
  { intros x y z Hx. unfold go_index. cbn [Z.leb Z.compare]. change (Z.to_nat 8) with 8%nat. rewrite lookup_app_r by (unfold zlen in Hx; lia). by replace (8 - length x)%nat with 0%nat by (unfold zlen in Hx; lia). }
  rewrite (app_assoc (put_be 4 _)), Hidx by (rewrite zlen_app, !zlen_put_be; lia). cbn [mbind res_bind]. rewrite (app_assoc _ [f.1.2]).
  rewrite (go_slice_mid _ f.2 rest) by (rewrite ?zlen_app, ?zlen_put_be, ?zlen_cons, ?zlen_nil; lia). cbn [mbind res_bind].
  rewrite (app_assoc _ f.2), go_from_app by (rewrite !zlen_app, !zlen_put_be, zlen_cons, zlen_nil; lia). cbn [mbind res_bind]. rewrite IH by (done || lia). cbn [mbind res_bind]. by destruct f as [[]].
Qed.

(** The settings of the video are read back within their bounds. *)
Lemma config_back fps batch trackCount :
  exists payload, EncodeVP8Config fps batch trackCount = EncodeFrame (ControlConnID, MsgConfig, payload) /\
    DecodeVP8Config payload = Ret (Some (clamp fps, clamp batch, clamp trackCount)) /\ LooksLikeRelayFrame (EncodeVP8Config fps batch trackCount) = Ret true.
Proof.
  assert (forall x, is_u16 (clamp x)) as Hc by (intros x; red; unfold clamp; change (2 ^ 16) with 65536; lia). eexists. split; [done|]. split; [|done].
  unfold DecodeVP8Config. change (zlen (put_be 2 (clamp fps) ++ put_be 2 (clamp batch) ++ put_be 2 (clamp trackCount))) with 6. cbn [Z.ltb Z.leb Z.compare Pos.compare Pos.compare_cont].
  pose proof (Hc fps). pose proof (Hc batch). pose proof (Hc trackCount). rt_step. rewrite (go_slice_mid (put_be 2 (clamp fps)) (put_be 2 (clamp batch)) _ 2 4) by (rewrite ?zlen_put_be; lia). cbn [mbind res_bind].
  rewrite <-(app_nil_r (put_be 2 (clamp batch))) at 1. rt_step. rewrite app_assoc. rewrite <-(app_nil_r (put_be 2 (clamp trackCount))).
  rewrite (go_slice_mid (put_be 2 (clamp fps) ++ put_be 2 (clamp batch)) (put_be 2 (clamp trackCount)) [] 4 6) by (rewrite ?zlen_app, ?zlen_put_be; lia). cbn [mbind res_bind].
  rewrite <-(app_nil_r (put_be 2 (clamp trackCount))). by rt_step.
Qed.

(** ** The theorem *)

(** C38: frames of the relay (at most 65536 of them, each with fewer than 65536
    chunks) that are sent over a data channel, sealed or not, cut into chunks or
    not, in messages that fit the buffer of the reader, are handed out at the other end each once and unchanged: in their order
    when the channel keeps the order of its messages, and all of them, in the
    order in which they become complete, when it does not.  No part is left
    behind, and decoding gives the frames. *)
Theorem call_frames_delivered (t r : DCTunnel) limit (fs : list frame) nonces :
  seals (obf t) limit nonces -> length nonces = length fs -> Forall (frame_ok (obf t) limit) fs -> zlen fs <= 65536 ->
  obf r = obf t -> chunked r = chunked t -> recvBufs r = ∅ ->
  exists t' ms, SendData t nonces (concat (map EncodeFrame fs)) = Ret (t', ms) /\
    (exists r', read_messages r ms = Ret (r', map EncodeFrame fs) /\ recvBufs r' = ∅) /\
    (forall ms', ms' ≡ₚ ms -> exists r' outs, read_messages r ms' = Ret (r', outs) /\ outs ≡ₚ map EncodeFrame fs /\ recvBufs r' = ∅) /\
    DecodeFrames (concat (map EncodeFrame fs)) = Ret fs.
Proof.
  intros Hs Hn Hf Hlen Eo Ec He. destruct (send_loop_ok fs nonces limit t _ Hs Hn Hf (Nat.le_refl _)) as (t' & ws & E & Hws).
  exists t', (written (chunked t) (sendMsgID t) ws). split; [exact E|].
  assert (DecodeFrames (concat (map EncodeFrame fs)) = Ret fs) as Hdec by (by eapply frames_loop_ok).
  assert (Forall2 (fun f w => deliverMessage r w = Ret [EncodeFrame f] /\ zlen w <= max_wire /\ w ≠ []) fs ws) as Hws'.
  { eapply Forall2_impl; [exact Hws|]. intros f w Hfw. by rewrite (deliver_obf t r). }
  clear Hws. rename Hws' into Hws.
  destruct (chunked t) eqn:Ect.
  - destruct (messages_deliver r (sendMsgID t) fs ws Hws) as [Hd Hg]. set (g := fun m : message => _) in *. set (msgs := messages_of (sendMsgID t) ws) in *.
    assert (messages_ok msgs) as Ho.
    { apply messages_of_ok; [apply Forall2_length in Hws; unfold zlen in *; lia|]. clear - Hws. induction Hws as [|f w fs ws (_ & H & _) _ IH]; by constructor. }
    rewrite (written_chunks msgs) by done. fold msgs. split_and!; [| |done].
    + destruct (read_all r g msgs (all_chunks msgs) Ho Hd He Ec ltac:(done)) as (r' & E1 & E2 & _). exists r'. split; [|done]. rewrite completions_all, Hg in E1; [done|done|done|apply Ho|intros; apply not_elem_of_empty].
    + intros ms' Hp. apply Permutation_map_inv in Hp as (cs & -> & Hcs). symmetry in Hcs. destruct (read_all r g msgs cs Ho Hd He Ec Hcs) as (r' & E1 & E2 & E3).
      exists r', (map g (completions msgs ∅ cs)). split_and!; [done| |done]. rewrite <-Hg. by apply Permutation_map.
  - rewrite written_plain. assert (forall ms' fs', Forall2 (fun f w => deliverMessage r w = Ret [EncodeFrame f] /\ zlen w <= max_wire /\ w ≠ []) fs' ms' -> read_messages r ms' = Ret (r, map EncodeFrame fs')) as Hread.
    { intros ms' fs' Hm. induction Hm as [|f w fs' ms' (Hd & _ & Hne) _ IH]; [done|]. cbn [read_messages]. unfold read_message. rewrite Ec. cbn [andb]. rewrite bool_decide_eq_false_2, Hd by done. cbn [mbind res_bind]. by rewrite IH. }
    split_and!; [exists r; split; [by apply Hread|done]| |done]. intros ms' Hp. symmetry in Hp. apply Forall2_flip in Hws. destruct (Permutation_Forall2 Hp Hws) as (fs' & Hpf & Hws').
    exists r, (map EncodeFrame fs'). split_and!; [apply Hread; by apply Forall2_flip|symmetry; by apply Permutation_map|done].
Qed.

(** ** Examples *)

Definition end_point : DCTunnel := mk_tunnel (Some SimpleAuthenticator) true ∅ 65534.

Definition some_frames : list frame := [(1, MsgConnect, [104; 111; 115; 116]); (1, MsgData, replicate 3000 7); (2, MsgClose, [])].

Lemma some_frames_ok : Forall (frame_ok (Some SimpleAuthenticator) 65535) some_frames.
Proof.
  assert (forall f : frame, is_u32 f.1.1 -> is_u8 f.1.2 -> is_bytes f.2 -> zlen f.2 <= 5000 -> frame_ok (Some SimpleAuthenticator) 65535 f) as H.
  { intros f H1 H2 H3 H4. split; [done|done|done|lia|]. change (extra (Some SimpleAuthenticator)) with 6. lia. }
  repeat apply Forall_cons_2; try apply Forall_nil_2; apply H; cbn [fst snd]; try (red; lia).
  all: try (apply Forall_replicate; by vm_compute). all: try (repeat constructor; by vm_compute). all: unfold zlen; rewrite ?length_replicate; cbn; lia.
Qed.

Lemma call_frames_delivered_witness :
  exists t' ms, SendData end_point [[]; []; []] (concat (map EncodeFrame some_frames)) = Ret (t', ms) /\
    forall ms', ms' ≡ₚ ms -> exists r' outs, read_messages end_point ms' = Ret (r', outs) /\ outs ≡ₚ map EncodeFrame some_frames /\ recvBufs r' = ∅.
Proof.
  destruct (call_frames_delivered end_point end_point 65535 some_frames [[]; []; []]) as (t' & ms & E & _ & Hp & _).
  - split; [exact SimpleAuthenticator_laws|repeat constructor].
  - reflexivity.
  - exact some_frames_ok.
  - vm_compute. done.
  - reflexivity.
  - reflexivity.
  - reflexivity.
  - exists t', ms. split; [exact E|exact Hp].
Defined.

(** The chunks of a message of which one was lost stay; when its number comes
    again, they are mixed with those of the new message. *)
Example lost_chunk_mixed :
  let r := mk_tunnel None true ∅ 0 in
  read_messages r [chunk_bytes 1 0 2 [10]; chunk_bytes 1 0 2 [20]; chunk_bytes 1 1 2 [21]] =
    Ret (r, [put_be 4 2 ++ [10; 21]]).
Proof. by vm_compute. Qed.
